(* ===== verification/_CoqProject ===== *)
-Q . S2P
Prelude.v
BitField.v
Ring.v
Common.v
History.v
TaggedBank.v
Rob.v
RobSpec.v
RobProps.v
StoreBuffer.v
StoreBufferSpec.v
LoadQueue.v
Rename.v
RenameO3.v
RenameInv.v
RenameO3Props.v
RenameSound.v
InOrder.v
Pmp.v
Policy.v
Prefetch.v
Cache.v
CacheSpec.v
Tlb.v
Csr.v
Mmu.v
MmuSpec.v
Cpu.v
CpuProps.v
HartProps.v
Alu.v
Lsu.v
Isa.v
Decode.v
DecodeSpec.v
Rvc.v
WriteBuffer.v
Dram.v
Hierarchy.v
Soc.v
Uart.v
VirtioDisk.v
Plic.v
Interconnect.v
BusSpec.v
Commit.v
CommitSpec.v
CommitProps.v
Latches.v
MemDep.v
IssueQueue.v
IssueQueueProps.v
Mshr.v
Core.v
Predictor.v
Tage.v
ScLTage.v
BranchUnits.v
PredictorBounds.v
Execute.v
ExecuteSpec.v
Memory.v
O3Tick.v
Fetch.v
InOrderTick.v
Pipeline.v
Flight.v
InOrderProps.v
O3Flight.v
O3Props.v
Config.v
System.v
SystemProps.v
Fpu.v
FpuFormat.v
FpuProps.v
DeviceTree.v
Disasm.v
Loader.v
PyCpu.v
