(* ===== verification/Prelude.v ===== *)
(** * A verification development of the rvsim RISC-V simulator

    rvsim is a cycle-level simulator of a 64-bit RISC-V hart: a frontend fetches
    and decodes, [rename_stage] allocates reorder buffer, queue and register
    resources, an in-order or an out-of-order engine executes, and
    [commit_stage] retires in program order, applying the deferred effects
    (register writes, stores, CSR writes, traps).  Addresses go through the MMU
    (two L1 TLBs, a shared L2 TLB and an SV39 walker) and the PMP; cache
    simulators give latencies.  All of this is under
    [src/crates/hardware/src/]; file names below are relative to it.

    ** Files

    - [Prelude]: machine-width arithmetic ([wrap], [add64], [in_width], bit
      tests), early-exit loops ([flow], [list_scan]), automation ([case_bool],
      [to_prop]) and lemmas on lists and bits.  [Ring]: scans, rewrites and
      compaction of circular buffers.  [Common]: [common/*.rs],
      [core/arch/mode.rs], [core/pipeline/signals.rs].
    - [Rob], [RobSpec], [RobProps]: the reorder buffer,
      [core/pipeline/rob.rs].  [Rob] is the code: a ring of entries, a tag
      index and 32-bit wrapping tags.  [RobSpec] is a bounded queue of entries
      and the refinement; [RobProps] the queries.
    - [StoreBuffer], [StoreBufferSpec]: [core/pipeline/store_buffer.rs], its
      FIFO specification, and forwarding against byte memories.
    - [LoadQueue]: [core/pipeline/load_queue.rs] against a list of loads.
    - [Rename]: [prf.rs], [free_list.rs], [rename_map.rs], [checkpoint.rs],
      [scoreboard.rs] of [core/pipeline].  [RenameO3], [RenameInv],
      [RenameO3Props], [RenameSound]: renaming in the out-of-order engine
      ([frontend/rename.rs], the register part of [backend/shared/commit.rs],
      the recoveries of [backend/o3/mod.rs]) as a transition system with its
      invariant.  [InOrder]: the same for [backend/inorder/mod.rs].
    - [Pmp]: [core/units/mmu/pmp.rs].  [Tlb]: [core/units/mmu/tlb.rs].  [Csr]:
      [core/arch/csr.rs].  [Mmu]: [core/units/mmu/mod.rs] and [ptw.rs] over a
      class [Bus]; [MmuSpec]: the SV39 algorithm as the relation [walks],
      coherence of the TLBs, and the refinement.
    - [Cpu]: the hart's state and [core/cpu/{csr,trap,execution,memory}.rs],
      [common/reg.rs], [core/arch/trap.rs], and [check_interrupts] and
      [sfence_vma_commit] of [commit.rs].  [CpuProps]: the CSR file invariant,
      trap entry and return.  [HartProps]: interrupts, fences, translation.
    - [Policy]: [core/units/cache/policies/*.rs], the trait as the class
      [ReplacementPolicy] with its laws.  [Prefetch]:
      [core/units/prefetch/*.rs], class [Prefetcher].  [Cache]:
      [core/units/cache/mod.rs] over both classes; [CacheSpec]: the directory
      of lines it refines.
    - [BitField]: a reflective decision procedure for equalities between bit
      packings (tactic [bitfield]).  [Alu]: [core/units/alu/*.rs] against the
      RV64IM operations.  [Lsu]: [core/units/lsu/*.rs].
    - [Isa]: [isa/{instruction,decode}.rs] and the code tables under [isa/].
      [Decode]: [frontend/decode.rs]; [DecodeSpec]: the instruction set as a
      type [instr] with its encoding and signals, and the bundles of the stage.
      [Rvc]: [isa/rvc/expand.rs] against the compressed instruction set.
      [Disasm]: [isa/disasm.rs] against the assembly syntax of [instr].
    - [WriteBuffer]: [core/pipeline/write_buffer.rs].  [Dram]:
      [soc/memory/controller.rs], class [MemoryController].  [Hierarchy]: the
      latency simulations of [core/cpu/memory.rs] over the caches of [Cache].
    - [Soc]: the DRAM buffer, CLINT, HTIF, system controller and clock
      ([soc/memory/{buffer,mod}.rs], [soc/devices/*.rs]).  [Plic]:
      [soc/devices/plic.rs].  [Interconnect]: [soc/interconnect.rs] over a class
      [ExtDevice] for the devices with host I/O; [BusSpec]: routing.
    - [Uart], [VirtioDisk]: [soc/devices/{uart,virtio_disk}.rs].
    - [Commit]: [backend/shared/commit.rs] whole, on the record [Machine] (the
      hart of [Cpu], the bus, the hierarchy, the write-combining buffer) and
      [Backend] (the queues).  [CommitSpec]: in-order retirement.  [CommitProps]:
      the stage, the drains and the RAM fast path.
    - [Latches]: [core/pipeline/latches.rs].  [MemDep]: [core/units/mdp/*.rs].
      [IssueQueue]: [backend/o3/{issue_queue,fu_pool}.rs]; [IssueQueueProps]: selection, operands and
      progress.  [Mshr]: [core/units/cache/mshr.rs].
    - [Core]: the record [Core], which extends [Machine] with what the other
      back-end stages use, and the classes [BranchUnit] and [FpUnit].
      [Execute]: [backend/o3/execute.rs] and [backend/inorder/execute.rs];
      [ExecuteSpec]: the integer instruction set and the CSR instructions.
    - [Memory]: [backend/shared/{memory1,memory2,writeback}.rs] and the completion
      of misses.  [O3Tick]: the cycle of [backend/o3/mod.rs], whose state
      [O3Backend] contains the renaming state of [RenameO3].  [InOrderTick]: the
      issue unit and the cycle of [backend/inorder].
    - [History], [TaggedBank]: the branch history and its folds
      ([core/units/bru/branch_predictor.rs], [components/folded_history.rs],
      [components/tagged_bank.rs]).  [Predictor], [Tage], [ScLTage]: the
      predictors of [core/units/bru], each an instance of [BranchUnit];
      [BranchUnits]: the wrapper of [bru/mod.rs] and the theorems on histories;
      [PredictorBounds]: the bounds of counters and weights.
    - [Fetch]: [frontend/{fetch1,fetch2}.rs].  [Pipeline]: the class
      [ExecutionEngine] of [engine.rs] with both engines as instances, and a
      whole cycle, engine and then frontend, with [rename_stage] between them; a
      program is run to its end on both, evaluated by the kernel.
    - [Flight]: what each stage does to the instructions in flight, for both
      engines; [InOrderProps]: the whole in-order pipeline; [O3Flight],
      [O3Props]: the whole out-of-order pipeline.
    - [Fpu], [FpuFormat], [FpuProps]: [core/units/fpu/*.rs], an instance of
      [FpUnit].  [Fpu] is the code over the floats of the Standard Library's
      [SpecFloat]; [FpuFormat] relates bit patterns to exact rationals;
      [FpuProps] are the IEEE properties.
    - [Config]: [config.rs].  [System]: [soc/builder.rs], the constructors of
      [core/cpu/mod.rs], [sim/simulator.rs] and the checks of
      [core/cpu/execution.rs]: the whole simulator and its cycle.
      [SystemProps]: the memory map and the simulator on both engines.
    - [DeviceTree]: [sim/dtb.rs] with a reader of the format.  [Loader]:
      [sim/loader.rs] and the constructor of [bindings/src/cpu.rs].
    - [PyCpu]: the rest of [bindings/src/{cpu,views}.rs] and
      [core/pipeline/snapshot.rs]: the run loops, the views of registers, CSRs
      and memory, pipeline snapshots, checkpoints.

    ** What the theorems show

    Queues (C1, C6 to C8, C21): the ring buffers behave as lists under every
    operation sequence; forwarding, hazard and ordering queries are exact.  The
    pipelines (C2, C3): no instruction is lost or duplicated between the stages,
    whatever traps, misses and mispredictions do, while fewer tags than
    [TAG_SPAN] are handed out.  Execution (C4, C5): the integer instruction set
    and CSR instructions with their access rules.
    Branch prediction (C9, C32, C33): the folded histories equal a
    recomputation, a repair undoes the wrong path up to what it leaves alone
    (branch targets, overwritten stack entries, a cache of sums), counters keep
    their widths.  Devices (C10): disk requests.  The simulator (C11, C12): what
    C2 and C3 say of a pipeline holds of every simulator a configuration
    builds, started, ticked and run, up to the first cycle in which the program
    would panic or not return; its memory map is the configured one.
    Floating point (C13 to C17): arithmetic is correctly rounded with the
    canonical NaN, conversions, comparisons and flags are those of the manual,
    single-precision results are boxed.  Start and embedding (C18 to C20): the
    device tree describes the bus, the kernel set-up, checkpoints.  Renaming
    (C22, C23): registers are conserved and checkpoints equal a rebuild, in every
    reachable state.  Issue (C25, C27): operands are exact, the oldest
    instruction makes progress.  Protection and translation (C24, C28): the PMP
    answers by the first region an access touches (accesses that straddle the
    edge of a region, which it lets fall through, apart), translation refines
    SV39 with the code's policy for accessed and dirty bits.  Caches (C26): the directory
    of resident lines.  Privileged state (C29 to C31): legal CSR values, trap
    entry and return, interrupt selection.  Instructions (C34 to C38): the ALU
    computes the manual's values, decoding inverts encoding, the decode stage
    progresses without hazards, compressed instructions expand to their
    definition, the disassembler prints what was encoded.  Memory controller
    (C39): when its refresh loop ends.  Commit (C40): retirement is in order and
    precise.  Beside these each file proves what its component needs: among
    others the agreement of the two engines on every instruction, fences and TLB coherence, issue by age
    within the ports, the in-order scoreboard, the drains and the RAM fast path.

    ** Conventions

    Integers of width [w] are [Z], with the wrap-around written out as in a
    release build, where debug assertions are absent; newtypes over integers
    are the integer; [usize] indices are [nat].  Out-of-range reads are total
    lookups ([!!!]) and the invariants show indices in range.  Mutation is
    state passing.  Loops with [break] or [return] are [list_scan] over the
    iteration space.  Tags wrap at [2^32] and compare by signed difference, so
    the refinements of the queues assume that live tags lie within [2^31]
    allocations ([TAG_SPAN]), which capacities guarantee in practice.  The only
    fuel is structural: loops from an index to the tail of a ring run at most
    capacity times (the loop invariants in [RobSpec] show the tail is reached),
    and the bit count of [trailing_zeros] at most 64; the refresh loop of the
    memory controller takes a fuel, and C39 says how much it needs;
    the drain of the store buffer takes its length; the walk of a descriptor
    chain takes the number of indices, which decides whether it ends; the folding
    of the history in the statistical corrector takes 64 steps, enough for tables
    of two entries or more (for one entry the program's loop does not end: C11
    asks for two); the disassembler calls itself once (C38).  The run
    loops of the Python interface have no bound of their own: their fuel is the
    number of cycles tried, and [PyCpu.runs_agree] says which fuel reaches the
    end.  Trait
    objects are sums ([DynPolicy], [DynPrefetcher], [Device]).  What several components share is
    one cell: the DRAM buffer and the exit signal are in [Soc.Shared], which the
    devices, the bus and the hart's RAM pointer all go through.  Where the
    code panics inside a component (a failed assertion, a write outside the
    buffer, a division by a zero divider when TIME is read) the model sets
    [sh_failed], and where it loops for ever (an endless descriptor chain, a
    refresh that never catches up) it sets [sh_hung] or the controller is [CPanicked] or [CHung]; [sim_tick] ends in
    [StepPanicked] or [StepHung] as soon as one of these is there, so no
    modelled run goes on where the program does not.  The theorems on
    translation take any bus that names addresses whose reads come from one
    memory and do not change the bus (class [BusMemory]); the walk must read
    such addresses only.  [BusSpec.Interconnect_memory] shows it of the real
    bus and its RAM, and [CommitProps] walks a page table there.

    ** Not modelled

    Statistics and traces beyond the counters that feed back, rendering, and the
    conversions between Rust and Python values: they are output and change
    nothing.  Code that is not in the repository is a parameter: the NaN and the
    exception flags a host operation yields ([HostFp], with the documented
    behaviour as the law [HostNan]), the file system, the ELF parser and the
    JSON serialiser of [Loader] and [PyCpu] (with the round trip
    [serde_roundtrip] as its law; a writer and reader of JSON text has it), the clock behind the real-time
    device, and the pending Python signals.  The bus sees the devices with host
    input through [ExtDevice]. *)
From stdpp Require Export base tactics numbers list list_numbers gmap fin_maps sorting.
From Stdlib Require Export ZArith Lia Bool.
From coqutil Require Export Datatypes.RecordSetters.
Export TriangleBracketNotations.
#[global] Arguments constant {_} _ _ /.
#[export] Set Warnings "-clear-no-such-hyp".

(** * Machine integers

    Rust's unsigned integers are [Z] values kept in range by the operations.
    [+], [-], [*] and [<<] wrap, as they do in the release profile of
    [Cargo.toml]; [wrapping_add] and friends wrap in every profile. *)

Declare Scope rust_scope.
Delimit Scope rust_scope with rust.

Definition wrap (w x : Z) : Z := (x mod 2 ^ w)%Z.
Definition in_width (w x : Z) : Prop := (0 <= x < 2 ^ w)%Z.
(** Reinterpretation of a [w]-bit pattern as a two's complement number
    ([as i32], [as i64]). *)
Definition as_signed (w x : Z) : Z :=
  (if x <? 2 ^ (w - 1) then x else x - 2 ^ w)%Z.

Abbreviation u8 := (wrap 8).
Abbreviation u16 := (wrap 16).
Abbreviation u32 := (wrap 32).
Abbreviation u64 := (wrap 64).
Abbreviation U64_MAX := 18446744073709551615%Z.

Definition add64 (a b : Z) : Z := u64 (a + b).
Definition sub64 (a b : Z) : Z := u64 (a - b).
Definition sub32 (a b : Z) : Z := u32 (a - b).
Definition shl64 (a n : Z) : Z := u64 (Z.shiftl a n).
Definition not64 (a : Z) : Z := (U64_MAX - a)%Z.
(** [x & m != 0] *)
Definition has_bits (x m : Z) : bool := negb (Z.land x m =? 0)%Z.
(** [(x >> n) & 1 != 0] *)
Definition bit_at (x n : Z) : bool := negb (Z.land (Z.shiftr x n) 1 =? 0)%Z.

Notation "x .& y" := (Z.land x y) (at level 40, left associativity) : rust_scope.
Notation "x .| y" := (Z.lor x y) (at level 50, left associativity) : rust_scope.
Notation "x >>. n" := (Z.shiftr x n) (at level 40, left associativity) : rust_scope.

(** * Loops with early return

    A Rust [for] or [while] body either falls through to the next iteration
    with the loop's state or returns from the function. *)

Inductive flow (S R : Type) : Type :=
| Continue (s : S)
| Return (r : R).
Arguments Continue {S R} s.
Arguments Return {S R} r.

(** The value of a function whose loop is [f] and whose code after the loop is [k]. *)
Definition after_loop {S R} (f : flow S R) (k : S -> R) : R :=
  match f with Continue s => k s | Return r => r end.

Fixpoint list_scan {A S R} (body : A -> S -> flow S R) (l : list A) (s : S) : flow S R :=
  match l with
  | [] => Continue s
  | a :: l' => match body a s with
               | Continue s' => list_scan body l' s'
               | Return r => Return r
               end
  end.

(** * Tactics and hint databases *)

Create HintDb rvsim.
Create Rewrite HintDb rvsim_simpl.

(** Case analysis on the boolean tests the models branch on. *)
Ltac case_bool :=
  match goal with
  | |- context [if ?b then _ else _] => destruct b eqn:?
  | H : context [if ?b then _ else _] |- _ => destruct b eqn:?
  end.

(** Boolean tests to propositions. *)
Ltac to_prop :=
  repeat match goal with
  | H : (_ && _) = true |- _ => apply andb_prop in H; destruct H
  | H : (_ || _) = false |- _ => apply orb_false_elim in H; destruct H
  | H : negb _ = true |- _ => apply negb_true_iff in H
  | H : negb _ = false |- _ => apply negb_false_iff in H
  | H : (_ =? _)%Z = true |- _ => apply Z.eqb_eq in H
  | H : (_ =? _)%Z = false |- _ => apply Z.eqb_neq in H
  | H : (_ <? _)%Z = true |- _ => apply Z.ltb_lt in H
  | H : (_ <? _)%Z = false |- _ => apply Z.ltb_ge in H
  | H : (_ <=? _)%Z = true |- _ => apply Z.leb_le in H
  | H : (_ <=? _)%Z = false |- _ => apply Z.leb_gt in H
  | H : (_ =? _)%nat = true |- _ => apply Nat.eqb_eq in H
  | H : (_ =? _)%nat = false |- _ => apply Nat.eqb_neq in H
  | H : (_ <? _)%nat = true |- _ => apply Nat.ltb_lt in H
  | H : (_ <? _)%nat = false |- _ => apply Nat.ltb_ge in H
  | H : (_ <=? _)%nat = true |- _ => apply Nat.leb_le in H
  | H : (_ <=? _)%nat = false |- _ => apply Nat.leb_gt in H
  | H : bool_decide _ = true |- _ => apply bool_decide_eq_true in H
  | H : bool_decide _ = false |- _ => apply bool_decide_eq_false in H
  end.

(** * Integer lemmas *)

Section Integers.
Local Open Scope Z_scope.

Lemma wrap_range (w x : Z) : 0 <= w -> in_width w (wrap w x).
Proof. intros. apply Z.mod_pos_bound. lia. Qed.

Lemma wrap_small (w x : Z) : in_width w x -> wrap w x = x.
Proof. apply Z.mod_small. Qed.

Lemma wrap_idemp (w x : Z) : 0 <= w -> wrap w (wrap w x) = wrap w x.
Proof. intros. apply wrap_small, wrap_range; lia. Qed.

Lemma wrap_testbit (w x i : Z) :
  0 <= w -> Z.testbit (wrap w x) i = (i <? w) && Z.testbit x i.
Proof.
  intros. unfold wrap. destruct (Z.ltb_spec i w); simpl.
  - destruct (decide (0 <= i)); [by apply Z.mod_pow2_bits_low|].
    by rewrite !Z.testbit_neg_r by lia.
  - by apply Z.mod_pow2_bits_high.
Qed.

Lemma land_1_testbit (x n : Z) :
  0 <= n -> Z.land (Z.shiftr x n) 1 = Z.b2z (Z.testbit x n).
Proof.
  intros. change 1 with (Z.ones 1) at 1.
  rewrite Z.land_ones, Z.testbit_spec', Z.shiftr_div_pow2 by lia. done.
Qed.

Lemma bit_at_testbit (x n : Z) : 0 <= n -> bit_at x n = Z.testbit x n.
Proof. intros. unfold bit_at. rewrite land_1_testbit by done. by destruct (Z.testbit x n). Qed.

Lemma has_bits_pow2 (x n : Z) : 0 <= n -> has_bits x (2 ^ n) = Z.testbit x n.
Proof.
  intros. unfold has_bits.
  assert (Z.land x (2 ^ n) = Z.shiftl (Z.b2z (Z.testbit x n)) n) as ->.
  { apply Z.bits_inj'. intros i Hi. rewrite Z.land_spec, Z.pow2_bits_eqb, Z.shiftl_spec by lia.
    destruct (Z.eqb_spec n i) as [->|Hne].
    - rewrite Z.sub_diag, andb_true_r. by destruct (Z.testbit x i).
    - rewrite andb_false_r. symmetry.
      destruct (Z.ltb_spec i n); [by apply Z.testbit_neg_r; lia|].
      apply Z.testbit_false; [lia|]. rewrite Z.div_small; [done|].
      assert (2 ^ 1 <= 2 ^ (i - n)) by (apply Z.pow_le_mono_r; lia).
      destruct (Z.testbit x n); simpl; lia. }
  rewrite Z.shiftl_mul_pow2 by done. destruct (Z.testbit x n); simpl; [|done].
  destruct (Z.eqb_spec (1 * 2 ^ n) 0); lia.
Qed.

Lemma not64_testbit (a i : Z) :
  in_width 64 a -> 0 <= i -> Z.testbit (not64 a) i = (i <? 64) && negb (Z.testbit a i).
Proof.
  unfold in_width. intros Ha Hi.
  assert (not64 a = wrap 64 (Z.lnot a)) as ->.
  { unfold not64, wrap, Z.lnot. apply Z.mod_unique with (-1); lia. }
  by rewrite wrap_testbit, Z.lnot_spec by lia.
Qed.

Lemma pow2_pred_testbit (n i : Z) : 0 <= n -> 0 <= i -> Z.testbit (2 ^ n - 1) i = (i <? n).
Proof. intros. rewrite <-Z.testbit_ones_nonneg, Z.ones_equiv by done. done. Qed.

Lemma testbit_above (w a i : Z) : in_width w a -> w <= i -> Z.testbit a i = false.
Proof.
  intros Ha Hi. destruct (decide (0 <= w)).
  - rewrite <-(wrap_small w a Ha), wrap_testbit by done. by rewrite (proj2 (Z.ltb_ge _ _)) by lia.
  - unfold in_width in Ha. rewrite (Z.pow_neg_r 2 w) in Ha by lia. lia.
Qed.

Lemma land_in_width (w a b : Z) : 0 <= w -> in_width w a -> in_width w (Z.land a b).
Proof.
  intros Hw Ha. assert (wrap w (Z.land a b) = Z.land a b) as <-; [|by apply wrap_range].
  apply Z.bits_inj'. intros i Hi. rewrite wrap_testbit, Z.land_spec by done.
  destruct (Z.ltb_spec i w); [done|]. by rewrite (testbit_above w a).
Qed.

(** [x & !(2^n - 1)] rounds down. *)
Lemma land_align_down (x n : Z) :
  in_width 64 x -> 0 <= n <= 64 -> Z.land x (not64 (2 ^ n - 1)) = x / 2 ^ n * 2 ^ n.
Proof.
  intros Hx Hn. rewrite <-Z.shiftl_mul_pow2, <-Z.shiftr_div_pow2 by lia. apply Z.bits_inj'. intros i Hi.
  assert (0 < 2 ^ n <= 2 ^ 64) by (split; [lia|apply Z.pow_le_mono_r; lia]).
  rewrite Z.land_spec, not64_testbit, pow2_pred_testbit by (unfold in_width; lia).
  rewrite Z.shiftl_spec by lia. destruct (Z.ltb_spec i n); simpl.
  - by rewrite andb_false_r, andb_false_r, Z.testbit_neg_r by lia.
  - rewrite Z.shiftr_spec, andb_true_r by lia. replace (i - n + n) with i by lia.
    destruct (Z.ltb_spec i 64); [by rewrite andb_true_r|].
    rewrite andb_false_r. symmetry. by apply (testbit_above 64).
Qed.

Lemma shl64_small (a n : Z) : 0 <= n -> 0 <= a * 2 ^ n < 2 ^ 64 -> shl64 a n = a * 2 ^ n.
Proof. intros. unfold shl64. rewrite Z.shiftl_mul_pow2 by done. by apply wrap_small. Qed.

(** Two numbers with disjoint bits: [|] is [+]. *)
Lemma lor_disjoint_add (hi lo n : Z) :
  0 <= n -> 0 <= lo < 2 ^ n -> Z.lor (Z.shiftl hi n) lo = hi * 2 ^ n + lo.
Proof.
  intros Hn Hlo.
  assert (Z.land (Z.shiftl hi n) lo = 0) as Hd.
  { apply Z.bits_inj'. intros i Hi. rewrite Z.land_spec, Z.shiftl_spec, Z.testbit_0_l by lia.
    destruct (Z.ltb_spec i n); [by rewrite Z.testbit_neg_r by lia|].
    rewrite <-(Z.mod_small lo (2 ^ n)), Z.mod_pow2_bits_high by lia. apply andb_false_r. }
  by rewrite <-Z.lxor_lor, <-Z.add_nocarry_lxor, Z.shiftl_mul_pow2 by done.
Qed.

Lemma land_low_mask (x n : Z) : 0 <= n -> Z.land x (2 ^ n - 1) = x mod 2 ^ n.
Proof. intros. by rewrite <-Z.land_ones, Z.ones_equiv. Qed.

End Integers.

#[export] Hint Resolve wrap_range : rvsim.
#[export] Hint Rewrite @length_insert @length_fmap @length_seq @length_app @length_replicate
  : rvsim_simpl.

(** * Generic list lemmas *)

Section Lists.
Context {A : Type}.

Lemma filter_all (P : A -> Prop) `{forall a, Decision (P a)} (l : list A) : Forall P l -> filter P l = l.
Proof. induction 1 as [|a l Ha Hl IH]; [done|]. rewrite filter_cons, decide_True by done. by rewrite IH. Qed.

Lemma list_scan_app {S R} (body : A -> S -> flow S R) (l1 l2 : list A) (s : S) :
  list_scan body (l1 ++ l2) s =
  match list_scan body l1 s with
  | Continue s' => list_scan body l2 s'
  | Return r => Return r
  end.
Proof. revert s. induction l1 as [|a l1 IH]; intros s; simpl; [done|]. by destruct (body a s). Qed.

Lemma list_scan_ext {S R} (f g : A -> S -> flow S R) (l : list A) (s : S) :
  (forall a s, a ∈ l -> f a s = g a s) -> list_scan f l s = list_scan g l s.
Proof.
  revert s. induction l as [|a l IH]; intros s H; simpl; [done|].
  rewrite H by set_solver. destruct (g a s); [|done]. apply IH. set_solver.
Qed.

(** A search loop that returns at the first element with a decision. *)
Lemma list_scan_find {R} (p : A -> option R) (l : list A) :
  list_scan (fun a (_ : unit) => match p a with Some r => Return r | None => Continue tt end) l tt =
  match list_find (fun a => is_Some (p a)) l with
  | Some (_, a) => match p a with Some r => Return r | None => Continue tt end
  | None => Continue tt
  end.
Proof.
  induction l as [|a l IH]; simpl; [done|].
  destruct (p a) eqn:E; case_decide as D; simpl.
  - by rewrite E.
  - destruct D; eauto.
  - by destruct D.
  - rewrite IH. by destruct (list_find _ l) as [[??]|].
Qed.

(** A scan that answers [true] at the first element satisfying [p]. *)
Lemma list_scan_existsb (body : A -> unit -> flow unit bool) (p : A -> bool) (l : list A) :
  (forall a, a ∈ l -> body a tt = if p a then Return true else Continue tt) ->
  after_loop (list_scan body l tt) (fun _ => false) = existsb p l.
Proof.
  induction l as [|a l IH]; intros H; simpl; [done|]. rewrite H by by left.
  destruct (p a); simpl; [done|]. apply IH. intros b Hb. apply H. by right.
Qed.

Lemma existsb_elem_of (p : A -> bool) (l : list A) :
  existsb p l = true <-> exists a, a ∈ l /\ p a = true.
Proof. rewrite existsb_exists. by setoid_rewrite list_elem_of_In. Qed.

Lemma lookup_total_Some `{Inhabited A} (l : list A) (i : nat) :
  i < length l -> l !! i = Some (l !!! i).
Proof. intros. by apply list_lookup_lookup_total_lt. Qed.

Lemma Forall_at `{Inhabited A} (P : A -> Prop) (l : list A) (i : nat) :
  Forall P l -> i < length l -> P (l !!! i).
Proof. intros Hf Hi. exact (proj1 (Forall_lookup _ _) Hf i _ (lookup_total_Some _ _ Hi)). Qed.

End Lists.
