(* ===== verification/BitField.v ===== *)
(** Field packing by reflection.

    Instruction words are packed and unpacked with masks, shifts and sign
    extensions.  An expression over such operations is evaluated symbolically
    to its list of bits, each a constant or a bit of a named field; two
    expressions with the same bits are equal.  [bitfield] proves such an
    equality by reifying both sides and computing. *)
From S2P Require Import Prelude.
From Stdlib Require Import ZArith.
Local Open Scope Z_scope.

(** * Fields *)

(** [w] bits of which the [a] low ones are zero, unsigned or signed. *)
Definition ufield (a w : nat) (v : Z) : Prop := 0 <= v < 2 ^ Z.of_nat w /\ v mod 2 ^ Z.of_nat a = 0.
Definition sfield (a w : nat) (v : Z) : Prop :=
  - 2 ^ Z.of_nat (w - 1) <= v < 2 ^ Z.of_nat (w - 1) /\ v mod 2 ^ Z.of_nat a = 0.

#[export] Instance ufield_dec a w v : Decision (ufield a w v).
Proof. unfold ufield. apply _. Defined.
#[export] Instance sfield_dec a w v : Decision (sfield a w v).
Proof. unfold sfield. apply _. Defined.

Lemma ufield_in_width (a w : nat) (v : Z) : ufield a w v -> in_width (Z.of_nat w) v.
Proof. by intros [? _]. Qed.
Lemma in_width_ufield (w : nat) (v : Z) : in_width (Z.of_nat w) v -> ufield 0 w v.
Proof. split; [done|]. by rewrite Z.mod_1_r. Qed.

(** * Symbolic bits *)

Inductive bit := B0 | B1 | BVar (v k : nat).
#[export] Instance bit_eq_dec : EqDecision bit.
Proof. solve_decision. Defined.

(** The bits of an integer: the low ones, and the one all others equal. *)
Definition sbits : Type := list bit * bit.
Definition sbit (s : sbits) (i : nat) : bit := default s.2 (s.1 !! i).

Definition combine (f : bit -> bit -> option bit) (s1 s2 : sbits) : option sbits :=
  l ← mapM (fun i => f (sbit s1 i) (sbit s2 i)) (seq 0 (length s1.1 `max` length s2.1));
  t ← f s1.2 s2.2; Some (l, t).

Definition bit_and (x y : bit) : option bit :=
  match x, y with
  | B0, _ | _, B0 => Some B0
  | B1, b | b, B1 => Some b
  | BVar _ _, BVar _ _ => if decide (x = y) then Some x else None
  end.
Definition bit_or (x y : bit) : option bit :=
  match x, y with
  | B1, _ | _, B1 => Some B1
  | B0, b | b, B0 => Some b
  | BVar _ _, BVar _ _ => if decide (x = y) then Some x else None
  end.
(** Sum of disjoint bits. *)
Definition bit_add (x y : bit) : option bit :=
  match x, y with
  | B0, b | b, B0 => Some b
  | _, _ => None
  end.

Definition bit_same (x y : bit) : option bit := if decide (x = y) then Some B0 else None.

(** * Expressions *)

Inductive field_kind := FUnsigned (a w : nat) | FSigned (a w : nat).

Inductive bexpr :=
| EVar (v : nat)
| EConst (c : Z)
| EAnd (e1 e2 : bexpr)
| EOr (e1 e2 : bexpr)
| EAdd (e1 e2 : bexpr)
| EShl (e : bexpr) (n : Z)
| EShr (e : bexpr) (n : Z)
| EWrap (w : Z) (e : bexpr)
| ESigned (w : Z) (e : bexpr).

Fixpoint beval (env : list Z) (e : bexpr) : Z :=
  match e with
  | EVar v => nth v env 0
  | EConst c => c
  | EAnd e1 e2 => Z.land (beval env e1) (beval env e2)
  | EOr e1 e2 => Z.lor (beval env e1) (beval env e2)
  | EAdd e1 e2 => beval env e1 + beval env e2
  | EShl e n => Z.shiftl (beval env e) n
  | EShr e n => Z.shiftr (beval env e) n
  | EWrap w e => wrap w (beval env e)
  | ESigned w e => as_signed w (beval env e)
  end.

Definition var_bits (v : nat) (k : field_kind) : sbits :=
  match k with
  | FUnsigned a w => (replicate (a `min` w) B0 ++ (BVar v <$> seq (a `min` w) (w - a)), B0)
  | FSigned a w => (replicate (a `min` (w - 1)) B0 ++ (BVar v <$> seq (a `min` (w - 1)) (w - 1 - a)),
                    BVar v (w - 1))
  end.
Definition bit_const (b : bool) : bit := if b then B1 else B0.
Definition const_bits (c : Z) : option sbits :=
  if bool_decide (- 2 ^ 64 <= c < 2 ^ 64)
  then Some ((fun i => bit_const (Z.testbit c (Z.of_nat i))) <$> seq 0 64, bit_const (c <? 0))
  else None.
Definition is_B0 (b : bit) : bool := match b with B0 => true | _ => false end.

Definition amount (n : Z) : option nat := if 0 <=? n then Some (Z.to_nat n) else None.

Fixpoint bits_of (kinds : list field_kind) (e : bexpr) : option sbits :=
  match e with
  | EVar v => k ← kinds !! v; Some (var_bits v k)
  | EConst c => const_bits c
  | EAnd e1 e2 => s1 ← bits_of kinds e1; s2 ← bits_of kinds e2; combine bit_and s1 s2
  | EOr e1 e2 => s1 ← bits_of kinds e1; s2 ← bits_of kinds e2; combine bit_or s1 s2
  | EAdd e1 e2 => s1 ← bits_of kinds e1; s2 ← bits_of kinds e2; combine bit_add s1 s2
  | EShl e n => s ← bits_of kinds e; k ← amount n; Some (replicate k B0 ++ s.1, s.2)
  | EShr e n => s ← bits_of kinds e; k ← amount n; Some (drop k s.1, s.2)
  | EWrap w e =>
      s ← bits_of kinds e; k ← amount w; Some (take k (s.1 ++ replicate (k - length s.1) s.2), B0)
  | ESigned w e =>
      s ← bits_of kinds e; k ← amount w;
      if is_B0 s.2 && forallb is_B0 (drop k s.1) && (0 <? k)%nat
      then Some (take (k - 1) s.1, sbit s (k - 1)) else None
  end.

Definition same_bits (kinds : list field_kind) (e1 e2 : bexpr) : bool :=
  match bits_of kinds e1, bits_of kinds e2 with
  | Some s1, Some s2 =>
      match combine bit_same s1 s2 with
      | Some _ => true
      | None => false
      end
  | _, _ => false
  end.

(** * Soundness *)

Definition kind_ok (k : field_kind) (v : Z) : Prop :=
  match k with FUnsigned a w => ufield a w v | FSigned a w => (0 < w)%nat /\ sfield a w v end.

Definition bit_val (env : list Z) (b : bit) : bool :=
  match b with
  | B0 => false
  | B1 => true
  | BVar v k => Z.testbit (nth v env 0) (Z.of_nat k)
  end.

Definition denotes (env : list Z) (s : sbits) (x : Z) : Prop :=
  forall i : nat, Z.testbit x (Z.of_nat i) = bit_val env (sbit s i).

Lemma testbit_ext (x y : Z) : (forall i : nat, Z.testbit x (Z.of_nat i) = Z.testbit y (Z.of_nat i)) -> x = y.
Proof. intros H. apply Z.bits_inj'. intros i Hi. rewrite <-(Z2Nat.id i) by done. apply H. Qed.

Lemma combine_bit (f : bit -> bit -> option bit) (s1 s2 s : sbits) (i : nat) :
  combine f s1 s2 = Some s -> f (sbit s1 i) (sbit s2 i) = Some (sbit s i).
Proof.
  unfold combine. intros (l & Hl & (t & Ht & [= <-])%bind_Some)%bind_Some.
  apply mapM_Some in Hl. set (n := (length s1.1 `max` length s2.1)%nat) in *.
  pose proof (Forall2_length _ _ _ Hl) as Hlen. rewrite length_seq in Hlen.
  destruct (decide (i < n)%nat) as [Hi|Hi].
  - destruct (lookup_lt_is_Some_2 l i) as [b Hb]; [lia|].
    assert (E : f (sbit s1 i) (sbit s2 i) = Some b)
      by exact (Forall2_lookup_lr _ _ _ _ _ _ Hl (lookup_seq_lt 0 n i Hi) Hb).
    unfold sbit at 3. simpl. by rewrite Hb.
  - assert (H : forall s0 : sbits, (length s0.1 <= i)%nat -> sbit s0 i = s0.2)
      by (intros s0 H; unfold sbit; by rewrite lookup_ge_None_2).
    rewrite !H by (simpl; lia). done.
Qed.

Lemma denotes_combine (f : bit -> bit -> option bit) (g : bool -> bool -> bool) (op : Z -> Z -> Z)
    (env : list Z) (s1 s2 s : sbits) (x y : Z) :
  (forall a b c, f a b = Some c -> bit_val env c = g (bit_val env a) (bit_val env b)) ->
  (forall i, 0 <= i -> Z.testbit (op x y) i = g (Z.testbit x i) (Z.testbit y i)) ->
  denotes env s1 x -> denotes env s2 y -> combine f s1 s2 = Some s -> denotes env s (op x y).
Proof.
  intros Hf Hop H1 H2 Hs i. rewrite Hop, H1, H2 by lia. symmetry. apply Hf, combine_bit, Hs.
Qed.

Lemma denotes_add (env : list Z) (s1 s2 s : sbits) (x y : Z) :
  denotes env s1 x -> denotes env s2 y -> combine bit_add s1 s2 = Some s -> denotes env s (x + y).
Proof.
  intros H1 H2 Hs. assert (Hdis : Z.land x y = 0).
  { apply testbit_ext. intros i. rewrite Z.land_spec, H1, H2, Z.testbit_0_l.
    pose proof (combine_bit _ _ _ _ i Hs) as Hi.
    destruct (sbit s1 i), (sbit s2 i); simpl in *; try done; by rewrite ?andb_false_r. }
  rewrite <-Z.add_lor_land, Hdis, Z.add_0_r.
  eapply (denotes_combine bit_add orb Z.lor); try done; [|by intros; apply Z.lor_spec].
  intros [] [] c [= <-]; simpl; by rewrite ?orb_false_r.
Qed.

Lemma denotes_shl (env : list Z) (s : sbits) (x : Z) (n : nat) :
  denotes env s x -> denotes env (replicate n B0 ++ s.1, s.2) (Z.shiftl x (Z.of_nat n)).
Proof.
  intros H i. rewrite Z.shiftl_spec by lia. unfold sbit. simpl.
  destruct (decide (i < n)%nat).
  - rewrite lookup_app_l, lookup_replicate_2 by (rewrite ?length_replicate; lia).
    by rewrite Z.testbit_neg_r by lia.
  - rewrite lookup_app_r by (rewrite length_replicate; lia). rewrite length_replicate.
    replace (Z.of_nat i - Z.of_nat n) with (Z.of_nat (i - n)) by lia. apply H.
Qed.

Lemma denotes_shr (env : list Z) (s : sbits) (x : Z) (n : nat) :
  denotes env s x -> denotes env (drop n s.1, s.2) (Z.shiftr x (Z.of_nat n)).
Proof.
  intros H i. rewrite Z.shiftr_spec by lia. unfold sbit. simpl. rewrite lookup_drop.
  replace (Z.of_nat i + Z.of_nat n) with (Z.of_nat (n + i)) by lia. apply H.
Qed.

Lemma sbit_low (s : sbits) (w i : nat) (t : bit) :
  (i < w)%nat -> sbit (take w (s.1 ++ replicate (w - length s.1) s.2), t) i = sbit s i.
Proof.
  intros Hi. unfold sbit. simpl. rewrite lookup_take_lt by done.
  destruct (decide (i < length s.1)%nat).
  - rewrite lookup_app_l by done. destruct (lookup_lt_is_Some_2 s.1 i) as [b ->]; done.
  - rewrite lookup_app_r, lookup_replicate_2 by lia. by rewrite lookup_ge_None_2 by lia.
Qed.

Lemma denotes_wrap (env : list Z) (s : sbits) (x : Z) (w : nat) :
  denotes env s x ->
  denotes env (take w (s.1 ++ replicate (w - length s.1) s.2), B0) (wrap (Z.of_nat w) x).
Proof.
  intros H i. rewrite wrap_testbit by lia. destruct (Z.ltb_spec (Z.of_nat i) (Z.of_nat w)).
  - rewrite sbit_low by lia. apply H.
  - unfold sbit. simpl. rewrite lookup_ge_None_2; [done|]. rewrite length_take. lia.
Qed.

(** A pattern of [w] bits read as a signed number repeats its top bit. *)
Lemma as_signed_testbit (w x i : Z) :
  0 < w -> in_width w x -> 0 <= i ->
  Z.testbit (as_signed w x) i = Z.testbit x (i `min` (w - 1)).
Proof.
  intros Hw Hx Hi. unfold in_width in Hx. unfold as_signed.
  assert (Hp : 2 ^ w = 2 * 2 ^ (w - 1)) by (rewrite <-Z.pow_succ_r by lia; f_equal; lia).
  assert (Htop : Z.testbit x (w - 1) = negb (x <? 2 ^ (w - 1))).
  { rewrite Z.testbit_odd, Z.shiftr_div_pow2 by lia.
    destruct (Z.ltb_spec x (2 ^ (w - 1))); [by rewrite Z.div_small by lia|].
    by rewrite <-(Z.div_unique x (2 ^ (w - 1)) 1 (x - 2 ^ (w - 1))) by lia. }
  destruct (decide (i < w)) as [Hlt|Hge].
  - assert (E : Z.testbit (if x <? 2 ^ (w - 1) then x else x - 2 ^ w) i = Z.testbit x i).
    { case_bool; [done|]. rewrite <-(Z.mod_pow2_bits_low (x - 2 ^ w) w i) by lia.
      rewrite <-(Z.mod_add _ 1), Z.mul_1_l, Z.sub_add by lia. by rewrite Z.mod_small by lia. }
    rewrite E. destruct (decide (i = w - 1)); f_equal; lia.
  - rewrite Z.min_r, Htop by lia. destruct (Z.ltb_spec x (2 ^ (w - 1))); simpl.
    + apply (testbit_above (w - 1)); [unfold in_width|]; lia.
    + replace (x - 2 ^ w) with (Z.lnot (2 ^ w - 1 - x)) by (unfold Z.lnot; lia).
      rewrite Z.lnot_spec, (testbit_above w) by (unfold in_width; lia). done.
Qed.

Lemma denotes_in_width (env : list Z) (s : sbits) (x : Z) (w : nat) :
  denotes env s x -> is_B0 s.2 = true -> forallb is_B0 (drop w s.1) = true -> in_width (Z.of_nat w) x.
Proof.
  intros H Ht Hl. assert (wrap (Z.of_nat w) x = x) as <-; [|apply wrap_range; lia].
  apply testbit_ext. intros i. rewrite wrap_testbit by lia.
  destruct (Z.ltb_spec (Z.of_nat i) (Z.of_nat w)); [done|]. rewrite H. simpl.
  assert (is_B0 (sbit s i) = true) as E; [|by destruct (sbit s i)].
  unfold sbit. destruct (s.1 !! i) as [b|] eqn:Hb; [|done]. simpl.
  rewrite forallb_forall in Hl. apply Hl, list_elem_of_In, (list_elem_of_lookup_2 _ (i - w)).
  rewrite lookup_drop. rewrite <-Hb. f_equal. lia.
Qed.

Lemma denotes_signed (env : list Z) (s : sbits) (x : Z) (w : nat) :
  denotes env s x -> is_B0 s.2 && forallb is_B0 (drop w s.1) && (0 <? w)%nat = true ->
  denotes env (take (w - 1) s.1, sbit s (w - 1)) (as_signed (Z.of_nat w) x).
Proof.
  intros H Hw i. to_prop. pose proof (denotes_in_width _ _ _ _ H ltac:(done) ltac:(done)).
  rewrite as_signed_testbit by (done || lia).
  destruct (decide (i < w - 1)%nat).
  - rewrite Z.min_l, H by lia. f_equal. unfold sbit. simpl.
    rewrite lookup_take_lt by lia. destruct (s.1 !! i) eqn:E; [done|]. simpl.
    rewrite (lookup_ge_None_2 _ (w - 1)); [done|]. apply lookup_ge_None in E. lia.
  - replace (Z.of_nat i `min` (Z.of_nat w - 1)) with (Z.of_nat (w - 1)) by lia. rewrite H. f_equal.
    unfold sbit at 2. simpl. rewrite lookup_ge_None_2; [done|]. rewrite length_take. lia.
Qed.

Lemma denotes_const (env : list Z) (c : Z) (s : sbits) : const_bits c = Some s -> denotes env s c.
Proof.
  unfold const_bits. case_bool_decide as Hc; [|done]. intros E i. apply (inj Some) in E as <-. unfold sbit, fst, snd.
  assert (Hb : forall b : bool, bit_val env (bit_const b) = b) by by intros [].
  destruct (decide (i < 64)%nat) as [Hi|Hi].
  - rewrite list_lookup_fmap, lookup_seq_lt by done. cbn. by rewrite Hb.
  - rewrite lookup_ge_None_2 by (rewrite length_fmap, length_seq; lia). cbn [default]. rewrite Hb.
    destruct (Z.ltb_spec c 0).
    + rewrite <-(Z.lnot_involutive c), Z.lnot_spec by lia.
      rewrite (testbit_above 64); [done|unfold in_width, Z.lnot; lia|lia].
    + apply (testbit_above 64); [unfold in_width|]; lia.
Qed.

Lemma low_bits_zero (v : Z) (a i : nat) : v mod 2 ^ Z.of_nat a = 0 -> (i < a)%nat -> Z.testbit v (Z.of_nat i) = false.
Proof.
  intros Hv Hi. rewrite <-(Z.mod_pow2_bits_low v (Z.of_nat a)) by lia. by rewrite Hv, Z.testbit_0_l.
Qed.

(** The bits of an aligned field: [lo] zeros, then its own bits to [hi]. *)
Lemma sbit_field (v lo hi i : nat) (t : bit) :
  sbit (replicate (lo `min` hi) B0 ++ (BVar v <$> seq (lo `min` hi) (hi - lo)), t) i
  = if decide (i < lo `min` hi)%nat then B0 else if decide (i < hi)%nat then BVar v i else t.
Proof.
  unfold sbit. simpl. destruct (decide (i < lo `min` hi)%nat).
  - by rewrite lookup_app_l, lookup_replicate_2 by (rewrite ?length_replicate; lia).
  - rewrite lookup_app_r, length_replicate, list_lookup_fmap by (rewrite length_replicate; lia).
    destruct (decide (i < hi)%nat).
    + rewrite lookup_seq_lt by lia. simpl. f_equal. lia.
    + by rewrite lookup_ge_None_2 by (rewrite length_seq; lia).
Qed.

(** A number in the signed range of [w] bits repeats its bit [w - 1]. *)
Lemma signed_testbit_above (v : Z) (w i : nat) :
  - 2 ^ Z.of_nat (w - 1) <= v < 2 ^ Z.of_nat (w - 1) -> (w - 1 <= i)%nat ->
  Z.testbit v (Z.of_nat i) = Z.testbit v (Z.of_nat (w - 1)).
Proof.
  intros Hv Hi. destruct (decide (0 <= v)).
  - by rewrite !(testbit_above (Z.of_nat (w - 1)) v) by (unfold in_width; lia).
  - assert (H : forall j : nat, (w - 1 <= j)%nat -> Z.testbit v (Z.of_nat j) = true).
    { intros j Hj. rewrite <-(Z.lnot_involutive v), Z.lnot_spec by lia.
      by rewrite (testbit_above (Z.of_nat (w - 1))) by (unfold in_width, Z.lnot; lia). }
    by rewrite !H by lia.
Qed.

Lemma denotes_var (env : list Z) (v : nat) (k : field_kind) :
  kind_ok k (nth v env 0) -> denotes env (var_bits v k) (nth v env 0).
Proof.
  destruct k as [a w|a w]; simpl; intros Hk i; rewrite sbit_field.
  - destruct Hk as [Hr Ha]. repeat case_decide; [apply (low_bits_zero _ a); [done|lia]|done|].
    apply (testbit_above (Z.of_nat w)); [done|lia].
  - destruct Hk as (Hw & Hr & Ha).
    repeat case_decide; [apply (low_bits_zero _ a); [done|lia]|done|].
    apply signed_testbit_above; [done|lia].
Qed.

Lemma amount_Some (n : Z) (k : nat) : amount n = Some k -> n = Z.of_nat k.
Proof. unfold amount. destruct (Z.leb_spec 0 n); [|done]. intros [= <-]. lia. Qed.

Lemma bits_of_sound (env : list Z) (kinds : list field_kind) (e : bexpr) (s : sbits) :
  Forall2 kind_ok kinds env -> bits_of kinds e = Some s -> denotes env s (beval env e).
Proof.
  intros Henv. revert s. induction e; simpl; intros s Hs;
    try (apply bind_Some in Hs as (s1 & Hs1 & Hs)).
  - injection Hs as <-. apply denotes_var.
    destruct (Forall2_lookup_l _ _ _ _ _ Henv Hs1) as (x & Hx & Hk).
    by rewrite (nth_lookup_Some _ _ _ _ Hx).
  - by apply denotes_const.
  - apply bind_Some in Hs as (s2 & Hs2 & Hs).
    eapply (denotes_combine bit_and andb Z.land); eauto; [|by intros; apply Z.land_spec].
    intros [] [] c; simpl; try case_decide; intros; simplify_eq/=;
      by rewrite ?andb_true_r, ?andb_false_r, ?andb_diag.
  - apply bind_Some in Hs as (s2 & Hs2 & Hs).
    eapply (denotes_combine bit_or orb Z.lor); eauto; [|by intros; apply Z.lor_spec].
    intros [] [] c; simpl; try case_decide; intros; simplify_eq/=;
      by rewrite ?orb_true_r, ?orb_false_r, ?orb_diag.
  - apply bind_Some in Hs as (s2 & Hs2 & Hs). by eapply denotes_add; eauto.
  - apply bind_Some in Hs as (k & ->%amount_Some & [= <-]). apply denotes_shl; eauto.
  - apply bind_Some in Hs as (k & ->%amount_Some & [= <-]). apply denotes_shr; eauto.
  - apply bind_Some in Hs as (k & ->%amount_Some & [= <-]). apply denotes_wrap; eauto.
  - apply bind_Some in Hs as (k & ->%amount_Some & Hs). case_bool; [|done]. injection Hs as <-.
    apply denotes_signed; eauto.
Qed.

Theorem same_bits_sound (env : list Z) (kinds : list field_kind) (e1 e2 : bexpr) :
  Forall2 kind_ok kinds env -> same_bits kinds e1 e2 = true -> beval env e1 = beval env e2.
Proof.
  unfold same_bits. intros Henv H.
  destruct (bits_of kinds e1) as [s1|] eqn:E1, (bits_of kinds e2) as [s2|] eqn:E2; try done.
  destruct (combine _ s1 s2) eqn:E; [|done]. apply testbit_ext. intros i.
  rewrite (bits_of_sound _ _ _ _ Henv E1), (bits_of_sound _ _ _ _ Henv E2). f_equal.
  apply (combine_bit _ _ _ _ i) in E. unfold bit_same in E. by case_decide.
Qed.

(** * Reification *)

Ltac field_index x env :=
  lazymatch env with
  | cons x _ => constr:(O)
  | cons _ ?env' => let n := field_index x env' in constr:(S n)
  end.

(** The fields in the context. *)
Ltac collect_fields env kinds cont :=
  first [
    match goal with
    | H : ufield ?a ?w ?x |- context [?x] =>
        lazymatch env with context [cons x _] => fail | _ => idtac end;
        collect_fields constr:(cons x env) constr:(cons (FUnsigned a w) kinds) cont
    | H : sfield ?a ?w ?x |- context [?x] =>
        lazymatch env with context [cons x _] => fail | _ => idtac end;
        collect_fields constr:(cons x env) constr:(cons (FSigned a w) kinds) cont
    end
  | cont env kinds ].

Ltac reify_bits env t :=
  lazymatch t with
  | Z.land ?x ?y => let e1 := reify_bits env x in let e2 := reify_bits env y in constr:(EAnd e1 e2)
  | Z.lor ?x ?y => let e1 := reify_bits env x in let e2 := reify_bits env y in constr:(EOr e1 e2)
  | Z.add ?x ?y => let e1 := reify_bits env x in let e2 := reify_bits env y in constr:(EAdd e1 e2)
  | Z.shiftl ?x ?n => let e := reify_bits env x in constr:(EShl e n)
  | Z.shiftr ?x ?n => let e := reify_bits env x in constr:(EShr e n)
  | wrap ?w ?x => let e := reify_bits env x in constr:(EWrap w e)
  | as_signed ?w ?x => let e := reify_bits env x in constr:(ESigned w e)
  | ?x => lazymatch isZcst x with
          | true => constr:(EConst x)
          | _ => let n := field_index x env in constr:(EVar n)
          end
  end.

(** Compare reified and original words by computing [beval], not the integers. *)
Strategy 100 [Z.land Z.lor Z.add Z.shiftl Z.shiftr wrap as_signed].

(** Equality of packed words whose variables have [ufield] or [sfield]
    hypotheses in the context. *)
Ltac bitfield :=
  lazymatch goal with
  | |- @eq Z ?l ?r =>
      collect_fields (@nil Z) (@nil field_kind) ltac:(fun env kinds =>
        let e1 := reify_bits env l in
        let e2 := reify_bits env r in
        change (beval env e1 = beval env e2);
        apply (same_bits_sound env kinds);
        [repeat (apply Forall2_cons_2; [first [assumption | split; [lia | assumption]]|]);
         apply Forall2_nil_2
        |vm_compute; reflexivity])
  end.
