(* ===== verification/Ring.v ===== *)
(** Circular buffers: the index arithmetic and the loops shared by the reorder
    buffer, the store buffer and the load queue.  Each of these keeps a [Vec] of
    slots with [head], [tail] and [count]; the occupied part, read from [head],
    is the [window].  The lemmas of this file turn every loop over slots into a
    loop over the window and every slot update into an update of the window. *)
From S2P Require Import Prelude.

Local Open Scope nat_scope.

(** [(i + 1) % len] *)
Definition ring_next (cap i : nat) : nat := (i + 1) mod cap.
(** [if i == 0 { len - 1 } else { i - 1 }] *)
Definition ring_prev (cap i : nat) : nat := if i =? 0 then cap - 1 else i - 1.
(** [(head + k) % cap] *)
Definition ring_slot (cap head k : nat) : nat := (head + k) mod cap.

Section Ring.
Context {A : Type} `{Inhabited A}.

(** The entries from [head], [n] of them, oldest first. *)
Definition window (es : list A) (head n : nat) : list A :=
  (fun k => es !!! ring_slot (length es) head k) <$> seq 0 n.

(** [for _ in 0..n { body(entries[idx]); idx = (idx + 1) % len; }] *)
Fixpoint ring_scan {S R} (body : nat -> A -> S -> flow S R)
    (es : list A) (n idx : nat) (s : S) : flow S R :=
  match n with
  | O => Continue s
  | S n' => match body idx (es !!! idx) s with
            | Continue s' => ring_scan body es n' (ring_next (length es) idx) s'
            | Return r => Return r
            end
  end.

(** [for _ in 0..n { body(entries[idx]); idx = if idx == 0 { len - 1 } else { idx - 1 }; }] *)
Fixpoint ring_scan_back {S R} (body : nat -> A -> S -> flow S R)
    (es : list A) (n idx : nat) (s : S) : flow S R :=
  match n with
  | O => Continue s
  | S n' => match body idx (es !!! idx) s with
            | Continue s' => ring_scan_back body es n' (ring_prev (length es) idx) s'
            | Return r => Return r
            end
  end.

(** A loop that rewrites slots in place, with further state [S]. *)
Fixpoint ring_rewrite {S} (body : nat -> list A -> S -> list A * S)
    (es : list A) (n idx : nat) (s : S) : list A * S :=
  match n with
  | O => (es, s)
  | S n' => let '(es', s') := body idx es s in
            ring_rewrite body es' n' (ring_next (length es) idx) s'
  end.

(** The shape every such buffer keeps. *)
Record ring_wf (es : list A) (head tail count : nat) : Prop := {
  ring_cap_pos : 0 < length es;
  ring_head_lt : head < length es;
  ring_count_le : count <= length es;
  ring_tail : tail = ring_slot (length es) head count
}.

(** ** Slot arithmetic *)

Lemma ring_slot_lt (cap head k : nat) : 0 < cap -> ring_slot cap head k < cap.
Proof. intros. apply Nat.mod_upper_bound. lia. Qed.

Lemma ring_slot_0 (cap head : nat) : head < cap -> ring_slot cap head 0 = head.
Proof. intros. unfold ring_slot. rewrite Nat.add_0_r. by apply Nat.mod_small. Qed.

Lemma ring_slot_S (cap head k : nat) :
  0 < cap -> ring_slot cap head (S k) = ring_slot cap (ring_next cap head) k.
Proof.
  intros. unfold ring_slot, ring_next. rewrite Nat.Div0.add_mod_idemp_l. f_equal. lia.
Qed.

Lemma ring_next_slot (cap head k : nat) :
  0 < cap -> ring_next cap (ring_slot cap head k) = ring_slot cap head (S k).
Proof. intros. unfold ring_next, ring_slot. rewrite Nat.Div0.add_mod_idemp_l. f_equal. lia. Qed.

Lemma ring_slot_eq (cap head k : nat) :
  head < cap -> k <= cap ->
  ring_slot cap head k = if decide (head + k < cap) then head + k else head + k - cap.
Proof.
  intros. unfold ring_slot. case_decide; [by apply Nat.mod_small|].
  replace (head + k) with (head + k - cap + 1 * cap) at 1 by lia.
  rewrite Nat.Div0.mod_add. destruct (decide (head + k - cap < cap)); [by apply Nat.mod_small|].
  lia.
Qed.

Lemma ring_prev_slot (cap head k : nat) :
  head < cap -> k < cap -> ring_prev cap (ring_slot cap head (S k)) = ring_slot cap head k.
Proof.
  intros. rewrite !ring_slot_eq by lia. unfold ring_prev.
  repeat case_decide; case_match; to_prop; lia.
Qed.

Lemma ring_slot_inj (cap head j k : nat) :
  head < cap -> j < cap -> k < cap -> ring_slot cap head j = ring_slot cap head k -> j = k.
Proof. intros ???. rewrite !ring_slot_eq by lia. repeat case_decide; lia. Qed.

Lemma ring_slot_inj_pos (cap head j k : nat) :
  head < cap -> 0 < j <= cap -> 0 < k <= cap ->
  ring_slot cap head j = ring_slot cap head k -> j = k.
Proof. intros ???. rewrite !ring_slot_eq by lia. repeat case_decide; lia. Qed.

(** ** The window as a list *)

Lemma length_window es head n : length (window es head n) = n.
Proof. unfold window. by autorewrite with rvsim_simpl. Qed.

Lemma lookup_window es head n k :
  window es head n !! k =
  if decide (k < n) then Some (es !!! ring_slot (length es) head k) else None.
Proof.
  unfold window. rewrite list_lookup_fmap. case_decide.
  - by rewrite lookup_seq_lt by lia.
  - by rewrite lookup_seq_ge by lia.
Qed.

Lemma window_0 es head : window es head 0 = [].
Proof. done. Qed.

Lemma window_S es head n :
  head < length es ->
  window es head (S n) = es !!! head :: window es (ring_next (length es) head) n.
Proof.
  intros. unfold window. cbn [seq fmap list_fmap]. rewrite ring_slot_0 by done. f_equal.
  rewrite <-fmap_S_seq, <-list_fmap_compose. apply list_fmap_ext. intros _ k _. simpl.
  by rewrite ring_slot_S by lia.
Qed.

Lemma window_snoc es head n :
  window es head (S n) = window es head n ++ [es !!! ring_slot (length es) head n].
Proof. unfold window. by rewrite seq_S, fmap_app. Qed.

Lemma window_take es head m n : m <= n -> take m (window es head n) = window es head m.
Proof.
  intros. apply list_eq. intros k. destruct (decide (k < m)).
  - rewrite lookup_take_lt, !lookup_window by lia. by repeat case_decide; try lia.
  - rewrite lookup_take_ge, lookup_window by lia. by case_decide; [lia|].
Qed.

Lemma window_insert_in es head n k x :
  head < length es -> n <= length es -> k < n ->
  window (<[ring_slot (length es) head k := x]> es) head n = <[k := x]> (window es head n).
Proof.
  intros Hh Hn Hk. apply list_eq. intros j.
  rewrite list_lookup_insert, !lookup_window, length_window, length_insert.
  repeat case_decide; try lia; try done.
  - destruct H1 as [-> _]. rewrite list_lookup_total_insert_eq; [done|]. apply ring_slot_lt; lia.
  - rewrite list_lookup_total_insert_ne; [done|]. intros E.
    apply ring_slot_inj in E; lia.
Qed.

Lemma window_insert_out es head n k x :
  head < length es -> k < length es -> n <= k ->
  window (<[ring_slot (length es) head k := x]> es) head n = window es head n.
Proof.
  intros Hh Hk Hn. apply list_eq. intros j. rewrite !lookup_window, length_insert.
  case_decide; [|done]. rewrite list_lookup_total_insert_ne; [done|]. intros E.
  apply ring_slot_inj in E; lia.
Qed.

(** Writing the slot at [tail] and moving [tail] appends to the window. *)
Lemma window_push es head n x :
  head < length es -> n < length es ->
  window (<[ring_slot (length es) head n := x]> es) head (S n) = window es head n ++ [x].
Proof.
  intros. rewrite window_snoc, length_insert, window_insert_out by lia.
  rewrite list_lookup_total_insert_eq; [done|]. apply ring_slot_lt; lia.
Qed.

Lemma window_ext es es' head n :
  length es' = length es ->
  (forall k, k < n -> es' !!! ring_slot (length es) head k = es !!! ring_slot (length es) head k) ->
  window es' head n = window es head n.
Proof.
  intros Hl Hk. apply list_eq. intros k. rewrite !lookup_window, Hl.
  case_decide; [|done]. by rewrite Hk.
Qed.

(** ** Loops over slots are loops over the window *)

Lemma ring_scan_window {S R} (body : A -> S -> flow S R) es n idx (s : S) :
  idx < length es ->
  ring_scan (fun _ => body) es n idx s = list_scan body (window es idx n) s.
Proof.
  revert idx s. induction n as [|n IH]; intros idx s Hi; [done|].
  rewrite window_S by done. simpl. destruct (body _ s); [|done].
  apply IH. apply Nat.mod_upper_bound. lia.
Qed.

Lemma ring_scan_back_window {S R} (body : A -> S -> flow S R) es head n tail (s : S) :
  ring_wf es head tail n ->
  ring_scan_back (fun _ => body) es n (ring_prev (length es) tail) s =
  list_scan body (reverse (window es head n)) s.
Proof.
  intros [Hc Hh Hn ->]. revert s Hn. induction n as [|n IH]; intros s Hn; [done|].
  rewrite ring_prev_slot by lia. rewrite window_snoc, reverse_snoc. simpl.
  destruct (body _ s); [|done]. apply IH. lia.
Qed.

(** An in-place pass that rewrites each slot by [f], threading [s]. *)
Fixpoint list_rewrite {S} (f : A -> S -> A * S) (l : list A) (s : S) : list A * S :=
  match l with
  | [] => ([], s)
  | a :: l' => let '(a', s') := f a s in
               let '(l'', s'') := list_rewrite f l' s' in (a' :: l'', s'')
  end.

Lemma length_list_rewrite {S} (f : A -> S -> A * S) l s :
  length (list_rewrite f l s).1 = length l.
Proof.
  revert s. induction l as [|a l IH]; intros s; simpl; [done|].
  destruct (f a s) as [a' s']. specialize (IH s').
  destruct (list_rewrite f l s') as [l'' s'']. simpl in *. by f_equal.
Qed.

(** Over [n <= length es] slots no slot is visited twice, so the pass is the
    pass over the window, and slots outside the window are untouched. *)
Lemma ring_rewrite_window {S} (f : A -> S -> A * S) es n head (s : S) :
  head < length es -> n <= length es ->
  let r := ring_rewrite (fun i es s => (<[i := (f (es !!! i) s).1]> es, (f (es !!! i) s).2)) es n head s in
  length r.1 = length es /\
  (window r.1 head n, r.2) = list_rewrite f (window es head n) s /\
  (forall k, n <= k < length es ->
     r.1 !!! ring_slot (length es) head k = es !!! ring_slot (length es) head k).
Proof.
  revert es head s. induction n as [|n IH]; intros es head s Hh Hn; [done|].
  set (es' := <[head := (f (es !!! head) s).1]> es).
  assert (length es' = length es) as Hl by apply length_insert.
  assert (ring_next (length es) head < length es) as Hnx by (apply Nat.mod_upper_bound; lia).
  destruct (IH es' (ring_next (length es) head) (f (es !!! head) s).2) as (IHl & IHw & IHo); [lia..|].
  intros r. change r with (ring_rewrite (fun i es s => (<[i := (f (es !!! i) s).1]> es, (f (es !!! i) s).2))
    es' n (ring_next (length es) head) (f (es !!! head) s).2). clear r.
  set (r := ring_rewrite _ es' n _ _) in *.
  rewrite Hl in *. split; [done|]. split.
  - rewrite !window_S by lia. rewrite IHl. simpl.
    destruct (f (es !!! head) s) as [a' s'] eqn:Ef. simpl in *.
    assert (r.1 !!! head = a') as ->.
    { replace head with (ring_slot (length es) (ring_next (length es) head) (length es - 1)) at 1.
      - rewrite IHo by lia. rewrite <-ring_slot_S by lia.
        replace (Datatypes.S (length es - 1)) with (length es) by lia.
        rewrite ring_slot_eq by lia. case_decide; [lia|].
        replace (head + length es - length es) with head by lia.
        by apply list_lookup_total_insert_eq.
      - rewrite <-ring_slot_S by lia. rewrite ring_slot_eq by lia. case_decide; lia. }
    assert (window es' (ring_next (length es) head) n = window es (ring_next (length es) head) n) as Hw.
    { apply window_ext; [done|]. intros k Hk. apply list_lookup_total_insert_ne.
      rewrite <-ring_slot_S by lia. rewrite ring_slot_eq by lia. case_decide; lia. }
    rewrite Hw in IHw. rewrite <-IHw. done.
  - intros k Hk. destruct k as [|k]; [lia|].
    rewrite ring_slot_S by lia. rewrite IHo by lia.
    apply list_lookup_total_insert_ne. rewrite <-ring_slot_S by lia.
    rewrite ring_slot_eq by lia. case_decide; lia.
Qed.

(** ** In-place compaction

    The flush loops of the store buffer and the load queue: kept entries move
    down to [new_tail], every other visited slot is invalidated by [inval]. *)
Fixpoint ring_compact (keep : A -> bool) (inval : A -> A) (es : list A)
    (n idx new_tail new_count : nat) : list A * nat * nat :=
  match n with
  | O => (es, new_tail, new_count)
  | S n' =>
      let cap := length es in
      if keep (es !!! idx) then
        let es' := if idx =? new_tail then es
                   else let moved := <[new_tail := es !!! idx]> es in
                        <[idx := inval (moved !!! idx)]> moved in
        ring_compact keep inval es' n' (ring_next cap idx) (ring_next cap new_tail) (S new_count)
      else ring_compact keep inval (<[idx := inval (es !!! idx)]> es) n' (ring_next cap idx)
             new_tail new_count
  end.

Lemma ring_compact_spec keep inval es head j c n :
  head < length es -> j + n <= length es -> c <= j ->
  let '(es', tail', count') :=
    ring_compact keep inval es n (ring_slot (length es) head j) (ring_slot (length es) head c) c in
  length es' = length es /\ count' <= c + n /\ tail' = ring_slot (length es) head count' /\
  window es' head count' = window es head c ++ filter (fun a => keep a = true) (drop j (window es head (j + n))).
Proof.
  intros Hh. revert es Hh j c. induction n as [|n IH]; intros es Hh j c Hj Hc.
  - simpl. split_and!; [done|lia|done|]. rewrite drop_ge by (rewrite length_window; lia).
    by rewrite app_nil_r.
  - cbn [ring_compact]. cbv zeta. set (sj := ring_slot (length es) head j).
    assert (drop j (window es head (j + S n)) = es !!! sj :: drop (S j) (window es head (j + S n))) as ->.
    { apply drop_S. rewrite lookup_window, decide_True by lia. done. }
    assert (ring_next (length es) sj = ring_slot (length es) head (S j)) as Hsj
      by (apply ring_next_slot; lia).
    rewrite filter_cons.
    assert (forall es', length es' = length es ->
      (forall k, j < k < j + S n -> es' !!! ring_slot (length es) head k = es !!! ring_slot (length es) head k) ->
      drop (S j) (window es' head (S j + n)) = drop (S j) (window es head (j + S n))) as Hdrop.
    { intros es' Hl Hk. apply list_eq. intros i. rewrite !lookup_drop, !lookup_window, Hl.
      replace (S j + n) with (j + S n) by lia. case_decide; [|done]. by rewrite Hk by lia. }
    destruct (keep (es !!! sj)) eqn:Ek; case_decide; try done.
    + rewrite (ring_next_slot _ head c), Hsj by lia.
      set (sc := ring_slot (length es) head c).
      set (es' := if sj =? sc then es else _).
      assert (length es' = length es) as Hl.
      { unfold es'. case_match; [done|]. by rewrite !length_insert. }
      assert (es' !!! sc = es !!! sj) as Hsc.
      { unfold es'. destruct (Nat.eqb_spec sj sc) as [->|]; [done|].
        rewrite list_lookup_total_insert_ne by done.
        apply list_lookup_total_insert_eq. apply ring_slot_lt; lia. }
      assert (forall k, k < length es -> k <> c -> k <> j ->
        es' !!! ring_slot (length es) head k = es !!! ring_slot (length es) head k) as Hk.
      { intros k Hk1 Hkc Hkj. unfold es'. case_match; [done|].
        rewrite !list_lookup_total_insert_ne; [done|..]; intros E; apply ring_slot_inj in E; lia. }
      specialize (IH es' ltac:(lia) (S j) (S c) ltac:(lia) ltac:(lia)). rewrite Hl in IH.
      destruct (ring_compact _ _ es' _ _ _ _) as [[es'' tail'] count'].
      destruct IH as (IHl & IHc & IHt & IHw). split_and!; [done|lia|done|]. rewrite IHw.
      rewrite (Hdrop es' Hl) by (intros k Hkr; apply Hk; lia).
      rewrite window_snoc, Hl. fold sc. rewrite Hsc, <-app_assoc. f_equal.
      apply window_ext; [done|]. intros k Hkr. apply Hk; lia.
    + rewrite Hsj. set (es' := <[sj := _]> es).
      assert (length es' = length es) as Hl by apply length_insert.
      assert (forall k, k < length es -> k <> j ->
        es' !!! ring_slot (length es) head k = es !!! ring_slot (length es) head k) as Hk.
      { intros k Hk1 Hkj. apply list_lookup_total_insert_ne. intros E. apply ring_slot_inj in E; lia. }
      specialize (IH es' ltac:(lia) (S j) c ltac:(lia) ltac:(lia)). rewrite Hl in IH.
      destruct (ring_compact _ _ es' _ _ _ _) as [[es'' tail'] count'].
      destruct IH as (IHl & IHc & IHt & IHw). split_and!; [done|lia|done|]. rewrite IHw.
      rewrite (Hdrop es' Hl) by (intros k Hkr; apply Hk; lia). f_equal.
      apply window_ext; [done|]. intros k Hkr. apply Hk; lia.
Qed.

(** Flushing the whole window with [keep] leaves exactly the kept entries, in order. *)
Lemma ring_compact_window keep inval es head tail n :
  ring_wf es head tail n ->
  let '(es', tail', count') := ring_compact keep inval es n head head 0 in
  ring_wf es' head tail' count' /\ length es' = length es /\
  window es' head count' = filter (fun a => keep a = true) (window es head n).
Proof.
  intros [Hc Hh Hn Ht].
  pose proof (ring_compact_spec keep inval es head 0 0 n Hh ltac:(lia) ltac:(lia)) as H1.
  rewrite ring_slot_0 in H1 by done.
  destruct (ring_compact _ _ _ _ _ _ _) as [[es' tail'] count']. destruct H1 as (Hl & Hcn & -> & Hw).
  split_and!; [constructor; rewrite ?Hl; done || lia|done|]. by rewrite Hw.
Qed.

(** ** Search and update by a predicate *)

(** [for _ in 0..n { if p(entries[idx]) { return Some(idx) } idx = next(idx) }] *)
Definition ring_find (p : A -> bool) (es : list A) (n head : nat) : option nat :=
  after_loop (ring_scan (fun idx a (_ : unit) => if p a then Return (Some idx) else Continue tt)
    es n head tt) (fun _ => None).

(** The first element satisfying [p], edited. *)
Fixpoint modify_first (p : A -> bool) (f : A -> A) (l : list A) : list A :=
  match l with
  | [] => []
  | a :: l' => if p a then f a :: l' else a :: modify_first p f l'
  end.

Lemma ring_find_spec (p : A -> bool) es n head :
  head < length es -> n <= length es ->
  match ring_find p es n head with
  | Some idx => exists k, k < n /\ idx = ring_slot (length es) head k /\
      window es head n !! k = Some (es !!! idx) /\ p (es !!! idx) = true /\
      forall j b, j < k -> window es head n !! j = Some b -> p b = false
  | None => forall j b, window es head n !! j = Some b -> p b = false
  end.
Proof.
  unfold ring_find. revert head. induction n as [|n IH]; intros head Hh Hn; [done|].
  rewrite window_S by done. simpl. destruct (p (es !!! head)) eqn:E; simpl.
  - exists 0. rewrite ring_slot_0 by done. split_and!; try done; [lia|]. intros; lia.
  - specialize (IH (ring_next (length es) head) ltac:(apply Nat.mod_upper_bound; lia) ltac:(lia)).
    destruct (after_loop _ _) as [idx|].
    + destruct IH as (k & Hk & -> & Hw & Hp & Hj). exists (S k).
      rewrite ring_slot_S by lia. split_and!; try done; [lia|].
      intros [|j] b Hjk Hb; simpl in Hb; [by injection Hb as <-|]. eapply Hj; [|done]. lia.
    + intros [|j] b Hb; simpl in Hb; [by injection Hb as <-|]. by eapply IH.
Qed.

Lemma modify_first_at (p : A -> bool) f l k a :
  l !! k = Some a -> p a = true -> (forall j b, j < k -> l !! j = Some b -> p b = false) ->
  modify_first p f l = <[k := f a]> l.
Proof.
  revert k. induction l as [|b l IH]; intros k Hk Hp Hj; [done|]. destruct k as [|k]; simpl in *.
  - injection Hk as ->. by rewrite Hp.
  - rewrite (Hj 0 b) by (done || lia). f_equal. apply IH; [done..|].
    intros j c Hjk Hc. apply (Hj (S j) c); [lia|done].
Qed.

Lemma modify_first_none (p : A -> bool) f l :
  (forall j b, l !! j = Some b -> p b = false) -> modify_first p f l = l.
Proof.
  induction l as [|b l IH]; intros Hj; [done|]. simpl. rewrite (Hj 0 b) by done. f_equal.
  apply IH. intros j c Hc. by apply (Hj (S j)).
Qed.

(** [if let Some(entry) = find(p) { *entry = f(entry) }] edits the first match of the window. *)
Lemma ring_modify_first (p : A -> bool) f es head tail n :
  ring_wf es head tail n ->
  let es' := match ring_find p es n head with
             | Some idx => <[idx := f (es !!! idx)]> es
             | None => es
             end in
  ring_wf es' head tail n /\ length es' = length es /\
  window es' head n = modify_first p f (window es head n).
Proof.
  intros W. pose proof W as [Hc Hh Hn Ht]. pose proof (ring_find_spec p es n head Hh Hn) as Hf.
  cbv zeta. destruct (ring_find p es n head) as [idx|].
  - destruct Hf as (k & Hk & -> & Hw & Hp & Hj). rewrite length_insert.
    split_and!; [constructor; rewrite ?length_insert; done|done|].
    by rewrite window_insert_in, (modify_first_at p f _ k _ Hw Hp Hj) by done.
  - by rewrite modify_first_none.
Qed.

(** Pushing at [tail] and popping at [head]. *)
Lemma ring_push es head tail n x :
  ring_wf es head tail n -> n < length es ->
  ring_wf (<[tail := x]> es) head (ring_next (length es) tail) (S n) /\
  window (<[tail := x]> es) head (S n) = window es head n ++ [x].
Proof.
  intros [Hc Hh Hn ->] Hlt. split; [|by apply window_push].
  constructor; rewrite ?length_insert; try lia. by apply ring_next_slot.
Qed.

Lemma ring_pop es head tail n x :
  ring_wf es head tail (S n) ->
  ring_wf (<[head := x]> es) (ring_next (length es) head) tail n /\
  window es head (S n) = es !!! head :: window (<[head := x]> es) (ring_next (length es) head) n.
Proof.
  intros [Hc Hh Hn ->]. split.
  - constructor; rewrite ?length_insert; try lia; [apply Nat.mod_upper_bound; lia|].
    by rewrite <-ring_slot_S.
  - rewrite window_S by done. f_equal. symmetry. apply window_ext; [apply length_insert|].
    intros k Hk. apply list_lookup_total_insert_ne. rewrite <-ring_slot_S by lia.
    rewrite <-(ring_slot_0 (length es) head) at 1 by done. intros E. apply ring_slot_inj in E; lia.
Qed.

(** Dropping every entry. *)
Lemma ring_clear (f : A -> A) es head tail n :
  ring_wf es head tail n -> ring_wf (f <$> es) 0 0 0.
Proof.
  intros [Hc Hh Hn _]. constructor; rewrite ?length_fmap; try lia. by rewrite ring_slot_0.
Qed.

Lemma ring_new (cap : nat) (x : A) : 0 < cap -> ring_wf (replicate cap x) 0 0 0.
Proof. intros. constructor; rewrite ?length_replicate; try lia. by rewrite ring_slot_0. Qed.

End Ring.

#[export] Hint Rewrite @length_window : rvsim_simpl.
#[export] Hint Resolve ring_slot_lt ring_cap_pos ring_head_lt : rvsim.
