(* ===== verification/Common.v ===== *)
(** Types shared by the components: addresses and register indices
    ([common/]), traps and translation results ([common/error.rs]), the control
    signals of [core/pipeline/signals.rs] and the global-history snapshot that
    reorder-buffer entries carry. *)
From S2P Require Import Prelude.

Set Primitive Projections.
Local Open Scope Z_scope.

(** Newtypes over an integer ([VirtAddr], [PhysAddr], [Vpn], [Ppn], [Asid],
    [CsrAddr], [RegIdx], [PhysReg]) are the integer itself. *)

(** ** Addresses *)

Definition PAGE_SHIFT : Z := 12.
Definition VPN_MASK : Z := 0x7FFFFFF.

(** [Ppn::to_addr], [Vpn::to_addr]: the [u64] shift drops the bits above 63. *)
Definition page_to_addr (p : Z) : Z := shl64 p 12.
Definition page_offset (va : Z) : Z := Z.land va 0xFFF.

(** ** Register indices *)

Definition reg_new (idx : Z) : Z := Z.land idx 0x1F.
Definition reg_is_zero (r : Z) : bool := r =? 0.
Definition reg_as_usize (r : Z) : nat := Z.to_nat r.

(** ** Instruction size *)

Inductive InstSize := Compressed | Standard.
Definition inst_size_as_u64 (s : InstSize) : Z :=
  match s with Compressed => 2 | Standard => 4 end.

(** ** Access types and privilege modes *)

Inductive AccessType := Fetch | Read | Write.
#[export] Instance AccessType_eq_dec : EqDecision AccessType.
Proof. solve_decision. Defined.

Inductive PrivilegeMode := User | Supervisor | Machine.
#[export] Instance PrivilegeMode_eq_dec : EqDecision PrivilegeMode.
Proof. solve_decision. Defined.

Definition priv_from_u8 (val : Z) : PrivilegeMode :=
  if val =? 0 then User else if val =? 1 then Supervisor else Machine.
Definition priv_to_u8 (m : PrivilegeMode) : Z :=
  match m with User => 0 | Supervisor => 1 | Machine => 3 end.

(** ** Traps *)

Inductive ExceptionStage := StageFetch | StageDecode | StageExecute | StageMemory.

Inductive Trap :=
| InstructionAddressMisaligned (addr : Z)
| InstructionAccessFault (addr : Z)
| IllegalInstruction (inst : Z)
| Breakpoint (pc : Z)
| LoadAddressMisaligned (addr : Z)
| LoadAccessFault (addr : Z)
| StoreAddressMisaligned (addr : Z)
| StoreAccessFault (addr : Z)
| EnvironmentCallFromUMode
| EnvironmentCallFromSMode
| EnvironmentCallFromMMode
| InstructionPageFault (addr : Z)
| LoadPageFault (addr : Z)
| StorePageFault (addr : Z)
| UserSoftwareInterrupt
| SupervisorSoftwareInterrupt
| MachineSoftwareInterrupt
| MachineTimerInterrupt
| SupervisorTimerInterrupt
| MachineExternalInterrupt
| SupervisorExternalInterrupt
| UserExternalInterrupt
| RequestedTrap (code : Z)
| DoubleFault (addr : Z).
#[export] Instance Trap_eq_dec : EqDecision Trap.
Proof. solve_decision. Defined.

Record PteUpdate := { pte_addr : Z; pte_value : Z }.
Record SfenceVmaInfo := { rs1_idx : Z; rs2_idx : Z; rs1_val : Z; rs2_val : Z }.
Inductive LrScRecord := Lr_record (paddr : Z) | Sc_record (paddr : Z).

Record TranslationResult := {
  tr_paddr : Z;
  tr_cycles : Z;
  tr_trap : option Trap;
  tr_pte_update : option PteUpdate
}.
Definition tr_success (paddr cycles : Z) : TranslationResult :=
  {| tr_paddr := paddr; tr_cycles := cycles; tr_trap := None; tr_pte_update := None |}.
Definition tr_success_with_pte_update (paddr cycles : Z) (u : PteUpdate) : TranslationResult :=
  {| tr_paddr := paddr; tr_cycles := cycles; tr_trap := None; tr_pte_update := Some u |}.
Definition tr_fault (trap : Trap) (cycles : Z) : TranslationResult :=
  {| tr_paddr := 0; tr_cycles := cycles; tr_trap := Some trap; tr_pte_update := None |}.

(** ** Control signals *)

Inductive AluOp :=
| Add | Sub | Sll | Slt | Sltu | Xor | Srl | Sra | Or | And
| Mul | Mulh | Mulhsu | Mulhu | Div | Divu | Rem | Remu
| FAdd | FSub | FMul | FDiv | FSqrt | FMin | FMax
| FMAdd | FMSub | FNMAdd | FNMSub
| FCvtWS | FCvtLS | FCvtSW | FCvtSL | FCvtWUS | FCvtLUS | FCvtSWU | FCvtSLU | FCvtSD | FCvtDS
| FSgnJ | FSgnJN | FSgnJX | FEq | FLt | FLe | FClass | FMvToX | FMvToF.

Inductive AtomicOp :=
| AtomicNone | AtomicLr | AtomicSc | AtomicSwap | AtomicAdd | AtomicXor | AtomicAnd | AtomicOr
| AtomicMin | AtomicMax | AtomicMinu | AtomicMaxu.

Inductive MemWidth := WNop | WByte | WHalf | WWord | WDouble.
#[export] Instance MemWidth_eq_dec : EqDecision MemWidth.
Proof. solve_decision. Defined.

Inductive OpASrc := AReg1 | APc | AZero.
Inductive OpBSrc := BImm | BReg2 | BZero.
Inductive ControlFlow := Sequential | Branch | Jump.

Inductive SystemOp := SysNone | Mret | Sret | Wfi | Fence | FenceI | SfenceVma | System.
#[export] Instance SystemOp_eq_dec : EqDecision SystemOp.
Proof. solve_decision. Defined.

Inductive CsrOp := CsrNone | Rw | Rs | Rc | Rwi | Rsi | Rci.

Record ControlSignals := {
  reg_write : bool;
  fp_reg_write : bool;
  mem_read : bool;
  mem_write : bool;
  control_flow : ControlFlow;
  is_rv32 : bool;
  width : MemWidth;
  signed_load : bool;
  alu : AluOp;
  a_src : OpASrc;
  b_src : OpBSrc;
  system_op : SystemOp;
  csr_addr : Z;
  csr_op : CsrOp;
  rs1_fp : bool;
  rs2_fp : bool;
  rs3_fp : bool;
  atomic_op : AtomicOp
}.

Definition ControlSignals_default : ControlSignals := {|
  reg_write := false; fp_reg_write := false; mem_read := false; mem_write := false;
  control_flow := Sequential; is_rv32 := false; width := WNop; signed_load := false;
  alu := Add; a_src := AReg1; b_src := BImm; system_op := SysNone; csr_addr := 0;
  csr_op := CsrNone; rs1_fp := false; rs2_fp := false; rs3_fp := false;
  atomic_op := AtomicNone |}.

(** ** Global-history snapshot *)

Definition GHR_MAX_WORDS : nat := 16.
Record Ghr := { ghr_bits : list Z; ghr_len : Z }.
Definition ghr_default : Ghr := {| ghr_bits := replicate GHR_MAX_WORDS 0; ghr_len := 0 |}.

(** ** Memory widths *)

(** [width_to_bytes] of the store buffer and the load queue. *)
Definition width_to_bytes (w : MemWidth) : Z :=
  match w with WByte => 1 | WHalf => 2 | WWord => 4 | WDouble => 8 | WNop => 0 end.

Lemma width_to_bytes_range (w : MemWidth) : 0 <= width_to_bytes w <= 8.
Proof. destruct w; simpl; lia. Qed.
