(* ===== verification/History.v ===== *)
(** Branch history ([core/units/bru/branch_predictor.rs], the register [Ghr],
    and [components/folded_history.rs]): the shift register as a stream of
    outcomes, and the circular shift registers that keep its XOR fold.  The fold
    updated one outcome at a time, the fold recomputed word by word and the
    one replayed bit by bit are the same value. *)
From S2P Require Import Prelude Common.
Set Primitive Projections.
Local Open Scope Z_scope.

(** * The shift register *)

Definition ghr_new (val : Z) : Ghr :=
  {| ghr_bits := <[0%nat := val]> (replicate GHR_MAX_WORDS 0); ghr_len := 64 |}.
(** [None] is the failed assertion. *)
Definition ghr_with_len (max_bits : nat) : option Ghr :=
  if (max_bits <=? GHR_MAX_WORDS * 64)%nat
  then Some {| ghr_bits := replicate GHR_MAX_WORDS 0; ghr_len := u16 (Z.of_nat max_bits) |} else None.
Definition ghr_val (self : Ghr) : Z := ghr_bits self !!! 0%nat.
Definition ghr_word (self : Ghr) (idx : nat) : Z :=
  if (idx <? GHR_MAX_WORDS)%nat then ghr_bits self !!! idx else 0.
Definition ghr_bit (self : Ghr) (pos : nat) : bool :=
  let word_idx := (pos / 64)%nat in
  let bit_idx := (pos mod 64)%nat in
  if (GHR_MAX_WORDS <=? word_idx)%nat then false
  else bit_at (ghr_bits self !!! word_idx) (Z.of_nat bit_idx).

(** [for i in (1..n + 1).rev()] *)
Fixpoint ghr_shift_words (n : nat) (bits : list Z) : list Z :=
  match n with
  | O => bits
  | S m => ghr_shift_words m (<[n := Z.lor (shl64 (bits !!! n) 1) (Z.shiftr (bits !!! m) 63)]> bits)
  end.
(** [for w in &mut self.bits[from..]] *)
Definition ghr_zero_from (from : nat) (bits : list Z) : list Z :=
  take from bits ++ replicate (length bits - from) 0.
Definition ghr_mask_top (len : nat) (bits : list Z) : list Z :=
  if (0 <? len)%nat && (len <? GHR_MAX_WORDS * 64)%nat then
    let top_word_idx := (len / 64)%nat in
    let top_bit_count := (len mod 64)%nat in
    if (top_word_idx <? GHR_MAX_WORDS)%nat then
      ghr_zero_from (top_word_idx + 1)
        (<[top_word_idx :=
             if (0 <? top_bit_count)%nat
             then Z.land (bits !!! top_word_idx) (2 ^ Z.of_nat top_bit_count - 1) else 0]> bits)
    else bits
  else bits.
Definition ghr_push (self : Ghr) (taken : bool) : Ghr :=
  let bits := ghr_shift_words (GHR_MAX_WORDS - 1) (ghr_bits self) in
  let bits := <[0%nat := Z.lor (shl64 (bits !!! 0%nat) 1) (Z.b2z taken)]> bits in
  self <| ghr_bits := ghr_mask_top (Z.to_nat (ghr_len self)) bits |>.

(** ** Invariant and meaning *)

Definition ghr_ok (g : Ghr) : Prop :=
  length (ghr_bits g) = GHR_MAX_WORDS /\ Forall (in_width 64) (ghr_bits g) /\ 0 <= ghr_len g <= 1024.
#[export] Instance ghr_ok_dec g : Decision (ghr_ok g).
Proof. unfold ghr_ok. apply _. Defined.

(** A new outcome in front of a stream. *)
Definition push_front (taken : bool) (h : nat -> bool) (k : nat) : bool :=
  match k with O => taken | S j => h j end.

Lemma ghr_words (g : Ghr) (i : nat) : ghr_ok g -> in_width 64 (ghr_bits g !!! i).
Proof.
  intros (Hl & Hw & _). destruct (decide (i < length (ghr_bits g))%nat) as [H|H].
  - by apply Forall_at.
  - rewrite list_lookup_total_alt, lookup_ge_None_2 by lia. done.
Qed.

Lemma ghr_shift_length n bits : length (ghr_shift_words n bits) = length bits.
Proof. revert bits. induction n as [|n IH]; intros; simpl; [done|]. by rewrite IH, length_insert. Qed.

Lemma ghr_shift_lookup n bits i :
  (n < length bits)%nat ->
  ghr_shift_words n bits !!! i =
  if (0 <? i)%nat && (i <=? n)%nat then Z.lor (shl64 (bits !!! i) 1) (Z.shiftr (bits !!! (i - 1)%nat) 63)
  else bits !!! i.
Proof.
  revert bits. induction n as [|n IH]; intros bits Hn; simpl ghr_shift_words.
  - destruct (Nat.ltb_spec 0 i), (Nat.leb_spec i 0); simpl; done || lia.
  - rewrite IH by (rewrite length_insert; lia).
    destruct (Nat.eq_dec i (S n)) as [->|Hi].
    + rewrite (proj2 (Nat.leb_gt _ n)) by lia. rewrite andb_false_r, list_lookup_total_insert_eq by lia.
      rewrite Nat.leb_refl. simpl. by rewrite Nat.sub_0_r.
    + assert ((i <=? S n) = (i <=? n))%nat as ->.
      { destruct (Nat.leb_spec i (S n)), (Nat.leb_spec i n); done || lia. }
      rewrite list_lookup_total_insert_ne by done.
      destruct (_ && _) eqn:E; [|done]. to_prop. by rewrite list_lookup_total_insert_ne by lia.
Qed.

Lemma ghr_bit_lookup (g : Ghr) (w b : nat) :
  (b < 64)%nat -> ghr_bit g (64 * w + b) = (w <? GHR_MAX_WORDS)%nat && Z.testbit (ghr_bits g !!! w) (Z.of_nat b).
Proof.
  intros Hb. unfold ghr_bit.
  assert ((64 * w + b) / 64 = w)%nat as -> by (symmetry; apply Nat.div_unique with b; lia).
  assert ((64 * w + b) mod 64 = b)%nat as -> by (symmetry; apply Nat.mod_unique with w; lia).
  rewrite bit_at_testbit by lia.
  destruct (Nat.leb_spec GHR_MAX_WORDS w), (Nat.ltb_spec w GHR_MAX_WORDS); done || lia.
Qed.

Lemma ghr_pos (pos : nat) : exists w b, pos = (64 * w + b)%nat /\ (b < 64)%nat.
Proof. exists (pos / 64)%nat, (pos mod 64)%nat. split; [by apply Nat.div_mod|by apply Nat.mod_upper_bound]. Qed.

Lemma ghr_mask_length len bits : length bits = GHR_MAX_WORDS -> length (ghr_mask_top len bits) = GHR_MAX_WORDS.
Proof.
  intros Hl. unfold ghr_mask_top. destruct (_ && _); [|done]. destruct (Nat.ltb_spec (len / 64) GHR_MAX_WORDS); [|done].
  unfold ghr_zero_from. rewrite length_app, length_take, length_replicate, length_insert. lia.
Qed.

Lemma ghr_mask_lookup len bits (w b : nat) :
  length bits = GHR_MAX_WORDS -> (b < 64)%nat -> (w < GHR_MAX_WORDS)%nat ->
  Z.testbit (ghr_mask_top len bits !!! w) (Z.of_nat b) =
  ((len =? 0)%nat || (1024 <=? len)%nat || (64 * w + b <? len)%nat) && Z.testbit (bits !!! w) (Z.of_nat b).
Proof.
  intros Hl Hb Hw. unfold ghr_mask_top. destruct (_ && _) eqn:E.
  2:{ apply andb_false_iff in E. change (GHR_MAX_WORDS * 64)%nat with 1024%nat in E.
      assert ((len =? 0)%nat || (1024 <=? len)%nat = true) as ->; [|done]. apply orb_true_iff.
      destruct E; to_prop; [left; apply Nat.eqb_eq; lia|right; by apply Nat.leb_le]. }
  to_prop. unfold GHR_MAX_WORDS in *. rewrite (proj2 (Nat.eqb_neq _ _)), (proj2 (Nat.leb_gt _ _)) by lia. cbn [orb].
  assert (64 * (len / 64) + len mod 64 = len)%nat as Hlen by (symmetry; by apply Nat.div_mod).
  assert (len mod 64 < 64)%nat as Hm by by apply Nat.mod_upper_bound.
  set (q := (len / 64)%nat) in *. set (r := (len mod 64)%nat) in *.
  rewrite (proj2 (Nat.ltb_lt q 16)) by lia.
  unfold ghr_zero_from. destruct (Nat.lt_ge_cases w (q + 1)) as [Hq|Hq].
  - rewrite lookup_total_app_l by (rewrite length_take, length_insert; lia).
    rewrite lookup_total_take_lt by lia. destruct (Nat.eq_dec w q) as [->|Hne].
    + rewrite list_lookup_total_insert_eq by lia. destruct (Nat.ltb_spec 0 r).
      * rewrite Z.land_spec, pow2_pred_testbit, andb_comm by lia. f_equal.
        destruct (Z.ltb_spec (Z.of_nat b) (Z.of_nat r)), (Nat.ltb_spec (64 * q + b) len); done || lia.
      * rewrite Z.testbit_0_l. by rewrite (proj2 (Nat.ltb_ge _ _)) by lia.
    + rewrite list_lookup_total_insert_ne by done. by rewrite (proj2 (Nat.ltb_lt _ _)) by lia.
  - rewrite lookup_total_app_r by (rewrite length_take, length_insert; lia).
    rewrite lookup_total_replicate_2 by (rewrite ?length_take, ?length_insert; lia).
    rewrite Z.testbit_0_l. by rewrite (proj2 (Nat.ltb_ge _ _)) by lia.
Qed.

Lemma ghr_val_bit (g : Ghr) (k : nat) : (k < 64)%nat -> ghr_bit g k = Z.testbit (ghr_val g) (Z.of_nat k).
Proof. intros Hk. exact (ghr_bit_lookup g 0 k Hk). Qed.

Lemma in_width_bits (w x : Z) :
  0 <= w -> 0 <= x -> (forall i, w <= i -> Z.testbit x i = false) -> in_width w x.
Proof.
  intros Hw Hx H. assert (x = wrap w x) as ->; [|by apply wrap_range].
  apply Z.bits_inj'. intros i Hi. rewrite wrap_testbit by done.
  destruct (Z.ltb_spec i w); [done|]. by apply H.
Qed.
Lemma lor_fits (w x y : Z) : 0 <= w -> in_width w x -> in_width w y -> in_width w (Z.lor x y).
Proof.
  intros Hw Hx Hy. pose proof (proj1 Hx). pose proof (proj1 Hy). apply in_width_bits; [done|by apply Z.lor_nonneg|]. intros i Hi.
  by rewrite Z.lor_spec, (testbit_above w x), (testbit_above w y).
Qed.
Lemma lxor_in_width (w x y : Z) : 0 <= w -> in_width w x -> in_width w y -> in_width w (Z.lxor x y).
Proof.
  intros Hw Hx Hy. pose proof (proj1 Hx). pose proof (proj1 Hy). apply in_width_bits; [done|apply Z.lxor_nonneg; tauto|]. intros i Hi.
  by rewrite Z.lxor_spec, (testbit_above w x), (testbit_above w y).
Qed.
Lemma shiftr_in_width (w x n : Z) : 0 <= w -> 0 <= n -> in_width w x -> in_width w (Z.shiftr x n).
Proof.
  intros Hw Hn Hx. apply in_width_bits; [done|apply Z.shiftr_nonneg; unfold in_width in Hx; lia|]. intros i Hi.
  rewrite Z.shiftr_spec by lia. by rewrite (testbit_above w) by (done || lia).
Qed.
Lemma b2z_in_width (w : Z) (b : bool) : 0 < w -> in_width w (Z.b2z b).
Proof. intros. unfold in_width. assert (2 ^ 1 <= 2 ^ w) by (apply Z.pow_le_mono_r; lia). destruct b; simpl; lia. Qed.
#[local] Hint Resolve lor_fits lxor_in_width shiftr_in_width b2z_in_width land_in_width : rvsim.

Lemma b2z_testbit (b : bool) (i : Z) : 0 <= i -> Z.testbit (Z.b2z b) i = b && (i =? 0).
Proof.
  intros Hi. destruct b; simpl; [|by rewrite Z.testbit_0_l].
  destruct (Z.eqb_spec i 0) as [->|]; [done|]. change 1 with (Z.b2z true).
  rewrite (testbit_above 1); [done|unfold in_width; simpl; lia|lia].
Qed.

(** The position a push keeps: [k < len], or the capacity when there is no length. *)
Definition ghr_keeps (g : Ghr) (k : nat) : bool :=
  ((Z.to_nat (ghr_len g) =? 0)%nat || (1024 <=? Z.to_nat (ghr_len g))%nat || (k <? Z.to_nat (ghr_len g))%nat)
  && (k <? 1024)%nat.

Lemma ghr_push_bits (g : Ghr) (t : bool) :
  ghr_bits (ghr_push g t) =
  ghr_mask_top (Z.to_nat (ghr_len g))
    (<[0%nat := Z.lor (shl64 (ghr_shift_words 15 (ghr_bits g) !!! 0%nat) 1) (Z.b2z t)]> (ghr_shift_words 15 (ghr_bits g))).
Proof. done. Qed.

Lemma ghr_shl_bit (x : Z) (b : nat) :
  (b < 64)%nat -> Z.testbit (shl64 x 1) (Z.of_nat b) = match b with O => false | S j => Z.testbit x (Z.of_nat j) end.
Proof.
  intros Hb. unfold shl64. rewrite wrap_testbit, (proj2 (Z.ltb_lt _ _)), Z.shiftl_spec by lia. simpl.
  destruct b as [|j]; [done|]. f_equal. lia.
Qed.
Lemma shiftr_63_bit (x : Z) (b : nat) :
  in_width 64 x -> Z.testbit (Z.shiftr x 63) (Z.of_nat b) = (b =? 0)%nat && Z.testbit x 63.
Proof.
  intros Hx. rewrite Z.shiftr_spec by lia. destruct b as [|j]; [done|]. by rewrite (testbit_above 64) by (done || lia).
Qed.

Lemma ghr_push_bit (g : Ghr) (t : bool) (k : nat) :
  ghr_ok g -> ghr_bit (ghr_push g t) k = ghr_keeps g k && push_front t (ghr_bit g) k.
Proof.
  intros Hg. destruct (ghr_pos k) as (w & b & -> & Hb). rewrite ghr_bit_lookup by done. unfold ghr_keeps.
  destruct (Nat.ltb_spec w GHR_MAX_WORDS) as [Hw|Hw]; unfold GHR_MAX_WORDS in Hw.
  2:{ rewrite (proj2 (Nat.ltb_ge _ 1024)) by lia. by rewrite andb_false_r. }
  rewrite (proj2 (Nat.ltb_lt _ 1024)), andb_true_r by lia. cbn [andb]. rewrite ghr_push_bits.
  pose proof Hg as (Hl & _).
  assert (length (ghr_shift_words 15 (ghr_bits g)) = 16%nat) as Hls by (by rewrite ghr_shift_length).
  rewrite ghr_mask_lookup by (rewrite ?length_insert; unfold GHR_MAX_WORDS; done || lia). f_equal.
  assert (forall i, in_width 64 (ghr_bits g !!! i)) as Hwd by (intros i; by apply ghr_words).
  destruct w as [|w].
  - rewrite list_lookup_total_insert_eq by lia.
    rewrite ghr_shift_lookup by (rewrite Hl; unfold GHR_MAX_WORDS; lia). simpl Nat.ltb.
    rewrite Z.lor_spec, ghr_shl_bit, b2z_testbit by lia. destruct b as [|j]; simpl; [by rewrite andb_true_r|].
    rewrite andb_false_r, orb_false_r. symmetry. apply (ghr_bit_lookup g 0 j). lia.
  - rewrite list_lookup_total_insert_ne by done.
    rewrite ghr_shift_lookup by (rewrite Hl; unfold GHR_MAX_WORDS; lia).
    rewrite (proj2 (Nat.leb_le (S w) _)) by (unfold GHR_MAX_WORDS; lia). cbn [Nat.ltb Nat.leb andb].
    rewrite Z.lor_spec, ghr_shl_bit, shiftr_63_bit by done. destruct b as [|j].
    + replace (64 * S w + 0)%nat with (S (64 * w + 63)) by lia. cbn [push_front].
      rewrite ghr_bit_lookup, (proj2 (Nat.ltb_lt w _)) by (unfold GHR_MAX_WORDS; lia).
      simpl. by rewrite Nat.sub_0_r.
    + replace (64 * S w + S j)%nat with (S (64 * S w + j)) by lia. cbn [push_front].
      rewrite ghr_bit_lookup, (proj2 (Nat.ltb_lt (S w) _)) by (unfold GHR_MAX_WORDS; lia).
      simpl. by rewrite orb_false_r.
Qed.

Lemma ghr_insert_ok (bits : list Z) i x :
  Forall (in_width 64) bits -> in_width 64 x -> Forall (in_width 64) (<[i := x]> bits).
Proof. intros. by apply Forall_insert. Qed.

Lemma total_in_width (bits : list Z) i : Forall (in_width 64) bits -> in_width 64 (bits !!! i).
Proof.
  intros H. rewrite list_lookup_total_alt. destruct (bits !! i) eqn:E; [|done]. exact (proj1 (Forall_lookup _ _) H _ _ E).
Qed.
Lemma shl64_in_width (x n : Z) : in_width 64 (shl64 x n).
Proof. apply wrap_range. lia. Qed.
#[local] Hint Resolve shl64_in_width total_in_width ghr_insert_ok : rvsim.

Lemma ghr_shift_ok n bits : Forall (in_width 64) bits -> Forall (in_width 64) (ghr_shift_words n bits).
Proof. revert bits. induction n as [|n IH]; intros bits H; simpl; [done|]. apply IH, ghr_insert_ok; [done|]. auto 6 with rvsim lia. Qed.

Lemma ghr_mask_ok len bits : Forall (in_width 64) bits -> Forall (in_width 64) (ghr_mask_top len bits).
Proof.
  intros H. unfold ghr_mask_top. destruct (_ && _); [|done]. destruct (_ <? _)%nat; [|done].
  apply Forall_app. split; [apply Forall_take, ghr_insert_ok; [done|]|by apply Forall_replicate].
  destruct (_ <? _)%nat; [auto with rvsim lia|done].
Qed.

Lemma ghr_push_ok (g : Ghr) (t : bool) : ghr_ok g -> ghr_ok (ghr_push g t).
Proof.
  intros (Hl & Hw & Hlen). unfold ghr_push. split; [|split; [|done]].
  - apply ghr_mask_length. by rewrite length_insert, ghr_shift_length.
  - apply ghr_mask_ok. pose proof (ghr_shift_ok (GHR_MAX_WORDS - 1) _ Hw). auto 6 with rvsim lia.
Qed.
Lemma ghr_push_len (g : Ghr) (t : bool) : ghr_len (ghr_push g t) = ghr_len g.
Proof. done. Qed.

Lemma ghr_with_len_ok (n : nat) (g : Ghr) :
  ghr_with_len n = Some g -> ghr_ok g /\ Z.to_nat (ghr_len g) = n /\ forall k, ghr_bit g k = false.
Proof.
  unfold ghr_with_len. destruct (Nat.leb_spec n (GHR_MAX_WORDS * 64)) as [H|]; [|done].
  intros [= <-]. unfold GHR_MAX_WORDS in *.
  assert (u16 (Z.of_nat n) = Z.of_nat n) as -> by (apply wrap_small; unfold in_width; lia).
  split; [|split]; [split; [done|]|simpl; lia|].
  - split; [by repeat constructor|simpl; lia].
  - intros k. unfold ghr_bit. destruct (Nat.leb_spec GHR_MAX_WORDS (k / 64)) as [?|Hk]; unfold GHR_MAX_WORDS in *; [done|].
    match goal with |- context [ghr_bits ?g] => change (ghr_bits g) with (replicate 16 0) end.
    rewrite lookup_total_replicate_2 by done. by rewrite bit_at_testbit, Z.testbit_0_l by lia.
Qed.

(** * Folded history *)

(** [fold_width] is below 64 in every configuration ([1u64 << w] overflows from 64 on). *)
Record FoldedHistory := { fh_val : Z; fold_width : nat; hist_length : nat }.
Definition fh_new (fold_width hist_length : nat) : FoldedHistory :=
  {| fh_val := 0; fold_width := fold_width; hist_length := hist_length |}.
Definition fh_mask (w : nat) : Z := sub64 (shl64 1 (Z.of_nat w)) 1.
(** [((val << 1) | msb) & mask] *)
Definition fh_rotate1 (w : nat) (val : Z) : Z :=
  let msb := Z.land (Z.shiftr val (Z.of_nat (w - 1))) 1 in
  Z.land (Z.lor (shl64 val 1) msb) (fh_mask w).

Definition fh_update (self : FoldedHistory) (new_bit old_bit : bool) : FoldedHistory :=
  let w := fold_width self in
  if (w =? 0)%nat then self
  else
    let val := fh_rotate1 w (fh_val self) in
    let val := Z.lxor val (Z.b2z new_bit) in
    let val := Z.lxor val (shl64 (Z.b2z old_bit) (Z.of_nat (hist_length self mod w))) in
    self <| fh_val := Z.land val (fh_mask w) |>.

(** [while v != 0]; every round drops a bit at least. *)
Fixpoint fh_chunks (fuel w : nat) (v folded : Z) : Z :=
  match fuel with
  | O => folded
  | S fuel' => if v =? 0 then folded
               else fh_chunks fuel' w (Z.shiftr v (Z.of_nat w)) (Z.lxor folded (Z.land v (fh_mask w)))
  end.
Definition fh_rotate (w rot : nat) (folded : Z) : Z :=
  Z.land (Z.lor (shl64 folded (Z.of_nat rot)) (Z.shiftr folded (Z.of_nat (w - rot)))) (fh_mask w).
Definition fh_recompute_word (ghr : Ghr) (w hist_length : nat) (result : Z) (word_idx : nat) : Z :=
  let word := ghr_word ghr word_idx in
  let bits_in_word := ((hist_length - word_idx * 64) `min` 64)%nat in
  let word := if (bits_in_word <? 64)%nat then Z.land word (2 ^ Z.of_nat bits_in_word - 1) else word in
  if word =? 0 then result
  else
    let folded := fh_chunks 64 w word 0 in
    let rot := ((word_idx * 64) mod w)%nat in
    Z.lxor result (if (0 <? rot)%nat then fh_rotate w rot folded else folded).
Definition fh_recompute (self : FoldedHistory) (ghr : Ghr) : FoldedHistory :=
  let w := fold_width self in
  if (w =? 0)%nat then self <| fh_val := 0 |>
  else
    let num_words := ((hist_length self + 63) / 64)%nat in
    let result := foldl (fh_recompute_word ghr w (hist_length self)) 0 (seq 0 num_words) in
    self <| fh_val := Z.land result (fh_mask w) |>.

Definition fh_replay_bit (ghr : Ghr) (w : nat) (val : Z) (i : nat) : Z :=
  Z.lxor (fh_rotate1 w val) (Z.b2z (ghr_bit ghr i)).
Definition fh_recompute_reference (self : FoldedHistory) (ghr : Ghr) : FoldedHistory :=
  let w := fold_width self in
  if (w =? 0)%nat then self <| fh_val := 0 |>
  else self <| fh_val := foldl (fh_replay_bit ghr w) 0 (rev (seq 0 (hist_length self))) |>.

(** ** The fold of a stretch of history

    [fold_from w s n h] is the XOR of the outcomes at positions [s], ...,
    [s + n - 1], each at its position modulo [w]. *)

Definition fold_bit (w i : nat) (b : bool) : Z := Z.shiftl (Z.b2z b) (Z.of_nat (i mod w)).
Fixpoint fold_from (w s n : nat) (h : nat -> bool) : Z :=
  match n with
  | O => 0
  | S m => Z.lxor (fold_bit w s (h s)) (fold_from w (S s) m h)
  end.

Section Folds.
Variable w : nat.
Hypothesis Hw : (1 <= w <= 63)%nat.
Local Abbreviation W := (Z.of_nat w).

Lemma fh_mask_pow : fh_mask w = 2 ^ W - 1.
Proof.
  assert (2 ^ 0 <= 2 ^ W) by (apply Z.pow_le_mono_r; lia).
  assert (2 ^ W <= 2 ^ 63) by (apply Z.pow_le_mono_r; lia).
  unfold fh_mask, sub64. rewrite shl64_small, Z.mul_1_l by lia. apply wrap_small. unfold in_width. lia.
Qed.
Lemma fh_mask_bit (i : Z) : 0 <= i -> Z.testbit (fh_mask w) i = (i <? W).
Proof. intros. rewrite fh_mask_pow. apply pow2_pred_testbit; lia. Qed.

Lemma fold_bit_testbit (i : nat) (b : bool) (j : Z) :
  0 <= j -> Z.testbit (fold_bit w i b) j = b && (j =? Z.of_nat (i mod w)).
Proof.
  intros Hj. unfold fold_bit. rewrite Z.shiftl_spec by done.
  destruct (Z.ltb_spec j (Z.of_nat (i mod w))).
  - rewrite Z.testbit_neg_r by lia. rewrite (proj2 (Z.eqb_neq _ _)) by lia. by rewrite andb_false_r.
  - rewrite b2z_testbit by lia. f_equal. destruct (Z.eqb_spec (j - Z.of_nat (i mod w)) 0), (Z.eqb_spec j (Z.of_nat (i mod w))); done || lia.
Qed.
Lemma fold_bit_range (i : nat) (b : bool) : in_width W (fold_bit w i b).
Proof.
  assert (i mod w < w)%nat by (apply Nat.mod_upper_bound; lia).
  apply in_width_bits; [lia|apply Z.shiftl_nonneg; destruct b; simpl; lia|].
  intros j Hj. rewrite fold_bit_testbit by lia. rewrite (proj2 (Z.eqb_neq _ _)) by lia. apply andb_false_r.
Qed.
Lemma fold_from_range (s n : nat) h : in_width W (fold_from w s n h).
Proof.
  revert s. induction n as [|n IH]; intros s; simpl; [unfold in_width; lia|].
  apply lxor_in_width; [lia|apply fold_bit_range|done].
Qed.
Lemma fold_from_app (s n m : nat) h :
  fold_from w s (n + m) h = Z.lxor (fold_from w s n h) (fold_from w (s + n) m h).
Proof.
  revert s. induction n as [|n IH]; intros s; simpl.
  - by rewrite Nat.add_0_r.
  - rewrite IH, Z.lxor_assoc. do 2 f_equal. f_equal; lia.
Qed.
Lemma fold_from_ext (s n : nat) h1 h2 :
  (forall i, (s <= i < s + n)%nat -> h1 i = h2 i) -> fold_from w s n h1 = fold_from w s n h2.
Proof.
  revert s. induction n as [|n IH]; intros s H; simpl; [done|]. rewrite (H s) by lia. f_equal.
  apply IH. intros. apply H. lia.
Qed.
Lemma fold_from_zero (s n : nat) h : (forall i, (s <= i < s + n)%nat -> h i = false) -> fold_from w s n h = 0.
Proof.
  revert s. induction n as [|n IH]; intros s H; simpl; [done|]. rewrite (H s) by lia.
  rewrite IH by (intros; apply H; lia). unfold fold_bit. by rewrite Z.shiftl_0_l.
Qed.

(** ** Rotation *)

Lemma fh_rotate_bit (r : nat) (x j : Z) :
  (r <= w)%nat -> in_width W x -> 0 <= j ->
  Z.testbit (fh_rotate w r x) j =
  (j <? W) && (if j <? Z.of_nat r then Z.testbit x (j + W - Z.of_nat r) else Z.testbit x (j - Z.of_nat r)).
Proof.
  intros Hr Hx Hj. unfold fh_rotate. rewrite Z.land_spec, Z.lor_spec, fh_mask_bit, andb_comm by done.
  destruct (Z.ltb_spec j W) as [Hjw|]; [cbn [andb]|done].
  unfold shl64. rewrite wrap_testbit, (proj2 (Z.ltb_lt j 64)), Z.shiftl_spec, Z.shiftr_spec by lia. cbn [andb].
  destruct (Z.ltb_spec j (Z.of_nat r)).
  - rewrite Z.testbit_neg_r by lia. simpl. f_equal. lia.
  - rewrite (testbit_above W x (j + _)) by (done || lia). apply orb_false_r.
Qed.
Lemma fh_rotate1_eq (x : Z) : in_width W x -> fh_rotate1 w x = fh_rotate w 1 x.
Proof.
  intros Hx. apply Z.bits_inj'. intros j Hj. rewrite fh_rotate_bit by (done || lia).
  unfold fh_rotate1. rewrite Z.land_spec, Z.lor_spec, fh_mask_bit, andb_comm by done.
  destruct (Z.ltb_spec j W) as [Hjw|]; [cbn [andb]|done].
  unfold shl64. rewrite wrap_testbit, (proj2 (Z.ltb_lt j 64)), Z.shiftl_spec, land_1_testbit, b2z_testbit by lia. cbn [andb].
  destruct (Z.ltb_spec j (Z.of_nat 1)).
  - assert (j = 0) as -> by lia. rewrite Z.testbit_neg_r, orb_false_l, Z.eqb_refl, andb_true_r by lia. f_equal. lia.
  - rewrite (proj2 (Z.eqb_neq j 0)), andb_false_r by lia. apply orb_false_r.
Qed.
Lemma fh_rotate_range (r : nat) (x : Z) : in_width W (fh_rotate w r x).
Proof.
  unfold fh_rotate. rewrite Z.land_comm. apply land_in_width; [lia|]. rewrite fh_mask_pow. unfold in_width.
  assert (2 ^ 0 <= 2 ^ W) by (apply Z.pow_le_mono_r; lia). lia.
Qed.
Lemma fh_rotate_lxor (r : nat) (x y : Z) :
  (r <= w)%nat -> in_width W x -> in_width W y ->
  fh_rotate w r (Z.lxor x y) = Z.lxor (fh_rotate w r x) (fh_rotate w r y).
Proof.
  intros Hr Hx Hy. apply Z.bits_inj'. intros j Hj.
  rewrite Z.lxor_spec, !fh_rotate_bit by (done || by apply lxor_in_width; auto; lia).
  destruct (j <? W); [|done]. simpl. destruct (j <? Z.of_nat r); by rewrite Z.lxor_spec.
Qed.
Lemma mod_add_wrap (i r : nat) :
  (r <= w)%nat -> ((i + r) mod w = if i mod w + r <? w then i mod w + r else i mod w + r - w)%nat.
Proof.
  intros Hr. pose proof (Nat.mod_upper_bound i w ltac:(lia)). pose proof (Nat.div_mod i w ltac:(lia)).
  destruct (Nat.ltb_spec (i mod w + r) w).
  - symmetry. apply Nat.mod_unique with (i / w)%nat; lia.
  - symmetry. apply Nat.mod_unique with (i / w + 1)%nat; lia.
Qed.
Lemma fh_rotate_fold_bit (r i : nat) (b : bool) :
  (r <= w)%nat -> fh_rotate w r (fold_bit w i b) = fold_bit w (i + r) b.
Proof.
  intros Hr. apply Z.bits_inj'. intros j Hj.
  rewrite fh_rotate_bit by (done || apply fold_bit_range).
  pose proof (Nat.mod_upper_bound i w ltac:(lia)) as Hm.
  rewrite (fold_bit_testbit (i + r)), mod_add_wrap by lia.
  destruct (Z.ltb_spec j W) as [Hjw|Hjw]; cbn [andb].
  - destruct (Z.ltb_spec j (Z.of_nat r)); rewrite fold_bit_testbit by lia; f_equal;
      destruct (Nat.ltb_spec (i mod w + r) w);
      match goal with |- (?a =? ?b) = (?c =? ?d) => destruct (Z.eqb_spec a b), (Z.eqb_spec c d) end; done || lia.
  - symmetry. rewrite (proj2 (Z.eqb_neq _ _)); [apply andb_false_r|]. destruct (Nat.ltb_spec (i mod w + r) w); lia.
Qed.
Lemma fh_rotate_zero (r : nat) : fh_rotate w r 0 = 0.
Proof. unfold fh_rotate, shl64. by rewrite Z.shiftl_0_l, Z.shiftr_0_l. Qed.

(** Rotation moves a stretch of history. *)
Lemma fh_rotate_fold_from (r s n : nat) (h : nat -> bool) :
  (r <= w)%nat -> fh_rotate w r (fold_from w s n h) = fold_from w (s + r) n (fun i => h (i - r)%nat).
Proof.
  intros Hr. revert s. induction n as [|n IH]; intros s; simpl; [apply fh_rotate_zero|].
  rewrite fh_rotate_lxor by (done || apply fold_bit_range || apply fold_from_range).
  rewrite fh_rotate_fold_bit, IH by done. f_equal. f_equal. f_equal. lia.
Qed.

(** ** One outcome at a time *)

Lemma push_fold (n : nat) (t : bool) (h : nat -> bool) :
  fold_from w 0 (S n) (push_front t h) = Z.lxor (fh_rotate w 1 (fold_from w 0 n h)) (Z.b2z t).
Proof.
  simpl. rewrite Z.lxor_comm. f_equal.
  - rewrite fh_rotate_fold_from by lia. apply fold_from_ext. intros i Hi. destruct i as [|i]; [lia|].
    cbn [push_front]. f_equal. lia.
  - unfold fold_bit. rewrite Nat.Div0.mod_0_l. apply Z.shiftl_0_r.
Qed.

Lemma fold_from_last (n : nat) (h : nat -> bool) :
  fold_from w 0 (S n) h = Z.lxor (fold_from w 0 n h) (fold_bit w n (h n)).
Proof. rewrite <-Nat.add_1_r, fold_from_app. simpl. by rewrite Z.lxor_0_r. Qed.

Lemma land_mask_id (x : Z) : in_width W x -> Z.land x (fh_mask w) = x.
Proof. intros Hx. rewrite fh_mask_pow, land_low_mask by lia. by apply Z.mod_small. Qed.

(** The incremental update is the fold of the history pushed. *)
Lemma fh_update_fold (csr : FoldedHistory) (t : bool) (h : nat -> bool) :
  fold_width csr = w -> (0 < hist_length csr)%nat -> fh_val csr = fold_from w 0 (hist_length csr) h ->
  fh_val (fh_update csr t (h (hist_length csr - 1)%nat)) = fold_from w 0 (hist_length csr) (push_front t h).
Proof.
  intros Ew Hl Hv. unfold fh_update. rewrite Ew, (proj2 (Nat.eqb_neq w 0)) by lia. cbn [fh_val].
  destruct (hist_length csr) as [|n] eqn:El; [lia|]. clear Hl.
  assert (fold_from w 0 (S n) (push_front t h) =
          Z.lxor (fold_from w 0 (S (S n)) (push_front t h)) (fold_bit w (S n) (h n))) as ->.
  { rewrite (fold_from_last (S n)). cbn [push_front]. by rewrite Z.lxor_assoc, Z.lxor_nilpotent, Z.lxor_0_r. }
  rewrite push_fold, Hv, fh_rotate1_eq by apply fold_from_range. rewrite Nat.sub_succ, Nat.sub_0_r.
  assert (shl64 (Z.b2z (h n)) (Z.of_nat (S n mod w)) = fold_bit w (S n) (h n)) as ->.
  { unfold shl64. apply wrap_small. pose proof (fold_bit_range (S n) (h n)) as [? ?]. unfold fold_bit in *.
    assert (2 ^ W <= 2 ^ 64) by (apply Z.pow_le_mono_r; lia). unfold in_width. lia. }
  apply land_mask_id. repeat apply lxor_in_width; try lia; [apply fh_rotate_range|apply b2z_in_width; lia|apply fold_bit_range].
Qed.

(** ** Bit by bit *)

Lemma replay_fold (g : Ghr) (l : nat) :
  foldl (fh_replay_bit g w) 0 (rev (seq 0 l)) = fold_from w 0 l (ghr_bit g).
Proof.
  assert (forall n s, foldl (fh_replay_bit g w) 0 (rev (seq s n)) = fold_from w 0 n (fun i => ghr_bit g (s + i)%nat)) as H.
  { induction n as [|n IH]; intros s; [done|]. cbn [seq rev]. rewrite foldl_snoc, IH. unfold fh_replay_bit.
    rewrite fh_rotate1_eq by apply fold_from_range. rewrite <-push_fold. apply fold_from_ext. intros i Hi.
    destruct i as [|i]; cbn [push_front]; f_equal; lia. }
  apply (H l 0%nat).
Qed.

(** ** Word by word *)

Lemma fold_low_bits (n : nat) (v : Z) :
  (n <= w)%nat -> fold_from w 0 n (fun i => Z.testbit v (Z.of_nat i)) = wrap (Z.of_nat n) v.
Proof.
  induction n as [|n IH]; intros Hn; [symmetry; apply Z.mod_1_r|]. rewrite fold_from_last, IH by lia.
  apply Z.bits_inj'. intros j Hj. rewrite Z.lxor_spec, fold_bit_testbit, !wrap_testbit, Nat.mod_small by lia.
  destruct (Z.eqb_spec j (Z.of_nat n)) as [->|].
  - rewrite (proj2 (Z.ltb_ge _ _)), (proj2 (Z.ltb_lt _ _)), andb_true_r by lia. done.
  - rewrite andb_false_r, xorb_false_r. f_equal. destruct (Z.ltb_spec j (Z.of_nat n)), (Z.ltb_spec j (Z.of_nat (S n))); done || lia.
Qed.
Lemma fold_from_shift (s n : nat) (h : nat -> bool) :
  fold_from w (s + w) n h = fold_from w s n (fun i => h (i + w)%nat).
Proof.
  revert s. induction n as [|n IH]; intros s; [done|]. cbn [fold_from]. f_equal; [|apply (IH (S s))].
  unfold fold_bit. do 2 f_equal. rewrite <-(Nat.mul_1_l w) at 1. apply Nat.Div0.mod_add.
Qed.

Lemma fold_from_mod (s n : nat) (h : nat -> bool) :
  fold_from w s n h = fold_from w (0 + s mod w) n (fun i => h (i - s mod w + s)%nat).
Proof.
  cbn [Nat.add]. assert (forall d, fold_from w (s + d) n h = fold_from w (s mod w + d) n (fun i => h (i - s mod w + s)%nat)) as H.
  { induction n as [|n IH]; intros d; [done|]. cbn [fold_from]. f_equal.
    - unfold fold_bit. rewrite Nat.Div0.add_mod_idemp_l. do 3 f_equal. lia.
    - rewrite <-!Nat.add_succ_r. apply IH. }
  specialize (H 0%nat). by rewrite !Nat.add_0_r in H.
Qed.

Lemma chunks_fold (fuel : nat) (v folded : Z) :
  0 <= v < 2 ^ Z.of_nat fuel ->
  fh_chunks fuel w v folded = Z.lxor folded (fold_from w 0 fuel (fun i => Z.testbit v (Z.of_nat i))).
Proof.
  revert v folded. induction fuel as [|fuel IH]; intros v folded Hv; [simpl in *; by rewrite Z.lxor_0_r|].
  cbn [fh_chunks]. destruct (Z.eqb_spec v 0) as [->|Hnz].
  { rewrite fold_from_zero by (intros; apply Z.testbit_0_l). by rewrite Z.lxor_0_r. }
  assert (0 <= Z.shiftr v W < 2 ^ Z.of_nat fuel) as Hs.
  { rewrite Z.shiftr_div_pow2 by lia. split; [apply Z.div_pos; lia|]. apply Z.div_lt_upper_bound; [lia|].
    rewrite Nat2Z.inj_succ, Z.pow_succ_r in Hv by lia.
    assert (2 ^ 1 <= 2 ^ W) by (apply Z.pow_le_mono_r; lia). change (2 ^ 1) with 2 in *.
    assert (0 < 2 ^ Z.of_nat fuel) by lia. nia. }
  rewrite IH, Z.lxor_assoc by done. f_equal.
  transitivity (fold_from w 0 (w + fuel) (fun i => Z.testbit v (Z.of_nat i))).
  - rewrite fold_from_app. f_equal.
    + rewrite fold_low_bits, fh_mask_pow, land_low_mask by lia. done.
    + rewrite (fold_from_shift 0). apply fold_from_ext. intros i Hi. rewrite Z.shiftr_spec by lia. f_equal. lia.
  - replace (w + fuel)%nat with (S fuel + (w - 1))%nat by lia. rewrite (fold_from_app 0 (S fuel)).
    rewrite (fold_from_zero (0 + S fuel)); [apply Z.lxor_0_r|]. intros i Hi.
    apply (testbit_above (Z.of_nat (S fuel))); [done|lia].
Qed.

Lemma recompute_word_fold (g : Ghr) (l k : nat) (result : Z) :
  ghr_ok g -> (64 * k < l)%nat -> result = fold_from w 0 (64 * k) (ghr_bit g) ->
  fh_recompute_word g w l result k = fold_from w 0 ((64 * (k + 1)) `min` l) (ghr_bit g).
Proof.
  intros Hg Hk ->. unfold fh_recompute_word. set (bw := ((l - k * 64) `min` 64)%nat).
  assert ((64 * (k + 1)) `min` l = 64 * k + bw)%nat as -> by lia. rewrite fold_from_app. cbn [Nat.add].
  set (word := if (bw <? 64)%nat then _ else _).
  assert (forall b, (b < 64)%nat -> Z.testbit word (Z.of_nat b) = (b <? bw)%nat && ghr_bit g (64 * k + b)) as Hbit.
  { intros b Hb. rewrite ghr_bit_lookup by done. unfold word, ghr_word.
    assert (Z.testbit (if (k <? GHR_MAX_WORDS)%nat then ghr_bits g !!! k else 0) (Z.of_nat b) =
      (k <? GHR_MAX_WORDS)%nat && Z.testbit (ghr_bits g !!! k) (Z.of_nat b)) as Hkb
      by (destruct (k <? GHR_MAX_WORDS)%nat; [done|by rewrite Z.testbit_0_l]).
    destruct (Nat.ltb_spec bw 64).
    - rewrite Z.land_spec, pow2_pred_testbit, Hkb, andb_comm by lia. f_equal.
      destruct (Z.ltb_spec (Z.of_nat b) (Z.of_nat bw)), (Nat.ltb_spec b bw); done || lia.
    - by rewrite Hkb, (proj2 (Nat.ltb_lt b bw)) by lia. }
  assert (0 <= word < 2 ^ Z.of_nat 64) as Hrange.
  { assert (in_width 64 (ghr_word g k)) as Hgw by (unfold ghr_word; destruct (k <? GHR_MAX_WORDS)%nat; [by apply ghr_words|done]).
    unfold word. destruct (bw <? 64)%nat; [|exact Hgw]. by apply land_in_width. }
  assert (forall s, fold_from w s bw (fun i => ghr_bit g (i - s + 64 * k)) = fold_from w s 64 (fun i => Z.testbit word (Z.of_nat (i - s)))) as Hext.
  { intros s. transitivity (fold_from w s (bw + (64 - bw)) (fun i => Z.testbit word (Z.of_nat (i - s)))); [|f_equal; lia].
    rewrite fold_from_app, (fold_from_zero (s + bw)).
    - rewrite Z.lxor_0_r. apply fold_from_ext. intros i Hi. rewrite Hbit, (proj2 (Nat.ltb_lt _ _)) by lia.
      cbn [andb]. f_equal. lia.
    - intros i Hi. rewrite Hbit, (proj2 (Nat.ltb_ge _ _)) by lia. done. }
  assert (fold_from w (64 * k) bw (ghr_bit g) = fold_from w (64 * k) 64 (fun i => Z.testbit word (Z.of_nat (i - 64 * k)))) as ->.
  { rewrite <-Hext. apply fold_from_ext. intros i Hi. f_equal. lia. }
  destruct (Z.eqb_spec word 0) as [->|_].
  { rewrite (fold_from_zero (64 * k) 64) by (intros; apply Z.testbit_0_l). by rewrite Z.lxor_0_r. }
  f_equal. rewrite (Nat.mul_comm k 64). set (n := (64 * k)%nat).
  pose proof (Nat.mod_upper_bound n w ltac:(lia)) as Hm.
  assert (fold_from w n 64 (fun i => Z.testbit word (Z.of_nat (i - n))) =
          fh_rotate w (n mod w) (fold_from w 0 64 (fun i => Z.testbit word (Z.of_nat i)))) as ->.
  { rewrite fh_rotate_fold_from by lia. rewrite (fold_from_mod n). apply fold_from_ext. intros i Hi. do 2 f_equal. lia. }
  rewrite chunks_fold, Z.lxor_0_l by done. destruct (Nat.ltb_spec 0 (n mod w)); [done|].
  assert (n mod w = 0)%nat as -> by lia. symmetry. apply Z.bits_inj'. intros j Hj.
  rewrite fh_rotate_bit by (lia || apply fold_from_range). rewrite (proj2 (Z.ltb_ge j (Z.of_nat 0))), Z.sub_0_r by lia.
  destruct (Z.ltb_spec j W); [done|]. symmetry. by apply (testbit_above W); [apply fold_from_range|].
Qed.
End Folds.

(** * The three computations agree *)

Section Agree.
Variable csr : FoldedHistory.
Hypothesis Hw : (fold_width csr <= 63)%nat.
Local Abbreviation w := (fold_width csr).
Local Abbreviation hl := (hist_length csr).

(** The fold the register should hold. *)
Definition fh_fold (h : nat -> bool) : Z := if (w =? 0)%nat then 0 else fold_from w 0 hl h.

Lemma recompute_words (g : Ghr) (k : nat) :
  ghr_ok g -> (1 <= w)%nat -> (64 * k < hl + 64)%nat ->
  foldl (fh_recompute_word g w hl) 0 (seq 0 k) = fold_from w 0 ((64 * k) `min` hl) (ghr_bit g).
Proof.
  intros Hg H1. induction k as [|k IH]; intros Hk; [done|].
  rewrite seq_S, foldl_app, IH by lia. cbn [foldl Nat.add].
  rewrite (recompute_word_fold w ltac:(lia) g hl k) by (done || lia || by rewrite Nat.min_l by lia).
  by rewrite Nat.add_1_r.
Qed.

Lemma fh_recompute_val (g : Ghr) : ghr_ok g -> fh_val (fh_recompute csr g) = fh_fold (ghr_bit g).
Proof.
  intros Hg. unfold fh_recompute, fh_fold. destruct (Nat.eqb_spec w 0) as [|Hnz]; [done|]. cbn [fh_val].
  assert (64 * ((hl + 63) / 64) <= hl + 63 < 64 * ((hl + 63) / 64) + 64)%nat
    by (pose proof (Nat.div_mod (hl + 63) 64 ltac:(lia)); pose proof (Nat.mod_upper_bound (hl + 63) 64 ltac:(lia)); lia).
  match goal with |- fh_val ?r = _ => change (fh_val r) with (Z.land (foldl (fh_recompute_word g w hl) 0 (seq 0 ((hl + 63) / 64))) (fh_mask w)) end.
  rewrite recompute_words, Nat.min_r by (done || lia). apply land_mask_id; [lia|]. apply fold_from_range. lia.
Qed.

(** The fast recomputation is the reference one. *)
Lemma fh_recompute_is_reference (g : Ghr) : ghr_ok g -> fh_recompute csr g = fh_recompute_reference csr g.
Proof.
  intros Hg. pose proof (fh_recompute_val g Hg) as H. unfold fh_fold, fh_recompute, fh_recompute_reference in *.
  destruct (Nat.eqb_spec w 0) as [|Hnz]; [done|]. rewrite replay_fold by lia.
  by match type of H with fh_val ?r = ?v => change r with (csr <| fh_val := fh_val r |>); rewrite H end.
Qed.

Lemma fh_fold_ext (h1 h2 : nat -> bool) : (forall i, (i < hl)%nat -> h1 i = h2 i) -> fh_fold h1 = fh_fold h2.
Proof. intros H. unfold fh_fold. destruct (Nat.eqb_spec w 0); [done|]. apply fold_from_ext; [lia|]. intros. apply H. lia. Qed.

Lemma fh_update_val (t : bool) (h : nat -> bool) :
  (0 < hl)%nat -> fh_val csr = fh_fold h -> fh_val (fh_update csr t (h (hl - 1)%nat)) = fh_fold (push_front t h).
Proof.
  intros Hl Hv. unfold fh_fold in *. destruct (Nat.eqb_spec w 0) as [E|Hnz].
  - unfold fh_update. by rewrite E.
  - apply fh_update_fold; done || lia.
Qed.

Lemma fh_update_push (g : Ghr) (t : bool) :
  ghr_ok g -> (0 < hl <= Z.to_nat (ghr_len g))%nat -> fh_val csr = fh_fold (ghr_bit g) ->
  fh_val (fh_update csr t (ghr_bit g (hl - 1))) = fh_fold (ghr_bit (ghr_push g t)).
Proof.
  intros Hg Hl Hv. rewrite fh_update_val by (done || lia). apply fh_fold_ext. intros i Hi.
  destruct Hg as (? & ? & ?). rewrite ghr_push_bit by done. unfold ghr_keeps.
  rewrite (proj2 (Nat.ltb_lt i _)), (proj2 (Nat.ltb_lt i _)), orb_true_r by lia. done.
Qed.
End Agree.

Lemma fh_update_shape (csr : FoldedHistory) (t b : bool) :
  fold_width (fh_update csr t b) = fold_width csr /\ hist_length (fh_update csr t b) = hist_length csr.
Proof. unfold fh_update. by destruct (_ =? _)%nat. Qed.
Lemma fh_recompute_shape (csr : FoldedHistory) (g : Ghr) :
  fold_width (fh_recompute csr g) = fold_width csr /\ hist_length (fh_recompute csr g) = hist_length csr.
Proof. unfold fh_recompute. by destruct (_ =? _)%nat. Qed.
Lemma fh_eq (a b : FoldedHistory) :
  fh_val a = fh_val b -> fold_width a = fold_width b -> hist_length a = hist_length b -> a = b.
Proof.
  intros. change (Build_FoldedHistory (fh_val a) (fold_width a) (hist_length a) =
                  Build_FoldedHistory (fh_val b) (fold_width b) (hist_length b)). congruence.
Qed.
