(* ===== verification/TaggedBank.v ===== *)
(** The bank set shared by TAGE and ITTAGE
    ([core/units/bru/components/tagged_bank.rs]): four folded histories per
    bank, kept for the predicted and for the committed history.  An array of
    registers that tracks a history is a function of the configuration and of
    that history ([csr_array]); updating, recomputing and copying keep it so. *)
From S2P Require Import Prelude Common History.
Set Primitive Projections.
Local Open Scope Z_scope.

Definition MAX_BANKS : nat := 16.

Record GeoBankSet := {
  gb_num_banks : nat;
  gb_hist_lengths : list nat; gb_tag_widths : list nat;
  gb_table_bits : nat; gb_table_mask : Z;
  gb_idx_csr : list FoldedHistory; gb_idx_csr2 : list FoldedHistory;
  gb_tag_csr : list FoldedHistory; gb_tag_csr2 : list FoldedHistory;
  gb_committed_idx_csr : list FoldedHistory; gb_committed_idx_csr2 : list FoldedHistory;
  gb_committed_tag_csr : list FoldedHistory; gb_committed_tag_csr2 : list FoldedHistory
}.

(** A [[T; MAX_BANKS]] array of which the first elements are set. *)
Definition banks_array {A} (d : A) (l : list A) : list A := l ++ replicate (MAX_BANKS - length l) d.
(** [width.saturating_sub(1).max(1)] *)
Definition second_width (w : nat) : nat := ((w - 1) `max` 1)%nat.

(** [None] is a failed assertion. *)
Definition gb_new (hist_lengths tag_widths : list nat) (table_bits : nat) : option GeoBankSet :=
  let n := length hist_lengths in
  if negb (n =? length tag_widths)%nat || (MAX_BANKS <? n)%nat then None
  else
    let csrs := fun width => banks_array (fh_new 0 0) (zip_with (fun hl tw => fh_new (width tw) hl) hist_lengths tag_widths) in
    Some {|
      gb_num_banks := n; gb_hist_lengths := banks_array 0%nat hist_lengths;
      gb_tag_widths := banks_array 0%nat tag_widths;
      gb_table_bits := table_bits; gb_table_mask := Z.shiftl 1 (Z.of_nat table_bits) - 1;
      gb_idx_csr := csrs (fun _ => table_bits); gb_idx_csr2 := csrs (fun _ => second_width table_bits);
      gb_tag_csr := csrs (fun tw => tw); gb_tag_csr2 := csrs second_width;
      gb_committed_idx_csr := csrs (fun _ => table_bits);
      gb_committed_idx_csr2 := csrs (fun _ => second_width table_bits);
      gb_committed_tag_csr := csrs (fun tw => tw); gb_committed_tag_csr2 := csrs second_width |}.

(** The hashes of [pc]. *)
Definition pc_idx_hash (pc : Z) : Z := Z.shiftr pc 2.
Definition pc_tag_hash (pc : Z) : Z := Z.lxor (Z.shiftr pc 2) (Z.shiftr pc 18).
Definition gb_index (table_mask pc h1 h2 : Z) : Z := Z.land (Z.lxor (Z.lxor (pc_idx_hash pc) h1) h2) table_mask.
Definition gb_tag (width : nat) (pc h1 h2 : Z) : Z :=
  u16 (Z.land (Z.lxor (Z.lxor (pc_tag_hash pc) h1) h2) (Z.shiftl 1 (Z.of_nat width) - 1)).

#[export] Instance FoldedHistory_inhabited : Inhabited FoldedHistory := populate (fh_new 0 0).

Definition gb_spec_index (self : GeoBankSet) (pc : Z) (bank : nat) : Z :=
  gb_index (gb_table_mask self) pc (fh_val (gb_idx_csr self !!! bank)) (fh_val (gb_idx_csr2 self !!! bank)).
Definition gb_spec_tag (self : GeoBankSet) (pc : Z) (bank : nat) : Z :=
  gb_tag (gb_tag_widths self !!! bank) pc (fh_val (gb_tag_csr self !!! bank)) (fh_val (gb_tag_csr2 self !!! bank)).
Definition gb_snapshot_index (self : GeoBankSet) (pc : Z) (bank : nat) (ghr : Ghr) : Z :=
  let hl := gb_hist_lengths self !!! bank in
  let csr1 := fh_recompute (fh_new (gb_table_bits self) hl) ghr in
  let csr2 := fh_recompute (fh_new (second_width (gb_table_bits self)) hl) ghr in
  gb_index (gb_table_mask self) pc (fh_val csr1) (fh_val csr2).
Definition gb_snapshot_tag (self : GeoBankSet) (pc : Z) (bank : nat) (ghr : Ghr) : Z :=
  let hl := gb_hist_lengths self !!! bank in
  let width := gb_tag_widths self !!! bank in
  let csr1 := fh_recompute (fh_new width hl) ghr in
  let csr2 := fh_recompute (fh_new (second_width width) hl) ghr in
  gb_tag width pc (fh_val csr1) (fh_val csr2).
(** The first [num_banks] elements of both arrays, the others zero. *)
Definition gb_snapshot_all (self : GeoBankSet) (pc : Z) (ghr : Ghr) : list Z * list Z :=
  let banks := seq 0 (gb_num_banks self) in
  (banks_array 0 ((fun i => gb_snapshot_index self pc i ghr) <$> banks),
   banks_array 0 ((fun i => gb_snapshot_tag self pc i ghr) <$> banks)).
Definition gb_committed_all (self : GeoBankSet) (pc : Z) : list Z * list Z :=
  let banks := seq 0 (gb_num_banks self) in
  (banks_array 0 ((fun i => gb_index (gb_table_mask self) pc (fh_val (gb_committed_idx_csr self !!! i))
                             (fh_val (gb_committed_idx_csr2 self !!! i))) <$> banks),
   banks_array 0 ((fun i => gb_tag (gb_tag_widths self !!! i) pc (fh_val (gb_committed_tag_csr self !!! i))
                             (fh_val (gb_committed_tag_csr2 self !!! i))) <$> banks)).

(** [for i in 0..self.num_banks] over one of the arrays. *)
Definition for_banks (n : nat) (f : nat -> FoldedHistory -> FoldedHistory) (csrs : list FoldedHistory) : list FoldedHistory :=
  imap (fun i c => if (i <? n)%nat then f i c else c) csrs.
Definition gb_push_bit (self : GeoBankSet) (taken : bool) (ghr : Ghr) (i : nat) (c : FoldedHistory) : FoldedHistory :=
  let hl := gb_hist_lengths self !!! i in
  let old_bit := if (0 <? hl)%nat then ghr_bit ghr (hl - 1) else false in
  fh_update c taken old_bit.
Definition gb_update_csrs (self : GeoBankSet) (taken : bool) (ghr : Ghr) : GeoBankSet :=
  let push := for_banks (gb_num_banks self) (gb_push_bit self taken ghr) in
  self <| gb_idx_csr := push (gb_idx_csr self) |> <| gb_idx_csr2 := push (gb_idx_csr2 self) |>
       <| gb_tag_csr := push (gb_tag_csr self) |> <| gb_tag_csr2 := push (gb_tag_csr2 self) |>.
Definition gb_recompute_all (self : GeoBankSet) (ghr : Ghr) : GeoBankSet :=
  let redo := for_banks (gb_num_banks self) (fun _ c => fh_recompute c ghr) in
  self <| gb_idx_csr := redo (gb_idx_csr self) |> <| gb_idx_csr2 := redo (gb_idx_csr2 self) |>
       <| gb_tag_csr := redo (gb_tag_csr self) |> <| gb_tag_csr2 := redo (gb_tag_csr2 self) |>.
Definition gb_update_committed_csrs (self : GeoBankSet) (taken : bool) (ghr : Ghr) : GeoBankSet :=
  let push := for_banks (gb_num_banks self) (gb_push_bit self taken ghr) in
  self <| gb_committed_idx_csr := push (gb_committed_idx_csr self) |>
       <| gb_committed_idx_csr2 := push (gb_committed_idx_csr2 self) |>
       <| gb_committed_tag_csr := push (gb_committed_tag_csr self) |>
       <| gb_committed_tag_csr2 := push (gb_committed_tag_csr2 self) |>.
Definition gb_copy_committed_to_spec (self : GeoBankSet) : GeoBankSet :=
  self <| gb_idx_csr := gb_committed_idx_csr self |> <| gb_idx_csr2 := gb_committed_idx_csr2 self |>
       <| gb_tag_csr := gb_committed_tag_csr self |> <| gb_tag_csr2 := gb_committed_tag_csr2 self |>.

(** * What the registers hold *)

(** The part no operation changes. *)
Record BankConfig := { bc_hist_lengths : list nat; bc_tag_widths : list nat; bc_table_bits : nat }.
Definition bank_config_ok (c : BankConfig) (len : nat) : Prop :=
  length (bc_hist_lengths c) = length (bc_tag_widths c) /\ (length (bc_hist_lengths c) <= MAX_BANKS)%nat /\
  Forall (fun hl => 0 < hl <= len)%nat (bc_hist_lengths c) /\ Forall (fun tw => tw <= 63)%nat (bc_tag_widths c) /\
  (bc_table_bits c <= 63)%nat.
#[export] Instance bank_config_ok_dec c len : Decision (bank_config_ok c len).
Proof. unfold bank_config_ok. apply _. Defined.

Section Tracking.
Variables (c : BankConfig) (len : nat).
Hypothesis Hc : bank_config_ok c len.
Local Abbreviation n := (length (bc_hist_lengths c)).

(** The array of the registers of width [width tw] for the history [h]. *)
Definition csr_of (w hl : nat) (h : nat -> bool) : FoldedHistory :=
  {| fh_val := fh_fold (fh_new w hl) h; fold_width := w; hist_length := hl |}.
Definition csr_array (width : nat -> nat) (h : nat -> bool) : list FoldedHistory :=
  banks_array (fh_new 0 0) (zip_with (fun hl tw => csr_of (width tw) hl h) (bc_hist_lengths c) (bc_tag_widths c)).

Record Tracks (g : GeoBankSet) (spec committed : nat -> bool) : Prop := {
  tr_num_banks : gb_num_banks g = n;
  tr_hist_lengths : gb_hist_lengths g = banks_array 0%nat (bc_hist_lengths c);
  tr_tag_widths : gb_tag_widths g = banks_array 0%nat (bc_tag_widths c);
  tr_table_bits : gb_table_bits g = bc_table_bits c;
  tr_table_mask : gb_table_mask g = Z.shiftl 1 (Z.of_nat (bc_table_bits c)) - 1;
  tr_idx : gb_idx_csr g = csr_array (fun _ => bc_table_bits c) spec;
  tr_idx2 : gb_idx_csr2 g = csr_array (fun _ => second_width (bc_table_bits c)) spec;
  tr_tag : gb_tag_csr g = csr_array (fun tw => tw) spec;
  tr_tag2 : gb_tag_csr2 g = csr_array second_width spec;
  tr_cidx : gb_committed_idx_csr g = csr_array (fun _ => bc_table_bits c) committed;
  tr_cidx2 : gb_committed_idx_csr2 g = csr_array (fun _ => second_width (bc_table_bits c)) committed;
  tr_ctag : gb_committed_tag_csr g = csr_array (fun tw => tw) committed;
  tr_ctag2 : gb_committed_tag_csr2 g = csr_array second_width committed
}.

(** The widths in use are below 64. *)
Definition narrow (width : nat -> nat) : Prop := forall tw, (tw <= 63)%nat -> (width tw <= 63)%nat.
Lemma narrow_table : narrow (fun _ => bc_table_bits c).
Proof. destruct Hc as (? & ? & ? & ? & ?). by intros ??. Qed.
Lemma narrow_table2 : narrow (fun _ => second_width (bc_table_bits c)).
Proof. destruct Hc as (? & ? & ? & ? & ?). intros ??. unfold second_width. lia. Qed.
Lemma narrow_tag : narrow (fun tw => tw).
Proof. by intros ??. Qed.
Lemma narrow_tag2 : narrow second_width.
Proof. intros ??. unfold second_width. lia. Qed.

Lemma csr_array_bank width h i :
  (i < n)%nat -> exists hl tw, bc_hist_lengths c !! i = Some hl /\ bc_tag_widths c !! i = Some tw /\
    csr_array width h !! i = Some (csr_of (width tw) hl h) /\ (0 < hl <= len)%nat /\ (tw <= 63)%nat.
Proof.
  intros Hi. destruct Hc as (Hl & Hm & Hhl & Htw & _).
  destruct (lookup_lt_is_Some_2 (bc_hist_lengths c) i Hi) as [hl Ehl].
  destruct (lookup_lt_is_Some_2 (bc_tag_widths c) i ltac:(lia)) as [tw Etw].
  exists hl, tw. split; [done|]. split; [done|]. split; [|split].
  - unfold csr_array, banks_array. rewrite lookup_app_l by (rewrite length_zip_with; lia).
    rewrite lookup_zip_with, Ehl, Etw. done.
  - exact (proj1 (Forall_lookup _ _) Hhl i hl Ehl).
  - exact (proj1 (Forall_lookup _ _) Htw i tw Etw).
Qed.
Lemma csr_array_rest width h1 h2 i : (n <= i)%nat -> csr_array width h1 !! i = csr_array width h2 !! i.
Proof.
  intros Hi. destruct Hc as (Hl & _). unfold csr_array, banks_array.
  rewrite !lookup_app_r by (rewrite length_zip_with; lia). by rewrite !length_zip_with.
Qed.

(** A loop over the banks that turns every register into the one for [h']. *)
Lemma for_banks_array width f h h' :
  (forall i hl tw, bc_hist_lengths c !! i = Some hl -> (0 < hl <= len)%nat -> (tw <= 63)%nat ->
     f i (csr_of (width tw) hl h) = csr_of (width tw) hl h') ->
  for_banks n f (csr_array width h) = csr_array width h'.
Proof.
  intros Hf. apply list_eq. intros i. unfold for_banks. rewrite list_lookup_imap.
  destruct (Nat.ltb_spec i n) as [Hi|Hi].
  - destruct (csr_array_bank width h i Hi) as (hl & tw & E & Et & Ec & Hhl & Htw).
    destruct (csr_array_bank width h' i Hi) as (hl' & tw' & E' & Et' & Ec' & _).
    rewrite E in E'. rewrite Et in Et'. simplify_eq. rewrite Ec, Ec'. simpl. by rewrite Hf.
  - rewrite (csr_array_rest width h' h i Hi). by destruct (csr_array width h !! i).
Qed.

Lemma csr_of_eq w hl h (r : FoldedHistory) :
  fold_width r = w -> hist_length r = hl -> fh_val r = fh_fold (fh_new w hl) h -> r = csr_of w hl h.
Proof. intros. by apply fh_eq. Qed.

Lemma recompute_array width g h :
  narrow width -> ghr_ok g -> for_banks n (fun _ r => fh_recompute r g) (csr_array width h) = csr_array width (ghr_bit g).
Proof.
  intros Hn Hg. apply for_banks_array. intros i hl tw _ _ Htw. destruct (fh_recompute_shape (csr_of (width tw) hl h) g).
  apply csr_of_eq; [done..|]. exact (fh_recompute_val (csr_of (width tw) hl h) (Hn _ Htw) g Hg).
Qed.

Lemma update_array width (gb : GeoBankSet) g t :
  narrow width -> ghr_ok g -> (len <= Z.to_nat (ghr_len g))%nat ->
  gb_hist_lengths gb = banks_array 0%nat (bc_hist_lengths c) ->
  for_banks n (gb_push_bit gb t g) (csr_array width (ghr_bit g)) = csr_array width (ghr_bit (ghr_push g t)).
Proof.
  intros Hn Hg Hlen Eh. apply for_banks_array. intros i hl tw E Hhl Htw. unfold gb_push_bit.
  assert (gb_hist_lengths gb !!! i = hl) as ->.
  { rewrite Eh. apply list_lookup_total_correct. unfold banks_array. by apply lookup_app_l_Some. }
  rewrite (proj2 (Nat.ltb_lt 0 hl)) by lia.
  destruct (fh_update_shape (csr_of (width tw) hl (ghr_bit g)) t (ghr_bit g (hl - 1))).
  apply csr_of_eq; [done..|].
  apply (fh_update_push (csr_of (width tw) hl (ghr_bit g)) (Hn _ Htw) g t Hg); [cbn; lia|done].
Qed.

(** ** The operations *)

Lemma gb_new_tracks (h : nat -> bool) :
  (forall k, h k = false) ->
  exists g, gb_new (bc_hist_lengths c) (bc_tag_widths c) (bc_table_bits c) = Some g /\ Tracks g h h.
Proof.
  intros Hz0. destruct Hc as (Hl & Hm & _). unfold gb_new. rewrite <-Hl, Nat.eqb_refl, (proj2 (Nat.ltb_ge _ _)) by lia. cbn [negb orb].
  eexists. split; [done|].
  assert (forall width, narrow width ->
    zip_with (fun hl tw => fh_new (width tw) hl) (bc_hist_lengths c) (bc_tag_widths c) =
    zip_with (fun hl tw => csr_of (width tw) hl h) (bc_hist_lengths c) (bc_tag_widths c)) as Hz.
  { intros width Hn. destruct Hc as (_ & _ & _ & Htw & _). clear -Hn Htw Hz0. revert Htw.
    generalize (bc_hist_lengths c). induction (bc_tag_widths c) as [|tw l IH]; intros [|hl hls] Htw; try done.
    apply Forall_cons in Htw as [Htw Hl]. simpl. f_equal; [|by apply IH].
    apply fh_eq; [|done..]. cbn [fh_val fh_new csr_of]. unfold fh_fold. cbn [fold_width fh_new hist_length].
    destruct (Nat.eqb_spec (width tw) 0); [done|]. symmetry. apply fold_from_zero; [|intros; apply Hz0]. specialize (Hn _ Htw). lia. }
  split; try done; cbn; unfold csr_array; f_equal; apply Hz;
    (exact narrow_table || exact narrow_table2 || exact narrow_tag || exact narrow_tag2).
Qed.

Section Steps.
Variables (gb : GeoBankSet) (h hc : nat -> bool).

Lemma push_tracked width g t arr :
  narrow width -> ghr_ok g -> (len <= Z.to_nat (ghr_len g))%nat -> gb_num_banks gb = n ->
  gb_hist_lengths gb = banks_array 0%nat (bc_hist_lengths c) -> arr = csr_array width (ghr_bit g) ->
  for_banks (gb_num_banks gb) (gb_push_bit gb t g) arr = csr_array width (ghr_bit (ghr_push g t)).
Proof. intros Hn Hg Hlen -> Eh ->. by apply update_array. Qed.
Lemma redo_tracked width g arr h0 :
  narrow width -> ghr_ok g -> gb_num_banks gb = n -> arr = csr_array width h0 ->
  for_banks (gb_num_banks gb) (fun _ r => fh_recompute r g) arr = csr_array width (ghr_bit g).
Proof. intros Hn Hg -> ->. by apply recompute_array. Qed.

Lemma gb_update_csrs_tracks g t :
  ghr_ok g -> (len <= Z.to_nat (ghr_len g))%nat -> Tracks gb (ghr_bit g) hc ->
  Tracks (gb_update_csrs gb t g) (ghr_bit (ghr_push g t)) hc.
Proof.
  intros Hg Hlen [En Eh Ew Eb Em E1 E2 E3 E4 F1 F2 F3 F4].
  exact (Build_Tracks (gb_update_csrs gb t g) _ _ En Eh Ew Eb Em
    (push_tracked _ g t _ narrow_table Hg Hlen En Eh E1) (push_tracked _ g t _ narrow_table2 Hg Hlen En Eh E2)
    (push_tracked _ g t _ narrow_tag Hg Hlen En Eh E3) (push_tracked _ g t _ narrow_tag2 Hg Hlen En Eh E4) F1 F2 F3 F4).
Qed.
Lemma gb_recompute_all_tracks g : ghr_ok g -> Tracks gb h hc -> Tracks (gb_recompute_all gb g) (ghr_bit g) hc.
Proof.
  intros Hg [En Eh Ew Eb Em E1 E2 E3 E4 F1 F2 F3 F4].
  exact (Build_Tracks (gb_recompute_all gb g) _ _ En Eh Ew Eb Em
    (redo_tracked _ g _ _ narrow_table Hg En E1) (redo_tracked _ g _ _ narrow_table2 Hg En E2)
    (redo_tracked _ g _ _ narrow_tag Hg En E3) (redo_tracked _ g _ _ narrow_tag2 Hg En E4) F1 F2 F3 F4).
Qed.
Lemma gb_update_committed_tracks g t :
  ghr_ok g -> (len <= Z.to_nat (ghr_len g))%nat -> Tracks gb h (ghr_bit g) ->
  Tracks (gb_update_committed_csrs gb t g) h (ghr_bit (ghr_push g t)).
Proof.
  intros Hg Hlen [En Eh Ew Eb Em E1 E2 E3 E4 F1 F2 F3 F4].
  exact (Build_Tracks (gb_update_committed_csrs gb t g) _ _ En Eh Ew Eb Em E1 E2 E3 E4
    (push_tracked _ g t _ narrow_table Hg Hlen En Eh F1) (push_tracked _ g t _ narrow_table2 Hg Hlen En Eh F2)
    (push_tracked _ g t _ narrow_tag Hg Hlen En Eh F3) (push_tracked _ g t _ narrow_tag2 Hg Hlen En Eh F4)).
Qed.
Lemma gb_copy_tracks : Tracks gb h hc -> Tracks (gb_copy_committed_to_spec gb) hc hc.
Proof.
  intros [En Eh Ew Eb Em E1 E2 E3 E4 F1 F2 F3 F4].
  exact (Build_Tracks (gb_copy_committed_to_spec gb) _ _ En Eh Ew Eb Em F1 F2 F3 F4 F1 F2 F3 F4).
Qed.

(** A bank set is its configuration and the two histories. *)
Lemma tracks_eq (gb' : GeoBankSet) : Tracks gb h hc -> Tracks gb' h hc -> gb = gb'.
Proof.
  intros [] [].
  change gb with (Build_GeoBankSet (gb_num_banks gb) (gb_hist_lengths gb) (gb_tag_widths gb) (gb_table_bits gb)
    (gb_table_mask gb) (gb_idx_csr gb) (gb_idx_csr2 gb) (gb_tag_csr gb) (gb_tag_csr2 gb) (gb_committed_idx_csr gb)
    (gb_committed_idx_csr2 gb) (gb_committed_tag_csr gb) (gb_committed_tag_csr2 gb)).
  change gb' with (Build_GeoBankSet (gb_num_banks gb') (gb_hist_lengths gb') (gb_tag_widths gb') (gb_table_bits gb')
    (gb_table_mask gb') (gb_idx_csr gb') (gb_idx_csr2 gb') (gb_tag_csr gb') (gb_tag_csr2 gb') (gb_committed_idx_csr gb')
    (gb_committed_idx_csr2 gb') (gb_committed_tag_csr gb') (gb_committed_tag_csr2 gb')).
  congruence.
Qed.
End Steps.

(** ** The entries consulted *)

Lemma tracked_val width h i hl tw (arr : list FoldedHistory) :
  (i < n)%nat -> arr = csr_array width h -> bc_hist_lengths c !! i = Some hl -> bc_tag_widths c !! i = Some tw ->
  fh_val (arr !!! i) = fh_fold (fh_new (width tw) hl) h.
Proof.
  intros Hi -> E Et. destruct (csr_array_bank width h i Hi) as (hl' & tw' & E' & Et' & Ec & _).
  rewrite E in E'. rewrite Et in Et'. simplify_eq. by rewrite (list_lookup_total_correct _ _ _ Ec).
Qed.
Lemma banks_array_at {A} `{Inhabited A} (d : A) (l : list A) i x : l !! i = Some x -> banks_array d l !!! i = x.
Proof. intros E. apply list_lookup_total_correct. unfold banks_array. by apply lookup_app_l_Some. Qed.

Lemma recompute_new (w hl : nat) g :
  (w <= 63)%nat -> ghr_ok g -> fh_val (fh_recompute (fh_new w hl) g) = fh_fold (fh_new w hl) (ghr_bit g).
Proof. intros Hw Hg. exact (fh_recompute_val (fh_new w hl) Hw g Hg). Qed.

Lemma spec_is_snapshot gb g hc pc i :
  ghr_ok g -> Tracks gb (ghr_bit g) hc -> (i < n)%nat ->
  gb_spec_index gb pc i = gb_snapshot_index gb pc i g /\ gb_spec_tag gb pc i = gb_snapshot_tag gb pc i g.
Proof.
  intros Hg [] Hi. destruct (csr_array_bank (fun tw => tw) (ghr_bit g) i Hi) as (hl & tw & E & Et & _ & _ & Htw).
  pose proof (narrow_table 0%nat ltac:(lia)) as Hn1. pose proof (narrow_table2 0%nat ltac:(lia)) as Hn2.
  unfold gb_spec_index, gb_snapshot_index, gb_spec_tag, gb_snapshot_tag. cbv zeta.
  rewrite tr_table_bits0, tr_hist_lengths0, tr_tag_widths0.
  rewrite (banks_array_at 0%nat _ _ _ E), (banks_array_at 0%nat _ _ _ Et).
  rewrite !recompute_new by (done || exact (narrow_tag2 _ Htw)).
  by rewrite (tracked_val _ _ _ _ _ _ Hi tr_idx0 E Et), (tracked_val _ _ _ _ _ _ Hi tr_idx3 E Et),
    (tracked_val _ _ _ _ _ _ Hi tr_tag0 E Et), (tracked_val _ _ _ _ _ _ Hi tr_tag3 E Et).
Qed.

Lemma committed_is_snapshot gb g h pc :
  ghr_ok g -> Tracks gb h (ghr_bit g) -> gb_committed_all gb pc = gb_snapshot_all gb pc g.
Proof.
  intros Hg Ht. pose proof (gb_copy_tracks _ _ _ Ht) as Hs. unfold gb_committed_all, gb_snapshot_all. cbv zeta.
  f_equal; f_equal; apply list_fmap_ext; intros i x Hx; apply lookup_seq in Hx as [-> Hi]; simpl;
    rewrite (tr_num_banks _ _ _ Ht) in Hi; by destruct (spec_is_snapshot _ g _ pc i Hg Hs Hi).
Qed.
End Tracking.
