(* ===== verification/Rob.v ===== *)
(** The reorder buffer of [core/pipeline/rob.rs]: a circular buffer of
    in-flight instructions with a tag counter and a tag-to-slot index.  This
    file holds the model; [RobSpec.v] states what the buffer promises and
    proves that the model keeps it. *)
From S2P Require Import Prelude Ring Common.

Local Open Scope Z_scope.

Definition is_older_than (self other : Z) : bool := as_signed 32 (sub32 self other) <? 0.
Definition is_newer_than (self other : Z) : bool := is_older_than other self.
Definition is_older_or_eq (self other : Z) : bool := negb (is_older_than other self).

(** The counter update of [Rob::allocate]: wrapping increment, skipping 0. *)
Definition bump_tag (next_tag : Z) : Z :=
  let next_tag := u32 (next_tag + 1) in
  if next_tag =? 0 then 1 else next_tag.

(** The tag given to the [s]-th allocation. *)
Definition tag_at (s : Z) : Z := 1 + s mod (2 ^ 32 - 1).

(** Largest distance of sequence numbers the ordering tests can tell apart. *)
Definition TAG_SPAN : Z := 2 ^ 31 - 1.

Lemma tag_at_range (s : Z) : 1 <= tag_at s < 2 ^ 32.
Proof. unfold tag_at. pose proof (Z.mod_pos_bound s (2 ^ 32 - 1)). lia. Qed.

Lemma bump_tag_at (s : Z) : bump_tag (tag_at s) = tag_at (s + 1).
Proof.
  unfold bump_tag, tag_at, wrap.
  rewrite (Z.add_mod s 1) by lia. change (1 mod (2 ^ 32 - 1)) with 1.
  pose proof (Z.mod_pos_bound s (2 ^ 32 - 1)) as Hs.
  set (r := s mod (2 ^ 32 - 1)) in *. clearbody r.
  destruct (decide (r = 2 ^ 32 - 2)) as [->|]; [done|].
  rewrite !Z.mod_small by lia. destruct (Z.eqb_spec (1 + r + 1) 0); lia.
Qed.

Lemma tag_at_inj (a b : Z) : Z.abs (a - b) < 2 ^ 32 - 1 -> tag_at a = tag_at b -> a = b.
Proof. unfold tag_at. intros. Z.div_mod_to_equations. lia. Qed.

(** Signed-distance comparison of tags is comparison of sequence numbers,
    across the wraparound and the skipped 0. *)
Lemma is_older_than_tag_at (a b : Z) :
  Z.abs (a - b) < TAG_SPAN -> is_older_than (tag_at a) (tag_at b) = (a <? b).
Proof.
  unfold TAG_SPAN, is_older_than, as_signed, sub32, wrap, tag_at. intros Hd.
  pose proof (Z.div_mod a (2 ^ 32 - 1)) as Ha. pose proof (Z.mod_pos_bound a (2 ^ 32 - 1)).
  pose proof (Z.div_mod b (2 ^ 32 - 1)) as Hb. pose proof (Z.mod_pos_bound b (2 ^ 32 - 1)).
  set (ra := a mod (2 ^ 32 - 1)) in *. set (rb := b mod (2 ^ 32 - 1)) in *.
  set (qa := a / (2 ^ 32 - 1)) in *. set (qb := b / (2 ^ 32 - 1)) in *.
  clearbody ra rb qa qb.
  assert (qa = qb \/ qa = qb + 1 \/ qb = qa + 1) as Hq by lia.
  destruct (decide (ra < rb)).
  - assert ((1 + ra - (1 + rb)) mod 2 ^ 32 = ra - rb + 2 ^ 32) as ->
      by (symmetry; apply Z.mod_unique with (-1); lia).
    destruct (Z.ltb_spec (ra - rb + 2 ^ 32) (2 ^ (32 - 1))), (Z.ltb_spec a b);
      apply Z.ltb_lt || apply Z.ltb_ge; lia.
  - rewrite Z.mod_small by lia.
    destruct (Z.ltb_spec (1 + ra - (1 + rb)) (2 ^ (32 - 1))), (Z.ltb_spec a b);
      apply Z.ltb_lt || apply Z.ltb_ge; lia.
Qed.

Lemma is_newer_than_tag_at (a b : Z) :
  Z.abs (a - b) < TAG_SPAN -> is_newer_than (tag_at a) (tag_at b) = (b <? a).
Proof. intros. unfold is_newer_than. apply is_older_than_tag_at. lia. Qed.

Lemma is_older_or_eq_tag_at (a b : Z) :
  Z.abs (a - b) < TAG_SPAN -> is_older_or_eq (tag_at a) (tag_at b) = (a <=? b).
Proof.
  intros. unfold is_older_or_eq. rewrite is_older_than_tag_at by lia.
  by rewrite <-Z.leb_antisym.
Qed.

(** Irreflexivity holds for any tag. *)
Lemma is_older_than_irrefl (a : Z) : is_older_than a a = false.
Proof. unfold is_older_than, sub32. by rewrite Z.sub_diag. Qed.

(** ** Ghost sequence numbers

    [live_seqs ss n]: the in-flight sequence numbers [ss], oldest first, all
    below the next one [n] and within the comparable span. *)
Definition live_seqs (ss : list Z) (n : Z) : Prop :=
  StronglySorted Z.lt ss /\ Forall (fun s => s < n /\ n - s < TAG_SPAN) ss.

Lemma live_seqs_nil (n : Z) : live_seqs [] n.
Proof. split; constructor. Qed.

Lemma live_seqs_dist (ss : list Z) (n a b : Z) :
  live_seqs ss n -> a ∈ ss -> b ∈ ss -> Z.abs (a - b) < TAG_SPAN.
Proof.
  intros [_ HF] Ha Hb. rewrite Forall_forall in HF.
  pose proof (HF _ Ha). pose proof (HF _ Hb). lia.
Qed.

Lemma live_seqs_sublist (ss ss' : list Z) (n : Z) :
  ss' `sublist_of` ss -> live_seqs ss n -> live_seqs ss' n.
Proof.
  intros Hs [HS HF]. split.
  - induction Hs as [|x l1 l2 Hl IH|x l1 l2 Hl IH]; [constructor|..].
    + apply StronglySorted_inv in HS as [HS Hx].
      apply Forall_cons in HF as [Hx' HF].
      constructor; [auto|]. rewrite Forall_forall in *. intros y Hy.
      apply Hx. by eapply elem_of_sublist.
    + apply StronglySorted_inv in HS as [HS _]. apply Forall_cons in HF as [_ HF]. auto.
  - rewrite Forall_forall in *. intros x Hx. apply HF. by eapply elem_of_sublist.
Qed.

Set Primitive Projections.

(** ** Data *)

Record BpOutcome := { bp_taken : bool; bp_mispredicted : bool }.
Definition BpOutcome_default : BpOutcome := {| bp_taken := false; bp_mispredicted := false |}.

Inductive RobState := Issued | Completed | Faulted.
#[export] Instance RobState_eq_dec : EqDecision RobState.
Proof. solve_decision. Defined.

Record CsrUpdate := { cu_addr : Z; cu_old_val : Z; cu_new_val : Z; cu_applied : bool }.

Record RobEntry := {
  re_tag : Z;
  re_pc : Z;
  re_inst : Z;
  re_inst_size : InstSize;
  re_rd : Z;
  re_rd_fp : bool;
  re_result : option Z;
  re_store_data : Z;
  re_store_addr : Z;
  re_ctrl : ControlSignals;
  re_state : RobState;
  re_trap : option Trap;
  re_exception_stage : option ExceptionStage;
  re_csr_update : option CsrUpdate;
  re_valid : bool;
  re_phys_dst : Z;
  re_old_phys_dst : Z;
  re_fp_flags : Z;
  re_bp_update : bool;
  re_bp_outcome : BpOutcome;
  re_bp_target : option Z;
  re_bp_pc : Z;
  re_bp_ghr_snapshot : Ghr;
  re_pte_update : option PteUpdate;
  re_sfence_vma : option SfenceVmaInfo;
  re_lr_sc : option LrScRecord;
  re_checkpoint_id : option Z
}.

(** The entry [allocate] writes: freshly issued, nothing recorded yet. *)
Definition rob_new_entry (tag pc inst : Z) (inst_size : InstSize) (rd : Z) (rd_fp : bool)
    (ctrl : ControlSignals) (phys_dst old_phys_dst : Z) : RobEntry := {|
  re_tag := tag; re_pc := pc; re_inst := inst; re_inst_size := inst_size; re_rd := rd;
  re_rd_fp := rd_fp; re_result := None; re_store_data := 0; re_store_addr := 0;
  re_ctrl := ctrl; re_state := Issued; re_trap := None; re_exception_stage := None;
  re_csr_update := None; re_valid := true; re_phys_dst := phys_dst;
  re_old_phys_dst := old_phys_dst; re_fp_flags := 0; re_bp_update := false;
  re_bp_outcome := BpOutcome_default; re_bp_target := None; re_bp_pc := 0;
  re_bp_ghr_snapshot := ghr_default; re_pte_update := None; re_sfence_vma := None;
  re_lr_sc := None; re_checkpoint_id := None |}.

(** [RobEntry::default()] *)
Definition RobEntry_default : RobEntry :=
  (rob_new_entry 0 0 0 Standard 0 false ControlSignals_default 0 0) <| re_valid := false |>.
#[export] Instance RobEntry_inhabited : Inhabited RobEntry := populate RobEntry_default.

Record Rob := {
  rob_entries : list RobEntry;
  rob_head : nat;
  rob_tail : nat;
  rob_count : nat;
  rob_next_tag : Z;
  rob_tag_index : gmap Z nat
}.

Definition rob_new (capacity : nat) : Rob := {|
  rob_entries := replicate capacity RobEntry_default;
  rob_head := 0; rob_tail := 0; rob_count := 0; rob_next_tag := 1; rob_tag_index := ∅ |}.

Definition rob_capacity (self : Rob) : nat := length (rob_entries self).
Definition rob_len (self : Rob) : nat := rob_count self.
Definition rob_is_empty (self : Rob) : bool := (rob_count self =? 0)%nat.
Definition rob_is_full (self : Rob) : bool := (rob_count self =? length (rob_entries self))%nat.
Definition rob_free_slots (self : Rob) : nat := (length (rob_entries self) - rob_count self)%nat.

(** ** Allocation *)

Definition rob_allocate (self : Rob) (pc inst : Z) (inst_size : InstSize) (rd : Z) (rd_fp : bool)
    (ctrl : ControlSignals) (phys_dst old_phys_dst : Z) : Rob * option Z :=
  if rob_is_full self then (self, None) else
  let tag := rob_next_tag self in
  ({| rob_entries := <[rob_tail self :=
        rob_new_entry tag pc inst inst_size rd rd_fp ctrl phys_dst old_phys_dst]> (rob_entries self);
      rob_head := rob_head self;
      rob_tail := ring_next (length (rob_entries self)) (rob_tail self);
      rob_count := S (rob_count self);
      rob_next_tag := bump_tag (rob_next_tag self);
      rob_tag_index := <[tag := rob_tail self]> (rob_tag_index self) |},
   Some tag).

(** ** Lookup and update by tag *)

(** [find_entry_mut]: the slot of the live entry with this tag. *)
Definition rob_find_entry_mut (self : Rob) (tag : Z) : option nat :=
  match rob_tag_index self !! tag with
  | Some idx => if re_valid (rob_entries self !!! idx) then Some idx else None
  | None => None
  end.

Definition rob_find_entry (self : Rob) (tag : Z) : option RobEntry :=
  match rob_tag_index self !! tag with
  | Some idx => let entry := rob_entries self !!! idx in
                if re_valid entry then Some entry else None
  | None => None
  end.

(** [if let Some(entry) = self.find_entry_mut(tag) { *entry = edit(entry) }] *)
Definition rob_modify (self : Rob) (tag : Z) (edit : RobEntry -> RobEntry) : Rob :=
  match rob_find_entry_mut self tag with
  | Some idx => self <| rob_entries := <[idx := edit (rob_entries self !!! idx)]> (rob_entries self) |>
  | None => self
  end.

Definition edit_complete (result : Z) (e : RobEntry) : RobEntry :=
  if decide (re_state e = Faulted) then e
  else e <| re_state := Completed |> <| re_result := Some result |>.
Definition rob_complete (self : Rob) (tag result : Z) : Rob :=
  rob_modify self tag (edit_complete result).

Definition edit_fault (trap : Trap) (stage : ExceptionStage) (e : RobEntry) : RobEntry :=
  e <| re_state := Faulted |> <| re_trap := Some trap |> <| re_exception_stage := Some stage |>.
Definition rob_fault (self : Rob) (tag : Z) (trap : Trap) (stage : ExceptionStage) : Rob :=
  rob_modify self tag (edit_fault trap stage).

Definition edit_csr_update (update : CsrUpdate) (e : RobEntry) : RobEntry :=
  e <| re_csr_update := Some update |>.
Definition rob_set_csr_update (self : Rob) (tag : Z) (update : CsrUpdate) : Rob :=
  rob_modify self tag (edit_csr_update update).

Definition edit_csr_applied (e : RobEntry) : RobEntry :=
  match re_csr_update e with
  | Some cu => e <| re_csr_update := Some (cu <| cu_applied := true |>) |>
  | None => e
  end.
Definition rob_mark_csr_applied (self : Rob) (tag : Z) : Rob :=
  rob_modify self tag edit_csr_applied.

Definition edit_bp_update (pc : Z) (outcome : BpOutcome) (target : option Z) (ghr : Ghr)
    (e : RobEntry) : RobEntry :=
  e <| re_bp_update := true |> <| re_bp_pc := pc |> <| re_bp_outcome := outcome |>
    <| re_bp_target := target |> <| re_bp_ghr_snapshot := ghr |>.
Definition rob_set_bp_update (self : Rob) (tag pc : Z) (outcome : BpOutcome) (target : option Z)
    (ghr : Ghr) : Rob :=
  rob_modify self tag (edit_bp_update pc outcome target ghr).

Definition edit_bp_target (target : Z) (e : RobEntry) : RobEntry :=
  e <| re_bp_target := Some target |>.
Definition rob_set_bp_target (self : Rob) (tag target : Z) : Rob :=
  rob_modify self tag (edit_bp_target target).

Definition edit_fp_flags (fp_flags : Z) (e : RobEntry) : RobEntry :=
  e <| re_fp_flags := Z.lor (re_fp_flags e) fp_flags |>.
Definition rob_set_fp_flags (self : Rob) (tag fp_flags : Z) : Rob :=
  rob_modify self tag (edit_fp_flags fp_flags).

Definition edit_pte_update (update : PteUpdate) (e : RobEntry) : RobEntry :=
  e <| re_pte_update := Some update |>.
Definition rob_set_pte_update (self : Rob) (tag : Z) (update : PteUpdate) : Rob :=
  rob_modify self tag (edit_pte_update update).

Definition edit_sfence_vma (info : SfenceVmaInfo) (e : RobEntry) : RobEntry :=
  e <| re_sfence_vma := Some info |>.
Definition rob_set_sfence_vma (self : Rob) (tag : Z) (info : SfenceVmaInfo) : Rob :=
  rob_modify self tag (edit_sfence_vma info).

Definition edit_lr_sc (record : LrScRecord) (e : RobEntry) : RobEntry :=
  e <| re_lr_sc := Some record |>.
Definition rob_set_lr_sc (self : Rob) (tag : Z) (record : LrScRecord) : Rob :=
  rob_modify self tag (edit_lr_sc record).

Definition edit_checkpoint_id (id : Z) (e : RobEntry) : RobEntry :=
  e <| re_checkpoint_id := Some id |>.
Definition rob_set_checkpoint_id (self : Rob) (tag id : Z) : Rob :=
  rob_modify self tag (edit_checkpoint_id id).

Definition edit_store_info (addr data : Z) (e : RobEntry) : RobEntry :=
  e <| re_store_addr := addr |> <| re_store_data := data |>.
Definition rob_set_store_info (self : Rob) (tag addr data : Z) : Rob :=
  rob_modify self tag (edit_store_info addr data).

(** ** Deferred floating-point flags *)

Definition edit_drain (before_tag : Z) (e : RobEntry) (acc : Z) : RobEntry * Z :=
  if re_valid e && is_older_than (re_tag e) before_tag
  then (e <| re_fp_flags := 0 |>, Z.lor acc (re_fp_flags e))
  else (e, acc).

Definition rob_drain_fp_flags_before (self : Rob) (before_tag : Z) : Rob * Z :=
  if (rob_count self =? 0)%nat then (self, 0) else
  let '(es, acc) :=
    ring_rewrite (fun idx es acc =>
        (<[idx := (edit_drain before_tag (es !!! idx) acc).1]> es,
         (edit_drain before_tag (es !!! idx) acc).2))
      (rob_entries self) (rob_count self) (rob_head self) 0 in
  (self <| rob_entries := es |>, acc).

(** ** Commit and flush *)

Definition rob_peek_head (self : Rob) : option RobEntry :=
  if (rob_count self =? 0)%nat then None else Some (rob_entries self !!! rob_head self).

Definition rob_commit_head (self : Rob) : Rob * option RobEntry :=
  if (rob_count self =? 0)%nat then (self, None) else
  let entry := rob_entries self !!! rob_head self in
  if decide (re_state entry = Issued) then (self, None) else
  let committed := entry in
  ({| rob_entries := <[rob_head self := entry <| re_valid := false |>]> (rob_entries self);
      rob_head := ring_next (length (rob_entries self)) (rob_head self);
      rob_tail := rob_tail self;
      rob_count := (rob_count self - 1)%nat;
      rob_next_tag := rob_next_tag self;
      rob_tag_index := delete (re_tag committed) (rob_tag_index self) |},
   Some committed).

Definition rob_flush_all (self : Rob) : Rob := {|
  rob_entries := (fun e => e <| re_valid := false |>) <$> rob_entries self;
  rob_head := 0; rob_tail := 0; rob_count := 0;
  rob_next_tag := rob_next_tag self;
  rob_tag_index := ∅ |}.

(** [while remove_idx != self.tail { ... }]; the fuel is the capacity, and the
    final index is part of the result. *)
Fixpoint rob_remove_loop (fuel : nat) (es : list RobEntry) (ti : gmap Z nat)
    (remove_idx tail : nat) : list RobEntry * gmap Z nat * nat :=
  match fuel with
  | O => (es, ti, remove_idx)
  | S fuel' =>
      if (remove_idx =? tail)%nat then (es, ti, remove_idx)
      else rob_remove_loop fuel'
             (<[remove_idx := (es !!! remove_idx) <| re_valid := false |>]> es)
             (delete (re_tag (es !!! remove_idx)) ti)
             (ring_next (length es) remove_idx) tail
  end.

(** The recount: [loop { if i == tail { break } ... }]. *)
Fixpoint rob_recount_loop (fuel : nat) (es : list RobEntry) (i tail count : nat) : nat * nat :=
  match fuel with
  | O => (count, i)
  | S fuel' =>
      if (i =? tail)%nat then (count, i)
      else rob_recount_loop fuel' es (ring_next (length es) i) tail
             (if re_valid (es !!! i) then S count else count)
  end.

Definition rob_flush_after (self : Rob) (tag : Z) : Rob :=
  let es := rob_entries self in
  if (rob_count self =? 0)%nat then self else
  match ring_scan (fun idx e (_ : unit) => if re_tag e =? tag then Return idx else Continue tt)
          es (rob_count self) (rob_head self) tt with
  | Continue _ => self
  | Return idx =>
      let keep_idx := ring_next (length es) idx in
      if (keep_idx =? rob_tail self)%nat then self else
      let '(es', ti', _) :=
        rob_remove_loop (length es) es (rob_tag_index self) keep_idx (rob_tail self) in
      let '(count', _) := rob_recount_loop (length es) es' (rob_head self) keep_idx 0 in
      {| rob_entries := es'; rob_head := rob_head self; rob_tail := keep_idx;
         rob_count := count'; rob_next_tag := rob_next_tag self; rob_tag_index := ti' |}
  end.

(** ** Queries over the in-flight instructions *)

(** Loop body of [find_latest_result]. *)
Definition latest_result_body (reg : Z) (is_fp : bool) (e : RobEntry) (_ : unit)
    : flow unit (option Z) :=
  if re_valid e && (re_rd e =? reg) && Bool.eqb (re_rd_fp e) is_fp
  then if decide (re_state e = Completed) then Return (re_result e) else Return None
  else Continue tt.

Definition rob_find_latest_result (self : Rob) (reg : Z) (is_fp : bool) : option Z :=
  if (rob_count self =? 0)%nat || (negb is_fp && reg_is_zero reg) then None else
  after_loop (ring_scan_back (fun _ => latest_result_body reg is_fp)
    (rob_entries self) (rob_count self)
    (ring_prev (length (rob_entries self)) (rob_tail self)) tt) (fun _ => None).

(** Loop body of [find_latest_producer]. *)
Definition latest_producer_body (reg : Z) (is_fp : bool) (e : RobEntry) (_ : unit)
    : flow unit (option (Z * bool)) :=
  if re_valid e && (re_rd e =? reg) && Bool.eqb (re_rd_fp e) is_fp
     && (if is_fp then fp_reg_write (re_ctrl e) else reg_write (re_ctrl e))
  then Return (Some (default 0 (re_result e), bool_decide (re_state e = Completed)))
  else Continue tt.

Definition rob_find_latest_producer (self : Rob) (reg : Z) (is_fp : bool) : option (Z * bool) :=
  if (rob_count self =? 0)%nat || (negb is_fp && reg_is_zero reg) then None else
  after_loop (ring_scan_back (fun _ => latest_producer_body reg is_fp)
    (rob_entries self) (rob_count self)
    (ring_prev (length (rob_entries self)) (rob_tail self)) tt) (fun _ => None).

(** Loop body of [prev_tag_of]. *)
Definition prev_tag_body (tag : Z) (e : RobEntry) (prev : option Z)
    : flow (option Z) (option Z) :=
  if re_valid e
  then if re_tag e =? tag then Return prev else Continue (Some (re_tag e))
  else Continue prev.

Definition rob_prev_tag_of (self : Rob) (tag : Z) : option Z :=
  if (rob_count self =? 0)%nat then None else
  after_loop (ring_scan (fun _ => prev_tag_body tag)
    (rob_entries self) (rob_count self) (rob_head self) None) (fun _ => None).

(** [for_each_valid] with a callback [f] that updates a captured state. *)
Definition rob_for_each_valid {S} (self : Rob) (f : RobEntry -> S -> S) (s : S) : S :=
  if (rob_count self =? 0)%nat then s else
  after_loop (ring_scan (fun _ e s => Continue (if re_valid e then f e s else s))
    (rob_entries self) (rob_count self) (rob_head self) s) (fun s => s).

(** [iter_in_order] and [iter_all]: the valid entries, oldest first. *)
Definition rob_iter_in_order (self : Rob) : list RobEntry :=
  omap (fun i => let e := rob_entries self !!! ((rob_head self + i) mod length (rob_entries self))%nat in
                 if re_valid e then Some e else None)
    (seq 0 (rob_count self)).

Definition rob_iter_after (self : Rob) (keep_tag : Z) : list RobEntry :=
  omap (fun i => let e := rob_entries self !!! ((rob_head self + i) mod length (rob_entries self))%nat in
                 if re_valid e && is_newer_than (re_tag e) keep_tag then Some e else None)
    (seq 0 (rob_count self)).

(** Loop body of [all_before_completed]. *)
Definition all_before_body (tag : Z) (e : RobEntry) (_ : unit) : flow unit bool :=
  if re_valid e
  then if re_tag e =? tag then Return true
       else if decide (re_state e = Issued) then Return false else Continue tt
  else Continue tt.

Definition rob_all_before_completed (self : Rob) (tag : Z) : bool :=
  if (rob_count self =? 0)%nat then true else
  after_loop (ring_scan (fun _ => all_before_body tag)
    (rob_entries self) (rob_count self) (rob_head self) tt) (fun _ => true).

(** Loop body of [fence_pred_satisfied]. *)
Definition fence_pred_body (tag : Z) (pred_r pred_w : bool) (e : RobEntry) (_ : unit)
    : flow unit bool :=
  if re_valid e
  then if re_tag e =? tag then Return true
       else if decide (re_state e = Issued)
            then let dominated := (pred_r && mem_read (re_ctrl e)) || (pred_w && mem_write (re_ctrl e)) in
                 if dominated then Return false else Continue tt
            else Continue tt
  else Continue tt.

Definition rob_fence_pred_satisfied (self : Rob) (tag : Z) (pred_r pred_w : bool) : bool :=
  if negb pred_r && negb pred_w then true
  else if (rob_count self =? 0)%nat then true else
  after_loop (ring_scan (fun _ => fence_pred_body tag pred_r pred_w)
    (rob_entries self) (rob_count self) (rob_head self) tt) (fun _ => true).

(** The successor set of a FENCE entry blocks a load / a store. *)
Definition fence_blocks (is_load is_store : bool) (e : RobEntry) : bool :=
  if decide (system_op (re_ctrl e) = Fence)
  then let succ_bits := Z.land (Z.shiftr (re_inst e) 20) 0xF in
       let succ_r := has_bits succ_bits 2 in
       let succ_w := has_bits succ_bits 1 in
       (is_load && succ_r) || (is_store && succ_w)
  else false.

(** Loop body of [has_fence_blocking]. *)
Definition fence_blocking_body (tag : Z) (is_load is_store : bool) (e : RobEntry) (_ : unit)
    : flow unit bool :=
  if re_valid e
  then if re_tag e =? tag then Return false
       else if fence_blocks is_load is_store e then Return true else Continue tt
  else Continue tt.

Definition rob_has_fence_blocking (self : Rob) (tag : Z) (is_load is_store : bool) : bool :=
  if (rob_count self =? 0)%nat || (negb is_load && negb is_store) then false else
  after_loop (ring_scan (fun _ => fence_blocking_body tag is_load is_store)
    (rob_entries self) (rob_count self) (rob_head self) tt) (fun _ => false).
