(* ===== verification/RobSpec.v ===== *)
(** What the reorder buffer promises: a bounded queue of instructions in
    program order.  [RobQ] is the abstract queue, [rob_inv] the invariant of
    the circular buffer, and [rob_exec_refines] the refinement: every operation
    of [Rob.v] acts on the queue as the abstract operation does and returns the
    same value. *)
From S2P Require Import Prelude Ring Common Rob.

Set Primitive Projections.
Local Open Scope Z_scope.

(** ** The abstract queue *)

Record RobQ := { q_cap : nat; q_entries : list RobEntry; q_next_tag : Z }.

Definition rob_queue (r : Rob) : list RobEntry :=
  window (rob_entries r) (rob_head r) (rob_count r).
Definition rob_abs (r : Rob) : RobQ :=
  {| q_cap := rob_capacity r; q_entries := rob_queue r; q_next_tag := rob_next_tag r |}.

Definition modify_tag (tag : Z) (edit : RobEntry -> RobEntry) (l : list RobEntry) : list RobEntry :=
  (fun e => if re_tag e =? tag then edit e else e) <$> l.

(** The prefix of the queue up to and including [tag]; the whole queue if absent. *)
Fixpoint keep_through (tag : Z) (l : list RobEntry) : list RobEntry :=
  match l with
  | [] => []
  | e :: l' => if re_tag e =? tag then [e] else e :: keep_through tag l'
  end.

Inductive rob_op :=
| OpAllocate (pc inst : Z) (inst_size : InstSize) (rd : Z) (rd_fp : bool)
    (ctrl : ControlSignals) (phys_dst old_phys_dst : Z)
| OpComplete (tag result : Z)
| OpFault (tag : Z) (trap : Trap) (stage : ExceptionStage)
| OpSetCsrUpdate (tag : Z) (update : CsrUpdate)
| OpMarkCsrApplied (tag : Z)
| OpSetBpUpdate (tag pc : Z) (outcome : BpOutcome) (target : option Z) (ghr : Ghr)
| OpSetBpTarget (tag target : Z)
| OpSetFpFlags (tag flags : Z)
| OpSetPteUpdate (tag : Z) (update : PteUpdate)
| OpSetSfenceVma (tag : Z) (info : SfenceVmaInfo)
| OpSetLrSc (tag : Z) (record : LrScRecord)
| OpSetCheckpointId (tag id : Z)
| OpSetStoreInfo (tag addr data : Z)
| OpDrainFpFlagsBefore (tag : Z)
| OpCommitHead
| OpFlushAll
| OpFlushAfter (tag : Z).

Inductive rob_ret :=
| RetUnit
| RetTag (t : option Z)
| RetEntry (e : option RobEntry)
| RetFlags (f : Z).

(** The concrete operation. *)
Definition rob_exec (r : Rob) (op : rob_op) : Rob * rob_ret :=
  match op with
  | OpAllocate pc inst sz rd fp ctrl pd opd =>
      let '(r', t) := rob_allocate r pc inst sz rd fp ctrl pd opd in (r', RetTag t)
  | OpComplete tag v => (rob_complete r tag v, RetUnit)
  | OpFault tag trap stage => (rob_fault r tag trap stage, RetUnit)
  | OpSetCsrUpdate tag u => (rob_set_csr_update r tag u, RetUnit)
  | OpMarkCsrApplied tag => (rob_mark_csr_applied r tag, RetUnit)
  | OpSetBpUpdate tag pc o t g => (rob_set_bp_update r tag pc o t g, RetUnit)
  | OpSetBpTarget tag t => (rob_set_bp_target r tag t, RetUnit)
  | OpSetFpFlags tag f => (rob_set_fp_flags r tag f, RetUnit)
  | OpSetPteUpdate tag u => (rob_set_pte_update r tag u, RetUnit)
  | OpSetSfenceVma tag i => (rob_set_sfence_vma r tag i, RetUnit)
  | OpSetLrSc tag x => (rob_set_lr_sc r tag x, RetUnit)
  | OpSetCheckpointId tag id => (rob_set_checkpoint_id r tag id, RetUnit)
  | OpSetStoreInfo tag a d => (rob_set_store_info r tag a d, RetUnit)
  | OpDrainFpFlagsBefore tag =>
      let '(r', f) := rob_drain_fp_flags_before r tag in (r', RetFlags f)
  | OpCommitHead => let '(r', e) := rob_commit_head r in (r', RetEntry e)
  | OpFlushAll => (rob_flush_all r, RetUnit)
  | OpFlushAfter tag => (rob_flush_after r tag, RetUnit)
  end.

(** The edit an operation makes to the entry with its tag. *)
Definition op_edit (op : rob_op) : option (Z * (RobEntry -> RobEntry)) :=
  match op with
  | OpComplete tag v => Some (tag, edit_complete v)
  | OpFault tag trap stage => Some (tag, edit_fault trap stage)
  | OpSetCsrUpdate tag u => Some (tag, edit_csr_update u)
  | OpMarkCsrApplied tag => Some (tag, edit_csr_applied)
  | OpSetBpUpdate tag pc o t g => Some (tag, edit_bp_update pc o t g)
  | OpSetBpTarget tag t => Some (tag, edit_bp_target t)
  | OpSetFpFlags tag f => Some (tag, edit_fp_flags f)
  | OpSetPteUpdate tag u => Some (tag, edit_pte_update u)
  | OpSetSfenceVma tag i => Some (tag, edit_sfence_vma i)
  | OpSetLrSc tag x => Some (tag, edit_lr_sc x)
  | OpSetCheckpointId tag id => Some (tag, edit_checkpoint_id id)
  | OpSetStoreInfo tag a d => Some (tag, edit_store_info a d)
  | _ => None
  end.

(** The abstract operation. *)
Definition q_exec (q : RobQ) (op : rob_op) : RobQ * rob_ret :=
  match op with
  | OpAllocate pc inst sz rd fp ctrl pd opd =>
      if (length (q_entries q) =? q_cap q)%nat then (q, RetTag None) else
      ({| q_cap := q_cap q;
          q_entries := q_entries q ++ [rob_new_entry (q_next_tag q) pc inst sz rd fp ctrl pd opd];
          q_next_tag := bump_tag (q_next_tag q) |}, RetTag (Some (q_next_tag q)))
  | OpDrainFpFlagsBefore tag =>
      (q <| q_entries := (fun e => if is_older_than (re_tag e) tag
                                   then e <| re_fp_flags := 0 |> else e) <$> q_entries q |>,
       RetFlags (foldl Z.lor 0 (omap (fun e => if is_older_than (re_tag e) tag
                                               then Some (re_fp_flags e) else None) (q_entries q))))
  | OpCommitHead =>
      match q_entries q with
      | e :: l => if decide (re_state e = Issued) then (q, RetEntry None)
                  else (q <| q_entries := l |>, RetEntry (Some e))
      | [] => (q, RetEntry None)
      end
  | OpFlushAll => (q <| q_entries := [] |>, RetUnit)
  | OpFlushAfter tag => (q <| q_entries := keep_through tag (q_entries q) |>, RetUnit)
  | op => match op_edit op with
          | Some (tag, edit) => (q <| q_entries := modify_tag tag edit (q_entries q) |>, RetUnit)
          | None => (q, RetUnit)
          end
  end.

(** ** The invariant of the circular buffer

    [ss] are the sequence numbers of the in-flight instructions and [n] the
    next one; [rob_live] and [rob_next] tie the tags to them. *)
Record rob_inv (r : Rob) (ss : list Z) (n : Z) : Prop := {
  rob_ring : ring_wf (rob_entries r) (rob_head r) (rob_tail r) (rob_count r);
  rob_all_valid : Forall (fun e => re_valid e = true) (rob_queue r);
  rob_live : live_seqs ss n;
  rob_tags : re_tag <$> rob_queue r = tag_at <$> ss;
  rob_next : rob_next_tag r = tag_at n;
  rob_index : forall t i, rob_tag_index r !! t = Some i <->
    exists k, (k < rob_count r)%nat /\ i = ring_slot (length (rob_entries r)) (rob_head r) k /\
              re_tag (rob_entries r !!! i) = t
}.

(** Sequence numbers after an operation. *)
Definition seqs_after (r : Rob) (ss : list Z) (n : Z) (op : rob_op) : list Z * Z :=
  match op with
  | OpAllocate _ _ _ _ _ _ _ _ => if rob_is_full r then (ss, n) else (ss ++ [n], n + 1)
  | OpCommitHead => (drop (length ss - length (q_entries (q_exec (rob_abs r) op).1)) ss, n)
  | OpFlushAll => ([], n)
  | OpFlushAfter _ => (take (length (q_entries (q_exec (rob_abs r) op).1)) ss, n)
  | _ => (ss, n)
  end.

(** An allocation must leave the live tags comparable. *)
Definition op_in_span (ss : list Z) (n : Z) (op : rob_op) : Prop :=
  match op with
  | OpAllocate _ _ _ _ _ _ _ _ => Forall (fun s => n + 1 - s < TAG_SPAN) ss
  | _ => True
  end.

(** ** Tags are unique in flight *)

Lemma live_seqs_NoDup_tags (ss : list Z) (n : Z) : live_seqs ss n -> NoDup (tag_at <$> ss).
Proof.
  intros Hl. pose proof Hl as [HS _]. apply NoDup_fmap_2_strong.
  - intros a b Ha Hb. apply tag_at_inj.
    pose proof (live_seqs_dist _ _ _ _ Hl Ha Hb). unfold TAG_SPAN in *. lia.
  - clear Hl. induction HS as [|a l HS IH Ha]; constructor; [|done].
    intros Hin. rewrite Forall_forall in Ha. specialize (Ha _ Hin). lia.
Qed.

Section Inv.
Context (r : Rob) (ss : list Z) (n : Z) (I : rob_inv r ss n).

Lemma rob_queue_lookup (k : nat) :
  (k < rob_count r)%nat ->
  rob_queue r !! k = Some (rob_entries r !!! ring_slot (length (rob_entries r)) (rob_head r) k).
Proof. intros. unfold rob_queue. rewrite lookup_window. by case_decide. Qed.

Lemma length_rob_queue : length (rob_queue r) = rob_count r.
Proof. apply length_window. Qed.

Lemma length_rob_seqs : length ss = rob_count r.
Proof. rewrite <-length_rob_queue, <-(length_fmap re_tag), (rob_tags _ _ _ I). by rewrite length_fmap. Qed.

Lemma rob_tags_NoDup : NoDup (re_tag <$> rob_queue r).
Proof. rewrite (rob_tags _ _ _ I). eapply live_seqs_NoDup_tags, I. Qed.

Lemma rob_queue_valid (e : RobEntry) : e ∈ rob_queue r -> re_valid e = true.
Proof. pose proof (rob_all_valid _ _ _ I) as H. rewrite Forall_forall in H. apply H. Qed.

(** The index finds exactly the in-flight tags. *)
Lemma rob_find_entry_mut_spec (tag : Z) :
  match rob_find_entry_mut r tag with
  | Some idx => exists k, (k < rob_count r)%nat /\
      idx = ring_slot (length (rob_entries r)) (rob_head r) k /\
      rob_queue r !! k = Some (rob_entries r !!! idx) /\ re_tag (rob_entries r !!! idx) = tag
  | None => tag ∉ re_tag <$> rob_queue r
  end.
Proof.
  unfold rob_find_entry_mut. destruct (rob_tag_index r !! tag) as [i|] eqn:E.
  - apply (rob_index _ _ _ I) in E as (k & Hk & -> & Ht).
    pose proof (rob_queue_lookup k Hk) as Hq.
    rewrite (rob_queue_valid _ (list_elem_of_lookup_2 _ _ _ Hq)). eauto 6.
  - intros (e & -> & (k & Hk)%list_elem_of_lookup)%list_elem_of_fmap.
    pose proof (lookup_lt_Some _ _ _ Hk) as Hlt. rewrite length_rob_queue in Hlt.
    rewrite rob_queue_lookup in Hk by done. injection Hk as <-.
    enough (rob_tag_index r !! re_tag (rob_entries r !!!
      ring_slot (length (rob_entries r)) (rob_head r) k) =
      Some (ring_slot (length (rob_entries r)) (rob_head r) k)) by congruence.
    apply (rob_index _ _ _ I). eauto.
Qed.

End Inv.

(** ** Updates by tag *)

Lemma modify_tag_absent tag edit l : tag ∉ re_tag <$> l -> modify_tag tag edit l = l.
Proof.
  intros Hn. unfold modify_tag. rewrite <-(list_fmap_id l) at 2. apply list_fmap_ext.
  intros i e Hi. simpl. destruct (Z.eqb_spec (re_tag e) tag) as [<-|]; [|done].
  destruct Hn. apply list_elem_of_fmap. eauto using list_elem_of_lookup_2.
Qed.

Lemma modify_tag_present tag edit l k e :
  NoDup (re_tag <$> l) -> l !! k = Some e -> re_tag e = tag ->
  modify_tag tag edit l = <[k := edit e]> l.
Proof.
  intros HN Hk Ht. apply list_eq. intros j. unfold modify_tag.
  rewrite list_lookup_fmap, list_lookup_insert.
  pose proof (lookup_lt_Some _ _ _ Hk). case_decide as D.
  - destruct D as [<- _]. rewrite Hk. simpl. by rewrite Ht, Z.eqb_refl.
  - destruct (l !! j) as [e'|] eqn:Ej; [|done]. simpl.
    destruct (Z.eqb_spec (re_tag e') tag) as [Ht'|]; [|done]. destruct D. split; [|done].
    eapply (NoDup_lookup _ k j tag HN); rewrite list_lookup_fmap; [rewrite Hk|rewrite Ej]; simpl; congruence.
Qed.

(** Edits keep an entry's identity. *)
Definition edit_ok (edit : RobEntry -> RobEntry) : Prop :=
  forall e, re_tag (edit e) = re_tag e /\ re_valid (edit e) = re_valid e.

Lemma op_edit_ok op tag edit : op_edit op = Some (tag, edit) -> edit_ok edit.
Proof.
  destruct op; simpl; intros [= <- <-]; intros e; try done.
  - unfold edit_complete. by case_decide.
  - unfold edit_csr_applied. by destruct (re_csr_update e).
Qed.

Lemma rob_modify_refines r ss n tag edit :
  rob_inv r ss n -> edit_ok edit ->
  rob_inv (rob_modify r tag edit) ss n /\
  rob_abs (rob_modify r tag edit) = (rob_abs r) <| q_entries := modify_tag tag edit (rob_queue r) |>.
Proof.
  intros I Hed. pose proof (rob_find_entry_mut_spec _ _ _ I tag) as Hf. unfold rob_modify.
  destruct (rob_find_entry_mut r tag) as [idx|].
  2: { split; [done|]. unfold rob_abs. simpl. by rewrite modify_tag_absent. }
  destruct Hf as (k & Hk & -> & Hq & Ht).
  destruct (rob_ring _ _ _ I) as [Hc Hh Hn Htl].
  set (slot := ring_slot _ _ k) in *. set (e := rob_entries r !!! slot) in *.
  set (r' := r <| rob_entries := <[slot := edit e]> (rob_entries r) |>).
  assert (rob_queue r' = <[k := edit e]> (rob_queue r)) as Hq'.
  { unfold rob_queue, r'. simpl. by apply window_insert_in. }
  assert (forall k', (k' < rob_count r)%nat ->
    re_tag (<[slot := edit e]> (rob_entries r) !!! ring_slot (length (rob_entries r)) (rob_head r) k') =
    re_tag (rob_entries r !!! ring_slot (length (rob_entries r)) (rob_head r) k')) as Htag.
  { intros k' Hk'. destruct (decide (slot = ring_slot (length (rob_entries r)) (rob_head r) k')) as [<-|].
    - rewrite list_lookup_total_insert_eq by (by apply ring_slot_lt). apply Hed.
    - by rewrite list_lookup_total_insert_ne. }
  split.
  2: { unfold rob_abs at 1. rewrite Hq'. unfold rob_capacity. simpl. rewrite length_insert.
       by rewrite <-(modify_tag_present tag edit _ k e); [|eapply rob_tags_NoDup|..]. }
  constructor; rewrite ?Hq'; simpl; rewrite ?length_insert; try apply I.
  - by constructor; rewrite ?length_insert.
  - apply Forall_insert; [apply I|]. destruct (Hed e) as [_ ->].
    eapply rob_queue_valid; [done|]. by eapply list_elem_of_lookup_2.
  - rewrite list_fmap_insert, <-(rob_tags _ _ _ I).
    apply list_insert_id. rewrite list_lookup_fmap, Hq. simpl. f_equal. symmetry. apply Hed.
  - intros t i. rewrite (rob_index _ _ _ I).
    split; intros (k' & Hk' & -> & <-); exists k'; by rewrite Htag.
Qed.

(** ** Allocation *)

Lemma live_seqs_snoc ss n :
  live_seqs ss n -> Forall (fun s => n + 1 - s < TAG_SPAN) ss -> live_seqs (ss ++ [n]) (n + 1).
Proof.
  intros [HS HF] Hsp. split.
  - clear Hsp. induction HS as [|a l HS IH Ha]; simpl; [repeat constructor|].
    apply Forall_cons in HF as [[Han _] HF]. constructor; [auto|].
    apply Forall_app. split; [done|]. by repeat constructor.
  - apply Forall_app. split.
    + rewrite Forall_forall in *. intros s Hs. specialize (HF _ Hs). specialize (Hsp _ Hs). lia.
    + repeat constructor; unfold TAG_SPAN; lia.
Qed.

Lemma rob_allocate_refines r ss n pc inst sz rd fp ctrl pd opd :
  rob_inv r ss n -> Forall (fun s => n + 1 - s < TAG_SPAN) ss -> rob_is_full r = false ->
  let e := rob_new_entry (rob_next_tag r) pc inst sz rd fp ctrl pd opd in
  let r' := (rob_allocate r pc inst sz rd fp ctrl pd opd).1 in
  rob_inv r' (ss ++ [n]) (n + 1) /\ rob_queue r' = rob_queue r ++ [e] /\
  rob_capacity r' = rob_capacity r.
Proof.
  intros I Hsp Hfull e r'. subst r'. unfold rob_allocate. rewrite Hfull. simpl.
  destruct (rob_ring _ _ _ I) as [Hc Hh Hn Htl].
  unfold rob_is_full in Hfull. apply Nat.eqb_neq in Hfull.
  pose proof (live_seqs_snoc _ _ (rob_live _ _ _ I) Hsp) as Hlive.
  assert (rob_next_tag r ∉ re_tag <$> rob_queue r) as Hfresh.
  { rewrite (rob_tags _ _ _ I), (rob_next _ _ _ I). apply live_seqs_NoDup_tags in Hlive.
    rewrite fmap_app in Hlive. apply NoDup_app in Hlive as (_ & Hd & _).
    intros Hin. apply (Hd _ Hin). by left. }
  assert (forall k, (k < rob_count r)%nat ->
    ring_slot (length (rob_entries r)) (rob_head r) (rob_count r) <>
    ring_slot (length (rob_entries r)) (rob_head r) k) as Hne.
  { intros k Hk E. apply ring_slot_inj in E; lia. }
  assert (rob_tail r < length (rob_entries r))%nat as Htlt by (rewrite Htl; by apply ring_slot_lt).
  set (r' := Build_Rob _ _ _ _ _ _).
  assert (rob_queue r' = rob_queue r ++ [e]) as Hq.
  { unfold rob_queue, r'. simpl. rewrite Htl. apply window_push; lia. }
  split; [|split; [done|]]; [|unfold rob_capacity; simpl; by rewrite length_insert].
  constructor; rewrite ?Hq; simpl; rewrite ?length_insert; try done.
  - constructor; rewrite ?length_insert; try done; [lia|]. rewrite Htl. by apply ring_next_slot.
  - apply Forall_app. split; [apply I|]. by repeat constructor.
  - rewrite !fmap_app, (rob_tags _ _ _ I). f_equal. simpl. by rewrite (rob_next _ _ _ I).
  - rewrite (rob_next _ _ _ I). apply bump_tag_at.
  - intros t i. rewrite lookup_insert. case_decide as D.
    + subst t. split.
      * intros [= <-]. exists (rob_count r). split_and!; [lia|done|].
        by rewrite list_lookup_total_insert_eq.
      * intros (k & Hk & -> & Ht). destruct (decide (k = rob_count r)) as [->|]; [by rewrite Htl|].
        destruct Hfresh. rewrite Htl, list_lookup_total_insert_ne in Ht by (apply Hne; lia).
        apply list_elem_of_fmap. eexists. split; [symmetry; exact Ht|].
        eapply list_elem_of_lookup_2, rob_queue_lookup. lia.
    + rewrite (rob_index _ _ _ I). split; intros (k & Hk & -> & Ht).
      * exists k. split_and!; [lia|done|]. rewrite Htl, list_lookup_total_insert_ne; [done|by apply Hne].
      * destruct (decide (k = rob_count r)) as [->|].
        -- rewrite Htl, list_lookup_total_insert_eq in Ht by (by apply ring_slot_lt). by destruct D.
        -- exists k. rewrite Htl, list_lookup_total_insert_ne in Ht by (apply Hne; lia).
           split_and!; [lia|done|done].
Qed.

(** ** Commit *)

Lemma rob_commit_refines r ss n :
  rob_inv r ss n -> rob_count r <> 0%nat -> re_state (rob_entries r !!! rob_head r) <> Issued ->
  let r' := (rob_commit_head r).1 in
  rob_inv r' (drop 1 ss) n /\
  rob_queue r = (rob_entries r !!! rob_head r) :: rob_queue r' /\
  rob_capacity r' = rob_capacity r /\ rob_next_tag r' = rob_next_tag r.
Proof.
  intros I Hz Hst r'. subst r'. unfold rob_commit_head.
  rewrite (proj2 (Nat.eqb_neq _ _) Hz), decide_False by done. simpl.
  destruct (rob_ring _ _ _ I) as [Hc Hh Hn Htl].
  pose proof (rob_tags_NoDup _ _ _ I) as HND.
  destruct (rob_count r) as [|c] eqn:Ec; [done|]. rewrite Nat.sub_succ, Nat.sub_0_r.
  set (e := rob_entries r !!! rob_head r) in *. set (r' := Build_Rob _ _ _ _ _ _).
  assert (forall k, (k < c)%nat -> ring_slot (length (rob_entries r))
     (ring_next (length (rob_entries r)) (rob_head r)) k <> rob_head r) as Hne.
  { intros k Hk. rewrite <-ring_slot_S by lia.
    rewrite <-(ring_slot_0 (length (rob_entries r)) (rob_head r)) at 2 by done.
    intros E. apply ring_slot_inj in E; lia. }
  assert (rob_queue r = e :: rob_queue r') as Hq.
  { unfold rob_queue, r'. simpl. rewrite Ec, window_S by done. f_equal. symmetry.
    apply window_ext; [apply length_insert|]. intros k Hk.
    apply list_lookup_total_insert_ne. symmetry. auto. }
  pose proof (rob_tags _ _ _ I) as Ht. pose proof (rob_all_valid _ _ _ I) as Hv.
  rewrite Hq in Ht, HND, Hv. apply Forall_cons in Hv as [_ Hv].
  destruct ss as [|s ss]; [done|]. simpl in Ht. injection Ht as Ht1 Ht2.
  split; [|split_and!; [done|unfold rob_capacity; simpl; by rewrite length_insert|done]].
  constructor; try done.
  - constructor; simpl; rewrite ?length_insert; try done; [by apply Nat.mod_upper_bound; lia|lia|].
    rewrite Htl. by rewrite <-ring_slot_S.
  - simpl. eapply live_seqs_sublist, I. simpl. apply sublist_cons. done.
  - apply I.
  - intros t i. simpl. rewrite length_insert, lookup_delete_Some, (rob_index _ _ _ I), Ec.
    split.
    + intros (Hte & [|k] & Hk & -> & <-).
      * by rewrite ring_slot_0 in Hte.
      * exists k. rewrite ring_slot_S by lia. split_and!; [lia|done|].
        rewrite list_lookup_total_insert_ne; [done|]. symmetry. apply Hne. lia.
    + intros (k & Hk & -> & <-). rewrite list_lookup_total_insert_ne by (symmetry; auto). split.
      * apply NoDup_cons in HND as [Hnin _]. intros E. apply Hnin.
        apply list_elem_of_fmap. eexists. split; [exact E|].
        eapply (list_elem_of_lookup_2 _ k). unfold rob_queue, r'. simpl.
        rewrite lookup_window, decide_True, length_insert by done.
        by rewrite list_lookup_total_insert_ne by (symmetry; auto).
      * exists (S k). rewrite ring_slot_S by lia. split_and!; [lia|done|done].
Qed.

(** ** Partial flush *)

(** The removal loop stops at [tail] within its fuel, keeps the slots below
    [j] and removes the tags of the slots it visits from the index. *)
Lemma rob_remove_loop_spec fuel es ti head j m :
  (head < length es)%nat -> (m <= length es)%nat -> (0 < j <= m)%nat -> (m - j <= fuel)%nat ->
  let '(es', ti', idx) := rob_remove_loop fuel es ti
    (ring_slot (length es) head j) (ring_slot (length es) head m) in
  idx = ring_slot (length es) head m /\ length es' = length es /\
  (forall k, (k < j)%nat -> es' !!! ring_slot (length es) head k = es !!! ring_slot (length es) head k) /\
  (forall t, ti' !! t = if decide (t ∈ re_tag <$> drop j (window es head m)) then None else ti !! t).
Proof.
  revert es ti j. induction fuel as [|fuel IH]; intros es ti j Hh Hm Hj Hf.
  - assert (j = m) as -> by lia. simpl. split_and!; try done. intros t.
    by rewrite drop_ge by (rewrite length_window; lia).
  - simpl. destruct (decide (j = m)) as [->|Hjm].
    { rewrite Nat.eqb_refl. split_and!; try done. intros t.
      by rewrite drop_ge by (rewrite length_window; lia). }
    rewrite (proj2 (Nat.eqb_neq _ _)) by (intros E; apply ring_slot_inj_pos in E; lia).
    rewrite ring_next_slot by lia.
    set (slot := ring_slot (length es) head j) in *. set (es1 := <[slot := _]> es).
    assert (length es1 = length es) as Hl by apply length_insert.
    specialize (IH es1 (delete (re_tag (es !!! slot)) ti) (S j)). rewrite Hl in IH.
    specialize (IH ltac:(lia) ltac:(lia) ltac:(lia) ltac:(lia)).
    destruct (rob_remove_loop fuel es1 _ _ _) as [[es' ti'] idx].
    destruct IH as (-> & Hl' & Hkeep & Hti). split_and!; [done|done|..].
    + intros k Hk. rewrite Hkeep by lia. apply list_lookup_total_insert_ne.
      intros E. apply ring_slot_inj in E; lia.
    + intros t. rewrite Hti.
      assert (drop (S j) (window es1 head m) = drop (S j) (window es head m)) as ->.
      { apply list_eq. intros k. rewrite !lookup_drop. unfold es1, slot.
        rewrite window_insert_in, list_lookup_insert_ne by lia. done. }
      rewrite (drop_S (window es head m) (es !!! slot) j) by
        (rewrite lookup_window, decide_True by lia; done).
      rewrite fmap_cons. rewrite lookup_delete.
      repeat case_decide; rewrite elem_of_cons in *; intuition congruence.
Qed.

Lemma rob_recount_loop_spec fuel es head j m c :
  (head < length es)%nat -> (j <= m < length es)%nat -> (m - j <= fuel)%nat ->
  (forall k, (k < m)%nat -> re_valid (es !!! ring_slot (length es) head k) = true) ->
  rob_recount_loop fuel es (ring_slot (length es) head j) (ring_slot (length es) head m) c =
  ((c + (m - j))%nat, ring_slot (length es) head m).
Proof.
  intros Hh. revert j c. induction fuel as [|fuel IH]; intros j c Hj Hf Hv; simpl.
  - assert (j = m) as -> by lia. by rewrite Nat.sub_diag, Nat.add_0_r.
  - destruct (decide (j = m)) as [->|Hjm].
    + by rewrite Nat.eqb_refl, Nat.sub_diag, Nat.add_0_r.
    + rewrite (proj2 (Nat.eqb_neq _ _)) by (intros E; apply ring_slot_inj in E; lia).
      rewrite ring_next_slot, Hv, IH by (done || lia). f_equal. lia.
Qed.

(** The search loop returns the slot of the first entry with the tag. *)
Lemma rob_scan_tag es head n tag :
  (head < length es)%nat -> (n <= length es)%nat ->
  ring_scan (fun idx e (_ : unit) => if re_tag e =? tag then Return idx else Continue tt) es n head tt =
  match list_find (fun e => re_tag e = tag) (window es head n) with
  | Some (k, _) => Return (ring_slot (length es) head k)
  | None => Continue tt
  end.
Proof.
  revert head. induction n as [|n IH]; intros head Hh Hn; [done|].
  rewrite window_S by done. simpl. case_decide as D.
  - by rewrite D, Z.eqb_refl, ring_slot_0.
  - rewrite (proj2 (Z.eqb_neq _ _) D), IH by (lia || (apply Nat.mod_upper_bound; lia)).
    destruct (list_find _ _) as [[k e]|]; [|done]. simpl. by rewrite ring_slot_S by lia.
Qed.

Lemma keep_through_find tag l :
  keep_through tag l = match list_find (fun e => re_tag e = tag) l with
                       | Some (k, _) => take (S k) l
                       | None => l
                       end.
Proof.
  induction l as [|e l IH]; [done|]. simpl. case_decide as D.
  - rewrite D, Z.eqb_refl. by destruct l.
  - rewrite (proj2 (Z.eqb_neq _ _) D), IH. by destruct (list_find _ l) as [[k e']|].
Qed.

Lemma rob_flush_after_refines r ss n tag :
  rob_inv r ss n ->
  let r' := rob_flush_after r tag in
  rob_inv r' (take (length (keep_through tag (rob_queue r))) ss) n /\
  rob_abs r' = (rob_abs r) <| q_entries := keep_through tag (rob_queue r) |>.
Proof.
  intros I. destruct (rob_ring _ _ _ I) as [Hc Hh Hn Htl].
  pose proof (length_rob_seqs _ _ _ I) as Hls.
  assert (rob_inv r (take (length (rob_queue r)) ss) n) as Hid.
  { rewrite length_rob_queue, take_ge by lia. done. }
  unfold rob_flush_after. destruct (Nat.eqb_spec (rob_count r) 0) as [Hz|Hz].
  { assert (rob_queue r = []) as Hq by (unfold rob_queue; by rewrite Hz).
    rewrite Hq in *. split; [done|]. unfold rob_abs. by rewrite Hq. }
  rewrite rob_scan_tag, keep_through_find by done. fold (rob_queue r).
  destruct (list_find _ (rob_queue r)) as [[k e]|] eqn:Ef; [|by split].
  apply list_find_Some in Ef as (Hk & Htag & _).
  pose proof (lookup_lt_Some _ _ _ Hk) as Hkc. rewrite length_rob_queue in Hkc.
  rewrite ring_next_slot by lia. rewrite length_take, length_rob_queue, Nat.min_l by lia.
  destruct (Nat.eqb_spec (ring_slot (length (rob_entries r)) (rob_head r) (S k)) (rob_tail r)) as [E|E].
  { assert (S k = rob_count r) as Hlast.
    { rewrite Htl in E. apply ring_slot_inj_pos in E; lia. }
    rewrite !take_ge by (rewrite ?length_rob_queue; lia). by split. }
  assert (S k < rob_count r)%nat as Hk1 by (rewrite Htl in E; destruct (decide (S k = rob_count r)); [congruence|lia]).
  pose proof (rob_remove_loop_spec (length (rob_entries r)) (rob_entries r) (rob_tag_index r)
    (rob_head r) (S k) (rob_count r) Hh Hn ltac:(lia) ltac:(lia)) as Hrm.
  rewrite Htl. destruct (rob_remove_loop _ _ _ _ _) as [[es' ti'] idx].
  destruct Hrm as (_ & Hl' & Hkeep & Hti).
  assert (forall j, (j < S k)%nat -> re_valid (es' !!! ring_slot (length es') (rob_head r) j) = true) as Hv.
  { intros j Hj. rewrite Hl', Hkeep by done. eapply rob_queue_valid; [done|].
    eapply list_elem_of_lookup_2, rob_queue_lookup. lia. }
  pose proof (rob_recount_loop_spec (length (rob_entries r)) es' (rob_head r) 0 (S k) 0
    ltac:(lia) ltac:(lia) ltac:(lia) Hv) as Hrc.
  rewrite ring_slot_0, Hl' in Hrc by lia. rewrite Hrc. simpl.
  set (r' := Build_Rob _ _ _ _ _ _).
  assert (rob_queue r' = take (S k) (rob_queue r)) as Hq.
  { unfold rob_queue, r'. simpl rob_entries. simpl rob_head. simpl rob_count.
    rewrite window_take by lia. by apply window_ext. }
  split; [|unfold rob_abs; rewrite Hq; unfold rob_capacity; simpl; by rewrite Hl'].
  constructor; rewrite ?Hq; simpl rob_entries; simpl rob_head; simpl rob_tail; simpl rob_count;
    simpl rob_next_tag; simpl rob_tag_index; try apply I.
  - constructor; rewrite ?Hl'; done || lia.
  - apply Forall_take, I.
  - eapply live_seqs_sublist, I. apply sublist_take.
  - by rewrite !fmap_take, (rob_tags _ _ _ I).
  - intros t i. rewrite Hti, Hl'. fold (rob_queue r).
    assert (NoDup (re_tag <$> take (S k) (rob_queue r) ++ drop (S k) (rob_queue r))) as HND.
    { rewrite take_drop. by eapply rob_tags_NoDup. }
    rewrite fmap_app in HND. apply NoDup_app in HND as (_ & Hdis & _).
    assert (forall j, (j < S k)%nat -> re_tag (rob_entries r !!! ring_slot (length (rob_entries r)) (rob_head r) j)
       ∈ re_tag <$> take (S k) (rob_queue r)) as Hin.
    { intros j Hj. apply list_elem_of_fmap. eexists. split; [done|].
      eapply (list_elem_of_lookup_2 _ j). rewrite lookup_take_lt by lia. apply rob_queue_lookup; lia. }
    case_decide as D.
    + split; [done|]. intros (j & Hj & -> & Ht). rewrite Hkeep in Ht by done.
      destruct (Hdis t); [|done]. rewrite <-Ht. auto.
    + rewrite (rob_index _ _ _ I). split; intros (j & Hj & -> & Ht).
      * assert (j < S k)%nat as Hj'.
        { destruct (decide (j < S k)%nat); [done|]. destruct D. apply list_elem_of_fmap.
          eexists. split; [symmetry; exact Ht|]. eapply (list_elem_of_lookup_2 _ (j - S k)).
          rewrite lookup_drop. replace (S k + (j - S k))%nat with j by lia.
          by apply rob_queue_lookup. }
        exists j. rewrite Hkeep by done. done.
      * exists j. rewrite Hkeep in Ht by done. split_and!; [lia|done|done].
Qed.

(** ** Full flush and flag draining *)

Lemma rob_flush_all_refines r ss n :
  rob_inv r ss n ->
  rob_inv (rob_flush_all r) [] n /\ rob_abs (rob_flush_all r) = (rob_abs r) <| q_entries := [] |>.
Proof.
  intros I. destruct (rob_ring _ _ _ I) as [Hc Hh Hn Htl]. split.
  - constructor; simpl; try done.
    + constructor; rewrite ?length_fmap; try done; [lia|]. by rewrite ring_slot_0.
    + apply live_seqs_nil.
    + apply I.
    + intros t i. split; [done|]. intros (k & Hk & _). lia.
  - unfold rob_abs, rob_capacity. simpl. by rewrite length_fmap.
Qed.

Lemma drain_list_rewrite tag l acc :
  Forall (fun e => re_valid e = true) l ->
  list_rewrite (edit_drain tag) l acc =
  ((fun e => if is_older_than (re_tag e) tag then e <| re_fp_flags := 0 |> else e) <$> l,
   foldl Z.lor acc (omap (fun e => if is_older_than (re_tag e) tag
                                   then Some (re_fp_flags e) else None) l)).
Proof.
  intros Hv. revert acc. induction Hv as [|e l He Hv IH]; intros acc; [done|].
  simpl. unfold edit_drain at 1. rewrite He. simpl.
  destruct (is_older_than (re_tag e) tag); by rewrite IH.
Qed.

Lemma rob_drain_refines r ss n tag :
  rob_inv r ss n ->
  rob_inv (rob_drain_fp_flags_before r tag).1 ss n /\
  (rob_abs (rob_drain_fp_flags_before r tag).1, RetFlags (rob_drain_fp_flags_before r tag).2) =
  q_exec (rob_abs r) (OpDrainFpFlagsBefore tag).
Proof.
  intros I. destruct (rob_ring _ _ _ I) as [Hc Hh Hn Htl]. unfold rob_drain_fp_flags_before.
  destruct (Nat.eqb_spec (rob_count r) 0) as [Hz|Hz].
  { split; [done|]. unfold q_exec, rob_abs. simpl. unfold rob_queue. by rewrite Hz. }
  pose proof (ring_rewrite_window (edit_drain tag) (rob_entries r) (rob_count r) (rob_head r) 0 Hh Hn) as Hrw.
  cbv zeta in Hrw. destruct (ring_rewrite _ _ _ _ _) as [es acc]. simpl in Hrw.
  destruct Hrw as (Hl & Hw & Ho). fold (rob_queue r) in Hw.
  rewrite drain_list_rewrite in Hw by apply I. injection Hw as Hw Hacc.
  set (drained := fun e => _) in Hw. simpl fst. simpl snd.
  set (r' := r <| rob_entries := es |>).
  assert (rob_queue r' = drained <$> rob_queue r) as Hq by done.
  assert (forall e, re_tag (drained e) = re_tag e /\ re_valid (drained e) = re_valid e) as Hd.
  { intros e. unfold drained. by destruct (is_older_than _ _). }
  change (rob_inv r' ss n /\ (rob_abs r', RetFlags acc) = q_exec (rob_abs r) (OpDrainFpFlagsBefore tag)).
  split; [|unfold rob_abs at 1; rewrite Hq, Hacc; unfold rob_capacity; simpl; by rewrite Hl].
  constructor; rewrite ?Hq; simpl; rewrite ?Hl; try apply I.
  - by constructor; rewrite ?Hl.
  - apply Forall_fmap, (Forall_impl _ _ _ (rob_all_valid _ _ _ I)). intros e He. simpl.
    by rewrite (proj2 (Hd e)).
  - rewrite <-(rob_tags _ _ _ I), <-list_fmap_compose. apply list_fmap_ext. intros _ e _. apply Hd.
  - intros t i. rewrite (rob_index _ _ _ I).
    assert (forall k, (k < rob_count r)%nat ->
      re_tag (es !!! ring_slot (length (rob_entries r)) (rob_head r) k) =
      re_tag (rob_entries r !!! ring_slot (length (rob_entries r)) (rob_head r) k)) as Ht.
    { intros k Hk. pose proof (f_equal (fun l => l !! k) Hw) as Hk'. simpl in Hk'.
      rewrite list_lookup_fmap, rob_queue_lookup, lookup_window, decide_True, Hl in Hk' by done.
      injection Hk' as ->. apply Hd. }
    split; intros (k & Hk & -> & <-); exists k; by rewrite Ht.
Qed.

(** ** The refinement *)

Lemma rob_exec_refines_inv r ss n op :
  rob_inv r ss n -> op_in_span ss n op ->
  let '(ss', n') := seqs_after r ss n op in
  rob_inv (rob_exec r op).1 ss' n' /\
  q_exec (rob_abs r) op = (rob_abs (rob_exec r op).1, (rob_exec r op).2).
Proof.
  intros I Hs.
  destruct (op_edit op) as [[tag edit]|] eqn:Eop.
  { pose proof (rob_modify_refines r ss n tag edit I (op_edit_ok _ _ _ Eop)) as [Hi Ha].
    destruct op; simpl in Eop; try done; injection Eop as <- <-; simpl; unfold rob_complete, rob_fault,
      rob_set_csr_update, rob_mark_csr_applied, rob_set_bp_update, rob_set_bp_target, rob_set_fp_flags,
      rob_set_pte_update, rob_set_sfence_vma, rob_set_lr_sc, rob_set_checkpoint_id, rob_set_store_info;
      by rewrite Ha. }
  destruct op; try done; clear Eop.
  - simpl seqs_after. unfold q_exec, rob_exec. simpl q_entries. simpl q_cap.
    rewrite length_rob_queue. change (rob_count r =? rob_capacity r)%nat with (rob_is_full r).
    destruct (rob_is_full r) eqn:Ef.
    + unfold rob_allocate. by rewrite Ef.
    + pose proof (rob_allocate_refines r ss n pc inst inst_size rd rd_fp ctrl phys_dst old_phys_dst I Hs Ef)
        as (Hi & Hq & Hcap).
      unfold rob_allocate in *. rewrite Ef in *. simpl in *. split; [done|].
      unfold rob_abs. by rewrite Hq, Hcap.
  - simpl seqs_after. pose proof (rob_drain_refines r ss n tag I) as [Hi Ha].
    unfold rob_exec. destruct (rob_drain_fp_flags_before r tag). by rewrite <-Ha.
  - unfold rob_exec. pose proof (length_rob_seqs _ _ _ I) as Hls.
    destruct (Nat.eqb_spec (rob_count r) 0) as [Hz|Hz].
    { assert (rob_queue r = []) as Hq by (unfold rob_queue; by rewrite Hz).
      unfold seqs_after, q_exec. simpl q_entries. rewrite Hq. unfold rob_commit_head. rewrite Hz. simpl.
      rewrite Hq. destruct ss; [by split|simpl in Hls; lia]. }
    destruct (decide (re_state (rob_entries r !!! rob_head r) = Issued)) as [Hst|Hst].
    + assert (exists l, rob_queue r = (rob_entries r !!! rob_head r) :: l) as [l Hq].
      { unfold rob_queue. destruct (rob_count r); [done|]. rewrite window_S by apply I. eauto. }
      assert (q_exec (rob_abs r) OpCommitHead = (rob_abs r, RetEntry None)) as Hqx.
      { unfold q_exec. simpl q_entries. by rewrite Hq, decide_True. }
      unfold rob_commit_head. rewrite (proj2 (Nat.eqb_neq _ _) Hz), decide_True by done.
      unfold seqs_after. rewrite Hqx. simpl. by rewrite length_rob_queue, Hls, Nat.sub_diag.
    + pose proof (rob_commit_refines _ _ _ I Hz Hst) as (Hi & Hq & Hcap & Hnx).
      pose proof (length_rob_queue r) as Hlq. rewrite Hq in Hlq. simpl in Hlq.
      assert (exists r', rob_commit_head r = (r', Some (rob_entries r !!! rob_head r))) as [r' Hr'].
      { unfold rob_commit_head. rewrite (proj2 (Nat.eqb_neq _ _) Hz), decide_False by done. eauto. }
      rewrite Hr' in *. simpl fst in *.
      assert (q_exec (rob_abs r) OpCommitHead =
        (rob_abs r', RetEntry (Some (rob_entries r !!! rob_head r)))) as Hqx.
      { unfold q_exec. simpl q_entries. rewrite Hq, decide_False by done.
        unfold rob_abs. simpl. by rewrite Hcap, Hnx. }
      unfold seqs_after. rewrite Hqx. simpl.
      replace (length ss - _)%nat with 1%nat by lia. done.
  - pose proof (rob_flush_all_refines _ _ _ I) as [Hi Ha]. simpl. by rewrite Ha.
  - pose proof (rob_flush_after_refines _ _ _ tag I) as [Hi Ha]. simpl. by rewrite Ha.
Qed.
