(* ===== verification/RobProps.v ===== *)
(** Properties of the reorder buffer over whole runs and of its queries:
    refinement of the abstract queue by any sequence of operations, in-order
    retirement, agreement of partial flush with [iter_after], operand
    forwarding, and the serialisation and FENCE gates. *)
From S2P Require Import Prelude Ring Common Rob RobSpec.

Local Open Scope Z_scope.

(** ** Runs *)

Fixpoint rob_run (r : Rob) (ops : list rob_op) : Rob * list rob_ret :=
  match ops with
  | [] => (r, [])
  | op :: ops' => let '(r', x) := rob_exec r op in
                  let '(r'', xs) := rob_run r' ops' in (r'', x :: xs)
  end.

Fixpoint q_run (q : RobQ) (ops : list rob_op) : RobQ * list rob_ret :=
  match ops with
  | [] => (q, [])
  | op :: ops' => let '(q', x) := q_exec q op in
                  let '(q'', xs) := q_run q' ops' in (q'', x :: xs)
  end.

(** At every allocation of the run the oldest live instruction is less than
    [TAG_SPAN] allocations old. *)
Fixpoint run_in_span (r : Rob) (ss : list Z) (n : Z) (ops : list rob_op) : Prop :=
  match ops with
  | [] => True
  | op :: ops' => op_in_span ss n op /\
      run_in_span (rob_exec r op).1 (seqs_after r ss n op).1 (seqs_after r ss n op).2 ops'
  end.

#[export] Instance op_in_span_dec ss n op : Decision (op_in_span ss n op).
Proof. destruct op; apply _. Defined.

#[export] Instance run_in_span_dec r ss n ops : Decision (run_in_span r ss n ops).
Proof. revert r ss n. induction ops; simpl; apply _. Defined.

Lemma rob_new_inv (capacity : nat) : (0 < capacity)%nat -> rob_inv (rob_new capacity) [] 0.
Proof.
  intros. constructor; simpl; try done.
  - constructor; rewrite ?length_replicate; try lia. by rewrite ring_slot_0.
  - apply live_seqs_nil.
  - intros t i. split; [done|]. intros (k & Hk & _). lia.
Qed.

Lemma rob_run_refines_inv ops r ss n :
  rob_inv r ss n -> run_in_span r ss n ops ->
  (exists ss' n', rob_inv (rob_run r ops).1 ss' n') /\
  q_run (rob_abs r) ops = (rob_abs (rob_run r ops).1, (rob_run r ops).2).
Proof.
  revert r ss n. induction ops as [|op ops IH]; intros r ss n I Hsp; [eauto|].
  simpl in Hsp. destruct Hsp as [Hop Hsp].
  pose proof (rob_exec_refines_inv r ss n op I Hop) as Hx.
  destruct (seqs_after r ss n op) as [ss' n']. destruct Hx as [I' Hq]. simpl in Hsp. simpl.
  rewrite Hq. specialize (IH _ _ _ I' Hsp).
  destruct (rob_exec r op) as [r' x]. simpl in *.
  destruct IH as [He IH]. rewrite IH. by destruct (rob_run r' ops).
Qed.

(** C1. The reorder buffer refines a bounded queue: from an empty buffer of any
    positive capacity, every sequence of allocate, complete, fault, set_*,
    drain_fp_flags_before, commit_head, flush_all and flush_after returns the
    same values as the abstract queue and leaves the same contents, as long as
    no live instruction is [TAG_SPAN] allocations old. *)
Theorem rob_refines_queue (capacity : nat) (ops : list rob_op) :
  (0 < capacity)%nat -> run_in_span (rob_new capacity) [] 0 ops ->
  q_run {| q_cap := capacity; q_entries := []; q_next_tag := 1 |} ops =
  (rob_abs (rob_run (rob_new capacity) ops).1, (rob_run (rob_new capacity) ops).2).
Proof.
  intros Hc Hsp. destruct (rob_run_refines_inv ops _ _ _ (rob_new_inv capacity Hc) Hsp) as [_ <-].
  f_equal. unfold rob_abs, rob_capacity. simpl. by rewrite length_replicate.
Qed.

(** ** In-order retirement *)

Definition allocated_tags (rets : list rob_ret) : list Z :=
  omap (fun x => match x with RetTag t => t | _ => None end) rets.
Definition committed_tags (rets : list rob_ret) : list Z :=
  omap (fun x => match x with RetEntry (Some e) => Some (re_tag e) | _ => None end) rets.

Lemma keep_through_sublist tag l : keep_through tag l `sublist_of` l.
Proof.
  rewrite keep_through_find. destruct (list_find _ l) as [[k e]|]; [apply sublist_take|done].
Qed.

Lemma modify_tag_tags tag edit l : edit_ok edit -> re_tag <$> modify_tag tag edit l = re_tag <$> l.
Proof.
  intros He. unfold modify_tag. rewrite <-list_fmap_compose. apply list_fmap_ext.
  intros _ e _. simpl. destruct (re_tag e =? tag); [apply He|done].
Qed.

(** One operation retires at most the oldest tag and appends at most the new one. *)
Lemma q_exec_tags q op :
  committed_tags [(q_exec q op).2] ++ (re_tag <$> q_entries (q_exec q op).1) `sublist_of`
  (re_tag <$> q_entries q) ++ allocated_tags [(q_exec q op).2].
Proof.
  unfold allocated_tags, committed_tags.
  destruct (op_edit op) as [[tag edit]|] eqn:Eop.
  { pose proof (op_edit_ok _ _ _ Eop) as He.
    destruct op; simpl in Eop; try done; injection Eop as <- <-; simpl; rewrite app_nil_r;
      by rewrite modify_tag_tags. }
  destruct op; try done; clear Eop; simpl.
  - destruct (_ =? _)%nat; simpl; [by rewrite app_nil_r|]. by rewrite fmap_app.
  - rewrite app_nil_r, <-list_fmap_compose.
    erewrite list_fmap_ext; [done|]. intros _ e _. simpl. by destruct (is_older_than _ _).
  - destruct (q_entries q) as [|e l] eqn:Hq; simpl; [by rewrite Hq|].
    case_decide; simpl; [by rewrite Hq, app_nil_r|]. by rewrite app_nil_r.
  - apply sublist_nil_l.
  - rewrite app_nil_r. apply fmap_sublist, keep_through_sublist.
Qed.

Lemma allocated_tags_cons x xs : allocated_tags (x :: xs) = allocated_tags [x] ++ allocated_tags xs.
Proof. unfold allocated_tags. by destruct x as [|[t|]| |]. Qed.

Lemma committed_tags_cons x xs : committed_tags (x :: xs) = committed_tags [x] ++ committed_tags xs.
Proof. unfold committed_tags. by destruct x as [| |[e|]|]. Qed.

Lemma q_run_tags q ops :
  committed_tags (q_run q ops).2 ++ (re_tag <$> q_entries (q_run q ops).1) `sublist_of`
  (re_tag <$> q_entries q) ++ allocated_tags (q_run q ops).2.
Proof.
  revert q. induction ops as [|op ops IH]; intros q; [simpl; by rewrite app_nil_r|].
  cbn [q_run]. pose proof (q_exec_tags q op) as H1. destruct (q_exec q op) as [q' x].
  specialize (IH q'). destruct (q_run q' ops) as [q'' xs]. cbn [fst snd] in *.
  rewrite committed_tags_cons, allocated_tags_cons, <-app_assoc.
  etrans; [apply sublist_app; [done|exact IH]|].
  rewrite !app_assoc. by apply sublist_app.
Qed.

(** Retirement is in program order: over any run from an empty buffer the
    tags [commit_head] returns form a subsequence of the tags [allocate]
    handed out, in the same order. *)
Theorem rob_commits_in_order (capacity : nat) (ops : list rob_op) :
  (0 < capacity)%nat -> run_in_span (rob_new capacity) [] 0 ops ->
  committed_tags (rob_run (rob_new capacity) ops).2 `sublist_of`
  allocated_tags (rob_run (rob_new capacity) ops).2.
Proof.
  intros Hc Hsp. destruct (rob_run_refines_inv ops _ _ _ (rob_new_inv capacity Hc) Hsp) as [_ Hq].
  pose proof (q_run_tags (rob_abs (rob_new capacity)) ops) as Ht. rewrite Hq in Ht. simpl in Ht.
  etrans; [|exact Ht]. by apply sublist_inserts_r.
Qed.

(** ** Reachable buffers *)

Inductive rob_reach : Rob -> list Z -> Z -> Prop :=
| reach_new capacity : (0 < capacity)%nat -> rob_reach (rob_new capacity) [] 0
| reach_step r ss n op :
    rob_reach r ss n -> op_in_span ss n op ->
    rob_reach (rob_exec r op).1 (seqs_after r ss n op).1 (seqs_after r ss n op).2.

Lemma rob_reach_inv r ss n : rob_reach r ss n -> rob_inv r ss n.
Proof.
  induction 1 as [c Hc|r ss n op _ IH Hop]; [by apply rob_new_inv|].
  pose proof (rob_exec_refines_inv r ss n op IH Hop) as Hx.
  by destruct (seqs_after r ss n op), Hx.
Qed.

(** ** Partial flush and [iter_after] *)

Lemma rob_iter_window r (p : RobEntry -> bool) :
  omap (fun i => let e := rob_entries r !!! ((rob_head r + i) mod length (rob_entries r))%nat in
                 if p e then Some e else None) (seq 0 (rob_count r)) =
  filter (fun e => p e = true) (rob_queue r).
Proof.
  unfold rob_queue, window, ring_slot. induction (seq 0 (rob_count r)) as [|i l IH]; [done|].
  rewrite fmap_cons, filter_cons, <-IH. simpl.
  destruct (p _) eqn:E; case_decide; done || congruence.
Qed.

(** Position in the queue decides age. *)
Lemma rob_position_age r ss n j k ej ek :
  rob_inv r ss n -> rob_queue r !! j = Some ej -> rob_queue r !! k = Some ek ->
  is_older_than (re_tag ej) (re_tag ek) = (j <? k)%nat.
Proof.
  intros I Hj Hk. pose proof (rob_live _ _ _ I) as Hl.
  assert (forall i e, rob_queue r !! i = Some e -> exists s, ss !! i = Some s /\ re_tag e = tag_at s) as Hs.
  { intros i e Hi. pose proof (f_equal (fun l => l !! i) (rob_tags _ _ _ I)) as Ht. simpl in Ht.
    rewrite !list_lookup_fmap, Hi in Ht. simpl in Ht.
    destruct (ss !! i) as [s|]; [|done]. injection Ht as Ht. eauto. }
  destruct (Hs _ _ Hj) as (sj & Hsj & ->), (Hs _ _ Hk) as (sk & Hsk & ->).
  rewrite is_older_than_tag_at by (eapply live_seqs_dist; eauto using list_elem_of_lookup_2).
  destruct Hl as [HS _]. clear -HS Hsj Hsk.
  assert (forall a b x y, (a < b)%nat -> ss !! a = Some x -> ss !! b = Some y -> x < y) as Hlt.
  { clear -HS. induction HS as [|z l HS IH Hz]; intros a b x y Hab Ha Hb; [done|].
    destruct b as [|b]; [lia|]. destruct a as [|a]; simpl in *.
    - injection Ha as ->. rewrite Forall_forall in Hz. eauto using list_elem_of_lookup_2.
    - apply (IH a b); auto. lia. }
  destruct (Nat.ltb_spec j k) as [|Hge]; [by apply Z.ltb_lt; eauto|]. apply Z.ltb_ge.
  destruct (decide (k = j)) as [->|]; [replace sk with sj by congruence; lia|].
  apply Z.lt_le_incl, (Hlt k j); auto. lia.
Qed.

Lemma keep_through_at tag l k e :
  NoDup (re_tag <$> l) -> l !! k = Some e -> re_tag e = tag -> keep_through tag l = take (S k) l.
Proof.
  intros HND Hk <-. rewrite keep_through_find.
  destruct (list_find _ l) as [[j e']|] eqn:Ef.
  - apply list_find_Some in Ef as (Hj & Ht & _).
    assert (j = k) as ->; [|done].
    eapply (NoDup_lookup _ j k (re_tag e) HND); rewrite list_lookup_fmap; [rewrite Hj|rewrite Hk]; simpl; congruence.
  - apply list_find_None in Ef. rewrite Forall_forall in Ef.
    by destruct (Ef e); [eapply list_elem_of_lookup_2|].
Qed.

Lemma filter_positions {A} (P : A -> Prop) `{forall a, Decision (P a)} (l : list A) (k : nat) :
  (forall j a, l !! j = Some a -> (P a <-> (k <= j)%nat)) -> filter P l = drop k l.
Proof.
  revert k. induction l as [|a l IH]; intros k Hp; [by rewrite drop_nil|].
  rewrite filter_cons. pose proof (Hp 0%nat a eq_refl) as H0.
  destruct k as [|k].
  - rewrite decide_True by (apply H0; lia). simpl. f_equal. rewrite (IH 0%nat); [done|].
    intros j b Hj. rewrite (Hp (S j) b Hj). lia.
  - rewrite decide_False by (rewrite H0; lia). simpl. apply IH. intros j b Hj.
    rewrite (Hp (S j) b Hj). lia.
Qed.

Lemma rob_flush_after_at r ss n k e :
  rob_inv r ss n -> rob_queue r !! k = Some e ->
  rob_inv (rob_flush_after r (re_tag e)) (take (S k) ss) n /\
  rob_queue (rob_flush_after r (re_tag e)) = take (S k) (rob_queue r).
Proof.
  intros I Hk. pose proof (rob_flush_after_refines _ _ _ (re_tag e) I) as [I' Ha].
  apply (f_equal q_entries) in Ha. simpl in Ha.
  assert (keep_through (re_tag e) (rob_queue r) = take (S k) (rob_queue r)) as Hkt
    by (eapply keep_through_at; eauto using rob_tags_NoDup).
  rewrite Hkt in *. split; [|done].
  rewrite length_take_le in I' by (apply lookup_lt_Some in Hk; lia). exact I'.
Qed.

Lemma rob_iter_after_at r ss n k e :
  rob_inv r ss n -> rob_queue r !! k = Some e ->
  rob_iter_after r (re_tag e) = drop (S k) (rob_queue r).
Proof.
  intros I Hk.
  etrans; [exact (rob_iter_window r (fun e0 => re_valid e0 && is_newer_than (re_tag e0) (re_tag e)))|].
  apply filter_positions. intros j ej Hj. unfold is_newer_than.
  rewrite (rob_queue_valid _ _ _ I ej) by (by eapply list_elem_of_lookup_2).
  rewrite (rob_position_age _ _ _ k j e ej I Hk Hj). simpl. rewrite Nat.ltb_lt. lia.
Qed.

(** In a consistent buffer every visited slot is valid. *)
Lemma rob_iter_in_order_queue r ss n : rob_inv r ss n -> rob_iter_in_order r = rob_queue r.
Proof.
  intros I. etrans; [exact (rob_iter_window r re_valid)|].
  apply filter_all. exact (rob_all_valid _ _ _ I).
Qed.

Lemma rob_for_each_valid_queue {S} r ss n (f : RobEntry -> S -> S) (s : S) :
  rob_inv r ss n -> rob_for_each_valid r f s = foldl (fun s e => f e s) s (rob_queue r).
Proof.
  intros I. unfold rob_for_each_valid. destruct (Nat.eqb_spec (rob_count r) 0) as [E|E].
  { unfold rob_queue. by rewrite E. }
  rewrite ring_scan_window by apply (rob_ring _ _ _ I). fold (rob_queue r).
  pose proof (rob_all_valid _ _ _ I) as Hv. clear -Hv. revert s.
  induction Hv as [|e l He Hl IH]; intros s; [done|]. simpl. rewrite He. apply IH.
Qed.

Lemma rob_find_entry_spec r ss n tag :
  rob_inv r ss n ->
  match rob_find_entry r tag with
  | Some e => exists k, rob_queue r !! k = Some e /\ re_tag e = tag
  | None => tag ∉ re_tag <$> rob_queue r
  end.
Proof.
  intros I. pose proof (rob_find_entry_mut_spec _ _ _ I tag) as H.
  unfold rob_find_entry_mut, rob_find_entry in *.
  destruct (rob_tag_index r !! tag) as [i|]; [|done].
  destruct (re_valid _); [|done]. destruct H as (k & _ & _ & Hk & Ht). eauto.
Qed.

Lemma rob_prev_tag_of_in r ss n tag t :
  rob_inv r ss n -> rob_prev_tag_of r tag = Some t -> exists k e, rob_queue r !! k = Some e /\ re_tag e = t.
Proof.
  intros I. unfold rob_prev_tag_of. destruct (Nat.eqb_spec (rob_count r) 0); [done|].
  rewrite ring_scan_window by apply (rob_ring _ _ _ I). fold (rob_queue r).
  assert (forall l prev, after_loop (list_scan (prev_tag_body tag) l prev) (fun _ => None) = Some t ->
    prev = Some t \/ exists e, e ∈ l /\ re_tag e = t) as H.
  { induction l as [|e l IH]; intros prev; simpl; [done|]. unfold prev_tag_body at 1.
    destruct (re_valid e); [destruct (re_tag e =? tag)|].
    - simpl. by left.
    - intros [Hp|(e' & He & Ht)]%IH; right; [injection Hp as Hp; exists e|exists e']; split; try done;
        [by left|by right].
    - intros [Hp|(e' & He & Ht)]%IH; [by left|]. right. exists e'. split; [by right|done]. }
  intros [?|(e & He & Ht)]%H; [done|]. apply list_elem_of_lookup in He as [k Hk]. eauto.
Qed.

(** Misprediction recovery is exact: for an in-flight instruction [e] the
    entries [iter_after] reports are precisely those [flush_after] squashes,
    everything up to and including [e] survives in order, and nothing is lost
    or duplicated. *)
Theorem rob_flush_after_iter_after r ss n k e :
  rob_reach r ss n -> rob_queue r !! k = Some e ->
  rob_queue (rob_flush_after r (re_tag e)) = take (S k) (rob_queue r) /\
  rob_iter_after r (re_tag e) = drop (S k) (rob_queue r).
Proof.
  intros I%rob_reach_inv Hk. split; [by eapply rob_flush_after_at|by eapply rob_iter_after_at].
Qed.

(** ** Operand forwarding *)

(** The entry is a writer of register [reg] of the given file. *)
Definition writes_reg (reg : Z) (is_fp : bool) (e : RobEntry) : bool :=
  (re_rd e =? reg) && Bool.eqb (re_rd_fp e) is_fp.

Lemma latest_result_scan reg fp l :
  Forall (fun e => re_valid e = true) l ->
  after_loop (list_scan (latest_result_body reg fp) l tt) (fun _ => None) =
  match list_find (fun e => writes_reg reg fp e = true) l with
  | Some (_, e) => if decide (re_state e = Completed) then re_result e else None
  | None => None
  end.
Proof.
  induction 1 as [|e l He Hv IH]; [done|]. cbn [list_scan list_find].
  unfold latest_result_body at 1. rewrite He.
  change (true && (re_rd e =? reg) && Bool.eqb (re_rd_fp e) fp) with (writes_reg reg fp e).
  destruct (decide (writes_reg reg fp e = true)) as [Ew|Ew].
  - rewrite Ew. by case_decide.
  - rewrite (not_true_is_false _ Ew), IH. by destruct (list_find _ l) as [[??]|].
Qed.

Lemma list_find_reverse_last {A} (P : A -> Prop) `{forall a, Decision (P a)} (l : list A) :
  match list_find P (reverse l) with
  | Some (_, a) => exists k, l !! k = Some a /\ P a /\ forall j b, (k < j)%nat -> l !! j = Some b -> ~ P b
  | None => forall j b, l !! j = Some b -> ~ P b
  end.
Proof.
  destruct (list_find P (reverse l)) as [[i a]|] eqn:E.
  - apply list_find_Some in E as (Hi & Ha & Hb). pose proof (lookup_lt_Some _ _ _ Hi) as Hlt.
    rewrite length_reverse in Hlt. rewrite reverse_lookup in Hi by done.
    exists (length l - S i)%nat. split_and!; [done|done|]. intros j b Hj Hjb.
    pose proof (lookup_lt_Some _ _ _ Hjb). apply (Hb (length l - S j)%nat); [|lia].
    rewrite reverse_lookup by lia. rewrite <-Hjb. f_equal. lia.
  - apply list_find_None in E. rewrite Forall_forall in E. intros j b Hj. apply E.
    apply elem_of_reverse. by eapply list_elem_of_lookup_2.
Qed.

(** Operand forwarding reads the youngest writer: [find_latest_result]
    returns [v] exactly when the most recent in-flight instruction that writes
    the register has completed with result [v]; an older completed writer is
    never used past a younger pending one, and x0 is never forwarded. *)
Theorem rob_find_latest_result_youngest r ss n reg is_fp v :
  rob_reach r ss n ->
  rob_find_latest_result r reg is_fp = Some v <->
  (is_fp = true \/ reg <> 0) /\
  exists k e, rob_queue r !! k = Some e /\ writes_reg reg is_fp e = true /\
    re_state e = Completed /\ re_result e = Some v /\
    forall j e', (k < j)%nat -> rob_queue r !! j = Some e' -> writes_reg reg is_fp e' = false.
Proof.
  intros I%rob_reach_inv. unfold rob_find_latest_result.
  rewrite (ring_scan_back_window _ _ (rob_head r)) by apply I. fold (rob_queue r).
  rewrite latest_result_scan by (apply Forall_reverse, I).
  pose proof (list_find_reverse_last (fun e => writes_reg reg is_fp e = true) (rob_queue r)) as Hf.
  assert (rob_count r = 0%nat -> rob_queue r = []) as Hz by (intros Hz; unfold rob_queue; by rewrite Hz).
  destruct (Nat.eqb_spec (rob_count r) 0) as [E|E]; simpl.
  { rewrite Hz by done. split; [done|]. intros (_ & k & e & Hk & _). by rewrite lookup_nil in Hk. }
  unfold reg_is_zero. destruct is_fp, (Z.eqb_spec reg 0) as [E0|E0]; simpl;
    try (split; [done|]; intros ([|] & _); done).
  all: destruct (list_find _ (reverse (rob_queue r))) as [[i e]|];
    [destruct Hf as (k & Hk & Hw & Hy)|];
    split; try done; try (case_decide; [|done]); intros Hres.
  all: try (split; [by auto|]; exists k, e; split_and!; try done; intros j e' Hj He';
            by apply not_true_is_false, (Hy j)).
  all: destruct Hres as (_ & k' & e' & Hk' & Hw' & Hc' & Hr' & Hy');
    try (by destruct (Hf _ _ Hk')).
  all: assert (k' = k) as -> by (destruct (decide (k' < k)%nat); [by rewrite (Hy' k e) in Hw|];
    destruct (decide (k < k')%nat); [by destruct (Hy k' e')|lia]);
    rewrite Hk in Hk'; injection Hk' as <-; done || by rewrite decide_True.
Qed.

(** ** Serialisation and FENCE gates *)

(** A scan that stops at the entry [t] with answer [d] and before it stops at
    the first [bad] entry with the opposite answer. *)
Lemma scan_before (body : RobEntry -> unit -> flow unit bool) (bad : RobEntry -> bool) (d : bool)
    (t : Z) (l : list RobEntry) (k : nat) (e : RobEntry) (dflt : bool) :
  (forall a, a ∈ l -> body a tt = if re_tag a =? t then Return d
                                  else if bad a then Return (negb d) else Continue tt) ->
  NoDup (re_tag <$> l) -> l !! k = Some e -> re_tag e = t ->
  after_loop (list_scan body l tt) (fun _ => dflt) = xorb (existsb bad (take k l)) d.
Proof.
  intros Hb HND. revert k. induction l as [|a l IH]; intros k Hk Ht; [done|]. simpl.
  rewrite fmap_cons in HND. apply NoDup_cons in HND as [Hnin HND].
  rewrite Hb by by left. destruct k as [|k]; simpl in Hk.
  - injection Hk as ->. by rewrite Ht, Z.eqb_refl.
  - assert (re_tag a <> t) as Hne.
    { intros E. apply Hnin. apply list_elem_of_fmap. exists e.
      split; [congruence|by eapply list_elem_of_lookup_2]. }
    rewrite (proj2 (Z.eqb_neq _ _) Hne). simpl. destruct (bad a); [by destruct d|].
    apply IH; try done. intros b Hin. apply Hb. by right.
Qed.

Lemma existsb_take (p : RobEntry -> bool) l k :
  existsb p (take k l) = true <-> exists j e, (j < k)%nat /\ l !! j = Some e /\ p e = true.
Proof.
  rewrite existsb_exists. split.
  - intros (e & Hin & Hp). apply list_elem_of_In, list_elem_of_lookup in Hin as [j Hj].
    apply lookup_take_Some in Hj as [Hj ?]. eauto 6.
  - intros (j & e & Hjk & Hj & Hp). exists e. split; [|done].
    apply list_elem_of_In, (list_elem_of_lookup_2 (take k l) j). by rewrite lookup_take_lt.
Qed.

Lemma rob_scan_gate r ss n (body : RobEntry -> unit -> flow unit bool)
    (bad : RobEntry -> bool) (d : bool) k e (dflt : bool) :
  rob_inv r ss n -> rob_queue r !! k = Some e ->
  (forall a, re_valid a = true ->
     body a tt = if re_tag a =? re_tag e then Return d
                 else if bad a then Return (negb d) else Continue tt) ->
  after_loop (ring_scan (fun _ => body) (rob_entries r) (rob_count r) (rob_head r) tt) (fun _ => dflt) =
  xorb (existsb bad (take k (rob_queue r))) d.
Proof.
  intros I Hk Hb. rewrite ring_scan_window by apply I. fold (rob_queue r).
  eapply scan_before; eauto using rob_tags_NoDup. intros a Ha. apply Hb. by eapply rob_queue_valid.
Qed.

Definition is_issued (e : RobEntry) : bool := bool_decide (re_state e = Issued).
(** A pending memory access in the predecessor set of a FENCE. *)
Definition pending_pred (pred_r pred_w : bool) (e : RobEntry) : bool :=
  is_issued e && ((pred_r && mem_read (re_ctrl e)) || (pred_w && mem_write (re_ctrl e))).

(** C6. The issue gates look at exactly the older instructions.  For the
    in-flight instruction [e] at position [k]: [all_before_completed] holds iff
    no older one is still executing; [fence_pred_satisfied] holds iff no older
    load (with [pred_r]) or store (with [pred_w]) is still executing; and
    [has_fence_blocking] holds iff an older FENCE orders this kind of access. *)
Theorem rob_gates_exact r ss n k e pred_r pred_w is_load is_store :
  rob_reach r ss n -> rob_queue r !! k = Some e ->
  (rob_all_before_completed r (re_tag e) = false <->
     exists j e', (j < k)%nat /\ rob_queue r !! j = Some e' /\ is_issued e' = true) /\
  (rob_fence_pred_satisfied r (re_tag e) pred_r pred_w = false <->
     exists j e', (j < k)%nat /\ rob_queue r !! j = Some e' /\ pending_pred pred_r pred_w e' = true) /\
  (rob_has_fence_blocking r (re_tag e) is_load is_store = true <->
     exists j e', (j < k)%nat /\ rob_queue r !! j = Some e' /\ fence_blocks is_load is_store e' = true).
Proof.
  intros I%rob_reach_inv Hk.
  assert (rob_count r <> 0%nat) as Hz.
  { apply lookup_lt_Some in Hk. rewrite length_rob_queue in Hk. lia. }
  unfold rob_all_before_completed, rob_fence_pred_satisfied, rob_has_fence_blocking.
  rewrite (proj2 (Nat.eqb_neq _ _) Hz). rewrite <-!existsb_take. split_and!.
  - rewrite (rob_scan_gate _ _ _ _ is_issued true k e true I Hk); [by destruct (existsb _ _)|].
    intros a Ha. unfold all_before_body, is_issued. rewrite Ha.
    destruct (_ =? _); [done|]. by case_decide; case_bool_decide.
  - destruct (negb pred_r && negb pred_w) eqn:Ep.
    + split; [done|]. rewrite existsb_take. intros (j & e' & _ & _ & Hp). exfalso.
      unfold pending_pred in Hp. destruct pred_r, pred_w; simpl in *; try done.
      by rewrite andb_false_r in Hp.
    + rewrite (rob_scan_gate _ _ _ _ (pending_pred pred_r pred_w) true k e true I Hk);
        [by destruct (existsb _ _)|].
      intros a Ha. unfold fence_pred_body, pending_pred, is_issued. rewrite Ha.
      destruct (_ =? _); [done|]. by case_decide; case_bool_decide.
  - simpl. destruct (negb is_load && negb is_store) eqn:Ep.
    + split; [done|]. rewrite existsb_take. intros (j & e' & _ & _ & Hp). exfalso.
      unfold fence_blocks in Hp. case_decide; [|done]. by destruct is_load, is_store.
    + rewrite (rob_scan_gate _ _ _ _ (fence_blocks is_load is_store) false k e false I Hk);
        [by rewrite xorb_false_r|].
      intros a Ha. unfold fence_blocking_body. rewrite Ha. by destruct (_ =? _).
Qed.

(** ** Witnesses *)

Definition demo_ctrl : ControlSignals :=
  ControlSignals_default <| reg_write := true |> <| mem_read := true |>.
Definition demo_fence : ControlSignals := ControlSignals_default <| system_op := Fence |>.

(** Two loads to x5 around a FENCE rw,rw; the older load completes and retires,
    a third load takes the freed slot, the buffer is flushed back to the FENCE. *)
Definition demo_ops : list rob_op :=
  [OpAllocate 0x1000 0 Standard 5 false demo_ctrl 40 5;
   OpAllocate 0x1004 0x0330000F Standard 0 false demo_fence 0 0;
   OpAllocate 0x1008 0 Standard 5 false demo_ctrl 41 40;
   OpAllocate 0x100C 0 Standard 6 false demo_ctrl 42 6;
   OpComplete 1 77; OpCommitHead;
   OpAllocate 0x100C 0 Standard 6 false demo_ctrl 42 6;
   OpComplete 3 99].

Definition demo_rob : Rob := (rob_run (rob_new 3) demo_ops).1.

Lemma demo_in_span : run_in_span (rob_new 3) [] 0 demo_ops.
Proof. apply (bool_decide_unpack _). by vm_compute. Qed.

Lemma rob_run_reach ops r ss n :
  rob_reach r ss n -> run_in_span r ss n ops ->
  rob_reach (rob_run r ops).1 (foldl (fun '(r, ss, n) op =>
      ((rob_exec r op).1, (seqs_after r ss n op).1, (seqs_after r ss n op).2)) (r, ss, n) ops).1.2
    (foldl (fun '(r, ss, n) op =>
      ((rob_exec r op).1, (seqs_after r ss n op).1, (seqs_after r ss n op).2)) (r, ss, n) ops).2.
Proof.
  revert r ss n. induction ops as [|op ops IH]; intros r ss n Hr Hsp; [done|].
  destruct Hsp as [Hop Hsp]. specialize (IH _ _ _ (reach_step _ _ _ _ Hr Hop) Hsp). simpl.
  destruct (rob_exec r op) as [r' x]. simpl in *. by destruct (rob_run r' ops).
Qed.

Lemma demo_reach : rob_reach demo_rob [1; 2; 3] 4.
Proof. exact (rob_run_reach demo_ops (rob_new 3) [] 0 (reach_new 3 ltac:(lia)) demo_in_span). Qed.

Lemma rob_refines_queue_witness :
  q_run {| q_cap := 3; q_entries := []; q_next_tag := 1 |} demo_ops =
  (rob_abs demo_rob, (rob_run (rob_new 3) demo_ops).2).
Proof. apply rob_refines_queue; [lia|exact demo_in_span]. Defined.

Lemma rob_commits_in_order_witness :
  committed_tags (rob_run (rob_new 3) demo_ops).2 = [1] /\
  committed_tags (rob_run (rob_new 3) demo_ops).2 `sublist_of`
  allocated_tags (rob_run (rob_new 3) demo_ops).2.
Proof. split; [reflexivity|]. apply rob_commits_in_order; [lia|exact demo_in_span]. Defined.

Lemma rob_flush_after_iter_after_witness :
  re_tag <$> rob_queue (rob_flush_after demo_rob 2) = [2] /\
  re_tag <$> rob_iter_after demo_rob 2 = [3; 4].
Proof.
  destruct (rob_flush_after_iter_after demo_rob [1; 2; 3] 4 0
    (rob_queue demo_rob !!! 0%nat) demo_reach eq_refl) as [H1 H2].
  change (re_tag (rob_queue demo_rob !!! 0%nat)) with 2 in H1, H2.
  rewrite H1, H2. split; reflexivity.
Defined.

Lemma rob_find_latest_result_youngest_witness :
  rob_find_latest_result demo_rob 5 false = Some 99.
Proof.
  apply (rob_find_latest_result_youngest demo_rob [1; 2; 3] 4 5 false 99 demo_reach).
  split; [right; lia|]. exists 1%nat, (rob_queue demo_rob !!! 1%nat).
  split_and!; try reflexivity. intros [|[|[|j]]] e' Hj He'; try lia; vm_compute in He'; [|done].
  injection He' as <-. reflexivity.
Defined.

Lemma rob_gates_exact_witness :
  rob_has_fence_blocking demo_rob 3 true false = true /\
  rob_all_before_completed demo_rob 3 = false.
Proof.
  destruct (rob_gates_exact demo_rob [1; 2; 3] 4 1 (rob_queue demo_rob !!! 1%nat)
    true true true false demo_reach eq_refl) as (H1 & _ & H3).
  change (re_tag (rob_queue demo_rob !!! 1%nat)) with 3 in H1, H3. split.
  - apply H3. exists 0%nat, (rob_queue demo_rob !!! 0%nat). split; [lia|]. split; reflexivity.
  - apply H1. exists 0%nat, (rob_queue demo_rob !!! 0%nat). split; [lia|]. split; reflexivity.
Defined.
