(* ===== verification/StoreBuffer.v ===== *)
(** The store buffer of [core/pipeline/store_buffer.rs]: a FIFO of stores that
    have not reached memory, with store-to-load forwarding.  The model is
    followed by the functional lemmas; [StoreBufferSpec.v] relates forwarding to a
    byte memory. *)
From S2P Require Import Prelude Ring Common Rob.

Set Primitive Projections.
Local Open Scope Z_scope.

(** ** Data *)

Inductive ForwardResult := FwdHit (v : Z) | FwdMiss | FwdStall.

Inductive StoreResolution :=
| SPending
| SReady (paddr data : Z)
| SCommitted (paddr data : Z)
| SCancelled.

Definition sr_is_committed (r : StoreResolution) : bool :=
  match r with SCommitted _ _ | SCancelled => true | _ => false end.
Definition sr_is_pending (r : StoreResolution) : bool :=
  match r with SPending => true | _ => false end.
Definition sr_paddr (r : StoreResolution) : option Z :=
  match r with SReady p _ | SCommitted p _ => Some p | _ => None end.

Record StoreBufferEntry := {
  sb_rob_tag : Z;
  sb_vaddr : Z;
  sb_width : MemWidth;
  sb_resolution : StoreResolution;
  sb_valid : bool
}.
Definition StoreBufferEntry_default : StoreBufferEntry :=
  {| sb_rob_tag := 0; sb_vaddr := 0; sb_width := WNop; sb_resolution := SPending; sb_valid := false |}.
#[export] Instance StoreBufferEntry_inhabited : Inhabited StoreBufferEntry :=
  populate StoreBufferEntry_default.

Record StoreBuffer := {
  sb_entries : list StoreBufferEntry;
  sb_head : nat;
  sb_tail : nat;
  sb_count : nat
}.

Definition sb_new (capacity : nat) : StoreBuffer :=
  {| sb_entries := replicate capacity StoreBufferEntry_default; sb_head := 0; sb_tail := 0; sb_count := 0 |}.

Definition sb_capacity (self : StoreBuffer) : nat := length (sb_entries self).
Definition sb_len (self : StoreBuffer) : nat := sb_count self.
Definition sb_is_empty (self : StoreBuffer) : bool := (sb_count self =? 0)%nat.
Definition sb_is_full (self : StoreBuffer) : bool := (sb_count self =? length (sb_entries self))%nat.
Definition sb_free_slots (self : StoreBuffer) : nat := (length (sb_entries self) - sb_count self)%nat.

(** ** Allocation, resolution, commit *)

Definition sb_new_entry (rob_tag : Z) (w : MemWidth) : StoreBufferEntry :=
  {| sb_rob_tag := rob_tag; sb_vaddr := 0; sb_width := w; sb_resolution := SPending; sb_valid := true |}.

Definition sb_allocate (self : StoreBuffer) (rob_tag : Z) (w : MemWidth) : StoreBuffer * bool :=
  if sb_is_full self then (self, false) else
  ({| sb_entries := <[sb_tail self := sb_new_entry rob_tag w]> (sb_entries self);
      sb_head := sb_head self;
      sb_tail := ring_next (length (sb_entries self)) (sb_tail self);
      sb_count := S (sb_count self) |}, true).

Definition sb_matches (rob_tag : Z) (e : StoreBufferEntry) : bool :=
  sb_valid e && (sb_rob_tag e =? rob_tag).

Definition sb_find_by_tag_mut (self : StoreBuffer) (rob_tag : Z) : option nat :=
  ring_find (sb_matches rob_tag) (sb_entries self) (sb_count self) (sb_head self).

Definition sb_modify (self : StoreBuffer) (rob_tag : Z) (edit : StoreBufferEntry -> StoreBufferEntry)
    : StoreBuffer :=
  self <| sb_entries := match sb_find_by_tag_mut self rob_tag with
                        | Some idx => <[idx := edit (sb_entries self !!! idx)]> (sb_entries self)
                        | None => sb_entries self
                        end |>.

Definition edit_resolve (vaddr paddr data : Z) (e : StoreBufferEntry) : StoreBufferEntry :=
  e <| sb_vaddr := vaddr |> <| sb_resolution := SReady paddr data |>.
Definition sb_resolve (self : StoreBuffer) (rob_tag vaddr paddr data : Z) : StoreBuffer :=
  sb_modify self rob_tag (edit_resolve vaddr paddr data).

(** The [debug_assert!] that the entry is [Ready] is not compiled in release builds. *)
Definition edit_commit (e : StoreBufferEntry) : StoreBufferEntry :=
  match sb_resolution e with
  | SReady paddr data => e <| sb_resolution := SCommitted paddr data |>
  | _ => e
  end.
Definition sb_mark_committed (self : StoreBuffer) (rob_tag : Z) : StoreBuffer :=
  sb_modify self rob_tag edit_commit.

(** ** Queries *)

Definition sb_has_committed_stores (self : StoreBuffer) : bool :=
  if (sb_count self =? 0)%nat then false else
  after_loop (ring_scan (fun _ e (_ : unit) =>
      if sb_valid e && sr_is_committed (sb_resolution e) then Return true else Continue tt)
    (sb_entries self) (sb_count self) (sb_head self) tt) (fun _ => false).

(** Loop body of [forward_load]. *)
Definition forward_body (load_size load_start load_end load_rob_tag : Z)
    (e : StoreBufferEntry) (_ : unit) : flow unit ForwardResult :=
  if sb_valid e then
    if negb (is_older_than (sb_rob_tag e) load_rob_tag) then Continue tt
    else match sb_resolution e with
         | SReady store_paddr store_data | SCommitted store_paddr store_data =>
             let store_size := width_to_bytes (sb_width e) in
             let store_start := store_paddr in
             let store_end := add64 store_start store_size in
             if (load_start <? store_end) && (store_start <? load_end) then
               if (store_start <=? load_start) && (load_end <=? store_end) then
                 let offset := u32 (sub64 load_start store_start) in
                 let shifted := Z.shiftr store_data (offset * 8) in
                 let mask := if 8 <=? load_size then U64_MAX else sub64 (shl64 1 (load_size * 8)) 1 in
                 Return (FwdHit (Z.land shifted mask))
               else Return FwdStall
             else Continue tt
         | _ => Continue tt
         end
  else Continue tt.

Definition sb_forward_load (self : StoreBuffer) (paddr : Z) (w : MemWidth) (load_rob_tag : Z)
    : ForwardResult :=
  let load_size := width_to_bytes w in
  let load_start := paddr in
  let load_end := add64 load_start load_size in
  after_loop (ring_scan_back (fun _ => forward_body load_size load_start load_end load_rob_tag)
    (sb_entries self) (sb_count self)
    (ring_prev (length (sb_entries self)) (sb_tail self)) tt) (fun _ => FwdMiss).

Definition sb_has_unresolved_store_before (self : StoreBuffer) (rob_tag : Z) : bool :=
  if (sb_count self =? 0)%nat then false else
  after_loop (ring_scan (fun _ e (_ : unit) =>
      if sb_valid e && is_older_than (sb_rob_tag e) rob_tag && sr_is_pending (sb_resolution e)
      then Return true else Continue tt)
    (sb_entries self) (sb_count self) (sb_head self) tt) (fun _ => false).

Definition sb_is_unresolved (self : StoreBuffer) (rob_tag : Z) : bool :=
  if (sb_count self =? 0)%nat then false else
  after_loop (ring_scan (fun _ e (_ : unit) =>
      if sb_matches rob_tag e then Return (sr_is_pending (sb_resolution e)) else Continue tt)
    (sb_entries self) (sb_count self) (sb_head self) tt) (fun _ => false).

(** Loop body of [has_older_store_to]. *)
Definition older_store_body (load_start load_end rob_tag : Z) (e : StoreBufferEntry) (_ : unit)
    : flow unit bool :=
  if sb_valid e && is_older_than (sb_rob_tag e) rob_tag then
    match sb_resolution e with
    | SPending => Return true
    | SReady store_paddr _ | SCommitted store_paddr _ =>
        let store_size := width_to_bytes (sb_width e) in
        let store_start := store_paddr in
        let store_end := add64 store_start store_size in
        if (load_start <? store_end) && (store_start <? load_end) then Return true else Continue tt
    | SCancelled => Continue tt
    end
  else Continue tt.

Definition sb_has_older_store_to (self : StoreBuffer) (paddr : Z) (w : MemWidth) (rob_tag : Z) : bool :=
  if (sb_count self =? 0)%nat then false else
  let load_size := width_to_bytes w in
  let load_start := paddr in
  let load_end := add64 load_start load_size in
  after_loop (ring_scan (fun _ => older_store_body load_start load_end rob_tag)
    (sb_entries self) (sb_count self) (sb_head self) tt) (fun _ => false).

Definition sb_find_paddr (self : StoreBuffer) (rob_tag : Z) : option Z :=
  after_loop (ring_scan (fun _ e (_ : unit) =>
      if sb_matches rob_tag e then Return (sr_paddr (sb_resolution e)) else Continue tt)
    (sb_entries self) (sb_count self) (sb_head self) tt) (fun _ => None).

(** ** Drain, flush, cancel *)

Definition sb_invalidate (e : StoreBufferEntry) : StoreBufferEntry := e <| sb_valid := false |>.

Definition sb_drain_one (self : StoreBuffer) : StoreBuffer * option StoreBufferEntry :=
  if (sb_count self =? 0)%nat then (self, None) else
  let entry := sb_entries self !!! sb_head self in
  if negb (sb_valid entry) || negb (sr_is_committed (sb_resolution entry)) then (self, None) else
  let drained := entry in
  ({| sb_entries := <[sb_head self := sb_invalidate entry]> (sb_entries self);
      sb_head := ring_next (length (sb_entries self)) (sb_head self);
      sb_tail := sb_tail self;
      sb_count := (sb_count self - 1)%nat |}, Some drained).

(** The shared loop of [flush_speculative] and [flush_after]. *)
Definition sb_keep_only (keep : StoreBufferEntry -> bool) (self : StoreBuffer) : StoreBuffer :=
  if (sb_count self =? 0)%nat then self else
  let '(es, new_tail, new_count) :=
    ring_compact keep sb_invalidate (sb_entries self) (sb_count self) (sb_head self) (sb_head self) 0 in
  {| sb_entries := es; sb_head := sb_head self; sb_tail := new_tail; sb_count := new_count |}.

Definition sb_flush_speculative (self : StoreBuffer) : StoreBuffer :=
  sb_keep_only (fun e => sb_valid e && sr_is_committed (sb_resolution e)) self.

Definition sb_flush_after (self : StoreBuffer) (keep_tag : Z) : StoreBuffer :=
  sb_keep_only (fun e => sb_valid e && is_older_or_eq (sb_rob_tag e) keep_tag) self.

Definition sb_flush_all (self : StoreBuffer) : StoreBuffer :=
  {| sb_entries := sb_invalidate <$> sb_entries self; sb_head := 0; sb_tail := 0; sb_count := 0 |}.

Definition sb_cancel (self : StoreBuffer) (rob_tag : Z) : StoreBuffer :=
  match sb_find_by_tag_mut self rob_tag with
  | None => self
  | Some idx =>
      let prev_tail := ring_prev (length (sb_entries self)) (sb_tail self) in
      if (idx =? prev_tail)%nat then
        {| sb_entries := <[idx := sb_invalidate (sb_entries self !!! idx)]> (sb_entries self);
           sb_head := sb_head self; sb_tail := prev_tail; sb_count := (sb_count self - 1)%nat |}
      else self <| sb_entries := <[idx := (sb_entries self !!! idx) <| sb_resolution := SCancelled |>]>
                                   (sb_entries self) |>
  end.
