(* ===== verification/StoreBufferSpec.v ===== *)
(** The store buffer as a FIFO of stores: invariant, refinement of a list of
    entries by every operation, program-order draining, and the exactness of
    the hazard queries that gate loads, LR and AMO. *)
From S2P Require Import Prelude Ring Common Rob StoreBuffer.

Local Open Scope Z_scope.

Definition sb_queue (b : StoreBuffer) : list StoreBufferEntry :=
  window (sb_entries b) (sb_head b) (sb_count b).

Record sb_inv (b : StoreBuffer) : Prop := {
  sb_ring : ring_wf (sb_entries b) (sb_head b) (sb_tail b) (sb_count b);
  sb_all_valid : Forall (fun e => sb_valid e = true) (sb_queue b)
}.

Inductive sb_op :=
| SbAllocate (tag : Z) (w : MemWidth)
| SbResolve (tag vaddr paddr data : Z)
| SbMarkCommitted (tag : Z)
| SbDrainOne
| SbFlushSpeculative
| SbFlushAfter (keep_tag : Z)
| SbFlushAll
| SbCancel (tag : Z).

Inductive sb_ret := SbUnit | SbBool (b : bool) | SbDrained (e : option StoreBufferEntry).

Definition sb_exec (b : StoreBuffer) (op : sb_op) : StoreBuffer * sb_ret :=
  match op with
  | SbAllocate tag w => let '(b', ok) := sb_allocate b tag w in (b', SbBool ok)
  | SbResolve tag va pa d => (sb_resolve b tag va pa d, SbUnit)
  | SbMarkCommitted tag => (sb_mark_committed b tag, SbUnit)
  | SbDrainOne => let '(b', e) := sb_drain_one b in (b', SbDrained e)
  | SbFlushSpeculative => (sb_flush_speculative b, SbUnit)
  | SbFlushAfter tag => (sb_flush_after b tag, SbUnit)
  | SbFlushAll => (sb_flush_all b, SbUnit)
  | SbCancel tag => (sb_cancel b tag, SbUnit)
  end.

(** The same operations on a plain list of entries, oldest first. *)
Definition fifo_exec (cap : nat) (l : list StoreBufferEntry) (op : sb_op)
    : list StoreBufferEntry * sb_ret :=
  match op with
  | SbAllocate tag w => if (length l =? cap)%nat then (l, SbBool false)
                        else (l ++ [sb_new_entry tag w], SbBool true)
  | SbResolve tag va pa d => (modify_first (sb_matches tag) (edit_resolve va pa d) l, SbUnit)
  | SbMarkCommitted tag => (modify_first (sb_matches tag) edit_commit l, SbUnit)
  | SbDrainOne =>
      match l with
      | e :: l' => if sr_is_committed (sb_resolution e) then (l', SbDrained (Some e))
                   else (l, SbDrained None)
      | [] => ([], SbDrained None)
      end
  | SbFlushSpeculative => (filter (fun e => sr_is_committed (sb_resolution e) = true) l, SbUnit)
  | SbFlushAfter tag => (filter (fun e => is_older_or_eq (sb_rob_tag e) tag = true) l, SbUnit)
  | SbFlushAll => ([], SbUnit)
  | SbCancel tag =>
      (match list_find (fun e => sb_matches tag e = true) l with
       | Some (k, e) => if (S k =? length l)%nat then take k l
                        else <[k := e <| sb_resolution := SCancelled |>]> l
       | None => l
       end, SbUnit)
  end.

(** ** Refinement *)

Lemma sb_new_inv cap : (0 < cap)%nat -> sb_inv (sb_new cap).
Proof. intros. constructor; [by apply ring_new|done]. Qed.

Lemma sb_count_0 b : sb_count b = 0%nat -> sb_queue b = [].
Proof. intros E. unfold sb_queue. by rewrite E. Qed.

Lemma length_sb_queue b : length (sb_queue b) = sb_count b.
Proof. apply length_window. Qed.

Lemma Forall_modify_first (p : StoreBufferEntry -> bool) f l :
  (forall e, sb_valid (f e) = sb_valid e) ->
  Forall (fun e => sb_valid e = true) l -> Forall (fun e => sb_valid e = true) (modify_first p f l).
Proof.
  intros Hf. induction 1 as [|e l He Hl IH]; simpl; [done|]. destruct (p e); constructor; try done.
  by rewrite Hf.
Qed.

Lemma sb_modify_refines b tag edit :
  sb_inv b -> (forall e, sb_valid (edit e) = sb_valid e) ->
  sb_inv (sb_modify b tag edit) /\ sb_capacity (sb_modify b tag edit) = sb_capacity b /\
  sb_queue (sb_modify b tag edit) = modify_first (sb_matches tag) edit (sb_queue b).
Proof.
  intros [W V] Hf. pose proof (ring_modify_first (sb_matches tag) edit _ _ _ _ W) as (W' & Hl & Hw).
  assert (sb_queue (sb_modify b tag edit) = modify_first (sb_matches tag) edit (sb_queue b)) as Hq
    by exact Hw.
  split_and!; [|exact Hl|exact Hq]. constructor; [exact W'|]. rewrite Hq.
  by apply Forall_modify_first.
Qed.

Lemma sb_keep_only_refines b keep :
  sb_inv b ->
  sb_inv (sb_keep_only keep b) /\ sb_capacity (sb_keep_only keep b) = sb_capacity b /\
  sb_queue (sb_keep_only keep b) = filter (fun e => keep e = true) (sb_queue b).
Proof.
  intros I. pose proof I as [W V]. unfold sb_keep_only.
  destruct (Nat.eqb_spec (sb_count b) 0) as [E|E]; [by rewrite (sb_count_0 _ E)|].
  pose proof (ring_compact_window keep sb_invalidate _ _ _ _ W) as H.
  destruct (ring_compact _ _ _ _ _ _ _) as [[es tl] c]. destruct H as (W' & Hl & Hw).
  split_and!; [|exact Hl|exact Hw]. constructor; [exact W'|]. unfold sb_queue. simpl. rewrite Hw.
  rewrite Forall_forall in *. intros e He. apply V. by apply list_elem_of_filter in He as [_ ?].
Qed.

Lemma sb_filter_valid b (p : StoreBufferEntry -> bool) :
  sb_inv b -> filter (fun e => sb_valid e && p e = true) (sb_queue b) = filter (fun e => p e = true) (sb_queue b).
Proof.
  intros [_ V]. induction V as [|e l He Hl IH]; [done|]. rewrite !filter_cons, He, IH. done.
Qed.

Lemma sb_cancel_refines b tag :
  sb_inv b ->
  sb_inv (sb_cancel b tag) /\ sb_capacity (sb_cancel b tag) = sb_capacity b /\
  sb_queue (sb_cancel b tag) = (fifo_exec (sb_capacity b) (sb_queue b) (SbCancel tag)).1.
Proof.
  intros I. pose proof I as [W V]. pose proof W as [Hc Hh Hn Ht].
  unfold sb_cancel, sb_find_by_tag_mut. simpl.
  pose proof (ring_find_spec (sb_matches tag) (sb_entries b) (sb_count b) (sb_head b) Hh Hn) as Hf.
  fold (sb_queue b) in Hf. destruct (ring_find _ _ _ _) as [idx|].
  2: { assert (list_find (fun e => sb_matches tag e = true) (sb_queue b) = None) as ->; [|done].
       apply list_find_None, Forall_forall. intros e (j & Hj)%list_elem_of_lookup.
       by rewrite (Hf _ _ Hj). }
  destruct Hf as (k & Hk & -> & Hw & Hp & Hj).
  assert (list_find (fun e => sb_matches tag e = true) (sb_queue b) =
    Some (k, sb_entries b !!! ring_slot (length (sb_entries b)) (sb_head b) k)) as ->.
  { apply list_find_Some. split_and!; [done|done|]. intros j e He Hjk. by rewrite (Hj j e). }
  set (slot := ring_slot (length (sb_entries b)) (sb_head b) k) in *.
  rewrite length_sb_queue, Ht.
  destruct (sb_count b) as [|c] eqn:Ec; [lia|]. rewrite ring_prev_slot by lia.
  destruct (Nat.eqb_spec slot (ring_slot (length (sb_entries b)) (sb_head b) c)) as [E|E].
  - apply ring_slot_inj in E as ->; [|lia..]. rewrite Nat.eqb_refl, Nat.sub_succ, Nat.sub_0_r.
    assert (window (<[slot := sb_invalidate (sb_entries b !!! slot)]> (sb_entries b)) (sb_head b) c =
      take c (sb_queue b)) as Hq.
    { unfold sb_queue. rewrite Ec, window_take by lia. apply window_insert_out; lia. }
    split_and!; [|apply length_insert|exact Hq].
    constructor; simpl; [constructor; rewrite ?length_insert; done || lia|].
    unfold sb_queue at 1. simpl. rewrite Hq. by apply Forall_take.
  - assert (k <> c) as Hkc by (intros ->; done).
    change (S k =? S c)%nat with (k =? c)%nat. rewrite (proj2 (Nat.eqb_neq k c) Hkc).
    assert (sb_queue (b <| sb_entries := <[slot := (sb_entries b !!! slot) <| sb_resolution := SCancelled |>]> (sb_entries b) |>)
      = <[k := (sb_entries b !!! slot) <| sb_resolution := SCancelled |>]> (sb_queue b)) as Hq.
    { unfold sb_queue. simpl. apply window_insert_in; lia. }
    split_and!; [|apply length_insert|exact Hq].
    assert (forall e, ring_wf (<[slot := e]> (sb_entries b)) (sb_head b) (sb_tail b) (sb_count b)) as W'
      by (intros; rewrite Ec; constructor; rewrite ?length_insert; done).
    constructor; [exact (W' _)|].
    refine (eq_ind_r (Forall (fun e => sb_valid e = true)) _ Hq). apply Forall_insert; [done|]. simpl.
    rewrite Forall_forall in V. apply V. by eapply list_elem_of_lookup_2.
Qed.

Lemma sb_drain_refines b :
  sb_inv b ->
  sb_inv (sb_drain_one b).1 /\ sb_capacity (sb_drain_one b).1 = sb_capacity b /\
  (sb_queue (sb_drain_one b).1, SbDrained (sb_drain_one b).2) =
  fifo_exec (sb_capacity b) (sb_queue b) SbDrainOne.
Proof.
  intros I. pose proof I as [W V]. unfold sb_drain_one.
  destruct (sb_count b) as [|c] eqn:Ec.
  { simpl. by rewrite (sb_count_0 _ Ec). }
  pose proof (ring_pop _ _ _ _ (sb_invalidate (sb_entries b !!! sb_head b)) W) as [W' Hw].
  assert (sb_queue b = sb_entries b !!! sb_head b ::
    window (<[sb_head b := sb_invalidate (sb_entries b !!! sb_head b)]> (sb_entries b))
      (ring_next (length (sb_entries b)) (sb_head b)) c) as Hq by (unfold sb_queue; by rewrite Ec).
  rewrite Hq in V. apply Forall_cons in V as [Hv V]. simpl. rewrite Hq, Hv. simpl.
  destruct (sr_is_committed _); simpl; [|by rewrite Hq].
  rewrite Nat.sub_0_r. split_and!; [|apply length_insert|done]. by constructor.
Qed.

Lemma sb_exec_refines b op :
  sb_inv b ->
  sb_inv (sb_exec b op).1 /\ sb_capacity (sb_exec b op).1 = sb_capacity b /\
  fifo_exec (sb_capacity b) (sb_queue b) op = (sb_queue (sb_exec b op).1, (sb_exec b op).2).
Proof.
  intros I. pose proof I as [W V]. pose proof W as [Hc Hh Hn Ht]. destruct op; simpl.
  - unfold sb_allocate. rewrite length_sb_queue.
    change (sb_count b =? sb_capacity b)%nat with (sb_is_full b).
    destruct (sb_is_full b) eqn:Ef; [done|]. apply Nat.eqb_neq in Ef.
    pose proof (ring_push _ _ _ _ (sb_new_entry tag w) W ltac:(lia)) as [W' Hw].
    split_and!; [|apply length_insert|unfold sb_queue; simpl; by rewrite Hw].
    constructor; [exact W'|]. unfold sb_queue. simpl. rewrite Hw. apply Forall_app. by repeat constructor.
  - destruct (sb_modify_refines b tag (edit_resolve vaddr paddr data) I) as (I' & Hl & Hq); [done|].
    unfold sb_resolve. by rewrite Hq.
  - destruct (sb_modify_refines b tag edit_commit I) as (I' & Hl & Hq).
    { intros e. unfold edit_commit. by destruct (sb_resolution e). }
    unfold sb_mark_committed. by rewrite Hq.
  - destruct (sb_drain_refines b I) as (I' & Hl & Hq). by destruct (sb_drain_one b).
  - unfold sb_flush_speculative.
    destruct (sb_keep_only_refines b (fun e => sb_valid e && sr_is_committed (sb_resolution e)) I) as (I' & Hl & Hq).
    rewrite Hq, (sb_filter_valid b (fun e => sr_is_committed (sb_resolution e)) I). done.
  - unfold sb_flush_after.
    destruct (sb_keep_only_refines b (fun e => sb_valid e && is_older_or_eq (sb_rob_tag e) keep_tag) I) as (I' & Hl & Hq).
    rewrite Hq, (sb_filter_valid b (fun e => is_older_or_eq (sb_rob_tag e) keep_tag) I). done.
  - split_and!; [|apply length_fmap|done]. constructor; [|done]. by eapply ring_clear.
  - destruct (sb_cancel_refines b tag I) as (I' & Hl & Hq). by rewrite Hq.
Qed.

(** ** Runs *)

Fixpoint sb_run (b : StoreBuffer) (ops : list sb_op) : StoreBuffer * list sb_ret :=
  match ops with
  | [] => (b, [])
  | op :: ops' => let '(b', x) := sb_exec b op in
                  let '(b'', xs) := sb_run b' ops' in (b'', x :: xs)
  end.

Fixpoint fifo_run (cap : nat) (l : list StoreBufferEntry) (ops : list sb_op)
    : list StoreBufferEntry * list sb_ret :=
  match ops with
  | [] => (l, [])
  | op :: ops' => let '(l', x) := fifo_exec cap l op in
                  let '(l'', xs) := fifo_run cap l' ops' in (l'', x :: xs)
  end.

Lemma sb_run_refines b ops :
  sb_inv b ->
  sb_inv (sb_run b ops).1 /\
  fifo_run (sb_capacity b) (sb_queue b) ops = (sb_queue (sb_run b ops).1, (sb_run b ops).2).
Proof.
  revert b. induction ops as [|op ops IH]; intros b I; [done|].
  destruct (sb_exec_refines b op I) as (I' & Hl & Hq). simpl. rewrite Hq.
  destruct (sb_exec b op) as [b' x]. simpl in *. destruct (IH b' I') as [I'' H].
  rewrite Hl in H. rewrite H. by destruct (sb_run b' ops).
Qed.

(** C7. The store buffer refines a FIFO list: any sequence of allocate, resolve,
    mark_committed, drain_one, flush_speculative, flush_after, flush_all and
    cancel, from an empty buffer of positive capacity, returns what the list
    operations return and leaves the same stores in the same order, although
    the circular buffer compacts and retracts slots in place. *)
Theorem sb_refines_fifo (capacity : nat) (ops : list sb_op) :
  (0 < capacity)%nat ->
  fifo_run capacity [] ops =
  (sb_queue (sb_run (sb_new capacity) ops).1, (sb_run (sb_new capacity) ops).2).
Proof.
  intros Hc. destruct (sb_run_refines (sb_new capacity) ops (sb_new_inv _ Hc)) as [_ <-].
  unfold sb_capacity. simpl. by rewrite length_replicate.
Qed.

(** ** Program-order draining *)

Definition drained_entries (rets : list sb_ret) : list StoreBufferEntry :=
  omap (fun x => match x with SbDrained e => e | _ => None end) rets.
(** The tags of the successful allocations of a run. *)
Fixpoint accepted_tags (ops : list sb_op) (rets : list sb_ret) : list Z :=
  match ops, rets with
  | SbAllocate tag _ :: ops', SbBool true :: rets' => tag :: accepted_tags ops' rets'
  | _ :: ops', _ :: rets' => accepted_tags ops' rets'
  | _, _ => []
  end.

Lemma modify_first_tags p f l :
  (forall e, sb_rob_tag (f e) = sb_rob_tag e) -> sb_rob_tag <$> modify_first p f l = sb_rob_tag <$> l.
Proof.
  intros Hf. induction l as [|e l IH]; [done|]. simpl. destruct (p e); simpl; [by rewrite Hf|by f_equal].
Qed.

Lemma filter_sublist {A} (P : A -> Prop) `{forall x, Decision (P x)} (l : list A) :
  filter P l `sublist_of` l.
Proof.
  induction l as [|a l IH]; [done|]. rewrite filter_cons. case_decide; by constructor.
Qed.

#[local] Arguments Nat.eqb : simpl never.

Lemma fifo_exec_tags cap l op :
  (sb_rob_tag <$> drained_entries [(fifo_exec cap l op).2]) ++ (sb_rob_tag <$> (fifo_exec cap l op).1)
  `sublist_of` (sb_rob_tag <$> l) ++ accepted_tags [op] [(fifo_exec cap l op).2].
Proof.
  destruct op; simpl; rewrite ?app_nil_r.
  - destruct (_ =? _)%nat; simpl; [by rewrite app_nil_r|]. by rewrite fmap_app.
  - by rewrite modify_first_tags.
  - rewrite modify_first_tags; [done|]. intros e. unfold edit_commit. by destruct (sb_resolution e).
  - destruct l as [|e l]; simpl; [done|]. by destruct (sr_is_committed _); simpl; rewrite ?app_nil_r.
  - apply fmap_sublist, filter_sublist.
  - apply fmap_sublist, filter_sublist.
  - apply sublist_nil_l.
  - destruct (list_find _ l) as [[k e]|] eqn:Ef; [|done].
    destruct (_ =? _)%nat; [apply fmap_sublist, sublist_take|].
    apply list_find_Some in Ef as (Hk & _). rewrite list_fmap_insert.
    assert (<[k := sb_rob_tag e]> (sb_rob_tag <$> l) = sb_rob_tag <$> l) as Hid
      by (apply list_insert_id; by rewrite list_lookup_fmap, Hk).
    by refine (eq_ind_r (fun t => t `sublist_of` _) _ Hid).
Qed.

Lemma drained_entries_cons x xs : drained_entries (x :: xs) = drained_entries [x] ++ drained_entries xs.
Proof. unfold drained_entries. by destruct x as [| |[e|]]. Qed.

Lemma accepted_tags_cons op ops x xs :
  accepted_tags (op :: ops) (x :: xs) = accepted_tags [op] [x] ++ accepted_tags ops xs.
Proof. by destruct op, x as [|[|]|]. Qed.

Lemma fifo_run_tags cap l ops :
  (sb_rob_tag <$> drained_entries (fifo_run cap l ops).2) ++ (sb_rob_tag <$> (fifo_run cap l ops).1)
  `sublist_of` (sb_rob_tag <$> l) ++ accepted_tags ops (fifo_run cap l ops).2.
Proof.
  revert l. induction ops as [|op ops IH]; intros l; [simpl; by rewrite app_nil_r|].
  cbn [fifo_run]. pose proof (fifo_exec_tags cap l op) as H1. destruct (fifo_exec cap l op) as [l' x].
  specialize (IH l'). destruct (fifo_run cap l' ops) as [l'' xs]. cbn [fst snd] in *.
  rewrite drained_entries_cons, accepted_tags_cons, fmap_app, <-app_assoc.
  etrans; [apply sublist_app; [done|exact IH]|]. rewrite !app_assoc. by apply sublist_app.
Qed.

Lemma fifo_run_drained_committed cap l ops :
  Forall (fun e => sr_is_committed (sb_resolution e) = true) (drained_entries (fifo_run cap l ops).2).
Proof.
  revert l. induction ops as [|op ops IH]; intros l; [constructor|]. cbn [fifo_run].
  destruct (fifo_exec cap l op) as [l' x] eqn:E. specialize (IH l').
  destruct (fifo_run cap l' ops) as [l'' xs]. cbn [snd] in *. rewrite drained_entries_cons.
  apply Forall_app. split; [|done]. unfold drained_entries.
  destruct op; simpl in E; repeat case_match; injection E as <- <-; simpl; repeat constructor; done.
Qed.

(** Memory is written in program order: over any run, the stores [drain_one]
    hands to memory form a subsequence, in order, of the allocated stores, and
    every one of them was committed (or is a cancelled SC that writes nothing). *)
Theorem sb_drains_in_order (capacity : nat) (ops : list sb_op) :
  (0 < capacity)%nat ->
  let rets := (sb_run (sb_new capacity) ops).2 in
  (sb_rob_tag <$> drained_entries rets) `sublist_of` accepted_tags ops rets /\
  Forall (fun e => sr_is_committed (sb_resolution e) = true) (drained_entries rets).
Proof.
  intros Hc rets. destruct (sb_run_refines (sb_new capacity) ops (sb_new_inv _ Hc)) as [_ Hq].
  pose proof (fifo_run_tags (sb_capacity (sb_new capacity)) (sb_queue (sb_new capacity)) ops) as Ht.
  pose proof (fifo_run_drained_committed (sb_capacity (sb_new capacity)) (sb_queue (sb_new capacity)) ops) as Hd.
  rewrite Hq in Ht, Hd. cbn [fst snd] in Ht, Hd. split; [|exact Hd].
  etrans; [|exact Ht]. by apply sublist_inserts_r.
Qed.

(** ** Hazard queries *)

Definition ranges_overlap (a_start a_end b_start b_end : Z) : bool :=
  (a_start <? b_end) && (b_start <? a_end).

(** An older store that may touch [[start, end_)]: its address is unknown, or overlaps. *)
Definition may_conflict (start end_ tag : Z) (e : StoreBufferEntry) : bool :=
  is_older_than (sb_rob_tag e) tag &&
  match sb_resolution e with
  | SPending => true
  | SReady p _ | SCommitted p _ => ranges_overlap start end_ p (add64 p (width_to_bytes (sb_width e)))
  | SCancelled => false
  end.

Lemma sb_scan_existsb b (body : StoreBufferEntry -> unit -> flow unit bool) (p : StoreBufferEntry -> bool) :
  sb_inv b ->
  (forall e, sb_valid e = true -> body e tt = if p e then Return true else Continue tt) ->
  after_loop (ring_scan (fun _ => body) (sb_entries b) (sb_count b) (sb_head b) tt) (fun _ => false) =
  existsb p (sb_queue b).
Proof.
  intros I Hb. rewrite ring_scan_window by apply I. apply list_scan_existsb.
  intros e He. apply Hb. pose proof (sb_all_valid _ I) as V. rewrite Forall_forall in V. by apply V.
Qed.

(** The hazard queries are exact: a load must wait ([has_unresolved_store_before])
    iff some older store has no address yet; LR/AMO must wait
    ([has_older_store_to]) iff some older store is unresolved or overlaps the
    access; SFENCE.VMA must wait ([has_committed_stores]) iff a committed store
    has not drained. *)
Theorem sb_hazards_exact (b : StoreBuffer) (paddr : Z) (w : MemWidth) (tag : Z) :
  sb_inv b ->
  (sb_has_unresolved_store_before b tag = true <->
     exists e, e ∈ sb_queue b /\ is_older_than (sb_rob_tag e) tag && sr_is_pending (sb_resolution e) = true) /\
  (sb_has_older_store_to b paddr w tag = true <->
     exists e, e ∈ sb_queue b /\ may_conflict paddr (add64 paddr (width_to_bytes w)) tag e = true) /\
  (sb_has_committed_stores b = true <->
     exists e, e ∈ sb_queue b /\ sr_is_committed (sb_resolution e) = true).
Proof.
  intros I. rewrite <-!existsb_elem_of.
  unfold sb_has_unresolved_store_before, sb_has_older_store_to, sb_has_committed_stores.
  destruct (Nat.eqb_spec (sb_count b) 0) as [E|E]; [by rewrite (sb_count_0 _ E)|].
  cbv zeta. split_and!.
  - rewrite (sb_scan_existsb b _ (fun e => is_older_than (sb_rob_tag e) tag && sr_is_pending (sb_resolution e)) I);
      [done|]. intros e He. by rewrite He.
  - rewrite (sb_scan_existsb b _ (may_conflict paddr (add64 paddr (width_to_bytes w)) tag) I); [done|].
    intros e He. unfold older_store_body, may_conflict, ranges_overlap. rewrite He. simpl.
    destruct (is_older_than _ _); [|done]. by destruct (sb_resolution e).
  - rewrite (sb_scan_existsb b _ (fun e => sr_is_committed (sb_resolution e)) I); [done|].
    intros e He. by rewrite He.
Qed.

(** ** Witnesses *)

(** Three stores in a two-entry buffer: the third allocation is refused, the
    first store commits and drains, the second is a failed SC. *)
Definition demo_sb_ops : list sb_op :=
  [SbAllocate 1 WWord; SbAllocate 2 WDouble; SbAllocate 3 WByte;
   SbResolve 1 0x1000 0x8000 0xAABBCCDD; SbMarkCommitted 1; SbDrainOne;
   SbAllocate 3 WByte; SbCancel 2; SbResolve 3 0x2000 0x9001 0x7F; SbMarkCommitted 3; SbDrainOne; SbDrainOne].

Definition demo_sb : StoreBuffer := (sb_run (sb_new 2) (take 9 demo_sb_ops)).1.

Lemma sb_refines_fifo_witness :
  fifo_run 2 [] demo_sb_ops = (sb_queue (sb_run (sb_new 2) demo_sb_ops).1, (sb_run (sb_new 2) demo_sb_ops).2).
Proof. apply sb_refines_fifo. lia. Defined.

Lemma sb_drains_in_order_witness :
  (sb_rob_tag <$> drained_entries (sb_run (sb_new 2) demo_sb_ops).2) = [1; 2; 3] /\
  (sb_rob_tag <$> drained_entries (sb_run (sb_new 2) demo_sb_ops).2) `sublist_of`
     accepted_tags demo_sb_ops (sb_run (sb_new 2) demo_sb_ops).2.
Proof. split; [reflexivity|]. apply (sb_drains_in_order 2 demo_sb_ops). lia. Defined.

Lemma sb_hazards_exact_witness :
  sb_has_older_store_to demo_sb 0x9000 WWord 4 = true.
Proof.
  destruct (sb_hazards_exact demo_sb 0x9000 WWord 4) as (_ & H & _).
  { apply sb_run_refines, sb_new_inv. lia. }
  apply H. exists (sb_queue demo_sb !!! 1%nat). split; [|reflexivity].
  apply (list_elem_of_lookup_2 _ 1). reflexivity.
Defined.

(** Store-to-load forwarding against a byte memory.  A load must see memory as
    if every older resolved store in the buffer had already been written; the
    theorem says [forward_load] answers exactly that. *)
(** ** Byte memory *)

Definition store_mem (m : Z -> Z) (addr n data : Z) : Z -> Z :=
  fun a => if (addr <=? a) && (a <? addr + n) then Z.shiftr data (8 * (a - addr)) mod 256 else m a.

(** Little-endian load of [n] bytes. *)
Fixpoint load_mem (m : Z -> Z) (addr : Z) (n : nat) : Z :=
  match n with
  | O => 0
  | S n' => m addr mod 256 + 256 * load_mem m (addr + 1) n'
  end.

Definition width_bytes (w : MemWidth) : nat := Z.to_nat (width_to_bytes w).

(** Memory after the stores of [l] older than [tag] with a resolved address. *)
Definition apply_older (tag : Z) (m : Z -> Z) (e : StoreBufferEntry) : Z -> Z :=
  if is_older_than (sb_rob_tag e) tag then
    match sb_resolution e with
    | SReady p d | SCommitted p d => store_mem m p (width_to_bytes (sb_width e)) d
    | _ => m
    end
  else m.
Definition older_memory (tag : Z) (m : Z -> Z) (l : list StoreBufferEntry) : Z -> Z :=
  foldl (apply_older tag) m l.

(** A resolved older store and the address range it writes. *)
Definition older_range (tag : Z) (e : StoreBufferEntry) : option (Z * Z) :=
  if is_older_than (sb_rob_tag e) tag then
    match sr_paddr (sb_resolution e) with
    | Some p => Some (p, p + width_to_bytes (sb_width e))
    | None => None
    end
  else None.
Definition range_overlaps (lo hi : Z) (r : option (Z * Z)) : bool :=
  match r with Some (s, t) => ranges_overlap lo hi s t | None => false end.
Definition range_covers (lo hi : Z) (r : option (Z * Z)) : bool :=
  match r with Some (s, t) => (s <=? lo) && (hi <=? t) | None => false end.

(** A resolved physical address, with the access, lies in the 64-bit space. *)
Definition store_in_range (e : StoreBufferEntry) : Prop :=
  match sb_resolution e with
  | SReady p d | SCommitted p d => 0 <= p /\ p + 8 < 2 ^ 64 /\ 0 <= d < 2 ^ 64
  | _ => True
  end.

#[export] Instance store_in_range_dec e : Decision (store_in_range e).
Proof. unfold store_in_range. destruct (sb_resolution e); apply _. Defined.

(** ** Byte lemmas *)

Lemma load_mem_ext m m' a n :
  (forall i, a <= i < a + Z.of_nat n -> m i = m' i) -> load_mem m a n = load_mem m' a n.
Proof.
  revert a. induction n as [|n IH]; intros a H; [done|]. simpl.
  rewrite H by lia. f_equal. f_equal. apply IH. intros i Hi. apply H. lia.
Qed.

(** Reading back consecutive bytes of [x] gives its low bytes. *)
Lemma load_mem_bytes m a n x :
  0 <= x -> (forall i, 0 <= i < Z.of_nat n -> m (a + i) = Z.shiftr x (8 * i) mod 256) ->
  load_mem m a n = x mod 2 ^ (8 * Z.of_nat n).
Proof.
  revert a x. induction n as [|n IH]; intros a x Hx H.
  - simpl. by rewrite Z.mod_1_r.
  - cbn [load_mem]. rewrite <-(Z.add_0_r a) at 1. rewrite H by lia.
    rewrite Z.mul_0_r, Z.shiftr_0_r, Z.mod_mod by lia.
    rewrite (IH (a + 1) (x / 256)).
    + replace (8 * Z.of_nat (S n)) with (8 + 8 * Z.of_nat n) by lia.
      rewrite Z.pow_add_r by lia. change (2 ^ 8) with 256.
      rewrite Z.rem_mul_r by lia. done.
    + by apply Z.div_pos.
    + intros i Hi. rewrite <-Z.add_assoc, H by lia. f_equal.
      change 256 with (2 ^ 8). rewrite <-Z.shiftr_div_pow2, Z.shiftr_shiftr by lia. f_equal. lia.
Qed.

Lemma older_memory_snoc tag m l e :
  older_memory tag m (l ++ [e]) = apply_older tag (older_memory tag m l) e.
Proof. unfold older_memory. by rewrite foldl_app. Qed.

(** The mask of [forward_load] keeps the low [n] bytes. *)
Lemma forward_mask (x n : Z) :
  0 <= x < 2 ^ 64 -> 0 <= n <= 8 ->
  Z.land x (if 8 <=? n then U64_MAX else sub64 (shl64 1 (n * 8)) 1) = x mod 2 ^ (8 * n).
Proof.
  intros Hx Hn. replace (8 * n) with (n * 8) by lia.
  replace (if 8 <=? n then U64_MAX else sub64 (shl64 1 (n * 8)) 1) with (2 ^ (n * 8) - 1);
    [apply land_low_mask; lia|].
  destruct (Z.leb_spec 8 n).
  - by replace n with 8 by lia.
  - unfold sub64, shl64. assert (2 ^ (n * 8) < 2 ^ 64) by (apply Z.pow_lt_mono_r; lia).
    assert (0 < 2 ^ (n * 8)) by (apply Z.pow_pos_nonneg; lia).
    rewrite Z.shiftl_1_l, !wrap_small by (unfold in_width; rewrite ?wrap_small by (unfold in_width; lia); lia).
    done.
Qed.

(** A store that covers the load supplies all its bytes. *)
Lemma store_covers_load m p d size a n :
  0 <= d -> p <= a -> a + Z.of_nat n <= p + size ->
  load_mem (store_mem m p size d) a n = Z.shiftr d (8 * (a - p)) mod 2 ^ (8 * Z.of_nat n).
Proof.
  intros Hd Hpa Han. apply load_mem_bytes; [by apply Z.shiftr_nonneg|].
  intros i Hi. unfold store_mem.
  rewrite (proj2 (Z.leb_le _ _)), (proj2 (Z.ltb_lt _ _)) by lia. simpl.
  rewrite Z.shiftr_shiftr by lia. f_equal. f_equal. lia.
Qed.

(** ** Forwarding *)

Section Forward.
Context (paddr tag : Z) (w : MemWidth).
Context (Hp : 0 <= paddr /\ paddr + 8 < 2 ^ 64).
Let lo := paddr.
Let hi := paddr + width_to_bytes w.
Let n := width_bytes w.

Lemma width_bytes_Z : Z.of_nat n = width_to_bytes w.
Proof. unfold n, width_bytes. pose proof (width_to_bytes_range w). lia. Qed.

Lemma add64_in_range a v : 0 <= a -> a + 8 < 2 ^ 64 -> add64 a (width_to_bytes v) = a + width_to_bytes v.
Proof. intros. pose proof (width_to_bytes_range v). apply wrap_small. unfold in_width. lia. Qed.

(** The decision [forward_load] takes at one entry. *)
Lemma forward_body_cases e :
  sb_valid e = true -> store_in_range e ->
  forward_body (width_to_bytes w) paddr (add64 paddr (width_to_bytes w)) tag e tt =
  if range_overlaps lo hi (older_range tag e) then
    if range_covers lo hi (older_range tag e) then
      match sb_resolution e with
      | SReady p d | SCommitted p d =>
          Return (FwdHit (Z.shiftr d (8 * (paddr - p)) mod 2 ^ (8 * Z.of_nat n)))
      | _ => Continue tt
      end
    else Return FwdStall
  else Continue tt.
Proof.
  intros Hv Hr. unfold forward_body, older_range, store_in_range in *. rewrite Hv.
  destruct (is_older_than (sb_rob_tag e) tag); simpl; [|done].
  assert (forall p d, 0 <= p /\ p + 8 < 2 ^ 64 /\ 0 <= d < 2 ^ 64 ->
    (if (paddr <? add64 p (width_to_bytes (sb_width e))) && (p <? add64 paddr (width_to_bytes w))
     then if (p <=? paddr) && (add64 paddr (width_to_bytes w) <=? add64 p (width_to_bytes (sb_width e)))
          then Return (FwdHit (Z.land (Z.shiftr d (u32 (sub64 paddr p) * 8))
                 (if 8 <=? width_to_bytes w then U64_MAX else sub64 (shl64 1 (width_to_bytes w * 8)) 1)))
          else Return FwdStall
     else Continue tt) =
    if ranges_overlap lo hi p (p + width_to_bytes (sb_width e)) then
      if (p <=? lo) && (hi <=? p + width_to_bytes (sb_width e)) then
        Return (FwdHit (Z.shiftr d (8 * (paddr - p)) mod 2 ^ (8 * Z.of_nat n)))
      else Return FwdStall
    else Continue tt) as Hcase.
  { intros p d (Hp0 & Hp1 & Hd). rewrite !add64_in_range by lia. fold hi lo. unfold ranges_overlap.
    destruct ((lo <? _) && (p <? hi)) eqn:Eo; [|done].
    destruct ((p <=? lo) && _) eqn:Ec; [|done]. to_prop. unfold lo, hi in *.
    pose proof (width_to_bytes_range (sb_width e)). pose proof (width_to_bytes_range w).
    do 2 f_equal. unfold sub64 at 1. rewrite !wrap_small by (unfold in_width; rewrite ?wrap_small; unfold in_width; lia).
    rewrite (Z.mul_comm (paddr - p)), forward_mask, width_bytes_Z; [done| |lia].
    split; [apply Z.shiftr_nonneg; lia|]. rewrite Z.shiftr_div_pow2 by lia.
    apply Z.div_lt_upper_bound; [apply Z.pow_pos_nonneg; lia|].
    assert (0 < 2 ^ (8 * (paddr - p))) by (apply Z.pow_pos_nonneg; lia). nia. }
  destruct (sb_resolution e); simpl; try done; by rewrite Hcase.
Qed.

(** A store that does not overlap the load leaves its bytes alone. *)
Lemma apply_older_disjoint m e :
  range_overlaps lo hi (older_range tag e) = false ->
  load_mem (apply_older tag m e) paddr n = load_mem m paddr n.
Proof.
  intros Ho. apply load_mem_ext. intros i Hi. rewrite width_bytes_Z in Hi.
  unfold apply_older, older_range in *. destruct (is_older_than _ _); [|done].
  assert (forall p d, ranges_overlap lo hi p (p + width_to_bytes (sb_width e)) = false ->
    store_mem m p (width_to_bytes (sb_width e)) d i = m i) as Hst.
  { intros p d Hn. unfold store_mem, ranges_overlap, lo, hi in *.
    destruct ((p <=? i) && _) eqn:E; [|done]. to_prop. apply andb_false_iff in Hn. 
    destruct Hn; to_prop; lia. }
  destruct (sb_resolution e); simpl in Ho; try done; by apply Hst.
Qed.

Lemma forward_scan l :
  Forall (fun e => sb_valid e = true) l -> Forall store_in_range l ->
  match after_loop (list_scan (forward_body (width_to_bytes w) paddr (add64 paddr (width_to_bytes w)) tag)
                     (reverse l) tt) (fun _ => FwdMiss) with
  | FwdHit v => forall m, v = load_mem (older_memory tag m l) paddr n
  | FwdMiss => forall m, load_mem (older_memory tag m l) paddr n = load_mem m paddr n
  | FwdStall => exists l1 e l2, l = l1 ++ e :: l2 /\
      range_overlaps lo hi (older_range tag e) = true /\
      range_covers lo hi (older_range tag e) = false /\
      Forall (fun e' => range_overlaps lo hi (older_range tag e') = false) l2
  end.
Proof.
  induction l as [|e l IH] using rev_ind; intros Hv Hr; [done|].
  apply Forall_app in Hv as [Hvl [Hve _]%Forall_cons], Hr as [Hrl [Hre _]%Forall_cons].
  specialize (IH Hvl Hrl). rewrite reverse_snoc. cbn [list_scan].
  rewrite forward_body_cases by done.
  destruct (range_overlaps lo hi (older_range tag e)) eqn:Eo.
  - destruct (range_covers lo hi (older_range tag e)) eqn:Ec.
    + unfold older_range in Eo, Ec. unfold store_in_range in Hre.
      destruct (is_older_than (sb_rob_tag e) tag) eqn:Eold; [|done].
      destruct (sb_resolution e) as [|p d|p d|] eqn:Er; simpl in *; try done; to_prop; intros m;
        rewrite older_memory_snoc; unfold apply_older; rewrite Eold, Er; symmetry;
        apply store_covers_load; rewrite ?width_bytes_Z; unfold lo, hi in *; lia.
    + simpl. exists l, e, []. done.
  - destruct (after_loop _ _) as [v| |].
    + intros m. rewrite older_memory_snoc, apply_older_disjoint by done. apply IH.
    + intros m. rewrite older_memory_snoc, apply_older_disjoint by done. apply IH.
    + destruct IH as (l1 & e' & l2 & -> & Ho & Hc & Hl2). exists l1, e', (l2 ++ [e]).
      rewrite <-app_assoc. split_and!; try done. apply Forall_app. by repeat constructor.
Qed.
End Forward.

(** C8. Store-to-load forwarding is sound and as precise as whole-store
    forwarding can be.  For a load of [w] at [paddr] with tag [tag]: a [Hit]
    returns the bytes memory would hold after all older resolved stores of the
    buffer, whatever the memory; a [Miss] means those stores do not change the
    loaded bytes; a [Stall] means the youngest older store that overlaps the
    load covers it only in part. *)
Theorem sb_forward_load_sound (b : StoreBuffer) (paddr tag : Z) (w : MemWidth) :
  sb_inv b -> 0 <= paddr -> paddr + 8 < 2 ^ 64 -> Forall store_in_range (sb_queue b) ->
  match sb_forward_load b paddr w tag with
  | FwdHit v => forall m, v = load_mem (older_memory tag m (sb_queue b)) paddr (width_bytes w)
  | FwdMiss => forall m, load_mem (older_memory tag m (sb_queue b)) paddr (width_bytes w) =
                         load_mem m paddr (width_bytes w)
  | FwdStall => exists l1 e l2, sb_queue b = l1 ++ e :: l2 /\
      range_overlaps paddr (paddr + width_to_bytes w) (older_range tag e) = true /\
      range_covers paddr (paddr + width_to_bytes w) (older_range tag e) = false /\
      Forall (fun e' => range_overlaps paddr (paddr + width_to_bytes w) (older_range tag e') = false) l2
  end.
Proof.
  intros I Hp0 Hp1 Hr. unfold sb_forward_load. cbv zeta.
  rewrite (ring_scan_back_window _ _ (sb_head b)) by apply I.
  exact (forward_scan paddr tag w (conj Hp0 Hp1) (sb_queue b) (sb_all_valid _ I) Hr).
Qed.

(** ** Witness: two overlapping stores, an eight-byte one and a younger byte. *)

Definition fwd_ops : list sb_op :=
  [SbAllocate 1 WDouble; SbAllocate 2 WByte;
   SbResolve 1 0x1000 0x8000 0x1122334455667788; SbResolve 2 0x1002 0x8002 0xFF].
Definition fwd_sb : StoreBuffer := (sb_run (sb_new 4) fwd_ops).1.

Lemma sb_forward_load_sound_witness :
  sb_forward_load fwd_sb 0x8004 WWord 3 = FwdHit 0x11223344 /\
  sb_forward_load fwd_sb 0x8000 WWord 3 = FwdStall /\
  (forall m, 0x11223344 = load_mem (older_memory 3 m (sb_queue fwd_sb)) 0x8004 4).
Proof.
  split; [reflexivity|]. split; [reflexivity|].
  refine (sb_forward_load_sound fwd_sb 0x8004 3 WWord _ _ _ _); [|lia|lia|].
  - apply sb_run_refines, sb_new_inv. lia.
  - apply (bool_decide_unpack _). by vm_compute.
Defined.
