(* ===== verification/LoadQueue.v ===== *)
(** The load queue of [core/pipeline/load_queue.rs]: in-flight loads and the
    detection of memory-ordering violations.  Out-of-order deallocation leaves
    holes in the window, so the abstract state is the list of valid entries. *)
From S2P Require Import Prelude Ring Common Rob StoreBuffer StoreBufferSpec.

Set Primitive Projections.
Local Open Scope Z_scope.

(** ** Data *)

Inductive LoadState := LPending | LTranslated | LExecuted.
#[export] Instance LoadState_eq_dec : EqDecision LoadState.
Proof. solve_decision. Defined.

Record LoadQueueEntry := {
  lq_rob_tag : Z;
  lq_vaddr : Z;
  lq_paddr : option Z;
  lq_data : Z;
  lq_width : MemWidth;
  lq_state : LoadState;
  lq_valid : bool
}.
Definition LoadQueueEntry_default : LoadQueueEntry :=
  {| lq_rob_tag := 0; lq_vaddr := 0; lq_paddr := None; lq_data := 0; lq_width := WNop;
     lq_state := LPending; lq_valid := false |}.
#[export] Instance LoadQueueEntry_inhabited : Inhabited LoadQueueEntry := populate LoadQueueEntry_default.

Record LoadQueue := {
  lq_entries : list LoadQueueEntry;
  lq_head : nat;
  lq_tail : nat;
  lq_count : nat
}.

Definition lq_new (capacity : nat) : LoadQueue :=
  {| lq_entries := replicate capacity LoadQueueEntry_default; lq_head := 0; lq_tail := 0; lq_count := 0 |}.
Definition lq_capacity (self : LoadQueue) : nat := length (lq_entries self).
Definition lq_len (self : LoadQueue) : nat := lq_count self.
Definition lq_is_empty (self : LoadQueue) : bool := (lq_count self =? 0)%nat.
Definition lq_is_full (self : LoadQueue) : bool := (lq_count self =? length (lq_entries self))%nat.
Definition lq_free_slots (self : LoadQueue) : nat := (length (lq_entries self) - lq_count self)%nat.

(** ** Operations *)

Definition lq_new_entry (rob_tag : Z) (w : MemWidth) : LoadQueueEntry :=
  {| lq_rob_tag := rob_tag; lq_vaddr := 0; lq_paddr := None; lq_data := 0; lq_width := w;
     lq_state := LPending; lq_valid := true |}.

Definition lq_allocate (self : LoadQueue) (rob_tag : Z) (w : MemWidth) : LoadQueue * bool :=
  if lq_is_full self then (self, false) else
  ({| lq_entries := <[lq_tail self := lq_new_entry rob_tag w]> (lq_entries self);
      lq_head := lq_head self;
      lq_tail := ring_next (length (lq_entries self)) (lq_tail self);
      lq_count := S (lq_count self) |}, true).

Definition lq_matches (rob_tag : Z) (e : LoadQueueEntry) : bool :=
  lq_valid e && (lq_rob_tag e =? rob_tag).

Definition lq_find_by_tag_mut (self : LoadQueue) (rob_tag : Z) : option nat :=
  ring_find (lq_matches rob_tag) (lq_entries self) (lq_count self) (lq_head self).

Definition lq_modify (self : LoadQueue) (rob_tag : Z) (edit : LoadQueueEntry -> LoadQueueEntry) : LoadQueue :=
  self <| lq_entries := match lq_find_by_tag_mut self rob_tag with
                        | Some idx => <[idx := edit (lq_entries self !!! idx)]> (lq_entries self)
                        | None => lq_entries self
                        end |>.

Definition edit_fill_address (vaddr paddr : Z) (e : LoadQueueEntry) : LoadQueueEntry :=
  e <| lq_vaddr := vaddr |> <| lq_paddr := Some paddr |> <| lq_state := LTranslated |>.
Definition lq_fill_address (self : LoadQueue) (rob_tag vaddr paddr : Z) : LoadQueue :=
  lq_modify self rob_tag (edit_fill_address vaddr paddr).

Definition edit_fill_data (data : Z) (e : LoadQueueEntry) : LoadQueueEntry :=
  e <| lq_data := data |> <| lq_state := LExecuted |>.
Definition lq_fill_data (self : LoadQueue) (rob_tag data : Z) : LoadQueue :=
  lq_modify self rob_tag (edit_fill_data data).

(** Loop body of [check_ordering_violation]. *)
Definition violation_body (store_start store_end store_rob_tag : Z) (e : LoadQueueEntry)
    (oldest_violator : option Z) : flow (option Z) (option Z) :=
  if lq_valid e && is_newer_than (lq_rob_tag e) store_rob_tag && bool_decide (lq_state e = LExecuted) then
    match lq_paddr e with
    | Some load_paddr =>
        let load_size := width_to_bytes (lq_width e) in
        let load_start := load_paddr in
        let load_end := add64 load_start load_size in
        if (load_start <? store_end) && (store_start <? load_end) then
          match oldest_violator with
          | None => Continue (Some (lq_rob_tag e))
          | Some prev => if is_older_than (lq_rob_tag e) prev then Continue (Some (lq_rob_tag e))
                         else Continue (Some prev)
          end
        else Continue oldest_violator
    | None => Continue oldest_violator
    end
  else Continue oldest_violator.

Definition lq_check_ordering_violation (self : LoadQueue) (store_paddr : Z) (store_width : MemWidth)
    (store_rob_tag : Z) : option Z :=
  if (lq_count self =? 0)%nat then None else
  let store_size := width_to_bytes store_width in
  let store_start := store_paddr in
  let store_end := add64 store_start store_size in
  after_loop (ring_scan (fun _ => violation_body store_start store_end store_rob_tag)
    (lq_entries self) (lq_count self) (lq_head self) None) (fun oldest => oldest).

Definition lq_invalidate (e : LoadQueueEntry) : LoadQueueEntry := e <| lq_valid := false |>.

(** [while self.count > 0 && !self.entries[self.head].valid { ... }] *)
Fixpoint lq_skip_invalid (es : list LoadQueueEntry) (head count : nat) : nat * nat :=
  match count with
  | O => (head, O)
  | S count' => if negb (lq_valid (es !!! head))
                then lq_skip_invalid es (ring_next (length es) head) count'
                else (head, count)
  end.

Definition lq_deallocate (self : LoadQueue) (rob_tag : Z) : LoadQueue :=
  if (lq_count self =? 0)%nat then self else
  if lq_matches rob_tag (lq_entries self !!! lq_head self) then
    {| lq_entries := <[lq_head self := lq_invalidate (lq_entries self !!! lq_head self)]> (lq_entries self);
       lq_head := ring_next (length (lq_entries self)) (lq_head self);
       lq_tail := lq_tail self;
       lq_count := (lq_count self - 1)%nat |}
  else match lq_find_by_tag_mut self rob_tag with
       | Some idx =>
           let es := <[idx := lq_invalidate (lq_entries self !!! idx)]> (lq_entries self) in
           let '(head, count) := lq_skip_invalid es (lq_head self) (lq_count self) in
           {| lq_entries := es; lq_head := head; lq_tail := lq_tail self; lq_count := count |}
       | None => self
       end.

Definition lq_flush (self : LoadQueue) : LoadQueue :=
  {| lq_entries := lq_invalidate <$> lq_entries self; lq_head := 0; lq_tail := 0; lq_count := 0 |}.

Definition lq_flush_after (self : LoadQueue) (keep_tag : Z) : LoadQueue :=
  if (lq_count self =? 0)%nat then self else
  let '(es, new_tail, new_count) :=
    ring_compact (fun e => lq_valid e && is_older_or_eq (lq_rob_tag e) keep_tag) lq_invalidate
      (lq_entries self) (lq_count self) (lq_head self) (lq_head self) 0 in
  {| lq_entries := es; lq_head := lq_head self; lq_tail := new_tail; lq_count := new_count |}.

(** ** Abstract state *)

Definition lq_live (q : LoadQueue) : list LoadQueueEntry :=
  filter (fun e => lq_valid e = true) (window (lq_entries q) (lq_head q) (lq_count q)).
Definition lq_inv (q : LoadQueue) : Prop :=
  ring_wf (lq_entries q) (lq_head q) (lq_tail q) (lq_count q).

Inductive lq_op :=
| LqAllocate (tag : Z) (w : MemWidth)
| LqFillAddress (tag vaddr paddr : Z)
| LqFillData (tag data : Z)
| LqDeallocate (tag : Z)
| LqFlush
| LqFlushAfter (keep_tag : Z).

Definition lq_exec (q : LoadQueue) (op : lq_op) : LoadQueue :=
  match op with
  | LqAllocate tag w => (lq_allocate q tag w).1
  | LqFillAddress tag va pa => lq_fill_address q tag va pa
  | LqFillData tag d => lq_fill_data q tag d
  | LqDeallocate tag => lq_deallocate q tag
  | LqFlush => lq_flush q
  | LqFlushAfter tag => lq_flush_after q tag
  end.

Definition tag_is (tag : Z) (e : LoadQueueEntry) : bool := lq_rob_tag e =? tag.

(** Removes the first entry satisfying [p]. *)
Fixpoint remove_first (p : LoadQueueEntry -> bool) (l : list LoadQueueEntry) : list LoadQueueEntry :=
  match l with
  | [] => []
  | e :: l' => if p e then l' else e :: remove_first p l'
  end.

(** The operation on the list of live loads; [accepted] is the buffer's answer
    to an allocation. *)
Definition live_exec (accepted : bool) (l : list LoadQueueEntry) (op : lq_op) : list LoadQueueEntry :=
  match op with
  | LqAllocate tag w => if accepted then l ++ [lq_new_entry tag w] else l
  | LqFillAddress tag va pa => modify_first (tag_is tag) (edit_fill_address va pa) l
  | LqFillData tag d => modify_first (tag_is tag) (edit_fill_data d) l
  | LqDeallocate tag => remove_first (tag_is tag) l
  | LqFlush => []
  | LqFlushAfter tag => filter (fun e => is_older_or_eq (lq_rob_tag e) tag = true) l
  end.

(** ** Refinement *)

Lemma filter_modify_first tag (edit : LoadQueueEntry -> LoadQueueEntry) l :
  (forall e, lq_valid (edit e) = lq_valid e) ->
  filter (fun e => lq_valid e = true) (modify_first (lq_matches tag) edit l) =
  modify_first (tag_is tag) edit (filter (fun e => lq_valid e = true) l).
Proof.
  intros Hf. induction l as [|e l IH]; [done|]. rewrite filter_cons. simpl. unfold lq_matches at 1.
  destruct (lq_valid e) eqn:Hv; simpl.
  - change (lq_rob_tag e =? tag) with (tag_is tag e). destruct (tag_is tag e); rewrite filter_cons.
    + by rewrite decide_True by (rewrite Hf; exact Hv).
    + rewrite decide_True by exact Hv. by rewrite IH.
  - rewrite filter_cons, decide_False by congruence. exact IH.
Qed.

Lemma lq_modify_refines q tag edit :
  lq_inv q -> (forall e, lq_valid (edit e) = lq_valid e) ->
  lq_inv (lq_modify q tag edit) /\
  lq_live (lq_modify q tag edit) = modify_first (tag_is tag) edit (lq_live q).
Proof.
  intros W Hf. pose proof (ring_modify_first (lq_matches tag) edit _ _ _ _ W) as (W' & Hl & Hw).
  split; [exact W'|]. unfold lq_live at 2. rewrite <-filter_modify_first by done.
  exact (f_equal (filter (fun e => lq_valid e = true)) Hw).
Qed.

Lemma lq_skip_invalid_spec es head tail n :
  ring_wf es head tail n ->
  let '(head', n') := lq_skip_invalid es head n in
  ring_wf es head' tail n' /\
  filter (fun e => lq_valid e = true) (window es head' n') =
  filter (fun e => lq_valid e = true) (window es head n).
Proof.
  revert head. induction n as [|n IH]; intros head W; simpl; [done|].
  destruct (lq_valid (es !!! head)) eqn:Hv; simpl; [done|].
  assert (ring_wf es (ring_next (length es) head) tail n) as W'.
  { destruct W as [Hc Hh Hn ->]. constructor; try lia; [apply Nat.mod_upper_bound; lia|].
    by rewrite ring_slot_S. }
  specialize (IH _ W'). destruct (lq_skip_invalid _ _ _) as [head' n']. destruct IH as [W'' Hw].
  split; [done|]. rewrite Hw, window_S by apply W. by rewrite filter_cons, decide_False by congruence.
Qed.

Lemma filter_remove_first tag l k e :
  l !! k = Some e -> lq_matches tag e = true ->
  (forall j b, (j < k)%nat -> l !! j = Some b -> lq_matches tag b = false) ->
  filter (fun e => lq_valid e = true) (<[k := lq_invalidate e]> l) =
  remove_first (tag_is tag) (filter (fun e => lq_valid e = true) l).
Proof.
  revert k. induction l as [|b l IH]; intros k Hk Hm Hj; [done|]. destruct k as [|k]; simpl in *.
  - injection Hk as ->. rewrite filter_cons, decide_False by done.
    unfold lq_matches in Hm. to_prop. rewrite filter_cons, decide_True by done. simpl.
    unfold tag_is. by rewrite (proj2 (Z.eqb_eq _ _)).
  - rewrite !filter_cons, (IH k) by (done || (intros j c Hjk; apply (Hj (S j)); lia)).
    pose proof (Hj 0%nat b ltac:(lia) eq_refl) as Hb. unfold lq_matches in Hb.
    case_decide as Hv; [|done]. rewrite Hv in Hb. simpl in Hb.
    change (tag_is tag b = false) in Hb. simpl. by rewrite Hb.
Qed.

Lemma remove_first_none p l : (forall j e, l !! j = Some e -> p e = false) -> remove_first p l = l.
Proof.
  induction l as [|e l IH]; intros H; [done|]. simpl. rewrite (H 0%nat e) by done. f_equal.
  apply IH. intros j b Hb. by apply (H (S j)).
Qed.

Lemma lq_deallocate_refines q tag :
  lq_inv q -> lq_inv (lq_deallocate q tag) /\
  lq_live (lq_deallocate q tag) = remove_first (tag_is tag) (lq_live q).
Proof.
  intros W. pose proof W as [Hc Hh Hn Ht]. unfold lq_deallocate.
  destruct (Nat.eqb_spec (lq_count q) 0) as [E|E].
  { split; [done|]. unfold lq_live. by rewrite E. }
  destruct (lq_matches tag (lq_entries q !!! lq_head q)) eqn:Hm.
  - unfold lq_inv, lq_live in *. destruct (lq_count q) as [|n]; [done|].
    pose proof (ring_pop _ _ _ _ (lq_invalidate (lq_entries q !!! lq_head q)) W) as [W' Hw].
    rewrite Hw. simpl. rewrite Nat.sub_0_r. split; [exact W'|].
    unfold lq_matches in Hm. to_prop. rewrite filter_cons, decide_True by done. simpl.
    unfold tag_is at 1. by rewrite (proj2 (Z.eqb_eq _ _)).
  - unfold lq_find_by_tag_mut.
    pose proof (ring_find_spec (lq_matches tag) (lq_entries q) (lq_count q) (lq_head q) Hh Hn) as Hf.
    destruct (ring_find _ _ _ _) as [idx|].
    + destruct Hf as (k & Hk & -> & Hw & Hp & Hj).
      set (slot := ring_slot (length (lq_entries q)) (lq_head q) k) in *.
      set (es := <[slot := _]> _).
      assert (ring_wf es (lq_head q) (lq_tail q) (lq_count q)) as W'
        by (constructor; unfold es; rewrite ?length_insert; done).
      pose proof (lq_skip_invalid_spec _ _ _ _ W') as Hs.
      destruct (lq_skip_invalid es _ _) as [h' n']. destruct Hs as [W'' Hs]. split; [exact W''|].
      unfold lq_live. simpl. rewrite Hs. unfold es, slot.
      rewrite window_insert_in by done. by apply filter_remove_first.
    + split; [done|]. symmetry. apply remove_first_none. intros j e He.
      unfold lq_live in He. apply list_elem_of_lookup_2, list_elem_of_filter in He as [Hv He].
      apply list_elem_of_lookup in He as [i Hi]. specialize (Hf _ _ Hi).
      unfold lq_matches in Hf. rewrite Hv in Hf. exact Hf.
Qed.

Lemma filter_valid_keep (p : LoadQueueEntry -> bool) (l : list LoadQueueEntry) :
  filter (fun e => lq_valid e = true) (filter (fun e => lq_valid e && p e = true) l) =
  filter (fun e => p e = true) (filter (fun e => lq_valid e = true) l).
Proof.
  induction l as [|e l IH]; [done|]. rewrite !filter_cons.
  destruct (lq_valid e) eqn:Hv; simpl; [|exact IH]. rewrite filter_cons.
  destruct (p e); simpl; rewrite ?filter_cons, IH; [|done]. by rewrite decide_True.
Qed.

Lemma lq_exec_refines q op :
  lq_inv q -> lq_inv (lq_exec q op) /\ lq_live (lq_exec q op) = live_exec (negb (lq_is_full q)) (lq_live q) op.
Proof.
  intros W. pose proof W as [Hc Hh Hn Ht]. destruct op; simpl.
  - unfold lq_allocate. destruct (lq_is_full q) eqn:Ef; [done|]. apply Nat.eqb_neq in Ef.
    pose proof (ring_push _ _ _ _ (lq_new_entry tag w) W ltac:(lia)) as [W' Hw].
    split; [exact W'|]. unfold lq_live. simpl. by rewrite Hw, filter_app.
  - by apply lq_modify_refines.
  - by apply lq_modify_refines.
  - by apply lq_deallocate_refines.
  - split; [by eapply ring_clear|done].
  - unfold lq_flush_after. destruct (Nat.eqb_spec (lq_count q) 0) as [E|E].
    { split; [done|]. unfold lq_live. by rewrite E. }
    pose proof (ring_compact_window (fun e => lq_valid e && is_older_or_eq (lq_rob_tag e) keep_tag)
      lq_invalidate _ _ _ _ W) as H.
    destruct (ring_compact _ _ _ _ _ _ _) as [[es tl] c]. destruct H as (W' & Hl & Hw).
    split; [exact W'|]. refine (eq_trans (f_equal (filter (fun e => lq_valid e = true)) Hw) _).
    apply filter_valid_keep.
Qed.

Lemma lq_exec_length q op : lq_inv q -> length (lq_entries (lq_exec q op)) = length (lq_entries q).
Proof.
  intros W. destruct op; simpl.
  - unfold lq_allocate. destruct (lq_is_full q); [done|]. apply length_insert.
  - apply (ring_modify_first (lq_matches tag) (edit_fill_address vaddr paddr) _ _ _ _ W).
  - apply (ring_modify_first (lq_matches tag) (edit_fill_data data) _ _ _ _ W).
  - unfold lq_deallocate. repeat case_match; rewrite ?length_insert; simpl; rewrite ?length_insert; done.
  - apply length_fmap.
  - unfold lq_flush_after. destruct (lq_count q =? 0)%nat; [done|].
    pose proof (ring_compact_window (fun e => lq_valid e && is_older_or_eq (lq_rob_tag e) keep_tag)
      lq_invalidate _ _ _ _ W) as H.
    destruct (ring_compact _ _ _ _ _ _ _) as [[es tl] c]. apply H.
Qed.

(** ** Runs *)

Fixpoint lq_run (q : LoadQueue) (ops : list lq_op) : LoadQueue * list bool :=
  match ops with
  | [] => (q, [])
  | op :: ops' => let '(q', xs) := lq_run (lq_exec q op) ops' in (q', negb (lq_is_full q) :: xs)
  end.
Fixpoint live_run (l : list LoadQueueEntry) (ops : list lq_op) (room : list bool) : list LoadQueueEntry :=
  match ops, room with
  | op :: ops', b :: room' => live_run (live_exec b l op) ops' room'
  | _, _ => l
  end.

Lemma lq_new_inv capacity : (0 < capacity)%nat -> lq_inv (lq_new capacity).
Proof. apply ring_new. Qed.

Lemma lq_run_refines q ops :
  lq_inv q -> lq_inv (lq_run q ops).1 /\ lq_live (lq_run q ops).1 = live_run (lq_live q) ops (lq_run q ops).2.
Proof.
  revert q. induction ops as [|op ops IH]; intros q W; [done|].
  destruct (lq_exec_refines q op W) as [W' Hl]. simpl. destruct (IH _ W') as [W'' H].
  destruct (lq_run _ ops) as [q' xs]. simpl in *. by rewrite <-Hl.
Qed.

Lemma lq_run_length q ops : lq_inv q -> length (lq_entries (lq_run q ops).1) = length (lq_entries q).
Proof.
  revert q. induction ops as [|op ops IH]; intros q W; [done|]. simpl.
  destruct (lq_exec_refines q op W) as [W' _]. specialize (IH _ W').
  rewrite lq_exec_length in IH by done. by destruct (lq_run _ ops).
Qed.

(** Over any sequence of allocate, fill_address, fill_data, deallocate,
    flush and flush_after from an empty load queue, the valid entries are
    exactly the loads a plain list would hold (allocation appends when there is
    room, fills edit the load with that tag, deallocation removes it wherever
    it sits, a flush keeps the loads not younger than the tag), in allocation
    order, although the ring leaves invalid holes behind, and the ring
    structure stays consistent. *)
Theorem lq_refines_live_list (capacity : nat) (ops : list lq_op) :
  (0 < capacity)%nat ->
  let '(q, room) := lq_run (lq_new capacity) ops in
  lq_inv q /\ lq_live q = live_run [] ops room /\ (length (lq_live q) <= lq_len q <= capacity)%nat.
Proof.
  intros Hc. destruct (lq_run_refines _ ops (lq_new_inv _ Hc)) as [W Hl].
  pose proof (lq_run_length _ ops (lq_new_inv _ Hc)) as Hrun.
  destruct (lq_run _ ops) as [q room]. cbn in *.
  rewrite length_replicate in Hrun. split_and!; [done|done| |].
  - unfold lq_live, lq_len. etrans; [apply length_filter|]. by rewrite length_window.
  - unfold lq_len. rewrite <-Hrun. apply W.
Qed.

(** ** Ordering violations *)

(** A younger load that already read memory overlapping the store's bytes. *)
Definition violates (store_start store_end store_rob_tag : Z) (e : LoadQueueEntry) : bool :=
  is_newer_than (lq_rob_tag e) store_rob_tag && bool_decide (lq_state e = LExecuted) &&
  match lq_paddr e with
  | Some p => (p <? store_end) && (store_start <? add64 p (width_to_bytes (lq_width e)))
  | None => false
  end.

Definition oldest_step (e : LoadQueueEntry) (o : option Z) : option Z :=
  match o with
  | None => Some (lq_rob_tag e)
  | Some prev => if is_older_than (lq_rob_tag e) prev then Some (lq_rob_tag e) else Some prev
  end.

Lemma violation_body_eq a b t e o :
  violation_body a b t e o =
  Continue (if lq_valid e && violates a b t e then oldest_step e o else o).
Proof.
  unfold violation_body, violates, oldest_step.
  destruct (lq_valid e), (is_newer_than _ _), (bool_decide _), (lq_paddr e) as [p|]; simpl; try done.
  destruct ((p <? b) && _); simpl; [|done]. destruct o; [by case_bool|done].
Qed.

Definition oldest_fold (bad : LoadQueueEntry -> bool) (l : list LoadQueueEntry) (o : option Z) : option Z :=
  foldl (fun o e => if bad e then oldest_step e o else o) o l.

Lemma oldest_fold_older (bad : LoadQueueEntry -> bool) l t :
  Forall (fun e => is_older_than (lq_rob_tag e) t = false) l -> oldest_fold bad l (Some t) = Some t.
Proof.
  unfold oldest_fold. induction 1 as [|e l He _ IH]; [done|]. simpl. destruct (bad e); [|done].
  unfold oldest_step. by rewrite He.
Qed.

(** On loads listed oldest first the fold finds the first bad one. *)
Lemma oldest_fold_sorted (bad : LoadQueueEntry -> bool) l :
  StronglySorted (fun a b => is_older_than (lq_rob_tag b) (lq_rob_tag a) = false) l ->
  oldest_fold bad l None = lq_rob_tag <$> head (filter (fun e => bad e = true) l).
Proof.
  induction 1 as [|e l _ IH He]; [done|]. rewrite filter_cons.
  unfold oldest_fold in *. simpl. destruct (bad e); simpl; [|exact IH].
  by apply oldest_fold_older.
Qed.

Lemma live_seqs_tags_sorted l ss n :
  lq_rob_tag <$> l = tag_at <$> ss -> live_seqs ss n ->
  StronglySorted (fun a b => is_older_than (lq_rob_tag b) (lq_rob_tag a) = false) l.
Proof.
  revert ss. induction l as [|e l IH]; intros ss Ht H; [constructor|].
  destruct ss as [|s ss]; [done|]. apply (f_equal tail) in Ht as Ht'. apply (f_equal head) in Ht.
  simpl in *. injection Ht as Ht. constructor.
  - apply (IH ss); [done|]. eapply live_seqs_sublist; [|done]. by apply sublist_cons.
  - apply Forall_forall. intros b Hb.
    assert (lq_rob_tag b ∈ tag_at <$> ss) as Hb'
      by (change (tag_at <$> ss) with (list_fmap _ _ tag_at ss); rewrite <-Ht'; by apply list_elem_of_fmap_2).
    apply list_elem_of_fmap in Hb' as (s' & Hb' & Hs').
    assert (lq_rob_tag e = tag_at s) as Hte by exact Ht. rewrite Hte, Hb', is_older_than_tag_at.
    + destruct H as [HS _]. apply StronglySorted_inv in HS as [_ HS]. rewrite Forall_forall in HS.
      specialize (HS _ Hs'). apply Z.ltb_ge. lia.
    + eapply live_seqs_dist; [done|by right|by left].
Qed.

Lemma violation_scan a b t es n head o :
  (head < length es)%nat ->
  ring_scan (fun _ => violation_body a b t) es n head o =
  Continue (oldest_fold (violates a b t) (filter (fun e => lq_valid e = true) (window es head n)) o).
Proof.
  intros Hh. rewrite ring_scan_window by done. generalize (window es head n) as l. clear.
  intros l. revert o. unfold oldest_fold. induction l as [|e l IH]; intros o; [done|].
  rewrite filter_cons. simpl. rewrite violation_body_eq, IH. by destruct (lq_valid e).
Qed.

(** The ordering-violation check names the oldest load, in program order,
    among the loads younger than the store that have already read memory
    overlapping the store's bytes, and reports nothing exactly when there is no
    such load; the scan takes the ring's holes, the wraparound of the ring and
    the wraparound of tags in its stride. *)
Lemma lq_violation_is_oldest (q : LoadQueue) (ss : list Z) (n paddr : Z) (w : MemWidth) (tag : Z) :
  lq_inv q -> lq_rob_tag <$> lq_live q = tag_at <$> ss -> live_seqs ss n ->
  let bad := filter (fun e => violates paddr (add64 paddr (width_to_bytes w)) tag e = true) (lq_live q) in
  lq_check_ordering_violation q paddr w tag = lq_rob_tag <$> head bad /\ (lq_check_ordering_violation q paddr w tag = None <-> bad = []).
Proof.
  intros W Ht Hs bad.
  assert (lq_check_ordering_violation q paddr w tag = fmap (M:=option) lq_rob_tag (head bad)) as Heq.
  { unfold lq_check_ordering_violation. destruct (Nat.eqb_spec (lq_count q) 0) as [E|E].
    - unfold bad, lq_live. by rewrite E.
    - rewrite violation_scan by apply W. simpl. apply oldest_fold_sorted.
      by eapply live_seqs_tags_sorted. }
  split; [done|]. rewrite Heq. by destruct bad.
Qed.

(** A load of sequence number [a] has read memory before the older store of
    sequence number [s], to the [size] bytes at [paddr], wrote a byte it read. *)
Definition read_too_early (s paddr size : Z) (e : LoadQueueEntry) (a : Z) : Prop :=
  s < a /\ lq_state e = LExecuted /\
  exists p byte, lq_paddr e = Some p /\ p <= byte < p + width_to_bytes (lq_width e) /\ paddr <= byte < paddr + size.
(** An access of at least one byte that does not reach the end of the address space. *)
Definition in_space (paddr size : Z) : Prop := 0 <= paddr /\ 0 < size /\ paddr + size < 2 ^ 64.
Definition load_in_space (e : LoadQueueEntry) : Prop :=
  forall p, lq_paddr e = Some p -> in_space p (width_to_bytes (lq_width e)).

Lemma head_filter_spec {A} (P : A -> Prop) `{!forall x, Decision (P x)} (l : list A) :
  match head (filter P l) with
  | None => forall i e, l !! i = Some e -> ~ P e
  | Some e => exists i, l !! i = Some e /\ P e /\ forall j e', (j < i)%nat -> l !! j = Some e' -> ~ P e'
  end.
Proof.
  induction l as [|x l IH]; [by intros|]. rewrite filter_cons. destruct (decide (P x)) as [Hx|Hx]; cbn [head].
  - exists 0%nat. split_and!; [done|done|lia].
  - destruct (head (filter P l)) as [e|].
    + destruct IH as (i & Hi & He & Hj). exists (S i). split_and!; [done|done|]. intros [|j] e' Hlt Hl; [by injection Hl as ->|].
      apply (Hj j); [lia|done].
    + intros [|i] e Hl; [by injection Hl as ->|]. by eapply IH.
Qed.
Lemma violates_exact s a n paddr size e :
  lq_rob_tag e = tag_at a -> s < n -> n - s < TAG_SPAN -> a < n -> n - a < TAG_SPAN -> in_space paddr size -> load_in_space e ->
  violates paddr (add64 paddr size) (tag_at s) e = true <-> read_too_early s paddr size e a.
Proof.
  intros Ht ? ? ? ? (Hp & Hs & Hend) Hsp. unfold violates, read_too_early.
  rewrite !andb_true_iff, bool_decide_eq_true, Ht, is_newer_than_tag_at, Z.ltb_lt by lia. unfold add64.
  split.
  - intros [[? ?] Ho]. destruct (lq_paddr e) as [p|] eqn:Ep; [|done]. destruct (Hsp p Ep) as (? & ? & ?).
    rewrite !wrap_small in Ho by (unfold in_width; lia). to_prop. split_and!; [done|done|]. exists p, (Z.max p paddr). split; [done|lia].
  - intros (? & ? & p & b & Ep & ? & ?). destruct (Hsp p Ep) as (? & ? & ?). rewrite Ep. split; [done|].
    rewrite !wrap_small by (unfold in_width; lia). apply andb_true_iff. split; apply Z.ltb_lt; lia.
Qed.

(** C21. The load queue and its memory-ordering check.  After any sequence of
    allocations, fills, deallocations and flushes the valid entries are the
    loads of a plain list, in allocation order, whatever holes the ring has;
    and the check made when a store resolves names the oldest load, in program
    order, that is younger than the store and has already read a byte the store
    writes, and nothing exactly when there is none, however tags and the ring
    have wrapped.  Accesses are not empty and end below 2^64. *)
Theorem lq_violation_exact (capacity : nat) (ops : list lq_op) (seqs : list Z) (n s paddr : Z) (w : MemWidth) :
  (0 < capacity)%nat ->
  let '(q, room) := lq_run (lq_new capacity) ops in
  lq_rob_tag <$> lq_live q = tag_at <$> seqs -> live_seqs seqs n -> s < n -> n - s < TAG_SPAN ->
  in_space paddr (width_to_bytes w) -> Forall load_in_space (lq_live q) ->
  lq_inv q /\ lq_live q = live_run [] ops room /\
  let early i t := exists e a, lq_live q !! i = Some e /\ seqs !! i = Some a /\ t = lq_rob_tag e /\
                               read_too_early s paddr (width_to_bytes w) e a in
  match lq_check_ordering_violation q paddr w (tag_at s) with
  | None => forall i t, ~ early i t
  | Some t => exists i, early i t /\ forall j t', (j < i)%nat -> ~ early j t'
  end.
Proof.
  intros Hc. destruct (lq_run_refines _ ops (lq_new_inv _ Hc)) as [W Hl].
  destruct (lq_run _ ops) as [q room]. cbn [fst snd] in W, Hl. intros Ht Hs Hn Hn' Hp Hsp. split; [done|]. split; [done|]. cbv zeta.
  rewrite (proj1 (lq_violation_is_oldest q seqs n paddr w (tag_at s) W Ht Hs)).
  assert (Hv : forall i e a, lq_live q !! i = Some e -> seqs !! i = Some a ->
            (violates paddr (add64 paddr (width_to_bytes w)) (tag_at s) e = true <-> read_too_early s paddr (width_to_bytes w) e a)).
  { intros i e a He Ha. destruct Hs as [_ Hs]. pose proof (proj1 (Forall_lookup _ _) Hs i a Ha) as [? ?].
    pose proof (f_equal (fun l => l !! i) Ht) as Hi. cbv beta in Hi. rewrite !list_lookup_fmap, He, Ha in Hi. injection Hi as Hi.
    apply (violates_exact s a n); [done..|]. by apply (proj1 (Forall_lookup _ _) Hsp i). }
  pose proof (head_filter_spec (fun e => violates paddr (add64 paddr (width_to_bytes w)) (tag_at s) e = true) (lq_live q)) as Hh.
  destruct (head _) as [e|]; cbn [fmap option_fmap option_map].
  - destruct Hh as (i & He & Hb & Hj). assert (exists a, seqs !! i = Some a) as [a Ha].
    { pose proof (f_equal (fun l => l !! i) Ht) as Hi. cbv beta in Hi. rewrite !list_lookup_fmap, He in Hi. destruct (seqs !! i); [eauto|done]. }
    exists i. split; [exists e, a; split_and!; try done; by apply (Hv i)|].
    intros j t' Hlt (e' & a' & He' & Ha' & _ & Hr). apply (Hj j e' Hlt He'). by apply (Hv j e' a').
  - intros i t (e & a & He & Ha & _ & Hr). apply (Hh i e He). by apply (Hv i e a).
Qed.

(** ** Witnesses *)

(** A store tagged 2 resolves after the loads tagged 4 and 3 have executed. *)
Definition demo_lq_ops : list lq_op :=
  [LqAllocate 1 WWord; LqAllocate 3 WDouble; LqAllocate 4 WWord; LqDeallocate 1; LqAllocate 5 WByte;
   LqFillAddress 4 0x104 0x8104; LqFillData 4 7; LqFillAddress 3 0x100 0x8100; LqFillData 3 9;
   LqDeallocate 5; LqFlushAfter 4].
Definition demo_lq : LoadQueue := (lq_run (lq_new 3) demo_lq_ops).1.

Lemma lq_refines_live_list_witness :
  lq_rob_tag <$> lq_live demo_lq = [3; 4] /\ lq_live demo_lq = live_run [] demo_lq_ops (lq_run (lq_new 3) demo_lq_ops).2.
Proof.
  split; [reflexivity|]. pose proof (lq_refines_live_list 3 demo_lq_ops ltac:(lia)) as H.
  unfold demo_lq. destruct (lq_run _ _). apply H.
Defined.

Lemma lq_violation_is_oldest_witness : lq_check_ordering_violation demo_lq 0x8104 WWord 2 = Some 3.
Proof.
  rewrite (proj1 (lq_violation_is_oldest demo_lq [2; 3] 5 0x8104 WWord 2
    (proj1 (lq_run_refines _ demo_lq_ops (lq_new_inv 3 ltac:(lia)))) eq_refl
    ltac:(split; [repeat constructor | repeat constructor; unfold TAG_SPAN; lia]))).
  reflexivity.
Defined.

(** The same queue as the check must see it: the load tagged 3 is the oldest of
    the two that have read bytes of the store. *)
Lemma lq_violation_exact_witness :
  exists q room, lq_run (lq_new 3) demo_lq_ops = (q, room) /\ lq_check_ordering_violation q 0x8104 WWord (tag_at 1) = Some 3 /\
  exists e, lq_live q !! 0%nat = Some e /\ read_too_early 1 0x8104 4 e 2.
Proof.
  pose proof (lq_violation_exact 3 demo_lq_ops [2; 3] 5 1 0x8104 WWord ltac:(lia)) as H.
  destruct (lq_run (lq_new 3) demo_lq_ops) as [q room] eqn:E. exists q, room. split; [done|].
  assert (Eq : q = demo_lq) by (change q with (q, room).1; rewrite <-E; reflexivity). rewrite Eq in *. clear E Eq.
  assert (Hc : lq_check_ordering_violation demo_lq 0x8104 WWord (tag_at 1) = Some 3) by (vm_compute; reflexivity).
  rewrite Hc in *. split; [reflexivity|]. exists (lq_live demo_lq !!! 0%nat). split; [vm_compute; reflexivity|].
  assert (Hsp : Forall load_in_space (lq_live demo_lq)).
  { vm_compute lq_live. repeat (apply Forall_cons; split; [intros p [= <-]; unfold in_space; cbn; lia|]). constructor. }
  assert (Ht : lq_rob_tag <$> lq_live demo_lq = tag_at <$> [2; 3]) by by vm_compute.
  assert (Hs : live_seqs [2; 3] 5) by (split; [repeat constructor | repeat constructor; unfold TAG_SPAN; lia]).
  assert (Hp : in_space 0x8104 (width_to_bytes WWord)) by (change (width_to_bytes WWord) with 4; unfold in_space; lia).
  specialize (H Ht Hs ltac:(lia) ltac:(unfold TAG_SPAN; lia) Hp Hsp). destruct H as (_ & _ & i & (e & a & He & Ha & Hte & Hr) & _).
  change (lq_live demo_lq) with (ltac:(let v := eval vm_compute in (lq_live demo_lq) in exact v)) in *.
  destruct i as [|[|i]]; [|exfalso; injection He as <-; discriminate Hte|discriminate Ha].
  injection He as <-. injection Ha as <-. exact Hr.
Defined.
