(* ===== verification/Rename.v ===== *)
(** Register renaming: the physical register file ([core/pipeline/prf.rs]), the
    free list ([free_list.rs]), the speculative rename map ([rename_map.rs]), the
    checkpoint table ([checkpoint.rs]) and the in-order scoreboard
    ([scoreboard.rs]), with the lemmas their clients need. *)
From S2P Require Import Prelude Ring Common Rob.

Set Primitive Projections.
Local Open Scope Z_scope.

(** ** Physical register file *)

Record PhysRegFile := { prf_values : list Z; prf_ready : list bool }.

Definition prf_new (total : nat) : PhysRegFile :=
  let ready := replicate total false in
  let ready := if (0 <? total)%nat then <[0%nat := true]> ready else ready in
  {| prf_values := replicate total 0; prf_ready := ready |}.

Definition prf_write (self : PhysRegFile) (p val : Z) : PhysRegFile :=
  let idx := Z.to_nat p in
  if (idx =? 0)%nat then self else
  if (idx <? length (prf_values self))%nat then
    {| prf_values := <[idx := val]> (prf_values self); prf_ready := <[idx := true]> (prf_ready self) |}
  else self.

Definition prf_read (self : PhysRegFile) (p : Z) : Z :=
  let idx := Z.to_nat p in
  if (idx <? length (prf_values self))%nat then prf_values self !!! idx else 0.

Definition prf_is_ready (self : PhysRegFile) (p : Z) : bool :=
  let idx := Z.to_nat p in
  if (idx <? length (prf_ready self))%nat then prf_ready self !!! idx else false.

Definition prf_mark_arch_ready (self : PhysRegFile) (num_arch : nat) : PhysRegFile :=
  let limit := Nat.min num_arch (length (prf_ready self)) in
  self <| prf_ready := foldl (fun ready i => <[i := true]> ready) (prf_ready self) (seq 0 limit) |>.

Definition prf_allocate (self : PhysRegFile) (p : Z) : PhysRegFile :=
  let idx := Z.to_nat p in
  if (idx =? 0)%nat then self else
  if (idx <? length (prf_ready self))%nat then self <| prf_ready := <[idx := false]> (prf_ready self) |>
  else self.

Definition prf_capacity (self : PhysRegFile) : nat := length (prf_values self).

(** ** Free list *)

Record FreeList := { fl_queue : list Z; fl_capacity : nat }.

Definition fl_new (prf_size num_arch : nat) : FreeList :=
  {| fl_queue := (fun i => u16 (Z.of_nat i)) <$> seq num_arch (prf_size - num_arch);
     fl_capacity := prf_size |}.

Definition fl_allocate (self : FreeList) : FreeList * option Z :=
  match fl_queue self with
  | [] => (self, None)
  | p :: q => (self <| fl_queue := q |>, Some p)
  end.

Definition fl_reclaim (self : FreeList) (p : Z) : FreeList :=
  if negb (p =? 0) then self <| fl_queue := fl_queue self ++ [p] |> else self.

Definition fl_available (self : FreeList) : nat := length (fl_queue self).

(** ** Rename map *)

Record RenameMap := { rm_gpr : list Z; rm_fpr : list Z }.
#[export] Instance RenameMap_eq_dec : EqDecision RenameMap.
Proof. solve_decision. Defined.

Definition rm_new : RenameMap :=
  {| rm_gpr := (fun i => u16 (Z.of_nat i)) <$> seq 0 32;
     rm_fpr := (fun i => u16 (Z.of_nat (32 + i))) <$> seq 0 32 |}.

Definition rm_get (self : RenameMap) (reg : Z) (is_fp : bool) : Z :=
  let idx := reg_as_usize reg in
  if negb is_fp && reg_is_zero reg then 0 else
  if is_fp then rm_fpr self !!! idx else rm_gpr self !!! idx.

Definition rm_set (self : RenameMap) (reg : Z) (is_fp : bool) (p : Z) : RenameMap :=
  if negb is_fp && reg_is_zero reg then self else
  let idx := reg_as_usize reg in
  if is_fp then self <| rm_fpr := <[idx := p]> (rm_fpr self) |>
  else self <| rm_gpr := <[idx := p]> (rm_gpr self) |>.

(** ** Checkpoint table *)

Record Checkpoint := { ck_branch_tag : Z; ck_rename_map : RenameMap }.
Record CheckpointTable := { ct_slots : list (option Checkpoint); ct_count : nat }.

Definition ct_new (capacity : nat) : CheckpointTable :=
  {| ct_slots := replicate capacity None; ct_count := 0 |}.
Definition ct_capacity (self : CheckpointTable) : nat := length (ct_slots self).
Definition ct_is_full (self : CheckpointTable) : bool := (ct_count self =? length (ct_slots self))%nat.
Definition ct_available (self : CheckpointTable) : nat := (length (ct_slots self) - ct_count self)%nat.

(** The loop over [slots.iter_mut().enumerate()], from index [i]. *)
Fixpoint ct_allocate_loop (c : Checkpoint) (slots : list (option Checkpoint)) (i : nat)
    : list (option Checkpoint) * option Z :=
  match slots with
  | [] => ([], None)
  | None :: slots' => (Some c :: slots', Some (u8 (Z.of_nat i)))
  | Some c' :: slots' => let '(slots'', r) := ct_allocate_loop c slots' (S i) in (Some c' :: slots'', r)
  end.
Definition ct_allocate (self : CheckpointTable) (branch_tag : Z) (rename_map : RenameMap)
    : CheckpointTable * option Z :=
  let '(slots, r) := ct_allocate_loop {| ck_branch_tag := branch_tag; ck_rename_map := rename_map |}
                       (ct_slots self) 0 in
  ({| ct_slots := slots; ct_count := match r with Some _ => S (ct_count self) | None => ct_count self end |}, r).

Definition ct_find_by_tag (self : CheckpointTable) (tag : Z) : option Checkpoint :=
  snd <$> list_find (fun c => ck_branch_tag c = tag) (omap id (ct_slots self)).

Definition ct_free (self : CheckpointTable) (id : Z) : CheckpointTable :=
  let idx := Z.to_nat id in
  match ct_slots self !! idx with
  | Some (Some _) => {| ct_slots := <[idx := None]> (ct_slots self); ct_count := (ct_count self - 1)%nat |}
  | _ => self
  end.

(** The loop over [&mut self.slots] of [flush_after]. *)
Fixpoint ct_flush_loop (keep_tag : Z) (slots : list (option Checkpoint)) (count : nat)
    : list (option Checkpoint) * nat :=
  match slots with
  | [] => ([], count)
  | slot :: slots' =>
      let drop := match slot with Some ckpt => is_newer_than (ck_branch_tag ckpt) keep_tag | None => false end in
      let '(slots'', count') := ct_flush_loop keep_tag slots' (if drop then (count - 1)%nat else count) in
      ((if drop then None else slot) :: slots'', count')
  end.
Definition ct_flush_after (self : CheckpointTable) (keep_tag : Z) : CheckpointTable :=
  let '(slots, count) := ct_flush_loop keep_tag (ct_slots self) (ct_count self) in
  {| ct_slots := slots; ct_count := count |}.

Definition ct_flush_all (self : CheckpointTable) : CheckpointTable :=
  {| ct_slots := (fun _ => None) <$> ct_slots self; ct_count := 0 |}.

(** ** Scoreboard *)

Record Scoreboard := { scb_gpr : list (option Z); scb_fpr : list (option Z) }.

Definition scb_new : Scoreboard := {| scb_gpr := replicate 32 None; scb_fpr := replicate 32 None |}.

Definition scb_set_producer (self : Scoreboard) (reg : Z) (is_fp : bool) (tag : Z) : Scoreboard :=
  let idx := reg_as_usize reg in
  if is_fp then self <| scb_fpr := <[idx := Some tag]> (scb_fpr self) |>
  else if negb (reg_is_zero reg) then self <| scb_gpr := <[idx := Some tag]> (scb_gpr self) |>
  else self.

Definition scb_get_producer (self : Scoreboard) (reg : Z) (is_fp : bool) : option Z :=
  let idx := reg_as_usize reg in
  if is_fp then scb_fpr self !!! idx else scb_gpr self !!! idx.

Definition scb_clear_if_match (self : Scoreboard) (reg : Z) (is_fp : bool) (tag : Z) : Scoreboard :=
  let idx := reg_as_usize reg in
  let slot := if is_fp then scb_fpr self !!! idx else scb_gpr self !!! idx in
  if bool_decide (slot = Some tag) then
    if is_fp then self <| scb_fpr := <[idx := None]> (scb_fpr self) |>
    else self <| scb_gpr := <[idx := None]> (scb_gpr self) |>
  else self.

Definition scb_flush (self : Scoreboard) : Scoreboard :=
  {| scb_gpr := replicate 32 None; scb_fpr := replicate 32 None |}.

(** The closure [rebuild_from_rob] passes to [for_each_valid]. *)
Definition scb_mark (self : Scoreboard) (entry : RobEntry) : Scoreboard :=
  let idx := reg_as_usize (re_rd entry) in
  if fp_reg_write (re_ctrl entry) then self <| scb_fpr := <[idx := Some (re_tag entry)]> (scb_fpr self) |>
  else if reg_write (re_ctrl entry) && negb (reg_is_zero (re_rd entry))
       then self <| scb_gpr := <[idx := Some (re_tag entry)]> (scb_gpr self) |>
       else self.
Definition scb_rebuild_from_rob (self : Scoreboard) (rob : Rob) : Scoreboard :=
  rob_for_each_valid rob (fun entry s => scb_mark s entry) (scb_flush self).
