(* ===== verification/RenameO3.v ===== *)
(** Register renaming in the out-of-order engine: the rename stage
    ([core/pipeline/frontend/rename.rs]), the renaming part of retirement
    ([backend/shared/commit.rs]) and the recoveries of the engine
    ([backend/o3/mod.rs]: misprediction, memory-ordering violation, full flush).

    [O3Engine] here is the part of the Rust struct these functions touch: the
    reorder buffer, store buffer, load queue, physical register file, free
    list, rename maps, checkpoints and scoreboard, with the issue queue reduced
    to the number of slots it reports. *)
From S2P Require Import Prelude Ring Common Rob RobSpec RobProps StoreBuffer LoadQueue Rename.

Set Primitive Projections.
Local Open Scope Z_scope.

(** ** Latches *)

Record IdExEntry := {
  id_pc : Z; id_inst : Z; id_inst_size : InstSize;
  id_rs1 : Z; id_rs2 : Z; id_rs3 : Z; id_rd : Z; id_imm : Z;
  id_rv1 : Z; id_rv2 : Z; id_rv3 : Z;
  id_ctrl : ControlSignals;
  id_trap : option Trap; id_exception_stage : option ExceptionStage;
  id_pred_taken : bool; id_pred_target : Z;
  id_ghr_snapshot : Ghr; id_ras_snapshot : Z
}.

Record RenameIssueEntry := {
  ri_rob_tag : Z; ri_pc : Z; ri_inst : Z; ri_inst_size : InstSize;
  ri_rs1 : Z; ri_rs2 : Z; ri_rs3 : Z; ri_rd : Z; ri_imm : Z;
  ri_rv1 : Z; ri_rv2 : Z; ri_rv3 : Z;
  ri_rs1_tag : option Z; ri_rs2_tag : option Z; ri_rs3_tag : option Z;
  ri_rs1_phys : Z; ri_rs2_phys : Z; ri_rs3_phys : Z; ri_rd_phys : Z;
  ri_ctrl : ControlSignals;
  ri_trap : option Trap; ri_exception_stage : option ExceptionStage;
  ri_pred_taken : bool; ri_pred_target : Z;
  ri_ghr_snapshot : Ghr; ri_ras_snapshot : Z
}.

(** ** Engine state *)

Record O3Engine := {
  o3_rob : Rob;
  o3_store_buffer : StoreBuffer;
  o3_load_queue : LoadQueue;
  o3_prf : PhysRegFile;
  o3_free_list : FreeList;
  o3_rename_map : RenameMap;
  o3_committed_rename_map : RenameMap;
  o3_scoreboard : Scoreboard;
  o3_iq_available : nat;
  o3_width : nat;
  o3_checkpoints : CheckpointTable;
  o3_squash_stall_remaining : Z
}.

(** Sizes of the configuration [O3Engine::new] reads. *)
Record O3Config := {
  cfg_rob_size : nat; cfg_store_buffer_size : nat; cfg_load_queue_size : nat;
  cfg_prf_gpr_size : nat; cfg_prf_fpr_size : nat; cfg_issue_queue_size : nat;
  cfg_width : nat; cfg_checkpoint_count : nat
}.

Definition o3_new (config : O3Config) : O3Engine :=
  let prf_total := (cfg_prf_gpr_size config + cfg_prf_fpr_size config)%nat in
  let num_arch := 64%nat in
  {| o3_rob := rob_new (cfg_rob_size config);
     o3_store_buffer := sb_new (cfg_store_buffer_size config);
     o3_load_queue := lq_new (cfg_load_queue_size config);
     o3_prf := prf_mark_arch_ready (prf_new prf_total) num_arch;
     o3_free_list := fl_new prf_total num_arch;
     o3_rename_map := rm_new;
     o3_committed_rename_map := rm_new;
     o3_scoreboard := scb_new;
     o3_iq_available := cfg_issue_queue_size config;
     o3_width := cfg_width config;
     o3_checkpoints := ct_new (cfg_checkpoint_count config);
     o3_squash_stall_remaining := 0 |}.

Definition o3_can_accept (self : O3Engine) : nat :=
  if 0 <? o3_squash_stall_remaining self then 0%nat else
  let rob_free := rob_free_slots (o3_rob self) in
  let sb_free := sb_free_slots (o3_store_buffer self) in
  let lq_free := lq_free_slots (o3_load_queue self) in
  let iq_free := o3_iq_available self in
  let prf_free := fl_available (o3_free_list self) in
  Nat.min (Nat.min (Nat.min (Nat.min (Nat.min rob_free sb_free) lq_free) iq_free) prf_free) (o3_width self).

(** ** The rename stage *)

Definition is_branch_or_jump (ctrl : ControlSignals) : bool :=
  match control_flow ctrl with Branch | Jump => true | Sequential => false end.
Definition needs_dst (ctrl : ControlSignals) (rd : Z) : bool :=
  (reg_write ctrl && negb (reg_is_zero rd)) || fp_reg_write ctrl.

(** What the loop body does with one decoded instruction once the budget and
    checkpoint tests have passed: it renames it, breaks out of the loop with
    the instruction put back, or hits [unreachable!]. *)
Inductive rename_result :=
| Renamed (engine : O3Engine) (entry : RenameIssueEntry)
| Refused (engine : O3Engine)
| Panicked.

Definition o3_rename_entry (id : IdExEntry) (rob_tag rs1_phys rs2_phys rs3_phys rd_phys : Z)
    : RenameIssueEntry := {|
  ri_rob_tag := rob_tag; ri_pc := id_pc id; ri_inst := id_inst id; ri_inst_size := id_inst_size id;
  ri_rs1 := id_rs1 id; ri_rs2 := id_rs2 id; ri_rs3 := id_rs3 id; ri_rd := id_rd id; ri_imm := id_imm id;
  ri_rv1 := 0; ri_rv2 := 0; ri_rv3 := 0;
  ri_rs1_tag := None; ri_rs2_tag := None; ri_rs3_tag := None;
  ri_rs1_phys := rs1_phys; ri_rs2_phys := rs2_phys; ri_rs3_phys := rs3_phys; ri_rd_phys := rd_phys;
  ri_ctrl := id_ctrl id; ri_trap := id_trap id; ri_exception_stage := id_exception_stage id;
  ri_pred_taken := id_pred_taken id; ri_pred_target := id_pred_target id;
  ri_ghr_snapshot := id_ghr_snapshot id; ri_ras_snapshot := id_ras_snapshot id |}.

Definition o3_rename_one (id : IdExEntry) (engine : O3Engine) : rename_result :=
  let ctrl := id_ctrl id in
  let map := o3_rename_map engine in
  let rs1_phys := rm_get map (id_rs1 id) (rs1_fp ctrl) in
  let rs2_phys := rm_get map (id_rs2 id) (rs2_fp ctrl) in
  let rs3_phys := if rs3_fp ctrl then rm_get map (id_rs3 id) true else 0 in
  let needs_dst := needs_dst ctrl (id_rd id) in
  let '(free_list, dst) :=
    if needs_dst then
      match fl_allocate (o3_free_list engine) with
      | (fl, Some new_p) => (fl, Some (new_p, rm_get map (id_rd id) (fp_reg_write ctrl)))
      | (fl, None) => (fl, None)
      end
    else (o3_free_list engine, Some (0, 0)) in
  match dst with
  | None => Refused (engine <| o3_free_list := free_list |>)
  | Some (rd_phys, old_phys_dst) =>
      match rob_allocate (o3_rob engine) (id_pc id) (id_inst id) (id_inst_size id) (id_rd id)
              (fp_reg_write ctrl) ctrl rd_phys old_phys_dst with
      | (rob, None) =>
          Refused (engine <| o3_rob := rob |>
            <| o3_free_list := if needs_dst then fl_reclaim free_list rd_phys else free_list |>)
      | (rob, Some rob_tag) =>
          let engine := engine <| o3_rob := rob |> <| o3_free_list := free_list |>
            <| o3_rename_map := if needs_dst then rm_set map (id_rd id) (fp_reg_write ctrl) rd_phys else map |>
            <| o3_prf := if needs_dst then prf_allocate (o3_prf engine) rd_phys else o3_prf engine |> in
          let '(sb, sb_ok) := if mem_write ctrl then sb_allocate (o3_store_buffer engine) rob_tag (width ctrl)
                              else (o3_store_buffer engine, true) in
          let engine := engine <| o3_store_buffer := sb |> in
          if negb sb_ok then Refused engine else
          let '(lq, lq_ok) := if mem_read ctrl then lq_allocate (o3_load_queue engine) rob_tag (width ctrl)
                              else (o3_load_queue engine, true) in
          let engine := engine <| o3_load_queue := lq |> in
          if negb lq_ok then Refused engine else
          let entry := o3_rename_entry id rob_tag rs1_phys rs2_phys rs3_phys rd_phys in
          if is_branch_or_jump ctrl && (0 <? ct_capacity (o3_checkpoints engine))%nat then
            match ct_allocate (o3_checkpoints engine) rob_tag (o3_rename_map engine) with
            | (_, None) => Panicked
            | (ct, Some ckpt_id) =>
                Renamed (engine <| o3_checkpoints := ct |>
                  <| o3_rob := rob_set_checkpoint_id (o3_rob engine) rob_tag ckpt_id |>) entry
            end
          else Renamed engine entry
      end
  end.

(** State of the loop of [rename_stage]: [rn_input] collects what is put back,
    the last two fields are the counters of [cpu.stats] it bumps. *)
Record RenameLoop := {
  rn_engine : O3Engine;
  rn_input : list IdExEntry;
  rn_output : list RenameIssueEntry;
  rn_budget : nat;
  rn_stalls_dispatch : Z;
  rn_stalls_checkpoint : Z
}.

(** How the loop ends early: [break], or a panic. *)
Inductive rename_exit := Broke (st : RenameLoop) | RenamePanic.

Definition o3_rename_body (id : IdExEntry) (st : RenameLoop) : flow RenameLoop rename_exit :=
  if (rn_budget st =? 0)%nat then
    Continue (st <| rn_stalls_dispatch := match rn_input st with
                                          | [] => u64 (rn_stalls_dispatch st + 1)
                                          | _ => rn_stalls_dispatch st
                                          end |>
                 <| rn_input := rn_input st ++ [id] |>)
  else
  let ckpts := o3_checkpoints (rn_engine st) in
  if is_branch_or_jump (id_ctrl id) && (0 <? ct_capacity ckpts)%nat && ct_is_full ckpts then
    Continue (st <| rn_stalls_checkpoint := u64 (rn_stalls_checkpoint st + 1) |>
                 <| rn_budget := 0%nat |> <| rn_input := rn_input st ++ [id] |>)
  else
  match o3_rename_one id (rn_engine st) with
  | Renamed engine entry =>
      Continue (st <| rn_engine := engine |> <| rn_output := rn_output st ++ [entry] |>
                   <| rn_budget := (rn_budget st - 1)%nat |>)
  | Refused engine => Return (Broke (st <| rn_engine := engine |> <| rn_input := rn_input st ++ [id] |>))
  | Panicked => Return RenamePanic
  end.

(** [rename_stage] with [has_prf()] true. *)
Definition o3_rename_stage (engine : O3Engine) (input : list IdExEntry)
    (rename_output : list RenameIssueEntry) (stalls_dispatch stalls_checkpoint : Z)
    : flow RenameLoop rename_exit :=
  list_scan o3_rename_body input
    {| rn_engine := engine; rn_input := []; rn_output := rename_output; rn_budget := o3_can_accept engine;
       rn_stalls_dispatch := stalls_dispatch; rn_stalls_checkpoint := stalls_checkpoint |}.

(** ** Retirement *)

(** The register-file part of [commit_stage] for a popped entry: scoreboard,
    free list and committed rename map. *)
Definition o3_commit_regs (entry : RobEntry) (s : O3Engine) : O3Engine :=
  if fp_reg_write (re_ctrl entry) then
    s <| o3_scoreboard := scb_clear_if_match (o3_scoreboard s) (re_rd entry) true (re_tag entry) |>
      <| o3_free_list := if negb (re_old_phys_dst entry =? re_phys_dst entry)
                         then fl_reclaim (o3_free_list s) (re_old_phys_dst entry) else o3_free_list s |>
      <| o3_committed_rename_map := rm_set (o3_committed_rename_map s) (re_rd entry) true (re_phys_dst entry) |>
  else if reg_write (re_ctrl entry) && negb (reg_is_zero (re_rd entry)) then
    s <| o3_scoreboard := scb_clear_if_match (o3_scoreboard s) (re_rd entry) false (re_tag entry) |>
      <| o3_free_list := if negb (re_old_phys_dst entry =? re_phys_dst entry)
                         then fl_reclaim (o3_free_list s) (re_old_phys_dst entry) else o3_free_list s |>
      <| o3_committed_rename_map := rm_set (o3_committed_rename_map s) (re_rd entry) false (re_phys_dst entry) |>
  else s.

(** Whether the loop body leaves before it reaches the queues: a CSR write, a
    return from trap or a WFI. *)
Definition commit_breaks_early (entry : RobEntry) : bool :=
  match re_csr_update entry with
  | Some _ => true
  | None => match system_op (re_ctrl entry) with Mret | Sret | Wfi => true | _ => false end
  end.

(** Retirement of the completed head, as far as it touches the engine's state;
    [sc_ok] is the reservation test of a store-conditional.  Its effects on the
    CPU (registers, CSRs, memory) and the store-buffer drains are not part of it. *)
Definition o3_retire (sc_ok : bool) (s : O3Engine) : O3Engine :=
  match rob_commit_head (o3_rob s) with
  | (_, None) => s
  | (rob, Some entry) =>
      let s := o3_commit_regs entry (s <| o3_rob := rob |>) in
      if commit_breaks_early entry then s else
      match re_lr_sc entry, sc_ok with
      | Some (Sc_record _), false =>
          s <| o3_store_buffer := sb_cancel (o3_store_buffer s) (re_tag entry) |>
            <| o3_prf := if reg_write (re_ctrl entry) && negb (reg_is_zero (re_rd entry))
                         then prf_write (o3_prf s) (re_phys_dst entry) 1 else o3_prf s |>
      | _, _ =>
          s <| o3_store_buffer := if mem_write (re_ctrl entry)
                                  then sb_mark_committed (o3_store_buffer s) (re_tag entry)
                                  else o3_store_buffer s |>
            <| o3_load_queue := if mem_read (re_ctrl entry)
                                then lq_deallocate (o3_load_queue s) (re_tag entry) else o3_load_queue s |>
            <| o3_checkpoints := match re_checkpoint_id entry with
                                 | Some ckpt_id => ct_free (o3_checkpoints s) ckpt_id
                                 | None => o3_checkpoints s
                                 end |>
      end
  end.

(** A faulted head is popped and its destination register reclaimed. *)
Definition o3_retire_faulted (s : O3Engine) : O3Engine :=
  match rob_commit_head (o3_rob s) with
  | (_, None) => s
  | (rob, Some entry) =>
      match re_trap entry with
      | Some _ => s <| o3_rob := rob |>
                    <| o3_free_list := if negb (re_phys_dst entry =? 0)
                                       then fl_reclaim (o3_free_list s) (re_phys_dst entry)
                                       else o3_free_list s |>
      | None => s <| o3_rob := rob |>
      end
  end.

(** ** Recovery *)

Definition o3_compute_squash_stall (self : O3Engine) (squashed surviving : nat) : Z :=
  let w := Nat.max (o3_width self) 1 in
  let squash_cycles := (squashed `div` w + (if (squashed mod w =? 0)%nat then 0 else 1) - 1)%nat in
  let rebuild_cycles := (surviving `div` w + (if (surviving mod w =? 0)%nat then 0 else 1))%nat in
  Z.of_nat (squash_cycles + rebuild_cycles).

(** Loop body of [rebuild_rename_map]. *)
Definition reapply_entry (m : RenameMap) (entry : RobEntry) : RenameMap :=
  if reg_write (re_ctrl entry) && negb (reg_is_zero (re_rd entry))
  then rm_set m (re_rd entry) false (re_phys_dst entry)
  else if fp_reg_write (re_ctrl entry) then rm_set m (re_rd entry) true (re_phys_dst entry) else m.
Definition o3_rebuild_rename_map (self : O3Engine) : O3Engine :=
  self <| o3_rename_map := foldl reapply_entry (o3_committed_rename_map self) (rob_iter_in_order (o3_rob self)) |>.

Definition o3_reclaim_all (fl : FreeList) (entries : list RobEntry) : FreeList :=
  foldl (fun fl entry => fl_reclaim fl (re_phys_dst entry)) fl entries.

(** [flush], without the pipeline latches and the predictors. *)
Definition o3_flush (self : O3Engine) : O3Engine :=
  self <| o3_free_list := o3_reclaim_all (o3_free_list self) (rob_iter_in_order (o3_rob self)) |>
       <| o3_rename_map := o3_committed_rename_map self |>
       <| o3_rob := rob_flush_all (o3_rob self) |>
       <| o3_store_buffer := sb_flush_speculative (o3_store_buffer self) |>
       <| o3_load_queue := lq_flush (o3_load_queue self) |>
       <| o3_scoreboard := scb_flush (o3_scoreboard self) |>
       <| o3_checkpoints := ct_flush_all (o3_checkpoints self) |>.

(** Squashes everything after [keep_tag], common to both recoveries. *)
Definition o3_squash_after (self : O3Engine) (keep_tag : Z) : O3Engine :=
  self <| o3_free_list := o3_reclaim_all (o3_free_list self) (rob_iter_after (o3_rob self) keep_tag) |>
       <| o3_rob := rob_flush_after (o3_rob self) keep_tag |>
       <| o3_store_buffer := sb_flush_after (o3_store_buffer self) keep_tag |>
       <| o3_load_queue := lq_flush_after (o3_load_queue self) keep_tag |>.
Definition o3_squash_all (self : O3Engine) : O3Engine :=
  self <| o3_free_list := o3_reclaim_all (o3_free_list self) (rob_iter_in_order (o3_rob self)) |>
       <| o3_rob := rob_flush_all (o3_rob self) |>
       <| o3_store_buffer := sb_flush_speculative (o3_store_buffer self) |>
       <| o3_load_queue := lq_flush (o3_load_queue self) |>.

(** Step 7 of [tick]: recovery from a misprediction or a serializing
    instruction at [keep_tag]. *)
Definition o3_mispredict (self : O3Engine) (keep_tag : Z) : O3Engine :=
  let '(s, squashed) :=
    match rob_find_entry (o3_rob self) keep_tag with
    | Some _ => (o3_squash_after self keep_tag, length (rob_iter_after (o3_rob self) keep_tag))
    | None => (o3_squash_all self, rob_len (o3_rob self))
    end in
  let surviving := rob_len (o3_rob s) in
  let s :=
    if (0 <? ct_capacity (o3_checkpoints s))%nat then
      let s := match ct_find_by_tag (o3_checkpoints s) keep_tag with
               | Some ckpt => s <| o3_rename_map := ck_rename_map ckpt |>
                                <| o3_squash_stall_remaining := o3_compute_squash_stall s squashed 0 |>
               | None => o3_rebuild_rename_map s
                           <| o3_squash_stall_remaining := o3_compute_squash_stall s squashed surviving |>
               end in
      s <| o3_checkpoints := ct_flush_after (o3_checkpoints s) keep_tag |>
    else o3_rebuild_rename_map s
           <| o3_squash_stall_remaining := o3_compute_squash_stall s squashed surviving |> in
  s <| o3_scoreboard := scb_rebuild_from_rob (o3_scoreboard s) (o3_rob s) |>.

(** Step 3 of [tick]: recovery from a memory-ordering violation of the load [violating_tag]. *)
Definition o3_violation (self : O3Engine) (violating_tag : Z) : O3Engine :=
  let keep_tag := rob_prev_tag_of (o3_rob self) violating_tag in
  let s :=
    match keep_tag with
    | Some keep_tag =>
        let squashed := length (rob_iter_after (o3_rob self) keep_tag) in
        let s := o3_squash_after self keep_tag in
        s <| o3_squash_stall_remaining := o3_compute_squash_stall s squashed (rob_len (o3_rob s)) |>
    | None =>
        let squashed := rob_len (o3_rob self) in
        let s := o3_squash_all self in
        s <| o3_squash_stall_remaining := o3_compute_squash_stall s squashed 0 |>
    end in
  let s := o3_rebuild_rename_map s in
  let s := s <| o3_scoreboard := scb_rebuild_from_rob (o3_scoreboard s) (o3_rob s) |> in
  s <| o3_checkpoints := match keep_tag with
                         | Some keep_tag => ct_flush_after (o3_checkpoints s) keep_tag
                         | None => ct_flush_all (o3_checkpoints s)
                         end |>.
