(* ===== verification/RenameInv.v ===== *)
(** Invariant of register renaming, on lists: what the rename maps, the free
    list and the checkpoints say about the in-flight instructions, and how
    allocation, retirement and squashes preserve it.  [RenameO3Props] connects
    it to the engine. *)
From S2P Require Import Prelude Ring Common Rob RobSpec RobProps Rename RenameO3.

Set Primitive Projections.
Local Open Scope Z_scope.

(** ** Views of reorder-buffer entries *)

(** The fields of an entry that renaming reads; no pipeline stage edits them
    between allocation and retirement. *)
Record RenView := { v_tag : Z; v_rd : Z; v_ctrl : ControlSignals; v_phys : Z; v_old : Z; v_ckpt : option Z }.
Definition view (e : RobEntry) : RenView :=
  {| v_tag := re_tag e; v_rd := re_rd e; v_ctrl := re_ctrl e; v_phys := re_phys_dst e;
     v_old := re_old_phys_dst e; v_ckpt := re_checkpoint_id e |}.

Definition v_needs (v : RenView) : bool := needs_dst (v_ctrl v) (v_rd v).
Definition v_fp (v : RenView) : bool := fp_reg_write (v_ctrl v).

(** The decoder sets at most one of the two register-write signals. *)
Definition ctrl_ok (ctrl : ControlSignals) : Prop := reg_write ctrl && fp_reg_write ctrl = false.
Record view_ok (v : RenView) : Prop := {
  vo_ctrl : ctrl_ok (v_ctrl v);
  vo_rd : 0 <= v_rd v < 32;
  vo_phys : v_needs v = negb (v_phys v =? 0)
}.

Definition apply_view (m : RenameMap) (v : RenView) : RenameMap :=
  if v_needs v then rm_set m (v_rd v) (v_fp v) (v_phys v) else m.
(** The map after the instructions [vs], oldest first, starting from [m]. *)
Definition spec_map (m : RenameMap) (vs : list RenView) : RenameMap := foldl apply_view m vs.

Lemma reapply_entry_view m e : view_ok (view e) -> reapply_entry m e = apply_view m (view e).
Proof.
  intros [Hc _ _]. unfold reapply_entry, apply_view, v_needs, v_fp, needs_dst, ctrl_ok in *. simpl in *.
  destruct (reg_write _), (fp_reg_write _), (negb _); done.
Qed.

Lemma foldl_reapply m es :
  Forall view_ok (view <$> es) -> foldl reapply_entry m es = spec_map m (view <$> es).
Proof.
  revert m. induction es as [|e es IH]; intros m H; [done|]. apply Forall_cons in H as [He H].
  unfold spec_map. simpl. rewrite reapply_entry_view by done. by apply IH.
Qed.

Lemma spec_map_app m vs vs' : spec_map m (vs ++ vs') = spec_map (spec_map m vs) vs'.
Proof. apply foldl_app. Qed.

(** ** Registers a map holds *)

Definition rm_wf (m : RenameMap) : Prop := length (rm_gpr m) = 32%nat /\ length (rm_fpr m) = 32%nat.
(** Every mapped register but that of [x0]. *)
Definition map_regs (m : RenameMap) : list Z := drop 1 (rm_gpr m) ++ rm_fpr m.

Lemma insert_swap_perm (l : list Z) i x y : l !! i = Some x -> x :: <[i:=y]> l ≡ₚ y :: l.
Proof.
  intros Hi. rewrite <-(take_drop_middle l i x Hi) at 2. rewrite insert_take_drop by (by eapply lookup_lt_Some).
  rewrite <-!Permutation_middle. apply perm_swap.
Qed.

Lemma rm_set_wf m rd fp p : rm_wf m -> rm_wf (rm_set m rd fp p).
Proof.
  intros [H1 H2]. unfold rm_set, rm_wf. destruct (negb fp && _); [done|].
  destruct fp; simpl; by rewrite ?length_insert.
Qed.

Lemma apply_view_wf m v : rm_wf m -> rm_wf (apply_view m v).
Proof. unfold apply_view. case_match; [apply rm_set_wf|done]. Qed.

Lemma spec_map_wf m vs : rm_wf m -> rm_wf (spec_map m vs).
Proof. revert m. induction vs as [|v vs IH]; intros m H; [done|]. by apply IH, apply_view_wf. Qed.

Lemma map_regs_set m rd fp p :
  rm_wf m -> 0 <= rd < 32 -> fp = true \/ rd <> 0 ->
  rm_get m rd fp :: map_regs (rm_set m rd fp p) ≡ₚ p :: map_regs m.
Proof.
  intros [H1 H2] Hr Hz. unfold rm_get, rm_set, map_regs, reg_is_zero, reg_as_usize.
  assert (negb fp && (rd =? 0) = false) as ->
    by (destruct Hz as [->| ->%Z.eqb_neq]; [done|apply andb_false_r]).
  destruct fp; simpl.
  - rewrite 2!Permutation_middle. apply Permutation_app_head, insert_swap_perm.
    apply list_lookup_lookup_total_lt. lia.
  - destruct Hz as [?|Hz]; [done|]. destruct (rm_gpr m) as [|z g] eqn:Eg; [done|]. simpl in *.
    destruct (Z.to_nat rd) as [|i] eqn:Ei; [lia|]. simpl. rewrite drop_0.
    rewrite !app_comm_cons. apply Permutation_app_tail, insert_swap_perm.
    apply list_lookup_lookup_total_lt. lia.
Qed.

Lemma rm_get_in m rd fp :
  rm_wf m -> 0 <= rd < 32 -> fp = true \/ rd <> 0 -> rm_get m rd fp ∈ map_regs m.
Proof.
  intros [H1 H2] Hr Hz. unfold rm_get, map_regs, reg_is_zero, reg_as_usize.
  assert (negb fp && (rd =? 0) = false) as ->
    by (destruct Hz as [->| ->%Z.eqb_neq]; [done|apply andb_false_r]).
  apply elem_of_app. destruct fp.
  - right. eapply list_elem_of_lookup_2, list_lookup_lookup_total_lt. lia.
  - left. destruct Hz as [?|Hz]; [done|]. apply (list_elem_of_lookup_2 _ (Z.to_nat rd - 1)).
    rewrite lookup_drop. replace (1 + (Z.to_nat rd - 1))%nat with (Z.to_nat rd) by lia.
    apply list_lookup_lookup_total_lt. lia.
Qed.

Lemma v_needs_target v : v_needs v = true -> v_fp v = true \/ v_rd v <> 0.
Proof.
  unfold v_needs, v_fp, needs_dst, reg_is_zero. destruct (fp_reg_write _); [by left|].
  rewrite orb_false_r. intros H. to_prop. by right.
Qed.

(** ** The invariant *)

(** [v_old] is the register the map held just before each instruction. *)
Definition olds_ok (m : RenameMap) (vs : list RenView) : Prop :=
  forall k v, vs !! k = Some v -> v_needs v = true ->
    v_old v = rm_get (spec_map m (take k vs)) (v_rd v) (v_fp v).

Lemma olds_ok_cons m v vs :
  olds_ok m (v :: vs) <->
  (v_needs v = true -> v_old v = rm_get m (v_rd v) (v_fp v)) /\ olds_ok (apply_view m v) vs.
Proof.
  unfold olds_ok. split.
  - intros H. split; [by apply (H 0%nat)|]. intros k w Hk. by apply (H (S k)).
  - intros [H0 H] [|k] w Hk; [by injection Hk as <-|]. by apply H.
Qed.


Definition inflight_regs (vs : list RenView) : list Z := filter (fun p => p <> 0) (v_phys <$> vs).
(** All physical registers except the hardwired zero. *)
Definition all_regs (total : nat) : list Z := seqZ 1 (Z.of_nat total - 1).

Record ren_inv (total : nat) (committed current : RenameMap) (free : list Z) (vs : list RenView)
    (slots : list (option Checkpoint)) : Prop := {
  rn_wf : rm_wf committed;
  rn_views : Forall view_ok vs;
  rn_current : current = spec_map committed vs;
  rn_old : olds_ok committed vs;
  rn_regs : map_regs committed ++ inflight_regs vs ++ free ≡ₚ all_regs total;
  rn_ckpt : forall i c, slots !! i = Some (Some c) -> exists k v, vs !! k = Some v /\
    v_tag v = ck_branch_tag c /\ v_ckpt v = Some (Z.of_nat i) /\
    ck_rename_map c = spec_map committed (take (S k) vs)
}.

Section RenInv.
Context {total : nat} {committed current : RenameMap} {free : list Z} {vs : list RenView}
  {slots : list (option Checkpoint)}.
Context (I : ren_inv total committed current free vs slots).

Lemma rn_NoDup : NoDup (map_regs committed ++ inflight_regs vs ++ free).
Proof. rewrite (rn_regs _ _ _ _ _ _ I). apply NoDup_seqZ. Qed.

Lemma rn_nonzero p : p ∈ map_regs committed ++ inflight_regs vs ++ free -> p <> 0.
Proof. rewrite (rn_regs _ _ _ _ _ _ I). unfold all_regs. rewrite elem_of_seqZ. lia. Qed.


End RenInv.

Definition displaced_regs (vs : list RenView) : list Z :=
  omap (fun v => if v_needs v then Some (v_old v) else None) vs.

(** Speculation only exchanges registers: what the current map holds together
    with what in-flight instructions displaced is what the committed map holds
    together with what they write. *)
Lemma spec_map_regs m vs :
  rm_wf m -> Forall view_ok vs -> olds_ok m vs ->
  map_regs (spec_map m vs) ++ displaced_regs vs ≡ₚ map_regs m ++ inflight_regs vs.
Proof.
  intros Hw Hv. revert m Hw. induction Hv as [|v vs [Hc Hr Hp] Hv IH]; intros m Hw Ho; [done|].
  apply olds_ok_cons in Ho as [Ho0 Ho].
  specialize (IH (apply_view m v) (apply_view_wf _ _ Hw) Ho).
  unfold inflight_regs, displaced_regs in *. rewrite fmap_cons, filter_cons. simpl.
  change (spec_map m (v :: vs)) with (spec_map (apply_view m v) vs).
  unfold apply_view in IH. unfold apply_view. destruct (v_needs v) eqn:En.
  - rewrite decide_True by (symmetry in Hp; to_prop; done).
    rewrite <-Permutation_middle, IH, app_comm_cons, Ho0 by done.
    rewrite map_regs_set by auto using v_needs_target. apply Permutation_middle.
  - rewrite decide_False by (symmetry in Hp; to_prop; lia). exact IH.
Qed.

(** ** Preservation *)

Section Steps.
Context {total : nat} {committed current : RenameMap} {free : list Z} {vs : list RenView}
  {slots : list (option Checkpoint)}.
Context (I : ren_inv total committed current free vs slots).

(** Allocation takes the first free register when the instruction needs one. *)
Lemma ren_allocate v free' :
  view_ok v ->
  (if v_needs v then free = v_phys v :: free' /\ v_old v = rm_get current (v_rd v) (v_fp v) else free = free') ->
  ren_inv total committed (apply_view current v) free' (vs ++ [v]) slots.
Proof.
  intros Hv Hf. destruct I as [Hw Hvs Hc Ho Hr Hk]. constructor.
  - done.
  - apply Forall_app. split; [done|by constructor].
  - by rewrite spec_map_app, Hc.
  - intros k u Hu Hn. apply lookup_app_Some in Hu as [Hu|[Hl Hu]].
    + rewrite take_app_le by (apply lookup_lt_Some in Hu; lia). by apply Ho.
    + apply list_lookup_singleton_Some in Hu as [Hkl <-]. rewrite take_app_ge, Hkl, app_nil_r by lia.
      rewrite Hn in Hf. rewrite <-Hc. apply Hf.
  - unfold inflight_regs. rewrite fmap_app, filter_app. rewrite <-Hr, <-app_assoc.
    do 2 apply Permutation_app_head.
    change (v_phys <$> [v]) with [v_phys v]. rewrite filter_cons, filter_nil. pose proof (vo_phys _ Hv) as Hp. destruct (v_needs v).
    + destruct Hf as [-> _]. rewrite decide_True by (symmetry in Hp; to_prop; done). done.
    + rewrite decide_False by (symmetry in Hp; to_prop; lia). by subst.
  - intros i c Hi. destruct (Hk i c Hi) as (k & u & Hu & Ht & Hid & Hm). exists k, u.
    pose proof (lookup_lt_Some _ _ _ Hu). rewrite lookup_app_l, take_app_le by lia. done.
Qed.

(** A checkpoint of the youngest instruction snapshots the current map. *)
Lemma ren_checkpoint vs' v i c :
  vs = vs' ++ [v] -> slots !! i = Some None -> ck_branch_tag c = v_tag v -> ck_rename_map c = current ->
  v_ckpt v = None ->
  ren_inv total committed current free (vs' ++ [v <| v_ckpt := Some (Z.of_nat i) |>]) (<[i := Some c]> slots).
Proof.
  intros E Hi Ht Hm Hn. destruct I as [Hw Hvs Hc Ho Hr Hk]. rewrite E in *. clear E.
  set (v' := v <| v_ckpt := Some (Z.of_nat i) |>).
  assert (forall m, spec_map m (vs' ++ [v']) = spec_map m (vs' ++ [v])) as Hs
    by (intros m; by rewrite !spec_map_app).
  assert (forall k, (k <= length vs')%nat -> take k (vs' ++ [v']) = take k (vs' ++ [v])) as Htk
    by (intros k Hle; by rewrite !take_app_le).
  constructor.
  - done.
  - apply Forall_app in Hvs as [Hvs Hv]. apply Forall_app. split; [done|].
    apply Forall_singleton in Hv as [? ? ?]. apply Forall_singleton. by constructor.
  - by rewrite Hs.
  - intros k u Hu Hnd. pose proof (lookup_lt_Some _ _ _ Hu) as Hl. rewrite length_app in Hl. simpl in Hl.
    rewrite Htk by lia. apply lookup_app_Some in Hu as [Hu|[Hge Hu]].
    + apply Ho; [|done]. by apply lookup_app_l_Some.
    + apply list_lookup_singleton_Some in Hu as [Hkl <-]. apply (Ho k v); [|done].
      rewrite lookup_app_r by lia. by rewrite Hkl.
  - unfold inflight_regs in *. by rewrite !fmap_app in *.
  - intros j d Hj. destruct (decide (j = i)) as [->|Hne].
    + rewrite list_lookup_insert_eq in Hj by (by eapply lookup_lt_Some). injection Hj as <-.
      exists (length vs'), v'. rewrite lookup_app_r, Nat.sub_diag by lia. split_and!; [done..|].
      rewrite Hm, Hc, take_ge by (rewrite length_app; simpl; lia). symmetry. apply Hs.
    + rewrite list_lookup_insert_ne in Hj by done. destruct (Hk j d Hj) as (k & u & Hu & Hut & Hid & Hdm).
      apply lookup_app_Some in Hu as [Hu|[Hge Hu]].
      * exists k, u. pose proof (lookup_lt_Some _ _ _ Hu). rewrite lookup_app_l, Htk by lia. done.
      * apply list_lookup_singleton_Some in Hu as [_ <-]. congruence.
Qed.

(** Retirement of the oldest instruction, which frees the register it
    displaced and its checkpoint. *)
Lemma ren_retire v vs' free' slots' :
  vs = v :: vs' ->
  free' = (if v_needs v then free ++ [v_old v] else free) ->
  slots' = match v_ckpt v with Some i => <[Z.to_nat i := None]> slots | None => slots end ->
  ren_inv total (apply_view committed v) current free' vs' slots'.
Proof.
  intros E -> ->. destruct I as [Hw Hvs Hc Ho Hr Hk]. rewrite E in *. clear E.
  apply Forall_cons in Hvs as [Hv Hvs]. apply olds_ok_cons in Ho as [Ho0 Ho]. constructor.
  - by apply apply_view_wf.
  - done.
  - done.
  - done.
  - pose proof (vo_phys _ Hv) as Hp. rewrite <-Hr. unfold inflight_regs. rewrite fmap_cons, filter_cons.
    unfold apply_view. destruct (v_needs v) eqn:En.
    + rewrite decide_True by (symmetry in Hp; to_prop; done). simpl.
      set (B := filter _ _). rewrite (app_assoc B), (app_assoc (map_regs _)).
      etrans; [apply Permutation_app_comm|]. simpl. rewrite Ho0, app_comm_cons by done.
      rewrite map_regs_set by (apply Hv || done || by apply v_needs_target). simpl. apply Permutation_middle.
    + rewrite decide_False by (symmetry in Hp; to_prop; lia). done.
  - intros j d Hj.
    assert (slots !! j = Some (Some d) /\ v_ckpt v <> Some (Z.of_nat j)) as [Hj' Hne].
    { destruct (v_ckpt v) as [i|]; [|done]. apply list_lookup_insert_Some in Hj as [(_ & ? & _)|[Hij Hj]]; [done|].
      split; [done|]. intros [= ->]. rewrite Nat2Z.id in Hij. done. }
    destruct (Hk j d Hj') as (k & u & Hu & Hut & Hid & Hdm). destruct k as [|k].
    + injection Hu as <-. done.
    + exists k, u. done.
Qed.

(** A squash keeps a prefix of the instructions and gives back the registers
    of the others; checkpoints of squashed instructions are dropped. *)
Lemma ren_squash k current' free' slots' :
  current' = spec_map committed (take k vs) ->
  free' = free ++ inflight_regs (drop k vs) ->
  (forall i c, slots' !! i = Some (Some c) -> slots !! i = Some (Some c) /\
     forall j v, vs !! j = Some v -> v_tag v = ck_branch_tag c -> (j < k)%nat) ->
  ren_inv total committed current' free' (take k vs) slots'.
Proof.
  intros -> -> Hs. destruct I as [Hw Hvs Hc Ho Hr Hk]. constructor.
  - done.
  - by apply Forall_take.
  - done.
  - intros j u Hu Hn. apply lookup_take_Some in Hu as [Hu Hjk]. rewrite take_take, Nat.min_l by lia.
    by apply Ho.
  - rewrite <-Hr. apply Permutation_app_head. rewrite <-(take_drop k vs) at 3. unfold inflight_regs.
    rewrite fmap_app, filter_app, <-app_assoc. apply Permutation_app_head, Permutation_app_comm.
  - intros i c Hi. destruct (Hs _ _ Hi) as [Hi' Hjk]. destruct (Hk _ _ Hi') as (j & u & Hu & Ht & Hid & Hm).
    specialize (Hjk _ _ Hu Ht). exists j, u. rewrite lookup_take_lt, take_take, Nat.min_l by lia. done.
Qed.
End Steps.
