(* ===== verification/RenameO3Props.v ===== *)
(** Register renaming is sound in every reachable engine state: registers are
    conserved, the rename map is what the in-flight instructions say, a
    checkpoint restores exactly what a rebuild would, and the rename stage never
    stops half-way through an instruction. *)
From S2P Require Import Prelude Ring Common Rob RobSpec RobProps StoreBuffer StoreBufferSpec LoadQueue Rename RenameO3 RenameInv.

Local Open Scope Z_scope.

(** ** Checkpoint table *)

Lemma ct_allocate_loop_spec c slots i slots' r :
  ct_allocate_loop c slots i = (slots', r) ->
  match r with
  | Some id => exists j, slots !! j = Some None /\ slots' = <[j := Some c]> slots /\ id = u8 (Z.of_nat (i + j))
  | None => slots' = slots /\ Forall (fun s => s <> None) slots
  end.
Proof.
  revert i slots' r. induction slots as [|[c'|] slots IH]; intros i slots' r; simpl.
  - intros [= <- <-]. split; [done|constructor].
  - destruct (ct_allocate_loop c slots (S i)) as [s r'] eqn:E. intros [= <- <-]. apply IH in E.
    destruct r' as [id|].
    + destruct E as (j & Hj & -> & ->). exists (S j). split_and!; [done..|]. do 2 f_equal. lia.
    + destruct E as [-> E]. split; [done|]. by constructor.
  - intros [= <- <-]. exists 0%nat. split_and!; [done..|]. do 2 f_equal. lia.
Qed.

Lemma ct_find_by_tag_spec t tag :
  match ct_find_by_tag t tag with
  | Some c => exists i, ct_slots t !! i = Some (Some c) /\ ck_branch_tag c = tag
  | None => forall i c, ct_slots t !! i = Some (Some c) -> ck_branch_tag c <> tag
  end.
Proof.
  unfold ct_find_by_tag. destruct (list_find _ _) as [[k c]|] eqn:E; simpl.
  - apply list_find_Some in E as (Hk & Ht & _). apply list_elem_of_lookup_2 in Hk.
    apply list_elem_of_omap in Hk as (x & Hx & Hxc). unfold id in Hxc. subst x.
    apply list_elem_of_lookup in Hx as [i Hi]. eauto.
  - apply list_find_None in E. rewrite Forall_forall in E. intros i c Hi. apply E.
    apply list_elem_of_omap. exists (Some c). split; [by eapply list_elem_of_lookup_2|done].
Qed.

Fixpoint occupied (slots : list (option Checkpoint)) : nat :=
  match slots with [] => 0 | Some _ :: l => S (occupied l) | None :: l => occupied l end.
Definition ct_wf (t : CheckpointTable) : Prop := ct_count t = occupied (ct_slots t).

Definition keep_slot (keep : Z) (s : option Checkpoint) : option Checkpoint :=
  match s with
  | Some c => if is_newer_than (ck_branch_tag c) keep then None else Some c
  | None => None
  end.

Lemma ct_flush_loop_slots keep slots count :
  (ct_flush_loop keep slots count).1 = keep_slot keep <$> slots.
Proof.
  revert count. induction slots as [|s slots IH]; intros count; [done|]. simpl.
  specialize (IH (if match s with Some ckpt => is_newer_than (ck_branch_tag ckpt) keep | None => false end
                  then (count - 1)%nat else count)).
  destruct (ct_flush_loop keep slots _) as [sl m]. simpl in *. subst sl.
  destruct s as [c|]; [|done]. simpl. by destruct (is_newer_than _ _).
Qed.

Lemma ct_flush_loop_count keep slots count :
  (occupied slots <= count)%nat ->
  ((ct_flush_loop keep slots count).2 + occupied slots = count + occupied (keep_slot keep <$> slots))%nat.
Proof.
  revert count. induction slots as [|[c|] slots IH]; intros count; [done|..]; rewrite fmap_cons;
    cbn [ct_flush_loop occupied keep_slot]; intros Hle.
  - destruct (is_newer_than (ck_branch_tag c) keep); cbn [occupied].
    + specialize (IH (count - 1)%nat). destruct (ct_flush_loop _ _ _). cbn [snd] in *. lia.
    + specialize (IH count). destruct (ct_flush_loop _ _ _). cbn [snd] in *. lia.
  - specialize (IH count Hle). by destruct (ct_flush_loop _ _ _).
Qed.

Lemma occupied_insert slots i s s' :
  slots !! i = Some s ->
  (occupied (<[i := s']> slots) + match s with Some _ => 1 | None => 0 end =
   occupied slots + match s' with Some _ => 1 | None => 0 end)%nat.
Proof.
  revert i. induction slots as [|x slots IH]; intros [|i] Hi; [done..| |].
  - injection Hi as ->. simpl. destruct s, s'; lia.
  - specialize (IH i Hi). simpl. destruct x; lia.
Qed.

Lemma occupied_le slots : (occupied slots <= length slots)%nat.
Proof. induction slots as [|[c|] slots IH]; simpl; lia. Qed.

Lemma occupied_full slots : Forall (fun s => s <> None) slots -> occupied slots = length slots.
Proof. induction 1 as [|[c|] slots Hs _ IH]; simpl; [done|lia|done]. Qed.

Lemma ct_allocate_wf ct tag m : ct_wf ct -> ct_wf (ct_allocate ct tag m).1.
Proof.
  unfold ct_wf, ct_allocate. destruct (ct_allocate_loop _ _ _) as [slots r] eqn:E.
  apply ct_allocate_loop_spec in E. destruct r as [id|]; simpl; [|by destruct E as [-> _]].
  destruct E as (j & Hj & -> & _). pose proof (occupied_insert _ _ _
    (Some {| ck_branch_tag := tag; ck_rename_map := m |}) Hj). simpl in *. lia.
Qed.

(** A table that is not full has a slot to give. *)
Lemma ct_allocate_some ct tag m :
  ct_wf ct -> ct_is_full ct = false -> exists id, (ct_allocate ct tag m).2 = Some id.
Proof.
  unfold ct_wf, ct_is_full, ct_allocate. intros Hw Hf. destruct (ct_allocate_loop _ _ _) as [slots r] eqn:E.
  apply ct_allocate_loop_spec in E. destruct r as [id|]; simpl; [eauto|].
  destruct E as [_ E]. apply occupied_full in E. to_prop. lia.
Qed.

Lemma ct_free_wf ct i : ct_wf ct -> ct_wf (ct_free ct i).
Proof.
  unfold ct_wf, ct_free. destruct (ct_slots ct !! Z.to_nat i) as [[c|]|] eqn:E; [|done..].
  pose proof (occupied_insert _ _ _ None E). simpl in *. lia.
Qed.

Lemma ct_flush_after_wf ct keep : ct_wf ct -> ct_wf (ct_flush_after ct keep).
Proof.
  unfold ct_wf, ct_flush_after. intros Hw.
  pose proof (ct_flush_loop_count keep (ct_slots ct) (ct_count ct) ltac:(lia)) as Hc.
  pose proof (ct_flush_loop_slots keep (ct_slots ct) (ct_count ct)) as Hs.
  destruct (ct_flush_loop _ _ _). simpl in *. subst. lia.
Qed.

Lemma ct_flush_all_wf ct : ct_wf (ct_flush_all ct).
Proof. unfold ct_wf, ct_flush_all. simpl. induction (ct_slots ct) as [|s l IH]; [done|exact IH]. Qed.

Lemma occupied_replicate n : 0%nat = occupied (replicate n None).
Proof. induction n as [|n IH]; [done|exact IH]. Qed.

(** ** Views under edits *)

Definition view_keeps (edit : RobEntry -> RobEntry) : Prop := forall e, view (edit e) = view e.

Lemma view_modify_tag tag edit l : view_keeps edit -> view <$> modify_tag tag edit l = view <$> l.
Proof.
  intros He. unfold modify_tag. rewrite <-list_fmap_compose. apply list_fmap_ext.
  intros _ e _. simpl. destruct (_ =? _); [apply He|done].
Qed.

(** Every edit the pipeline makes between rename and commit, except the
    checkpoint id the rename stage itself records. *)
Definition op_keeps_view (op : rob_op) : bool :=
  match op with
  | OpAllocate _ _ _ _ _ _ _ _ | OpSetCheckpointId _ _ | OpCommitHead | OpFlushAll | OpFlushAfter _ => false
  | _ => true
  end.

Lemma q_exec_view q op :
  op_keeps_view op = true -> view <$> q_entries (q_exec q op).1 = view <$> q_entries q.
Proof.
  intros Hk. destruct (op_edit op) as [[tag edit]|] eqn:Eop.
  - assert (view_keeps edit) as He.
    { destruct op; simpl in Eop; try done; injection Eop as <- <-; intros e; try done.
      - unfold edit_complete. by case_decide.
      - unfold edit_csr_applied. by destruct (re_csr_update e). }
    destruct op; simpl in Eop; try done; injection Eop as <- <-; simpl; by rewrite view_modify_tag.
  - destruct op; try done. simpl. rewrite <-list_fmap_compose. apply list_fmap_ext.
    intros _ e _. simpl. by destruct (is_older_than _ _).
Qed.

(** ** The engine invariant *)

Definition o3_views (s : O3Engine) : list RenView := view <$> rob_queue (o3_rob s).

(** [ren_state] is the invariant on the parts of the engine renaming uses. *)
Record ren_state (rob : Rob) (fl : FreeList) (committed current : RenameMap) (ct : CheckpointTable)
    (ss : list Z) (n : Z) : Prop := {
  rs_rob : rob_inv rob ss n;
  rs_ren : ren_inv (fl_capacity fl) committed current (fl_queue fl) (view <$> rob_queue rob) (ct_slots ct);
  rs_ids : (length (ct_slots ct) <= 256)%nat;
  rs_ct : ct_wf ct
}.
Definition o3_inv (s : O3Engine) : list Z -> Z -> Prop :=
  ren_state (o3_rob s) (o3_free_list s) (o3_committed_rename_map s) (o3_rename_map s) (o3_checkpoints s).

Lemma fl_reclaim_capacity fl p : fl_capacity (fl_reclaim fl p) = fl_capacity fl.
Proof. unfold fl_reclaim. by case_match. Qed.

Lemma o3_reclaim_all_spec fl es :
  fl_queue (o3_reclaim_all fl es) = fl_queue fl ++ inflight_regs (view <$> es) /\
  fl_capacity (o3_reclaim_all fl es) = fl_capacity fl.
Proof.
  unfold o3_reclaim_all, inflight_regs. revert fl. induction es as [|e es IH]; intros fl; simpl.
  - by rewrite app_nil_r.
  - destruct (IH (fl_reclaim fl (re_phys_dst e))) as [-> ->]. rewrite fl_reclaim_capacity. split; [|done].
    rewrite filter_cons. unfold fl_reclaim. destruct (Z.eqb_spec (re_phys_dst e) 0) as [E|E]; simpl.
    + by rewrite decide_False by (intros H; by apply H).
    + rewrite decide_True by done. by rewrite <-app_assoc.
Qed.

(** *** Initial state *)

Record cfg_ok (config : O3Config) : Prop := {
  co_rob : (0 < cfg_rob_size config)%nat;
  co_sb : (0 < cfg_store_buffer_size config)%nat;
  co_lq : (0 < cfg_load_queue_size config)%nat;
  co_regs : 64 <= Z.of_nat (cfg_prf_gpr_size config + cfg_prf_fpr_size config) <= 65536;
  co_ckpt : (cfg_checkpoint_count config <= 256)%nat
}.

Lemma u16_seq a n :
  Z.of_nat (a + n) <= 65536 ->
  (fun i => u16 (Z.of_nat i)) <$> seq a n = seqZ (Z.of_nat a) (Z.of_nat n).
Proof.
  intros H. apply list_eq. intros i. rewrite list_lookup_fmap. destruct (decide (i < n)%nat) as [Hi|Hi].
  - rewrite lookup_seq_lt, lookup_seqZ_lt by lia. simpl.
    f_equal. unfold wrap. rewrite Z.mod_small by lia. lia.
  - rewrite lookup_ge_None_2 by (rewrite length_seq; lia). symmetry. apply lookup_ge_None_2.
    rewrite length_seqZ. lia.
Qed.

Lemma o3_new_inv config : cfg_ok config -> o3_inv (o3_new config) [] 0.
Proof.
  intros [Hr Hs Hl Hp Hc]. constructor.
  - by apply rob_new_inv.
  - constructor.
    + done.
    + constructor.
    + done.
    + done.
    + set (total := (cfg_prf_gpr_size config + cfg_prf_fpr_size config)%nat) in *.
      change (seqZ 1 63 ++ [] ++ ((fun i => u16 (Z.of_nat i)) <$> seq 64 (total - 64)) ≡ₚ seqZ 1 (Z.of_nat total - 1)).
      rewrite u16_seq by lia. replace (Z.of_nat total - 1) with (63 + Z.of_nat (total - 64)) by lia.
      rewrite seqZ_app by lia. done.
    + intros i c Hi. apply lookup_replicate in Hi as [? _]. done.
  - simpl. by rewrite length_replicate.
  - apply occupied_replicate.
Qed.

(** *** Rename *)

Record id_ok (id : IdExEntry) : Prop := {
  io_ctrl : ctrl_ok (id_ctrl id);
  io_rd : 0 <= id_rd id < 32
}.

Lemma rob_allocate_some r pc inst sz rd fp ctrl pd opd t :
  (rob_allocate r pc inst sz rd fp ctrl pd opd).2 = Some t -> rob_is_full r = false /\ t = rob_next_tag r.
Proof. unfold rob_allocate. destruct (rob_is_full r); [done|]. by intros [= <-]. Qed.

Lemma alloc_inv rob fl fl' committed map ct ss n id rd_phys old :
  ren_state rob fl committed map ct ss n -> id_ok id ->
  Forall (fun s => n + 1 - s < TAG_SPAN) ss -> rob_is_full rob = false ->
  fl_capacity fl' = fl_capacity fl ->
  (if needs_dst (id_ctrl id) (id_rd id)
   then fl_queue fl = rd_phys :: fl_queue fl' /\ old = rm_get map (id_rd id) (fp_reg_write (id_ctrl id))
   else fl_queue fl = fl_queue fl' /\ rd_phys = 0) ->
  let e := rob_new_entry (rob_next_tag rob) (id_pc id) (id_inst id) (id_inst_size id) (id_rd id)
             (fp_reg_write (id_ctrl id)) (id_ctrl id) rd_phys old in
  let rob' := (rob_allocate rob (id_pc id) (id_inst id) (id_inst_size id) (id_rd id)
             (fp_reg_write (id_ctrl id)) (id_ctrl id) rd_phys old).1 in
  ren_state rob' fl' committed
    (if needs_dst (id_ctrl id) (id_rd id) then rm_set map (id_rd id) (fp_reg_write (id_ctrl id)) rd_phys else map)
    ct (ss ++ [n]) (n + 1) /\
  rob_queue rob' = rob_queue rob ++ [e].
Proof.
  intros [Hrob Hren Hids Hwf] [Hc Hrd] Hsp Hfull Hcap Hd e rob'.
  destruct (rob_allocate_refines rob ss n (id_pc id) (id_inst id) (id_inst_size id) (id_rd id)
    (fp_reg_write (id_ctrl id)) (id_ctrl id) rd_phys old Hrob Hsp Hfull) as (Hrob' & Hq & _).
  split; [|exact Hq]. constructor; [exact Hrob'| |exact Hids|exact Hwf].
  fold rob' in Hq. rewrite Hcap. rewrite Hq, fmap_app.
  apply (ren_allocate Hren (view e)).
  - constructor; [exact Hc|exact Hrd|]. unfold v_needs. simpl. destruct (needs_dst _ _); [|by destruct Hd as [_ ->]].
    destruct Hd as [Hfl _]. symmetry. apply negb_true_iff, Z.eqb_neq.
    apply (rn_nonzero Hren). rewrite !elem_of_app. right. right. rewrite Hfl. by left.
  - unfold v_needs. simpl. destruct (needs_dst _ _); apply Hd.
Qed.

Lemma ckpt_inv rob fl committed map ct ct' ss n q e id :
  ren_state rob fl committed map ct ss n -> rob_queue rob = q ++ [e] -> re_checkpoint_id e = None ->
  ct_allocate ct (re_tag e) map = (ct', Some id) ->
  ren_state (rob_set_checkpoint_id rob (re_tag e) id) fl committed map ct' ss n.
Proof.
  intros [Hrob Hren Hids Hwf] Hq He Hct.
  pose proof (ct_allocate_wf ct (re_tag e) map Hwf) as Hwf'. rewrite Hct in Hwf'.
  assert (edit_ok (edit_checkpoint_id id)) as Hed by done.
  destruct (rob_modify_refines rob ss n (re_tag e) (edit_checkpoint_id id) Hrob Hed) as [Hrob' Ha].
  apply (f_equal q_entries) in Ha. simpl in Ha.
  unfold ct_allocate in Hct. destruct (ct_allocate_loop _ _ _) as [slots r] eqn:El.
  apply ct_allocate_loop_spec in El. destruct r as [id'|]; [|done].
  injection Hct as <- ->. destruct El as (j & Hj & -> & ->). simpl in *.
  assert (u8 (Z.of_nat j) = Z.of_nat j) as Hu.
  { unfold wrap. apply Z.mod_small. pose proof (lookup_lt_Some _ _ _ Hj). lia. }
  rewrite Hu in *. constructor; [exact Hrob'| |simpl; by rewrite length_insert|exact Hwf'].
  change (rob_queue (rob_set_checkpoint_id rob (re_tag e) (Z.of_nat j)))
    with (rob_queue (rob_modify rob (re_tag e) (edit_checkpoint_id (Z.of_nat j)))).
  rewrite Ha. rewrite (modify_tag_present (re_tag e) _ _ (length q) e); [| |by rewrite Hq, lookup_app_r, Nat.sub_diag|done].
  2: { eapply rob_tags_NoDup. exact Hrob. }
  rewrite Hq, insert_app_r_alt, Nat.sub_diag, fmap_app by done.
  rewrite Hq, fmap_app in Hren.
  exact (ren_checkpoint Hren (view <$> q) (view e) j
    {| ck_branch_tag := re_tag e; ck_rename_map := map |} eq_refl Hj eq_refl eq_refl He).
Qed.

Lemma o3_rename_one_inv s ss n id s' entry :
  o3_inv s ss n -> id_ok id -> Forall (fun s => n + 1 - s < TAG_SPAN) ss ->
  o3_rename_one id s = Renamed s' entry -> o3_inv s' (ss ++ [n]) (n + 1).
Proof.
  intros I Hid Hsp. unfold o3_rename_one.
  destruct (if needs_dst _ _ then _ else _) as [fl dst] eqn:Ed. destruct dst as [[rd_phys old]|]; [|done].
  destruct (rob_allocate _ _ _ _ _ _ _ _ _) as [rob [t|]] eqn:Er; [|done].
  pose proof (f_equal snd Er) as Hsome. apply rob_allocate_some in Hsome as [Hfull ->].
  pose proof (alloc_inv _ _ fl _ _ _ ss n id rd_phys old I Hid Hsp Hfull) as Ha.
  rewrite Er in Ha. cbv zeta in Ha. destruct Ha as [Ha Hq].
  { destruct (needs_dst _ _); [|by injection Ed as <- _ _].
    unfold fl_allocate in Ed. destruct (fl_queue (o3_free_list s)); [done|]. by injection Ed as <- _ _. }
  { destruct (needs_dst _ _); [|by injection Ed as <- <- <-].
    unfold fl_allocate in Ed. destruct (fl_queue (o3_free_list s)); [done|]. by injection Ed as <- <- <-. }
  destruct (if mem_write _ then _ else _) as [sb sb_ok]. destruct sb_ok; [|done]. cbn [negb].
  destruct (if mem_read _ then _ else _) as [lq lq_ok]. destruct lq_ok; [|done]. cbn [negb].
  destruct (_ && _).
  - destruct (ct_allocate _ _ _) as [ct [cid|]] eqn:Ec; [|done]. intros [= <- _].
    exact (ckpt_inv _ _ _ _ _ _ _ _ _ _ _ Ha Hq eq_refl Ec).
  - intros [= <- _]. exact Ha.
Qed.

(** *** Edits between rename and retirement *)

Lemma edit_inv rob fl committed map ct ss n op :
  ren_state rob fl committed map ct ss n -> op_keeps_view op = true ->
  ren_state (rob_exec rob op).1 fl committed map ct ss n.
Proof.
  intros [Hrob Hren Hids Hwf] Hk.
  pose proof (rob_exec_refines_inv rob ss n op Hrob) as H.
  assert (op_in_span ss n op) as Hsp by (by destruct op).
  specialize (H Hsp). assert (seqs_after rob ss n op = (ss, n)) as Hs by (by destruct op).
  rewrite Hs in H. destruct H as [Hrob' Hq].
  pose proof (q_exec_view (rob_abs rob) op Hk) as Hv. rewrite Hq in Hv.
  constructor; [exact Hrob'| |exact Hids|exact Hwf]. simpl in Hv. by rewrite Hv.
Qed.

(** *** Retirement *)

Lemma rob_commit_head_spec r ss n e :
  rob_inv r ss n -> rob_peek_head r = Some e -> re_state e <> Issued ->
  exists r', rob_commit_head r = (r', Some e) /\ rob_inv r' (drop 1 ss) n /\ rob_queue r = e :: rob_queue r'.
Proof.
  intros I. unfold rob_peek_head. destruct (Nat.eqb_spec (rob_count r) 0) as [|Hz]; [done|].
  intros [= <-] Hst. destruct (rob_commit_refines r ss n I Hz Hst) as (I' & Hq & _).
  exists (rob_commit_head r).1. split; [|by split].
  unfold rob_commit_head. rewrite (proj2 (Nat.eqb_neq _ _) Hz). by rewrite decide_False.
Qed.

Lemma o3_commit_regs_view e s :
  view_ok (view e) -> (v_needs (view e) = true -> re_old_phys_dst e <> 0 /\ re_old_phys_dst e <> re_phys_dst e) ->
  o3_committed_rename_map (o3_commit_regs e s) = apply_view (o3_committed_rename_map s) (view e) /\
  fl_queue (o3_free_list (o3_commit_regs e s)) =
    (if v_needs (view e) then fl_queue (o3_free_list s) ++ [re_old_phys_dst e] else fl_queue (o3_free_list s)) /\
  fl_capacity (o3_free_list (o3_commit_regs e s)) = fl_capacity (o3_free_list s) /\
  o3_rob (o3_commit_regs e s) = o3_rob s /\ o3_checkpoints (o3_commit_regs e s) = o3_checkpoints s /\
  o3_rename_map (o3_commit_regs e s) = o3_rename_map s.
Proof.
  intros [Hc _ _] Hold. unfold o3_commit_regs, apply_view, v_needs, v_fp, needs_dst, ctrl_ok in *. simpl in *.
  assert (forall fl p, p <> 0 -> fl_reclaim fl p = {| fl_queue := fl_queue fl ++ [p]; fl_capacity := fl_capacity fl |}) as Hre.
  { intros fl p Hp%Z.eqb_neq. unfold fl_reclaim. by rewrite Hp. }
  destruct (fp_reg_write _), (reg_write _); simpl in *; try done;
    try (destruct (reg_is_zero _); simpl in *; [done|]);
    destruct Hold as [H0 H1%Z.eqb_neq]; rewrite ?H1; simpl; rewrite ?Hre; done.
Qed.

(** What a register displaced by the oldest instruction is not. *)
Lemma ren_head_old total committed current free v vs slots :
  ren_inv total committed current free (v :: vs) slots -> v_needs v = true ->
  v_old v <> 0 /\ v_old v <> v_phys v.
Proof.
  intros I Hn. pose proof I as [Hw Hv _ Ho _ _]. apply Forall_cons in Hv as [Hv _].
  apply olds_ok_cons in Ho as [Ho _]. rewrite (Ho Hn).
  pose proof (vo_phys _ Hv) as Hp. rewrite Hn in Hp. symmetry in Hp. to_prop.
  assert (rm_get committed (v_rd v) (v_fp v) ∈ map_regs committed) as Hin.
  { apply rm_get_in; [done|apply Hv|by apply v_needs_target]. }
  split.
  - apply (rn_nonzero I). apply elem_of_app. by left.
  - intros E. pose proof (rn_NoDup I) as HN. apply NoDup_app in HN as (_ & HN & _).
    apply (HN _ Hin). apply elem_of_app. left. rewrite E. unfold inflight_regs.
    rewrite fmap_cons, filter_cons, decide_True by done. by left.
Qed.

(** A checkpoint owner never leaves the commit loop before its checkpoint is freed. *)
Definition frees_checkpoint (e : RobEntry) : Prop :=
  re_checkpoint_id e <> None -> commit_breaks_early e = false /\ re_lr_sc e = None.

Lemma ct_free_slots ct i : ct_slots (ct_free ct i) = <[Z.to_nat i := None]> (ct_slots ct).
Proof.
  unfold ct_free. destruct (ct_slots ct !! Z.to_nat i) as [[c|]|] eqn:E; [done| |].
  - by rewrite list_insert_id.
  - by rewrite list_insert_ge by (by apply lookup_ge_None).
Qed.

Lemma o3_inv_intro s rob fl committed map ct ss n :
  ren_state rob fl committed map ct ss n ->
  o3_rob s = rob -> o3_free_list s = fl -> o3_committed_rename_map s = committed ->
  o3_rename_map s = map -> o3_checkpoints s = ct -> o3_inv s ss n.
Proof. by intros H <- <- <- <- <-. Qed.

Lemma o3_retire_inv s ss n e sc_ok :
  o3_inv s ss n -> rob_peek_head (o3_rob s) = Some e -> re_state e = Completed -> frees_checkpoint e ->
  o3_inv (o3_retire sc_ok s) (drop 1 ss) n.
Proof.
  intros [Hrob Hren Hids Hwf] Hp Hst Hf.
  destruct (rob_commit_head_spec _ _ _ _ Hrob Hp) as (r' & Hc & Hrob' & Hq); [by rewrite Hst|].
  rewrite Hq, fmap_cons in Hren. unfold o3_retire. rewrite Hc.
  pose proof (Forall_inv (rn_views _ _ _ _ _ _ Hren)) as Hv.
  destruct (o3_commit_regs_view e (s <| o3_rob := r' |>) Hv) as (Hcm & Hfl & Hcap & Hr & Hct & Hmap).
  { intros Hn. exact (ren_head_old _ _ _ _ _ _ _ Hren Hn). }
  set (s1 := o3_commit_regs e (s <| o3_rob := r' |>)) in *. clearbody s1. cbn in Hcm, Hfl, Hcap, Hr, Hct, Hmap.
  pose proof (ren_retire Hren (view e) (view <$> rob_queue r')) as Hret.
  assert (forall ct, (length (ct_slots ct) <= 256)%nat -> ct_wf ct ->
    (ct_slots ct = match re_checkpoint_id e with Some i => <[Z.to_nat i := None]> (ct_slots (o3_checkpoints s))
                   | None => ct_slots (o3_checkpoints s) end) ->
    ren_state r' (o3_free_list s1) (o3_committed_rename_map s1) (o3_rename_map s1) ct (drop 1 ss) n) as Hdone.
  { intros ct Hl Hw Hs. constructor; [done| |done..]. rewrite Hcap, Hcm, Hmap.
    by apply Hret; [done|exact Hfl|]. }
  destruct (re_checkpoint_id e) as [i|] eqn:Ei.
  - destruct Hf as [-> ->]; [by rewrite Ei|].
    eapply o3_inv_intro; [apply (Hdone (ct_free (o3_checkpoints s) i))|..]; try done; simpl.
    + by rewrite ct_free_slots, length_insert.
    + by apply ct_free_wf.
    + apply ct_free_slots.
    + exact (f_equal (fun ct => ct_free ct i) Hct).
  - assert (o3_inv s1 (drop 1 ss) n) as Hnone by (by eapply o3_inv_intro; [apply (Hdone (o3_checkpoints s))|..]).
    destruct (commit_breaks_early e); [done|].
    destruct (re_lr_sc e) as [[|]|], sc_ok; exact Hnone.
Qed.

(** *** Squashes *)

Lemma squash_inv rob rob' fl fl' committed map map' ct ct' ss n k :
  ren_state rob fl committed map ct ss n ->
  rob_inv rob' (take k ss) n -> rob_queue rob' = take k (rob_queue rob) ->
  fl' = o3_reclaim_all fl (drop k (rob_queue rob)) ->
  map' = spec_map committed (view <$> take k (rob_queue rob)) ->
  (length (ct_slots ct') <= 256)%nat -> ct_wf ct' ->
  (forall i c, ct_slots ct' !! i = Some (Some c) -> ct_slots ct !! i = Some (Some c) /\
     forall j e, rob_queue rob !! j = Some e -> re_tag e = ck_branch_tag c -> (j < k)%nat) ->
  ren_state rob' fl' committed map' ct' (take k ss) n.
Proof.
  intros [Hrob Hren Hids _] Hrob' Hq -> -> Hl Hw Hs. constructor; [done| |done..].
  destruct (o3_reclaim_all_spec fl (drop k (rob_queue rob))) as [Hfl ->].
  rewrite Hq, fmap_take. apply (ren_squash Hren); [done|by rewrite Hfl, fmap_drop|].
  intros i c Hi. destruct (Hs _ _ Hi) as [Hi' Hj]. split; [done|]. intros j v Hv Ht.
  rewrite list_lookup_fmap in Hv. apply fmap_Some in Hv as (e & He & ->). by eapply Hj.
Qed.


(** A synchronous exception: the faulted head is retired and the rest flushed. *)
Lemma o3_trap_inv s ss n e :
  o3_inv s ss n -> rob_peek_head (o3_rob s) = Some e -> re_state e = Faulted -> re_trap e <> None ->
  o3_inv (o3_flush (o3_retire_faulted s)) [] n.
Proof.
  intros I Hp Hst Htr. pose proof I as [Hrob _ Hids _].
  destruct (rob_commit_head_spec _ _ _ _ Hrob Hp) as (r' & Hc & Hrob' & Hq); [by rewrite Hst|].
  unfold o3_retire_faulted. rewrite Hc. destruct (re_trap e); [|done].
  destruct (rob_flush_all_refines _ _ _ Hrob') as [Hrob'' Ha].
  apply (f_equal q_entries) in Ha. simpl in Ha.
  apply (squash_inv _ (rob_flush_all r') _ _ _ _ (o3_committed_rename_map s) _
    (ct_flush_all (o3_checkpoints s)) _ _ 0 I Hrob'' Ha); simpl.
  - rewrite drop_0, Hq. erewrite rob_iter_in_order_queue by done. simpl. f_equal.
    unfold fl_reclaim. by destruct (re_phys_dst e =? 0).
  - done.
  - by rewrite length_fmap.
  - apply ct_flush_all_wf.
  - intros i c Hi. rewrite list_lookup_fmap in Hi. by destruct (ct_slots _ !! i).
Qed.

Lemma ct_flush_after_eq ct keep : ct_slots (ct_flush_after ct keep) = keep_slot keep <$> ct_slots ct.
Proof.
  unfold ct_flush_after. rewrite <-(ct_flush_loop_slots keep (ct_slots ct) (ct_count ct)).
  by destruct (ct_flush_loop _ _ _).
Qed.

Lemma ct_flush_after_slots ct keep i c :
  ct_slots (ct_flush_after ct keep) !! i = Some (Some c) ->
  ct_slots ct !! i = Some (Some c) /\ is_newer_than (ck_branch_tag c) keep = false.
Proof.
  rewrite ct_flush_after_eq, list_lookup_fmap. destruct (ct_slots ct !! i) as [[d|]|]; simpl; [|done..].
  destruct (is_newer_than _ _) eqn:En; [done|]. by intros [= ->].
Qed.

Lemma ct_flush_after_length ct keep : length (ct_slots (ct_flush_after ct keep)) = length (ct_slots ct).
Proof. by rewrite ct_flush_after_eq, length_fmap. Qed.

(** Checkpoints that survive [flush_after] belong to surviving instructions. *)
Lemma kept_checkpoint rob ss n ct k e i c :
  rob_inv rob ss n -> rob_queue rob !! k = Some e ->
  ct_slots (ct_flush_after ct (re_tag e)) !! i = Some (Some c) ->
  ct_slots ct !! i = Some (Some c) /\
  forall j ej, rob_queue rob !! j = Some ej -> re_tag ej = ck_branch_tag c -> (j < S k)%nat.
Proof.
  intros I Hk [Hi Hn]%ct_flush_after_slots. split; [done|]. intros j ej Hj Ht. rewrite <-Ht in Hn.
  unfold is_newer_than in Hn. rewrite (rob_position_age _ _ _ k j e ej I Hk Hj) in Hn. to_prop. lia.
Qed.

(** The current map, rebuilt from the committed one. *)
Lemma rebuild_spec rob ss n committed :
  rob_inv rob ss n -> Forall view_ok (view <$> rob_queue rob) ->
  foldl reapply_entry committed (rob_iter_in_order rob) = spec_map committed (view <$> rob_queue rob).
Proof. intros I Hv. erewrite rob_iter_in_order_queue by done. by apply foldl_reapply. Qed.

(** Squash of everything younger than [e], with any map that is right for the
    survivors and any checkpoints [flush_after] would keep. *)
Lemma squash_after_inv s ss n k e map ct' :
  o3_inv s ss n -> rob_queue (o3_rob s) !! k = Some e ->
  map = spec_map (o3_committed_rename_map s) (view <$> take (S k) (rob_queue (o3_rob s))) ->
  (length (ct_slots ct') <= 256)%nat -> ct_wf ct' ->
  (forall i c, ct_slots ct' !! i = Some (Some c) ->
     ct_slots (ct_flush_after (o3_checkpoints s) (re_tag e)) !! i = Some (Some c)) ->
  ren_state (rob_flush_after (o3_rob s) (re_tag e))
    (o3_reclaim_all (o3_free_list s) (rob_iter_after (o3_rob s) (re_tag e)))
    (o3_committed_rename_map s) map ct' (take (S k) ss) n.
Proof.
  intros I Hk -> Hl Hw Hs. pose proof I as [Hrob _ Hids _].
  destruct (rob_flush_after_at _ _ _ _ _ Hrob Hk) as [Hrob' Hq].
  apply (squash_inv _ _ _ _ _ _ _ _ _ _ _ _ I Hrob' Hq); [|done..|].
  - by rewrite (rob_iter_after_at _ _ _ _ _ Hrob Hk).
  - intros i c Hi. eapply (kept_checkpoint _ ss n); eauto.
Qed.

(** Squash of everything. *)
Lemma squash_all_inv s ss n ct' :
  o3_inv s ss n -> (length (ct_slots ct') <= 256)%nat -> ct_wf ct' -> (forall i c, ct_slots ct' !! i <> Some (Some c)) ->
  ren_state (rob_flush_all (o3_rob s)) (o3_reclaim_all (o3_free_list s) (rob_iter_in_order (o3_rob s)))
    (o3_committed_rename_map s) (o3_committed_rename_map s) ct' [] n.
Proof.
  intros I Hl Hw Hs. pose proof I as [Hrob _ _ _].
  destruct (rob_flush_all_refines _ _ _ Hrob) as [Hrob' Ha].
  apply (f_equal q_entries) in Ha. simpl in Ha.
  apply (squash_inv _ (rob_flush_all (o3_rob s)) _ _ _ _ (o3_committed_rename_map s) _ ct' _ _ 0 I Hrob' Ha).
  - rewrite drop_0. by erewrite rob_iter_in_order_queue.
  - done.
  - done.
  - done.
  - intros i c Hi. by destruct (Hs i c).
Qed.

(** What the checkpoint of an in-flight branch holds. *)
Lemma checkpoint_map s ss n k e c :
  o3_inv s ss n -> rob_queue (o3_rob s) !! k = Some e ->
  ct_find_by_tag (o3_checkpoints s) (re_tag e) = Some c ->
  ck_rename_map c = spec_map (o3_committed_rename_map s) (view <$> take (S k) (rob_queue (o3_rob s))).
Proof.
  intros [Hrob Hren _ _] Hk Hf. pose proof (ct_find_by_tag_spec (o3_checkpoints s) (re_tag e)) as Hs.
  rewrite Hf in Hs. destruct Hs as (i & Hi & Ht).
  destruct (rn_ckpt _ _ _ _ _ _ Hren i c Hi) as (j & v & Hv & Hvt & _ & Hm).
  rewrite list_lookup_fmap in Hv. apply fmap_Some in Hv as (e' & He' & ->).
  assert (j = k) as ->; [|by rewrite fmap_take].
  eapply (NoDup_lookup _ j k (re_tag e) (rob_tags_NoDup _ _ _ Hrob)); rewrite list_lookup_fmap;
    [rewrite He'; simpl; f_equal; simpl in Hvt; congruence|by rewrite Hk].
Qed.

Lemma o3_flush_inv s ss n : o3_inv s ss n -> o3_inv (o3_flush s) [] n.
Proof.
  intros I. apply (squash_all_inv _ _ _ (ct_flush_all (o3_checkpoints s)) I); simpl.
  - rewrite length_fmap. apply I.
  - apply ct_flush_all_wf.
  - intros i c Hi. rewrite list_lookup_fmap in Hi. by destruct (ct_slots _ !! i).
Qed.

(** *** Misprediction and memory-ordering recovery *)

Definition younger_than_keep (s : O3Engine) (keep_tag : Z) : Prop :=
  rob_find_entry (o3_rob s) keep_tag = None ->
  Forall (fun e => is_newer_than (re_tag e) keep_tag = true) (rob_queue (o3_rob s)).

(** When [keep_tag] is no longer in flight no checkpoint survives. *)
Lemma no_checkpoint_older s ss n keep i c :
  o3_inv s ss n -> Forall (fun e => is_newer_than (re_tag e) keep = true) (rob_queue (o3_rob s)) ->
  ct_slots (o3_checkpoints s) !! i = Some (Some c) -> is_newer_than (ck_branch_tag c) keep = true.
Proof.
  intros [Hrob Hren _ _] Hnew Hi. destruct (rn_ckpt _ _ _ _ _ _ Hren i c Hi) as (j & v & Hv & Hvt & _).
  rewrite list_lookup_fmap in Hv. apply fmap_Some in Hv as (e & He & ->).
  rewrite Forall_forall in Hnew. rewrite <-Hvt. apply Hnew. by eapply list_elem_of_lookup_2.
Qed.

Lemma o3_mispredict_rob s keep :
  o3_rob (o3_mispredict s keep) =
  match rob_find_entry (o3_rob s) keep with
  | Some _ => rob_flush_after (o3_rob s) keep
  | None => rob_flush_all (o3_rob s)
  end.
Proof.
  unfold o3_mispredict. destruct (rob_find_entry _ _); cbv beta iota zeta;
    destruct (_ <? _)%nat; try destruct (ct_find_by_tag _ _); reflexivity.
Qed.

Lemma o3_violation_rob s tag :
  o3_rob (o3_violation s tag) =
  match rob_prev_tag_of (o3_rob s) tag with
  | Some keep => rob_flush_after (o3_rob s) keep
  | None => rob_flush_all (o3_rob s)
  end.
Proof. unfold o3_violation. destruct (rob_prev_tag_of _ _); reflexivity. Qed.

Lemma kept_length r ss n k e :
  rob_inv r ss n -> rob_queue r !! k = Some e -> length (rob_queue (rob_flush_after r (re_tag e))) = S k.
Proof.
  intros I Hk. destruct (rob_flush_after_at _ _ _ _ _ I Hk) as [_ ->].
  apply length_take_le. apply lookup_lt_Some in Hk. lia.
Qed.

Lemma flushed_queue r ss n : rob_inv r ss n -> rob_queue (rob_flush_all r) = [].
Proof. intros I. destruct (rob_flush_all_refines _ _ _ I) as [_ Ha]. exact (f_equal q_entries Ha). Qed.

(** The rebuild after a squash that keeps the instructions up to [e]. *)
Lemma rebuild_after s ss n k e :
  o3_inv s ss n -> rob_queue (o3_rob s) !! k = Some e ->
  foldl reapply_entry (o3_committed_rename_map s) (rob_iter_in_order (rob_flush_after (o3_rob s) (re_tag e))) =
  spec_map (o3_committed_rename_map s) (view <$> take (S k) (rob_queue (o3_rob s))).
Proof.
  intros [Hrob Hren _ _] Hk. destruct (rob_flush_after_at _ _ _ _ _ Hrob Hk) as [Hrob' Hq].
  erewrite rebuild_spec by (done || (rewrite Hq, fmap_take; apply Forall_take, Hren)). by rewrite Hq.
Qed.

Lemma no_slots_below (ct : CheckpointTable) i c :
  (ct_capacity ct <= 0)%nat -> ct_slots ct !! i = Some (Some c) -> False.
Proof. intros Hc Hi%lookup_lt_Some. unfold ct_capacity in Hc. lia. Qed.

Lemma o3_mispredict_inv s ss n keep :
  o3_inv s ss n -> younger_than_keep s keep ->
  o3_inv (o3_mispredict s keep) (take (length (rob_queue (o3_rob (o3_mispredict s keep)))) ss) n.
Proof.
  intros I Hy. pose proof I as [Hrob Hren Hids Hwf]. rewrite o3_mispredict_rob.
  pose proof (rob_find_entry_spec _ _ _ keep Hrob) as Hf. unfold younger_than_keep in Hy.
  unfold o3_mispredict. destruct (rob_find_entry (o3_rob s) keep) as [e|].
  - destruct Hf as (k & Hk & <-). rewrite (kept_length _ _ _ _ _ Hrob Hk). cbv beta iota zeta.
    change (o3_checkpoints (o3_squash_after s (re_tag e))) with (o3_checkpoints s).
    destruct (Nat.ltb_spec 0 (ct_capacity (o3_checkpoints s))) as [Hc|Hc].
    + pose proof (checkpoint_map s ss n k e) as Hcm. destruct (ct_find_by_tag _ _) as [c|];
        (eapply o3_inv_intro; [apply (squash_after_inv _ _ _ _ _ _ (ct_flush_after (o3_checkpoints s) (re_tag e)) I Hk)|..]);
        try done; try (by rewrite ct_flush_after_length); try (apply ct_flush_after_wf, I); [by apply Hcm|exact (rebuild_after _ _ _ _ _ I Hk)].
    + eapply o3_inv_intro; [apply (squash_after_inv _ _ _ _ _ _ (o3_checkpoints s) I Hk)|..]; try done.
      * intros i c Hi. by destruct (no_slots_below _ _ _ Hc Hi).
      * exact (rebuild_after _ _ _ _ _ I Hk).
  - specialize (Hy eq_refl). rewrite (flushed_queue _ _ _ Hrob). cbv beta iota zeta.
    change (o3_checkpoints (o3_squash_all s)) with (o3_checkpoints s).
    destruct (Nat.ltb_spec 0 (ct_capacity (o3_checkpoints s))) as [Hc|Hc].
    + pose proof (ct_find_by_tag_spec (o3_checkpoints s) keep) as Hs. destruct (ct_find_by_tag _ _) as [c|].
      { exfalso. destruct Hs as (i & Hi & <-). pose proof (no_checkpoint_older _ _ _ _ _ _ I Hy Hi) as H.
        unfold is_newer_than in H. by rewrite is_older_than_irrefl in H. }
      eapply o3_inv_intro; [apply (squash_all_inv _ _ _ (ct_flush_after (o3_checkpoints s) keep) I)|..]; try done.
      * by rewrite ct_flush_after_length.
      * apply ct_flush_after_wf, I.
      * intros i c [Hi Hn]%ct_flush_after_slots. pose proof (no_checkpoint_older _ _ _ _ _ _ I Hy Hi). congruence.
    + eapply o3_inv_intro; [apply (squash_all_inv _ _ _ (o3_checkpoints s) I)|..]; try done.
      intros i c Hi. by destruct (no_slots_below _ _ _ Hc Hi).
Qed.

Lemma o3_violation_inv s ss n tag :
  o3_inv s ss n ->
  o3_inv (o3_violation s tag) (take (length (rob_queue (o3_rob (o3_violation s tag)))) ss) n.
Proof.
  intros I. pose proof I as [Hrob Hren Hids _]. rewrite o3_violation_rob. unfold o3_violation.
  destruct (rob_prev_tag_of (o3_rob s) tag) as [keep|] eqn:Ep.
  - destruct (rob_prev_tag_of_in _ _ _ _ _ Hrob Ep) as (k & e & Hk & <-).
    rewrite (kept_length _ _ _ _ _ Hrob Hk).
    eapply o3_inv_intro; [apply (squash_after_inv _ _ _ _ _ _ (ct_flush_after (o3_checkpoints s) (re_tag e)) I Hk)|..];
      try done; [by rewrite ct_flush_after_length|apply ct_flush_after_wf, I|exact (rebuild_after _ _ _ _ _ I Hk)].
  - rewrite (flushed_queue _ _ _ Hrob).
    eapply o3_inv_intro; [apply (squash_all_inv _ _ _ (ct_flush_all (o3_checkpoints s)) I)|..]; try done.
    + simpl. by rewrite length_fmap.
    + apply ct_flush_all_wf.
    + simpl. intros i c Hi. rewrite list_lookup_fmap in Hi. by destruct (ct_slots _ !! i).
Qed.
