(* ===== verification/RenameSound.v ===== *)
(** The properties of register renaming over reachable engine states. *)
From S2P Require Import Prelude Ring Common Rob RobSpec RobProps StoreBuffer StoreBufferSpec LoadQueue Rename RenameO3 RenameInv RenameO3Props.

Local Open Scope Z_scope.

(** ** Reachable engine states *)

(** The steps of other stages: they write results, resolve stores and loads and
    count stalls, but leave the renaming state alone. *)
Record same_renaming (s s' : O3Engine) : Prop := {
  sr_rob : o3_rob s' = o3_rob s;
  sr_free : o3_free_list s' = o3_free_list s;
  sr_committed : o3_committed_rename_map s' = o3_committed_rename_map s;
  sr_map : o3_rename_map s' = o3_rename_map s;
  sr_ckpt : o3_checkpoints s' = o3_checkpoints s
}.

(** [o3_reach config s ss n]: the engine built from [config] can be in state
    [s], with [ss] the sequence numbers in flight and [n] the next one. *)
Inductive o3_reach (config : O3Config) : O3Engine -> list Z -> Z -> Prop :=
| O3Init : cfg_ok config -> o3_reach config (o3_new config) [] 0
| O3Rename s ss n id s' entry :
    o3_reach config s ss n -> id_ok id -> Forall (fun s => n + 1 - s < TAG_SPAN) ss ->
    o3_rename_one id s = Renamed s' entry -> o3_reach config s' (ss ++ [n]) (n + 1)
| O3Edit s ss n op :
    o3_reach config s ss n -> op_keeps_view op = true ->
    o3_reach config (s <| o3_rob := (rob_exec (o3_rob s) op).1 |>) ss n
| O3Other s ss n s' : o3_reach config s ss n -> same_renaming s s' -> o3_reach config s' ss n
| O3Retire s ss n e sc_ok :
    o3_reach config s ss n -> rob_peek_head (o3_rob s) = Some e -> re_state e = Completed ->
    frees_checkpoint e -> o3_reach config (o3_retire sc_ok s) (drop 1 ss) n
| O3Trap s ss n e :
    o3_reach config s ss n -> rob_peek_head (o3_rob s) = Some e -> re_state e = Faulted ->
    re_trap e <> None -> o3_reach config (o3_flush (o3_retire_faulted s)) [] n
| O3Flush s ss n : o3_reach config s ss n -> o3_reach config (o3_flush s) [] n
| O3Mispredict s ss n keep :
    o3_reach config s ss n -> younger_than_keep s keep ->
    o3_reach config (o3_mispredict s keep) (take (length (rob_queue (o3_rob (o3_mispredict s keep)))) ss) n
| O3Violation s ss n tag :
    o3_reach config s ss n ->
    o3_reach config (o3_violation s tag) (take (length (rob_queue (o3_rob (o3_violation s tag)))) ss) n.

Lemma o3_reach_inv config s ss n : o3_reach config s ss n -> o3_inv s ss n.
Proof.
  induction 1 as [Hc|? ? ? ? ? ? _ IH|s ss n op _ IH Hk|s ss n s' _ IH [? ? ? ? ?]| | | | |].
  - by apply o3_new_inv.
  - by eapply o3_rename_one_inv.
  - by apply edit_inv.
  - by eapply o3_inv_intro.
  - by eapply o3_retire_inv.
  - by eapply o3_trap_inv.
  - by eapply o3_flush_inv.
  - by apply o3_mispredict_inv.
  - by apply o3_violation_inv.
Qed.

(** *** The number of physical registers never changes *)

Lemma o3_rename_one_capacity id s s' entry :
  o3_rename_one id s = Renamed s' entry -> fl_capacity (o3_free_list s') = fl_capacity (o3_free_list s).
Proof.
  unfold o3_rename_one. destruct (if needs_dst _ _ then _ else _) as [fl [[p o]|]] eqn:Ed; [|done].
  assert (fl_capacity fl = fl_capacity (o3_free_list s)) as <-.
  { destruct (needs_dst _ _); [|by injection Ed as <- _ _].
    unfold fl_allocate in Ed. destruct (fl_queue (o3_free_list s)); [done|]. by injection Ed as <- _ _. }
  destruct (rob_allocate _ _ _ _ _ _ _ _ _) as [rob [t|]]; [|done].
  destruct (if mem_write _ then _ else _) as [sb [|]]; [|done]. cbn [negb].
  destruct (if mem_read _ then _ else _) as [lq [|]]; [|done]. cbn [negb].
  destruct (_ && _); [|by intros [= <- _]]. destruct (ct_allocate _ _ _) as [ct [c|]]; [|done].
  by intros [= <- _].
Qed.

Lemma o3_commit_regs_capacity e s : fl_capacity (o3_free_list (o3_commit_regs e s)) = fl_capacity (o3_free_list s).
Proof.
  unfold o3_commit_regs. destruct (fp_reg_write _); [|destruct (_ && _); [|done]]; simpl;
    (case_match; [apply fl_reclaim_capacity|done]).
Qed.

Lemma o3_retire_capacity sc_ok s : fl_capacity (o3_free_list (o3_retire sc_ok s)) = fl_capacity (o3_free_list s).
Proof.
  unfold o3_retire. destruct (rob_commit_head _) as [r [e|]]; [|done].
  transitivity (fl_capacity (o3_free_list (o3_commit_regs e (s <| o3_rob := r |>))));
    [|exact (o3_commit_regs_capacity e (s <| o3_rob := r |>))].
  destruct (commit_breaks_early e); [done|]. by destruct (re_lr_sc e) as [[|]|], sc_ok.
Qed.

Lemma o3_trap_capacity s : fl_capacity (o3_free_list (o3_flush (o3_retire_faulted s))) = fl_capacity (o3_free_list s).
Proof.
  simpl. rewrite (proj2 (o3_reclaim_all_spec _ _)). unfold o3_retire_faulted.
  destruct (rob_commit_head _) as [r [e|]]; [|done]. destruct (re_trap e); [|done]. simpl.
  case_match; [apply fl_reclaim_capacity|done].
Qed.

Lemma o3_mispredict_capacity s keep : fl_capacity (o3_free_list (o3_mispredict s keep)) = fl_capacity (o3_free_list s).
Proof.
  transitivity (fl_capacity (o3_reclaim_all (o3_free_list s)
    match rob_find_entry (o3_rob s) keep with
    | Some _ => rob_iter_after (o3_rob s) keep
    | None => rob_iter_in_order (o3_rob s) end)); [|apply o3_reclaim_all_spec].
  unfold o3_mispredict. destruct (rob_find_entry _ _); cbv beta iota zeta;
    destruct (_ <? _)%nat; try destruct (ct_find_by_tag _ _); reflexivity.
Qed.

Lemma o3_violation_capacity s tag : fl_capacity (o3_free_list (o3_violation s tag)) = fl_capacity (o3_free_list s).
Proof.
  unfold o3_violation. destruct (rob_prev_tag_of _ _); simpl; apply o3_reclaim_all_spec.
Qed.

Lemma o3_reach_capacity config s ss n :
  o3_reach config s ss n ->
  fl_capacity (o3_free_list s) = (cfg_prf_gpr_size config + cfg_prf_fpr_size config)%nat.
Proof.
  induction 1 as [Hc|? ? ? ? ? ? _ IH _ _ H|s ss n op _ IH Hk|s ss n s' _ IH [? Hf ? ? ?]|? ? ? ? ? _ IH|? ? ? ? _ IH|? ? ? _ IH|? ? ? ? _ IH|? ? ? ? _ IH];
    rewrite <-?IH.
  - done.
  - by eapply o3_rename_one_capacity.
  - done.
  - by rewrite Hf.
  - apply o3_retire_capacity.
  - apply o3_trap_capacity.
  - apply o3_reclaim_all_spec.
  - apply o3_mispredict_capacity.
  - apply o3_violation_capacity.
Qed.

(** ** Register conservation *)

(** Destination registers of the instructions in flight. *)
Definition inflight_dsts (s : O3Engine) : list Z :=
  filter (fun p => p <> 0) (re_phys_dst <$> rob_queue (o3_rob s)).

(** C22. Physical registers are conserved: in every state the engine can reach,
    through any interleaving of renames, result edits, retirements, traps,
    flushes, misprediction and memory-violation recoveries, the registers of
    the committed map, those in-flight instructions will write and those on the
    free list are together every register but the hardwired zero, each exactly
    once; and no register the speculative map points to is on the free list or
    held under two names, so a renamed destination never overwrites a live
    value. *)
Theorem o3_registers_conserved (config : O3Config) (s : O3Engine) (ss : list Z) (n : Z) :
  o3_reach config s ss n ->
  map_regs (o3_committed_rename_map s) ++ inflight_dsts s ++ fl_queue (o3_free_list s)
    ≡ₚ all_regs (cfg_prf_gpr_size config + cfg_prf_fpr_size config) /\
  NoDup (map_regs (o3_rename_map s) ++ fl_queue (o3_free_list s)).
Proof.
  intros H. pose proof (o3_reach_capacity _ _ _ _ H) as Hcap.
  destruct (o3_reach_inv _ _ _ _ H) as [Hrob Hren _ _]. rewrite Hcap in Hren.
  assert (inflight_regs (view <$> rob_queue (o3_rob s)) = inflight_dsts s) as Hi.
  { unfold inflight_regs, inflight_dsts. by rewrite <-list_fmap_compose. }
  pose proof (rn_regs _ _ _ _ _ _ Hren) as Hr. pose proof (rn_NoDup Hren) as HN.
  rewrite Hi in Hr, HN. split; [exact Hr|].
  destruct Hren as [Hw Hv Hc Ho _ _]. pose proof (spec_map_regs _ _ Hw Hv Ho) as Hs.
  rewrite <-Hc, Hi in Hs. rewrite app_assoc, <-Hs, <-app_assoc in HN.
  eapply sublist_NoDup; [exact HN|]. apply sublist_app; [done|]. by apply sublist_inserts_l.
Qed.

(** ** Recovery of the rename map *)

(** C23. The speculative rename map is always the one a walk of the reorder
    buffer from the committed map would rebuild, and restoring the checkpoint
    of an in-flight branch gives exactly the map such a walk would give after
    squashing everything younger than the branch, although retirement has moved
    the committed map since the checkpoint was taken. *)
Theorem o3_checkpoint_is_rebuild (config : O3Config) (s : O3Engine) (ss : list Z) (n : Z) :
  o3_reach config s ss n ->
  o3_rename_map s = o3_rename_map (o3_rebuild_rename_map s) /\
  forall e c, e ∈ rob_queue (o3_rob s) -> ct_find_by_tag (o3_checkpoints s) (re_tag e) = Some c ->
    ck_rename_map c = o3_rename_map (o3_rebuild_rename_map (o3_squash_after s (re_tag e))).
Proof.
  intros H%o3_reach_inv. pose proof H as [Hrob Hren _ _]. split.
  - rewrite (rn_current _ _ _ _ _ _ Hren). symmetry. eapply rebuild_spec; [done|apply Hren].
  - intros e c He Hc. apply list_elem_of_lookup in He as [k Hk].
    rewrite (checkpoint_map _ _ _ _ _ _ H Hk Hc). symmetry. exact (rebuild_after _ _ _ _ _ H Hk).
Qed.

(** ** The rename stage *)

(** At least [b] slots in every structure an instruction may need. *)
Record has_room (b : nat) (s : O3Engine) : Prop := {
  hr_rob : (b <= rob_free_slots (o3_rob s))%nat;
  hr_sb : (b <= sb_free_slots (o3_store_buffer s))%nat;
  hr_lq : (b <= lq_free_slots (o3_load_queue s))%nat;
  hr_prf : (b <= fl_available (o3_free_list s))%nat
}.

Definition checkpoint_stall (id : IdExEntry) (s : O3Engine) : bool :=
  is_branch_or_jump (id_ctrl id) && (0 <? ct_capacity (o3_checkpoints s))%nat && ct_is_full (o3_checkpoints s).

Lemma rob_allocate_room r pc inst sz rd fp ctrl pd opd b :
  (S b <= rob_free_slots r)%nat ->
  exists r' t, rob_allocate r pc inst sz rd fp ctrl pd opd = (r', Some t) /\ (b <= rob_free_slots r')%nat.
Proof.
  unfold rob_free_slots, rob_allocate, rob_is_full. intros H.
  destruct (Nat.eqb_spec (rob_count r) (length (rob_entries r))); [lia|].
  do 2 eexists. split; [done|]. simpl. rewrite length_insert. lia.
Qed.

Lemma sb_allocate_room q t w b :
  (S b <= sb_free_slots q)%nat ->
  exists q', sb_allocate q t w = (q', true) /\ (b <= sb_free_slots q')%nat.
Proof.
  unfold sb_free_slots, sb_allocate, sb_is_full. intros H.
  destruct (Nat.eqb_spec (sb_count q) (length (sb_entries q))); [lia|].
  eexists. split; [done|]. simpl. rewrite length_insert. lia.
Qed.

Lemma lq_allocate_room q t w b :
  (S b <= lq_free_slots q)%nat ->
  exists q', lq_allocate q t w = (q', true) /\ (b <= lq_free_slots q')%nat.
Proof.
  unfold lq_free_slots, lq_allocate, lq_is_full. intros H.
  destruct (Nat.eqb_spec (lq_count q) (length (lq_entries q))); [lia|].
  eexists. split; [done|]. simpl. rewrite length_insert. lia.
Qed.

Lemma rob_modify_free r tag edit : rob_free_slots (rob_modify r tag edit) = rob_free_slots r.
Proof. unfold rob_modify. case_match; [|done]. unfold rob_free_slots. simpl. by rewrite length_insert. Qed.

(** The entry sent to the issue queue for [id]. *)
Definition renames (id : IdExEntry) (e : RenameIssueEntry) : Prop :=
  e = o3_rename_entry id (ri_rob_tag e) (ri_rs1_phys e) (ri_rs2_phys e) (ri_rs3_phys e) (ri_rd_phys e).

Lemma o3_rename_one_room b id s :
  has_room (S b) s -> ct_wf (o3_checkpoints s) -> checkpoint_stall id s = false ->
  exists s' e, o3_rename_one id s = Renamed s' e /\ renames id e /\ has_room b s' /\ ct_wf (o3_checkpoints s').
Proof.
  intros [Hr Hs Hl Hp] Hw Hst. unfold o3_rename_one.
  assert (exists fl p o, (if needs_dst (id_ctrl id) (id_rd id) then
      match fl_allocate (o3_free_list s) with
      | (fl, Some new_p) => (fl, Some (new_p, rm_get (o3_rename_map s) (id_rd id) (fp_reg_write (id_ctrl id))))
      | (fl, None) => (fl, None) end
    else (o3_free_list s, Some (0, 0))) = (fl, Some (p, o)) /\ (b <= fl_available fl)%nat) as (fl & p & o & -> & Hfl).
  { unfold fl_available, fl_allocate in *. destruct (needs_dst _ _).
    - destruct (fl_queue (o3_free_list s)) as [|p q] eqn:Eq; simpl in *; [lia|]. do 3 eexists. split; [done|]. simpl. lia.
    - do 3 eexists. split; [done|]. lia. }
  destruct (rob_allocate_room (o3_rob s) (id_pc id) (id_inst id) (id_inst_size id) (id_rd id)
    (fp_reg_write (id_ctrl id)) (id_ctrl id) p o b Hr) as (rob & t & -> & Hr').
  assert (exists q, (if mem_write (id_ctrl id) then sb_allocate (o3_store_buffer s) t (width (id_ctrl id))
    else (o3_store_buffer s, true)) = (q, true) /\ (b <= sb_free_slots q)%nat) as (sb & Esb & Hs').
  { destruct (mem_write _); [by apply sb_allocate_room|]. eexists. split; [done|]. lia. }
  assert (exists q, (if mem_read (id_ctrl id) then lq_allocate (o3_load_queue s) t (width (id_ctrl id))
    else (o3_load_queue s, true)) = (q, true) /\ (b <= lq_free_slots q)%nat) as (lq & Elq & Hl').
  { destruct (mem_read _); [by apply lq_allocate_room|]. eexists. split; [done|]. lia. }
  cbv zeta. match goal with |- context [if mem_write ?c then ?x else ?y] =>
    replace (if mem_write c then x else y) with (sb, true) by (symmetry; exact Esb) end. cbn [negb].
  match goal with |- context [if mem_read ?c then ?x else ?y] =>
    replace (if mem_read c then x else y) with (lq, true) by (symmetry; exact Elq) end. cbn [negb].
  unfold checkpoint_stall in Hst. destruct (is_branch_or_jump _ && _) eqn:Eb; simpl in Hst.
  - match goal with |- context [ct_allocate ?ct ?t ?m] =>
      destruct (ct_allocate_some ct t m Hw Hst) as [cid Hc];
      pose proof (ct_allocate_wf ct t m Hw) as Hw'; destruct (ct_allocate ct t m) as [ct' o'] end.
    simpl in Hc, Hw'. subst o'. do 2 eexists. split_and!; [done|done| |done].
    constructor; simpl; try done. unfold rob_set_checkpoint_id. by rewrite rob_modify_free.
  - do 2 eexists. split_and!; [done|done| |done]. by constructor.
Qed.

Lemma o3_can_accept_room s : has_room (o3_can_accept s) s /\ (o3_can_accept s <= o3_iq_available s)%nat.
Proof. unfold o3_can_accept. case_match; [split; [constructor|]; lia|]. split; [constructor|]; lia. Qed.

(** What a loop from [st] over [input] ends with: [k] instructions renamed. *)
Definition loop_result (input : list IdExEntry) (st st' : RenameLoop) (k : nat) (new : list RenameIssueEntry) : Prop :=
  rn_input st' = rn_input st ++ drop k input /\ rn_output st' = rn_output st ++ new /\
  Forall2 renames (take k input) new /\ (rn_budget st = 0%nat -> rn_engine st' = rn_engine st) /\
  (k = Nat.min (rn_budget st) (length input) \/
   (k < rn_budget st)%nat /\ exists id, input !! k = Some id /\ checkpoint_stall id (rn_engine st') = true).

Lemma rename_loop input st :
  has_room (rn_budget st) (rn_engine st) -> ct_wf (o3_checkpoints (rn_engine st)) ->
  (rn_input st = [] \/ rn_budget st = 0%nat) ->
  exists st' k new, list_scan o3_rename_body input st = Continue st' /\ loop_result input st st' k new.
Proof.
  revert st. induction input as [|id input IH]; intros st Hr Hw Hi; simpl.
  { exists st, 0%nat, []. unfold loop_result. rewrite !app_nil_r. split_and!; try done. left. simpl. lia. }
  assert (forall st1 x, rn_budget st1 = 0%nat -> rn_engine st1 = rn_engine st -> rn_output st1 = rn_output st ->
    rn_input st1 = rn_input st ++ [x] -> x = id ->
    (rn_budget st = 0%nat \/ (0 < rn_budget st)%nat /\ checkpoint_stall id (rn_engine st) = true) ->
    exists st' k new, list_scan o3_rename_body input st1 = Continue st' /\
      loop_result (id :: input) st st' k new) as Hheld.
  { intros st1 x Hb He Ho Hin -> Hc. destruct (IH st1) as (st' & k & new & H1 & H2 & H3 & H4 & H5 & H6).
    - rewrite Hb, He. constructor; lia.
    - by rewrite He.
    - by right.
    - assert (k = 0%nat) as -> by (destruct H6; lia). exists st', 0%nat, new. split; [done|].
      specialize (H5 Hb). rewrite He in H5.
      split_and!; [by rewrite H2, Hin, <-app_assoc|by rewrite H3, Ho|done|done|].
      destruct Hc as [Hc|[Hc Hs]]; [left; simpl; lia|right]. split; [done|]. exists id. by rewrite H5. }
  unfold o3_rename_body at 1. destruct (Nat.eqb_spec (rn_budget st) 0) as [Hz|Hz].
  { eapply Hheld; try done. by left. }
  fold (checkpoint_stall id (rn_engine st)). destruct (checkpoint_stall id (rn_engine st)) eqn:Est.
  { eapply Hheld; try done. right. split; [lia|done]. }
  destruct (rn_budget st) as [|b] eqn:Eb; [done|]. destruct Hi as [Hi|?]; [|done].
  destruct (o3_rename_one_room b id _ Hr Hw Est) as (s' & e & -> & He & Hr' & Hw').
  edestruct (IH (st <| rn_engine := s' |> <| rn_output := rn_output st ++ [e] |>
    <| rn_budget := (S b - 1)%nat |>)) as (st' & k & new & H1 & H2 & H3 & H4 & H5 & H6).
  - simpl. by rewrite Nat.sub_0_r.
  - done.
  - by left.
  - exists st', (S k), (e :: new). split; [exact H1|]. unfold loop_result. rewrite Eb. split_and!; [exact H2| |by constructor|done|].
    + rewrite H3. simpl. by rewrite <-app_assoc.
    + simpl in H6. rewrite Nat.sub_0_r in H6. destruct H6 as [->|[Hk (id' & Hid & Hs)]]; [by left|right].
      split; [lia|]. by exists id'.
Qed.

(** The rename stage is all-or-nothing per instruction: given the budget
    [can_accept] computes, every instruction it starts on gets its reorder
    buffer entry, physical register, queue slots and checkpoint, so the loop
    never breaks off with a half-renamed instruction, never drops one and never
    reaches [unreachable!]; a prefix of the input, no longer than the issue
    queue has room for, is renamed in order and the rest is put back in order.
    It renames as much as the budget allows unless it stops at a branch that
    finds every checkpoint taken. *)
Theorem o3_rename_stage_total (s : O3Engine) (input : list IdExEntry) (out : list RenameIssueEntry)
    (stalls_dispatch stalls_checkpoint : Z) :
  ct_wf (o3_checkpoints s) ->
  exists st k new, o3_rename_stage s input out stalls_dispatch stalls_checkpoint = Continue st /\
    rn_input st = drop k input /\ rn_output st = out ++ new /\ Forall2 renames (take k input) new /\
    (k <= o3_iq_available s)%nat /\
    (k = Nat.min (o3_can_accept s) (length input) \/
     exists id, input !! k = Some id /\ checkpoint_stall id (rn_engine st) = true).
Proof.
  intros Hw. destruct (o3_can_accept_room s) as [Hr Hiq].
  edestruct (rename_loop input {| rn_engine := s; rn_input := []; rn_output := out;
    rn_budget := o3_can_accept s; rn_stalls_dispatch := stalls_dispatch;
    rn_stalls_checkpoint := stalls_checkpoint |}) as (st & k & new & H1 & H2 & H3 & H4 & _ & H6); [done..|by left|].
  exists st, k, new. simpl in H6. split_and!; try done; [destruct H6; lia|].
  destruct H6 as [?|[_ ?]]; [by left|by right].
Qed.

(** ** Witnesses *)

(** A run that renames [x1], a branch and [x1] again, retires the first and
    then recovers at the branch. *)
Definition demo_config : O3Config :=
  {| cfg_rob_size := 4; cfg_store_buffer_size := 2; cfg_load_queue_size := 2; cfg_prf_gpr_size := 40;
     cfg_prf_fpr_size := 32; cfg_issue_queue_size := 4; cfg_width := 4; cfg_checkpoint_count := 2 |}.
Definition demo_id (rd : Z) (ctrl : ControlSignals) : IdExEntry :=
  {| id_pc := 0x1000; id_inst := 0x13; id_inst_size := Standard; id_rs1 := 1; id_rs2 := 2; id_rs3 := 0;
     id_rd := rd; id_imm := 0; id_rv1 := 0; id_rv2 := 0; id_rv3 := 0; id_ctrl := ctrl; id_trap := None;
     id_exception_stage := None; id_pred_taken := false; id_pred_target := 0;
     id_ghr_snapshot := ghr_default; id_ras_snapshot := 0 |}.
Definition demo_write : IdExEntry := demo_id 1 (ControlSignals_default <| reg_write := true |>).
Definition demo_branch : IdExEntry := demo_id 0 (ControlSignals_default <| control_flow := Branch |>).

Definition renamed (id : IdExEntry) (s : O3Engine) : option O3Engine :=
  match o3_rename_one id s with Renamed s' _ => Some s' | _ => None end.
Lemma O3Rename' config s ss n id s' :
  o3_reach config s ss n -> id_ok id -> Forall (fun s => n + 1 - s < TAG_SPAN) ss ->
  renamed id s = Some s' -> o3_reach config s' (ss ++ [n]) (n + 1).
Proof.
  intros H Hid Hsp Hr. unfold renamed in Hr. destruct (o3_rename_one id s) as [s1 e| |] eqn:E; [|done..].
  injection Hr as ->. by eapply O3Rename.
Qed.

Definition demo1 : O3Engine := default (o3_new demo_config) (renamed demo_write (o3_new demo_config)).
Definition demo2 : O3Engine := default demo1 (renamed demo_branch demo1).
Definition demo3 : O3Engine := default demo2 (renamed demo_write demo2).
Definition demo4 : O3Engine := demo3 <| o3_rob := (rob_exec (o3_rob demo3) (OpComplete 1 7)).1 |>.
Definition demo5 : O3Engine := o3_retire true demo4.

Lemma demo5_reach : o3_reach demo_config demo5 [1; 2] 3.
Proof.
  assert (id_ok demo_write) as Hw by (constructor; [done|simpl; lia]).
  assert (id_ok demo_branch) as Hb by (constructor; [done|simpl; lia]).
  assert (forall a b, 0 <= a -> b < 3 -> b - a < TAG_SPAN) as Hd by (unfold TAG_SPAN; lia).
  pose proof (O3Init demo_config ltac:(constructor; simpl; lia)) as R0.
  pose proof (O3Rename' _ _ _ _ _ demo1 R0 Hw ltac:(constructor) ltac:(vm_compute; reflexivity)) as R1.
  pose proof (O3Rename' _ _ _ _ _ demo2 R1 Hb ltac:(apply (bool_decide_unpack _); vm_compute; exact I) ltac:(vm_compute; reflexivity)) as R2.
  pose proof (O3Rename' _ _ _ _ _ demo3 R2 Hw ltac:(apply (bool_decide_unpack _); vm_compute; exact I) ltac:(vm_compute; reflexivity)) as R3.
  pose proof (O3Edit _ _ _ _ (OpComplete 1 7) R3 eq_refl) as R4.
  exact (O3Retire demo_config demo4 [0; 1; 2] 3 _ true R4 ltac:(vm_compute; reflexivity) ltac:(reflexivity) ltac:(done)).
Qed.

Lemma o3_registers_conserved_witness :
  rm_get (o3_committed_rename_map demo5) 1 false = 64 /\ rm_get (o3_rename_map demo5) 1 false = 65 /\
  NoDup (map_regs (o3_rename_map demo5) ++ fl_queue (o3_free_list demo5)).
Proof.
  split; [vm_compute; reflexivity|]. split; [vm_compute; reflexivity|].
  apply (o3_registers_conserved demo_config demo5 [1; 2] 3 demo5_reach).
Defined.

Lemma o3_checkpoint_is_rebuild_witness :
  exists c, ct_find_by_tag (o3_checkpoints demo5) 2 = Some c /\ rm_get (ck_rename_map c) 1 false = 64 /\
    ck_rename_map c = o3_rename_map (o3_rebuild_rename_map (o3_squash_after demo5 2)).
Proof.
  destruct (ct_find_by_tag (o3_checkpoints demo5) 2) as [c|] eqn:Hc; [|by vm_compute in Hc].
  exists c. split; [done|].
  assert (exists e, rob_queue (o3_rob demo5) !! 0%nat = Some e /\ re_tag e = 2) as (e & He & Ht)
    by (eexists; split; vm_compute; reflexivity).
  pose proof (proj2 (o3_checkpoint_is_rebuild demo_config demo5 [1; 2] 3 demo5_reach) e c
    (list_elem_of_lookup_2 _ _ _ He)) as H.
  rewrite Ht in H. split; [|exact (H Hc)]. vm_compute in Hc. injection Hc as <-. reflexivity.
Defined.

Lemma o3_rename_stage_total_witness :
  exists st k new, o3_rename_stage demo5 [demo_write; demo_branch; demo_branch] [] 0 0 = Continue st /\
    rn_input st = drop k [demo_write; demo_branch; demo_branch] /\ rn_output st = new /\ length new = 2%nat.
Proof.
  destruct (o3_rename_stage_total demo5 [demo_write; demo_branch; demo_branch] [] 0 0) as (st & k & new & H1 & H2 & H3 & H4 & H5 & H6).
  { reflexivity. }
  exists st, k, new. split_and!; [exact H1|exact H2|exact H3|].
  assert (o3_rename_stage demo5 [demo_write; demo_branch; demo_branch] [] 0 0 = Continue st) as H1' by exact H1.
  vm_compute in H1'. injection H1' as <-. simpl in H3. rewrite <-H3. reflexivity.
Defined.
