(* ===== verification/InOrder.v ===== *)
(** The in-order engine's register tracking: scoreboard-based rename
    ([core/pipeline/frontend/rename.rs]), the scoreboard part of retirement
    ([backend/shared/commit.rs]) and the recoveries of
    [backend/inorder/mod.rs].  The scoreboard, maintained incrementally, always
    names the youngest in-flight writer of each register. *)
From S2P Require Import Prelude Ring Common Rob RobSpec RobProps StoreBuffer StoreBufferSpec Rename RenameO3.

Set Primitive Projections.
Set Warnings "-clear-no-such-hyp".
Local Open Scope Z_scope.

(** ** Engine *)

Record InOrderEngine := {
  io_rob : Rob;
  io_store_buffer : StoreBuffer;
  io_scoreboard : Scoreboard;
  io_issue_available : nat;
  io_width : nat
}.

Definition io_can_accept (self : InOrderEngine) : nat :=
  let rob_free := rob_free_slots (io_rob self) in
  let sb_free := sb_free_slots (io_store_buffer self) in
  Nat.min (Nat.min (Nat.min rob_free sb_free) (io_issue_available self)) (io_width self).

Inductive io_rename_result :=
| IoRenamed (engine : InOrderEngine) (entry : RenameIssueEntry)
| IoRefused (engine : InOrderEngine).

Definition io_rename_entry (id : IdExEntry) (rob_tag : Z) (rs1_tag rs2_tag rs3_tag : option Z)
    : RenameIssueEntry := {|
  ri_rob_tag := rob_tag; ri_pc := id_pc id; ri_inst := id_inst id; ri_inst_size := id_inst_size id;
  ri_rs1 := id_rs1 id; ri_rs2 := id_rs2 id; ri_rs3 := id_rs3 id; ri_rd := id_rd id; ri_imm := id_imm id;
  ri_rv1 := 0; ri_rv2 := 0; ri_rv3 := 0;
  ri_rs1_tag := rs1_tag; ri_rs2_tag := rs2_tag; ri_rs3_tag := rs3_tag;
  ri_rs1_phys := 0; ri_rs2_phys := 0; ri_rs3_phys := 0; ri_rd_phys := 0;
  ri_ctrl := id_ctrl id; ri_trap := id_trap id; ri_exception_stage := id_exception_stage id;
  ri_pred_taken := id_pred_taken id; ri_pred_target := id_pred_target id;
  ri_ghr_snapshot := id_ghr_snapshot id; ri_ras_snapshot := id_ras_snapshot id |}.

(** The in-order branch of the loop body of [rename_stage]. *)
Definition io_rename_one (id : IdExEntry) (engine : InOrderEngine) : io_rename_result :=
  let ctrl := id_ctrl id in
  match rob_allocate (io_rob engine) (id_pc id) (id_inst id) (id_inst_size id) (id_rd id)
          (fp_reg_write ctrl) ctrl 0 0 with
  | (_, None) => IoRefused engine
  | (rob, Some rob_tag) =>
      let scb := io_scoreboard engine in
      let rs1_tag := scb_get_producer scb (id_rs1 id) (rs1_fp ctrl) in
      let rs2_tag := scb_get_producer scb (id_rs2 id) (rs2_fp ctrl) in
      let rs3_tag := if rs3_fp ctrl then scb_get_producer scb (id_rs3 id) true else None in
      let scb := if reg_write ctrl || fp_reg_write ctrl
                 then scb_set_producer scb (id_rd id) (fp_reg_write ctrl) rob_tag else scb in
      let engine := engine <| io_rob := rob |> <| io_scoreboard := scb |> in
      let '(sb, sb_ok) := if mem_write ctrl then sb_allocate (io_store_buffer engine) rob_tag (width ctrl)
                          else (io_store_buffer engine, true) in
      let engine := engine <| io_store_buffer := sb |> in
      if negb sb_ok then IoRefused engine
      else IoRenamed engine (io_rename_entry id rob_tag rs1_tag rs2_tag rs3_tag)
  end.

(** The scoreboard part of [commit_stage] for the popped head. *)
Definition io_commit_regs (entry : RobEntry) (scb : Scoreboard) : Scoreboard :=
  if fp_reg_write (re_ctrl entry) then scb_clear_if_match scb (re_rd entry) true (re_tag entry)
  else if reg_write (re_ctrl entry) && negb (reg_is_zero (re_rd entry))
       then scb_clear_if_match scb (re_rd entry) false (re_tag entry)
       else scb.
Definition io_retire (s : InOrderEngine) : InOrderEngine :=
  match rob_commit_head (io_rob s) with
  | (_, None) => s
  | (rob, Some entry) => s <| io_rob := rob |> <| io_scoreboard := io_commit_regs entry (io_scoreboard s) |>
  end.

(** The flush of [tick] after a redirect: [last] is the tag of the youngest
    instruction still in the execute latch, if any. *)
Definition io_redirect (s : InOrderEngine) (last : option Z) : InOrderEngine :=
  let s := match last with
           | Some keep_tag => s <| io_rob := rob_flush_after (io_rob s) keep_tag |>
                                <| io_store_buffer := sb_flush_after (io_store_buffer s) keep_tag |>
           | None => s
           end in
  s <| io_scoreboard := scb_rebuild_from_rob (io_scoreboard s) (io_rob s) |>.

Definition io_flush (s : InOrderEngine) : InOrderEngine :=
  s <| io_rob := rob_flush_all (io_rob s) |>
    <| io_store_buffer := sb_flush_speculative (io_store_buffer s) |>
    <| io_scoreboard := scb_flush (io_scoreboard s) |>.

(** ** Youngest in-flight writers *)

(** [e] will write register [reg] of the given file. *)
Definition produces (reg : Z) (is_fp : bool) (e : RobEntry) : bool :=
  (re_rd e =? reg) &&
  (if is_fp then fp_reg_write (re_ctrl e)
   else reg_write (re_ctrl e) && negb (fp_reg_write (re_ctrl e)) && negb (reg_is_zero reg)).

Definition youngest_producer (q : list RobEntry) (reg : Z) (is_fp : bool) : option Z :=
  re_tag <$> last (filter (fun e => produces reg is_fp e = true) q).

Definition scb_wf (s : Scoreboard) : Prop := length (scb_gpr s) = 32%nat /\ length (scb_fpr s) = 32%nat.
Definition rd_ok (e : RobEntry) : Prop := 0 <= re_rd e < 32.

(** The scoreboard agrees with the queue on every architectural register. *)
Definition tracks (s : Scoreboard) (q : list RobEntry) : Prop :=
  scb_wf s /\ forall reg is_fp, 0 <= reg < 32 -> scb_get_producer s reg is_fp = youngest_producer q reg is_fp.

Lemma tracks_new : tracks scb_new [].
Proof.
  split; [done|]. intros reg fp Hr. unfold scb_get_producer, reg_as_usize.
  destruct fp; apply lookup_total_replicate_2; lia.
Qed.

Lemma to_nat_inj_iff a b : 0 <= a -> 0 <= b -> (Z.to_nat a = Z.to_nat b <-> a = b).
Proof. lia. Qed.

(** Marking an entry changes exactly the register it produces. *)
Lemma scb_mark_get s e reg fp :
  scb_wf s -> rd_ok e -> 0 <= reg < 32 ->
  scb_get_producer (scb_mark s e) reg fp =
  if produces reg fp e then Some (re_tag e) else scb_get_producer s reg fp.
Proof.
  intros [H1 H2] He Hr. unfold rd_ok in He. unfold scb_mark, scb_get_producer, produces, reg_is_zero, reg_as_usize.
  destruct (Z.eqb_spec (re_rd e) reg) as [<-|Hne]; simpl.
  - destruct (fp_reg_write (re_ctrl e)), fp; simpl.
    + apply list_lookup_total_insert_eq. lia.
    + by rewrite andb_false_r.
    + by destruct (_ && _).
    + rewrite andb_true_r. destruct (_ && _); [|done]. apply list_lookup_total_insert_eq. lia.
  - assert (Z.to_nat (re_rd e) <> Z.to_nat reg) as Hne' by lia.
    destruct (fp_reg_write (re_ctrl e)), fp; simpl; try done.
    + by apply list_lookup_total_insert_ne.
    + by destruct (_ && _).
    + destruct (_ && _); [|done]. simpl. by apply list_lookup_total_insert_ne.
Qed.

Lemma scb_mark_wf s e : scb_wf s -> scb_wf (scb_mark s e).
Proof.
  intros [H1 H2]. unfold scb_mark, scb_wf. destruct (fp_reg_write _); [|destruct (_ && _)];
    simpl; by rewrite ?length_insert.
Qed.

Lemma youngest_snoc q e reg fp :
  youngest_producer (q ++ [e]) reg fp =
  if produces reg fp e then Some (re_tag e) else youngest_producer q reg fp.
Proof.
  unfold youngest_producer. rewrite filter_app, filter_cons, filter_nil.
  destruct (produces reg fp e); [by rewrite decide_True, last_snoc|].
  by rewrite decide_False, app_nil_r.
Qed.

Lemma tracks_mark s q e : tracks s q -> rd_ok e -> tracks (scb_mark s e) (q ++ [e]).
Proof.
  intros [Hw Ht] He. split; [by apply scb_mark_wf|]. intros reg fp Hr.
  rewrite scb_mark_get, youngest_snoc by done. destruct (produces reg fp e); [done|]. by apply Ht.
Qed.

Lemma tracks_rebuild q s : Forall rd_ok q -> tracks (foldl scb_mark (scb_flush s) q) q.
Proof.
  intros H. induction q as [|e q IH] using rev_ind; [apply tracks_new|].
  apply Forall_app in H as [H He]. apply Forall_cons in He as [He _].
  rewrite foldl_snoc. apply tracks_mark; [by apply IH|done].
Qed.

(** ** Invariant *)

Lemma youngest_cons e q reg fp :
  youngest_producer (e :: q) reg fp =
  match youngest_producer q reg fp with
  | Some t => Some t
  | None => if produces reg fp e then Some (re_tag e) else None
  end.
Proof.
  unfold youngest_producer. rewrite filter_cons. case_decide as Hp.
  - rewrite last_cons, Hp. by destruct (last _).
  - apply not_true_is_false in Hp. rewrite Hp. by destruct (last _).
Qed.

Lemma youngest_in q reg fp t : youngest_producer q reg fp = Some t -> t ∈ re_tag <$> q.
Proof.
  unfold youngest_producer. intros (e & He & ->)%fmap_Some. apply last_Some_elem_of in He.
  apply list_elem_of_filter in He as [_ He]. by apply list_elem_of_fmap_2.
Qed.

(** Retiring the oldest writer clears its register exactly when no younger
    writer has taken the register over. *)
Lemma scb_clear_get s reg fp tag reg' fp' :
  scb_wf s -> 0 <= reg < 32 -> 0 <= reg' < 32 ->
  scb_get_producer (scb_clear_if_match s reg fp tag) reg' fp' =
  if bool_decide (reg = reg' /\ fp = fp' /\ scb_get_producer s reg fp = Some tag) then None
  else scb_get_producer s reg' fp'.
Proof.
  intros [H1 H2] Hr Hr'. unfold scb_clear_if_match.
  change (if fp then scb_fpr s !!! reg_as_usize reg else scb_gpr s !!! reg_as_usize reg)
    with (scb_get_producer s reg fp).
  destruct (decide (scb_get_producer s reg fp = Some tag)) as [E|E].
  2: { rewrite !bool_decide_false by naive_solver. done. }
  rewrite (bool_decide_true (_ = Some tag)) by done.
  destruct (decide (reg = reg')) as [<-|Hne].
  - destruct fp, fp'; unfold scb_get_producer, reg_as_usize; simpl.
    + rewrite bool_decide_true by done. apply list_lookup_total_insert_eq. lia.
    + by rewrite bool_decide_false by naive_solver.
    + by rewrite bool_decide_false by naive_solver.
    + rewrite bool_decide_true by done. apply list_lookup_total_insert_eq. lia.
  - rewrite bool_decide_false by naive_solver. unfold scb_get_producer, reg_as_usize.
    destruct fp, fp'; simpl; try done; apply list_lookup_total_insert_ne; lia.
Qed.

Lemma scb_clear_wf s reg fp tag : scb_wf s -> scb_wf (scb_clear_if_match s reg fp tag).
Proof.
  intros [H1 H2]. unfold scb_clear_if_match, scb_wf. case_match; [|done].
  destruct fp; simpl; by rewrite length_insert.
Qed.

Lemma tracks_retire s e q :
  tracks s (e :: q) -> rd_ok e -> NoDup (re_tag <$> e :: q) -> tracks (io_commit_regs e s) q.
Proof.
  intros [Hw Ht] He HN. rewrite fmap_cons in HN. apply NoDup_cons in HN as [Hn HN].
  assert (forall fp, (forall reg fp', 0 <= reg < 32 -> produces reg fp' e = bool_decide (re_rd e = reg /\ fp = fp')) ->
    tracks (scb_clear_if_match s (re_rd e) fp (re_tag e)) q) as Hclear.
  { intros fp Hp. split; [by apply scb_clear_wf|]. intros reg fp' Hr.
    rewrite scb_clear_get by done. rewrite !Ht, !youngest_cons, !Hp by done.
    pose proof (youngest_in q reg fp' (re_tag e)) as Hy.
    destruct (decide (re_rd e = reg /\ fp = fp')) as [[<- <-]|Hne].
    - rewrite (bool_decide_true (re_rd e = re_rd e /\ fp = fp)) by done.
      destruct (youngest_producer q (re_rd e) fp) as [t|].
      + rewrite bool_decide_false; [done|]. intros (_ & _ & [= ->]). naive_solver.
      + by rewrite bool_decide_true.
    - rewrite (bool_decide_false (re_rd e = reg /\ fp = fp')) by done.
      rewrite bool_decide_false by naive_solver. by destruct (youngest_producer q reg fp'). }
  unfold io_commit_regs. destruct (fp_reg_write (re_ctrl e)) eqn:Ef.
  - apply Hclear. intros reg fp' Hr. unfold produces. rewrite Ef, andb_false_r.
    destruct (Z.eqb_spec (re_rd e) reg), fp'; simpl; symmetry;
      (apply bool_decide_true || apply bool_decide_false); naive_solver.
  - destruct (reg_write (re_ctrl e) && negb (reg_is_zero (re_rd e))) eqn:Er.
    + apply Hclear. intros reg fp' Hr. unfold produces. rewrite Ef. to_prop.
      match goal with H : reg_write _ = true |- _ => rewrite H end.
      destruct (Z.eqb_spec (re_rd e) reg) as [<-|], fp'; simpl; symmetry;
        try (apply bool_decide_false; naive_solver).
      match goal with H : reg_is_zero _ = false |- _ => rewrite H end. by apply bool_decide_true.
    + split; [done|]. intros reg fp Hr. rewrite Ht, youngest_cons by done.
      assert (produces reg fp e = false) as ->; [|by destruct (youngest_producer q reg fp)].
      unfold produces. rewrite Ef. destruct (Z.eqb_spec (re_rd e) reg) as [<-|]; [|done].
      destruct fp; [done|]. simpl. by rewrite andb_true_r.
Qed.

(** ** Reachable states *)

Inductive io_reach : InOrderEngine -> list Z -> Z -> Prop :=
| IoInit s :
    (0 < rob_capacity (io_rob s))%nat -> io_rob s = rob_new (rob_capacity (io_rob s)) ->
    io_scoreboard s = scb_new -> io_reach s [] 0
| IoRename s ss n id s' entry :
    io_reach s ss n -> 0 <= id_rd id < 32 -> Forall (fun s => n + 1 - s < TAG_SPAN) ss ->
    io_rename_one id s = IoRenamed s' entry -> io_reach s' (ss ++ [n]) (n + 1)
| IoEdit s ss n op tag edit :
    io_reach s ss n -> op_edit op = Some (tag, edit) ->
    io_reach (s <| io_rob := (rob_exec (io_rob s) op).1 |>) ss n
| IoRetire s ss n e :
    io_reach s ss n -> rob_peek_head (io_rob s) = Some e -> re_state e <> Issued ->
    io_reach (io_retire s) (drop 1 ss) n
| IoRedirect s ss n last :
    io_reach s ss n ->
    io_reach (io_redirect s last) (take (length (rob_queue (io_rob (io_redirect s last)))) ss) n
| IoFlush s ss n : io_reach s ss n -> io_reach (io_flush s) [] n.

Definition io_inv (s : InOrderEngine) (ss : list Z) (n : Z) : Prop :=
  rob_inv (io_rob s) ss n /\ Forall rd_ok (rob_queue (io_rob s)) /\ tracks (io_scoreboard s) (rob_queue (io_rob s)).

Lemma set_producer_mark s e :
  (if reg_write (re_ctrl e) || fp_reg_write (re_ctrl e)
   then scb_set_producer s (re_rd e) (fp_reg_write (re_ctrl e)) (re_tag e) else s) = scb_mark s e.
Proof.
  unfold scb_set_producer, scb_mark.
  destruct (reg_write _), (fp_reg_write _); simpl; try done.
Qed.

Lemma io_rename_one_inv s ss n id s' entry :
  io_inv s ss n -> 0 <= id_rd id < 32 -> Forall (fun s => n + 1 - s < TAG_SPAN) ss ->
  io_rename_one id s = IoRenamed s' entry -> io_inv s' (ss ++ [n]) (n + 1).
Proof.
  intros (Hrob & Hrd & Ht) Hid Hsp. unfold io_rename_one.
  destruct (rob_allocate _ _ _ _ _ _ _ _ _) as [rob [t|]] eqn:Er; [|done].
  assert (rob_is_full (io_rob s) = false /\ t = rob_next_tag (io_rob s)) as [Hfull ->].
  { unfold rob_allocate in Er. destruct (rob_is_full _); [done|]. by injection Er as _ <-. }
  destruct (rob_allocate_refines _ ss n (id_pc id) (id_inst id) (id_inst_size id) (id_rd id)
    (fp_reg_write (id_ctrl id)) (id_ctrl id) 0 0 Hrob Hsp Hfull) as (Hrob' & Hq & _).
  rewrite Er in Hrob', Hq. simpl in Hrob', Hq.
  destruct (if mem_write _ then _ else _) as [sb [|]]; [|done]. cbn [negb]. intros [= <- _].
  split; [exact Hrob'|]. set (e := rob_new_entry _ _ _ _ _ _ _ _ _) in Hq.
  assert (rd_ok e) as He by exact Hid.
  change (Forall rd_ok (rob_queue rob) /\ tracks
    (if reg_write (re_ctrl e) || fp_reg_write (re_ctrl e)
     then scb_set_producer (io_scoreboard s) (re_rd e) (fp_reg_write (re_ctrl e)) (re_tag e)
     else io_scoreboard s) (rob_queue rob)).
  rewrite Hq, set_producer_mark. split; [|by apply tracks_mark].
  apply Forall_app. split; [done|]. by constructor.
Qed.

(** Edits of in-flight entries do not move writers. *)
Lemma youngest_ext q q' :
  length q = length q' ->
  (forall k e e', q !! k = Some e -> q' !! k = Some e' ->
     re_tag e = re_tag e' /\ re_rd e = re_rd e' /\ re_ctrl e = re_ctrl e') ->
  forall reg fp, youngest_producer q reg fp = youngest_producer q' reg fp.
Proof.
  revert q'. induction q as [|e q IH]; intros [|e' q'] Hl Hk reg fp; try done.
  rewrite !youngest_cons, (IH q') by (by (simpl in Hl; lia) || (intros k; apply (Hk (S k)))).
  destruct (Hk 0%nat e e' eq_refl eq_refl) as (Ht & Hr & Hc). unfold produces. by rewrite Ht, Hr, Hc.
Qed.

Lemma io_edit_inv s ss n op tag edit :
  io_inv s ss n -> op_edit op = Some (tag, edit) -> io_inv (s <| io_rob := (rob_exec (io_rob s) op).1 |>) ss n.
Proof.
  intros (Hrob & Hrd & Hw & Ht) Hop. pose proof (op_edit_ok _ _ _ Hop) as Hed.
  assert (op_in_span ss n op) as Hsp by (by destruct op).
  pose proof (rob_exec_refines_inv _ ss n op Hrob Hsp) as H.
  assert (seqs_after (io_rob s) ss n op = (ss, n)) as Hs by (by destruct op). rewrite Hs in H. destruct H as [Hrob' Hq].
  assert (rob_queue (rob_exec (io_rob s) op).1 = modify_tag tag edit (rob_queue (io_rob s))) as Hq'.
  { apply (f_equal fst) in Hq. apply (f_equal q_entries) in Hq. simpl in Hq. rewrite <-Hq.
    destruct op; simpl in Hop; try done; by injection Hop as <- <-. }
  assert (forall e, re_tag (edit e) = re_tag e /\ re_rd (edit e) = re_rd e /\ re_ctrl (edit e) = re_ctrl e) as Hk.
  { intros e. destruct op; simpl in Hop; try done; injection Hop as <- <-; try done.
    - unfold edit_complete. by case_decide.
    - unfold edit_csr_applied. by destruct (re_csr_update e). }
  split; [exact Hrob'|]. simpl. rewrite Hq'. unfold modify_tag. split.
  - apply Forall_fmap. eapply Forall_impl; [exact Hrd|]. intros e He. simpl.
    destruct (_ =? _); [|done]. unfold rd_ok. by rewrite (proj1 (proj2 (Hk e))).
  - split; [exact Hw|]. intros reg fp Hr. rewrite Ht by done. apply youngest_ext; [by rewrite length_fmap|].
    intros k e e' He He'. rewrite list_lookup_fmap, He in He'. injection He' as <-.
    destruct (_ =? _); [|done]. destruct (Hk e) as (-> & -> & ->). done.
Qed.

Lemma io_retire_inv s ss n e :
  io_inv s ss n -> rob_peek_head (io_rob s) = Some e -> re_state e <> Issued -> io_inv (io_retire s) (drop 1 ss) n.
Proof.
  intros (Hrob & Hrd & Ht) Hp Hst. unfold rob_peek_head in Hp.
  destruct (Nat.eqb_spec (rob_count (io_rob s)) 0) as [|Hz]; [done|]. injection Hp as <-.
  destruct (rob_commit_refines _ ss n Hrob Hz Hst) as (Hrob' & Hq & _). unfold io_retire.
  unfold rob_commit_head in *. rewrite (proj2 (Nat.eqb_neq _ _) Hz), decide_False in * by done.
  pose proof (rob_tags_NoDup _ _ _ Hrob) as HN. rewrite Hq in Hrd, Ht, HN.
  apply Forall_cons in Hrd as [He Hrd]. split; [exact Hrob'|]. split; [exact Hrd|].
  by apply tracks_retire.
Qed.

Lemma io_rebuild_inv r ss n scb :
  rob_inv r ss n -> Forall rd_ok (rob_queue r) -> tracks (scb_rebuild_from_rob scb r) (rob_queue r).
Proof.
  intros Hrob Hrd. unfold scb_rebuild_from_rob. erewrite rob_for_each_valid_queue by done.
  by apply tracks_rebuild.
Qed.

Lemma io_redirect_inv s ss n last :
  io_inv s ss n ->
  io_inv (io_redirect s last) (take (length (rob_queue (io_rob (io_redirect s last)))) ss) n.
Proof.
  intros (Hrob & Hrd & Ht). destruct last as [keep|].
  - destruct (rob_flush_after_refines _ _ _ keep Hrob) as [Hrob' Ha].
    apply (f_equal q_entries) in Ha. simpl in Ha. rewrite <-Ha in Hrob'. split; [exact Hrob'|].
    assert (Forall rd_ok (rob_queue (rob_flush_after (io_rob s) keep))) as Hrd'.
    { rewrite Ha. rewrite Forall_forall in *. intros e He. apply Hrd.
      eapply elem_of_sublist; [exact He|apply keep_through_sublist]. }
    split; [exact Hrd'|]. by eapply io_rebuild_inv.
  - simpl. rewrite take_ge by (by rewrite (length_rob_seqs _ _ _ Hrob), length_rob_queue).
    split; [done|]. split; [done|]. by eapply io_rebuild_inv.
Qed.

Lemma io_flush_inv s ss n : io_inv s ss n -> io_inv (io_flush s) [] n.
Proof.
  intros (Hrob & Hrd & Ht). destruct (rob_flush_all_refines _ _ _ Hrob) as [Hrob' Ha].
  apply (f_equal q_entries) in Ha. simpl in Ha. split; [exact Hrob'|]. simpl. rewrite Ha.
  split; [constructor|apply tracks_new].
Qed.

Lemma io_reach_inv s ss n : io_reach s ss n -> io_inv s ss n.
Proof.
  induction 1 as [s Hc Hr Hs| | | | |].
  - unfold io_inv. rewrite Hr, Hs. split_and!; [by apply rob_new_inv|constructor|apply tracks_new].
  - by eapply io_rename_one_inv.
  - by eapply io_edit_inv.
  - by eapply io_retire_inv.
  - by apply io_redirect_inv.
  - by eapply io_flush_inv.
Qed.

(** The scoreboard is exact: in every state the in-order engine can reach,
    looking a register up gives the tag of the youngest in-flight instruction
    that will write it and nothing when there is none, and the incrementally
    maintained scoreboard answers every lookup as one rebuilt from the reorder
    buffer would, so an older writer that retires never clears a younger one. *)
Theorem io_scoreboard_exact (s : InOrderEngine) (ss : list Z) (n reg : Z) (is_fp : bool) :
  io_reach s ss n -> 0 <= reg < 32 ->
  scb_get_producer (io_scoreboard s) reg is_fp = youngest_producer (rob_queue (io_rob s)) reg is_fp /\
  scb_get_producer (io_scoreboard s) reg is_fp =
    scb_get_producer (scb_rebuild_from_rob (io_scoreboard s) (io_rob s)) reg is_fp.
Proof.
  intros (Hrob & Hrd & _ & Ht)%io_reach_inv Hr. rewrite Ht by done. split; [done|].
  destruct (io_rebuild_inv _ _ _ (io_scoreboard s) Hrob Hrd) as [_ H]. by rewrite H.
Qed.

(** ** Witness *)

(** Two writers of [x1] are in flight and the older one retires. *)
Definition demo_add (rd : Z) : IdExEntry :=
  {| id_pc := 0x1000; id_inst := 0x33; id_inst_size := Standard; id_rs1 := 1; id_rs2 := 2; id_rs3 := 0;
     id_rd := rd; id_imm := 0; id_rv1 := 0; id_rv2 := 0; id_rv3 := 0;
     id_ctrl := ControlSignals_default <| reg_write := true |>; id_trap := None;
     id_exception_stage := None; id_pred_taken := false; id_pred_target := 0;
     id_ghr_snapshot := ghr_default; id_ras_snapshot := 0 |}.
Definition io_demo0 : InOrderEngine :=
  {| io_rob := rob_new 4; io_store_buffer := sb_new 2; io_scoreboard := scb_new; io_issue_available := 4; io_width := 2 |}.
Definition io_renamed (s : InOrderEngine) : InOrderEngine :=
  match io_rename_one (demo_add 1) s with IoRenamed s' _ => s' | IoRefused s' => s' end.
Definition io_demo1 : InOrderEngine := io_renamed io_demo0.
Definition io_demo2 : InOrderEngine := io_renamed io_demo1.
Definition io_demo3 : InOrderEngine := io_demo2 <| io_rob := (rob_exec (io_rob io_demo2) (OpComplete 1 5)).1 |>.

Lemma io_demo_reach : io_reach (io_retire io_demo3) [1] 2.
Proof.
  pose proof (IoInit io_demo0 ltac:(vm_compute; lia) eq_refl eq_refl) as R0.
  assert (forall s, s = io_demo0 \/ s = io_demo1 -> exists e, io_rename_one (demo_add 1) s = IoRenamed (io_renamed s) e) as Hr.
  { intros s [-> | ->]; eexists; vm_compute; reflexivity. }
  destruct (Hr io_demo0 (or_introl eq_refl)) as [e0 H0]. destruct (Hr io_demo1 (or_intror eq_refl)) as [e1 H1].
  pose proof (IoRename _ _ _ (demo_add 1) _ _ R0 ltac:(simpl; lia) ltac:(constructor) H0) as R1.
  pose proof (IoRename _ _ _ (demo_add 1) _ _ R1 ltac:(simpl; lia) ltac:(apply (bool_decide_unpack _); vm_compute; exact I) H1) as R2.
  pose proof (IoEdit _ _ _ (OpComplete 1 5) _ _ R2 eq_refl) as R3.
  eapply (IoRetire io_demo3 [0; 1] 2); [exact R3|vm_compute; reflexivity|by vm_compute].
Qed.

Lemma io_scoreboard_exact_witness :
  scb_get_producer (io_scoreboard (io_retire io_demo3)) 1 false = Some 2.
Proof.
  rewrite (proj1 (io_scoreboard_exact (io_retire io_demo3) [1] 2 1 false io_demo_reach ltac:(lia))).
  vm_compute. reflexivity.
Defined.
