(* ===== verification/Pmp.v ===== *)
(** Physical memory protection ([core/units/mmu/pmp.rs]). *)
From S2P Require Import Prelude Common.

Set Primitive Projections.
Local Open Scope Z_scope.

(** ** Data *)

Definition PMP_COUNT : nat := 16.
Definition PMP_R : Z := 1.
Definition PMP_W : Z := 2.
Definition PMP_X : Z := 4.
Definition PMP_L : Z := 128.

Inductive PmpAddrMatch := PmpOff | PmpTor | PmpNa4 | PmpNapot.
#[export] Instance PmpAddrMatch_eq_dec : EqDecision PmpAddrMatch.
Proof. solve_decision. Defined.

(** The last arm of the Rust [match] is unreachable after the mask. *)
Definition pmp_from_bits (bits : Z) : PmpAddrMatch :=
  let a := Z.land bits 3 in
  if a =? 0 then PmpOff else if a =? 1 then PmpTor else if a =? 2 then PmpNa4 else PmpNapot.

Inductive PmpResult := PmpAllow | PmpDeny | PmpNoMatch.
#[export] Instance PmpResult_eq_dec : EqDecision PmpResult.
Proof. solve_decision. Defined.

Record PmpEntry := { pmp_cfg : Z; pmp_addr : Z }.
#[export] Instance PmpEntry_inhabited : Inhabited PmpEntry := populate {| pmp_cfg := 0; pmp_addr := 0 |}.

Definition pmp_match_mode (self : PmpEntry) : PmpAddrMatch :=
  pmp_from_bits (Z.land (Z.shiftr (pmp_cfg self) 3) 3).
Definition pmp_is_readable (self : PmpEntry) : bool := has_bits (pmp_cfg self) PMP_R.
Definition pmp_is_writable (self : PmpEntry) : bool := has_bits (pmp_cfg self) PMP_W.
Definition pmp_is_executable (self : PmpEntry) : bool := has_bits (pmp_cfg self) PMP_X.
Definition pmp_is_locked (self : PmpEntry) : bool := has_bits (pmp_cfg self) PMP_L.

Record Pmp := { pmp_entries : list PmpEntry }.

Definition pmp_new : Pmp := {| pmp_entries := replicate PMP_COUNT {| pmp_cfg := 0; pmp_addr := 0 |} |}.

(** ** Register access *)

Definition pmp_set_cfg (self : Pmp) (idx : nat) (cfg : Z) : Pmp :=
  if (idx <? length (pmp_entries self))%nat then
    if has_bits (pmp_cfg (pmp_entries self !!! idx)) PMP_L then self else
    {| pmp_entries := <[idx := (pmp_entries self !!! idx) <| pmp_cfg := cfg |>]> (pmp_entries self) |}
  else self.

Definition pmp_set_addr (self : Pmp) (idx : nat) (addr : Z) : Pmp :=
  if (idx <? length (pmp_entries self))%nat then
    if has_bits (pmp_cfg (pmp_entries self !!! idx)) PMP_L then self else
    {| pmp_entries := <[idx := (pmp_entries self !!! idx) <| pmp_addr := addr |>]> (pmp_entries self) |}
  else self.

Definition pmp_get_cfg (self : Pmp) (idx : nat) : Z :=
  if (idx <? length (pmp_entries self))%nat then pmp_cfg (pmp_entries self !!! idx) else 0.
Definition pmp_get_addr (self : Pmp) (idx : nat) : Z :=
  if (idx <? length (pmp_entries self))%nat then pmp_addr (pmp_entries self !!! idx) else 0.

(** ** Address ranges *)

(** [u64::trailing_zeros]. *)
Fixpoint trailing_zeros_from (x : Z) (i : Z) (fuel : nat) : Z :=
  match fuel with
  | O => i
  | S fuel' => if Z.testbit x i then i else trailing_zeros_from x (i + 1) fuel'
  end.
Definition trailing_zeros (x : Z) : Z := trailing_zeros_from x 0 64.

Definition napot_range (pmpaddr : Z) : Z * Z :=
  let trailing := trailing_zeros (not64 pmpaddr) in
  let size_bits := trailing + 3 in
  if 64 <=? size_bits then (0, U64_MAX) else
  let size := shl64 1 size_bits in
  let mask := sub64 size 1 in
  let base := Z.land (shl64 pmpaddr 2) (not64 mask) in
  (base, add64 base size).

Definition na4_range (pmpaddr : Z) : Z * Z :=
  let base := shl64 pmpaddr 2 in (base, add64 base 4).

(** ** Permission check *)

(** The address range of entry [i], [None] for an entry that is off. *)
Definition pmp_range (entries : list PmpEntry) (i : nat) : option (Z * Z) :=
  let entry := entries !!! i in
  match pmp_match_mode entry with
  | PmpOff => None
  | PmpTor => let hi := shl64 (pmp_addr entry) 2 in
              let lo := if (i =? 0)%nat then 0 else shl64 (pmp_addr (entries !!! (i - 1)%nat)) 2 in
              Some (lo, hi)
  | PmpNa4 => Some (na4_range (pmp_addr entry))
  | PmpNapot => Some (napot_range (pmp_addr entry))
  end.

(** What a matching entry answers. *)
Definition pmp_decide (entry : PmpEntry) (is_read is_write is_exec is_machine_mode : bool) : PmpResult :=
  if is_machine_mode && negb (pmp_is_locked entry) then PmpAllow else
  let permitted := (negb is_read || pmp_is_readable entry)
                   && (negb is_write || pmp_is_writable entry)
                   && (negb is_exec || pmp_is_executable entry) in
  if permitted then PmpAllow else PmpDeny.

(** Body of the loop of [check] for entry [i]. *)
Definition pmp_check_body (entries : list PmpEntry) (byte_addr access_end : Z)
    (is_read is_write is_exec is_machine_mode : bool) (i : nat) (_ : unit) : flow unit PmpResult :=
  match pmp_range entries i with
  | None => Continue tt
  | Some (lo, hi) =>
      if (lo <=? byte_addr) && (access_end <=? hi)
      then Return (pmp_decide (entries !!! i) is_read is_write is_exec is_machine_mode)
      else Continue tt
  end.

Definition pmp_check (self : Pmp) (byte_addr size : Z) (is_read is_write is_exec is_machine_mode : bool)
    : PmpResult :=
  let access_end := add64 byte_addr size in
  after_loop (list_scan (pmp_check_body (pmp_entries self) byte_addr access_end
      is_read is_write is_exec is_machine_mode) (seq 0 (length (pmp_entries self))) tt)
    (fun _ => if is_machine_mode then PmpAllow else PmpNoMatch).

(** ** Regions as the privileged specification defines them

    [pmp_region entries i lo hi]: entry [i] protects the bytes [lo, hi), with
    [pmpaddr] holding bits 55:2 of an address.  [k] trailing ones of a NAPOT
    address give a region of [2^(k+3)] bytes. *)
Inductive pmp_region (entries : list PmpEntry) (i : nat) : Z -> Z -> Prop :=
| region_tor e hi : entries !! i = Some e -> pmp_match_mode e = PmpTor -> hi = pmp_addr e * 4 ->
    pmp_region entries i (match i with O => 0 | S j => pmp_addr (entries !!! j) * 4 end) hi
| region_na4 e : entries !! i = Some e -> pmp_match_mode e = PmpNa4 ->
    pmp_region entries i (pmp_addr e * 4) (pmp_addr e * 4 + 4)
| region_napot e k y : entries !! i = Some e -> pmp_match_mode e = PmpNapot -> 0 <= k ->
    pmp_addr e = y * 2 ^ (k + 1) + (2 ^ k - 1) ->
    pmp_region entries i (y * 2 ^ (k + 3)) ((y + 1) * 2 ^ (k + 3)).

(** [pmpaddr] registers hold 54 bits. *)
Definition pmp_wf (entries : list PmpEntry) : Prop := Forall (fun e => in_width 54 (pmp_addr e)) entries.

Lemma trailing_zeros_from_spec x i fuel :
  let r := trailing_zeros_from x i fuel in
  i <= r <= i + Z.of_nat fuel /\ (forall j, i <= j < r -> Z.testbit x j = false) /\
  (r < i + Z.of_nat fuel -> Z.testbit x r = true).
Proof.
  revert i. induction fuel as [|fuel IH]; intros i; simpl; [split_and!; intros; lia|].
  destruct (Z.testbit x i) eqn:Ex; [split_and!; [lia|lia|intros; lia|done]|].
  destruct (IH (i + 1)) as (H1 & H2 & H3). split_and!; [lia..| |].
  - intros j Hj. destruct (decide (j = i)) as [->|]; [done|]. apply H2. lia.
  - intros H. apply H3. lia.
Qed.

(** The low bits of a NAPOT address. *)
Lemma trailing_ones_mod a :
  in_width 54 a ->
  let k := trailing_zeros (not64 a) in 0 <= k <= 54 /\ a mod 2 ^ (k + 1) = 2 ^ k - 1.
Proof.
  intros Ha k. unfold k, trailing_zeros. assert (in_width 64 a) as Ha' by (unfold in_width in *; lia).
  destruct (trailing_zeros_from_spec (not64 a) 0 64) as (H1 & H2 & H3).
  set (r := trailing_zeros_from _ _ _) in *.
  assert (r <= 54) as Hr.
  { destruct (decide (r <= 54)); [done|]. specialize (H2 54 ltac:(lia)).
    by rewrite not64_testbit, (testbit_above 54 a) in H2 by done. }
  split; [lia|]. apply Z.bits_inj'. intros j Hj.
  change (a mod 2 ^ (r + 1)) with (wrap (r + 1) a). rewrite wrap_testbit, pow2_pred_testbit by lia.
  destruct (Z.ltb_spec j (r + 1)), (Z.ltb_spec j r); simpl; try lia; try done.
  - specialize (H2 j ltac:(lia)). rewrite not64_testbit in H2 by (done || lia).
    rewrite (proj2 (Z.ltb_lt _ _)) in H2 by lia. by apply negb_false_iff in H2.
  - assert (j = r) as -> by lia. specialize (H3 ltac:(lia)). rewrite not64_testbit in H3 by done.
    apply andb_prop in H3 as [_ H3]. by apply negb_true_iff in H3.
Qed.

Lemma napot_range_spec a :
  in_width 54 a ->
  exists k y, 0 <= k /\ 0 <= y /\ a = y * 2 ^ (k + 1) + (2 ^ k - 1) /\
    napot_range a = (y * 2 ^ (k + 3), (y + 1) * 2 ^ (k + 3)).
Proof.
  intros Ha. destruct (trailing_ones_mod a Ha) as [Hk Hm].
  set (k := trailing_zeros (not64 a)) in *. unfold in_width in Ha.
  exists k, (a / 2 ^ (k + 1)). pose proof (Z.div_mod a (2 ^ (k + 1)) ltac:(lia)) as Hd.
  assert (0 <= a / 2 ^ (k + 1)) as Hy by (apply Z.div_pos; lia).
  split_and!; [lia|done|lia|]. unfold napot_range. fold k.
  rewrite (proj2 (Z.leb_gt 64 (k + 3))) by lia.
  set (y := a / 2 ^ (k + 1)) in *. clearbody k y.
  assert (2 ^ (k + 1) = 2 * 2 ^ k) as E1 by (rewrite Z.pow_add_r; lia).
  assert (2 ^ (k + 3) = 8 * 2 ^ k) as E3 by (rewrite Z.pow_add_r; lia).
  assert (0 < 2 ^ k <= 2 ^ 54) as Hk' by (split; [lia|apply Z.pow_le_mono_r; lia]).
  assert (shl64 1 (k + 3) = 2 ^ (k + 3)) as -> by (rewrite shl64_small; lia).
  assert (sub64 (2 ^ (k + 3)) 1 = 2 ^ (k + 3) - 1) as ->
    by (unfold sub64; apply wrap_small; unfold in_width; lia).
  rewrite shl64_small by lia. rewrite land_align_down by (unfold in_width; lia).
  assert (a * 2 ^ 2 / 2 ^ (k + 3) = y) as -> by (symmetry; apply Z.div_unique with (4 * (2 ^ k - 1)); lia).
  f_equal. unfold add64. rewrite wrap_small; [lia|]. unfold in_width. nia.
Qed.

(** The range the code computes is the region of the specification. *)
Lemma pmp_range_region entries i :
  pmp_wf entries -> (i < length entries)%nat ->
  match pmp_range entries i with
  | Some (lo, hi) => pmp_region entries i lo hi
  | None => forall lo hi, ~ pmp_region entries i lo hi
  end.
Proof.
  intros Hwf Hi. pose proof (lookup_total_Some entries i Hi) as He.
  unfold pmp_wf in Hwf. rewrite Forall_forall in Hwf.
  assert (forall j, (j < length entries)%nat -> in_width 54 (pmp_addr (entries !!! j))) as Hw.
  { intros j Hj. apply Hwf. by eapply list_elem_of_lookup_2, lookup_total_Some. }
  assert (forall j, (j < length entries)%nat -> shl64 (pmp_addr (entries !!! j)) 2 = pmp_addr (entries !!! j) * 4) as Hs.
  { intros j Hj. specialize (Hw j Hj). unfold in_width in Hw. rewrite shl64_small; lia. }
  unfold pmp_range. destruct (pmp_match_mode (entries !!! i)) eqn:Em.
  - intros lo hi Hr. destruct Hr as [e hi He'|e He'|e k y He']; rewrite He in He'; injection He' as <-; congruence.
  - rewrite (Hs i Hi). destruct i as [|j].
    + exact (region_tor entries 0 _ _ He Em eq_refl).
    + simpl. rewrite Nat.sub_0_r, Hs by lia. exact (region_tor entries (S j) _ _ He Em eq_refl).
  - unfold na4_range. rewrite (Hs i Hi). unfold add64. rewrite wrap_small.
    + exact (region_na4 entries i _ He Em).
    + specialize (Hw i Hi). unfold in_width in *. lia.
  - destruct (napot_range_spec _ (Hw i Hi)) as (k & y & Hk & Hy & Ha & ->). by eapply region_napot.
Qed.

Lemma napot_unique k k' y y' :
  0 <= k -> 0 <= k' -> y * 2 ^ (k + 1) + (2 ^ k - 1) = y' * 2 ^ (k' + 1) + (2 ^ k' - 1) -> k = k' /\ y = y'.
Proof.
  assert (forall k k' y y', 0 <= k < k' -> y * 2 ^ (k + 1) + (2 ^ k - 1) <> y' * 2 ^ (k' + 1) + (2 ^ k' - 1)) as H.
  { clear. intros k k' y y' Hk E. apply (f_equal (fun a => Z.testbit a k)) in E.
    assert (forall k y j, 0 <= j <= k -> Z.testbit (y * 2 ^ (k + 1) + (2 ^ k - 1)) j = (j <? k)) as Hb.
    { clear. intros k y j Hj. rewrite <-pow2_pred_testbit by lia.
      rewrite <-(Z.mod_pow2_bits_low (y * 2 ^ (k + 1) + (2 ^ k - 1)) (k + 1)) by lia.
      f_equal. rewrite Z.add_comm, Z.mod_add by lia. apply Z.mod_small.
      assert (2 ^ (k + 1) = 2 * 2 ^ k) by (rewrite Z.pow_add_r; lia). lia. }
    rewrite !Hb in E by lia. rewrite Z.ltb_irrefl, (proj2 (Z.ltb_lt _ _)) in E by lia. done. }
  intros Hk Hk' E. destruct (Z.lt_trichotomy k k') as [L|[->|L]].
  - by destruct (H k k' y y').
  - split; [done|]. nia.
  - symmetry in E. by destruct (H k' k y' y).
Qed.

Lemma pmp_region_unique entries i lo hi lo' hi' :
  pmp_region entries i lo hi -> pmp_region entries i lo' hi' -> lo = lo' /\ hi = hi'.
Proof.
  intros [e h He Hm ->|e He Hm|e k y He Hm Hk Ha] H;
    inversion H as [e' h' He' Hm'|e' He' Hm'|e' k' y' He' Hm' Hk' Ha']; subst;
    rewrite He in He'; injection He' as <-; try congruence; try done.
  destruct (napot_unique k k' y y') as [-> ->]; [done..|congruence|done].
Qed.

(** ** Properties *)

Definition pmp_contains (entries : list PmpEntry) (byte_addr size : Z) (i : nat) : Prop :=
  exists lo hi, pmp_region entries i lo hi /\ lo <= byte_addr /\ byte_addr + size <= hi.

Lemma pmp_region_lt entries i lo hi : pmp_region entries i lo hi -> (i < length entries)%nat.
Proof. intros [? ? H| ? H|? ? ? H]; by eapply lookup_lt_Some. Qed.

(** One iteration of the loop, in terms of regions. *)
Lemma pmp_check_body_region entries a size r w x m i :
  pmp_wf entries -> 0 <= a -> 0 < size -> a + size < 2 ^ 64 -> (i < length entries)%nat ->
  (pmp_contains entries a size i /\
   pmp_check_body entries a (add64 a size) r w x m i tt = Return (pmp_decide (entries !!! i) r w x m)) \/
  (~ pmp_contains entries a size i /\ pmp_check_body entries a (add64 a size) r w x m i tt = Continue tt).
Proof.
  intros Hwf Ha Hs Hl Hi. unfold pmp_check_body.
  assert (add64 a size = a + size) as -> by (apply wrap_small; unfold in_width; lia).
  pose proof (pmp_range_region entries i Hwf Hi) as Hr. destruct (pmp_range entries i) as [[lo hi]|].
  - destruct (_ && _) eqn:Ec.
    + left. to_prop. split; [|done]. by exists lo, hi.
    + right. split; [|done]. intros (lo' & hi' & Hr' & H1 & H2).
      destruct (pmp_region_unique _ _ _ _ _ _ Hr Hr') as [-> ->].
      by rewrite (proj2 (Z.leb_le _ _)), (proj2 (Z.leb_le _ _)) in Ec by done.
  - right. split; [|done]. intros (lo & hi & H & _). by apply (Hr lo hi).
Qed.

(** The code's answer: the lowest-numbered entry whose region contains every
    byte of the access decides. *)
Lemma pmp_check_containing (p : Pmp) (a size : Z) (r w x m : bool) :
  pmp_wf (pmp_entries p) -> 0 <= a -> 0 < size -> a + size < 2 ^ 64 ->
  (exists i, pmp_contains (pmp_entries p) a size i /\
     (forall j, (j < i)%nat -> ~ pmp_contains (pmp_entries p) a size j) /\
     pmp_check p a size r w x m = pmp_decide (pmp_entries p !!! i) r w x m) \/
  ((forall i, ~ pmp_contains (pmp_entries p) a size i) /\
   pmp_check p a size r w x m = if m then PmpAllow else PmpNoMatch).
Proof.
  intros Hwf Ha Hs Hl. unfold pmp_check. set (es := pmp_entries p) in *.
  assert (forall n b, (b + n = length es)%nat -> (forall j, (j < b)%nat -> ~ pmp_contains es a size j) ->
    let v := after_loop (list_scan (pmp_check_body es a (add64 a size) r w x m) (seq b n) tt)
               (fun _ => if m then PmpAllow else PmpNoMatch) in
    (exists i, pmp_contains es a size i /\ (forall j, (j < i)%nat -> ~ pmp_contains es a size j) /\
       v = pmp_decide (es !!! i) r w x m) \/
    ((forall i, ~ pmp_contains es a size i) /\ v = if m then PmpAllow else PmpNoMatch)) as H.
  { induction n as [|n IH]; intros b Hb Hpre; cbn [seq list_scan].
    - right. split; [|done]. intros i Hi. apply (Hpre i); [|done].
      destruct Hi as (lo & hi & Hi%pmp_region_lt & _). lia.
    - destruct (pmp_check_body_region es a size r w x m b Hwf Ha Hs Hl ltac:(lia)) as [[Hc ->]|[Hc ->]].
      + left. exists b. split_and!; done.
      + apply IH; [lia|]. intros j Hj. destruct (decide (j = b)) as [->|]; [done|]. apply Hpre. lia. }
  apply (H _ 0%nat); [done|lia].
Qed.

(** ** The rule of the privileged specification

    The lowest-numbered entry whose region has any byte of the access decides:
    the access fails if the region does not have every byte, and otherwise its
    R, W and X bits decide, from which machine mode is exempt unless the entry
    is locked.  With no such entry machine mode is allowed, and the other modes
    have no match. *)
Definition pmp_touches (entries : list PmpEntry) (a size : Z) (i : nat) : Prop :=
  exists lo hi b, pmp_region entries i lo hi /\ lo <= b < hi /\ a <= b < a + size.
Definition pmp_first (entries : list PmpEntry) (a size : Z) (i : nat) : Prop :=
  pmp_touches entries a size i /\ forall j, (j < i)%nat -> ~ pmp_touches entries a size j.
Definition pmp_permits (e : PmpEntry) (r w x m : bool) : Prop :=
  (m = true /\ Z.testbit (pmp_cfg e) 7 = false) \/
  ((r = true -> Z.testbit (pmp_cfg e) 0 = true) /\ (w = true -> Z.testbit (pmp_cfg e) 1 = true) /\
   (x = true -> Z.testbit (pmp_cfg e) 2 = true)).

Inductive pmp_answer (entries : list PmpEntry) (a size : Z) (r w x m : bool) : PmpResult -> Prop :=
| answer_straddles i : pmp_first entries a size i -> ~ pmp_contains entries a size i ->
    pmp_answer entries a size r w x m PmpDeny
| answer_permits i : pmp_first entries a size i -> pmp_contains entries a size i -> pmp_permits (entries !!! i) r w x m ->
    pmp_answer entries a size r w x m PmpAllow
| answer_refuses i : pmp_first entries a size i -> pmp_contains entries a size i -> ~ pmp_permits (entries !!! i) r w x m ->
    pmp_answer entries a size r w x m PmpDeny
| answer_none : (forall i, ~ pmp_touches entries a size i) ->
    pmp_answer entries a size r w x m (if m then PmpAllow else PmpNoMatch).
(** The first entry with a byte of the access does not have all of them. *)
Definition pmp_straddles (entries : list PmpEntry) (a size : Z) : Prop :=
  exists i, pmp_first entries a size i /\ ~ pmp_contains entries a size i.

Lemma pmp_decide_permits e r w x m :
  (pmp_decide e r w x m = PmpAllow /\ pmp_permits e r w x m) \/ (pmp_decide e r w x m = PmpDeny /\ ~ pmp_permits e r w x m).
Proof.
  unfold pmp_decide, pmp_permits, pmp_is_locked, pmp_is_readable, pmp_is_writable, pmp_is_executable.
  change PMP_L with (2 ^ 7). change PMP_R with (2 ^ 0). change PMP_W with (2 ^ 1). change PMP_X with (2 ^ 2).
  rewrite !has_bits_pow2 by lia.
  destruct (Z.testbit _ 7), (Z.testbit _ 0), (Z.testbit _ 1), (Z.testbit _ 2), r, w, x, m; simpl;
    first [left; split; [done|]; naive_solver | right; split; [done|]; naive_solver].
Qed.
Lemma pmp_contains_touches entries a size i : 0 < size -> pmp_contains entries a size i -> pmp_touches entries a size i.
Proof. intros Hs (lo & hi & Hr & H1 & H2). exists lo, hi, a. split; [done|]. lia. Qed.

(** The lowest entry that is not refuted. *)
Lemma least_nat (P : nat -> Prop) `{!forall j, Decision (P j)} i : P i -> exists j, P j /\ forall k, (k < j)%nat -> ~ P k.
Proof.
  induction i as [i IH] using lt_wf_ind. intros Hi.
  destruct (list_find P (seq 0 i)) as [[k x]|] eqn:E.
  - apply list_find_Some in E as (Hk & Hx & _). apply lookup_seq in Hk as [-> Hk]. by apply (IH k).
  - exists i. split; [done|]. intros k Hk Hp. apply list_find_None in E. rewrite Forall_forall in E.
    apply (E k); [|done]. apply elem_of_seq. lia.
Qed.
Section Decidable.
Context (entries : list PmpEntry) (a size : Z).
Hypothesis Hwf : pmp_wf entries.
Definition region_dec (Q : Z -> Z -> Prop) (Hq0 : forall lo hi, Decision (Q lo hi)) i :
  Decision (exists lo hi, pmp_region entries i lo hi /\ Q lo hi).
Proof using Hwf.
  destruct (decide (i < length entries)%nat) as [Hi|Hi];
    [|right; intros (lo & hi & Hr & _); by apply Hi, pmp_region_lt with lo hi].
  pose proof (pmp_range_region entries i Hwf Hi) as Hr. destruct (pmp_range entries i) as [[lo hi]|];
    [|right; intros (lo & hi & Hr2 & _); by apply (Hr lo hi)].
  destruct (decide (Q lo hi)) as [Hq|Hq]; [left; by exists lo, hi|].
  right. intros (lo' & hi' & Hr' & Hq'). by destruct (pmp_region_unique _ _ _ _ _ _ Hr Hr') as [-> ->].
Defined.
Lemma pmp_touches_bounds i :
  pmp_touches entries a size i <-> exists lo hi, pmp_region entries i lo hi /\ Z.max lo a < Z.min hi (a + size).
Proof.
  split.
  - intros (lo & hi & b & Hr & H1 & H2). exists lo, hi. split; [done|]. lia.
  - intros (lo & hi & Hr & H). exists lo, hi, (Z.max lo a). split; [done|]. lia.
Qed.
#[local] Instance pmp_touches_dec i : Decision (pmp_touches entries a size i).
Proof using Hwf. 
  destruct (region_dec (fun lo hi => Z.max lo a < Z.min hi (a + size)) (fun lo hi => ltac:(cbv beta; apply _)) i) as [Hb|Hb];
    [left; by apply pmp_touches_bounds|right; by intros ?%pmp_touches_bounds].
Defined.
#[local] Instance pmp_contains_dec i : Decision (pmp_contains entries a size i).
Proof using Hwf. exact (region_dec (fun lo hi => lo <= a /\ a + size <= hi) (fun lo hi => ltac:(cbv beta; apply _)) i). Defined.

Lemma touched_first i :
  pmp_touches entries a size i -> exists j, pmp_first entries a size j.
Proof using Hwf. apply least_nat. apply _. Qed.
Lemma first_contains i : ~ pmp_straddles entries a size -> pmp_first entries a size i -> pmp_contains entries a size i.
Proof using Hwf. intros Hn Hf. destruct (decide (pmp_contains entries a size i)); [done|]. destruct Hn. by exists i. Qed.
End Decidable.

(** Regions start and end at multiples of four, so an aligned access of at most
    four bytes does not straddle one. *)
Lemma pmp_region_aligned entries i lo hi : pmp_region entries i lo hi -> lo mod 4 = 0 /\ hi mod 4 = 0.
Proof.
  assert (N : forall y k, 0 <= k -> (y * 2 ^ (k + 3)) mod 4 = 0).
  { intros y k Hk. replace (k + 3) with (k + 1 + 2) by lia. rewrite Z.pow_add_r, Z.mul_assoc by lia. by apply Z.mod_mul. }
  intros [e h _ _ ->|e _ _|e k y _ _ Hk _]; (split; [|]); try (by apply N); try (by apply Z.mod_mul).
  - destruct i; [done|by apply Z.mod_mul].
  - replace (pmp_addr e * 4 + 4) with ((pmp_addr e + 1) * 4) by lia. by apply Z.mod_mul.
Qed.
Lemma aligned_not_straddling entries a size :
  size = 1 \/ size = 2 \/ size = 4 -> a mod size = 0 -> ~ pmp_straddles entries a size.
Proof.
  intros Hs Ha (i & [(lo & hi & b & Hr & H1 & H2) _] & Hn). apply Hn. exists lo, hi. split; [done|].
  destruct (pmp_region_aligned _ _ _ _ Hr) as [Hlo Hhi].
  apply Z.mod_divide in Hlo as [l ->], Hhi as [h ->]; [|done..].
  assert (a mod 4 + size <= 4 /\ 0 <= a mod 4) as Hm.
  { pose proof (Z.mod_pos_bound a 4 ltac:(lia)). destruct Hs as [-> | [-> | ->]]; [lia| |lia].
    apply Z.mod_divide in Ha as [y ->]; [|done]. change 4 with (2 * 2). rewrite Z.mul_mod_distr_r in * by done.
    pose proof (Z.mod_pos_bound y 2 ltac:(lia)). lia. }
  pose proof (Z.div_mod a 4 ltac:(lia)). set (q := a / 4) in *. nia.
Qed.


(** Writes to the PMP registers. *)
Inductive pmp_op := PmpSetCfg (idx : nat) (cfg : Z) | PmpSetAddr (idx : nat) (addr : Z).
Definition pmp_exec (p : Pmp) (op : pmp_op) : Pmp :=
  match op with PmpSetCfg i v => pmp_set_cfg p i v | PmpSetAddr i v => pmp_set_addr p i v end.

Lemma pmp_exec_locked p op i e :
  pmp_entries p !! i = Some e -> pmp_is_locked e = true -> pmp_entries (pmp_exec p op) !! i = Some e.
Proof.
  intros He Hl. pose proof (lookup_lt_Some _ _ _ He) as Hi.
  assert (pmp_entries p !!! i = e) as Het by (by apply list_lookup_total_correct).
  unfold pmp_is_locked in Hl. destruct op as [j v|j v]; simpl;
    [unfold pmp_set_cfg|unfold pmp_set_addr]; (case_match; [|done]);
    (destruct (decide (j = i)) as [->|]; [by rewrite Het, Hl|]);
    (case_match; [done|]); simpl; by rewrite list_lookup_insert_ne.
Qed.

Lemma pmp_run_locked ops p i e :
  pmp_entries p !! i = Some e -> pmp_is_locked e = true ->
  pmp_entries (foldl pmp_exec p ops) !! i = Some e.
Proof. revert p. induction ops as [|op ops IH]; intros p He Hl; [done|]. apply IH; [|done]. by apply pmp_exec_locked. Qed.

Lemma pmp_region_same es es' i e lo hi :
  es !! i = Some e -> es' !! i = Some e ->
  (pmp_match_mode e = PmpTor -> forall j, i = S j -> es' !!! j = es !!! j) ->
  pmp_region es i lo hi -> pmp_region es' i lo hi.
Proof.
  intros He He' Ht H. destruct H as [e0 h0 H0 Hm ->|e0 H0 Hm|e0 k y H0 Hm Hk Ha];
    rewrite He in H0; injection H0 as <-.
  - destruct i as [|j]; [exact (region_tor es' 0 e _ He' Hm eq_refl)|].
    rewrite <-(Ht Hm j eq_refl). exact (region_tor es' (S j) e _ He' Hm eq_refl).
  - exact (region_na4 es' i e He' Hm).
  - by eapply region_napot.
Qed.

(** Locked PMP entries cannot be changed: after any sequence of writes to
    configuration and address registers a locked entry holds what it held, and
    it protects the same region, provided a TOR entry's lower neighbour, which
    supplies its lower bound, is locked as well. *)
Theorem pmp_locked_immutable (p : Pmp) (ops : list pmp_op) (i : nat) (e : PmpEntry) :
  pmp_entries p !! i = Some e -> pmp_is_locked e = true ->
  pmp_entries (foldl pmp_exec p ops) !! i = Some e /\
  ((pmp_match_mode e = PmpTor -> forall j, i = S j ->
      exists e', pmp_entries p !! j = Some e' /\ pmp_is_locked e' = true) ->
   forall lo hi, pmp_region (pmp_entries (foldl pmp_exec p ops)) i lo hi <-> pmp_region (pmp_entries p) i lo hi).
Proof.
  intros He Hl. pose proof (pmp_run_locked ops _ _ _ He Hl) as He'. split; [done|]. intros Ht lo hi.
  assert (pmp_match_mode e = PmpTor -> forall j, i = S j ->
    pmp_entries (foldl pmp_exec p ops) !!! j = pmp_entries p !!! j) as Hn.
  { intros Hm j Hj. destruct (Ht Hm j Hj) as (e' & H1 & H2).
    pose proof (pmp_run_locked ops _ _ _ H1 H2) as H3.
    by rewrite (list_lookup_total_correct _ _ _ H1), (list_lookup_total_correct _ _ _ H3). }
  split; apply (pmp_region_same _ _ i e); try done. intros Hm j Hj. symmetry. by apply Hn.
Qed.

(** The hypothesis on TOR entries is needed: the write to the unlocked
    neighbour moves the lower bound of the locked entry. *)
Example pmp_locked_tor_moves :
  let p := pmp_exec (pmp_exec pmp_new (PmpSetAddr 1 0x1000)) (PmpSetCfg 1 0x88) in
  pmp_range (pmp_entries p) 1 = Some (0, 0x4000) /\
  pmp_range (pmp_entries (pmp_exec p (PmpSetAddr 0 0x800))) 1 = Some (0x2000, 0x4000).
Proof. by vm_compute. Qed.

(** ** Witnesses *)

(** Entry 0: locked NAPOT, 4 KiB at 0x8000_0000, read-only; entry 1: TOR up to 2^34, all permissions. *)
Definition demo_pmp : Pmp :=
  foldl pmp_exec pmp_new
    [PmpSetAddr 0 (0x80000000 / 4 + 0x1FF); PmpSetCfg 0 0x99; PmpSetAddr 1 (2 ^ 32); PmpSetCfg 1 0x0F].


(** An access that straddles the end of entry 0 is decided by entry 1. *)
Example pmp_straddling_allowed :
  pmp_check demo_pmp 0x80000FFC 8 false true false true = PmpAllow /\ pmp_range (pmp_entries demo_pmp) 0 = Some (0x80000000, 0x80001000).
Proof. by vm_compute. Qed.

Lemma pmp_locked_immutable_witness :
  pmp_entries (foldl pmp_exec demo_pmp [PmpSetCfg 0 0; PmpSetAddr 0 7]) !! 0%nat = pmp_entries demo_pmp !! 0%nat.
Proof.
  refine (eq_trans (proj1 (pmp_locked_immutable demo_pmp [PmpSetCfg 0 0; PmpSetAddr 0 7] 0
    (pmp_entries demo_pmp !!! 0%nat) _ _)) _); by vm_compute.
Defined.
