(* ===== verification/Policy.v ===== *)
(** Cache replacement policies ([core/units/cache/policies/]).  The trait is
    the class [ReplacementPolicy]; [PolicyLaws] is what a cache needs from an
    implementation: a victim is always one of the ways of the set. *)
From S2P Require Import Prelude.

Set Primitive Projections.

(** ** The interface *)

Class ReplacementPolicy (P : Type) := {
  policy_update : P -> nat -> nat -> P;
  policy_get_victim : P -> nat -> nat * P
}.

Class PolicyLaws (P : Type) `{ReplacementPolicy P} := {
  policy_ok : nat -> nat -> P -> Prop;
  policy_victim_lt (sets ways : nat) (p : P) (set : nat) :
    policy_ok sets ways p -> set < sets -> (policy_get_victim p set).1 < ways;
  policy_victim_ok (sets ways : nat) (p : P) (set : nat) :
    policy_ok sets ways p -> set < sets -> policy_ok sets ways (policy_get_victim p set).2;
  policy_update_ok (sets ways : nat) (p : P) (set way : nat) :
    policy_ok sets ways p -> set < sets -> way < ways -> policy_ok sets ways (policy_update p set way)
}.

(** ** FIFO *)

Record FifoPolicy := { fifo_next_way : list nat; fifo_ways : nat }.
Definition fifo_new (sets ways : nat) : FifoPolicy :=
  {| fifo_next_way := replicate sets 0; fifo_ways := ways |}.
Definition fifo_update (self : FifoPolicy) (set way : nat) : FifoPolicy :=
  if (fifo_next_way self !!! set =? way)%nat
  then self <| fifo_next_way :=
    <[set := (fifo_next_way self !!! set + 1) mod fifo_ways self]> (fifo_next_way self) |>
  else self.
Definition fifo_get_victim (self : FifoPolicy) (set : nat) : nat * FifoPolicy :=
  (fifo_next_way self !!! set, self).

(** ** LRU and MRU: a stack of ways, most recent first *)

(** [stack.remove(position of way); stack.insert(0, way)] *)
Fixpoint remove_first (way : nat) (stack : list nat) : list nat :=
  match stack with
  | [] => []
  | x :: rest => if (x =? way)%nat then rest else x :: remove_first way rest
  end.
Definition move_to_front (way : nat) (stack : list nat) : list nat := way :: remove_first way stack.

Record LruPolicy := { lru_usage : list (list nat) }.
Definition lru_new (sets ways : nat) : LruPolicy := {| lru_usage := replicate sets (seq 0 ways) |}.
Definition lru_update (self : LruPolicy) (set way : nat) : LruPolicy :=
  {| lru_usage := <[set := move_to_front way (lru_usage self !!! set)]> (lru_usage self) |}.
Definition lru_get_victim (self : LruPolicy) (set : nat) : nat * LruPolicy :=
  (default 0 (last (lru_usage self !!! set)), self).

Record MruPolicy := { mru_usage : list (list nat) }.
Definition mru_new (sets ways : nat) : MruPolicy := {| mru_usage := replicate sets (seq 0 ways) |}.
Definition mru_update (self : MruPolicy) (set way : nat) : MruPolicy :=
  {| mru_usage := <[set := move_to_front way (mru_usage self !!! set)]> (mru_usage self) |}.
Definition mru_get_victim (self : MruPolicy) (set : nat) : nat * MruPolicy :=
  (default 0 (head (mru_usage self !!! set)), self).

(** ** PLRU: one used bit per way *)

(** [1 << n] on [u64] uses the low six bits of [n]. *)
Definition bit64 (n : nat) : Z := shl64 1 (Z.of_nat n mod 64).

Record PlruPolicy := { plru_usage : list Z; plru_ways : nat }.
Definition plru_new (sets ways : nat) : PlruPolicy :=
  {| plru_usage := replicate sets 0%Z; plru_ways := ways |}.
Definition plru_update (self : PlruPolicy) (set way : nat) : PlruPolicy :=
  let mask := bit64 way in
  let usage := Z.lor (plru_usage self !!! set) mask in
  let all_ones := sub64 (bit64 (plru_ways self)) 1 in
  let usage := if (Z.land usage all_ones =? all_ones)%Z then mask else usage in
  self <| plru_usage := <[set := usage]> (plru_usage self) |>.
Definition plru_get_victim (self : PlruPolicy) (set : nat) : nat * PlruPolicy :=
  (after_loop (list_scan (fun i (_ : unit) =>
      if negb (bit_at (plru_usage self !!! set) (Z.of_nat i mod 64)) then Return i else Continue tt)
      (seq 0 (plru_ways self)) tt) (fun _ => 0), self).

(** ** Random: an xorshift generator *)

Record RandomPolicy := { random_ways : nat; random_state : Z }.
Definition random_new (sets ways : nat) : RandomPolicy :=
  {| random_ways := ways; random_state := 123456789 |}.
Definition random_update (self : RandomPolicy) (set way : nat) : RandomPolicy := self.
Definition xorshift (x : Z) : Z :=
  let x := Z.lxor x (shl64 x 13) in
  let x := Z.lxor x (Z.shiftr x 7) in
  Z.lxor x (shl64 x 17).
Definition random_get_victim (self : RandomPolicy) (set : nat) : nat * RandomPolicy :=
  let x := xorshift (random_state self) in
  (Z.to_nat (x mod Z.of_nat (random_ways self)), self <| random_state := x |>).

#[export] Instance Fifo_policy : ReplacementPolicy FifoPolicy :=
  {| policy_update := fifo_update; policy_get_victim := fifo_get_victim |}.
#[export] Instance Lru_policy : ReplacementPolicy LruPolicy :=
  {| policy_update := lru_update; policy_get_victim := lru_get_victim |}.
#[export] Instance Mru_policy : ReplacementPolicy MruPolicy :=
  {| policy_update := mru_update; policy_get_victim := mru_get_victim |}.
#[export] Instance Plru_policy : ReplacementPolicy PlruPolicy :=
  {| policy_update := plru_update; policy_get_victim := plru_get_victim |}.
#[export] Instance Random_policy : ReplacementPolicy RandomPolicy :=
  {| policy_update := random_update; policy_get_victim := random_get_victim |}.

(** ** Dynamic dispatch: [Box<dyn ReplacementPolicy>] *)

Inductive DynPolicy :=
| DynFifo (p : FifoPolicy) | DynLru (p : LruPolicy) | DynMru (p : MruPolicy)
| DynPlru (p : PlruPolicy) | DynRandom (p : RandomPolicy).

Definition dyn_update (self : DynPolicy) (set way : nat) : DynPolicy :=
  match self with
  | DynFifo p => DynFifo (policy_update p set way)
  | DynLru p => DynLru (policy_update p set way)
  | DynMru p => DynMru (policy_update p set way)
  | DynPlru p => DynPlru (policy_update p set way)
  | DynRandom p => DynRandom (policy_update p set way)
  end.
Definition dyn_get_victim (self : DynPolicy) (set : nat) : nat * DynPolicy :=
  match self with
  | DynFifo p => let '(w, p) := policy_get_victim p set in (w, DynFifo p)
  | DynLru p => let '(w, p) := policy_get_victim p set in (w, DynLru p)
  | DynMru p => let '(w, p) := policy_get_victim p set in (w, DynMru p)
  | DynPlru p => let '(w, p) := policy_get_victim p set in (w, DynPlru p)
  | DynRandom p => let '(w, p) := policy_get_victim p set in (w, DynRandom p)
  end.
#[export] Instance Dyn_policy : ReplacementPolicy DynPolicy :=
  {| policy_update := dyn_update; policy_get_victim := dyn_get_victim |}.

(** ** Laws *)

Lemma remove_first_not_in way stack : way ∉ stack -> remove_first way stack = stack.
Proof.
  induction stack as [|x l IH]; intros H; simpl; [done|]. apply not_elem_of_cons in H as [H1 H2].
  case_bool; to_prop; [by subst|]. by rewrite IH.
Qed.

Lemma move_to_front_perm way stack : way ∈ stack -> Permutation (move_to_front way stack) stack.
Proof.
  unfold move_to_front. induction stack as [|x l IH]; simpl; [by intros ?%elem_of_nil|].
  case_bool; to_prop; [by subst|]. intros [->|H]%elem_of_cons; [done|].
  rewrite <-(IH H) at 2. constructor.
Qed.

Definition stacks_ok (sets ways : nat) (usage : list (list nat)) : Prop :=
  0 < ways /\ length usage = sets /\ Forall (fun s => Permutation s (seq 0 ways)) usage.

Lemma stacks_ok_new sets ways : 0 < ways -> stacks_ok sets ways (replicate sets (seq 0 ways)).
Proof. intros. split_and!; [done|apply length_replicate|]. by apply Forall_replicate. Qed.

Lemma stacks_ok_at sets ways usage set :
  stacks_ok sets ways usage -> set < sets -> Permutation (usage !!! set) (seq 0 ways).
Proof.
  intros (_ & Hl & Hf) Hs. apply (Forall_at (fun s => Permutation s (seq 0 ways))); [done|lia].
Qed.

Lemma stacks_ok_update sets ways usage set way :
  stacks_ok sets ways usage -> set < sets -> way < ways ->
  stacks_ok sets ways (<[set := move_to_front way (usage !!! set)]> usage).
Proof.
  intros Hok Hs Hw. pose proof (stacks_ok_at _ _ _ _ Hok Hs) as Hp. destruct Hok as (H0 & Hl & Hf).
  split_and!; [done|by rewrite length_insert|]. apply Forall_insert; [done|].
  etrans; [|exact Hp]. apply move_to_front_perm. rewrite Hp. apply elem_of_seq. lia.
Qed.

Lemma perm_seq_default_lt (ways : nat) (s : list nat) (o : option nat) :
  0 < ways -> Permutation s (seq 0 ways) -> (forall v, o = Some v -> v ∈ s) -> default 0 o < ways.
Proof.
  intros H0 Hp Ho. destruct o as [x|]; simpl; [|done]. specialize (Ho x eq_refl).
  rewrite Hp in Ho. apply elem_of_seq in Ho. lia.
Qed.

#[export] Program Instance Fifo_laws : PolicyLaws FifoPolicy := {|
  policy_ok sets ways p := 0 < ways /\ fifo_ways p = ways /\ length (fifo_next_way p) = sets /\
    Forall (fun w => w < ways) (fifo_next_way p) |}.
Next Obligation.
  intros sets ways p set (H0 & _ & Hl & Hf) Hs. cbn.
  apply (Forall_at (fun w => w < ways)); [done|lia].
Qed.
Next Obligation. done. Qed.
Next Obligation.
  intros sets ways p set way (H0 & Hw & Hl & Hf) Hs Hway. cbn. unfold fifo_update. case_bool; [|done].
  cbn. split_and!; [done|done|by rewrite length_insert|]. apply Forall_insert; [done|].
  rewrite Hw. apply Nat.mod_upper_bound. lia.
Qed.

#[export] Program Instance Lru_laws : PolicyLaws LruPolicy := {|
  policy_ok sets ways p := stacks_ok sets ways (lru_usage p) |}.
Next Obligation.
  intros sets ways p set Hok Hs. cbn. apply (perm_seq_default_lt _ _ _ (proj1 Hok) (stacks_ok_at _ _ _ _ Hok Hs)).
  intros v. apply last_Some_elem_of.
Qed.
Next Obligation. done. Qed.
Next Obligation. intros. by apply stacks_ok_update. Qed.

#[export] Program Instance Mru_laws : PolicyLaws MruPolicy := {|
  policy_ok sets ways p := stacks_ok sets ways (mru_usage p) |}.
Next Obligation.
  intros sets ways p set Hok Hs. cbn. apply (perm_seq_default_lt _ _ _ (proj1 Hok) (stacks_ok_at _ _ _ _ Hok Hs)).
  intros v. destruct (_ !!! _); simpl; [done|]. intros [= ->]. by left.
Qed.
Next Obligation. done. Qed.
Next Obligation. intros. by apply stacks_ok_update. Qed.

#[export] Program Instance Plru_laws : PolicyLaws PlruPolicy := {|
  policy_ok sets ways p := 0 < ways /\ plru_ways p = ways /\ length (plru_usage p) = sets |}.
Next Obligation.
  intros sets ways p set (H0 & Hw & Hl) Hs. cbn. rewrite Hw.
  assert (forall n b, b + n = ways -> after_loop (list_scan (fun i (_ : unit) =>
      if negb (bit_at (plru_usage p !!! set) (Z.of_nat i mod 64)) then Return i else Continue tt)
      (seq b n) tt) (fun _ => 0) < ways) as H; [|by apply H].
  induction n as [|n IH]; intros b Hb; simpl; [done|]. case_bool; simpl; [lia|]. apply IH. lia.
Qed.
Next Obligation. done. Qed.
Next Obligation. intros sets ways p set way (H0 & Hw & Hl) Hs Hway. cbn. by rewrite length_insert. Qed.

#[export] Program Instance Random_laws : PolicyLaws RandomPolicy := {|
  policy_ok sets ways p := 0 < ways /\ random_ways p = ways |}.
Next Obligation.
  intros sets ways p set (H0 & Hw) Hs. cbn. rewrite Hw.
  pose proof (Z.mod_pos_bound (xorshift (random_state p)) (Z.of_nat ways)). lia.
Qed.
Next Obligation. done. Qed.
Next Obligation. done. Qed.

Definition dyn_ok (sets ways : nat) (p : DynPolicy) : Prop :=
  match p with
  | DynFifo p => policy_ok sets ways p | DynLru p => policy_ok sets ways p
  | DynMru p => policy_ok sets ways p | DynPlru p => policy_ok sets ways p
  | DynRandom p => policy_ok sets ways p
  end.
#[export] Program Instance Dyn_laws : PolicyLaws DynPolicy := {| policy_ok := dyn_ok |}.
Next Obligation.
  intros sets ways [p|p|p|p|p] set H Hs; cbn [policy_get_victim Dyn_policy dyn_get_victim];
    pose proof (policy_victim_lt sets ways p set H Hs); by destruct (policy_get_victim p set).
Qed.
Next Obligation.
  intros sets ways [p|p|p|p|p] set H Hs; cbn [policy_get_victim Dyn_policy dyn_get_victim];
    pose proof (policy_victim_ok sets ways p set H Hs); by destruct (policy_get_victim p set).
Qed.
Next Obligation. intros sets ways [p|p|p|p|p] set way H Hs Hw; exact (policy_update_ok sets ways p set way H Hs Hw). Qed.

(** ** LRU evicts the least recently used way *)

(** In the history of accesses (set, way), oldest first, way [w] of [set] was
    used later than [v]; ways never used rank below, the higher index lowest. *)
Definition used_after (hist : list (nat * nat)) (set w v : nat) : Prop :=
  (exists h1 h2, hist = h1 ++ h2 /\ ((set, w) ∈ h2) /\ ((set, v) ∉ h2)) \/
  (((set, w) ∉ hist) /\ ((set, v) ∉ hist) /\ w < v).

Definition lru_after (sets ways : nat) (hist : list (nat * nat)) : LruPolicy :=
  foldl (fun p a => lru_update p a.1 a.2) (lru_new sets ways) hist.

Lemma used_after_snoc hist set w v s x :
  used_after hist set w v -> (s, x) <> (set, w) -> (s, x) <> (set, v) ->
  used_after (hist ++ [(s, x)]) set w v.
Proof.
  intros [(h1 & h2 & -> & Hw & Hv)|(Hw & Hv & Hlt)] Hne Hne'; [left|right].
  - exists h1, (h2 ++ [(s, x)]). rewrite app_assoc. set_solver.
  - set_solver.
Qed.

Lemma remove_first_sorted (R S : nat -> nat -> Prop) x l :
  NoDup l -> (forall w v, w <> x -> v <> x -> R w v -> S w v) ->
  StronglySorted R l -> StronglySorted S (remove_first x l).
Proof.
  intros Hnd HS. induction 1 as [|y l Hl IH Hy]; simpl; [constructor|]. apply NoDup_cons in Hnd as [Hny Hnd].
  assert (forall z, z ∈ remove_first x l -> z ∈ l /\ z <> x) as Hrf.
  { clear -Hnd. induction l as [|z l IH]; simpl; [set_solver|]. apply NoDup_cons in Hnd as [? Hnd].
    intros a. case_bool; to_prop; set_solver. }
  case_bool; to_prop.
  - subst y. rewrite <-(remove_first_not_in x l) by done. by apply IH.
  - constructor; [by apply IH|]. apply Forall_forall. intros z Hz. apply Hrf in Hz as [Hz Hzx].
    apply HS; [done|done|]. rewrite Forall_forall in Hy. by apply Hy.
Qed.

Lemma lru_after_snoc sets ways hist s x :
  lru_after sets ways (hist ++ [(s, x)]) = lru_update (lru_after sets ways hist) s x.
Proof. unfold lru_after. by rewrite foldl_app. Qed.

Lemma lru_after_ok sets ways hist :
  0 < ways -> Forall (fun a => a.1 < sets /\ a.2 < ways) hist ->
  stacks_ok sets ways (lru_usage (lru_after sets ways hist)).
Proof.
  intros H0. induction hist as [|[s x] hist IH] using rev_ind; intros Hf; [by apply stacks_ok_new|].
  apply Forall_app in Hf as [Hf Hx]. apply Forall_cons in Hx as [[? ?] _].
  rewrite lru_after_snoc. apply stacks_ok_update; [by apply IH|done|done].
Qed.

Lemma lru_stack_sorted sets ways hist set :
  0 < ways -> Forall (fun a => a.1 < sets /\ a.2 < ways) hist -> set < sets ->
  StronglySorted (used_after hist set) (lru_usage (lru_after sets ways hist) !!! set).
Proof.
  intros H0 Hf Hs. induction hist as [|[s x] hist IH] using rev_ind.
  - simpl. rewrite lookup_total_replicate_2 by done. generalize 0 as b.
    clear. induction ways as [|n IH]; intros b; simpl; constructor; [apply IH|].
    apply Forall_forall. intros v Hv%elem_of_seq. right. split_and!; [set_solver..|lia].
  - pose proof Hf as Hf'. apply Forall_app in Hf' as [Hf' Hx]. apply Forall_cons in Hx as [[Hs' Hw] _].
    specialize (IH Hf'). pose proof (lru_after_ok _ _ _ H0 Hf') as Hok.
    rewrite lru_after_snoc. unfold lru_update. simpl. destruct (decide (s = set)) as [->|Hne].
    + rewrite list_lookup_total_insert_eq by (destruct Hok as (_ & -> & _); done).
      pose proof (stacks_ok_at _ _ _ _ Hok Hs) as Hp.
      assert (NoDup (lru_usage (lru_after sets ways hist) !!! set)) as Hnd by (rewrite Hp; apply NoDup_seq).
      unfold move_to_front. constructor.
      * eapply remove_first_sorted; [done| |exact IH]. intros w v ? ? ?. apply used_after_snoc; congruence.
      * apply Forall_forall. intros v Hv. left. exists hist, [(set, x)]. split; [done|].
        assert (v <> x); [|set_solver]. clear -Hnd Hv. intros ->. revert Hnd Hv.
        induction (_ !!! _) as [|z l IH]; simpl; [set_solver|]. intros [? Hnd]%NoDup_cons.
        case_bool; to_prop; set_solver.
    + rewrite list_lookup_total_insert_ne by done.
      eapply StronglySorted_ind with (P := StronglySorted (used_after (hist ++ [(s, x)]) set)); [constructor| |exact IH].
      intros w l _ Hl Hw'. constructor; [done|]. eapply Forall_impl; [exact Hw'|].
      intros v Hv. apply used_after_snoc; congruence.
Qed.

Lemma strongly_sorted_last {A} (R : A -> A -> Prop) l v w :
  StronglySorted R l -> last l = Some v -> w ∈ l -> w <> v -> R w v.
Proof.
  induction 1 as [|x l Hl IH Hx]; [done|]. intros Hv Hw Hne. destruct l as [|y l].
  - simpl in Hv. injection Hv as ->. set_solver.
  - rewrite last_cons_cons in Hv. apply elem_of_cons in Hw as [->|Hw]; [|by apply IH].
    rewrite Forall_forall in Hx. apply Hx. by apply last_Some_elem_of.
Qed.

(** The LRU policy evicts the least recently used way: after any history
    of accesses to any sets, every other way of the set was used after the
    victim's last use; accesses to other sets do not matter. *)
Theorem lru_victim_least_recent (sets ways set w : nat) (hist : list (nat * nat)) :
  0 < ways -> Forall (fun a => a.1 < sets /\ a.2 < ways) hist -> set < sets -> w < ways ->
  let v := (lru_get_victim (lru_after sets ways hist) set).1 in
  v < ways /\ (w <> v -> used_after hist set w v).
Proof.
  intros H0 Hf Hs Hw v. pose proof (lru_after_ok _ _ _ H0 Hf) as Hok.
  pose proof (stacks_ok_at _ _ _ _ Hok Hs) as Hp. split; [exact (policy_victim_lt (P := LruPolicy) sets ways (lru_after sets ways hist) set Hok Hs)|].
  intros Hne. unfold v, lru_get_victim in *. simpl in *. destruct (last _) as [x|] eqn:Hl; simpl in *.
  - eapply strongly_sorted_last; [by apply lru_stack_sorted|done|rewrite Hp; apply elem_of_seq; lia|done].
  - apply last_None in Hl. rewrite Hl in Hp. apply Permutation_nil_l in Hp. destruct ways; [lia|done].
Qed.

Lemma lru_victim_least_recent_witness :
  (lru_get_victim (lru_after 2 4 [(0, 0); (1, 1); (0, 3); (0, 2); (0, 0); (0, 1)]) 0).1 = 3 /\
  used_after [(0, 0); (1, 1); (0, 3); (0, 2); (0, 0); (0, 1)] 0 0 3.
Proof.
  assert ((lru_get_victim (lru_after 2 4 [(0, 0); (1, 1); (0, 3); (0, 2); (0, 0); (0, 1)]) 0).1 = 3) as E by done.
  split; [exact E|]. rewrite <-E.
  apply (lru_victim_least_recent 2 4 0 0 [(0, 0); (1, 1); (0, 3); (0, 2); (0, 0); (0, 1)]); [lia| |lia|lia|].
  - apply (bool_decide_unpack _). by vm_compute.
  - rewrite E. lia.
Defined.

(** The FIFO pointer also advances on a hit to the way it points at: with two
    ways filled in order 0, 1, a hit on way 0 makes way 1, filled later, the victim. *)
Example fifo_hit_skips_oldest :
  let p := fifo_update (fifo_update (fifo_new 1 2) 0 0) 0 1 in
  (fifo_get_victim p 0).1 = 0 /\ (fifo_get_victim (fifo_update p 0 0) 0).1 = 1.
Proof. done. Qed.
