(* ===== verification/Prefetch.v ===== *)
(** Hardware prefetchers and the shared prefetch filter
    ([core/units/prefetch/]).  The trait is the class [Prefetcher]. *)
From S2P Require Import Prelude.

Set Primitive Projections.
Local Open Scope Z_scope.

(** ** The interface *)

Class Prefetcher (PF : Type) := { observe : PF -> Z -> bool -> list Z * PF }.

(** [1..=degree] *)
Definition steps (degree : nat) : list Z := seqZ 1 (Z.of_nat degree).
(** [addr & !(line_bytes - 1)] *)
Definition line_align (addr line_bytes : Z) : Z := Z.land addr (not64 (sub64 line_bytes 1)).
Definition safe_degree (degree : nat) : nat := if (degree =? 0)%nat then 1 else degree.
Definition mul64 (a b : Z) : Z := u64 (a * b).
(** Arithmetic on [i64], wrapping, on signed representatives. *)
Definition i64 (x : Z) : Z := as_signed 64 (u64 x).

(** ** Next line *)

Record NextLinePrefetcher := { nl_line_bytes : Z; nl_degree : nat }.
Definition next_line_new (line_bytes : Z) (degree : nat) : NextLinePrefetcher :=
  {| nl_line_bytes := line_bytes; nl_degree := safe_degree degree |}.
Definition next_line_observe (self : NextLinePrefetcher) (addr : Z) (_hit : bool)
    : list Z * NextLinePrefetcher :=
  ((fun k => let offset := mul64 (nl_line_bytes self) k in
             add64 (line_align addr (nl_line_bytes self)) offset) <$> steps (nl_degree self), self).

(** ** Stride *)

Record StreamEntry := { last_addr : Z; stride : Z; confidence : Z }.
#[export] Instance StreamEntry_inhabited : Inhabited StreamEntry :=
  populate {| last_addr := 0; stride := 0; confidence := 0 |}.
Record StridePrefetcher := {
  stp_table : list StreamEntry; stp_line_bytes : Z; stp_table_mask : Z; stp_degree : nat }.
Definition is_power_of_two (n : Z) : bool := (0 <? n) && (Z.land n (n - 1) =? 0).
Definition stride_new (line_bytes table_size : Z) (degree : nat) : StridePrefetcher :=
  let safe_size := if (0 <? table_size) && is_power_of_two table_size then table_size else 64 in
  {| stp_table := replicate (Z.to_nat safe_size) {| last_addr := 0; stride := 0; confidence := 0 |};
     stp_line_bytes := line_bytes; stp_table_mask := safe_size - 1; stp_degree := safe_degree degree |}.
Definition stride_observe (self : StridePrefetcher) (addr : Z) (_hit : bool) : list Z * StridePrefetcher :=
  let idx := Z.to_nat (Z.land (Z.shiftr addr 6) (stp_table_mask self)) in
  let entry := stp_table self !!! idx in
  let current_stride := i64 (as_signed 64 addr - as_signed 64 (last_addr entry)) in
  let '(prefetches, entry) :=
    if current_stride =? stride entry then
      if confidence entry <? 3 then ([], entry <| confidence := confidence entry + 1 |>)
      else ((fun k => let lookahead := i64 (stride entry * k) in
                      let target := u64 (as_signed 64 addr + lookahead) in
                      line_align target (stp_line_bytes self)) <$> steps (stp_degree self), entry)
    else if 0 <? confidence entry then ([], entry <| confidence := confidence entry - 1 |>)
    else ([], entry <| stride := current_stride |>) in
  (prefetches, self <| stp_table := <[idx := entry <| last_addr := addr |>]> (stp_table self) |>).

(** ** Stream *)

Inductive Direction := DirNone | Ascending | Descending.
#[export] Instance Direction_eq_dec : EqDecision Direction.
Proof. solve_decision. Defined.
Record StreamPrefetcher := {
  sp_line_bytes : Z; sp_degree : nat; sp_last_addr : Z; sp_direction : Direction; sp_confidence : Z }.
Definition stream_new (line_bytes : Z) (degree : nat) : StreamPrefetcher :=
  {| sp_line_bytes := line_bytes; sp_degree := safe_degree degree; sp_last_addr := 0;
     sp_direction := DirNone; sp_confidence := 0 |}.
Definition stream_observe (self : StreamPrefetcher) (addr : Z) (_hit : bool) : list Z * StreamPrefetcher :=
  let diff := i64 (as_signed 64 addr - as_signed 64 (sp_last_addr self)) in
  let line_sz := as_signed 64 (sp_line_bytes self) in
  let current_dir := if diff =? line_sz then Ascending
                     else if diff =? i64 (- line_sz) then Descending else DirNone in
  let self :=
    if negb (bool_decide (current_dir = DirNone)) then
      if bool_decide (current_dir = sp_direction self) then
        if sp_confidence self <? 3 then self <| sp_confidence := sp_confidence self + 1 |> else self
      else self <| sp_direction := current_dir |> <| sp_confidence := 1 |>
    else if 0 <? sp_confidence self then self <| sp_confidence := sp_confidence self - 1 |>
    else self <| sp_direction := DirNone |> in
  let prefetches :=
    if 2 <=? sp_confidence self then
      (fun k => let offset := if bool_decide (sp_direction self = Ascending)
                              then mul64 k (sp_line_bytes self) else u64 (k * i64 (- line_sz)) in
                add64 (line_align addr (sp_line_bytes self)) offset) <$> steps (sp_degree self)
    else [] in
  (prefetches, self <| sp_last_addr := addr |>).

(** ** Tagged *)

Record TaggedPrefetcher := {
  tp_line_bytes : Z; tp_degree : nat; tp_prefetched_filter : list Z; tp_filter_mask : Z }.
Definition tagged_new (line_bytes : Z) (degree : nat) : TaggedPrefetcher :=
  {| tp_line_bytes := line_bytes; tp_degree := safe_degree degree;
     tp_prefetched_filter := replicate 64 0; tp_filter_mask := 63 |}.
Definition was_prefetched (self : TaggedPrefetcher) (addr : Z) : bool :=
  let idx := Z.to_nat (Z.land (Z.shiftr addr 6) (tp_filter_mask self)) in
  tp_prefetched_filter self !!! idx =? addr.
Definition mark_prefetched (self : TaggedPrefetcher) (addr : Z) : TaggedPrefetcher :=
  let idx := Z.to_nat (Z.land (Z.shiftr addr 6) (tp_filter_mask self)) in
  self <| tp_prefetched_filter := <[idx := addr]> (tp_prefetched_filter self) |>.
Definition tagged_observe (self : TaggedPrefetcher) (addr : Z) (hit : bool) : list Z * TaggedPrefetcher :=
  let aligned_addr := line_align addr (tp_line_bytes self) in
  if negb hit || was_prefetched self aligned_addr then
    foldl (fun '(prefetches, self) k =>
             let target := add64 aligned_addr (mul64 (tp_line_bytes self) k) in
             (prefetches ++ [target], mark_prefetched self target))
          ([], self) (steps (tp_degree self))
  else ([], self).

#[export] Instance NextLine_prefetcher : Prefetcher NextLinePrefetcher := {| observe := next_line_observe |}.
#[export] Instance Stride_prefetcher : Prefetcher StridePrefetcher := {| observe := stride_observe |}.
#[export] Instance Stream_prefetcher : Prefetcher StreamPrefetcher := {| observe := stream_observe |}.
#[export] Instance Tagged_prefetcher : Prefetcher TaggedPrefetcher := {| observe := tagged_observe |}.

(** [Box<dyn Prefetcher>] *)
Inductive DynPrefetcher :=
| DynNextLine (p : NextLinePrefetcher) | DynStride (p : StridePrefetcher)
| DynStream (p : StreamPrefetcher) | DynTagged (p : TaggedPrefetcher).
Definition dyn_observe (self : DynPrefetcher) (addr : Z) (hit : bool) : list Z * DynPrefetcher :=
  match self with
  | DynNextLine p => let '(l, p) := observe p addr hit in (l, DynNextLine p)
  | DynStride p => let '(l, p) := observe p addr hit in (l, DynStride p)
  | DynStream p => let '(l, p) := observe p addr hit in (l, DynStream p)
  | DynTagged p => let '(l, p) := observe p addr hit in (l, DynTagged p)
  end.
#[export] Instance Dyn_prefetcher : Prefetcher DynPrefetcher := {| observe := dyn_observe |}.

(** ** The prefetch filter *)

Record PrefetchFilter := { pf_table : list Z; pf_mask : Z; pf_line_bytes : Z }.
(** [usize::next_power_of_two]; a result above [2^63] does not occur for a table in memory. *)
Definition next_power_of_two (n : Z) : Z := 2 ^ Z.log2_up n.
Definition filter_new (size line_bytes : Z) : PrefetchFilter :=
  let safe_line := if line_bytes =? 0 then 64 else line_bytes in
  if size =? 0 then {| pf_table := []; pf_mask := 0; pf_line_bytes := safe_line |} else
  let actual_size := next_power_of_two size in
  {| pf_table := replicate (Z.to_nat actual_size) U64_MAX; pf_mask := actual_size - 1;
     pf_line_bytes := safe_line |}.
Definition filter_is_empty (self : PrefetchFilter) : bool := (length (pf_table self) =? 0)%nat.
Definition filter_is_disabled (self : PrefetchFilter) : bool := filter_is_empty self.
Definition filter_index (self : PrefetchFilter) (line_addr : Z) : nat :=
  Z.to_nat (Z.land (Z.shiftr line_addr 6) (pf_mask self)).
Definition filter_contains (self : PrefetchFilter) (addr : Z) : bool :=
  if filter_is_empty self then false else
  let line_addr := line_align addr (pf_line_bytes self) in
  pf_table self !!! filter_index self line_addr =? line_addr.
Definition filter_insert (self : PrefetchFilter) (addr : Z) : PrefetchFilter :=
  if filter_is_empty self then self else
  let line_addr := line_align addr (pf_line_bytes self) in
  self <| pf_table := <[filter_index self line_addr := line_addr]> (pf_table self) |>.
Definition filter_remove (self : PrefetchFilter) (addr : Z) : PrefetchFilter :=
  if filter_is_empty self then self else
  let line_addr := line_align addr (pf_line_bytes self) in
  let idx := filter_index self line_addr in
  if pf_table self !!! idx =? line_addr
  then self <| pf_table := <[idx := U64_MAX]> (pf_table self) |> else self.
Fixpoint filter_loop (self : PrefetchFilter) (addrs : list Z) (dedup_count : Z) : list Z * PrefetchFilter * Z :=
  match addrs with
  | [] => ([], self, dedup_count)
  | addr :: addrs =>
      if filter_contains self addr then filter_loop self addrs (add64 dedup_count 1)
      else let '(result, self, dedup_count) := filter_loop (filter_insert self addr) addrs dedup_count in
           (addr :: result, self, dedup_count)
  end.
Definition filter_and_record (self : PrefetchFilter) (addrs : list Z) (dedup_count : Z)
    : list Z * PrefetchFilter * Z :=
  if filter_is_empty self then (addrs, self, dedup_count) else filter_loop self addrs dedup_count.

(** ** Prefetch candidates *)

Definition dyn_line_bytes (p : DynPrefetcher) : Z :=
  match p with DynNextLine p => nl_line_bytes p | DynStride p => stp_line_bytes p
             | DynStream p => sp_line_bytes p | DynTagged p => tp_line_bytes p end.
Definition dyn_degree (p : DynPrefetcher) : nat :=
  match p with DynNextLine p => nl_degree p | DynStride p => stp_degree p
             | DynStream p => sp_degree p | DynTagged p => tp_degree p end.

(** An address of a line of [2^n] bytes. *)
Definition line_address (n a : Z) : Prop := in_width 64 a /\ a mod 2 ^ n = 0.

Lemma line_align_pow2 (n a : Z) :
  0 <= n < 64 -> in_width 64 a -> line_align a (2 ^ n) = a / 2 ^ n * 2 ^ n.
Proof.
  intros Hn Ha. unfold line_align. assert (1 <= 2 ^ n < 2 ^ 64) by (split; [lia|apply Z.pow_lt_mono_r; lia]).
  assert (sub64 (2 ^ n) 1 = 2 ^ n - 1) as -> by (apply wrap_small; unfold in_width; lia).
  apply land_align_down; [done|lia].
Qed.

Lemma line_address_align (n a : Z) :
  0 <= n < 64 -> in_width 64 a -> line_address n (line_align a (2 ^ n)).
Proof.
  intros Hn Ha. rewrite line_align_pow2 by done. assert (0 < 2 ^ n) by lia. split.
  - unfold in_width in *. pose proof (Z.mul_div_le a (2 ^ n)). pose proof (Z.div_pos a (2 ^ n)). nia.
  - by apply Z.mod_mul; lia.
Qed.

Lemma line_address_add (n a b : Z) :
  0 <= n <= 64 -> a mod 2 ^ n = 0 -> b mod 2 ^ n = 0 -> line_address n (u64 (a + b)).
Proof.
  intros Hn Ha Hb. split; [by apply wrap_range|]. unfold wrap.
  rewrite Z.mod_mod_divide; [by rewrite Z.add_mod, Ha, Hb by lia|].
  exists (2 ^ (64 - n)). rewrite <-Z.pow_add_r by lia. f_equal. lia.
Qed.

Lemma wrap_multiple (n x : Z) : 0 <= n <= 64 -> x mod 2 ^ n = 0 -> u64 x mod 2 ^ n = 0.
Proof. intros Hn Hx. rewrite <-(Z.add_0_r x). by apply line_address_add. Qed.

Lemma as_signed_multiple (n x : Z) : 0 <= n < 64 -> x mod 2 ^ n = 0 -> as_signed 64 x mod 2 ^ n = 0.
Proof.
  intros Hn Hx. unfold as_signed. case_bool; [done|]. assert (2 ^ 64 = 2 ^ (64 - n) * 2 ^ n) as ->.
  { rewrite <-Z.pow_add_r by lia. f_equal. lia. }
  apply Z.mod_divide in Hx as [y ->]; [|lia]. rewrite <-Z.mul_sub_distr_r. apply Z.mod_mul. lia.
Qed.

Lemma i64_multiple (n x : Z) : 0 <= n < 64 -> x mod 2 ^ n = 0 -> i64 x mod 2 ^ n = 0.
Proof. intros. apply as_signed_multiple; [done|]. apply wrap_multiple; [lia|done]. Qed.

Lemma mul_multiple (n k x : Z) : 0 <= n -> x mod 2 ^ n = 0 -> (k * x) mod 2 ^ n = 0.
Proof. intros Hn [y ->]%Z.mod_divide; [|lia]. rewrite Z.mul_assoc. apply Z.mod_mul. lia. Qed.

Lemma opp_multiple (n x : Z) : 0 <= n -> x mod 2 ^ n = 0 -> (- x) mod 2 ^ n = 0.
Proof. intros. rewrite Z.opp_eq_mul_m1. rewrite Z.mul_comm. by apply mul_multiple. Qed.

Lemma tagged_loop_spec aligned l acc (p : TaggedPrefetcher) :
  let '(r, p') := foldl (fun '(prefetches, self) k =>
             let target := add64 aligned (mul64 (tp_line_bytes self) k) in
             (prefetches ++ [target], mark_prefetched self target)) (acc, p) l in
  r = acc ++ ((fun k => add64 aligned (mul64 (tp_line_bytes p) k)) <$> l) /\
  tp_line_bytes p' = tp_line_bytes p /\ tp_degree p' = tp_degree p.
Proof.
  revert acc p. induction l as [|k l IH]; intros acc p; simpl; [by rewrite app_nil_r|].
  set (t := add64 aligned (mul64 (tp_line_bytes p) k)). specialize (IH (acc ++ [t]) (mark_prefetched p t)).
  destruct (foldl _ _ _) as [r p']. destruct IH as (-> & H1 & H2). by rewrite <-app_assoc.
Qed.

(** Every prefetch candidate of every prefetcher is the 64-bit address of
    a cache line, there are at most [degree] of them per access, and the
    prefetcher keeps its line size and degree. *)
Theorem prefetch_targets_are_lines (p : DynPrefetcher) (n addr : Z) (hit : bool) :
  0 <= n < 63 -> dyn_line_bytes p = 2 ^ n -> in_width 64 addr ->
  let '(targets, p') := observe p addr hit in
  Forall (line_address n) targets /\ (length targets <= dyn_degree p)%nat /\
  dyn_line_bytes p' = dyn_line_bytes p /\ dyn_degree p' = dyn_degree p.
Proof.
  intros Hn Hlb Ha. assert (Hn' : 0 <= n < 64) by lia.
  pose proof (line_address_align n addr Hn' Ha) as [Hal Halm].
  assert (Hlm : 2 ^ n mod 2 ^ n = 0) by (apply Z.mod_same; lia).
  assert (Hmap : forall (f : Z -> Z) d, (forall k, line_address n (f k)) ->
    Forall (line_address n) (f <$> steps d) /\ (length (f <$> steps d) <= d)%nat).
  { intros f d Hf. split; [by apply Forall_fmap, Forall_true|]. unfold steps.
    rewrite length_fmap, length_seqZ. lia. }
  assert (Hnil : forall d, Forall (line_address n) [] /\ (length (@nil Z) <= d)%nat) by (split; [done|simpl; lia]).
  assert (Hup : forall k, line_address n (add64 (line_align addr (2 ^ n)) (mul64 (2 ^ n) k))).
  { intros k. apply line_address_add; [lia|done|]. apply wrap_multiple; [lia|].
    rewrite Z.mul_comm. by apply mul_multiple; [lia|]. }
  assert (Hdown : forall k, line_address n (add64 (line_align addr (2 ^ n)) (u64 (k * i64 (- as_signed 64 (2 ^ n)))))).
  { intros k. apply line_address_add; [lia|done|]. apply wrap_multiple; [lia|]. apply mul_multiple; [lia|].
    apply i64_multiple; [lia|]. apply opp_multiple; [lia|]. by apply as_signed_multiple. }
  destruct p as [p|p|p|p]; cbn [observe Dyn_prefetcher dyn_observe dyn_line_bytes dyn_degree] in *.
  - cbn. rewrite Hlb. split_and!; [| |done|done]; by apply (Hmap _ (nl_degree p)).
  - cbn. unfold stride_observe. rewrite Hlb. set (e := stp_table p !!! _).
    repeat case_bool; cbn; (split_and!; [| |done|done]); try apply (Hnil (stp_degree p));
      apply (Hmap _ (stp_degree p)); intros k; apply line_address_align; (done || by apply wrap_range).
  - cbn. unfold stream_observe. rewrite Hlb. set (dir := if _ =? _ then Ascending else _).
    match goal with |- context [if 2 <=? sp_confidence ?s then _ else _] => set (q := s) end.
    assert (sp_line_bytes q = 2 ^ n /\ sp_degree q = sp_degree p) as [Hq1 Hq2]
      by (unfold q; repeat case_bool; done).
    rewrite Hq1, Hq2. destruct (2 <=? sp_confidence q); cbn; (split_and!; [| |done|done]);
      try apply (Hnil (sp_degree p)); apply (Hmap _ (sp_degree p)); intros k; (case_bool;
      [unfold mul64; rewrite (Z.mul_comm k); exact (Hup k)|]);
      exact (Hdown k).
  - cbn. unfold tagged_observe. rewrite Hlb. case_bool; [|cbn; by split_and!; try apply (Hnil (tp_degree p))].
    pose proof (tagged_loop_spec (line_align addr (2 ^ n)) (steps (tp_degree p)) [] p) as H.
    destruct (foldl _ _ _) as [r p']. destruct H as (-> & H1 & H2). cbn [app].
    split_and!; [| |exact (eq_trans H1 Hlb)|exact H2]; rewrite Hlb; by apply (Hmap _ (tp_degree p)).
Qed.

(** What a cache needs from a prefetcher: candidates are addresses. *)
Class PrefetcherLaws (PF : Type) `{Prefetcher PF} := {
  observe_in_width (p : PF) (addr : Z) (hit : bool) : Forall (in_width 64) (observe p addr hit).1
}.

Lemma line_align_in_width (a lb : Z) : in_width 64 a -> in_width 64 (line_align a lb).
Proof. intros. by apply land_in_width. Qed.

#[export] Program Instance Dyn_prefetcher_laws : PrefetcherLaws DynPrefetcher.
Next Obligation.
  assert (forall x, in_width 64 (u64 x)) as Hu by (intros; by apply wrap_range).
  assert (forall (f : Z -> Z) d, (forall k, in_width 64 (f k)) -> Forall (in_width 64) (f <$> steps d)) as Hm
    by (intros f d Hf; by apply Forall_fmap, Forall_true).
  intros [p|p|p|p] addr hit; cbn.
  - apply Hm. intros k. apply Hu.
  - unfold stride_observe. repeat case_bool; cbn; try done. apply Hm. intros k. apply line_align_in_width, Hu.
  - unfold stream_observe. match goal with |- context [if 2 <=? sp_confidence ?s then _ else _] => set (q := s) end.
    destruct (2 <=? _); cbn; [apply Hm; intros k; apply Hu|done].
  - unfold tagged_observe. case_bool; [|done].
    pose proof (tagged_loop_spec (line_align addr (tp_line_bytes p)) (steps (tp_degree p)) [] p) as H.
    destruct (foldl _ _ _) as [r p']. destruct H as (-> & _). cbn. apply Hm. intros k. apply Hu.
Qed.

(** ** The filter drops only duplicates *)

Definition filter_wf (f : PrefetchFilter) : Prop :=
  exists m, 0 <= m /\ pf_mask f = 2 ^ m - 1 /\ length (pf_table f) = Z.to_nat (2 ^ m).

(** Whether [addr] and [addr'] lie on the same line of the filter. *)
Definition same_line (f : PrefetchFilter) (a b : Z) : Prop :=
  line_align a (pf_line_bytes f) = line_align b (pf_line_bytes f).

Lemma filter_index_lt f line : filter_wf f -> 0 <= line -> (filter_index f line < length (pf_table f))%nat.
Proof.
  intros (m & Hm & Hmask & Hl) H. unfold filter_index. rewrite Hmask, land_low_mask, Hl by done.
  pose proof (Z.mod_pos_bound (Z.shiftr line 6) (2 ^ m)). lia.
Qed.

Lemma line_align_nonneg a lb : 0 <= a -> 0 <= line_align a lb.
Proof. intros. apply Z.land_nonneg. by left. Qed.

Lemma filter_insert_wf f a : filter_wf f -> filter_wf (filter_insert f a).
Proof.
  intros (m & Hm & Hmask & Hl). unfold filter_insert. case_bool; [by exists m|]. exists m. cbn.
  by rewrite length_insert.
Qed.

Lemma filter_insert_unfold f a b :
  filter_contains (filter_insert f a) b =
  if filter_is_empty f then false else
  let la := line_align a (pf_line_bytes f) in let lb := line_align b (pf_line_bytes f) in
  <[filter_index f la := la]> (pf_table f) !!! filter_index f lb =? lb.
Proof.
  unfold filter_insert. destruct (filter_is_empty f) eqn:E; unfold filter_contains; [by rewrite E|].
  assert (filter_is_empty (f <| pf_table :=
    <[filter_index f (line_align a (pf_line_bytes f)) := line_align a (pf_line_bytes f)]> (pf_table f) |>) = false) as ->;
    [|done]. unfold filter_is_empty in *. cbn. by rewrite length_insert.
Qed.

Lemma filter_insert_contains f a b :
  filter_wf f -> 0 <= a -> 0 <= b ->
  filter_contains (filter_insert f a) b = true -> filter_contains f b = true \/ same_line f a b.
Proof.
  intros Hwf Ha Hb. rewrite filter_insert_unfold. unfold filter_contains, same_line.
  destruct (filter_is_empty f); [by left|]. cbv zeta. intros H. to_prop.
  destruct (decide (filter_index f (line_align a (pf_line_bytes f)) = filter_index f (line_align b (pf_line_bytes f))))
    as [Hi|Hi].
  - right. rewrite Hi, list_lookup_total_insert_eq in H by (by apply filter_index_lt, line_align_nonneg). done.
  - left. rewrite list_lookup_total_insert_ne in H by done. by apply Z.eqb_eq.
Qed.

Lemma filter_loop_spec addrs f n :
  filter_wf f -> Forall (fun a => 0 <= a) addrs ->
  let '(r, f', n') := filter_loop f addrs n in
  r `sublist_of` addrs /\ filter_wf f' /\ pf_line_bytes f' = pf_line_bytes f /\
  (forall a, a ∈ addrs -> filter_contains f a = true \/ exists b, b ∈ r /\ same_line f b a) /\
  n' = foldl add64 n (replicate (length addrs - length r) 1) /\ (length r <= length addrs)%nat.
Proof.
  revert f n. induction addrs as [|a l IH]; intros f n Hwf Hf; cbn [filter_loop].
  { split_and!; try done. set_solver. }
  apply Forall_cons in Hf as [Ha Hf]. destruct (filter_contains f a) eqn:Ec.
  - specialize (IH f (add64 n 1) Hwf Hf). destruct (filter_loop _ _ _) as [[r f'] n'].
    destruct IH as (H1 & H2 & H3 & H4 & H5 & H6). split_and!; [by constructor|done|done| | |simpl; lia].
    + intros b [->|Hb]%elem_of_cons; [by left|by apply H4].
    + rewrite H5. simpl length. by replace (S (length l) - length r)%nat with (S (length l - length r)) by lia.
  - specialize (IH (filter_insert f a) n (filter_insert_wf _ _ Hwf) Hf).
    destruct (filter_loop _ _ _) as [[r f'] n']. destruct IH as (H1 & H2 & H3 & H4 & H5 & H6).
    assert (pf_line_bytes (filter_insert f a) = pf_line_bytes f) as Hlb by (by unfold filter_insert; case_bool).
    split_and!; [by constructor|done|exact (eq_trans H3 Hlb)| |done|simpl; lia].
    intros b [->|Hb]%elem_of_cons; [right; exists a; split; [left|done]|].
    destruct (H4 b Hb) as [Hc|(c & Hc & Hs)].
    + apply filter_insert_contains in Hc as [Hc|Hc]; [by left| |done|done|].
      * right. exists a. split; [left|done].
      * by eapply (proj1 (Forall_forall _ _) Hf).
    + right. exists c. split; [by right|]. unfold same_line in *. by rewrite Hlb in Hs.
Qed.

(** Filtering prefetch candidates never loses a line: the result is a
    sublist of the candidates, and a candidate is dropped only when its line was
    recorded in the filter before the call or is requested by a candidate that
    is kept; each dropped candidate is counted once. *)
Theorem filter_drops_only_duplicates (f : PrefetchFilter) (addrs : list Z) (n : Z) :
  filter_wf f -> Forall (fun a => 0 <= a) addrs -> 0 <= n -> n + Z.of_nat (length addrs) < 2 ^ 64 ->
  let '(kept, f', n') := filter_and_record f addrs n in
  kept `sublist_of` addrs /\ filter_wf f' /\
  (forall a, a ∈ addrs -> filter_contains f a = true \/ exists b, b ∈ kept /\ same_line f b a) /\
  n' = n + Z.of_nat (length addrs - length kept).
Proof.
  intros Hwf Hf Hn Hlt. unfold filter_and_record. case_bool.
  - split_and!; [done|done| |lia]. intros a Ha. right. by exists a.
  - pose proof (filter_loop_spec addrs f n Hwf Hf) as H. destruct (filter_loop _ _ _) as [[r f'] n'].
    destruct H as (H1 & H2 & _ & H4 & -> & H6). split_and!; [done|done|done|].
    assert (forall k x, 0 <= x -> x + Z.of_nat k < 2 ^ 64 -> foldl add64 x (replicate k 1) = x + Z.of_nat k) as Hk.
    { induction k as [|k IH]; intros x Hx Hxk; simpl; [lia|]. unfold add64 at 2.
      rewrite wrap_small by (unfold in_width; lia). rewrite IH by lia. lia. }
    apply Hk; [done|]. lia.
Qed.

(** ** Witnesses *)

Definition demo_stream : DynPrefetcher :=
  foldl (fun p a => (observe p a false).2) (DynStream (stream_new 64 2)) [0x1000; 0x1040; 0x1080].

Lemma prefetch_targets_are_lines_witness :
  (observe demo_stream 0x10C0 false).1 = [0x1100; 0x1140] /\
  Forall (line_address 6) (observe demo_stream 0x10C0 false).1.
Proof.
  split; [by vm_compute|].
  pose proof (prefetch_targets_are_lines demo_stream 6 0x10C0 false ltac:(lia) eq_refl ltac:(by split)) as H.
  destruct (observe demo_stream 0x10C0 false) as [l p]. exact (proj1 H).
Defined.

Lemma filter_drops_only_duplicates_witness :
  let f := filter_new 4 64 in
  (filter_and_record f [0x1000; 0x1010; 0x2040] 0).1.1 = [0x1000; 0x2040] /\
  (filter_and_record f [0x1000; 0x1010; 0x2040] 0).2 = 1.
Proof.
  intros f. assert ((filter_and_record f [0x1000; 0x1010; 0x2040] 0).1.1 = [0x1000; 0x2040]) as E by by vm_compute.
  split; [exact E|].
  assert (filter_wf f) as Hwf by (by exists 2; vm_compute).
  assert (Forall (fun a => 0 <= a) [0x1000; 0x1010; 0x2040]) as Hf by (repeat constructor; lia).
  pose proof (filter_drops_only_duplicates f [0x1000; 0x1010; 0x2040] 0 Hwf Hf ltac:(lia) ltac:(by vm_compute)) as H.
  destruct (filter_and_record f _ 0) as [[r f'] n']. destruct H as (_ & _ & _ & ->). simpl in E. by rewrite E.
Defined.
