(* ===== verification/Cache.v ===== *)
(** The set-associative cache simulator ([core/units/cache/mod.rs]), over any
    replacement policy and any prefetcher. *)
From S2P Require Import Prelude Policy Prefetch.

Set Primitive Projections.
Local Open Scope Z_scope.

(** ** Data *)

Record EvictedLine := { ev_addr : Z; ev_dirty : bool }.
Record CacheLine := { cl_tag : Z; cl_valid : bool; cl_dirty : bool }.
Definition CacheLine_default : CacheLine := {| cl_tag := 0; cl_valid := false; cl_dirty := false |}.
#[export] Instance CacheLine_inhabited : Inhabited CacheLine := populate CacheLine_default.

Record CacheSim {P PF : Type} := {
  cs_latency : Z;
  cs_enabled : bool;
  cs_prefetcher : option PF;
  cs_lines : list CacheLine;
  cs_num_sets : nat;
  cs_ways : nat;
  cs_line_bytes : Z;
  cs_policy : P
}.
Arguments CacheSim : clear implicits.

Section Operations.
Context {P PF : Type} `{!ReplacementPolicy P} `{!Prefetcher PF}.
Abbreviation cache := (CacheSim P PF).

(** ** Construction *)

Definition safe_ways (ways : nat) : nat := if (ways =? 0)%nat then 1 else ways.
Definition safe_line (line_bytes : Z) : Z := if line_bytes =? 0 then 64 else line_bytes.
Definition safe_size (size_bytes : Z) : Z := if size_bytes =? 0 then 4096 else size_bytes.

(** [mk_policy] and [prefetcher] are the results of the two [match]es of [new]
    on the configuration. *)
Definition cs_new (latency : Z) (enabled : bool) (size_bytes line_bytes : Z) (ways : nat)
    (mk_policy : nat -> nat -> P) (prefetcher : option PF) : cache :=
  let num_lines := safe_size size_bytes / safe_line line_bytes in
  let num_sets := (Z.to_nat num_lines / safe_ways ways)%nat in
  {| cs_latency := latency; cs_enabled := enabled; cs_prefetcher := prefetcher;
     cs_lines := replicate (num_sets * safe_ways ways) CacheLine_default;
     cs_num_sets := num_sets; cs_ways := safe_ways ways; cs_line_bytes := safe_line line_bytes;
     cs_policy := mk_policy num_sets (safe_ways ways) |}.

(** ** Addressing *)

(** [line_bytes * num_sets] is computed in [usize]. *)
Definition cs_stride (self : cache) : Z := mul64 (cs_line_bytes self) (Z.of_nat (cs_num_sets self)).
Definition cs_set_index (self : cache) (addr : Z) : nat :=
  Z.to_nat ((addr / cs_line_bytes self) mod Z.of_nat (cs_num_sets self)).
Definition cs_tag (self : cache) (addr : Z) : Z := addr / cs_stride self.
Definition cs_base (self : cache) (addr : Z) : nat := (cs_set_index self addr * cs_ways self)%nat.

Definition reconstruct_addr (self : cache) (set_index : nat) (tag : Z) : Z :=
  add64 (mul64 tag (cs_stride self)) (mul64 (Z.of_nat set_index) (cs_line_bytes self)).

(** The loop over the ways of a set: the first way holding a valid line with the tag. *)
Definition find_way_body (self : cache) (addr : Z) (i : nat) (_ : unit) : flow unit (option nat) :=
  let l := cs_lines self !!! (cs_base self addr + i)%nat in
  if cl_valid l && (cl_tag l =? cs_tag self addr) then Return (Some i) else Continue tt.
Definition find_way (self : cache) (addr : Z) : option nat :=
  after_loop (list_scan (find_way_body self addr) (seq 0 (cs_ways self)) tt) (fun _ => None).

Definition cs_contains (self : cache) (addr : Z) : bool :=
  if negb (cs_enabled self) then false else bool_decide (is_Some (find_way self addr)).

(** ** Installing lines *)

Definition install_line_tracked (self : cache) (addr : Z) (is_write : bool) (next_level_latency : Z)
    : Z * option EvictedLine * cache :=
  let set_index := cs_set_index self addr in
  let tag := cs_tag self addr in
  let '(victim_way, policy) := policy_get_victim (cs_policy self) set_index in
  let victim_idx := (cs_base self addr + victim_way)%nat in
  let victim := cs_lines self !!! victim_idx in
  let evicted := if cl_valid victim
    then Some {| ev_addr := reconstruct_addr self set_index (cl_tag victim); ev_dirty := cl_dirty victim |}
    else None in
  let penalty := if cl_valid victim && cl_dirty victim then next_level_latency else 0 in
  (penalty, evicted,
   self <| cs_lines := <[victim_idx := {| cl_tag := tag; cl_valid := true; cl_dirty := is_write |}]> (cs_lines self) |>
        <| cs_policy := policy_update policy set_index victim_way |>).

Definition install_line (self : cache) (addr : Z) (is_write : bool) (next_level_latency : Z) : Z * cache :=
  let '(penalty, _, self) := install_line_tracked self addr is_write next_level_latency in (penalty, self).

Definition install_line_public := install_line.
Definition install_line_public_tracked := install_line_tracked.

(** The hit branch of the access loops. *)
Definition touch_way (self : cache) (addr : Z) (i : nat) (is_write : bool) : cache :=
  let self := self <| cs_policy := policy_update (cs_policy self) (cs_set_index self addr) i |> in
  if is_write then
    let idx := (cs_base self addr + i)%nat in
    self <| cs_lines := <[idx := (cs_lines self !!! idx) <| cl_dirty := true |>]> (cs_lines self) |>
  else self.

Definition run_prefetcher (self : cache) (addr : Z) (hit : bool) : list Z * cache :=
  match cs_prefetcher self with
  | None => ([], self)
  | Some pref => let '(targets, pref) := observe pref addr hit in
                 (targets, self <| cs_prefetcher := Some pref |>)
  end.

(** Installation of prefetch targets the cache does not hold, with the evictions. *)
Fixpoint install_loop (self : cache) (targets : list Z) (next_level_latency : Z) : list EvictedLine * cache :=
  match targets with
  | [] => ([], self)
  | target :: targets =>
      if cs_contains self target then install_loop self targets next_level_latency else
      let '(_, evicted, self) := install_line_tracked self target false next_level_latency in
      let '(evictions, self) := install_loop self targets next_level_latency in
      (option_list evicted ++ evictions, self)
  end.
Definition install_prefetches := install_loop.

(** ** Accesses *)

Definition access_tracked_split (self : cache) (addr : Z) (is_write : bool) (next_level_latency : Z)
    : bool * Z * list EvictedLine * list Z * cache :=
  if negb (cs_enabled self) then (false, 0, [], [], self) else
  let '(hit, penalty, evictions, self) :=
    match find_way self addr with
    | Some i => (true, 0, [], touch_way self addr i is_write)
    | None => let '(pen, evicted, self) := install_line_tracked self addr is_write next_level_latency in
              (false, pen, option_list evicted, self)
    end in
  let '(prefetches, self) := run_prefetcher self addr hit in
  (hit, penalty, evictions, prefetches, self).

Definition access_tracked (self : cache) (addr : Z) (is_write : bool) (next_level_latency : Z)
    : bool * Z * list EvictedLine * cache :=
  let '(hit, penalty, evictions, candidates, self) :=
    access_tracked_split self addr is_write next_level_latency in
  let '(more, self) := install_loop self candidates next_level_latency in
  (hit, penalty, evictions ++ more, self).

Definition cs_access (self : cache) (addr : Z) (is_write : bool) (next_level_latency : Z) : bool * Z * cache :=
  if negb (cs_enabled self) then (false, 0, self) else
  let '(hit, penalty, self) :=
    match find_way self addr with
    | Some i => (true, 0, touch_way self addr i is_write)
    | None => let '(pen, self) := install_line self addr is_write next_level_latency in (false, pen, self)
    end in
  let '(prefetches, self) := run_prefetcher self addr hit in
  let '(_, self) := install_loop self prefetches next_level_latency in
  (hit, penalty, self).

Definition access_check (self : cache) (addr : Z) (is_write : bool) : bool * cache :=
  if negb (cs_enabled self) then (false, self) else
  let '(hit, self) := match find_way self addr with
                      | Some i => (true, touch_way self addr i is_write)
                      | None => (false, self)
                      end in
  let '(prefetches, self) := run_prefetcher self addr hit in
  let '(_, self) := install_loop self prefetches 0 in
  (hit, self).

Definition invalidate_line (self : cache) (addr : Z) : bool * cache :=
  if negb (cs_enabled self) then (false, self) else
  match find_way self addr with
  | Some i =>
      let idx := (cs_base self addr + i)%nat in
      (true, self <| cs_lines := <[idx := (cs_lines self !!! idx) <| cl_valid := false |>
                                                                  <| cl_dirty := false |>]> (cs_lines self) |>)
  | None => (false, self)
  end.

(** The first invalid way of the set. *)
Definition free_way (self : cache) (addr : Z) : option nat :=
  after_loop (list_scan (fun i (_ : unit) =>
    if negb (cl_valid (cs_lines self !!! (cs_base self addr + i)%nat)) then Return (Some i) else Continue tt)
    (seq 0 (cs_ways self)) tt) (fun _ => None).

Definition install_or_replace (self : cache) (addr : Z) (is_write : bool) (next_level_latency : Z)
    : Z * option EvictedLine * cache :=
  if negb (cs_enabled self) then (0, None, self) else
  match free_way self addr with
  | Some i =>
      (0, None,
       self <| cs_lines := <[(cs_base self addr + i)%nat :=
                 {| cl_tag := cs_tag self addr; cl_valid := true; cl_dirty := is_write |}]> (cs_lines self) |>
            <| cs_policy := policy_update (cs_policy self) (cs_set_index self addr) i |>)
  | None => install_line_tracked self addr is_write next_level_latency
  end.

(** ** Maintenance *)

(** The loop over all lines of [flush] and [invalidate_all]: [clears l] tells
    whether line [l] is dropped; dirty lines are reported. *)
Definition sweep_body (self : cache) (clears : CacheLine -> bool) (i : nat)
    (s : list EvictedLine * list CacheLine) : list EvictedLine * list CacheLine :=
  let '(evicted, lines) := s in
  let l := lines !!! i in
  if clears l then
    (evicted ++ (if cl_dirty l then [{| ev_addr := reconstruct_addr self (i / cs_ways self)%nat (cl_tag l); ev_dirty := true |}] else []),
     <[i := l <| cl_dirty := false |> <| cl_valid := false |>]> lines)
  else s.
Definition sweep (self : cache) (clears : CacheLine -> bool) : list EvictedLine * cache :=
  if negb (cs_enabled self) then ([], self) else
  let '(evicted, lines) :=
    foldl (fun s i => sweep_body self clears i s) ([], cs_lines self) (seq 0 (length (cs_lines self))) in
  (evicted, self <| cs_lines := lines |>).

Definition cs_flush (self : cache) : list EvictedLine * cache :=
  sweep self (fun l => cl_valid l && cl_dirty l).
Definition cs_invalidate_all (self : cache) : list EvictedLine * cache :=
  sweep self (fun l => cl_valid l).

End Operations.
