(* ===== verification/CacheSpec.v ===== *)
(** The cache simulator refines a directory of resident lines: a partial map
    from line numbers to dirty bits. *)
From S2P Require Import Prelude Policy Prefetch Cache.

Set Primitive Projections.
Local Open Scope Z_scope.

Section Directory.
Context {P PF : Type} `{!ReplacementPolicy P} `{!PolicyLaws P} `{!Prefetcher PF}.
Abbreviation cache := (CacheSim P PF).
Implicit Types self : cache.

(** ** Lines and slots *)

(** The number of the line holding an address; its set and its tag. *)
Definition line_no self (addr : Z) : Z := addr / cs_line_bytes self.
Definition set_of self (n : Z) : nat := Z.to_nat (n mod Z.of_nat (cs_num_sets self)).
Definition tag_of self (n : Z) : Z := n / Z.of_nat (cs_num_sets self).

Definition slot self (s i : nat) : CacheLine := cs_lines self !!! (s * cs_ways self + i)%nat.
(** The line a slot of set [s] holds. *)
Definition slot_no self (s : nat) (l : CacheLine) : Z := cl_tag l * Z.of_nat (cs_num_sets self) + Z.of_nat s.
Definition holds self (n : Z) (i : nat) : Prop :=
  cl_valid (slot self (set_of self n) i) = true /\ cl_tag (slot self (set_of self n) i) = tag_of self n.

(** The directory: the dirty bit of a resident line. *)
Definition cs_view self (n : Z) : option bool :=
  match find_way self (n * cs_line_bytes self) with
  | Some i => Some (cl_dirty (slot self (set_of self n) i))
  | None => None
  end.

Record geometry_ok self : Prop := {
  geo_ways : (0 < cs_ways self)%nat;
  geo_sets : (0 < cs_num_sets self)%nat;
  geo_line : 0 < cs_line_bytes self;
  geo_fits : cs_line_bytes self * Z.of_nat (cs_num_sets self) < 2 ^ 64;
  geo_len : length (cs_lines self) = (cs_num_sets self * cs_ways self)%nat
}.
(** No line is held twice, and every line held is a line of the address space. *)
Definition slots_ok self : Prop :=
  forall s i, (s < cs_num_sets self)%nat -> (i < cs_ways self)%nat -> cl_valid (slot self s i) = true ->
    0 <= cl_tag (slot self s i) /\ slot_no self s (slot self s i) * cs_line_bytes self < 2 ^ 64 /\
    forall j, (j < cs_ways self)%nat -> cl_valid (slot self s j) = true ->
      cl_tag (slot self s j) = cl_tag (slot self s i) -> j = i.
Definition cache_wf self : Prop :=
  geometry_ok self /\ slots_ok self /\ policy_ok (cs_num_sets self) (cs_ways self) (cs_policy self).

Lemma stride_eq self : geometry_ok self -> cs_stride self = cs_line_bytes self * Z.of_nat (cs_num_sets self).
Proof. intros []. apply wrap_small. unfold in_width. nia. Qed.

Lemma tag_line_no self addr : geometry_ok self -> 0 <= addr -> cs_tag self addr = tag_of self (line_no self addr).
Proof.
  intros Hg Ha. unfold cs_tag, tag_of, line_no. rewrite stride_eq by done. destruct Hg.
  by rewrite Z.div_div by lia.
Qed.
Lemma line_no_mul self n : geometry_ok self -> line_no self (n * cs_line_bytes self) = n.
Proof. intros []. unfold line_no. apply Z.div_mul. lia. Qed.

Lemma set_of_lt self n : geometry_ok self -> (set_of self n < cs_num_sets self)%nat.
Proof. intros []. unfold set_of. pose proof (Z.mod_pos_bound n (Z.of_nat (cs_num_sets self))). lia. Qed.

Lemma set_tag_inj self n m :
  geometry_ok self -> set_of self n = set_of self m -> tag_of self n = tag_of self m -> n = m.
Proof.
  intros [] Hs Ht. unfold set_of, tag_of in *. set (k := Z.of_nat (cs_num_sets self)) in *.
  assert (0 < k) by (unfold k; lia).
  rewrite (Z.div_mod n k), (Z.div_mod m k), Ht by lia.
  pose proof (Z.mod_pos_bound n k). pose proof (Z.mod_pos_bound m k). lia.
Qed.

Lemma slot_no_set_tag self s l :
  geometry_ok self -> (s < cs_num_sets self)%nat ->
  set_of self (slot_no self s l) = s /\ tag_of self (slot_no self s l) = cl_tag l.
Proof.
  intros [] Hs. unfold set_of, tag_of, slot_no. set (k := Z.of_nat (cs_num_sets self)) in *. split.
  - rewrite Z.add_comm, Z.mod_add, Z.mod_small by (unfold k; lia). lia.
  - rewrite Z.add_comm, Z.div_add, Z.div_small by (unfold k; lia). lia.
Qed.

Lemma slot_no_of self n l :
  geometry_ok self -> cl_tag l = tag_of self n -> slot_no self (set_of self n) l = n.
Proof.
  intros Hg Ht. pose proof (slot_no_set_tag self (set_of self n) l Hg (set_of_lt self n Hg)) as [H1 H2].
  apply (set_tag_inj self); [done|done|by rewrite H2].
Qed.

(** ** Searching a set *)

Lemma find_way_spec self addr :
  geometry_ok self -> 0 <= addr ->
  match find_way self addr with
  | Some i => (i < cs_ways self)%nat /\ holds self (line_no self addr) i
  | None => forall i, (i < cs_ways self)%nat -> ~ holds self (line_no self addr) i
  end.
Proof.
  intros Hg Ha. unfold find_way.
  assert (forall n b, (b + n = cs_ways self)%nat ->
    match after_loop (list_scan (find_way_body self addr) (seq b n) tt) (fun _ => None) with
    | Some i => (i < cs_ways self)%nat /\ holds self (line_no self addr) i
    | None => forall i, (b <= i < cs_ways self)%nat -> ~ holds self (line_no self addr) i
    end) as H.
  { induction n as [|n IH]; intros b Hb; cbn [seq list_scan after_loop]; [intros; lia|].
    assert (find_way_body self addr b tt =
      if bool_decide (holds self (line_no self addr) b) then Return (Some b) else Continue tt) as ->.
    { unfold find_way_body. rewrite tag_line_no by done.
      change (cs_lines self !!! (cs_base self addr + b)%nat) with (slot self (set_of self (line_no self addr)) b).
      case_bool_decide as Hh.
      - destruct Hh as [-> ->]. by rewrite Z.eqb_refl.
      - destruct (_ && _) eqn:E; [|done]. to_prop. by destruct Hh. }
    case_bool_decide as Hh; [split; [lia|done]|]. specialize (IH (S b) ltac:(lia)).
    destruct (after_loop _ _); [done|]. intros i Hi. destruct (decide (i = b)) as [->|]; [done|]. apply IH. lia. }
  specialize (H (cs_ways self) 0%nat eq_refl). destruct (after_loop _ _); [done|]. intros i Hi. apply H. lia.
Qed.

Lemma view_Some self n d :
  geometry_ok self -> slots_ok self -> 0 <= n ->
  cs_view self n = Some d <->
  exists i, (i < cs_ways self)%nat /\ holds self n i /\ cl_dirty (slot self (set_of self n) i) = d.
Proof.
  intros Hg Hu Hn. unfold cs_view. pose proof (find_way_spec self (n * cs_line_bytes self) Hg) as H.
  rewrite line_no_mul in H by done. destruct (find_way _ _) as [i|].
  - destruct H as [Hi Hh]; [destruct Hg; nia|]. split; [intros [= <-]; by exists i|].
    intros (j & Hj & [Hv Ht] & <-). destruct Hh as [Hv' Ht'].
    rewrite (proj2 (proj2 (Hu _ i (set_of_lt self n Hg) Hi Hv')) j Hj Hv); [done|]. by rewrite Ht.
  - split; [done|]. intros (j & Hj & Hh & _). exfalso. apply (H ltac:(destruct Hg; nia) j Hj Hh).
Qed.

Lemma view_find self addr :
  geometry_ok self -> 0 <= addr -> (is_Some (cs_view self (line_no self addr)) <-> is_Some (find_way self addr)).
Proof.
  intros Hg Ha. unfold cs_view.
  assert (find_way self (line_no self addr * cs_line_bytes self) = find_way self addr) as ->; [|by destruct (find_way _ _)].
  assert (0 <= line_no self addr * cs_line_bytes self).
  { unfold line_no. pose proof (Z.div_pos addr (cs_line_bytes self)). destruct Hg. nia. }
  unfold find_way. f_equal. apply list_scan_ext. intros i [] _. unfold find_way_body, cs_base.
  assert (cs_set_index self (line_no self addr * cs_line_bytes self) = cs_set_index self addr) as ->.
  { change (set_of self (line_no self (line_no self addr * cs_line_bytes self)) = set_of self (line_no self addr)).
    by rewrite line_no_mul. }
  by rewrite !tag_line_no, line_no_mul by done.
Qed.

(** ** Writing one slot *)

Definition same_shape self self' : Prop :=
  cs_num_sets self' = cs_num_sets self /\ cs_ways self' = cs_ways self /\ cs_line_bytes self' = cs_line_bytes self.

Lemma same_shape_fns self self' :
  same_shape self self' ->
  (forall n, set_of self' n = set_of self n) /\ (forall n, tag_of self' n = tag_of self n) /\
  (forall s l, slot_no self' s l = slot_no self s l) /\ (forall a, line_no self' a = line_no self a).
Proof. intros (H1 & H2 & H3). unfold set_of, tag_of, slot_no, line_no. by rewrite H1, H3. Qed.

Definition put_ok self (s i : nat) (L : CacheLine) : Prop :=
  cl_valid L = true ->
  0 <= cl_tag L /\ slot_no self s L * cs_line_bytes self < 2 ^ 64 /\
  forall j, (j < cs_ways self)%nat -> j <> i -> cl_valid (slot self s j) = true -> cl_tag (slot self s j) <> cl_tag L.

Lemma slot_index_lt self s i :
  geometry_ok self -> (s < cs_num_sets self)%nat -> (i < cs_ways self)%nat ->
  (s * cs_ways self + i < length (cs_lines self))%nat.
Proof. intros [] Hs Hi. rewrite geo_len0. nia. Qed.

Lemma slot_put self self' s i L s' i' :
  geometry_ok self -> same_shape self self' -> cs_lines self' = <[(s * cs_ways self + i)%nat := L]> (cs_lines self) ->
  (s < cs_num_sets self)%nat -> (i < cs_ways self)%nat -> (i' < cs_ways self)%nat ->
  slot self' s' i' = if decide (s' = s /\ i' = i) then L else slot self s' i'.
Proof.
  intros Hg (Hn & Hw & Hlb) Hl Hs Hi Hi'. unfold slot. rewrite Hl, Hw. case_decide as Hd.
  - destruct Hd as [-> ->]. by apply list_lookup_total_insert_eq, slot_index_lt.
  - apply list_lookup_total_insert_ne. intros He. apply Hd.
    assert (s' = s) by nia. subst. split; [done|lia].
Qed.

Lemma put_geometry self self' s i L :
  geometry_ok self -> same_shape self self' -> cs_lines self' = <[(s * cs_ways self + i)%nat := L]> (cs_lines self) ->
  geometry_ok self'.
Proof. intros [] (Hn & Hw & Hlb) Hl. constructor; rewrite ?Hl, ?Hn, ?Hw, ?Hlb, ?length_insert; done. Qed.

Lemma put_slots self self' s i L :
  geometry_ok self -> slots_ok self -> same_shape self self' ->
  cs_lines self' = <[(s * cs_ways self + i)%nat := L]> (cs_lines self) ->
  (s < cs_num_sets self)%nat -> (i < cs_ways self)%nat -> put_ok self s i L -> slots_ok self'.
Proof.
  intros Hg Hu Hsh Hl Hs Hi HL s' i' Hs' Hi' Hv.
  destruct (same_shape_fns _ _ Hsh) as (_ & _ & Hsn & _). destruct Hsh as (Hn & Hw & Hlb).
  rewrite Hn in Hs'. rewrite Hw in Hi'. rewrite Hlb, Hsn, Hw.
  assert (Hslot : forall t j, (j < cs_ways self)%nat -> slot self' t j = if decide (t = s /\ j = i) then L else slot self t j)
    by (intros; by apply (slot_put _ _ _ _ _ _ _ Hg ltac:(done) Hl)).
  rewrite Hslot in * by done. case_decide as Hd.
  - destruct Hd as [-> ->]. destruct (HL Hv) as (H1 & H2 & H3). split_and!; [done|done|].
    intros j Hj. rewrite Hslot by done. case_decide as Hd; [by destruct Hd|]. intros Hvj Ht.
    destruct (decide (j = i)); [done|]. exfalso. by apply (H3 j).
  - destruct (Hu s' i' Hs' Hi' Hv) as (H1 & H2 & H3). split_and!; [done|done|].
    intros j Hj. rewrite Hslot by done. case_decide as Hd'; [|by apply H3]. destruct Hd' as [-> ->].
    intros HvL Ht. destruct (HL HvL) as (_ & _ & H6). destruct (decide (i' = i)); [done|].
    exfalso. by apply (H6 i').
Qed.

(** What writing slot [i] of set [s] does to the directory. *)
Lemma put_view self self' s i L n :
  geometry_ok self -> slots_ok self -> same_shape self self' ->
  cs_lines self' = <[(s * cs_ways self + i)%nat := L]> (cs_lines self) ->
  (s < cs_num_sets self)%nat -> (i < cs_ways self)%nat -> put_ok self s i L -> 0 <= n ->
  let old := slot self s i in
  cs_view self' n =
    if decide (cl_valid L = true /\ n = slot_no self s L) then Some (cl_dirty L)
    else if decide (cl_valid old = true /\ n = slot_no self s old) then None else cs_view self n.
Proof.
  intros Hg Hu Hsh Hl Hs Hi HL Hn old.
  pose proof (put_geometry _ _ _ _ _ Hg Hsh Hl) as Hg'.
  pose proof (put_slots _ _ _ _ _ Hg Hu Hsh Hl Hs Hi HL) as Hu'.
  destruct (same_shape_fns _ _ Hsh) as (Hset & Htag & Hsn & _).
  assert (Hslot : forall t j, (j < cs_ways self)%nat -> slot self' t j = if decide (t = s /\ j = i) then L else slot self t j)
    by (intros; by apply (slot_put _ _ _ _ _ _ _ Hg Hsh Hl)).
  assert (Hw : cs_ways self' = cs_ways self) by apply Hsh.
  assert (Hno : forall l, n = slot_no self s l <-> set_of self n = s /\ tag_of self n = cl_tag l).
  { intros l. split; [intros ->; by apply slot_no_set_tag|]. intros [<- Ht]. symmetry. by apply slot_no_of. }
  apply option_eq. intros d. rewrite (view_Some self') by done. unfold holds. rewrite Hset, Htag, Hw.
  case_decide as HdL; [|case_decide as Hdo].
  - destruct HdL as [HvL [Hsn' Htn]%Hno]. split.
    + intros (j & Hj & [Hvj Htj] & Hd). rewrite Hsn' in *. rewrite Hslot in Hvj, Htj, Hd by done.
      case_decide; [congruence|]. exfalso. destruct (HL HvL) as (_ & _ & H3).
      apply (H3 j Hj); [naive_solver|done|congruence].
    + intros [= <-]. exists i. rewrite Hsn', Hslot by done. rewrite decide_True by done. done.
  - destruct Hdo as [Hvo [Hsn' Htn]%Hno]. split; [|done]. intros (j & Hj & [Hvj Htj] & Hd). exfalso.
    rewrite Hsn' in *. rewrite Hslot in Hvj, Htj by done. case_decide as Hc.
    + apply HdL. split; [done|]. apply Hno. done.
    + apply Hc. split; [done|]. apply (proj2 (proj2 (Hu s i Hs Hi Hvo)) j Hj Hvj). by rewrite Htj.
  - rewrite view_Some by done. unfold holds. split; intros (j & Hj & [Hvj Htj] & Hd); exists j.
    + rewrite Hslot in Hvj, Htj, Hd by done. case_decide as Hc; [|done]. exfalso. apply HdL.
      split; [done|]. apply Hno. naive_solver.
    + rewrite Hslot by done. rewrite decide_False; [done|]. intros [H1 ->]. apply Hdo.
      rewrite H1 in *. split; [done|]. apply Hno. done.
Qed.

(** ** Operations on the directory *)

(** The directory after an eviction. *)
Definition evict_view self (ev : option EvictedLine) (n : Z) : option bool :=
  match ev with
  | Some e => if decide (n = line_no self (ev_addr e)) then None else cs_view self n
  | None => cs_view self n
  end.
(** The evicted line was resident, with the dirty bit reported, in the set of [n]. *)
Definition evicted_ok self (ev : option EvictedLine) (n : Z) (penalty lat : Z) : Prop :=
  match ev with
  | Some e => let m := line_no self (ev_addr e) in
      0 <= m /\ ev_addr e = m * cs_line_bytes self /\ m <> n /\ set_of self m = set_of self n /\
      cs_view self m = Some (ev_dirty e) /\ penalty = (if ev_dirty e then lat else 0)
  | None => penalty = 0
  end.

Lemma line_no_nonneg self addr : geometry_ok self -> 0 <= addr -> 0 <= line_no self addr.
Proof. intros [] H. unfold line_no. by apply Z.div_pos. Qed.

Lemma reconstruct_slot self s l :
  geometry_ok self -> (s < cs_num_sets self)%nat -> 0 <= cl_tag l -> slot_no self s l * cs_line_bytes self < 2 ^ 64 ->
  reconstruct_addr self s (cl_tag l) = slot_no self s l * cs_line_bytes self.
Proof.
  intros Hg Hs Ht Hf. unfold reconstruct_addr, mul64. rewrite stride_eq by done. destruct Hg. unfold slot_no in *.
  set (k := Z.of_nat (cs_num_sets self)) in *. set (lb := cs_line_bytes self) in *.
  assert (0 <= cl_tag l * (lb * k)) by (repeat apply Z.mul_nonneg_nonneg; lia).
  assert (0 <= Z.of_nat s * lb) by (apply Z.mul_nonneg_nonneg; lia).
  assert ((cl_tag l * k + Z.of_nat s) * lb = cl_tag l * (lb * k) + Z.of_nat s * lb) as E by ring.
  unfold add64. rewrite E in Hf |- *.
  rewrite (wrap_small 64 (cl_tag l * _)), (wrap_small 64 (Z.of_nat s * _)) by (unfold in_width; lia).
  apply wrap_small. unfold in_width. lia.
Qed.

Lemma tag_of_nonneg self n : geometry_ok self -> 0 <= n -> 0 <= tag_of self n.
Proof. intros [] H. unfold tag_of. apply Z.div_pos; lia. Qed.

(** A line that is not resident can be put in any way of its set. *)
Lemma put_absent_ok self addr i w :
  geometry_ok self -> in_width 64 addr -> find_way self addr = None ->
  put_ok self (set_of self (line_no self addr)) i {| cl_tag := cs_tag self addr; cl_valid := true; cl_dirty := w |}.
Proof.
  intros Hg Ha Hf _. cbn. rewrite tag_line_no by (done || apply Ha).
  pose proof (line_no_nonneg self addr Hg (proj1 Ha)) as Hn. rewrite slot_no_of by done. split_and!.
  - by apply tag_of_nonneg.
  - unfold in_width, line_no in *. pose proof (Z.mul_div_le addr (cs_line_bytes self)). destruct Hg. lia.
  - intros j Hj _ Hv Ht. pose proof (find_way_spec self addr Hg (proj1 Ha)) as H. rewrite Hf in H.
    by apply (H j Hj).
Qed.

Lemma install_spec self addr w lat :
  cache_wf self -> in_width 64 addr -> find_way self addr = None ->
  let '(penalty, ev, self') := install_line_tracked self addr w lat in
  cache_wf self' /\ same_shape self self' /\ cs_enabled self' = cs_enabled self /\
  evicted_ok self ev (line_no self addr) penalty lat /\
  forall n, 0 <= n -> cs_view self' n = if decide (n = line_no self addr) then Some w else evict_view self ev n.
Proof.
  intros (Hg & Hu & Hp) Ha Hf. unfold install_line_tracked.
  change (cs_set_index self addr) with (set_of self (line_no self addr)). set (n0 := line_no self addr).
  pose proof (set_of_lt self n0 Hg) as Hs. pose proof (line_no_nonneg self addr Hg (proj1 Ha)) as Hn0.
  pose proof (policy_victim_lt _ _ _ _ Hp Hs) as Hv. pose proof (policy_victim_ok _ _ _ _ Hp Hs) as Hp'.
  destruct (policy_get_victim (cs_policy self) (set_of self n0)) as [i policy]. cbn [fst snd] in *.
  change (cs_lines self !!! (cs_base self addr + i)%nat) with (slot self (set_of self n0) i).
  set (old := slot self (set_of self n0) i). set (L := {| cl_tag := cs_tag self addr; cl_valid := true; cl_dirty := w |}).
  match goal with |- context [?x <| cs_policy := ?y |>] => set (self' := x <| cs_policy := y |>) end.
  assert (Hsh : same_shape self self') by done.
  assert (Hl : cs_lines self' = <[(set_of self n0 * cs_ways self + i)%nat := L]> (cs_lines self)) by done.
  pose proof (put_absent_ok self addr i w Hg Ha Hf) as HL.
  assert (HLn : slot_no self (set_of self n0) L = n0) by (apply slot_no_of; [done|]; by apply tag_line_no; [|apply Ha]).
  split_and!; [split_and!; [by eapply put_geometry|by eapply put_slots|by apply policy_update_ok]|done|done| |].
  - unfold evicted_ok. destruct (cl_valid old) eqn:Eo; [|done]. cbn [ev_addr ev_dirty andb].
    destruct (Hu _ i Hs Hv Eo) as (H1 & H2 & _).
    rewrite reconstruct_slot, line_no_mul by done. fold old. set (m := slot_no self (set_of self n0) old).
    destruct (slot_no_set_tag self (set_of self n0) old Hg Hs) as [Hm1 Hm2].
    fold m in Hm1, Hm2. fold old in H1. assert (Hm0 : 0 <= m) by (pose proof (Z.mul_nonneg_nonneg _ _ H1 (Nat2Z.is_nonneg (cs_num_sets self))); unfold m, slot_no; lia).
    assert (Hh : holds self m i) by (unfold holds; by rewrite Hm1, Hm2).
    split_and!; [done|done| |done| |done].
    + intros ->. pose proof (find_way_spec self addr Hg (proj1 Ha)) as H. rewrite Hf in H. by apply (H i Hv).
    + apply view_Some; [done..|]. exists i. by rewrite Hm1.
  - intros n Hn. rewrite (put_view self self' _ i L n Hg Hu Hsh Hl Hs Hv HL Hn), HLn. cbn [cl_valid L cl_dirty].
    fold old. destruct (decide (n = n0)) as [->|Hne]; [by rewrite decide_True|]. rewrite decide_False by naive_solver.
    unfold evict_view. destruct (cl_valid old) eqn:Eo; [|by rewrite decide_False by naive_solver].
    cbn [ev_addr]. destruct (Hu _ i Hs Hv Eo) as (H1 & H2 & _). rewrite reconstruct_slot, line_no_mul by done.
    fold old. apply decide_ext. naive_solver.
Qed.

Lemma touch_spec self addr i w :
  cache_wf self -> in_width 64 addr -> find_way self addr = Some i ->
  let self' := touch_way self addr i w in
  cache_wf self' /\ same_shape self self' /\ cs_enabled self' = cs_enabled self /\
  forall n, 0 <= n -> cs_view self' n =
    if decide (n = line_no self addr) then (fun d => d || w) <$> cs_view self n else cs_view self n.
Proof.
  intros (Hg & Hu & Hp) Ha Hf self'. pose proof (find_way_spec self addr Hg (proj1 Ha)) as H. rewrite Hf in H.
  destruct H as [Hi [Hv Ht]]. set (n0 := line_no self addr) in *. pose proof (set_of_lt self n0 Hg) as Hs.
  pose proof (policy_update_ok _ _ _ _ i Hp Hs Hi) as Hp'.
  set (L := if w then (slot self (set_of self n0) i) <| cl_dirty := true |> else slot self (set_of self n0) i).
  assert (Hl : cs_lines self' = <[(set_of self n0 * cs_ways self + i)%nat := L]> (cs_lines self)).
  { unfold self', touch_way, L. destruct w; [done|]. symmetry. apply list_insert_id, lookup_total_Some. by apply slot_index_lt. }
  assert (Hsh : same_shape self self') by (unfold self', touch_way; by destruct w).
  assert (HLt : cl_tag L = tag_of self n0) by (unfold L; destruct w; done).
  assert (HL : put_ok self (set_of self n0) i L).
  { intros _. rewrite HLt, slot_no_of by done. destruct (Hu _ i Hs Hi Hv) as (H1 & H2 & H3).
    rewrite slot_no_of in H2 by done. split_and!; [by rewrite <-Ht|done|].
    intros j Hj Hne Hvj Htj. apply Hne, H3; [done|done|]. by rewrite Ht. }
  split_and!; [split_and!; [by eapply put_geometry|by eapply put_slots|unfold self', touch_way; by destruct w]|
    done|unfold self', touch_way; by destruct w|].
  intros n Hn. rewrite (put_view self self' _ i L n Hg Hu Hsh Hl Hs Hi HL Hn), !slot_no_of by done.
  assert (cl_valid L = true) as HLv by (unfold L; by destruct w). case_decide as Hd.
  - destruct Hd as [_ ->]. rewrite decide_True by done.
    rewrite (proj2 (view_Some self n0 (cl_dirty (slot self (set_of self n0) i)) Hg Hu Hn)) by (by exists i).
    simpl. f_equal. unfold L. destruct w; [by rewrite orb_true_r|by rewrite orb_false_r].
  - rewrite (decide_False (P := n = n0)) by naive_solver. rewrite decide_False; naive_solver.
Qed.

(** The prefetcher state is no part of the directory. *)
Lemma prefetcher_spec self addr hit :
  cache_wf self ->
  let '(targets, self') := run_prefetcher self addr hit in
  cache_wf self' /\ same_shape self self' /\ cs_enabled self' = cs_enabled self /\
  forall n, cs_view self' n = cs_view self n.
Proof.
  intros Hwf. unfold run_prefetcher. destruct (cs_prefetcher self) as [p|]; [|done].
  destruct (observe p addr hit) as [l p']. split_and!; [|done..].
  destruct Hwf as ([] & Hu & Hp). by split_and!.
Qed.

(** C26. A demand access updates the directory as a set-associative write-back
    cache must: a hit is reported exactly when the line is resident, and only
    its dirty bit can change; a miss makes the line resident, dirty exactly on
    a write, and removes nothing but the reported eviction, a resident line of
    the same set reported with its address and dirty bit, whose write-back is
    charged exactly when it is dirty. *)
Theorem cache_access_refines_directory self (addr : Z) (is_write : bool) (lat : Z) :
  cache_wf self -> cs_enabled self = true -> in_width 64 addr ->
  let '(hit, penalty, evictions, _, self') := access_tracked_split self addr is_write lat in
  let n0 := line_no self addr in
  cache_wf self' /\ hit = bool_decide (is_Some (cs_view self n0)) /\
  match cs_view self n0 with
  | Some d => penalty = 0 /\ evictions = [] /\
      forall n, 0 <= n -> cs_view self' n = if decide (n = n0) then Some (d || is_write) else cs_view self n
  | None => exists ev, evictions = option_list ev /\ evicted_ok self ev n0 penalty lat /\
      forall n, 0 <= n -> cs_view self' n = if decide (n = n0) then Some is_write else evict_view self ev n
  end.
Proof.
  intros Hwf He Ha. unfold access_tracked_split. rewrite He. cbn [negb].
  pose proof (view_find self addr (proj1 Hwf) (proj1 Ha)) as Hvf.
  destruct (find_way self addr) as [i|] eqn:Hf.
  - pose proof (touch_spec self addr i is_write Hwf Ha Hf) as H. cbv zeta in H.
    destruct H as (Hwf1 & _ & _ & Hv). pose proof (prefetcher_spec _ addr true Hwf1) as H.
    destruct (run_prefetcher _ addr true) as [targets self']. destruct H as (Hwf2 & _ & _ & Hv').
    destruct (cs_view self (line_no self addr)) as [d|] eqn:Ed; [|destruct (proj2 Hvf); [by eexists|done]].
    split_and!; [done|by rewrite bool_decide_true|done|done|].
    intros n Hn. rewrite Hv', Hv by done. case_decide; [|done]. subst n. by rewrite Ed.
  - pose proof (install_spec self addr is_write lat Hwf Ha Hf) as H.
    destruct (install_line_tracked _ _ _ _) as [[pen ev] self1]. destruct H as (Hwf1 & _ & _ & Hev & Hv).
    pose proof (prefetcher_spec _ addr false Hwf1) as H.
    destruct (run_prefetcher _ addr false) as [targets self']. destruct H as (Hwf2 & _ & _ & Hv').
    destruct (cs_view self (line_no self addr)) as [d|] eqn:Ed; [by destruct (proj1 Hvf)|].
    split_and!; [done|by rewrite bool_decide_false by (by intros [])|]. exists ev. split_and!; [done|done|].
    intros n Hn. by rewrite Hv', Hv.
Qed.

Lemma contains_spec self addr :
  cache_wf self -> 0 <= addr ->
  cs_contains self addr = cs_enabled self && bool_decide (is_Some (cs_view self (line_no self addr))).
Proof.
  intros (Hg & _) Ha. unfold cs_contains. destruct (cs_enabled self); [|done]. cbn [negb andb].
  apply bool_decide_ext. symmetry. by apply view_find.
Qed.

(** ** Prefetch installs *)

Lemma install_loop_wf targets self lat :
  cache_wf self -> cs_enabled self = true -> Forall (in_width 64) targets ->
  cache_wf (install_loop self targets lat).2 /\ cs_enabled (install_loop self targets lat).2 = true.
Proof.
  intros Hwf He Hf. revert self Hwf He. induction Hf as [|t l Ht Hf IH]; intros self Hwf He; [done|]. cbn [install_loop].
  unfold cs_contains. rewrite He. cbn [negb]. case_bool_decide as Hc; [by apply IH|].
  destruct (find_way self t) as [i|] eqn:Ef; [by destruct Hc|].
  pose proof (install_spec self t false lat Hwf Ht Ef) as H.
  destruct (install_line_tracked _ _ _ _) as [[pen ev] self1]. destruct H as (Hwf1 & _ & He1 & _ & _).
  specialize (IH self1 Hwf1 (eq_trans He1 He)). by destruct (install_loop self1 l lat).
Qed.

(** ** Maintenance sweeps *)

Definition clear_line (clears : CacheLine -> bool) (l : CacheLine) : CacheLine :=
  if clears l then l <| cl_dirty := false |> <| cl_valid := false |> else l.
Definition reported self (clears : CacheLine -> bool) (i : nat) (l : CacheLine) : list EvictedLine :=
  if clears l && cl_dirty l
  then [{| ev_addr := reconstruct_addr self (i / cs_ways self)%nat (cl_tag l); ev_dirty := true |}] else [].

Lemma sweep_loop_spec self clears todo done acc :
  foldl (fun s i => sweep_body self clears i s) (acc, done ++ todo) (seq (length done) (length todo)) =
  (acc ++ concat (imap (fun i l => reported self clears (length done + i) l) todo),
   done ++ (clear_line clears <$> todo)).
Proof.
  revert done acc. induction todo as [|l todo IH]; intros done acc; [by rewrite !app_nil_r|]. cbn [length seq foldl].
  set (done' := done ++ [clear_line clears l]).
  assert (sweep_body self clears (length done) (acc, done ++ l :: todo) =
    (acc ++ reported self clears (length done) l, done' ++ todo)) as ->.
  { unfold sweep_body, reported, done', clear_line.
    rewrite (list_lookup_total_correct (done ++ l :: todo) (length done) l)
      by (by rewrite lookup_app_r, Nat.sub_diag by done).
    rewrite <-app_assoc. destruct (clears l) eqn:E; simpl; [|by rewrite app_nil_r].
    rewrite insert_app_r_alt, Nat.sub_diag by done. by destruct (cl_dirty l). }
  assert (S (length done) = length done') as -> by (unfold done'; rewrite length_app; simpl; lia).
  rewrite IH. unfold done'. rewrite <-!app_assoc. cbn [imap concat fmap list_fmap app].
  rewrite Nat.add_0_r. f_equal. f_equal. f_equal. f_equal. apply imap_ext. intros i x _. cbn. f_equal. rewrite length_app. simpl. lia.
Qed.

Lemma sweep_spec self clears :
  cs_enabled self = true ->
  sweep self clears =
  (concat (imap (reported self clears) (cs_lines self)),
   self <| cs_lines := clear_line clears <$> cs_lines self |>).
Proof.
  intros He. unfold sweep. rewrite He. cbn [negb].
  pose proof (sweep_loop_spec self clears (cs_lines self) [] []) as H. simpl in H. by rewrite H.
Qed.

Lemma slot_sweep self clears s i :
  geometry_ok self -> (s < cs_num_sets self)%nat -> (i < cs_ways self)%nat ->
  slot (self <| cs_lines := clear_line clears <$> cs_lines self |>) s i = clear_line clears (slot self s i).
Proof.
  intros Hg Hs Hi. apply list_lookup_total_correct. cbn. rewrite list_lookup_fmap.
  by rewrite lookup_total_Some by (by apply slot_index_lt).
Qed.

Lemma clear_line_valid (f : bool -> bool) l :
  let l' := clear_line (fun l => cl_valid l && f (cl_dirty l)) l in
  cl_valid l' = true -> l' = l /\ cl_valid l = true /\ f (cl_dirty l) = false.
Proof. destruct l as [t v d]. unfold clear_line. destruct v, (f d) eqn:E; simpl; try rewrite E; simpl; try done. Qed.
Lemma clear_line_keeps (f : bool -> bool) l :
  f (cl_dirty l) = false -> clear_line (fun l => cl_valid l && f (cl_dirty l)) l = l.
Proof. unfold clear_line. intros ->. by rewrite andb_false_r. Qed.

(** The lines dropped are those whose dirty bit satisfies [f]. *)
Lemma sweep_view self (f : bool -> bool) :
  cache_wf self ->
  let self' := self <| cs_lines := clear_line (fun l => cl_valid l && f (cl_dirty l)) <$> cs_lines self |> in
  cache_wf self' /\
  forall n, 0 <= n -> cs_view self' n = (cs_view self n ≫= fun d => if f d then None else Some d).
Proof.
  intros (Hg & Hu & Hp) self'.
  assert (Hslot : forall s i, (s < cs_num_sets self)%nat -> (i < cs_ways self)%nat ->
    slot self' s i = clear_line (fun l => cl_valid l && f (cl_dirty l)) (slot self s i)) by (intros; by apply slot_sweep).
  assert (Hkeep : forall s i, (s < cs_num_sets self)%nat -> (i < cs_ways self)%nat ->
    cl_valid (slot self' s i) = true ->
    slot self' s i = slot self s i /\ cl_valid (slot self s i) = true /\ f (cl_dirty (slot self s i)) = false).
  { intros s i Hs Hi. rewrite Hslot by done. apply clear_line_valid. }
  assert (Hg' : geometry_ok self') by (destruct Hg; constructor; cbn; by rewrite ?length_fmap).
  assert (Hu' : slots_ok self').
  { intros s i Hs Hi Hv. destruct (Hkeep s i Hs Hi Hv) as (-> & Hv' & _).
    destruct (Hu s i Hs Hi Hv') as (H1 & H2 & H3). split_and!; [done|done|]. intros j Hj Hvj.
    destruct (Hkeep s j Hs Hj Hvj) as (-> & Hvj' & _). by apply H3. }
  split; [by split_and!|]. intros n Hn. pose proof (set_of_lt self n Hg) as Hs. apply option_eq. intros d.
  rewrite view_Some, bind_Some by done. split.
  - intros (i & Hi & [Hv Ht] & Hd). destruct (Hkeep _ i Hs Hi Hv) as (Hsl & Hv' & Hf).
    change (set_of self' n) with (set_of self n) in *. rewrite Hsl in Ht, Hd. exists d. subst d. rewrite Hf.
    split; [|done]. apply view_Some; [done..|]. by exists i.
  - intros (d' & (i & Hi & [Hv Ht] & Hd)%view_Some & Hf); [|done..]. case_bool; [done|]. injection Hf as <-.
    exists i. split; [done|]. change (set_of self' n) with (set_of self n). unfold holds.
    change (set_of self' n) with (set_of self n). rewrite Hslot by done.
    rewrite clear_line_keeps; [done|]. by rewrite Hd.
Qed.

(** Every index of [lines] is a slot. *)
Lemma slot_at self k l :
  geometry_ok self -> cs_lines self !! k = Some l ->
  exists i, (k / cs_ways self < cs_num_sets self)%nat /\ (i < cs_ways self)%nat /\ slot self (k / cs_ways self) i = l.
Proof.
  intros [Hw _ _ _ Hlen] El. pose proof (lookup_lt_Some _ _ _ El) as Hlt. rewrite Hlen in Hlt.
  pose proof (Nat.div_mod_eq k (cs_ways self)). pose proof (Nat.mod_upper_bound k (cs_ways self) ltac:(lia)).
  exists (k mod cs_ways self)%nat. split_and!; [by apply Nat.Div0.div_lt_upper_bound; lia|done|].
  apply list_lookup_total_correct. rewrite <-El. f_equal. lia.
Qed.

Lemma slot_no_nonneg self s l : 0 <= cl_tag l -> 0 <= slot_no self s l.
Proof. intros H. pose proof (Z.mul_nonneg_nonneg _ _ H (Nat2Z.is_nonneg (cs_num_sets self))). unfold slot_no. lia. Qed.

Lemma reported_elem self clears e :
  e ∈ concat (imap (reported self clears) (cs_lines self)) <->
  exists k l, cs_lines self !! k = Some l /\ e ∈ reported self clears k l.
Proof.
  rewrite list_elem_of_In, in_concat. setoid_rewrite <-list_elem_of_In. split.
  - intros (es & [k Hk]%list_elem_of_lookup & He). rewrite list_lookup_imap in Hk.
    destruct (cs_lines self !! k) as [l|] eqn:El; [|done]. injection Hk as <-. by exists k, l.
  - intros (k & l & El & He). exists (reported self clears k l). split; [|done].
    apply list_elem_of_lookup. exists k. by rewrite list_lookup_imap, El.
Qed.

Lemma reported_spec self (f : bool -> bool) e :
  cache_wf self -> f true = true ->
  e ∈ concat (imap (reported self (fun l => cl_valid l && f (cl_dirty l))) (cs_lines self)) <->
  ev_dirty e = true /\ exists n, 0 <= n /\ ev_addr e = n * cs_line_bytes self /\ cs_view self n = Some true.
Proof.
  intros (Hg & Hu & _) Hf. rewrite reported_elem. unfold reported. split.
  - intros (k & l & El & He). destruct (slot_at self k l Hg El) as (i & Hs & Hi & <-).
    set (s := (k / cs_ways self)%nat) in *. case_bool; [|by apply elem_of_nil in He].
    apply list_elem_of_singleton in He as ->. to_prop. split; [done|]. cbn.
    destruct (Hu s i Hs Hi ltac:(done)) as (H1' & H2' & _).
    destruct (slot_no_set_tag self s (slot self s i) Hg Hs) as [Hm1 Hm2].
    pose proof (slot_no_nonneg self s _ H1') as Hn. rewrite reconstruct_slot by done. eexists. split_and!; [done..|].
    apply view_Some; [done..|]. exists i. unfold holds. by rewrite Hm1, Hm2.
  - intros (Hd & n & Hn & Ha & (i & Hi & [Hv Ht] & Hdi)%view_Some); [|done..].
    pose proof (set_of_lt self n Hg) as Hs. destruct (Hu _ i Hs Hi Hv) as (H1 & H2 & _).
    exists (set_of self n * cs_ways self + i)%nat, (slot self (set_of self n) i).
    split; [by apply lookup_total_Some, slot_index_lt|]. rewrite Hv, Hdi, Hf. cbn [andb].
    assert (((set_of self n * cs_ways self + i) / cs_ways self)%nat = set_of self n) as ->.
    { rewrite Nat.div_add_l, Nat.div_small by lia. lia. }
    apply list_elem_of_singleton. rewrite reconstruct_slot, slot_no_of, <-Ha by done. destruct e. simpl in *. by subst.
Qed.

(** The maintenance operations: [flush] reports exactly the dirty resident
    lines and drops them, keeping the clean ones; [invalidate_all] reports the
    same lines and leaves the directory empty; both preserve the invariant. *)
Theorem cache_sweeps_report_dirty self :
  cache_wf self -> cs_enabled self = true ->
  let '(evicted, flushed) := cs_flush self in
  let '(evicted', emptied) := cs_invalidate_all self in
  cache_wf flushed /\ cache_wf emptied /\ evicted' = evicted /\
  (forall e, e ∈ evicted <->
     ev_dirty e = true /\ exists n, 0 <= n /\ ev_addr e = n * cs_line_bytes self /\ cs_view self n = Some true) /\
  (forall n, 0 <= n -> cs_view flushed n = if decide (cs_view self n = Some true) then None else cs_view self n) /\
  (forall n, 0 <= n -> cs_view emptied n = None).
Proof.
  intros Hwf He. unfold cs_flush, cs_invalidate_all. rewrite !sweep_spec by done.
  destruct (sweep_view self (fun d => d) Hwf) as [Hwf1 Hv1].
  destruct (sweep_view self (fun _ => true) Hwf) as [Hwf2 Hv2].
  assert (forall l, clear_line (fun l => cl_valid l) l = clear_line (fun l => cl_valid l && true) l) as Hc
    by (intros; unfold clear_line; by rewrite andb_true_r).
  rewrite (list_fmap_ext _ _ _ (fun _ l _ => Hc l)). split_and!; [done|done| | | |].
  - f_equal. apply imap_ext. intros i l _. unfold reported. by destruct (cl_valid l), (cl_dirty l).
  - intros e. by apply (reported_spec self (fun d => d)).
  - intros n Hn. rewrite Hv1 by done. by destruct (cs_view self n) as [[]|].
  - intros n Hn. rewrite Hv2 by done. by destruct (cs_view self n).
Qed.

(** ** Sequences of operations *)

Inductive cache_op :=
| OpAccess (addr : Z) (is_write : bool) (lat : Z)
| OpTracked (addr : Z) (is_write : bool) (lat : Z)
| OpSplit (addr : Z) (is_write : bool) (lat : Z)
| OpCheck (addr : Z) (is_write : bool)
| OpPrefetches (targets : list Z) (lat : Z)
| OpInvalidateLine (addr : Z)
| OpInstall (addr : Z) (is_write : bool) (lat : Z)
| OpInstallOrReplace (addr : Z) (is_write : bool) (lat : Z)
| OpFlush | OpInvalidateAll.

Definition cache_exec self (op : cache_op) : cache :=
  match op with
  | OpAccess a w lat => (cs_access self a w lat).2
  | OpTracked a w lat => (access_tracked self a w lat).2
  | OpSplit a w lat => (access_tracked_split self a w lat).2
  | OpCheck a w => (access_check self a w).2
  | OpPrefetches l lat => (install_prefetches self l lat).2
  | OpInvalidateLine a => (invalidate_line self a).2
  | OpInstall a w lat => (install_line_public self a w lat).2
  | OpInstallOrReplace a w lat => (install_or_replace self a w lat).2
  | OpFlush => (cs_flush self).2
  | OpInvalidateAll => (cs_invalidate_all self).2
  end.

(** The two unchecked installs expect a line the cache does not hold. *)
Definition op_ok self (op : cache_op) : Prop :=
  match op with
  | OpAccess a _ _ | OpTracked a _ _ | OpSplit a _ _ | OpCheck a _ | OpInvalidateLine a => in_width 64 a
  | OpInstall a _ _ | OpInstallOrReplace a _ _ => in_width 64 a /\ find_way self a = None
  | OpPrefetches l _ => Forall (in_width 64) l
  | OpFlush | OpInvalidateAll => True
  end.

Fixpoint ops_ok self (ops : list cache_op) : Prop :=
  match ops with [] => True | op :: ops => op_ok self op /\ ops_ok (cache_exec self op) ops end.

Lemma free_way_spec self addr i :
  free_way self addr = Some i -> (i < cs_ways self)%nat /\ cl_valid (slot self (set_of self (line_no self addr)) i) = false.
Proof.
  unfold free_way. enough (forall n b, (b + n = cs_ways self)%nat ->
    after_loop (list_scan (fun i (_ : unit) =>
      if negb (cl_valid (cs_lines self !!! (cs_base self addr + i)%nat)) then Return (Some i) else Continue tt)
      (seq b n) tt) (fun _ => None) = Some i ->
    (i < cs_ways self)%nat /\ cl_valid (slot self (set_of self (line_no self addr)) i) = false) as H
    by (by apply (H _ 0%nat)).
  induction n as [|n IH]; intros b Hb; cbn [seq list_scan after_loop]; [done|].
  destruct (cl_valid (cs_lines self !!! (cs_base self addr + b)%nat)) eqn:E; simpl; [apply IH; lia|]. intros [= <-]. split; [lia|exact E].
Qed.

Lemma split_wf self a w lat :
  cache_wf self -> cs_enabled self = true -> in_width 64 a ->
  let self1 := match find_way self a with
               | Some i => touch_way self a i w | None => (install_line_tracked self a w lat).2 end in
  cache_wf self1 /\ cs_enabled self1 = true.
Proof.
  intros Hwf He Ha. destruct (find_way self a) as [i|] eqn:Hf.
  - destruct (touch_spec self a i w Hwf Ha Hf) as (H1 & _ & H2 & _). split; [done|]. exact (eq_trans H2 He).
  - pose proof (install_spec self a w lat Hwf Ha Hf) as H. destruct (install_line_tracked _ _ _ _) as [[p ev] self1].
    destruct H as (H1 & _ & H2 & _). split; [done|]. exact (eq_trans H2 He).
Qed.

Lemma prefetch_wf `{!PrefetcherLaws PF} self a hit :
  cache_wf self -> cs_enabled self = true ->
  cache_wf (run_prefetcher self a hit).2 /\ cs_enabled (run_prefetcher self a hit).2 = true /\
  Forall (in_width 64) (run_prefetcher self a hit).1.
Proof.
  intros Hwf He. pose proof (prefetcher_spec self a hit Hwf) as H. unfold run_prefetcher in *.
  destruct (cs_prefetcher self) as [p|]; [|by split_and!]. pose proof (observe_in_width p a hit) as Hw.
  destruct (observe p a hit) as [l p']. destruct H as (H1 & _ & H2 & _). split_and!; [done| |done].
  exact (eq_trans H2 He).
Qed.

Lemma install_or_replace_wf self a w lat :
  cache_wf self -> cs_enabled self = true -> in_width 64 a -> find_way self a = None ->
  cache_wf (install_or_replace self a w lat).2 /\ cs_enabled (install_or_replace self a w lat).2 = true.
Proof.
  intros Hwf He Ha Hf. unfold install_or_replace. rewrite He. cbn [negb]. destruct (free_way self a) as [i|] eqn:Ew.
  - apply free_way_spec in Ew as [Hi _]. destruct Hwf as (Hg & Hu & Hp).
    pose proof (set_of_lt self (line_no self a) Hg) as Hs. cbn [snd]. split; [|done].
    match goal with |- cache_wf ?x => set (self' := x) end.
    assert (Hl : cs_lines self' = <[(set_of self (line_no self a) * cs_ways self + i)%nat :=
      {| cl_tag := cs_tag self a; cl_valid := true; cl_dirty := w |}]> (cs_lines self)) by done.
    split_and!; [by eapply put_geometry|eapply put_slots; (done || by apply put_absent_ok)|by apply policy_update_ok].
  - pose proof (install_spec self a w lat Hwf Ha Hf) as H. destruct (install_line_tracked _ _ _ _) as [[p ev] self1].
    destruct H as (H1 & _ & H2 & _). split; [done|]. exact (eq_trans H2 He).
Qed.

Lemma invalidate_line_wf self a :
  cache_wf self -> cs_enabled self = true -> in_width 64 a ->
  cache_wf (invalidate_line self a).2 /\ cs_enabled (invalidate_line self a).2 = true.
Proof.
  intros (Hg & Hu & Hp) He Ha. unfold invalidate_line. rewrite He. cbn [negb].
  pose proof (find_way_spec self a Hg (proj1 Ha)) as H. destruct (find_way self a) as [i|]; [|by split_and!].
  destruct H as [Hi _]. pose proof (set_of_lt self (line_no self a) Hg) as Hs. cbn [snd]. split; [|done].
  match goal with |- cache_wf ?x => set (self' := x) end.
  eassert (Hl : cs_lines self' = <[(set_of self (line_no self a) * cs_ways self + i)%nat := _]> (cs_lines self)) by done.
  split_and!; [by eapply put_geometry|by eapply put_slots|done].
Qed.

Lemma prefetch_installs_wf `{!PrefetcherLaws PF} self a hit lat :
  cache_wf self /\ cs_enabled self = true ->
  let '(pf, self2) := run_prefetcher self a hit in
  (cache_wf self2 /\ cs_enabled self2 = true) /\
  let '(_, self3) := install_loop self2 pf lat in cache_wf self3 /\ cs_enabled self3 = true.
Proof.
  intros [Hwf He]. destruct (prefetch_wf self a hit Hwf He) as (H1 & H2 & H3).
  destruct (run_prefetcher self a hit) as [pf self2]. split; [done|].
  pose proof (install_loop_wf pf self2 lat H1 H2 H3) as H. by destruct (install_loop self2 pf lat).
Qed.

(** Closes an access whose demand part ended in the state of [Hs]. *)
Ltac run_prefetch a lat :=
  cbv beta iota zeta; cbv beta iota zeta in *; cbn [snd] in *;
  match goal with
  | Hs : _ /\ cs_enabled _ = true |- context [run_prefetcher ?s a ?h] =>
      let H := fresh in pose proof (prefetch_installs_wf s a h lat Hs) as H;
      destruct (run_prefetcher s a h) as [? ?]; destruct H as [? ?]; try (by destruct (install_loop _ _ _)); done
  end.

Lemma cache_exec_wf `{!PrefetcherLaws PF} self op :
  cache_wf self -> cs_enabled self = true -> op_ok self op ->
  cache_wf (cache_exec self op) /\ cs_enabled (cache_exec self op) = true.
Proof.
  intros Hwf He. destruct op as [a w lat|a w lat|a w lat|a w|l lat|a|a w lat|a w lat| |]; cbn [op_ok cache_exec]; intros Hok.
  - pose proof (split_wf self a w lat Hwf He Hok) as Hs. unfold cs_access, install_line. rewrite He. cbn [negb].
    destruct (find_way self a) as [i|]; [|destruct (install_line_tracked _ _ _ _) as [[p ev] self1]]; run_prefetch a lat.
  - pose proof (split_wf self a w lat Hwf He Hok) as Hs. unfold access_tracked, access_tracked_split. rewrite He. cbn [negb].
    destruct (find_way self a) as [i|]; [|destruct (install_line_tracked _ _ _ _) as [[p ev] self1]]; run_prefetch a lat.
  - pose proof (split_wf self a w lat Hwf He Hok) as Hs. unfold access_tracked_split. rewrite He. cbn [negb].
    destruct (find_way self a) as [i|]; [|destruct (install_line_tracked _ _ _ _) as [[p ev] self1]]; run_prefetch a lat.
  - pose proof (split_wf self a w 0 Hwf He Hok) as Hs. unfold access_check. rewrite He. cbn [negb].
    destruct (find_way self a) as [i|]; [|clear Hs; pose proof (conj Hwf He) as Hs]; run_prefetch a 0.
  - by apply install_loop_wf.
  - by apply invalidate_line_wf.
  - destruct Hok as [Ha Hf]. pose proof (split_wf self a w lat Hwf He Ha) as Hs. rewrite Hf in Hs.
    unfold install_line_public, install_line. by destruct (install_line_tracked _ _ _ _) as [[p ev] self1].
  - destruct Hok as [Ha Hf]. by apply install_or_replace_wf.
  - unfold cs_flush. rewrite sweep_spec by done. split; [|done]. by apply (sweep_view self (fun d => d)).
  - unfold cs_invalidate_all. rewrite sweep_spec by done. split; [|done].
    destruct (sweep_view self (fun _ => true) Hwf) as [Hw _]. cbn [snd].
    erewrite list_fmap_ext; [exact Hw|]. intros i l _. unfold clear_line. by rewrite andb_true_r.
Qed.

Lemma cache_run_wf `{!PrefetcherLaws PF} ops self :
  cache_wf self -> cs_enabled self = true -> ops_ok self ops ->
  cache_wf (foldl cache_exec self ops) /\ cs_enabled (foldl cache_exec self ops) = true.
Proof.
  revert self. induction ops as [|op ops IH]; intros self Hwf He Hok; [done|]. destruct Hok as [H1 H2].
  destruct (cache_exec_wf self op Hwf He H1) as [Hwf' He']. by apply IH.
Qed.

(** Whatever sequence of accesses, prefetch installs, invalidations and
    flushes runs, no line is ever held by two ways of its set and [contains]
    answers for exactly the resident lines, provided the unchecked installs
    ([install_line_public], [install_or_replace]) are given absent lines. *)
Theorem cache_never_duplicates `{!PrefetcherLaws PF} self (ops : list cache_op) :
  cache_wf self -> cs_enabled self = true -> ops_ok self ops ->
  let self' := foldl cache_exec self ops in
  cache_wf self' /\
  (forall s i j, (s < cs_num_sets self')%nat -> (i < cs_ways self')%nat -> (j < cs_ways self')%nat ->
     cl_valid (slot self' s i) = true -> cl_valid (slot self' s j) = true ->
     cl_tag (slot self' s i) = cl_tag (slot self' s j) -> i = j) /\
  (forall addr, 0 <= addr -> cs_contains self' addr = bool_decide (is_Some (cs_view self' (line_no self' addr)))).
Proof.
  intros Hwf He Hok self'. destruct (cache_run_wf ops self Hwf He Hok) as [Hwf' He']. fold self' in Hwf', He'.
  split_and!; [done| |].
  - intros s i j Hs Hi Hj Hvi Hvj Ht. symmetry. destruct Hwf' as (_ & Hu & _).
    by apply (proj2 (proj2 (Hu s i Hs Hi Hvi)) j Hj Hvj).
  - intros addr Ha. by rewrite contains_spec, He'.
Qed.

Lemma cs_new_wf lat enabled size lb ways (mk : nat -> nat -> P) (pf : option PF) :
  let self := cs_new lat enabled size lb ways mk pf in
  (0 < cs_num_sets self)%nat -> 0 < cs_line_bytes self ->
  cs_line_bytes self * Z.of_nat (cs_num_sets self) < 2 ^ 64 ->
  policy_ok (cs_num_sets self) (cs_ways self) (cs_policy self) -> cache_wf self.
Proof.
  intros self Hn Hl Hf Hp. assert (geometry_ok self) as Hg.
  { constructor; [|done..|]; unfold self; cbn; [unfold safe_ways; case_bool; to_prop; lia|apply length_replicate]. }
  split_and!; [done| |done]. intros s i Hs Hi Hv. exfalso.
  assert (slot self s i = CacheLine_default) as E; [|by rewrite E in Hv].
  apply list_lookup_total_correct. pose proof (slot_index_lt self s i Hg Hs Hi) as Hlt.
  apply lookup_replicate. split; [done|]. rewrite (geo_len _ Hg) in Hlt. exact Hlt.
Qed.

End Directory.

(** ** Witnesses *)

(** Two sets of two ways of 64-byte lines, LRU, next-line prefetcher. *)
Definition demo_cache : CacheSim DynPolicy DynPrefetcher :=
  cs_new 3 true 256 64 2 (fun s w => DynLru (lru_new s w)) (Some (DynNextLine (next_line_new 64 1))).

Lemma demo_cache_wf : cache_wf demo_cache.
Proof.
  apply cs_new_wf; [by apply (bool_decide_unpack _); vm_compute..|].
  exact (stacks_ok_new 2 2 ltac:(lia)).
Qed.

Definition demo_ops : list cache_op :=
  [OpAccess 0x1000 true 10; OpAccess 0x2040 false 10; OpSplit 0x3040 true 10; OpInvalidateLine 0x2040].

Lemma demo_ops_ok : ops_ok demo_cache demo_ops.
Proof. repeat split; by apply (bool_decide_unpack _); vm_compute. Qed.

Lemma cache_never_duplicates_witness :
  cs_contains (foldl cache_exec demo_cache demo_ops) 0x1000 = true /\
  is_Some (cs_view (foldl cache_exec demo_cache demo_ops) (line_no (foldl cache_exec demo_cache demo_ops) 0x1000)).
Proof.
  assert (cs_contains (foldl cache_exec demo_cache demo_ops) 0x1000 = true) as E by by vm_compute.
  split; [exact E|].
  destruct (cache_never_duplicates demo_cache demo_ops demo_cache_wf eq_refl demo_ops_ok) as (_ & _ & H).
  rewrite (H 0x1000) in E by lia. by apply bool_decide_eq_true in E.
Defined.

Lemma cache_access_refines_directory_witness :
  exists ev, evicted_ok (foldl cache_exec demo_cache demo_ops) ev (line_no demo_cache 0x5000)
               (access_tracked_split (foldl cache_exec demo_cache demo_ops) 0x5000 false 10).1.1.1.2 10.
Proof.
  pose proof (cache_access_refines_directory (foldl cache_exec demo_cache demo_ops) 0x5000 false 10
    (proj1 (cache_run_wf demo_ops demo_cache demo_cache_wf eq_refl demo_ops_ok)) ltac:(by vm_compute)
    ltac:(by split)) as H.
  destruct (access_tracked_split _ _ _ _) as [[[[hit pen] evs] pf] s'] eqn:E. destruct H as (_ & _ & H).
  change (line_no (foldl cache_exec demo_cache demo_ops) 0x5000) with (line_no demo_cache 0x5000) in H.
  destruct (cs_view (foldl cache_exec demo_cache demo_ops) (line_no demo_cache 0x5000)) eqn:Ev; [by vm_compute in Ev|].
  destruct H as (ev & _ & Hok & _). by exists ev.
Defined.

Lemma cache_sweeps_report_dirty_witness :
  length (cs_invalidate_all (foldl cache_exec demo_cache demo_ops)).1 = 2%nat /\
  forall n, 0 <= n -> cs_view (cs_invalidate_all (foldl cache_exec demo_cache demo_ops)).2 n = None.
Proof.
  pose proof (cache_sweeps_report_dirty (foldl cache_exec demo_cache demo_ops)
    (proj1 (cache_run_wf demo_ops demo_cache demo_cache_wf eq_refl demo_ops_ok)) ltac:(by vm_compute)) as H.
  split; [by vm_compute|].
  destruct (cs_flush _) as [ev f]. destruct (cs_invalidate_all _) as [ev' e]. apply H.
Defined.

(** [install_or_replace] takes a free way without looking for the line: given a
    resident line it makes a second copy, which [invalidate_line] leaves behind. *)
Example install_or_replace_duplicates :
  let c := (cs_access demo_cache 0x1000 true 10).2 in
  let c := (install_or_replace c 0x1000 true 10).2 in
  cs_contains c 0x1000 = true /\ (invalidate_line c 0x1000).1 = true /\
  cs_contains (invalidate_line c 0x1000).2 0x1000 = true.
Proof. by vm_compute. Qed.
