(* ===== verification/Tlb.v ===== *)
(** Translation lookaside buffers ([core/units/mmu/tlb.rs]): the direct-mapped
    L1 TLBs and the shared set-associative L2 TLB. *)
From S2P Require Import Prelude Common Prefetch.

Set Primitive Projections.
Local Open Scope Z_scope.

(** ** Data *)

Record TlbHit := { th_ppn : Z; th_r : bool; th_w : bool; th_x : bool; th_u : bool; th_d : bool }.
Record TlbEntry := {
  te_vpn : Z; te_ppn : Z; te_valid : bool; te_r : bool; te_w : bool; te_x : bool; te_u : bool;
  te_d : bool; te_asid : Z; te_global : bool }.
Definition TlbEntry_default : TlbEntry :=
  {| te_vpn := 0; te_ppn := 0; te_valid := false; te_r := false; te_w := false; te_x := false;
     te_u := false; te_d := false; te_asid := 0; te_global := false |}.
#[export] Instance TlbEntry_inhabited : Inhabited TlbEntry := populate TlbEntry_default.

(** The entry both [insert]s write for a page table entry. *)
Definition te_of_pte (vpn ppn pte asid : Z) : TlbEntry :=
  {| te_vpn := vpn; te_ppn := ppn; te_valid := true;
     te_r := bit_at pte 1; te_w := bit_at pte 2; te_x := bit_at pte 3; te_u := bit_at pte 4;
     te_d := bit_at pte 7; te_asid := asid; te_global := bit_at pte 5 |}.

(** [e.valid && e.vpn == vpn && (e.global || e.asid == asid)] *)
Definition te_matches (e : TlbEntry) (vpn asid : Z) : bool :=
  te_valid e && (te_vpn e =? vpn) && (te_global e || (te_asid e =? asid)).
Definition te_hit (e : TlbEntry) : TlbHit :=
  {| th_ppn := te_ppn e; th_r := te_r e; th_w := te_w e; th_x := te_x e; th_u := te_u e; th_d := te_d e |}.

(** [if p(e) { e.valid = false }] *)
Definition te_invalidate (p : TlbEntry -> bool) (e : TlbEntry) : TlbEntry :=
  if p e then e <| te_valid := false |> else e.

(** The tests of the selective flushes. *)
Definition hits_vpn (vpn : Z) (e : TlbEntry) : bool := te_valid e && (te_vpn e =? vpn).
Definition hits_asid (asid : Z) (e : TlbEntry) : bool := te_valid e && negb (te_global e) && (te_asid e =? asid).
Definition hits_vpn_asid (vpn asid : Z) (e : TlbEntry) : bool :=
  te_valid e && (te_vpn e =? vpn) && negb (te_global e) && (te_asid e =? asid).

(** ** The L1 TLB *)

Record Tlb := { tlb_entries : list TlbEntry; tlb_mask : Z }.

Definition pow2_size (size : Z) : Z := if is_power_of_two size then size else next_power_of_two size.
Definition tlb_new (size : Z) : Tlb :=
  let safe_size := pow2_size size in
  {| tlb_entries := replicate (Z.to_nat safe_size) TlbEntry_default; tlb_mask := safe_size - 1 |}.
Definition tlb_index (self : Tlb) (vpn : Z) : nat := Z.to_nat (Z.land vpn (tlb_mask self)).
Definition tlb_lookup (self : Tlb) (vpn asid : Z) : option TlbHit :=
  let entry := tlb_entries self !!! tlb_index self vpn in
  if te_matches entry vpn asid then Some (te_hit entry) else None.
Definition tlb_insert (self : Tlb) (vpn ppn pte asid : Z) : Tlb :=
  self <| tlb_entries := <[tlb_index self vpn := te_of_pte vpn ppn pte asid]> (tlb_entries self) |>.
(** The update of one entry by [invalidate] and the selective flushes. *)
Definition tlb_invalidate_at (self : Tlb) (vpn : Z) (p : TlbEntry -> bool) : Tlb :=
  let idx := tlb_index self vpn in
  self <| tlb_entries := <[idx := te_invalidate p (tlb_entries self !!! idx)]> (tlb_entries self) |>.
Definition tlb_invalidate (self : Tlb) (vpn : Z) : Tlb := tlb_invalidate_at self vpn (hits_vpn vpn).
Definition tlb_flush (self : Tlb) : Tlb :=
  self <| tlb_entries := (fun e => e <| te_valid := false |>) <$> tlb_entries self |>.
Definition tlb_flush_vaddr (self : Tlb) (vpn : Z) : Tlb := tlb_invalidate_at self vpn (hits_vpn vpn).
Definition tlb_flush_asid (self : Tlb) (asid : Z) : Tlb :=
  self <| tlb_entries := te_invalidate (hits_asid asid) <$> tlb_entries self |>.
Definition tlb_flush_vaddr_asid (self : Tlb) (vpn asid : Z) : Tlb :=
  tlb_invalidate_at self vpn (hits_vpn_asid vpn asid).

(** ** The L2 TLB *)

Record L2Tlb := {
  l2_entries : list TlbEntry; l2_ways : nat; l2_set_mask : Z; l2_lru : list Z; l2_latency : Z }.

Definition l2_new (total_entries : Z) (ways : nat) (latency : Z) : L2Tlb :=
  let safe_ways := if (ways =? 0)%nat then 4%nat else ways in
  let num_sets := Z.max (pow2_size (total_entries / Z.of_nat safe_ways)) 1 in
  let capacity := (Z.to_nat num_sets * safe_ways)%nat in
  {| l2_entries := replicate capacity TlbEntry_default; l2_ways := safe_ways; l2_set_mask := num_sets - 1;
     l2_lru := replicate capacity 0; l2_latency := latency |}.

Definition l2_set (self : L2Tlb) (vpn : Z) : nat := Z.to_nat (Z.land vpn (l2_set_mask self)).
Definition l2_base (self : L2Tlb) (vpn : Z) : nat := (l2_set self vpn * l2_ways self)%nat.

Definition write_entry (self : L2Tlb) (idx : nat) (vpn ppn pte asid : Z) : L2Tlb :=
  self <| l2_entries := <[idx := te_of_pte vpn ppn pte asid]> (l2_entries self) |>.

(** [pte |= 1 << n] under a flag. *)
Definition or_bit (b : bool) (n : Z) (pte : Z) : Z := if b then Z.lor pte (Z.shiftl 1 n) else pte.
Definition reconstruct_pte (e : TlbEntry) : Z :=
  or_bit (te_d e) 7 (or_bit (te_global e) 5 (or_bit (te_u e) 4
    (or_bit (te_x e) 3 (or_bit (te_w e) 2 (or_bit (te_r e) 1 1))))).

Definition touch_lru (self : L2Tlb) (set way : nat) : L2Tlb :=
  let base := (set * l2_ways self)%nat in
  let old_age := l2_lru self !!! (base + way)%nat in
  let aged := foldl (fun lru w =>
      if lru !!! (base + w)%nat <? old_age then <[(base + w)%nat := u8 (lru !!! (base + w)%nat + 1)]> lru else lru)
    (l2_lru self) (seq 0 (l2_ways self)) in
  self <| l2_lru := <[(base + way)%nat := 0]> aged |>.

Definition lru_victim (self : L2Tlb) (set : nat) : nat :=
  let base := (set * l2_ways self)%nat in
  (foldl (fun '(max_age, victim) w =>
            if max_age <? l2_lru self !!! (base + w)%nat then (l2_lru self !!! (base + w)%nat, w)
            else (max_age, victim))
         (0, 0%nat) (seq 0 (l2_ways self))).2.

(** The loops over the ways of a set: the first way satisfying [p]. *)
Definition l2_find (self : L2Tlb) (vpn : Z) (p : TlbEntry -> bool) : option nat :=
  after_loop (list_scan (fun w (_ : unit) =>
      if p (l2_entries self !!! (l2_base self vpn + w)%nat) then Return (Some w) else Continue tt)
    (seq 0 (l2_ways self)) tt) (fun _ => None).

Definition l2_lookup (self : L2Tlb) (vpn asid : Z) : option (Z * Z * Z) * L2Tlb :=
  match l2_find self vpn (fun e => te_matches e vpn asid) with
  | Some w => let e := l2_entries self !!! (l2_base self vpn + w)%nat in
              (Some (te_ppn e, reconstruct_pte e, te_asid e), touch_lru self (l2_set self vpn) w)
  | None => (None, self)
  end.

(** The way [insert] writes: an entry for the same page, an invalid way, the LRU way. *)
Definition l2_choose (self : L2Tlb) (vpn asid : Z) : nat :=
  match l2_find self vpn (fun e => te_matches e vpn asid) with
  | Some w => w
  | None => match l2_find self vpn (fun e => negb (te_valid e)) with
            | Some w => w
            | None => lru_victim self (l2_set self vpn)
            end
  end.
Definition l2_insert (self : L2Tlb) (vpn ppn pte asid : Z) : L2Tlb :=
  let w := l2_choose self vpn asid in
  touch_lru (write_entry self (l2_base self vpn + w)%nat vpn ppn pte asid) (l2_set self vpn) w.

Definition l2_flush (self : L2Tlb) : L2Tlb :=
  self <| l2_entries := (fun e => e <| te_valid := false |>) <$> l2_entries self |>.
(** The loop over the ways of the set of [vpn] in the selective flushes. *)
Definition l2_invalidate_set (self : L2Tlb) (vpn : Z) (p : TlbEntry -> bool) : L2Tlb :=
  self <| l2_entries := foldl (fun es w => let idx := (l2_base self vpn + w)%nat in
                                  <[idx := te_invalidate p (es !!! idx)]> es)
                              (l2_entries self) (seq 0 (l2_ways self)) |>.
Definition l2_flush_vaddr (self : L2Tlb) (vpn : Z) : L2Tlb := l2_invalidate_set self vpn (hits_vpn vpn).
Definition l2_flush_asid (self : L2Tlb) (asid : Z) : L2Tlb :=
  self <| l2_entries := te_invalidate (hits_asid asid) <$> l2_entries self |>.
Definition l2_flush_vaddr_asid (self : L2Tlb) (vpn asid : Z) : L2Tlb :=
  l2_invalidate_set self vpn (hits_vpn_asid vpn asid).

(** ** Well-formedness: every entry sits where its page is looked up *)

Definition tlb_wf (t : Tlb) : Prop :=
  (exists m, 0 <= m /\ tlb_mask t = 2 ^ m - 1 /\ length (tlb_entries t) = Z.to_nat (2 ^ m)) /\
  forall i e, tlb_entries t !! i = Some e -> te_valid e = true -> tlb_index t (te_vpn e) = i.

Definition l2_wf (t : L2Tlb) : Prop :=
  (0 < l2_ways t)%nat /\ length (l2_lru t) = length (l2_entries t) /\
  (exists m, 0 <= m /\ l2_set_mask t = 2 ^ m - 1 /\ length (l2_entries t) = (Z.to_nat (2 ^ m) * l2_ways t)%nat) /\
  forall i e, l2_entries t !! i = Some e -> te_valid e = true ->
    exists w, (w < l2_ways t)%nat /\ i = (l2_base t (te_vpn e) + w)%nat.

Lemma mask_index_lt (x m : Z) : 0 <= m -> (Z.to_nat (Z.land x (2 ^ m - 1)) < Z.to_nat (2 ^ m))%nat.
Proof. intros. rewrite land_low_mask by done. pose proof (Z.mod_pos_bound x (2 ^ m)). lia. Qed.

Lemma tlb_index_lt t vpn : tlb_wf t -> (tlb_index t vpn < length (tlb_entries t))%nat.
Proof. intros [(m & Hm & Hmask & Hl) _]. unfold tlb_index. rewrite Hmask, Hl. by apply mask_index_lt. Qed.

Lemma l2_slot_lt t vpn w : l2_wf t -> (w < l2_ways t)%nat -> (l2_base t vpn + w < length (l2_entries t))%nat.
Proof.
  intros (_ & _ & (m & Hm & Hmask & Hl) & _) Hw. unfold l2_base, l2_set. rewrite Hmask, Hl.
  pose proof (mask_index_lt vpn m Hm). nia.
Qed.

Lemma pow2_size_pow2 size : exists m, 0 <= m /\ pow2_size size = 2 ^ m.
Proof.
  unfold pow2_size. destruct (is_power_of_two size) eqn:E.
  - unfold is_power_of_two in E. to_prop. exists (Z.log2 size). split; [apply Z.log2_nonneg|].
    destruct (Z.log2_spec size ltac:(done)) as [H1 H2]. set (k := Z.log2 size) in *.
    assert (0 <= k) by apply Z.log2_nonneg. destruct (decide (size = 2 ^ k)) as [|Hne]; [done|]. exfalso.
    assert (Z.testbit (Z.land size (size - 1)) k = true) as Hb.
    { rewrite Z.land_spec, Z.bit_log2 by done.
      replace k with (Z.log2 (size - 1)) by (apply Z.log2_unique; [done|rewrite Z.pow_succ_r in * by done; lia]).
      apply Z.bit_log2. assert (0 < 2 ^ k) by lia. lia. }
    replace (Z.land size (size - 1)) with 0 in Hb by done. by rewrite Z.testbit_0_l in Hb.
  - exists (Z.log2_up size). split; [apply Z.log2_up_nonneg|done].
Qed.

Lemma tlb_new_wf size : tlb_wf (tlb_new size).
Proof.
  destruct (pow2_size_pow2 size) as (m & Hm & E). split.
  - exists m. cbn. by rewrite E, length_replicate.
  - intros i e [-> _]%lookup_replicate. done.
Qed.

Lemma l2_new_wf total ways lat : l2_wf (l2_new total ways lat).
Proof.
  unfold l2_new. set (w := if (ways =? 0)%nat then 4%nat else ways). cbv zeta.
  destruct (pow2_size_pow2 (total / Z.of_nat w)) as (m & Hm & E).
  assert (Z.max (pow2_size (total / Z.of_nat w)) 1 = 2 ^ m) as -> by lia. split_and!.
  - cbn. unfold w. case_bool; to_prop; lia.
  - cbn. by rewrite !length_replicate.
  - exists m. cbn. by rewrite length_replicate.
  - intros i e [-> _]%lookup_replicate. done.
Qed.

(** ** Searching and aging a set of the L2 TLB *)

Lemma l2_find_spec t vpn p :
  match l2_find t vpn p with
  | Some w => (w < l2_ways t)%nat /\ p (l2_entries t !!! (l2_base t vpn + w)%nat) = true /\
      forall w', (w' < w)%nat -> p (l2_entries t !!! (l2_base t vpn + w')%nat) = false
  | None => forall w, (w < l2_ways t)%nat -> p (l2_entries t !!! (l2_base t vpn + w)%nat) = false
  end.
Proof.
  unfold l2_find. assert (forall n b, (b + n = l2_ways t)%nat ->
    (forall w', (w' < b)%nat -> p (l2_entries t !!! (l2_base t vpn + w')%nat) = false) ->
    match after_loop (list_scan (fun w (_ : unit) =>
      if p (l2_entries t !!! (l2_base t vpn + w)%nat) then Return (Some w) else Continue tt) (seq b n) tt)
      (fun _ => None) with
    | Some w => (w < l2_ways t)%nat /\ p (l2_entries t !!! (l2_base t vpn + w)%nat) = true /\
        forall w', (w' < w)%nat -> p (l2_entries t !!! (l2_base t vpn + w')%nat) = false
    | None => forall w, (w < l2_ways t)%nat -> p (l2_entries t !!! (l2_base t vpn + w)%nat) = false
    end) as H; [|apply H; [done|intros; lia]].
  induction n as [|n IH]; intros b Hb Hpre; cbn [seq list_scan].
  - simpl. intros w Hw. apply Hpre. lia.
  - destruct (p (l2_entries t !!! (l2_base t vpn + b)%nat)) eqn:E; [split_and!; [lia|done|done]|].
    apply IH; [lia|]. intros w Hw. destruct (decide (w = b)) as [->|]; [done|]. apply Hpre. lia.
Qed.

Lemma touch_lru_same t set w :
  l2_entries (touch_lru t set w) = l2_entries t /\ l2_ways (touch_lru t set w) = l2_ways t /\
  l2_set_mask (touch_lru t set w) = l2_set_mask t /\ l2_latency (touch_lru t set w) = l2_latency t /\
  length (l2_lru (touch_lru t set w)) = length (l2_lru t).
Proof.
  split_and!; try done. unfold touch_lru. cbn. rewrite length_insert.
  generalize (l2_lru t !!! (set * l2_ways t + w)%nat) as age. intros age. generalize (seq 0 (l2_ways t)) as ws.
  generalize (l2_lru t) as lru. intros lru ws. revert lru. induction ws as [|w' ws IH]; intros lru; [done|].
  simpl. rewrite IH. case_bool; [apply length_insert|done].
Qed.

Lemma touch_lru_wf t set w : l2_wf t -> l2_wf (touch_lru t set w).
Proof.
  destruct (touch_lru_same t set w) as (H1 & H2 & H3 & _ & H5). intros (Hw & Hl & Hm & He).
  unfold l2_wf, l2_base, l2_set in *. by rewrite H1, H2, H3, H5.
Qed.

Lemma lru_victim_lt t set : (0 < l2_ways t)%nat -> (lru_victim t set < l2_ways t)%nat.
Proof.
  intros H0. unfold lru_victim.
  assert (forall ws (a : Z * nat), Forall (fun w => w < l2_ways t)%nat ws -> (a.2 < l2_ways t)%nat ->
    lt (foldl (fun '(max_age, victim) w =>
            if max_age <? l2_lru t !!! (set * l2_ways t + w)%nat then (l2_lru t !!! (set * l2_ways t + w)%nat, w)
            else (max_age, victim)) a ws).2 (l2_ways t)) as H.
  { induction ws as [|w ws IH]; intros [ag v] Hf Ha; [done|]. apply Forall_cons in Hf as [Hw Hf]. simpl.
    apply IH; [done|]. by case_bool. }
  apply H; [|done]. apply Forall_forall. intros w Hw%elem_of_seq. lia.
Qed.

Lemma l2_choose_lt t vpn asid : l2_wf t -> (l2_choose t vpn asid < l2_ways t)%nat.
Proof.
  intros (H0 & _). unfold l2_choose. pose proof (l2_find_spec t vpn (fun e => te_matches e vpn asid)) as H.
  destruct (l2_find t vpn (fun e => te_matches e vpn asid)); [apply H|].
  pose proof (l2_find_spec t vpn (fun e => negb (te_valid e))) as H'.
  destruct (l2_find _ _ _); [apply H'|]. by apply lru_victim_lt.
Qed.

(** ** Entries of the TLBs *)

Definition all_valid (P : TlbEntry -> Prop) (es : list TlbEntry) : Prop :=
  Forall (fun e => te_valid e = true -> P e) es.

Lemma te_invalidate_valid p e : te_valid (te_invalidate p e) = te_valid e && negb (p e).
Proof. unfold te_invalidate. destruct (p e); simpl; by rewrite ?andb_false_r, ?andb_true_r. Qed.
Lemma te_invalidate_keeps p e : p e = false -> te_invalidate p e = e.
Proof. unfold te_invalidate. by intros ->. Qed.

Lemma entry_fmap (f : TlbEntry -> TlbEntry) es i : (i < length es)%nat -> (f <$> es) !!! i = f (es !!! i).
Proof. intros H. apply list_lookup_total_correct. by rewrite list_lookup_fmap, lookup_total_Some. Qed.

Lemma all_valid_invalidate P p es : all_valid P es -> all_valid (fun e => P e /\ p e = false) (te_invalidate p <$> es).
Proof.
  intros H. apply Forall_fmap. eapply Forall_impl; [exact H|]. intros e He. cbn. rewrite te_invalidate_valid.
  intros Hv. to_prop. rewrite te_invalidate_keeps by done. auto.
Qed.

Lemma l2_wf_insert t vpn w e :
  l2_wf t -> (w < l2_ways t)%nat -> te_vpn e = vpn ->
  l2_wf (t <| l2_entries := <[(l2_base t vpn + w)%nat := e]> (l2_entries t) |>).
Proof.
  intros Hwf Hw Hv. pose proof (l2_slot_lt t vpn w Hwf Hw) as Hlt. destruct Hwf as (H0 & Hl & Hm & He).
  destruct Hm as (m & Hm & Hmask & Hlen). split_and!; [done|cbn; by rewrite length_insert| |].
  { exists m. cbn. by rewrite length_insert. }
  intros i e' Hi Hv'. cbn in Hi. apply list_lookup_insert_Some in Hi as [(<- & -> & _)|[_ Hi]].
  - exists w. split; [done|]. exact (f_equal (fun v => l2_base t v + w)%nat (eq_sym Hv)).
  - by apply He.
Qed.

Lemma l2_insert_wf t vpn ppn pte asid : l2_wf t -> l2_wf (l2_insert t vpn ppn pte asid).
Proof.
  intros Hwf. apply touch_lru_wf, l2_wf_insert; [done|by apply l2_choose_lt|done].
Qed.

Lemma l2_lookup_wf t vpn asid : l2_wf t -> l2_wf (l2_lookup t vpn asid).2.
Proof. intros Hwf. unfold l2_lookup. destruct (l2_find _ _ _); [by apply touch_lru_wf|done]. Qed.

Lemma tlb_insert_wf t vpn ppn pte asid : tlb_wf t -> tlb_wf (tlb_insert t vpn ppn pte asid).
Proof.
  intros Hwf. pose proof (tlb_index_lt t vpn Hwf) as Hlt. destruct Hwf as [(m & Hm & Hmask & Hl) He]. split.
  - exists m. cbn. by rewrite length_insert.
  - intros i e Hi Hv. cbn in Hi. apply list_lookup_insert_Some in Hi as [(<- & <- & _)|[_ Hi]]; [done|].
    by apply He.
Qed.

(** ** Flushes *)

(** A flush of one index or set is a flush of the whole TLB: no other entry can
    hold the page. *)
Lemma tlb_invalidate_at_all t vpn p :
  tlb_wf t -> (forall e, p e = true -> te_valid e = true /\ te_vpn e = vpn) ->
  tlb_entries (tlb_invalidate_at t vpn p) = te_invalidate p <$> tlb_entries t.
Proof.
  intros Hwf Hp. pose proof (tlb_index_lt t vpn Hwf) as Hlt. apply list_eq. intros i. cbn.
  rewrite list_lookup_fmap. destruct (decide (i = tlb_index t vpn)) as [->|Hne].
  - rewrite list_lookup_insert_eq by done. by rewrite (lookup_total_Some _ _ Hlt).
  - rewrite list_lookup_insert_ne by done. destruct (tlb_entries t !! i) as [e|] eqn:E; [|done]. simpl.
    rewrite te_invalidate_keeps; [done|]. destruct (p e) eqn:Ep; [|done]. apply Hp in Ep as [Hv <-].
    by destruct Hwf as [_ He], (Hne (eq_sym (He _ _ E Hv))).
Qed.

Lemma set_loop_spec p base n es i :
  (base + n <= length es)%nat ->
  foldl (fun es w => let idx := (base + w)%nat in <[idx := te_invalidate p (es !!! idx)]> es) es (seq 0 n) !! i =
  if decide (base <= i < base + n)%nat then te_invalidate p <$> (es !! i) else es !! i.
Proof.
  revert i. induction n as [|n IH]; intros i Hl; [by rewrite decide_False by lia|].
  rewrite seq_S, foldl_app, Nat.add_0_l. cbn [foldl]. set (es' := foldl _ _ _) in *.
  assert (length es' = length es) as Hl'.
  { unfold es'. clear. generalize (seq 0 n) as ws. intros ws. revert es.
    induction ws as [|w ws IH]; intros es; [done|]. simpl. by rewrite IH, length_insert. }
  assert (Hn : es' !! (base + n)%nat = es !! (base + n)%nat) by (rewrite IH by lia; by rewrite decide_False by lia).
  cbv zeta. destruct (decide (i = base + n)%nat) as [->|Hne].
  - rewrite list_lookup_insert_eq by lia. rewrite decide_True by lia.
    rewrite <-Hn, (lookup_total_Some es') by lia. done.
  - rewrite list_lookup_insert_ne by done. rewrite IH by lia. apply decide_ext. lia.
Qed.

Lemma l2_invalidate_set_all t vpn p :
  l2_wf t -> (forall e, p e = true -> te_valid e = true /\ te_vpn e = vpn) ->
  l2_entries (l2_invalidate_set t vpn p) = te_invalidate p <$> l2_entries t.
Proof.
  intros Hwf Hp. apply list_eq. intros i. cbn. rewrite set_loop_spec.
  2:{ pose proof (l2_slot_lt t vpn (l2_ways t - 1) Hwf). destruct Hwf as (H0 & _). lia. }
  rewrite list_lookup_fmap. case_decide as Hd; [done|].
  destruct (l2_entries t !! i) as [e|] eqn:E; [|done]. simpl. rewrite te_invalidate_keeps; [done|].
  destruct (p e) eqn:Ep; [|done]. apply Hp in Ep as [Hv <-]. destruct Hwf as (_ & _ & _ & He).
  destruct (He _ _ E Hv) as (w & Hw & ->). lia.
Qed.

Lemma hits_vpn_page vpn e : hits_vpn vpn e = true -> te_valid e = true /\ te_vpn e = vpn.
Proof. unfold hits_vpn. intros. by to_prop. Qed.
Lemma hits_vpn_asid_page vpn asid e : hits_vpn_asid vpn asid e = true -> te_valid e = true /\ te_vpn e = vpn.
Proof. unfold hits_vpn_asid. intros. by to_prop. Qed.

(** Selective flushes are exact in both TLBs although they look at one
    index or one set only: flushing a page invalidates every entry of that page
    and no other entry; flushing an address space, or a page of it, spares
    global entries and other address spaces. *)
Theorem tlb_flushes_exact (t : Tlb) (l2 : L2Tlb) (vpn asid : Z) :
  tlb_wf t -> l2_wf l2 ->
  tlb_entries (tlb_flush_vaddr t vpn) = te_invalidate (hits_vpn vpn) <$> tlb_entries t /\
  tlb_entries (tlb_flush_vaddr_asid t vpn asid) = te_invalidate (hits_vpn_asid vpn asid) <$> tlb_entries t /\
  l2_entries (l2_flush_vaddr l2 vpn) = te_invalidate (hits_vpn vpn) <$> l2_entries l2 /\
  l2_entries (l2_flush_vaddr_asid l2 vpn asid) = te_invalidate (hits_vpn_asid vpn asid) <$> l2_entries l2 /\
  (forall asid', tlb_lookup (tlb_flush_vaddr t vpn) vpn asid' = None) /\
  (forall asid', (l2_lookup (l2_flush_vaddr l2 vpn) vpn asid').1 = None).
Proof.
  intros Hwf Hl2. assert (Ha : tlb_entries (tlb_flush_vaddr t vpn) = te_invalidate (hits_vpn vpn) <$> tlb_entries t)
    by (apply tlb_invalidate_at_all; [done|apply hits_vpn_page]).
  assert (Hb : l2_entries (l2_flush_vaddr l2 vpn) = te_invalidate (hits_vpn vpn) <$> l2_entries l2)
    by (apply l2_invalidate_set_all; [done|apply hits_vpn_page]).
  assert (Hm : forall e a, te_matches (te_invalidate (hits_vpn vpn) e) vpn a = false).
  { intros e a. unfold te_invalidate. destruct (hits_vpn vpn e) eqn:E; [done|].
    unfold hits_vpn, te_matches in *. by rewrite E. }
  split_and!; [done| |done| | |].
  - apply tlb_invalidate_at_all; [done|apply hits_vpn_asid_page].
  - apply l2_invalidate_set_all; [done|apply hits_vpn_asid_page].
  - intros a. unfold tlb_lookup. rewrite Ha. change (tlb_index (tlb_flush_vaddr t vpn) vpn) with (tlb_index t vpn).
    rewrite entry_fmap by (by apply tlb_index_lt). by rewrite Hm.
  - intros a. unfold l2_lookup.
    pose proof (l2_find_spec (l2_flush_vaddr l2 vpn) vpn (fun e => te_matches e vpn a)) as H.
    destruct (l2_find _ _ _) as [w|]; [|done]. destruct H as (Hw & H & _). rewrite Hb in H.
    change (l2_base (l2_flush_vaddr l2 vpn) vpn) with (l2_base l2 vpn) in H.
    rewrite entry_fmap in H by (by apply l2_slot_lt). by rewrite Hm in H.
Qed.

(** ** Insertion and lookup *)

(** Rebuilding a page table entry from a TLB entry loses nothing the TLB holds. *)
Lemma reconstruct_pte_entry e :
  te_valid e = true -> te_of_pte (te_vpn e) (te_ppn e) (reconstruct_pte e) (te_asid e) = e.
Proof. destruct e as [v p b r w x u d a g]. cbn. intros ->. by destruct r, w, x, u, d, g. Qed.

Lemma l2_insert_entries t vpn ppn pte asid :
  l2_entries (l2_insert t vpn ppn pte asid) =
  <[(l2_base t vpn + l2_choose t vpn asid)%nat := te_of_pte vpn ppn pte asid]> (l2_entries t).
Proof. unfold l2_insert. by destruct (touch_lru_same (write_entry t (l2_base t vpn + l2_choose t vpn asid) vpn ppn pte asid)
  (l2_set t vpn) (l2_choose t vpn asid)) as [-> _]. Qed.

Lemma te_of_pte_matches vpn ppn pte asid asid' :
  te_matches (te_of_pte vpn ppn pte asid) vpn asid' = bit_at pte 5 || (asid =? asid').
Proof. unfold te_matches. simpl. by rewrite Z.eqb_refl. Qed.

(** After an insertion the chosen way is the first way of the set that matches. *)
Lemma l2_find_inserted t vpn ppn pte asid :
  l2_wf t -> l2_find (l2_insert t vpn ppn pte asid) vpn (fun e => te_matches e vpn asid) = Some (l2_choose t vpn asid).
Proof.
  intros Hwf. set (t' := l2_insert t vpn ppn pte asid). set (c := l2_choose t vpn asid).
  pose proof (l2_choose_lt t vpn asid Hwf) as Hc. fold c in Hc.
  assert (Hway : forall w, (w < l2_ways t)%nat -> l2_entries t' !!! (l2_base t vpn + w)%nat =
    if decide (w = c) then te_of_pte vpn ppn pte asid else l2_entries t !!! (l2_base t vpn + w)%nat).
  { intros w Hw. unfold t'. rewrite l2_insert_entries. fold c. case_decide as Hd.
    - subst w. apply list_lookup_total_insert_eq. by apply l2_slot_lt.
    - apply list_lookup_total_insert_ne. lia. }
  pose proof (l2_find_spec t' vpn (fun e => te_matches e vpn asid)) as H.
  change (l2_base t' vpn) with (l2_base t vpn) in H. change (l2_ways t') with (l2_ways t) in H.
  assert (Hm : te_matches (te_of_pte vpn ppn pte asid) vpn asid = true) by (by rewrite te_of_pte_matches, Z.eqb_refl, orb_true_r).
  destruct (l2_find t' _ _) as [w|].
  - destruct H as (Hw & Hmw & Hlt). f_equal. destruct (decide (w = c)) as [|Hne]; [done|exfalso].
    rewrite Hway, decide_False in Hmw by done. destruct (decide (c < w)%nat) as [Hcw|].
    { specialize (Hlt c Hcw). rewrite Hway, decide_True in Hlt by done. congruence. }
    unfold c, l2_choose in *. pose proof (l2_find_spec t vpn (fun e => te_matches e vpn asid)) as H.
    destruct (l2_find t vpn (fun e => te_matches e vpn asid)) as [w0|].
    + destruct H as (_ & _ & H). rewrite H in Hmw by lia. done.
    + rewrite H in Hmw by done. done.
  - specialize (H c Hc). rewrite Hway, decide_True in H by done. congruence.
Qed.

(** Lookup after insertion. The L1 TLB answers for the inserted page with
    the bits of the page table entry, in the inserting address space or in
    every one when the entry is global, forgets the page that shared the index
    and answers for every other page as before. The L2 TLB answers with the
    inserted frame and address space and a page table entry that makes the same
    TLB entry. *)
Theorem tlb_insert_lookup (t : Tlb) (l2 : L2Tlb) (vpn ppn pte asid : Z) :
  tlb_wf t -> l2_wf l2 ->
  (forall vpn' asid', tlb_lookup (tlb_insert t vpn ppn pte asid) vpn' asid' =
     if vpn' =? vpn then
       if bit_at pte 5 || (asid =? asid') then Some (te_hit (te_of_pte vpn ppn pte asid)) else None
     else if bool_decide (tlb_index t vpn' = tlb_index t vpn) then None else tlb_lookup t vpn' asid') /\
  exists pte', (l2_lookup (l2_insert l2 vpn ppn pte asid) vpn asid).1 = Some (ppn, pte', asid) /\
    te_of_pte vpn ppn pte' asid = te_of_pte vpn ppn pte asid.
Proof.
  intros Hwf Hl2. split.
  - intros v a. unfold tlb_lookup. change (tlb_index (tlb_insert t vpn ppn pte asid) v) with (tlb_index t v).
    change (tlb_entries (tlb_insert t vpn ppn pte asid)) with
      (<[tlb_index t vpn := te_of_pte vpn ppn pte asid]> (tlb_entries t)). cbv zeta. destruct (Z.eqb_spec v vpn) as [->|Hne].
    + rewrite list_lookup_total_insert_eq by (by apply tlb_index_lt). by rewrite te_of_pte_matches.
    + case_bool_decide as Hi; [|by rewrite list_lookup_total_insert_ne by done].
      rewrite Hi, list_lookup_total_insert_eq by (by apply tlb_index_lt). unfold te_matches. simpl.
      by rewrite (proj2 (Z.eqb_neq vpn v)) by congruence.
  - exists (reconstruct_pte (te_of_pte vpn ppn pte asid)). split; [|exact (reconstruct_pte_entry (te_of_pte vpn ppn pte asid) eq_refl)].
    unfold l2_lookup. rewrite l2_find_inserted by done. cbn [fst].
    change (l2_base (l2_insert l2 vpn ppn pte asid) vpn) with (l2_base l2 vpn).
    rewrite l2_insert_entries, list_lookup_total_insert_eq; [done|]. apply l2_slot_lt; [done|]. by apply l2_choose_lt.
Qed.

(** ** Well-formedness is preserved by flushes *)

Definition keeps_shape (f : TlbEntry -> TlbEntry) : Prop :=
  forall e, te_vpn (f e) = te_vpn e /\ (te_valid (f e) = true -> te_valid e = true).

Lemma te_invalidate_shape p : keeps_shape (te_invalidate p).
Proof. intros e. unfold te_invalidate. by destruct (p e). Qed.

Lemma l2_wf_map t t' f :
  l2_wf t -> keeps_shape f ->
  (l2_ways t' = l2_ways t /\ l2_set_mask t' = l2_set_mask t /\ l2_lru t' = l2_lru t) ->
  l2_entries t' = f <$> l2_entries t -> l2_wf t'.
Proof.
  intros (H0 & Hl & Hm & He) Hf (E1 & E2 & E3) E4. unfold l2_wf, l2_base, l2_set in *.
  rewrite E1, E2, E3, E4, !length_fmap. split_and!; [done|done|done|]. intros i e Hi Hv.
  rewrite list_lookup_fmap in Hi. destruct (l2_entries t !! i) as [e0|] eqn:E; [|done]. injection Hi as <-.
  destruct (Hf e0) as [-> Hv']. by apply He, Hv'.
Qed.

Lemma tlb_wf_map t t' f :
  tlb_wf t -> keeps_shape f -> tlb_mask t' = tlb_mask t -> tlb_entries t' = f <$> tlb_entries t -> tlb_wf t'.
Proof.
  intros [Hm He] Hf E1 E2. unfold tlb_wf, tlb_index in *. rewrite E1, E2, length_fmap. split; [done|]. intros i e Hi Hv.
  rewrite list_lookup_fmap in Hi. destruct (tlb_entries t !! i) as [e0|] eqn:E; [|done]. injection Hi as <-.
  destruct (Hf e0) as [-> Hv']. by apply He, Hv'.
Qed.

(** ** The L2 ages never leave zero *)

Inductive l2_op := L2Lookup (vpn asid : Z) | L2Insert (vpn ppn pte asid : Z) | L2Flush
| L2FlushVaddr (vpn : Z) | L2FlushAsid (asid : Z) | L2FlushVaddrAsid (vpn asid : Z).
Definition l2_exec (t : L2Tlb) (op : l2_op) : L2Tlb :=
  match op with
  | L2Lookup v a => (l2_lookup t v a).2
  | L2Insert v p pte a => l2_insert t v p pte a
  | L2Flush => l2_flush t
  | L2FlushVaddr v => l2_flush_vaddr t v
  | L2FlushAsid a => l2_flush_asid t a
  | L2FlushVaddrAsid v a => l2_flush_vaddr_asid t v a
  end.

Definition ages_zero (t : L2Tlb) : Prop := Forall (fun a => a = 0) (l2_lru t).

Lemma ages_zero_at t vpn w : l2_wf t -> ages_zero t -> (w < l2_ways t)%nat -> l2_lru t !!! (l2_base t vpn + w)%nat = 0.
Proof.
  intros Hwf H Hw. apply (Forall_at (fun a => a = 0)); [done|]. destruct (Hwf) as (_ & -> & _). by apply l2_slot_lt.
Qed.

Lemma touch_lru_ages t vpn w : l2_wf t -> ages_zero t -> (w < l2_ways t)%nat -> ages_zero (touch_lru t (l2_set t vpn) w).
Proof.
  intros Hwf H Hw. pose proof (ages_zero_at t vpn w Hwf H Hw) as Ha. unfold ages_zero, touch_lru. cbn.
  fold (l2_base t vpn). rewrite Ha. apply Forall_insert; [|done].
  enough (forall ws lru, Forall (fun w => w < l2_ways t)%nat ws -> length lru = length (l2_lru t) -> Forall (fun a => a = 0) lru ->
    Forall (fun a => a = 0) (foldl (fun lru w =>
      if lru !!! (l2_base t vpn + w)%nat <? 0 then <[(l2_base t vpn + w)%nat := u8 (lru !!! (l2_base t vpn + w)%nat + 1)]> lru
      else lru) lru ws)) as Hf.
  { apply Hf; [|done|done]. apply Forall_forall. intros v Hv%elem_of_seq. lia. }
  induction ws as [|w' ws IH]; intros lru Hws Hlen Hl; [done|]. apply Forall_cons in Hws as [Hw' Hws]. simpl.
  assert (lru !!! (l2_base t vpn + w')%nat = 0) as ->; [|by apply IH].
  apply (Forall_at (fun a => a = 0)); [done|]. rewrite Hlen. destruct (Hwf) as (_ & -> & _). by apply l2_slot_lt.
Qed.

Lemma l2_exec_inv t op : l2_wf t /\ ages_zero t -> l2_wf (l2_exec t op) /\ ages_zero (l2_exec t op).
Proof.
  intros [Hwf H]. destruct op; cbn [l2_exec].
  - split; [by apply l2_lookup_wf|]. unfold l2_lookup. pose proof (l2_find_spec t vpn (fun e => te_matches e vpn asid)) as Hf.
    destruct (l2_find _ _ _); [apply touch_lru_ages; [done|done|apply Hf]|done].
  - split; [by apply l2_insert_wf|]. unfold l2_insert. pose proof (l2_choose_lt t vpn asid Hwf) as Hc.
    apply (touch_lru_ages (write_entry t _ vpn ppn pte asid)); [by apply l2_wf_insert|done|done].
  - split; [|done]. by apply (l2_wf_map t _ (fun e => e <| te_valid := false |>)).
  - split; [|done]. apply (l2_wf_map t _ (te_invalidate (hits_vpn vpn))); [done|apply te_invalidate_shape|done|].
    by apply l2_invalidate_set_all; [|apply hits_vpn_page].
  - split; [|done]. by apply (l2_wf_map t _ (te_invalidate (hits_asid asid))); [|apply te_invalidate_shape|..].
  - split; [|done]. apply (l2_wf_map t _ (te_invalidate (hits_vpn_asid vpn asid))); [done|apply te_invalidate_shape|done|].
    by apply l2_invalidate_set_all; [|apply hits_vpn_asid_page].
Qed.

(** The L2 TLB's replacement state is inert: whatever lookups, insertions
    and flushes run, every age stays zero, so a full set always gives up way 0
    (an LRU policy would give up the way unused for longest). *)
Theorem l2_victim_is_way_zero (total : Z) (ways : nat) (lat : Z) (ops : list l2_op) (vpn : Z) :
  let t := foldl l2_exec (l2_new total ways lat) ops in
  Forall (fun a => a = 0) (l2_lru t) /\ lru_victim t (l2_set t vpn) = 0%nat.
Proof.
  intros t. assert (l2_wf t /\ ages_zero t) as [Hwf H].
  { assert (l2_wf (l2_new total ways lat) /\ ages_zero (l2_new total ways lat)) as H0
      by (split; [apply l2_new_wf|by apply Forall_replicate]).
    unfold t. revert H0. generalize (l2_new total ways lat) as s. induction ops as [|op ops IH]; intros s H0; [done|].
    by apply IH, l2_exec_inv. }
  split; [done|]. unfold lru_victim. fold (l2_base t vpn).
  enough (forall ws, Forall (fun w => w < l2_ways t)%nat ws -> foldl (fun '(max_age, victim) w =>
    if max_age <? l2_lru t !!! (l2_base t vpn + w)%nat then (l2_lru t !!! (l2_base t vpn + w)%nat, w)
    else (max_age, victim)) (0, 0%nat) ws = (0, 0%nat)) as Hf.
  { rewrite Hf; [done|]. apply Forall_forall. intros w Hw%elem_of_seq. lia. }
  induction ws as [|w ws IH]; intros Hws; [done|]. apply Forall_cons in Hws as [Hw Hws]. simpl.
  rewrite (ages_zero_at t vpn w Hwf H Hw). by apply IH.
Qed.

(** ** Witnesses *)

Definition demo_tlb : Tlb := tlb_insert (tlb_insert (tlb_new 16) 0x12345 0x80001 0xCF 1) 0x12346 0x80002 0x2F 2.
Definition demo_l2 : L2Tlb := l2_insert (l2_insert (l2_new 8 2 4) 0x12345 0x80001 0xCF 1) 0x12346 0x80002 0x2F 2.

Lemma demo_tlb_wf : tlb_wf demo_tlb.
Proof. apply tlb_insert_wf, tlb_insert_wf, tlb_new_wf. Qed.
Lemma demo_l2_wf : l2_wf demo_l2.
Proof. apply l2_insert_wf, l2_insert_wf, l2_new_wf. Qed.

Lemma tlb_flushes_exact_witness :
  tlb_lookup demo_tlb 0x12346 7 <> None /\ tlb_lookup (tlb_flush_vaddr demo_tlb 0x12346) 0x12346 7 = None.
Proof.
  split; [by vm_compute|].
  apply (tlb_flushes_exact demo_tlb demo_l2 0x12346 0 demo_tlb_wf demo_l2_wf).
Defined.

Lemma tlb_insert_lookup_witness :
  tlb_lookup (tlb_insert demo_tlb 0x22345 0x80003 0xCF 1) 0x12345 1 = None.
Proof.
  refine (eq_trans (proj1 (tlb_insert_lookup demo_tlb demo_l2 0x22345 0x80003 0xCF 1 demo_tlb_wf demo_l2_wf) 0x12345 1) _).
  by vm_compute.
Defined.
