(* ===== verification/Csr.v ===== *)
(** Control and status registers: addresses, fields and the register file
    ([core/arch/csr.rs]). *)
From S2P Require Import Prelude Common.

Set Primitive Projections.
Local Open Scope Z_scope.

(** ** Addresses *)

Definition CSR_FFLAGS : Z := 0x001.
Definition CSR_FRM : Z := 0x002.
Definition CSR_FCSR : Z := 0x003.
Definition CSR_MVENDORID : Z := 0xF11.
Definition CSR_MARCHID : Z := 0xF12.
Definition CSR_MIMPID : Z := 0xF13.
Definition CSR_MHARTID : Z := 0xF14.
Definition CSR_MSTATUS : Z := 0x300.
Definition CSR_MISA : Z := 0x301.
Definition CSR_MEDELEG : Z := 0x302.
Definition CSR_MIDELEG : Z := 0x303.
Definition CSR_MIE : Z := 0x304.
Definition CSR_MTVEC : Z := 0x305.
Definition CSR_MCOUNTEREN : Z := 0x306.
Definition CSR_MENVCFG : Z := 0x30A.
Definition CSR_MSCRATCH : Z := 0x340.
Definition CSR_MEPC : Z := 0x341.
Definition CSR_MCAUSE : Z := 0x342.
Definition CSR_MTVAL : Z := 0x343.
Definition CSR_MIP : Z := 0x344.
Definition CSR_SSTATUS : Z := 0x100.
Definition CSR_SIE : Z := 0x104.
Definition CSR_STVEC : Z := 0x105.
Definition CSR_SCOUNTEREN : Z := 0x106.
Definition CSR_SSCRATCH : Z := 0x140.
Definition CSR_SEPC : Z := 0x141.
Definition CSR_SCAUSE : Z := 0x142.
Definition CSR_STVAL : Z := 0x143.
Definition CSR_SIP : Z := 0x144.
Definition CSR_SATP : Z := 0x180.
Definition CSR_STIMECMP : Z := 0x14D.
Definition CSR_CYCLE : Z := 0xC00.
Definition CSR_TIME : Z := 0xC01.
Definition CSR_INSTRET : Z := 0xC02.
Definition CSR_MCYCLE : Z := 0xB00.
Definition CSR_MINSTRET : Z := 0xB02.
Definition CSR_SIM_PANIC : Z := 0x8FF.

(** ** Fields *)

Definition MENVCFG_STCE : Z := 2 ^ 63.
Definition MSTATUS_UIE : Z := 2 ^ 0.
Definition MSTATUS_SIE : Z := 2 ^ 1.
Definition MSTATUS_MIE : Z := 2 ^ 3.
Definition MIE_USIP : Z := 2 ^ 0.
Definition MIE_SSIP : Z := 2 ^ 1.
Definition MIE_MSIP : Z := 2 ^ 3.
Definition MIE_UTIE : Z := 2 ^ 4.
Definition MIE_STIE : Z := 2 ^ 5.
Definition MIE_MTIE : Z := 2 ^ 7.
Definition MIE_UEIP : Z := 2 ^ 8.
Definition MIE_SEIP : Z := 2 ^ 9.
Definition MIE_MEIP : Z := 2 ^ 11.
Definition MIP_USIP : Z := 2 ^ 0.
Definition MIP_SSIP : Z := 2 ^ 1.
Definition MIP_MSIP : Z := 2 ^ 3.
Definition MIP_UTIP : Z := 2 ^ 4.
Definition MIP_STIP : Z := 2 ^ 5.
Definition MIP_MTIP : Z := 2 ^ 7.
Definition MIP_UEIP : Z := 2 ^ 8.
Definition MIP_SEIP : Z := 2 ^ 9.
Definition MIP_MEIP : Z := 2 ^ 11.
Definition MSTATUS_SPIE : Z := 2 ^ 5.
Definition MSTATUS_MPIE : Z := 2 ^ 7.
Definition MSTATUS_SPP : Z := 2 ^ 8.
Definition MSTATUS_MPP : Z := 3 * 2 ^ 11.
Definition MSTATUS_MPP_SHIFT : Z := 11.
Definition MSTATUS_MPP_MASK : Z := 3.
Definition MSTATUS_FS : Z := 3 * 2 ^ 13.
Definition MSTATUS_FS_OFF : Z := 0.
Definition MSTATUS_FS_INIT : Z := 2 ^ 13.
Definition MSTATUS_FS_CLEAN : Z := 2 * 2 ^ 13.
Definition MSTATUS_FS_DIRTY : Z := 3 * 2 ^ 13.
Definition MSTATUS_SD : Z := 2 ^ 63.
Definition MSTATUS_MPRV : Z := 2 ^ 17.
Definition MSTATUS_SUM : Z := 2 ^ 18.
Definition MSTATUS_MXR : Z := 2 ^ 19.
Definition MSTATUS_TVM : Z := 2 ^ 20.
Definition MSTATUS_TW : Z := 2 ^ 21.
Definition MSTATUS_TSR : Z := 2 ^ 22.
Definition MSTATUS_UXL : Z := 3 * 2 ^ 32.
Definition MSTATUS_SXL : Z := 3 * 2 ^ 34.
Definition SATP_MODE_SHIFT : Z := 60.
Definition SATP_MODE_BARE : Z := 0.
Definition SATP_MODE_SV39 : Z := 8.
Definition SATP_MODE_MASK : Z := 0xF.
Definition SATP_PPN_MASK : Z := 0xFFFFFFFFFFF.
Definition SATP_ASID_SHIFT : Z := 44.
Definition SATP_ASID_MASK : Z := 0xFFFF.
Definition MISA_EXT_A : Z := 2 ^ 0.
Definition MISA_EXT_C : Z := 2 ^ 2.
Definition MISA_EXT_D : Z := 2 ^ 3.
Definition MISA_EXT_F : Z := 2 ^ 5.
Definition MISA_EXT_I : Z := 2 ^ 8.
Definition MISA_EXT_M : Z := 2 ^ 12.
Definition MISA_EXT_S : Z := 2 ^ 18.
Definition MISA_EXT_U : Z := 2 ^ 20.
Definition MISA_XLEN_32 : Z := 2 ^ 62.
Definition MISA_XLEN_64 : Z := 2 * 2 ^ 62.
Definition MISA_XLEN_128 : Z := 3 * 2 ^ 62.
Definition MSTATUS_DEFAULT_RV64 : Z := 0xa00000000.
Definition MISA_DEFAULT_RV64IMAFDC : Z := 0x800000000014112D.

(** ** Serialization *)

Inductive CsrSerializationType := FenceRequired | Serializing | Relaxed.
Definition csr_serialization_type (x : Z) : CsrSerializationType :=
  if x =? CSR_SATP then FenceRequired
  else if (x =? CSR_MSTATUS) || (x =? CSR_SSTATUS) || (x =? CSR_MTVEC) || (x =? CSR_STVEC)
       || (x =? CSR_MEDELEG) || (x =? CSR_MIDELEG) then Serializing
  else Relaxed.

(** ** The register file *)

Record Csrs := {
  mstatus : Z;
  misa : Z;
  medeleg : Z;
  mideleg : Z;
  mie : Z;
  mtvec : Z;
  mscratch : Z;
  mepc : Z;
  mcause : Z;
  mtval : Z;
  mip : Z;
  sstatus : Z;
  sie : Z;
  stvec : Z;
  sscratch : Z;
  sepc : Z;
  scause : Z;
  stval : Z;
  sip : Z;
  satp : Z;
  cycle : Z;
  time : Z;
  instret : Z;
  mcycle : Z;
  minstret : Z;
  stimecmp : Z;
  fflags : Z;
  frm : Z;
  mcounteren : Z;
  scounteren : Z;
  menvcfg : Z
}.
Definition Csrs_default : Csrs := {|
  mstatus := 0; misa := 0; medeleg := 0; mideleg := 0; mie := 0; mtvec := 0; mscratch := 0; mepc := 0; mcause := 0; mtval := 0; mip := 0; sstatus := 0; sie := 0; stvec := 0; sscratch := 0; sepc := 0; scause := 0; stval := 0; sip := 0; satp := 0; cycle := 0; time := 0; instret := 0; mcycle := 0; minstret := 0; stimecmp := 0; fflags := 0; frm := 0; mcounteren := 0; scounteren := 0; menvcfg := 0 |}.

(** [csrs.mstatus & !SD] with SD recomputed from FS. *)
Definition status_read (status : Z) : Z :=
  let val := Z.land status (not64 MSTATUS_SD) in
  if Z.land val MSTATUS_FS =? MSTATUS_FS_DIRTY then Z.lor val MSTATUS_SD else val.
Definition fcsr_read (self : Csrs) : Z :=
  Z.lor (Z.shiftl (Z.land (frm self) 0x7) 5) (Z.land (fflags self) 0x1F).

Definition csrs_read (self : Csrs) (x : Z) : Z :=
  if x =? CSR_FFLAGS then Z.land (fflags self) 0x1F
  else if x =? CSR_FRM then Z.land (frm self) 0x7
  else if x =? CSR_FCSR then fcsr_read self
  else if x =? CSR_MSTATUS then status_read (mstatus self)
  else if x =? CSR_MISA then misa self
  else if x =? CSR_MEDELEG then medeleg self
  else if x =? CSR_MIDELEG then mideleg self
  else if x =? CSR_MIE then mie self
  else if x =? CSR_MTVEC then mtvec self
  else if x =? CSR_MSCRATCH then mscratch self
  else if x =? CSR_MEPC then mepc self
  else if x =? CSR_MCAUSE then mcause self
  else if x =? CSR_MTVAL then mtval self
  else if x =? CSR_MIP then mip self
  else if x =? CSR_SSTATUS then status_read (sstatus self)
  else if x =? CSR_SIE then sie self
  else if x =? CSR_STVEC then stvec self
  else if x =? CSR_SSCRATCH then sscratch self
  else if x =? CSR_SEPC then sepc self
  else if x =? CSR_SCAUSE then scause self
  else if x =? CSR_STVAL then stval self
  else if x =? CSR_SIP then sip self
  else if x =? CSR_SATP then satp self
  else if x =? CSR_CYCLE then cycle self
  else if x =? CSR_TIME then time self
  else if x =? CSR_INSTRET then instret self
  else if x =? CSR_MCYCLE then mcycle self
  else if x =? CSR_MINSTRET then minstret self
  else if x =? CSR_MCOUNTEREN then mcounteren self
  else if x =? CSR_SCOUNTEREN then scounteren self
  else if x =? CSR_MENVCFG then menvcfg self
  else 0.

(** The WARL mode field of [satp]: anything but SV39 becomes BARE. *)
Definition satp_warl (val : Z) : Z :=
  let mode := Z.land (Z.shiftr val SATP_MODE_SHIFT) SATP_MODE_MASK in
  let new_mode := if mode =? SATP_MODE_SV39 then SATP_MODE_SV39 else SATP_MODE_BARE in
  let mask := not64 (shl64 SATP_MODE_MASK SATP_MODE_SHIFT) in
  Z.lor (Z.land val mask) (shl64 new_mode SATP_MODE_SHIFT).

Definition csrs_write (self : Csrs) (x : Z) (val : Z) : Csrs :=
  if x =? CSR_FFLAGS then self <| fflags := Z.land val 0x1F |>
  else if x =? CSR_FRM then self <| frm := Z.land val 0x7 |>
  else if x =? CSR_FCSR then self <| fflags := Z.land val 0x1F |> <| frm := Z.land (Z.shiftr val 5) 0x7 |>
  else if x =? CSR_MSTATUS then self <| mstatus := val |>
  else if x =? CSR_MISA then self <| misa := val |>
  else if x =? CSR_MEDELEG then self <| medeleg := val |>
  else if x =? CSR_MIDELEG then self <| mideleg := val |>
  else if x =? CSR_MIE then self <| mie := val |>
  else if x =? CSR_MTVEC then self <| mtvec := val |>
  else if x =? CSR_MSCRATCH then self <| mscratch := val |>
  else if x =? CSR_MEPC then self <| mepc := val |>
  else if x =? CSR_MCAUSE then self <| mcause := val |>
  else if x =? CSR_MTVAL then self <| mtval := val |>
  else if x =? CSR_MIP then self <| mip := val |>
  else if x =? CSR_SSTATUS then self <| sstatus := val |>
  else if x =? CSR_SIE then self <| sie := val |>
  else if x =? CSR_STVEC then self <| stvec := val |>
  else if x =? CSR_SSCRATCH then self <| sscratch := val |>
  else if x =? CSR_SEPC then self <| sepc := val |>
  else if x =? CSR_SCAUSE then self <| scause := val |>
  else if x =? CSR_STVAL then self <| stval := val |>
  else if x =? CSR_SIP then self <| sip := val |>
  else if x =? CSR_SATP then self <| satp := satp_warl val |>
  else if x =? CSR_CYCLE then self <| cycle := val |>
  else if x =? CSR_TIME then self <| time := val |>
  else if x =? CSR_INSTRET then self <| instret := val |>
  else if x =? CSR_MCYCLE then self <| mcycle := val |>
  else if x =? CSR_MINSTRET then self <| minstret := val |>
  else if x =? CSR_MCOUNTEREN then self <| mcounteren := val |>
  else if x =? CSR_SCOUNTEREN then self <| scounteren := val |>
  else self.
