(* ===== verification/Mmu.v ===== *)
(** The memory management unit: the page table walker
    ([core/units/mmu/ptw.rs]) and translation through the TLBs
    ([core/units/mmu/mod.rs]). *)
From S2P Require Import Prelude Common Csr Pmp Tlb.

Set Primitive Projections.
Local Open Scope Z_scope.

(** ** The bus, as the walker uses it *)

Class Bus (B : Type) := {
  bus_read_u64 : B -> Z -> Z * B;
  bus_transit_time : B -> Z -> Z
}.

(** ** Page table entries *)

Definition PTE_VALID_BIT : Z := 1.
Definition PTE_READ_BIT : Z := 2.
Definition PTE_WRITE_BIT : Z := 4.
Definition PTE_EXEC_BIT : Z := 8.
Definition PTE_USER_BIT : Z := 16.
Definition PTE_ACCESSED_BIT : Z := 64.
Definition PTE_DIRTY_BIT : Z := 128.
Definition PTE_PPN_SHIFT : Z := 10.

Definition pte_is_valid (pte : Z) : bool := has_bits pte PTE_VALID_BIT.
Definition pte_can_read (pte : Z) : bool := has_bits pte PTE_READ_BIT.
Definition pte_can_write (pte : Z) : bool := has_bits pte PTE_WRITE_BIT.
Definition pte_can_exec (pte : Z) : bool := has_bits pte PTE_EXEC_BIT.
Definition pte_is_user (pte : Z) : bool := has_bits pte PTE_USER_BIT.
Definition pte_is_accessed (pte : Z) : bool := has_bits pte PTE_ACCESSED_BIT.
Definition pte_is_dirty (pte : Z) : bool := has_bits pte PTE_DIRTY_BIT.
Definition pte_ppn_raw (pte : Z) : Z := Z.land (Z.shiftr pte PTE_PPN_SHIFT) SATP_PPN_MASK.
Definition pte_is_pointer (pte : Z) : bool := negb (pte_can_read pte) && negb (pte_can_write pte) && negb (pte_can_exec pte).
Definition pte_with_accessed (pte : Z) : Z := Z.lor pte PTE_ACCESSED_BIT.
Definition pte_with_dirty (pte : Z) : Z := Z.lor pte PTE_DIRTY_BIT.

Definition page_fault (addr : Z) (access : AccessType) : Trap :=
  match access with
  | Fetch => InstructionPageFault addr | Read => LoadPageFault addr | Write => StorePageFault addr end.
Definition access_fault (addr : Z) (access : AccessType) : Trap :=
  match access with
  | Fetch => InstructionAccessFault addr | Read => LoadAccessFault addr | Write => StoreAccessFault addr end.

Definition SSTATUS_MXR_SHIFT : Z := 19.
Definition SSTATUS_SUM_SHIFT : Z := 18.

(** [true] for the code's [Ok]. *)
Definition check_permissions (pte : Z) (access : AccessType) (privilege : PrivilegeMode) (csrs : Csrs) : bool :=
  if bool_decide (access = Write) && negb (pte_can_write pte) then false else
  if bool_decide (access = Fetch) && negb (pte_can_exec pte) then false else
  let mxr := bit_at (sstatus csrs) SSTATUS_MXR_SHIFT in
  if bool_decide (access = Read) && negb (pte_can_read pte || (pte_can_exec pte && mxr)) then false else
  if bool_decide (privilege = User) && negb (pte_is_user pte) then false else
  if bool_decide (privilege = Supervisor) && pte_is_user pte then
    let sum := bit_at (sstatus csrs) SSTATUS_SUM_SHIFT in
    if negb sum then false else
    if bool_decide (access = Fetch) then false else true
  else true.

Definition update_access_bits (pte : Z) (access : AccessType) : Z * bool :=
  let need_accessed := negb (pte_is_accessed pte) in
  let need_dirty := bool_decide (access = Write) && negb (pte_is_dirty pte) in
  let new_pte := if need_accessed then pte_with_accessed pte else pte in
  let new_pte := if need_dirty then pte_with_dirty new_pte else new_pte in
  (new_pte, need_accessed || need_dirty).

(** ** The MMU *)

Record Mmu := { dtlb : Tlb; itlb : Tlb; l2_tlb : L2Tlb; software_ad_bits : bool }.

Definition mmu_new (tlb_size l2_size : Z) (l2_ways : nat) (l2_latency : Z) (software_ad_bits : bool) : Mmu :=
  {| dtlb := tlb_new tlb_size; itlb := tlb_new tlb_size; l2_tlb := l2_new l2_size l2_ways l2_latency;
     software_ad_bits := software_ad_bits |}.

Definition satp_asid (satp : Z) : Z := Z.land (Z.shiftr satp SATP_ASID_SHIFT) SATP_ASID_MASK.
Definition satp_mode (satp : Z) : Z := Z.land (Z.shiftr satp SATP_MODE_SHIFT) SATP_MODE_MASK.
Definition va_vpn (va : Z) : Z := Z.land (Z.shiftr va PAGE_SHIFT) VPN_MASK.

(** Insertion in the L1 TLB of the access type. *)
Definition mmu_insert_l1 (mmu : Mmu) (access : AccessType) (vpn ppn pte asid : Z) : Mmu :=
  if bool_decide (access = Fetch) then mmu <| itlb := tlb_insert (itlb mmu) vpn ppn pte asid |>
  else mmu <| dtlb := tlb_insert (dtlb mmu) vpn ppn pte asid |>.

Section Walk.
Context {B : Type} `{!Bus B}.

(** The tail of the walk, at a leaf that has passed every check. *)
Definition walk_leaf (mmu : Mmu) (va : Z) (access : AccessType) (asid vpn_shift pte_addr pte cycles : Z)
    : TranslationResult * Mmu :=
  let '(new_pte, updated) := update_access_bits pte access in
  let cycles := if updated then add64 cycles 10 else cycles in
  let offset_mask := sub64 (shl64 1 vpn_shift) 1 in
  let final_paddr := Z.lor (page_to_addr (pte_ppn_raw pte)) (Z.land va offset_mask) in
  let specific_4kb_ppn := Z.shiftr final_paddr PAGE_SHIFT in
  let vpn := va_vpn va in
  let mmu := mmu_insert_l1 mmu access vpn specific_4kb_ppn pte asid in
  let mmu := mmu <| l2_tlb := l2_insert (l2_tlb mmu) vpn specific_4kb_ppn pte asid |> in
  (if updated
   then tr_success_with_pte_update final_paddr cycles {| pte_addr := pte_addr; pte_value := new_pte |}
   else tr_success final_paddr cycles, mmu).

(** The loop of [page_table_walk_inner] over the remaining levels. *)
Fixpoint walk_levels (mmu : Mmu) (bus : B) (va : Z) (access : AccessType) (privilege : PrivilegeMode)
    (csrs : Csrs) (pmp : option Pmp) (asid : Z) (levels : list nat) (ppn_raw cycles : Z)
    : TranslationResult * Mmu * B :=
  match levels with
  | [] => (tr_fault (page_fault va access) cycles, mmu, bus)
  | level :: levels =>
      let vpn_shift := PAGE_SHIFT + Z.of_nat level * 9 in
      let vpn_i := Z.land (Z.shiftr va vpn_shift) 0x1FF in
      let pte_addr := add64 (shl64 ppn_raw PAGE_SHIFT) (vpn_i * 8) in
      if match pmp with
         | Some pmp => negb (bool_decide (pmp_check pmp pte_addr 8 true false false false = PmpAllow))
         | None => false
         end
      then (tr_fault (access_fault va access) cycles, mmu, bus) else
      let cycles := add64 cycles (bus_transit_time bus 8) in
      let '(pte, bus) := bus_read_u64 bus pte_addr in
      if negb (pte_is_valid pte) then (tr_fault (page_fault va access) cycles, mmu, bus) else
      if pte_is_pointer pte then
        if (level =? 0)%nat then (tr_fault (page_fault va access) cycles, mmu, bus)
        else walk_levels mmu bus va access privilege csrs pmp asid levels (pte_ppn_raw pte) cycles
      else
      if pte_can_write pte && negb (pte_can_read pte) then (tr_fault (page_fault va access) cycles, mmu, bus) else
      if (0 <? level)%nat && negb (Z.land (pte_ppn_raw pte) (Z.shiftl 1 (Z.of_nat level * 9) - 1) =? 0)
      then (tr_fault (page_fault va access) cycles, mmu, bus) else
      if negb (check_permissions pte access privilege csrs) then (tr_fault (page_fault va access) cycles, mmu, bus) else
      if software_ad_bits mmu && (negb (pte_is_accessed pte)
                                  || (bool_decide (access = Write) && negb (pte_is_dirty pte)))
      then (tr_fault (page_fault va access) cycles, mmu, bus) else
      let '(result, mmu) := walk_leaf mmu va access asid vpn_shift pte_addr pte cycles in
      (result, mmu, bus)
  end.

Definition page_table_walk_inner (mmu : Mmu) (va : Z) (access : AccessType) (privilege : PrivilegeMode)
    (csrs : Csrs) (bus : B) (pmp : option Pmp) : TranslationResult * Mmu * B :=
  walk_levels mmu bus va access privilege csrs pmp (satp_asid (satp csrs)) [2; 1; 0]%nat
    (Z.land (satp csrs) SATP_PPN_MASK) 0.
Definition page_table_walk mmu va access privilege csrs bus := page_table_walk_inner mmu va access privilege csrs bus None.
Definition page_table_walk_with_pmp mmu va access privilege csrs bus pmp :=
  page_table_walk_inner mmu va access privilege csrs bus (Some pmp).

(** The permission checks of the two TLB hit paths; [None] when they pass. *)
Definition hit_fault (va : Z) (access : AccessType) (privilege : PrivilegeMode) (csrs : Csrs)
    (r w x u : bool) : option Trap :=
  if bool_decide (access = Write) && negb w then Some (StorePageFault va) else
  if bool_decide (access = Fetch) && negb x then Some (InstructionPageFault va) else
  if bool_decide (access = Read) && negb (r || (x && bit_at (sstatus csrs) SSTATUS_MXR_SHIFT)) then Some (LoadPageFault va) else
  if bool_decide (privilege = User) && negb u then Some (page_fault va access) else
  if bool_decide (privilege = Supervisor) && u then
    if negb (bit_at (sstatus csrs) SSTATUS_SUM_SHIFT) then Some (page_fault va access) else
    if bool_decide (access = Fetch) then Some (InstructionPageFault va) else None
  else None.

Definition canonical (va : Z) : bool :=
  let bit_38 := Z.land (Z.shiftr va 38) 1 in
  Z.shiftr va 39 =? (if bit_38 =? 1 then 0x1FFFFFF else 0).

(** The walk after a miss in both TLBs. *)
Definition translate_walk (mmu : Mmu) (va : Z) (access : AccessType) (privilege : PrivilegeMode)
    (csrs : Csrs) (bus : B) (pmp : option Pmp) : TranslationResult * Mmu * B :=
  match pmp with
  | Some pmp => page_table_walk_with_pmp mmu va access privilege csrs bus pmp
  | None => page_table_walk mmu va access privilege csrs bus
  end.

(** The L2 lookup after an L1 miss. *)
Definition translate_l2 (mmu : Mmu) (va : Z) (access : AccessType) (privilege : PrivilegeMode)
    (csrs : Csrs) (bus : B) (pmp : option Pmp) : TranslationResult * Mmu * B :=
  let vpn := va_vpn va in
  let lat := l2_latency (l2_tlb mmu) in
  let '(found, l2) := l2_lookup (l2_tlb mmu) vpn (satp_asid (satp csrs)) in
  let mmu := mmu <| l2_tlb := l2 |> in
  match found with
  | Some (ppn, pte_bits, entry_asid) =>
      if bool_decide (access = Write) && negb (bit_at pte_bits 7)
      then translate_walk mmu va access privilege csrs bus pmp
      else match hit_fault va access privilege csrs (bit_at pte_bits 1) (bit_at pte_bits 2) (bit_at pte_bits 3) (bit_at pte_bits 4) with
           | Some trap => (tr_fault trap lat, mmu, bus)
           | None => (tr_success (Z.lor (page_to_addr ppn) (page_offset va)) lat,
                      mmu_insert_l1 mmu access vpn ppn pte_bits entry_asid, bus)
           end
  | None => translate_walk mmu va access privilege csrs bus pmp
  end.

Definition translate_with_pmp (mmu : Mmu) (va : Z) (access : AccessType) (privilege : PrivilegeMode)
    (csrs : Csrs) (bus : B) (pmp : option Pmp) : TranslationResult * Mmu * B :=
  let mode := satp_mode (satp csrs) in
  if bool_decide (privilege = Machine) || (mode =? SATP_MODE_BARE) then (tr_success va 0, mmu, bus) else
  if negb (mode =? SATP_MODE_SV39) then (tr_fault (InstructionAccessFault va) 0, mmu, bus) else
  if negb (canonical va) then (tr_fault (page_fault va access) 0, mmu, bus) else
  let vpn := va_vpn va in
  let asid := satp_asid (satp csrs) in
  match (if bool_decide (access = Fetch) then tlb_lookup (itlb mmu) vpn asid else tlb_lookup (dtlb mmu) vpn asid) with
  | Some hit =>
      if bool_decide (access = Write) && negb (th_d hit)
      then translate_l2 (mmu <| dtlb := tlb_invalidate (dtlb mmu) vpn |>) va access privilege csrs bus pmp
      else match hit_fault va access privilege csrs (th_r hit) (th_w hit) (th_x hit) (th_u hit) with
           | Some trap => (tr_fault trap 0, mmu, bus)
           | None => (tr_success (Z.lor (page_to_addr (th_ppn hit)) (page_offset va)) 0, mmu, bus)
           end
  | None => translate_l2 mmu va access privilege csrs bus pmp
  end.
Definition translate mmu va access privilege csrs bus := translate_with_pmp mmu va access privilege csrs bus None.

End Walk.
