(* ===== verification/MmuSpec.v ===== *)
(** Translation refines the SV39 algorithm of the privileged specification:
    with coherent TLBs the MMU answers what a walk of the page tables answers. *)
From S2P Require Import Prelude Common Csr Pmp Tlb Mmu.

Set Primitive Projections.
Local Open Scope Z_scope.

(** ** The SV39 algorithm *)

Inductive walk_result := WalkLeaf (level : nat) (pte pte_addr : Z) | WalkPageFault | WalkAccessFault.

Definition V (pte : Z) : bool := Z.testbit pte 0.
Definition R (pte : Z) : bool := Z.testbit pte 1.
Definition W (pte : Z) : bool := Z.testbit pte 2.
Definition X (pte : Z) : bool := Z.testbit pte 3.
Definition U (pte : Z) : bool := Z.testbit pte 4.
Definition G (pte : Z) : bool := Z.testbit pte 5.
Definition A (pte : Z) : bool := Z.testbit pte 6.
Definition D (pte : Z) : bool := Z.testbit pte 7.
(** Bits 53:10. *)
Definition pte_ppn (pte : Z) : Z := pte / 2 ^ 10 mod 2 ^ 44.
(** [vpn[level]] *)
Definition vpn_index (vpn : Z) (level : nat) : Z := vpn / 512 ^ Z.of_nat level mod 512.
Definition pte_address (table vpn : Z) (level : nat) : Z := table * 4096 + vpn_index vpn level * 8.

(** [walks mem ok vpn level table r]: the walk of [vpn] from the page table at
    frame [table] ends in [r]; [ok] says which addresses the PMP lets it read. *)
Inductive walks (mem : Z -> Z) (ok : Z -> bool) (vpn : Z) : nat -> Z -> walk_result -> Prop :=
| walks_denied level table :
    ok (pte_address table vpn level) = false -> walks mem ok vpn level table WalkAccessFault
| walks_invalid level table pte :
    ok (pte_address table vpn level) = true -> pte = mem (pte_address table vpn level) ->
    V pte = false \/ (R pte = false /\ W pte = true) -> walks mem ok vpn level table WalkPageFault
| walks_pointer level table pte r :
    ok (pte_address table vpn (S level)) = true -> pte = mem (pte_address table vpn (S level)) ->
    V pte = true -> R pte = false -> W pte = false -> X pte = false ->
    walks mem ok vpn level (pte_ppn pte) r -> walks mem ok vpn (S level) table r
| walks_no_leaf table pte :
    ok (pte_address table vpn 0) = true -> pte = mem (pte_address table vpn 0) ->
    V pte = true -> R pte = false -> W pte = false -> X pte = false -> walks mem ok vpn 0 table WalkPageFault
| walks_misaligned level table pte :
    ok (pte_address table vpn level) = true -> pte = mem (pte_address table vpn level) ->
    V pte = true -> (W pte = true -> R pte = true) -> R pte = true \/ X pte = true ->
    pte_ppn pte mod 512 ^ Z.of_nat level <> 0 -> walks mem ok vpn level table WalkPageFault
| walks_leaf level table pte :
    ok (pte_address table vpn level) = true -> pte = mem (pte_address table vpn level) ->
    V pte = true -> (W pte = true -> R pte = true) -> R pte = true \/ X pte = true ->
    pte_ppn pte mod 512 ^ Z.of_nat level = 0 ->
    walks mem ok vpn level table (WalkLeaf level pte (pte_address table vpn level)).

(** The access is permitted by the leaf's bits, [mxr] and [sum]. *)
Definition permits (pte : Z) (access : AccessType) (privilege : PrivilegeMode) (mxr sum : bool) : bool :=
  match access with
  | Write => W pte | Fetch => X pte | Read => R pte || (X pte && mxr)
  end &&
  match privilege with
  | User => U pte
  | Supervisor => negb (U pte) || (sum && negb (bool_decide (access = Fetch)))
  | Machine => true
  end.

(** The frame of the 4 KiB page of [vpn] under a leaf at [level]. *)
Definition leaf_frame (vpn : Z) (level : nat) (pte : Z) : Z := pte_ppn pte + vpn mod 512 ^ Z.of_nat level.

(** What a translation answers: a trap or a physical address. *)
Definition leaf_answer (sw : bool) (vpn va : Z) (access : AccessType) (privilege : PrivilegeMode) (mxr sum : bool)
    (level : nat) (pte : Z) : Trap + Z :=
  if negb (permits pte access privilege mxr sum) then inl (page_fault va access)
  else if sw && (negb (A pte) || (bool_decide (access = Write) && negb (D pte))) then inl (page_fault va access)
  else inr (leaf_frame vpn level pte * 4096 + va mod 4096).
Definition walk_answer (sw : bool) (vpn va : Z) (access : AccessType) (privilege : PrivilegeMode) (mxr sum : bool)
    (w : walk_result) : Trap + Z :=
  match w with
  | WalkLeaf level pte _ => leaf_answer sw vpn va access privilege mxr sum level pte
  | WalkPageFault => inl (page_fault va access)
  | WalkAccessFault => inl (access_fault va access)
  end.

Definition tr_answer (r : TranslationResult) : Trap + Z :=
  match tr_trap r with Some t => inl t | None => inr (tr_paddr r) end.

(** The write of the A and D bits the access needs: where the hardware manages
    them ([sw] is off), a permitted access that finds A clear, or on a store D. *)
Definition needed_update (sw : bool) (access : AccessType) (privilege : PrivilegeMode) (mxr sum : bool) (w : walk_result)
    : option PteUpdate :=
  match w with
  | WalkLeaf _ pte a =>
      if permits pte access privilege mxr sum && negb sw && (negb (A pte) || (bool_decide (access = Write) && negb (D pte)))
      then Some {| pte_addr := a; pte_value := Z.lor pte (if bool_decide (access = Write) then 0xC0 else 0x40) |}
      else None
  | _ => None
  end.
(** A walk hands out exactly the update needed; a TLB that answers ([hit]) hands
    out none, and a store only gets its answer there when D is set already. *)
Definition update_exact (hit sw : bool) (access : AccessType) (privilege : PrivilegeMode) (mxr sum : bool) (w : walk_result)
    (u : option PteUpdate) : Prop :=
  u = (if hit then None else needed_update sw access privilege mxr sum w) /\
  (hit = true -> access = Write -> exists level pte a, w = WalkLeaf level pte a /\ D pte = true).

(** ** The walk *)

(** What a bus promises the walker: at the addresses of plain memory reading
    gives the content and changes neither the memory nor what is plain. *)
Class BusMemory (B : Type) `{Bus B} := {
  bus_mem : B -> Z -> Z;
  bus_plain : B -> Z -> Prop;
  bus_read_mem (b : B) (a : Z) : bus_plain b a -> (bus_read_u64 b a).1 = bus_mem b a;
  bus_read_pure (b : B) (a : Z) : bus_plain b a -> forall a', bus_mem (bus_read_u64 b a).2 a' = bus_mem b a';
  bus_read_plain (b : B) (a a' : Z) : bus_plain b a -> bus_plain b a' -> bus_plain (bus_read_u64 b a).2 a'
}.

(** The addresses a walk reads. *)
Inductive walk_reads (mem : Z -> Z) (ok : Z -> bool) (vpn : Z) : nat -> Z -> Z -> Prop :=
| reads_here level table :
    ok (pte_address table vpn level) = true -> walk_reads mem ok vpn level table (pte_address table vpn level)
| reads_below level table pte a :
    ok (pte_address table vpn (S level)) = true -> pte = mem (pte_address table vpn (S level)) ->
    V pte = true -> R pte = false -> W pte = false -> X pte = false ->
    walk_reads mem ok vpn level (pte_ppn pte) a -> walk_reads mem ok vpn (S level) table a.
Lemma walk_reads_ext mem mem' ok vpn level table a :
  (forall a, mem a = mem' a) -> walk_reads mem ok vpn level table a -> walk_reads mem' ok vpn level table a.
Proof.
  intros E. induction 1 as [|? ? ? ? ? Hp]; [by apply reads_here|]. rewrite E in Hp. by eapply reads_below.
Qed.

Lemma walk_reads_leaf mem ok vpn level table a :
  walk_reads mem ok vpn level table a -> R (mem (pte_address table vpn level)) = true -> a = pte_address table vpn level.
Proof. destruct 1 as [|? ? ? ? ? -> _ Hr]; [done|]. rewrite Hr. done. Qed.

Lemma walks_ext mem mem' ok vpn level table r :
  (forall a, mem a = mem' a) -> walks mem ok vpn level table r -> walks mem' ok vpn level table r.
Proof.
  intros E. induction 1 as [|? ? ? ? Hp|? ? ? ? ? Hp|? ? ? Hp|? ? ? ? Hp|? ? ? ? Hp]; try rewrite E in Hp.
  - by apply walks_denied.
  - by eapply walks_invalid.
  - by eapply walks_pointer.
  - by eapply walks_no_leaf.
  - by eapply walks_misaligned.
  - by eapply walks_leaf.
Qed.

Lemma walks_det mem ok vpn level table r1 r2 :
  walks mem ok vpn level table r1 -> walks mem ok vpn level table r2 -> r1 = r2.
Proof.
  intros Hw. revert r2. induction Hw; intros r2 Hw2; inversion Hw2; subst; try done; try naive_solver congruence.
Qed.

(** ** Bit fields of the code and of the specification *)

Lemma pte_bits pte :
  pte_is_valid pte = V pte /\ pte_can_read pte = R pte /\ pte_can_write pte = W pte /\ pte_can_exec pte = X pte /\
  pte_is_user pte = U pte /\ pte_is_accessed pte = A pte /\ pte_is_dirty pte = D pte.
Proof.
  split_and!; [exact (has_bits_pow2 pte 0 ltac:(lia))|exact (has_bits_pow2 pte 1 ltac:(lia))
  |exact (has_bits_pow2 pte 2 ltac:(lia))|exact (has_bits_pow2 pte 3 ltac:(lia))|exact (has_bits_pow2 pte 4 ltac:(lia))
  |exact (has_bits_pow2 pte 6 ltac:(lia))|exact (has_bits_pow2 pte 7 ltac:(lia))].
Qed.

Lemma pte_ppn_eq pte : pte_ppn_raw pte = pte_ppn pte.
Proof.
  unfold pte_ppn_raw, pte_ppn, PTE_PPN_SHIFT. rewrite Z.shiftr_div_pow2 by lia. exact (land_low_mask _ 44 ltac:(lia)).
Qed.
Lemma pte_ppn_range pte : in_width 44 (pte_ppn pte).
Proof. apply Z.mod_pos_bound. lia. Qed.

Lemma pow512 (level : nat) : 512 ^ Z.of_nat level = 2 ^ (Z.of_nat level * 9).
Proof. rewrite Z.mul_comm, Z.pow_mul_r by lia. done. Qed.

Lemma va_vpn_eq va : va_vpn va = va / 4096 mod 2 ^ 27.
Proof. unfold va_vpn, PAGE_SHIFT. rewrite Z.shiftr_div_pow2 by lia. exact (land_low_mask _ 27 ltac:(lia)). Qed.

Lemma vpn_index_eq va (level : nat) :
  (level <= 2)%nat -> Z.land (Z.shiftr va (PAGE_SHIFT + Z.of_nat level * 9)) 0x1FF = vpn_index (va_vpn va) level.
Proof.
  intros Hl. unfold vpn_index. rewrite va_vpn_eq, pow512. change 512 with (2 ^ 9). change 0x1FF with (2 ^ 9 - 1).
  rewrite land_low_mask by lia. apply Z.bits_inj'. intros i Hi.
  destruct (Z.ltb_spec i 9); [|by rewrite !Z.mod_pow2_bits_high by lia].
  rewrite !Z.mod_pow2_bits_low, Z.shiftr_spec, Z.div_pow2_bits, Z.mod_pow2_bits_low by lia.
  change 4096 with (2 ^ 12). rewrite Z.div_pow2_bits by lia. f_equal. unfold PAGE_SHIFT. lia.
Qed.

Lemma vpn_index_range vpn level : 0 <= vpn_index vpn level < 512.
Proof. by apply Z.mod_pos_bound. Qed.

Lemma pte_address_eq table vpn level :
  in_width 44 table -> add64 (shl64 table PAGE_SHIFT) (vpn_index vpn level * 8) = pte_address table vpn level.
Proof.
  intros Ht. unfold pte_address, PAGE_SHIFT, in_width in *. pose proof (vpn_index_range vpn level).
  rewrite shl64_small by lia. apply wrap_small. unfold in_width. lia.
Qed.

(** [ppn.to_addr() | (va & offset_mask)] *)
Lemma leaf_paddr pte va (level : nat) :
  (level <= 2)%nat -> in_width 64 va -> pte_ppn pte mod 512 ^ Z.of_nat level = 0 ->
  Z.lor (page_to_addr (pte_ppn_raw pte)) (Z.land va (sub64 (shl64 1 (PAGE_SHIFT + Z.of_nat level * 9)) 1)) =
  leaf_frame (va_vpn va) level pte * 4096 + va mod 4096.
Proof.
  intros Hl Hva Hal. rewrite pte_ppn_eq. pose proof (pte_ppn_range pte) as Hp. unfold in_width in Hp.
  set (n := PAGE_SHIFT + Z.of_nat level * 9). assert (12 <= n <= 30) by (unfold n, PAGE_SHIFT; lia).
  assert (1 < 2 ^ n < 2 ^ 64) by (split; [apply Z.pow_gt_1; lia|apply Z.pow_lt_mono_r; lia]).
  rewrite shl64_small, Z.mul_1_l by lia. assert (sub64 (2 ^ n) 1 = 2 ^ n - 1) as -> by (apply wrap_small; unfold in_width; lia).
  rewrite land_low_mask by lia. unfold page_to_addr. rewrite shl64_small by lia.
  rewrite pow512 in Hal. apply Z.mod_divide in Hal as [y Hy]; [|lia].
  assert (pte_ppn pte * 2 ^ 12 = Z.shiftl y n) as ->.
  { rewrite Hy, Z.shiftl_mul_pow2 by lia. unfold n, PAGE_SHIFT. rewrite Z.pow_add_r by lia. ring. }
  rewrite lor_disjoint_add by (try lia; apply Z.mod_pos_bound; lia).
  unfold leaf_frame. rewrite Hy, va_vpn_eq, pow512.
  assert (va mod 2 ^ n = (va / 4096 mod 2 ^ 27) mod 2 ^ (Z.of_nat level * 9) * 4096 + va mod 4096) as ->.
  { assert (2 ^ n = 4096 * 2 ^ (Z.of_nat level * 9)) as -> by (unfold n, PAGE_SHIFT; rewrite Z.pow_add_r by lia; lia).
    rewrite Z.rem_mul_r by lia. rewrite Z.mod_mod_divide; [lia|].
    exists (2 ^ (27 - Z.of_nat level * 9)). rewrite <-Z.pow_add_r by lia. f_equal. lia. }
  assert (2 ^ n = 4096 * 2 ^ (Z.of_nat level * 9)) as -> by (unfold n, PAGE_SHIFT; rewrite Z.pow_add_r by lia; lia). ring.
Qed.

Lemma check_permissions_eq pte access privilege csrs :
  check_permissions pte access privilege csrs =
  permits pte access privilege (Z.testbit (sstatus csrs) 19) (Z.testbit (sstatus csrs) 18).
Proof.
  destruct (pte_bits pte) as (_ & Hr & Hw & Hx & Hu & _). unfold check_permissions, permits.
  rewrite Hr, Hw, Hx, Hu. unfold SSTATUS_MXR_SHIFT, SSTATUS_SUM_SHIFT. rewrite !bit_at_testbit by lia.
  by destruct access, privilege, (R pte), (W pte), (X pte), (U pte), (Z.testbit _ 19), (Z.testbit _ 18).
Qed.

Lemma hit_fault_eq va access privilege csrs r w x u :
  hit_fault va access privilege csrs r w x u =
  let pte := or_bit u 4 (or_bit x 3 (or_bit w 2 (or_bit r 1 1))) in
  if permits pte access privilege (Z.testbit (sstatus csrs) 19) (Z.testbit (sstatus csrs) 18) then None
  else Some (page_fault va access).
Proof.
  unfold hit_fault, permits, SSTATUS_MXR_SHIFT, SSTATUS_SUM_SHIFT. rewrite !bit_at_testbit by lia.
  by destruct access, privilege, r, w, x, u, (Z.testbit _ 19), (Z.testbit _ 18).
Qed.

Lemma permits_ext pte pte' access privilege mxr sum :
  R pte = R pte' -> W pte = W pte' -> X pte = X pte' -> U pte = U pte' ->
  permits pte access privilege mxr sum = permits pte' access privilege mxr sum.
Proof. unfold permits. by intros -> -> -> ->. Qed.

Lemma update_bits_eq pte access :
  update_access_bits pte access =
  (if negb (A pte) || (bool_decide (access = Write) && negb (D pte))
   then Z.lor pte (if bool_decide (access = Write) && negb (D pte) then if A pte then 0x80 else 0xC0 else 0x40) else pte,
   negb (A pte) || (bool_decide (access = Write) && negb (D pte))).
Proof.
  destruct (pte_bits pte) as (_ & _ & _ & _ & _ & Ha & Hd). unfold update_access_bits. rewrite Ha, Hd.
  unfold pte_with_accessed, pte_with_dirty, PTE_ACCESSED_BIT, PTE_DIRTY_BIT.
  destruct (A pte), (D pte), access; simpl; try done. by rewrite <-Z.lor_assoc.
Qed.

Lemma lor_set pte n : 0 <= n -> Z.testbit pte n = true -> Z.lor pte (2 ^ n) = pte.
Proof.
  intros Hn Ht. apply Z.bits_inj'. intros i Hi. rewrite Z.lor_spec, Z.pow2_bits_eqb by done.
  destruct (Z.eqb_spec n i) as [->|]; [by rewrite Ht|by rewrite orb_false_r].
Qed.

(** The deferred update writes the leaf with A, and on a write D, set. *)
Lemma update_value pte access :
  (if bool_decide (access = Write) && negb (D pte) then if A pte then Z.lor pte 0x80 else Z.lor pte 0xC0 else Z.lor pte 0x40) =
  Z.lor pte (if bool_decide (access = Write) then 0xC0 else 0x40) \/
  (negb (A pte) || (bool_decide (access = Write) && negb (D pte))) = false.
Proof.
  assert (Z.lor pte 0xC0 = Z.lor (Z.lor pte 0x40) 0x80) as E by (by rewrite <-Z.lor_assoc).
  unfold A, D. destruct (bool_decide _); [|by left]. rewrite E.
  destruct (Z.testbit pte 7) eqn:Ed, (Z.testbit pte 6) eqn:Ea; simpl; [by right| | |by left]; left.
  - assert (Z.testbit (Z.lor pte 0x40) 7 = true) as H by (by rewrite Z.lor_spec, Ed). change 0x80 with (2 ^ 7); by rewrite lor_set.
  - change 0x40 with (2 ^ 6); by rewrite lor_set.
Qed.

(** ** Walking *)

Section Translation.
Context {B : Type} `{!Bus B} `{!BusMemory B}.
Variables (va : Z) (access : AccessType) (privilege : PrivilegeMode) (csrs : Csrs) (pmp : option Pmp).
Hypothesis Hva : in_width 64 va.

Let vpn : Z := va_vpn va.
Let mxr : bool := Z.testbit (sstatus csrs) 19.
Let sum : bool := Z.testbit (sstatus csrs) 18.

(** The addresses the PMP lets the walker read. *)
Definition ptw_allowed (pmp : option Pmp) (a : Z) : bool :=
  match pmp with Some p => bool_decide (pmp_check p a 8 true false false false = PmpAllow) | None => true end.

(** The TLBs after a successful walk. *)
Definition mmu_fill (mmu : Mmu) (ppn pte asid : Z) : Mmu :=
  let mmu := mmu_insert_l1 mmu access vpn ppn pte asid in
  mmu <| l2_tlb := l2_insert (l2_tlb mmu) vpn ppn pte asid |>.

Fixpoint down (level : nat) : list nat := match level with O => [O] | S l => S l :: down l end.

(** What a walk leaves behind. *)
Definition walked (mmu mmu' : Mmu) (asid : Z) (w : walk_result) (res : TranslationResult) : Prop :=
  tr_answer res = walk_answer (software_ad_bits mmu) vpn va access privilege mxr sum w /\
  tr_pte_update res = needed_update (software_ad_bits mmu) access privilege mxr sum w /\
  (mmu' = mmu \/ exists level pte a, w = WalkLeaf level pte a /\ mmu' = mmu_fill mmu (leaf_frame vpn level pte) pte asid /\
                   (software_ad_bits mmu = true -> A pte = true)).

Lemma walk_leaf_spec mmu asid (level : nat) a pte cycles :
  (level <= 2)%nat -> pte_ppn pte mod 512 ^ Z.of_nat level = 0 ->
  permits pte access privilege mxr sum = true ->
  software_ad_bits mmu && (negb (A pte) || (bool_decide (access = Write) && negb (D pte))) = false ->
  let '(res, mmu') := walk_leaf mmu va access asid (PAGE_SHIFT + Z.of_nat level * 9) a pte cycles in
  walked mmu mmu' asid (WalkLeaf level pte a) res.
Proof.
  intros Hl Hal Hp Hsw. unfold walk_leaf. rewrite update_bits_eq, (leaf_paddr pte va level) by done. fold vpn.
  set (pa := leaf_frame vpn level pte * 4096 + va mod 4096).
  assert (Z.shiftr pa PAGE_SHIFT = leaf_frame vpn level pte) as ->.
  { unfold pa, PAGE_SHIFT. rewrite Z.shiftr_div_pow2 by lia. change (2 ^ 12) with 4096.
    pose proof (Z.mod_pos_bound va 4096). rewrite Z.div_add_l, Z.div_small by lia. lia. }
  assert (leaf_answer (software_ad_bits mmu) vpn va access privilege mxr sum level pte = inr pa) as Hans
    by (unfold leaf_answer; by rewrite Hp, Hsw).
  assert (Hfill : software_ad_bits mmu = true -> A pte = true).
  { intros Hs. rewrite Hs in Hsw. cbn [andb] in Hsw. to_prop. done. }
  unfold walked, needed_update. rewrite Hp.
  destruct (negb (A pte) || (bool_decide (access = Write) && negb (D pte))) eqn:Eu.
  - split_and!; [exact (eq_sym Hans)| |right; by exists level, pte, a].
    rewrite andb_true_r in Hsw. rewrite Hsw. cbn [negb andb tr_success_with_pte_update tr_pte_update]. do 2 f_equal.
    destruct (update_value pte access) as [E|E]; [|congruence]. rewrite <-E.
    by destruct (bool_decide _ && _), (A pte).
  - split_and!; [exact (eq_sym Hans)|by rewrite andb_false_r|right; by exists level, pte, a].
Qed.

Definition walk_spec_at (levels : list nat) (level : nat) : Prop :=
  forall mmu bus asid table cycles, in_width 44 table ->
  (forall a, walk_reads (bus_mem bus) (ptw_allowed pmp) vpn level table a -> bus_plain bus a) ->
  let '(res, mmu', bus') := walk_levels mmu bus va access privilege csrs pmp asid levels table cycles in
  (forall a, bus_mem bus' a = bus_mem bus a) /\
  exists w, walks (bus_mem bus) (ptw_allowed pmp) vpn level table w /\ walked mmu mmu' asid w res.

Lemma walk_stop mmu asid w cycles trap :
  walk_answer (software_ad_bits mmu) vpn va access privilege mxr sum w = inl trap ->
  walked mmu mmu asid w (tr_fault trap cycles).
Proof.
  intros E. split_and!; [by rewrite E| |by left]. destruct w as [level pte a| |]; try done. revert E.
  unfold walk_answer, leaf_answer, needed_update. destruct (permits _ _ _ _ _); [|done]. cbn [negb andb].
  destruct (software_ad_bits mmu); [done|]. cbn [andb negb]. done.
Qed.

Lemma leaf_fault sw level pte a :
  permits pte access privilege mxr sum = false \/
  sw && (negb (A pte) || (bool_decide (access = Write) && negb (D pte))) = true ->
  walk_answer sw vpn va access privilege mxr sum (WalkLeaf level pte a) = inl (page_fault va access).
Proof. unfold walk_answer, leaf_answer. intros [->| ->]; [done|]. by case_match. Qed.

(** One level of the walk; [rest] is specified already. *)
Lemma walk_step (level : nat) (rest : list nat) :
  (level <= 2)%nat -> (forall l, level = S l -> walk_spec_at rest l) -> walk_spec_at (level :: rest) level.
Proof.
  intros Hl IH mmu bus asid table cycles Ht Hplain. cbn [walk_levels]. rewrite vpn_index_eq, pte_address_eq by done. fold vpn.
  set (a := pte_address table vpn level).
  assert (match pmp with
    | Some pmp => negb (bool_decide (pmp_check pmp a 8 true false false false = PmpAllow)) | None => false end
    = negb (ptw_allowed pmp a)) as -> by (by destruct pmp).
  destruct (ptw_allowed pmp a) eqn:Hok; cbn [negb];
    [|split; [done|]; exists WalkAccessFault; split; [by apply walks_denied|by apply walk_stop]].
  assert (Ha : bus_plain bus a) by (by apply Hplain, reads_here).
  pose proof (bus_read_mem bus a Ha) as Hrd. pose proof (bus_read_pure bus a Ha) as Hpu.
  pose proof (fun a' => bus_read_plain bus a a' Ha) as Hpl.
  destruct (bus_read_u64 bus a) as [pte bus']. cbn [fst snd] in Hrd, Hpu, Hpl.
  destruct (pte_bits pte) as (Hbv & Hbr & Hbw & Hbx & _ & Hba & Hbd). unfold pte_is_pointer.
  rewrite Hbv, Hbr, Hbw, Hbx, Hba, Hbd, check_permissions_eq. fold mxr sum.
  destruct (V pte) eqn:Ev; cbn [negb];
    [|split; [done|]; exists WalkPageFault; split; [by eapply walks_invalid; [..|left]|by apply walk_stop]].
  destruct (negb (R pte) && negb (W pte) && negb (X pte)) eqn:Eptr.
  - to_prop. destruct level as [|l]; cbn [Nat.eqb].
    + split; [done|]. exists WalkPageFault. split; [by eapply walks_no_leaf|by apply walk_stop].
    + specialize (IH l eq_refl mmu bus' asid (pte_ppn pte) (add64 cycles (bus_transit_time bus 8)) (pte_ppn_range pte)).
      assert (Hbelow : forall a', walk_reads (bus_mem bus') (ptw_allowed pmp) vpn l (pte_ppn pte) a' -> bus_plain bus' a').
      { intros a' Hr. apply Hpl, Hplain. eapply reads_below; [done..|]. by eapply walk_reads_ext. }
      specialize (IH Hbelow).
      rewrite pte_ppn_eq. destruct (walk_levels mmu bus' _ _ _ _ _ _ _ _ _) as [[res mmu'] bus''].
      destruct IH as (Hm & w & Hw & Hr). split; [intros; by rewrite Hm, Hpu|]. exists w. split; [|done].
      eapply walks_pointer; [done..|]. by eapply walks_ext.
  - destruct (W pte && negb (R pte)) eqn:Ewr.
    { to_prop. split; [done|]. exists WalkPageFault. split; [by eapply walks_invalid; [..|right]|by apply walk_stop]. }
    assert (Hwr : W pte = true -> R pte = true) by (by destruct (W pte), (R pte)).
    assert (Hrx : R pte = true \/ X pte = true) by (destruct (R pte), (W pte), (X pte); naive_solver).
    assert (Hmis : (0 <? level)%nat && negb (Z.land (pte_ppn_raw pte) (Z.shiftl 1 (Z.of_nat level * 9) - 1) =? 0)
                   = negb (pte_ppn pte mod 512 ^ Z.of_nat level =? 0)).
    { rewrite pte_ppn_eq, Z.shiftl_1_l, land_low_mask, pow512 by lia. destruct level; [|done].
      by rewrite Z.mod_1_r. }
    rewrite Hmis. destruct (Z.eqb_spec (pte_ppn pte mod 512 ^ Z.of_nat level) 0) as [Hal|Hal]; cbn [negb];
      [|split; [done|]; exists WalkPageFault; split; [by eapply walks_misaligned|by apply walk_stop]].
    assert (Hleaf : walks (bus_mem bus) (ptw_allowed pmp) vpn level table (WalkLeaf level pte a)) by (by eapply walks_leaf).
    destruct (permits pte access privilege mxr sum) eqn:Ep; cbn [negb];
      [|split; [done|]; exists (WalkLeaf level pte a); split; [done|]; apply walk_stop, leaf_fault; by left].
    destruct (software_ad_bits mmu && _) eqn:Esw;
      [split; [done|]; exists (WalkLeaf level pte a); split; [done|]; apply walk_stop, leaf_fault; by right|].
    pose proof (walk_leaf_spec mmu asid level a pte (add64 cycles (bus_transit_time bus 8)) Hl Hal Ep Esw) as H.
    destruct (walk_leaf _ _ _ _ _ _ _ _) as [res mmu']. split; [done|]. by exists (WalkLeaf level pte a).
Qed.

Lemma page_table_walk_spec mmu bus :
  (forall a, walk_reads (bus_mem bus) (ptw_allowed pmp) vpn 2 (satp csrs mod 2 ^ 44) a -> bus_plain bus a) ->
  let '(res, mmu', bus') := page_table_walk_inner mmu va access privilege csrs bus pmp in
  (forall a, bus_mem bus' a = bus_mem bus a) /\
  exists w, walks (bus_mem bus) (ptw_allowed pmp) vpn 2 (satp csrs mod 2 ^ 44) w /\
    walked mmu mmu' (satp_asid (satp csrs)) w res.
Proof.
  intros Hplain. unfold page_table_walk_inner.
  assert (Z.land (satp csrs) SATP_PPN_MASK = satp csrs mod 2 ^ 44) as -> by exact (land_low_mask _ 44 ltac:(lia)).
  apply (walk_step 2); [lia| |by apply Z.mod_pos_bound|exact Hplain]. intros l [= <-].
  apply walk_step; [lia|]. intros l [= <-]. by apply walk_step; [lia|].
Qed.

(** ** Coherence of the TLBs with the page tables *)

(** The page table roots of the address spaces, in frames. *)
Variable roots : Z -> Z.

(** The entry says what a walk finds, in every address space it serves. *)
Definition entry_coherent (mem : Z -> Z) (ok : Z -> bool) (sw : bool) (e : TlbEntry) : Prop :=
  forall a, te_global e = true \/ te_asid e = a ->
  exists level pte pa, walks mem ok (te_vpn e) 2 (roots a) (WalkLeaf level pte pa) /\
    te_ppn e = leaf_frame (te_vpn e) level pte /\
    (te_r e = R pte /\ te_w e = W pte /\ te_x e = X pte /\ te_u e = U pte /\ te_d e = D pte /\ te_global e = G pte) /\
    (sw = true -> A pte = true).

Record mmu_coherent (mem : Z -> Z) (ok : Z -> bool) (mmu : Mmu) : Prop := {
  coh_itlb_wf : tlb_wf (itlb mmu);
  coh_dtlb_wf : tlb_wf (dtlb mmu);
  coh_l2_wf : l2_wf (l2_tlb mmu);
  coh_itlb : all_valid (entry_coherent mem ok (software_ad_bits mmu)) (tlb_entries (itlb mmu));
  coh_dtlb : all_valid (entry_coherent mem ok (software_ad_bits mmu)) (tlb_entries (dtlb mmu));
  coh_l2 : all_valid (entry_coherent mem ok (software_ad_bits mmu)) (l2_entries (l2_tlb mmu))
}.

(** Software maps a global page at the same place in every address space. *)
Definition global_consistent (mem : Z -> Z) (ok : Z -> bool) : Prop :=
  forall a b v level pte pa, walks mem ok v 2 (roots a) (WalkLeaf level pte pa) -> G pte = true ->
  exists pa', walks mem ok v 2 (roots b) (WalkLeaf level pte pa').

Lemma leaf_entry_coherent mem ok sw asid v level pte pa :
  global_consistent mem ok -> walks mem ok v 2 (roots asid) (WalkLeaf level pte pa) -> (sw = true -> A pte = true) ->
  entry_coherent mem ok sw (te_of_pte v (leaf_frame v level pte) pte asid).
Proof.
  intros Hg Hw Hsw a. cbn. rewrite !bit_at_testbit by lia. intros [Hgl| <-].
  - destruct (Hg asid a v level pte pa Hw Hgl) as [pa' Hw']. by exists level, pte, pa'.
  - by exists level, pte, pa.
Qed.

Lemma all_valid_insert (P : TlbEntry -> Prop) i e es : P e -> all_valid P es -> all_valid P (<[i := e]> es).
Proof. intros He Hes. by apply Forall_insert. Qed.

Lemma insert_l1_sw mmu v ppn pte asid :
  software_ad_bits (mmu_insert_l1 mmu access v ppn pte asid) = software_ad_bits mmu.
Proof. unfold mmu_insert_l1. by destruct (bool_decide _). Qed.

Lemma insert_l1_coherent mem ok mmu v ppn pte asid :
  mmu_coherent mem ok mmu -> entry_coherent mem ok (software_ad_bits mmu) (te_of_pte v ppn pte asid) ->
  mmu_coherent mem ok (mmu_insert_l1 mmu access v ppn pte asid).
Proof.
  intros [] He. unfold mmu_insert_l1. case_bool_decide; constructor; try done; try (by apply tlb_insert_wf);
    by apply all_valid_insert.
Qed.

Lemma fill_coherent mem ok mmu ppn pte asid :
  mmu_coherent mem ok mmu -> entry_coherent mem ok (software_ad_bits mmu) (te_of_pte vpn ppn pte asid) ->
  mmu_coherent mem ok (mmu_fill mmu ppn pte asid).
Proof.
  intros Hc He. pose proof (insert_l1_coherent mem ok mmu vpn ppn pte asid Hc He) as [].
  pose proof (insert_l1_sw mmu vpn ppn pte asid) as E.
  unfold mmu_fill. constructor; try done; [by apply l2_insert_wf|].
  change (all_valid (entry_coherent mem ok (software_ad_bits (mmu_insert_l1 mmu access vpn ppn pte asid)))
    (l2_entries (l2_insert (l2_tlb (mmu_insert_l1 mmu access vpn ppn pte asid)) vpn ppn pte asid))).
  rewrite l2_insert_entries. apply all_valid_insert; [by rewrite E|done].
Qed.

(** ** TLB hits *)

Lemma page_addr_eq (ppn : Z) :
  0 <= ppn < 2 ^ 52 -> Z.lor (page_to_addr ppn) (page_offset va) = ppn * 4096 + va mod 4096.
Proof.
  intros H. unfold page_to_addr, page_offset. rewrite shl64_small by lia. change 0xFFF with (2 ^ 12 - 1).
  rewrite land_low_mask, <-Z.shiftl_mul_pow2, lor_disjoint_add by (try lia; apply Z.mod_pos_bound; lia). done.
Qed.

Lemma leaf_frame_range v level pte mem ok table pa :
  0 <= v -> (level <= 2)%nat -> walks mem ok v 2 table (WalkLeaf level pte pa) -> 0 <= leaf_frame v level pte < 2 ^ 52.
Proof.
  intros Hv Hl _. unfold leaf_frame. pose proof (pte_ppn_range pte) as Hp. unfold in_width in Hp.
  assert (0 < 512 ^ Z.of_nat level <= 2 ^ 18)
    by (rewrite pow512; split; [lia|apply Z.pow_le_mono_r; lia]).
  pose proof (Z.mod_pos_bound v (512 ^ Z.of_nat level)). lia.
Qed.

Lemma walks_level_le mem ok v l table level pte pa :
  walks mem ok v l table (WalkLeaf level pte pa) -> (level <= l)%nat.
Proof. remember (WalkLeaf level pte pa) as r eqn:E. induction 1; simplify_eq; try lia. specialize (IHwalks eq_refl). lia. Qed.

(** What a hit on a coherent entry answers. *)
Definition hit_answer (r w x u : bool) (ppn : Z) : Trap + Z :=
  match hit_fault va access privilege csrs r w x u with
  | Some trap => inl trap
  | None => inr (Z.lor (page_to_addr ppn) (page_offset va))
  end.

Lemma hit_answer_ok mem ok sw e asid :
  entry_coherent mem ok sw e -> te_matches e vpn asid = true -> (access = Write -> te_d e = true) ->
  exists w, walks mem ok vpn 2 (roots asid) w /\
    hit_answer (te_r e) (te_w e) (te_x e) (te_u e) (te_ppn e) = walk_answer sw vpn va access privilege mxr sum w /\
    (access = Write -> exists level pte a, w = WalkLeaf level pte a /\ D pte = true).
Proof.
  intros He Hm Hd. unfold te_matches in Hm. to_prop.
  destruct (He asid) as (level & pte & pa & Hw & Hp & (E1 & E2 & E3 & E4 & E5 & _) & Hsw).
  { destruct (te_global e); [by left|right]. cbn [orb] in *. to_prop. done. }
  assert (te_vpn e = vpn) as Ev by done. rewrite Ev in Hw, Hp. exists (WalkLeaf level pte pa). split; [done|].
  split; [|intros Ha; exists level, pte, pa; split; [done|]; rewrite <-E5; by apply Hd].
  unfold hit_answer. rewrite hit_fault_eq. fold mxr sum. cbv zeta.
  assert (Hperm : permits (or_bit (te_u e) 4 (or_bit (te_x e) 3 (or_bit (te_w e) 2 (or_bit (te_r e) 1 1)))) access privilege mxr sum
    = permits pte access privilege mxr sum).
  { rewrite E1, E2, E3, E4. apply permits_ext; by destruct (R pte), (W pte), (X pte), (U pte). }
  rewrite Hperm. unfold walk_answer, leaf_answer. destruct (permits pte access privilege mxr sum); cbn [negb]; [|done].
  assert (sw && (negb (A pte) || (bool_decide (access = Write) && negb (D pte))) = false) as ->.
  { destruct sw; [|done]. rewrite (Hsw eq_refl). cbn [negb orb andb]. case_bool_decide as Ha; [|done]. by rewrite <-E5, (Hd Ha). }
  assert (Hvpn : 0 <= vpn) by (unfold vpn; rewrite va_vpn_eq; apply Z.mod_pos_bound; lia).
  rewrite Hp, page_addr_eq; [done|]. apply (leaf_frame_range _ _ _ _ _ _ _ Hvpn
    (walks_level_le _ _ _ _ _ _ _ _ Hw) Hw).
Qed.

(** ** Translating *)

Definition translation_ok (hit : bool) (mmu : Mmu) (bus : B) (asid : Z) (out : TranslationResult * Mmu * B) : Prop :=
  let '(res, mmu', bus') := out in
  (forall a, bus_mem bus' a = bus_mem bus a) /\ software_ad_bits mmu' = software_ad_bits mmu /\
  mmu_coherent (bus_mem bus) (ptw_allowed pmp) mmu' /\
  exists w, walks (bus_mem bus) (ptw_allowed pmp) vpn 2 (roots asid) w /\
    tr_answer res = walk_answer (software_ad_bits mmu) vpn va access privilege mxr sum w /\
    update_exact hit (software_ad_bits mmu) access privilege mxr sum w (tr_pte_update res).

Let asid : Z := satp_asid (satp csrs).

(** Whether a TLB answers: it holds the page, with D set if the access is a store. *)
Definition l2_answers (mmu : Mmu) : bool :=
  match (l2_lookup (l2_tlb mmu) vpn asid).1 with
  | Some (_, bits, _) => negb (bool_decide (access = Write) && negb (bit_at bits 7))
  | None => false
  end.
Definition tlb_answers (mmu : Mmu) : bool :=
  match tlb_lookup (if bool_decide (access = Fetch) then itlb mmu else dtlb mmu) vpn asid with
  | Some hit => if bool_decide (access = Write) && negb (th_d hit) then l2_answers mmu else true
  | None => l2_answers mmu
  end.

Section Step.
Variable bus : B.
Hypothesis Hglobal : global_consistent (bus_mem bus) (ptw_allowed pmp).
Hypothesis Hroot : roots asid = satp csrs mod 2 ^ 44.
Hypothesis Hplain : forall a, walk_reads (bus_mem bus) (ptw_allowed pmp) vpn 2 (satp csrs mod 2 ^ 44) a -> bus_plain bus a.

Lemma translate_walk_ok mmu :
  mmu_coherent (bus_mem bus) (ptw_allowed pmp) mmu ->
  translation_ok false mmu bus asid (translate_walk mmu va access privilege csrs bus pmp).
Proof.
  intros Hc. assert (translate_walk mmu va access privilege csrs bus pmp
    = page_table_walk_inner mmu va access privilege csrs bus pmp) as -> by (by destruct pmp).
  pose proof (page_table_walk_spec mmu bus Hplain) as H.
  destruct (page_table_walk_inner _ _ _ _ _ _ _) as [[res mmu'] bus'].
  destruct H as (Hm & w & Hw & Ha & Hu & Hmmu). rewrite <-Hroot in Hw.
  split; [done|]. destruct Hmmu as [-> |(level & pte & a & -> & -> & Hsw)].
  - split_and!; [done|done|]. by exists w.
  - split_and!; [apply insert_l1_sw| |by exists (WalkLeaf level pte a)].
    apply fill_coherent; [done|]. by eapply leaf_entry_coherent.
Qed.

Lemma translate_l2_ok mmu :
  mmu_coherent (bus_mem bus) (ptw_allowed pmp) mmu ->
  translation_ok (l2_answers mmu) mmu bus asid (translate_l2 mmu va access privilege csrs bus pmp).
Proof.
  intros Hc. unfold translate_l2, l2_answers. fold vpn asid. unfold l2_lookup.
  pose proof (l2_find_spec (l2_tlb mmu) vpn (fun e => te_matches e vpn asid)) as Hf.
  assert (Hl2 : forall s w, mmu_coherent (bus_mem bus) (ptw_allowed pmp) (mmu <| l2_tlb := touch_lru (l2_tlb mmu) s w |>)).
  { intros s w. destruct Hc. constructor; try done. by apply touch_lru_wf. }
  destruct (l2_find _ _ _) as [w|].
  2:{ assert (mmu <| l2_tlb := l2_tlb mmu |> = mmu) as -> by done. by apply translate_walk_ok. }
  destruct Hf as (Hw & Hm & _). set (e := l2_entries (l2_tlb mmu) !!! (l2_base (l2_tlb mmu) vpn + w)%nat) in *.
  assert (He : entry_coherent (bus_mem bus) (ptw_allowed pmp) (software_ad_bits mmu) e).
  { refine (Forall_at _ _ _ (coh_l2 _ _ _ Hc) _ _); [by apply l2_slot_lt; [apply Hc|]|]. unfold te_matches in Hm. by to_prop. }
  assert (Hbits : bit_at (reconstruct_pte e) 1 = te_r e /\ bit_at (reconstruct_pte e) 2 = te_w e /\
    bit_at (reconstruct_pte e) 3 = te_x e /\ bit_at (reconstruct_pte e) 4 = te_u e /\ bit_at (reconstruct_pte e) 7 = te_d e)
    by (destruct e as [? ? ? r w' x u d ? g]; by destruct r, w', x, u, d, g).
  cbn [fst]. destruct Hbits as (-> & -> & -> & -> & ->).
  destruct (bool_decide (access = Write) && negb (te_d e)) eqn:Ed; [exact (translate_walk_ok _ (Hl2 _ _))|].
  destruct (hit_answer_ok _ _ _ e asid He Hm) as (wr & Hwr & Ha & Hwd).
  { intros ->. by destruct (te_d e). }
  unfold hit_answer in Ha. destruct (hit_fault _ _ _ _ _ _ _ _) as [trap|].
  - split_and!; [done|done|apply Hl2|]. by exists wr.
  - split_and!; [done|etransitivity; [apply insert_l1_sw|done]| |by exists wr].
    apply insert_l1_coherent; [apply Hl2|]. unfold te_matches in Hm. to_prop.
    pose proof (reconstruct_pte_entry e ltac:(done)) as Hrec. replace (te_vpn e) with vpn in Hrec by done. by rewrite Hrec.
Qed.

Lemma tlb_hit_entry t hit :
  tlb_wf t -> tlb_lookup t vpn asid = Some hit ->
  forall P, all_valid P (tlb_entries t) -> exists e, P e /\ te_matches e vpn asid = true /\ hit = te_hit e.
Proof.
  intros Hwf Hl P HP. unfold tlb_lookup in Hl. set (e := tlb_entries t !!! tlb_index t vpn) in *.
  destruct (te_matches e vpn asid) eqn:Em; [|done]. injection Hl as <-. exists e. split_and!; [|done|done].
  refine (Forall_at _ _ _ HP _ _); [by apply tlb_index_lt|]. unfold te_matches in Em. by to_prop.
Qed.

Lemma invalidate_coherent mmu :
  mmu_coherent (bus_mem bus) (ptw_allowed pmp) mmu ->
  mmu_coherent (bus_mem bus) (ptw_allowed pmp) (mmu <| dtlb := tlb_invalidate (dtlb mmu) vpn |>).
Proof.
  intros []. pose proof (tlb_invalidate_at_all (dtlb mmu) vpn (hits_vpn vpn) coh_dtlb_wf0 (hits_vpn_page vpn)) as E.
  constructor; try done.
  - exact (tlb_wf_map (dtlb mmu) (tlb_invalidate (dtlb mmu) vpn) _ coh_dtlb_wf0 (te_invalidate_shape _) eq_refl E).
  - refine (eq_ind_r (all_valid _) _ E). eapply Forall_impl; [apply all_valid_invalidate, coh_dtlb0|]. naive_solver.
Qed.

(** The translation proper, past the bare and canonical checks. *)
Lemma translate_paged_ok mmu :
  mmu_coherent (bus_mem bus) (ptw_allowed pmp) mmu ->
  privilege <> Machine -> satp_mode (satp csrs) = SATP_MODE_SV39 -> canonical va = true ->
  translation_ok (tlb_answers mmu) mmu bus asid (translate_with_pmp mmu va access privilege csrs bus pmp).
Proof.
  intros Hc Hp Hmode Hcan. unfold translate_with_pmp. rewrite Hmode, Hcan, bool_decide_false by done.
  change (SATP_MODE_SV39 =? SATP_MODE_BARE) with false. change (SATP_MODE_SV39 =? SATP_MODE_SV39) with true. cbn [orb negb].
  change (va_vpn va) with vpn. change (satp_asid (satp csrs)) with asid.
  set (t := if bool_decide (access = Fetch) then itlb mmu else dtlb mmu).
  assert ((if bool_decide (access = Fetch) then tlb_lookup (itlb mmu) vpn asid else tlb_lookup (dtlb mmu) vpn asid)
    = tlb_lookup t vpn asid) as -> by (unfold t; by case_bool_decide).
  unfold tlb_answers. fold t.
  destruct (tlb_lookup t vpn asid) as [hit|] eqn:Eh; [|by apply translate_l2_ok].
  assert (tlb_wf t /\ all_valid (entry_coherent (bus_mem bus) (ptw_allowed pmp) (software_ad_bits mmu)) (tlb_entries t))
    as [Hwf Hall] by (unfold t; destruct Hc; by case_bool_decide).
  destruct (tlb_hit_entry t hit Hwf Eh _ Hall) as (e & He & Hm & ->). cbn [te_hit th_r th_w th_x th_u th_d th_ppn].
  destruct (bool_decide (access = Write) && negb (te_d e)) eqn:Ed.
  - exact (translate_l2_ok _ (invalidate_coherent _ Hc)).
  - destruct (hit_answer_ok _ _ _ e asid He Hm) as (wr & Hwr & Ha & Hwd).
    { intros ->. by destruct (te_d e). }
    unfold hit_answer in Ha. destruct (hit_fault _ _ _ _ _ _ _ _) as [trap|]; split_and!; try done; by exists wr.
Qed.
End Step.

Lemma canonical_spec : canonical va = true <-> va < 2 ^ 38 \/ 2 ^ 64 - 2 ^ 38 <= va.
Proof.
  unfold canonical. rewrite land_1_testbit, Z.eqb_eq by lia. unfold in_width in Hva.
  rewrite Z.shiftr_div_pow2 by lia.
  assert (Hb : Z.b2z (Z.testbit va 38) = va / 2 ^ 38 mod 2) by (by rewrite Z.testbit_spec' by lia). rewrite Hb.
  pose proof (Z.mod_pos_bound (va / 2 ^ 38) 2 ltac:(lia)).
  assert (va / 2 ^ 39 = va / 2 ^ 38 / 2) as -> by (by rewrite Z.div_div by lia).
  pose proof (Z.div_mod va (2 ^ 38) ltac:(lia)). pose proof (Z.mod_pos_bound va (2 ^ 38) ltac:(lia)).
  pose proof (Z.div_mod (va / 2 ^ 38) 2 ltac:(lia)). set (q := va / 2 ^ 38) in *.
  destruct (Z.eqb_spec (q mod 2) 1); lia.
Qed.

(** What the privileged specification prescribes: the address itself in machine
    and bare modes, a page fault for a non-canonical address, and otherwise the
    answer of the walk, with the update its leaf needs unless a TLB answered. *)
Definition sv39_answer (mem : Z -> Z) (ok : Z -> bool) (sw hit : bool) (ans : Trap + Z) (update : option PteUpdate) : Prop :=
  if decide (privilege = Machine \/ satp_mode (satp csrs) = SATP_MODE_BARE) then ans = inr va /\ update = None
  else if decide (va < 2 ^ 38 \/ 2 ^ 64 - 2 ^ 38 <= va)
  then exists w, walks mem ok vpn 2 (satp csrs mod 2 ^ 44) w /\
         ans = walk_answer sw vpn va access privilege mxr sum w /\ update_exact hit sw access privilege mxr sum w update
  else ans = inl (page_fault va access) /\ update = None.

Lemma mmu_translate_ok (mmu : Mmu) (bus : B) :
  global_consistent (bus_mem bus) (ptw_allowed pmp) -> roots asid = satp csrs mod 2 ^ 44 ->
  satp_mode (satp csrs) = SATP_MODE_BARE \/ satp_mode (satp csrs) = SATP_MODE_SV39 ->
  (forall a, walk_reads (bus_mem bus) (ptw_allowed pmp) vpn 2 (satp csrs mod 2 ^ 44) a -> bus_plain bus a) ->
  mmu_coherent (bus_mem bus) (ptw_allowed pmp) mmu ->
  let '(res, mmu', bus') := translate_with_pmp mmu va access privilege csrs bus pmp in
  (forall a, bus_mem bus' a = bus_mem bus a) /\ mmu_coherent (bus_mem bus) (ptw_allowed pmp) mmu' /\
  sv39_answer (bus_mem bus) (ptw_allowed pmp) (software_ad_bits mmu) (tlb_answers mmu) (tr_answer res) (tr_pte_update res).
Proof.
  intros Hg Hr Hmode Hplain Hc. unfold sv39_answer. case_decide as Hb; [|case_decide as Hcan; rewrite <-canonical_spec in Hcan].
  - assert (translate_with_pmp mmu va access privilege csrs bus pmp = (tr_success va 0, mmu, bus)) as ->; [|done].
    unfold translate_with_pmp. destruct Hb as [-> | ->]; [done|]. by rewrite orb_true_r.
  - assert (satp_mode (satp csrs) = SATP_MODE_SV39) as Hm by naive_solver.
    pose proof (translate_paged_ok bus Hg Hr Hplain mmu Hc ltac:(naive_solver) Hm Hcan) as H. unfold translation_ok in H.
    destruct (translate_with_pmp _ _ _ _ _ _ _) as [[res mmu'] bus']. destruct H as (H1 & _ & H3 & H4).
    split_and!; [done|done|by rewrite <-Hr].
  - assert (satp_mode (satp csrs) = SATP_MODE_SV39) as Hm by naive_solver.
    assert (translate_with_pmp mmu va access privilege csrs bus pmp = (tr_fault (page_fault va access) 0, mmu, bus)) as ->; [|done].
    unfold translate_with_pmp. rewrite Hm, bool_decide_false by naive_solver. apply not_true_is_false in Hcan. by rewrite Hcan.
Qed.

End Translation.

(** ** Witness: one gigapage, from an empty MMU *)

(** A bus that is a function from addresses to words. *)
Definition FunBus : Type := Z -> Z.
#[export] Instance FunBus_bus : Bus FunBus := {| bus_read_u64 b a := (b a, b); bus_transit_time _ n := n |}.
#[export] Instance FunBus_memory : BusMemory FunBus.
Proof. by refine {| bus_mem (b : FunBus) := b; bus_plain _ _ := True |}. Defined.

(** The root table, in frame 1, maps the third gigabyte to itself. *)
Definition demo_memory : FunBus := fun a => if a =? 4096 + 2 * 8 then 0x200000CF else 0.
Definition demo_satp : Z := Z.lor (Z.shiftl 8 60) 1.
Definition demo_csrs : Csrs := Csrs_default <| satp := demo_satp |>.
Definition demo_mmu : Mmu := mmu_new 16 16 2 4 true.

Lemma mmu_new_coherent roots mem ok tlb_size l2_size l2_ways lat sw :
  mmu_coherent roots mem ok (mmu_new tlb_size l2_size l2_ways lat sw).
Proof.
  constructor; [apply tlb_new_wf|apply tlb_new_wf|apply l2_new_wf|..]; by apply Forall_replicate.
Qed.

