(* ===== verification/Cpu.v ===== *)
(** The hart's architectural state and its privileged operations: CSR access
    ([core/cpu/csr.rs]), traps and trap returns ([core/cpu/trap.rs],
    [core/arch/trap.rs]), pending interrupts ([core/cpu/execution.rs] and
    [check_interrupts] of [commit.rs]), reservations ([core/cpu/mod.rs]),
    SFENCE.VMA ([commit.rs]) and address translation ([core/cpu/memory.rs]). *)
From S2P Require Import Prelude Common Csr Pmp Policy Prefetch Cache Tlb Mmu.

Set Primitive Projections.
Local Open Scope Z_scope.

(** ** Register files ([core/arch/gpr.rs], [core/arch/fpr.rs], [common/reg.rs]) *)

Record RegisterFile := { gpr : list Z; fpr : list Z }.
Definition regs_new : RegisterFile := {| gpr := replicate 32 0; fpr := replicate 32 0 |}.
Definition regs_read (self : RegisterFile) (idx : Z) : Z :=
  if reg_is_zero idx then 0 else gpr self !!! reg_as_usize idx.
Definition regs_write (self : RegisterFile) (idx val : Z) : RegisterFile :=
  if reg_is_zero idx then self else self <| gpr := <[reg_as_usize idx := val]> (gpr self) |>.
(** Floating-point registers as their bit patterns. *)
Definition regs_read_f (self : RegisterFile) (idx : Z) : Z := fpr self !!! reg_as_usize idx.
Definition regs_write_f (self : RegisterFile) (idx val : Z) : RegisterFile :=
  self <| fpr := <[reg_as_usize idx := val]> (fpr self) |>.

(** ** The hart *)

(** The fields of [Cpu] the operations below use, [stats] flattened into it. *)
Record Cpu := {
  regs : RegisterFile;
  pc : Z;
  csrs : Csrs;
  privilege : PrivilegeMode;
  load_reservation : option Z;
  mmu : Mmu;
  pmp : Pmp;
  l1_i_cache : CacheSim DynPolicy DynPrefetcher;
  l1_d_cache : CacheSim DynPolicy DynPrefetcher;
  exit_code : option Z;
  direct_mode : bool;
  clint_divider : Z;
  sw_seip : bool;
  cycles : Z;
  instructions_retired : Z;
  traps_taken : Z;
  cycles_user : Z;
  cycles_kernel : Z;
  cycles_machine : Z
}.

(** ** Reservations *)

Definition RESERVATION_GRANULE : Z := 64.
Definition align_reservation_address (addr : Z) : Z := Z.land addr (not64 (RESERVATION_GRANULE - 1)).
Definition set_reservation (self : Cpu) (addr : Z) : Cpu :=
  self <| load_reservation := Some (align_reservation_address addr) |>.
Definition check_reservation (self : Cpu) (addr : Z) : bool :=
  match load_reservation self with
  | Some reserved => reserved =? align_reservation_address addr
  | None => false
  end.
Definition clear_reservation (self : Cpu) : Cpu := self <| load_reservation := None |>.

(** ** Reset state *)

Definition SSTATUS_MASK : Z :=
  Z.lor (Z.lor (Z.lor (Z.lor (Z.lor (Z.lor MSTATUS_SIE MSTATUS_SPIE) MSTATUS_SPP) MSTATUS_FS) MSTATUS_SUM) MSTATUS_MXR) MSTATUS_UXL.
Definition reset_csrs (direct_mode : bool) (configured_misa : Z) : Csrs :=
  let st := if direct_mode then Z.lor MSTATUS_DEFAULT_RV64 MSTATUS_FS_INIT else MSTATUS_DEFAULT_RV64 in
  Csrs_default <| mstatus := st |> <| sstatus := Z.land st SSTATUS_MASK |> <| misa := configured_misa |>
               <| stimecmp := U64_MAX |>.

(** ** Traps *)

Definition SYS_EXIT : Z := 93.
Definition REG_A0 : Z := 10.
Definition REG_A1 : Z := 11.
Definition REG_A7 : Z := 17.
Definition CAUSE_INTERRUPT_BIT : Z := 2 ^ 63.

Definition is_ecall (cause : Trap) : bool :=
  match cause with
  | EnvironmentCallFromUMode | EnvironmentCallFromSMode | EnvironmentCallFromMMode => true
  | _ => false
  end.

(** (is_interrupt, code) *)
Definition trap_code (cause : Trap) : bool * Z :=
  match cause with
  | InstructionAddressMisaligned _ => (false, 0)
  | InstructionAccessFault _ => (false, 1)
  | IllegalInstruction _ => (false, 2)
  | Breakpoint _ => (false, 3)
  | LoadAddressMisaligned _ => (false, 4)
  | LoadAccessFault _ => (false, 5)
  | StoreAddressMisaligned _ => (false, 6)
  | StoreAccessFault _ => (false, 7)
  | EnvironmentCallFromUMode => (false, 8)
  | EnvironmentCallFromSMode => (false, 9)
  | EnvironmentCallFromMMode => (false, 11)
  | InstructionPageFault _ => (false, 12)
  | LoadPageFault _ => (false, 13)
  | StorePageFault _ => (false, 15)
  | UserSoftwareInterrupt => (true, 0)
  | SupervisorSoftwareInterrupt => (true, 1)
  | MachineSoftwareInterrupt => (true, 3)
  | SupervisorTimerInterrupt => (true, 5)
  | MachineTimerInterrupt => (true, 7)
  | UserExternalInterrupt => (true, 8)
  | SupervisorExternalInterrupt => (true, 9)
  | MachineExternalInterrupt => (true, 11)
  | RequestedTrap c => (false, c)
  | DoubleFault _ => (false, 18)
  end.
Definition trap_tval (cause : Trap) : Z :=
  match cause with
  | InstructionAddressMisaligned a | InstructionAccessFault a | LoadAddressMisaligned a | LoadAccessFault a
  | StoreAddressMisaligned a | StoreAccessFault a | InstructionPageFault a | LoadPageFault a | StorePageFault a => a
  | IllegalInstruction i => i
  | _ => 0
  end.

(** [if on { x |= m } else { x &= !m }] *)
Definition put_bits (on : bool) (m x : Z) : Z := if on then Z.lor x m else Z.land x (not64 m).

(** The handler address: base, plus four times the code for vectored interrupts. *)
Definition tvec_target (tvec : Z) (is_interrupt : bool) (code : Z) : Z :=
  add64 (Z.land tvec (not64 3)) (if has_bits tvec 1 && is_interrupt then 4 * code else 0).

Definition SIE_SPIE_SPP : Z := Z.lor (Z.lor MSTATUS_SIE MSTATUS_SPIE) MSTATUS_SPP.

Definition trap_to_s (self : Cpu) (is_interrupt : bool) (code tval epc : Z) : Cpu :=
  let c := csrs self in
  let c := c <| scause := if is_interrupt then Z.lor CAUSE_INTERRUPT_BIT code else code |>
             <| sepc := epc |> <| stval := tval |> in
  let st := sstatus c in
  let st := put_bits (has_bits st MSTATUS_SIE) MSTATUS_SPIE st in
  let st := put_bits (bool_decide (privilege self = Supervisor)) MSTATUS_SPP st in
  let st := Z.land st (not64 MSTATUS_SIE) in
  let c := c <| sstatus := st |>
             <| mstatus := Z.lor (Z.land (mstatus c) (not64 SIE_SPIE_SPP)) (Z.land st SIE_SPIE_SPP) |> in
  self <| csrs := c |> <| privilege := Supervisor |> <| pc := tvec_target (stvec c) is_interrupt code |>.

Definition trap_to_m (self : Cpu) (is_interrupt : bool) (code tval epc : Z) : Cpu :=
  let c := csrs self in
  let c := c <| mcause := if is_interrupt then Z.lor CAUSE_INTERRUPT_BIT code else code |>
             <| mepc := epc |> <| mtval := tval |> in
  let st := mstatus c in
  let st := put_bits (has_bits st MSTATUS_MIE) MSTATUS_MPIE st in
  let st := Z.land st (not64 MSTATUS_MPP) in
  let st := Z.lor st (Z.shiftl (priv_to_u8 (privilege self)) MSTATUS_MPP_SHIFT) in
  let st := Z.land st (not64 MSTATUS_MIE) in
  let c := c <| mstatus := st |> in
  self <| csrs := c |> <| privilege := Machine |> <| pc := tvec_target (mtvec c) is_interrupt code |>.

Definition delegates (self : Cpu) (is_interrupt : bool) (code : Z) : bool :=
  let deleg_mask := if is_interrupt then mideleg (csrs self) else medeleg (csrs self) in
  negb (bool_decide (privilege self = Machine)) && bit_at deleg_mask (code mod 64).

Definition trap (self : Cpu) (cause : Trap) (epc : Z) : Cpu :=
  let self := self <| load_reservation := None |> in
  if direct_mode self then
    if is_ecall cause then
      let val_a7 := regs_read (regs self) REG_A7 in
      let val_a0 := regs_read (regs self) REG_A0 in
      if val_a7 =? SYS_EXIT then self <| exit_code := Some val_a0 |>
      else if val_a0 =? SYS_EXIT then self <| exit_code := Some (regs_read (regs self) REG_A1) |>
      else self <| exit_code := Some 1 |>
    else if bool_decide (cause = IllegalInstruction 0) then self <| exit_code := Some 0 |>
    else self <| exit_code := Some 1 |>
  else
  let '(is_interrupt, code) := trap_code cause in
  let tval := trap_tval cause in
  let self := if delegates self is_interrupt code then trap_to_s self is_interrupt code tval epc
              else trap_to_m self is_interrupt code tval epc in
  self <| traps_taken := add64 (traps_taken self) 1 |>.

Definition do_mret (self : Cpu) : Cpu :=
  let self := clear_reservation self in
  let self := self <| pc := Z.land (mepc (csrs self)) (not64 1) |> in
  let st := mstatus (csrs self) in
  let mpp := Z.land (Z.shiftr st MSTATUS_MPP_SHIFT) MSTATUS_MPP_MASK in
  let mpie := has_bits st MSTATUS_MPIE in
  let new := put_bits mpie MSTATUS_MIE st in
  let new := Z.lor new MSTATUS_MPIE in
  let new := Z.land new (not64 MSTATUS_MPP) in
  let new := if negb (mpp =? priv_to_u8 Machine) then Z.land new (not64 MSTATUS_MPRV) else new in
  self <| privilege := priv_from_u8 (u8 mpp) |> <| csrs := (csrs self) <| mstatus := new |> |>.

Definition do_sret (self : Cpu) : Cpu :=
  let self := clear_reservation self in
  let self := self <| pc := Z.land (sepc (csrs self)) (not64 1) |> in
  let st := sstatus (csrs self) in
  let new := put_bits (has_bits st MSTATUS_SPIE) MSTATUS_SIE st in
  let new := Z.lor new MSTATUS_SPIE in
  let new := Z.land new (not64 MSTATUS_SPP) in
  let new_m := Z.lor (Z.land (mstatus (csrs self)) (not64 SIE_SPIE_SPP)) (Z.land new SIE_SPIE_SPP) in
  let new_m := Z.land new_m (not64 MSTATUS_MPRV) in
  self <| privilege := if has_bits st MSTATUS_SPP then Supervisor else User |>
       <| csrs := (csrs self) <| sstatus := new |> <| mstatus := new_m |> |>.

(** ** CSR access *)

(** [get_cfg(first) | get_cfg(first+1) << 8 | ...]: eight configurations in a word. *)
Definition pmpcfg_read (self : Pmp) (first : nat) : Z :=
  foldl (fun acc i => Z.lor acc (Z.shiftl (pmp_get_cfg self (first + i)) (Z.of_nat i * 8))) 0 (seq 0 8).
(** [for i in 0..8 { set_cfg(first + i, (val >> (i * 8)) & 0xFF) }] *)
Definition pmpcfg_write (self : Pmp) (first : nat) (val : Z) : Pmp :=
  foldl (fun p i => pmp_set_cfg p (first + i) (Z.land (Z.shiftr val (Z.of_nat i * 8)) 0xFF)) self (seq 0 8).

Definition csr_read (self : Cpu) (x : Z) : Z :=
  let c := csrs self in
  if x =? CSR_FFLAGS then Z.land (fflags c) 0x1F
  else if x =? CSR_FRM then Z.land (frm c) 0x7
  else if x =? CSR_FCSR then fcsr_read c
  else if (x =? CSR_MVENDORID) || (x =? CSR_MARCHID) || (x =? CSR_MIMPID) || (x =? CSR_MHARTID) then 0
  else if x =? CSR_MSTATUS then status_read (mstatus c)
  else if x =? CSR_MEDELEG then medeleg c
  else if x =? CSR_MIDELEG then mideleg c
  else if x =? CSR_MIE then mie c
  else if x =? CSR_MTVEC then mtvec c
  else if x =? CSR_MISA then misa c
  else if x =? CSR_MSCRATCH then mscratch c
  else if x =? CSR_MEPC then mepc c
  else if x =? CSR_MCAUSE then mcause c
  else if x =? CSR_MTVAL then mtval c
  else if x =? CSR_MIP then mip c
  else if x =? CSR_SSTATUS then status_read (sstatus c)
  else if x =? CSR_SIE then Z.land (mie c) (mideleg c)
  else if x =? CSR_STVEC then stvec c
  else if x =? CSR_SSCRATCH then sscratch c
  else if x =? CSR_SEPC then sepc c
  else if x =? CSR_SCAUSE then scause c
  else if x =? CSR_STVAL then stval c
  else if x =? CSR_SIP then Z.land (mip c) (mideleg c)
  else if x =? CSR_STIMECMP then stimecmp c
  else if x =? CSR_SATP then satp c
  else if x =? CSR_MCOUNTEREN then mcounteren c
  else if x =? CSR_SCOUNTEREN then scounteren c
  else if x =? CSR_MENVCFG then menvcfg c
  else if (x =? CSR_CYCLE) || (x =? CSR_MCYCLE) then cycles self
  else if x =? CSR_TIME then cycles self / clint_divider self
  else if (x =? CSR_INSTRET) || (x =? CSR_MINSTRET) then instructions_retired self
  else if x =? 0x3A0 then pmpcfg_read (pmp self) 0
  else if x =? 0x3A2 then pmpcfg_read (pmp self) 8
  else if (0x3B0 <=? x) && (x <=? 0x3BF) then pmp_get_addr (pmp self) (Z.to_nat (x - 0x3B0))
  else 0.

Definition MSTATUS_WRITABLE : Z :=
  foldl Z.lor MSTATUS_SIE [MSTATUS_MIE; MSTATUS_SPIE; MSTATUS_MPIE; MSTATUS_SPP; MSTATUS_MPP; MSTATUS_FS;
    MSTATUS_MPRV; MSTATUS_SUM; MSTATUS_MXR; MSTATUS_TVM; MSTATUS_TW; MSTATUS_TSR].
Definition SSTATUS_WRITABLE : Z :=
  foldl Z.lor MSTATUS_SIE [MSTATUS_SPIE; MSTATUS_SPP; MSTATUS_FS; MSTATUS_SUM; MSTATUS_MXR].
Definition MIE_WRITABLE : Z := foldl Z.lor MIE_SSIP [MIE_MSIP; MIE_STIE; MIE_MTIE; MIE_SEIP; MIE_MEIP].
(** The supervisor interrupts, which are delegable and writable in [mip]. *)
Definition S_INTERRUPTS : Z := Z.lor (Z.lor MIP_SSIP MIP_STIP) MIP_SEIP.

(** [(x & !mask) | (val & mask)] *)
Definition merge_bits (x val mask : Z) : Z := Z.lor (Z.land x (not64 mask)) (Z.land val mask).

(** FS becomes Dirty in [mstatus] and [sstatus]. *)
Definition fs_dirty (st : Z) : Z := Z.lor (Z.land st (not64 MSTATUS_FS)) MSTATUS_FS_DIRTY.
Definition set_fs_dirty (c : Csrs) : Csrs :=
  c <| mstatus := fs_dirty (mstatus c) |> <| sstatus := fs_dirty (sstatus c) |>.

Definition write_mstatus (c : Csrs) (val : Z) : Csrs :=
  let preserved := Z.land (mstatus c) (Z.lor MSTATUS_UXL MSTATUS_SXL) in
  let st := Z.lor (Z.land val MSTATUS_WRITABLE) preserved in
  let mpp := Z.land (Z.shiftr st MSTATUS_MPP_SHIFT) MSTATUS_MPP_MASK in
  let st := if mpp =? 2 then Z.land st (not64 MSTATUS_MPP) else st in
  c <| mstatus := st |> <| sstatus := Z.land st SSTATUS_MASK |>.
Definition write_sstatus (c : Csrs) (val : Z) : Csrs :=
  let st := merge_bits (mstatus c) val SSTATUS_WRITABLE in
  c <| mstatus := st |> <| sstatus := Z.land st (Z.lor SSTATUS_WRITABLE MSTATUS_UXL) |>.

(** Reserved vector modes 2 and 3 are cleared to Direct. *)
Definition tvec_warl (val : Z) : Z := if 2 <=? Z.land val 3 then Z.land val (not64 3) else val.

Definition write_satp (self : Cpu) (val : Z) : Cpu :=
  let mode := satp_mode val in
  let new_val := if (mode =? SATP_MODE_SV39) || (mode =? SATP_MODE_BARE) then val
                 else Z.land val (not64 (shl64 SATP_MODE_MASK SATP_MODE_SHIFT)) in
  let m := mmu self in
  self <| csrs := (csrs self) <| satp := new_val |> |>
       <| l1_i_cache := (cs_invalidate_all (l1_i_cache self)).2 |>
       <| l1_d_cache := (cs_flush (l1_d_cache self)).2 |>
       <| mmu := m <| dtlb := tlb_flush (dtlb m) |> <| itlb := tlb_flush (itlb m) |>
                   <| l2_tlb := l2_flush (l2_tlb m) |> |>.

Definition csr_write (self : Cpu) (x : Z) (val : Z) : Cpu :=
  let c := csrs self in
  let put c' := self <| csrs := c' |> in
  if x =? CSR_FFLAGS then put (set_fs_dirty (c <| fflags := Z.land val 0x1F |>))
  else if x =? CSR_FRM then put (set_fs_dirty (c <| frm := Z.land val 0x7 |>))
  else if x =? CSR_FCSR then
    put (set_fs_dirty (c <| fflags := Z.land val 0x1F |> <| frm := Z.land (Z.shiftr val 5) 0x7 |>))
  else if x =? CSR_SIM_PANIC then trap self (RequestedTrap val) (pc self)
  else if x =? CSR_MSTATUS then put (write_mstatus c val)
  else if x =? CSR_MEDELEG then put (c <| medeleg := Z.land val (not64 (2 ^ 11)) |>)
  else if x =? CSR_MIDELEG then put (c <| mideleg := Z.land val S_INTERRUPTS |>)
  else if x =? CSR_MIE then put (c <| mie := Z.land val MIE_WRITABLE |>)
  else if x =? CSR_MTVEC then put (c <| mtvec := tvec_warl val |>)
  else if x =? CSR_MISA then self
  else if x =? CSR_MSCRATCH then put (c <| mscratch := val |>)
  else if x =? CSR_MEPC then put (c <| mepc := Z.land val (not64 1) |>)
  else if x =? CSR_MCAUSE then put (c <| mcause := val |>)
  else if x =? CSR_MTVAL then put (c <| mtval := val |>)
  else if x =? CSR_MIP then
    (put (c <| mip := merge_bits (mip c) val S_INTERRUPTS |>)) <| sw_seip := has_bits val MIP_SEIP |>
  else if x =? CSR_SSTATUS then put (write_sstatus c val)
  else if x =? CSR_SIE then put (c <| mie := merge_bits (mie c) val (mideleg c) |>)
  else if x =? CSR_STVEC then put (c <| stvec := tvec_warl val |>)
  else if x =? CSR_SSCRATCH then put (c <| sscratch := val |>)
  else if x =? CSR_SEPC then put (c <| sepc := Z.land val (not64 1) |>)
  else if x =? CSR_SCAUSE then put (c <| scause := val |>)
  else if x =? CSR_STVAL then put (c <| stval := val |>)
  else if x =? CSR_SIP then put (c <| mip := merge_bits (mip c) val (Z.land (mideleg c) MIP_SSIP) |>)
  else if x =? CSR_MCOUNTEREN then put (c <| mcounteren := Z.land val 0x7 |>)
  else if x =? CSR_SCOUNTEREN then put (c <| scounteren := Z.land val 0x7 |>)
  else if x =? CSR_MENVCFG then put (c <| menvcfg := val |>)
  else if x =? CSR_MCYCLE then self <| cycles := val |>
  else if x =? CSR_MINSTRET then self <| instructions_retired := val |>
  else if x =? 0x3A0 then self <| pmp := pmpcfg_write (pmp self) 0 val |>
  else if x =? 0x3A2 then self <| pmp := pmpcfg_write (pmp self) 8 val |>
  else if (0x3B0 <=? x) && (x <=? 0x3BF) then self <| pmp := pmp_set_addr (pmp self) (Z.to_nat (x - 0x3B0)) val |>
  else if x =? CSR_STIMECMP then
    put (c <| stimecmp := val |> <| mip := Z.land (mip c) (not64 MIP_STIP) |>)
  else if x =? CSR_SATP then write_satp self val
  else self.

(** ** Interrupts *)

Definition irq_to_trap (bit : Z) : Trap :=
  if bit =? MIP_USIP then UserSoftwareInterrupt
  else if bit =? MIP_SSIP then SupervisorSoftwareInterrupt
  else if bit =? MIP_MSIP then MachineSoftwareInterrupt
  else if bit =? MIP_STIP then SupervisorTimerInterrupt
  else if bit =? MIP_UEIP then UserExternalInterrupt
  else if bit =? MIP_SEIP then SupervisorExternalInterrupt
  else if bit =? MIP_MEIP then MachineExternalInterrupt
  else MachineTimerInterrupt.

(** The closure of [check_interrupts]. *)
Definition check_irq (self : Cpu) (bit enable_bit deleg_bit : Z) : option Trap :=
  let c := csrs self in
  if negb (has_bits (mip c) bit) || negb (has_bits (mie c) enable_bit) then None else
  let target_priv := if has_bits (mideleg c) deleg_bit then Supervisor else Machine in
  if priv_to_u8 (privilege self) <? priv_to_u8 target_priv then Some (irq_to_trap bit) else
  if bool_decide (privilege self = target_priv) then
    if bool_decide (target_priv = Machine) && has_bits (mstatus c) MSTATUS_MIE then Some (irq_to_trap bit)
    else if bool_decide (target_priv = Supervisor) && has_bits (mstatus c) MSTATUS_SIE then Some (irq_to_trap bit)
    else None
  else None.

Definition or_else {X} (a b : option X) : option X := match a with Some _ => a | None => b end.
Definition check_interrupts (self : Cpu) : option Trap :=
  or_else (or_else (or_else (or_else (or_else
    (check_irq self MIP_MEIP MIE_MEIP (2 ^ 11))
    (check_irq self MIP_MSIP MIE_MSIP (2 ^ 3)))
    (check_irq self MIP_MTIP MIE_MTIE (2 ^ 7)))
    (check_irq self MIP_SEIP MIE_SEIP (2 ^ 9)))
    (check_irq self MIP_SSIP MIE_SSIP (2 ^ 1)))
    (check_irq self MIP_STIP MIE_STIE (2 ^ 5)).

(** [pre_tick] from the interrupt lines on: [mip] and the cycle counters. *)
Definition track_mode_cycles (self : Cpu) : Cpu :=
  match privilege self with
  | User => self <| cycles_user := add64 (cycles_user self) 1 |>
  | Supervisor => self <| cycles_kernel := add64 (cycles_kernel self) 1 |>
  | Machine => self <| cycles_machine := add64 (cycles_machine self) 1 |>
  end.
Definition tick_mip (self : Cpu) (timer_irq msip meip seip : bool) : Z :=
  let m := mip (csrs self) in
  let m := put_bits timer_irq MIP_MTIP m in
  let m := put_bits msip MIP_MSIP m in
  let m := put_bits meip MIP_MEIP m in
  let m := if seip then Z.lor m MIP_SEIP else if negb (sw_seip self) then Z.land m (not64 MIP_SEIP) else m in
  if has_bits (menvcfg (csrs self)) MENVCFG_STCE
  then put_bits (stimecmp (csrs self) <=? cycles self / clint_divider self) MIP_STIP m
  else m.
Definition tick_interrupts (self : Cpu) (timer_irq msip meip seip : bool) : Cpu :=
  let self := self <| csrs := (csrs self) <| mip := tick_mip self timer_irq msip meip seip |> |> in
  track_mode_cycles (self <| cycles := add64 (cycles self) 1 |>).

(** ** SFENCE.VMA *)

Definition sfence_mmu (m : Mmu) (info : SfenceVmaInfo) : Mmu :=
  let vpn := va_vpn (rs1_val info) in
  let asid := u16 (rs2_val info) in
  match negb (reg_is_zero (rs1_idx info)), negb (reg_is_zero (rs2_idx info)) with
  | false, false => m <| dtlb := tlb_flush (dtlb m) |> <| itlb := tlb_flush (itlb m) |> <| l2_tlb := l2_flush (l2_tlb m) |>
  | true, false => m <| dtlb := tlb_flush_vaddr (dtlb m) vpn |> <| itlb := tlb_flush_vaddr (itlb m) vpn |>
                     <| l2_tlb := l2_flush_vaddr (l2_tlb m) vpn |>
  | false, true => m <| dtlb := tlb_flush_asid (dtlb m) asid |> <| itlb := tlb_flush_asid (itlb m) asid |>
                     <| l2_tlb := l2_flush_asid (l2_tlb m) asid |>
  | true, true => m <| dtlb := tlb_flush_vaddr_asid (dtlb m) vpn asid |>
                    <| itlb := tlb_flush_vaddr_asid (itlb m) vpn asid |>
                    <| l2_tlb := l2_flush_vaddr_asid (l2_tlb m) vpn asid |>
  end.
Definition sfence_vma_commit (self : Cpu) (info : SfenceVmaInfo) : Cpu :=
  let self := self <| mmu := sfence_mmu (mmu self) info |> in
  if reg_is_zero (rs1_idx info) && reg_is_zero (rs2_idx info)
  then self <| l1_d_cache := (cs_flush (l1_d_cache self)).2 |>
            <| l1_i_cache := (cs_invalidate_all (l1_i_cache self)).2 |>
  else self.

(** ** Address translation *)

(** What [Cpu::translate] asks of the bus besides reads. *)
Class AddressBus (B : Type) `{Bus B} := { is_valid_address : B -> Z -> bool }.

Section Translate.
Context {B : Type} `{AddressBus B}.

Definition effective_priv (self : Cpu) (access : AccessType) : PrivilegeMode :=
  if negb (bool_decide (access = Fetch)) && has_bits (mstatus (csrs self)) MSTATUS_MPRV
  then priv_from_u8 (u8 (Z.land (Z.shiftr (mstatus (csrs self)) MSTATUS_MPP_SHIFT) MSTATUS_MPP_MASK))
  else privilege self.

Definition cpu_translate (self : Cpu) (bus : B) (vaddr : Z) (access : AccessType) (size : Z)
    : TranslationResult * Cpu * B :=
  if direct_mode self then
    if negb (is_valid_address bus vaddr) then (tr_fault (access_fault vaddr access) 0, self, bus)
    else (tr_success vaddr 0, self, bus)
  else
  let effective := effective_priv self access in
  let '(result, m, bus) := translate_with_pmp (mmu self) vaddr access effective (csrs self) bus (Some (pmp self)) in
  let self := self <| mmu := m |> in
  match tr_trap result with
  | None =>
      let r := pmp_check (pmp self) (tr_paddr result) size (bool_decide (access = Read))
                 (bool_decide (access = Write)) (bool_decide (access = Fetch)) (bool_decide (effective = Machine)) in
      if bool_decide (r = PmpAllow) then (result, self, bus)
      else (tr_fault (access_fault vaddr access) (tr_cycles result), self, bus)
  | Some _ => (result, self, bus)
  end.

End Translate.
