(* ===== verification/CpuProps.v ===== *)
(** The privileged state of the hart: the WARL invariant of the CSR file, trap
    entry and return, interrupt selection. *)
From S2P Require Import Prelude Common Csr Pmp Policy Prefetch Cache Tlb Mmu Cpu.

Set Primitive Projections.
Local Open Scope Z_scope.

(** ** Masks bit by bit *)

Lemma lor_in_width (w a b : Z) : 0 <= w -> in_width w a -> in_width w b -> in_width w (Z.lor a b).
Proof.
  intros Hw Ha Hb. assert (wrap w (Z.lor a b) = Z.lor a b) as <-; [|by apply wrap_range].
  apply Z.bits_inj'. intros i Hi. rewrite wrap_testbit, Z.lor_spec by done.
  destruct (Z.ltb_spec i w); [done|]. by rewrite (testbit_above w a), (testbit_above w b).
Qed.

(** [x & !m] *)
Lemma land_not64 (x m : Z) : in_width 64 x -> in_width 64 m -> Z.land x (not64 m) = Z.ldiff x m.
Proof.
  intros Hx Hm. apply Z.bits_inj'. intros i Hi. rewrite Z.land_spec, Z.ldiff_spec, not64_testbit by done.
  destruct (Z.ltb_spec i 64); [done|]. by rewrite (testbit_above 64 x).
Qed.
Lemma ldiff_in_width (w x m : Z) : 0 <= w -> in_width w x -> in_width w (Z.ldiff x m).
Proof. intros. rewrite Z.ldiff_land. by apply land_in_width. Qed.

Lemma put_bits_eq on m x : in_width 64 x -> in_width 64 m -> put_bits on m x = if on then Z.lor x m else Z.ldiff x m.
Proof. intros. unfold put_bits. destruct on; [done|]. by apply land_not64. Qed.
Lemma put_bits_in_width on m x : in_width 64 x -> in_width 64 m -> in_width 64 (put_bits on m x).
Proof. intros. unfold put_bits. destruct on; [by apply lor_in_width|by apply land_in_width]. Qed.

Lemma put_bits_testbit on m x i :
  in_width 64 x -> in_width 64 m ->
  Z.testbit (put_bits on m x) i = if Z.testbit m i then on else Z.testbit x i.
Proof.
  intros. rewrite put_bits_eq by done. destruct on.
  - rewrite Z.lor_spec. by destruct (Z.testbit m i), (Z.testbit x i).
  - destruct (decide (0 <= i)); [|by rewrite !Z.testbit_neg_r by lia; destruct (Z.testbit m i)].
    rewrite Z.ldiff_spec. by destruct (Z.testbit m i), (Z.testbit x i).
Qed.

Lemma clear_testbit x m i :
  in_width 64 x -> in_width 64 m -> Z.testbit (Z.land x (not64 m)) i = Z.testbit x i && negb (Z.testbit m i).
Proof. intros. by rewrite land_not64, Z.ldiff_spec by done. Qed.
Lemma merge_testbit x val m i :
  in_width 64 x -> in_width 64 m -> Z.testbit (merge_bits x val m) i = if Z.testbit m i then Z.testbit val i else Z.testbit x i.
Proof.
  intros. unfold merge_bits. rewrite Z.lor_spec, clear_testbit, Z.land_spec by done.
  by destruct (Z.testbit m i), (Z.testbit x i), (Z.testbit val i).
Qed.

(** Two constant masks share no bit. *)
Lemma disjoint_bits (m m' i : Z) : Z.land m m' = 0 -> Z.testbit m i && Z.testbit m' i = false.
Proof. intros E. by rewrite <-Z.land_spec, E, Z.bits_0. Qed.

Lemma view_eq (s m : Z) :
  (forall i, 0 <= i -> Z.testbit s i = Z.testbit m i && Z.testbit SSTATUS_MASK i) -> s = Z.land m SSTATUS_MASK.
Proof. intros H. apply Z.bits_inj'. intros i Hi. by rewrite H, Z.land_spec. Qed.

(** ** The WARL invariant *)

Record status_ok (c : Csrs) : Prop := {
  st_width : in_width 64 (mstatus c);
  st_view : sstatus c = Z.land (mstatus c) SSTATUS_MASK;
  st_mpp : Z.testbit (mstatus c) 12 = true -> Z.testbit (mstatus c) 11 = true;
  st_xlen : Z.testbit (mstatus c) 32 = false /\ Z.testbit (mstatus c) 33 = true /\
            Z.testbit (mstatus c) 34 = false /\ Z.testbit (mstatus c) 35 = true
}.

Record csrs_ok (c : Csrs) : Prop := {
  ok_status : status_ok c;
  ok_medeleg : Z.testbit (medeleg c) 11 = false;
  ok_mideleg : Z.land (mideleg c) S_INTERRUPTS = mideleg c;
  ok_mie : Z.land (mie c) MIE_WRITABLE = mie c;
  ok_mtvec : Z.testbit (mtvec c) 1 = false;
  ok_stvec : Z.testbit (stvec c) 1 = false;
  ok_satp : satp_mode (satp c) = SATP_MODE_BARE \/ satp_mode (satp c) = SATP_MODE_SV39;
  ok_mcounteren : in_width 3 (mcounteren c);
  ok_scounteren : in_width 3 (scounteren c)
}.

(** An update of [mstatus] and [sstatus] that keeps the other registers. *)
Definition same_others (c c' : Csrs) : Prop :=
  medeleg c' = medeleg c /\ mideleg c' = mideleg c /\ mie c' = mie c /\ mtvec c' = mtvec c /\ stvec c' = stvec c /\
  satp c' = satp c /\ mcounteren c' = mcounteren c /\ scounteren c' = scounteren c.
Lemma csrs_ok_status c c' : csrs_ok c -> status_ok c' -> same_others c c' -> csrs_ok c'.
Proof.
  intros [] H (E1 & E2 & E3 & E4 & E5 & E6 & E7 & E8). constructor; [done|rewrite E1|rewrite E2|rewrite E3|rewrite E4|rewrite E5|rewrite E6|rewrite E7|rewrite E8]; done.
Qed.

(** A new [mstatus] that changes only fields outside the view, and [MPP], [UXL], [SXL] legally. *)
Lemma status_ok_m c c' keep :
  status_ok c -> sstatus c' = sstatus c -> in_width 64 (mstatus c') ->
  (forall i, 0 <= i -> Z.testbit keep i = true -> Z.testbit (mstatus c') i = Z.testbit (mstatus c) i) ->
  Z.land SSTATUS_MASK keep = SSTATUS_MASK -> Z.land 0xF00000000 keep = 0xF00000000 ->
  (Z.testbit (mstatus c') 12 = true -> Z.testbit (mstatus c') 11 = true) -> status_ok c'.
Proof.
  intros [Hw Hv Hm Hx] Es Hw' Hk Hsub Hsub' Hm'. constructor; [done| |done|].
  - rewrite Es, Hv. apply Z.bits_inj'. intros i Hi. rewrite !Z.land_spec.
    destruct (Z.testbit SSTATUS_MASK i) eqn:Eb; [|by rewrite !andb_false_r]. rewrite Hk; [done|done|].
    rewrite <-Hsub, Z.land_spec in Eb. by to_prop.
  - assert (forall i, 0 <= i -> Z.testbit 0xF00000000 i = true -> Z.testbit (mstatus c') i = Z.testbit (mstatus c) i) as H.
    { intros i Hi Eb. apply Hk; [done|]. rewrite <-Hsub', Z.land_spec in Eb. by to_prop. }
    by rewrite !H by done.
Qed.

Lemma subset_bits (m M i : Z) : Z.land m M = m -> Z.testbit m i = true -> Z.testbit M i = true.
Proof. intros E Hm. rewrite <-E, Z.land_spec in Hm. by to_prop. Qed.

(** An update of the fields in [S] made in both registers. *)
Lemma status_ok_both c c' S :
  status_ok c -> in_width 64 (mstatus c') -> Z.land S SSTATUS_MASK = S -> Z.land S 0xF00001800 = 0 ->
  (forall i, 0 <= i -> Z.testbit S i = true -> Z.testbit (mstatus c') i = Z.testbit (sstatus c') i) ->
  (forall i, 0 <= i -> Z.testbit S i = false -> Z.testbit (mstatus c') i = Z.testbit (mstatus c) i /\
                                                 Z.testbit (sstatus c') i = Z.testbit (sstatus c) i) ->
  status_ok c'.
Proof.
  intros [Hw Hv Hm Hx] Hw' Hsub Hdisj Hin Hout.
  assert (Hkeep : forall i, 0 <= i -> Z.testbit 0xF00001800 i = true -> Z.testbit (mstatus c') i = Z.testbit (mstatus c) i).
  { intros i Hi Hb. apply Hout; [done|]. pose proof (disjoint_bits S 0xF00001800 i Hdisj) as Hd. rewrite Hb in Hd.
    by rewrite andb_true_r in Hd. }
  constructor; [done| | |by rewrite !Hkeep].
  - apply view_eq. intros i Hi. destruct (Z.testbit S i) eqn:Es.
    + by rewrite Hin, (subset_bits S _ i Hsub Es), andb_true_r.
    + destruct (Hout i Hi Es) as [-> ->]. by rewrite Hv, Z.land_spec.
  - by rewrite !Hkeep.
Qed.

Lemma sstatus_in_width c : status_ok c -> in_width 64 (sstatus c).
Proof. intros [Hw -> _ _]. by apply land_in_width. Qed.

(** A constant mask fits in 64 bits. *)
Ltac mask_width := match goal with |- in_width 64 _ => by split end.

Lemma set_fs_dirty_ok c : status_ok c -> status_ok (set_fs_dirty c).
Proof.
  intros Hc. pose proof (sstatus_in_width c Hc) as Hs. pose proof (st_width c Hc) as Hw.
  assert (Hfs : forall x i, in_width 64 x -> Z.testbit (fs_dirty x) i = if Z.testbit MSTATUS_FS i then true else Z.testbit x i).
  { intros x i Hx. unfold fs_dirty. rewrite Z.lor_spec, clear_testbit by (done || mask_width).
    change MSTATUS_FS_DIRTY with MSTATUS_FS. by destruct (Z.testbit x i), (Z.testbit MSTATUS_FS i). }
  apply (status_ok_both c _ MSTATUS_FS); [done| |done|done| |].
  - apply lor_in_width; [done|by apply land_in_width|mask_width].
  - intros i Hi Hb. change (mstatus (set_fs_dirty c)) with (fs_dirty (mstatus c)).
    change (sstatus (set_fs_dirty c)) with (fs_dirty (sstatus c)). by rewrite !Hfs, Hb by done.
  - intros i Hi Hb. change (mstatus (set_fs_dirty c)) with (fs_dirty (mstatus c)).
    change (sstatus (set_fs_dirty c)) with (fs_dirty (sstatus c)). by rewrite !Hfs, Hb by done.
Qed.

Lemma write_mstatus_ok c val : status_ok c -> in_width 64 val -> status_ok (write_mstatus c val).
Proof.
  intros [Hw Hv Hm Hx] Hval. unfold write_mstatus.
  set (st := Z.lor _ _). assert (Hst : in_width 64 st) by (apply lor_in_width; [done|by apply land_in_width..]).
  set (st' := if _ =? 2 then _ else _). assert (Hst' : in_width 64 st') by (unfold st'; case_bool; [by apply land_in_width|done]).
  assert (Hxl : forall i, Z.testbit 0xF00000000 i = true -> Z.testbit st' i = Z.testbit (mstatus c) i).
  { intros i Hi. assert (Z.testbit st i = Z.testbit (mstatus c) i) as <-.
    { unfold st. change (Z.lor MSTATUS_UXL MSTATUS_SXL) with 0xF00000000. rewrite Z.lor_spec, !Z.land_spec, Hi, andb_true_r.
      pose proof (disjoint_bits MSTATUS_WRITABLE 0xF00000000 i eq_refl) as Hd. rewrite Hi, andb_true_r in Hd. by rewrite Hd, andb_false_r. }
    unfold st'. case_bool; [|done]. rewrite clear_testbit by (done || mask_width).
    pose proof (disjoint_bits MSTATUS_MPP 0xF00000000 i eq_refl) as Hd. rewrite Hi, andb_true_r in Hd. by rewrite Hd, andb_true_r. }
  set (c' := c <| mstatus := st' |> <| sstatus := Z.land st' SSTATUS_MASK |>).
  assert (Em : mstatus c' = st') by done. constructor; rewrite ?Em; [done|done| |by rewrite !Hxl].
  unfold st'. destruct (Z.eqb_spec (Z.land (Z.shiftr st MSTATUS_MPP_SHIFT) MSTATUS_MPP_MASK) 2) as [E|E].
  - rewrite clear_testbit by (done || mask_width). by rewrite andb_false_r.
  - intros H12. destruct (Z.testbit st 11) eqn:H11; [done|]. destruct E. apply Z.bits_inj'. intros i Hi.
    unfold MSTATUS_MPP_SHIFT, MSTATUS_MPP_MASK. rewrite Z.land_spec, Z.shiftr_spec by done.
    destruct (decide (i = 0)) as [->|]; [change (0 + 11) with 11; by rewrite H11|].
    destruct (decide (i = 1)) as [->|]; [change (1 + 11) with 12; by rewrite H12|].
    assert (Z.testbit 3 i = false) as -> by (apply (testbit_above 2); [by split|lia]).
    assert (Z.testbit 2 i = false) as -> by (apply (testbit_above 2); [by split|lia]). apply andb_false_r.
Qed.

Lemma write_sstatus_ok c val : status_ok c -> in_width 64 val -> status_ok (write_sstatus c val).
Proof.
  intros [Hw Hv Hm Hx] Hval. unfold write_sstatus. set (st := merge_bits _ _ _).
  assert (Hst : in_width 64 st) by (apply lor_in_width; [done|by apply land_in_width..]).
  assert (Hk : forall i, Z.testbit SSTATUS_WRITABLE i = false -> Z.testbit st i = Z.testbit (mstatus c) i).
  { intros i Hi. unfold st. by rewrite merge_testbit, Hi by (done || mask_width). }
  match goal with |- status_ok ?x => set (c' := x) end.
  assert (Em : mstatus c' = st) by done. constructor; rewrite ?Em; [done|done| |]; by rewrite !Hk.
Qed.

Lemma trap_to_s_ok self b code tval epc : status_ok (csrs self) -> status_ok (csrs (trap_to_s self b code tval epc)).
Proof.
  intros Hc. pose proof (sstatus_in_width _ Hc) as Hs. pose proof (st_width _ Hc) as Hw. unfold trap_to_s. cbn.
  set (s1 := put_bits _ MSTATUS_SPIE (sstatus (csrs self))). set (s2 := put_bits _ MSTATUS_SPP s1).
  assert (H1 : in_width 64 s1) by (apply put_bits_in_width; [done|mask_width]).
  assert (H2 : in_width 64 s2) by (apply put_bits_in_width; [done|mask_width]).
  set (s' := Z.land s2 (not64 MSTATUS_SIE)). assert (Hs' : in_width 64 s') by (by apply land_in_width).
  assert (Hbit : forall i, Z.testbit SIE_SPIE_SPP i = false -> Z.testbit s' i = Z.testbit (sstatus (csrs self)) i).
  { intros i Hb. unfold SIE_SPIE_SPP in Hb. rewrite !Z.lor_spec in Hb. apply orb_false_elim in Hb as [Hb Hb3].
    apply orb_false_elim in Hb as [Hb1 Hb2]. unfold s', s2, s1. rewrite clear_testbit, Hb1, andb_true_r by (done || mask_width).
    rewrite put_bits_testbit, Hb3 by (done || mask_width). by rewrite put_bits_testbit, Hb2 by (done || mask_width). }
  match goal with |- status_ok ?x => set (c' := x) end.
  assert (Em : mstatus c' = merge_bits (mstatus (csrs self)) s' SIE_SPIE_SPP) by done.
  assert (Es : sstatus c' = s') by done.
  apply (status_ok_both (csrs self) _ SIE_SPIE_SPP); [done| |done|done| |]; rewrite ?Em, ?Es.
  - apply lor_in_width; [done|by apply land_in_width..].
  - intros i Hi Hb. rewrite merge_testbit by (done || mask_width). by rewrite Hb.
  - intros i Hi Hb. rewrite merge_testbit by (done || mask_width).
    rewrite Hb. split; [done|]. by apply Hbit.
Qed.

(** The fields that machine-level updates leave alone. *)
Definition KEEP : Z := Z.lor SSTATUS_MASK 0xF00000000.

Lemma status_ok_keep c c' :
  status_ok c -> sstatus c' = sstatus c -> in_width 64 (mstatus c') ->
  (forall i, Z.testbit KEEP i = true -> Z.testbit (mstatus c') i = Z.testbit (mstatus c) i) ->
  (Z.testbit (mstatus c') 12 = true -> Z.testbit (mstatus c') 11 = true) -> status_ok c'.
Proof. intros Hc Es Hw Hk. apply (status_ok_m c c' KEEP); auto. Qed.

(** A field outside [KEEP] has no bit of it. *)
Lemma off_keep m i : Z.land m KEEP = 0 -> Z.testbit KEEP i = true -> Z.testbit m i = false.
Proof. intros E Hi. pose proof (disjoint_bits m KEEP i E) as Hd. by rewrite Hi, andb_true_r in Hd. Qed.

Lemma mpp_field p : in_width 64 (Z.shiftl (priv_to_u8 p) MSTATUS_MPP_SHIFT) /\
  Z.land (Z.shiftl (priv_to_u8 p) MSTATUS_MPP_SHIFT) KEEP = 0.
Proof. by destruct p. Qed.

Lemma trap_to_m_ok self b code tval epc : status_ok (csrs self) -> status_ok (csrs (trap_to_m self b code tval epc)).
Proof.
  intros Hc. pose proof (st_width _ Hc) as Hw. unfold trap_to_m. cbn.
  set (s1 := put_bits _ MSTATUS_MPIE (mstatus (csrs self))).
  assert (H1 : in_width 64 s1) by (apply put_bits_in_width; [done|mask_width]).
  set (s2 := Z.land s1 (not64 MSTATUS_MPP)). assert (H2 : in_width 64 s2) by (by apply land_in_width).
  destruct (mpp_field (privilege self)) as [Hf1 Hf2]. set (f := Z.shiftl (priv_to_u8 (privilege self)) MSTATUS_MPP_SHIFT) in *.
  assert (H3 : in_width 64 (Z.lor s2 f)) by (by apply lor_in_width).
  match goal with |- status_ok ?x => set (c' := x) end.
  assert (Em : mstatus c' = Z.land (Z.lor s2 f) (not64 MSTATUS_MIE)) by done.
  apply (status_ok_keep (csrs self)); [done|done|rewrite Em; by apply land_in_width| |]; rewrite Em.
  - intros i Hi. rewrite clear_testbit, Z.lor_spec by (done || mask_width). unfold s2, s1.
    rewrite clear_testbit, put_bits_testbit by (done || mask_width).
    rewrite (off_keep MSTATUS_MIE), (off_keep MSTATUS_MPP), (off_keep MSTATUS_MPIE), (off_keep f) by done.
    by rewrite orb_false_r, !andb_true_r.
  - rewrite !clear_testbit, !Z.lor_spec by (done || mask_width). unfold s2.
    rewrite !clear_testbit by (done || mask_width). change (Z.testbit MSTATUS_MPP 12) with true.
    change (Z.testbit MSTATUS_MPP 11) with true. rewrite !andb_false_r. unfold f. by destruct (privilege self).
Qed.

Lemma do_mret_ok self : status_ok (csrs self) -> status_ok (csrs (do_mret self)).
Proof.
  intros Hc. pose proof (st_width _ Hc) as Hw. unfold do_mret, clear_reservation. cbn.
  set (s1 := put_bits _ MSTATUS_MIE (mstatus (csrs self))).
  assert (H1 : in_width 64 s1) by (apply put_bits_in_width; [done|mask_width]).
  set (s2 := Z.lor s1 MSTATUS_MPIE). assert (H2 : in_width 64 s2) by (apply lor_in_width; [done|done|mask_width]).
  set (s3 := Z.land s2 (not64 MSTATUS_MPP)). assert (H3 : in_width 64 s3) by (by apply land_in_width).
  match goal with |- status_ok ?x => set (c' := x) end.
  set (b := negb (Z.land (Z.shiftr (mstatus (csrs self)) MSTATUS_MPP_SHIFT) MSTATUS_MPP_MASK =? priv_to_u8 Machine)).
  assert (Em : mstatus c' = if b then Z.land s3 (not64 MSTATUS_MPRV) else s3) by done.
  assert (H3k : forall i, Z.testbit KEEP i = true -> Z.testbit s3 i = Z.testbit (mstatus (csrs self)) i).
  { intros i Hi. unfold s3, s2, s1. rewrite clear_testbit, Z.lor_spec, put_bits_testbit by (done || mask_width).
    rewrite (off_keep MSTATUS_MIE), (off_keep MSTATUS_MPP), (off_keep MSTATUS_MPIE) by done.
    by rewrite orb_false_r, andb_true_r. }
  assert (H12 : Z.testbit s3 12 = false).
  { unfold s3. rewrite clear_testbit by (done || mask_width). apply andb_false_r. }
  apply (status_ok_keep (csrs self)); [done|done|rewrite Em; by destruct b; [apply land_in_width|]| |]; rewrite Em.
  - intros i Hi. rewrite <-H3k by done. destruct b; [|done]. rewrite clear_testbit by (done || mask_width).
    rewrite (off_keep MSTATUS_MPRV i) by done. apply andb_true_r.
  - destruct b; [rewrite clear_testbit by (done || mask_width)|]; by rewrite H12.
Qed.

Lemma do_sret_ok self : status_ok (csrs self) -> status_ok (csrs (do_sret self)).
Proof.
  intros Hc. pose proof (sstatus_in_width _ Hc) as Hs. pose proof (st_width _ Hc) as Hw.
  unfold do_sret, clear_reservation. cbn.
  set (s1 := put_bits _ MSTATUS_SIE (sstatus (csrs self))).
  assert (H1 : in_width 64 s1) by (apply put_bits_in_width; [done|mask_width]).
  set (s2 := Z.lor s1 MSTATUS_SPIE). assert (H2 : in_width 64 s2) by (apply lor_in_width; [done|done|mask_width]).
  set (s3 := Z.land s2 (not64 MSTATUS_SPP)). assert (H3 : in_width 64 s3) by (by apply land_in_width).
  set (c1 := (csrs self) <| sstatus := s3 |> <| mstatus := merge_bits (mstatus (csrs self)) s3 SIE_SPIE_SPP |>).
  assert (Hc1 : status_ok c1).
  { assert (Em : mstatus c1 = merge_bits (mstatus (csrs self)) s3 SIE_SPIE_SPP) by done.
    assert (Es : sstatus c1 = s3) by done.
    apply (status_ok_both (csrs self) c1 SIE_SPIE_SPP); [done| |done|done| |]; rewrite ?Em, ?Es.
    - apply lor_in_width; [done|by apply land_in_width..].
    - intros i Hi Hb. rewrite merge_testbit by (done || mask_width). by rewrite Hb.
    - intros i Hi Hb. rewrite merge_testbit by (done || mask_width). rewrite Hb. split; [done|].
      unfold SIE_SPIE_SPP in Hb. rewrite !Z.lor_spec in Hb. apply orb_false_elim in Hb as [Hb Hb3].
      apply orb_false_elim in Hb as [Hb1 Hb2]. unfold s3, s2, s1.
      rewrite clear_testbit, Z.lor_spec, put_bits_testbit, Hb1, Hb2, Hb3 by (done || mask_width).
      by rewrite orb_false_r, andb_true_r. }
  match goal with |- status_ok ?x => set (c' := x) end.
  assert (Em : mstatus c' = Z.land (mstatus c1) (not64 MSTATUS_MPRV)) by done. pose proof (st_width _ Hc1) as Hw1.
  apply (status_ok_keep c1); [done|done|rewrite Em; by apply land_in_width| |]; rewrite Em.
  - intros i Hi. rewrite clear_testbit, (off_keep MSTATUS_MPRV i) by (done || mask_width). apply andb_true_r.
  - rewrite !clear_testbit by (done || mask_width). change (Z.testbit MSTATUS_MPRV 12) with false.
    change (Z.testbit MSTATUS_MPRV 11) with false. rewrite !andb_true_r. apply (st_mpp _ Hc1).
Qed.

(** ** The invariant holds for ever *)

Inductive hart_op :=
| HartCsrWrite (x val : Z)
| HartTrap (cause : Trap) (epc : Z)
| HartMret | HartSret
| HartFpDirty
| HartTick (timer_irq msip meip seip : bool)
| HartSfence (info : SfenceVmaInfo)
| HartReserve (addr : Z).
Definition hart_exec (self : Cpu) (op : hart_op) : Cpu :=
  match op with
  | HartCsrWrite x val => csr_write self x val
  | HartTrap cause epc => trap self cause epc
  | HartMret => do_mret self
  | HartSret => do_sret self
  | HartFpDirty => self <| csrs := set_fs_dirty (csrs self) |>
  | HartTick t m me s => tick_interrupts self t m me s
  | HartSfence info => sfence_vma_commit self info
  | HartReserve addr => set_reservation self addr
  end.
Definition hart_op_ok (op : hart_op) : Prop := match op with HartCsrWrite _ val => in_width 64 val | _ => True end.

Lemma trap_csrs_ok self cause epc : csrs_ok (csrs self) -> csrs_ok (csrs (trap self cause epc)).
Proof.
  intros Hc. unfold trap. change (direct_mode (self <| load_reservation := None |>)) with (direct_mode self).
  destruct (direct_mode self); [by repeat case_match|]. destruct (trap_code cause) as [b code]. cbv zeta.
  set (s := self <| load_reservation := None |>). assert (csrs_ok (csrs s)) as Hs by done.
  change (csrs (?x <| traps_taken := ?y |>)) with (csrs x). destruct (delegates s b code).
  - apply (csrs_ok_status (csrs s)); [done| |done]. apply trap_to_s_ok, Hs.
  - apply (csrs_ok_status (csrs s)); [done| |done]. apply trap_to_m_ok, Hs.
Qed.

Lemma land_idem (a m : Z) : Z.land (Z.land a m) m = Z.land a m.
Proof. by rewrite <-Z.land_assoc, Z.land_diag. Qed.

Lemma tvec_warl_ok val : in_width 64 val -> Z.testbit (tvec_warl val) 1 = false.
Proof.
  intros Hv. unfold tvec_warl. destruct (Z.leb_spec 2 (Z.land val 3)) as [H|H].
  - rewrite clear_testbit by (done || mask_width). apply andb_false_r.
  - change 3 with (2 ^ 2 - 1) in H. rewrite land_low_mask in H by lia. pose proof (Z.mod_pos_bound val (2 ^ 2)).
    rewrite <-(Z.mod_pow2_bits_low val 2 1) by lia. apply (testbit_above 1); [unfold in_width|]; lia.
Qed.

Lemma merge_subset x val m M :
  Z.land x M = x -> Z.land m M = m -> Z.land (merge_bits x val m) M = merge_bits x val m.
Proof.
  intros Hx Hm. unfold merge_bits. rewrite Z.land_lor_distr_l. f_equal.
  - rewrite <-Z.land_assoc, (Z.land_comm _ M), Z.land_assoc. by rewrite Hx.
  - by rewrite <-Z.land_assoc, Hm.
Qed.

Lemma satp_warl_mode val :
  in_width 64 val ->
  let val' := if (satp_mode val =? SATP_MODE_SV39) || (satp_mode val =? SATP_MODE_BARE) then val
              else Z.land val (not64 (shl64 SATP_MODE_MASK SATP_MODE_SHIFT)) in
  satp_mode val' = SATP_MODE_BARE \/ satp_mode val' = SATP_MODE_SV39.
Proof.
  intros Hv. destruct (Z.eqb_spec (satp_mode val) SATP_MODE_SV39); [by right|].
  destruct (Z.eqb_spec (satp_mode val) SATP_MODE_BARE); [by left|]. left. cbn [orb].
  unfold satp_mode, SATP_MODE_SHIFT, SATP_MODE_MASK. apply Z.bits_inj'. intros i Hi.
  rewrite Z.land_spec, Z.shiftr_spec, clear_testbit, Z.testbit_0_l by (done || mask_width).
  destruct (Z.ltb_spec i 4).
  - assert (i = 0 \/ i = 1 \/ i = 2 \/ i = 3) as [->|[->|[->| ->]]] by lia; by rewrite andb_false_r.
  - assert (Z.testbit 15 i = false) as -> by (apply (testbit_above 4); [by split|done]). apply andb_false_r.
Qed.

Lemma width3 val : in_width 3 (Z.land val 0x7).
Proof. change 0x7 with (2 ^ 3 - 1). rewrite land_low_mask by lia. apply Z.mod_pos_bound. lia. Qed.

Lemma status_ok_same c c' : status_ok c -> mstatus c' = mstatus c -> sstatus c' = sstatus c -> status_ok c'.
Proof. intros [] Em Es. constructor; by rewrite ?Em, ?Es. Qed.

(** Registers other than the status ones, each with its own legal values. *)
Lemma csrs_ok_fields c c' :
  csrs_ok c -> mstatus c' = mstatus c -> sstatus c' = sstatus c ->
  (medeleg c' = medeleg c \/ Z.testbit (medeleg c') 11 = false) ->
  (mideleg c' = mideleg c \/ Z.land (mideleg c') S_INTERRUPTS = mideleg c') ->
  (mie c' = mie c \/ Z.land (mie c') MIE_WRITABLE = mie c') ->
  (mtvec c' = mtvec c \/ Z.testbit (mtvec c') 1 = false) -> (stvec c' = stvec c \/ Z.testbit (stvec c') 1 = false) ->
  (satp c' = satp c \/ satp_mode (satp c') = SATP_MODE_BARE \/ satp_mode (satp c') = SATP_MODE_SV39) ->
  (mcounteren c' = mcounteren c \/ in_width 3 (mcounteren c')) ->
  (scounteren c' = scounteren c \/ in_width 3 (scounteren c')) -> csrs_ok c'.
Proof.
  intros [] Em Es H1 H2 H3 H4 H5 H6 H7 H8. constructor; [by eapply status_ok_same|..].
  - destruct H1 as [-> |]; done.
  - destruct H2 as [-> |]; done.
  - destruct H3 as [-> |]; done.
  - destruct H4 as [-> |]; done.
  - destruct H5 as [-> |]; done.
  - destruct H6 as [-> |]; done.
  - destruct H7 as [-> |]; done.
  - destruct H8 as [-> |]; done.
Qed.

Lemma mideleg_writable c : csrs_ok c -> Z.land (mideleg c) MIE_WRITABLE = mideleg c.
Proof.
  intros Hc. rewrite <-(ok_mideleg c Hc), <-Z.land_assoc. by change (Z.land S_INTERRUPTS MIE_WRITABLE) with S_INTERRUPTS.
Qed.

Lemma csr_write_ok self x val : in_width 64 val -> csrs_ok (csrs self) -> csrs_ok (csrs (csr_write self x val)).
Proof.
  intros Hv Hc. pose proof (ok_status _ Hc) as Hst. pose proof (mideleg_writable _ Hc) as Hmd.
  pose proof (ok_mie _ Hc) as Hmie. unfold csr_write. cbv zeta.
  repeat match goal with |- csrs_ok (csrs (if ?b then _ else _)) => destruct b end; try exact Hc.
  all: try (by apply trap_csrs_ok).
  all: try (apply (csrs_ok_status (csrs self)); [done|apply set_fs_dirty_ok; by eapply status_ok_same|done]).
  all: try (apply (csrs_ok_status (csrs self)); [done|by apply write_mstatus_ok|done]).
  all: try (apply (csrs_ok_status (csrs self)); [done|by apply write_sstatus_ok|done]).
  all: apply (csrs_ok_fields (csrs self)); try done; try (by left); right;
    first [exact (eq_trans (clear_testbit val (2 ^ 11) 11 Hv ltac:(mask_width)) (andb_false_r _)) | apply land_idem
          | by apply tvec_warl_ok | by apply merge_subset | apply width3 | by apply satp_warl_mode].
Qed.

Lemma tick_csrs_ok self t m me s : csrs_ok (csrs self) -> csrs_ok (csrs (tick_interrupts self t m me s)).
Proof.
  intros Hc. unfold tick_interrupts, track_mode_cycles.
  destruct (privilege _); apply (csrs_ok_fields (csrs self)); try done; by left.
Qed.

Lemma hart_exec_ok self op : hart_op_ok op -> csrs_ok (csrs self) -> csrs_ok (csrs (hart_exec self op)).
Proof.
  intros Hop Hc. destruct op; cbn [hart_exec hart_op_ok] in *.
  - by apply csr_write_ok.
  - by apply trap_csrs_ok.
  - apply (csrs_ok_status (csrs self)); [done|apply do_mret_ok, Hc|done].
  - apply (csrs_ok_status (csrs self)); [done|apply do_sret_ok, Hc|done].
  - apply (csrs_ok_status (csrs self)); [done|apply set_fs_dirty_ok, Hc|done].
  - by apply tick_csrs_ok.
  - unfold sfence_vma_commit. by case_match.
  - done.
Qed.

Lemma reset_csrs_ok direct misa : csrs_ok (reset_csrs direct misa).
Proof.
  constructor; [constructor|..]; try (by destruct direct); try (left; by destruct direct); by destruct direct; split.
Qed.

(** C29. From reset on, whatever CSR writes, traps, trap returns, floating-point
    writes, timer ticks and fences a hart executes: [sstatus] is exactly the
    supervisor view of [mstatus], MPP never holds the reserved mode, UXL and SXL
    stay at 64 bits, environment calls from machine mode and machine interrupts
    are never delegated, only implemented interrupts are enabled, trap vectors
    are direct or vectored, [satp] selects bare or SV39 and the counter enables
    keep to three bits. *)
Theorem csr_warl_invariant (self : Cpu) (direct : bool) (misa : Z) (ops : list hart_op) :
  csrs self = reset_csrs direct misa -> Forall hart_op_ok ops ->
  csrs_ok (csrs (foldl hart_exec self ops)).
Proof.
  intros E Hf. assert (csrs_ok (csrs self)) as Hc by (rewrite E; apply reset_csrs_ok). clear E.
  revert self Hc. induction Hf as [|op ops Hop Hf IH]; intros self Hc; [done|]. apply IH. by apply hart_exec_ok.
Qed.

(** ** Trap entry and return, field by field *)

Lemma bit_mask_testbit (n i : Z) : 0 <= n -> Z.testbit (2 ^ n) i = (i =? n).
Proof. intros. rewrite Z.pow2_bits_eqb by done. apply Z.eqb_sym. Qed.
Lemma mpp_mask_testbit (i : Z) : Z.testbit MSTATUS_MPP i = (i =? 11) || (i =? 12).
Proof.
  change MSTATUS_MPP with (Z.lor (2 ^ 11) (2 ^ 12)). by rewrite Z.lor_spec, !bit_mask_testbit by lia.
Qed.
Lemma has_bit (x n : Z) : 0 <= n -> has_bits x (2 ^ n) = Z.testbit x n.
Proof. apply has_bits_pow2. Qed.

(** [mstatus] after a trap into machine mode. *)
Lemma trap_to_m_bits self b code tval epc i :
  in_width 64 (mstatus (csrs self)) ->
  Z.testbit (mstatus (csrs (trap_to_m self b code tval epc))) i =
  if i =? 3 then false
  else if (i =? 11) || (i =? 12) then Z.testbit (Z.shiftl (priv_to_u8 (privilege self)) 11) i
  else if i =? 7 then Z.testbit (mstatus (csrs self)) 3 else Z.testbit (mstatus (csrs self)) i.
Proof.
  intros Hw. set (m := mstatus (csrs self)) in *.
  change (mstatus (csrs (trap_to_m self b code tval epc))) with
    (Z.land (Z.lor (Z.land (put_bits (has_bits m MSTATUS_MIE) MSTATUS_MPIE m) (not64 MSTATUS_MPP))
       (Z.shiftl (priv_to_u8 (privilege self)) MSTATUS_MPP_SHIFT)) (not64 MSTATUS_MIE)).
  assert (H1 : in_width 64 (put_bits (has_bits m MSTATUS_MIE) MSTATUS_MPIE m)) by (apply put_bits_in_width; [done|mask_width]).
  destruct (mpp_field (privilege self)) as [Hf _].
  rewrite clear_testbit; [|apply lor_in_width; [done|by apply land_in_width|done]|mask_width].
  rewrite Z.lor_spec, clear_testbit, put_bits_testbit by (done || mask_width).
  unfold MSTATUS_MIE, MSTATUS_MPIE, MSTATUS_MPP_SHIFT. rewrite has_bit, mpp_mask_testbit, !bit_mask_testbit by lia.
  destruct (Z.eqb_spec i 3); [by rewrite andb_false_r|].
  destruct ((i =? 11) || (i =? 12)) eqn:E; [by rewrite andb_false_r, andb_true_r|]. rewrite !andb_true_r.
  assert (Z.testbit (Z.shiftl (priv_to_u8 (privilege self)) 11) i = false) as ->; [|by rewrite orb_false_r].
  apply orb_false_elim in E as [E1 E2]. to_prop. destruct (Z.ltb_spec i 0); [by apply Z.testbit_neg_r|].
  destruct (Z.ltb_spec i 11); [by rewrite Z.shiftl_spec, Z.testbit_neg_r by lia|].
  apply (testbit_above 13); [by destruct (privilege self)|lia].
Qed.

(** [sstatus] after a trap into supervisor mode. *)
Lemma trap_to_s_bits self b code tval epc i :
  in_width 64 (sstatus (csrs self)) ->
  Z.testbit (sstatus (csrs (trap_to_s self b code tval epc))) i =
  if i =? 1 then false else if i =? 8 then bool_decide (privilege self = Supervisor)
  else if i =? 5 then Z.testbit (sstatus (csrs self)) 1 else Z.testbit (sstatus (csrs self)) i.
Proof.
  intros Hw. set (m := sstatus (csrs self)) in *.
  change (sstatus (csrs (trap_to_s self b code tval epc))) with
    (Z.land (put_bits (bool_decide (privilege self = Supervisor)) MSTATUS_SPP (put_bits (has_bits m MSTATUS_SIE) MSTATUS_SPIE m))
       (not64 MSTATUS_SIE)).
  assert (H1 : in_width 64 (put_bits (has_bits m MSTATUS_SIE) MSTATUS_SPIE m)) by (apply put_bits_in_width; [done|mask_width]).
  rewrite clear_testbit; [|apply put_bits_in_width; [done|mask_width]|mask_width].
  rewrite put_bits_testbit, put_bits_testbit by (done || mask_width).
  unfold MSTATUS_SIE, MSTATUS_SPIE, MSTATUS_SPP. rewrite has_bit, !bit_mask_testbit by lia.
  destruct (Z.eqb_spec i 1); [by rewrite andb_false_r|]. by rewrite andb_true_r.
Qed.

Lemma do_mret_bits self i :
  in_width 64 (mstatus (csrs self)) ->
  Z.testbit (mstatus (csrs (do_mret self))) i =
  if (i =? 11) || (i =? 12) then false else if i =? 7 then true
  else if i =? 3 then Z.testbit (mstatus (csrs self)) 7
  else if (i =? 17) && negb (bool_decide (Z.testbit (mstatus (csrs self)) 11 = true /\ Z.testbit (mstatus (csrs self)) 12 = true))
  then false else Z.testbit (mstatus (csrs self)) i.
Proof.
  intros Hw. set (m := mstatus (csrs self)) in *. set (mpp := Z.land (Z.shiftr m MSTATUS_MPP_SHIFT) MSTATUS_MPP_MASK).
  set (s := Z.land (Z.lor (put_bits (has_bits m MSTATUS_MPIE) MSTATUS_MIE m) MSTATUS_MPIE) (not64 MSTATUS_MPP)).
  change (mstatus (csrs (do_mret self))) with
    (if negb (mpp =? priv_to_u8 Machine) then Z.land s (not64 MSTATUS_MPRV) else s).
  assert (H1 : in_width 64 (put_bits (has_bits m MSTATUS_MPIE) MSTATUS_MIE m)) by (apply put_bits_in_width; [done|mask_width]).
  assert (H2 : in_width 64 (Z.lor (put_bits (has_bits m MSTATUS_MPIE) MSTATUS_MIE m) MSTATUS_MPIE)) by (apply lor_in_width; [done|done|mask_width]).
  assert (Hs : in_width 64 s) by (by apply land_in_width).
  assert (Hb : Z.testbit s i = if (i =? 11) || (i =? 12) then false else if i =? 7 then true
    else if i =? 3 then Z.testbit m 7 else Z.testbit m i).
  { unfold s. rewrite clear_testbit, Z.lor_spec, put_bits_testbit by (done || mask_width).
    unfold MSTATUS_MIE, MSTATUS_MPIE. rewrite has_bit, mpp_mask_testbit, !bit_mask_testbit by lia.
    destruct ((i =? 11) || (i =? 12)); [by rewrite andb_false_r|]. rewrite andb_true_r.
    destruct (Z.eqb_spec i 7); [by rewrite orb_true_r|]. by rewrite orb_false_r. }
  assert (Hmpp : (mpp =? priv_to_u8 Machine) = bool_decide (Z.testbit m 11 = true /\ Z.testbit m 12 = true)).
  { assert (mpp = Z.b2z (Z.testbit m 11) + 2 * Z.b2z (Z.testbit m 12)) as ->; [|by destruct (Z.testbit m 11), (Z.testbit m 12)].
    unfold mpp, MSTATUS_MPP_SHIFT, MSTATUS_MPP_MASK. rewrite !Z.testbit_spec', Z.shiftr_div_pow2 by lia.
    change 3 with (2 ^ 2 - 1). rewrite land_low_mask by lia. change (2 ^ 2) with (2 * 2).
    rewrite Z.rem_mul_r by lia. change (2 ^ 12) with (2 ^ 11 * 2). by rewrite <-Z.div_div by lia. }
  rewrite Hmpp. destruct (bool_decide _); cbn [negb].
  - rewrite andb_false_r. by rewrite Hb.
  - rewrite clear_testbit, Hb by (done || mask_width). unfold MSTATUS_MPRV. rewrite bit_mask_testbit, andb_true_r by lia.
    destruct (Z.eqb_spec i 17) as [->|]; [by rewrite andb_false_r|by rewrite andb_true_r].
Qed.

(** [MPP], bits 12:11, as written by a trap. *)
Lemma mpp_written self b code tval epc :
  in_width 64 (mstatus (csrs self)) ->
  Z.land (Z.shiftr (mstatus (csrs (trap_to_m self b code tval epc))) MSTATUS_MPP_SHIFT) MSTATUS_MPP_MASK
  = priv_to_u8 (privilege self).
Proof.
  intros Hw. apply Z.bits_inj'. intros i Hi. unfold MSTATUS_MPP_SHIFT, MSTATUS_MPP_MASK.
  rewrite Z.land_spec, Z.shiftr_spec, trap_to_m_bits by done. destruct (Z.ltb_spec i 2).
  - assert (i = 0 \/ i = 1) as [-> | ->] by lia; by destruct (privilege self).
  - assert (Z.testbit 3 i = false) as -> by (apply (testbit_above 2); [by split|done]). rewrite andb_false_r. symmetry.
    apply (testbit_above 2); [by destruct (privilege self)|done].
Qed.

Lemma trap_unfold self cause epc :
  direct_mode self = false ->
  let s := self <| load_reservation := None |> in
  let '(irq, code) := trap_code cause in
  trap self cause epc =
  (if delegates s irq code then trap_to_s s irq code (trap_tval cause) epc else trap_to_m s irq code (trap_tval cause) epc)
    <| traps_taken := add64 (traps_taken self) 1 |>.
Proof.
  intros Hd s. unfold trap. change (direct_mode (self <| load_reservation := None |>)) with (direct_mode self). rewrite Hd.
  destruct (trap_code cause) as [irq code]. cbv zeta. fold s. by destruct (delegates s irq code).
Qed.

(** The supervisor state a delegated trap leaves. *)
Record entered_s (self self' : Cpu) (irq : bool) (code tval epc : Z) : Prop := {
  es_priv : privilege self' = Supervisor;
  es_pc : pc self' = tvec_target (stvec (csrs self)) irq code;
  es_cause : scause (csrs self') = (if irq then Z.lor CAUSE_INTERRUPT_BIT code else code);
  es_epc : sepc (csrs self') = epc;
  es_tval : stval (csrs self') = tval;
  es_spp : Z.testbit (sstatus (csrs self')) 8 = bool_decide (privilege self = Supervisor);
  es_spie : Z.testbit (sstatus (csrs self')) 5 = Z.testbit (sstatus (csrs self)) 1;
  es_sie : Z.testbit (sstatus (csrs self')) 1 = false;
  es_machine : mepc (csrs self') = mepc (csrs self) /\ mcause (csrs self') = mcause (csrs self) /\
               mtval (csrs self') = mtval (csrs self)
}.
(** The machine state any other trap leaves. *)
Record entered_m (self self' : Cpu) (irq : bool) (code tval epc : Z) : Prop := {
  em_priv : privilege self' = Machine;
  em_pc : pc self' = tvec_target (mtvec (csrs self)) irq code;
  em_cause : mcause (csrs self') = (if irq then Z.lor CAUSE_INTERRUPT_BIT code else code);
  em_epc : mepc (csrs self') = epc;
  em_tval : mtval (csrs self') = tval;
  em_mpp : Z.land (Z.shiftr (mstatus (csrs self')) MSTATUS_MPP_SHIFT) MSTATUS_MPP_MASK = priv_to_u8 (privilege self);
  em_mpie : Z.testbit (mstatus (csrs self')) 7 = Z.testbit (mstatus (csrs self)) 3;
  em_mie : Z.testbit (mstatus (csrs self')) 3 = false;
  em_super : sepc (csrs self') = sepc (csrs self) /\ scause (csrs self') = scause (csrs self) /\
             stval (csrs self') = stval (csrs self) /\ sstatus (csrs self') = sstatus (csrs self)
}.

(** Trap entry outside direct mode: a trap is taken in supervisor mode
    exactly when the hart is not in machine mode and the delegation register has
    the cause's bit, and in machine mode otherwise; the cause, the faulting
    address, the return address, the previous privilege and the interrupt-enable
    stack land in the registers of that mode and the other mode's are untouched;
    privilege never drops, reservations are lost, and environment calls from
    machine mode and machine interrupts are never delegated. *)
Theorem trap_entry (self : Cpu) (cause : Trap) (epc : Z) :
  direct_mode self = false -> csrs_ok (csrs self) ->
  let self' := trap self cause epc in
  let '(irq, code) := trap_code cause in
  let deleg := if irq then mideleg (csrs self) else medeleg (csrs self) in
  (if negb (bool_decide (privilege self = Machine)) && Z.testbit deleg (code mod 64)
   then entered_s self self' irq code (trap_tval cause) epc else entered_m self self' irq code (trap_tval cause) epc) /\
  priv_to_u8 (privilege self) <= priv_to_u8 (privilege self') /\ load_reservation self' = None /\
  (cause = EnvironmentCallFromMMode \/ cause = MachineTimerInterrupt \/ cause = MachineSoftwareInterrupt \/
   cause = MachineExternalInterrupt -> privilege self' = Machine).
Proof.
  intros Hd Hc self'. pose proof (trap_unfold self cause epc Hd) as Hu. fold self' in Hu.
  pose proof (ok_medeleg _ Hc) as Hme. pose proof (ok_mideleg _ Hc) as Hmi.
  destruct (trap_code cause) as [irq code] eqn:Etc. cbv zeta in Hu. set (s := self <| load_reservation := None |>) in *.
  assert (Hdel : delegates s irq code = negb (bool_decide (privilege self = Machine)) &&
    Z.testbit (if irq then mideleg (csrs self) else medeleg (csrs self)) (code mod 64)).
  { unfold delegates. rewrite bit_at_testbit by (apply Z.mod_pos_bound; lia). done. }
  assert (Hno : forall n, (n =? 1) || (n =? 5) || (n =? 9) = false -> Z.testbit (mideleg (csrs self)) n = false).
  { intros n Hn. rewrite <-Hmi, Z.land_spec.
    change S_INTERRUPTS with (Z.lor (Z.lor (2 ^ 1) (2 ^ 5)) (2 ^ 9)). rewrite !Z.lor_spec, !bit_mask_testbit by lia.
    rewrite Hn. apply andb_false_r. }
  cbv zeta. rewrite <-Hdel. destruct (delegates s irq code) eqn:Ed.
  - pose proof (sstatus_in_width _ (ok_status _ Hc)) as Hw.
    assert (entered_s self self' irq code (trap_tval cause) epc) as He.
    { rewrite Hu. constructor; try done; exact (trap_to_s_bits s irq code (trap_tval cause) epc _ Hw). }
    symmetry in Hdel. apply andb_prop in Hdel as [Hp Hb]. split_and!; [done| |by rewrite Hu|].
    + rewrite (es_priv _ _ _ _ _ _ He). destruct (privilege self); simpl; [lia|lia|done].
    + intros Hcs. exfalso. destruct Hcs as [->|[->|[->| ->]]]; injection Etc as <- <-; rewrite Z.mod_small in Hb by lia;
        [by rewrite Hme in Hb|by rewrite Hno in Hb..].
  - pose proof (st_width _ (ok_status _ Hc)) as Hw.
    assert (entered_m self self' irq code (trap_tval cause) epc) as He.
    { rewrite Hu. constructor; try done; [exact (mpp_written s irq code (trap_tval cause) epc Hw)|..];
        exact (trap_to_m_bits s irq code (trap_tval cause) epc _ Hw). }
    split_and!; [done| |by rewrite Hu|intros _; apply He].
    rewrite (em_priv _ _ _ _ _ _ He). destruct (privilege self); simpl; lia.
Qed.

Lemma view_bit c i : status_ok c -> Z.testbit SSTATUS_MASK i = true -> Z.testbit (mstatus c) i = Z.testbit (sstatus c) i.
Proof. intros [_ -> _ _] Hi. by rewrite Z.land_spec, Hi, andb_true_r. Qed.

(** A supervisor return: [SIE] from [SPIE], [MIE] untouched. *)
Lemma do_sret_bits self :
  status_ok (csrs self) ->
  Z.testbit (sstatus (csrs (do_sret self))) 1 = Z.testbit (sstatus (csrs self)) 5 /\
  Z.testbit (mstatus (csrs (do_sret self))) 3 = Z.testbit (mstatus (csrs self)) 3.
Proof.
  intros Hc. pose proof (sstatus_in_width _ Hc) as Hs. pose proof (st_width _ Hc) as Hw.
  set (s := sstatus (csrs self)) in *. set (m := mstatus (csrs self)) in *.
  set (n := Z.land (Z.lor (put_bits (has_bits s MSTATUS_SPIE) MSTATUS_SIE s) MSTATUS_SPIE) (not64 MSTATUS_SPP)).
  assert (H1 : in_width 64 (put_bits (has_bits s MSTATUS_SPIE) MSTATUS_SIE s)) by (apply put_bits_in_width; [done|mask_width]).
  assert (H2 : in_width 64 (Z.lor (put_bits (has_bits s MSTATUS_SPIE) MSTATUS_SIE s) MSTATUS_SPIE)) by (apply lor_in_width; [done|done|mask_width]).
  assert (Hn : in_width 64 n) by (by apply land_in_width).
  change (sstatus (csrs (do_sret self))) with n.
  change (mstatus (csrs (do_sret self))) with (Z.land (merge_bits m n SIE_SPIE_SPP) (not64 MSTATUS_MPRV)).
  assert (H3 : in_width 64 (merge_bits m n SIE_SPIE_SPP)) by (apply lor_in_width; [done|by apply land_in_width..]).
  split.
  - unfold n. rewrite clear_testbit, Z.lor_spec, put_bits_testbit by (done || mask_width).
    change (Z.testbit MSTATUS_SIE 1) with true. change (Z.testbit MSTATUS_SPIE 1) with false.
    change (Z.testbit MSTATUS_SPP 1) with false. rewrite orb_false_r, andb_true_r. exact (has_bit s 5 ltac:(lia)).
  - rewrite clear_testbit, merge_testbit by (done || mask_width). apply andb_true_r.
Qed.

Lemma even_align (x : Z) : in_width 64 x -> Z.even x = true -> Z.land x (not64 1) = x.
Proof.
  intros Hx He. rewrite land_not64 by (done || mask_width). apply Z.bits_inj'. intros i Hi.
  rewrite Z.ldiff_spec. destruct (decide (i = 0)) as [->|Hne].
  - rewrite Z.bit0_odd, <-Z.negb_even, He. done.
  - change 1 with (2 ^ 0). rewrite bit_mask_testbit by lia. by rewrite (proj2 (Z.eqb_neq i 0)), andb_true_r.
Qed.

(** C30. Returning from a trap resumes the interrupted context: after any trap
    outside direct mode, the return instruction of the mode that took it
    restores the privilege mode, the program counter and both
    interrupt-enable bits. *)
Theorem trap_return_roundtrip (self : Cpu) (cause : Trap) (epc : Z) :
  direct_mode self = false -> csrs_ok (csrs self) -> in_width 64 epc -> Z.even epc = true ->
  let entered := trap self cause epc in
  let resumed := if decide (privilege entered = Supervisor) then do_sret entered else do_mret entered in
  privilege resumed = privilege self /\ pc resumed = epc /\
  Z.testbit (mstatus (csrs resumed)) 1 = Z.testbit (mstatus (csrs self)) 1 /\
  Z.testbit (mstatus (csrs resumed)) 3 = Z.testbit (mstatus (csrs self)) 3.
Proof.
  intros Hd Hc He Heven entered resumed. pose proof (trap_unfold self cause epc Hd) as Hu. fold entered in Hu.
  pose proof (ok_status _ Hc) as Hst. pose proof (st_width _ Hst) as Hw. pose proof (sstatus_in_width _ Hst) as Hsw.
  pose proof (ok_status _ (trap_csrs_ok self cause epc Hc)) as Hst'. fold entered in Hst'.
  destruct (trap_code cause) as [irq code]. cbv zeta in Hu. set (s := self <| load_reservation := None |>) in *.
  destruct (delegates s irq code) eqn:Ed.
  - pose proof (trap_to_s_bits s irq code (trap_tval cause) epc) as Hb. specialize (fun i => Hb i Hsw).
    assert (privilege entered = Supervisor) as Hp by (by rewrite Hu). unfold resumed. rewrite decide_True by done.
    assert (Hes : sstatus (csrs entered) = sstatus (csrs (trap_to_s s irq code (trap_tval cause) epc))) by (by rewrite Hu).
    destruct (do_sret_bits entered Hst') as [Hb1 Hb3]. split_and!.
    + change (privilege (do_sret entered)) with (if has_bits (sstatus (csrs entered)) (2 ^ 8) then Supervisor else User).
      rewrite has_bit, Hes, Hb by lia. unfold delegates in Ed. apply andb_prop in Ed as [Hm _].
      change (privilege s) with (privilege self) in *. by destruct (privilege self).
    + change (pc (do_sret entered)) with (Z.land (sepc (csrs entered)) (not64 1)).
      assert (sepc (csrs entered) = epc) as -> by (by rewrite Hu). by apply even_align.
    + rewrite (view_bit _ 1 (do_sret_ok _ Hst')) by done. rewrite Hb1, Hes, Hb. symmetry. by apply view_bit.
    + rewrite Hb3, Hu. set (n := sstatus (csrs (trap_to_s s irq code (trap_tval cause) epc))).
      change (Z.testbit (merge_bits (mstatus (csrs self)) n SIE_SPIE_SPP) 3 = Z.testbit (mstatus (csrs self)) 3).
      by rewrite merge_testbit by (done || mask_width).
  - pose proof (trap_to_m_bits s irq code (trap_tval cause) epc) as Hb. specialize (fun i => Hb i Hw).
    assert (privilege entered = Machine) as Hp by (by rewrite Hu). unfold resumed. rewrite decide_False by congruence.
    assert (Hem : mstatus (csrs entered) = mstatus (csrs (trap_to_m s irq code (trap_tval cause) epc))) by (by rewrite Hu).
    pose proof (mpp_written s irq code (trap_tval cause) epc Hw) as Hmpp. rewrite <-Hem in Hmpp, Hb. split_and!.
    + change (privilege (do_mret entered)) with
        (priv_from_u8 (u8 (Z.land (Z.shiftr (mstatus (csrs entered)) MSTATUS_MPP_SHIFT) MSTATUS_MPP_MASK))).
      rewrite Hmpp. change (privilege s) with (privilege self). by destruct (privilege self).
    + change (pc (do_mret entered)) with (Z.land (mepc (csrs entered)) (not64 1)).
      assert (mepc (csrs entered) = epc) as -> by (by rewrite Hu). by apply even_align.
    + rewrite do_mret_bits by (by apply st_width). exact (Hb 1).
    + rewrite do_mret_bits by (by apply st_width). exact (Hb 7).
Qed.

(** ** Witnesses *)

Definition demo_l1 : CacheSim DynPolicy DynPrefetcher :=
  cs_new 3 true 256 64 2 (fun s w => DynLru (lru_new s w)) (Some (DynNextLine (next_line_new 64 1))).
Definition demo_hart : Cpu :=
  {| regs := regs_new; pc := 0x80000000; csrs := reset_csrs false 0x800000000014112D; privilege := Machine;
     load_reservation := None; mmu := mmu_new 16 16 2 4 true; pmp := pmp_new; l1_i_cache := demo_l1;
     l1_d_cache := demo_l1; exit_code := None; direct_mode := false; clint_divider := 10; sw_seip := false;
     cycles := 0; instructions_retired := 0; traps_taken := 0; cycles_user := 0; cycles_kernel := 0; cycles_machine := 0 |}.

(** Boot code: vectors, delegation of the supervisor timer and of environment
    calls from user mode, interrupts on, then a return to user mode. *)
Definition demo_boot : list hart_op :=
  [HartCsrWrite CSR_MTVEC 0x80000101; HartCsrWrite CSR_STVEC 0x80200001; HartCsrWrite CSR_MIDELEG 0xFFFF;
   HartCsrWrite CSR_MEDELEG 0xFFFF; HartCsrWrite CSR_MIE 0xFFFF; HartCsrWrite CSR_MSTATUS 0x2A;
   HartCsrWrite CSR_MEPC 0x80400001; HartMret; HartCsrWrite CSR_SIP 0x2].
Definition demo_user : Cpu := foldl hart_exec demo_hart demo_boot.

Lemma demo_boot_ok : Forall hart_op_ok demo_boot.
Proof. by repeat constructor. Qed.

Lemma csr_warl_invariant_witness :
  privilege demo_user = User /\ mideleg (csrs demo_user) = 0x222 /\ csrs_ok (csrs demo_user).
Proof.
  split; [by vm_compute|]. split; [by vm_compute|].
  exact (csr_warl_invariant demo_hart false 0x800000000014112D demo_boot eq_refl demo_boot_ok).
Defined.

Lemma demo_user_ok : csrs_ok (csrs demo_user).
Proof.
  assert (csrs_ok (csrs demo_hart)) as H by apply reset_csrs_ok. unfold demo_user. revert H. generalize demo_hart.
  generalize demo_boot, demo_boot_ok. intros ops Hops. induction Hops as [|op ops Hop Hf IH]; intros self Hc; [done|].
  apply IH. by apply hart_exec_ok.
Qed.

Lemma trap_entry_witness :
  entered_s demo_user (trap demo_user SupervisorTimerInterrupt 0x80400002) true 5 0 0x80400002 /\
  pc (trap demo_user SupervisorTimerInterrupt 0x80400002) = 0x80200014.
Proof.
  split; [|by vm_compute].
  pose proof (trap_entry demo_user SupervisorTimerInterrupt 0x80400002 ltac:(by vm_compute) demo_user_ok) as H.
  cbn [trap_code trap_tval] in H. destruct H as [H _].
  assert (negb (bool_decide (privilege demo_user = Machine)) && Z.testbit (mideleg (csrs demo_user)) (5 mod 64) = true)
    as E by by vm_compute.
  rewrite E in H. exact H.
Defined.

Lemma trap_return_roundtrip_witness :
  pc (do_sret (trap demo_user SupervisorTimerInterrupt 0x80400002)) = 0x80400002.
Proof.
  pose proof (trap_return_roundtrip demo_user SupervisorTimerInterrupt 0x80400002 ltac:(by vm_compute) demo_user_ok
    ltac:(by split) eq_refl) as H. cbv zeta in H.
  assert (privilege (trap demo_user SupervisorTimerInterrupt 0x80400002) = Supervisor) as E by by vm_compute.
  destruct (decide _) as [_|n] in H; [|destruct (n E)]. apply H.
Defined.
