(* ===== verification/HartProps.v ===== *)
(** Interrupt selection, translation fences and PMP-checked translation of the
    hart. *)
From S2P Require Import Prelude Common Csr Pmp Policy Prefetch Cache Tlb Mmu MmuSpec Cpu CpuProps.

Set Primitive Projections.
Local Open Scope Z_scope.

(** ** Interrupts *)

(** Interrupt numbers in the order in which the code tries them. *)
Definition irq_order : list Z := [11; 3; 7; 9; 1; 5].
(** The mode an interrupt is destined for. *)
Definition irq_target (self : Cpu) (i : Z) : PrivilegeMode :=
  if Z.testbit (mideleg (csrs self)) i then Supervisor else Machine.
(** Pending, enabled, and destined for a more privileged mode or for the
    current mode with its interrupts on. *)
Definition irq_takeable (self : Cpu) (i : Z) : bool :=
  Z.testbit (mip (csrs self)) i && Z.testbit (mie (csrs self)) i &&
  match irq_target self i, privilege self with
  | Machine, Machine => Z.testbit (mstatus (csrs self)) 3
  | Machine, _ => true
  | _, User => true
  | _, Supervisor => Z.testbit (mstatus (csrs self)) 1
  | _, Machine => false
  end.
Definition irq_cause (i : Z) : Trap := irq_to_trap (2 ^ i).

Lemma check_irq_eq self i :
  0 <= i -> check_irq self (2 ^ i) (2 ^ i) (2 ^ i) = if irq_takeable self i then Some (irq_cause i) else None.
Proof.
  intros Hi. unfold check_irq, irq_takeable, irq_target, irq_cause, MSTATUS_MIE, MSTATUS_SIE.
  rewrite !has_bit by lia.
  by destruct (Z.testbit (mip (csrs self)) i), (Z.testbit (mie (csrs self)) i), (Z.testbit (mideleg (csrs self)) i),
    (privilege self), (Z.testbit (mstatus (csrs self)) 3), (Z.testbit (mstatus (csrs self)) 1).
Qed.

(** The first takeable interrupt of a list. *)
Fixpoint first_irq (self : Cpu) (order : list Z) : option Z :=
  match order with
  | [] => None
  | i :: order => if irq_takeable self i then Some i else first_irq self order
  end.

Lemma first_irq_spec self order :
  match first_irq self order with
  | Some i => exists l1 l2, order = l1 ++ i :: l2 /\ irq_takeable self i = true /\
                Forall (fun j => irq_takeable self j = false) l1
  | None => Forall (fun j => irq_takeable self j = false) order
  end.
Proof.
  induction order as [|i order IH]; simpl; [done|]. destruct (irq_takeable self i) eqn:E; [by exists [], order|].
  destruct (first_irq self order) as [j|]; [|by constructor]. destruct IH as (l1 & l2 & -> & Hj & Hf).
  exists (i :: l1), l2. split_and!; [done|done|by constructor].
Qed.

Lemma check_interrupts_eq self : check_interrupts self = irq_cause <$> first_irq self irq_order.
Proof.
  unfold check_interrupts.
  change (check_irq self MIP_MEIP MIE_MEIP (2 ^ 11)) with (check_irq self (2 ^ 11) (2 ^ 11) (2 ^ 11)).
  change (check_irq self MIP_MSIP MIE_MSIP (2 ^ 3)) with (check_irq self (2 ^ 3) (2 ^ 3) (2 ^ 3)).
  change (check_irq self MIP_MTIP MIE_MTIE (2 ^ 7)) with (check_irq self (2 ^ 7) (2 ^ 7) (2 ^ 7)).
  change (check_irq self MIP_SEIP MIE_SEIP (2 ^ 9)) with (check_irq self (2 ^ 9) (2 ^ 9) (2 ^ 9)).
  change (check_irq self MIP_SSIP MIE_SSIP (2 ^ 1)) with (check_irq self (2 ^ 1) (2 ^ 1) (2 ^ 1)).
  change (check_irq self MIP_STIP MIE_STIE (2 ^ 5)) with (check_irq self (2 ^ 5) (2 ^ 5) (2 ^ 5)).
  rewrite !check_irq_eq by done. unfold irq_order. cbn [first_irq]. by repeat case_match.
Qed.

Lemma irq_cause_code i : i ∈ irq_order -> trap_code (irq_cause i) = (true, i).
Proof. unfold irq_order. intros Hi. set_unfold in Hi. by destruct Hi as [->|[->|[->|[->|[->|[->|[]]]]]]]. Qed.

(** The state an interrupt trap leaves. *)
Lemma irq_trap_state self i epc :
  direct_mode self = false -> status_ok (csrs self) -> i ∈ irq_order -> irq_takeable self i = true ->
  let self' := trap self (irq_cause i) epc in
  privilege self' = irq_target self i /\ mip (csrs self') = mip (csrs self) /\ mie (csrs self') = mie (csrs self) /\
  mideleg (csrs self') = mideleg (csrs self) /\
  Z.testbit (mstatus (csrs self')) (if decide (irq_target self i = Supervisor) then 1 else 3) = false.
Proof.
  intros Hd Hst Hi Ht self'. pose proof (trap_unfold self (irq_cause i) epc Hd) as Hu. fold self' in Hu.
  rewrite (irq_cause_code i Hi) in Hu. cbv zeta in Hu. set (s := self <| load_reservation := None |>) in *.
  assert (delegates s true i = bool_decide (irq_target self i = Supervisor)) as Edel.
  { unfold delegates. rewrite bit_at_testbit by (apply Z.mod_pos_bound; lia).
    assert (i mod 64 = i) as -> by (apply Z.mod_small; unfold irq_order in Hi; set_unfold in Hi; lia).
    change (mideleg (csrs s)) with (mideleg (csrs self)). change (privilege s) with (privilege self).
    unfold irq_takeable, irq_target in *. destruct (Z.testbit (mideleg (csrs self)) i), (privilege self); try done.
    by rewrite andb_false_r in Ht. }
  pose proof (st_width _ Hst) as Hw. pose proof (sstatus_in_width _ Hst) as Hsw. rewrite Edel in Hu.
  unfold irq_target in *. destruct (Z.testbit (mideleg (csrs self)) i); cbn in Hu; rewrite Hu; split_and!; try done.
  - set (n := sstatus (csrs (trap_to_s s true i (trap_tval (irq_cause i)) epc))).
    change (Z.testbit (merge_bits (mstatus (csrs self)) n SIE_SPIE_SPP) 1 = false).
    rewrite merge_testbit by (done || mask_width). change (Z.testbit SIE_SPIE_SPP 1) with true. cbv iota. unfold n.
    by rewrite trap_to_s_bits.
  - exact (trap_to_m_bits s true i (trap_tval (irq_cause i)) epc 3 Hw).
Qed.

(** C31. Interrupt selection is exact and nests safely: the hart is interrupted
    exactly when some interrupt is pending, enabled and not masked by the current
    mode, by the first such interrupt in the order MEI, MSI, MTI, SEI, SSI, STI;
    the trap then enters the mode the interrupt is delegated to, and from the
    handler's first instruction on only an interrupt destined for machine mode
    can preempt a supervisor handler and none a machine handler. *)
Theorem interrupts_exact_and_nest (self : Cpu) (epc : Z) :
  direct_mode self = false -> csrs_ok (csrs self) ->
  match check_interrupts self with
  | None => Forall (fun j => irq_takeable self j = false) irq_order
  | Some cause => exists i l1 l2,
      irq_order = l1 ++ i :: l2 /\ irq_takeable self i = true /\ Forall (fun j => irq_takeable self j = false) l1 /\
      trap_code cause = (true, i) /\ privilege (trap self cause epc) = irq_target self i /\
      forall j, irq_takeable (trap self cause epc) j = true ->
        irq_target self i = Supervisor /\ irq_target self j = Machine
  end.
Proof.
  intros Hd Hc. rewrite check_interrupts_eq. pose proof (first_irq_spec self irq_order) as H.
  destruct (first_irq self irq_order) as [i|]; simpl; [|done]. destruct H as (l1 & l2 & E & Ht & Hf).
  assert (i ∈ irq_order) as Hi by (rewrite E; set_solver).
  destruct (irq_trap_state self i epc Hd (ok_status _ Hc) Hi Ht) as (Hp & _ & _ & Hmd & Hie).
  exists i, l1, l2. split_and!; [done|done|done|by apply irq_cause_code|done|]. intros j Hj.
  unfold irq_takeable, irq_target in Hj |- *. rewrite Hmd, Hp in Hj. unfold irq_target in *. to_prop.
  destruct (Z.testbit (mideleg (csrs self)) j), (Z.testbit (mideleg (csrs self)) i); try done; simpl in *; congruence.
Qed.

Lemma demo_user_trap_ok : direct_mode demo_user = false. Proof. by vm_compute. Qed.

Lemma interrupts_exact_and_nest_witness :
  let self := demo_user <| csrs := (csrs demo_user) <| mip := 0x222 |> |> in
  check_interrupts self = Some SupervisorExternalInterrupt /\
  forall j, irq_takeable (trap self SupervisorExternalInterrupt 0x80400002) j = true -> irq_target self j = Machine.
Proof.
  intros self. assert (check_interrupts self = Some SupervisorExternalInterrupt) as E by by vm_compute.
  split; [exact E|].
  assert (csrs_ok (csrs self)) as Hc by (apply (csrs_ok_status (csrs demo_user)); [apply demo_user_ok|by destruct demo_user_ok as [[] ?]|done]).
  pose proof (interrupts_exact_and_nest self 0x80400002 demo_user_trap_ok Hc) as H. rewrite E in H.
  destruct H as (i & l1 & l2 & _ & _ & _ & _ & _ & H). intros j Hj. by apply H.
Defined.

(** An interrupt destined for machine mode loses to a delegated one of higher
    number order, although the more privileged destination should win. *)
Example delegated_external_beats_machine_software :
  let self := demo_hart <| privilege := Supervisor |>
    <| csrs := (csrs demo_hart) <| mideleg := 2 ^ 9 |> <| mip := 0x202 |> <| mie := 0x202 |>
                                <| mstatus := 0xA00000002 |> |> in
  irq_target self 1 = Machine /\ irq_takeable self 1 = true /\
  check_interrupts self = Some SupervisorExternalInterrupt.
Proof. by vm_compute. Qed.

(** ** Fences *)

(** A translation of page [vpn] in address space [asid], global or not, is one
    the fence orders. *)
Definition fence_covers (info : SfenceVmaInfo) (vpn asid : Z) (global : bool) : bool :=
  (reg_is_zero (rs1_idx info) || (vpn =? va_vpn (rs1_val info))) &&
  (reg_is_zero (rs2_idx info) || (negb global && (asid =? u16 (rs2_val info)))).
Definition fence_drops (info : SfenceVmaInfo) (e : TlbEntry) : bool :=
  te_valid e && fence_covers info (te_vpn e) (te_asid e) (te_global e).

Lemma flush_all_drops info (es : list TlbEntry) :
  reg_is_zero (rs1_idx info) = true -> reg_is_zero (rs2_idx info) = true ->
  (fun e => e <| te_valid := false |>) <$> es = te_invalidate (fence_drops info) <$> es.
Proof.
  intros H1 H2. apply list_fmap_ext. intros i e _. unfold te_invalidate, fence_drops, fence_covers.
  rewrite H1, H2. destruct e as [v p []]; done.
Qed.

Lemma drops_ext info (p : TlbEntry -> bool) (es : list TlbEntry) :
  (forall e, fence_drops info e = p e) -> te_invalidate p <$> es = te_invalidate (fence_drops info) <$> es.
Proof. intros E. apply list_fmap_ext. intros i e _. unfold te_invalidate. by rewrite E. Qed.

(** The fence drops exactly the covered entries of the three TLBs. *)
Lemma sfence_entries (m : Mmu) (info : SfenceVmaInfo) :
  tlb_wf (itlb m) -> tlb_wf (dtlb m) -> l2_wf (l2_tlb m) ->
  tlb_entries (itlb (sfence_mmu m info)) = te_invalidate (fence_drops info) <$> tlb_entries (itlb m) /\
  tlb_entries (dtlb (sfence_mmu m info)) = te_invalidate (fence_drops info) <$> tlb_entries (dtlb m) /\
  l2_entries (l2_tlb (sfence_mmu m info)) = te_invalidate (fence_drops info) <$> l2_entries (l2_tlb m).
Proof.
  intros Hi Hd Hl. unfold sfence_mmu.
  destruct (reg_is_zero (rs1_idx info)) eqn:E1, (reg_is_zero (rs2_idx info)) eqn:E2; cbn [negb].
  - split_and!; by apply flush_all_drops.
  - assert (forall e, fence_drops info e = hits_asid (u16 (rs2_val info)) e) as Hp.
    { intros e. unfold fence_drops, fence_covers, hits_asid. rewrite E1, E2. simpl. by rewrite andb_assoc. }
    split_and!; by apply drops_ext.
  - assert (forall e, fence_drops info e = hits_vpn (va_vpn (rs1_val info)) e) as Hp.
    { intros e. unfold fence_drops, fence_covers, hits_vpn. rewrite E1, E2. simpl. by rewrite andb_true_r. }
    split_and!; rewrite <-(drops_ext _ _ _ Hp);
      first [apply tlb_invalidate_at_all | apply l2_invalidate_set_all]; done || apply hits_vpn_page.
  - assert (forall e, fence_drops info e = hits_vpn_asid (va_vpn (rs1_val info)) (u16 (rs2_val info)) e) as Hp.
    { intros e. unfold fence_drops, fence_covers, hits_vpn_asid. rewrite E1, E2. simpl. by rewrite !andb_assoc. }
    split_and!; rewrite <-(drops_ext _ _ _ Hp);
      first [apply tlb_invalidate_at_all | apply l2_invalidate_set_all]; done || apply hits_vpn_asid_page.
Qed.

Lemma sfence_wf (m : Mmu) (info : SfenceVmaInfo) :
  tlb_wf (itlb m) -> tlb_wf (dtlb m) -> l2_wf (l2_tlb m) ->
  let m' := sfence_mmu m info in
  tlb_wf (itlb m') /\ tlb_wf (dtlb m') /\ l2_wf (l2_tlb m') /\ software_ad_bits m' = software_ad_bits m.
Proof.
  intros Hi Hd Hl m'. destruct (sfence_entries m info Hi Hd Hl) as (Ei & Ed & El). fold m' in Ei, Ed, El.
  assert (tlb_mask (itlb m') = tlb_mask (itlb m) /\ tlb_mask (dtlb m') = tlb_mask (dtlb m) /\
    (l2_ways (l2_tlb m') = l2_ways (l2_tlb m) /\ l2_set_mask (l2_tlb m') = l2_set_mask (l2_tlb m) /\
     l2_lru (l2_tlb m') = l2_lru (l2_tlb m)) /\ software_ad_bits m' = software_ad_bits m) as (Mi & Md & Ml & Ms)
    by (unfold m', sfence_mmu; by destruct (reg_is_zero (rs1_idx info)), (reg_is_zero (rs2_idx info))).
  split_and!; [exact (tlb_wf_map _ _ _ Hi (te_invalidate_shape _) Mi Ei)|exact (tlb_wf_map _ _ _ Hd (te_invalidate_shape _) Md Ed)
    |exact (l2_wf_map _ _ _ Hl (te_invalidate_shape _) Ml El)|done].
Qed.

Section Fence.
Variables (roots roots' : Z -> Z) (mem mem' : Z -> Z) (ok ok' : Z -> bool) (info : SfenceVmaInfo).

(** Translations the fence does not cover are the same before and after. *)
Definition uncovered_kept : Prop := forall v a level pte pa,
  walks mem ok v 2 (roots a) (WalkLeaf level pte pa) -> fence_covers info v a (G pte) = false ->
  exists pa', walks mem' ok' v 2 (roots' a) (WalkLeaf level pte pa').

Lemma entry_survives sw e :
  uncovered_kept -> entry_coherent roots mem ok sw e /\ fence_covers info (te_vpn e) (te_asid e) (te_global e) = false ->
  entry_coherent roots' mem' ok' sw e.
Proof.
  intros Hk [He Hc] a Ha. destruct (He a Ha) as (level & pte & pa & Hw & Hp & Hb & Hs).
  assert (fence_covers info (te_vpn e) a (G pte) = false) as Hcov.
  { destruct Hb as (_ & _ & _ & _ & _ & <-). destruct Ha as [Hg | <-]; [|done]. rewrite Hg in Hc |- *. exact Hc. }
  destruct (Hk _ _ _ _ _ Hw Hcov) as [pa' Hw']. by exists level, pte, pa'.
Qed.

(** A fence makes the TLBs coherent with the new page tables: if software
    changes page tables, roots or PMP so that only translations the SFENCE.VMA
    covers (its page, its address space, both or everything) change, then after
    the fence every entry of the three TLBs agrees with the new tables; the
    fence drops exactly the covered entries. *)
Theorem sfence_restores_coherence (m : Mmu) :
  uncovered_kept -> mmu_coherent roots mem ok m ->
  mmu_coherent roots' mem' ok' (sfence_mmu m info) /\
  tlb_entries (itlb (sfence_mmu m info)) = te_invalidate (fence_drops info) <$> tlb_entries (itlb m) /\
  tlb_entries (dtlb (sfence_mmu m info)) = te_invalidate (fence_drops info) <$> tlb_entries (dtlb m) /\
  l2_entries (l2_tlb (sfence_mmu m info)) = te_invalidate (fence_drops info) <$> l2_entries (l2_tlb m).
Proof.
  intros Hk [Hi Hd Hl Ci Cd Cl]. destruct (sfence_entries m info Hi Hd Hl) as (Ei & Ed & El).
  destruct (sfence_wf m info Hi Hd Hl) as (Wi & Wd & Wl & Ws). split; [|done].
  assert (forall es, all_valid (entry_coherent roots mem ok (software_ad_bits m)) es ->
    all_valid (entry_coherent roots' mem' ok' (software_ad_bits m)) (te_invalidate (fence_drops info) <$> es)) as Hall.
  { intros es Hes. apply Forall_fmap. eapply Forall_impl; [exact Hes|]. intros e He. cbn. rewrite te_invalidate_valid.
    intros Hv. to_prop. assert (fence_drops info e = false) as Hf by (by destruct (fence_drops info e)).
    rewrite te_invalidate_keeps by done. apply entry_survives; [done|]. split; [by apply He|].
    unfold fence_drops in Hf. by replace (te_valid e) with true in Hf by done. }
  constructor; try done; rewrite Ws, ?Ei, ?Ed, ?El; by apply Hall.
Qed.
End Fence.

(** The demonstration MMU after a translation, and the root table remapped. *)
Definition demo_filled : Mmu :=
  (translate_with_pmp demo_mmu 0x80001234 Write Supervisor demo_csrs demo_memory None).1.2.
Definition demo_remapped : FunBus := fun a => if a =? 4096 + 2 * 8 then 0x300000CF else 0.
Definition fence_all : SfenceVmaInfo := {| rs1_val := 0; rs2_val := 0; rs1_idx := 0; rs2_idx := 0 |}.

Lemma demo_filled_coherent : mmu_coherent (fun _ => 1) demo_memory (ptw_allowed None) demo_filled.
Proof.
  pose proof (mmu_translate_ok (B := FunBus) 0x80001234 Write Supervisor demo_csrs None ltac:(by split)
    (fun _ => 1) demo_mmu demo_memory ltac:(intros ? ? ? ? ? pa ? ?; by exists pa) eq_refl (or_intror eq_refl) ltac:(done)
    (mmu_new_coherent _ _ _ _ _ _ _ _)) as H.
  unfold demo_filled. destruct (translate_with_pmp _ _ _ _ _ _ _) as [[res mmu'] bus']. apply H.
Qed.

Lemma sfence_restores_coherence_witness :
  th_ppn <$> tlb_lookup (dtlb demo_filled) 0x80001 0 = Some 0x80001 /\
  mmu_coherent (fun _ => 1) demo_remapped (ptw_allowed None) (sfence_mmu demo_filled fence_all) /\
  tlb_lookup (dtlb (sfence_mmu demo_filled fence_all)) 0x80001 0 = None.
Proof.
  split; [by vm_compute|]. split; [|by vm_compute].
  assert (uncovered_kept (fun _ => 1) (fun _ => 1) demo_memory demo_remapped (ptw_allowed None) (ptw_allowed None) fence_all) as Hk
    by (intros v a level pte pa _ H; discriminate H).
  exact (proj1 (sfence_restores_coherence _ _ _ _ _ _ _ _ Hk demo_filled_coherent)).
Defined.

(** A fence for one page of a superpage leaves the other pages of the same leaf
    cached. *)
Definition demo_two_pages : Mmu :=
  (translate_with_pmp demo_filled 0x80002234 Write Supervisor demo_csrs demo_memory None).1.2.
Example page_fence_keeps_rest_of_superpage :
  let m := sfence_mmu demo_two_pages {| rs1_val := 0x80001000; rs2_val := 0; rs1_idx := 5; rs2_idx := 0 |} in
  tlb_lookup (dtlb m) 0x80001 0 = None /\ th_ppn <$> tlb_lookup (dtlb m) 0x80002 0 = Some 0x80002.
Proof. by vm_compute. Qed.

(** ** Translation by the hart *)

Section Checked.
Context {B : Type} `{!Bus B} `{!BusMemory B} `{!AddressBus B}.

(** The access is let through at [pa] by the PMP. *)
Definition pmp_lets (self : Cpu) (access : AccessType) (size pa : Z) : bool :=
  bool_decide (pmp_check (pmp self) pa size (bool_decide (access = Read)) (bool_decide (access = Write))
    (bool_decide (access = Fetch)) (bool_decide (effective_priv self access = Machine)) = PmpAllow).

(** What the hart may touch: outside direct mode the answer is the one SV39
    prescribes for the effective privilege -- the previous privilege for loads
    and stores under MPRV, the current one otherwise -- and an access fault where
    the PMP refuses the whole access at the translated address, so no translation
    succeeds at an address the PMP denies; in direct mode every address the bus
    knows is itself. Only the TLBs of the hart change and they stay coherent. *)
Theorem cpu_translate_checked (self : Cpu) (bus : B) (va : Z) (access : AccessType) (size : Z) (roots : Z -> Z) :
  in_width 64 va -> satp_mode (satp (csrs self)) = SATP_MODE_BARE \/ satp_mode (satp (csrs self)) = SATP_MODE_SV39 ->
  global_consistent roots (bus_mem bus) (ptw_allowed (Some (pmp self))) ->
  roots (satp_asid (satp (csrs self))) = satp (csrs self) mod 2 ^ 44 ->
  (forall a, walk_reads (bus_mem bus) (ptw_allowed (Some (pmp self))) (va_vpn va) 2 (satp (csrs self) mod 2 ^ 44) a -> bus_plain bus a) ->
  mmu_coherent roots (bus_mem bus) (ptw_allowed (Some (pmp self))) (mmu self) ->
  let '(res, self', bus') := cpu_translate self bus va access size in
  self' = self <| mmu := mmu self' |> /\ (forall a, bus_mem bus' a = bus_mem bus a) /\
  mmu_coherent roots (bus_mem bus) (ptw_allowed (Some (pmp self))) (mmu self') /\
  if direct_mode self then
    tr_answer res = if is_valid_address bus va then inr va else inl (access_fault va access)
  else exists ans update,
    sv39_answer va access (effective_priv self access) (csrs self) (bus_mem bus) (ptw_allowed (Some (pmp self)))
      (software_ad_bits (mmu self)) (tlb_answers va access (csrs self) (mmu self)) ans update /\
    match ans with
    | inl trap => tr_answer res = inl trap
    | inr pa => if pmp_lets self access size pa then tr_answer res = inr pa /\ tr_pte_update res = update
                else tr_answer res = inl (access_fault va access) /\ tr_pte_update res = None
    end.
Proof.
  intros Hva Hmode Hg Hr Hplain Hc. unfold cpu_translate. destruct (direct_mode self); [by destruct (is_valid_address bus va)|].
  pose proof (mmu_translate_ok va access (effective_priv self access) (csrs self) (Some (pmp self)) Hva roots
    (mmu self) bus Hg Hr Hmode Hplain Hc) as H.
  destruct (translate_with_pmp _ _ _ _ _ _ _) as [[res m] bus']. destruct H as (Hm & Hcoh & Hans).
  unfold pmp_lets. change (pmp (self <| mmu := m |>)) with (pmp self). unfold tr_answer in *.
  destruct (tr_trap res) as [trap|] eqn:Et.
  - split_and!; [done|done|done|]. rewrite Et. by eexists _, _.
  - destruct (bool_decide (pmp_check _ _ _ _ _ _ _ = PmpAllow)) eqn:Ep; (split_and!; [done|done|done|]);
      eexists _, _; (split; [exact Hans|]); cbn; rewrite Ep; [by rewrite Et|done].
Qed.
End Checked.

(** ** Witness *)

#[export] Instance FunBus_address : AddressBus FunBus := {| is_valid_address _ a := a <? 2 ^ 56 |}.

(** Supervisor code with paging on, all of memory open to it. *)
Definition demo_supervisor : Cpu :=
  demo_hart <| privilege := Supervisor |> <| csrs := (csrs demo_hart) <| satp := demo_satp |> |>
            <| pmp := pmp_exec (pmp_exec pmp_new (PmpSetAddr 0 (2 ^ 54 - 1))) (PmpSetCfg 0 0x1F) |>.

Lemma cpu_translate_checked_witness :
  tr_answer (cpu_translate demo_supervisor demo_memory 0x80001234 Write 8).1.1 = inr 0x80001234 /\
  pmp_lets demo_supervisor Write 8 0x80001234 = true.
Proof.
  pose proof (cpu_translate_checked (B := FunBus) demo_supervisor demo_memory 0x80001234 Write 8 (fun _ => 1)
    ltac:(by split) (or_intror eq_refl) ltac:(intros ? ? ? ? ? pa ? ?; by exists pa) eq_refl ltac:(done)
    (mmu_new_coherent _ _ _ _ _ _ _ _)) as H.
  assert (tr_answer (cpu_translate demo_supervisor demo_memory 0x80001234 Write 8).1.1 = inr 0x80001234) as E by by vm_compute.
  destruct (cpu_translate demo_supervisor demo_memory 0x80001234 Write 8) as [[res self'] bus'].
  split; [exact E|]. destruct H as (_ & _ & _ & ans & update & _ & H). cbn [fst] in E. destruct ans as [trap|pa].
  - rewrite E in H. discriminate H.
  - destruct (pmp_lets demo_supervisor Write 8 pa) eqn:Ep; destruct H as [H _]; rewrite E in H; [|discriminate H].
    injection H as ->. exact Ep.
Defined.
