(* ===== verification/Alu.v ===== *)
(** The integer ALU ([core/units/alu/]): arithmetic, logic and shift units and
    their dispatch, at the width of the Rust casts. *)
From S2P Require Import Prelude Common.
Local Open Scope Z_scope.

(** [x as i32], [x as i64] of an unsigned pattern, and [x as i32 as i64 as u64]. *)
Definition to_i32 (x : Z) : Z := as_signed 32 (u32 x).
Definition to_i64 (x : Z) : Z := as_signed 64 (u64 x).
Definition sext32 (x : Z) : Z := u64 (to_i32 x).
Definition u64_of_bool (b : bool) : Z := if b then 1 else 0.

(** [u64::MAX], which is [-1i64 as u64]. *)
Definition ALL_ONES : Z := U64_MAX.

Definition WORD_BITS : Z := 32.
Definition XLEN_BITS : Z := 64.

(** [i32::wrapping_div] and [wrapping_rem] truncate towards zero and wrap
    [MIN / -1]; the caller has excluded a zero divisor. *)
Definition wrapping_div (w a b : Z) : Z := as_signed w (wrap w (Z.quot a b)).
Definition wrapping_rem (w a b : Z) : Z := as_signed w (wrap w (Z.rem a b)).

Definition arithmetic_execute (op : AluOp) (a b : Z) (is32 : bool) : Z :=
  match op with
  | Add => if is32 then sext32 (to_i32 a + to_i32 b) else u64 (a + b)
  | Sub => if is32 then sext32 (to_i32 a - to_i32 b) else u64 (a - b)
  | Mul => if is32 then sext32 (to_i32 a * to_i32 b) else u64 (a * b)
  | Mulh =>
      if is32 then u64 (Z.shiftr (to_i32 a * to_i32 b) WORD_BITS)
      else u64 (Z.shiftr (to_i64 a * to_i64 b) XLEN_BITS)
  | Mulhsu =>
      if is32 then u64 (Z.shiftr (to_i32 a * u32 b) WORD_BITS)
      else u64 (Z.shiftr (to_i64 a * b) XLEN_BITS)
  | Mulhu =>
      if is32 then u64 (Z.shiftr (u32 a * u32 b) WORD_BITS)
      else u64 (Z.shiftr (a * b) XLEN_BITS)
  | Div =>
      if is32
      then if to_i32 b =? 0 then ALL_ONES else u64 (wrapping_div 32 (to_i32 a) (to_i32 b))
      else if b =? 0 then ALL_ONES
      else u64 (wrapping_div 64 (to_i64 a) (to_i64 b))
  | Divu =>
      if is32
      then if u32 b =? 0 then ALL_ONES else sext32 (u32 a / u32 b)
      else if b =? 0 then ALL_ONES
      else a / b
  | Rem =>
      if is32
      then if to_i32 b =? 0 then sext32 a else u64 (wrapping_rem 32 (to_i32 a) (to_i32 b))
      else if b =? 0 then a
      else u64 (wrapping_rem 64 (to_i64 a) (to_i64 b))
  | Remu =>
      if is32
      then if u32 b =? 0 then sext32 a else sext32 (u32 a mod u32 b)
      else if b =? 0 then a
      else a mod b
  | _ => 0
  end.

Definition logic_execute (op : AluOp) (a b : Z) (is32 : bool) : Z :=
  match op with
  | Or => Z.lor a b
  | And => Z.land a b
  | Xor => Z.lxor a b
  | Slt => if is32 then u64_of_bool (to_i32 a <? to_i32 b) else u64_of_bool (to_i64 a <? to_i64 b)
  | Sltu => if is32 then u64_of_bool (u32 a <? u32 b) else u64_of_bool (a <? b)
  | _ => 0
  end.

Definition SHAMT_MASK_RV64 : Z := 0x3f.
Definition SHAMT_MASK_RV32 : Z := 0x1f.

Definition shifts_execute (op : AluOp) (a b : Z) (is32 : bool) : Z :=
  let sh6 := u32 (Z.land b SHAMT_MASK_RV64) in
  match op with
  | Sll =>
      if is32 then sext32 (Z.shiftl (to_i32 a) (Z.land (u32 b) SHAMT_MASK_RV32))
      else u64 (Z.shiftl a sh6)
  | Srl =>
      if is32 then sext32 (Z.shiftr (u32 a) (Z.land (u32 b) SHAMT_MASK_RV32))
      else Z.shiftr a sh6
  | Sra =>
      if is32 then u64 (Z.shiftr (to_i32 a) (Z.land (u32 b) SHAMT_MASK_RV32))
      else u64 (Z.shiftr (to_i64 a) sh6)
  | _ => 0
  end.

Definition alu_execute (op : AluOp) (a b c : Z) (is32 : bool) : Z :=
  match op with
  | Add | Sub | Mul | Mulh | Mulhsu | Mulhu | Div | Divu | Rem | Remu =>
      arithmetic_execute op a b is32
  | Or | And | Xor | Slt | Sltu => logic_execute op a b is32
  | Sll | Srl | Sra => shifts_execute op a b is32
  | _ => 0
  end.

(** * What the instructions promise

    [s x] is the signed value of a 64-bit register and [x] its unsigned value;
    [sw]/[uw] those of the low word.  The relation is stated on values, not on
    the code's casts. *)

(** Low and high halves of a product of [w]-bit operands with values [x] and [y]. *)
Definition product_halves (w x y lo hi : Z) : Prop := x * y = hi * 2 ^ w + lo /\ 0 <= lo < 2 ^ w.

(** Quotient and remainder of the manual: division by zero gives all ones and
    the dividend, signed overflow the dividend and zero, and otherwise the
    division truncates and the remainder has the sign of the dividend. *)
Definition division (min x y q r : Z) : Prop :=
  if y =? 0 then q = -1 /\ r = x
  else if (x =? min) && (y =? -1) then q = x /\ r = 0
  else x = q * y + r /\ Z.abs r < Z.abs y /\ 0 <= r * x.

Definition division_unsigned (w x y q r : Z) : Prop :=
  if y =? 0 then q = 2 ^ w - 1 /\ r = x
  else x = q * y + r /\ 0 <= r < y.

(** The base and M-extension instructions on registers [a] and [b]: [x op] is
    the 64-bit instruction, [xw op] its W form. *)
Definition rv64_spec (x : AluOp -> Z) (a b : Z) : Prop :=
  let s := as_signed 64 in
  x Add = (a + b) mod 2 ^ 64 /\
  x Sub = (a - b) mod 2 ^ 64 /\
  x Slt = u64_of_bool (s a <? s b) /\
  x Sltu = u64_of_bool (a <? b) /\
  (forall i, 0 <= i -> Z.testbit (x And) i = Z.testbit a i && Z.testbit b i) /\
  (forall i, 0 <= i -> Z.testbit (x Or) i = Z.testbit a i || Z.testbit b i) /\
  (forall i, 0 <= i -> Z.testbit (x Xor) i = xorb (Z.testbit a i) (Z.testbit b i)) /\
  x Sll = (a * 2 ^ (b mod 64)) mod 2 ^ 64 /\
  x Srl = a / 2 ^ (b mod 64) /\
  s (x Sra) = s a / 2 ^ (b mod 64) /\
  product_halves 64 (s a) (s b) (x Mul) (s (x Mulh)) /\
  product_halves 64 (s a) b (x Mul) (s (x Mulhsu)) /\
  product_halves 64 a b (x Mul) (x Mulhu) /\
  division (- 2 ^ 63) (s a) (s b) (s (x Div)) (s (x Rem)) /\
  division_unsigned 64 a b (x Divu) (x Remu).

Definition rv64w_spec (x : AluOp -> Z) (a b : Z) : Prop :=
  let s := as_signed 64 in
  let sw r := as_signed 32 (r mod 2 ^ 32) in
  let uw r := r mod 2 ^ 32 in
  s (x Add) = sw (a + b) /\
  s (x Sub) = sw (a - b) /\
  s (x Mul) = sw (a * b) /\
  s (x Sll) = sw (a * 2 ^ (b mod 32)) /\
  s (x Srl) = sw (uw a / 2 ^ (b mod 32)) /\
  s (x Sra) = sw a / 2 ^ (b mod 32) /\
  division (- 2 ^ 31) (sw a) (sw b) (s (x Div)) (s (x Rem)) /\
  division_unsigned 32 (uw a) (uw b) (uw (x Divu)) (uw (x Remu)) /\
  s (x Divu) = sw (x Divu) /\ s (x Remu) = sw (x Remu).

(** * Signed representatives *)

Section Signed.
Context (w : Z) (Hw : 0 < w).

Lemma pow2_half : 2 ^ w = 2 * 2 ^ (w - 1).
Proof. rewrite <-Z.pow_succ_r by lia. f_equal. lia. Qed.

Lemma as_signed_range (x : Z) : in_width w x -> - 2 ^ (w - 1) <= as_signed w x < 2 ^ (w - 1).
Proof. pose proof pow2_half. unfold in_width, as_signed. intros. case_bool; to_prop; lia. Qed.

Lemma as_signed_mod (x : Z) : as_signed w x mod 2 ^ w = x mod 2 ^ w.
Proof.
  unfold as_signed. case_bool; [done|]. rewrite <-(Z.mod_add _ 1), Z.mul_1_l, Z.sub_add; lia.
Qed.

Lemma wrap_as_signed (x : Z) : wrap w (as_signed w x) = wrap w x.
Proof. apply as_signed_mod. Qed.

Lemma as_signed_wrap (y : Z) : - 2 ^ (w - 1) <= y < 2 ^ (w - 1) -> as_signed w (wrap w y) = y.
Proof.
  pose proof pow2_half. intros Hy. unfold as_signed, wrap. destruct (decide (0 <= y)).
  - rewrite Z.mod_small by lia. case_bool; to_prop; lia.
  - rewrite <-(Z.mod_unique y (2 ^ w) (-1) (y + 2 ^ w)) by lia. case_bool; to_prop; lia.
Qed.

Lemma as_signed_eqb0 (x : Z) : in_width w x -> (as_signed w x =? 0) = (x =? 0).
Proof.
  pose proof pow2_half. unfold in_width, as_signed. intros.
  destruct (Z.eqb_spec x 0); repeat case_bool; to_prop; try done; lia.
Qed.

End Signed.

Lemma to_i64_reg (x : Z) : in_width 64 x -> to_i64 x = as_signed 64 x.
Proof. intros. unfold to_i64. by rewrite wrap_small. Qed.

Lemma as_signed_u64 (y : Z) : - 2 ^ 63 <= y < 2 ^ 63 -> as_signed 64 (u64 y) = y.
Proof. by apply (as_signed_wrap 64). Qed.

Lemma to_i32_range (x : Z) : - 2 ^ 31 <= to_i32 x < 2 ^ 31.
Proof. apply (as_signed_range 32); [lia|]. by apply wrap_range. Qed.

Lemma to_i32_mod (x : Z) : to_i32 x mod 2 ^ 32 = x mod 2 ^ 32.
Proof. unfold to_i32. rewrite as_signed_mod by lia. apply Z.mod_mod. lia. Qed.

Lemma to_i32_congr (x y : Z) : x mod 2 ^ 32 = y mod 2 ^ 32 -> to_i32 x = to_i32 y.
Proof. unfold to_i32, wrap. by intros ->. Qed.

Lemma as_signed_sext32 (x : Z) : as_signed 64 (sext32 x) = to_i32 x.
Proof. apply as_signed_u64. pose proof (to_i32_range x). lia. Qed.

Lemma wrap_wrap (v w x : Z) : 0 <= v <= w -> wrap v (wrap w x) = wrap v x.
Proof.
  intros. apply Z.bits_inj'. intros i Hi. rewrite !wrap_testbit by lia.
  destruct (Z.ltb_spec i v), (Z.ltb_spec i w); try done. lia.
Qed.

Lemma sext32_mod (x : Z) : sext32 x mod 2 ^ 32 = x mod 2 ^ 32.
Proof.
  unfold sext32. rewrite <-(to_i32_mod x). by apply (wrap_wrap 32 64).
Qed.

Lemma u32_sext32 (x : Z) : u32 (sext32 x) = u32 x.
Proof. apply sext32_mod. Qed.

#[export] Hint Resolve to_i32_range as_signed_range : rvsim.

(** Ring operations commute with reading the low word. *)
Lemma to_i32_ring (op : Z -> Z -> Z) (a b : Z) :
  (forall x y, op x y mod 2 ^ 32 = op (x mod 2 ^ 32) (y mod 2 ^ 32) mod 2 ^ 32) ->
  to_i32 (op (to_i32 a) (to_i32 b)) = to_i32 (op a b).
Proof.
  intros Hop. apply to_i32_congr. rewrite Hop, !to_i32_mod. by rewrite <-Hop.
Qed.

(** * Multiplication *)

Lemma product_halves_ok (w x y lo hi : Z) :
  0 < w -> lo = (x * y) mod 2 ^ w -> hi = x * y / 2 ^ w -> product_halves w x y lo hi.
Proof.
  intros Hw -> ->. split; [rewrite (Z.mul_comm (_ / _)); apply Z.div_mod; lia|].
  apply Z.mod_pos_bound; lia.
Qed.

Lemma mul_signed_mod (a b : Z) :
  (a * b) mod 2 ^ 64 = (as_signed 64 a * as_signed 64 b) mod 2 ^ 64 /\
  (a * b) mod 2 ^ 64 = (as_signed 64 a * b) mod 2 ^ 64.
Proof.
  split; [rewrite (Z.mul_mod (as_signed 64 a) (as_signed 64 b)), !as_signed_mod by lia
         |rewrite (Z.mul_mod (as_signed 64 a)), as_signed_mod by lia];
    by rewrite <-Z.mul_mod by lia.
Qed.

(** The high half of a product with a signed first factor fits in 64 bits. *)
Lemma high_half_range (x y : Z) :
  - 2 ^ 63 <= x < 2 ^ 63 -> - 2 ^ 63 <= y < 2 ^ 64 -> - 2 ^ 63 <= x * y / 2 ^ 64 < 2 ^ 63.
Proof.
  intros Hx Hy. split; [apply Z.div_le_lower_bound|apply Z.div_lt_upper_bound]; nia.
Qed.

(** * Division *)

Lemma quot_range (m x y : Z) :
  0 < m -> - m <= x < m -> y <> 0 -> ~ (x = - m /\ y = -1) -> - m <= Z.quot x y < m.
Proof.
  intros Hm Hx Hy Hov. pose proof (Z.quot_rem x y Hy) as E.
  pose proof (Z.rem_bound_abs x y Hy). pose proof (Z.rem_sign_mul x y Hy).
  destruct (decide (y = -1)) as [->|]; [change (-1) with (Z.opp 1); rewrite Z.quot_opp_r, Z.quot_1_r by lia; lia|].
  destruct (decide (y = 1)) as [->|]; [rewrite Z.quot_1_r; lia|].
  assert (Z.abs y >= 2) by lia. nia.
Qed.

(** Wrapped truncating division is the manual's. *)
Lemma division_ok (w x y : Z) :
  1 < w -> - 2 ^ (w - 1) <= x < 2 ^ (w - 1) -> - 2 ^ (w - 1) <= y < 2 ^ (w - 1) -> y <> 0 ->
  division (- 2 ^ (w - 1)) x y (wrapping_div w x y) (wrapping_rem w x y).
Proof.
  intros Hw Hx Hy Hy0. unfold division, wrapping_div, wrapping_rem.
  pose proof (pow2_half w ltac:(lia)). rewrite (proj2 (Z.eqb_neq _ _)) by done.
  destruct ((x =? - 2 ^ (w - 1)) && (y =? -1)) eqn:Hov.
  - to_prop. subst. change (-1) with (Z.opp 1). rewrite Z.rem_opp_r, Z.rem_1_r, Z.quot_opp_r, Z.quot_1_r, Z.opp_involutive by lia.
    rewrite (as_signed_wrap w ltac:(lia) 0) by lia. split; [|done]. unfold as_signed, wrap.
    rewrite Z.mod_small by lia. case_bool; to_prop; lia.
  - assert (Hno : ~ (x = - 2 ^ (w - 1) /\ y = -1)).
    { intros [-> ->]. by rewrite !Z.eqb_refl in Hov. }
    pose proof (Z.quot_rem x y Hy0) as E. pose proof (Z.rem_bound_abs x y Hy0).
    pose proof (quot_range (2 ^ (w - 1)) x y ltac:(lia) Hx Hy0 Hno).
    rewrite !as_signed_wrap by lia.
    split; [lia|]. split; [lia|]. apply Z.rem_sign_mul, Hy0.
Qed.

Lemma division_zero (min x : Z) : division min x 0 (-1) x.
Proof. done. Qed.

Lemma division_unsigned_ok (w x y : Z) :
  0 <= x < 2 ^ w -> 0 <= y ->
  division_unsigned w x y (if y =? 0 then 2 ^ w - 1 else x / y) (if y =? 0 then x else x mod y).
Proof.
  intros Hx Hy. unfold division_unsigned. destruct (Z.eqb_spec y 0); [done|].
  split; [rewrite (Z.mul_comm (_ / _)); apply Z.div_mod; lia|]. apply Z.mod_pos_bound; lia.
Qed.

Lemma shamt (b n m : Z) : 0 <= n -> m = 2 ^ n - 1 -> Z.land b m = b mod 2 ^ n.
Proof. intros ? ->. by apply land_low_mask. Qed.

Lemma sh6_mod (b : Z) : u32 (Z.land b SHAMT_MASK_RV64) = b mod 64.
Proof.
  rewrite (shamt b 6) by done. apply wrap_small. pose proof (Z.mod_pos_bound b 64).
  unfold in_width. change (2 ^ 6) with 64. lia.
Qed.

Lemma sh5_mod (b : Z) : Z.land (u32 b) SHAMT_MASK_RV32 = b mod 32.
Proof.
  rewrite (shamt _ 5) by done. change (u32 b mod 2 ^ 5) with (wrap 5 (u32 b)).
  by rewrite wrap_wrap by lia.
Qed.

Lemma div_pow2_range (m x k : Z) : - m <= x < m -> 0 <= k -> - m <= x / 2 ^ k < m.
Proof.
  intros Hx Hk. assert (0 < 2 ^ k) by lia.
  split; [apply Z.div_le_lower_bound|apply Z.div_lt_upper_bound]; nia.
Qed.

Section Exec.
Context (a b c : Z) (Ha : in_width 64 a) (Hb : in_width 64 b).

Lemma signed_reg (x : Z) : in_width 64 x -> - 2 ^ 63 <= as_signed 64 x < 2 ^ 63.
Proof. by apply (as_signed_range 64). Qed.

Lemma mul_ok :
  let x op := alu_execute op a b c false in
  product_halves 64 (as_signed 64 a) (as_signed 64 b) (x Mul) (as_signed 64 (x Mulh)) /\
  product_halves 64 (as_signed 64 a) b (x Mul) (as_signed 64 (x Mulhsu)) /\
  product_halves 64 a b (x Mul) (x Mulhu).
Proof.
  pose proof (signed_reg a Ha). pose proof (signed_reg b Hb). unfold in_width in Ha, Hb.
  destruct (mul_signed_mod a b) as [Hss Hsu].
  simpl. unfold XLEN_BITS. rewrite !to_i64_reg, !Z.shiftr_div_pow2 by done. unfold wrap at 1 3 5.
  split_and!; apply product_halves_ok; try done.
  - apply as_signed_u64, high_half_range; lia.
  - apply as_signed_u64, high_half_range; lia.
  - apply wrap_small. split; [apply Z.div_pos; nia|apply Z.div_lt_upper_bound; nia].
Qed.

Lemma div_ok :
  let x op := alu_execute op a b c false in
  division (- 2 ^ 63) (as_signed 64 a) (as_signed 64 b) (as_signed 64 (x Div)) (as_signed 64 (x Rem)) /\
  division_unsigned 64 a b (x Divu) (x Remu).
Proof.
  simpl. split; [|by apply division_unsigned_ok; unfold in_width in *; lia].
  rewrite !to_i64_reg by done. rewrite <-(as_signed_eqb0 64 ltac:(lia) b Hb).
  destruct (Z.eqb_spec (as_signed 64 b) 0) as [->|Hne]; [apply division_zero|].
  pose proof (division_ok 64 (as_signed 64 a) (as_signed 64 b) ltac:(lia)
    (signed_reg a Ha) (signed_reg b Hb) Hne) as H.
  unfold wrapping_div, wrapping_rem in *. by rewrite !wrap_as_signed, !wrap_idemp by lia.
Qed.

Lemma rv64_ok : rv64_spec (fun op => alu_execute op a b c false) a b.
Proof.
  pose proof mul_ok as (? & ? & ?). pose proof div_ok as (? & ?). pose proof (signed_reg a Ha).
  assert (0 <= b mod 64) by (apply Z.mod_pos_bound; lia).
  unfold rv64_spec. split_and!; try assumption; try (simpl; rewrite ?to_i64_reg by done; done);
    simpl; unfold shifts_execute; rewrite ?sh6_mod, ?to_i64_reg by done.
  - by intros; apply Z.land_spec.
  - by intros; apply Z.lor_spec.
  - by intros; apply Z.lxor_spec.
  - by rewrite Z.shiftl_mul_pow2.
  - by rewrite Z.shiftr_div_pow2.
  - rewrite Z.shiftr_div_pow2 by done. by apply as_signed_u64, div_pow2_range.
Qed.

Lemma divw_ok :
  let x op := alu_execute op a b c true in
  division (- 2 ^ 31) (to_i32 a) (to_i32 b) (as_signed 64 (x Div)) (as_signed 64 (x Rem)) /\
  division_unsigned 32 (u32 a) (u32 b) (u32 (x Divu)) (u32 (x Remu)) /\
  as_signed 64 (x Divu) = to_i32 (x Divu) /\ as_signed 64 (x Remu) = to_i32 (x Remu).
Proof.
  simpl. assert (Hu : forall x, 0 <= u32 x < 2 ^ 32) by (intros; by apply wrap_range).
  pose proof (Hu a). pose proof (Hu b). split_and!.
  - destruct (Z.eqb_spec (to_i32 b) 0) as [->|Hne]; [rewrite as_signed_sext32; apply division_zero|].
    pose proof (division_ok 32 (to_i32 a) (to_i32 b) ltac:(lia) (to_i32_range a) (to_i32_range b) Hne) as H1.
    assert (Hr : forall y, - 2 ^ 63 <= as_signed 32 (u32 y) < 2 ^ 63)
      by (intros y; pose proof (to_i32_range y); unfold to_i32 in *; lia).
    unfold wrapping_div, wrapping_rem in *. by rewrite !as_signed_u64 by done.
  - pose proof (division_unsigned_ok 32 (u32 a) (u32 b) ltac:(lia) ltac:(lia)) as Hd.
    destruct (Z.eqb_spec (u32 b) 0) as [E|Hne]; rewrite !u32_sext32; [done|].
    rewrite (wrap_small 32 (u32 a / u32 b)), (wrap_small 32 (u32 a mod u32 b)); [done| |].
    + pose proof (Z.mod_pos_bound (u32 a) (u32 b)). unfold in_width. lia.
    + split; [apply Z.div_pos; lia|apply Z.div_lt_upper_bound; nia].
  - case_bool; [done|]. rewrite as_signed_sext32. apply to_i32_congr. by rewrite sext32_mod.
  - case_bool; rewrite as_signed_sext32; apply to_i32_congr; by rewrite sext32_mod.
Qed.

Lemma rv64w_ok : rv64w_spec (fun op => alu_execute op a b c true) a b.
Proof.
  pose proof divw_ok as (? & ? & ? & ?). pose proof (to_i32_range a).
  assert (0 <= b mod 32) by (apply Z.mod_pos_bound; lia).
  unfold rv64w_spec. change (as_signed 32 (?x mod 2 ^ 32)) with (to_i32 x).
  split_and!; try assumption; simpl; unfold shifts_execute; rewrite ?sh5_mod, ?as_signed_sext32.
  - apply (to_i32_ring Z.add). intros. by apply Z.add_mod.
  - apply (to_i32_ring Z.sub). intros. apply Zminus_mod.
  - apply (to_i32_ring Z.mul). intros. by apply Z.mul_mod.
  - rewrite Z.shiftl_mul_pow2 by done. apply to_i32_congr.
    by rewrite Z.mul_mod, to_i32_mod, <-Z.mul_mod by lia.
  - by rewrite Z.shiftr_div_pow2.
  - rewrite Z.shiftr_div_pow2 by done. apply as_signed_u64.
    pose proof (div_pow2_range (2 ^ 31) (to_i32 a) (b mod 32)). lia.
Qed.

End Exec.

(** C34. Every base and multiply/divide instruction computes the value the
    architecture defines: sums and differences modulo [2^64], comparisons on
    signed and unsigned values, bitwise operations bit by bit, shifts by the
    amount modulo 64 as multiplication and flooring division, [MUL] and each
    [MULH*] as the two halves of one exact product, and quotient and remainder
    as the manual's table, with division by zero and overflow defined.  The W
    forms do the same on the low words and sign-extend. *)
Theorem alu_execute_correct (a b c : Z) :
  in_width 64 a -> in_width 64 b ->
  rv64_spec (fun op => alu_execute op a b c false) a b /\
  rv64w_spec (fun op => alu_execute op a b c true) a b.
Proof. intros. split; [by apply rv64_ok | apply rv64w_ok]. Qed.

Lemma alu_execute_correct_witness :
  in_width 64 (2 ^ 63) /\
  rv64_spec (fun op => alu_execute op (2 ^ 63) U64_MAX 0 false) (2 ^ 63) U64_MAX /\
  rv64w_spec (fun op => alu_execute op (2 ^ 63) U64_MAX 0 true) (2 ^ 63) U64_MAX.
Proof. split; [done|]. by apply (alu_execute_correct (2 ^ 63) U64_MAX 0). Defined.
