(* ===== verification/Lsu.v ===== *)
(** The load/store unit ([core/units/lsu/]): the read-modify-write ALU of the
    atomics, FENCE ordering sets, and split unaligned accesses. *)
From S2P Require Import Prelude Common BitField Alu.
Set Primitive Projections.
Local Open Scope Z_scope.

(** * [atomic.rs] *)

(** [a ^ b], [a & b] and [a | b] on signed values are the two's complement
    operations, which [Z.lxor], [Z.land] and [Z.lor] are. *)
Definition atomic_alu (op : AtomicOp) (mem_val reg_val : Z) (width : MemWidth) : Z :=
  match width with
  | WWord =>
      let a := to_i32 mem_val in
      let b := to_i32 reg_val in
      let res := match op with
                 | AtomicSwap => b
                 | AtomicAdd => to_i32 (a + b)
                 | AtomicXor => Z.lxor a b
                 | AtomicAnd => Z.land a b
                 | AtomicOr => Z.lor a b
                 | AtomicMin => Z.min a b
                 | AtomicMax => Z.max a b
                 | AtomicMinu => to_i32 (Z.min (u32 mem_val) (u32 reg_val))
                 | AtomicMaxu => to_i32 (Z.max (u32 mem_val) (u32 reg_val))
                 | _ => 0
                 end in
      u64 res
  | _ =>
      let a := to_i64 mem_val in
      let b := to_i64 reg_val in
      let res := match op with
                 | AtomicSwap => b
                 | AtomicAdd => to_i64 (a + b)
                 | AtomicXor => Z.lxor a b
                 | AtomicAnd => Z.land a b
                 | AtomicOr => Z.lor a b
                 | AtomicMin => Z.min a b
                 | AtomicMax => Z.max a b
                 | AtomicMinu => to_i64 (Z.min mem_val reg_val)
                 | AtomicMaxu => to_i64 (Z.max mem_val reg_val)
                 | _ => 0
                 end in
      u64 res
  end.

(** * [ordering.rs] *)

Record FenceSet := { fence_i : bool; fence_o : bool; fence_r : bool; fence_w : bool }.

Definition from_bits (bits : Z) : FenceSet :=
  {| fence_i := has_bits bits 8; fence_o := has_bits bits 4;
     fence_r := has_bits bits 2; fence_w := has_bits bits 1 |}.
Definition to_bits (self : FenceSet) : Z :=
  Z.lor (Z.lor (Z.lor (Z.shiftl (u64_of_bool (fence_i self)) 3)
                      (Z.shiftl (u64_of_bool (fence_o self)) 2))
               (Z.shiftl (u64_of_bool (fence_r self)) 1))
        (u64_of_bool (fence_w self)).
Definition is_empty (self : FenceSet) : bool :=
  negb (fence_i self) && negb (fence_o self) && negb (fence_r self) && negb (fence_w self).
Definition is_full (self : FenceSet) : bool :=
  fence_i self && fence_o self && fence_r self && fence_w self.

Record FenceInst := { pred : FenceSet; succ : FenceSet }.

Definition fence_decode (inst : Z) : FenceInst :=
  let pred_bits := Z.land (Z.shiftr inst 24) 0xF in
  let succ_bits := Z.land (Z.shiftr inst 20) 0xF in
  {| pred := from_bits pred_bits; succ := from_bits succ_bits |}.
Definition is_tso (self : FenceInst) : bool :=
  fence_r (pred self) && fence_w (pred self) && negb (fence_i (pred self)) && negb (fence_o (pred self)) &&
  fence_r (succ self) && fence_w (succ self) && negb (fence_i (succ self)) && negb (fence_o (succ self)).
Definition is_nop (self : FenceInst) : bool := is_empty (pred self) && is_empty (succ self).
Definition is_full_barrier (self : FenceInst) : bool := is_full (pred self) && is_full (succ self).

(** * [unaligned.rs] *)

Definition is_aligned (addr size : Z) : bool :=
  if (size =? 0) || (size =? 1) then true else Z.land addr (size - 1) =? 0.

Definition crosses_cache_line (addr size cache_line_size : Z) : bool :=
  if size =? 0 then false
  else
    let line_mask := sub64 cache_line_size 1 in
    cache_line_size <=? add64 (Z.land addr line_mask) (size - 1).

Definition calculate_unaligned_latency (addr size cache_line_size : Z) : Z :=
  if is_aligned addr size then 0
  else if negb (crosses_cache_line addr size cache_line_size) then 1
  else 2.

Definition load_misaligned_trap (addr : Z) : Trap := LoadAddressMisaligned addr.
Definition store_misaligned_trap (addr : Z) : Trap := StoreAddressMisaligned addr.

(** The closures read and write the state [S] they capture. *)
Section Split.
Context {S : Type} (read_byte : Z -> S -> Z * S) (write_byte : Z -> Z -> S -> S).

Definition split_load (addr size : Z) (s : S) : Z * S :=
  foldl (fun '(result, s) i =>
           let '(byte, s) := read_byte (add64 addr i) s in
           (Z.lor result (shl64 byte (i * 8)), s))
        (0, s) (seqZ 0 size).

Definition split_store (addr size val : Z) (s : S) : S :=
  foldl (fun s i =>
           let byte := u8 (Z.land (Z.shiftr val (i * 8)) 0xFF) in
           write_byte (add64 addr i) byte s)
        s (seqZ 0 size).

End Split.

(** * Fences *)

Lemma from_to_bits (s : FenceSet) : from_bits (to_bits s) = s.
Proof. by destruct s as [[] [] [] []]. Qed.

Lemma to_from_bits (b : Z) : in_width 4 b -> to_bits (from_bits b) = b.
Proof.
  unfold in_width. intros Hb.
  assert (b = 0 \/ b = 1 \/ b = 2 \/ b = 3 \/ b = 4 \/ b = 5 \/ b = 6 \/ b = 7 \/ b = 8 \/ b = 9 \/
          b = 10 \/ b = 11 \/ b = 12 \/ b = 13 \/ b = 14 \/ b = 15) by lia.
  by destruct_or?; subst.
Qed.

(** * Atomics *)

(** The value an AMO stores, on the values of the accessed cell and the register. *)
Definition amo_result (op : AtomicOp) (s : Z -> Z) (m r : Z) : Z :=
  match op with
  | AtomicSwap => r
  | AtomicAdd => m + r
  | AtomicXor => Z.lxor m r
  | AtomicAnd => Z.land m r
  | AtomicOr => Z.lor m r
  | AtomicMin => if s m <=? s r then m else r
  | AtomicMax => if s m <=? s r then r else m
  | AtomicMinu => if m <=? r then m else r
  | AtomicMaxu => if m <=? r then r else m
  | _ => 0
  end.

Lemma wrap_bitwise (w : Z) (op : Z -> Z -> Z) (g : bool -> bool -> bool) (x y : Z) :
  0 <= w -> (forall a b i, Z.testbit (op a b) i = g (Z.testbit a i) (Z.testbit b i)) ->
  wrap w (op x y) = wrap w (op (wrap w x) (wrap w y)).
Proof.
  intros Hw Hop. apply Z.bits_inj'. intros i Hi. rewrite !wrap_testbit, !Hop, !wrap_testbit by done.
  by destruct (i <? w).
Qed.

(** The code's computation on signed representatives of width [w]. *)
Definition amo_signed (op : AtomicOp) (w m r : Z) : Z :=
  let a := as_signed w m in
  let b := as_signed w r in
  match op with
  | AtomicSwap => b
  | AtomicAdd => as_signed w (wrap w (a + b))
  | AtomicXor => Z.lxor a b
  | AtomicAnd => Z.land a b
  | AtomicOr => Z.lor a b
  | AtomicMin => Z.min a b
  | AtomicMax => Z.max a b
  | AtomicMinu => as_signed w (wrap w (Z.min m r))
  | AtomicMaxu => as_signed w (wrap w (Z.max m r))
  | _ => 0
  end.

Lemma amo_signed_ok (op : AtomicOp) (w m r : Z) :
  0 < w -> in_width w m -> in_width w r ->
  wrap w (amo_signed op w m r) = wrap w (amo_result op (as_signed w) m r).
Proof.
  intros Hw Hm Hr. unfold amo_signed, amo_result.
  assert (Hs : forall x, wrap w (as_signed w x) = wrap w x) by (intros; by apply wrap_as_signed).
  assert (Hb : forall f g, (forall a b i, Z.testbit (f a b) i = g (Z.testbit a i) (Z.testbit b i)) ->
    wrap w (f (as_signed w m) (as_signed w r)) = wrap w (f m r)).
  { intros f g Hf. rewrite (wrap_bitwise w f g), !Hs, <-(wrap_bitwise w f g); [done|lia|done|lia|done]. }
  destruct op; rewrite ?Hs, ?wrap_idemp by lia; try done.
  - unfold wrap. by rewrite Z.add_mod, !as_signed_mod, <-Z.add_mod by lia.
  - apply (Hb Z.lxor xorb), Z.lxor_spec.
  - apply (Hb Z.land andb), Z.land_spec.
  - apply (Hb Z.lor orb), Z.lor_spec.
  - case_bool; to_prop; rewrite ?Z.min_l, ?Z.min_r by lia; apply Hs.
  - case_bool; to_prop; rewrite ?Z.max_l, ?Z.max_r by lia; apply Hs.
  - f_equal. case_bool; to_prop; lia.
  - f_equal. case_bool; to_prop; lia.
Qed.

(** A bitwise operation keeps words in the signed range. *)
Lemma to_i32_bitwise (op : Z -> Z -> Z) (g : bool -> bool -> bool) (a b : Z) :
  (forall x y i, Z.testbit (op x y) i = g (Z.testbit x i) (Z.testbit y i)) ->
  - 2 ^ 31 <= a < 2 ^ 31 -> - 2 ^ 31 <= b < 2 ^ 31 -> to_i32 (op a b) = op a b.
Proof.
  intros Hop Ha Hb. apply testbit_ext. intros i. unfold to_i32.
  rewrite as_signed_testbit, wrap_testbit, !Hop by (lia || by apply wrap_range).
  destruct (decide (i < 32)%nat).
  - rewrite (proj2 (Z.ltb_lt _ 32)) by lia. simpl. f_equal; f_equal; lia.
  - rewrite Z.min_r by lia. simpl.
    rewrite (signed_testbit_above a 32 i), (signed_testbit_above b 32 i) by (simpl; lia). done.
Qed.

Lemma amo_signed_word (op : AtomicOp) (m r : Z) :
  in_width 32 m -> in_width 32 r -> to_i32 (amo_signed op 32 m r) = amo_signed op 32 m r.
Proof.
  intros Hm Hr. pose proof (as_signed_range 32 ltac:(lia) m Hm) as Ha.
  pose proof (as_signed_range 32 ltac:(lia) r Hr) as Hb.
  assert (Hid : forall x, - 2 ^ 31 <= x < 2 ^ 31 -> to_i32 x = x) by (intros; by apply as_signed_wrap).
  pose proof (fun x => Hid _ (to_i32_range x)) as Hi.
  destruct op; simpl; try apply Hi; try (by apply Hid; lia).
  - by apply (to_i32_bitwise Z.lxor xorb); [apply Z.lxor_spec|..].
  - by apply (to_i32_bitwise Z.land andb); [apply Z.land_spec|..].
  - by apply (to_i32_bitwise Z.lor orb); [apply Z.lor_spec|..].
Qed.

(** A doubleword AMO stores the operation's result. *)
Lemma atomic_alu_double (op : AtomicOp) (m r : Z) :
  in_width 64 m -> in_width 64 r ->
  atomic_alu op m r WDouble = u64 (amo_result op (as_signed 64) m r).
Proof.
  intros Hm Hr. rewrite <-amo_signed_ok by done. unfold atomic_alu.
  rewrite (to_i64_reg m), (to_i64_reg r) by done. by destruct op.
Qed.

(** A word AMO does so on the low words and sign-extends. *)
Lemma atomic_alu_word (op : AtomicOp) (m r : Z) :
  atomic_alu op m r WWord = sext32 (amo_result op (as_signed 32) (u32 m) (u32 r)).
Proof.
  pose proof (wrap_range 32 m ltac:(lia)). pose proof (wrap_range 32 r ltac:(lia)).
  unfold sext32. rewrite (to_i32_congr _ (amo_signed op 32 (u32 m) (u32 r))).
  - rewrite amo_signed_word by done. by destruct op.
  - symmetry. by apply amo_signed_ok.
Qed.

(** * Split accesses *)

Definition mem_read_byte (a : Z) (m : Z -> Z) : Z * (Z -> Z) := (m a, m).
Definition mem_write_byte (a b : Z) (m : Z -> Z) : Z -> Z := fun x => if x =? a then b else m x.

Lemma seqZ_last (n : nat) : seqZ 0 (Z.of_nat (S n)) = seqZ 0 (Z.of_nat n) ++ [Z.of_nat n].
Proof.
  rewrite Nat2Z.inj_succ, <-Z.add_1_r, (seqZ_app 0 (Z.of_nat n) 1) by lia. by rewrite Z.add_0_l.
Qed.

(** Each byte of the range gets its byte of the value, the others stay. *)
Lemma split_store_bytes (addr val : Z) (m : Z -> Z) (n : nat) (x : Z) :
  in_width 64 addr -> addr + Z.of_nat n <= 2 ^ 64 ->
  split_store mem_write_byte addr (Z.of_nat n) val m x
  = if (addr <=? x) && (x <? addr + Z.of_nat n) then u8 (Z.shiftr val ((x - addr) * 8)) else m x.
Proof.
  unfold in_width. intros Ha. induction n as [|n IH]; intros Hn.
  - change (split_store _ _ _ _ m x) with (m x). case_bool; [|done]. to_prop. lia.
  - unfold split_store in *. rewrite seqZ_last, foldl_snoc. unfold mem_write_byte at 1.
    assert (E : add64 addr (Z.of_nat n) = addr + Z.of_nat n) by (apply wrap_small; unfold in_width; lia).
    rewrite E. destruct (Z.eqb_spec x (addr + Z.of_nat n)) as [->|Hne].
    + rewrite (proj2 (Z.leb_le _ _)), (proj2 (Z.ltb_lt _ _)) by lia. simpl.
      rewrite (land_low_mask _ 8) by lia. change (?y mod 2 ^ 8) with (u8 y).
      rewrite wrap_idemp by lia. do 2 f_equal. lia.
    + rewrite IH by lia.
      destruct (Z.leb_spec addr x), (Z.ltb_spec x (addr + Z.of_nat n)),
        (Z.ltb_spec x (addr + Z.of_nat (S n))); simpl; lia || done.
Qed.

(** A split load assembles the bytes in little-endian order. *)
Lemma split_load_bytes (addr : Z) (m : Z -> Z) (n : nat) (v : Z) :
  (n <= 8)%nat -> in_width 64 addr -> addr + Z.of_nat n <= 2 ^ 64 ->
  (forall k, 0 <= k < Z.of_nat n -> m (addr + k) = u8 (Z.shiftr v (k * 8))) ->
  split_load mem_read_byte addr (Z.of_nat n) m = (v mod 2 ^ (8 * Z.of_nat n), m).
Proof.
  unfold in_width. intros H8 Ha. revert H8. induction n as [|n IH]; intros H8 Hn Hm.
  - unfold split_load. simpl. by rewrite Z.mod_1_r.
  - unfold split_load in *. rewrite seqZ_last, foldl_snoc, IH by (intros; (lia || apply Hm; lia)).
    assert (E : add64 addr (Z.of_nat n) = addr + Z.of_nat n) by (apply wrap_small; unfold in_width; lia).
    simpl. rewrite E, Hm by lia. f_equal.
    apply Z.bits_inj'. intros i Hi. change (v mod 2 ^ ?k) with (wrap k v). unfold shl64.
    rewrite Z.lor_spec, !wrap_testbit, Z.shiftl_spec, wrap_testbit by lia.
    destruct (decide (Z.of_nat n * 8 <= i)) as [Hge|Hlt].
    + rewrite Z.shiftr_spec by lia. replace (i - Z.of_nat n * 8 + Z.of_nat n * 8) with i by lia.
      destruct (Z.ltb_spec i (8 * Z.of_nat n)); [lia|].
      destruct (Z.ltb_spec i 64), (Z.ltb_spec (i - Z.of_nat n * 8) 8), (Z.ltb_spec i (8 * Z.of_nat (S n)));
        simpl; lia || done.
    + rewrite (Z.testbit_neg_r _ (i - _)) by lia. rewrite !andb_false_r, orb_false_r.
      by rewrite !(proj2 (Z.ltb_lt _ _)) by lia.
Qed.

(** Splitting a store into bytes and a load into bytes is a round trip. *)
Lemma split_load_store (addr val : Z) (m : Z -> Z) (n : nat) :
  (n <= 8)%nat -> in_width 64 addr -> addr + Z.of_nat n <= 2 ^ 64 ->
  (split_load mem_read_byte addr (Z.of_nat n) (split_store mem_write_byte addr (Z.of_nat n) val m)).1
  = val mod 2 ^ (8 * Z.of_nat n).
Proof.
  intros H8 Ha Hn. rewrite (split_load_bytes _ _ _ val); try done. intros k Hk.
  rewrite split_store_bytes by done. rewrite (proj2 (Z.leb_le _ _)), (proj2 (Z.ltb_lt _ _)) by lia.
  simpl. do 2 f_equal. lia.
Qed.

(** ** Alignment *)

Lemma is_aligned_pow2 (addr k : Z) : 0 <= k -> is_aligned addr (2 ^ k) = true <-> addr mod 2 ^ k = 0.
Proof.
  intros Hk. unfold is_aligned. destruct (decide (2 ^ k = 1)) as [->|Hne]; [by rewrite Z.mod_1_r|].
  rewrite !(proj2 (Z.eqb_neq _ _)) by lia. simpl. by rewrite Z.eqb_eq, land_low_mask.
Qed.

Lemma is_aligned_iff (addr : Z) (w : MemWidth) :
  w <> WNop -> is_aligned addr (width_to_bytes w) = true <-> addr mod width_to_bytes w = 0.
Proof.
  intros. destruct w; [done|..];
    [apply (is_aligned_pow2 addr 0) | apply (is_aligned_pow2 addr 1)
    | apply (is_aligned_pow2 addr 2) | apply (is_aligned_pow2 addr 3)]; done.
Qed.

(** An access crosses a line exactly when its first and last bytes are in
    different lines. *)
Lemma crosses_cache_line_iff (addr size : Z) (k : Z) :
  in_width 64 addr -> 0 <= k < 63 -> 1 <= size <= 8 ->
  crosses_cache_line addr size (2 ^ k) = true <-> addr / 2 ^ k <> (addr + (size - 1)) / 2 ^ k.
Proof.
  unfold in_width. intros Ha Hk Hs. unfold crosses_cache_line, sub64, add64.
  assert (1 <= 2 ^ k <= 2 ^ 62) by (split; [lia|apply Z.pow_le_mono_r; lia]).
  rewrite (proj2 (Z.eqb_neq _ _)) by lia. rewrite (wrap_small 64 (2 ^ k - 1)) by (unfold in_width; lia).
  rewrite land_low_mask by lia.
  assert (0 <= addr mod 2 ^ k < 2 ^ k) by (apply Z.mod_pos_bound; lia).
  rewrite wrap_small by (unfold in_width; lia). rewrite Z.leb_le.
  pose proof (Z.div_mod addr (2 ^ k) ltac:(lia)) as E. set (q := addr / 2 ^ k) in *.
  set (r := addr mod 2 ^ k) in *. split; intros H1.
  - assert (q + 1 <= (addr + (size - 1)) / 2 ^ k) by (apply Z.div_le_lower_bound; lia). lia.
  - destruct (decide (2 ^ k <= r + (size - 1))); [done|]. exfalso. apply H1.
    apply Z.div_unique with (r + (size - 1)); lia.
Qed.
