(* ===== verification/Isa.v ===== *)
(** Instruction words ([isa/instruction.rs], [isa/decode.rs]) and the encoding
    constants of the base ISA and its extensions ([isa/rv64*/], [isa/privileged/]). *)
From S2P Require Import Prelude Common BitField.
Set Primitive Projections.
Local Open Scope Z_scope.

(** * [match] on an integer *)

(** The value of the first arm whose constant equals [x], or the default. *)
Fixpoint zmatch {A} (x : Z) (arms : list (Z * A)) (default : A) : A :=
  match arms with
  | [] => default
  | (k, v) :: arms' => if x =? k then v else zmatch x arms' default
  end.

Lemma zmatch_elim {A} (P : A -> Prop) (x : Z) (arms : list (Z * A)) (d : A) :
  Forall (fun kv => x = kv.1 -> P kv.2) arms -> P d -> P (zmatch x arms d).
Proof.
  induction 1 as [|[k v] arms H _ IH]; intros Hd; simpl in *; [done|].
  destruct (Z.eqb_spec x k); [by apply H|by apply IH].
Qed.

(** * Constants *)

(** [rv64i/opcodes.rs] *)
Definition OP_LOAD : Z := 0x3.
Definition OP_IMM : Z := 0x13.
Definition OP_AUIPC : Z := 0x17.
Definition OP_IMM_32 : Z := 0x1b.
Definition OP_STORE : Z := 0x23.
Definition OP_REG : Z := 0x33.
Definition OP_LUI : Z := 0x37.
Definition OP_REG_32 : Z := 0x3b.
Definition OP_BRANCH : Z := 0x63.
Definition OP_JALR : Z := 0x67.
Definition OP_JAL : Z := 0x6f.
Definition OP_MISC_MEM : Z := 0xf.

(** [rv64i/funct3.rs] *)
Definition LB : Z := 0x0.
Definition LH : Z := 0x1.
Definition LW : Z := 0x2.
Definition LD : Z := 0x3.
Definition LBU : Z := 0x4.
Definition LHU : Z := 0x5.
Definition LWU : Z := 0x6.
Definition SB : Z := 0x0.
Definition SH : Z := 0x1.
Definition SW : Z := 0x2.
Definition SD : Z := 0x3.
Definition BEQ : Z := 0x0.
Definition BNE : Z := 0x1.
Definition BLT : Z := 0x4.
Definition BGE : Z := 0x5.
Definition BLTU : Z := 0x6.
Definition BGEU : Z := 0x7.
Definition ADD_SUB : Z := 0x0.
Definition SLL : Z := 0x1.
Definition SLT : Z := 0x2.
Definition SLTU : Z := 0x3.
Definition XOR : Z := 0x4.
Definition SRL_SRA : Z := 0x5.
Definition OR : Z := 0x6.
Definition AND : Z := 0x7.
Definition FENCE : Z := 0x0.
Definition FENCE_I : Z := 0x1.

(** [rv64i/funct7.rs] *)
Definition DEFAULT : Z := 0x0.
Definition SUB : Z := 0x20.
Definition SRA : Z := 0x20.

(** [rv64m/] *)
Definition M_EXTENSION : Z := 0x1.
Definition MUL : Z := 0x0.
Definition MULH : Z := 0x1.
Definition MULHSU : Z := 0x2.
Definition MULHU : Z := 0x3.
Definition DIV : Z := 0x4.
Definition DIVU : Z := 0x5.
Definition REM : Z := 0x6.
Definition REMU : Z := 0x7.

(** [rv64a/] *)
Definition OP_AMO : Z := 0x2f.
Definition WIDTH_32 : Z := 0x2.
Definition WIDTH_64 : Z := 0x3.
Definition LR : Z := 0x2.
Definition SC : Z := 0x3.
Definition AMOSWAP : Z := 0x1.
Definition AMOADD : Z := 0x0.
Definition AMOXOR : Z := 0x4.
Definition AMOAND : Z := 0xc.
Definition AMOOR : Z := 0x8.
Definition AMOMIN : Z := 0x10.
Definition AMOMAX : Z := 0x14.
Definition AMOMINU : Z := 0x18.
Definition AMOMAXU : Z := 0x1c.

(** [rv64f/opcodes.rs], repeated in [rv64d/opcodes.rs] *)
Definition OP_LOAD_FP : Z := 0x7.
Definition OP_STORE_FP : Z := 0x27.
Definition OP_FP : Z := 0x53.
Definition OP_FMADD : Z := 0x43.
Definition OP_FMSUB : Z := 0x47.
Definition OP_FNMSUB : Z := 0x4b.
Definition OP_FNMADD : Z := 0x4f.

(** [rv64f/funct3.rs]; the [FSGNJ] of [funct7.rs] is [F7_FSGNJ]. *)
Definition FSGNJ : Z := 0x0.
Definition FSGNJN : Z := 0x1.
Definition FSGNJX : Z := 0x2.
Definition FMIN : Z := 0x0.
Definition FMAX : Z := 0x1.
Definition FLE : Z := 0x0.
Definition FLT : Z := 0x1.
Definition FEQ : Z := 0x2.
Definition FCLASS : Z := 0x1.
Definition FMV_X_W : Z := 0x0.

(** [rv64f/funct7.rs] *)
Definition FADD : Z := 0x0.
Definition FSUB : Z := 0x4.
Definition FMUL : Z := 0x8.
Definition FDIV : Z := 0xc.
Definition FSQRT : Z := 0x2c.
Definition F7_FSGNJ : Z := 0x10.
Definition FMIN_MAX : Z := 0x14.
Definition FCMP : Z := 0x50.
Definition FCLASS_MV_X_F : Z := 0x70.
Definition FCVT_W_F : Z := 0x60.
Definition FCVT_F_W : Z := 0x68.
Definition FMV_F_X : Z := 0x78.
Definition FCVT_DS : Z := 0x21.

(** [rv64d/funct7.rs] *)
Definition FADD_D : Z := 0x1.
Definition FSUB_D : Z := 0x5.
Definition FMUL_D : Z := 0x9.
Definition FDIV_D : Z := 0xd.
Definition FSQRT_D : Z := 0x2d.
Definition FSGNJ_D : Z := 0x11.
Definition FMIN_MAX_D : Z := 0x15.
Definition FCMP_D : Z := 0x51.
Definition FCLASS_MV_X_D : Z := 0x71.
Definition FCVT_D_W : Z := 0x69.
Definition FCVT_W_D : Z := 0x61.
Definition FMV_D_X : Z := 0x79.
Definition FCVT_S_D : Z := 0x20.

(** [privileged/opcodes.rs] *)
Definition OP_SYSTEM : Z := 0x73.
Definition ECALL : Z := 0x00000073.
Definition EBREAK : Z := 0x00100073.
Definition MRET : Z := 0x30200073.
Definition SRET : Z := 0x10200073.
Definition WFI : Z := 0x10500073.
Definition SFENCE_VMA : Z := 0x12000073.
Definition CSRRW : Z := 0x1.
Definition CSRRS : Z := 0x2.
Definition CSRRC : Z := 0x3.
Definition CSRRWI : Z := 0x5.
Definition CSRRSI : Z := 0x6.
Definition CSRRCI : Z := 0x7.

(** * Fields of an instruction word *)

Definition opcode (inst : Z) : Z := Z.land inst 0x7F.
Definition rd (inst : Z) : Z := reg_new (u8 (Z.land (Z.shiftr inst 7) 0x1F)).
Definition rs1 (inst : Z) : Z := reg_new (u8 (Z.land (Z.shiftr inst 15) 0x1F)).
Definition rs2 (inst : Z) : Z := reg_new (u8 (Z.land (Z.shiftr inst 20) 0x1F)).
Definition rs3 (inst : Z) : Z := reg_new (u8 (Z.land (Z.shiftr inst 27) 0x1F)).
Definition funct3 (inst : Z) : Z := Z.land (Z.shiftr inst 12) 0x7.
Definition funct7 (inst : Z) : Z := Z.land (Z.shiftr inst 25) 0x7F.
(** [CsrAddr::from_u32] keeps twelve bits. *)
Definition csr (inst : Z) : Z := Z.land (Z.shiftr inst 20) 0xFFF.

Record Decoded := {
  raw : Z; d_opcode : Z; d_rd : Z; d_rs1 : Z; d_rs2 : Z; d_funct3 : Z; d_funct7 : Z; d_imm : Z
}.

(** * Immediates *)

Definition shl32 (a n : Z) : Z := u32 (Z.shiftl a n).

(** [((val as i32) << shift >> shift) as i64] *)
Definition sign_extend (val bits : Z) : Z :=
  let shift := 32 - bits in
  Z.shiftr (as_signed 32 (u32 (Z.shiftl (as_signed 32 (u32 val)) shift))) shift.

Definition decode_i_type_imm (inst : Z) : Z := Z.shiftr (as_signed 32 inst) 20.

Definition decode_s_type_imm (inst : Z) : Z :=
  let low := Z.land (Z.shiftr inst 7) 0x1F in
  let high := Z.land (Z.shiftr inst 25) 0x7F in
  let combined := Z.lor (shl32 high 5) low in
  sign_extend combined 12.

Definition decode_b_type_imm (inst : Z) : Z :=
  let bit_11 := Z.land (Z.shiftr inst 7) 1 in
  let bits_4_1 := Z.land (Z.shiftr inst 8) 0xF in
  let bits_10_5 := Z.land (Z.shiftr inst 25) 0x3F in
  let bit_12 := Z.land (Z.shiftr inst 31) 1 in
  let combined := Z.lor (Z.lor (Z.lor (shl32 bit_12 12) (shl32 bit_11 11))
                               (shl32 bits_10_5 5)) (shl32 bits_4_1 1) in
  sign_extend combined 13.

Definition decode_u_type_imm (inst : Z) : Z := as_signed 32 (Z.land inst 0xFFFFF000).

Definition decode_j_type_imm (inst : Z) : Z :=
  let bits_19_12 := Z.land (Z.shiftr inst 12) 0xFF in
  let bit_11 := Z.land (Z.shiftr inst 20) 1 in
  let bits_10_1 := Z.land (Z.shiftr inst 21) 0x3FF in
  let bit_20 := Z.land (Z.shiftr inst 31) 1 in
  let combined := Z.lor (Z.lor (Z.lor (shl32 bit_20 20) (shl32 bits_19_12 12))
                               (shl32 bit_11 11)) (shl32 bits_10_1 1) in
  sign_extend combined 21.

Definition decode (inst : Z) : Decoded :=
  let op := opcode inst in
  let imm :=
    zmatch op
      [(OP_IMM, decode_i_type_imm inst); (OP_LOAD, decode_i_type_imm inst);
       (OP_JALR, decode_i_type_imm inst); (OP_IMM_32, decode_i_type_imm inst);
       (OP_LOAD_FP, decode_i_type_imm inst);
       (OP_STORE, decode_s_type_imm inst); (OP_STORE_FP, decode_s_type_imm inst);
       (OP_BRANCH, decode_b_type_imm inst);
       (OP_LUI, decode_u_type_imm inst); (OP_AUIPC, decode_u_type_imm inst);
       (OP_JAL, decode_j_type_imm inst)]
      0 in
  {| raw := inst; d_opcode := op; d_rd := rd inst; d_rs1 := rs1 inst; d_rs2 := rs2 inst;
     d_funct3 := funct3 inst; d_funct7 := funct7 inst; d_imm := imm |}.

(** * Instruction formats of the manual *)

Definition r_type (f7 r2 r1 f3 d op : Z) : Z :=
  Z.lor (Z.lor (Z.lor (Z.lor (Z.lor (Z.shiftl f7 25) (Z.shiftl r2 20)) (Z.shiftl r1 15))
                      (Z.shiftl f3 12)) (Z.shiftl d 7)) op.
Definition i_type (imm r1 f3 d op : Z) : Z :=
  Z.lor (Z.lor (Z.lor (Z.lor (Z.shiftl (wrap 12 imm) 20) (Z.shiftl r1 15))
                      (Z.shiftl f3 12)) (Z.shiftl d 7)) op.
Definition s_type (imm r2 r1 f3 op : Z) : Z :=
  r_type (wrap 7 (Z.shiftr imm 5)) r2 r1 f3 (wrap 5 imm) op.
Definition b_type (imm r2 r1 f3 op : Z) : Z :=
  r_type (Z.lor (Z.shiftl (wrap 1 (Z.shiftr imm 12)) 6) (wrap 6 (Z.shiftr imm 5))) r2 r1 f3
         (Z.lor (Z.shiftl (wrap 4 (Z.shiftr imm 1)) 1) (wrap 1 (Z.shiftr imm 11))) op.
Definition u_type (imm d op : Z) : Z := Z.lor (Z.lor (wrap 32 imm) (Z.shiftl d 7)) op.
Definition j_type (imm d op : Z) : Z :=
  Z.lor (Z.lor (Z.lor (Z.lor (Z.lor (Z.shiftl (wrap 1 (Z.shiftr imm 20)) 31)
                                    (Z.shiftl (wrap 10 (Z.shiftr imm 1)) 21))
                             (Z.shiftl (wrap 1 (Z.shiftr imm 11)) 20))
                      (Z.shiftl (wrap 8 (Z.shiftr imm 12)) 12)) (Z.shiftl d 7)) op.

(** The extractors invert the formats. *)

Ltac unfold_words :=
  unfold opcode, rd, rs1, rs2, rs3, funct3, funct7, csr, reg_new, decode_i_type_imm, decode_s_type_imm,
    decode_b_type_imm, decode_u_type_imm, decode_j_type_imm, sign_extend, shl32,
    s_type, b_type, r_type, i_type, u_type, j_type; cbv zeta.
Ltac word_eq := intros; unfold_words; bitfield.

Section Formats.
Context (f7 r1 r2 f3 d op imm : Z).
Context (Hf7 : ufield 0 7 f7) (Hr1 : ufield 0 5 r1) (Hr2 : ufield 0 5 r2) (Hf3 : ufield 0 3 f3)
  (Hd : ufield 0 5 d) (Hop : ufield 0 7 op).

Lemma r_type_fields :
  let w := r_type f7 r2 r1 f3 d op in
  wrap 32 w = w /\ opcode w = op /\ rd w = d /\ rs1 w = r1 /\ rs2 w = r2 /\ funct3 w = f3 /\ funct7 w = f7.
Proof. cbv zeta. split_and!; word_eq. Qed.

Lemma i_type_fields (Himm : sfield 0 12 imm) :
  let w := i_type imm r1 f3 d op in
  wrap 32 w = w /\ opcode w = op /\ rd w = d /\ rs1 w = r1 /\ funct3 w = f3 /\
  decode_i_type_imm w = imm /\ csr w = wrap 12 imm /\ funct7 w = wrap 7 (Z.shiftr imm 5).
Proof. cbv zeta. split_and!; word_eq. Qed.

Lemma s_type_fields (Himm : sfield 0 12 imm) :
  let w := s_type imm r2 r1 f3 op in
  wrap 32 w = w /\ opcode w = op /\ rs1 w = r1 /\ rs2 w = r2 /\ funct3 w = f3 /\ decode_s_type_imm w = imm.
Proof. cbv zeta. split_and!; word_eq. Qed.

Lemma b_type_fields (Himm : sfield 1 13 imm) :
  let w := b_type imm r2 r1 f3 op in
  wrap 32 w = w /\ opcode w = op /\ rs1 w = r1 /\ rs2 w = r2 /\ funct3 w = f3 /\ decode_b_type_imm w = imm.
Proof. cbv zeta. split_and!; word_eq. Qed.

Lemma u_type_fields (Himm : sfield 12 32 imm) :
  let w := u_type imm d op in
  wrap 32 w = w /\ opcode w = op /\ rd w = d /\ decode_u_type_imm w = imm.
Proof. cbv zeta. split_and!; word_eq. Qed.

Lemma j_type_fields (Himm : sfield 1 21 imm) :
  let w := j_type imm d op in
  wrap 32 w = w /\ opcode w = op /\ rd w = d /\ decode_j_type_imm w = imm.
Proof. cbv zeta. split_and!; word_eq. Qed.

End Formats.
