(* ===== verification/Decode.v ===== *)
(** The decode stage ([core/pipeline/frontend/decode.rs]): control signals of an
    instruction word, and the stage that turns fetched words into decoded
    entries, with its bundle rules. *)
From S2P Require Import Prelude Common BitField Isa Rename RenameO3 Tlb Csr Mmu Cpu.
Set Primitive Projections.
Local Open Scope Z_scope.

#[export] Instance AtomicOp_eq_dec : EqDecision AtomicOp.
Proof. solve_decision. Defined.

(** * [decode_instruction] *)

Definition INSTRUCTION_NOP : Z := 0x00000013.
Definition FUNCT7_ALT_BIT : Z := 0x20.
Definition FP_WIDTH_WORD : Z := 0x2.
Definition FP_WIDTH_DOUBLE : Z := 0x3.
Definition FP_FMT_SINGLE : Z := 0.
Definition FP_FMT_DOUBLE : Z := 1.

(** [Result<_, Trap>]; [Err] is on the left. *)
Definition result (A : Type) : Type := Trap + A.
Definition res_bind {A B} (r : result A) (k : A -> result B) : result B :=
  match r with inl t => inl t | inr a => k a end.
Notation "'let?' x := r 'in' k" := (res_bind r (fun x => k)) (at level 10, x pattern, k at level 200).

Section Instruction.
Context (inst pc : Z) (d : Decoded).

Definition illegal {A} : result A := inl (IllegalInstruction inst).

(** [match d.funct3 { ... _ => return Err(IllegalInstruction(inst)) }] *)
Definition select {A} (x : Z) (arms : list (Z * A)) : result A :=
  zmatch x (prod_map id inr <$> arms) illegal.

Definition c0 : ControlSignals := ControlSignals_default.

Definition decode_load : result ControlSignals :=
  let? (w, s) := select (d_funct3 d)
    [(LB, (WByte, true)); (LH, (WHalf, true)); (LW, (WWord, true)); (LD, (WDouble, true));
     (LBU, (WByte, false)); (LHU, (WHalf, false)); (LWU, (WWord, false))] in
  inr (c0 <| reg_write := true |> <| mem_read := true |> <| alu := Add |>
          <| width := w |> <| signed_load := s |>).

Definition decode_store : result ControlSignals :=
  let? w := select (d_funct3 d) [(SB, WByte); (SH, WHalf); (SW, WWord); (SD, WDouble)] in
  inr (c0 <| mem_write := true |> <| b_src := BImm |> <| alu := Add |> <| width := w |>).

Definition decode_op_imm : result ControlSignals :=
  let? op := select (d_funct3 d)
    [(ADD_SUB, Add); (SLT, Slt); (SLTU, Sltu); (XOR, Xor); (OR, Or); (AND, And); (SLL, Sll);
     (SRL_SRA, if has_bits (d_funct7 d) FUNCT7_ALT_BIT then Sra else Srl)] in
  inr (c0 <| reg_write := true |> <| is_rv32 := d_opcode d =? OP_IMM_32 |> <| alu := op |>).

(** The pair [(funct3, funct7)] is matched through funct7. *)
Definition decode_op_reg : result ControlSignals :=
  let? op :=
    if d_funct7 d =? M_EXTENSION
    then select (d_funct3 d)
      [(MUL, Mul); (MULH, Mulh); (MULHSU, Mulhsu); (MULHU, Mulhu);
       (DIV, Div); (DIVU, Divu); (REM, Rem); (REMU, Remu)]
    else if d_funct7 d =? DEFAULT
    then select (d_funct3 d)
      [(ADD_SUB, Add); (SLL, Sll); (SLT, Slt); (SLTU, Sltu); (XOR, Xor); (SRL_SRA, Srl);
       (OR, Or); (AND, And)]
    else if d_funct7 d =? SUB
    then select (d_funct3 d) [(ADD_SUB, Sub); (SRL_SRA, Sra)]
    else illegal in
  inr (c0 <| reg_write := true |> <| is_rv32 := d_opcode d =? OP_REG_32 |> <| b_src := BReg2 |>
          <| alu := op |>).

Definition decode_amo : result ControlSignals :=
  let? w := select (d_funct3 d) [(WIDTH_32, WWord); (WIDTH_64, WDouble)] in
  let f5 := Z.shiftr (d_funct7 d) 2 in
  let? op := select f5
    [(LR, AtomicLr); (SC, AtomicSc); (AMOSWAP, AtomicSwap); (AMOADD, AtomicAdd);
     (AMOXOR, AtomicXor); (AMOAND, AtomicAnd); (AMOOR, AtomicOr); (AMOMIN, AtomicMin);
     (AMOMAX, AtomicMax); (AMOMINU, AtomicMinu); (AMOMAXU, AtomicMaxu)] in
  inr (c0 <| width := w |> <| atomic_op := op |> <| alu := Add |> <| a_src := AReg1 |>
          <| b_src := BZero |> <| mem_read := true |>
          <| mem_write := bool_decide (op <> AtomicLr) |> <| reg_write := true |>).

Definition decode_load_fp : result ControlSignals :=
  let? w := select (d_funct3 d) [(FP_WIDTH_WORD, WWord); (FP_WIDTH_DOUBLE, WDouble)] in
  inr (c0 <| fp_reg_write := true |> <| mem_read := true |> <| alu := Add |> <| width := w |>).

Definition decode_store_fp : result ControlSignals :=
  let? w := select (d_funct3 d) [(FP_WIDTH_WORD, WWord); (FP_WIDTH_DOUBLE, WDouble)] in
  inr (c0 <| mem_write := true |> <| rs1_fp := false |> <| rs2_fp := true |> <| b_src := BImm |>
          <| alu := Add |> <| width := w |>).

(** The assignments an arm makes before its value: comparisons, classification
    and conversions to integers write an integer register; moves and
    conversions from integers read one. *)
Definition to_int (c : ControlSignals) : ControlSignals :=
  c <| fp_reg_write := false |> <| reg_write := true |> <| rs1_fp := true |>.
Definition from_int (c : ControlSignals) : ControlSignals :=
  c <| rs1_fp := false |> <| fp_reg_write := true |> <| a_src := AReg1 |>.
Definition with_alu (c : ControlSignals) (op : AluOp) : result ControlSignals := inr (c <| alu := op |>).

Definition decode_op_fp : result ControlSignals :=
  let fmt := Z.land (d_funct7 d) 0x3 in
  let single := fmt =? FP_FMT_SINGLE in
  let is_double := fmt =? FP_FMT_DOUBLE in
  if negb single && negb is_double then illegal
  else
    let c := c0 <| is_rv32 := single |> <| rs1_fp := true |> <| rs2_fp := true |>
                <| fp_reg_write := true |> <| b_src := BReg2 |> in
    let sgnj := let? op := select (d_funct3 d) [(FSGNJ, FSgnJ); (FSGNJN, FSgnJN); (FSGNJX, FSgnJX)] in
                with_alu c op in
    let min_max := let? op := select (d_funct3 d) [(FMIN, FMin); (FMAX, FMax)] in with_alu c op in
    let cmp := let? op := select (d_funct3 d) [(FEQ, FEq); (FLT, FLt); (FLE, FLe)] in
               with_alu (to_int c) op in
    let mv_x := let? op := select (d_funct3 d) [(FMV_X_W, FMvToX); (FCLASS, FClass)] in
                with_alu (to_int c) op in
    let cvt_w := let? op := select (d_rs2 d) [(0, FCvtWS); (1, FCvtWUS); (2, FCvtLS); (3, FCvtLUS)] in
                 with_alu (to_int c) op in
    let cvt_f := let? op := select (d_rs2 d) [(0, FCvtSW); (1, FCvtSWU); (2, FCvtSL); (3, FCvtSLU)] in
                 with_alu (from_int c) op in
    zmatch (d_funct7 d)
      [(FADD, with_alu c FAdd); (FADD_D, with_alu c FAdd);
       (FSUB, with_alu c FSub); (FSUB_D, with_alu c FSub);
       (FMUL, with_alu c FMul); (FMUL_D, with_alu c FMul);
       (FDIV, with_alu c FDiv); (FDIV_D, with_alu c FDiv);
       (FSQRT, with_alu c FSqrt); (FSQRT_D, with_alu c FSqrt);
       (F7_FSGNJ, sgnj); (FSGNJ_D, sgnj);
       (FMIN_MAX, min_max); (FMIN_MAX_D, min_max);
       (FCMP, cmp); (FCMP_D, cmp);
       (FCLASS_MV_X_F, mv_x); (FCLASS_MV_X_D, mv_x);
       (FMV_F_X, with_alu (from_int c) FMvToF); (FMV_D_X, with_alu (from_int c) FMvToF);
       (FCVT_W_F, cvt_w); (FCVT_W_D, cvt_w);
       (FCVT_F_W, cvt_f); (FCVT_D_W, cvt_f);
       (FCVT_DS, with_alu c FCvtDS); (FCVT_S_D, with_alu c FCvtSD)]
      illegal.

Definition decode_fma : result ControlSignals :=
  let fmt := Z.land (d_funct7 d) 0x3 in
  inr (c0 <| rs1_fp := true |> <| rs2_fp := true |> <| rs3_fp := true |> <| fp_reg_write := true |>
          <| b_src := BReg2 |> <| is_rv32 := fmt =? FP_FMT_SINGLE |>
          <| alu := zmatch (d_opcode d)
                      [(OP_FMADD, FMAdd); (OP_FMSUB, FMSub); (OP_FNMADD, FNMAdd); (OP_FNMSUB, FNMSub)]
                      Add |>).

Definition decode_csr : ControlSignals :=
  c0 <| system_op := System |> <| csr_addr := csr inst |> <| a_src := AReg1 |> <| b_src := BZero |>
     <| csr_op := zmatch (d_funct3 d)
                    [(CSRRW, Rw); (CSRRS, Rs); (CSRRC, Rc); (CSRRWI, Rwi); (CSRRSI, Rsi); (CSRRCI, Rci)]
                    CsrNone |>
     <| reg_write := negb (reg_is_zero (d_rd d)) |>.

Definition decode_system : result ControlSignals :=
  if Z.land inst 0xFE007FFF =? SFENCE_VMA then inr (c0 <| system_op := SfenceVma |>)
  else
    zmatch (raw d)
      [(EBREAK, inl (Breakpoint pc));
       (MRET, inr (c0 <| system_op := Mret |>));
       (SRET, inr (c0 <| system_op := Sret |>));
       (WFI, inr (c0 <| system_op := Wfi |>));
       (ECALL, inr (c0 <| system_op := System |>))]
      (if negb (d_funct3 d =? 0) then inr decode_csr else inr c0).

Definition decode_misc_mem : result ControlSignals :=
  let? op := select (d_funct3 d) [(FENCE, Fence); (FENCE_I, FenceI)] in
  inr (c0 <| system_op := op |>).

Definition decode_instruction : result ControlSignals :=
  zmatch (d_opcode d)
    [(OP_LUI, inr (c0 <| reg_write := true |> <| a_src := AZero |>));
     (OP_AUIPC, inr (c0 <| reg_write := true |> <| a_src := APc |>));
     (OP_JAL, inr (c0 <| reg_write := true |> <| control_flow := Jump |>));
     (OP_JALR, inr (c0 <| reg_write := true |> <| control_flow := Jump |> <| alu := Add |>));
     (OP_BRANCH, inr (c0 <| control_flow := Branch |> <| b_src := BReg2 |>));
     (OP_LOAD, decode_load); (OP_STORE, decode_store);
     (OP_IMM, decode_op_imm); (OP_IMM_32, decode_op_imm);
     (OP_REG, decode_op_reg); (OP_REG_32, decode_op_reg);
     (OP_AMO, decode_amo);
     (OP_LOAD_FP, decode_load_fp); (OP_STORE_FP, decode_store_fp); (OP_FP, decode_op_fp);
     (OP_FMADD, decode_fma); (OP_FMSUB, decode_fma); (OP_FNMADD, decode_fma); (OP_FNMSUB, decode_fma);
     (OP_SYSTEM, decode_system); (OP_MISC_MEM, decode_misc_mem)]
    illegal.

End Instruction.

(** * [decode_stage] *)

Record IfIdEntry := {
  if_pc : Z; if_inst : Z; if_inst_size : InstSize;
  if_pred_taken : bool; if_pred_target : Z;
  if_trap : option Trap; if_exception_stage : option ExceptionStage;
  if_ghr_snapshot : Ghr; if_ras_snapshot : Z
}.

Definition IdExEntry_default : IdExEntry := {|
  id_pc := 0; id_inst := 0; id_inst_size := Standard;
  id_rs1 := 0; id_rs2 := 0; id_rs3 := 0; id_rd := 0; id_imm := 0;
  id_rv1 := 0; id_rv2 := 0; id_rv3 := 0; id_ctrl := ControlSignals_default;
  id_trap := None; id_exception_stage := None; id_pred_taken := false; id_pred_target := 0;
  id_ghr_snapshot := ghr_default; id_ras_snapshot := 0 |}.

(** The entry for a word that already trapped in fetch. *)
Definition trap_entry (e : IfIdEntry) (trap : Trap) : IdExEntry :=
  IdExEntry_default <| id_pc := if_pc e |> <| id_inst := if_inst e |> <| id_inst_size := if_inst_size e |>
    <| id_trap := Some trap |> <| id_exception_stage := if_exception_stage e |>.

(** [(ctrl, trap, ex_stage)] of an instruction word. *)
Definition decode_word (inst pc : Z) : ControlSignals * option Trap * option ExceptionStage :=
  match decode_instruction inst pc (decode inst) with
  | inr c => (c, None, None)
  | inl t => (ControlSignals_default, Some t, Some StageDecode)
  end.

Definition writes_contain (writes : list (Z * bool)) (r : Z) (fp : bool) : bool :=
  bool_decide ((r, fp) ∈ writes).

Definition bundle_hazard (writes : list (Z * bool)) (d : Decoded) (ctrl : ControlSignals) (rs3_idx : Z) : bool :=
  ((negb (reg_is_zero (d_rs1 d)) || rs1_fp ctrl) && writes_contain writes (d_rs1 d) (rs1_fp ctrl)) ||
  ((negb (reg_is_zero (d_rs2 d)) || rs2_fp ctrl) && writes_contain writes (d_rs2 d) (rs2_fp ctrl)) ||
  (rs3_fp ctrl && writes_contain writes rs3_idx true).

Definition record_writes (writes : list (Z * bool)) (d : Decoded) (ctrl : ControlSignals) : list (Z * bool) :=
  let writes := if reg_write ctrl && negb (reg_is_zero (d_rd d)) then writes ++ [(d_rd d, false)] else writes in
  if fp_reg_write ctrl then writes ++ [(d_rd d, true)] else writes.

Definition decoded_entry (regs : RegisterFile) (e : IfIdEntry) : IdExEntry :=
  let inst := if_inst e in
  let d := decode inst in
  let '(ctrl, trap, ex_stage) := decode_word inst (if_pc e) in
  let rs3_idx := rs3 inst in
  {| id_pc := if_pc e; id_inst := inst; id_inst_size := if_inst_size e;
     id_rs1 := d_rs1 d; id_rs2 := d_rs2 d; id_rs3 := rs3_idx; id_rd := d_rd d; id_imm := d_imm d;
     id_rv1 := if rs1_fp ctrl then regs_read_f regs (d_rs1 d) else regs_read regs (d_rs1 d);
     id_rv2 := if rs2_fp ctrl then regs_read_f regs (d_rs2 d) else regs_read regs (d_rs2 d);
     id_rv3 := if rs3_fp ctrl then regs_read_f regs rs3_idx else 0;
     id_ctrl := ctrl; id_trap := trap; id_exception_stage := ex_stage;
     id_pred_taken := if_pred_taken e; id_pred_target := if_pred_target e;
     id_ghr_snapshot := if_ghr_snapshot e; id_ras_snapshot := if_ras_snapshot e |}.

(** The loop's state: [consumed_count], [bundle_writes], [output].  Leaving
    the loop with [break] is [Return]. *)
Definition decode_state : Type := nat * list (Z * bool) * list IdExEntry.

Definition decode_step (has_register_renaming : bool) (regs : RegisterFile) (e : IfIdEntry)
    (s : decode_state) : flow decode_state decode_state :=
  let '(consumed, writes, output) := s in
  match if_trap e with
  | Some trap => Return (S consumed, writes, output ++ [trap_entry e trap])
  | None =>
      let inst := if_inst e in
      if inst =? INSTRUCTION_NOP then Continue (S consumed, writes, output)
      else
        let d := decode inst in
        let '(ctrl, trap, ex_stage) := decode_word inst (if_pc e) in
        if negb has_register_renaming && bundle_hazard writes d ctrl (rs3 inst)
        then Return (consumed, writes, output)
        else
          let writes := record_writes writes d ctrl in
          let output := output ++ [decoded_entry regs e] in
          if bool_decide (is_Some trap) then Return (S consumed, writes, output)
          else Continue (S consumed, writes, output)
  end.

(** Returns the remaining input and the extended output. *)
Definition decode_stage (has_register_renaming : bool) (regs : RegisterFile)
    (input : list IfIdEntry) (output : list IdExEntry) : list IfIdEntry * list IdExEntry :=
  let '(consumed_count, _, output) :=
    after_loop (list_scan (decode_step has_register_renaming regs) input (O, [], output)) id in
  (drop consumed_count input, output).
