(* ===== verification/DecodeSpec.v ===== *)
(** Instructions as abstract syntax, their encoding by the tables of the
    RISC-V manual, and the decoder against it: every instruction decodes to
    its operands and control signals, every decoded word has well-formed
    signals, and the decode stage consumes bundles in order. *)
From S2P Require Import Prelude BitField Common Rename RenameO3 Tlb Csr Mmu Cpu Isa Decode.
Set Primitive Projections.
Local Open Scope Z_scope.

(** * Abstract syntax *)

Inductive bcond := Beq | Bne | Blt | Bge | Bltu | Bgeu.
Inductive fp_fmt := FmtS | FmtD.
(** Computational floating-point instructions by operand shape. *)
Inductive fp_op :=
| FBin (op : AluOp)          (* FADD, FSUB, FMUL, FDIV, sign injection, min, max *)
| FUn                        (* FSQRT *)
| FCompare (op : AluOp)      (* FEQ, FLT, FLE *)
| FToInt (op : AluOp)        (* FCVT.{W,WU,L,LU}.fmt *)
| FFromInt (op : AluOp)      (* FCVT.fmt.{W,WU,L,LU} *)
| FMoveToInt | FMoveFromInt | FClassify
| FConvert.                  (* FCVT.fmt.(other fmt) *)

Inductive instr :=
| I_Lui (d imm : Z)
| I_Auipc (d imm : Z)
| I_Jal (d imm : Z)
| I_Jalr (d r1 imm : Z)
| I_Branch (c : bcond) (r1 r2 imm : Z)
| I_Load (w : MemWidth) (signed : bool) (d r1 imm : Z)
| I_Store (w : MemWidth) (r2 r1 imm : Z)
| I_OpImm (op : AluOp) (word : bool) (d r1 imm : Z)
| I_ShiftImm (op : AluOp) (word : bool) (d r1 shamt : Z)
| I_Op (op : AluOp) (word : bool) (d r1 r2 : Z)
| I_Amo (op : AtomicOp) (w : MemWidth) (aqrl d r1 r2 : Z)
| I_LoadFp (w : MemWidth) (d r1 imm : Z)
| I_StoreFp (w : MemWidth) (r2 r1 imm : Z)
| I_Fp (op : fp_op) (fmt : fp_fmt) (rm d r1 r2 : Z)
| I_Fma (op : AluOp) (fmt : fp_fmt) (rm d r1 r2 r3 : Z)
| I_Csr (op : CsrOp) (d r1 addr : Z)
| I_Ecall | I_Mret | I_Sret | I_Wfi
| I_SfenceVma (r1 r2 : Z)
| I_Fence (fm_pred_succ d r1 : Z)
| I_FenceI (imm d r1 : Z).

(** * Encoding *)

Definition bcond_funct3 (c : bcond) : Z :=
  match c with Beq => 0 | Bne => 1 | Blt => 4 | Bge => 5 | Bltu => 6 | Bgeu => 7 end.

Definition width_log2 (w : MemWidth) : option Z :=
  match w with WByte => Some 0 | WHalf => Some 1 | WWord => Some 2 | WDouble => Some 3 | WNop => None end.

(** [(funct7, funct3)] of a register-register instruction; the flag tells
    whether it has a W form. *)
Definition op_functs (op : AluOp) : option (Z * Z * bool) :=
  match op with
  | Add => Some (0, 0, true) | Sub => Some (32, 0, true) | Sll => Some (0, 1, true)
  | Slt => Some (0, 2, false) | Sltu => Some (0, 3, false) | Xor => Some (0, 4, false)
  | Srl => Some (0, 5, true) | Sra => Some (32, 5, true)
  | Or => Some (0, 6, false) | And => Some (0, 7, false)
  | Mul => Some (1, 0, true) | Mulh => Some (1, 1, false) | Mulhsu => Some (1, 2, false)
  | Mulhu => Some (1, 3, false) | Div => Some (1, 4, true) | Divu => Some (1, 5, true)
  | Rem => Some (1, 6, true) | Remu => Some (1, 7, true)
  | _ => None
  end.

Definition opimm_funct3 (op : AluOp) (word : bool) : option Z :=
  match op, word with
  | Add, _ => Some 0 | Slt, false => Some 2 | Sltu, false => Some 3
  | Xor, false => Some 4 | Or, false => Some 6 | And, false => Some 7
  | _, _ => None
  end.

Definition shift_functs (op : AluOp) : option (Z * Z) :=
  match op with Sll => Some (0, 1) | Srl => Some (0, 5) | Sra => Some (32, 5) | _ => None end.

Definition amo_funct5 (op : AtomicOp) : option Z :=
  match op with
  | AtomicLr => Some 2 | AtomicSc => Some 3 | AtomicSwap => Some 1 | AtomicAdd => Some 0
  | AtomicXor => Some 4 | AtomicAnd => Some 12 | AtomicOr => Some 8 | AtomicMin => Some 16
  | AtomicMax => Some 20 | AtomicMinu => Some 24 | AtomicMaxu => Some 28
  | AtomicNone => None
  end.

Definition fmt_bits (f : fp_fmt) : Z := match f with FmtS => 0 | FmtD => 1 end.

(** [(funct5, funct3 if it is not the rounding mode, rs2 if it is not an operand)]. *)
Definition fp_functs (op : fp_op) (fmt : fp_fmt) : option (Z * option Z * option Z) :=
  match op with
  | FBin FAdd => Some (0, None, None) | FBin FSub => Some (1, None, None)
  | FBin FMul => Some (2, None, None) | FBin FDiv => Some (3, None, None)
  | FUn => Some (11, None, Some 0)
  | FBin FSgnJ => Some (4, Some 0, None) | FBin FSgnJN => Some (4, Some 1, None)
  | FBin FSgnJX => Some (4, Some 2, None)
  | FBin FMin => Some (5, Some 0, None) | FBin FMax => Some (5, Some 1, None)
  | FCompare FLe => Some (20, Some 0, None) | FCompare FLt => Some (20, Some 1, None)
  | FCompare FEq => Some (20, Some 2, None)
  | FToInt FCvtWS => Some (24, None, Some 0) | FToInt FCvtWUS => Some (24, None, Some 1)
  | FToInt FCvtLS => Some (24, None, Some 2) | FToInt FCvtLUS => Some (24, None, Some 3)
  | FFromInt FCvtSW => Some (26, None, Some 0) | FFromInt FCvtSWU => Some (26, None, Some 1)
  | FFromInt FCvtSL => Some (26, None, Some 2) | FFromInt FCvtSLU => Some (26, None, Some 3)
  | FMoveToInt => Some (28, Some 0, Some 0) | FClassify => Some (28, Some 1, Some 0)
  | FMoveFromInt => Some (30, Some 0, Some 0)
  | FConvert => Some (8, None, Some (match fmt with FmtS => 1 | FmtD => 0 end))
  | _ => None
  end.

Definition fma_opcode (op : AluOp) : option Z :=
  match op with
  | FMAdd => Some 0x43 | FMSub => Some 0x47 | FNMSub => Some 0x4b | FNMAdd => Some 0x4f
  | _ => None
  end.

Definition csr_funct3 (op : CsrOp) : option Z :=
  match op with
  | Rw => Some 1 | Rs => Some 2 | Rc => Some 3 | Rwi => Some 5 | Rsi => Some 6 | Rci => Some 7
  | CsrNone => None
  end.

(** The word of an instruction, when it has one. *)
Definition encode (i : instr) : option Z :=
  match i with
  | I_Lui d imm => Some (u_type imm d 0x37)
  | I_Auipc d imm => Some (u_type imm d 0x17)
  | I_Jal d imm => Some (j_type imm d 0x6f)
  | I_Jalr d r1 imm => Some (i_type imm r1 0 d 0x67)
  | I_Branch c r1 r2 imm => Some (b_type imm r2 r1 (bcond_funct3 c) 0x63)
  | I_Load w s d r1 imm =>
      l ← width_log2 w;
      if negb s && (l =? 3) then None else Some (i_type imm r1 (if s then l else l + 4) d 0x03)
  | I_Store w r2 r1 imm => l ← width_log2 w; Some (s_type imm r2 r1 l 0x23)
  | I_OpImm op word d r1 imm =>
      f3 ← opimm_funct3 op word; Some (i_type imm r1 f3 d (if word then 0x1b else 0x13))
  | I_ShiftImm op word d r1 shamt =>
      '(f7, f3) ← shift_functs op;
      Some (i_type (Z.lor (Z.shiftl f7 5) shamt) r1 f3 d (if word then 0x1b else 0x13))
  | I_Op op word d r1 r2 =>
      '(f7, f3, has_word) ← op_functs op;
      if word && negb has_word then None else Some (r_type f7 r2 r1 f3 d (if word then 0x3b else 0x33))
  | I_Amo op w aqrl d r1 r2 =>
      f5 ← amo_funct5 op; l ← width_log2 w;
      if l <? 2 then None else Some (r_type (Z.lor (Z.shiftl f5 2) aqrl) r2 r1 l d 0x2f)
  | I_LoadFp w d r1 imm => l ← width_log2 w; if l <? 2 then None else Some (i_type imm r1 l d 0x07)
  | I_StoreFp w r2 r1 imm => l ← width_log2 w; if l <? 2 then None else Some (s_type imm r2 r1 l 0x27)
  | I_Fp op fmt rm d r1 r2 =>
      '(f5, f3, r2') ← fp_functs op fmt;
      Some (r_type (Z.lor (Z.shiftl f5 2) (fmt_bits fmt)) (default r2 r2') r1 (default rm f3) d 0x53)
  | I_Fma op fmt rm d r1 r2 r3 =>
      opc ← fma_opcode op; Some (r_type (Z.lor (Z.shiftl r3 2) (fmt_bits fmt)) r2 r1 rm d opc)
  | I_Csr op d r1 addr => f3 ← csr_funct3 op; Some (i_type addr r1 f3 d 0x73)
  | I_Ecall => Some 0x00000073
  | I_Mret => Some 0x30200073
  | I_Sret => Some 0x10200073
  | I_Wfi => Some 0x10500073
  | I_SfenceVma r1 r2 => Some (r_type 9 r2 r1 0 0 0x73)
  | I_Fence fps d r1 => Some (i_type fps r1 0 d 0x0f)
  | I_FenceI imm d r1 => Some (i_type imm r1 1 d 0x0f)
  end.

(** Operand ranges. *)
Definition instr_ok (i : instr) : Prop :=
  match i with
  | I_Lui d imm | I_Auipc d imm => ufield 0 5 d /\ sfield 12 32 imm
  | I_Jal d imm => ufield 0 5 d /\ sfield 1 21 imm
  | I_Jalr d r1 imm | I_Load _ _ d r1 imm | I_OpImm _ _ d r1 imm | I_LoadFp _ d r1 imm
  | I_FenceI imm d r1 => ufield 0 5 d /\ ufield 0 5 r1 /\ sfield 0 12 imm
  | I_Branch _ r1 r2 imm => ufield 0 5 r1 /\ ufield 0 5 r2 /\ sfield 1 13 imm
  | I_Store _ r2 r1 imm | I_StoreFp _ r2 r1 imm => ufield 0 5 r1 /\ ufield 0 5 r2 /\ sfield 0 12 imm
  | I_ShiftImm _ word d r1 shamt =>
      ufield 0 5 d /\ ufield 0 5 r1 /\ ufield 0 (if word then 5 else 6) shamt
  | I_Op _ _ d r1 r2 => ufield 0 5 d /\ ufield 0 5 r1 /\ ufield 0 5 r2
  | I_Amo _ _ aqrl d r1 r2 => ufield 0 2 aqrl /\ ufield 0 5 d /\ ufield 0 5 r1 /\ ufield 0 5 r2
  | I_Fp _ _ rm d r1 r2 => ufield 0 3 rm /\ ufield 0 5 d /\ ufield 0 5 r1 /\ ufield 0 5 r2
  | I_Fma _ _ rm d r1 r2 r3 =>
      ufield 0 3 rm /\ ufield 0 5 d /\ ufield 0 5 r1 /\ ufield 0 5 r2 /\ ufield 0 5 r3
  | I_Csr _ d r1 addr => ufield 0 5 d /\ ufield 0 5 r1 /\ ufield 0 12 addr
  | I_SfenceVma r1 r2 => ufield 0 5 r1 /\ ufield 0 5 r2
  | I_Fence fps d r1 => ufield 0 5 d /\ ufield 0 5 r1 /\ ufield 0 12 fps
  | I_Ecall | I_Mret | I_Sret | I_Wfi => True
  end.

(** * What an instruction asks of the pipeline *)

Definition int_write (c : ControlSignals) : ControlSignals := c <| reg_write := true |>.
Definition fp_write (c : ControlSignals) : ControlSignals := c <| fp_reg_write := true |>.
Definition fp_sources (c : ControlSignals) : ControlSignals :=
  c <| rs1_fp := true |> <| rs2_fp := true |> <| b_src := BReg2 |>.
Definition is_single (fmt : fp_fmt) : bool := match fmt with FmtS => true | FmtD => false end.

Definition fp_signals (op : fp_op) (fmt : fp_fmt) : ControlSignals :=
  let c := fp_sources c0 <| is_rv32 := is_single fmt |> in
  match op with
  | FBin o => fp_write c <| alu := o |>
  | FUn => fp_write c <| alu := FSqrt |>
  | FCompare o | FToInt o => int_write c <| alu := o |>
  | FFromInt o => fp_write c <| rs1_fp := false |> <| alu := o |>
  | FMoveToInt => int_write c <| alu := FMvToX |>
  | FClassify => int_write c <| alu := FClass |>
  | FMoveFromInt => fp_write c <| rs1_fp := false |> <| alu := FMvToF |>
  | FConvert => fp_write c <| alu := match fmt with FmtS => FCvtSD | FmtD => FCvtDS end |>
  end.

Definition signals (i : instr) : ControlSignals :=
  match i with
  | I_Lui _ _ => int_write c0 <| a_src := AZero |>
  | I_Auipc _ _ => int_write c0 <| a_src := APc |>
  | I_Jal _ _ | I_Jalr _ _ _ => int_write c0 <| control_flow := Jump |>
  | I_Branch _ _ _ _ => c0 <| control_flow := Branch |> <| b_src := BReg2 |>
  | I_Load w s _ _ _ => int_write c0 <| mem_read := true |> <| width := w |> <| signed_load := s |>
  | I_Store w _ _ _ => c0 <| mem_write := true |> <| width := w |>
  | I_OpImm op word _ _ _ | I_ShiftImm op word _ _ _ => int_write c0 <| alu := op |> <| is_rv32 := word |>
  | I_Op op word _ _ _ => int_write c0 <| alu := op |> <| is_rv32 := word |> <| b_src := BReg2 |>
  | I_Amo op w _ _ _ _ =>
      int_write c0 <| mem_read := true |> <| mem_write := bool_decide (op <> AtomicLr) |>
        <| width := w |> <| atomic_op := op |> <| b_src := BZero |>
  | I_LoadFp w _ _ _ => fp_write c0 <| mem_read := true |> <| width := w |>
  | I_StoreFp w _ _ _ => c0 <| mem_write := true |> <| rs2_fp := true |> <| width := w |>
  | I_Fp op fmt _ _ _ _ => fp_signals op fmt
  | I_Fma op fmt _ _ _ _ _ =>
      fp_write (fp_sources c0) <| rs3_fp := true |> <| is_rv32 := is_single fmt |> <| alu := op |>
  | I_Csr op d _ addr =>
      c0 <| system_op := System |> <| csr_op := op |> <| csr_addr := addr |> <| b_src := BZero |>
         <| reg_write := negb (d =? 0) |>
  | I_Ecall => c0 <| system_op := System |>
  | I_Mret => c0 <| system_op := Mret |>
  | I_Sret => c0 <| system_op := Sret |>
  | I_Wfi => c0 <| system_op := Wfi |>
  | I_SfenceVma _ _ => c0 <| system_op := SfenceVma |>
  | I_Fence _ _ _ => c0 <| system_op := Fence |>
  | I_FenceI _ _ _ => c0 <| system_op := FenceI |>
  end.

(** The operand fields the instruction has: [rd], [rs1], [rs2], [rs3], immediate. *)
Record operands := { o_rd : option Z; o_rs1 : option Z; o_rs2 : option Z; o_rs3 : option Z; o_imm : option Z }.

Definition operands_of (i : instr) : operands :=
  match i with
  | I_Lui d imm | I_Auipc d imm | I_Jal d imm => Build_operands (Some d) None None None (Some imm)
  | I_Jalr d r1 imm | I_Load _ _ d r1 imm | I_OpImm _ _ d r1 imm | I_LoadFp _ d r1 imm =>
      Build_operands (Some d) (Some r1) None None (Some imm)
  | I_Branch _ r1 r2 imm | I_Store _ r2 r1 imm | I_StoreFp _ r2 r1 imm =>
      Build_operands None (Some r1) (Some r2) None (Some imm)
  | I_ShiftImm _ _ d r1 _ | I_Csr _ d r1 _ => Build_operands (Some d) (Some r1) None None None
  | I_Op _ _ d r1 r2 | I_Amo _ _ _ d r1 r2 => Build_operands (Some d) (Some r1) (Some r2) None (None)
  | I_Fp op fmt _ d r1 r2 =>
      Build_operands (Some d) (Some r1)
        (match op with FBin _ | FCompare _ => Some r2 | _ => None end) None None
  | I_Fma _ _ _ d r1 r2 r3 => Build_operands (Some d) (Some r1) (Some r2) (Some r3) None
  | I_SfenceVma r1 r2 => Build_operands None (Some r1) (Some r2) None None
  | _ => Build_operands None None None None None
  end.

Definition agrees (o : option Z) (x : Z) : Prop := match o with Some v => x = v | None => True end.

Definition operands_ok (i : instr) (w : Z) : Prop :=
  let d := decode w in
  agrees (o_rd (operands_of i)) (d_rd d) /\ agrees (o_rs1 (operands_of i)) (d_rs1 d) /\
  agrees (o_rs2 (operands_of i)) (d_rs2 d) /\ agrees (o_rs3 (operands_of i)) (rs3 w) /\
  agrees (o_imm (operands_of i)) (d_imm d) /\
  (* a shift amount is in the bits of the immediate that the shifter reads *)
  match i with
  | I_ShiftImm _ word _ _ shamt => wrap (if word then 5 else 6) (d_imm d) = shamt
  | _ => True
  end.

(** * Decoding an encoded instruction *)

(** Compute a [match] on a literal. *)
Ltac run_match :=
  cbv [zmatch Z.eqb Pos.eqb select prod_map fmap list_fmap id res_bind
    OP_LOAD OP_IMM OP_AUIPC OP_IMM_32 OP_STORE OP_REG OP_LUI OP_REG_32 OP_BRANCH OP_JALR OP_JAL OP_MISC_MEM
    OP_AMO OP_LOAD_FP OP_STORE_FP OP_FP OP_FMADD OP_FMSUB OP_FNMSUB OP_FNMADD OP_SYSTEM
    LB LH LW LD LBU LHU LWU SB SH SW SD ADD_SUB SLL SLT SLTU XOR SRL_SRA OR AND FENCE FENCE_I DEFAULT SUB SRA
    M_EXTENSION MUL MULH MULHSU MULHU DIV DIVU REM REMU WIDTH_32 WIDTH_64
    LR SC AMOSWAP AMOADD AMOXOR AMOAND AMOOR AMOMIN AMOMAX AMOMINU AMOMAXU
    FSGNJ FSGNJN FSGNJX FMIN FMAX FLE FLT FEQ FCLASS FMV_X_W FADD FSUB FMUL FDIV FSQRT F7_FSGNJ FMIN_MAX FCMP
    FCLASS_MV_X_F FCVT_W_F FCVT_F_W FMV_F_X FCVT_DS FADD_D FSUB_D FMUL_D FDIV_D FSQRT_D FSGNJ_D FMIN_MAX_D
    FCMP_D FCLASS_MV_X_D FCVT_D_W FCVT_W_D FMV_D_X FCVT_S_D CSRRW CSRRS CSRRC CSRRWI CSRRSI CSRRCI
    FP_WIDTH_WORD FP_WIDTH_DOUBLE].

(** Control signals do not depend on the immediate. *)
Definition no_imm (w op d r1 r2 f3 f7 : Z) : Decoded :=
  {| raw := w; d_opcode := op; d_rd := d; d_rs1 := r1; d_rs2 := r2; d_funct3 := f3; d_funct7 := f7; d_imm := 0 |}.

Lemma decode_no_imm (w pc : Z) :
  decode_instruction w pc (decode w)
  = decode_instruction w pc (no_imm w (opcode w) (rd w) (rs1 w) (rs2 w) (funct3 w) (funct7 w)).
Proof. done. Qed.

(** The fields of a word built by a format. *)
Ltac word_fields w :=
  let eqn f v := (let E := fresh "E" in assert (E : f w = v) by (subst; word_eq)) in
  lazymatch w with
  | r_type ?f7 ?r2 ?r1 ?f3 ?d ?op =>
      eqn opcode op; eqn rd d; eqn rs1 r1; eqn rs2 r2; eqn funct3 f3; eqn funct7 f7
  | i_type ?imm ?r1 ?f3 ?d ?op => eqn opcode op; eqn rd d; eqn rs1 r1; eqn funct3 f3
  | s_type ?imm ?r2 ?r1 ?f3 ?op => eqn opcode op; eqn rs1 r1; eqn rs2 r2; eqn funct3 f3
  | b_type ?imm ?r2 ?r1 ?f3 ?op => eqn opcode op; eqn rs1 r1; eqn rs2 r2; eqn funct3 f3
  | u_type ?imm ?d ?op => eqn opcode op; eqn rd d
  | j_type ?imm ?d ?op => eqn opcode op; eqn rd d
  end.

Ltac use_fields :=
  repeat match goal with
  | E : ?f ?w = _ |- context [?f ?w] => rewrite E
  end.

Definition decodes (i : instr) (w : Z) : Prop :=
  in_width 32 w /\ (forall pc, decode_instruction w pc (decode w) = inr (signals i)) /\ operands_ok i w.

Lemma wrap_fixed_in_width (w x : Z) : 0 <= w -> wrap w x = x -> in_width w x.
Proof. intros Hw <-. by apply wrap_range. Qed.

(** A word of a known format: compute its fields, then its decoding. *)
Ltac decode_word_case :=
  lazymatch goal with
  | |- decodes ?i ?w =>
      word_fields w;
      split; [apply wrap_fixed_in_width; [lia|word_eq]|split];
      [intros pc; rewrite decode_no_imm; use_fields;
       unfold decode_instruction, decode_load, decode_store, decode_op_imm, decode_op_reg, decode_amo,
         decode_load_fp, decode_store_fp, decode_op_fp, decode_misc_mem, decode_fma, no_imm;
       cbn [raw d_opcode d_rd d_rs1 d_rs2 d_funct3 d_funct7]; run_match
      |unfold operands_ok, decode; cbn [raw d_opcode d_rd d_rs1 d_rs2 d_funct3 d_funct7 d_imm];
       use_fields; run_match; split_and!; simpl operands_of; cbn [agrees o_rd o_rs1 o_rs2 o_rs3 o_imm];
       first [exact I | assumption | idtac]]
  end.

(** One case of the encoding, its finite parameters already chosen. *)
Ltac encode_case :=
  intros; simplify_eq/=; decode_word_case; first [reflexivity | word_eq | idtac].

Section Encode.
Context (d r1 r2 r3 imm : Z).
Context (Hd : ufield 0 5 d) (Hr1 : ufield 0 5 r1) (Hr2 : ufield 0 5 r2) (Hr3 : ufield 0 5 r3).

Lemma lui_ok : sfield 12 32 imm -> decodes (I_Lui d imm) (u_type imm d 0x37).
Proof. encode_case. Qed.

Lemma auipc_ok : sfield 12 32 imm -> decodes (I_Auipc d imm) (u_type imm d 0x17).
Proof. encode_case. Qed.

Lemma jal_ok : sfield 1 21 imm -> decodes (I_Jal d imm) (j_type imm d 0x6f).
Proof. encode_case. Qed.

Lemma jalr_ok : sfield 0 12 imm -> decodes (I_Jalr d r1 imm) (i_type imm r1 0 d 0x67).
Proof. encode_case. Qed.

Lemma branch_ok (c : bcond) :
  sfield 1 13 imm -> decodes (I_Branch c r1 r2 imm) (b_type imm r2 r1 (bcond_funct3 c) 0x63).
Proof. destruct c; cbn [bcond_funct3]; encode_case. Qed.

Lemma load_ok (w : MemWidth) (s : bool) (x : Z) :
  sfield 0 12 imm -> encode (I_Load w s d r1 imm) = Some x -> decodes (I_Load w s d r1 imm) x.
Proof. destruct w, s; encode_case. Qed.

Lemma store_ok (w : MemWidth) (x : Z) :
  sfield 0 12 imm -> encode (I_Store w r2 r1 imm) = Some x -> decodes (I_Store w r2 r1 imm) x.
Proof. destruct w; encode_case. Qed.

Lemma op_imm_ok (op : AluOp) (word : bool) (x : Z) :
  sfield 0 12 imm -> encode (I_OpImm op word d r1 imm) = Some x -> decodes (I_OpImm op word d r1 imm) x.
Proof. destruct op, word; try discriminate; encode_case. Qed.

Lemma shift_alt_bit (f7 f3 op : Z) (w : Z) :
  ufield 0 6 imm -> f7 = 0 \/ f7 = 32 -> ufield 0 3 f3 -> ufield 0 7 op ->
  has_bits (funct7 (i_type (Z.lor (Z.shiftl f7 5) imm) r1 f3 d op)) FUNCT7_ALT_BIT = (f7 =? 32).
Proof.
  intros Hi [-> | ->] Hf3 Hop; unfold has_bits, FUNCT7_ALT_BIT.
  - assert (Z.land (funct7 (i_type (Z.lor (Z.shiftl 0 5) imm) r1 f3 d op)) 32 = 0) as -> by word_eq. done.
  - assert (Z.land (funct7 (i_type (Z.lor (Z.shiftl 32 5) imm) r1 f3 d op)) 32 = 32) as -> by word_eq. done.
Qed.

Lemma shift_imm_ok (op : AluOp) (word : bool) (x : Z) :
  ufield 0 (if word then 5 else 6) imm -> encode (I_ShiftImm op word d r1 imm) = Some x ->
  decodes (I_ShiftImm op word d r1 imm) x.
Proof.
  intros Hs. assert (Hs6 : ufield 0 6 imm).
  { destruct word; [|done]. destruct Hs. split; [lia|done]. }
  destruct op, word; try discriminate; encode_case;
    rewrite shift_alt_bit by (auto; by split); reflexivity.
Qed.

Lemma op_ok (op : AluOp) (word : bool) (x : Z) :
  encode (I_Op op word d r1 r2) = Some x -> decodes (I_Op op word d r1 r2) x.
Proof. destruct op, word; try discriminate; encode_case. Qed.

Lemma load_fp_ok (w : MemWidth) (x : Z) :
  sfield 0 12 imm -> encode (I_LoadFp w d r1 imm) = Some x -> decodes (I_LoadFp w d r1 imm) x.
Proof. destruct w; encode_case. Qed.

Lemma store_fp_ok (w : MemWidth) (x : Z) :
  sfield 0 12 imm -> encode (I_StoreFp w r2 r1 imm) = Some x -> decodes (I_StoreFp w r2 r1 imm) x.
Proof. destruct w; encode_case. Qed.

Lemma fence_ok : ufield 0 12 imm -> decodes (I_Fence imm d r1) (i_type imm r1 0 d 0x0f).
Proof. encode_case. Qed.

Lemma fence_i_ok : sfield 0 12 imm -> decodes (I_FenceI imm d r1) (i_type imm r1 1 d 0x0f).
Proof. encode_case. Qed.

(** The opcode-independent part of [funct7] of an atomic is its operation. *)
Lemma amo_ok (op : AtomicOp) (w : MemWidth) (aqrl x : Z) :
  ufield 0 2 aqrl -> encode (I_Amo op w aqrl d r1 r2) = Some x -> decodes (I_Amo op w aqrl d r1 r2) x.
Proof.
  intros Hq. assert (H5 : forall f5, ufield 0 5 f5 -> Z.shiftr (Z.lor (Z.shiftl f5 2) aqrl) 2 = f5)
    by (intros; bitfield).
  destruct op, w; try discriminate; encode_case; rewrite H5 by (by split); reflexivity.
Qed.

Lemma fp_ok (op : fp_op) (fmt : fp_fmt) (rm x : Z) :
  ufield 0 3 rm -> encode (I_Fp op fmt rm d r1 r2) = Some x -> decodes (I_Fp op fmt rm d r1 r2) x.
Proof.
  intros Hrm. destruct op as [op| |op|op|op| | | |], fmt; try destruct op; try discriminate; encode_case.
Qed.

Lemma fma_ok (op : AluOp) (fmt : fp_fmt) (rm x : Z) :
  ufield 0 3 rm -> encode (I_Fma op fmt rm d r1 r2 r3) = Some x -> decodes (I_Fma op fmt rm d r1 r2 r3) x.
Proof.
  intros Hrm. assert (Hf : forall f, ufield 0 1 f -> Z.land (Z.lor (Z.shiftl r3 2) f) 3 = f)
    by (intros; bitfield).
  destruct op, fmt; try discriminate; encode_case; rewrite Hf by (by split); reflexivity.
Qed.

(** A CSR instruction is none of the words matched whole: its funct3 is not zero. *)
Lemma csr_word_ok (f3 : Z) :
  ufield 0 12 imm -> ufield 0 3 f3 -> f3 <> 0 ->
  let w := i_type imm r1 f3 d 0x73 in
  forall pc, decode_instruction w pc (decode w) = inr (decode_csr w (decode w)) /\ csr w = imm.
Proof.
  intros Hi Hf Hne w pc. assert (E3 : funct3 w = f3) by (subst w; word_eq).
  assert (Eop : opcode w = 0x73) by (subst w; word_eq).
  assert (Hw : forall x, funct3 x = 0 -> w <> x) by (intros x Hx Hwx; congruence).
  split; [|subst w; word_eq].
  rewrite decode_no_imm. unfold decode_instruction, no_imm. cbn [d_opcode]. rewrite Eop. run_match.
  unfold decode_system. cbn [raw d_funct3]. rewrite E3.
  assert ((Z.land w 0xFE007FFF =? SFENCE_VMA) = false) as ->.
  { apply Z.eqb_neq. intros E.
    assert (E' : funct3 w = funct3 (Z.land w 0xFE007FFF)) by (subst w; word_eq).
    rewrite E, E3 in E'. done. }
  unfold zmatch. rewrite !(proj2 (Z.eqb_neq w _)) by (apply Hw; reflexivity).
  rewrite (proj2 (Z.eqb_neq f3 0)) by done. unfold decode_csr. cbn [decode d_funct3 d_rd negb]. by rewrite E3.
Qed.

Lemma csr_ok (op : CsrOp) (x : Z) :
  ufield 0 12 imm -> encode (I_Csr op d r1 imm) = Some x -> decodes (I_Csr op d r1 imm) x.
Proof.
  intros Hi. assert (Hrd : forall f3, ufield 0 3 f3 -> rd (i_type imm r1 f3 d 0x73) = d) by word_eq.
  assert (Hrs : forall f3, ufield 0 3 f3 -> rs1 (i_type imm r1 f3 d 0x73) = r1) by word_eq.
  assert (Hf3 : forall f3, ufield 0 3 f3 -> funct3 (i_type imm r1 f3 d 0x73) = f3) by word_eq.
  assert (Hw : forall f3, ufield 0 3 f3 -> u32 (i_type imm r1 f3 d 0x73) = i_type imm r1 f3 d 0x73) by word_eq.
  destruct op; intros; simplify_eq/=;
    (split; [by apply wrap_fixed_in_width; [lia|apply Hw]|split; [|by split_and!; [apply Hrd|apply Hrs|..]]];
     intros pc; match goal with |- context [i_type imm r1 ?f3 d 115] =>
       destruct (csr_word_ok f3 Hi ltac:(by split) ltac:(done) pc) as [-> E];
       unfold decode_csr; cbn [decode d_funct3 d_rd]; rewrite E, (Hf3 f3), (Hrd f3) by (by split) end;
     reflexivity).
Qed.

Lemma sfence_ok : decodes (I_SfenceVma r1 r2) (r_type 9 r2 r1 0 0 0x73).
Proof.
  set (w := r_type 9 r2 r1 0 0 0x73). assert (Eop : opcode w = 0x73) by (subst w; word_eq).
  assert (Em : Z.land w 0xFE007FFF = SFENCE_VMA) by (subst w; unfold SFENCE_VMA; word_eq).
  split; [apply wrap_fixed_in_width; [lia|subst w; word_eq]|split].
  - intros pc. rewrite decode_no_imm. unfold decode_instruction, no_imm. cbn [d_opcode]. rewrite Eop.
    run_match. unfold decode_system. by rewrite Em.
  - split_and!; try done; cbn [decode d_rs1 d_rs2 operands_of o_rs1 o_rs2 agrees]; subst w; word_eq.
Qed.

End Encode.

Lemma encode_decodes (i : instr) (w : Z) : instr_ok i -> encode i = Some w -> decodes i w.
Proof.
  intros Hok He.
  destruct i; simpl in Hok; destruct_and?;
    first [ by eapply load_ok; eauto | by eapply store_ok; eauto | by eapply op_imm_ok; eauto
          | by eapply shift_imm_ok; eauto | by eapply op_ok; eauto | by eapply amo_ok; eauto
          | by eapply load_fp_ok; eauto | by eapply store_fp_ok; eauto | by eapply fp_ok; eauto
          | by eapply fma_ok; eauto | by eapply csr_ok; eauto | idtac ];
    injection He as <-; auto using lui_ok, auipc_ok, jal_ok, jalr_ok, branch_ok, sfence_ok, fence_ok, fence_i_ok.
  all: (split; [unfold in_width; lia|]); split; [intros; reflexivity|by split_and!].
Qed.

(** C35. Decoding inverts the manual's encoding: every RV64IMAFD, Zicsr,
    Zifencei and privileged instruction of [instr], encoded with operands in
    range, decodes without a trap to its control signals, register numbers and
    sign-extended immediate (a shift amount to the bits the shifter reads).
    EBREAK, the one instruction [instr] leaves out, decodes to the breakpoint
    exception at its address. *)
Theorem decode_encode (i : instr) (w pc : Z) :
  instr_ok i -> encode i = Some w ->
  in_width 32 w /\ decode_instruction w pc (decode w) = inr (signals i) /\ operands_ok i w /\
  decode_instruction EBREAK pc (decode EBREAK) = inl (Breakpoint pc).
Proof. intros Hok He. destruct (encode_decodes i w Hok He) as (? & ? & ?). auto. Qed.

Lemma decode_encode_witness :
  encode (I_Branch Bltu 5 6 (-4096)) = Some 0x8062e063 /\
  in_width 32 0x8062e063 /\
  decode_instruction 0x8062e063 0 (decode 0x8062e063) = inr (signals (I_Branch Bltu 5 6 (-4096))) /\
  operands_ok (I_Branch Bltu 5 6 (-4096)) 0x8062e063 /\
  decode_instruction EBREAK 0 (decode EBREAK) = inl (Breakpoint 0).
Proof.
  split; [by vm_compute|]. apply (decode_encode (I_Branch Bltu 5 6 (-4096)) 0x8062e063 0); [|by vm_compute].
  by split_and!.
Defined.

(** * Every decoded word *)

Definition is_fp_alu (op : AluOp) : bool :=
  match op with
  | Add | Sub | Sll | Slt | Sltu | Xor | Srl | Sra | Or | And
  | Mul | Mulh | Mulhsu | Mulhu | Div | Divu | Rem | Remu => false
  | _ => true
  end.
Definition is_fma (op : AluOp) : bool :=
  match op with FMAdd | FMSub | FNMAdd | FNMSub => true | _ => false end.
Definition is_add (op : AluOp) : bool := match op with Add => true | _ => false end.
Definition sequential (c : ControlSignals) : bool :=
  match control_flow c with Sequential => true | _ => false end.
Definition uses_memory (c : ControlSignals) : bool := mem_read c || mem_write c.
Definition uses_fp (c : ControlSignals) : bool := fp_reg_write c || rs1_fp c || rs2_fp c || rs3_fp c.

(** Invariants the later stages rely on. *)
Definition signals_wf (c : ControlSignals) : bool :=
  (* one destination file *)
  negb (reg_write c && fp_reg_write c) &&
  (* an access has a width, and only an access has one *)
  eqb (uses_memory c) (bool_decide (width c <> WNop)) &&
  (* addresses are sums *)
  implb (uses_memory c || negb (sequential c)) (is_add (alu c)) &&
  (* atomics read, write unless they are LR, and are words or doublewords *)
  implb (bool_decide (atomic_op c <> AtomicNone))
    (mem_read c && reg_write c && eqb (mem_write c) (bool_decide (atomic_op c <> AtomicLr)) &&
     bool_decide (4 <= width_to_bytes (width c))) &&
  implb (mem_read c && mem_write c) (bool_decide (atomic_op c <> AtomicNone)) &&
  implb (signed_load c) (mem_read c && reg_write c) &&
  (* control transfers and system instructions do nothing else *)
  implb (negb (sequential c) || bool_decide (system_op c <> SysNone))
    (negb (uses_memory c) && negb (uses_fp c)) &&
  implb (bool_decide (system_op c <> SysNone)) (sequential c) &&
  implb (match csr_op c with CsrNone => false | _ => true end) (bool_decide (system_op c = System)) &&
  (* floating-point operations are exactly those that touch the FP file in the ALU *)
  implb (is_fp_alu (alu c)) (uses_fp c && negb (uses_memory c)) &&
  eqb (rs3_fp c) (is_fma (alu c)).

Definition decode_outcome_ok (inst pc : Z) (r : result ControlSignals) : Prop :=
  match r with
  | inr c => signals_wf c = true
  | inl t => t = IllegalInstruction inst \/ (t = Breakpoint pc /\ inst = EBREAK)
  end.

Section Outcome.
Context (inst pc : Z).
Local Abbreviation ok := (decode_outcome_ok inst pc).

Lemma illegal_outcome : ok (illegal inst).
Proof. by left. Qed.

Lemma select_outcome {A} (x : Z) (arms : list (Z * A)) (k : A -> result ControlSignals) :
  Forall (fun kv => x = kv.1 -> ok (k kv.2)) arms -> ok (res_bind (select inst x arms) k).
Proof.
  intros H. unfold select. apply (zmatch_elim (fun r => ok (res_bind r k))); [|by left].
  apply Forall_fmap. eapply Forall_impl; [exact H|]. by intros [? ?].
Qed.

Ltac outcome :=
  repeat first
    [ apply select_outcome | apply illegal_outcome
    | apply Forall_nil_2 | apply Forall_cons_2; [intros _|] ];
  try reflexivity.

Lemma csr_outcome (d : Decoded) : ok (inr (decode_csr inst d)).
Proof.
  unfold decode_csr. match goal with |- context [zmatch ?x ?l ?o] => destruct (zmatch x l o) end;
    by destruct (reg_is_zero (d_rd d)).
Qed.

Lemma op_fp_outcome (d : Decoded) : ok (decode_op_fp inst d).
Proof.
  unfold decode_op_fp. case_bool; [apply illegal_outcome|].
  apply (zmatch_elim ok); [|apply illegal_outcome].
  repeat (apply Forall_cons_2; [intros _; cbn [fst snd]|]); [..|apply Forall_nil_2]; outcome.
Qed.

Lemma system_outcome (d : Decoded) : raw d = inst -> ok (decode_system inst pc d).
Proof.
  intros Hraw. unfold decode_system. case_bool; [done|]. apply (zmatch_elim ok).
  - repeat (apply Forall_cons_2; [intros E; cbn [fst snd] in *|]); [..|apply Forall_nil_2]; try reflexivity.
    right. by rewrite <-Hraw.
  - case_bool; [apply csr_outcome|done].
Qed.

Lemma op_reg_outcome (d : Decoded) : ok (decode_op_reg inst d).
Proof. unfold decode_op_reg. repeat case_bool; outcome. Qed.

Lemma decode_outcome (d : Decoded) : raw d = inst -> ok (decode_instruction inst pc d).
Proof.
  intros Hraw. unfold decode_instruction. apply (zmatch_elim ok); [|apply illegal_outcome].
  repeat (apply Forall_cons_2; [intros Hop; cbn [fst snd] in *|]); [..|apply Forall_nil_2];
    try reflexivity; try (unfold decode_fma; rewrite Hop; reflexivity);
    auto using op_fp_outcome, system_outcome, op_reg_outcome.
  all: unfold decode_load, decode_store, decode_op_imm, decode_amo, decode_load_fp, decode_store_fp,
    decode_misc_mem; outcome; case_bool; reflexivity.
Qed.

End Outcome.

(** Decoding is total and its results are well typed: for every 32-bit
    pattern the decoder returns either control signals that satisfy the
    invariants the later stages use (one destination file, a width exactly on
    memory accesses, well-formed atomics, system and control instructions
    without other effects, the third source exactly on fused multiply-adds),
    or the illegal-instruction trap with the word itself, or, for EBREAK only,
    a breakpoint at the instruction's address. *)
Theorem decode_instruction_typed (inst pc : Z) :
  match decode_instruction inst pc (decode inst) with
  | inr c => signals_wf c = true
  | inl t => t = IllegalInstruction inst \/ (t = Breakpoint pc /\ inst = EBREAK)
  end.
Proof. by apply decode_outcome. Qed.

(** The decode stage as a consumer of bundles: what it emits, when it stops,
    and that it always makes progress. *)
(** What a fetched word contributes to the output; NOPs are dropped. *)
Definition emit (regs : RegisterFile) (e : IfIdEntry) : option IdExEntry :=
  match if_trap e with
  | Some t => Some (trap_entry e t)
  | None => if if_inst e =? INSTRUCTION_NOP then None else Some (decoded_entry regs e)
  end.

(** Architectural registers ([true] for the FP file) an entry reads and writes. *)
Definition entry_reads (e : IdExEntry) : list (Z * bool) :=
  let c := id_ctrl e in
  (if negb (reg_is_zero (id_rs1 e)) || rs1_fp c then [(id_rs1 e, rs1_fp c)] else []) ++
  (if negb (reg_is_zero (id_rs2 e)) || rs2_fp c then [(id_rs2 e, rs2_fp c)] else []) ++
  (if rs3_fp c then [(id_rs3 e, true)] else []).
Definition entry_writes (e : IdExEntry) : list (Z * bool) :=
  let c := id_ctrl e in
  (if reg_write c && negb (reg_is_zero (id_rd e)) then [(id_rd e, false)] else []) ++
  (if fp_reg_write c then [(id_rd e, true)] else []).

(** No entry reads a register that [writes] or an earlier entry writes. *)
Fixpoint independent (writes : list (Z * bool)) (bundle : list IdExEntry) : Prop :=
  match bundle with
  | [] => True
  | e :: b => Forall (fun r => r ∉ writes) (entry_reads e) /\ independent (writes ++ entry_writes e) b
  end.
Definition bundle_writes (bundle : list IdExEntry) : list (Z * bool) := bundle ≫= entry_writes.
Definition trapped (e : IdExEntry) : Prop := is_Some (id_trap e).
Fixpoint trap_ends (bundle : list IdExEntry) : Prop :=
  match bundle with [] => True | e :: b => (trapped e -> b = []) /\ trap_ends b end.

Section Stage.
Context (ren : bool) (regs : RegisterFile).

Lemma decoded_entry_signals (e : IfIdEntry) :
  let en := decoded_entry regs e in
  decode_word (if_inst e) (if_pc e) = (id_ctrl en, id_trap en, id_exception_stage en).
Proof. unfold decoded_entry. by destruct (decode_word (if_inst e) (if_pc e)) as [[] ?]. Qed.

Lemma read_check (c : bool) (r : Z * bool) (writes : list (Z * bool)) :
  c && bool_decide (r ∈ writes) = false <-> Forall (fun r => r ∉ writes) (if c then [r] else []).
Proof.
  destruct c; simpl; [rewrite Forall_singleton; apply bool_decide_eq_false|]. by split.
Qed.

Lemma bundle_hazard_reads (writes : list (Z * bool)) (e : IfIdEntry) :
  bundle_hazard writes (decode (if_inst e)) (id_ctrl (decoded_entry regs e)) (rs3 (if_inst e)) = false
  <-> Forall (fun r => r ∉ writes) (entry_reads (decoded_entry regs e)).
Proof.
  assert (Hd : id_rs1 (decoded_entry regs e) = d_rs1 (decode (if_inst e)) /\
               id_rs2 (decoded_entry regs e) = d_rs2 (decode (if_inst e)) /\
               id_rs3 (decoded_entry regs e) = rs3 (if_inst e)).
  { unfold decoded_entry. by destruct (decode_word (if_inst e) (if_pc e)) as [[] ?]. }
  unfold entry_reads, bundle_hazard, writes_contain. destruct Hd as (-> & -> & ->).
  rewrite !Forall_app, <-!read_check, !orb_false_iff. tauto.
Qed.

Lemma record_writes_entry (writes : list (Z * bool)) (e : IfIdEntry) :
  record_writes writes (decode (if_inst e)) (id_ctrl (decoded_entry regs e))
  = writes ++ entry_writes (decoded_entry regs e).
Proof.
  assert (id_rd (decoded_entry regs e) = d_rd (decode (if_inst e))) as Hd.
  { unfold decoded_entry. by destruct (decode_word (if_inst e) (if_pc e)) as [[] ?]. }
  unfold record_writes, entry_writes. rewrite Hd.
  destruct (reg_write _ && _), (fp_reg_write _); by rewrite ?app_nil_r, <-?app_assoc.
Qed.

(** The outcome of the loop from [writes] on [l]: the words it consumes and
    the entries it appends. *)
Definition bundle_ok (writes : list (Z * bool)) (l : list IfIdEntry) (m : nat) (b : list IdExEntry) : Prop :=
  (m <= length l)%nat /\ b = omap (emit regs) (take m l) /\ trap_ends b /\
  (ren = false -> independent writes b) /\
  (forall e, l !! m = Some e ->
     (exists en, last b = Some en /\ trapped en) \/
     (ren = false /\ ~ Forall (fun r => r ∉ writes ++ bundle_writes b) (entry_reads (decoded_entry regs e)))).

Lemma decode_step_cases (e : IfIdEntry) (n : nat) (writes : list (Z * bool)) (out : list IdExEntry) :
  let en := decoded_entry regs e in
  decode_step ren regs e (n, writes, out)
  = match if_trap e with
    | Some t => Return (S n, writes, out ++ [trap_entry e t])
    | None =>
        if if_inst e =? INSTRUCTION_NOP then Continue (S n, writes, out)
        else if negb ren && bundle_hazard writes (decode (if_inst e)) (id_ctrl en) (rs3 (if_inst e))
        then Return (n, writes, out)
        else if bool_decide (trapped en) then Return (S n, writes ++ entry_writes en, out ++ [en])
        else Continue (S n, writes ++ entry_writes en, out ++ [en])
    end.
Proof.
  intros en. unfold decode_step. rewrite (decoded_entry_signals e : decode_word _ _ = (id_ctrl en, _, _)).
  subst en. by rewrite record_writes_entry.
Qed.

Lemma emit_trap (e : IfIdEntry) (t : Trap) : if_trap e = Some t -> emit regs e = Some (trap_entry e t).
Proof. unfold emit. by intros ->. Qed.

Lemma emit_nop (e : IfIdEntry) : if_trap e = None -> if_inst e = INSTRUCTION_NOP -> emit regs e = None.
Proof. unfold emit. by intros -> ->. Qed.

Lemma emit_decoded (e : IfIdEntry) :
  if_trap e = None -> if_inst e <> INSTRUCTION_NOP -> emit regs e = Some (decoded_entry regs e).
Proof. unfold emit. intros ->. by destruct (Z.eqb_spec (if_inst e) INSTRUCTION_NOP). Qed.

(** One entry that ends the bundle. *)
Lemma bundle_ok_last (e : IfIdEntry) (en : IdExEntry) (writes : list (Z * bool)) (l : list IfIdEntry) :
  emit regs e = Some en -> trapped en -> (ren = false -> Forall (fun r => r ∉ writes) (entry_reads en)) ->
  bundle_ok writes (e :: l) 1 [en].
Proof.
  intros He Ht Hr. unfold bundle_ok. simpl. rewrite He. split_and!; try done; [lia|by auto|].
  intros ? _. left. by exists en.
Qed.

(** One entry before the bundle [b] of the rest. *)
Lemma bundle_ok_cons (e : IfIdEntry) (en : IdExEntry) (writes : list (Z * bool)) (l : list IfIdEntry)
    (m : nat) (b : list IdExEntry) :
  emit regs e = Some en -> ~ trapped en -> (ren = false -> Forall (fun r => r ∉ writes) (entry_reads en)) ->
  bundle_ok (writes ++ entry_writes en) l m b -> bundle_ok writes (e :: l) (S m) (en :: b).
Proof.
  intros He Ht Hr (Hm & Hb & Hends & Hind & Hstop). unfold bundle_ok. simpl. rewrite He.
  split_and!; [lia|by rewrite Hb|by auto|done|by auto|].
  intros x Hx. destruct (Hstop x Hx) as [(y & Hy & Hty)|[? Hno]]; [left|right].
  - exists y. by rewrite last_cons, Hy.
  - split; [done|]. by rewrite <-app_assoc in Hno.
Qed.

Lemma trap_entry_reads (e : IfIdEntry) (t : Trap) : entry_reads (trap_entry e t) = [].
Proof. done. Qed.

(** The loop, on the rest [l] of the input. *)
Lemma decode_scan (l : list IfIdEntry) (n : nat) (writes : list (Z * bool)) (out : list IdExEntry) :
  exists m b w', after_loop (list_scan (decode_step ren regs) l (n, writes, out)) id = (n + m, w', out ++ b)%nat
    /\ bundle_ok writes l m b /\ (writes = [] -> l <> [] -> 0 < m)%nat.
Proof.
  revert n writes out. induction l as [|e l IH]; intros n writes out.
  { exists O, [], writes. rewrite Nat.add_0_r, app_nil_r. by split_and!. }
  cbn [list_scan]. rewrite decode_step_cases. destruct (if_trap e) as [t|] eqn:Ht.
  { exists 1%nat, [trap_entry e t], writes. rewrite Nat.add_1_r. split_and!; [done| |lia].
    apply bundle_ok_last; [by apply emit_trap|by eexists|by rewrite trap_entry_reads]. }
  destruct (Z.eqb_spec (if_inst e) INSTRUCTION_NOP) as [En|En].
  { destruct (IH (S n) writes out) as (m & b & w' & -> & (Hm & Hb & Hrest) & _).
    exists (S m), b, w'. rewrite Nat.add_succ_r. split_and!; [done| |lia].
    unfold bundle_ok. simpl. rewrite emit_nop by done. split; [lia|done]. }
  destruct (negb ren && _) eqn:Hh.
  { exists O, [], writes. rewrite Nat.add_0_r, app_nil_r. to_prop. split_and!; [done| |].
    - split_and!; try done; [lia|]. intros x [= <-]. right. unfold bundle_writes. simpl. rewrite app_nil_r.
      split; [by destruct ren|]. rewrite <-bundle_hazard_reads. congruence.
    - intros ->. assert (Hf : bundle_hazard [] (decode (if_inst e)) (id_ctrl (decoded_entry regs e)) (rs3 (if_inst e)) = false);
        [|congruence]. apply bundle_hazard_reads, Forall_true. intros. apply not_elem_of_nil. }
  assert (Hr : ren = false -> Forall (fun r => r ∉ writes) (entry_reads (decoded_entry regs e))).
  { intros ->. by apply bundle_hazard_reads. }
  pose proof (emit_decoded e Ht En) as He. case_bool_decide as Htr.
  - exists 1%nat, [decoded_entry regs e], (writes ++ entry_writes (decoded_entry regs e)).
    rewrite Nat.add_1_r. split_and!; [done|by apply bundle_ok_last|lia].
  - destruct (IH (S n) (writes ++ entry_writes (decoded_entry regs e)) (out ++ [decoded_entry regs e]))
      as (m & b & w' & -> & Hb & _).
    exists (S m), (decoded_entry regs e :: b), w'. rewrite Nat.add_succ_r, <-app_assoc.
    split_and!; [done|by apply bundle_ok_cons|lia].
Qed.

End Stage.

(** C36. The decode stage makes progress and preserves the program: on a
    non-empty input it consumes at least one word, always a prefix; it appends
    exactly the entries of the consumed words in order (NOPs contribute
    nothing); a trapping entry ends the bundle; without register renaming no
    entry reads a register an earlier entry of the bundle writes; and it stops
    before a word only after a trap or because that word has such a
    dependence. *)
Theorem decode_stage_progress (ren : bool) (regs : RegisterFile) (input : list IfIdEntry)
    (output : list IdExEntry) :
  exists (m : nat) (b : list IdExEntry),
    decode_stage ren regs input output = (drop m input, output ++ b) /\
    bundle_ok ren regs [] input m b /\
    (input <> [] -> 0 < m)%nat.
Proof.
  destruct (decode_scan ren regs input 0 [] output) as (m & b & w' & E & Hb & Hm).
  exists m, b. unfold decode_stage. rewrite E. split_and!; auto.
Qed.
