(* ===== verification/Rvc.v ===== *)
(** Compressed instructions ([isa/rvc/]): [expand] and the manual's tables. *)
From S2P Require Import Prelude Common BitField Isa Rename RenameO3 Tlb Csr Mmu Cpu Decode DecodeSpec.
Set Primitive Projections.
Local Open Scope Z_scope.

(** * [constants.rs] *)

Definition QUADRANT_0 : Z := 0.
Definition QUADRANT_1 : Z := 1.
Definition QUADRANT_2 : Z := 2.
Definition C_ADDI4SPN : Z := 0.
Definition C_FLD : Z := 1.
Definition C_LW : Z := 2.
Definition C_LD : Z := 3.
Definition C_FSD : Z := 5.
Definition C_SW : Z := 6.
Definition C_SD : Z := 7.
Definition C_ADDI : Z := 0.
Definition C_ADDIW : Z := 1.
Definition C_LI : Z := 2.
Definition C_LUI_ADDI16SP : Z := 3.
Definition Q1_C_MISC_ALU : Z := 4.
Definition C_J : Z := 5.
Definition C_BEQZ : Z := 6.
Definition C_BNEZ : Z := 7.
Definition C_SLLI : Z := 0.
Definition C_FLDSP : Z := 1.
Definition C_LWSP : Z := 2.
Definition C_LDSP : Z := 3.
Definition Q2_C_MISC_ALU : Z := 4.
Definition C_FSDSP : Z := 5.
Definition C_SWSP : Z := 6.
Definition C_SDSP : Z := 7.

(** * [expand.rs] *)

Definition shl16 (a n : Z) : Z := u16 (Z.shiftl a n).
(** [(inst >> n) & m] *)
Definition bits (inst n m : Z) : Z := Z.land (Z.shiftr inst n) m.

(** [((val << shift) as i32 >> shift) as u32] *)
Definition rvc_sign_extend (val nbits : Z) : Z :=
  let shift := 32 - nbits in
  u32 (Z.shiftr (as_signed 32 (shl32 val shift)) shift).

Notation "x ||| y" := (Z.lor x y) (at level 50, left associativity).

Section Expand.
Context (inst : Z).

(** [x8] to [x15] in three bits at [n]. *)
Definition creg (n : Z) : Z := 8 + bits inst n 0x7.
(** The six-bit signed immediate of quadrant 1. *)
Definition imm6 : Z := rvc_sign_extend (bits inst 2 0x1F ||| shl16 (bits inst 12 1) 5) 6.

Definition load_word (imm rs1 f3 rd op : Z) : Z :=
  shl32 imm 20 ||| shl32 rs1 15 ||| shl32 f3 12 ||| shl32 rd 7 ||| op.
Definition store_word (imm rs2 rs1 f3 op : Z) : Z :=
  let imm_low := Z.land imm 0x1F in
  let imm_high := Z.shiftr imm 5 in
  shl32 imm_high 25 ||| shl32 rs2 20 ||| shl32 rs1 15 ||| shl32 f3 12 ||| shl32 imm_low 7 ||| op.
Definition reg_word (f7 rs2 rd f3 op : Z) : Z :=
  shl32 f7 25 ||| shl32 rs2 20 ||| shl32 rd 15 ||| shl32 f3 12 ||| shl32 rd 7 ||| op.

Definition expand_q0 (f3 : Z) : Z :=
  let imm_w := shl16 (bits inst 6 1) 2 ||| shl16 (bits inst 10 0x7) 3 ||| shl16 (bits inst 5 1) 6 in
  let imm_d := shl16 (bits inst 10 0x7) 3 ||| shl16 (bits inst 5 0x3) 6 in
  zmatch f3
    [(C_ADDI4SPN,
       let imm := shl16 (bits inst 6 1) 2 ||| shl16 (bits inst 5 1) 3 ||| shl16 (bits inst 11 0x3) 4
                  ||| shl16 (bits inst 7 0xF) 6 in
       if imm =? 0 then 0 else load_word imm 2 ADD_SUB (creg 2) OP_IMM);
     (C_FLD, load_word imm_d (creg 7) LD (creg 2) OP_LOAD_FP);
     (C_LW, load_word imm_w (creg 7) LW (creg 2) OP_LOAD);
     (C_LD, load_word imm_d (creg 7) LD (creg 2) OP_LOAD);
     (C_FSD, store_word imm_d (creg 2) (creg 7) SD OP_STORE_FP);
     (C_SW, store_word imm_w (creg 2) (creg 7) SW OP_STORE);
     (C_SD, store_word imm_d (creg 2) (creg 7) SD OP_STORE)]
    0.

Definition expand_misc_alu : Z :=
  let bit12 := bits inst 12 1 in
  let funct2 := bits inst 10 0x3 in
  let rd := creg 7 in
  zmatch funct2
    [(0, load_word (Z.land imm6 0x3F) rd SRL_SRA rd OP_IMM);
     (1, shl32 SRA 25 ||| shl32 (Z.land imm6 0x3F) 20 ||| shl32 rd 15 ||| shl32 SRL_SRA 12 ||| shl32 rd 7
         ||| OP_IMM);
     (2, load_word (Z.land imm6 0xFFF) rd AND rd OP_IMM);
     (3, let sub_op := bits inst 5 0x3 in
         let rs2 := creg 2 in
         if bit12 =? 0
         then zmatch sub_op
           [(0, reg_word SUB rs2 rd ADD_SUB OP_REG);
            (1, shl32 rs2 20 ||| shl32 rd 15 ||| shl32 XOR 12 ||| shl32 rd 7 ||| OP_REG);
            (2, shl32 rs2 20 ||| shl32 rd 15 ||| shl32 OR 12 ||| shl32 rd 7 ||| OP_REG);
            (3, shl32 rs2 20 ||| shl32 rd 15 ||| shl32 AND 12 ||| shl32 rd 7 ||| OP_REG)] 0
         else zmatch sub_op
           [(0, reg_word SUB rs2 rd ADD_SUB OP_REG_32);
            (1, shl32 rs2 20 ||| shl32 rd 15 ||| shl32 ADD_SUB 12 ||| shl32 rd 7 ||| OP_REG_32)] 0)]
    0.

Definition expand_branch (f3 : Z) : Z :=
  let offset := rvc_sign_extend
    (shl16 (bits inst 3 0x3) 1 ||| shl16 (bits inst 10 0x3) 3 ||| shl16 (bits inst 2 1) 5
     ||| shl16 (bits inst 5 0x3) 6 ||| shl16 (bits inst 12 1) 8) 9 in
  let rs1 := creg 7 in
  let imm12 := bits offset 12 1 in
  let imm10_5 := bits offset 5 0x3F in
  let imm4_1 := bits offset 1 0xF in
  let imm11 := bits offset 11 1 in
  shl32 imm12 31 ||| shl32 imm10_5 25 ||| shl32 rs1 15 ||| shl32 f3 12 ||| shl32 imm4_1 8
  ||| shl32 imm11 7 ||| OP_BRANCH.

Definition expand_j : Z :=
  let offset := rvc_sign_extend
    (shl16 (bits inst 3 0x7) 1 ||| shl16 (bits inst 11 1) 4 ||| shl16 (bits inst 2 1) 5
     ||| shl16 (bits inst 7 1) 6 ||| shl16 (bits inst 6 1) 7 ||| shl16 (bits inst 9 3) 8
     ||| shl16 (bits inst 8 1) 10 ||| shl16 (bits inst 12 1) 11) 12 in
  let imm20 := bits offset 20 1 in
  let imm10_1 := bits offset 1 0x3FF in
  let imm11 := bits offset 11 1 in
  let imm19_12 := bits offset 12 0xFF in
  shl32 imm20 31 ||| shl32 imm19_12 12 ||| shl32 imm11 20 ||| shl32 imm10_1 21 ||| OP_JAL.

Definition expand_lui_addi16sp : Z :=
  let rd := bits inst 7 0x1F in
  if rd =? 2 then
    let imm := rvc_sign_extend
      (shl16 (bits inst 6 1) 4 ||| shl16 (bits inst 2 1) 5 ||| shl16 (bits inst 5 1) 6
       ||| shl16 (bits inst 3 3) 7 ||| shl16 (bits inst 12 1) 9) 10 in
    if imm =? 0 then 0 else load_word (Z.land imm 0xFFF) 2 ADD_SUB 2 OP_IMM
  else
    if imm6 =? 0 then 0 else shl32 imm6 12 ||| shl32 rd 7 ||| OP_LUI.

Definition expand_q1 (f3 : Z) : Z :=
  let rd := bits inst 7 0x1F in
  zmatch f3
    [(C_ADDI, load_word (Z.land imm6 0xFFF) rd ADD_SUB rd OP_IMM);
     (C_ADDIW, if rd =? 0 then 0 else load_word (Z.land imm6 0xFFF) rd ADD_SUB rd OP_IMM_32);
     (C_LI, shl32 (Z.land imm6 0xFFF) 20 ||| shl32 ADD_SUB 12 ||| shl32 rd 7 ||| OP_IMM);
     (C_LUI_ADDI16SP, expand_lui_addi16sp);
     (Q1_C_MISC_ALU, expand_misc_alu);
     (C_J, expand_j);
     (C_BEQZ, expand_branch BEQ);
     (C_BNEZ, expand_branch BNE)]
    0.

Definition expand_q2_misc_alu : Z :=
  let bit12 := bits inst 12 1 in
  let rs2 := bits inst 2 0x1F in
  let rs1 := bits inst 7 0x1F in
  if bit12 =? 0 then
    if rs2 =? 0 then
      if rs1 =? 0 then 0 else shl32 rs1 15 ||| shl32 ADD_SUB 12 ||| OP_JALR
    else shl32 rs2 20 ||| shl32 ADD_SUB 12 ||| shl32 rs1 7 ||| OP_REG
  else if rs2 =? 0 then
    if rs1 =? 0 then EBREAK else shl32 rs1 15 ||| shl32 ADD_SUB 12 ||| shl32 1 7 ||| OP_JALR
  else shl32 rs2 20 ||| shl32 rs1 15 ||| shl32 ADD_SUB 12 ||| shl32 rs1 7 ||| OP_REG.

Definition expand_q2 (f3 : Z) : Z :=
  let rd := bits inst 7 0x1F in
  let rs2 := bits inst 2 0x1F in
  let imm_ld := shl16 (bits inst 12 1) 5 ||| shl16 (bits inst 5 0x3) 3 ||| shl16 (bits inst 2 0x7) 6 in
  let imm_lw := shl16 (bits inst 12 1) 5 ||| shl16 (bits inst 4 0x7) 2 ||| shl16 (bits inst 2 0x3) 6 in
  let imm_sd := shl16 (bits inst 10 0x7) 3 ||| shl16 (bits inst 7 0x7) 6 in
  let imm_sw := shl16 (bits inst 9 0xF) 2 ||| shl16 (bits inst 7 0x3) 6 in
  zmatch f3
    [(C_SLLI, let imm := bits inst 2 0x1F ||| shl16 (bits inst 12 1) 5 in
              if rd =? 0 then 0 else load_word imm rd SLL rd OP_IMM);
     (C_FLDSP, load_word imm_ld 2 LD rd OP_LOAD_FP);
     (C_LWSP, if rd =? 0 then 0 else load_word imm_lw 2 LW rd OP_LOAD);
     (C_LDSP, if rd =? 0 then 0 else load_word imm_ld 2 LD rd OP_LOAD);
     (Q2_C_MISC_ALU, expand_q2_misc_alu);
     (C_FSDSP, store_word imm_sd rs2 2 SD OP_STORE_FP);
     (C_SWSP, store_word imm_sw rs2 2 SW OP_STORE);
     (C_SDSP, store_word imm_sd rs2 2 SD OP_STORE)]
    0.

Definition expand : Z :=
  let op := Z.land inst 0x3 in
  let f3 := bits inst 13 0x7 in
  zmatch op
    [(QUADRANT_0, expand_q0 f3); (QUADRANT_1, expand_q1 f3); (QUADRANT_2, expand_q2 f3)]
    0.

End Expand.

(** * The compressed instructions of RV64DC

    Registers [r'] are [x8] to [x15], given by their three-bit number. *)

Inductive cinstr :=
| Caddi4spn (d' imm : Z) | Cfld (d' r1' imm : Z) | Clw (d' r1' imm : Z) | Cld (d' r1' imm : Z)
| Cfsd (r2' r1' imm : Z) | Csw (r2' r1' imm : Z) | Csd (r2' r1' imm : Z)
| Caddi (d imm : Z) | Caddiw (d imm : Z) | Cli (d imm : Z) | Caddi16sp (imm : Z) | Clui (d imm : Z)
| Csrli (d' shamt : Z) | Csrai (d' shamt : Z) | Candi (d' imm : Z)
| Csub (d' r2' : Z) | Cxor (d' r2' : Z) | Cor (d' r2' : Z) | Cand (d' r2' : Z)
| Csubw (d' r2' : Z) | Caddw (d' r2' : Z)
| Cj (imm : Z) | Cbeqz (r1' imm : Z) | Cbnez (r1' imm : Z)
| Cslli (d shamt : Z) | Cfldsp (d imm : Z) | Clwsp (d imm : Z) | Cldsp (d imm : Z)
| Cjr (r1 : Z) | Cmv (d r2 : Z) | Cjalr (r1 : Z) | Cadd (d r2 : Z)
| Cfsdsp (r2 imm : Z) | Cswsp (r2 imm : Z) | Csdsp (r2 imm : Z).

(** Bits [hi:lo] of [v] placed at bit [pos]. *)
Definition put (v hi lo pos : Z) : Z := Z.shiftl (wrap (hi - lo + 1) (Z.shiftr v lo)) pos.

(** Formats of the manual with their fixed fields. *)
Definition cl_type (f3 hi d' r1' lo : Z) (op : Z) : Z :=
  Z.shiftl f3 13 ||| hi ||| Z.shiftl r1' 7 ||| lo ||| Z.shiftl d' 2 ||| op.
Definition ci_type (f3 b12 d low : Z) (op : Z) : Z :=
  Z.shiftl f3 13 ||| b12 ||| Z.shiftl d 7 ||| low ||| op.
Definition cb_alu (f2 b12 d' low : Z) : Z :=
  Z.shiftl 4 13 ||| b12 ||| Z.shiftl f2 10 ||| Z.shiftl d' 7 ||| low ||| 1.
Definition ca_type (b12 f2 d' r2' : Z) : Z :=
  Z.shiftl 4 13 ||| Z.shiftl b12 12 ||| Z.shiftl 3 10 ||| Z.shiftl d' 7 ||| Z.shiftl f2 5
  ||| Z.shiftl r2' 2 ||| 1.

Definition offset_w (imm : Z) : Z := put imm 2 2 6 ||| put imm 6 6 5.
Definition c_encode (c : cinstr) : Z :=
  match c with
  | Caddi4spn d imm =>
      put imm 5 4 11 ||| put imm 9 6 7 ||| put imm 2 2 6 ||| put imm 3 3 5 ||| Z.shiftl d 2
  | Cfld d r1 imm => cl_type 1 (put imm 5 3 10) d r1 (put imm 7 6 5) 0
  | Clw d r1 imm => cl_type 2 (put imm 5 3 10) d r1 (offset_w imm) 0
  | Cld d r1 imm => cl_type 3 (put imm 5 3 10) d r1 (put imm 7 6 5) 0
  | Cfsd r2 r1 imm => cl_type 5 (put imm 5 3 10) r2 r1 (put imm 7 6 5) 0
  | Csw r2 r1 imm => cl_type 6 (put imm 5 3 10) r2 r1 (offset_w imm) 0
  | Csd r2 r1 imm => cl_type 7 (put imm 5 3 10) r2 r1 (put imm 7 6 5) 0
  | Caddi d imm => ci_type 0 (put imm 5 5 12) d (put imm 4 0 2) 1
  | Caddiw d imm => ci_type 1 (put imm 5 5 12) d (put imm 4 0 2) 1
  | Cli d imm => ci_type 2 (put imm 5 5 12) d (put imm 4 0 2) 1
  | Caddi16sp imm =>
      ci_type 3 (put imm 9 9 12) 2 (put imm 4 4 6 ||| put imm 6 6 5 ||| put imm 8 7 3 ||| put imm 5 5 2) 1
  | Clui d imm => ci_type 3 (put imm 17 17 12) d (put imm 16 12 2) 1
  | Csrli d sh => cb_alu 0 (put sh 5 5 12) d (put sh 4 0 2)
  | Csrai d sh => cb_alu 1 (put sh 5 5 12) d (put sh 4 0 2)
  | Candi d imm => cb_alu 2 (put imm 5 5 12) d (put imm 4 0 2)
  | Csub d r2 => ca_type 0 0 d r2
  | Cxor d r2 => ca_type 0 1 d r2
  | Cor d r2 => ca_type 0 2 d r2
  | Cand d r2 => ca_type 0 3 d r2
  | Csubw d r2 => ca_type 1 0 d r2
  | Caddw d r2 => ca_type 1 1 d r2
  | Cj imm =>
      Z.shiftl 5 13 ||| put imm 11 11 12 ||| put imm 4 4 11 ||| put imm 9 8 9 ||| put imm 10 10 8
      ||| put imm 6 6 7 ||| put imm 7 7 6 ||| put imm 3 1 3 ||| put imm 5 5 2 ||| 1
  | Cbeqz r1 imm =>
      cl_type 6 (put imm 8 8 12 ||| put imm 4 3 10) 0 r1 (put imm 7 6 5 ||| put imm 2 1 3 ||| put imm 5 5 2) 1
  | Cbnez r1 imm =>
      cl_type 7 (put imm 8 8 12 ||| put imm 4 3 10) 0 r1 (put imm 7 6 5 ||| put imm 2 1 3 ||| put imm 5 5 2) 1
  | Cslli d sh => ci_type 0 (put sh 5 5 12) d (put sh 4 0 2) 2
  | Cfldsp d imm => ci_type 1 (put imm 5 5 12) d (put imm 4 3 5 ||| put imm 8 6 2) 2
  | Clwsp d imm => ci_type 2 (put imm 5 5 12) d (put imm 4 2 4 ||| put imm 7 6 2) 2
  | Cldsp d imm => ci_type 3 (put imm 5 5 12) d (put imm 4 3 5 ||| put imm 8 6 2) 2
  | Cjr r1 => ci_type 4 0 r1 0 2
  | Cmv d r2 => ci_type 4 0 d (Z.shiftl r2 2) 2
  | Cjalr r1 => ci_type 4 (Z.shiftl 1 12) r1 0 2
  | Cadd d r2 => ci_type 4 (Z.shiftl 1 12) d (Z.shiftl r2 2) 2
  | Cfsdsp r2 imm => Z.shiftl 5 13 ||| put imm 5 3 10 ||| put imm 8 6 7 ||| Z.shiftl r2 2 ||| 2
  | Cswsp r2 imm => Z.shiftl 6 13 ||| put imm 5 2 9 ||| put imm 7 6 7 ||| Z.shiftl r2 2 ||| 2
  | Csdsp r2 imm => Z.shiftl 7 13 ||| put imm 5 3 10 ||| put imm 8 6 7 ||| Z.shiftl r2 2 ||| 2
  end.

(** Operand ranges; the excluded values are reserved or other instructions. *)
Definition cinstr_ok (c : cinstr) : Prop :=
  match c with
  | Caddi4spn d imm => ufield 0 3 d /\ ufield 2 10 imm /\ imm <> 0
  | Cfld d r1 imm | Cld d r1 imm | Cfsd d r1 imm | Csd d r1 imm =>
      ufield 0 3 d /\ ufield 0 3 r1 /\ ufield 3 8 imm
  | Clw d r1 imm | Csw d r1 imm => ufield 0 3 d /\ ufield 0 3 r1 /\ ufield 2 7 imm
  | Caddi d imm | Cli d imm => ufield 0 5 d /\ sfield 0 6 imm
  | Caddiw d imm => ufield 0 5 d /\ d <> 0 /\ sfield 0 6 imm
  | Caddi16sp imm => sfield 4 10 imm /\ imm <> 0
  | Clui d imm => ufield 0 5 d /\ d <> 2 /\ sfield 12 18 imm /\ imm <> 0
  | Csrli d sh | Csrai d sh => ufield 0 3 d /\ ufield 0 6 sh
  | Candi d imm => ufield 0 3 d /\ sfield 0 6 imm
  | Csub d r2 | Cxor d r2 | Cor d r2 | Cand d r2 | Csubw d r2 | Caddw d r2 => ufield 0 3 d /\ ufield 0 3 r2
  | Cj imm => sfield 1 12 imm
  | Cbeqz r1 imm | Cbnez r1 imm => ufield 0 3 r1 /\ sfield 1 9 imm
  | Cslli d sh => ufield 0 5 d /\ d <> 0 /\ ufield 0 6 sh
  | Cfldsp d imm => ufield 0 5 d /\ ufield 3 9 imm
  | Clwsp d imm => ufield 0 5 d /\ d <> 0 /\ ufield 2 8 imm
  | Cldsp d imm => ufield 0 5 d /\ d <> 0 /\ ufield 3 9 imm
  | Cjr r1 | Cjalr r1 => ufield 0 5 r1 /\ r1 <> 0
  | Cmv d r2 | Cadd d r2 => ufield 0 5 d /\ ufield 0 5 r2 /\ r2 <> 0
  | Cfsdsp r2 imm | Csdsp r2 imm => ufield 0 5 r2 /\ ufield 3 9 imm
  | Cswsp r2 imm => ufield 0 5 r2 /\ ufield 2 8 imm
  end.

(** The instruction a compressed one abbreviates. *)
Definition desugar (c : cinstr) : instr :=
  match c with
  | Caddi4spn d imm => I_OpImm Add false (8 + d) 2 imm
  | Cfld d r1 imm => I_LoadFp WDouble (8 + d) (8 + r1) imm
  | Clw d r1 imm => I_Load WWord true (8 + d) (8 + r1) imm
  | Cld d r1 imm => I_Load WDouble true (8 + d) (8 + r1) imm
  | Cfsd r2 r1 imm => I_StoreFp WDouble (8 + r2) (8 + r1) imm
  | Csw r2 r1 imm => I_Store WWord (8 + r2) (8 + r1) imm
  | Csd r2 r1 imm => I_Store WDouble (8 + r2) (8 + r1) imm
  | Caddi d imm => I_OpImm Add false d d imm
  | Caddiw d imm => I_OpImm Add true d d imm
  | Cli d imm => I_OpImm Add false d 0 imm
  | Caddi16sp imm => I_OpImm Add false 2 2 imm
  | Clui d imm => I_Lui d imm
  | Csrli d sh => I_ShiftImm Srl false (8 + d) (8 + d) sh
  | Csrai d sh => I_ShiftImm Sra false (8 + d) (8 + d) sh
  | Candi d imm => I_OpImm And false (8 + d) (8 + d) imm
  | Csub d r2 => I_Op Sub false (8 + d) (8 + d) (8 + r2)
  | Cxor d r2 => I_Op Xor false (8 + d) (8 + d) (8 + r2)
  | Cor d r2 => I_Op Or false (8 + d) (8 + d) (8 + r2)
  | Cand d r2 => I_Op And false (8 + d) (8 + d) (8 + r2)
  | Csubw d r2 => I_Op Sub true (8 + d) (8 + d) (8 + r2)
  | Caddw d r2 => I_Op Add true (8 + d) (8 + d) (8 + r2)
  | Cj imm => I_Jal 0 imm
  | Cbeqz r1 imm => I_Branch Beq (8 + r1) 0 imm
  | Cbnez r1 imm => I_Branch Bne (8 + r1) 0 imm
  | Cslli d sh => I_ShiftImm Sll false d d sh
  | Cfldsp d imm => I_LoadFp WDouble d 2 imm
  | Clwsp d imm => I_Load WWord true d 2 imm
  | Cldsp d imm => I_Load WDouble true d 2 imm
  | Cjr r1 => I_Jalr 0 r1 0
  | Cmv d r2 => I_Op Add false d 0 r2
  | Cjalr r1 => I_Jalr 1 r1 0
  | Cadd d r2 => I_Op Add false d d r2
  | Cfsdsp r2 imm => I_StoreFp WDouble r2 2 imm
  | Cswsp r2 imm => I_Store WWord r2 2 imm
  | Csdsp r2 imm => I_Store WDouble r2 2 imm
  end.

(** * Proof *)

Ltac unfold_rvc :=
  unfold cl_type, ci_type, cb_alu, ca_type, offset_w, put, load_word, store_word, reg_word, creg, imm6,
    rvc_sign_extend, bits, shl16, shl32, ADD_SUB, LD, LW, SD, SW, SUB, SRA, SRL_SRA, XOR, OR, AND, SLL, BEQ, BNE,
    OP_IMM, OP_LOAD, OP_LOAD_FP, OP_STORE, OP_STORE_FP, OP_REG, OP_REG_32, OP_IMM_32, OP_LUI, OP_JAL, OP_JALR,
    OP_BRANCH; cbv zeta.
Ltac rvc_eq := cbn [c_encode]; unfold_rvc; word_eq.

(** Quadrant and funct3 of an encoding. *)
Definition c_quadrant (c : cinstr) : Z :=
  match c with
  | Caddi4spn _ _ | Cfld _ _ _ | Clw _ _ _ | Cld _ _ _ | Cfsd _ _ _ | Csw _ _ _ | Csd _ _ _ => 0
  | Cslli _ _ | Cfldsp _ _ | Clwsp _ _ | Cldsp _ _ | Cjr _ | Cmv _ _ | Cjalr _ | Cadd _ _
  | Cfsdsp _ _ | Cswsp _ _ | Csdsp _ _ => 2
  | _ => 1
  end.
Definition c_funct3 (c : cinstr) : Z :=
  match c with
  | Caddi4spn _ _ | Caddi _ _ | Cslli _ _ => 0
  | Cfld _ _ _ | Caddiw _ _ | Cfldsp _ _ => 1
  | Clw _ _ _ | Cli _ _ | Clwsp _ _ => 2
  | Cld _ _ _ | Caddi16sp _ | Clui _ _ | Cldsp _ _ => 3
  | Cfsd _ _ _ | Cj _ | Cfsdsp _ _ => 5
  | Csw _ _ _ | Cbeqz _ _ | Cswsp _ _ => 6
  | Csd _ _ _ | Cbnez _ _ | Csdsp _ _ => 7
  | _ => 4
  end.

Ltac c_destruct Hok := cbn [cinstr_ok] in Hok; destruct_and?; cbn [c_encode c_quadrant c_funct3].

Lemma c_encode_fields (c : cinstr) :
  cinstr_ok c -> u16 (c_encode c) = c_encode c /\ Z.land (c_encode c) 0x3 = c_quadrant c /\
    bits (c_encode c) 13 0x7 = c_funct3 c.
Proof. intros Hok. destruct c; c_destruct Hok; split_and!; rvc_eq. Qed.

(** [expand] dispatches on quadrant and funct3. *)
Definition expand_at (q f3 inst : Z) : Z :=
  zmatch q [(QUADRANT_0, expand_q0 inst f3); (QUADRANT_1, expand_q1 inst f3); (QUADRANT_2, expand_q2 inst f3)] 0.

Lemma expand_dispatch (c : cinstr) :
  cinstr_ok c -> expand (c_encode c) = expand_at (c_quadrant c) (c_funct3 c) (c_encode c).
Proof. intros Hok. destruct (c_encode_fields c Hok) as (_ & Eq & Ef). unfold expand. by rewrite Eq, Ef. Qed.

(** An arm of [zmatch] on literals. *)
Lemma zmatch_nth {A} (x : Z) (arms : list (Z * A)) (d v : A) (i : nat) :
  arms !! i = Some (x, v) -> Forall (fun kv => kv.1 <> x) (take i arms) -> zmatch x arms d = v.
Proof.
  revert arms. induction i as [|i IH]; intros [|[k u] arms] Hi Hf; simplify_eq/=.
  - by rewrite Z.eqb_refl.
  - inversion_clear Hf. rewrite (proj2 (Z.eqb_neq _ _)) by (simpl in *; done). by apply IH.
Qed.
Ltac arm i := rewrite (zmatch_nth _ _ _ _ i) by (reflexivity || by repeat constructor).

(** A reserved-value test that fails: [f] recovers the operand from the tested field. *)
Lemma test_fails (f : Z -> Z) (x v : Z) : f x = v -> f 0 = 0 -> v <> 0 -> (x =? 0) = false.
Proof. intros Hx Hf Hv. apply Z.eqb_neq. intros ->. congruence. Qed.
Ltac test_fails f :=
  match goal with H : ?v <> 0 |- context [if ?x =? 0 then _ else _] =>
    rewrite (test_fails f x v ltac:(cbv beta; rvc_eq) ltac:(done) H) end.

(** Evaluate a field of the halfword. *)
Ltac known e v := let E := fresh "E" in assert (E : e = v) by rvc_eq; rewrite E; clear E.

Ltac start_case := intros; rewrite expand_dispatch by (cbn [cinstr_ok]; auto 6); unfold expand_at; cbn [c_quadrant c_funct3].

Section Cases.
Context (d' r1' r2' d r1 r2 imm : Z).
Context (Hd' : ufield 0 3 d') (Hr1' : ufield 0 3 r1') (Hr2' : ufield 0 3 r2')
  (Hd : ufield 0 5 d) (Hr1 : ufield 0 5 r1) (Hr2 : ufield 0 5 r2).

Lemma c_addi4spn_ok : ufield 2 10 imm -> imm <> 0 -> 
  expand (c_encode (Caddi4spn d' imm)) = i_type imm 2 0 (8 + d') 0x13.
Proof. start_case. arm 0%nat. unfold expand_q0. arm 0%nat. cbn [c_encode]. cbv zeta. test_fails (fun x : Z => x). rvc_eq. Qed.

Lemma c_fld_ok : ufield 3 8 imm -> 
  expand (c_encode (Cfld d' r1' imm)) = i_type imm (8 + r1') 3 (8 + d') 0x07.
Proof. start_case. arm 0%nat. unfold expand_q0. arm 1%nat. cbn [c_encode]. cbv zeta. rvc_eq. Qed.

Lemma c_lw_ok : ufield 2 7 imm -> 
  expand (c_encode (Clw d' r1' imm)) = i_type imm (8 + r1') 2 (8 + d') 0x03.
Proof. start_case. arm 0%nat. unfold expand_q0. arm 2%nat. cbn [c_encode]. cbv zeta. rvc_eq. Qed.

Lemma c_ld_ok : ufield 3 8 imm -> 
  expand (c_encode (Cld d' r1' imm)) = i_type imm (8 + r1') 3 (8 + d') 0x03.
Proof. start_case. arm 0%nat. unfold expand_q0. arm 3%nat. cbn [c_encode]. cbv zeta. rvc_eq. Qed.

Lemma c_fsd_ok : ufield 3 8 imm -> 
  expand (c_encode (Cfsd r2' r1' imm)) = s_type imm (8 + r2') (8 + r1') 3 0x27.
Proof. start_case. arm 0%nat. unfold expand_q0. arm 4%nat. cbn [c_encode]. cbv zeta. rvc_eq. Qed.

Lemma c_sw_ok : ufield 2 7 imm -> 
  expand (c_encode (Csw r2' r1' imm)) = s_type imm (8 + r2') (8 + r1') 2 0x23.
Proof. start_case. arm 0%nat. unfold expand_q0. arm 5%nat. cbn [c_encode]. cbv zeta. rvc_eq. Qed.

Lemma c_sd_ok : ufield 3 8 imm -> 
  expand (c_encode (Csd r2' r1' imm)) = s_type imm (8 + r2') (8 + r1') 3 0x23.
Proof. start_case. arm 0%nat. unfold expand_q0. arm 6%nat. cbn [c_encode]. cbv zeta. rvc_eq. Qed.

Lemma c_addi_ok : sfield 0 6 imm -> 
  expand (c_encode (Caddi d imm)) = i_type imm d 0 d 0x13.
Proof. start_case. arm 1%nat. unfold expand_q1. arm 0%nat. cbn [c_encode]. cbv zeta. rvc_eq. Qed.

Lemma c_addiw_ok : sfield 0 6 imm -> d <> 0 -> 
  expand (c_encode (Caddiw d imm)) = i_type imm d 0 d 0x1b.
Proof. start_case. arm 1%nat. unfold expand_q1. arm 1%nat. cbn [c_encode]. cbv zeta. test_fails (fun x : Z => x). rvc_eq. Qed.

Lemma c_li_ok : sfield 0 6 imm -> 
  expand (c_encode (Cli d imm)) = i_type imm 0 0 d 0x13.
Proof. start_case. arm 1%nat. unfold expand_q1. arm 2%nat. cbn [c_encode]. cbv zeta. rvc_eq. Qed.

Lemma c_addi16sp_ok : sfield 4 10 imm -> imm <> 0 -> 
  expand (c_encode (Caddi16sp imm)) = i_type imm 2 0 2 0x13.
Proof. start_case. arm 1%nat. unfold expand_q1. arm 3%nat. unfold expand_lui_addi16sp. cbv zeta.
  known (bits (c_encode (Caddi16sp imm)) 7 0x1F) 2. cbn [Z.eqb Pos.eqb]. test_fails (as_signed 32). rvc_eq. Qed.

Lemma c_lui_ok : sfield 12 18 imm -> imm <> 0 -> d <> 2 -> 
  expand (c_encode (Clui d imm)) = u_type imm d 0x37.
Proof. start_case. arm 1%nat. unfold expand_q1. arm 3%nat. unfold expand_lui_addi16sp. cbv zeta.
  known (bits (c_encode (Clui d imm)) 7 0x1F) d. rewrite (proj2 (Z.eqb_neq d 2)) by done.
  test_fails (fun x => Z.shiftl (as_signed 32 x) 12). cbn [c_encode]. rvc_eq. Qed.

Lemma c_srli_ok : ufield 0 6 imm -> 
  expand (c_encode (Csrli d' imm)) = i_type (Z.lor (Z.shiftl 0 5) imm) (8 + d') 5 (8 + d') 0x13.
Proof. start_case. arm 1%nat. unfold expand_q1. arm 4%nat. unfold expand_misc_alu. cbv zeta.
  known (bits (c_encode (Csrli d' imm)) 10 3) 0. arm 0%nat. cbn [c_encode]. rvc_eq. Qed.

Lemma c_srai_ok : ufield 0 6 imm -> 
  expand (c_encode (Csrai d' imm)) = i_type (Z.lor (Z.shiftl 32 5) imm) (8 + d') 5 (8 + d') 0x13.
Proof. start_case. arm 1%nat. unfold expand_q1. arm 4%nat. unfold expand_misc_alu. cbv zeta.
  known (bits (c_encode (Csrai d' imm)) 10 3) 1. arm 1%nat. cbn [c_encode]. rvc_eq. Qed.

Lemma c_andi_ok : sfield 0 6 imm -> 
  expand (c_encode (Candi d' imm)) = i_type imm (8 + d') 7 (8 + d') 0x13.
Proof. start_case. arm 1%nat. unfold expand_q1. arm 4%nat. unfold expand_misc_alu. cbv zeta.
  known (bits (c_encode (Candi d' imm)) 10 3) 2. arm 2%nat. cbn [c_encode]. rvc_eq. Qed.

Lemma c_sub_ok : 
  expand (c_encode (Csub d' r2')) = r_type 32 (8 + r2') (8 + d') 0 (8 + d') 0x33.
Proof. start_case. arm 1%nat. unfold expand_q1. arm 4%nat. unfold expand_misc_alu. cbv zeta.
  known (bits (c_encode (Csub d' r2')) 10 3) 3. arm 3%nat. known (bits (c_encode (Csub d' r2')) 12 1) 0. known (bits (c_encode (Csub d' r2')) 5 3) 0.
  cbn [Z.eqb Pos.eqb]. arm 0%nat. cbn [c_encode]. rvc_eq. Qed.

Lemma c_xor_ok : 
  expand (c_encode (Cxor d' r2')) = r_type 0 (8 + r2') (8 + d') 4 (8 + d') 0x33.
Proof. start_case. arm 1%nat. unfold expand_q1. arm 4%nat. unfold expand_misc_alu. cbv zeta.
  known (bits (c_encode (Cxor d' r2')) 10 3) 3. arm 3%nat. known (bits (c_encode (Cxor d' r2')) 12 1) 0. known (bits (c_encode (Cxor d' r2')) 5 3) 1.
  cbn [Z.eqb Pos.eqb]. arm 1%nat. cbn [c_encode]. rvc_eq. Qed.

Lemma c_or_ok : 
  expand (c_encode (Cor d' r2')) = r_type 0 (8 + r2') (8 + d') 6 (8 + d') 0x33.
Proof. start_case. arm 1%nat. unfold expand_q1. arm 4%nat. unfold expand_misc_alu. cbv zeta.
  known (bits (c_encode (Cor d' r2')) 10 3) 3. arm 3%nat. known (bits (c_encode (Cor d' r2')) 12 1) 0. known (bits (c_encode (Cor d' r2')) 5 3) 2.
  cbn [Z.eqb Pos.eqb]. arm 2%nat. cbn [c_encode]. rvc_eq. Qed.

Lemma c_and_ok : 
  expand (c_encode (Cand d' r2')) = r_type 0 (8 + r2') (8 + d') 7 (8 + d') 0x33.
Proof. start_case. arm 1%nat. unfold expand_q1. arm 4%nat. unfold expand_misc_alu. cbv zeta.
  known (bits (c_encode (Cand d' r2')) 10 3) 3. arm 3%nat. known (bits (c_encode (Cand d' r2')) 12 1) 0. known (bits (c_encode (Cand d' r2')) 5 3) 3.
  cbn [Z.eqb Pos.eqb]. arm 3%nat. cbn [c_encode]. rvc_eq. Qed.

Lemma c_subw_ok : 
  expand (c_encode (Csubw d' r2')) = r_type 32 (8 + r2') (8 + d') 0 (8 + d') 0x3b.
Proof. start_case. arm 1%nat. unfold expand_q1. arm 4%nat. unfold expand_misc_alu. cbv zeta.
  known (bits (c_encode (Csubw d' r2')) 10 3) 3. arm 3%nat. known (bits (c_encode (Csubw d' r2')) 12 1) 1. known (bits (c_encode (Csubw d' r2')) 5 3) 0.
  cbn [Z.eqb Pos.eqb]. arm 0%nat. cbn [c_encode]. rvc_eq. Qed.

Lemma c_addw_ok : 
  expand (c_encode (Caddw d' r2')) = r_type 0 (8 + r2') (8 + d') 0 (8 + d') 0x3b.
Proof. start_case. arm 1%nat. unfold expand_q1. arm 4%nat. unfold expand_misc_alu. cbv zeta.
  known (bits (c_encode (Caddw d' r2')) 10 3) 3. arm 3%nat. known (bits (c_encode (Caddw d' r2')) 12 1) 1. known (bits (c_encode (Caddw d' r2')) 5 3) 1.
  cbn [Z.eqb Pos.eqb]. arm 1%nat. cbn [c_encode]. rvc_eq. Qed.

Lemma c_j_ok : sfield 1 12 imm -> 
  expand (c_encode (Cj imm)) = j_type imm 0 0x6f.
Proof. start_case. arm 1%nat. unfold expand_q1. arm 5%nat. cbn [c_encode]. cbv zeta. unfold expand_j. rvc_eq. Qed.

Lemma c_beqz_ok : sfield 1 9 imm -> 
  expand (c_encode (Cbeqz r1' imm)) = b_type imm 0 (8 + r1') 0 0x63.
Proof. start_case. arm 1%nat. unfold expand_q1. arm 6%nat. cbn [c_encode]. cbv zeta. unfold expand_branch. rvc_eq. Qed.

Lemma c_bnez_ok : sfield 1 9 imm -> 
  expand (c_encode (Cbnez r1' imm)) = b_type imm 0 (8 + r1') 1 0x63.
Proof. start_case. arm 1%nat. unfold expand_q1. arm 7%nat. cbn [c_encode]. cbv zeta. unfold expand_branch. rvc_eq. Qed.

Lemma c_slli_ok : ufield 0 6 imm -> d <> 0 -> 
  expand (c_encode (Cslli d imm)) = i_type (Z.lor (Z.shiftl 0 5) imm) d 1 d 0x13.
Proof. start_case. arm 2%nat. unfold expand_q2. arm 0%nat. cbn [c_encode]. cbv zeta. test_fails (fun x : Z => x). rvc_eq. Qed.

Lemma c_fldsp_ok : ufield 3 9 imm -> 
  expand (c_encode (Cfldsp d imm)) = i_type imm 2 3 d 0x07.
Proof. start_case. arm 2%nat. unfold expand_q2. arm 1%nat. cbn [c_encode]. cbv zeta. rvc_eq. Qed.

Lemma c_lwsp_ok : ufield 2 8 imm -> d <> 0 -> 
  expand (c_encode (Clwsp d imm)) = i_type imm 2 2 d 0x03.
Proof. start_case. arm 2%nat. unfold expand_q2. arm 2%nat. cbn [c_encode]. cbv zeta. test_fails (fun x : Z => x). rvc_eq. Qed.

Lemma c_ldsp_ok : ufield 3 9 imm -> d <> 0 -> 
  expand (c_encode (Cldsp d imm)) = i_type imm 2 3 d 0x03.
Proof. start_case. arm 2%nat. unfold expand_q2. arm 3%nat. cbn [c_encode]. cbv zeta. test_fails (fun x : Z => x). rvc_eq. Qed.

Lemma c_jr_ok : r1 <> 0 -> 
  expand (c_encode (Cjr r1)) = i_type 0 r1 0 0 0x67.
Proof. start_case. arm 2%nat. unfold expand_q2. arm 4%nat. unfold expand_q2_misc_alu. cbv zeta.
  known (bits (c_encode (Cjr r1)) 12 1) 0. known (bits (c_encode (Cjr r1)) 2 0x1F) 0. cbn [Z.eqb Pos.eqb].
  test_fails (fun x : Z => x). cbn [c_encode]. rvc_eq. Qed.

Lemma c_mv_ok : r2 <> 0 -> 
  expand (c_encode (Cmv d r2)) = r_type 0 r2 0 0 d 0x33.
Proof. start_case. arm 2%nat. unfold expand_q2. arm 4%nat. unfold expand_q2_misc_alu. cbv zeta.
  known (bits (c_encode (Cmv d r2)) 12 1) 0. known (bits (c_encode (Cmv d r2)) 2 0x1F) r2. cbn [Z.eqb Pos.eqb].
  test_fails (fun x : Z => x). cbn [c_encode]. rvc_eq. Qed.

Lemma c_cjalr_ok : r1 <> 0 -> 
  expand (c_encode (Cjalr r1)) = i_type 0 r1 0 1 0x67.
Proof. start_case. arm 2%nat. unfold expand_q2. arm 4%nat. unfold expand_q2_misc_alu. cbv zeta.
  known (bits (c_encode (Cjalr r1)) 12 1) 1. known (bits (c_encode (Cjalr r1)) 2 0x1F) 0. cbn [Z.eqb Pos.eqb].
  test_fails (fun x : Z => x). cbn [c_encode]. rvc_eq. Qed.

Lemma c_add_ok : r2 <> 0 -> 
  expand (c_encode (Cadd d r2)) = r_type 0 r2 d 0 d 0x33.
Proof. start_case. arm 2%nat. unfold expand_q2. arm 4%nat. unfold expand_q2_misc_alu. cbv zeta.
  known (bits (c_encode (Cadd d r2)) 12 1) 1. known (bits (c_encode (Cadd d r2)) 2 0x1F) r2. cbn [Z.eqb Pos.eqb].
  test_fails (fun x : Z => x). cbn [c_encode]. rvc_eq. Qed.

Lemma c_fsdsp_ok : ufield 3 9 imm -> 
  expand (c_encode (Cfsdsp r2 imm)) = s_type imm r2 2 3 0x27.
Proof. start_case. arm 2%nat. unfold expand_q2. arm 5%nat. cbn [c_encode]. cbv zeta. rvc_eq. Qed.

Lemma c_swsp_ok : ufield 2 8 imm -> 
  expand (c_encode (Cswsp r2 imm)) = s_type imm r2 2 2 0x23.
Proof. start_case. arm 2%nat. unfold expand_q2. arm 6%nat. cbn [c_encode]. cbv zeta. rvc_eq. Qed.

Lemma c_sdsp_ok : ufield 3 9 imm -> 
  expand (c_encode (Csdsp r2 imm)) = s_type imm r2 2 3 0x23.
Proof. start_case. arm 2%nat. unfold expand_q2. arm 7%nat. cbn [c_encode]. cbv zeta. rvc_eq. Qed.

End Cases.

(** Operands in range stay in range. *)
Lemma creg_field (r : Z) : ufield 0 3 r -> ufield 0 5 (8 + r).
Proof. intros [? _]. split; [simpl in *; lia|apply Z.mod_1_r]. Qed.

Lemma ufield_to_sfield (a w : nat) (v : Z) : ufield a w v -> (w < 12)%nat -> sfield 0 12 v.
Proof.
  intros [Hv _] Hw. split; [|apply Z.mod_1_r].
  assert (2 ^ Z.of_nat w <= 2 ^ 11) by (apply Z.pow_le_mono_r; lia). simpl. lia.
Qed.

Lemma sfield_widen (a b w w' : nat) (v : Z) :
  sfield a w v -> (b <= a)%nat -> (w <= w')%nat -> sfield b w' v.
Proof.
  intros [Hv Ha] Hb Hw. split.
  - assert (2 ^ Z.of_nat (w - 1) <= 2 ^ Z.of_nat (w' - 1)) by (apply Z.pow_le_mono_r; lia). lia.
  - apply Z.mod_divide in Ha; [|lia]. apply Z.mod_divide; [lia|]. etrans; [|exact Ha].
    replace (Z.of_nat a) with (Z.of_nat b + Z.of_nat (a - b)) by lia.
    rewrite Z.pow_add_r by lia. apply Z.divide_factor_l.
Qed.

Lemma desugar_ok (c : cinstr) : cinstr_ok c -> instr_ok (desugar c).
Proof.
  intros Hok. destruct c; cbn [cinstr_ok] in Hok; destruct_and?; cbn [desugar instr_ok]; split_and?;
    eauto 2 using creg_field; first
      [ by eapply ufield_to_sfield; [eassumption|lia] | by eapply sfield_widen; [eassumption|lia|lia]
      | by apply creg_field | by split | idtac ].
Qed.

Create Rewrite HintDb rvc.
#[local] Hint Rewrite c_addi4spn_ok c_fld_ok c_lw_ok c_ld_ok c_fsd_ok c_sw_ok c_sd_ok c_addi_ok c_addiw_ok
  c_li_ok c_addi16sp_ok c_lui_ok c_srli_ok c_srai_ok c_andi_ok c_sub_ok c_xor_ok c_or_ok c_and_ok c_subw_ok
  c_addw_ok c_j_ok c_beqz_ok c_bnez_ok c_slli_ok c_fldsp_ok c_lwsp_ok c_ldsp_ok c_jr_ok c_mv_ok c_cjalr_ok
  c_add_ok c_fsdsp_ok c_swsp_ok c_sdsp_ok   using auto : rvc.

Lemma expand_encode (c : cinstr) : cinstr_ok c -> encode (desugar c) = Some (expand (c_encode c)).
Proof.
  intros Hok. destruct c; cbn [cinstr_ok] in Hok; destruct_and?; cbn [desugar]; autorewrite with rvc; reflexivity.
Qed.

(** C37. Expansion of compressed instructions is correct: every RV64DC
    instruction of the manual with operands outside the reserved values is a
    16-bit word whose expansion is the 32-bit encoding of the instruction it
    abbreviates, and so decodes to that instruction's control signals and
    operands, immediates included.  C.EBREAK is not among the [cinstr]; see
    [expand_c_ebreak]. *)
Theorem expand_correct (c : cinstr) (pc : Z) :
  cinstr_ok c ->
  let w := expand (c_encode c) in
  in_width 16 (c_encode c) /\ encode (desugar c) = Some w /\
  decode_instruction w pc (decode w) = inr (signals (desugar c)) /\ operands_ok (desugar c) w.
Proof.
  intros Hok w. pose proof (expand_encode c Hok) as Hw.
  destruct (encode_decodes _ _ (desugar_ok c Hok) Hw) as (_ & Hd & Ho).
  split_and!; [|done|apply Hd|done].
  apply wrap_fixed_in_width; [lia|]. by apply c_encode_fields.
Qed.

Lemma expand_correct_witness :
  cinstr_ok (Cj (-2048)) /\ c_encode (Cj (-2048)) = 0xb001 /\
  operands_ok (I_Jal 0 (-2048)) (expand 0xb001).
Proof.
  assert (Hok : cinstr_ok (Cj (-2048))) by by split.
  split_and!; [done|by vm_compute|]. apply (expand_correct (Cj (-2048)) 0 Hok).
Defined.

(** C.EBREAK expands to EBREAK. *)
Lemma expand_c_ebreak (pc : Z) : expand 0x9002 = EBREAK /\ decode_instruction EBREAK pc (decode EBREAK) = inl (Breakpoint pc).
Proof. done. Qed.
(** The all-zero halfword, defined illegal, expands to a word that traps. *)
Lemma expand_zero (pc : Z) : expand 0 = 0 /\ decode_instruction 0 pc (decode 0) = inl (IllegalInstruction 0).
Proof. done. Qed.
