(* ===== verification/WriteBuffer.v ===== *)
(** The write-combining buffer ([core/pipeline/write_buffer.rs]). *)
From S2P Require Import Prelude.
Set Primitive Projections.
Local Open Scope Z_scope.

Record WcbEntry := {
  w_line_addr : Z; w_valid_mask : Z; w_data : list Z; w_active : bool; w_lru_counter : Z
}.
Definition WcbEntry_default : WcbEntry :=
  {| w_line_addr := 0; w_valid_mask := 0; w_data := replicate 64 0; w_active := false; w_lru_counter := 0 |}.
#[export] Instance WcbEntry_inhabited : Inhabited WcbEntry := populate WcbEntry_default.

(** [WcbDrain] has the line address as its only field. *)
Record WriteCombiningBuffer := {
  wcb_entries : list WcbEntry; wcb_line_bytes : Z; wcb_access_counter : Z
}.

Definition wcb_new (capacity : nat) (line_bytes : Z) : WriteCombiningBuffer :=
  let safe_line := if line_bytes =? 0 then 64 else line_bytes in
  {| wcb_entries := replicate capacity WcbEntry_default; wcb_line_bytes := safe_line; wcb_access_counter := 0 |}.

Definition wcb_is_disabled (self : WriteCombiningBuffer) : bool :=
  match wcb_entries self with [] => true | _ => false end.

(** Byte [k] of [data.to_le_bytes()]. *)
Definition le_byte (data : Z) (k : nat) : Z := u8 (Z.shiftr data (8 * Z.of_nat k)).

Definition write_bytes (entry : WcbEntry) (offset : nat) (data : Z) (width_bytes : nat) : WcbEntry :=
  let stop := ((offset + width_bytes) `min` 64)%nat in
  foldl (fun entry i =>
           let byte_idx := (i - offset)%nat in
           if (byte_idx <? 8)%nat
           then entry <| w_data := <[i := le_byte data byte_idx]> (w_data entry) |>
                      <| w_valid_mask := Z.lor (w_valid_mask entry) (Z.shiftl 1 (Z.of_nat i)) |>
           else entry)
        entry (seq offset (stop - offset)).

(** Smallest counter among the active entries; the first on ties. *)
Definition wcb_find_lru (self : WriteCombiningBuffer) : nat :=
  (foldl (fun '(min_counter, min_idx) '(i, entry) =>
            if w_active entry && (w_lru_counter entry <? min_counter)
            then (w_lru_counter entry, i) else (min_counter, min_idx))
         (U64_MAX, O) (imap pair (wcb_entries self))).2.

Definition matches_line (line_addr : Z) (e : WcbEntry) : bool := w_active e && (w_line_addr e =? line_addr).

(** Position of the first entry that satisfies [p], as the loops find it. *)
Fixpoint position (p : WcbEntry -> bool) (l : list WcbEntry) : option nat :=
  match l with
  | [] => None
  | e :: l' => if p e then Some O else S <$> position p l'
  end.

(** A fresh entry for a line, [line_addr] and the rest reset. *)
Definition wcb_reset (e : WcbEntry) (line_addr : Z) : WcbEntry :=
  e <| w_line_addr := line_addr |> <| w_valid_mask := 0 |> <| w_data := replicate 64 0 |>.

Definition merge_store (self : WriteCombiningBuffer) (paddr data : Z) (width_bytes : nat)
    : option Z * WriteCombiningBuffer :=
  if wcb_is_disabled self then (None, self)
  else
    let line_mask := not64 (wcb_line_bytes self - 1) in
    let line_addr := Z.land paddr line_mask in
    let offset := Z.to_nat (paddr - line_addr) in
    let counter := u64 (wcb_access_counter self + 1) in
    let self := self <| wcb_access_counter := counter |> in
    let finish (e : WcbEntry) := (write_bytes e offset data width_bytes) <| w_lru_counter := counter |> in
    let put i e := self <| wcb_entries := <[i := e]> (wcb_entries self) |> in
    match position (matches_line line_addr) (wcb_entries self) with
    | Some i => (None, put i (finish (wcb_entries self !!! i)))
    | None =>
        match position (fun e => negb (w_active e)) (wcb_entries self) with
        | Some i =>
            (None, put i (finish (wcb_reset ((wcb_entries self !!! i) <| w_active := true |>) line_addr)))
        | None =>
            let lru_idx := wcb_find_lru self in
            let evicted_addr := w_line_addr (wcb_entries self !!! lru_idx) in
            (Some evicted_addr, put lru_idx (finish (wcb_reset (wcb_entries self !!! lru_idx) line_addr)))
        end
    end.

Definition wcb_flush_all (self : WriteCombiningBuffer) : list Z * WriteCombiningBuffer :=
  (w_line_addr <$> filter (fun e => w_active e = true) (wcb_entries self),
   self <| wcb_entries := (fun e => if w_active e then e <| w_active := false |> else e) <$> wcb_entries self |>).

Definition wcb_contains_line (self : WriteCombiningBuffer) (line_addr : Z) : bool :=
  existsb (matches_line line_addr) (wcb_entries self).
Definition wcb_active_count (self : WriteCombiningBuffer) : nat :=
  length (filter (fun e => w_active e = true) (wcb_entries self)).

(** * The set of buffered lines *)

Definition active_lines (l : list WcbEntry) : list Z := w_line_addr <$> filter (fun e => w_active e = true) l.
Definition wcb_lines (self : WriteCombiningBuffer) : list Z := active_lines (wcb_entries self).

Lemma position_Some p l i :
  position p l = Some i <-> exists e, l !! i = Some e /\ p e = true /\ Forall (fun e => p e = false) (take i l).
Proof.
  revert i. induction l as [|e l IH]; intros i; simpl; [split; [done|]; by intros (? & ? & _)|].
  destruct (p e) eqn:Hp.
  - split; [intros [= <-]; by exists e|]. intros (e' & Hi & He & Hf). destruct i; [done|].
    inversion_clear Hf. congruence.
  - rewrite fmap_Some. split.
    + intros (j & Hj & ->). apply IH in Hj as (e' & ? & ? & ?). exists e'. by repeat constructor.
    + intros (e' & Hi & He & Hf). destruct i as [|i]; simplify_eq/=; [congruence|].
      exists i. split; [|done]. apply IH. exists e'. by inversion_clear Hf.
Qed.

Lemma position_None p l : position p l = None <-> Forall (fun e => p e = false) l.
Proof.
  induction l as [|e l IH]; simpl; [done|]. destruct (p e) eqn:Hp.
  - split; [done|]. intros Hf. inversion_clear Hf. congruence.
  - rewrite fmap_None, IH, Forall_cons. naive_solver.
Qed.

Lemma write_bytes_line e offset data n :
  w_line_addr (write_bytes e offset data n) = w_line_addr e /\ w_active (write_bytes e offset data n) = w_active e.
Proof.
  unfold write_bytes. set (f := fun (entry : WcbEntry) (i : nat) => _). cbv zeta.
  assert (Hf : forall e i, w_line_addr (f e i) = w_line_addr e /\ w_active (f e i) = w_active e)
    by (intros; subst f; cbv beta zeta; by case_bool).
  generalize (seq offset ((offset + n) `min` 64 - offset)). intros l. revert e.
  induction l as [|i l IH]; intros e; [done|]. destruct (IH (f e i)) as [E1 E2], (Hf e i) as [F1 F2].
  split; [exact (eq_trans E1 F1)|exact (eq_trans E2 F2)].
Qed.

Lemma active_lines_app l1 l2 : active_lines (l1 ++ l2) = active_lines l1 ++ active_lines l2.
Proof. unfold active_lines. by rewrite filter_app, fmap_app. Qed.

Lemma active_lines_insert l i e e' :
  l !! i = Some e ->
  active_lines (<[i := e']> l) = active_lines (take i l) ++ active_lines [e'] ++ active_lines (drop (S i) l) /\
  active_lines l = active_lines (take i l) ++ active_lines [e] ++ active_lines (drop (S i) l).
Proof.
  intros Hi. pose proof (lookup_lt_Some _ _ _ Hi). split.
  - rewrite insert_take_drop by done. rewrite active_lines_app. f_equal.
    change (e' :: drop (S i) l) with ([e'] ++ drop (S i) l). by rewrite active_lines_app.
  - rewrite <-(take_drop_middle l i e Hi) at 1. rewrite active_lines_app. f_equal.
    change (e :: drop (S i) l) with ([e] ++ drop (S i) l). by rewrite active_lines_app.
Qed.

Lemma active_lines_single e : active_lines [e] = if w_active e then [w_line_addr e] else [].
Proof. unfold active_lines. by rewrite filter_cons; destruct (w_active e). Qed.

Lemma elem_of_active_lines l x : x ∈ active_lines l <-> exists e, e ∈ l /\ w_active e = true /\ w_line_addr e = x.
Proof. unfold active_lines. rewrite list_elem_of_fmap. setoid_rewrite list_elem_of_filter. naive_solver. Qed.

(** The victim of an eviction is one of the entries. *)
Lemma wcb_find_lru_lt self : wcb_entries self <> [] -> (wcb_find_lru self < length (wcb_entries self))%nat.
Proof.
  intros Hne. unfold wcb_find_lru.
  assert (Hall : Forall (fun p : nat * WcbEntry => p.1 < length (wcb_entries self))%nat (imap pair (wcb_entries self))).
  { apply Forall_lookup. intros i p. rewrite list_lookup_imap. intros (e & He & ->)%fmap_Some.
    by apply lookup_lt_Some in He. }
  revert Hall. generalize (imap pair (wcb_entries self)). intros l.
  assert (H0 : (0 < length (wcb_entries self))%nat) by (destruct (wcb_entries self); [done|simpl; lia]).
  generalize U64_MAX. revert H0. generalize O. induction l as [|[i e] l IH]; intros k Hk m Hall; [done|].
  inversion_clear Hall. simpl. case_bool; by apply IH.
Qed.

(** The entry [e] after the store, and the buffer with entries [l]. *)
Definition wcb_finish (self : WriteCombiningBuffer) (paddr data : Z) (n : nat) (e : WcbEntry) : WcbEntry :=
  (write_bytes e (Z.to_nat (paddr - Z.land paddr (not64 (wcb_line_bytes self - 1)))) data n)
    <| w_lru_counter := u64 (wcb_access_counter self + 1) |>.
Definition wcb_with (self : WriteCombiningBuffer) (l : list WcbEntry) : WriteCombiningBuffer :=
  {| wcb_entries := l; wcb_line_bytes := wcb_line_bytes self;
     wcb_access_counter := u64 (wcb_access_counter self + 1) |}.

Lemma merge_store_eq self paddr data n :
  wcb_is_disabled self = false ->
  let l := wcb_entries self in
  let line := Z.land paddr (not64 (wcb_line_bytes self - 1)) in
  let fin := wcb_finish self paddr data n in
  merge_store self paddr data n
  = match position (matches_line line) l with
    | Some i => (None, wcb_with self (<[i := fin (l !!! i)]> l))
    | None =>
        match position (fun e => negb (w_active e)) l with
        | Some i => (None, wcb_with self (<[i := fin (wcb_reset ((l !!! i) <| w_active := true |>) line)]> l))
        | None => (Some (w_line_addr (l !!! wcb_find_lru self)),
                   wcb_with self (<[wcb_find_lru self := fin (wcb_reset (l !!! wcb_find_lru self) line)]> l))
        end
    end.
Proof. intros Hd. unfold merge_store. by rewrite Hd. Qed.

(** A store to a line merges with the line's entry, takes a free entry, or
    evicts one line and reports it; every other buffered line stays buffered,
    and no line is buffered twice. *)
Lemma merge_store_lines self paddr data n r self' :
  wcb_is_disabled self = false -> NoDup (wcb_lines self) ->
  merge_store self paddr data n = (r, self') ->
  let line := Z.land paddr (not64 (wcb_line_bytes self - 1)) in
  NoDup (wcb_lines self') /\
  wcb_lines self' ≡ₚ (if decide (line ∈ wcb_lines self) then [] else [line]) ++
    match r with None => wcb_lines self | Some v => filter (fun x : Z => x <> v) (wcb_lines self) end /\
  (forall v, r = Some v -> v ∈ wcb_lines self /\ line ∉ wcb_lines self).
Proof.
  intros Hd Hnd Hm line. rewrite merge_store_eq in Hm by done. cbv zeta in Hm. fold line in Hm.
  set (fin := wcb_finish self paddr data n) in *.
  assert (Hfin : forall e, w_line_addr (fin e) = w_line_addr e /\ w_active (fin e) = w_active e)
    by (intros e; apply (write_bytes_line e)).
  unfold wcb_lines in *. set (l := wcb_entries self) in *.
  destruct (position (matches_line line) l) as [i|] eqn:Hp.
  { simplify_eq. apply position_Some in Hp as (e & Hi & He & _). apply andb_prop in He as [Ha El].
    rewrite Z.eqb_eq in El. assert (Hin : line ∈ active_lines l).
    { apply elem_of_active_lines. exists e. by eauto using list_elem_of_lookup_2. }
    cbn [wcb_with wcb_entries]. rewrite (list_lookup_total_correct _ _ _ Hi).
    destruct (active_lines_insert l i e (fin e) Hi) as [E1 E2].
    assert (Es : active_lines [fin e] = active_lines [e]).
    { rewrite !active_lines_single. by destruct (Hfin e) as [-> ->]. }
    rewrite E1, Es, <-E2. split; [done|]. split; [|done]. by rewrite decide_True. }
  assert (Hout : line ∉ active_lines l).
  { rewrite elem_of_active_lines. intros (e & He & Ha & El). apply position_None in Hp.
    rewrite Forall_forall in Hp. specialize (Hp e He). unfold matches_line in Hp.
    rewrite Ha, El, Z.eqb_refl in Hp. done. }
  rewrite (decide_False (P := line ∈ active_lines l)) by done.
  destruct (position (fun e => negb (w_active e)) l) as [i|] eqn:Hq.
  { simplify_eq. apply position_Some in Hq as (e & Hi & He & _). apply negb_true_iff in He.
    cbn [wcb_with wcb_entries]. rewrite (list_lookup_total_correct _ _ _ Hi).
    destruct (active_lines_insert l i e (fin (wcb_reset (e <| w_active := true |>) line)) Hi) as [E1 E2].
    rewrite active_lines_single in E1, E2. rewrite He in E2.
    destruct (Hfin (wcb_reset (e <| w_active := true |>) line)) as [F1 F2]. rewrite F1, F2 in E1.
    change (w_active (wcb_reset _ _)) with true in E1. change (w_line_addr (wcb_reset _ _)) with line in E1.
    cbn [app] in E1, E2. rewrite E1. split_and!; [| |done].
    - rewrite E2 in Hnd, Hout. rewrite <-Permutation_middle. by constructor.
    - rewrite E2. cbn [app]. symmetry. apply Permutation_middle. }
  simplify_eq. assert (Hne : l <> [])
    by (intros E; unfold wcb_is_disabled in Hd; fold l in Hd; by rewrite E in Hd).
  set (k := wcb_find_lru self) in *. assert (Hk : (k < length l)%nat) by by apply wcb_find_lru_lt.
  destruct (lookup_lt_is_Some_2 l k Hk) as [e Hi]. rewrite (list_lookup_total_correct _ _ _ Hi).
  assert (Ha : w_active e = true).
  { apply position_None in Hq. rewrite Forall_forall in Hq.
    specialize (Hq e (list_elem_of_lookup_2 _ _ _ Hi)). by apply negb_false_iff in Hq. }
  cbn [wcb_with wcb_entries]. destruct (active_lines_insert l k e (fin (wcb_reset e line)) Hi) as [E1 E2].
  rewrite active_lines_single in E1, E2. rewrite Ha in E2.
  destruct (Hfin (wcb_reset e line)) as [F1 F2]. rewrite F1, F2 in E1.
  change (w_active (wcb_reset _ _)) with (w_active e) in E1. change (w_line_addr (wcb_reset _ _)) with line in E1.
  rewrite Ha in E1. cbn [app] in E1, E2. rewrite E1.
  set (v := w_line_addr e) in *. rewrite E2 in Hnd, Hout |- *. apply NoDup_app in Hnd as (N1 & N2 & N3).
  apply NoDup_cons in N3 as [N3 N4]. apply not_elem_of_app in Hout as [O1 O2].
  apply not_elem_of_cons in O2 as [O2 O3].
  assert (Hf : forall q : list Z, v ∉ q -> filter (fun x : Z => x <> v) q = q).
  { intros q Hq'. apply filter_all, Forall_forall. intros x Hx ->. done. }
  split_and!.
  - apply NoDup_app. split; [done|]. split; [|by constructor].
    intros x Hx. rewrite not_elem_of_cons. split; [by intros ->|].
    specialize (N2 x Hx). by apply not_elem_of_cons in N2 as [_ ?].
  - rewrite filter_app, filter_cons_False, !Hf; [cbn [app]; symmetry; apply Permutation_middle|done| |by intros []].
    intros Hv. specialize (N2 v Hv). by apply not_elem_of_cons in N2 as [[] _].
  - intros ? [= <-]. rewrite not_elem_of_app, not_elem_of_cons. split; [|done]. set_solver.
Qed.

(** Flushing reports every buffered line once and empties the buffer. *)
Lemma wcb_flush_lines self : (wcb_flush_all self).1 = wcb_lines self /\ wcb_lines (wcb_flush_all self).2 = [].
Proof.
  split; [done|]. set (off := fun e => if w_active e then e <| w_active := false |> else e).
  change (w_line_addr <$> filter (fun e => w_active e = true) (off <$> wcb_entries self) = []).
  assert (Hoff : forall e, w_active (off e) = false)
    by (intros e; unfold off; by destruct (w_active e) eqn:E; rewrite ?E).
  induction (wcb_entries self) as [|e l IH]; [done|]. rewrite fmap_cons, filter_cons_False; [done|].
  by rewrite Hoff.
Qed.
