(* ===== verification/Dram.v ===== *)
(** Memory controllers ([soc/memory/controller.rs]): the trait as a class, the
    fixed-latency controller, and the DRAM model with banks, row buffers and
    refresh. *)
From S2P Require Import Prelude.
Set Primitive Projections.
Local Open Scope Z_scope.

(** [access_latency(&mut self, addr, current_cycle) -> u64] *)
Class MemoryController (M : Type) := { access_latency : M -> Z -> Z -> Z * M }.

(** * [SimpleController] *)

Record SimpleController := { sc_latency : Z }.
#[export] Instance SimpleController_controller : MemoryController SimpleController :=
  {| access_latency self _ _ := (sc_latency self, self) |}.

(** * [DramController] *)

Record BankState := { open_row : option Z; busy_until : Z }.
#[export] Instance BankState_inhabited : Inhabited BankState := populate {| open_row := None; busy_until := 0 |}.

Record DramConfig := {
  c_t_cas : Z; c_t_ras : Z; c_t_pre : Z; c_t_rrd : Z;
  c_num_banks : nat; c_row_size_bytes : Z; c_t_refi : Z; c_t_rfc : Z
}.

Record DramController := {
  banks : list BankState;
  num_banks : nat;
  t_cas : Z; t_ras : Z; t_pre : Z; t_rrd : Z; t_refi : Z; t_rfc : Z;
  row_mask : Z; row_shift : Z;
  last_activate_cycle : option Z;
  next_refresh_cycle : Z
}.

(** [row_size_bytes] is a power of two, for which [trailing_zeros] is the logarithm. *)
Definition dram_new (cfg : DramConfig) : DramController := {|
  banks := replicate (c_num_banks cfg) {| open_row := None; busy_until := 0 |};
  num_banks := c_num_banks cfg;
  t_cas := c_t_cas cfg; t_ras := c_t_ras cfg; t_pre := c_t_pre cfg; t_rrd := c_t_rrd cfg;
  t_refi := c_t_refi cfg; t_rfc := c_t_rfc cfg;
  row_mask := not64 (c_row_size_bytes cfg - 1); row_shift := Z.log2 (c_row_size_bytes cfg);
  last_activate_cycle := None;
  next_refresh_cycle := if 0 <? c_t_refi cfg then c_t_refi cfg else U64_MAX |}.

Definition bank_index (self : DramController) (addr : Z) : nat :=
  (Z.to_nat (Z.shiftr addr (row_shift self)) `mod` num_banks self)%nat.
Definition row_addr (self : DramController) (addr : Z) : Z := Z.land addr (row_mask self).

(** One refresh: every bank is busy until it ends and loses its open row. *)
Definition refresh_bank (refresh_end : Z) (bank : BankState) : BankState :=
  {| open_row := None;
     busy_until := if busy_until bank <? refresh_end then refresh_end else busy_until bank |}.
Definition refresh_step (self : DramController) (effective_cycle : Z) : DramController * Z :=
  let refresh_end := add64 (next_refresh_cycle self) (t_rfc self) in
  (self <| banks := refresh_bank refresh_end <$> banks self |>
        <| next_refresh_cycle := add64 (next_refresh_cycle self) (t_refi self) |>,
   if effective_cycle <? refresh_end then refresh_end else effective_cycle).

(** The [while] loop; [None] when the fuel runs out before its condition fails. *)
Fixpoint refresh_loop (fuel : nat) (self : DramController) (effective_cycle : Z)
    : option (DramController * Z) :=
  if effective_cycle <? next_refresh_cycle self then Some (self, effective_cycle)
  else match fuel with
       | O => None
       | S fuel => let '(self, effective_cycle) := refresh_step self effective_cycle in
                   refresh_loop fuel self effective_cycle
       end.

Definition handle_refresh (fuel : nat) (self : DramController) (current_cycle : Z)
    : option (DramController * Z) :=
  if t_refi self =? 0 then Some (self, current_cycle) else refresh_loop fuel self current_cycle.

Definition activate (self : DramController) (ready_cycle : Z) : DramController * Z :=
  let ready_cycle :=
    match last_activate_cycle self with
    | Some last_act =>
        let earliest_activate := add64 last_act (t_rrd self) in
        if ready_cycle <? earliest_activate then earliest_activate else ready_cycle
    | None => ready_cycle
    end in
  (self <| last_activate_cycle := Some ready_cycle |>, ready_cycle).

Definition set_bank (self : DramController) (i : nat) (b : BankState) : DramController :=
  self <| banks := <[i := b]> (banks self) |>.

(** Opens [row] in bank [i] from [ready_cycle]. *)
Definition open_bank (self : DramController) (i : nat) (row ready_cycle current_cycle : Z) : Z * DramController :=
  let '(self, ready_cycle) := activate self ready_cycle in
  (add64 (add64 (sub64 ready_cycle current_cycle) (t_ras self)) (t_cas self),
   set_bank self i {| open_row := Some row; busy_until := add64 ready_cycle (t_ras self) |}).

Definition dram_access (self : DramController) (addr current_cycle ready_cycle : Z) : Z * DramController :=
  let bank_idx := bank_index self addr in
  let row := row_addr self addr in
  let bank := banks self !!! bank_idx in
  let ready_cycle := if ready_cycle <? busy_until bank then busy_until bank else ready_cycle in
  match open_row bank with
  | Some r =>
      if r =? row
      then (add64 (sub64 ready_cycle current_cycle) (t_cas self),
            set_bank self bank_idx (bank <| busy_until := add64 ready_cycle (t_cas self) |>))
      else open_bank self bank_idx row (add64 ready_cycle (t_pre self)) current_cycle
  | None => open_bank self bank_idx row ready_cycle current_cycle
  end.

Definition dram_access_latency (fuel : nat) (self : DramController) (addr current_cycle : Z)
    : option (Z * DramController) :=
  '(self, ready_cycle) ← handle_refresh fuel self current_cycle;
  Some (dram_access self addr current_cycle ready_cycle).

(** * Refresh *)

(** Refreshes due by [cycle]. *)
Definition refreshes_due (self : DramController) (cycle : Z) : Z :=
  if cycle <? next_refresh_cycle self then 0
  else (cycle - next_refresh_cycle self) / t_refi self + 1.

(** Times stay in 64 bits until the loop ends. *)
Definition times_fit (self : DramController) (cycle : Z) : Prop :=
  0 <= next_refresh_cycle self /\ 0 <= cycle /\ 0 <= t_rfc self /\
  cycle + t_refi self + t_rfc self < 2 ^ 64.

(** The controller after [n] refreshes. *)
Fixpoint after_refreshes (n : nat) (self : DramController) : DramController :=
  match n with
  | O => self
  | S n => after_refreshes n (refresh_step self 0).1
  end.

Lemma refresh_step_ok self cycle :
  0 < t_refi self -> times_fit self cycle -> next_refresh_cycle self <= cycle ->
  let self' := (refresh_step self cycle).1 in
  t_refi self' = t_refi self /\ t_rfc self' = t_rfc self /\
  next_refresh_cycle self' = next_refresh_cycle self + t_refi self /\
  (refresh_step self cycle).2 = Z.max cycle (next_refresh_cycle self + t_rfc self) /\
  self' = (refresh_step self 0).1.
Proof.
  intros Hr (Hn & Hc & Hf & Hb) Hle. unfold refresh_step, add64.
  rewrite !wrap_small by (unfold in_width; lia). simpl. split_and!; try done.
  destruct (Z.ltb_spec cycle (next_refresh_cycle self + t_rfc self)); lia.
Qed.

Lemma refreshes_due_pos self cycle :
  0 < t_refi self -> next_refresh_cycle self <= cycle -> 0 < refreshes_due self cycle.
Proof.
  intros Hr Hc. unfold refreshes_due. rewrite (proj2 (Z.ltb_ge _ _)) by done.
  assert (0 <= (cycle - next_refresh_cycle self) / t_refi self) by (apply Z.div_pos; lia). lia.
Qed.

Lemma refreshes_due_step self cycle :
  0 < t_refi self -> times_fit self cycle -> next_refresh_cycle self <= cycle ->
  refreshes_due (refresh_step self cycle).1 cycle = refreshes_due self cycle - 1 /\
  0 <= refreshes_due (refresh_step self cycle).1 cycle.
Proof.
  intros Hr Hfit Hc. destruct (refresh_step_ok self cycle Hr Hfit Hc) as (E1 & _ & E3 & _).
  unfold refreshes_due. rewrite E1, E3, (proj2 (Z.ltb_ge cycle (next_refresh_cycle self))) by done.
  destruct (Z.ltb_spec cycle (next_refresh_cycle self + t_refi self)).
  - rewrite (Z.div_small (cycle - next_refresh_cycle self)) by lia. lia.
  - replace (cycle - next_refresh_cycle self) with (cycle - (next_refresh_cycle self + t_refi self) + 1 * t_refi self) by lia.
    rewrite Z.div_add by lia.
    assert (0 <= (cycle - (next_refresh_cycle self + t_refi self)) / t_refi self) by (apply Z.div_pos; lia). lia.
Qed.

(** With [t_rfc < t_refi], the loop runs once per refresh due and then stops:
    only the last refresh can still be in progress, and it ends before the
    next one is due. *)
Lemma refresh_loop_ok (fuel : nat) self cycle :
  0 < t_refi self -> t_rfc self < t_refi self -> times_fit self cycle ->
  refreshes_due self cycle <= Z.of_nat fuel ->
  let n := Z.to_nat (refreshes_due self cycle) in
  exists eff, refresh_loop fuel self cycle = Some (after_refreshes n self, eff) /\
    cycle <= eff <= cycle + t_rfc self /\ eff < next_refresh_cycle (after_refreshes n self).
Proof.
  revert self. induction fuel as [|fuel IH]; intros self Hr Hlt Hfit Hfuel n; subst n;
    (destruct (Z.ltb_spec cycle (next_refresh_cycle self)) as [Hc|Hc];
     [exists cycle; destruct Hfit as (? & ? & ? & ?); unfold refreshes_due; simpl refresh_loop;
      rewrite !(proj2 (Z.ltb_lt _ _)) by done; simpl; split_and!; (done || lia)|]).
  - pose proof (refreshes_due_pos self cycle Hr Hc). lia.
  - destruct (refresh_step_ok self cycle Hr Hfit Hc) as (E1 & E2 & E3 & E4 & E5).
    destruct (refreshes_due_step self cycle Hr Hfit Hc) as [Hdue Hpos].
    cbn [refresh_loop]. rewrite (proj2 (Z.ltb_ge _ _)) by done.
    destruct (refresh_step self cycle) as [self' eff'] eqn:Es. cbn [fst snd] in *. subst eff'.
    replace (Z.to_nat (refreshes_due self cycle)) with (S (Z.to_nat (refreshes_due self' cycle))) by lia.
    cbn [after_refreshes]. rewrite <-E5. destruct (decide (next_refresh_cycle self + t_rfc self <= cycle)).
    + rewrite Z.max_l by done. rewrite <-E2. apply IH; rewrite ?E1, ?E2; try done; [|lia].
      destruct Hfit as (? & ? & ? & ?). unfold times_fit. rewrite E1, E2, E3. split_and!; lia.
    + rewrite Z.max_r by lia. exists (next_refresh_cycle self + t_rfc self).
      assert (Hnone : refreshes_due self' cycle = 0).
      { unfold refreshes_due. rewrite (proj2 (Z.ltb_lt _ _)); [done|]. rewrite E3. lia. }
      rewrite Hnone. simpl after_refreshes. split_and!; try lia.
      destruct fuel; simpl; rewrite (proj2 (Z.ltb_lt _ _)) by lia; done.
Qed.

(** With [t_refi <= t_rfc] a refresh never ends before the next one is due:
    whatever number of iterations is allowed, as long as times fit in 64 bits,
    the loop has not finished. *)
Lemma refresh_loop_diverges (fuel : nat) self cycle :
  0 < t_refi self -> t_refi self <= t_rfc self -> 0 <= next_refresh_cycle self <= cycle ->
  Z.max cycle (next_refresh_cycle self + t_rfc self) + Z.of_nat fuel * t_refi self < 2 ^ 64 ->
  refresh_loop fuel self cycle = None.
Proof.
  revert self cycle. induction fuel as [|fuel IH]; intros self cycle Hr Hge Hn Hb;
    cbn [refresh_loop]; rewrite (proj2 (Z.ltb_ge _ _)) by lia; [done|].
  unfold refresh_step, add64. rewrite !wrap_small by (unfold in_width; lia).
  set (self' := self <| banks := _ |> <| next_refresh_cycle := _ |>).
  assert (E : t_refi self' = t_refi self /\ t_rfc self' = t_rfc self /\
              next_refresh_cycle self' = next_refresh_cycle self + t_refi self) by done.
  destruct E as (E1 & E2 & E3). apply IH; rewrite ?E1, ?E2, ?E3; try lia;
    case_bool; to_prop; lia.
Qed.

(** Every bank is free of open rows after a refresh, and busy at least to its end. *)
Lemma after_refreshes_banks (n : nat) self :
  (0 < n)%nat -> Forall (fun b => open_row b = None) (banks (after_refreshes n self)).
Proof.
  intros Hn. assert (H : forall m s, Forall (fun b => open_row b = None) (banks s) ->
    Forall (fun b => open_row b = None) (banks (after_refreshes m s))).
  { induction m as [|m IHm]; intros s Hs; [done|]. apply (IHm (refresh_step s 0).1). apply Forall_fmap.
    eapply Forall_impl; [exact Hs|done]. }
  destruct n as [|n]; [lia|]. apply (H n (refresh_step self 0).1). apply Forall_fmap. by apply Forall_true.
Qed.

(** C39. The refresh loop of the DRAM controller terminates exactly when a
    refresh is shorter than the refresh interval: with [t_rfc < t_refi] it
    runs once per refresh due, leaves the next refresh in the future and
    delays the access by at most [t_rfc]; with [0 < t_refi <= t_rfc] (which
    the configuration does not exclude) no number of iterations ends it once a
    refresh is due. *)
Theorem handle_refresh_terminates (self : DramController) (cycle : Z) (fuel : nat) :
  0 < t_refi self -> times_fit self cycle ->
  (t_rfc self < t_refi self -> refreshes_due self cycle <= Z.of_nat fuel ->
   exists self' eff, handle_refresh fuel self cycle = Some (self', eff) /\
     self' = after_refreshes (Z.to_nat (refreshes_due self cycle)) self /\
     cycle <= eff <= cycle + t_rfc self /\ eff < next_refresh_cycle self') /\
  (t_refi self <= t_rfc self -> next_refresh_cycle self <= cycle ->
   Z.max cycle (next_refresh_cycle self + t_rfc self) + Z.of_nat fuel * t_refi self < 2 ^ 64 ->
   handle_refresh fuel self cycle = None).
Proof.
  intros Hr Hfit. unfold handle_refresh. rewrite (proj2 (Z.eqb_neq _ _)) by lia. split.
  - intros Hlt Hfuel. destruct (refresh_loop_ok fuel self cycle Hr Hlt Hfit Hfuel) as (eff & E & H).
    by exists (after_refreshes (Z.to_nat (refreshes_due self cycle)) self), eff.
  - intros Hge Hn Hb. apply refresh_loop_diverges; try done. destruct Hfit. lia.
Qed.

Definition demo_dram (rfc : Z) : DramController :=
  dram_new {| c_t_cas := 14; c_t_ras := 32; c_t_pre := 14; c_t_rrd := 4; c_num_banks := 8;
              c_row_size_bytes := 2048; c_t_refi := 7800; c_t_rfc := rfc |}.

Lemma handle_refresh_terminates_witness :
  (exists self' eff, handle_refresh 2 (demo_dram 350) 15700 = Some (self', eff) /\ eff = 15950) /\
  handle_refresh 1000 (demo_dram 7800) 15700 = None.
Proof.
  split.
  - destruct (handle_refresh_terminates (demo_dram 350) 15700 2) as [H _]; [done|by split_and!|].
    destruct H as (self' & eff & E & _); [done|by vm_compute|]. exists self', eff. split; [done|].
    vm_compute in E. by injection E as <- <-.
  - apply (handle_refresh_terminates (demo_dram 7800) 15700 1000); [done|by split_and!|done|done|done].
Defined.

(** An access takes at least the column latency. *)
Lemma dram_access_lower self addr cycle ready :
  0 <= cycle <= ready -> 0 <= t_cas self -> 0 <= t_ras self -> 0 <= t_pre self -> 0 <= t_rrd self ->
  (forall b, b ∈ banks self -> 0 <= busy_until b < 2 ^ 62) -> ready < 2 ^ 62 ->
  (forall c, last_activate_cycle self = Some c -> 0 <= c < 2 ^ 62) ->
  t_cas self < 2 ^ 60 -> t_ras self < 2 ^ 60 -> t_pre self < 2 ^ 60 -> t_rrd self < 2 ^ 60 ->
  t_cas self <= (dram_access self addr cycle ready).1.
Proof.
  intros Hc ? ? ? ? Hb Hr Hl ? ? ? ?. unfold dram_access.
  set (bank := banks self !!! bank_index self addr).
  assert (Hbank : 0 <= busy_until bank < 2 ^ 62).
  { subst bank. rewrite list_lookup_total_alt.
    destruct (banks self !! bank_index self addr) as [b|] eqn:E; [|simpl; lia].
    apply Hb. by eapply list_elem_of_lookup_2. }
  set (rc := if ready <? busy_until bank then busy_until bank else ready).
  assert (Hrc : ready <= rc < 2 ^ 62) by (subst rc; case_bool; to_prop; lia).
  assert (Hsum : forall x d, rc <= x < 2 ^ 63 -> 0 <= d < 2 ^ 60 ->
    d + t_cas self <= add64 (add64 (sub64 x cycle) d) (t_cas self)).
  { intros x d Hx Hd. unfold add64, sub64. rewrite (wrap_small 64 (x - cycle)) by (unfold in_width; lia).
    rewrite (wrap_small 64 (x - cycle + d)) by (unfold in_width; lia).
    rewrite wrap_small by (unfold in_width; lia). lia. }
  assert (Hopen : forall r x, rc <= x < 2 ^ 63 -> t_cas self <= (open_bank self (bank_index self addr) r x cycle).1).
  { intros r x Hx. unfold open_bank, activate. cbn [fst].
    change (t_cas self <= add64 (add64 (sub64 (match last_activate_cycle self with
      | Some c => if x <? add64 c (t_rrd self) then add64 c (t_rrd self) else x | None => x end) cycle)
      (t_ras self)) (t_cas self)).
    etrans; [|apply Hsum; [|lia]]; [lia|].
    destruct (last_activate_cycle self) as [c|] eqn:E; [|done]. specialize (Hl c eq_refl).
    unfold add64. rewrite wrap_small by (unfold in_width; lia). case_bool; to_prop; lia. }
  destruct (open_row bank) as [r|].
  - case_bool.
    + change (t_cas self <= add64 (sub64 rc cycle) (t_cas self)). pose proof (Hsum rc 0 ltac:(lia) ltac:(lia)) as Hs.
      unfold add64, sub64 in *. rewrite Z.add_0_r, wrap_idemp in Hs by lia. lia.
    + apply Hopen. unfold add64. rewrite wrap_small by (unfold in_width; lia). lia.
  - apply Hopen. lia.
Qed.
