(* ===== verification/Hierarchy.v ===== *)
(** The cache hierarchy of the hart ([simulate_memory_access] and
    [simulate_l1d_miss_latency] of [core/cpu/memory.rs]): L1I, L1D, L2 and L3
    with the inclusion policies, the shared prefetch filter and the memory
    controller. *)
From S2P Require Import Prelude Common Policy Prefetch Cache CacheSpec Dram.
Set Primitive Projections.
Local Open Scope Z_scope.

Inductive InclusionPolicy := Nine | Inclusive | Exclusive.
#[export] Instance InclusionPolicy_eq_dec : EqDecision InclusionPolicy.
Proof. solve_decision. Defined.

Abbreviation cache := (CacheSim DynPolicy DynPrefetcher).

(** The counters of [cpu.stats] these functions bump. *)
Record HierStats := {
  pf_dedup_l1 : Z; pf_dedup_l2 : Z; pf_dedup_l3 : Z;
  inclusion_back_invalidations : Z; exclusive_l1_to_l2_swaps : Z;
  icache_hits : Z; icache_misses : Z; dcache_hits : Z; dcache_misses : Z;
  l2_hits : Z; l2_misses : Z; l3_hits : Z; l3_misses : Z
}.

Record Hierarchy {M : Type} := {
  h_l1i : cache; h_l1d : cache; h_l2 : cache; h_l3 : cache;
  h_filter : PrefetchFilter;
  h_inclusion : InclusionPolicy;
  h_controller : M;
  h_transit : Z -> Z;          (* [bus.calculate_transit_time] *)
  h_cycles : Z;                (* [stats.cycles] *)
  h_stats : HierStats
}.
Arguments Hierarchy : clear implicits.

Section Access.
Context {M : Type} `{!MemoryController M}.
Local Abbreviation hier := (Hierarchy M).

Definition WB_LAT : Z := 0.
Definition incr (x : Z) : Z := add64 x 1.

(** ** Back-invalidation *)

Definition invalidate_l1 (h : hier) (addr : Z) : hier :=
  let '(hit, l1d) := invalidate_line (h_l1d h) addr in
  let s := h_stats h in
  let s := if hit then s <| inclusion_back_invalidations := incr (inclusion_back_invalidations s) |> else s in
  let '(hit, l1i) := invalidate_line (h_l1i h) addr in
  let s := if hit then s <| inclusion_back_invalidations := incr (inclusion_back_invalidations s) |> else s in
  h <| h_l1d := l1d |> <| h_l1i := l1i |> <| h_stats := s |>.

Definition back_invalidate_l1 (h : hier) (evs : list EvictedLine) : hier :=
  foldl (fun h ev => invalidate_l1 h (ev_addr ev)) h evs.

Definition back_invalidate_l2 (h : hier) (evs : list EvictedLine) : hier :=
  foldl (fun h ev => invalidate_l1 (h <| h_l2 := (invalidate_line (h_l2 h) (ev_addr ev)).2 |>) (ev_addr ev)) h evs.

(** ** The levels *)

(** An access at L2: [(hit, h)].  [exclusive] adds the removal of the line on
    a hit, which only [simulate_memory_access] does. *)
Definition access_l2 (h : hier) (addr : Z) (is_write exclusive : bool) : bool * hier :=
  let '(l2_hit, _, l2_evictions, l2_prefetches, l2) := access_tracked_split (h_l2 h) addr is_write WB_LAT in
  let '(filtered, flt, dedup) := filter_and_record (h_filter h) l2_prefetches (pf_dedup_l2 (h_stats h)) in
  let '(pf_evictions, l2) := install_prefetches l2 filtered WB_LAT in
  let h := h <| h_l2 := l2 |> <| h_filter := flt |> <| h_stats := (h_stats h) <| pf_dedup_l2 := dedup |> |> in
  let h := if decide (h_inclusion h = Inclusive) then back_invalidate_l1 h (l2_evictions ++ pf_evictions) else h in
  let h := if exclusive && bool_decide (h_inclusion h = Exclusive) && l2_hit
           then h <| h_l2 := (invalidate_line (h_l2 h) addr).2 |> else h in
  let s := h_stats h in
  (l2_hit, h <| h_stats := if l2_hit then s <| l2_hits := incr (l2_hits s) |>
                           else s <| l2_misses := incr (l2_misses s) |> |>).

Definition access_l3 (h : hier) (addr : Z) (is_write : bool) : bool * hier :=
  let '(l3_hit, _, l3_evictions, l3_prefetches, l3) := access_tracked_split (h_l3 h) addr is_write WB_LAT in
  let '(filtered, flt, dedup) := filter_and_record (h_filter h) l3_prefetches (pf_dedup_l3 (h_stats h)) in
  let '(pf_evictions, l3) := install_prefetches l3 filtered WB_LAT in
  let h := h <| h_l3 := l3 |> <| h_filter := flt |> <| h_stats := (h_stats h) <| pf_dedup_l3 := dedup |> |> in
  let h := if decide (h_inclusion h = Inclusive) then back_invalidate_l2 h (l3_evictions ++ pf_evictions) else h in
  let s := h_stats h in
  (l3_hit, h <| h_stats := if l3_hit then s <| l3_hits := incr (l3_hits s) |>
                           else s <| l3_misses := incr (l3_misses s) |> |>).

(** All caches missed: the memory controller and two bus transfers. *)
Definition access_dram (h : hier) (addr : Z) : Z * hier :=
  let '(ram_latency, ctl) := access_latency (h_controller h) addr (h_cycles h) in
  (add64 (add64 (h_transit h 8) ram_latency) (h_transit h 64), h <| h_controller := ctl |>).

(** From L2 down, common to both functions; [exclusive] as above. *)
Definition below_l1 (h : hier) (addr : Z) (is_write exclusive : bool) : Z * hier :=
  let lower (penalty : Z) (h : hier) : Z * hier :=
    let dram (penalty : Z) (h : hier) : Z * hier :=
      let '(lat, h) := access_dram h addr in (add64 penalty lat, h) in
    if cs_enabled (h_l3 h) then
      let penalty := add64 penalty (cs_latency (h_l3 h)) in
      let '(hit, h) := access_l3 h addr is_write in
      if hit then (penalty, h) else dram penalty h
    else dram penalty h in
  if cs_enabled (h_l2 h) then
    let penalty := cs_latency (h_l2 h) in
    let '(hit, h) := access_l2 h addr is_write exclusive in
    if hit then (penalty, h) else lower penalty h
  else lower 0 h.

Definition simulate_l1d_miss_latency (h : hier) (addr : Z) (access : AccessType) : Z * hier :=
  below_l1 h addr (match access with Write => true | _ => false end) false.

(** ** L1 *)

Definition no_access (c : cache) : bool * Z * list EvictedLine * list Z * cache := (false, 0, [], [], c).

Definition spill_to_l2 (h : hier) (evs : list EvictedLine) : hier :=
  foldl (fun h ev =>
           let '(_, l2) := install_or_replace (h_l2 h) (ev_addr ev) (ev_dirty ev) WB_LAT in
           h <| h_l2 := l2 |>
             <| h_stats := (h_stats h) <| exclusive_l1_to_l2_swaps := incr (exclusive_l1_to_l2_swaps (h_stats h)) |> |>)
        h evs.

(** The L1 access: [(enabled, hit, h)]. *)
Definition access_l1 (h : hier) (addr : Z) (is_inst is_write : bool) : bool * bool * hier :=
  let l1 := if is_inst then h_l1i h else h_l1d h in
  let '(l1_hit, _, l1_evictions, l1_prefetches, l1) :=
    if cs_enabled l1 then access_tracked_split l1 addr (if is_inst then false else is_write) WB_LAT
    else no_access l1 in
  let '(filtered, flt, dedup) := filter_and_record (h_filter h) l1_prefetches (pf_dedup_l1 (h_stats h)) in
  let '(pf_evictions, l1) := install_prefetches l1 filtered WB_LAT in
  let h := (if is_inst then h <| h_l1i := l1 |> else h <| h_l1d := l1 |>)
             <| h_filter := flt |> <| h_stats := (h_stats h) <| pf_dedup_l1 := dedup |> |> in
  let h := if decide (h_inclusion h = Exclusive) then
             if cs_enabled (h_l2 h) then spill_to_l2 h (l1_evictions ++ pf_evictions) else h
           else h in
  let s := h_stats h in
  if cs_enabled l1 then
    (true, l1_hit,
     h <| h_stats :=
       match is_inst, l1_hit with
       | true, true => s <| icache_hits := incr (icache_hits s) |>
       | true, false => s <| icache_misses := incr (icache_misses s) |>
       | false, true => s <| dcache_hits := incr (dcache_hits s) |>
       | false, false => s <| dcache_misses := incr (dcache_misses s) |>
       end |>)
  else (false, l1_hit, h).

Definition simulate_memory_access (h : hier) (addr : Z) (access : AccessType) : Z * hier :=
  let is_inst := match access with Fetch => true | _ => false end in
  let is_write := match access with Write => true | _ => false end in
  let l1_enabled := if is_inst then cs_enabled (h_l1i h) else cs_enabled (h_l1d h) in
  if negb l1_enabled && negb (cs_enabled (h_l2 h)) && negb (cs_enabled (h_l3 h)) then access_dram h addr
  else
    let '(enabled, l1_hit, h) := access_l1 h addr is_inst is_write in
    if enabled && l1_hit then (0, h) else below_l1 h addr is_write true.

End Access.

(** * Policies on small hierarchies

    An L1D of one line and an L2 of one set with four ways, 64-byte lines. *)

Definition small_cache (enabled : bool) (ways : nat) (pf : option DynPrefetcher) : cache :=
  cs_new 10 enabled (64 * Z.of_nat ways) 64 ways (fun s w => DynLru (lru_new s w)) pf.
Definition stats0 : HierStats := Build_HierStats 0 0 0 0 0 0 0 0 0 0 0 0 0.
Definition small_hier (p : InclusionPolicy) (pf : option DynPrefetcher) : Hierarchy SimpleController := {|
  h_l1i := small_cache true 1 None; h_l1d := small_cache true 1 pf; h_l2 := small_cache true 4 None;
  h_l3 := small_cache false 1 None; h_filter := filter_new 0 64; h_inclusion := p;
  h_controller := {| sc_latency := 100 |}; h_transit := fun n => n; h_cycles := 0; h_stats := stats0 |}.
Definition run_accesses (h : Hierarchy SimpleController) (l : list Z) : Hierarchy SimpleController :=
  foldl (fun h a => (simulate_memory_access h a Read).2) h l.

(** Under [Exclusive], a miss at both levels installs the line in both. *)
Lemma exclusive_overlap :
  let h := run_accesses (small_hier Exclusive None) [0x1000] in
  cs_contains (h_l1d h) 0x1000 = true /\ cs_contains (h_l2 h) 0x1000 = true.
Proof. by vm_compute. Qed.

(** The L1 victim is then installed into an L2 that already holds it, which
    leaves two valid ways with the same tag. *)
Lemma exclusive_duplicates :
  let h := run_accesses (small_hier Exclusive None) [0x1000; 0x2000] in
  cl_tag <$> filter (fun l => cl_valid l = true) (cs_lines (h_l2 h)) = [0x1000 / 64; 0x2000 / 64; 0x1000 / 64].
Proof. vm_compute. reflexivity. Qed.

(** Under [Inclusive], a line the L1 prefetcher installs is not in L2. *)
Lemma inclusive_prefetch_escapes :
  let h := run_accesses (small_hier Inclusive (Some (DynNextLine (next_line_new 64 1)))) [0x1000] in
  cs_contains (h_l1d h) 0x1040 = true /\ cs_contains (h_l2 h) 0x1040 = false.
Proof. by vm_compute. Qed.
