(* ===== verification/Soc.v ===== *)
(** Memory and devices of the system ([soc/memory/{buffer,mod}.rs],
    [soc/devices/{clint,htif,syscon,goldfish_rtc}.rs]).  The buffer of the DRAM
    is shared by the memory device, the hart's raw pointer and DMA, and the exit
    signal by the devices that end the simulation, so both are cells of
    [Shared] that every device operation takes and returns. *)
From S2P Require Import Prelude StoreBufferSpec WriteBuffer.
Set Primitive Projections.
Local Open Scope Z_scope.

(** * The DRAM buffer *)

(** Fresh anonymous memory reads as zero. *)
Record DramBuffer := { db_size : Z; db_bytes : gmap Z Z }.
Definition dram_buffer_new (size : Z) : DramBuffer := {| db_size := size; db_bytes := ∅ |}.
Definition db_byte (b : DramBuffer) (i : Z) : Z := default 0 (db_bytes b !! i).

(** [n] bytes through the raw pointer, in little-endian order. *)
Definition db_poke (b : DramBuffer) (offset : Z) (n : nat) (val : Z) : DramBuffer :=
  b <| db_bytes := foldl (fun m k => <[offset + Z.of_nat k := le_byte val k]> m) (db_bytes b) (seq 0 n) |>.
Definition db_peek (b : DramBuffer) (offset : Z) (n : nat) : Z :=
  foldr (fun k acc => db_byte b (offset + Z.of_nat k) + 256 * acc) 0 (seq 0 n).

(** * Shared cells *)

(** [sh_failed] is set when the host program stops: an [assert!] fails, or a
    raw pointer leaves the buffer; [sh_hung] when an operation does not return.
    [Simulator::tick] looks at both.  [sh_host_time] is the host's clock in
    nanoseconds. *)
Record Shared := {
  sh_dram : DramBuffer;
  sh_exit_signal : Z;
  sh_host_time : Z;
  sh_failed : bool;
  sh_hung : bool
}.
Definition fail (sh : Shared) : Shared := sh <| sh_failed := true |>.
Definition hang (sh : Shared) : Shared := sh <| sh_hung := true |>.

(** [DramBuffer::read_u8], [read_slice], [write_u8], [write_slice]: bounds are
    asserted. *)
Definition dram_read (sh : Shared) (offset : Z) (n : nat) : Z * Shared :=
  if offset + Z.of_nat n <=? db_size (sh_dram sh) then (db_peek (sh_dram sh) offset n, sh) else (0, fail sh).
Definition dram_write (sh : Shared) (offset : Z) (n : nat) (val : Z) : Shared :=
  if offset + Z.of_nat n <=? db_size (sh_dram sh) then sh <| sh_dram := db_poke (sh_dram sh) offset n val |>
  else fail sh.

(** * Access sizes: [read_u8] to [read_u64] *)

Inductive AccessSize := U8 | U16 | U32 | U64.
#[export] Instance AccessSize_eq_dec : EqDecision AccessSize.
Proof. solve_decision. Defined.
Definition size_bytes (s : AccessSize) : nat := match s with U8 => 1 | U16 => 2 | U32 => 4 | U64 => 8 end.

(** * CLINT *)

Definition MSIP_OFFSET : Z := 0x0000.
Definition MTIMECMP_OFFSET : Z := 0x4000.
Definition MTIME_OFFSET : Z := 0xBFF8.

Record Clint := {
  clint_base_addr : Z; mtime : Z; mtimecmp : Z; msip : Z; divider : Z; counter : Z
}.
Definition clint_new (base_addr div : Z) : Clint :=
  {| clint_base_addr := base_addr; mtime := 0; mtimecmp := U64_MAX; msip := 0;
     divider := if div =? 0 then 1 else div; counter := 0 |}.
Definition msip_pending (self : Clint) : bool := has_bits (msip self) 1.

Definition clint_read_u64 (self : Clint) (offset : Z) : Z :=
  if offset =? MSIP_OFFSET then msip self
  else if offset =? MTIMECMP_OFFSET then mtimecmp self
  else if offset =? MTIME_OFFSET then mtime self else 0.
Definition clint_read_u32 (self : Clint) (offset : Z) : Z :=
  if offset =? MSIP_OFFSET then msip self
  else if offset =? MTIMECMP_OFFSET then u32 (mtimecmp self)
  else if offset =? MTIMECMP_OFFSET + 4 then u32 (Z.shiftr (mtimecmp self) 32)
  else if offset =? MTIME_OFFSET then u32 (mtime self)
  else if offset =? MTIME_OFFSET + 4 then u32 (Z.shiftr (mtime self) 32) else 0.
Definition clint_read (self : Clint) (s : AccessSize) (offset : Z) : Z :=
  match s with
  | U8 => u8 (Z.land (Z.shiftr (clint_read_u64 self (Z.land offset (not64 7))) (Z.land offset 7 * 8)) 0xFF)
  | U16 => 0
  | U32 => clint_read_u32 self offset
  | U64 => clint_read_u64 self offset
  end.

Definition set_low (x val : Z) : Z := Z.lor (Z.land x 0xFFFFFFFF00000000) val.
Definition set_high (x val : Z) : Z := Z.lor (Z.land x 0x00000000FFFFFFFF) (shl64 val 32).

Definition clint_write_u32 (self : Clint) (offset val : Z) : Clint :=
  if offset =? MSIP_OFFSET then self <| msip := Z.land val 1 |>
  else if offset =? MTIMECMP_OFFSET then self <| mtimecmp := set_low (mtimecmp self) val |>
  else if offset =? MTIMECMP_OFFSET + 4 then self <| mtimecmp := set_high (mtimecmp self) val |>
  else if offset =? MTIME_OFFSET then self <| mtime := set_low (mtime self) val |>
  else if offset =? MTIME_OFFSET + 4 then self <| mtime := set_high (mtime self) val |>
  else self.
Definition clint_write_u64 (self : Clint) (offset val : Z) : Clint :=
  if offset =? MSIP_OFFSET then self <| msip := Z.land (u32 val) 1 |>
  else if offset =? MTIMECMP_OFFSET then self <| mtimecmp := val |>
  else if offset =? MTIME_OFFSET then self <| mtime := val |> else self.
Definition clint_write (self : Clint) (s : AccessSize) (offset val : Z) : Clint :=
  match s with
  | U8 | U16 => self
  | U32 => clint_write_u32 self offset val
  | U64 => clint_write_u64 self offset val
  end.

Definition clint_tick (self : Clint) : bool * Clint :=
  let self := self <| counter := add64 (counter self) 1 |> in
  let self := if divider self <=? counter self
              then self <| mtime := add64 (mtime self) 1 |> <| counter := 0 |> else self in
  (mtimecmp self <=? mtime self, self).

(** * HTIF and system controller: writes that end the simulation *)

Definition handle_tohost (sh : Shared) (val : Z) : Shared :=
  if val =? 0 then sh
  else if val =? 1 then sh <| sh_exit_signal := 0 |>
  else if has_bits val 1 then sh <| sh_exit_signal := Z.shiftr val 1 |>
  else sh <| sh_exit_signal := val |>.
Definition htif_write (sh : Shared) (s : AccessSize) (offset val : Z) : Shared :=
  match s with
  | U8 | U16 => sh
  | U32 | U64 => if offset =? 0 then handle_tohost sh val else sh
  end.

Definition syscon_write_u32 (sh : Shared) (offset val : Z) : Shared :=
  if offset =? 0 then
    if val =? 0x5555 then sh <| sh_exit_signal := 0 |>
    else if val =? 0x7777 then sh <| sh_exit_signal := 0 |>
    else if val =? 0x3333 then sh <| sh_exit_signal := 1 |> else sh
  else sh.
Definition syscon_write (sh : Shared) (s : AccessSize) (offset val : Z) : Shared :=
  match s with
  | U8 | U16 => sh
  | U32 => syscon_write_u32 sh offset val
  | U64 => syscon_write_u32 sh offset (u32 val)
  end.

(** * Real-time clock *)

Definition rtc_read (time : Z) (s : AccessSize) (offset : Z) : Z :=
  match s with
  | U8 | U16 => 0
  | U32 => if offset =? 0 then u32 time else if offset =? 4 then u32 (Z.shiftr time 32) else 0
  | U64 => if offset =? 0 then time else 0
  end.

(** * Lemmas on the buffer *)

Lemma le_byte_range (v : Z) (k : nat) : 0 <= le_byte v k < 256.
Proof. unfold le_byte, wrap. apply Z.mod_pos_bound. lia. Qed.

Lemma db_byte_poke (b : DramBuffer) (offset : Z) (n : nat) (v i : Z) :
  db_byte (db_poke b offset n v) i = store_mem (db_byte b) offset (Z.of_nat n) v i.
Proof.
  unfold db_byte, db_poke, store_mem.
  change (db_bytes (b <| db_bytes := ?f |>)) with f.
  induction n as [|n IH]; cbn [foldl].
  - cbn. case_bool; [|done]. to_prop. lia.
  - rewrite seq_S, foldl_snoc. destruct (decide (i = offset + Z.of_nat n)) as [->|Hne].
    + rewrite lookup_insert_eq. cbn [default]. rewrite (proj2 (Z.leb_le _ _)), (proj2 (Z.ltb_lt _ _)) by lia.
      simpl. unfold le_byte, wrap. do 2 f_equal. lia.
    + rewrite lookup_insert_ne by lia. rewrite IH.
      destruct (Z.leb_spec offset i), (Z.ltb_spec i (offset + Z.of_nat n)),
        (Z.ltb_spec i (offset + Z.of_nat (S n))); simpl; lia || done.
Qed.
