(* ===== verification/Uart.v ===== *)
(** The serial port ([soc/devices/uart.rs]): a 16550 whose transmitter is always
    ready, and the watch for a kernel panic in what the guest prints.  The host
    side is two streams: the bytes the reader thread has sent and not yet been
    taken, and the bytes printed. *)
From S2P Require Import Prelude Soc.
Set Primitive Projections.
Local Open Scope Z_scope.

Definition IIR_NO_INTERRUPT : Z := 0x01.
Definition IIR_THRE : Z := 0x02.
Definition IIR_RDA : Z := 0x04.
Definition IIR_ID_MASK : Z := 0xC0.
Definition LSR_DATA_READY : Z := 0x01.
Definition LSR_DEFAULT : Z := 0x60.
Definition LCR_DLAB : Z := 0x80.
Definition IER_RDA : Z := 0x01.
Definition IER_THRE : Z := 0x02.

Record Uart := {
  uart_base_addr : Z;
  rx_queue : list Z;
  rx_receiver : list Z;
  ier : Z; lcr : Z; mcr : Z; scr : Z; uart_div : Z;
  tick_count : Z;
  thre_ip : bool; to_stderr : bool; quiet : bool;
  panic_match_state : nat; panic_detected : bool;
  uart_printed : list Z
}.
Definition uart_new (base_addr : Z) (to_stderr quiet : bool) : Uart := {|
  uart_base_addr := base_addr; rx_queue := []; rx_receiver := []; ier := 0; lcr := 0; mcr := 0; scr := 0; uart_div := 0;
  tick_count := 0; thre_ip := true; to_stderr := to_stderr; quiet := quiet; panic_match_state := 0;
  panic_detected := false; uart_printed := [] |}.

Definition uart_check_stdin (self : Uart) : Uart :=
  self <| rx_queue := rx_queue self ++ rx_receiver self |> <| rx_receiver := [] |>.
Definition rx_is_empty (self : Uart) : bool := match rx_queue self with [] => true | _ => false end.

Definition uart_update_interrupts (self : Uart) : Z :=
  if has_bits (ier self) IER_RDA && negb (rx_is_empty self) then IIR_RDA
  else if has_bits (ier self) IER_THRE && thre_ip self then IIR_THRE
  else IIR_NO_INTERRUPT.

(** ["kernel panic"] *)
Definition PATTERN : list Z := [107; 101; 114; 110; 101; 108; 32; 112; 97; 110; 105; 99].
Definition to_lower (ch : Z) : Z := if (65 <=? ch) && (ch <=? 90) then ch + 32 else ch.

Definition uart_check_char_for_panic (self : Uart) (ch : Z) : bool * Uart :=
  let ch_lower := to_lower ch in
  if ch_lower =? PATTERN !!! panic_match_state self then
    let self := self <| panic_match_state := (panic_match_state self + 1)%nat |> in
    if (panic_match_state self =? length PATTERN)%nat
    then (true, self <| panic_detected := true |> <| panic_match_state := O |>)
    else (false, self)
  else if ch_lower =? 107 then (false, self <| panic_match_state := 1%nat |>)
  else (false, self <| panic_match_state := O |>).
Definition uart_check_kernel_panic (self : Uart) : bool := panic_detected self.

Definition dlab_set (self : Uart) : bool := has_bits (lcr self) LCR_DLAB.
Definition read_rbr_or_dll (self : Uart) : Z * Uart :=
  if dlab_set self then (u8 (Z.land (uart_div self) 0xFF), self)
  else match rx_queue self with
       | [] => (0, self)
       | b :: rest => (b, self <| rx_queue := rest |>)
       end.
Definition read_ier_or_dlm (self : Uart) : Z := if dlab_set self then u8 (Z.shiftr (uart_div self) 8) else ier self.
Definition read_iir (self : Uart) : Z * Uart :=
  let iir := uart_update_interrupts self in
  (Z.lor IIR_ID_MASK iir, if iir =? IIR_THRE then self <| thre_ip := false |> else self).
Definition read_lsr (self : Uart) : Z := if rx_is_empty self then LSR_DEFAULT else Z.lor LSR_DEFAULT LSR_DATA_READY.

Definition write_thr_or_dll (self : Uart) (val : Z) : Uart :=
  if dlab_set self then self <| uart_div := Z.lor (Z.land (uart_div self) 0xFF00) val |>
  else
    let '(panicked, self) := uart_check_char_for_panic self val in
    if panicked then self
    else (if quiet self then self else self <| uart_printed := uart_printed self ++ [val] |>) <| thre_ip := true |>.
Definition write_ier_or_dlm (self : Uart) (val : Z) : Uart :=
  if dlab_set self then self <| uart_div := Z.lor (Z.land (uart_div self) 0x00FF) (u16 (Z.shiftl val 8)) |>
  else
    let self := self <| ier := val |> in
    if has_bits (ier self) IER_THRE then self <| thre_ip := true |> else self.

(** * The device *)

Definition uart_read_u8 (self : Uart) (offset : Z) : Z * Uart :=
  if offset =? 0 then read_rbr_or_dll self
  else if offset =? 1 then (read_ier_or_dlm self, self)
  else if offset =? 2 then read_iir self
  else if offset =? 3 then (lcr self, self)
  else if offset =? 4 then (mcr self, self)
  else if offset =? 5 then (read_lsr self, self)
  else if offset =? 7 then (scr self, self)
  else (0, self).
Definition uart_write_u8 (self : Uart) (offset val : Z) : Uart :=
  if offset =? 0 then write_thr_or_dll self val
  else if offset =? 1 then write_ier_or_dlm self val
  else if offset =? 3 then self <| lcr := val |>
  else if offset =? 4 then self <| mcr := val |>
  else if offset =? 7 then self <| scr := val |>
  else self.
(** The wider accesses delegate to the byte. *)
Definition uart_read (self : Uart) (_ : AccessSize) (offset : Z) : Z * Uart := uart_read_u8 self offset.
Definition uart_write (self : Uart) (_ : AccessSize) (offset val : Z) : Uart := uart_write_u8 self offset (u8 val).

Definition uart_tick (self : Uart) : bool * Uart :=
  let self := self <| tick_count := u8 (tick_count self + 1) |> in
  let self := if tick_count self =? 0 then uart_check_stdin self else self in
  (negb (has_bits (uart_update_interrupts self) IIR_NO_INTERRUPT), self).

(** * The watch for a kernel panic *)

(** What the guest transmits, with the divisor latch closed. *)
Definition uart_transmit (self : Uart) (bytes : list Z) : Uart := foldl write_thr_or_dll self bytes.

(** The text contains the pattern, letters compared without case. *)
Definition mentions_panic (bytes : list Z) : Prop := exists before after, to_lower <$> bytes = before ++ PATTERN ++ after.

(** The longest suffix of the text that starts the pattern. *)
Definition is_border (bytes : list Z) (k : nat) : Prop :=
  (k < length PATTERN)%nat /\ exists before, bytes = before ++ take k PATTERN.

Lemma border_nil (bytes : list Z) : is_border bytes 0.
Proof. split; [simpl; lia|]. exists bytes. by rewrite app_nil_r. Qed.

Lemma take_pattern_S (k : nat) : (k < length PATTERN)%nat -> take (S k) PATTERN = take k PATTERN ++ [PATTERN !!! k].
Proof. intros Hk. apply take_S_r. by apply lookup_total_Some. Qed.

(** A border of the text with one more character. *)
Lemma border_snoc (bytes : list Z) (c : Z) (k : nat) :
  (S k < length PATTERN)%nat -> is_border (bytes ++ [c]) (S k) <-> is_border bytes k /\ c = PATTERN !!! k.
Proof.
  intros Hk. split.
  - intros [_ [before E]]. rewrite take_pattern_S, app_assoc in E by lia. apply app_inj_tail in E as [E ->].
    split; [|done]. split; [lia|]. by exists before.
  - intros [[_ [before ->]] ->]. split; [done|]. exists before. rewrite take_pattern_S by lia. by rewrite app_assoc.
Qed.
Lemma pattern_snoc (bytes : list Z) (c : Z) before :
  bytes ++ [c] = before ++ PATTERN -> is_border bytes 11 /\ c = PATTERN !!! 11%nat.
Proof.
  intros E. assert (PATTERN = take 11 PATTERN ++ [PATTERN !!! 11%nat]) as EP by by vm_compute.
  rewrite EP, app_assoc in E. apply app_inj_tail in E as [-> ->]. split; [|done]. split; [simpl; lia|]. by eexists.
Qed.

(** The pattern's first letter does not occur again in it. *)
Lemma pattern_first (k : nat) : (0 < k < length PATTERN)%nat -> PATTERN !!! k <> 107.
Proof.
  intros Hk. assert (forallb (fun k => negb (PATTERN !!! k =? 107)) (seq 1 11) = true) as H by by vm_compute.
  rewrite forallb_forall in H. specialize (H k). rewrite <-list_elem_of_In, elem_of_seq in H.
  simpl in Hk. specialize (H ltac:(lia)). to_prop. done.
Qed.
(** So of two partial matches at the end of a text, one is empty. *)
Lemma borders_nested (bytes : list Z) (j k : nat) : is_border bytes j -> is_border bytes k -> (j < k)%nat -> j = 0%nat.
Proof.
  intros [Hj [b1 E1]] [Hk [b2 E2]] Hjk. destruct j as [|j]; [done|exfalso].
  assert (PATTERN !!! (k - S j)%nat = 107) as Hf; [|by apply (pattern_first (k - S j)); [lia|]].
  assert (length (take k PATTERN) = k) as Lk by (rewrite length_take; lia).
  assert (length (take (S j) PATTERN) = S j) as Lj by (rewrite length_take; lia).
  assert (length b1 = length b2 + (k - S j))%nat as Lb.
  { pose proof (f_equal length E1) as L1. pose proof (f_equal length E2) as L2. rewrite length_app in L1, L2. lia. }
  assert (bytes !! length b1 = Some 107) as Hb by (rewrite E1, lookup_app_r, Nat.sub_diag by lia; done).
  rewrite E2, Lb, lookup_app_r in Hb by lia. replace (length b2 + (k - S j) - length b2)%nat with (k - S j)%nat in Hb by lia.
  rewrite lookup_take in Hb. destruct (decide (k - S j < k)%nat); [|lia]. by apply list_lookup_total_correct.
Qed.

(** The automaton is in the state of the longest partial match. *)
Definition watching (state : nat) (text : list Z) : Prop :=
  is_border text state /\ forall k, is_border text k -> (k <= state)%nat.

Lemma watching_next (state : nat) (text : list Z) (c : Z) :
  watching state text -> c <> PATTERN !!! state \/ (S state < length PATTERN)%nat ->
  watching (if (c =? PATTERN !!! state)%Z then S state else if (c =? 107)%Z then 1 else 0)%nat (text ++ [c]).
Proof.
  intros [Hb Hmax] Hc. destruct (Z.eqb_spec c (PATTERN !!! state)) as [->|Hne].
  - destruct Hc as [|Hlt]; [done|]. split; [by apply border_snoc|]. intros [|k] Hk; [lia|].
    apply border_snoc in Hk as [Hk _]; [|apply Hk]. specialize (Hmax _ Hk). lia.
  - assert (forall k, is_border (text ++ [c]) (S k) -> k = 0%nat /\ c = 107) as Hone.
    { intros k Hk. apply border_snoc in Hk as [Hk Ec]; [|apply Hk].
      assert (k <> state) by (intros ->; done). pose proof (Hmax _ Hk).
      pose proof (borders_nested text k state Hk Hb ltac:(lia)) as ->. by split. }
    destruct (Z.eqb_spec c 107) as [->|Hn].
    + split; [apply border_snoc; [simpl; lia|]; split; [apply border_nil|done]|].
      intros [|k] Hk; [lia|]. destruct (Hone k Hk). lia.
    + split; [apply border_nil|]. intros [|k] Hk; [lia|]. by destruct (Hone k Hk).
Qed.

Lemma mentions_snoc (bytes : list Z) (c : Z) :
  mentions_panic (bytes ++ [c]) <-> mentions_panic bytes \/ (is_border (to_lower <$> bytes) 11 /\ to_lower c = PATTERN !!! 11%nat).
Proof.
  unfold mentions_panic. rewrite fmap_app. split.
  - intros (before & after & E). destruct after as [|x after _] using rev_ind.
    + rewrite app_nil_r in E. right. by eapply pattern_snoc.
    + left. rewrite !app_assoc in E. apply app_inj_tail in E as [E _]. exists before, after. by rewrite E, app_assoc.
  - intros [(before & after & E)|[[_ [before E]] Ec]].
    + exists before, (after ++ (to_lower <$> [c])). by rewrite E, !app_assoc.
    + exists before, []. rewrite E, app_nil_r, <-app_assoc. f_equal. cbn [fmap list_fmap]. by rewrite Ec.
Qed.

Lemma check_char_step (u : Uart) (c : Z) (text : list Z) :
  watching (panic_match_state u) text ->
  let r := uart_check_char_for_panic u c in
  (to_lower c = PATTERN !!! 11%nat /\ panic_match_state u = 11%nat /\ r.1 = true /\ panic_detected r.2 = true) \/
  (~ (to_lower c = PATTERN !!! 11%nat /\ panic_match_state u = 11%nat) /\ r.1 = false /\
   panic_detected r.2 = panic_detected u /\ watching (panic_match_state r.2) (text ++ [to_lower c])).
Proof.
  intros Hw. cbv zeta. pose proof (watching_next (panic_match_state u) text (to_lower c) Hw) as Hn.
  pose proof (proj1 (proj1 Hw)) as Hlt. unfold uart_check_char_for_panic.
  destruct (Z.eqb_spec (to_lower c) (PATTERN !!! panic_match_state u)) as [E|E].
  - change (panic_match_state (u <| panic_match_state := ?v |>)) with v.
    destruct (Nat.eqb_spec (panic_match_state u + 1) (length PATTERN)) as [El|El].
    + left. assert (panic_match_state u = 11%nat) as E11 by (simpl in El; lia). rewrite E11 in E. done.
    + right. assert (S (panic_match_state u) < length PATTERN)%nat as Hs by lia. specialize (Hn (or_intror Hs)).
      split; [|split; [done|split; [done|]]].
      * intros [_ E11]. simpl in Hs. lia.
      * change (panic_match_state (false, u <| panic_match_state := (panic_match_state u + 1)%nat |>).2) with (panic_match_state u + 1)%nat.
        by rewrite Nat.add_1_r.
  - right. specialize (Hn (or_introl E)). split; [intros [Ec E11]; by rewrite E11 in E|].
    destruct (to_lower c =? 107); by split.
Qed.
(** Transmission with the latch closed. *)
Lemma write_thr_panic (u : Uart) (c : Z) :
  dlab_set u = false ->
  let u' := write_thr_or_dll u c in
  dlab_set u' = false /\ panic_detected u' = panic_detected (uart_check_char_for_panic u c).2 /\
  panic_match_state u' = panic_match_state (uart_check_char_for_panic u c).2.
Proof.
  intros Hd. cbv zeta. unfold write_thr_or_dll. rewrite Hd.
  assert (lcr (uart_check_char_for_panic u c).2 = lcr u) as Hl.
  { unfold uart_check_char_for_panic. destruct (_ =? _); [by destruct (_ =? _)%nat|by destruct (_ =? _)]. }
  destruct (uart_check_char_for_panic u c) as [m u1]. cbn [snd] in *. unfold dlab_set in *.
  destruct m; [by rewrite Hl|]. by destruct (quiet u1); rewrite <-Hd, <-Hl.
Qed.
Lemma check_char_sticky (u : Uart) (c : Z) :
  panic_detected u = true -> panic_detected (uart_check_char_for_panic u c).2 = true.
Proof. intros H. unfold uart_check_char_for_panic. destruct (_ =? _); [by destruct (_ =? _)%nat|by destruct (_ =? _)]. Qed.

(** The panic watch is exact.  From a fresh port, whatever the guest
    transmits with the divisor latch closed, the port reports a kernel panic
    exactly when the text transmitted so far contains "kernel panic" in any mix
    of cases; the automaton with its one fallback misses no occurrence. *)
Theorem uart_panic_exact (base_addr : Z) (err q : bool) (bytes : list Z) :
  uart_check_kernel_panic (uart_transmit (uart_new base_addr err q) bytes) = true <-> mentions_panic bytes.
Proof.
  assert (let u := uart_transmit (uart_new base_addr err q) bytes in
    dlab_set u = false /\
    (panic_detected u = true /\ mentions_panic bytes \/
     panic_detected u = false /\ ~ mentions_panic bytes /\ watching (panic_match_state u) (to_lower <$> bytes))) as [_ H].
  { induction bytes as [|c bytes IH] using rev_ind.
    - split; [done|]. right. split; [done|]. split.
      + intros (before & after & E). by destruct before.
      + split; [apply border_nil|]. intros k [Hk [before E]]. destruct k; [lia|]. by destruct before.
    - unfold uart_transmit in *. rewrite foldl_snoc. set (u := foldl _ _ _) in *. clearbody u. cbv zeta in *.
      destruct IH as [Hd IH]. destruct (write_thr_panic u c Hd) as (Hd' & Ed & Es). split; [exact Hd'|]. rewrite Ed, Es, mentions_snoc.
      destruct IH as [[Hp Hm]|(Hp & Hm & Hw)]; [left; split; [by apply check_char_sticky|by left]|].
      destruct (check_char_step u c _ Hw) as [(Ec & E11 & _ & Hdet)|(Hno & _ & Hdet & Hw')].
      + left. split; [done|]. right. split; [|done]. rewrite <-E11. apply Hw.
      + right. rewrite Hdet. split; [done|]. split; [|by rewrite fmap_app].
        intros [?|[Hb Ec]]; [done|]. apply Hno. split; [done|]. pose proof (proj2 Hw _ Hb). pose proof (proj1 (proj1 Hw)) as Hlt.
        simpl in Hlt. lia. }
  unfold uart_check_kernel_panic. destruct H as [[-> ?]|[-> [? ?]]]; done.
Qed.

(** A false start and capitals. *)
Example uart_panic_demo :
  uart_check_kernel_panic (uart_transmit (uart_new 0 false true) [107; 101; 114; 75; 69; 82; 78; 69; 76; 32; 112; 97; 110; 105; 99; 33]) = true.
Proof. by vm_compute. Qed.
