(* ===== verification/VirtioDisk.v ===== *)
(** The block device ([soc/devices/virtio_disk.rs]): registers, DMA, the walk of
    a descriptor chain, requests, and the processing of the queue.  A guest can
    make the walk endless; whether it ends is decided within as many steps as
    there are descriptor indices. *)
From S2P Require Import Prelude StoreBufferSpec WriteBuffer Soc.
Set Primitive Projections.
Local Open Scope Z_scope.

Definition DESC_SIZE : Z := 16.
Definition VRING_DESC_F_NEXT : Z := 1.
Definition VRING_DESC_F_WRITE : Z := 2.
Definition SECTOR_SIZE : Z := 512.
Definition QUEUE_NUM_MAX_VALUE : Z := 16.

(** The RAM of the record is the shared DRAM buffer. *)
Record VirtioBlock := {
  vb_base_addr : Z; vb_ram_base : Z; disk_image : list Z;
  vb_status : Z; queue_num : Z; queue_ready : Z; queue_notify : Z;
  queue_desc_low : Z; queue_desc_high : Z; queue_avail_low : Z; queue_avail_high : Z;
  queue_used_low : Z; queue_used_high : Z;
  interrupt_status : Z; last_avail_idx : Z; device_features_sel : Z; driver_features_sel : Z
}.
Definition virtio_new (base_addr ram_base : Z) : VirtioBlock :=
  Build_VirtioBlock base_addr ram_base [] 0 0 0 0 0 0 0 0 0 0 0 0 0 0.
Definition virtio_load (self : VirtioBlock) (data : list Z) : VirtioBlock := self <| disk_image := data |>.

(** * DMA *)

(** [offset + len] bytes of RAM are there. *)
Definition dma_in_bounds (self : VirtioBlock) (sh : Shared) (addr len : Z) : bool :=
  (vb_ram_base self <=? addr) &&
  (let offset := addr - vb_ram_base self in
   (offset <? db_size (sh_dram sh)) && (offset + len <=? db_size (sh_dram sh))).
Definition dma_read (self : VirtioBlock) (sh : Shared) (addr : Z) (len : nat) : list Z :=
  if dma_in_bounds self sh addr (Z.of_nat len)
  then (fun k => db_byte (sh_dram sh) (addr - vb_ram_base self + Z.of_nat k)) <$> seq 0 len
  else replicate len 0.
(** [from_le_bytes] *)
Definition le_value (bytes : list Z) : Z := foldr (fun b acc => b + 256 * acc) 0 bytes.
Definition le_bytes (n : nat) (v : Z) : list Z := le_byte v <$> seq 0 n.
Definition dma_read_le (self : VirtioBlock) (sh : Shared) (addr : Z) (n : nat) : Z := le_value (dma_read self sh addr n).

Definition db_write_slice (b : DramBuffer) (offset : Z) (data : list Z) : DramBuffer :=
  b <| db_bytes := foldl (fun m kd => <[offset + Z.of_nat kd.1 := kd.2]> m) (db_bytes b) (zip (seq 0 (length data)) data) |>.
(** Out of bounds the device prints a line and drops the data. *)
Definition dma_write (self : VirtioBlock) (sh : Shared) (addr : Z) (data : list Z) : Shared :=
  if dma_in_bounds self sh addr (Z.of_nat (length data))
  then sh <| sh_dram := db_write_slice (sh_dram sh) (addr - vb_ram_base self) data |> else sh.

(** * Descriptors *)

Record Descriptor := { dsc_addr : Z; dsc_len : Z; dsc_flags : Z }.
Definition ring_addr (high low : Z) : Z := Z.lor (shl64 high 32) low.
Definition desc_addr (self : VirtioBlock) : Z := ring_addr (queue_desc_high self) (queue_desc_low self).

(** The descriptor at an index and the index of the next one. *)
Definition read_descriptor (self : VirtioBlock) (sh : Shared) (idx : Z) : Descriptor * Z :=
  let addr_offset := add64 (desc_addr self) (idx * DESC_SIZE) in
  let addr := dma_read_le self sh addr_offset 8 in
  let len := dma_read_le self sh (add64 addr_offset 8) 4 in
  let flags := dma_read_le self sh (add64 addr_offset 12) 2 in
  let next := dma_read_le self sh (add64 addr_offset 14) 2 in
  ({| dsc_addr := addr; dsc_len := len; dsc_flags := flags |}, next).

(** [loop]; [None] when the fuel runs out. *)
Fixpoint walk_chain (fuel : nat) (self : VirtioBlock) (sh : Shared) (current_idx : Z) (descriptors : list Descriptor)
    : option (list Descriptor) :=
  match fuel with
  | O => None
  | S fuel' =>
      if queue_num self <=? current_idx then Some descriptors
      else
        let '(d, next) := read_descriptor self sh current_idx in
        let descriptors := descriptors ++ [d] in
        if negb (has_bits (dsc_flags d) VRING_DESC_F_NEXT) then Some descriptors
        else walk_chain fuel' self sh next descriptors
  end.
(** There are 65536 indices. *)
Definition CHAIN_FUEL : nat := Z.to_nat 65536.

(** * Requests *)

(** The data descriptors, between the header and the status. *)
Definition data_descriptors (ds : list Descriptor) : list Descriptor := take (length ds - 2) (drop 1 ds).

Record Transfer := { tf_offset : Z; tf_written : Z; tf_disk : list Z; tf_shared : Shared }.
Definition disk_write (disk : list Z) (offset : Z) (data : list Z) : list Z :=
  take (Z.to_nat offset) disk ++ data ++ drop (Z.to_nat offset + length data) disk.
Definition write_data (self : VirtioBlock) (t : Transfer) (d : Descriptor) : Transfer :=
  let data := dma_read self (tf_shared t) (dsc_addr d) (Z.to_nat (dsc_len d)) in
  let t := if add64 (tf_offset t) (Z.of_nat (length data)) <=? Z.of_nat (length (tf_disk t))
           then t <| tf_disk := disk_write (tf_disk t) (tf_offset t) data |> else t in
  t <| tf_offset := add64 (tf_offset t) (dsc_len d) |> <| tf_written := u32 (tf_written t + dsc_len d) |>.
(** [tf_offset] is the position on the disk. *)
Definition read_data (self : VirtioBlock) (t : Transfer) (d : Descriptor) : Transfer :=
  let t := if has_bits (dsc_flags d) VRING_DESC_F_WRITE && (tf_offset t <? Z.of_nat (length (tf_disk t))) then
             let available := Z.of_nat (length (tf_disk t)) - tf_offset t in
             let copy_len := Z.min (dsc_len d) available in
             let data := take (Z.to_nat copy_len) (drop (Z.to_nat (tf_offset t)) (tf_disk t)) in
             t <| tf_shared := dma_write self (tf_shared t) (dsc_addr d) data |>
               <| tf_written := u32 (tf_written t + u32 copy_len) |>
           else t in
  t <| tf_offset := add64 (tf_offset t) (dsc_len d) |>.

Definition descriptor_at (ds : list Descriptor) (i : nat) : Descriptor := default (Build_Descriptor 0 0 0) (ds !! i).
(** A request of at least three descriptors: bytes transferred, disk and memory. *)
Definition run_request (self : VirtioBlock) (sh : Shared) (ds : list Descriptor) : Transfer :=
  let header := dma_read self sh (dsc_addr (descriptor_at ds 0)) 16 in
  let type_val := le_value (take 4 header) in
  let sector := le_value (take 8 (drop 8 header)) in
  let sector_offset := u64 (sector * SECTOR_SIZE) in
  let t := {| tf_offset := sector_offset; tf_written := 0; tf_disk := disk_image self; tf_shared := sh |} in
  let t := if type_val =? 4 then t
           else if type_val =? 1 then foldl (write_data self) t (data_descriptors ds)
           else foldl (read_data self) t (data_descriptors ds) in
  t <| tf_shared := dma_write self (tf_shared t) (dsc_addr (descriptor_at ds (length ds - 1))) [0] |>.

(** * The queue *)

Definition avail_addr (self : VirtioBlock) : Z := ring_addr (queue_avail_high self) (queue_avail_low self).
Definition used_addr (self : VirtioBlock) : Z := ring_addr (queue_used_high self) (queue_used_low self).
Definition next_avail (self : VirtioBlock) : VirtioBlock := self <| last_avail_idx := u16 (last_avail_idx self + 1) |>.

(** The entry of the used ring. *)
Definition push_used (self : VirtioBlock) (sh : Shared) (head_idx len_written : Z) : Shared :=
  let used_idx_addr := add64 (used_addr self) 2 in
  let current_used := dma_read_le self sh used_idx_addr 2 in
  let used_elem := add64 (used_addr self) (4 + current_used mod queue_num self * 8) in
  let sh := dma_write self sh used_elem (le_bytes 4 head_idx) in
  let sh := dma_write self sh (add64 used_elem 4) (le_bytes 4 len_written) in
  dma_write self sh used_idx_addr (le_bytes 2 (u16 (current_used + 1))).

(** One turn of the [while]; [None] when the chain is endless. *)
Definition serve_next (self : VirtioBlock) (sh : Shared) : option (VirtioBlock * Shared) :=
  let ring_offset := 4 + last_avail_idx self mod queue_num self * 2 in
  let head_idx := dma_read_le self sh (add64 (avail_addr self) ring_offset) 2 in
  if queue_num self <=? head_idx then Some (next_avail self, sh)
  else
    match walk_chain CHAIN_FUEL self sh head_idx [] with
    | None => None
    | Some descriptors =>
        let '(self, sh, len_written) :=
          if (3 <=? length descriptors)%nat then
            let t := run_request self sh descriptors in
            (self <| disk_image := tf_disk t |>, tf_shared t, tf_written t)
          else (self, sh, 0) in
        Some (next_avail self, push_used self sh head_idx len_written)
    end.

(** [while self.last_avail_idx != avail_idx]: 65536 turns pass every index. *)
Fixpoint serve_all (fuel : nat) (avail_idx : Z) (self : VirtioBlock) (sh : Shared) : option (VirtioBlock * Shared) :=
  match fuel with
  | O => None
  | S fuel' =>
      if last_avail_idx self =? avail_idx then Some (self, sh)
      else match serve_next self sh with
           | None => None
           | Some (self, sh) => serve_all fuel' avail_idx self sh
           end
  end.
Definition process_queue (self : VirtioBlock) (sh : Shared) : option (VirtioBlock * Shared) :=
  if queue_num self =? 0 then Some (self, sh)
  else
    let avail_idx := dma_read_le self sh (add64 (avail_addr self) 2) 2 in
    match serve_all (Z.to_nat 65536) avail_idx self sh with
    | None => None
    | Some (self, sh) => Some (self <| interrupt_status := Z.lor (interrupt_status self) 1 |>, sh)
    end.

(** * Registers *)

Definition virtio_read_u32 (self : VirtioBlock) (offset : Z) : Z :=
  let sectors := Z.of_nat (length (disk_image self)) / SECTOR_SIZE in
  if offset =? 0x00 then 0x74726976
  else if offset =? 0x04 then 2
  else if offset =? 0x08 then 2
  else if offset =? 0x0c then 0x554d4551
  else if offset =? 0x10 then (if device_features_sel self =? 1 then 1 else 0)
  else if offset =? 0x34 then QUEUE_NUM_MAX_VALUE
  else if offset =? 0x44 then queue_ready self
  else if offset =? 0x60 then interrupt_status self
  else if offset =? 0x70 then vb_status self
  else if offset =? 0x100 then u32 sectors
  else if offset =? 0x104 then u32 (Z.shiftr sectors 32)
  else 0.
(** A descriptor chain that does not end is never left. *)
Definition virtio_write_u32 (self : VirtioBlock) (offset val : Z) (sh : Shared) : VirtioBlock * Shared :=
  if offset =? 0x14 then (self <| device_features_sel := val |>, sh)
  else if offset =? 0x24 then (self <| driver_features_sel := val |>, sh)
  else if offset =? 0x38 then (self <| queue_num := val |>, sh)
  else if offset =? 0x44 then (self <| queue_ready := val |>, sh)
  else if offset =? 0x50 then
    let self := self <| queue_notify := val |> in
    match process_queue self sh with Some r => r | None => (self, hang sh) end
  else if offset =? 0x64 then (self <| interrupt_status := Z.ldiff (interrupt_status self) val |>, sh)
  else if offset =? 0x70 then (self <| vb_status := val |>, sh)
  else if offset =? 0x80 then (self <| queue_desc_low := val |>, sh)
  else if offset =? 0x84 then (self <| queue_desc_high := val |>, sh)
  else if offset =? 0x90 then (self <| queue_avail_low := val |>, sh)
  else if offset =? 0x94 then (self <| queue_avail_high := val |>, sh)
  else if offset =? 0xa0 then (self <| queue_used_low := val |>, sh)
  else if offset =? 0xa4 then (self <| queue_used_high := val |>, sh)
  else (self, sh).
Definition virtio_read (self : VirtioBlock) (s : AccessSize) (offset : Z) : Z :=
  let aligned := Z.land offset (not64 3) in
  let shift := Z.land offset 3 * 8 in
  match s with
  | U8 => u8 (Z.shiftr (virtio_read_u32 self aligned) shift)
  | U16 => u16 (Z.shiftr (virtio_read_u32 self aligned) shift)
  | U32 | U64 => virtio_read_u32 self offset
  end.
Definition virtio_write (self : VirtioBlock) (s : AccessSize) (offset val : Z) (sh : Shared) : VirtioBlock * Shared :=
  match s with
  | U8 | U16 => virtio_write_u32 self (Z.land offset (not64 3)) val sh
  | U32 => virtio_write_u32 self offset val sh
  | U64 => virtio_write_u32 self offset (u32 val) sh
  end.
Definition virtio_tick (self : VirtioBlock) : bool := has_bits (interrupt_status self) 1.

(** * Memory *)

Lemma db_byte_write (b : DramBuffer) (offset i : Z) (data : list Z) :
  db_byte (db_write_slice b offset data) i =
  if (offset <=? i) && (i <? offset + Z.of_nat (length data)) then data !!! Z.to_nat (i - offset) else db_byte b i.
Proof.
  unfold db_byte, db_write_slice. change (db_bytes (b <| db_bytes := ?f |>)) with f.
  induction data as [|x data IH] using rev_ind.
  - cbn. case_bool; [|done]. to_prop. lia.
  - rewrite length_app, seq_app, zip_with_app, foldl_app by by rewrite length_seq. cbn [length seq zip zip_with foldl Nat.add fst snd].
    destruct (decide (i = offset + Z.of_nat (length data))) as [->|Hne].
    + rewrite lookup_insert_eq. cbn [default]. rewrite (proj2 (Z.leb_le _ _)), (proj2 (Z.ltb_lt _ _)) by lia. cbn [andb].
      rewrite lookup_total_app_r by lia. by replace (Z.to_nat (offset + Z.of_nat (length data) - offset) - length data)%nat with 0%nat by lia.
    + rewrite lookup_insert_ne by done. rewrite IH.
      destruct (Z.leb_spec offset i), (Z.ltb_spec i (offset + Z.of_nat (length data))),
        (Z.ltb_spec i (offset + Z.of_nat (length data + 1))); cbn [andb]; try lia; try done.
      by rewrite lookup_total_app_l by lia.
Qed.

Lemma dma_read_length self sh addr len : length (dma_read self sh addr len) = len.
Proof. unfold dma_read. destruct (dma_in_bounds _ _ _ _); by rewrite ?length_fmap, ?length_seq, ?length_replicate. Qed.

Lemma dma_write_bounds self sh addr data addr' len :
  dma_in_bounds self (dma_write self sh addr data) addr' len = dma_in_bounds self sh addr' len.
Proof. unfold dma_write. by destruct (dma_in_bounds self sh addr _). Qed.

Lemma dma_write_disk self sh addr data addr' len v :
  dma_in_bounds (self <| disk_image := v |>) (dma_write self sh addr data) addr' len = dma_in_bounds self sh addr' len.
Proof. apply (dma_write_bounds self). Qed.

(** What was written is read back. *)
Lemma dma_read_write self sh addr data :
  dma_in_bounds self sh addr (Z.of_nat (length data)) = true -> dma_read self (dma_write self sh addr data) addr (length data) = data.
Proof.
  intros Hb. unfold dma_read. rewrite dma_write_bounds, Hb. unfold dma_write. rewrite Hb.
  apply list_eq. intros i. rewrite list_lookup_fmap. destruct (decide (i < length data)%nat) as [Hi|Hi].
  - rewrite lookup_seq_lt by done. cbn [option_map fmap option_fmap].
    change (sh_dram (sh <| sh_dram := ?d |>)) with d. rewrite db_byte_write.
    rewrite (proj2 (Z.leb_le _ _)), (proj2 (Z.ltb_lt _ _)) by lia. cbn [andb].
    rewrite (lookup_total_Some data i Hi). do 2 f_equal. lia.
  - rewrite lookup_seq_ge by lia. symmetry. apply lookup_ge_None_2. lia.
Qed.

(** Ranges of addresses that do not meet. *)
Definition apart (a1 n1 a2 n2 : Z) : Prop := a1 + n1 <= a2 \/ a2 + n2 <= a1.
#[export] Instance apart_dec a1 n1 a2 n2 : Decision (apart a1 n1 a2 n2).
Proof. unfold apart. apply _. Defined.

Lemma dma_read_apart self sh addr data addr' len :
  apart addr (Z.of_nat (length data)) addr' (Z.of_nat len) ->
  dma_read self (dma_write self sh addr data) addr' len = dma_read self sh addr' len.
Proof.
  intros Ha. unfold dma_read. rewrite dma_write_bounds. destruct (dma_in_bounds self sh addr' _); [|done].
  unfold dma_write. destruct (dma_in_bounds self sh addr _); [|done].
  apply list_fmap_ext. intros i k Hk. apply lookup_seq in Hk as [-> Hi].
  change (sh_dram (sh <| sh_dram := ?d |>)) with d. rewrite db_byte_write. unfold apart in Ha.
  destruct (Z.leb_spec (addr - vb_ram_base self) (addr' - vb_ram_base self + Z.of_nat (0 + i))),
    (Z.ltb_spec (addr' - vb_ram_base self + Z.of_nat (0 + i)) (addr - vb_ram_base self + Z.of_nat (length data))); done || lia.
Qed.

(** * A sector written is the sector read *)

(** A three-descriptor request: its header says what to do and where. *)
Record Request (self : VirtioBlock) (sh : Shared) (type_val offset : Z) (h d : Descriptor) : Prop := {
  rq_type : le_value (take 4 (dma_read self sh (dsc_addr h) 16)) = type_val;
  rq_sector : u64 (le_value (take 8 (drop 8 (dma_read self sh (dsc_addr h) 16))) * SECTOR_SIZE) = offset;
  rq_len : 0 < dsc_len d < 2 ^ 32;
  rq_offset : offset + dsc_len d < 2 ^ 63;
  rq_fits : offset + dsc_len d <= Z.of_nat (length (disk_image self));
  rq_buffer : dma_in_bounds self sh (dsc_addr d) (dsc_len d) = true
}.
Lemma request_offset self sh type_val offset h d : Request self sh type_val offset h d -> 0 <= offset.
Proof. intros [_ <- _ _ _ _]. apply wrap_range. lia. Qed.

Lemma disk_write_length disk offset data :
  0 <= offset -> offset + Z.of_nat (length data) <= Z.of_nat (length disk) -> length (disk_write disk offset data) = length disk.
Proof. intros. unfold disk_write. rewrite !length_app, length_take, length_drop. lia. Qed.
Lemma disk_write_read disk offset data :
  0 <= offset -> offset + Z.of_nat (length data) <= Z.of_nat (length disk) ->
  take (length data) (drop (Z.to_nat offset) (disk_write disk offset data)) = data.
Proof.
  intros. unfold disk_write. assert (length (take (Z.to_nat offset) disk) = Z.to_nat offset) as Hl by (rewrite length_take; lia).
  rewrite drop_app_length' by done. by rewrite take_app_length.
Qed.

Lemma run_write self sh offset h d s :
  Request self sh 1 offset h d ->
  let t := run_request self sh [h; d; s] in
  tf_disk t = disk_write (disk_image self) offset (dma_read self sh (dsc_addr d) (Z.to_nat (dsc_len d))) /\
  tf_written t = dsc_len d.
Proof.
  intros Hr. pose proof (request_offset _ _ _ _ _ _ Hr) as H0. destruct Hr as [Ht Hs Hl Ho Hf Hb]. cbv zeta. unfold run_request.
  cbn [descriptor_at lookup list_lookup default length data_descriptors take drop Nat.sub from_option id].
  rewrite Ht, Hs. cbn [Z.eqb Pos.eqb foldl]. unfold write_data. cbn [tf_offset tf_disk tf_shared tf_written].
  rewrite dma_read_length. unfold add64. rewrite Z2Nat.id by lia.
  assert (u64 (offset + dsc_len d) = offset + dsc_len d) as -> by (apply wrap_small; unfold in_width; lia).
  rewrite (proj2 (Z.leb_le _ _)) by done. split; [done|]. cbn. apply wrap_small. unfold in_width. lia.
Qed.

Lemma run_read self sh offset h d s :
  Request self sh 0 offset h d -> has_bits (dsc_flags d) VRING_DESC_F_WRITE = true ->
  apart (dsc_addr d) (dsc_len d) (dsc_addr s) 1 ->
  let t := run_request self sh [h; d; s] in
  dma_read self (tf_shared t) (dsc_addr d) (Z.to_nat (dsc_len d)) =
    take (Z.to_nat (dsc_len d)) (drop (Z.to_nat offset) (disk_image self)) /\
  tf_disk t = disk_image self /\ tf_written t = dsc_len d.
Proof.
  intros Hr Hfl Hap. pose proof (request_offset _ _ _ _ _ _ Hr) as H0. destruct Hr as [Ht Hs Hl Ho Hf Hb]. cbv zeta. unfold run_request.
  cbn [descriptor_at lookup list_lookup default length data_descriptors take drop Nat.sub from_option id].
  rewrite Ht, Hs. cbn [Z.eqb Pos.eqb foldl]. unfold read_data. cbn [tf_offset tf_disk tf_shared tf_written].
  rewrite Hfl, (proj2 (Z.ltb_lt offset _)) by lia. cbn [andb].
  rewrite (Z.min_l (dsc_len d)) by lia. set (data := take _ (drop _ (disk_image self))).
  assert (length data = Z.to_nat (dsc_len d)) as Hdl by (unfold data; rewrite length_take, length_drop; lia).
  split; [|split; [done|]].
  - cbn. rewrite dma_read_apart by (rewrite Z2Nat.id by lia; unfold apart in *; simpl; lia).
    rewrite <-Hdl. apply dma_read_write. rewrite Hdl, Z2Nat.id by lia. exact Hb.
  - cbn. rewrite !wrap_small; [done|..]; unfold in_width; rewrite ?wrap_small; unfold in_width; lia.
Qed.

(** C10. A sector written is the sector read.  After a write request, any later
    read request for the same place and length, whatever memory holds by then,
    leaves in its buffer the bytes the write request's buffer held, and both
    report the length they transferred. *)
Theorem virtio_write_then_read (self : VirtioBlock) (sh sh2 : Shared) (offset : Z) (h d s h2 d2 s2 : Descriptor) :
  Request self sh 1 offset h d ->
  let t := run_request self sh [h; d; s] in
  let self2 := self <| disk_image := tf_disk t |> in
  Request self2 sh2 0 offset h2 d2 -> dsc_len d2 = dsc_len d ->
  has_bits (dsc_flags d2) VRING_DESC_F_WRITE = true -> apart (dsc_addr d2) (dsc_len d2) (dsc_addr s2) 1 ->
  let t2 := run_request self2 sh2 [h2; d2; s2] in
  dma_read self2 (tf_shared t2) (dsc_addr d2) (Z.to_nat (dsc_len d2)) = dma_read self sh (dsc_addr d) (Z.to_nat (dsc_len d)) /\
  tf_written t = dsc_len d /\ tf_written t2 = dsc_len d.
Proof.
  intros Hw t self2 Hr El Hfl Hap. destruct (run_write self sh offset h d s Hw) as [Ed Ew].
  destruct (run_read self2 sh2 offset h2 d2 s2 Hr Hfl Hap) as (Er & _ & Ew2). cbv zeta in *.
  split; [|split; [done|by rewrite Ew2]]. rewrite Er, El. change (disk_image self2) with (tf_disk t). unfold t. rewrite Ed.
  rewrite <-(dma_read_length self sh (dsc_addr d) (Z.to_nat (dsc_len d))) at 1.
  pose proof (request_offset _ _ _ _ _ _ Hw). destruct Hw as [_ _ Hl _ Hf _].
  apply disk_write_read; rewrite ?dma_read_length; lia.
Qed.

(** A two-sector disk; the buffers hold a pattern. *)
Definition demo_disk : VirtioBlock := (virtio_new 0x90000000 0x80000000) <| disk_image := replicate 1024 0 |>.
Definition demo_header (type_val sector : Z) : list Z := le_bytes 4 type_val ++ le_bytes 4 0 ++ le_bytes 8 sector.
Definition demo_ram (header buffer : list Z) : Shared :=
  let sh := {| sh_dram := dram_buffer_new 8192; sh_exit_signal := U64_MAX; sh_host_time := 0; sh_failed := false; sh_hung := false |} in
  dma_write demo_disk (dma_write demo_disk sh 0x80000000 header) 0x80000100 buffer.
Definition demo_pattern : list Z := (fun k => Z.of_nat k mod 251) <$> seq 0 512.
Definition demo_hd : Descriptor := {| dsc_addr := 0x80000000; dsc_len := 16; dsc_flags := 1 |}.
Definition demo_buf (flags : Z) : Descriptor := {| dsc_addr := 0x80000100; dsc_len := 512; dsc_flags := flags |}.
Definition demo_status : Descriptor := {| dsc_addr := 0x80000400; dsc_len := 1; dsc_flags := 2 |}.

Lemma virtio_write_then_read_witness :
  let t := run_request demo_disk (demo_ram (demo_header 1 1) demo_pattern) [demo_hd; demo_buf 1; demo_status] in
  let self2 := demo_disk <| disk_image := tf_disk t |> in
  let t2 := run_request self2 (demo_ram (demo_header 0 1) []) [demo_hd; demo_buf 3; demo_status] in
  dma_read self2 (tf_shared t2) 0x80000100 512 = demo_pattern.
Proof.
  assert (Request demo_disk (demo_ram (demo_header 1 1) demo_pattern) 1 512 demo_hd (demo_buf 1)) as Hw
    by (split; vm_compute; done).
  cbv zeta. set (t := run_request demo_disk _ _).
  assert (Request (demo_disk <| disk_image := tf_disk t |>) (demo_ram (demo_header 0 1) []) 0 512 demo_hd (demo_buf 3)) as Hr
    by (split; vm_compute; done).
  destruct (virtio_write_then_read demo_disk (demo_ram (demo_header 1 1) demo_pattern) (demo_ram (demo_header 0 1) [])
    512 demo_hd (demo_buf 1) demo_status demo_hd (demo_buf 3) demo_status Hw Hr eq_refl eq_refl) as (E & _ & _).
  { apply (bool_decide_unpack _). by vm_compute. }
  refine (eq_trans E _). vm_compute. reflexivity.
Defined.

(** * Endless chains *)

(** The bytes of RAM. *)
Definition ram_bytes_ok (sh : Shared) : Prop := forall i, 0 <= db_byte (sh_dram sh) i < 256.

Section Chain.
Variables (self : VirtioBlock) (sh : Shared).
Hypothesis Hram : ram_bytes_ok sh.

(** The index the walk goes on with. *)
Definition chain_next (idx : Z) : option Z :=
  if queue_num self <=? idx then None
  else let '(d, next) := read_descriptor self sh idx in
       if has_bits (dsc_flags d) VRING_DESC_F_NEXT then Some next else None.

(** The indices visited from [idx] to the end of the chain. *)
Inductive chain_path : Z -> list Z -> Prop :=
| cp_last idx : chain_next idx = None -> chain_path idx [idx]
| cp_step idx j l : chain_next idx = Some j -> chain_path j l -> chain_path idx (idx :: l).

Lemma dma_read_le_range addr n : 0 <= dma_read_le self sh addr n < 256 ^ Z.of_nat n.
Proof.
  unfold dma_read_le. rewrite <-(dma_read_length self sh addr n) at 3.
  assert (Forall (fun b => 0 <= b < 256) (dma_read self sh addr n)) as Hb.
  { unfold dma_read. destruct (dma_in_bounds _ _ _ _); [|by apply Forall_replicate]. apply Forall_fmap, Forall_true. intros k. apply Hram. }
  induction Hb as [|b l Hb Hl IH]; [done|]. cbn [le_value foldr length]. fold (le_value l).
  rewrite Nat2Z.inj_succ, Z.pow_succ_r by lia. lia.
Qed.
Lemma chain_next_range idx j : chain_next idx = Some j -> 0 <= j < 65536.
Proof.
  unfold chain_next, read_descriptor. destruct (_ <=? _); [done|]. cbv zeta.
  destruct (has_bits _ _); [|done]. intros [= <-]. apply (dma_read_le_range _ 2).
Qed.

Lemma chain_path_unique idx l l' : chain_path idx l -> chain_path idx l' -> l = l'.
Proof.
  intros H. revert l'. induction H as [idx H|idx j l H Hp IH]; intros l' H'; inversion H'; subst; try congruence.
  f_equal. apply IH. congruence.
Qed.
(** From a visited index the path goes on in the same way. *)
Lemma chain_path_suffix idx l j : chain_path idx l -> j ∈ l -> exists pre post, l = pre ++ post /\ chain_path j post.
Proof.
  induction 1 as [idx H|idx k l H Hp IH]; intros Hj.
  - apply list_elem_of_singleton in Hj as ->. exists [], [idx]. by split; [|constructor].
  - apply elem_of_cons in Hj as [->|Hj]; [exists [], (idx :: l); split; [done|by econstructor]|].
    destruct (IH Hj) as (pre & post & -> & Hpost). by exists (idx :: pre), post.
Qed.
Lemma chain_path_nodup idx l : chain_path idx l -> NoDup l.
Proof.
  induction 1 as [idx H|idx j l H Hp IH]; [apply NoDup_singleton|]. constructor; [|done]. intros Hin.
  destruct (chain_path_suffix _ _ _ Hp Hin) as (pre & post & -> & Hpost).
  pose proof (chain_path_unique _ _ _ Hpost (cp_step _ _ _ H Hp)) as E.
  apply (f_equal length) in E. simpl in E. rewrite length_app in E. lia.
Qed.
Lemma chain_path_range idx l : chain_path idx l -> 0 <= idx < 65536 -> Forall (fun i => 0 <= i < 65536) l.
Proof. induction 1 as [|idx j l H Hp IH]; intros Hi; constructor; try done. apply IH. by eapply chain_next_range. Qed.

(** A chain that ends visits each index once at most. *)
Lemma chain_path_short idx l : chain_path idx l -> 0 <= idx < 65536 -> (length l <= CHAIN_FUEL)%nat.
Proof.
  intros Hp Hi. pose proof (chain_path_range _ _ Hp Hi) as Hr. pose proof (chain_path_nodup _ _ Hp) as Hn.
  rewrite Forall_forall in Hr. unfold CHAIN_FUEL.
  pose proof (submseteq_length l (seqZ 0 65536)) as Hl. rewrite length_seqZ in Hl. apply Hl.
  apply NoDup_submseteq; [done|]. intros i Hi'. apply elem_of_seqZ. specialize (Hr i Hi'). lia.
Qed.

Lemma walk_chain_path fuel idx acc r :
  walk_chain fuel self sh idx acc = Some r -> exists l, chain_path idx l /\ (length l <= fuel)%nat.
Proof.
  revert idx acc. induction fuel as [|fuel IH]; intros idx acc; [done|]. cbn [walk_chain].
  destruct (queue_num self <=? idx) eqn:Eq.
  - intros _. exists [idx]. split; [|simpl; lia]. constructor. unfold chain_next. by rewrite Eq.
  - destruct (read_descriptor self sh idx) as [d next] eqn:Ed. destruct (has_bits (dsc_flags d) VRING_DESC_F_NEXT) eqn:Ef; cbn [negb].
    + intros Hw. destruct (IH _ _ Hw) as (l & Hl & Hlen). exists (idx :: l). split; [|simpl; lia].
      econstructor; [|done]. unfold chain_next. by rewrite Eq, Ed, Ef.
    + intros _. exists [idx]. split; [|simpl; lia]. constructor. unfold chain_next. by rewrite Eq, Ed, Ef.
Qed.
Lemma walk_chain_enough idx l : chain_path idx l -> forall fuel acc, (length l <= fuel)%nat -> is_Some (walk_chain fuel self sh idx acc).
Proof.
  induction 1 as [idx H|idx j l H Hp IH]; intros [|fuel] acc Hf; simpl in Hf; try lia; cbn [walk_chain]; unfold chain_next in H.
  - destruct (queue_num self <=? idx); [by eexists|]. destruct (read_descriptor self sh idx) as [d next].
    destruct (has_bits _ _); [done|]. by eexists.
  - destruct (queue_num self <=? idx); [done|]. destruct (read_descriptor self sh idx) as [d next].
    destruct (has_bits _ _); [|done]. injection H as ->. apply IH. lia.
Qed.
Lemma walk_chain_mono fuel fuel' idx acc r :
  (fuel <= fuel')%nat -> walk_chain fuel self sh idx acc = Some r -> walk_chain fuel' self sh idx acc = Some r.
Proof.
  revert fuel' idx acc. induction fuel as [|fuel IH]; intros [|fuel'] idx acc Hf; try done; [lia|]. cbn [walk_chain].
  destruct (_ <=? _); [done|]. destruct (read_descriptor _ _ _) as [d next]. destruct (negb _); [done|]. apply IH. lia.
Qed.
End Chain.

(** Whether a descriptor chain ends is decided within 65536 steps, one per
    index: a chain that ends at all, from whatever head, ends in that many with
    the same descriptors; so when the walk of the model runs out of fuel the
    code's loop never ends, and with it the guest's write to the notify register
    never returns. *)
Theorem virtio_chain_decided (self : VirtioBlock) (sh : Shared) (idx : Z) (fuel : nat) (r : list Descriptor) :
  ram_bytes_ok sh -> 0 <= idx < 65536 ->
  walk_chain fuel self sh idx [] = Some r -> walk_chain CHAIN_FUEL self sh idx [] = Some r.
Proof.
  intros Hram Hi Hw. destruct (walk_chain_path self sh _ _ _ _ Hw) as (l & Hp & Hl).
  pose proof (chain_path_short self sh Hram idx l Hp Hi) as Hs.
  destruct (walk_chain_enough self sh idx l Hp CHAIN_FUEL [] Hs) as [r' Hr'].
  destruct (Nat.le_ge_cases fuel CHAIN_FUEL) as [Hle|Hge]; [by apply (walk_chain_mono self sh fuel)|].
  pose proof (walk_chain_mono self sh _ _ _ _ _ Hge Hr') as E. rewrite Hw in E. by injection E as <-.
Qed.

(** A table of two descriptors at the start of RAM, the first chained to the second. *)
Definition chain_disk : VirtioBlock :=
  demo_disk <| queue_num := 8 |> <| queue_desc_low := 0x80000000 |>.
Definition chain_ram : Shared :=
  demo_ram (le_bytes 8 0x80000100 ++ le_bytes 4 16 ++ le_bytes 2 1 ++ le_bytes 2 1 ++
            le_bytes 8 0x80000200 ++ le_bytes 4 512 ++ le_bytes 2 2 ++ le_bytes 2 0) [].
Lemma virtio_chain_decided_witness :
  walk_chain CHAIN_FUEL chain_disk chain_ram 0 [] =
    Some [ {| dsc_addr := 0x80000100; dsc_len := 16; dsc_flags := 1 |};
           {| dsc_addr := 0x80000200; dsc_len := 512; dsc_flags := 2 |} ].
Proof.
  assert (map_Forall (fun _ v => 0 <= v < 256) (db_bytes (sh_dram chain_ram))) as Hm
    by (apply (bool_decide_unpack _); by vm_compute).
  apply (virtio_chain_decided chain_disk chain_ram 0 2); [|lia|vm_compute; reflexivity].
  intros i. unfold db_byte. destruct (_ !! i) as [v|] eqn:E; [exact (Hm i v E)|simpl; lia].
Defined.

(** A descriptor that names itself as the next one never ends. *)
Lemma self_chain_endless (self : VirtioBlock) (sh : Shared) (idx : Z) (d : Descriptor) fuel acc :
  idx < queue_num self -> read_descriptor self sh idx = (d, idx) -> has_bits (dsc_flags d) VRING_DESC_F_NEXT = true ->
  walk_chain fuel self sh idx acc = None.
Proof.
  intros Hq Hd Hf. revert acc. induction fuel as [|fuel IH]; intros acc; [done|]. cbn [walk_chain].
  rewrite (proj2 (Z.leb_gt _ _)), Hd, Hf by done. apply IH.
Qed.
