(* ===== verification/Plic.v ===== *)
(** The platform-level interrupt controller ([soc/devices/plic.rs]): pending
    and enable bitmaps, priorities and thresholds, and the selection of the
    interrupt each context claims. *)
From S2P Require Import Prelude Soc.
Set Primitive Projections.
Local Open Scope Z_scope.

Abbreviation U32_MAX := 4294967295%Z.

Definition PLIC_PRIORITY_BASE : Z := 0x000000.
Definition PLIC_PENDING_BASE : Z := 0x001000.
Definition PLIC_ENABLE_BASE : Z := 0x002000.
Definition PLIC_CONTEXT_BASE : Z := 0x200000.
Definition NUM_CONTEXTS : nat := 2.
Definition ENABLE_WORDS_PER_CONTEXT : nat := 32.

Record Plic := {
  plic_base_addr : Z;
  priorities : list Z;
  pending : list Z;
  enables : list (list Z);
  thresholds : list Z;
  claims : list Z
}.

Definition plic_new (base_addr : Z) : Plic := {|
  plic_base_addr := base_addr;
  priorities := replicate 1024 0; pending := replicate 32 0;
  enables := replicate NUM_CONTEXTS (replicate ENABLE_WORDS_PER_CONTEXT 0);
  thresholds := replicate NUM_CONTEXTS 0; claims := replicate NUM_CONTEXTS 0 |}.

Definition update_irqs (self : Plic) (mask : Z) : Plic :=
  self <| pending := <[1%nat := u32 (Z.shiftr mask 32)]> (<[O := u32 (Z.land mask 0xFFFFFFFF)]> (pending self)) |>.

Definition plic_num_words (self : Plic) (ctx : nat) : nat :=
  length (pending self) `min` length (enables self !!! ctx).
Definition plic_active (self : Plic) (ctx word : nat) : Z :=
  Z.land (pending self !!! word) ((enables self !!! ctx) !!! word).

Definition has_qualified_irq (self : Plic) (ctx : nat) : bool :=
  let threshold := (thresholds self !!! ctx) in
  after_loop
    (list_scan (fun word 'tt =>
       let active := plic_active self ctx word in
       if active =? 0 then Continue tt else
       list_scan (fun bit 'tt =>
         let irq_id := (word * 32 + bit)%nat in
         if (irq_id =? 0)%nat then Continue tt
         else if has_bits active (Z.shiftl 1 (Z.of_nat bit)) && (irq_id <? length (priorities self))%nat
                 && (threshold <? priorities self !!! irq_id)
         then Return true else Continue tt) (seq 0 32) tt)
       (seq 0 (plic_num_words self ctx)) tt)
    (fun _ => false).

Definition calc_max_id (self : Plic) (ctx : nat) : Z :=
  let threshold := thresholds self !!! ctx in
  (foldl (fun acc word =>
     let active := plic_active self ctx word in
     if active =? 0 then acc else
     foldl (fun '(max_prio, max_id) bit =>
       let irq_id := (word * 32 + bit)%nat in
       if (irq_id =? 0)%nat then (max_prio, max_id)
       else if has_bits active (Z.shiftl 1 (Z.of_nat bit)) && (irq_id <? length (priorities self))%nat then
         let prio := priorities self !!! irq_id in
         if (max_prio <? prio) && (threshold <? prio) then (prio, Z.of_nat irq_id) else (max_prio, max_id)
       else (max_prio, max_id)) acc (seq 0 32))
     (0, 0) (seq 0 (plic_num_words self ctx))).2.

Definition plic_check_ctx (self : Plic) (ctx : nat) : bool * Plic :=
  if has_qualified_irq self ctx
  then (true, self <| claims := <[ctx := calc_max_id self ctx]> (claims self) |>)
  else (false, self <| claims := <[ctx := 0]> (claims self) |>).
Definition plic_check_interrupts (self : Plic) : bool * bool * Plic :=
  let '(meip, self) := plic_check_ctx self 0 in
  let '(seip, self) := plic_check_ctx self 1 in
  (meip, seip, self).

(** Both claiming and completing clear the pending bit. *)
Definition clear_pending (self : Plic) (irq_id : Z) : Plic :=
  if (0 <? irq_id) && (irq_id <? 1024) then
    let idx := Z.to_nat (irq_id / 32) in
    let bit := Z.shiftl 1 (irq_id mod 32) in
    if (idx <? length (pending self))%nat
    then self <| pending := <[idx := Z.land (pending self !!! idx) (U32_MAX - bit)]> (pending self) |>
    else self
  else self.

Definition plic_read_u32 (self : Plic) (offset : Z) : Z * Plic :=
  if (PLIC_PRIORITY_BASE <=? offset) && (offset <? PLIC_PENDING_BASE) then
    let idx := Z.to_nat ((offset - PLIC_PRIORITY_BASE) / 4) in
    (if (idx <? length (priorities self))%nat then priorities self !!! idx else 0, self)
  else if (PLIC_PENDING_BASE <=? offset) && (offset <? PLIC_ENABLE_BASE) then
    let idx := Z.to_nat ((offset - PLIC_PENDING_BASE) / 4) in
    (if (idx <? length (pending self))%nat then pending self !!! idx else 0, self)
  else if (PLIC_ENABLE_BASE <=? offset) && (offset <? PLIC_CONTEXT_BASE) then
    let rel := offset - PLIC_ENABLE_BASE in
    let ctx := Z.to_nat (rel / 0x80) in
    let word_idx := Z.to_nat ((rel mod 0x80) / 4) in
    (if (ctx <? NUM_CONTEXTS)%nat && (word_idx <? ENABLE_WORDS_PER_CONTEXT)%nat
     then (enables self !!! ctx) !!! word_idx else 0, self)
  else if PLIC_CONTEXT_BASE <=? offset then
    let ctx := Z.to_nat ((offset - PLIC_CONTEXT_BASE) / 0x1000) in
    let reg := Z.land offset 0xFFF in
    if (ctx <? 2)%nat then
      if reg =? 0 then (thresholds self !!! ctx, self)
      else if reg =? 4 then let irq_id := claims self !!! ctx in (irq_id, clear_pending self irq_id)
      else (0, self)
    else (0, self)
  else (0, self).

Definition plic_write_u32 (self : Plic) (offset val : Z) : Plic :=
  if (PLIC_PRIORITY_BASE <=? offset) && (offset <? PLIC_PENDING_BASE) then
    let idx := Z.to_nat ((offset - PLIC_PRIORITY_BASE) / 4) in
    if (idx <? length (priorities self))%nat then self <| priorities := <[idx := val]> (priorities self) |> else self
  else if (PLIC_ENABLE_BASE <=? offset) && (offset <? PLIC_CONTEXT_BASE) then
    let rel := offset - PLIC_ENABLE_BASE in
    let ctx := Z.to_nat (rel / 0x80) in
    let word_idx := Z.to_nat ((rel mod 0x80) / 4) in
    if (ctx <? NUM_CONTEXTS)%nat && (word_idx <? ENABLE_WORDS_PER_CONTEXT)%nat
    then self <| enables := <[ctx := <[word_idx := val]> (enables self !!! ctx)]> (enables self) |> else self
  else if PLIC_CONTEXT_BASE <=? offset then
    let ctx := Z.to_nat ((offset - PLIC_CONTEXT_BASE) / 0x1000) in
    let reg := Z.land offset 0xFFF in
    if (ctx <? 2)%nat then
      if reg =? 0 then self <| thresholds := <[ctx := val]> (thresholds self) |>
      else if reg =? 4 then (clear_pending self val) <| claims := <[ctx := 0]> (claims self) |>
      else self
    else self
  else self.

Definition plic_read (self : Plic) (s : AccessSize) (offset : Z) : Z * Plic :=
  match s with
  | U8 => let '(v, self) := plic_read_u32 self (Z.land offset (not64 3)) in
          (u8 (Z.shiftr v (Z.land offset 3 * 8)), self)
  | U16 => let '(v, self) := plic_read_u32 self (Z.land offset (not64 3)) in
           (u16 (Z.shiftr v (Z.land offset 3 * 8)), self)
  | U32 | U64 => plic_read_u32 self offset
  end.

(** Byte and half-word writes read the containing word first, with the effects
    of a read. *)
Definition plic_rmw (self : Plic) (aligned byte_pos field val : Z) : Plic :=
  let '(old, self) := plic_read_u32 self aligned in
  let mask := U32_MAX - u32 (Z.shiftl field byte_pos) in
  plic_write_u32 self aligned (Z.lor (Z.land old mask) (u32 (Z.shiftl val byte_pos))).
Definition plic_write (self : Plic) (s : AccessSize) (offset val : Z) : Plic :=
  match s with
  | U8 => plic_rmw self (Z.land offset (not64 3)) (Z.land offset 3 * 8) 0xFF val
  | U16 => plic_rmw self (Z.land offset (not64 3)) (Z.land offset 2 * 8) 0xFFFF val
  | U32 => plic_write_u32 self offset val
  | U64 => plic_write_u32 self offset (u32 val)
  end.

Definition plic_tick (self : Plic) : bool * Plic :=
  let '(meip, seip, self) := plic_check_interrupts self in (meip || seip, self).

(** * Selection *)

(** A search loop that returns [true] at the first element with a property. *)
Lemma list_scan_search {A} (p : A -> bool) (l : list A) :
  list_scan (fun a 'tt => if p a then Return true else Continue tt) l tt
  = if existsb p l then Return true else Continue tt.
Proof. induction l as [|a l IH]; simpl; [done|]. by destruct (p a). Qed.

(** Interrupt [id] is pending, enabled in the context, and above its threshold. *)
Definition qualified (p : Plic) (ctx id : nat) : Prop :=
  (0 < id < length (priorities p))%nat /\ (id `div` 32 < plic_num_words p ctx)%nat
  /\ Z.testbit (plic_active p ctx (id `div` 32)) (Z.of_nat (id mod 32)) = true
  /\ thresholds p !!! ctx < priorities p !!! id.

(** The claim: a qualified interrupt of maximal priority, the smallest id on ties. *)
Definition best_claim (p : Plic) (ctx id : nat) : Prop :=
  qualified p ctx id /\
  forall id', qualified p ctx id' ->
    priorities p !!! id' < priorities p !!! id \/ priorities p !!! id' = priorities p !!! id /\ (id <= id')%nat.

Lemma has_bits_bit (x : Z) (n : nat) : has_bits x (Z.shiftl 1 (Z.of_nat n)) = Z.testbit x (Z.of_nat n).
Proof.
  unfold has_bits. destruct (Z.testbit x (Z.of_nat n)) eqn:E.
  - apply negb_true_iff, Z.eqb_neq. intros H. apply (f_equal (fun z => Z.testbit z (Z.of_nat n))) in H.
    rewrite Z.land_spec, Z.shiftl_spec, Z.bits_0, E, Z.sub_diag in H by lia. done.
  - apply negb_false_iff, Z.eqb_eq. apply Z.bits_inj'. intros i Hi. rewrite Z.land_spec, Z.bits_0.
    destruct (decide (i = Z.of_nat n)) as [->|Hne]; [by rewrite E|].
    rewrite Z.shiftl_1_l, Z.pow2_bits_eqb by lia. rewrite (proj2 (Z.eqb_neq _ _)) by lia. apply andb_false_r.
Qed.

Section Select.
Context (p : Plic) (ctx : nat).
Hypothesis Ht : 0 <= thresholds p !!! ctx.

Lemma qualified_at (word bit : nat) :
  (bit < 32)%nat -> (word < plic_num_words p ctx)%nat ->
  qualified p ctx (word * 32 + bit) <->
  ((word * 32 + bit =? 0)%nat = false /\
   has_bits (plic_active p ctx word) (Z.shiftl 1 (Z.of_nat bit)) && (word * 32 + bit <? length (priorities p))%nat
   = true /\ thresholds p !!! ctx < priorities p !!! (word * 32 + bit)%nat).
Proof.
  intros Hb Hw. unfold qualified. rewrite has_bits_bit, andb_true_iff, Nat.eqb_neq, Nat.ltb_lt.
  replace ((word * 32 + bit) `div` 32)%nat with word
    by (apply Nat.div_unique with bit; lia).
  replace ((word * 32 + bit) mod 32)%nat with bit by (apply Nat.mod_unique with word; lia).
  intuition lia.
Qed.

Lemma qualified_split (id : nat) :
  qualified p ctx id -> exists word bit, id = (word * 32 + bit)%nat /\ (bit < 32)%nat
    /\ (word < plic_num_words p ctx)%nat /\ plic_active p ctx word <> 0.
Proof.
  intros Hq. exists (id `div` 32)%nat, (id mod 32)%nat. destruct Hq as (_ & Hw & Hb & _).
  split_and!; [pose proof (Nat.div_mod_eq id 32); lia|by apply Nat.mod_upper_bound|done|].
  intros E. by rewrite E, Z.bits_0 in Hb.
Qed.

Lemma has_qualified_irq_iff : has_qualified_irq p ctx = true <-> exists id, qualified p ctx id.
Proof.
  unfold has_qualified_irq. set (t := thresholds p !!! ctx) in *.
  set (inner := fun word bit : nat =>
    negb (word * 32 + bit =? 0)%nat && (has_bits (plic_active p ctx word) (Z.shiftl 1 (Z.of_nat bit))
      && (word * 32 + bit <? length (priorities p))%nat && (t <? priorities p !!! (word * 32 + bit)%nat))).
  rewrite (list_scan_ext _ (fun word 'tt =>
    if negb (plic_active p ctx word =? 0) && existsb (inner word) (seq 0 32) then Return true else Continue tt)).
  2:{ intros word [] _. destruct (plic_active p ctx word =? 0); [done|]. simpl negb. rewrite andb_true_l, <-list_scan_search.
      apply list_scan_ext. intros bit [] _. unfold inner. by destruct (word * 32 + bit =? 0)%nat. }
  rewrite list_scan_search. set (e := existsb _ _). transitivity (e = true); [by destruct e|].
  unfold e. rewrite existsb_exists. split.
  - intros (word & Hw & Hx). apply andb_true_iff in Hx as [_ (bit & Hb & Hi)%existsb_exists].
    apply in_seq in Hw, Hb. exists (word * 32 + bit)%nat. apply qualified_at; [lia..|].
    unfold inner in Hi. rewrite !andb_true_iff, negb_true_iff, Z.ltb_lt in Hi. rewrite andb_true_iff. tauto.
  - intros (id & Hq). pose proof Hq as (word & bit & -> & Hb & Hw & Hact)%qualified_split.
    exists word. split; [apply in_seq; lia|]. apply andb_true_iff. split.
    + by apply negb_true_iff, Z.eqb_neq.
    + apply existsb_exists. exists bit. split; [apply in_seq; lia|].
      apply qualified_at in Hq; [|done..]. unfold inner.
      rewrite !andb_true_iff, negb_true_iff, Z.ltb_lt. rewrite andb_true_iff in Hq. tauto.
Qed.

(** The loop state of [calc_max_id] after the ids below [n]. *)
Definition best_below (n : nat) (acc : Z * Z) : Prop :=
  (acc = (0, 0) /\ forall id, (id < n)%nat -> ~ qualified p ctx id) \/
  exists m, acc = (priorities p !!! m, Z.of_nat m) /\ (m < n)%nat /\ qualified p ctx m /\
    forall id, (id < n)%nat -> qualified p ctx id ->
      priorities p !!! id < priorities p !!! m \/ priorities p !!! id = priorities p !!! m /\ (m <= id)%nat.

Lemma best_below_skip (n : nat) (acc : Z * Z) :
  best_below n acc -> ~ qualified p ctx n -> best_below (S n) acc.
Proof.
  intros [[-> H]|(m & -> & Hm & Hq & H)] Hn.
  - left. split; [done|]. intros id Hid. destruct (decide (id = n)) as [->|]; [done|]. apply H. lia.
  - right. exists m. split_and!; [done|lia|done|]. intros id Hid Hqi.
    destruct (decide (id = n)) as [->|]; [done|]. apply H; [lia|done].
Qed.

Lemma best_below_step (n : nat) (mp mi : Z) :
  best_below n (mp, mi) -> qualified p ctx n ->
  best_below (S n) (if mp <? priorities p !!! n then (priorities p !!! n, Z.of_nat n) else (mp, mi)).
Proof.
  intros Hb Hn. right. destruct Hb as [[[= -> ->] H]|(m & [= -> ->] & Hm & Hq & H)].
  - pose proof Hn as (Hr & Hw & Hbit & Hp). rewrite (proj2 (Z.ltb_lt _ _)) by lia. exists n.
    split_and!; [done|lia|done|]. intros id Hid Hqi.
    destruct (decide (id = n)) as [->|]; [right; lia|]. exfalso. apply (H id); [lia|done].
  - destruct (Z.ltb_spec (priorities p !!! m) (priorities p !!! n)).
    + exists n. split_and!; [done|lia|done|]. intros id Hid Hqi.
      destruct (decide (id = n)) as [->|]; [right; lia|]. destruct (H id); [lia|done|lia..].
    + exists m. split_and!; [done|lia|done|]. intros id Hid Hqi.
      destruct (decide (id = n)) as [->|]; [lia|]. apply H; [lia|done].
Qed.

Lemma calc_max_word (word : nat) (acc : Z * Z) :
  (word < plic_num_words p ctx)%nat -> best_below (word * 32) acc ->
  best_below (S word * 32)
    (if plic_active p ctx word =? 0 then acc else
     foldl (fun '(max_prio, max_id) bit =>
       let irq_id := (word * 32 + bit)%nat in
       if (irq_id =? 0)%nat then (max_prio, max_id)
       else if has_bits (plic_active p ctx word) (Z.shiftl 1 (Z.of_nat bit))
               && (irq_id <? length (priorities p))%nat then
         let prio := priorities p !!! irq_id in
         if (max_prio <? prio) && (thresholds p !!! ctx <? prio) then (prio, Z.of_nat irq_id) else (max_prio, max_id)
       else (max_prio, max_id)) acc (seq 0 32)).
Proof.
  intros Hw Hb. replace (S word * 32)%nat with (word * 32 + 32)%nat by lia.
  destruct (Z.eqb_spec (plic_active p ctx word) 0) as [E|E].
  - assert (G : forall k, (k <= 32)%nat -> best_below (word * 32 + k) acc); [|by apply G].
    induction k as [|k IH]; intros Hk; [by rewrite Nat.add_0_r|]. rewrite Nat.add_succ_r.
    apply best_below_skip; [apply IH; lia|]. rewrite qualified_at by lia.
    intros (_ & Hx & _). by rewrite E in Hx.
  - match goal with |- best_below _ (foldl ?f _ _) => set (body := f) end.
    assert (G : forall k, (k <= 32)%nat -> best_below (word * 32 + k) (foldl body acc (seq 0 k))); [|by apply (G 32%nat)].
    induction k as [|k IH]; intros Hk; [by rewrite Nat.add_0_r|]. rewrite Nat.add_succ_r, seq_S, foldl_snoc.
    specialize (IH ltac:(lia)). destruct (foldl body acc (seq 0 k)) as [mp mi]. unfold body. cbn zeta. rewrite Nat.add_0_l.
    pose proof (qualified_at word k ltac:(lia) Hw) as Q.
    destruct (word * 32 + k =? 0)%nat eqn:E0; [apply best_below_skip; [done|rewrite Q; naive_solver]|].
    destruct (has_bits _ _ && _); [|apply best_below_skip; [done|rewrite Q; naive_solver]].
    destruct (Z.ltb_spec (thresholds p !!! ctx) (priorities p !!! (word * 32 + k)%nat)) as [Hlt|Hge].
    + rewrite andb_true_r. apply best_below_step; [done|]. by rewrite Q.
    + rewrite andb_false_r. apply best_below_skip; [done|]. rewrite Q. lia.
Qed.

Lemma calc_max_id_best (id : nat) : qualified p ctx id -> exists m, calc_max_id p ctx = Z.of_nat m /\ best_claim p ctx m.
Proof.
  intros Hq. unfold calc_max_id.
  match goal with |- context [foldl ?f (0, 0) _] => set (body := f) end.
  assert (G : forall n, (n <= plic_num_words p ctx)%nat -> best_below (n * 32) (foldl body (0, 0) (seq 0 n))).
  { induction n as [|n IH]; intros Hn; [left; split; [done|lia]|]. rewrite seq_S, foldl_snoc.
    apply calc_max_word; [lia|]. apply IH. lia. }
  specialize (G _ (le_n _)).
  assert (Hb : forall id, qualified p ctx id -> (id < plic_num_words p ctx * 32)%nat).
  { intros i (word & bit & -> & ? & ? & _)%qualified_split. lia. }
  destruct G as [[_ H]|(m & -> & _ & Hm & H)]; [by destruct (H id); [apply Hb|]|].
  exists m. split; [done|]. split; [done|]. intros id' Hq'. apply H; [by apply Hb|done].
Qed.

End Select.

(** * Claiming *)

Record plic_wf (p : Plic) : Prop := {
  wf_priorities : length (priorities p) = 1024%nat;
  wf_pending : length (pending p) = 32%nat;
  wf_enables : forall ctx, (ctx < 2)%nat -> length (enables p !!! ctx) = 32%nat;
  wf_thresholds : forall ctx, (ctx < 2)%nat -> 0 <= thresholds p !!! ctx;
  wf_claims : length (claims p) = 2%nat
}.

Lemma plic_new_wf base : plic_wf (plic_new base).
Proof. split; [done..| | |done]; intros [|[|?]] ?; done || lia. Qed.

Lemma clear_mask_testbit (k j : Z) :
  0 <= k < 32 -> 0 <= j < 32 -> Z.testbit (U32_MAX - Z.shiftl 1 k) j = negb (j =? k).
Proof.
  intros Hk Hj. rewrite Z.shiftl_1_l. change U32_MAX with (Z.ones 32).
  rewrite Z.sub_nocarry_ldiff.
  - rewrite Z.ldiff_spec, Z.ones_spec_low, Z.pow2_bits_eqb by lia. by rewrite Z.eqb_sym.
  - apply Z.bits_inj'. intros i Hi. rewrite Z.ldiff_spec, Z.bits_0, Z.pow2_bits_eqb by lia.
    destruct (Z.eqb_spec k i) as [->|]; [|done]. by rewrite Z.ones_spec_low by lia.
Qed.

Lemma clear_pending_lookup (p : Plic) (m word : nat) :
  plic_wf p -> (0 < m < 1024)%nat ->
  pending (clear_pending p (Z.of_nat m)) !!! word
  = if decide (word = m `div` 32)%nat
    then Z.land (pending p !!! word) (U32_MAX - Z.shiftl 1 (Z.of_nat (m mod 32)))
    else pending p !!! word.
Proof.
  intros Hp Hm. unfold clear_pending. rewrite (proj2 (Z.ltb_lt 0 _)), (proj2 (Z.ltb_lt _ 1024)) by lia. simpl andb.
  cbn iota. change 32 with (Z.of_nat 32). rewrite <-(Nat2Z.inj_div m 32), <-(Nat2Z.inj_mod m 32), Nat2Z.id.
  assert ((m `div` 32 < 32)%nat) by (apply Nat.Div0.div_lt_upper_bound; lia).
  rewrite (wf_pending _ Hp), (proj2 (Nat.ltb_lt _ _)) by done.
  change (pending (p <| pending := ?l |>)) with l. destruct (decide _) as [->|Hne].
  - rewrite list_lookup_total_insert_eq; [done|]. rewrite (wf_pending _ Hp). done.
  - by rewrite list_lookup_total_insert_ne.
Qed.

Lemma clear_pending_other (p : Plic) (m : Z) :
  exists l, clear_pending p m = p <| pending := l |> /\ length l = length (pending p).
Proof.
  unfold clear_pending. repeat case_match; eexists; (split; [reflexivity|]); rewrite ?length_insert; done.
Qed.

Lemma clear_pending_qualified (p : Plic) (m : nat) (ctx i : nat) :
  plic_wf p -> (0 < m < 1024)%nat -> (ctx < 2)%nat ->
  qualified (clear_pending p (Z.of_nat m)) ctx i <-> qualified p ctx i /\ i <> m.
Proof.
  intros Hp Hm Hc. pose proof (clear_pending_lookup p m (i `div` 32) Hp Hm) as E.
  destruct (clear_pending_other p (Z.of_nat m)) as (l & Ec & Hl).
  assert (Hw : plic_num_words (clear_pending p (Z.of_nat m)) ctx = plic_num_words p ctx).
  { rewrite Ec. unfold plic_num_words. change (pending (p <| pending := l |>)) with l. by rewrite Hl. }
  unfold qualified. rewrite Hw. unfold plic_active. rewrite E, Ec.
  change (priorities (p <| pending := l |>)) with (priorities p).
  change (thresholds (p <| pending := l |>)) with (thresholds p).
  change (enables (p <| pending := l |>)) with (enables p).
  assert ((i mod 32 < 32)%nat) by by apply Nat.mod_upper_bound.
  assert ((m mod 32 < 32)%nat) by by apply Nat.mod_upper_bound.
  pose proof (Nat.div_mod_eq i 32). pose proof (Nat.div_mod_eq m 32).
  destruct (decide (i `div` 32 = m `div` 32)%nat) as [Ed|Ed].
  - rewrite !Z.land_spec, clear_mask_testbit by lia.
    destruct (Z.eqb_spec (Z.of_nat (i mod 32)) (Z.of_nat (m mod 32))) as [Em|Em].
    + assert (i = m) by lia. rewrite andb_false_r. simpl. naive_solver.
    + assert (i <> m) by (intros ->; by apply Em). rewrite andb_true_r. tauto.
  - assert (i <> m) by (intros ->; by apply Ed). tauto.
Qed.

(** One context: the external interrupt line, and the claim it leads to. *)
Definition claim_ok (p : Plic) (ctx : nat) (irq : bool) (id : Z) (p' : Plic) : Prop :=
  (irq = true <-> exists i, qualified p ctx i) /\
  (if irq then exists m, id = Z.of_nat m /\ best_claim p ctx m else id = 0) /\
  (forall c i, (c < 2)%nat -> qualified p' c i <-> qualified p c i /\ Z.of_nat i <> id).

Lemma plic_check_claims (p : Plic) :
  plic_wf p ->
  plic_check_interrupts p =
  (has_qualified_irq p 0, has_qualified_irq p 1,
   p <| claims := [if has_qualified_irq p 0 then calc_max_id p 0 else 0;
                   if has_qualified_irq p 1 then calc_max_id p 1 else 0] |>).
Proof.
  intros Hp. unfold plic_check_interrupts, plic_check_ctx. pose proof (wf_claims _ Hp) as Hl.
  destruct p as [ba pr pe en th [|c0 [|c1 [|]]]]; cbn in Hl; try done.
  set (p := Build_Plic _ _ _ _ _ _).
  assert (E : forall l, has_qualified_irq (p <| claims := l |>) 1 = has_qualified_irq p 1) by done.
  assert (E' : forall l, calc_max_id (p <| claims := l |>) 1 = calc_max_id p 1) by done.
  destruct (has_qualified_irq p 0); rewrite E, ?E'; destruct (has_qualified_irq p 1); done.
Qed.

Lemma claim_read (p : Plic) (ctx : nat) :
  (ctx < 2)%nat ->
  plic_read_u32 p (PLIC_CONTEXT_BASE + 0x1000 * Z.of_nat ctx + 4)
  = (claims p !!! ctx, clear_pending p (claims p !!! ctx)).
Proof. intros. destruct ctx as [|[|?]]; [reflexivity..|lia]. Qed.

Lemma qualified_claims (p : Plic) (l : list Z) (c i : nat) :
  qualified (p <| claims := l |>) c i = qualified p c i.
Proof. done. Qed.

(** The PLIC raises the external interrupt of a context exactly when some
    interrupt is pending, enabled and above the context's threshold, and the
    claim then read is such an interrupt of the highest priority, the smallest
    number among equals; the claim clears exactly that pending bit for both
    contexts.  Without a candidate the claim is 0 and clears nothing. *)
Theorem plic_claims_best (p : Plic) (ctx : nat) :
  plic_wf p -> (ctx < 2)%nat ->
  let '(meip, seip, p1) := plic_check_interrupts p in
  let '(id, p2) := plic_read_u32 p1 (PLIC_CONTEXT_BASE + 0x1000 * Z.of_nat ctx + 4) in
  claim_ok p ctx (if decide (ctx = 0%nat) then meip else seip) id p2.
Proof.
  intros Hp Hc. rewrite plic_check_claims by done. rewrite claim_read by done.
  set (p1 := p <| claims := _ |>).
  assert (Hcl : claims p1 !!! ctx = if has_qualified_irq p ctx then calc_max_id p ctx else 0)
    by (destruct ctx as [|[|]]; [done..|lia]).
  assert (Hirq : (if decide (ctx = 0%nat) then has_qualified_irq p 0 else has_qualified_irq p 1)
                 = has_qualified_irq p ctx) by (destruct ctx as [|[|]]; [done..|lia]).
  rewrite Hcl, Hirq. pose proof (has_qualified_irq_iff p ctx) as Hq.
  split; [done|]. destruct (has_qualified_irq p ctx).
  - destruct (proj1 Hq eq_refl) as [i Hi].
    destruct (calc_max_id_best p ctx (wf_thresholds _ Hp _ Hc) i Hi) as (m & -> & Hm).
    split; [eauto|]. intros c j Hcj. rewrite Nat2Z.inj_iff.
    apply (clear_pending_qualified p1 m c j); [|..|done].
    + split; try apply Hp. done.
    + destruct Hm as [[? _] _]. rewrite (wf_priorities _ Hp) in *. lia.
  - split; [done|]. intros c j Hcj. change (clear_pending p1 0) with p1.
    change (qualified p1 c j) with (qualified p c j). split; [|tauto].
    intros Hj. split; [done|]. destruct Hj as [? _]. lia.
Qed.

(** ** The base address never changes *)

Lemma clear_pending_base p m : plic_base_addr (clear_pending p m) = plic_base_addr p.
Proof. unfold clear_pending. by repeat case_match. Qed.
Lemma plic_read_u32_base p o : plic_base_addr (plic_read_u32 p o).2 = plic_base_addr p.
Proof. unfold plic_read_u32. repeat case_match; simpl; by rewrite ?clear_pending_base. Qed.
Lemma plic_write_u32_base p o v : plic_base_addr (plic_write_u32 p o v) = plic_base_addr p.
Proof.
  unfold plic_write_u32. repeat case_match; try done.
  change (plic_base_addr (clear_pending p v) = plic_base_addr p). apply clear_pending_base.
Qed.
Lemma plic_read_base p s o : plic_base_addr (plic_read p s o).2 = plic_base_addr p.
Proof.
  destruct s; simpl; [| |apply plic_read_u32_base..];
    pose proof (plic_read_u32_base p (Z.land o (not64 3))) as H; by destruct (plic_read_u32 _ _).
Qed.
Lemma plic_rmw_base p a b f v : plic_base_addr (plic_rmw p a b f v) = plic_base_addr p.
Proof.
  unfold plic_rmw. pose proof (plic_read_u32_base p a) as H. destruct (plic_read_u32 p a).
  by rewrite plic_write_u32_base.
Qed.
Lemma plic_write_base p s o v : plic_base_addr (plic_write p s o v) = plic_base_addr p.
Proof. destruct s; simpl; (apply plic_rmw_base || apply plic_write_u32_base). Qed.
Lemma plic_check_interrupts_base p : plic_base_addr (plic_check_interrupts p).2 = plic_base_addr p.
Proof.
  unfold plic_check_interrupts, plic_check_ctx.
  destruct (has_qualified_irq p 0); case_match; repeat (case_match; simplify_eq); done.
Qed.

(** Interrupts 10 and 11 are pending and enabled for the supervisor. *)
Definition demo_plic : Plic :=
  update_irqs (foldl (fun p '(o, v) => plic_write_u32 p o v) (plic_new 0xC000000)
    [(40, 3); (44, 5); (0x2080, 0xC00); (0x201000, 2)]) 0xC00.

Lemma demo_plic_wf : plic_wf demo_plic.
Proof. split; [done..| | |done]; intros [|[|?]] ?; done || lia. Qed.

Lemma plic_claims_best_witness :
  let '(meip, seip, p1) := plic_check_interrupts demo_plic in
  let '(id, p2) := plic_read_u32 p1 0x201004 in
  (meip, seip, id) = (false, true, 11) /\ claim_ok demo_plic 1 seip id p2.
Proof.
  pose proof (plic_claims_best demo_plic 1 demo_plic_wf ltac:(lia)) as H.
  change (PLIC_CONTEXT_BASE + 4096 * Z.of_nat 1 + 4) with 0x201004 in H.
  assert (R : (let '(meip, seip, p1) := plic_check_interrupts demo_plic in
    (meip, seip, (plic_read_u32 p1 0x201004).1)) = (false, true, 11)) by (vm_compute; reflexivity).
  destruct (plic_check_interrupts demo_plic) as [[meip seip] p1].
  destruct (plic_read_u32 p1 0x201004) as [id p2]. simpl in *. split; [exact R|exact H].
Defined.

(** A claimed interrupt whose line stays up is pending again after the next
    tick, before its completion. *)
Example claimed_interrupt_repends :
  let '(_, _, p1) := plic_check_interrupts demo_plic in
  let '(_, p2) := plic_read_u32 p1 0x201004 in
  let '(_, seip, p3) := plic_check_interrupts (update_irqs p2 0xC00) in
  seip = true /\ claims p3 !!! 1%nat = 11.
Proof. by vm_compute. Qed.
