(* ===== verification/Interconnect.v ===== *)
(** The system bus ([soc/interconnect.rs], [soc/traits.rs]): devices sorted by
    base address, routing of accesses with a last-device hint and shortcuts for
    HTIF and RAM, and the interrupt lines of a tick. *)
From stdpp Require Import strings.
From S2P Require Import Prelude Common Soc Plic Tlb Csr Mmu Cpu.
Set Primitive Projections.
Local Open Scope Z_scope.

(** * Devices *)

(** The methods of the trait [Device], on the shared cells.  UART and VirtIO
    disk perform host I/O: any type with these methods stands for them. *)
Class ExtDevice (X : Type) := {
  ext_name : X -> string;
  ext_range : X -> Z * Z;
  ext_read : X -> AccessSize -> Z -> Shared -> Z * X * Shared;
  ext_write : X -> AccessSize -> Z -> Z -> Shared -> X * Shared;
  ext_tick : X -> Shared -> bool * X * Shared;
  ext_irq_id : X -> option Z
}.

Section Bus.
Context {X : Type} `{!ExtDevice X}.

(** [Box<dyn Device>] *)
Inductive Device :=
| DMemory (base_addr : Z)
| DClint (c : Clint)
| DPlic (p : Plic)
| DHtif (base_addr : Z)
| DSysCon (base_addr : Z)
| DRtc (base_addr : Z)
| DExt (x : X).

Definition dev_name (d : Device) : string :=
  match d with
  | DMemory _ => "DRAM" | DClint _ => "CLINT" | DPlic _ => "PLIC" | DHtif _ => "HTIF"
  | DSysCon _ => "SysCon" | DRtc _ => "GoldfishRTC" | DExt x => ext_name x
  end%string.

Definition dev_range (sh : Shared) (d : Device) : Z * Z :=
  match d with
  | DMemory base => (base, db_size (sh_dram sh))
  | DClint c => (clint_base_addr c, 0x10000)
  | DPlic p => (plic_base_addr p, 0x4000000)
  | DHtif base => (base, 16)
  | DSysCon base => (base, 0x1000)
  | DRtc base => (base, 0x1000)
  | DExt x => ext_range x
  end.

Definition dev_read (d : Device) (s : AccessSize) (offset : Z) (sh : Shared) : Z * Device * Shared :=
  match d with
  | DMemory _ => let '(v, sh) := dram_read sh offset (size_bytes s) in (v, d, sh)
  | DClint c => (clint_read c s offset, d, sh)
  | DPlic p => let '(v, p) := plic_read p s offset in (v, DPlic p, sh)
  | DHtif _ => (0, d, sh)
  | DSysCon _ => (0, d, sh)
  | DRtc _ => (rtc_read (sh_host_time sh) s offset, d, sh)
  | DExt x => let '(v, x, sh) := ext_read x s offset sh in (v, DExt x, sh)
  end.

Definition dev_write (d : Device) (s : AccessSize) (offset val : Z) (sh : Shared) : Device * Shared :=
  match d with
  | DMemory _ => (d, dram_write sh offset (size_bytes s) val)
  | DClint c => (DClint (clint_write c s offset val), sh)
  | DPlic p => (DPlic (plic_write p s offset val), sh)
  | DHtif _ => (d, htif_write sh s offset val)
  | DSysCon _ => (d, syscon_write sh s offset val)
  | DRtc _ => (d, sh)
  | DExt x => let '(x, sh) := ext_write x s offset val sh in (DExt x, sh)
  end.

(** The default [tick] reports no interrupt. *)
Definition dev_tick (d : Device) (sh : Shared) : bool * Device * Shared :=
  match d with
  | DClint c => let '(irq, c) := clint_tick c in (irq, DClint c, sh)
  | DPlic p => let '(irq, p) := plic_tick p in (irq, DPlic p, sh)
  | DExt x => let '(irq, x, sh) := ext_tick x sh in (irq, DExt x, sh)
  | _ => (false, d, sh)
  end.

Definition dev_irq_id (d : Device) : option Z :=
  match d with DRtc _ => Some 11 | DExt x => ext_irq_id x | _ => None end.

(** * The bus *)

Record Interconnect := {
  devices : list Device;
  width_bytes : Z;
  latency_cycles : Z;
  last_device_idx : nat;
  ram_idx : option nat;
  uart_idx : option nat;
  htif_idx : option nat;
  clint_idx : option nat;
  shared : Shared
}.

Definition bus_new (width_bytes latency_cycles : Z) (sh : Shared) : Interconnect := {|
  devices := []; width_bytes := width_bytes; latency_cycles := latency_cycles; last_device_idx := 0;
  ram_idx := None; uart_idx := None; htif_idx := None; clint_idx := None; shared := sh |}.

(** [sort_by_key], which is stable. *)
Fixpoint insert_by_key (k : Device -> Z) (d : Device) (l : list Device) : list Device :=
  match l with
  | [] => [d]
  | e :: l' => if k d <=? k e then d :: l else e :: insert_by_key k d l'
  end.
Definition sort_by_key (k : Device -> Z) (l : list Device) : list Device := foldr (insert_by_key k) [] l.

Definition find_name (n : string) (l : list Device) : option nat :=
  fst <$> list_find (fun d => dev_name d = n) l.

Definition add_device (self : Interconnect) (dev : Device) : Interconnect :=
  let devs := sort_by_key (fun d => (dev_range (shared self) d).1) (devices self ++ [dev]) in
  self <| devices := devs |>
       <| ram_idx := find_name "DRAM" devs |> <| uart_idx := find_name "UART0" devs |>
       <| htif_idx := find_name "HTIF" devs |> <| clint_idx := find_name "CLINT" devs |>
       <| last_device_idx := O |>.

Definition calculate_transit_time (self : Interconnect) (bytes : Z) : Z :=
  let transfers := (bytes + (width_bytes self - 1)) / width_bytes self in
  add64 (latency_cycles self) transfers.

(** [start + size] wraps. *)
Definition in_span (raw : Z) (r : Z * Z) : bool := (r.1 <=? raw) && (raw <? add64 r.1 r.2).
Definition in_range (sh : Shared) (raw : Z) (d : Device) : bool := in_span raw (dev_range sh d).
Definition offset_in (sh : Shared) (raw : Z) (d : Device) : Z := raw - (dev_range sh d).1.

(** Device [idx] claims the address; [false] when there is no such device. *)
Definition claims_addr (self : Interconnect) (raw : Z) (idx : nat) : bool :=
  match devices self !! idx with Some d => in_range (shared self) raw d | None => false end.
Definition claims_opt (self : Interconnect) (raw : Z) (idx : option nat) : bool :=
  match idx with Some i => claims_addr self raw i | None => false end.

Definition is_valid_addr (self : Interconnect) (raw : Z) : bool :=
  claims_opt self raw (ram_idx self) || existsb (in_range (shared self) raw) (devices self).

(** The index of the device and the bus with its hint updated. *)
Definition find_device (self : Interconnect) (raw : Z) : option nat * Interconnect :=
  if claims_opt self raw (htif_idx self) then
    (htif_idx self, self <| last_device_idx := default O (htif_idx self) |>)
  else if claims_addr self raw (last_device_idx self) then (Some (last_device_idx self), self)
  else if claims_opt self raw (ram_idx self) then
    (ram_idx self, self <| last_device_idx := default O (ram_idx self) |>)
  else
    match list_find (fun d => in_range (shared self) raw d = true) (devices self) with
    | Some (i, _) => (Some i, self <| last_device_idx := i |>)
    | None => (None, self)
    end.

Definition bus_read (self : Interconnect) (s : AccessSize) (raw : Z) : Z * Interconnect :=
  match find_device self raw with
  | (Some i, self) =>
      match devices self !! i with
      | Some d => let '(v, d, sh) := dev_read d s (offset_in (shared self) raw d) (shared self) in
                  (v, self <| devices := <[i := d]> (devices self) |> <| shared := sh |>)
      | None => (0, self)
      end
  | (None, self) => (0, self)
  end.

Definition bus_write (self : Interconnect) (s : AccessSize) (raw val : Z) : Interconnect :=
  match find_device self raw with
  | (Some i, self) =>
      match devices self !! i with
      | Some d => let '(d, sh) := dev_write d s (offset_in (shared self) raw d) val (shared self) in
                  self <| devices := <[i := d]> (devices self) |> <| shared := sh |>
      | None => self
      end
  | (None, self) => self
  end.

(** [write_bytes] of the trait, and of [Memory], whose [load] ignores data that
    does not fit. *)
Definition write_list (write : Z -> Z -> Shared -> Device -> Device * Shared) (offset : Z) (data : list Z)
    (st : Device * Shared) : Device * Shared :=
  foldl (fun '(d, sh) '(i, byte) => write (add64 offset (Z.of_nat i)) byte sh d) st (imap pair data).
Definition dev_write_bytes (d : Device) (offset : Z) (data : list Z) (sh : Shared) : Device * Shared :=
  match d with
  | DMemory _ =>
      if offset + Z.of_nat (length data) <=? db_size (sh_dram sh)
      then write_list (fun o b sh d => dev_write d U8 o b sh) offset data (d, sh) else (d, sh)
  | _ => write_list (fun o b sh d => dev_write d U8 o b sh) offset data (d, sh)
  end.

Definition load_binary_at (self : Interconnect) (data : list Z) (addr : Z) : Interconnect :=
  let by_byte (self : Interconnect) :=
    foldl (fun self '(i, byte) => bus_write self U8 (add64 addr (Z.of_nat i)) byte) self (imap pair data) in
  match find_device self addr with
  | (Some i, self) =>
      match devices self !! i with
      | Some d =>
          let offset := offset_in (shared self) addr d in
          if add64 offset (Z.of_nat (length data)) <=? (dev_range (shared self) d).2 then
            let '(d, sh) := dev_write_bytes d offset data (shared self) in
            self <| devices := <[i := d]> (devices self) |> <| shared := sh |>
          else by_byte self
      | None => by_byte self
      end
  | (None, self) => by_byte self
  end.

(** ** Ticks *)

Record TickState := { tk_bus : Interconnect; tk_timer : bool; tk_active : Z }.

Definition tick_device (st : TickState) (i : nat) : TickState :=
  let self := tk_bus st in
  match devices self !! i with
  | Some d =>
      let '(irq, d, sh) := dev_tick d (shared self) in
      let self := self <| devices := <[i := d]> (devices self) |> <| shared := sh |> in
      if irq then
        {| tk_bus := self;
           tk_active := match dev_irq_id d with
                        | Some id => if id <? 64 then Z.lor (tk_active st) (Z.shiftl 1 id) else tk_active st
                        | None => tk_active st
                        end;
           tk_timer := tk_timer st || bool_decide (dev_name d = "CLINT"%string) |}
      else st <| tk_bus := self |>
  | None => st
  end.

(** [find_plic]: the first device that is a PLIC. *)
Definition is_plic (d : Device) : bool := match d with DPlic _ => true | _ => false end.

(** (timer_irq, msip, meip, seip) *)
Definition bus_tick (self : Interconnect) : bool * bool * bool * bool * Interconnect :=
  let st := foldl tick_device {| tk_bus := self; tk_timer := false; tk_active := 0 |}
                  (seq 0 (length (devices self))) in
  let self := tk_bus st in
  let msip := match clint_idx self ≫= fun i => devices self !! i with
              | Some (DClint c) => msip_pending c
              | _ => false
              end in
  match list_find (fun d => is_plic d = true) (devices self) with
  | Some (i, DPlic p) =>
      let '(meip, seip, p) := plic_check_interrupts (update_irqs p (tk_active st)) in
      (tk_timer st, msip, meip, seip, self <| devices := <[i := DPlic p]> (devices self) |>)
  | _ => (tk_timer st, msip, false, false, self)
  end.

(** The base and end of the RAM, for the hart's raw pointer. *)
Definition get_ram_info (self : Interconnect) : option (Z * Z) :=
  match ram_idx self ≫= fun i => devices self !! i with
  | Some (DMemory base) => Some (base, add64 base (db_size (sh_dram (shared self))))
  | _ => None
  end.

#[export] Instance Interconnect_bus : Bus Interconnect :=
  {| bus_read_u64 b a := bus_read b U64 a; bus_transit_time b n := calculate_transit_time b n |}.
#[export] Instance Interconnect_address : AddressBus Interconnect := {| is_valid_address := is_valid_addr |}.

End Bus.
Arguments Device : clear implicits.
Arguments Interconnect : clear implicits.
