(* ===== verification/BusSpec.v ===== *)
(** Routing on the bus does not depend on its history: whatever was accessed
    before, an address goes to HTIF if HTIF claims it, and otherwise to the only
    other device that claims it.  At the addresses of the RAM the bus is the
    memory that translation asks for. *)
From stdpp Require Import strings.
From S2P Require Import Prelude Common Soc Plic Csr Pmp Tlb Mmu MmuSpec Cpu Interconnect.
Local Open Scope Z_scope.

(** Devices outside the repository's models keep their name and range, and the
    size of the RAM. *)
Class ExtDeviceLaws (X : Type) `{!ExtDevice X} := {
  ext_read_sig x s o sh : let '(_, x', sh') := ext_read x s o sh in
    ext_name x' = ext_name x /\ ext_range x' = ext_range x /\ db_size (sh_dram sh') = db_size (sh_dram sh);
  ext_write_sig x s o v sh : let '(x', sh') := ext_write x s o v sh in
    ext_name x' = ext_name x /\ ext_range x' = ext_range x /\ db_size (sh_dram sh') = db_size (sh_dram sh);
  ext_tick_sig x sh : let '(_, x', sh') := ext_tick x sh in
    ext_name x' = ext_name x /\ ext_range x' = ext_range x /\ db_size (sh_dram sh') = db_size (sh_dram sh)
}.

Section Routing.
Context {X : Type} `{!ExtDevice X} `{!ExtDeviceLaws X}.
Local Abbreviation bus := (Interconnect X).

(** What routing looks at. *)
Abbreviation signature := (string * (Z * Z))%type.
Definition sig (size : Z) (d : Device X) : signature :=
  (dev_name d, match d with DMemory base => (base, size) | _ => dev_range (Build_Shared (dram_buffer_new size) 0 0 false false) d end).
Definition sigs (b : bus) : list signature := sig (db_size (sh_dram (shared b))) <$> devices b.
Definition claiming (raw : Z) (l : list signature) : list signature :=
  filter (fun s => s.1 <> "HTIF"%string /\ in_span raw s.2 = true) l.

(** At most one HTIF, and no other two devices overlap. *)
Definition layout_ok (l : list signature) : Prop :=
  (length (filter (fun s => s.1 = "HTIF"%string) l) <= 1)%nat /\ forall raw, (length (claiming raw l) <= 1)%nat.

Definition name_idx (n : string) (l : list signature) : option nat := fst <$> list_find (fun s => s.1 = n) l.

Record bus_wf (b : bus) : Prop := {
  wf_layout : layout_ok (sigs b);
  wf_ram_idx : ram_idx b = name_idx "DRAM" (sigs b);
  wf_htif_idx : htif_idx b = name_idx "HTIF" (sigs b)
}.

(** The device an address belongs to. *)
Definition routes_to (b : bus) (raw : Z) (i : nat) : Prop :=
  exists d, devices b !! i = Some d /\ in_range (shared b) raw d = true /\
  (dev_name d = "HTIF"%string \/
   forall j e, devices b !! j = Some e -> in_range (shared b) raw e = true -> j = i).

Lemma sig_name size d : (sig size d).1 = dev_name d.
Proof. done. Qed.
Lemma sig_range sh d : (sig (db_size (sh_dram sh)) d).2 = dev_range sh d.
Proof. by destruct d. Qed.

Lemma sigs_lookup b i d : devices b !! i = Some d -> sigs b !! i = Some (sig (db_size (sh_dram (shared b))) d).
Proof. intros H. unfold sigs. by rewrite list_lookup_fmap, H. Qed.

Lemma filter_unique {A} (P : A -> Prop) `{!forall a, Decision (P a)} (l : list A) (i j : nat) (a b : A) :
  (length (filter P l) <= 1)%nat -> l !! i = Some a -> P a -> l !! j = Some b -> P b -> i = j.
Proof.
  revert i j. induction l as [|c l IH]; intros i j Hl Hi Pa Hj Pb; [done|].
  rewrite filter_cons in Hl. destruct i as [|i], j as [|j]; simpl in Hi, Hj; simplify_eq; [done|..].
  - rewrite decide_True in Hl by done. exfalso.
    assert (b ∈ filter P l) as (l1 & l2 & E)%list_elem_of_split
      by (apply list_elem_of_filter; split; [done|by eapply list_elem_of_lookup_2]).
    rewrite E in Hl. simpl in Hl. rewrite length_app in Hl. simpl in Hl. lia.
  - rewrite decide_True in Hl by done. exfalso.
    assert (a ∈ filter P l) as (l1 & l2 & E)%list_elem_of_split
      by (apply list_elem_of_filter; split; [done|by eapply list_elem_of_lookup_2]).
    rewrite E in Hl. simpl in Hl. rewrite length_app in Hl. simpl in Hl. lia.
  - f_equal. apply IH; try done. case_decide; simpl in Hl; lia.
Qed.

(** A device that claims an address HTIF does not claim is the only one. *)
Lemma claim_unique b raw i j d e :
  bus_wf b -> claims_opt b raw (htif_idx b) = false ->
  devices b !! i = Some d -> in_range (shared b) raw d = true ->
  devices b !! j = Some e -> in_range (shared b) raw e = true -> j = i.
Proof.
  intros Hb Hh Hi Hd Hj He.
  assert (N : forall k f, devices b !! k = Some f -> in_range (shared b) raw f = true -> dev_name f <> "HTIF"%string).
  { intros k f Hk Hf Hn. rewrite (wf_htif_idx _ Hb) in Hh. unfold name_idx in Hh.
    destruct (list_find _ (sigs b)) as [[m s]|] eqn:E; simpl in Hh.
    - apply list_find_Some in E as (Hm & Hs & _).
      assert (m = k) as ->.
      { eapply (filter_unique (fun s : signature => s.1 = "HTIF"%string));
          [apply (proj1 (wf_layout _ Hb))|exact Hm|done|by apply sigs_lookup|done]. }
      unfold claims_addr in Hh. rewrite Hk in Hh. congruence.
    - apply list_find_None in E. eapply Forall_lookup_1 in E; [|by apply sigs_lookup]. by apply E. }
  symmetry. eapply (filter_unique (fun s : signature => s.1 <> "HTIF"%string /\ in_span raw s.2 = true));
    [apply (proj2 (wf_layout _ Hb) raw)|by apply sigs_lookup| |by apply sigs_lookup|].
  - split; [by eapply N|]. by rewrite sig_range.
  - split; [by eapply N|]. by rewrite sig_range.
Qed.

Lemma claims_addr_Some b raw i :
  claims_addr b raw i = true -> exists d, devices b !! i = Some d /\ in_range (shared b) raw d = true.
Proof. unfold claims_addr. destruct (devices b !! i); naive_solver. Qed.

Lemma find_device_routes b raw :
  bus_wf b ->
  (exists k, (find_device b raw).2 = b <| last_device_idx := k |>) /\
  match (find_device b raw).1 with
  | Some i => routes_to b raw i
  | None => forall i d, devices b !! i = Some d -> in_range (shared b) raw d = false
  end.
Proof.
  intros Hb. unfold find_device. destruct (claims_opt b raw (htif_idx b)) eqn:Hh.
  - split; [eexists; reflexivity|]. cbn [fst]. destruct (htif_idx b) as [i|] eqn:E; [|done]. simpl in Hh.
    apply claims_addr_Some in Hh as (d & Hi & Hd). exists d. split_and!; [done|done|]. left.
    rewrite (wf_htif_idx _ Hb) in E. unfold name_idx in E.
    apply fmap_Some in E as ([m s] & (Hm & Hs & _)%list_find_Some & ->).
    rewrite (sigs_lookup b m d Hi) in Hm. by simplify_eq.
  - assert (U : forall i, claims_addr b raw i = true -> routes_to b raw i).
    { intros i (d & Hi & Hd)%claims_addr_Some. exists d. split_and!; [done|done|]. right.
      intros j e Hj He. by eapply claim_unique. }
    destruct (claims_addr b raw (last_device_idx b)) eqn:Hl.
    { split; [by exists (last_device_idx b); destruct b|]. by apply U. }
    destruct (claims_opt b raw (ram_idx b)) eqn:Hr.
    { split; [eexists; reflexivity|]. cbn [fst]. destruct (ram_idx b) as [i|]; [|done]. by apply U. }
    destruct (list_find _ (devices b)) as [[i d]|] eqn:E.
    + split; [eexists; reflexivity|]. cbn [fst]. apply U.
      apply list_find_Some in E as (Hi & Hd & _). unfold claims_addr. by rewrite Hi.
    + split; [by exists (last_device_idx b); destruct b|]. cbn [fst]. intros i d Hi.
      apply list_find_None in E. eapply Forall_lookup_1 in E; [|exact Hi].
      by destruct (in_range (shared b) raw d).
Qed.

(** The validity query is exact, and agrees with routing. *)
Lemma is_valid_addr_iff b raw :
  is_valid_addr b raw = true <-> exists i d, devices b !! i = Some d /\ in_range (shared b) raw d = true.
Proof.
  unfold is_valid_addr. rewrite orb_true_iff, existsb_elem_of. split.
  - intros [H|(d & [i Hi]%list_elem_of_lookup & Hd)]; [|by eauto].
    destruct (ram_idx b) as [i|]; [|done]. apply claims_addr_Some in H as (d & ? & ?). eauto.
  - intros (i & d & Hi & Hd). right. exists d. split; [by eapply list_elem_of_lookup_2|done].
Qed.

(** ** Accesses and ticks keep the layout *)

Definition keeps (b b' : bus) : Prop :=
  sigs b' = sigs b /\ ram_idx b' = ram_idx b /\ htif_idx b' = htif_idx b
  /\ db_size (sh_dram (shared b')) = db_size (sh_dram (shared b)) /\ length (devices b') = length (devices b).
#[local] Instance keeps_preorder : PreOrder keeps.
Proof. split; [done|]. intros ??? (?&?&?&?&?) (?&?&?&?&?). split_and!; congruence. Qed.

Lemma keeps_wf b b' : keeps b b' -> bus_wf b -> bus_wf b'.
Proof. intros (Hs & Hr & Hh & _) [? ? ?]. split; congruence. Qed.

Definition same_sig (d : Device X) (sh : Shared) (d' : Device X) (sh' : Shared) : Prop :=
  db_size (sh_dram sh') = db_size (sh_dram sh) /\ forall n, sig n d' = sig n d.

Lemma keeps_set b i d d' sh' :
  devices b !! i = Some d -> same_sig d (shared b) d' sh' ->
  keeps b (b <| devices := <[i := d']> (devices b) |> <| shared := sh' |>).
Proof.
  intros Hi [Hsz Hs]. split_and!; [|done|done|done|apply length_insert].
  unfold sigs. change (shared (b <| devices := ?l |> <| shared := sh' |>)) with sh'.
  change (devices (b <| devices := ?l |> <| shared := sh' |>)) with l.
  rewrite Hsz, list_fmap_insert, Hs. apply list_insert_id. by rewrite list_lookup_fmap, Hi.
Qed.

Lemma dev_read_sig d s o sh : let '(_, d', sh') := dev_read d s o sh in same_sig d sh d' sh'.
Proof.
  destruct d as [base| |p|base|base|base|x]; simpl; try done.
  - unfold dram_read. by destruct (_ <=? _).
  - pose proof (plic_read_base p s o) as H. destruct (plic_read p s o) as [v p'].
    split; [done|]. intros n. unfold sig. simpl in *. by rewrite H.
  - pose proof (ext_read_sig x s o sh) as H. destruct (ext_read x s o sh) as [[v x'] sh'].
    destruct H as (H1 & H2 & H3). split; [done|]. intros n. unfold sig. simpl. by rewrite H1, H2.
Qed.

Lemma dev_write_sig d s o v sh : let '(d', sh') := dev_write d s o v sh in same_sig d sh d' sh'.
Proof.
  destruct d as [base|c|p|base|base|base|x]; simpl.
  - unfold dram_write. by destruct (_ <=? _).
  - split; [done|]. intros n. unfold sig. simpl.
    assert (clint_base_addr (clint_write c s o v) = clint_base_addr c) as ->; [|done].
    destruct s; simpl; [done..| |]; unfold clint_write_u32, clint_write_u64; by repeat case_match.
  - split; [done|]. intros n. unfold sig. simpl. by rewrite plic_write_base.
  - split; [|done]. destruct s; simpl; unfold handle_tohost; by repeat case_match.
  - split; [|done]. destruct s; simpl; unfold syscon_write_u32; by repeat case_match.
  - done.
  - pose proof (ext_write_sig x s o v sh) as H. destruct (ext_write x s o v sh) as [x' sh'].
    destruct H as (H1 & H2 & H3). split; [done|]. intros n. unfold sig. simpl. by rewrite H1, H2.
Qed.

Lemma dev_tick_sig d sh : let '(_, d', sh') := dev_tick d sh in same_sig d sh d' sh'.
Proof.
  destruct d as [base|c|p|base|base|base|x]; simpl; try done.
  - split; [done|]. intros n. unfold sig. simpl. by destruct (divider _ <=? _).
  - pose proof (plic_check_interrupts_base p) as H. unfold plic_tick.
    destruct (plic_check_interrupts p) as [[? ?] p']. split; [done|]. intros n. unfold sig. simpl in *. by rewrite H.
  - pose proof (ext_tick_sig x sh) as H. destruct (ext_tick x sh) as [[v x'] sh'].
    destruct H as (H1 & H2 & H3). split; [done|]. intros n. unfold sig. simpl. by rewrite H1, H2.
Qed.

Lemma find_device_keeps b raw : keeps b (find_device b raw).2.
Proof. unfold find_device. by repeat case_match. Qed.

Lemma bus_read_keeps b s raw : keeps b (bus_read b s raw).2.
Proof.
  unfold bus_read. pose proof (find_device_keeps b raw) as K. destruct (find_device b raw) as [[i|] b1]; [|done].
  destruct (devices b1 !! i) as [d|] eqn:Hi; [|done]. simpl in K.
  pose proof (dev_read_sig d s (offset_in (shared b1) raw d) (shared b1)) as S.
  destruct (dev_read _ _ _ _) as [[v d'] sh']. etrans; [exact K|]. by apply keeps_set with d.
Qed.

Lemma bus_write_keeps b s raw v : keeps b (bus_write b s raw v).
Proof.
  unfold bus_write. pose proof (find_device_keeps b raw) as K. destruct (find_device b raw) as [[i|] b1]; [|done].
  destruct (devices b1 !! i) as [d|] eqn:Hi; [|done]. simpl in K.
  pose proof (dev_write_sig d s (offset_in (shared b1) raw d) v (shared b1)) as S.
  destruct (dev_write _ _ _ _ _) as [d' sh']. etrans; [exact K|]. by apply keeps_set with d.
Qed.

Lemma tick_device_keeps st i : keeps (tk_bus st) (tk_bus (tick_device st i)).
Proof.
  unfold tick_device. destruct (devices (tk_bus st) !! i) as [d|] eqn:Hi; [|done].
  pose proof (dev_tick_sig d (shared (tk_bus st))) as S. destruct (dev_tick _ _) as [[irq d'] sh'].
  destruct irq; by apply keeps_set with d.
Qed.

Lemma bus_tick_keeps b : keeps b (bus_tick b).2.
Proof.
  unfold bus_tick. set (st := foldl _ _ _).
  assert (K : keeps b (tk_bus st)).
  { unfold st. generalize (seq 0 (length (devices b))). intros l.
    change b with (tk_bus {| tk_bus := b; tk_timer := false; tk_active := 0 |}) at 1.
    generalize {| tk_bus := b; tk_timer := false; tk_active := 0 |}.
    induction l as [|i l IH]; intros s; [done|]. simpl. etrans; [apply (tick_device_keeps s i)|apply IH]. }
  destruct (list_find _ _) as [[i d]|] eqn:E; [|done]. destruct d as [| |p| | | |]; try done.
  apply list_find_Some in E as (Hi & _).
  pose proof (plic_check_interrupts_base (update_irqs p (tk_active st))) as H.
  destruct (plic_check_interrupts _) as [[? ?] p']. simpl in *. etrans; [exact K|].
  apply (keeps_set _ i (DPlic p) (DPlic p') (shared (tk_bus st))); [done|].
  split; [done|]. intros n. unfold sig. simpl. by rewrite H.
Qed.

Lemma fold_writes_keeps (addr : Z) (l : list (nat * Z)) b :
  keeps b (foldl (fun b '(i, byte) => bus_write b U8 (add64 addr (Z.of_nat i)) byte) b l).
Proof.
  revert b. induction l as [|[i byte] l IH]; intros b; [done|]. simpl. etrans; [apply bus_write_keeps|apply IH].
Qed.

Lemma same_sig_trans d sh d1 sh1 d2 sh2 : same_sig d sh d1 sh1 -> same_sig d1 sh1 d2 sh2 -> same_sig d sh d2 sh2.
Proof. intros [? H] [? H']. split; [congruence|]. intros n. by rewrite H', H. Qed.

Lemma dev_write_bytes_sig d o data sh : let '(d', sh') := dev_write_bytes d o data sh in same_sig d sh d' sh'.
Proof.
  assert (G : let '(d', sh') := write_list (fun o b sh d => dev_write d U8 o b sh) o data (d, sh) in
              same_sig d sh d' sh').
  { unfold write_list. generalize (imap pair data). intros l.
    assert (G : forall d1 sh1, same_sig d sh d1 sh1 ->
      let '(d', sh') := foldl (fun '(d, sh) '(i, byte) => dev_write d U8 (add64 o (Z.of_nat i)) byte sh) (d1, sh1) l
      in same_sig d sh d' sh'); [|by apply G].
    induction l as [|[i byte] l IH]; intros d1 sh1 H; [done|]. simpl.
    pose proof (dev_write_sig d1 U8 (add64 o (Z.of_nat i)) byte sh1) as S.
    destruct (dev_write _ _ _ _ _) as [d2 sh2]. apply IH. by eapply same_sig_trans. }
  destruct d; [|exact G..]. simpl. destruct (_ <=? _); [exact G|done].
Qed.

Lemma load_binary_keeps b data addr : keeps b (load_binary_at b data addr).
Proof.
  unfold load_binary_at. pose proof (find_device_keeps b addr) as K. destruct (find_device b addr) as [[i|] b1];
    [|etrans; [exact K|apply fold_writes_keeps]].
  destruct (devices b1 !! i) as [d|] eqn:Hi; [|etrans; [exact K|apply fold_writes_keeps]]. simpl in K.
  destruct (_ <=? _); [|etrans; [exact K|apply fold_writes_keeps]].
  pose proof (dev_write_bytes_sig d (offset_in (shared b1) addr d) data (shared b1)) as S.
  destruct (dev_write_bytes _ _ _ _) as [d' sh']. etrans; [exact K|]. by apply keeps_set with d.
Qed.

(** ** Construction *)

Lemma sort_by_key_perm (k : Device X -> Z) (l : list (Device X)) : sort_by_key k l ≡ₚ l.
Proof.
  assert (I : forall d l, insert_by_key k d l ≡ₚ d :: l).
  { clear. intros d l. induction l as [|e l IH]; simpl; [done|]. destruct (_ <=? _); [done|].
    rewrite IH. apply perm_swap. }
  induction l as [|d l IH]; simpl; [done|]. by rewrite I, IH.
Qed.

Lemma layout_ok_perm (l l' : list signature) : l ≡ₚ l' -> layout_ok l -> layout_ok l'.
Proof.
  intros H [H1 H2]. split.
  - by rewrite <-H.
  - intros raw. unfold claiming. rewrite <-H. apply H2.
Qed.

Lemma list_find_image {A B} (f : A -> B) (P : B -> Prop) (Q : A -> Prop)
    `{!forall b, Decision (P b)} `{!forall a, Decision (Q a)} (l : list A) :
  (forall a, Q a <-> P (f a)) -> fst <$> list_find P (f <$> l) = fst <$> list_find Q l.
Proof.
  intros E. induction l as [|a l IH]; simpl; [done|]. specialize (E a).
  destruct (decide (P (f a))), (decide (Q a)); [done|tauto..|].
  destruct (list_find P _) as [[? ?]|], (list_find Q l) as [[? ?]|]; simpl in *; congruence.
Qed.

Lemma find_name_sigs n (size : Z) (l : list (Device X)) : find_name n l = name_idx n (sig size <$> l).
Proof.
  unfold find_name, name_idx. by rewrite (list_find_image (sig size) _ (fun d : Device X => dev_name d = n)).
Qed.

Definition build (width latency : Z) (sh : Shared) (ds : list (Device X)) : bus :=
  foldl add_device (bus_new width latency sh) ds.

Lemma build_shape width latency sh ds :
  let b := build width latency sh ds in
  shared b = sh /\ sigs b ≡ₚ sig (db_size (sh_dram sh)) <$> ds
  /\ ram_idx b = name_idx "DRAM" (sigs b) /\ htif_idx b = name_idx "HTIF" (sigs b).
Proof.
  unfold build. induction ds as [|d ds IH] using rev_ind; [done|].
  rewrite foldl_snoc. destruct IH as (IHs & IHp & _). set (b := foldl _ _ ds) in *. unfold sigs in *.
  change (shared (add_device b d)) with (shared b). rewrite IHs in *.
  change (devices (add_device b d)) with (sort_by_key (fun d => (dev_range (shared b) d).1) (devices b ++ [d])).
  split_and!; [done| |by apply find_name_sigs..].
  rewrite sort_by_key_perm, !fmap_app, IHp. done.
Qed.

(** ** Routing after any history *)

Inductive bus_op :=
| BRead (s : AccessSize) (raw : Z)
| BWrite (s : AccessSize) (raw val : Z)
| BLoad (data : list Z) (addr : Z)
| BTick.
Definition bus_exec (b : bus) (o : bus_op) : bus :=
  match o with
  | BRead s raw => (bus_read b s raw).2
  | BWrite s raw v => bus_write b s raw v
  | BLoad data addr => load_binary_at b data addr
  | BTick => (bus_tick b).2
  end.

Lemma bus_run_keeps b ops : keeps b (foldl bus_exec b ops).
Proof.
  revert b. induction ops as [|o ops IH]; intros b; [done|]. simpl. etrans; [|apply IH].
  destruct o; [apply bus_read_keeps|apply bus_write_keeps|apply load_binary_keeps|apply bus_tick_keeps].
Qed.

(** The reference: HTIF first, then the first device in address order. *)
Definition route (htif : option nat) (l : list signature) (raw : Z) : option nat :=
  let scan := fst <$> list_find (fun s : signature => in_span raw s.2 = true) l in
  match htif ≫= fun i => l !! i with
  | Some s => if in_span raw s.2 then htif else scan
  | None => scan
  end.

Lemma scan_sigs b raw :
  fst <$> list_find (fun s : signature => in_span raw s.2 = true) (sigs b)
  = fst <$> list_find (fun d => in_range (shared b) raw d = true) (devices b).
Proof.
  apply list_find_image. intros d. by rewrite sig_range.
Qed.

Lemma find_device_route b raw :
  bus_wf b -> (find_device b raw).1 = route (htif_idx b) (sigs b) raw.
Proof.
  intros Hb. destruct (find_device_routes b raw Hb) as [_ R]. revert R. unfold route. rewrite scan_sigs.
  assert (C : match htif_idx b ≫= fun i => sigs b !! i with Some s => in_span raw s.2 | None => false end
              = claims_opt b raw (htif_idx b)).
  { destruct (htif_idx b) as [i|]; [|done]. simpl. unfold claims_addr, sigs. rewrite list_lookup_fmap.
    destruct (devices b !! i) as [d|]; [|done].
    exact (f_equal (in_span raw) (sig_range (shared b) d)). }
  unfold find_device. destruct (claims_opt b raw (htif_idx b)) eqn:Hh.
  - intros _. simpl. destruct (htif_idx b ≫= _) as [s|]; [|done]. by rewrite C.
  - set (scan := fst <$> _). intros R.
    replace (match htif_idx b ≫= _ with Some _ => _ | None => _ end) with scan
      by (destruct (htif_idx b ≫= _); [by rewrite C|done]).
    assert (U : forall i, claims_addr b raw i = true -> Some i = scan).
    { intros i (d & Hi & Hd)%claims_addr_Some. unfold scan.
      destruct (list_find _ (devices b)) as [[j e]|] eqn:E.
      - apply list_find_Some in E as (Hj & He & _). simpl. f_equal. by eapply claim_unique.
      - apply list_find_None in E. eapply Forall_lookup_1 in E; [|exact Hi]. done. }
    destruct (claims_addr b raw (last_device_idx b)) eqn:Hl; [by apply U|].
    destruct (claims_opt b raw (ram_idx b)) eqn:Hr.
    + destruct (ram_idx b) as [i|]; [by apply U|done].
    + unfold scan. by destruct (list_find _ _) as [[? ?]|].
Qed.

Lemma build_wf width latency sh ds :
  layout_ok (sig (db_size (sh_dram sh)) <$> ds) -> bus_wf (build width latency sh ds).
Proof.
  intros H. destruct (build_shape width latency sh ds) as (_ & Hp & Hr & Hh). split; [|done|done].
  eapply layout_ok_perm; [|exact H]. by symmetry.
Qed.

(** Routing after any history equals routing on the fresh bus, reaches the
    device that owns the address, and misses exactly the invalid addresses. *)
Lemma bus_routing_exact width latency sh ds ops raw :
  layout_ok (sig (db_size (sh_dram sh)) <$> ds) ->
  let b0 := build width latency sh ds in
  let b := foldl bus_exec b0 ops in
  (find_device b raw).1 = route (htif_idx b0) (sigs b0) raw /\
  match (find_device b raw).1 with
  | Some i => routes_to b raw i /\ is_valid_addr b raw = true
  | None => is_valid_addr b raw = false
  end.
Proof.
  intros Hl b0 b. pose proof (bus_run_keeps b0 ops) as K. fold b in K.
  assert (Hb : bus_wf b) by (eapply keeps_wf; [exact K|by apply build_wf]).
  split; [rewrite find_device_route by done; destruct K as (-> & _ & -> & _); done|].
  destruct (find_device_routes b raw Hb) as [_ R]. destruct (find_device b raw).1 as [i|].
  - split; [done|]. apply is_valid_addr_iff. destruct R as (d & ? & ? & _). eauto.
  - apply not_true_iff_false. rewrite is_valid_addr_iff. intros (i & d & Hi & Hd). specialize (R i d Hi). congruence.
Qed.

(** ** Writes to the RAM *)

(** An access the RAM owns reaches the shared buffer and nothing else. *)
Lemma bus_write_ram b s raw v base i :
  bus_wf b -> claims_opt b raw (htif_idx b) = false ->
  devices b !! i = Some (DMemory base) -> in_range (shared b) raw (DMemory base) = true ->
  exists k, bus_write b s raw v
            = b <| last_device_idx := k |> <| shared := dram_write (shared b) (raw - base) (size_bytes s) v |>.
Proof.
  intros Hb Hh Hi Hr. unfold bus_write. destruct (find_device_routes b raw Hb) as [[k Ek] R].
  rewrite (surjective_pairing (find_device b raw)), Ek.
  destruct (find_device b raw).1 as [j|]; [|by rewrite (R i _ Hi) in Hr].
  destruct R as (d & Hj & Hd & _). assert (j = i) as -> by (by eapply claim_unique).
  change (devices (b <| last_device_idx := k |>)) with (devices b). rewrite Hi.
  change (shared (b <| last_device_idx := k |>)) with (shared b). cbn [dev_write].
  exists k. rewrite list_insert_id by done. by destruct b.
Qed.

(** ** Reads of the RAM *)

Lemma bus_read_ram b s raw base i :
  bus_wf b -> claims_opt b raw (htif_idx b) = false ->
  devices b !! i = Some (DMemory base) -> in_range (shared b) raw (DMemory base) = true ->
  raw - base + Z.of_nat (size_bytes s) <= db_size (sh_dram (shared b)) ->
  exists k, bus_read b s raw = (db_peek (sh_dram (shared b)) (raw - base) (size_bytes s), b <| last_device_idx := k |>).
Proof.
  intros Hb Hh Hi Hr Hs. unfold bus_read. destruct (find_device_routes b raw Hb) as [[k Ek] R].
  rewrite (surjective_pairing (find_device b raw)), Ek.
  destruct (find_device b raw).1 as [j|]; [|by rewrite (R i _ Hi) in Hr].
  destruct R as (d & Hj & Hd & _). assert (j = i) as -> by (by eapply claim_unique).
  change (devices (b <| last_device_idx := k |>)) with (devices b). rewrite Hi.
  change (shared (b <| last_device_idx := k |>)) with (shared b). cbn [dev_read].
  change (offset_in (shared b) raw (DMemory base)) with (raw - base).
  unfold dram_read. apply Z.leb_le in Hs. rewrite Hs. exists k. f_equal. rewrite list_insert_id by done. by destruct b.
Qed.

(** The content of the RAM, and the addresses of its words. *)
Definition ram_word (b : bus) (a : Z) : Z :=
  match ram_idx b ≫= fun i => devices b !! i with
  | Some (DMemory base) => db_peek (sh_dram (shared b)) (a - base) 8
  | _ => 0
  end.
Definition ram_spans (b : bus) (a : Z) : Prop :=
  bus_wf b /\ claims_opt b a (htif_idx b) = false /\
  exists i base, ram_idx b = Some i /\ devices b !! i = Some (DMemory base) /\
    in_range (shared b) a (DMemory base) = true /\ a - base + 8 <= db_size (sh_dram (shared b)).

Lemma bus_read_word b a :
  ram_spans b a -> exists k, bus_read b U64 a = (ram_word b a, b <| last_device_idx := k |>).
Proof.
  intros (Hb & Hh & i & base & Hx & Hi & Hr & Hs). destruct (bus_read_ram b U64 a base i Hb Hh Hi Hr Hs) as [k E].
  exists k. rewrite E. unfold ram_word. rewrite Hx. cbn [mbind option_bind]. by rewrite Hi.
Qed.
Lemma ram_spans_hint b k a : ram_spans b a -> ram_spans (b <| last_device_idx := k |>) a.
Proof. intros ([] & Hh & H). split; [by constructor|]. by split. Qed.

#[export] Instance Interconnect_memory : BusMemory bus.
Proof.
  refine {| bus_mem := ram_word; bus_plain := ram_spans |}.
  - intros b a H. cbn. by destruct (bus_read_word b a H) as [k ->].
  - intros b a H a'. cbn. by destruct (bus_read_word b a H) as [k ->].
  - intros b a a' H H'. cbn. destruct (bus_read_word b a H) as [k ->]. by apply ram_spans_hint.
Defined.

End Routing.
