(* ===== verification/Commit.v ===== *)
(** The commit stage ([backend/shared/commit.rs]): in-order retirement from the
    reorder buffer with its deferred architectural effects, and the drain of
    committed stores through the write-combining buffer, the cache hierarchy
    and the RAM or the bus. *)
From S2P Require Import Prelude Common Rob StoreBuffer StoreBufferSpec LoadQueue Rename Policy Prefetch Cache Tlb Csr Mmu Cpu WriteBuffer Dram Hierarchy Soc Plic Interconnect.
Set Primitive Projections.
Local Open Scope Z_scope.

Definition PC_TRACE_MAX : nat := 32.

(** What the stage asks of the branch predictor. *)
Class BranchUpdate (P : Type) := { update_branch : P -> Z -> bool -> option Z -> Ghr -> P }.

(** The counters of [cpu.stats] the stage bumps. *)
Record CommitStats := {
  cycles_wfi : Z; cycles_rob_empty : Z; retire_histogram : list Z;
  wcb_coalesces : Z; wcb_drains : Z;
  committed_branch_predictions : Z; committed_branch_mispredictions : Z;
  inst_load : Z; inst_store : Z; inst_fp_load : Z; inst_fp_store : Z; inst_branch : Z; inst_system : Z;
  inst_alu : Z; inst_fp_arith : Z; inst_fp_div_sqrt : Z; inst_fp_fma : Z
}.

(** [Cpu] with the fields the stage uses.  [ram_ptr] points to the start of
    the DRAM buffer, which the bus shares ([Interconnect.shared]). *)
Record Machine {X M P : Type} := {
  cpu : Cpu;
  bus : Interconnect X;
  controller : M;
  l2_cache : CacheSim DynPolicy DynPrefetcher;
  l3_cache : CacheSim DynPolicy DynPrefetcher;
  prefetch_filter : PrefetchFilter;
  inclusion_policy : InclusionPolicy;
  hier_stats : HierStats;
  wcb : WriteCombiningBuffer;
  branch_predictor : P;
  ram_start : Z;
  ram_end : Z;
  htif_range : option (Z * Z);
  committed_next_pc : Z;
  wfi_waiting : bool;
  wfi_pc : Z;
  redirect_pending : bool;
  pc_trace : list (Z * Z);
  stats : CommitStats
}.
Arguments Machine : clear implicits.

(** The other mutable arguments. *)
Record Backend := {
  be_rob : Rob;
  be_store_buffer : StoreBuffer;
  be_scoreboard : Scoreboard;
  be_committed_rename_map : RenameMap;
  be_free_list : FreeList;
  be_load_queue : option LoadQueue;
  be_prf : option PhysRegFile;
  be_checkpoints : option CheckpointTable
}.

Section Commit.
Context {X M P : Type} `{!ExtDevice X} `{!MemoryController M} `{!BranchUpdate P}.
Local Abbreviation machine := (Machine X M P).

Definition upd_cpu (f : Cpu -> Cpu) (m : machine) : machine := m <| cpu := f (cpu m) |>.
Definition upd_stats (f : CommitStats -> CommitStats) (m : machine) : machine := m <| stats := f (stats m) |>.

(** * Stores to memory *)

(** The hierarchy is spread over fields of [Cpu]. *)
Definition hierarchy (m : machine) : Hierarchy M := {|
  h_l1i := l1_i_cache (cpu m); h_l1d := l1_d_cache (cpu m); h_l2 := l2_cache m; h_l3 := l3_cache m;
  h_filter := prefetch_filter m; h_inclusion := inclusion_policy m; h_controller := controller m;
  h_transit := calculate_transit_time (bus m); h_cycles := cycles (cpu m); h_stats := hier_stats m |}.
Definition set_hierarchy (h : Hierarchy M) (m : machine) : machine :=
  m <| cpu := (cpu m) <| l1_i_cache := h_l1i h |> <| l1_d_cache := h_l1d h |> |>
    <| l2_cache := h_l2 h |> <| l3_cache := h_l3 h |> <| prefetch_filter := h_filter h |>
    <| controller := h_controller h |> <| hier_stats := h_stats h |>.
(** [let _latency = cpu.simulate_memory_access(addr, Write)] *)
Definition simulate_write (addr : Z) (m : machine) : machine :=
  set_hierarchy (simulate_memory_access (hierarchy m) addr Write).2 m.

Definition in_ram (m : machine) (raw : Z) : bool := (ram_start m <=? raw) && (raw <? ram_end m).

Definition access_size (w : MemWidth) : option AccessSize :=
  match w with WByte => Some U8 | WHalf => Some U16 | WWord => Some U32 | WDouble => Some U64 | WNop => None end.

(** [write_unaligned] through [ram_ptr]: outside the buffer its behaviour is
    undefined, here the failure of the host. *)
Definition ram_ptr_write (b : Interconnect X) (offset : Z) (s : AccessSize) (data : Z) : Interconnect X :=
  b <| shared := dram_write (shared b) offset (size_bytes s) data |>.

(** The memory side of [write_store_to_memory], with the fields of [Cpu] that
    tell RAM from devices. *)
Definition in_span_opt (r : option (Z * Z)) (raw : Z) : bool :=
  match r with Some (lo, hi) => (lo <=? raw) && (raw <? hi) | None => false end.
Definition write_bus (ram_start ram_end : Z) (htif_range : option (Z * Z)) (b : Interconnect X)
    (raw data : Z) (width : MemWidth) : Interconnect X :=
  let in_htif := in_span_opt htif_range raw in
  let is_ram := negb in_htif && ((ram_start <=? raw) && (raw <? ram_end)) in
  match access_size width with
  | None => b
  | Some s =>
      if is_ram then ram_ptr_write b (raw - ram_start) s data
      else bus_write b s raw (wrap (8 * Z.of_nat (size_bytes s)) data)
  end.
Definition write_store_to_memory (m : machine) (raw data : Z) (width : MemWidth) : machine :=
  m <| bus := write_bus (ram_start m) (ram_end m) (htif_range m) (bus m) raw data width |>.

Definition drain_store (store : StoreBufferEntry) (m : machine) : machine :=
  match sb_resolution store with
  | SCommitted paddr data =>
      let is_ram := in_ram m paddr in
      let m :=
        if negb (wcb_is_disabled (wcb m)) && is_ram then
          let '(evicted, w) := merge_store (wcb m) paddr data (StoreBufferSpec.width_bytes (sb_width store)) in
          let m := m <| wcb := w |> in
          match evicted with
          | None => upd_stats (fun s => s <| wcb_coalesces := incr (wcb_coalesces s) |>) m
          | Some line_addr => upd_stats (fun s => s <| wcb_drains := incr (wcb_drains s) |>)
                                        (simulate_write line_addr m)
          end
        else if is_ram then simulate_write paddr m else m in
      write_store_to_memory m paddr data (sb_width store)
  | _ => m
  end.

Definition drain_one_store (m : machine) (sb : StoreBuffer) : machine * StoreBuffer :=
  match sb_drain_one sb with
  | (sb, None) => (m, sb)
  | (sb, Some store) => (drain_store store m, sb)
  end.

Definition flush_wcb (m : machine) : machine :=
  let '(drains, w) := wcb_flush_all (wcb m) in
  foldl (fun m line_addr => upd_stats (fun s => s <| wcb_drains := incr (wcb_drains s) |>) (simulate_write line_addr m))
        (m <| wcb := w |>) drains.

(** One store of [drain_all_committed]: it bypasses the write-combining buffer. *)
Definition drain_direct (store : StoreBufferEntry) (m : machine) : machine :=
  match sb_resolution store with
  | SCommitted paddr data =>
      let m := if in_ram m paddr then simulate_write paddr m else m in
      write_store_to_memory m paddr data (sb_width store)
  | _ => m
  end.

(** [while let Some(store) = store_buffer.drain_one()]; each iteration removes
    an entry, so that the count of the buffer is enough fuel. *)
Fixpoint drain_loop (fuel : nat) (m : machine) (sb : StoreBuffer) : machine * StoreBuffer :=
  match fuel with
  | O => (m, sb)
  | S fuel =>
      match sb_drain_one sb with
      | (sb, None) => (m, sb)
      | (sb, Some store) => drain_loop fuel (drain_direct store m) sb
      end
  end.
Definition drain_all_committed (m : machine) (sb : StoreBuffer) : machine * StoreBuffer :=
  let '(m, sb) := drain_loop (S (sb_count sb)) m sb in (flush_wcb m, sb).

(** * Retirement *)

Definition is_fp_arith (op : AluOp) : bool :=
  match op with
  | FAdd | FSub | FMul | FMin | FMax | FSgnJ | FSgnJN | FSgnJX | FEq | FLt | FLe | FClass
  | FCvtWS | FCvtWUS | FCvtLS | FCvtLUS | FCvtSW | FCvtSWU | FCvtSL | FCvtSLU | FCvtSD | FCvtDS
  | FMvToX | FMvToF => true
  | _ => false
  end.

Definition update_instruction_stats (entry : RobEntry) (s : CommitStats) : CommitStats :=
  let c := re_ctrl entry in
  if mem_read c then
    if fp_reg_write c then s <| inst_fp_load := incr (inst_fp_load s) |> else s <| inst_load := incr (inst_load s) |>
  else if mem_write c then
    if rs2_fp c then s <| inst_fp_store := incr (inst_fp_store s) |> else s <| inst_store := incr (inst_store s) |>
  else if match control_flow c with Branch | Jump => true | Sequential => false end then
    s <| inst_branch := incr (inst_branch s) |>
  else if negb (bool_decide (system_op c = SysNone)) then s <| inst_system := incr (inst_system s) |>
  else if is_fp_arith (alu c) then s <| inst_fp_arith := incr (inst_fp_arith s) |>
  else match alu c with
       | FDiv | FSqrt => s <| inst_fp_div_sqrt := incr (inst_fp_div_sqrt s) |>
       | FMAdd | FMSub | FNMAdd | FNMSub => s <| inst_fp_fma := incr (inst_fp_fma s) |>
       | _ => s <| inst_alu := incr (inst_alu s) |>
       end.

Definition fallthrough (entry : RobEntry) : Z := add64 (re_pc entry) (inst_size_as_u64 (re_inst_size entry)).
Definition next_pc (entry : RobEntry) : Z :=
  match control_flow (re_ctrl entry) with
  | Jump => default (fallthrough entry) (re_bp_target entry)
  | Branch => if bp_taken (re_bp_outcome entry) then default (fallthrough entry) (re_bp_target entry)
              else fallthrough entry
  | Sequential => fallthrough entry
  end.

Definition push_pc_trace (entry : RobEntry) (l : list (Z * Z)) : list (Z * Z) :=
  let l := l ++ [(re_pc entry, re_inst entry)] in
  if (PC_TRACE_MAX <? length l)%nat then drop 1 l else l.

(** The commit pc, the trace, the counters and the branch predictor. *)
Definition retire_record (entry : RobEntry) (m : machine) : machine :=
  let m := m <| committed_next_pc := next_pc entry |> <| pc_trace := push_pc_trace entry (pc_trace m) |> in
  let m :=
    if negb (re_inst entry =? 0) && negb (re_inst entry =? 0x13) then
      upd_stats (update_instruction_stats entry)
        (upd_cpu (fun c => c <| instructions_retired := incr (instructions_retired c) |>) m)
    else m in
  if re_bp_update entry then
    upd_stats (fun s => if bp_mispredicted (re_bp_outcome entry)
                        then s <| committed_branch_mispredictions := incr (committed_branch_mispredictions s) |>
                        else s <| committed_branch_predictions := incr (committed_branch_predictions s) |>)
      (m <| branch_predictor := update_branch (branch_predictor m) (re_bp_pc entry) (bp_taken (re_bp_outcome entry))
                                  (re_bp_target entry) (re_bp_ghr_snapshot entry) |>)
  else m.

Definition writes_int (entry : RobEntry) : bool := reg_write (re_ctrl entry) && negb (reg_is_zero (re_rd entry)).

(** The register write, with the scoreboard, the free list and the committed
    rename map. *)
Definition write_regs (entry : RobEntry) (c : Cpu) : Cpu :=
  let val := default 0 (re_result entry) in
  if fp_reg_write (re_ctrl entry) then
    c <| regs := regs_write_f (regs c) (re_rd entry) val |> <| csrs := set_fs_dirty (csrs c) |>
  else if writes_int entry then c <| regs := regs_write (regs c) (re_rd entry) val |>
  else c.
Definition commit_mapping (entry : RobEntry) (is_fp : bool) (b : Backend) : Backend :=
  b <| be_scoreboard := scb_clear_if_match (be_scoreboard b) (re_rd entry) is_fp (re_tag entry) |>
    <| be_free_list := if negb (re_old_phys_dst entry =? re_phys_dst entry)
                       then fl_reclaim (be_free_list b) (re_old_phys_dst entry) else be_free_list b |>
    <| be_committed_rename_map := rm_set (be_committed_rename_map b) (re_rd entry) is_fp (re_phys_dst entry) |>.
Definition commit_regs (entry : RobEntry) (b : Backend) : Backend :=
  if fp_reg_write (re_ctrl entry) then commit_mapping entry true b
  else if writes_int entry then commit_mapping entry false b else b.

Definition apply_pte_update (entry : RobEntry) (m : machine) : machine :=
  match re_pte_update entry with
  | Some u => write_store_to_memory m (pte_addr u) (pte_value u) WDouble
  | None => m
  end.

Definition apply_fp_flags (entry : RobEntry) (c : Cpu) : Cpu :=
  if negb (re_fp_flags entry =? 0)
  then c <| csrs := set_fs_dirty ((csrs c) <| fflags := Z.lor (fflags (csrs c)) (re_fp_flags entry) |>) |>
  else c.

(** [cpu.pc = ...; cpu.redirect_pending = true] *)
Definition redirect_to (target : Z) (m : machine) : machine :=
  (upd_cpu (fun c => c <| pc := target |>) m) <| redirect_pending := true |>.

Definition apply_csr (entry : RobEntry) (u : CsrUpdate) (m : machine) (b : Backend) : machine * Backend :=
  let is_satp := cu_addr u =? CSR_SATP in
  let '(m, sb) := if is_satp then drain_all_committed m (be_store_buffer b) else (m, be_store_buffer b) in
  let m := if negb (cu_applied u) then upd_cpu (fun c => csr_write c (cu_addr u) (cu_new_val u)) m else m in
  (if is_satp then redirect_to (fallthrough entry) m else m, b <| be_store_buffer := sb |>).

Definition commit_wfi (entry : RobEntry) (m : machine) : machine :=
  let m :=
    if negb (mie (csrs (cpu m)) =? 0) || negb (mip (csrs (cpu m)) =? 0)
    then m <| wfi_waiting := true |> <| wfi_pc := fallthrough entry |>
    else redirect_to (fallthrough entry) m in
  m <| committed_next_pc := fallthrough entry |>.

(** A store-conditional whose reservation is gone. *)
Definition sc_failure (entry : RobEntry) (m : machine) (b : Backend) : machine * Backend :=
  let b := b <| be_store_buffer := sb_cancel (be_store_buffer b) (re_tag entry) |> in
  let '(m, b) :=
    if writes_int entry then
      (upd_cpu (fun c => c <| regs := regs_write (regs c) (re_rd entry) 1 |>) m,
       b <| be_prf := (fun prf => prf_write prf (re_phys_dst entry) 1) <$> be_prf b |>)
    else (m, b) in
  (redirect_to (fallthrough entry) m, b).

(** Release of the queue entries and the checkpoint. *)
Definition commit_store (entry : RobEntry) (m : machine) (b : Backend) : machine * Backend :=
  if mem_write (re_ctrl entry) then
    let clears := match re_lr_sc entry, sb_find_paddr (be_store_buffer b) (re_tag entry) with
                  | None, Some paddr => check_reservation (cpu m) paddr
                  | _, _ => false
                  end in
    (if clears then upd_cpu clear_reservation m else m,
     b <| be_store_buffer := sb_mark_committed (be_store_buffer b) (re_tag entry) |>)
  else (m, b).
Definition release_queues (entry : RobEntry) (b : Backend) : Backend :=
  b <| be_load_queue := if mem_read (re_ctrl entry)
                        then (fun lq => lq_deallocate lq (re_tag entry)) <$> be_load_queue b
                        else be_load_queue b |>
    <| be_checkpoints := match re_checkpoint_id entry with
                         | Some id => (fun ct => ct_free ct id) <$> be_checkpoints b
                         | None => be_checkpoints b
                         end |>.

(** Where the loop goes after an instruction: [break], or the next one. *)
Inductive after := Break | Next.

(** FENCE.I, FENCE, SFENCE.VMA and the end of the body. *)
Definition commit_fences (entry : RobEntry) (m : machine) (b : Backend) : after * machine * Backend :=
  let drained (m : machine) (b : Backend) : machine * Backend :=
    let '(m, sb) := drain_all_committed m (be_store_buffer b) in (m, b <| be_store_buffer := sb |>) in
  if decide (system_op (re_ctrl entry) = FenceI) then
    let '(m, b) := drained m b in
    let m := upd_cpu (fun c => c <| l1_i_cache := (cs_invalidate_all (l1_i_cache c)).2 |>) m in
    (Break, redirect_to (fallthrough entry) m, b)
  else
    let '(m, b) :=
      if decide (system_op (re_ctrl entry) = Fence) then
        let pred_bits := Z.land (Z.shiftr (re_inst entry) 24) 0xF in
        let pred_w := has_bits pred_bits 1 in
        let pred_r := has_bits pred_bits 2 in
        if pred_w || pred_r then drained m b else (m, b)
      else (m, b) in
    match re_sfence_vma entry with
    | Some info =>
        let m := upd_cpu (fun c => clear_reservation (sfence_vma_commit c info)) m in
        (Break, redirect_to (fallthrough entry) m, b)
    | None => (Next, upd_cpu (fun c => c <| regs := regs_write (regs c) (reg_new 0) 0 |>) m, b)
    end.

(** From the reservation to the end of the body. *)
Definition commit_memory (entry : RobEntry) (m : machine) (b : Backend) : after * machine * Backend :=
  let finish (m : machine) : after * machine * Backend :=
    let '(m, b) := commit_store entry m b in
    commit_fences entry m (release_queues entry b) in
  match re_lr_sc entry with
  | Some (Lr_record paddr) => finish (upd_cpu (fun c => set_reservation c paddr) m)
  | Some (Sc_record paddr) =>
      if check_reservation (cpu m) paddr then finish (upd_cpu clear_reservation m)
      else let '(m, b) := sc_failure entry m b in (Break, m, b)
  | None => finish m
  end.

(** The body after [commit_head] has popped a completed entry. *)
Definition retire (entry : RobEntry) (m : machine) (b : Backend) : after * machine * Backend :=
  let m := retire_record entry m in
  let m := upd_cpu (write_regs entry) m in
  let b := commit_regs entry b in
  let m := apply_pte_update entry m in
  let m := upd_cpu (apply_fp_flags entry) m in
  match re_csr_update entry with
  | Some u => let '(m, b) := apply_csr entry u m b in (Break, m, b)
  | None =>
      match system_op (re_ctrl entry) with
      | Mret => let m := upd_cpu do_mret m in (Break, m <| committed_next_pc := pc (cpu m) |>, b)
      | Sret => let m := upd_cpu do_sret m in (Break, m <| committed_next_pc := pc (cpu m) |>, b)
      | Wfi => (Break, commit_wfi entry m, b)
      | _ => commit_memory entry m b
      end
  end.

(** * The stage *)

Record CommitState := {
  c_machine : machine; c_backend : Backend; c_retired : nat; c_trap : option (Trap * Z)
}.

(** The loop body; the loop index is not used. *)
Definition commit_body (_ : nat) (st : CommitState) : flow CommitState CommitState :=
  let b := c_backend st in
  match rob_peek_head (be_rob b) with
  | None => Return st
  | Some head =>
      if bool_decide (re_state head = Completed) && mem_read (re_ctrl head)
         && sb_has_unresolved_store_before (be_store_buffer b) (re_tag head) then Return st
      else if decide (re_state head = Issued) then Return st
      else if decide (re_state head = Faulted) then
        match rob_commit_head (be_rob b) with
        | (rob, Some entry) =>
            let b := b <| be_rob := rob |> in
            match re_trap entry with
            | Some t =>
                let b := if negb (re_phys_dst entry =? 0)
                         then b <| be_free_list := fl_reclaim (be_free_list b) (re_phys_dst entry) |> else b in
                Return (st <| c_backend := b |> <| c_trap := Some (t, re_pc entry) |>)
            | None => Return (st <| c_backend := b |>)
            end
        | (rob, None) => Return (st <| c_backend := b <| be_rob := rob |> |>)
        end
      else if bool_decide (system_op (re_ctrl head) = SfenceVma) && sb_has_committed_stores (be_store_buffer b)
      then Return st
      else
        match rob_commit_head (be_rob b) with
        | (rob, None) => Return (st <| c_backend := b <| be_rob := rob |> |>)
        | (rob, Some entry) =>
            let '(next, m, b) := retire entry (c_machine st) (b <| be_rob := rob |>) in
            let st := st <| c_machine := m |> <| c_backend := b |> <| c_retired := S (c_retired st) |> in
            match next with Break => Return st | Next => Continue st end
        end
  end.

Definition bump_histogram (i : nat) (s : CommitStats) : CommitStats :=
  s <| retire_histogram := alter incr i (retire_histogram s) |>.

(** The part after the loop. *)
Definition commit_finish (rob_empty_at_start : bool) (st : CommitState)
    : option (Trap * Z) * machine * Backend :=
  let m := c_machine st in
  let m := if (c_retired st =? 0)%nat && rob_empty_at_start
           then upd_stats (fun s => s <| cycles_rob_empty := incr (cycles_rob_empty s) |>) m else m in
  let m := upd_stats (bump_histogram (Nat.min (c_retired st) 3)) m in
  let '(m, sb) := drain_one_store m (be_store_buffer (c_backend st)) in
  (c_trap st, m, (c_backend st) <| be_store_buffer := sb |>).

Definition commit_loop (width : nat) (m : machine) (b : Backend) : CommitState :=
  after_loop (list_scan commit_body (seq 0 width)
                {| c_machine := m; c_backend := b; c_retired := 0; c_trap := None |}) (fun st => st).

Definition interrupt_epc (m : machine) (b : Backend) : Z :=
  if wfi_waiting m then wfi_pc m
  else match rob_peek_head (be_rob b) with
       | Some head => re_pc head
       | None => committed_next_pc m
       end.

(** A waiting hart: it wakes up on a pending enabled interrupt that is not
    taken, else it counts the cycle. *)
Definition wfi_cycle (m : machine) : machine :=
  upd_stats (bump_histogram 0)
    (if negb (Z.land (mip (csrs (cpu m))) (mie (csrs (cpu m))) =? 0)
     then redirect_to (wfi_pc m) (m <| wfi_waiting := false |>)
     else upd_stats (fun s => s <| cycles_wfi := incr (cycles_wfi s) |>) m).

Definition commit_stage (width : nat) (m : machine) (b : Backend) : option (Trap * Z) * machine * Backend :=
  let epc := interrupt_epc m b in
  match check_interrupts (cpu m) with
  | Some interrupt => (Some (interrupt, epc), upd_stats (bump_histogram 0) (m <| wfi_waiting := false |>), b)
  | None =>
      if wfi_waiting m then (None, wfi_cycle m, b)
      else
        let rob_empty_at_start := match rob_peek_head (be_rob b) with None => true | Some _ => false end in
        commit_finish rob_empty_at_start (commit_loop width m b)
  end.

End Commit.
