(* ===== verification/CommitSpec.v ===== *)
(** Retirement is in program order and precise: the commit stage retires a
    prefix of the instructions in flight, applies the register writes of exactly
    that prefix, and reports a trap only at the boundary it stopped at. *)
From S2P Require Import Prelude Ring Common Rob RobSpec StoreBuffer StoreBufferSpec LoadQueue Rename Policy Prefetch Cache Tlb Csr Mmu Cpu WriteBuffer Dram Hierarchy Soc Plic Interconnect BusSpec Commit.
Local Open Scope Z_scope.

(** * What retirement must do *)

Section Spec.
Context {X M P : Type} `{!ExtDevice X} `{!MemoryController M} `{!BranchUpdate P}.
Local Abbreviation machine := (Machine X M P).

(** The register write of an instruction. *)
Definition arch_write (r : RegisterFile) (e : RobEntry) : RegisterFile :=
  if fp_reg_write (re_ctrl e) then regs_write_f r (re_rd e) (default 0 (re_result e))
  else if writes_int e then regs_write r (re_rd e) (default 0 (re_result e)) else r.

(** Instructions after which nothing else retires in the same cycle. *)
Definition serializing (e : RobEntry) : bool :=
  bool_decide (is_Some (re_csr_update e)) || bool_decide (is_Some (re_sfence_vma e))
  || match system_op (re_ctrl e) with Mret | Sret | Wfi | FenceI => true | _ => false end.

Definition is_sc (e : RobEntry) : Prop := exists p, re_lr_sc e = Some (Sc_record p).

(** Register state after retiring [l]; [failed] says that the last of them is a
    store-conditional that failed, whose destination becomes 1. *)
Definition arch_regs (r : RegisterFile) (l : list RobEntry) (failed : bool) : RegisterFile :=
  let r := foldl arch_write r l in
  match last l with
  | Some e => if failed && writes_int e then regs_write r (re_rd e) 1 else r
  | None => r
  end.

(** [commit_body] may not retire the head in this state. *)
Definition must_wait (b : Backend) (e : RobEntry) : Prop :=
  re_state e = Issued \/
  (mem_read (re_ctrl e) = true /\ sb_has_unresolved_store_before (be_store_buffer b) (re_tag e) = true) \/
  (system_op (re_ctrl e) = SfenceVma /\ sb_has_committed_stores (be_store_buffer b) = true).

(** * Operations that leave the register file alone *)

Lemma upd_stats_cpu (f : CommitStats -> CommitStats) (m : machine) : cpu (upd_stats f m) = cpu m.
Proof. done. Qed.

Lemma simulate_write_regs addr (m : machine) : regs (cpu (simulate_write addr m)) = regs (cpu m).
Proof. done. Qed.

Lemma write_store_cpu (m : machine) raw data w : cpu (write_store_to_memory m raw data w) = cpu m.
Proof. done. Qed.

Lemma drain_direct_regs e (m : machine) : regs (cpu (drain_direct e m)) = regs (cpu m).
Proof. unfold drain_direct. destruct (sb_resolution e); try done. rewrite write_store_cpu. by destruct (in_ram m _). Qed.

Lemma drain_store_regs e (m : machine) : regs (cpu (drain_store e m)) = regs (cpu m).
Proof.
  unfold drain_store. destruct (sb_resolution e); try done. rewrite write_store_cpu.
  destruct (negb _ && _); [|by destruct (in_ram m _)].
  destruct (merge_store _ _ _ _) as [[line|] w]; done.
Qed.

Lemma flush_wcb_regs (m : machine) : regs (cpu (flush_wcb m)) = regs (cpu m).
Proof.
  unfold flush_wcb. destruct (wcb_flush_all (wcb m)) as [drains w].
  change (regs (cpu m)) with (regs (cpu (m <| wcb := w |>))). generalize (m <| wcb := w |>). clear m.
  induction drains as [|d l IH]; intros m; [done|]. simpl foldl. rewrite IH. done.
Qed.

Lemma drain_loop_regs fuel (m : machine) sb : regs (cpu (drain_loop fuel m sb).1) = regs (cpu m).
Proof.
  revert m sb. induction fuel as [|fuel IH]; intros m sb; [done|]. simpl.
  destruct (sb_drain_one sb) as [sb' [e|]]; [|done]. by rewrite IH, drain_direct_regs.
Qed.

Lemma drain_all_regs (m : machine) sb : regs (cpu (drain_all_committed m sb).1) = regs (cpu m).
Proof.
  unfold drain_all_committed. pose proof (drain_loop_regs (S (sb_count sb)) m sb) as H.
  destruct (drain_loop _ m sb) as [m' sb']. simpl in *. by rewrite flush_wcb_regs.
Qed.

Lemma trap_regs c cause epc : is_ecall cause = false -> regs (trap c cause epc) = regs c.
Proof. intros H. unfold trap. rewrite H. repeat (case_match; try done). Qed.

Lemma csr_write_regs c x v : regs (csr_write c x v) = regs c.
Proof.
  unfold csr_write. repeat (destruct (_ =? _); [first [done|by apply trap_regs|unfold write_satp; by repeat case_match]|]).
  by repeat case_match.
Qed.

Lemma do_mret_regs c : regs (do_mret c) = regs c.
Proof. unfold do_mret. by repeat case_match. Qed.
Lemma do_sret_regs c : regs (do_sret c) = regs c.
Proof. unfold do_sret. by repeat case_match. Qed.
Lemma sfence_regs c i : regs (sfence_vma_commit c i) = regs c.
Proof. unfold sfence_vma_commit. by case_match. Qed.
Lemma apply_fp_flags_regs e c : regs (apply_fp_flags e c) = regs c.
Proof. unfold apply_fp_flags. by case_match. Qed.
Lemma retire_record_regs e (m : machine) : regs (cpu (retire_record e m)) = regs (cpu m).
Proof. unfold retire_record. destruct (negb _ && _), (re_bp_update e); done. Qed.

Lemma write_regs_arch e c : regs (write_regs e c) = arch_write (regs c) e.
Proof. unfold write_regs, arch_write. destruct (fp_reg_write _); [done|]. by destruct (writes_int e). Qed.

(** * One instruction *)

(** What the parts of [retire] after the register write guarantee. *)
Definition retire_ok (e : RobEntry) (r : RegisterFile) (rob : Rob) (res : after * machine * Backend) : Prop :=
  let '(nx, m, b) := res in
  be_rob b = rob /\
  ((regs (cpu m) = r /\ (nx = Break <-> serializing e = true)) \/
   is_sc e /\ nx = Break /\ redirect_pending m = true /\
   regs (cpu m) = if writes_int e then regs_write r (re_rd e) 1 else r).

Lemma commit_fences_ok e (m : machine) b :
  re_csr_update e = None -> system_op (re_ctrl e) ∉ [Mret; Sret; Wfi] ->
  retire_ok e (regs (cpu m)) (be_rob b) (commit_fences e m b).
Proof.
  intros Hc Hs. unfold commit_fences. destruct (decide (system_op (re_ctrl e) = FenceI)) as [HI|HI].
  - pose proof (drain_all_regs m (be_store_buffer b)) as D. destruct (drain_all_committed m _) as [m' sb'].
    split; [done|left; split; [exact D|]]. unfold serializing. rewrite HI, orb_true_r. done.
  - set (drained := if decide _ then _ else _).
    assert (D : regs (cpu drained.1) = regs (cpu m) /\ be_rob drained.2 = be_rob b).
    { unfold drained. destruct (decide _); [|done]. destruct (_ || _); [|done].
      pose proof (drain_all_regs m (be_store_buffer b)) as D. by destruct (drain_all_committed m _). }
    destruct drained as [m' b']. destruct D as [D1 D2]. destruct (re_sfence_vma e) as [info|] eqn:Hv.
    + split; [done|left; split]; [cbn; by rewrite sfence_regs|].
      unfold serializing. rewrite Hv, (bool_decide_true (is_Some (Some info))), orb_true_r by done. done.
    + split; [done|left; split; [exact D1|]]. unfold serializing. rewrite Hc, Hv.
      rewrite !bool_decide_false by (by intros [? [=]]). simpl.
      destruct (system_op (re_ctrl e)); try done; destruct Hs; set_solver.
Qed.

Lemma commit_memory_ok e (m : machine) b :
  re_csr_update e = None -> system_op (re_ctrl e) ∉ [Mret; Sret; Wfi] ->
  retire_ok e (regs (cpu m)) (be_rob b) (commit_memory e m b).
Proof.
  intros Hc Hs. unfold commit_memory.
  set (finish := fun m : machine => let '(m, b) := commit_store e m b in commit_fences e m (release_queues e b)).
  assert (F : forall m' : machine, regs (cpu m') = regs (cpu m) -> retire_ok e (regs (cpu m)) (be_rob b) (finish m')).
  { intros m' <-. unfold finish, commit_store. destruct (mem_write (re_ctrl e));
      [|by apply (commit_fences_ok e m' (release_queues e b))].
    set (clears := match re_lr_sc e with Some _ => _ | None => _ end).
    set (b' := b <| be_store_buffer := _ |>).
    destruct clears; [exact (commit_fences_ok e (upd_cpu clear_reservation m') (release_queues e b') Hc Hs)
                     |exact (commit_fences_ok e m' (release_queues e b') Hc Hs)]. }
  destruct (re_lr_sc e) as [[p|p]|] eqn:Hl; [by apply F| |by apply F].
  destruct (check_reservation (cpu m) p); [by apply F|].
  unfold sc_failure. destruct (writes_int e) eqn:Hw.
  - split; [done|right]. rewrite Hw. split_and!; [by exists p|done..].
  - split; [done|right]. rewrite Hw. split_and!; [by exists p|done..].
Qed.

Lemma retire_spec e (m : machine) b : retire_ok e (arch_write (regs (cpu m)) e) (be_rob b) (retire e m b).
Proof.
  unfold retire.
  set (m1 := upd_cpu (apply_fp_flags e) _). set (b1 := commit_regs e b).
  assert (Hr : regs (cpu m1) = arch_write (regs (cpu m)) e).
  { unfold m1. cbn [upd_cpu]. change (cpu (upd_cpu ?f ?x)) with (f (cpu x)). rewrite apply_fp_flags_regs.
    unfold apply_pte_update. destruct (re_pte_update e); rewrite ?write_store_cpu;
      change (cpu (upd_cpu ?f ?x)) with (f (cpu x)); by rewrite write_regs_arch, retire_record_regs. }
  assert (Hb : be_rob b1 = be_rob b) by (unfold b1, commit_regs; by repeat case_match).
  rewrite <-Hr, <-Hb. clearbody m1 b1. destruct (re_csr_update e) as [u|] eqn:Hc.
  - assert (S : serializing e = true) by (unfold serializing; rewrite Hc; done).
    unfold apply_csr. destruct (cu_addr u =? CSR_SATP).
    + pose proof (drain_all_regs m1 (be_store_buffer b1)) as D. destruct (drain_all_committed m1 _) as [m2 sb2].
      split; [done|left; split; [|done]]. destruct (negb (cu_applied u)); simpl in *; by rewrite ?csr_write_regs.
    + split; [done|left; split; [|done]]. destruct (negb (cu_applied u)); simpl in *; by rewrite ?csr_write_regs.
  - destruct (system_op (re_ctrl e)) eqn:Hs; try (apply commit_memory_ok; [done|rewrite Hs; set_solver]);
      (assert (S : serializing e = true) by (unfold serializing; by rewrite Hs, orb_true_r));
      (split; [done|left; split; [|done]]).
    + apply do_mret_regs.
    + apply do_sret_regs.
    + unfold commit_wfi. by destruct (_ || _).
Qed.

(** * The loop *)

Lemma peek_commit r ss n :
  rob_inv r ss n ->
  match rob_peek_head r with
  | None => rob_queue r = []
  | Some e => exists q, rob_queue r = e :: q /\
      (re_state e <> Issued -> exists r', rob_commit_head r = (r', Some e) /\ rob_inv r' (drop 1 ss) n /\ rob_queue r' = q)
  end.
Proof.
  intros I. unfold rob_peek_head. destruct (Nat.eqb_spec (rob_count r) 0) as [E|E].
  - apply length_zero_iff_nil. by rewrite (length_rob_queue r).
  - pose proof (rob_queue_lookup r 0 ltac:(lia)) as H0.
    assert (Hs : ring_slot (length (rob_entries r)) (rob_head r) 0 = rob_head r).
    { apply ring_slot_0, (rob_ring _ _ _ I). }
    rewrite Hs in H0. destruct (rob_queue r) as [|e q] eqn:Eq; [done|]. injection H0 as ->.
    exists q. split; [done|]. intros Hne. destruct (rob_commit_refines r ss n I E Hne) as (I' & Hq & _).
    exists (rob_commit_head r).1. split_and!; [|done|].
    + unfold rob_commit_head. rewrite (proj2 (Nat.eqb_neq _ _)) by done. by rewrite decide_False.
    + rewrite Eq in Hq. by injection Hq as ->.
Qed.

(** The result of a run of the loop over the queue [q0]. *)
Record loop_ok (width : nat) (q0 : list RobEntry) (r0 : RegisterFile) (n0 : nat) (n : Z) (st : CommitState (X:=X) (M:=M) (P:=P))
    (ret : list RobEntry) (failed : bool) : Prop := {
  lo_inv : exists ss, rob_inv (be_rob (c_backend st)) ss n;
  lo_width : (length ret <= width)%nat;
  lo_count : c_retired st = (n0 + length ret)%nat;
  lo_completed : Forall (fun e => re_state e = Completed) ret;
  lo_serial : forall l1 e l2, ret = l1 ++ e :: l2 -> l2 <> [] -> serializing e = false;
  lo_regs : regs (cpu (c_machine st)) = arch_regs r0 ret failed;
  lo_failed : failed = true -> (exists e, last ret = Some e /\ is_sc e) /\ redirect_pending (c_machine st) = true;
  lo_trap : match c_trap st with
            | None => q0 = ret ++ rob_queue (be_rob (c_backend st))
            | Some (t, pc) => exists e, q0 = ret ++ e :: rob_queue (be_rob (c_backend st)) /\
                re_state e = Faulted /\ re_trap e = Some t /\ pc = re_pc e
            end;
  lo_stop : c_trap st = None ->
    length ret = width \/ failed = true \/ (exists e, last ret = Some e /\ serializing e = true) \/
    rob_queue (be_rob (c_backend st)) = [] \/
    exists e q, rob_queue (be_rob (c_backend st)) = e :: q /\ must_wait (c_backend st) e
}.

Lemma arch_regs_cons r e l failed : l <> [] -> arch_regs r (e :: l) failed = arch_regs (arch_write r e) l failed.
Proof. intros H. unfold arch_regs. rewrite last_cons. simpl. destruct (last l) eqn:E; [done|]. by apply last_None in E. Qed.

Definition faults_ok (l : list RobEntry) : Prop := Forall (fun e => re_state e = Faulted -> is_Some (re_trap e)) l.

Lemma loop_ok_stop st q0 r0 n width :
  (exists ss, rob_inv (be_rob (c_backend st)) ss n) -> c_trap st = None -> r0 = regs (cpu (c_machine st)) ->
  q0 = rob_queue (be_rob (c_backend st)) ->
  (width = 0%nat \/ q0 = [] \/ exists e q, q0 = e :: q /\ must_wait (c_backend st) e) ->
  loop_ok width q0 r0 (c_retired st) n st [] false.
Proof.
  intros HI Ht -> -> Hs. split; try (done || (simpl; lia)).
  - by intros [].
  - by rewrite Ht.
  - intros _. destruct Hs as [->|[Hq|Hq]]; [by left|by do 3 right; left|by do 4 right].
Qed.

(** A retired instruction in front of a run that continues. *)
Lemma loop_ok_cons width e q0 r0 r1 n0 n st ret failed :
  re_state e = Completed -> serializing e = false -> r1 = arch_write r0 e ->
  loop_ok width q0 r1 (S n0) n st ret failed -> loop_ok (S width) (e :: q0) r0 n0 n st (e :: ret) failed.
Proof.
  intros He Hn -> L. pose proof L as [HI Hw Hc Hf Hs Hr Hfl Ht Hst].
  assert (Hlast : ret <> [] -> last (e :: ret) = last ret).
  { intros Hne. rewrite last_cons. destruct (last ret) eqn:E; [done|]. by apply last_None in E. }
  split; [done|simpl; lia|simpl; lia|by constructor| | | | |].
  - intros [|x l1] y l2 [= -> ->] Hl2; [done|]. by eapply Hs.
  - destruct ret as [|y ret]; [|by rewrite arch_regs_cons].
    destruct failed; [by destruct (Hfl eq_refl) as [(? & ? & _) _]|]. exact Hr.
  - intros E. destruct (Hfl E) as [(y & Hy & Hsc) Hrp]. split; [|done]. exists y. split; [|done].
    rewrite Hlast; [done|]. by intros ->.
  - destruct (c_trap st) as [[t pc]|]; [|by rewrite Ht]. destruct Ht as (y & -> & ?). by exists y.
  - intros Hn0. destruct (Hst Hn0) as [Hx|[Hx|[(y & Hy & Hsr)|Hx]]]; [left; simpl; lia|by right; left| |by do 3 right].
    do 2 right. left. exists y. split; [|done]. rewrite Hlast; [done|]. by intros ->.
Qed.

(** A retired instruction that ends the run. *)
Lemma loop_ok_last width e q0 r0 n0 n st (nx : after) :
  re_state e = Completed -> rob_queue (be_rob (c_backend st)) = q0 -> (exists ss, rob_inv (be_rob (c_backend st)) ss n) ->
  c_retired st = S n0 -> c_trap st = None ->
  ((regs (cpu (c_machine st)) = arch_write r0 e /\ serializing e = true) \/
   is_sc e /\ redirect_pending (c_machine st) = true /\
   regs (cpu (c_machine st)) = if writes_int e then regs_write (arch_write r0 e) (re_rd e) 1 else arch_write r0 e) ->
  exists failed, loop_ok (S width) (e :: q0) r0 n0 n st [e] failed.
Proof.
  intros He Hq HI Hc Ht [[Hr Hs]|(Hsc & Hrp & Hr)].
  - exists false. split; try (done || (simpl; lia)); [by constructor| | |].
    + intros [|x l1] y l2 [= ? E] Hl2; [by subst l2|by destruct l1].
    + by rewrite Ht, Hq.
    + intros _. do 2 right. left. by exists e.
  - exists true. split; try (done || (simpl; lia)); [by constructor| | |].
    + intros [|x l1] y l2 [= ? E] Hl2; [by subst l2|by destruct l1].
    + intros _. split; [by exists e|done].
    + by rewrite Ht, Hq.
Qed.

Lemma commit_loop_spec (l : list nat) st ss n :
  rob_inv (be_rob (c_backend st)) ss n -> faults_ok (rob_queue (be_rob (c_backend st))) -> c_trap st = None ->
  exists ret failed, loop_ok (length l) (rob_queue (be_rob (c_backend st))) (regs (cpu (c_machine st))) (c_retired st) n
    (after_loop (list_scan commit_body l st) (fun st => st)) ret failed.
Proof.
  revert st ss. induction l as [|i l IH]; intros st ss I F Ht.
  { exists [], false. apply loop_ok_stop; eauto. }
  simpl list_scan. unfold commit_body at 1. pose proof (peek_commit _ _ _ I) as Hp.
  destruct (rob_peek_head _) as [e|] eqn:Ep.
  2: { exists [], false. apply loop_ok_stop; eauto. }
  destruct Hp as (q & Hq & Hpop).
  assert (Stop : must_wait (c_backend st) e -> exists ret failed, loop_ok (length (i :: l))
    (rob_queue (be_rob (c_backend st))) (regs (cpu (c_machine st))) (c_retired st) n st ret failed).
  { intros Hw. exists [], false. apply loop_ok_stop; eauto 6. }
  destruct (bool_decide (re_state e = Completed) && _ && _) eqn:Eg.
  { apply andb_true_iff in Eg as [[Hc Hm]%andb_true_iff Hu]. apply Stop. right. by left. }
  destruct (decide (re_state e = Issued)) as [Hi|Hi]; [apply Stop; by left|].
  destruct (Hpop Hi) as (r' & Hcm & I' & Hq'). rewrite Hcm, Hq.
  destruct (decide (re_state e = Faulted)) as [Hf|Hf].
  - rewrite Hq in F. apply Forall_cons in F as [F _]. destruct (F Hf) as [t Hte]. rewrite Hte.
    set (b' := if negb _ then _ else _). assert (Hb : be_rob b' = r') by (unfold b'; by destruct (negb _)).
    set (st' := st <| c_backend := b' |> <| c_trap := _ |>). change (after_loop _ _) with st'.
    assert (Hb' : be_rob (c_backend st') = r') by exact Hb. clearbody b'.
    exists [], false. split; try (done || (simpl; lia)).
    + exists (drop 1 ss). by rewrite Hb'.
    + by intros [].
    + change (c_trap st') with (Some (t, re_pc e)). exists e. by rewrite Hb', Hq'.
  - destruct (bool_decide (system_op (re_ctrl e) = SfenceVma) && _) eqn:Es.
    { rewrite <-Hq. apply Stop. apply andb_true_iff in Es as [Es%bool_decide_eq_true ?]. by do 2 right. }
    assert (Hc : re_state e = Completed) by by destruct (re_state e).
    pose proof (retire_spec e (c_machine st) ((c_backend st) <| be_rob := r' |>)) as R.
    destruct (retire _ _ _) as [[nx m'] b']. destruct R as [Hb R].
    change (be_rob ((c_backend st) <| be_rob := r' |>)) with r' in Hb.
    set (st' := st <| c_machine := m' |> <| c_backend := b' |> <| c_retired := S (c_retired st) |>).
    destruct nx.
    + destruct (loop_ok_last (length l) e q (regs (cpu (c_machine st))) (c_retired st) n st' Break) as (failed & L);
        try done.
      * change (be_rob (c_backend st')) with (be_rob b'). by rewrite Hb.
      * exists (drop 1 ss). change (be_rob (c_backend st')) with (be_rob b'). by rewrite Hb.
      * destruct R as [[Hr Hs]|(Hsc & _ & Hrp & Hr)]; [left; split; [exact Hr|by apply Hs]|right; by split_and!].
      * by exists [e], failed.
    + destruct R as [[Hr Hs]|(_ & [=] & _)].
      destruct (IH st' (drop 1 ss)) as (ret & failed & L).
      * change (be_rob (c_backend st')) with (be_rob b'). by rewrite Hb.
      * change (be_rob (c_backend st')) with (be_rob b'). rewrite Hb, Hq'. rewrite Hq in F. by inversion F.
      * done.
      * exists (e :: ret), failed. change (be_rob (c_backend st')) with (be_rob b') in L. rewrite Hb, Hq' in L.
        eapply loop_ok_cons; [done| |exact Hr|exact L].
        destruct (serializing e); [|done]. by pose proof (proj2 Hs eq_refl).
Qed.

(** * The stage *)

Definition reg_state (m : machine) : RegisterFile := regs (cpu m).
Definition in_flight (b : Backend) : list RobEntry := rob_queue (be_rob b).

(** A cycle that commits: [ret] retires, the rest stays in flight. *)
Record precise (width : nat) (m : machine) (b : Backend) (t : option (Trap * Z)) (m' : machine) (b' : Backend)
    (ret : list RobEntry) (failed : bool) : Prop := {
  pr_inv : exists ss n, rob_inv (be_rob b') ss n;
  pr_width : (length ret <= width)%nat;
  pr_completed : Forall (fun e => re_state e = Completed) ret;
  pr_serial : forall l1 e l2, ret = l1 ++ e :: l2 -> l2 <> [] -> serializing e = false;
  pr_regs : reg_state m' = arch_regs (reg_state m) ret failed;
  pr_failed : failed = true -> (exists e, last ret = Some e /\ is_sc e) /\ redirect_pending m' = true;
  pr_trap : match t with
            | None => in_flight b = ret ++ in_flight b'
            | Some (c, epc) => exists e, in_flight b = ret ++ e :: in_flight b' /\
                re_state e = Faulted /\ re_trap e = Some c /\ epc = re_pc e
            end;
  pr_stop : t = None ->
    length ret = width \/ failed = true \/ (exists e, last ret = Some e /\ serializing e = true) \/ in_flight b' = [] \/
    exists e q sb, in_flight b' = e :: q /\ be_store_buffer b' = (sb_drain_one sb).1 /\
      must_wait (b' <| be_store_buffer := sb |>) e
}.

Lemma drain_one_fields (m : machine) sb :
  let '(m', sb') := drain_one_store m sb in
  regs (cpu m') = regs (cpu m) /\ redirect_pending m' = redirect_pending m /\ sb' = (sb_drain_one sb).1.
Proof.
  unfold drain_one_store. destruct (sb_drain_one sb) as [sb' [e|]]; [|done]. split; [apply drain_store_regs|].
  split; [|done]. unfold drain_store, write_store_to_memory.
  destruct (sb_resolution e); try done. by repeat (case_match; simpl).
Qed.

(** The registers, bus and reservation of a cycle without retirement. *)
Lemma wfi_cycle_regs (m : machine) : regs (cpu (wfi_cycle m)) = regs (cpu m) /\ bus (wfi_cycle m) = bus m.
Proof. unfold wfi_cycle. by destruct (negb _). Qed.

Lemma commit_finish_spec w e st (m : machine) b n ret failed :
  loop_ok w (in_flight b) (reg_state m) 0 n st ret failed ->
  let '(t, m', b') := commit_finish e st in precise w m b t m' b' ret failed.
Proof.
  intros [HI Hw Hc Hf Hs Hr Hfl Ht Hst]. unfold commit_finish. set (m1 := upd_stats (bump_histogram _) _).
  assert (E1 : regs (cpu m1) = regs (cpu (c_machine st)) /\ redirect_pending m1 = redirect_pending (c_machine st))
    by (unfold m1; by destruct (_ && _)).
  pose proof (drain_one_fields m1 (be_store_buffer (c_backend st))) as D.
  destruct (drain_one_store m1 _) as [m' sb']. destruct D as (Dr & Dp & ->), E1 as [E1 E2]. clearbody m1.
  split; [|done..| | |exact Ht|].
  - destruct HI as [ss HI]. by exists ss, n.
  - unfold reg_state. by rewrite Dr, E1.
  - intros E. rewrite Dp, E2. by apply Hfl.
  - intros E. destruct (Hst E) as [Hx|[Hx|[Hx|[Hx|(y & q & Hq & Hm)]]]]; [by left|by right; left|by do 2 right; left
      |by do 3 right; left|]. do 4 right. by exists y, q, (be_store_buffer (c_backend st)).
Qed.

End Spec.
