(* ===== verification/CommitProps.v ===== *)
(** Properties of the commit stage and of the store drain: precise in-order
    retirement, the memory a full drain leaves behind, and the RAM fast path
    against the bus. *)
From stdpp Require Import strings.
From S2P Require Import Prelude Ring Common Rob RobSpec RobProps StoreBuffer StoreBufferSpec LoadQueue Rename Policy Prefetch Cache Tlb Csr Pmp Mmu MmuSpec Cpu CpuProps WriteBuffer Dram Hierarchy Soc Plic Interconnect BusSpec Commit CommitSpec.
Local Open Scope Z_scope.

Section Precise.
Context {X M P : Type} `{!ExtDevice X} `{!MemoryController M} `{!BranchUpdate P}.

(** C40. Commit is in order and precise.  An interrupt is taken with the pc of
    the oldest instruction in flight and nothing retired; a waiting hart changes
    no register and no memory.  Otherwise the stage retires a prefix of at most
    [width] completed instructions, no instruction follows a serializing one in
    the same cycle, the registers are those of exactly that prefix written in
    program order (a failed store-conditional yields 1 and redirects), a trap is
    reported only for the instruction at the boundary, with its pc, and the
    stage stops early only after a serializing or failed instruction, when
    nothing is left, or when the next instruction has to wait. *)
Theorem commit_stage_precise (width : nat) (m : Machine X M P) (b : Backend) (ss : list Z) (n : Z) :
  rob_inv (be_rob b) ss n -> faults_ok (in_flight b) ->
  let '(t, m', b') := commit_stage width m b in
  match check_interrupts (cpu m) with
  | Some irq =>
      t = Some (irq, interrupt_epc m b) /\ b' = b /\ cpu m' = cpu m /\ bus m' = bus m /\
      (forall e q, wfi_waiting m = false -> in_flight b = e :: q -> interrupt_epc m b = re_pc e)
  | None =>
      if wfi_waiting m then t = None /\ b' = b /\ reg_state m' = reg_state m /\ bus m' = bus m
      else exists ret failed, precise width m b t m' b' ret failed
  end.
Proof.
  intros I F. unfold commit_stage. destruct (check_interrupts (cpu m)) as [irq|].
  - split_and!; [done..|]. intros e q Hw Hq. unfold interrupt_epc. rewrite Hw.
    pose proof (peek_commit _ _ _ I) as Hp. unfold in_flight in Hq. destruct (rob_peek_head _) as [e'|].
    + destruct Hp as (q' & Hq' & _). congruence.
    + congruence.
  - destruct (wfi_waiting m); [split_and!; [done..| |]; apply wfi_cycle_regs|].
    set (st := {| c_machine := m; c_backend := b; c_retired := 0; c_trap := None |}).
    destruct (commit_loop_spec (seq 0 width) st ss n I F eq_refl) as (ret & failed & L).
    rewrite length_seq in L. pose proof (commit_finish_spec width
      (match rob_peek_head (be_rob b) with None => true | Some _ => false end) _ m b n ret failed L) as H.
    unfold commit_loop. destruct (commit_finish _ _) as [[t m'] b']. eauto.
Qed.

End Precise.

(** * Draining stores *)

Section Drain.
Context {X M P : Type} `{!ExtDevice X} `{!ExtDeviceLaws X} `{!MemoryController M} `{!BranchUpdate P}.
Local Abbreviation machine := (Machine X M P).

Definition dram (m : machine) : DramBuffer := sh_dram (shared (bus m)).
(** A store as a change of the bus; the machine gives the address map. *)
Definition store_to_bus (m : machine) (b : Interconnect X) (e : StoreBufferEntry) : Interconnect X :=
  match sb_resolution e with
  | SCommitted p d => write_bus (ram_start m) (ram_end m) (htif_range m) b p d (sb_width e)
  | _ => b
  end.

(** A store that lies in the RAM, and its effect on the bytes of the RAM. *)
Definition store_fits (m : machine) (e : StoreBufferEntry) : Prop :=
  match sb_resolution e with
  | SCommitted p d => in_ram m p = true /\ in_span_opt (htif_range m) p = false /\
      p - ram_start m + width_to_bytes (sb_width e) <= db_size (dram m)
  | _ => True
  end.
Definition store_effect (base : Z) (mem : Z -> Z) (e : StoreBufferEntry) : Z -> Z :=
  match sb_resolution e with
  | SCommitted p d => store_mem mem (p - base) (width_to_bytes (sb_width e)) d
  | _ => mem
  end.

Definition same_map (m m' : machine) : Prop :=
  ram_start m' = ram_start m /\ ram_end m' = ram_end m /\ htif_range m' = htif_range m.

Lemma store_to_bus_map m m' b e : same_map m m' -> store_to_bus m' b e = store_to_bus m b e.
Proof. intros (H1 & H2 & H3). unfold store_to_bus. by rewrite H1, H2, H3. Qed.

Lemma drain_direct_bus e (m : machine) : bus (drain_direct e m) = store_to_bus m (bus m) e /\ same_map m (drain_direct e m).
Proof.
  unfold drain_direct, store_to_bus. destruct (sb_resolution e) as [|p d|p d|]; try done.
  by destruct (in_ram m p).
Qed.

Lemma drain_loop_spec fuel (m : machine) sb :
  sb_inv sb -> (sb_count sb < fuel)%nat ->
  let '(m', sb') := drain_loop fuel m sb in
  exists done, sb_queue sb = done ++ sb_queue sb' /\ Forall (fun e => sr_is_committed (sb_resolution e) = true) done /\
    (forall e q, sb_queue sb' = e :: q -> sr_is_committed (sb_resolution e) = false) /\ sb_inv sb' /\
    bus m' = foldl (store_to_bus m) (bus m) done /\ same_map m m'.
Proof.
  revert m sb. induction fuel as [|fuel IH]; intros m sb I Hf; [lia|]. cbn [drain_loop].
  destruct (sb_drain_refines sb I) as (I' & _ & Hq). simpl in Hq.
  destruct (sb_drain_one sb) as [sb1 r]. simpl in *. rewrite <-!length_sb_queue in *.
  destruct (sb_queue sb) as [|e q] eqn:Eq.
  - injection Hq as Hq1 ->. exists []. rewrite Hq1. by split_and!.
  - destruct (sr_is_committed (sb_resolution e)) eqn:Ec; injection Hq as Hq1 ->.
    + destruct (drain_direct_bus e m) as [Hb Hm]. specialize (IH (drain_direct e m) sb1 I').
      rewrite <-length_sb_queue, Hq1 in IH. simpl in Hf. specialize (IH ltac:(lia)).
      destruct (drain_loop fuel _ sb1) as [m' sb']. destruct IH as (done & Hd & Hc & Hs & Hi & Hbus & Hmap).
      exists (e :: done). split_and!; [by rewrite Hd|by constructor|done|done| |].
      * rewrite Hbus, Hb. simpl. generalize (store_to_bus m (bus m) e). clear -Hm. induction done as [|x l IH]; intros b; [done|].
        simpl. by rewrite (store_to_bus_map _ _ _ _ Hm), IH.
      * destruct Hm as (? & ? & ?), Hmap as (? & ? & ?). split_and!; congruence.
    + exists []. rewrite Hq1. split_and!; try done. by intros ? ? [= -> ->].
Qed.

Lemma flush_wcb_bus (m : machine) : bus (flush_wcb m) = bus m /\ wcb_lines (wcb (flush_wcb m)) = [].
Proof.
  unfold flush_wcb. pose proof (wcb_flush_lines (wcb m)) as [_ Hl]. destruct (wcb_flush_all (wcb m)) as [drains w].
  match goal with |- context [foldl ?f _ _] => set (step := f) end.
  assert (G : forall l (m : machine), bus (foldl step m l) = bus m /\ wcb (foldl step m l) = wcb m).
  { induction l as [|d l IH]; intros m1; [done|]. simpl. by destruct (IH (step m1 d)) as [-> ->]. }
  destruct (G drains (m <| wcb := w |>)) as [-> ->]. by split.
Qed.

(** ** Bytes *)

Lemma le_byte_wrap (n : nat) v k : (k < n)%nat -> le_byte (wrap (8 * Z.of_nat n) v) k = le_byte v k.
Proof.
  intros Hk. unfold le_byte. apply Z.bits_inj'. intros i Hi. rewrite !wrap_testbit by lia.
  destruct (Z.ltb_spec i 8); [|done]. simpl. rewrite !Z.shiftr_spec, wrap_testbit by lia.
  by rewrite (proj2 (Z.ltb_lt _ _)) by lia.
Qed.

Lemma size_of_width w s : access_size w = Some s -> Z.of_nat (size_bytes s) = width_to_bytes w.
Proof. by destruct w; intros [= <-]. Qed.

Lemma store_to_ram (m : machine) e b :
  store_fits m e -> db_size (sh_dram (shared b)) = db_size (dram m) ->
  let b' := store_to_bus m b e in
  db_size (sh_dram (shared b')) = db_size (dram m) /\ sh_failed (shared b') = sh_failed (shared b) /\
  forall a, db_byte (sh_dram (shared b')) a = store_effect (ram_start m) (db_byte (sh_dram (shared b))) e a.
Proof.
  unfold store_fits, store_to_bus, store_effect, in_ram. destruct (sb_resolution e) as [|p d|p d|]; try done.
  intros (Hr & Hh & Hsz) Hb. unfold write_bus. rewrite Hh, Hr. simpl.
  destruct (access_size (sb_width e)) as [s|] eqn:Es.
  - apply size_of_width in Es. unfold ram_ptr_write, dram_write. rewrite Hb, Es.
    rewrite (proj2 (Z.leb_le _ _)) by done. split_and!; [done|done|]. intros a. rewrite <-Es. apply db_byte_poke.
  - destruct (sb_width e); try done. split_and!; [done|done|]. intros a. unfold store_mem. simpl.
    case_bool; [|done]. to_prop. lia.
Qed.

Lemma store_effect_ext base f g e a : (forall x, f x = g x) -> store_effect base f e a = store_effect base g e a.
Proof. intros H. unfold store_effect. destruct (sb_resolution e); try done. unfold store_mem. by rewrite H. Qed.
Lemma store_effects_ext base l : forall f g a,
  (forall x, f x = g x) -> foldl (store_effect base) f l a = foldl (store_effect base) g l a.
Proof. induction l as [|e l IH]; intros f g a H; [apply H|]. simpl. apply IH. intros x. by apply store_effect_ext. Qed.

Lemma stores_to_ram (m : machine) l b :
  Forall (store_fits m) l -> db_size (sh_dram (shared b)) = db_size (dram m) ->
  let b' := foldl (store_to_bus m) b l in
  sh_failed (shared b') = sh_failed (shared b) /\
  forall a, db_byte (sh_dram (shared b')) a = foldl (store_effect (ram_start m)) (db_byte (sh_dram (shared b))) l a.
Proof.
  intros Hl. revert b. induction Hl as [|e l He Hl IH]; intros b Hb; [done|]. simpl.
  destruct (store_to_ram m e b He Hb) as (Hs & Hf & Hm). destruct (IH _ Hs) as [Hf' Hm'].
  split; [by rewrite Hf', Hf|]. intros a. rewrite Hm'. by apply store_effects_ext.
Qed.

(** A full drain does what FENCE.I, FENCE and a write of satp rely on: the
    loop ends, having taken from the front of the store buffer exactly the
    committed stores up to the first uncommitted one, the bus has seen them once
    each in program order, the write-combining buffer is empty, and stores that
    lie in the RAM have changed exactly their bytes of it, without leaving the
    buffer. *)
Theorem drain_all_committed_exact (m : machine) (sb : StoreBuffer) :
  sb_inv sb ->
  let '(m', sb') := drain_all_committed m sb in
  sb_inv sb' /\ wcb_lines (wcb m') = [] /\
  exists done, sb_queue sb = done ++ sb_queue sb' /\ Forall (fun e => sr_is_committed (sb_resolution e) = true) done /\
    (forall e q, sb_queue sb' = e :: q -> sr_is_committed (sb_resolution e) = false) /\
    bus m' = foldl (store_to_bus m) (bus m) done /\
    (Forall (store_fits m) done ->
       sh_failed (shared (bus m')) = sh_failed (shared (bus m)) /\
       forall a, db_byte (dram m') a = foldl (store_effect (ram_start m)) (db_byte (dram m)) done a).
Proof.
  intros I. unfold drain_all_committed. pose proof (drain_loop_spec (S (sb_count sb)) m sb I ltac:(lia)) as H.
  destruct (drain_loop _ m sb) as [m' sb']. destruct H as (done & Hd & Hc & Hs & Hi & Hb & _).
  destruct (flush_wcb_bus m') as [Eb Ew]. split_and!; [done|done|]. exists done. unfold dram at 1. rewrite Eb, Hb.
  split_and!; [done..|]. intros Hfit. apply (stores_to_ram m done (bus m) Hfit eq_refl).
Qed.

(** ** The RAM fast path *)

(** The pointer, the address map and HTIF agree with the bus, as the
    constructor leaves them. *)
Record ram_linked (m : machine) : Prop := {
  rl_bus : bus_wf (bus m);
  rl_ram : exists i, devices (bus m) !! i = Some (DMemory (ram_start m));
  rl_end : ram_end m = ram_start m + db_size (dram m) /\ 0 <= ram_start m /\ 0 <= db_size (dram m) /\ ram_end m < 2 ^ 64;
  rl_htif : forall raw, in_ram m raw = true ->
    claims_opt (bus m) raw (htif_idx (bus m)) = in_span_opt (htif_range m) raw
}.

Lemma dram_write_wrap sh o n v : dram_write sh o n (wrap (8 * Z.of_nat n) v) = dram_write sh o n v.
Proof.
  unfold dram_write. destruct (_ <=? _); [|done]. unfold db_poke.
  assert (G : forall l m, Forall (fun k => (k < n)%nat) l ->
    foldl (fun m k => <[o + Z.of_nat k := le_byte (wrap (8 * Z.of_nat n) v) k]> m) m l
    = foldl (fun m k => <[o + Z.of_nat k := le_byte v k]> m) m l :> gmap Z Z).
  { induction l as [|k l IH]; intros m Hl; [done|]. apply Forall_cons in Hl as [Hk Hl]. simpl.
    rewrite le_byte_wrap by done. by apply IH. }
  rewrite (G (seq 0 n)); [done|]. apply Forall_forall. intros k Hk. apply elem_of_seq in Hk. lia.
Qed.

(** The fast path is an optimisation: with the address map linked to the
    bus, writing a store through the RAM pointer leaves the same devices, memory
    and exit signal as sending it over the bus does, up to the bus's
    last-device hint; HTIF inside the RAM still sees its stores; and the pointer
    leaves the buffer exactly when a store starts in the RAM and ends after it. *)
Theorem write_store_fast_path (m : machine) (raw data : Z) (w : MemWidth) (s : AccessSize) :
  ram_linked m -> access_size w = Some s ->
  let b := bus (write_store_to_memory m raw data w) in
  (exists k, b = (bus_write (bus m) s raw (wrap (8 * Z.of_nat (size_bytes s)) data)) <| last_device_idx := k |>) /\
  (in_ram m raw = true -> in_span_opt (htif_range m) raw = false ->
   sh_failed (shared b) = sh_failed (shared (bus m)) || (ram_end m <? raw + width_to_bytes w)).
Proof.
  intros [Hb [i Hi] (He & H0 & Hz & H64) Hh] Hs b. unfold b, write_store_to_memory.
  change (bus (m <| bus := ?x |>)) with x. unfold write_bus. rewrite Hs.
  change ((ram_start m <=? raw) && (raw <? ram_end m)) with (in_ram m raw).
  destruct (in_ram m raw) eqn:Er.
  - rewrite <-(Hh raw Er). destruct (claims_opt (bus m) raw (htif_idx (bus m))) eqn:Ec.
    { simpl. split; [|done]. by exists (last_device_idx (bus_write (bus m) s raw (wrap (8 * Z.of_nat (size_bytes s)) data))). }
    assert (Hr : in_range (shared (bus m)) raw (DMemory (ram_start m)) = true).
    { unfold in_range, in_span. simpl. unfold add64. rewrite wrap_small by (unfold in_width, dram in *; lia).
      unfold in_ram in Er. by rewrite He in Er. }
    destruct (bus_write_ram (bus m) s raw (wrap (8 * Z.of_nat (size_bytes s)) data) (ram_start m) i Hb Ec Hi Hr)
      as [k Ek].
    rewrite dram_write_wrap in Ek. simpl. split.
    + exists (last_device_idx (bus m)). rewrite Ek. unfold ram_ptr_write. by destruct (bus m).
    + intros _ _. unfold ram_ptr_write. change (shared ((bus m) <| shared := ?x |>)) with x. unfold dram_write.
      rewrite (size_of_width _ _ Hs). unfold dram in *.
      destruct (Z.leb_spec (raw - ram_start m + width_to_bytes w) (db_size (sh_dram (shared (bus m)))));
        destruct (Z.ltb_spec (ram_end m) (raw + width_to_bytes w)); try lia; simpl; by rewrite ?orb_false_r, ?orb_true_r.
  - rewrite andb_false_r. split; [|done]. by exists (last_device_idx (bus_write (bus m) s raw (wrap (8 * Z.of_nat (size_bytes s)) data))).
Qed.

End Drain.

(** * A small machine *)

(** No external devices. *)
#[export] Instance no_device : ExtDevice Empty_set := {|
  ext_name := Empty_set_rect _; ext_range := Empty_set_rect _; ext_read := Empty_set_rect _;
  ext_write := Empty_set_rect _; ext_tick := Empty_set_rect _; ext_irq_id := Empty_set_rect _ |}.
#[export] Instance no_device_laws : ExtDeviceLaws Empty_set.
Proof. split; intros []. Qed.
#[export] Instance no_predictor : BranchUpdate unit := {| update_branch p _ _ _ _ := p |}.

Definition demo_cell : Shared :=
  {| sh_dram := dram_buffer_new 4096; sh_exit_signal := U64_MAX; sh_host_time := 0; sh_failed := false; sh_hung := false |}.
(** 4 KiB of RAM with HTIF inside it, and the interrupt controllers. *)
Definition demo_devices : list (Device Empty_set) :=
  [DMemory 0x80000000; DClint (clint_new 0x2000000 10); DPlic (plic_new 0xC000000); DHtif 0x80000100].
Definition demo_bus : Interconnect Empty_set := build 8 2 demo_cell demo_devices.
Definition demo_stats : CommitStats := Build_CommitStats 0 0 [0; 0; 0; 0] 0 0 0 0 0 0 0 0 0 0 0 0 0 0.
Definition demo_machine (wcb_size : nat) : Machine Empty_set SimpleController unit := {|
  cpu := demo_hart; bus := demo_bus; controller := {| sc_latency := 30 |};
  l2_cache := demo_l1; l3_cache := demo_l1; prefetch_filter := filter_new 0 64; inclusion_policy := Nine;
  hier_stats := stats0; wcb := wcb_new wcb_size 64; branch_predictor := tt;
  ram_start := 0x80000000; ram_end := 0x80001000; htif_range := Some (0x80000100, 0x80000110);
  committed_next_pc := 0x80000000; wfi_waiting := false; wfi_pc := 0; redirect_pending := false;
  pc_trace := []; stats := demo_stats |}.

(** Two additions, an illegal instruction and a younger addition that has
    completed out of order. *)
Definition demo_write_ctrl : ControlSignals := ControlSignals_default <| reg_write := true |>.
Definition demo_commit_ops : list rob_op :=
  [OpAllocate 0x80000000 0x33 Standard 5 false demo_write_ctrl 40 5;
   OpAllocate 0x80000004 0x33 Standard 6 false demo_write_ctrl 41 6;
   OpAllocate 0x80000008 0xFFFFFFFF Standard 0 false ControlSignals_default 0 0;
   OpAllocate 0x8000000C 0x33 Standard 5 false demo_write_ctrl 42 40;
   OpComplete 1 77; OpComplete 4 99; OpComplete 2 78; OpFault 3 (IllegalInstruction 0xFFFFFFFF) StageDecode].
Definition demo_backend : Backend := {|
  be_rob := (rob_run (rob_new 4) demo_commit_ops).1; be_store_buffer := sb_new 2; be_scoreboard := scb_new;
  be_committed_rename_map := rm_new; be_free_list := fl_new 64 43; be_load_queue := None; be_prf := None;
  be_checkpoints := None |}.

Lemma demo_commit_span : run_in_span (rob_new 4) [] 0 demo_commit_ops.
Proof. apply (bool_decide_unpack _). by vm_compute. Qed.

Lemma demo_backend_inv : exists ss n, rob_inv (be_rob demo_backend) ss n.
Proof.
  destruct (rob_run_refines_inv demo_commit_ops (rob_new 4) [] 0) as [I _]; [|exact demo_commit_span|exact I].
  apply rob_new_inv. lia.
Qed.

Lemma demo_faults_ok : faults_ok (in_flight demo_backend).
Proof.
  unfold faults_ok. change (in_flight demo_backend) with (rob_queue (be_rob demo_backend)).
  vm_compute. repeat constructor; done || eauto.
Qed.

Lemma demo_commit_result :
  (let '(t, m', b') := commit_stage 4 (demo_machine 0) demo_backend in
   (t, regs_read (reg_state m') 5, re_tag <$> in_flight b'))
  = (Some (IllegalInstruction 0xFFFFFFFF, 0x80000008), 77, [4]).
Proof. vm_compute. reflexivity. Qed.

(** The first two retire, the third traps, the fourth leaves no trace. *)
Lemma commit_stage_precise_witness :
  let '(t, m', b') := commit_stage 4 (demo_machine 0) demo_backend in
  t = Some (IllegalInstruction 0xFFFFFFFF, 0x80000008) /\ regs_read (reg_state m') 5 = 77 /\
  (re_tag <$> in_flight b') = [4] /\
  exists ret failed, precise 4 (demo_machine 0) demo_backend t m' b' ret failed.
Proof.
  destruct demo_backend_inv as (ss & n & I).
  pose proof (commit_stage_precise 4 (demo_machine 0) demo_backend ss n I demo_faults_ok) as H.
  destruct (commit_stage 4 (demo_machine 0) demo_backend) as [[t m'] b'] eqn:E.
  change (check_interrupts (cpu (demo_machine 0))) with (@None Trap) in H.
  change (wfi_waiting (demo_machine 0)) with false in H. cbn iota in H.
  pose proof demo_commit_result as R. rewrite E in R. injection R as -> -> ->.
  split_and!; [done..|]. exact H.
Defined.

(** The layout of [demo_devices]: disjoint, HTIF aside. *)
Lemma demo_sigs : sig 4096 <$> demo_devices =
  [("DRAM", (0x80000000, 4096)); ("CLINT", (0x2000000, 0x10000)); ("PLIC", (0xC000000, 0x4000000));
   ("HTIF", (0x80000100, 16))]%string.
Proof. reflexivity. Qed.

Lemma claiming_cons raw n start size (l : list (string * (Z * Z))) :
  0 <= start -> 0 <= size -> start + size < 2 ^ 64 ->
  length (claiming raw ((n, (start, size)) :: l))
  = ((if decide (n <> "HTIF"%string /\ (start <= raw < start + size)%Z) then 1 else 0) + length (claiming raw l))%nat.
Proof.
  intros. unfold claiming at 1. rewrite filter_cons. cbn [fst snd]. unfold in_span. cbn [fst snd]. unfold add64.
  rewrite wrap_small by (unfold in_width; lia).
  repeat case_decide; rewrite ?andb_true_iff, ?Z.leb_le, ?Z.ltb_lt in *; simpl; tauto.
Qed.

Lemma demo_layout : layout_ok (sig 4096 <$> demo_devices).
Proof.
  rewrite demo_sigs. split; [by vm_compute|]. intros raw. rewrite !claiming_cons by lia. simpl.
  repeat case_decide; lia.
Qed.

Lemma demo_linked k : ram_linked (demo_machine k).
Proof.
  split.
  - apply (build_wf (X:=Empty_set)), demo_layout.
  - exists 2%nat. by vm_compute.
  - split_and!; by vm_compute.
  - intros raw _. change (claims_opt _ raw _) with (in_span raw (0x80000100, 16)). unfold in_span. simpl.
    by change (add64 2147483904 16) with 2147483920.
Qed.

(** Translation on this machine's bus: the root table, at the start of the RAM,
    maps the third gigabyte to itself. *)
Definition page_bus : Interconnect Empty_set := bus_write demo_bus U64 0x80000010 0x200000CF.
Definition page_csrs : Csrs := Csrs_default <| satp := Z.lor (Z.shiftl 8 60) 0x80000 |>.
Definition page_translation : TranslationResult * Mmu * Interconnect Empty_set :=
  translate_with_pmp demo_mmu 0x80000010 Read Supervisor page_csrs page_bus None.

Lemma page_tables_in_ram a :
  walk_reads (ram_word page_bus) (ptw_allowed None) (va_vpn 0x80000010) 2 0x80000 a -> ram_spans page_bus a.
Proof.
  intros ->%walk_reads_leaf; [|by vm_compute]. split; [|split; [by vm_compute|]].
  - eapply keeps_wf; [apply bus_write_keeps|]. apply (build_wf (X:=Empty_set)), demo_layout.
  - exists 2%nat, 0x80000000. repeat split; by vm_compute.
Qed.
Lemma translates_on_bus :
  tr_answer page_translation.1.1 = inr 0x80000010 /\ ram_word page_translation.2 0x80000010 = 0x200000CF.
Proof.
  pose proof (mmu_translate_ok (B := Interconnect Empty_set) 0x80000010 Read Supervisor page_csrs None ltac:(by split)
    (fun _ => 0x80000) demo_mmu page_bus ltac:(intros ? ? ? ? ? pa ? ?; by exists pa) eq_refl (or_intror eq_refl)
    page_tables_in_ram (mmu_new_coherent _ _ _ _ _ _ _ _)) as H.
  split; [by vm_compute|]. fold page_translation in H. destruct page_translation as [[res m] b]. destruct H as [Hm _].
  etrans; [exact (Hm 0x80000010)|by vm_compute].
Qed.

(** A double word that starts four bytes before the end of the RAM. *)
Lemma write_store_fast_path_witness :
  sh_failed (shared (bus (write_store_to_memory (demo_machine 0) 0x80000FFC 1 WDouble))) = true.
Proof.
  destruct (write_store_fast_path (demo_machine 0) 0x80000FFC 1 WDouble U64 (demo_linked 0) eq_refl) as [_ H].
  exact (H eq_refl eq_refl).
Defined.

(** A word and a byte inside it are committed, a younger store is not. *)
Definition demo_drain_ops : list sb_op :=
  [SbAllocate 1 WWord; SbAllocate 2 WByte; SbAllocate 3 WDouble;
   SbResolve 1 0x10 0x80000010 0xAABBCCDD; SbResolve 2 0x11 0x80000011 0x7F; SbMarkCommitted 1; SbMarkCommitted 2].
Definition demo_drain_sb : StoreBuffer := (sb_run (sb_new 4) demo_drain_ops).1.

Lemma drain_all_committed_exact_witness :
  let '(m', sb') := drain_all_committed (demo_machine 2) demo_drain_sb in
  (sb_rob_tag <$> sb_queue sb') = [3] /\ (db_byte (dram m') <$> [0x10; 0x11; 0x12; 0x13]) = [0xDD; 0x7F; 0xBB; 0xAA].
Proof.
  assert (I : sb_inv demo_drain_sb) by (apply sb_run_refines, sb_new_inv; lia).
  pose proof (drain_all_committed_exact (demo_machine 2) demo_drain_sb I) as H.
  assert (Q : sb_queue (drain_all_committed (demo_machine 2) demo_drain_sb).2 = drop 2 (sb_queue demo_drain_sb))
    by by vm_compute.
  destruct (drain_all_committed (demo_machine 2) demo_drain_sb) as [m' sb']. simpl in Q.
  destruct H as (_ & _ & done & Hd & _ & _ & _ & Hm). rewrite Q in Hd.
  rewrite <-(take_drop 2 (sb_queue demo_drain_sb)) in Hd at 1. apply app_inv_tail in Hd as <-.
  destruct Hm as [_ Hm]; [by repeat constructor|]. split; [by rewrite Q; vm_compute|].
  simpl. rewrite !Hm. reflexivity.
Defined.

(** ** What modelling showed *)

(** The HTIF device a configuration puts inside the RAM does not see stores when
    [htif_range] is not set, which only the loader's path does. *)
Example configured_htif_is_bypassed :
  let m := (demo_machine 0) <| htif_range := None |> in
  sh_exit_signal (shared (bus (write_store_to_memory m 0x80000100 1 WDouble))) = U64_MAX /\
  sh_exit_signal (shared (bus_write (bus m) U64 0x80000100 1)) = 0.
Proof. by vm_compute. Qed.

(** A failed store-conditional keeps the reservation of another address. *)
Definition demo_sc_entry : RobEntry :=
  RobEntry_default <| re_ctrl := demo_write_ctrl |> <| re_rd := 5 |> <| re_result := Some 0 |>
                   <| re_lr_sc := Some (Sc_record 0x80000800) |>.
Example failed_sc_keeps_reservation :
  let m := upd_cpu (fun c => set_reservation c 0x80000400) (demo_machine 0) in
  let '(_, m', _) := retire demo_sc_entry m demo_backend in
  regs_read (regs (cpu m')) 5 = 1 /\ check_reservation (cpu m') 0x80000400 = true.
Proof. by vm_compute. Qed.

(** The deferred update of a page table entry overwrites a store that reached
    the entry after the walk read it. *)
Definition demo_pte_entry : RobEntry :=
  RobEntry_default <| re_pte_update := Some {| pte_addr := 0x80000008; pte_value := 0x20000041 |} |>.
Example pte_update_overwrites_store :
  let m := write_store_to_memory (demo_machine 0) 0x80000008 0 WDouble in
  let '(_, m', _) := retire demo_pte_entry m demo_backend in
  db_peek (dram m) 8 8 = 0 /\ db_peek (dram m') 8 8 = 0x20000041.
Proof. by vm_compute. Qed.
