(* ===== verification/Latches.v ===== *)
(** The latches between the back-end stages ([core/pipeline/latches.rs]) and the
    stable sort by reorder buffer tag that two of the stages apply to them. *)
From S2P Require Import Prelude Common.
Set Primitive Projections.
Local Open Scope Z_scope.

(** ** Latches *)

Record ExMem1Entry := {
  ex_rob_tag : Z; ex_pc : Z; ex_inst : Z; ex_inst_size : InstSize;
  ex_rd : Z; ex_rd_phys : Z; ex_alu : Z; ex_store_data : Z;
  ex_ctrl : ControlSignals;
  ex_trap : option Trap; ex_exception_stage : option ExceptionStage;
  ex_fp_flags : Z; ex_sfence_vma : option SfenceVmaInfo
}.

Record Mem1Mem2Entry := {
  mm_rob_tag : Z; mm_pc : Z; mm_inst : Z; mm_inst_size : InstSize;
  mm_rd : Z; mm_rd_phys : Z; mm_alu : Z; mm_vaddr : Z; mm_paddr : Z; mm_store_data : Z;
  mm_ctrl : ControlSignals;
  mm_trap : option Trap; mm_exception_stage : option ExceptionStage;
  mm_fp_flags : Z; mm_complete_cycle : Z;
  mm_pte_update : option PteUpdate; mm_sfence_vma : option SfenceVmaInfo
}.

Record Mem2WbEntry := {
  mw_rob_tag : Z; mw_pc : Z; mw_inst : Z; mw_inst_size : InstSize;
  mw_rd : Z; mw_rd_phys : Z; mw_alu : Z; mw_load_data : Z;
  mw_ctrl : ControlSignals;
  mw_trap : option Trap; mw_exception_stage : option ExceptionStage;
  mw_fp_flags : Z;
  mw_pte_update : option PteUpdate; mw_sfence_vma : option SfenceVmaInfo; mw_lr_sc : option LrScRecord
}.

(** Loads, stores and atomics. *)
Definition is_atomic (ctrl : ControlSignals) : bool :=
  match atomic_op ctrl with AtomicNone => false | _ => true end.
Definition is_mem_op (ctrl : ControlSignals) : bool := mem_read ctrl || mem_write ctrl || is_atomic ctrl.

(** The link of a jump, the ALU result of anything else. *)
Definition alu_or_link (ctrl : ControlSignals) (pc : Z) (size : InstSize) (alu : Z) : Z :=
  match control_flow ctrl with Jump => add64 pc (inst_size_as_u64 size) | _ => alu end.

(** ** [stable_sort]: stable, ascending *)

Section Sort.
Context {A : Type} (key : A -> Z).

Fixpoint stable_insert (a : A) (l : list A) : list A :=
  match l with
  | [] => [a]
  | b :: l' => if key a <? key b then a :: b :: l' else b :: stable_insert a l'
  end.
Definition stable_sort (l : list A) : list A := foldl (fun acc a => stable_insert a acc) [] l.

Lemma stable_insert_perm a l : stable_insert a l ≡ₚ a :: l.
Proof.
  induction l as [|b l IH]; simpl; [done|]. case_bool; [done|]. rewrite IH. constructor.
Qed.
Lemma stable_sort_perm l : stable_sort l ≡ₚ l.
Proof.
  unfold stable_sort. rewrite <-(app_nil_l l) at 2. generalize (@nil A).
  induction l as [|a l IH]; intros acc; simpl; [by rewrite app_nil_r|].
  rewrite IH, stable_insert_perm. simpl. apply Permutation_middle.
Qed.

Definition key_le (a b : A) : Prop := key a <= key b.
Lemma stable_insert_sorted a l : StronglySorted key_le l -> StronglySorted key_le (stable_insert a l).
Proof.
  induction 1 as [|b l Hl IH Hb]; simpl; [by repeat constructor|]. case_bool; to_prop.
  - constructor; [by constructor|]. constructor; [unfold key_le; lia|].
    eapply Forall_impl; [exact Hb|]. unfold key_le. intros. lia.
  - constructor; [done|]. rewrite stable_insert_perm. constructor; [unfold key_le; lia|done].
Qed.
Lemma stable_sort_sorted l : StronglySorted key_le (stable_sort l).
Proof.
  unfold stable_sort. assert (StronglySorted key_le (@nil A)) as H by constructor. revert H.
  generalize (@nil A). induction l as [|a l IH]; intros acc H; simpl; [done|].
  by apply IH, stable_insert_sorted.
Qed.

Lemma stable_sort_length l : length (stable_sort l) = length l.
Proof. by rewrite (stable_sort_perm l). Qed.
Lemma elem_of_sort_by_key l a : a ∈ stable_sort l <-> a ∈ l.
Proof. by rewrite (stable_sort_perm l). Qed.

(** Sorting what is sorted changes nothing. *)
Lemma stable_insert_last a l : Forall (fun b => key_le b a) l -> stable_insert a l = l ++ [a].
Proof.
  induction 1 as [|b l Hb Hl IH]; simpl; [done|]. unfold key_le in Hb.
  destruct (Z.ltb_spec (key a) (key b)); [lia|]. by rewrite IH.
Qed.
Lemma stable_sort_id l : StronglySorted key_le l -> stable_sort l = l.
Proof.
  intros H. unfold stable_sort. enough (G : forall acc, StronglySorted key_le (acc ++ l) ->
    foldl (fun acc a => stable_insert a acc) acc l = acc ++ l) by (by apply (G [])).
  clear H. induction l as [|a l IH]; intros acc H; simpl; [by rewrite app_nil_r|].
  rewrite stable_insert_last.
  - rewrite IH; rewrite <-app_assoc; [done|]. exact H.
  - clear IH. induction acc as [|b acc IH]; [constructor|]. simpl in H. apply StronglySorted_inv in H as [H Hb].
    constructor; [|by apply IH]. rewrite Forall_app, Forall_cons in Hb. naive_solver.
Qed.

End Sort.
