(* ===== verification/MemDep.v ===== *)
(** Memory dependence prediction ([core/units/mdp/*.rs]): the store-set
    predictor of Chrysos and Emer and the unit that caches its predictions per
    instruction. *)
From S2P Require Import Prelude Common Rob RobSpec.
Set Primitive Projections.
Local Open Scope Z_scope.

(** ** Predictions ([mem_dep_predictor.rs]) *)

Inductive MemPrediction := NoDep | DepOn (tag : Z).

Record MdpStats := {
  predictions_bypass : Z; predictions_wait_all : Z; predictions_wait_for : Z; violations : Z
}.
Definition mdp_stats_default : MdpStats := Build_MdpStats 0 0 0 0.

(** ** The store-set predictor ([store_set.rs], [types.rs]) *)

(** The sizes [StoreSetConfig] gives. *)
Record StoreSetConfig := { ssit_size : nat; lfst_size : nat; cfg_ssit_clear_interval : Z }.

Record StoreSetPredictor := {
  ssit : list (option Z);
  lfst : list (option Z);
  next_set_id : Z;
  max_sets : Z;
  tick_counter : Z;
  ssit_clear_interval : Z
}.

Definition store_set_new (config : StoreSetConfig) : StoreSetPredictor := {|
  ssit := replicate (ssit_size config) None; lfst := replicate (lfst_size config) None;
  next_set_id := 0; max_sets := u16 (Z.of_nat (lfst_size config)); tick_counter := 0;
  ssit_clear_interval := cfg_ssit_clear_interval config |}.

(** [SsitIndex::from_pc]; an empty table is a division by zero in the code. *)
Definition ssit_from_pc (pc : Z) (table_size : nat) : nat :=
  Z.to_nat (u32 (Z.shiftr pc 2) mod u32 (Z.of_nat table_size)).
Definition ssit_index (self : StoreSetPredictor) (pc : Z) : nat := ssit_from_pc pc (length (ssit self)).
Definition ss_set_of (self : StoreSetPredictor) (pc : Z) : option Z := ssit self !!! ssit_index self pc.

Definition ss_predict (self : StoreSetPredictor) (pc : Z) : MemPrediction :=
  match ss_set_of self pc with
  | None => NoDep
  | Some set_id => match lfst self !!! Z.to_nat set_id with Some tag => DepOn tag | None => NoDep end
  end.

Definition ss_register_store (self : StoreSetPredictor) (store_pc rob_tag : Z) : StoreSetPredictor :=
  match ss_set_of self store_pc with
  | Some set_id => self <| lfst := <[Z.to_nat set_id := Some rob_tag]> (lfst self) |>
  | None => self
  end.

Definition ss_train (self : StoreSetPredictor) (load_pc store_pc : Z) : StoreSetPredictor :=
  let load_idx := ssit_index self load_pc in
  let store_idx := ssit_index self store_pc in
  match ssit self !!! load_idx, ssit self !!! store_idx with
  | None, None =>
      let id := next_set_id self in
      self <| next_set_id := u16 (next_set_id self + 1) mod max_sets self |>
           <| ssit := <[store_idx := Some id]> (<[load_idx := Some id]> (ssit self)) |>
  | None, Some sid => self <| ssit := <[load_idx := Some sid]> (ssit self) |>
  | Some lid, None => self <| ssit := <[store_idx := Some lid]> (ssit self) |>
  | Some lid, Some sid =>
      if negb (lid =? sid) then self <| ssit := <[load_idx := Some sid]> (ssit self) |> else self
  end.

Definition ss_rebuild_lfst_entry (self : StoreSetPredictor) (store_pc rob_tag : Z) : StoreSetPredictor :=
  match ss_set_of self store_pc with
  | Some set_id =>
      match lfst self !!! Z.to_nat set_id with
      | None => self <| lfst := <[Z.to_nat set_id := Some rob_tag]> (lfst self) |>
      | Some current =>
          if is_newer_than rob_tag current
          then self <| lfst := <[Z.to_nat set_id := Some rob_tag]> (lfst self) |> else self
      end
  | None => self
  end.

Definition ss_flush (self : StoreSetPredictor) : StoreSetPredictor :=
  self <| lfst := replicate (length (lfst self)) None |>.

Definition drop_newer (keep_tag : Z) (entry : option Z) : option Z :=
  match entry with
  | Some tag => if is_newer_than tag keep_tag then None else Some tag
  | None => None
  end.
Definition ss_flush_after (self : StoreSetPredictor) (keep_tag : Z) : StoreSetPredictor :=
  self <| lfst := drop_newer keep_tag <$> lfst self |>.

Definition ss_tick (self : StoreSetPredictor) : StoreSetPredictor :=
  let counter := add64 (tick_counter self) 1 in
  let self := self <| tick_counter := counter |> in
  if (0 <? ssit_clear_interval self) && (counter mod ssit_clear_interval self =? 0)
  then self <| ssit := replicate (length (ssit self)) None |> else self.

(** ** The unit ([mem_dep_unit.rs]) *)

Inductive MemDepState := MdNone | MdBypass | MdWaitAll | MdWaitFor (barrier : Z) | MdResolved (barrier : Z).
#[export] Instance MemDepState_eq_dec : EqDecision MemDepState.
Proof. solve_decision. Defined.

Inductive PredictorKind := PkBlind | PkStoreSet (p : StoreSetPredictor).
Record DepRecord := { dr_barrier : Z; dr_resolved : bool }.

Record MemDepUnit := { mdu_predictor : PredictorKind; mdu_deps : gmap Z DepRecord; mdu_stats : MdpStats }.

Definition mdu_new (kind : option StoreSetConfig) : MemDepUnit := {|
  mdu_predictor := match kind with None => PkBlind | Some c => PkStoreSet (store_set_new c) end;
  mdu_deps := ∅; mdu_stats := mdp_stats_default |}.

Definition count_bypass (s : MdpStats) : MdpStats := s <| predictions_bypass := add64 (predictions_bypass s) 1 |>.
Definition count_wait_all (s : MdpStats) : MdpStats := s <| predictions_wait_all := add64 (predictions_wait_all s) 1 |>.
Definition count_wait_for (s : MdpStats) : MdpStats := s <| predictions_wait_for := add64 (predictions_wait_for s) 1 |>.

(** A load without a dependency bypasses; a store has nothing to wait for. *)
Definition mdu_no_dep (self : MemDepUnit) (is_load : bool) : MemDepState * MemDepUnit :=
  if is_load then (MdBypass, self <| mdu_stats := count_bypass (mdu_stats self) |>) else (MdNone, self).

Definition mdu_dispatch (self : MemDepUnit) (pc rob_tag : Z) (is_load is_store : bool) : MemDepState * MemDepUnit :=
  match mdu_predictor self with
  | PkBlind =>
      if is_load then (MdWaitAll, self <| mdu_stats := count_wait_all (mdu_stats self) |>) else (MdNone, self)
  | PkStoreSet p =>
      if negb is_load && negb is_store then (MdNone, self) else
      let prediction := ss_predict p pc in
      let self := self <| mdu_predictor := PkStoreSet (if is_store then ss_register_store p pc rob_tag else p) |> in
      match prediction with
      | NoDep => mdu_no_dep self is_load
      | DepOn barrier =>
          if is_older_than barrier rob_tag then
            (MdWaitFor barrier,
             self <| mdu_deps := <[rob_tag := {| dr_barrier := barrier; dr_resolved := false |}]> (mdu_deps self) |>
                  <| mdu_stats := count_wait_for (mdu_stats self) |>)
          else mdu_no_dep self is_load
      end
  end.

(** Whether the loop of [store_resolved] marks the record. *)
Definition waits_on (store_rob_tag : Z) (d : DepRecord) : bool :=
  (dr_barrier d =? store_rob_tag) && negb (dr_resolved d).
Definition mdu_store_resolved (self : MemDepUnit) (store_rob_tag : Z) : option Z * MemDepUnit :=
  let any_woken := existsb (fun kd => waits_on store_rob_tag kd.2) (map_to_list (mdu_deps self)) in
  let mark d := if waits_on store_rob_tag d then d <| dr_resolved := true |> else d in
  (if any_woken then Some store_rob_tag else None, self <| mdu_deps := mark <$> mdu_deps self |>).

Definition mdu_issued (self : MemDepUnit) (rob_tag : Z) : MemDepUnit :=
  self <| mdu_deps := delete rob_tag (mdu_deps self) |>.

Definition mdu_on_predictor (f : StoreSetPredictor -> StoreSetPredictor) (self : MemDepUnit) : MemDepUnit :=
  match mdu_predictor self with
  | PkBlind => self
  | PkStoreSet p => self <| mdu_predictor := PkStoreSet (f p) |>
  end.

Definition mdu_violation (self : MemDepUnit) (load_pc store_pc : Z) : MemDepUnit :=
  mdu_on_predictor (fun p => ss_train p load_pc store_pc)
    (self <| mdu_stats := (mdu_stats self) <| violations := add64 (violations (mdu_stats self)) 1 |> |>).

Definition mdu_flush (self : MemDepUnit) : MemDepUnit := mdu_on_predictor ss_flush (self <| mdu_deps := ∅ |>).

(** The rebuild loop of [flush_after] over the surviving entries. *)
Definition ss_rebuild (p : StoreSetPredictor) (entries : list RobEntry) : StoreSetPredictor :=
  foldl (fun p e => if mem_write (re_ctrl e) then ss_rebuild_lfst_entry p (re_pc e) (re_tag e) else p) p entries.
Definition mdu_flush_after (self : MemDepUnit) (keep_tag : Z) (rob : Rob) : MemDepUnit :=
  mdu_on_predictor (fun p => ss_rebuild (ss_flush_after p keep_tag) (rob_iter_in_order rob))
    (self <| mdu_deps := filter (fun kd => is_older_or_eq kd.1 keep_tag = true) (mdu_deps self) |>).

Definition mdu_tick (self : MemDepUnit) : MemDepUnit := mdu_on_predictor ss_tick self.
