(* ===== verification/IssueQueue.v ===== *)
(** The issue queue of the out-of-order engine ([backend/o3/issue_queue.rs]):
    dispatch, wakeup, select and recovery. *)
From S2P Require Import Prelude Common Rob StoreBuffer Rename RenameO3 Cpu Latches MemDep.
Set Primitive Projections.
Local Open Scope Z_scope.

Inductive FuType := IntAlu | IntMul | IntDiv | FpAdd | FpMul | FpFma | FpDivSqrt | FuBranch | FuMem.
#[export] Instance FuType_eq_dec : EqDecision FuType.
Proof. solve_decision. Defined.

Definition FU_TYPE_COUNT : nat := 9.
(** [fu_type as usize] *)
Definition fu_index (t : FuType) : nat :=
  match t with
  | IntAlu => 0 | IntMul => 1 | IntDiv => 2 | FpAdd => 3 | FpMul => 4 | FpFma => 5 | FpDivSqrt => 6
  | FuBranch => 7 | FuMem => 8
  end.

Definition classify (ctrl : ControlSignals) : FuType :=
  if mem_read ctrl || mem_write ctrl || is_atomic ctrl then FuMem else
  match control_flow ctrl with
  | Branch | Jump => FuBranch
  | Sequential =>
      match alu ctrl with
      | Mul | Mulh | Mulhsu | Mulhu => IntMul
      | Div | Divu | Rem | Remu => IntDiv
      | FMul => FpMul
      | FDiv | FSqrt => FpDivSqrt
      | FMAdd | FMSub | FNMAdd | FNMSub => FpFma
      | FAdd | FSub | FMin | FMax | FSgnJ | FSgnJN | FSgnJX | FEq | FLt | FLe | FClass
      | FCvtWS | FCvtWUS | FCvtLS | FCvtLUS | FCvtSW | FCvtSWU | FCvtSL | FCvtSLU | FCvtSD | FCvtDS
      | FMvToX | FMvToF => FpAdd
      | _ => IntAlu
      end
  end.

Record FuUnit := { fu_type : FuType; latency : Z; is_pipelined : bool; busy_until : Z }.

Definition is_free (u : FuUnit) (now : Z) : bool := busy_until u <=? now.
(** [(complete, unit)] *)
Definition acquire_unit (u : FuUnit) (now : Z) : Z * FuUnit :=
  let complete := add64 now (latency u) in
  (complete, u <| busy_until := if is_pipelined u then add64 now 1 else complete |>).

Record FuConfig := {
  num_int_alu : nat; int_alu_latency : Z; num_int_mul : nat; int_mul_latency : Z;
  num_int_div : nat; int_div_latency : Z; num_fp_add : nat; fp_add_latency : Z;
  num_fp_mul : nat; fp_mul_latency : Z; num_fp_fma : nat; fp_fma_latency : Z;
  num_fp_div_sqrt : nat; fp_div_sqrt_latency : Z; num_branch : nat; branch_latency : Z;
  num_mem : nat; mem_latency : Z
}.
Definition fu_config_default : FuConfig := {|
  num_int_alu := 4; int_alu_latency := 1; num_int_mul := 1; int_mul_latency := 3;
  num_int_div := 1; int_div_latency := 35; num_fp_add := 2; fp_add_latency := 4;
  num_fp_mul := 2; fp_mul_latency := 5; num_fp_fma := 2; fp_fma_latency := 5;
  num_fp_div_sqrt := 1; fp_div_sqrt_latency := 21; num_branch := 2; branch_latency := 1;
  num_mem := 2; mem_latency := 1 |}.

Definition add_units (t : FuType) (count : nat) (lat : Z) (pipelined : bool) : list FuUnit :=
  replicate count {| fu_type := t; latency := lat; is_pipelined := pipelined; busy_until := 0 |}.
(** [FuPool] is its list of units. *)
Definition fu_pool_new (c : FuConfig) : list FuUnit :=
  add_units IntAlu (num_int_alu c) (int_alu_latency c) true ++
  add_units IntMul (num_int_mul c) (int_mul_latency c) true ++
  add_units IntDiv (num_int_div c) (int_div_latency c) false ++
  add_units FpAdd (num_fp_add c) (fp_add_latency c) true ++
  add_units FpMul (num_fp_mul c) (fp_mul_latency c) true ++
  add_units FpFma (num_fp_fma c) (fp_fma_latency c) true ++
  add_units FpDivSqrt (num_fp_div_sqrt c) (fp_div_sqrt_latency c) false ++
  add_units FuBranch (num_branch c) (branch_latency c) true ++
  add_units FuMem (num_mem c) (mem_latency c) true.

Definition unit_available (t : FuType) (now : Z) (u : FuUnit) : bool := bool_decide (fu_type u = t) && is_free u now.
Definition has_free (pool : list FuUnit) (t : FuType) (now : Z) : bool := existsb (unit_available t now) pool.

(** [None] is the panic without a free unit. *)
Definition acquire (pool : list FuUnit) (t : FuType) (now : Z) : option (Z * list FuUnit) :=
  match list_find (fun u => unit_available t now u = true) pool with
  | Some (i, u) => let '(complete, u) := acquire_unit u now in Some (complete, <[i := u]> pool)
  | None => None
  end.

Definition first_of (pool : list FuUnit) (t : FuType) : option FuUnit :=
  snd <$> list_find (fun u => fu_type u = t) pool.
Definition get_latency (pool : list FuUnit) (t : FuType) : Z :=
  match first_of pool t with Some u => latency u | None => 1 end.
Definition pool_is_pipelined (pool : list FuUnit) (t : FuType) : bool :=
  match first_of pool t with Some u => is_pipelined u | None => true end.

(** ** The tests before [acquire] make it total *)

Lemma has_free_acquire pool t now :
  has_free pool t now = true <-> is_Some (acquire pool t now).
Proof.
  unfold has_free, acquire. rewrite existsb_elem_of. split.
  - intros (u & Hu & Ha). destruct (list_find_elem_of (fun u => unit_available t now u = true) pool u Hu Ha) as [[i v] ->].
    by eexists.
  - destruct (list_find _ pool) as [[i u]|] eqn:E; [|by intros []]. intros _.
    apply list_find_Some in E as (E & Ha & _). exists u. split; [by eapply list_elem_of_lookup_2|done].
Qed.

(** How many instructions of a type can issue in a cycle: the free units. *)
Definition free_units (pool : list FuUnit) (t : FuType) (now : Z) : nat :=
  length (filter (fun u => unit_available t now u = true) pool).

Lemma acquire_takes_unit pool t now c pool' :
  Forall (fun u => 0 < latency u /\ now + latency u < 2 ^ 64) pool -> 0 <= now ->
  acquire pool t now = Some (c, pool') ->
  S (free_units pool' t now) = free_units pool t now /\
  (forall t', t' <> t -> free_units pool' t' now = free_units pool t' now) /\
  exists i u, pool !! i = Some u /\ fu_type u = t /\ c = now + latency u /\
    pool' = <[i := u <| busy_until := if is_pipelined u then now + 1 else c |>]> pool.
Proof.
  intros Hl Hn. unfold acquire. destruct (list_find _ pool) as [[i u]|] eqn:E; [|done].
  apply list_find_Some in E as (Ei & Ha & _). pose proof (proj1 (Forall_lookup _ _) Hl _ _ Ei) as [L0 L1].
  assert (now + latency u < 2 ^ 64) as L2 by done.
  unfold acquire_unit, add64. rewrite !wrap_small by (unfold in_width; lia).
  intros [= <- <-].
  assert (Hb : forall t', unit_available t' now (u <| busy_until := if is_pipelined u then now + 1 else now + latency u |>) = false).
  { intros t'. unfold unit_available, is_free. simpl. apply andb_false_iff. right. apply Z.leb_gt.
    destruct (is_pipelined u); lia. }
  pose proof (take_drop_middle pool i u Ei) as Hp.
  assert (Hlen : (i < length pool)%nat) by (by eapply lookup_lt_Some).
  unfold free_units. split; [|split].
  - rewrite insert_take_drop by done. rewrite <-Hp at 3. rewrite !filter_app, !filter_cons. rewrite (decide_False (P := unit_available t now _ = true)) by (rewrite Hb; done).
    rewrite (decide_True (P := unit_available t now u = true)) by done. rewrite !length_app. simpl. lia.
  - intros t' Ht. rewrite insert_take_drop by done. rewrite <-Hp at 3. rewrite !filter_app, !filter_cons.
    rewrite (decide_False (P := unit_available t' now _ = true)) by (rewrite Hb; done).
    rewrite (decide_False (P := unit_available t' now u = true)); [done|].
    unfold unit_available in *. to_prop. rewrite bool_decide_eq_false_2 by congruence. done.
  - exists i, u. split_and!; [done| |done|done].
    unfold unit_available in Ha. by to_prop.
Qed.

(** * Operands *)

Inductive OperandReady := NotReady | Speculative | Ready (v : Z).
#[export] Instance OperandReady_eq_dec : EqDecision OperandReady.
Proof. solve_decision. Defined.

Definition or_is_ready (r : OperandReady) : bool := match r with NotReady => false | _ => true end.
Definition or_is_speculative (r : OperandReady) : bool := match r with Speculative => true | _ => false end.

Record OperandState := { op_phys : Z; op_tag : option Z; op_readiness : OperandReady }.
Definition operand_ready (phys : Z) (tag : option Z) (value : Z) : OperandState :=
  {| op_phys := phys; op_tag := tag; op_readiness := Ready value |}.
Definition operand_not_ready (phys : Z) (tag : option Z) : OperandState :=
  {| op_phys := phys; op_tag := tag; op_readiness := NotReady |}.

(** [resolve_operand_prf]; [prf.is_ready(0)] may be false only in a file of no registers. *)
Definition resolve_operand_prf (reg : Z) (is_fp : bool) (phys : Z) (prf : PhysRegFile) : OperandState :=
  if negb is_fp && reg_is_zero reg then operand_ready 0 None 0
  else if prf_is_ready prf phys then operand_ready phys None (prf_read prf phys)
  else if phys =? 0 then operand_ready 0 None 0
  else operand_not_ready phys None.

Definition resolve_operand_legacy (reg : Z) (is_fp : bool) (tag : option Z) (rob : Rob) (regs : RegisterFile)
    : OperandState :=
  if negb is_fp && reg_is_zero reg then operand_ready 0 None 0 else
  let from_regs := operand_ready 0 None (if is_fp then regs_read_f regs reg else regs_read regs reg) in
  match tag with
  | None => from_regs
  | Some t =>
      match rob_find_entry rob t with
      | Some entry =>
          if decide (re_state entry = Completed)
          then operand_ready 0 (Some t) (default 0 (re_result entry))
          else operand_not_ready 0 (Some t)
      | None => from_regs
      end
  end.

(** * The queue *)

Record IssueQueueEntry := {
  iq_entry : RenameIssueEntry;
  iq_src1 : OperandState; iq_src2 : OperandState; iq_src3 : OperandState;
  iq_mem_dep : MemDepState
}.
Record SelectedEntry := { se_entry : RenameIssueEntry; se_mem_dep : MemDepState }.
Record IssueQueue := { iq_slots : list (option IssueQueueEntry); iq_capacity : nat; iq_count : nat }.

Definition iq_new (capacity : nat) : IssueQueue :=
  {| iq_slots := replicate capacity None; iq_capacity := capacity; iq_count := 0 |}.

(** The first free slot. *)
Definition free_slot (slots : list (option IssueQueueEntry)) : option nat :=
  fst <$> list_find (fun s => s = None) slots.

Definition resolve_operands (entry : RenameIssueEntry) (rob : Rob) (regs : RegisterFile)
    (prf : option PhysRegFile) : OperandState * OperandState * OperandState :=
  let ctrl := ri_ctrl entry in
  match prf with
  | Some prf =>
      (resolve_operand_prf (ri_rs1 entry) (rs1_fp ctrl) (ri_rs1_phys entry) prf,
       resolve_operand_prf (ri_rs2 entry) (rs2_fp ctrl) (ri_rs2_phys entry) prf,
       if rs3_fp ctrl then resolve_operand_prf (ri_rs3 entry) true (ri_rs3_phys entry) prf
       else operand_ready 0 None 0)
  | None =>
      (resolve_operand_legacy (ri_rs1 entry) (rs1_fp ctrl) (ri_rs1_tag entry) rob regs,
       resolve_operand_legacy (ri_rs2 entry) (rs2_fp ctrl) (ri_rs2_tag entry) rob regs,
       if rs3_fp ctrl then resolve_operand_legacy (ri_rs3 entry) true (ri_rs3_tag entry) rob regs
       else operand_ready 0 None 0)
  end.

(** [None] is [unreachable!]. *)
Definition iq_dispatch (self : IssueQueue) (entry : RenameIssueEntry) (rob : Rob) (regs : RegisterFile)
    (prf : option PhysRegFile) (mem_dep : MemDepState) : option (bool * IssueQueue) :=
  if (iq_capacity self <=? iq_count self)%nat then Some (false, self) else
  let '(s1, s2, s3) := resolve_operands entry rob regs prf in
  let e := {| iq_entry := entry; iq_src1 := s1; iq_src2 := s2; iq_src3 := s3; iq_mem_dep := mem_dep |} in
  match free_slot (iq_slots self) with
  | Some i => Some (true, self <| iq_slots := <[i := Some e]> (iq_slots self) |>
                               <| iq_count := S (iq_count self) |>)
  | None => None
  end.

(** ** Wakeup *)

(** The loops over the occupied slots rewrite the three operands alike. *)
Definition edit_operands (f : OperandState -> OperandState) (e : IssueQueueEntry) : IssueQueueEntry :=
  e <| iq_src1 := f (iq_src1 e) |> <| iq_src2 := f (iq_src2 e) |> <| iq_src3 := f (iq_src3 e) |>.
Definition iq_map (f : IssueQueueEntry -> IssueQueueEntry) (self : IssueQueue) : IssueQueue :=
  self <| iq_slots := (fun s : option IssueQueueEntry => f <$> s) <$> iq_slots self |>.

(** [if src.phys == p && !src.readiness.is_ready() { ... }] *)
Definition wake (r : OperandReady) (p : Z) (s : OperandState) : OperandState :=
  if (op_phys s =? p) && negb (or_is_ready (op_readiness s)) then s <| op_readiness := r |> else s.
Definition iq_wakeup_phys (self : IssueQueue) (p value : Z) : IssueQueue :=
  iq_map (edit_operands (wake (Ready value) p)) self.
Definition iq_speculative_wakeup_phys (self : IssueQueue) (p : Z) : IssueQueue :=
  if p =? 0 then self else iq_map (edit_operands (wake Speculative p)) self.

Definition unwake (p : Z) (s : OperandState) : OperandState :=
  if (op_phys s =? p) && or_is_speculative (op_readiness s) then s <| op_readiness := NotReady |> else s.
Definition iq_cancel_wakeup_phys (self : IssueQueue) (p : Z) (prf : PhysRegFile) : IssueQueue :=
  if p =? 0 then self else if prf_is_ready prf p then self else iq_map (edit_operands (unwake p)) self.

Definition wake_tag (tag value : Z) (s : OperandState) : OperandState :=
  if bool_decide (op_tag s = Some tag) && negb (or_is_ready (op_readiness s))
  then s <| op_readiness := Ready value |> else s.
Definition iq_wakeup (self : IssueQueue) (tag value : Z) : IssueQueue :=
  iq_map (edit_operands (wake_tag tag value)) self.

(** ** Select *)

Definition prf_validated (src : OperandState) (prf : PhysRegFile) : bool :=
  match op_readiness src with Speculative => prf_is_ready prf (op_phys src) | _ => true end.

Definition resolve_value (src : OperandState) (prf : option PhysRegFile) : Z :=
  match op_readiness src with
  | Ready v => v
  | Speculative => if op_phys src =? 0 then 0 else match prf with Some prf => prf_read prf (op_phys src) | None => 0 end
  | NotReady => 0
  end.

Definition operands_ready (iq : IssueQueueEntry) (prf : option PhysRegFile) : bool :=
  (match ri_trap (iq_entry iq) with Some _ => true | None => false end
   || (or_is_ready (op_readiness (iq_src1 iq)) && or_is_ready (op_readiness (iq_src2 iq))
       && or_is_ready (op_readiness (iq_src3 iq))))
  && match prf with
     | Some prf => prf_validated (iq_src1 iq) prf && prf_validated (iq_src2 iq) prf && prf_validated (iq_src3 iq) prf
     | None => true
     end.

Definition mem_ready (iq : IssueQueueEntry) (sb : StoreBuffer) : bool :=
  match iq_mem_dep iq with
  | MdNone | MdBypass | MdResolved _ => true
  | MdWaitAll => negb (sb_has_unresolved_store_before sb (ri_rob_tag (iq_entry iq)))
  | MdWaitFor barrier => negb (sb_is_unresolved sb barrier)
  end.

(** The tests between [mem_ready] and [ready_indices.push]. *)
Definition order_ready (iq : IssueQueueEntry) (rob : Rob) : bool :=
  let entry := iq_entry iq in
  let ctrl := ri_ctrl entry in
  let op := system_op ctrl in
  if negb (bool_decide (op = SysNone)) && negb (bool_decide (op = Fence))
     && negb (rob_all_before_completed rob (ri_rob_tag entry)) then false else
  let pred_bits := Z.land (Z.shiftr (ri_inst entry) 24) 0xF in
  if bool_decide (op = Fence)
     && negb (rob_fence_pred_satisfied rob (ri_rob_tag entry) (has_bits pred_bits 2) (has_bits pred_bits 1))
  then false else
  negb ((mem_read ctrl || mem_write ctrl)
        && rob_has_fence_blocking rob (ri_rob_tag entry) (mem_read ctrl) (mem_write ctrl)).

Definition iq_eligible (sb : StoreBuffer) (rob : Rob) (prf : option PhysRegFile) (iq : IssueQueueEntry) : bool :=
  operands_ready iq prf && mem_ready iq sb && order_ready iq rob.

Definition slot_tag (slots : list (option IssueQueueEntry)) (i : nat) : Z :=
  match slots !!! i with Some s => ri_rob_tag (iq_entry s) | None => 0 end.

Definition slot_eligible (slots : list (option IssueQueueEntry)) (sb : StoreBuffer) (rob : Rob)
    (prf : option PhysRegFile) (i : nat) : bool :=
  match slots !!! i with Some iq => iq_eligible sb rob prf iq | None => false end.
Definition ready_indices (self : IssueQueue) (sb : StoreBuffer) (rob : Rob) (prf : option PhysRegFile) : list nat :=
  stable_sort (slot_tag (iq_slots self))
    (filter (fun i => slot_eligible (iq_slots self) sb rob prf i = true) (seq 0 (length (iq_slots self)))).

Record SelectState := {
  sel_queue : IssueQueue; sel_result : list SelectedEntry; sel_loads : nat; sel_stores : nat
}.

(** The values a selected instruction leaves with. *)
Definition take_entry (prf : option PhysRegFile) (iq : IssueQueueEntry) : SelectedEntry :=
  let entry := iq_entry iq in
  {| se_entry := match ri_trap entry with
                 | Some _ => entry
                 | None => entry <| ri_rv1 := resolve_value (iq_src1 iq) prf |>
                                 <| ri_rv2 := resolve_value (iq_src2 iq) prf |>
                                 <| ri_rv3 := resolve_value (iq_src3 iq) prf |>
                 end;
     se_mem_dep := iq_mem_dep iq |}.

Definition select_body (width load_ports store_ports : nat) (prf : option PhysRegFile) (idx : nat) (st : SelectState)
    : flow SelectState SelectState :=
  if (width <=? length (sel_result st))%nat then Return st else
  match iq_slots (sel_queue st) !!! idx with
  | None => Continue st
  | Some iq =>
      let ctrl := ri_ctrl (iq_entry iq) in
      let is_load := mem_read ctrl in
      let is_store := mem_write ctrl in
      if is_load && (load_ports <=? sel_loads st)%nat then Continue st else
      if is_store && (store_ports <=? sel_stores st)%nat then Continue st else
      let q := sel_queue st in
      Continue {|
        sel_queue := q <| iq_slots := <[idx := None]> (iq_slots q) |> <| iq_count := (iq_count q - 1)%nat |>;
        sel_result := sel_result st ++ [take_entry prf iq];
        sel_loads := if is_load then S (sel_loads st) else sel_loads st;
        sel_stores := if is_store then S (sel_stores st) else sel_stores st |}
  end.

Definition iq_select (self : IssueQueue) (width : nat) (sb : StoreBuffer) (rob : Rob)
    (load_ports store_ports : nat) (prf : option PhysRegFile) : list SelectedEntry * IssueQueue :=
  let st := after_loop (list_scan (select_body width load_ports store_ports prf) (ready_indices self sb rob prf)
                          {| sel_queue := self; sel_result := []; sel_loads := 0; sel_stores := 0 |}) (fun st => st) in
  (sel_result st, sel_queue st).

(** ** Flushes and queries *)

Definition iq_available_slots (self : IssueQueue) : nat := (iq_capacity self - iq_count self)%nat.
Definition iq_flush (self : IssueQueue) : IssueQueue :=
  self <| iq_slots := (fun _ => None) <$> iq_slots self |> <| iq_count := 0%nat |>.

Definition iq_keeps (keep_tag : Z) (s : option IssueQueueEntry) : bool :=
  match s with Some iq => negb (is_newer_than (ri_rob_tag (iq_entry iq)) keep_tag) | None => true end.
Definition iq_flush_after (self : IssueQueue) (keep_tag : Z) : IssueQueue :=
  let drop s := if iq_keeps keep_tag s then s else None in
  self <| iq_slots := drop <$> iq_slots self |>
       <| iq_count := (iq_count self - length (filter (fun s => iq_keeps keep_tag s = false) (iq_slots self)))%nat |>.

Definition mark_resolved (resolved_tags : list Z) (e : IssueQueueEntry) : IssueQueueEntry :=
  match iq_mem_dep e with
  | MdWaitFor barrier => if bool_decide (barrier ∈ resolved_tags) then e <| iq_mem_dep := MdResolved barrier |> else e
  | _ => e
  end.
Definition iq_wakeup_mem_dep (self : IssueQueue) (resolved_tags : list Z) : IssueQueue :=
  iq_map (mark_resolved resolved_tags) self.

Definition iq_live (self : IssueQueue) : list IssueQueueEntry := omap id (iq_slots self).
Definition iq_queue_snapshot (self : IssueQueue) : list RenameIssueEntry :=
  iq_entry <$> stable_sort (fun iq => ri_rob_tag (iq_entry iq)) (iq_live self).
Definition iq_is_empty (self : IssueQueue) : bool := (iq_count self =? 0)%nat.
Definition iq_len (self : IssueQueue) : nat := iq_count self.
