(* ===== verification/IssueQueueProps.v ===== *)
(** Properties of the issue queue: selection is oldest first among the eligible
    entries within the ports, operands are those of the register file, and the
    head of the reorder buffer never waits. *)
From S2P Require Import Prelude Ring Common Rob RobSpec RobProps StoreBuffer StoreBufferSpec Rename RenameO3 Cpu Latches MemDep IssueQueue.
Local Open Scope Z_scope.

(** * Well-formedness *)

Abbreviation slots_t := (list (option IssueQueueEntry)).
Definition live (slots : slots_t) : list IssueQueueEntry := omap id slots.
Definition iq_tag (e : IssueQueueEntry) : Z := ri_rob_tag (iq_entry e).

Record iq_wf (q : IssueQueue) : Prop := {
  iqw_len : length (iq_slots q) = iq_capacity q;
  iqw_count : iq_count q = length (live (iq_slots q))
}.

Lemma live_app (s1 s2 : slots_t) : live (s1 ++ s2) = live s1 ++ live s2.
Proof. apply omap_app. Qed.
Lemma live_take (slots : slots_t) i e :
  slots !! i = Some (Some e) -> live slots ≡ₚ e :: live (<[i := None]> slots).
Proof.
  intros H. pose proof (lookup_lt_Some _ _ _ H). rewrite insert_take_drop by done.
  rewrite <-(take_drop_middle _ _ _ H) at 1. rewrite !live_app. simpl. by rewrite Permutation_middle.
Qed.
Lemma live_put (slots : slots_t) i e :
  slots !! i = Some None -> live (<[i := Some e]> slots) ≡ₚ e :: live slots.
Proof.
  intros H. pose proof (lookup_lt_Some _ _ _ H). rewrite insert_take_drop by done.
  rewrite <-(take_drop_middle _ _ _ H) at 3. rewrite !live_app. simpl. by rewrite Permutation_middle.
Qed.
Lemma elem_of_live (slots : slots_t) e : e ∈ live slots <-> exists i, slots !! i = Some (Some e).
Proof.
  unfold live. rewrite list_elem_of_omap. split.
  - intros (x & Hx & Ex). apply list_elem_of_lookup in Hx as [i Hi]. exists i. unfold id in Ex. by subst x.
  - intros [i Hi]. exists (Some e). split; [by eapply list_elem_of_lookup_2|done].
Qed.
Lemma live_full (slots : slots_t) : (length (live slots) <= length slots)%nat.
Proof. induction slots as [|[e|] l IH]; simpl; lia. Qed.
Lemma free_slot_exists (slots : slots_t) :
  (length (live slots) < length slots)%nat -> exists i, free_slot slots = Some i /\ slots !! i = Some None.
Proof.
  intros H. unfold free_slot.
  assert (exists s, s ∈ slots /\ s = None) as (s & Hs & Es).
  { induction slots as [|[e|] l IH]; simpl in H; [lia| |exists None; split; [by left|done]].
    destruct IH as (s & Hs & Es); [lia|]. exists s. split; [by right|done]. }
  destruct (list_find_elem_of (fun s => s = None) slots s Hs Es) as [[i v] E]. rewrite E.
  apply list_find_Some in E as (E & -> & _). by exists i.
Qed.

Lemma iq_new_wf n : iq_wf (iq_new n).
Proof. split; simpl; [apply length_replicate|]. induction n; simpl; lia. Qed.

Lemma iq_dispatch_spec q entry rob regs prf md :
  iq_wf q -> exists ok q', iq_dispatch q entry rob regs prf md = Some (ok, q') /\ iq_wf q' /\
    (if ok then exists s1 s2 s3, resolve_operands entry rob regs prf = (s1, s2, s3) /\
       live (iq_slots q') ≡ₚ {| iq_entry := entry; iq_src1 := s1; iq_src2 := s2; iq_src3 := s3; iq_mem_dep := md |}
                              :: live (iq_slots q)
     else q' = q /\ iq_count q = iq_capacity q).
Proof.
  intros [Hl Hc]. unfold iq_dispatch. pose proof (live_full (iq_slots q)).
  destruct (Nat.leb_spec (iq_capacity q) (iq_count q)); [eexists false, _; split_and!; try done; lia|].
  destruct (resolve_operands _ _ _ _) as [[s1 s2] s3].
  destruct (free_slot_exists (iq_slots q)) as (i & -> & Hi); [lia|].
  eexists true, _. split; [done|]. pose proof (live_put _ _ {| iq_entry := entry; iq_src1 := s1; iq_src2 := s2;
    iq_src3 := s3; iq_mem_dep := md |} Hi) as Hp. split; [split; simpl|].
  - by rewrite length_insert.
  - rewrite Hp. simpl. lia.
  - by exists s1, s2, s3.
Qed.

Lemma live_map f (slots : slots_t) :
  live ((fun s : option IssueQueueEntry => f <$> s) <$> slots) = f <$> live slots.
Proof. induction slots as [|[e|] l IH]; simpl; [done|by f_equal|done]. Qed.
Lemma iq_map_wf f q : iq_wf q -> iq_wf (iq_map f q).
Proof. intros [Hl Hc]. split; simpl; [by rewrite length_fmap|]. by rewrite live_map, length_fmap. Qed.

Lemma live_flush_after keep (slots : slots_t) :
  live ((fun s => if iq_keeps keep s then s else None) <$> slots) =
  filter (fun e => is_newer_than (iq_tag e) keep = false) (live slots).
Proof.
  induction slots as [|[e|] l IH]; simpl; [done| |done]. rewrite filter_cons.
  unfold iq_tag at 1. destruct (is_newer_than _ keep); simpl; [exact IH|]. by f_equal.
Qed.
Lemma flushed_count keep (slots : slots_t) :
  (length (filter (fun e => is_newer_than (iq_tag e) keep = false) (live slots)) +
   length (filter (fun s => iq_keeps keep s = false) slots) = length (live slots))%nat.
Proof.
  induction slots as [|[e|] l IH]; simpl; [done| |]; rewrite !filter_cons; simpl; [|exact IH].
  unfold iq_tag at 1. destruct (is_newer_than _ keep); simpl; lia.
Qed.
Lemma iq_flush_after_wf q keep : iq_wf q -> iq_wf (iq_flush_after q keep).
Proof.
  intros [Hl Hc]. split; simpl; [by rewrite length_fmap|]. rewrite live_flush_after, Hc.
  pose proof (flushed_count keep (iq_slots q)). lia.
Qed.
Lemma live_none (slots : slots_t) : live ((fun _ => None) <$> slots) = [].
Proof. by induction slots. Qed.
Lemma iq_flush_wf q : iq_wf q -> iq_wf (iq_flush q).
Proof. intros [Hl Hc]. split; simpl; [by rewrite length_fmap|]. by rewrite live_none. Qed.

#[export] Hint Resolve iq_new_wf iq_map_wf iq_flush_after_wf iq_flush_wf : rvsim.

(** * Selection *)

Definition is_load (e : IssueQueueEntry) : bool := mem_read (ri_ctrl (iq_entry e)).
Definition is_store (e : IssueQueueEntry) : bool := mem_write (ri_ctrl (iq_entry e)).

(** The choice as a function of a list of entries: up to [width] of them, in
    order, skipping those without a port. *)
Fixpoint pick (width loads stores : nat) (l : list IssueQueueEntry) : list IssueQueueEntry :=
  match width, l with
  | O, _ | _, [] => []
  | S w, e :: l =>
      if (is_load e && (loads =? 0)%nat) || (is_store e && (stores =? 0)%nat) then pick width loads stores l
      else e :: pick w (if is_load e then loads - 1 else loads) (if is_store e then stores - 1 else stores) l
  end.

Definition entries_at (slots : slots_t) (idxs : list nat) : list IssueQueueEntry :=
  omap (fun i => slots !!! i) idxs.

Lemma entries_at_insert (slots : slots_t) i s idxs :
  i ∉ idxs -> entries_at (<[i := s]> slots) idxs = entries_at slots idxs.
Proof.
  unfold entries_at. induction idxs as [|j l IH]; intros Hi; simpl; [done|].
  rewrite list_lookup_total_insert_ne by set_solver.
  destruct (slots !!! j); [f_equal|]; apply IH; set_solver.
Qed.

Lemma pick_zero lp sp l : pick 0 lp sp l = [].
Proof. by destruct l. Qed.

Definition iq_occupied (slots : slots_t) (i : nat) : Prop := exists e, slots !! i = Some (Some e).

(** The state after a selection, and the body as one decision. *)
Definition take_slot (prf : option PhysRegFile) (i : nat) (e : IssueQueueEntry) (st : SelectState) : SelectState :=
  let q := sel_queue st in {|
  sel_queue := q <| iq_slots := <[i := None]> (iq_slots q) |> <| iq_count := (iq_count q - 1)%nat |>;
  sel_result := sel_result st ++ [take_entry prf e];
  sel_loads := if is_load e then S (sel_loads st) else sel_loads st;
  sel_stores := if is_store e then S (sel_stores st) else sel_stores st |}.
Definition no_port (lp sp : nat) (e : IssueQueueEntry) : bool :=
  (is_load e && (lp =? 0)%nat) || (is_store e && (sp =? 0)%nat).

Lemma leb_sub_zero a b : (a <=? b)%nat = (a - b =? 0)%nat.
Proof. destruct (Nat.leb_spec a b), (Nat.eqb_spec (a - b) 0); lia. Qed.
Lemma select_body_eq width lp sp prf i e st :
  iq_slots (sel_queue st) !! i = Some (Some e) ->
  select_body width lp sp prf i st =
  if (width - length (sel_result st) =? 0)%nat then Return st
  else if no_port (lp - sel_loads st) (sp - sel_stores st) e then Continue st else Continue (take_slot prf i e st).
Proof.
  intros He. unfold select_body. rewrite (list_lookup_total_correct _ _ _ He), !leb_sub_zero.
  unfold no_port, take_slot, is_load, is_store. case_bool; [done|].
  destruct (mem_read _), (mem_write _), (lp - _ =? 0)%nat, (sp - _ =? 0)%nat; done.
Qed.

Lemma take_slot_wf prf i e st :
  iq_wf (sel_queue st) -> iq_slots (sel_queue st) !! i = Some (Some e) -> iq_wf (sel_queue (take_slot prf i e st)).
Proof.
  intros [Hl Hc] He. pose proof (live_take _ _ _ He) as Hp. split; simpl; [by rewrite length_insert|].
  rewrite Hp in Hc. simpl in Hc. lia.
Qed.

(** The loop over the indices makes that choice and frees the slots. *)
Lemma select_loop width lp sp prf idxs st :
  NoDup idxs -> Forall (iq_occupied (iq_slots (sel_queue st))) idxs -> iq_wf (sel_queue st) ->
  let picked := pick (width - length (sel_result st)) (lp - sel_loads st) (sp - sel_stores st)
                     (entries_at (iq_slots (sel_queue st)) idxs) in
  let st' := after_loop (list_scan (select_body width lp sp prf) idxs st) (fun st => st) in
  sel_result st' = sel_result st ++ (take_entry prf <$> picked) /\
  live (iq_slots (sel_queue st)) ≡ₚ picked ++ live (iq_slots (sel_queue st')) /\
  iq_wf (sel_queue st').
Proof.
  revert st. induction idxs as [|i l IH]; intros st Hnd Hocc Hwf.
  { simpl. destruct (width - _)%nat; simpl; by rewrite app_nil_r. }
  apply NoDup_cons in Hnd as [Hi Hnd]. apply Forall_cons in Hocc as [[e He] Hocc].
  cbn [list_scan]. rewrite (select_body_eq _ _ _ _ _ _ _ He).
  destruct (width - length (sel_result st))%nat as [|w] eqn:Ew; cbv zeta.
  { rewrite pick_zero. simpl. by rewrite app_nil_r. }
  assert (entries_at (iq_slots (sel_queue st)) (i :: l) = e :: entries_at (iq_slots (sel_queue st)) l) as ->.
  { unfold entries_at. simpl. by rewrite (list_lookup_total_correct _ _ _ He). }
  cbn [Nat.eqb pick]. fold (no_port (lp - sel_loads st) (sp - sel_stores st) e).
  destruct (no_port _ _ e) eqn:Ep; [rewrite <-Ew; by apply IH|].
  assert (Hq : iq_slots (sel_queue (take_slot prf i e st)) = <[i := None]> (iq_slots (sel_queue st))) by done.
  destruct (IH (take_slot prf i e st) Hnd) as (E1 & E2 & E3); [|by apply take_slot_wf|].
  { rewrite Hq. apply Forall_forall. intros j Hj. destruct (proj1 (Forall_forall _ _) Hocc j Hj) as [e' He'].
    exists e'. rewrite list_lookup_insert_ne; [done|set_solver]. }
  rewrite Hq, entries_at_insert in E1, E2 by done. simpl in E1, E2. rewrite length_app in E1, E2. simpl in E1, E2.
  replace (width - (length (sel_result st) + 1))%nat with w in E1, E2 by lia.
  replace (lp - (if is_load e then S (sel_loads st) else sel_loads st))%nat
    with (if is_load e then lp - sel_loads st - 1 else lp - sel_loads st)%nat in E1, E2 by (case_bool; lia).
  replace (sp - (if is_store e then S (sel_stores st) else sel_stores st))%nat
    with (if is_store e then sp - sel_stores st - 1 else sp - sel_stores st)%nat in E1, E2 by (case_bool; lia).
  split_and!; [by rewrite E1, <-app_assoc| |done].
  etransitivity; [exact (live_take _ _ _ He)|]. simpl. by rewrite E2.
Qed.

(** ** The indices are the eligible entries in tag order *)

Lemma stable_insert_omap {A B} (f : A -> option B) (ka : A -> Z) (kb : B -> Z) (a : A) (l : list A) :
  Forall (fun x => exists b, f x = Some b /\ kb b = ka x) (a :: l) ->
  omap f (stable_insert ka a l) = match f a with Some b => stable_insert kb b (omap f l) | None => omap f l end.
Proof.
  intros H. apply Forall_cons in H as [(b & Hb & Kb) H]. rewrite Hb.
  induction H as [|x l (y & Hy & Ky) Hl IH]; simpl; [by rewrite Hb|].
  rewrite Hy. simpl. rewrite <-Kb, <-Ky. case_bool; simpl; rewrite ?Hb, ?Hy; [done|]. f_equal. exact IH.
Qed.
Lemma stable_sort_omap {A B} (f : A -> option B) (ka : A -> Z) (kb : B -> Z) (l : list A) :
  Forall (fun x => exists b, f x = Some b /\ kb b = ka x) l ->
  omap f (stable_sort ka l) = stable_sort kb (omap f l).
Proof.
  unfold stable_sort. intros H. assert (H0 : Forall (fun x => exists b, f x = Some b /\ kb b = ka x) []) by done.
  change (@nil B) with (omap f (@nil A)). revert H0. generalize (@nil A). induction H as [|x l Hx Hl IH]; intros acc H0; simpl; [done|].
  rewrite IH; [|rewrite stable_insert_perm; by constructor]. rewrite (stable_insert_omap f ka kb) by by constructor.
  by destruct Hx as (b & -> & _).
Qed.

Lemma filter_indices (p : IssueQueueEntry -> bool) (slots : slots_t) (k : nat) (pre : slots_t) :
  length pre = k ->
  omap (fun i => (pre ++ slots) !!! i)
    (filter (fun i => match (pre ++ slots) !!! i with Some e => p e | None => false end = true) (seq k (length slots)))
  = filter (fun e => p e = true) (live slots).
Proof.
  revert k pre. induction slots as [|s l IH]; intros k pre Hk; [done|]. cbn [length seq].
  assert (Hs : (pre ++ s :: l) !!! k = s).
  { apply list_lookup_total_correct. rewrite lookup_app_r by lia. by replace (k - length pre)%nat with 0%nat by lia. }
  rewrite filter_cons, Hs. specialize (IH (S k) (pre ++ [s])). rewrite <-app_assoc in IH. simpl in IH.
  rewrite length_app in IH. specialize (IH ltac:(simpl; lia)). destruct s as [e|]; simpl; [|exact IH].
  rewrite filter_cons. destruct (p e); simpl; [|exact IH]. rewrite Hs. by f_equal.
Qed.

Lemma ready_entries q sb rob prf :
  entries_at (iq_slots q) (ready_indices q sb rob prf) =
  stable_sort iq_tag (filter (fun e => iq_eligible sb rob prf e = true) (live (iq_slots q))).
Proof.
  unfold entries_at, ready_indices. rewrite (stable_sort_omap _ _ iq_tag).
  - f_equal. exact (filter_indices (iq_eligible sb rob prf) (iq_slots q) 0 [] eq_refl).
  - apply Forall_forall. intros i Hi. apply list_elem_of_filter in Hi as [He _].
    unfold slot_eligible, slot_tag in *. destruct (_ !!! i) as [e|]; [|done]. by exists e.
Qed.

Lemma ready_indices_ok q sb rob prf :
  NoDup (ready_indices q sb rob prf) /\ Forall (iq_occupied (iq_slots q)) (ready_indices q sb rob prf).
Proof.
  unfold ready_indices. rewrite (stable_sort_perm _ _). split; [apply NoDup_filter, NoDup_seq|].
  apply Forall_forall. intros i Hi. apply list_elem_of_filter in Hi as [He Hi]. apply elem_of_seq in Hi.
  unfold slot_eligible in He. destruct (iq_slots q !!! i) as [e|] eqn:E; [|done]. exists e.
  rewrite <-E. apply lookup_total_Some. lia.
Qed.

Lemma iq_select_spec q width sb rob lp sp prf :
  iq_wf q ->
  let picked := pick width lp sp (stable_sort iq_tag (filter (fun e => iq_eligible sb rob prf e = true) (live (iq_slots q)))) in
  let '(sel, q') := iq_select q width sb rob lp sp prf in
  sel = take_entry prf <$> picked /\ live (iq_slots q) ≡ₚ picked ++ live (iq_slots q') /\ iq_wf q'.
Proof.
  intros Hwf picked. destruct (ready_indices_ok q sb rob prf) as [Hnd Hocc].
  pose proof (select_loop width lp sp prf (ready_indices q sb rob prf)
    {| sel_queue := q; sel_result := []; sel_loads := 0; sel_stores := 0 |} Hnd Hocc Hwf) as H.
  simpl in H. rewrite !Nat.sub_0_r, ready_entries in H. exact H.
Qed.

(** ** What the greedy choice guarantees *)

Definition count_by (p : IssueQueueEntry -> bool) (l : list IssueQueueEntry) : nat :=
  length (filter (fun e => p e = true) l).
Lemma count_by_cons p e l : count_by p (e :: l) = ((if p e then 1 else 0) + count_by p l)%nat.
Proof. unfold count_by. rewrite filter_cons. by destruct (p e). Qed.

Lemma pick_sublist w lp sp l : pick w lp sp l `sublist_of` l.
Proof.
  revert w lp sp. induction l as [|e l IH]; intros [|w] lp sp; simpl; try apply sublist_nil_l.
  case_bool; [by apply sublist_cons|by apply sublist_skip].
Qed.
Lemma pick_bounds w lp sp l :
  (length (pick w lp sp l) <= w)%nat /\ (count_by is_load (pick w lp sp l) <= lp)%nat /\
  (count_by is_store (pick w lp sp l) <= sp)%nat.
Proof.
  revert w lp sp. induction l as [|e l IH]; intros [|w] lp sp; simpl; try (unfold count_by; simpl; lia).
  case_bool; [apply IH|]. rewrite !count_by_cons.
  destruct (IH w (if is_load e then lp - 1 else lp)%nat (if is_store e then sp - 1 else sp)%nat) as (H1 & H2 & H3).
  simpl. apply orb_false_iff in Heqb as [Hl Hs].
  destruct (is_load e), (is_store e); simpl in *; to_prop; lia.
Qed.

(** An entry passed over found the cycle's width or its ports used up by
    entries before it. *)
Definition crowded_out (w lp sp : nat) (pre : list IssueQueueEntry) (e : IssueQueueEntry) : Prop :=
  (w <= length pre)%nat \/ (is_load e = true /\ (lp <= count_by is_load pre)%nat) \/
  (is_store e = true /\ (sp <= count_by is_store pre)%nat).
Lemma pick_complete w lp sp l1 e l2 :
  exists pre post, pick w lp sp (l1 ++ e :: l2) = pre ++ post /\ pre `sublist_of` l1 /\
    (crowded_out w lp sp pre e \/ exists post', post = e :: post').
Proof.
  revert w lp sp. induction l1 as [|a l1 IH]; intros [|w] lp sp; simpl.
  - exists [], []. split_and!; [done|constructor|left; left; simpl; lia].
  - destruct ((is_load e && (lp =? 0)%nat) || (is_store e && (sp =? 0)%nat)) eqn:E.
    + exists [], (pick (S w) lp sp l2). split_and!; [done|constructor|]. left. unfold crowded_out, count_by. simpl.
      apply orb_true_iff in E as [E|E]; to_prop; [right; left|right; right]; split; [done|lia|done|lia].
    + eexists [], _. split_and!; [done|constructor|]. right. by eexists.
  - exists [], []. split_and!; [done|apply sublist_nil_l|left; left; simpl; lia].
  - destruct ((is_load a && (lp =? 0)%nat) || (is_store a && (sp =? 0)%nat)) eqn:E.
    + destruct (IH (S w) lp sp) as (pre & post & -> & H & H'). exists pre, post.
      split_and!; [done|by apply sublist_cons|done].
    + destruct (IH w (if is_load a then lp - 1 else lp)%nat (if is_store a then sp - 1 else sp)%nat)
        as (pre & post & -> & H & H'). exists (a :: pre), post. split_and!; [done|by apply sublist_skip|].
      destruct H' as [H'|H']; [left|by right]. unfold crowded_out in *. simpl. rewrite !count_by_cons.
      apply orb_false_iff in E as [El Es]. destruct (is_load a), (is_store a); simpl in *; to_prop; naive_solver lia.
Qed.

Lemma sorted_sublist {A} (R : A -> A -> Prop) (l k : list A) :
  l `sublist_of` k -> StronglySorted R k -> StronglySorted R l.
Proof.
  induction 1 as [|x l k Hs IH|x l k Hs IH]; [done| |]; intros [H1 H2]%StronglySorted_inv; [|by apply IH].
  constructor; [by apply IH|]. rewrite Forall_forall in *. intros y Hy. eapply H2, elem_of_sublist; eauto.
Qed.

(** Selection is oldest first within the cycle's width and ports.  It
    issues entries of the queue that are eligible, in tag order, and removes
    exactly those; no more than [width] of them, [load_ports] loads and
    [store_ports] stores.  Any eligible entry that stays found the width or its
    ports taken by entries with smaller tags.  (The order is that of the tags as
    numbers; it is the program order as long as the tags in the queue have not
    wrapped.) *)
Theorem iq_select_oldest_first q width sb rob lp sp prf :
  iq_wf q ->
  let '(sel, q') := iq_select q width sb rob lp sp prf in
  iq_wf q' /\
  exists picked, sel = take_entry prf <$> picked /\
    live (iq_slots q) ≡ₚ picked ++ live (iq_slots q') /\
    Forall (fun e => iq_eligible sb rob prf e = true) picked /\ StronglySorted (key_le iq_tag) picked /\
    (length picked <= width)%nat /\ (count_by is_load picked <= lp)%nat /\ (count_by is_store picked <= sp)%nat /\
    (forall e, e ∈ live (iq_slots q) -> iq_eligible sb rob prf e = true -> e ∈ picked \/
       exists pre post, picked = pre ++ post /\ Forall (fun a => iq_tag a <= iq_tag e) pre /\
         crowded_out width lp sp pre e).
Proof.
  intros Hwf. pose proof (iq_select_spec q width sb rob lp sp prf Hwf) as H. cbv zeta in H.
  destruct (iq_select _ _ _ _ _ _ _) as [sel q']. destruct H as (Hs & Hp & Hq). split; [done|].
  set (el := filter (fun e => iq_eligible sb rob prf e = true) (live (iq_slots q))) in *.
  pose proof (stable_sort_sorted iq_tag el) as Hsort.
  pose proof (pick_sublist width lp sp (stable_sort iq_tag el)) as Hsub.
  eexists. split; [exact Hs|]. split_and!; [done| | |apply pick_bounds..|].
  - apply Forall_forall. intros e He. eapply elem_of_sublist in He; [|exact Hsub].
    rewrite elem_of_sort_by_key in He. by apply list_elem_of_filter in He as [? _].
  - by eapply sorted_sublist.
  - intros e He Hel. assert (Hin : e ∈ stable_sort iq_tag el).
    { rewrite elem_of_sort_by_key. by apply list_elem_of_filter. }
    apply list_elem_of_split in Hin as (l1 & l2 & E). rewrite E in Hsort |- *.
    destruct (pick_complete width lp sp l1 e l2) as (pre & post & -> & Hpre & [Hc|[post' ->]]); [right|left; set_solver].
    exists pre, post. split_and!; [done| |done].
    enough (Forall (fun a => iq_tag a <= iq_tag e) l1) as Hf.
    { rewrite Forall_forall in *. intros y Hy. eapply Hf, elem_of_sublist; eauto. }
    clear -Hsort. induction l1 as [|a l1 IH]; [constructor|]. simpl in Hsort.
    apply StronglySorted_inv in Hsort as [H1 H2]. constructor; [|by apply IH].
    rewrite Forall_app, Forall_cons in H2. unfold key_le in H2. naive_solver.
Qed.

(** * Operand values *)

(** The physical register a source reads; [x0] reads register 0. *)
Definition src_phys (reg : Z) (is_fp : bool) (phys : Z) : Z := if negb is_fp && reg_is_zero reg then 0 else phys.
Definition src1_phys (e : RenameIssueEntry) : Z := src_phys (ri_rs1 e) (rs1_fp (ri_ctrl e)) (ri_rs1_phys e).
Definition src2_phys (e : RenameIssueEntry) : Z := src_phys (ri_rs2 e) (rs2_fp (ri_ctrl e)) (ri_rs2_phys e).
Definition src3_phys (e : RenameIssueEntry) : Z := if rs3_fp (ri_ctrl e) then ri_rs3_phys e else 0.

(** An operand agrees with the register file: a value it holds is the one in
    its register, and only a register still being computed leaves it without. *)
Definition operand_ok (prf : PhysRegFile) (phys : Z) (s : OperandState) : Prop :=
  op_phys s = phys /\ 0 <= phys /\
  match op_readiness s with
  | Ready v => prf_is_ready prf phys = true /\ v = prf_read prf phys
  | _ => phys <> 0
  end.
Definition entry_ok (prf : PhysRegFile) (e : IssueQueueEntry) : Prop :=
  operand_ok prf (src1_phys (iq_entry e)) (iq_src1 e) /\ operand_ok prf (src2_phys (iq_entry e)) (iq_src2 e) /\
  operand_ok prf (src3_phys (iq_entry e)) (iq_src3 e).

(** Register 0 reads as zero and is ready. *)
Definition prf_zero (prf : PhysRegFile) : Prop :=
  length (prf_ready prf) = length (prf_values prf) /\ prf_is_ready prf 0 = true /\ prf_read prf 0 = 0.

(** A register is written once while the queue holds readers of it. *)
Definition fresh_result (prf : PhysRegFile) (p : Z) : Prop :=
  p = 0 \/ (0 < p /\ (Z.to_nat p < prf_capacity prf)%nat /\ prf_is_ready prf p = false).
Definition reads_phys (p : Z) (e : IssueQueueEntry) : Prop :=
  src1_phys (iq_entry e) = p \/ src2_phys (iq_entry e) = p \/ src3_phys (iq_entry e) = p.

(** Physical register numbers are unsigned. *)
Definition phys_ok (e : RenameIssueEntry) : Prop := 0 <= ri_rs1_phys e /\ 0 <= ri_rs2_phys e /\ 0 <= ri_rs3_phys e.

(** What the engine does to the queue and the register file. *)
Inductive iq_reach (capacity total : nat) : IssueQueue -> PhysRegFile -> Prop :=
| IqInit : (64 <= total)%nat -> iq_reach capacity total (iq_new capacity) (prf_mark_arch_ready (prf_new total) 64)
| IqDispatch q prf entry rob regs md q' :
    iq_reach capacity total q prf -> phys_ok entry -> iq_dispatch q entry rob regs (Some prf) md = Some (true, q') ->
    iq_reach capacity total q' prf
| IqWriteback q prf p v :
    iq_reach capacity total q prf -> fresh_result prf p ->
    iq_reach capacity total (iq_wakeup_phys q p v) (prf_write prf p v)
| IqAllocate q prf p :
    iq_reach capacity total q prf -> 0 <= p -> Forall (fun e => p = 0 \/ ~ reads_phys p e) (live (iq_slots q)) ->
    iq_reach capacity total q (prf_allocate prf p)
| IqSpeculate q prf p :
    iq_reach capacity total q prf -> iq_reach capacity total (iq_speculative_wakeup_phys q p) prf
| IqCancel q prf p : iq_reach capacity total q prf -> iq_reach capacity total (iq_cancel_wakeup_phys q p prf) prf
| IqMemDep q prf tags : iq_reach capacity total q prf -> iq_reach capacity total (iq_wakeup_mem_dep q tags) prf
| IqSelect q prf width sb rob lp sp :
    iq_reach capacity total q prf -> iq_reach capacity total (iq_select q width sb rob lp sp (Some prf)).2 prf
| IqFlushAfter q prf keep : iq_reach capacity total q prf -> iq_reach capacity total (iq_flush_after q keep) prf
| IqFlush q prf p v :
    iq_reach capacity total q prf -> 0 <= p -> iq_reach capacity total (iq_flush q) (prf_write prf p v).

Lemma prf_write_other prf p v r : 0 <= r -> 0 <= p -> r <> p \/ p = 0 ->
  prf_read (prf_write prf p v) r = prf_read prf r /\ prf_is_ready (prf_write prf p v) r = prf_is_ready prf r.
Proof.
  intros Hr Hp Hne. unfold prf_write. destruct (Nat.eqb_spec (Z.to_nat p) 0); [done|].
  destruct (Nat.ltb_spec (Z.to_nat p) (length (prf_values prf))); [|done].
  unfold prf_read, prf_is_ready. simpl. rewrite !length_insert, !list_lookup_total_insert_ne by lia. done.
Qed.
Lemma prf_write_same prf p v : length (prf_ready prf) = length (prf_values prf) ->
  0 < p -> (Z.to_nat p < prf_capacity prf)%nat ->
  prf_read (prf_write prf p v) p = v /\ prf_is_ready (prf_write prf p v) p = true.
Proof.
  unfold prf_capacity. intros Hl Hp Hlt. unfold prf_write. destruct (Nat.eqb_spec (Z.to_nat p) 0); [lia|].
  rewrite (proj2 (Nat.ltb_lt _ _) Hlt). unfold prf_read, prf_is_ready. simpl.
  rewrite !length_insert, Hl, (proj2 (Nat.ltb_lt _ _) Hlt).
  split; apply list_lookup_total_correct, list_lookup_insert_eq; by rewrite ?Hl.
Qed.
Lemma prf_allocate_other prf p r : 0 <= r -> 0 <= p -> r <> p \/ p = 0 ->
  prf_read (prf_allocate prf p) r = prf_read prf r /\ prf_is_ready (prf_allocate prf p) r = prf_is_ready prf r.
Proof.
  intros Hr Hp Hne. unfold prf_allocate. destruct (Nat.eqb_spec (Z.to_nat p) 0); [done|].
  destruct (_ <? _)%nat; [|done]. unfold prf_read, prf_is_ready. simpl.
  rewrite !length_insert, !list_lookup_total_insert_ne by lia. done.
Qed.
Lemma prf_write_zero prf p v : 0 <= p -> prf_zero prf -> prf_zero (prf_write prf p v).
Proof.
  intros Hp (H1 & H2 & H3). destruct (decide (p = 0)) as [->|Hne]; [done|].
  destruct (prf_write_other prf p v 0) as [E1 E2]; [lia|done|by left|]. split; [|by rewrite E1, E2].
  unfold prf_write. repeat case_bool; simpl; rewrite ?length_insert; done.
Qed.
Lemma prf_allocate_zero prf p : 0 <= p -> prf_zero prf -> prf_zero (prf_allocate prf p).
Proof.
  intros Hp (H1 & H2 & H3). destruct (decide (p = 0)) as [->|Hne]; [done|].
  destruct (prf_allocate_other prf p 0) as [E1 E2]; [lia|done|by left|]. split; [|by rewrite E1, E2].
  unfold prf_allocate. repeat case_bool; simpl; rewrite ?length_insert; done.
Qed.

(** ** Every operation keeps the operands right *)

Lemma resolve_operand_ok prf reg is_fp phys :
  prf_zero prf -> 0 <= phys -> operand_ok prf (src_phys reg is_fp phys) (resolve_operand_prf reg is_fp phys prf).
Proof.
  intros (Hl & H0 & V0) Hp. unfold resolve_operand_prf, src_phys. destruct (negb is_fp && reg_is_zero reg); [done|].
  destruct (prf_is_ready prf phys) eqn:E; [done|]. destruct (Z.eqb_spec phys 0) as [->|Hne]; [congruence|done].
Qed.
Lemma resolve_operands_ok prf entry rob regs s1 s2 s3 md :
  prf_zero prf -> phys_ok entry -> resolve_operands entry rob regs (Some prf) = (s1, s2, s3) ->
  entry_ok prf {| iq_entry := entry; iq_src1 := s1; iq_src2 := s2; iq_src3 := s3; iq_mem_dep := md |}.
Proof.
  intros Hz (H1 & H2 & H3). unfold resolve_operands. intros [= <- <- <-].
  split; [|split]; [by apply resolve_operand_ok..|].
  unfold src3_phys. simpl. destruct (rs3_fp _); [|by destruct Hz as (? & ? & ?)].
  by apply (resolve_operand_ok prf (ri_rs3 entry) true).
Qed.

Lemma wake_ok prf phys s p v :
  operand_ok prf phys s -> 0 <= p -> fresh_result prf p -> prf_zero prf ->
  operand_ok (prf_write prf p v) phys (wake (Ready v) p s).
Proof.
  intros (E & Hp & H) Hp0 Hf Hz. unfold wake. rewrite E.
  destruct (Z.eqb_spec phys p) as [->|Hne]; simpl.
  - destruct Hf as [->|(F1 & F2 & F3)].
    + change (prf_write prf 0 v) with prf. destruct (op_readiness s) eqn:Er; [by destruct H|by destruct H|].
      simpl. split; [done|]. by rewrite Er.
    + destruct (prf_write_same prf p v) as [W1 W2]; [apply Hz|done..|].
      destruct (op_readiness s) eqn:Er; simpl; [done|..]; (split; [done|split; [done|]]); rewrite Er; [lia|].
      destruct H as [H _]. congruence.
  - destruct (prf_write_other prf p v phys) as [W1 W2]; [done..|by left|]. split; [done|]. by rewrite W1, W2.
Qed.
Lemma wake_speculative_ok prf phys s p :
  p <> 0 -> operand_ok prf phys s -> operand_ok prf phys (wake Speculative p s).
Proof.
  intros Hp (E & Hn & H). unfold wake. destruct (Z.eqb_spec (op_phys s) p); [|done].
  destruct (op_readiness s) eqn:Er; simpl; (split; [done|]); simpl; rewrite ?Er; split; done || lia.
Qed.
Lemma unwake_ok prf phys s p : operand_ok prf phys s -> operand_ok prf phys (unwake p s).
Proof.
  intros (E & Hn & H). unfold unwake. destruct (_ =? p); [|done].
  destruct (op_readiness s) eqn:Er; simpl; (split; [done|]); simpl; rewrite ?Er; done.
Qed.
Lemma allocate_ok prf phys s p :
  operand_ok prf phys s -> 0 <= p -> phys <> p \/ p = 0 -> operand_ok (prf_allocate prf p) phys s.
Proof.
  intros (E & Hn & H) Hp Hne. destruct (prf_allocate_other prf p phys) as [W1 W2]; [done..|].
  split; [done|]. by rewrite W1, W2.
Qed.

Definition iq_prf_inv (q : IssueQueue) (prf : PhysRegFile) : Prop :=
  iq_wf q /\ prf_zero prf /\ Forall (entry_ok prf) (live (iq_slots q)).

Lemma iq_map_inv f q prf prf' :
  iq_prf_inv q prf -> prf_zero prf' -> (forall e, entry_ok prf e -> entry_ok prf' (f e)) -> iq_prf_inv (iq_map f q) prf'.
Proof.
  intros (Hw & Hz & Hf) Hz' H. split_and!; [by apply iq_map_wf|done|]. simpl. rewrite live_map, Forall_fmap.
  by eapply Forall_impl.
Qed.
Lemma edit_operands_ok prf prf' f e :
  (forall phys s, operand_ok prf phys s -> operand_ok prf' phys (f s)) -> entry_ok prf e -> entry_ok prf' (edit_operands f e).
Proof. intros H (H1 & H2 & H3). split_and!; by apply H. Qed.

Lemma prf_init_zero total : (64 <= total)%nat -> prf_zero (prf_mark_arch_ready (prf_new total) 64).
Proof.
  intros Ht. unfold prf_mark_arch_ready, prf_new.
  assert (0 < total)%nat as H0 by lia. rewrite (proj2 (Nat.ltb_lt _ _) H0). simpl.
  assert (G : forall l r, length (foldl (fun ready i => <[i := true]> ready) r l) = length (r : list bool)).
  { induction l as [|i l IH]; intros r; simpl; [done|]. by rewrite IH, length_insert. }
  assert (G2 : forall (l : list nat) (r : list bool), r !! 0%nat = Some true -> foldl (fun ready i => <[i := true]> ready) r l !! 0%nat = Some true).
  { induction l as [|i l IH]; intros r Hr; simpl; [done|]. apply IH. destruct (decide (i = 0%nat)) as [->|].
    - apply list_lookup_insert_eq. by eapply lookup_lt_Some.
    - by rewrite list_lookup_insert_ne. }
  unfold prf_zero, prf_is_ready, prf_read. simpl. rewrite G, length_insert, !length_replicate.
  change (Z.to_nat 0) with 0%nat. rewrite (proj2 (Nat.ltb_lt _ _) H0).
  split_and!; [done| |by apply list_lookup_total_correct, lookup_replicate_2].
  apply list_lookup_total_correct, G2, list_lookup_insert_eq. by rewrite length_replicate.
Qed.

Lemma iq_reach_inv capacity total q prf : iq_reach capacity total q prf -> iq_prf_inv q prf.
Proof.
  induction 1 as [Ht|q prf entry rob regs md q' _ IH Hp Hd|q prf p v _ IH Hf|q prf p _ IH Hp Hn|q prf p _ IH|q prf p _ IH
    |q prf tags _ IH|q prf width sb rob lp sp _ IH|q prf keep _ IH|q prf p v _ IH Hp].
  - split_and!; [apply iq_new_wf|by apply prf_init_zero|]. simpl. clear. by induction capacity.
  - destruct IH as (Hw & Hz & Hf). destruct (iq_dispatch_spec q entry rob regs (Some prf) md Hw) as (ok & q1 & E & Hw' & H).
    rewrite Hd in E. injection E as <- <-. destruct H as (s1 & s2 & s3 & Er & Hl). split_and!; [done..|].
    rewrite Hl. constructor; [by eapply resolve_operands_ok|done].
  - assert (0 <= p) by (destruct Hf as [->|[? _]]; lia). pose proof IH as (_ & Hz & _).
    eapply iq_map_inv; [exact IH|by apply prf_write_zero|]. intros e. apply edit_operands_ok.
    intros phys s Hs. by apply wake_ok.
  - destruct IH as (Hw & Hz & Hf). split_and!; [done|by apply prf_allocate_zero|].
    rewrite Forall_forall in *. intros e He. destruct (Hf e He) as (H1 & H2 & H3).
    assert (p = 0 \/ ~ reads_phys p e) as Hne by (by apply Hn). unfold reads_phys in Hne.
    split_and!; apply allocate_ok; done || (destruct Hne; [by right|left; naive_solver]).
  - unfold iq_speculative_wakeup_phys. destruct (Z.eqb_spec p 0); [done|]. pose proof IH as (_ & Hz & _).
    eapply iq_map_inv; [exact IH|done|]. intros e. apply edit_operands_ok. intros. by apply wake_speculative_ok.
  - unfold iq_cancel_wakeup_phys. destruct (_ =? 0); [done|]. destruct (prf_is_ready prf p); [done|].
    pose proof IH as (_ & Hz & _). eapply iq_map_inv; [exact IH|done|]. intros e. apply edit_operands_ok.
    intros. by apply unwake_ok.
  - pose proof IH as (_ & Hz & _). eapply iq_map_inv; [exact IH|done|]. intros e He. unfold mark_resolved.
    destruct (iq_mem_dep e); try done. by case_bool.
  - destruct IH as (Hw & Hz & Hf). pose proof (iq_select_spec q width sb rob lp sp (Some prf) Hw) as H. cbv zeta in H.
    destruct (iq_select _ _ _ _ _ _ _) as [sel q']. destruct H as (_ & Hp & Hw'). split_and!; [done..|].
    rewrite Hp, Forall_app in Hf. apply Hf.
  - destruct IH as (Hw & Hz & Hf). split_and!; [by apply iq_flush_after_wf|done|]. simpl. rewrite live_flush_after.
    rewrite Forall_forall in *. intros e [_ He]%list_elem_of_filter. by apply Hf.
  - destruct IH as (Hw & Hz & Hf). split_and!; [by apply iq_flush_wf|by apply prf_write_zero|]. simpl. by rewrite live_none.
Qed.

Lemma resolve_value_ok prf phys s :
  prf_zero prf -> operand_ok prf phys s -> or_is_ready (op_readiness s) = true -> prf_validated s prf = true ->
  resolve_value s (Some prf) = prf_read prf phys /\ prf_is_ready prf phys = true.
Proof.
  intros Hz (E & Hn & H) Hr Hv. unfold resolve_value, prf_validated in *. rewrite E in *.
  destruct (op_readiness s); [done| |by destruct H as [H ->]]. destruct (Z.eqb_spec phys 0) as [->|]; [by destruct H|done].
Qed.

(** What the entry leaves with, and the registers it reads. *)
Definition operands_from (prf : PhysRegFile) (e : RenameIssueEntry) : Prop :=
  prf_is_ready prf (src1_phys e) = true /\ ri_rv1 e = prf_read prf (src1_phys e) /\
  prf_is_ready prf (src2_phys e) = true /\ ri_rv2 e = prf_read prf (src2_phys e) /\
  prf_is_ready prf (src3_phys e) = true /\ ri_rv3 e = prf_read prf (src3_phys e).

Lemma take_entry_operands prf e :
  prf_zero prf -> entry_ok prf e -> operands_ready e (Some prf) = true -> ri_trap (iq_entry e) = None ->
  operands_from prf (se_entry (take_entry (Some prf) e)).
Proof.
  intros Hz (O1 & O2 & O3) Hr Ht. unfold operands_ready in Hr. unfold take_entry. rewrite Ht in *. simpl in Hr. to_prop.
  destruct (resolve_value_ok _ _ _ Hz O1) as [V1 R1]; [done..|].
  destruct (resolve_value_ok _ _ _ Hz O2) as [V2 R2]; [done..|].
  destruct (resolve_value_ok _ _ _ Hz O3) as [V3 R3]; [done..|]. done.
Qed.

(** C27. Bypassing is right: in every reachable state of the queue and the
    physical register file, whatever mixture of dispatches, result broadcasts,
    speculative load wakeups, cancellations, memory-dependence wakeups,
    re-dispatches and flushes led there, an instruction is selected only when
    all its source registers are written, and the operand values it leaves with
    are the ones the register file holds for them. *)
Theorem iq_operands_exact capacity total q prf width sb rob lp sp :
  iq_reach capacity total q prf ->
  Forall (fun s => ri_trap (se_entry s) = None -> operands_from prf (se_entry s))
         (iq_select q width sb rob lp sp (Some prf)).1.
Proof.
  intros (Hw & Hz & Hf)%iq_reach_inv. pose proof (iq_select_spec q width sb rob lp sp (Some prf) Hw) as H. cbv zeta in H.
  destruct (iq_select _ _ _ _ _ _ _) as [sel q']. destruct H as (-> & Hp & _). simpl. rewrite Forall_fmap.
  apply Forall_forall. intros e He Ht. simpl in Ht.
  assert (Hin : e ∈ live (iq_slots q)) by (rewrite Hp; apply elem_of_app; by left).
  eapply elem_of_sublist in He; [|apply pick_sublist]. rewrite elem_of_sort_by_key in He.
  apply list_elem_of_filter in He as [Hel _]. unfold iq_eligible in Hel. to_prop.
  apply take_entry_operands; [done|exact (proj1 (Forall_forall _ _) Hf e Hin)|done|].
  unfold take_entry in Ht. simpl in Ht. by destruct (ri_trap (iq_entry e)) eqn:E; [rewrite E in Ht|].
Qed.

(** * Progress *)

Lemma head_gates r ss n h w rd :
  rob_inv r ss n -> rob_peek_head r = Some h ->
  rob_all_before_completed r (re_tag h) = true /\ (forall a b, rob_fence_pred_satisfied r (re_tag h) a b = true) /\
  rob_has_fence_blocking r (re_tag h) rd w = false.
Proof.
  intros I. unfold rob_peek_head. destruct (Nat.eqb_spec (rob_count r) 0) as [|Hz]; [done|]. intros [= Hh].
  assert (Hk : rob_queue r !! 0%nat = Some h).
  { rewrite rob_queue_lookup by lia. rewrite ring_slot_0 by apply (rob_ring _ _ _ I). by rewrite Hh. }
  unfold rob_all_before_completed, rob_fence_pred_satisfied, rob_has_fence_blocking.
  rewrite (proj2 (Nat.eqb_neq _ _) Hz). split_and!.
  - rewrite (rob_scan_gate _ _ _ _ is_issued true 0 h true I Hk); [done|].
    intros a Ha. unfold all_before_body, is_issued. rewrite Ha. destruct (_ =? _); [done|]. by case_decide; case_bool_decide.
  - intros a b. destruct (negb a && negb b); [done|].
    rewrite (rob_scan_gate _ _ _ _ (pending_pred a b) true 0 h true I Hk); [done|].
    intros x Hx. unfold fence_pred_body, pending_pred, is_issued. rewrite Hx.
    destruct (_ =? _); [done|]. by case_decide; case_bool_decide.
  - simpl. destruct (negb rd && negb w); [done|].
    rewrite (rob_scan_gate _ _ _ _ (fence_blocks rd w) false 0 h false I Hk); [done|].
    intros a Ha. unfold fence_blocking_body. rewrite Ha. by destruct (_ =? _).
Qed.

(** A pending store is not older than the head: its instruction is in flight. *)
Definition pending_in_flight (sb : StoreBuffer) (head_tag : Z) : Prop :=
  Forall (fun s => sr_is_pending (sb_resolution s) = true -> is_older_than (sb_rob_tag s) head_tag = false) (sb_queue sb).

Lemma is_unresolved_pending sb b :
  sb_inv sb -> sb_is_unresolved sb b = true ->
  exists s, s ∈ sb_queue sb /\ sb_rob_tag s = b /\ sr_is_pending (sb_resolution s) = true.
Proof.
  intros I. unfold sb_is_unresolved. case_bool; [done|]. rewrite ring_scan_window by apply I. fold (sb_queue sb).
  induction (sb_queue sb) as [|s l IH]; simpl; [done|]. destruct (sb_matches b s) eqn:E; simpl.
  - intros Hp. exists s. split_and!; [by left| |done]. unfold sb_matches in E. by to_prop.
  - intros H. destruct (IH H) as (s' & ? & ?). exists s'. split; [by right|done].
Qed.

Lemma head_mem_ready sb tag e :
  sb_inv sb -> pending_in_flight sb tag -> iq_tag e = tag ->
  (forall b, iq_mem_dep e = MdWaitFor b -> is_older_than b tag = true) -> mem_ready e sb = true.
Proof.
  intros I Hp Ht Hb. unfold pending_in_flight in Hp. rewrite Forall_forall in Hp. unfold mem_ready.
  change (ri_rob_tag (iq_entry e)) with (iq_tag e). rewrite Ht.
  destruct (iq_mem_dep e) as [| | |b|]; try done; apply negb_true_iff, not_true_is_false.
  - unfold sb_has_unresolved_store_before. case_bool; [done|].
    rewrite (sb_scan_existsb sb _ (fun e => is_older_than (sb_rob_tag e) tag && sr_is_pending (sb_resolution e)) I)
      by (intros s Hs; by rewrite Hs).
    rewrite existsb_elem_of. intros (s & Hs & Ho). to_prop. rewrite Hp in *; done.
  - intros (s & Hs & <- & Hr)%is_unresolved_pending; [|done]. specialize (Hb _ eq_refl). by rewrite Hp in Hb.
Qed.

(** C25. The head of the reorder buffer never waits in the issue queue: once
    its operands are there it passes every gate (memory dependence, older
    instructions, FENCE predecessors and successors), whatever the predictor
    said as long as it named an older store; so with at least one slot and one
    port of each kind the cycle issues something, and the head itself when its
    tag is the smallest, as it is until the tags of younger instructions wrap
    around: selection sorts by the tag itself, not by age. *)
Theorem iq_head_progress q r ss n h e sb width lp sp prf :
  iq_wf q -> rob_inv r ss n -> sb_inv sb -> rob_peek_head r = Some h ->
  e ∈ live (iq_slots q) -> iq_tag e = re_tag h -> operands_ready e prf = true ->
  pending_in_flight sb (re_tag h) -> (forall b, iq_mem_dep e = MdWaitFor b -> is_older_than b (re_tag h) = true) ->
  (0 < width)%nat -> (0 < lp)%nat -> (0 < sp)%nat ->
  let sel := (iq_select q width sb r lp sp prf).1 in
  sel <> [] /\
  ((forall a, a ∈ live (iq_slots q) -> a = e \/ iq_tag e < iq_tag a) -> head sel = Some (take_entry prf e)).
Proof.
  intros Hw I Is Hh Hin Ht Hop Hp Hb Hw0 Hl0 Hs0 sel.
  assert (Hel : iq_eligible sb r prf e = true).
  { unfold iq_eligible. rewrite Hop, (head_mem_ready sb (re_tag h)) by done. simpl.
    unfold order_ready. change (ri_rob_tag (iq_entry e)) with (iq_tag e). rewrite Ht.
    destruct (head_gates r ss n h (mem_write (ri_ctrl (iq_entry e))) (mem_read (ri_ctrl (iq_entry e))) I Hh) as (-> & G2 & ->).
    rewrite G2, !andb_false_r. done. }
  pose proof (iq_select_spec q width sb r lp sp prf Hw) as H. cbv zeta in H. fold (iq_select q width sb r lp sp prf) in *.
  unfold sel. destruct (iq_select q width sb r lp sp prf) as [s q']. destruct H as (-> & _ & _). simpl.
  set (l := stable_sort iq_tag _).
  assert (Hl : e ∈ l) by (unfold l; rewrite elem_of_sort_by_key; by apply list_elem_of_filter).
  pose proof (stable_sort_sorted iq_tag _ : StronglySorted _ l) as Hsort.
  assert (Hsub : forall a, a ∈ l -> a ∈ live (iq_slots q)).
  { intros a. unfold l. rewrite elem_of_sort_by_key, list_elem_of_filter. naive_solver. }
  clearbody l. destruct l as [|a l]; [by apply not_elem_of_nil in Hl|].
  destruct width as [|w]; [lia|]. cbn [pick].
  rewrite (proj2 (Nat.eqb_neq lp 0)), (proj2 (Nat.eqb_neq sp 0)), !andb_false_r by lia. simpl. split; [done|].
  intros Hmin. do 2 f_equal. destruct (Hmin a (Hsub a ltac:(by left))) as [|Hlt]; [done|].
  apply elem_of_cons in Hl as [->|Hl]; [done|]. apply StronglySorted_inv in Hsort as [_ Hs].
  rewrite Forall_forall in Hs. specialize (Hs e Hl). unfold key_le in Hs. lia.
Qed.

(** * Witnesses *)

Definition demo_issue (tag rs1 rs1_phys rs2 rs2_phys rd_phys : Z) (ctrl : ControlSignals) : RenameIssueEntry := {|
  ri_rob_tag := tag; ri_pc := 0x1000; ri_inst := 0; ri_inst_size := Standard;
  ri_rs1 := rs1; ri_rs2 := rs2; ri_rs3 := 0; ri_rd := 1; ri_imm := 0; ri_rv1 := 0; ri_rv2 := 0; ri_rv3 := 0;
  ri_rs1_tag := None; ri_rs2_tag := None; ri_rs3_tag := None;
  ri_rs1_phys := rs1_phys; ri_rs2_phys := rs2_phys; ri_rs3_phys := 0; ri_rd_phys := rd_phys;
  ri_ctrl := ctrl; ri_trap := None; ri_exception_stage := None; ri_pred_taken := false; ri_pred_target := 0;
  ri_ghr_snapshot := ghr_default; ri_ras_snapshot := 0 |}.
Definition demo_alu : ControlSignals := ControlSignals_default <| reg_write := true |>.
Definition demo_load : ControlSignals := ControlSignals_default <| reg_write := true |> <| mem_read := true |>.
Definition demo_regs : RegisterFile := {| gpr := replicate 32 0; fpr := replicate 32 0 |}.
Definition demo_prf : PhysRegFile := prf_allocate (prf_mark_arch_ready (prf_new 80) 64) 64.

Definition iq_put (prf : PhysRegFile) (md : MemDepState) (e : RenameIssueEntry) (q : IssueQueue) : IssueQueue :=
  match iq_dispatch q e (rob_new 4) demo_regs (Some prf) md with Some (true, q) => q | _ => q end.
(** A load to register 64, and an addition that waits for it. *)
Definition demo_q0 : IssueQueue :=
  iq_put demo_prf MdNone (demo_issue 2 5 64 0 0 65 demo_alu) (iq_put demo_prf MdBypass (demo_issue 1 6 6 0 0 64 demo_load) (iq_new 4)).
(** The addition is woken speculatively, then the load's value arrives. *)
Definition demo_q : IssueQueue := iq_wakeup_phys (iq_speculative_wakeup_phys demo_q0 64) 64 77.
Definition demo_prf' : PhysRegFile := prf_write demo_prf 64 77.

Lemma demo_iq_reach : iq_reach 4 80 demo_q demo_prf'.
Proof.
  apply IqWriteback; [apply IqSpeculate|right; split_and!; [lia|by vm_compute; lia|done]].
  apply (IqDispatch 4 80 (iq_put demo_prf MdBypass (demo_issue 1 6 6 0 0 64 demo_load) (iq_new 4)) demo_prf
           (demo_issue 2 5 64 0 0 65 demo_alu) (rob_new 4) demo_regs MdNone); [|by unfold phys_ok|by vm_compute].
  apply (IqDispatch 4 80 (iq_new 4) demo_prf (demo_issue 1 6 6 0 0 64 demo_load) (rob_new 4) demo_regs MdBypass);
    [|by unfold phys_ok|by vm_compute].
  apply IqAllocate; [apply IqInit; lia|lia|constructor].
Qed.
Lemma demo_iq_wf : iq_wf demo_q.
Proof. apply (iq_reach_inv _ _ _ _ demo_iq_reach). Qed.
Lemma demo_sb_inv : sb_inv (sb_new 4).
Proof. apply sb_new_inv. lia. Qed.

Definition sel_tags (l : list SelectedEntry) : list (Z * Z) :=
  (fun s => (ri_rob_tag (se_entry s), ri_rv1 (se_entry s))) <$> l.

Lemma iq_select_oldest_first_witness :
  sel_tags (iq_select demo_q 1 (sb_new 4) (rob_new 4) 1 1 (Some demo_prf')).1 = [(1, 0)] /\
  iq_wf (iq_select demo_q 1 (sb_new 4) (rob_new 4) 1 1 (Some demo_prf')).2.
Proof.
  split; [by vm_compute|].
  pose proof (iq_select_oldest_first demo_q 1 (sb_new 4) (rob_new 4) 1 1 (Some demo_prf') demo_iq_wf) as H.
  destruct (iq_select _ _ _ _ _ _ _) as [sel q']. exact (proj1 H).
Defined.

Lemma iq_operands_exact_witness :
  sel_tags (iq_select demo_q 2 (sb_new 4) (rob_new 4) 1 1 (Some demo_prf')).1 = [(1, 0); (2, 77)] /\
  Forall (fun s => ri_trap (se_entry s) = None -> operands_from demo_prf' (se_entry s))
         (iq_select demo_q 2 (sb_new 4) (rob_new 4) 1 1 (Some demo_prf')).1.
Proof. split; [by vm_compute|]. exact (iq_operands_exact 4 80 _ _ 2 _ _ 1 1 demo_iq_reach). Defined.

(** The load is the head of the reorder buffer. *)
Definition demo_rob_ops : list rob_op :=
  [OpAllocate 0x1000 0 Standard 5 false demo_load 64 5; OpAllocate 0x1004 0 Standard 1 false demo_alu 65 1].
Definition demo_rob2 : Rob := (rob_run (rob_new 4) demo_rob_ops).1.
Lemma demo_rob2_inv : rob_inv demo_rob2 [0; 1] 2.
Proof.
  apply rob_reach_inv. refine (rob_run_reach demo_rob_ops (rob_new 4) [] 0 (reach_new 4 ltac:(lia)) _).
  apply (bool_decide_unpack _). by vm_compute.
Qed.

Definition demo_head : IssueQueueEntry := {|
  iq_entry := demo_issue 1 6 6 0 0 64 demo_load; iq_src1 := operand_ready 6 None 0; iq_src2 := operand_ready 0 None 0;
  iq_src3 := operand_ready 0 None 0; iq_mem_dep := MdBypass |}.

Lemma iq_head_progress_witness :
  sel_tags (iq_select demo_q 1 (sb_new 4) demo_rob2 1 1 (Some demo_prf')).1 = [(1, 0)] /\
  (iq_select demo_q 1 (sb_new 4) demo_rob2 1 1 (Some demo_prf')).1 <> [].
Proof.
  split; [by vm_compute|].
  refine (proj1 (iq_head_progress demo_q demo_rob2 [0; 1] 2 (rob_queue demo_rob2 !!! 0%nat)
           demo_head (sb_new 4) 1 1 1 (Some demo_prf') demo_iq_wf demo_rob2_inv demo_sb_inv
           _ _ _ _ _ _ _ _ _));
    [by vm_compute| |by vm_compute|by vm_compute|by constructor|by intros b H; vm_compute in H|lia..].
  apply list_elem_of_lookup. exists 0%nat. by vm_compute.
Defined.

(** After the tags wrap, the numerical order is not the program order: the
    older of two ready instructions waits. *)
Example select_prefers_wrapped_tags :
  let q := iq_put demo_prf MdNone (demo_issue 1 6 6 0 0 66 demo_alu)
             (iq_put demo_prf MdNone (demo_issue (2 ^ 32 - 1) 6 6 0 0 65 demo_alu) (iq_new 4)) in
  is_older_than (2 ^ 32 - 1) 1 = true /\
  sel_tags (iq_select q 1 (sb_new 4) (rob_new 4) 1 1 (Some demo_prf)).1 = [(1, 0)].
Proof. by vm_compute. Qed.
