(* ===== verification/Mshr.v ===== *)
(** Miss status holding registers ([core/units/cache/mshr.rs]): outstanding
    line fetches with the instructions parked on them. *)
From S2P Require Import Prelude Common Rob Latches.
Set Primitive Projections.
Local Open Scope Z_scope.

Inductive MshrState := MshrPending | MshrComplete.

Record MshrWaiter := { mwt_rob_tag : Z; mwt_parked_entry : option Mem1Mem2Entry }.
Record MshrEntry := {
  ms_line_addr : Z; ms_state : MshrState; ms_complete_cycle : Z;
  ms_waiters : list MshrWaiter; ms_valid : bool; ms_is_write : bool
}.

Inductive CacheResponse := RspHit | MshrAllocated (complete_cycle : Z) | MshrCoalesced (complete_cycle : Z) | MshrFull.

Record MshrFile := { ms_entries : list MshrEntry; ms_cap : nat; ms_count : nat; ms_line_bytes : Z }.

Definition mshr_empty : MshrEntry := {|
  ms_line_addr := 0; ms_state := MshrPending; ms_complete_cycle := 0; ms_waiters := []; ms_valid := false;
  ms_is_write := false |}.
#[export] Instance MshrEntry_inhabited : Inhabited MshrEntry := populate mshr_empty.

Definition mshr_new (capacity : nat) (line_bytes : Z) : MshrFile := {|
  ms_entries := replicate capacity mshr_empty; ms_cap := capacity; ms_count := 0;
  ms_line_bytes := if line_bytes =? 0 then 64 else line_bytes |}.

Definition mshr_line_align (self : MshrFile) (addr : Z) : Z := Z.land addr (not64 (sub64 (ms_line_bytes self) 1)).

Definition find_line (self : MshrFile) (line_addr : Z) : option nat :=
  fst <$> list_find (fun e => ms_valid e = true /\ ms_line_addr e = line_addr) (ms_entries self).
Definition mshr_free (self : MshrFile) : option nat :=
  fst <$> list_find (fun e => ms_valid e = false) (ms_entries self).

Definition mshr_request (self : MshrFile) (addr : Z) (is_write : bool) (miss_latency current_cycle : Z)
    (waiter : MshrWaiter) : CacheResponse * MshrFile :=
  let line_addr := mshr_line_align self addr in
  match find_line self line_addr with
  | Some idx =>
      let e := ms_entries self !!! idx in
      (MshrCoalesced (ms_complete_cycle e),
       self <| ms_entries := <[idx := e <| ms_waiters := ms_waiters e ++ [waiter] |>
                                        <| ms_is_write := is_write || ms_is_write e |>]> (ms_entries self) |>)
  | None =>
      if (ms_cap self <=? ms_count self)%nat then (MshrFull, self) else
      match mshr_free self with
      | Some i =>
          let complete_cycle := add64 current_cycle miss_latency in
          (MshrAllocated complete_cycle,
           self <| ms_entries := <[i := {| ms_line_addr := line_addr; ms_state := MshrPending;
                                           ms_complete_cycle := complete_cycle; ms_waiters := [waiter];
                                           ms_valid := true; ms_is_write := is_write |}]> (ms_entries self) |>
                <| ms_count := S (ms_count self) |>)
      | None => (MshrFull, self)
      end
  end.

(** Whether [drain_completions] takes the entry. *)
Definition mshr_done (current_cycle : Z) (e : MshrEntry) : bool :=
  ms_valid e && (ms_complete_cycle e <=? current_cycle).
(** What is swapped into its place. *)
Definition mshr_taken : MshrEntry := mshr_empty <| ms_state := MshrComplete |>.
Definition drain_completions (self : MshrFile) (current_cycle : Z) : list MshrEntry * MshrFile :=
  let completed := (fun e => e <| ms_state := MshrComplete |>)
                     <$> filter (fun e => mshr_done current_cycle e = true) (ms_entries self) in
  (completed,
   self <| ms_entries := (fun e => if mshr_done current_cycle e then mshr_taken else e) <$> ms_entries self |>
        <| ms_count := (ms_count self - length completed)%nat |>).

Definition retain_waiters (keep_tag : Z) (e : MshrEntry) : MshrEntry :=
  if ms_valid e then e <| ms_waiters := filter (fun w => is_older_or_eq (mwt_rob_tag w) keep_tag = true) (ms_waiters e) |>
  else e.
Definition mshr_flush_after (self : MshrFile) (keep_tag : Z) : MshrFile :=
  self <| ms_entries := retain_waiters keep_tag <$> ms_entries self |>.

Definition mshr_flush (self : MshrFile) : MshrFile :=
  self <| ms_entries := (fun e => e <| ms_valid := false |> <| ms_waiters := [] |>) <$> ms_entries self |>
       <| ms_count := 0%nat |>.

Definition mshr_active_count (self : MshrFile) : nat := ms_count self.
Definition mshr_is_full (self : MshrFile) : bool := (ms_cap self <=? ms_count self)%nat.
Definition mshr_capacity (self : MshrFile) : nat := ms_cap self.

(** * Correctness *)

Definition active (f : MshrFile) : list MshrEntry := filter (fun e => ms_valid e = true) (ms_entries f).
(** The instructions parked in the file. *)
Definition parked (f : MshrFile) : list MshrWaiter := active f ≫= ms_waiters.

Record mshr_wf (f : MshrFile) : Prop := {
  mw_len : length (ms_entries f) = ms_cap f;
  mw_count : ms_count f = length (active f);
  mw_lines : NoDup (ms_line_addr <$> active f)
}.

Lemma filter_insert {A} (P : A -> Prop) `{forall x, Decision (P x)} (l : list A) i a b :
  l !! i = Some a ->
  filter P l ≡ₚ (if decide (P a) then [a] else []) ++ filter P (take i l ++ drop (S i) l) /\
  filter P (<[i := b]> l) ≡ₚ (if decide (P b) then [b] else []) ++ filter P (take i l ++ drop (S i) l).
Proof.
  intros Hi. split.
  - rewrite <-(take_drop_middle l i a Hi) at 1. rewrite !filter_app, filter_cons. case_decide; simpl; [|done].
    by rewrite Permutation_middle.
  - rewrite insert_take_drop by (by eapply lookup_lt_Some). rewrite !filter_app, filter_cons. case_decide; simpl; [|done].
    by rewrite Permutation_middle.
Qed.

Lemma mshr_request_spec f addr w lat now waiter :
  mshr_wf f ->
  let line := mshr_line_align f addr in
  let '(r, f') := mshr_request f addr w lat now waiter in
  mshr_wf f' /\ mshr_line_align f' addr = line /\
  match r with
  | RspHit => False
  | MshrFull => f' = f /\ length (active f) = ms_cap f /\ Forall (fun e => ms_line_addr e <> line) (active f)
  | MshrAllocated c => Forall (fun e => ms_line_addr e <> line) (active f) /\ c = add64 now lat /\
      active f' ≡ₚ {| ms_line_addr := line; ms_state := MshrPending; ms_complete_cycle := c; ms_waiters := [waiter];
                      ms_valid := true; ms_is_write := w |} :: active f
  | MshrCoalesced c => exists e rest, active f ≡ₚ e :: rest /\ ms_line_addr e = line /\ ms_complete_cycle e = c /\
      active f' ≡ₚ (e <| ms_waiters := ms_waiters e ++ [waiter] |> <| ms_is_write := w || ms_is_write e |>) :: rest
  end.
Proof.
  intros [Hl Hc Hn] line. unfold mshr_request. fold line. unfold find_line.
  destruct (list_find _ (ms_entries f)) as [[i e]|] eqn:E; simpl.
  - apply list_find_Some in E as (Ei & [Ev Ea] & _). rewrite (list_lookup_total_correct _ _ _ Ei).
    set (e' := e <| ms_waiters := ms_waiters e ++ [waiter] |> <| ms_is_write := w || ms_is_write e |>).
    destruct (filter_insert (fun e => ms_valid e = true) (ms_entries f) i e e' Ei) as [P1 P2].
    rewrite decide_True in P1, P2 by done. simpl in P1, P2.
    set (rest := filter _ (take i _ ++ _)) in P1, P2.
    set (f' := f <| ms_entries := <[i := e']> (ms_entries f) |>). change (active f ≡ₚ e :: rest) in P1. change (active f' ≡ₚ e' :: rest) in P2.
    split_and!; [|done|by exists e, rest]. constructor; [simpl; by rewrite length_insert| |].
    + change (ms_count f = length (active f')). by rewrite P2, Hc, P1.
    + change (NoDup (ms_line_addr <$> active f')). rewrite P2. rewrite P1 in Hn. exact Hn.
  - apply list_find_None in E.
    assert (Hne : Forall (fun e => ms_line_addr e <> line) (active f)).
    { apply Forall_forall. intros e [Hv He]%list_elem_of_filter Ha. rewrite Forall_forall in E. by apply (E e He). }
    assert (Hle : (length (active f) <= length (ms_entries f))%nat) by apply length_filter.
    destruct (Nat.leb_spec (ms_cap f) (ms_count f)); [split_and!; [done|done|done|lia|done]|].
    unfold mshr_free. destruct (list_find _ (ms_entries f)) as [[i e]|] eqn:E2; simpl.
    + apply list_find_Some in E2 as (Ei & Ev & _).
      set (e' := Build_MshrEntry line MshrPending (add64 now lat) [waiter] true w).
      destruct (filter_insert (fun e => ms_valid e = true) (ms_entries f) i e e' Ei) as [P1 P2].
      rewrite decide_False in P1 by congruence. rewrite decide_True in P2 by done. simpl in P1, P2. rewrite <-P1 in P2.
      set (f' := f <| ms_entries := <[i := e']> (ms_entries f) |> <| ms_count := S (ms_count f) |>).
      change (active f' ≡ₚ e' :: active f) in P2. split_and!; [|done|done|done|exact P2].
      constructor; [simpl; by rewrite length_insert| |].
      * change (S (ms_count f) = length (active f')). by rewrite P2, Hc.
      * change (NoDup (ms_line_addr <$> active f')). rewrite P2. simpl. constructor; [|exact Hn].
        rewrite list_elem_of_fmap. intros (x & Hx & Hin). rewrite Forall_forall in Hne. by apply (Hne x Hin).
    + exfalso. apply list_find_None in E2. assert (active f = ms_entries f) as Ha.
      { apply filter_all. eapply Forall_impl; [exact E2|]. intros x Hx. destruct (ms_valid x) eqn:Ex; [done|by destruct Hx]. }
      rewrite Ha in Hc. lia.
Qed.

Lemma filter_partition {A} (p q : A -> bool) (l : list A) :
  filter (fun e => p e = true) l ≡ₚ
  filter (fun e => p e && q e = true) l ++ filter (fun e => p e && negb (q e) = true) l.
Proof.
  induction l as [|a l IH]; [done|]. rewrite !filter_cons. destruct (p a), (q a); simpl; rewrite IH; [done| |done|done].
  by rewrite Permutation_middle.
Qed.

Lemma drain_active now (l : list MshrEntry) :
  filter (fun e => ms_valid e = true) ((fun e => if mshr_done now e then mshr_taken else e) <$> l)
  = filter (fun e => ms_valid e && negb (ms_complete_cycle e <=? now) = true) l.
Proof.
  induction l as [|e l IH]; [done|]. rewrite fmap_cons, !filter_cons, IH.
  destruct (mshr_done now e) eqn:E; unfold mshr_done in E.
  - rewrite decide_False by done. rewrite decide_False; [done|]. apply andb_prop in E as [-> ->]. done.
  - destruct (ms_valid e) eqn:Ev; simpl in E; [|by rewrite !decide_False by done].
    by rewrite E, !decide_True by done.
Qed.

Lemma drain_spec f now :
  mshr_wf f ->
  let '(out, f') := drain_completions f now in
  mshr_wf f' /\
  out = (fun e => e <| ms_state := MshrComplete |>) <$> filter (fun e => ms_valid e && (ms_complete_cycle e <=? now) = true) (ms_entries f) /\
  active f ≡ₚ filter (fun e => ms_valid e && (ms_complete_cycle e <=? now) = true) (ms_entries f) ++ active f' /\
  Forall (fun e => now < ms_complete_cycle e) (active f').
Proof.
  intros [Hl Hc Hn]. unfold drain_completions. cbv zeta.
  assert (Ha : active f ≡ₚ filter (fun e => ms_valid e && (ms_complete_cycle e <=? now) = true) (ms_entries f) ++
    filter (fun e => ms_valid e && negb (ms_complete_cycle e <=? now) = true) (ms_entries f)) by apply filter_partition.
  assert (Hd : active (f <| ms_entries := (fun e => if mshr_done now e then mshr_taken else e) <$> ms_entries f |>
      <| ms_count := (ms_count f - length ((fun e => e <| ms_state := MshrComplete |>)
           <$> filter (fun e => mshr_done now e = true) (ms_entries f)))%nat |>)
    = filter (fun e => ms_valid e && negb (ms_complete_cycle e <=? now) = true) (ms_entries f)) by apply drain_active.
  rewrite Hd. split_and!; [|done|done|].
  - constructor; [simpl; by rewrite length_fmap| |].
    + rewrite Hd. simpl. rewrite length_fmap, Hc, Ha, length_app. unfold mshr_done. lia.
    + rewrite Hd. rewrite Ha, fmap_app in Hn. by apply NoDup_app in Hn as (_ & _ & ?).
  - apply Forall_forall. intros e [He _]%list_elem_of_filter. by to_prop.
Qed.
