(* ===== verification/Core.v ===== *)
(** The processor state of the pipeline stages: the [Machine] of the commit
    stage with the miss registers, the alignment switch, the first cacheable
    address, the parameters of fetch and the remaining counters of [cpu.stats],
    and the two units the stages call through interfaces: the branch predictor
    and the floating-point unit. *)
From S2P Require Import Prelude Common Cpu Commit Mshr.
Set Primitive Projections.
Local Open Scope Z_scope.

(** [BranchPredictor].  [predict_branch] takes [&self], but the composed
    predictor records what it predicted in cells, so it gives the new state. *)
Class BranchUnit (P : Type) := {
  bu_update :: BranchUpdate P;
  repair_history : P -> Ghr -> P;
  speculate : P -> Z -> bool -> P;
  restore_ras : P -> Z -> P;
  update_btb : P -> Z -> Z -> P;
  on_call : P -> Z -> Z -> Z -> P;
  on_return : P -> P;
  repair_to_committed : P -> P;
  predict_branch : P -> Z -> (bool * option Z) * P;
  predict_btb : P -> Z -> option Z;
  predict_return : P -> option Z;
  snapshot_history : P -> Ghr;
  snapshot_ras : P -> Z
}.

(** Floating point: [Fpu::execute_full], and the conversions that [compute_alu]
    does itself.  Both give the result and the exception flags. *)
Class FpUnit := {
  fpu_execute_full : AluOp -> Z -> Z -> Z -> bool -> Z * Z;
  fpu_convert : AluOp -> Z -> bool -> Z * Z
}.

Record PipeStats := {
  speculative_branch_predictions : Z; speculative_branch_mispredictions : Z;
  mshr_allocations : Z; mshr_coalesces : Z; load_replays : Z; stalls_mshr_full : Z;
  stalls_squash : Z; mem_ordering_violations : Z; pipeline_flushes : Z; stalls_control : Z;
  misprediction_penalty : Z; stalls_rename_rebuild : Z; stalls_mem : Z; stalls_backpressure : Z;
  stalls_fu_structural : Z; stalls_data : Z; flushes_branch : Z; flushes_system : Z;
  fu_utilization : list Z;
  stalls_dispatch : Z; stalls_checkpoint : Z;
  mdp_predictions_bypass : Z; mdp_predictions_wait_all : Z; mdp_predictions_wait_for : Z; mdp_violations : Z
}.
Definition pipe_stats_zero : PipeStats :=
  Build_PipeStats 0 0 0 0 0 0 0 0 0 0 0 0 0 0 0 0 0 0 (replicate 9 0) 0 0 0 0 0 0.

Record Core {X M P : Type} := {
  machine : Machine X M P;
  l1d_mshrs : MshrFile;
  misaligned_access_trap : bool;
  cache_base : Z;
  i_cache_line_bytes : Z;
  pipeline_width : nat;
  pipe_stats : PipeStats
}.
Arguments Core : clear implicits.

Section Updates.
Context {X M P : Type}.
Local Abbreviation core := (Core X M P).

Definition hart (c : core) : Cpu := cpu (machine c).
Definition upd_machine (f : Machine X M P -> Machine X M P) (c : core) : core := c <| machine := f (machine c) |>.
Definition upd_hart (f : Cpu -> Cpu) (c : core) : core := upd_machine (upd_cpu f) c.
Definition upd_predictor (f : P -> P) (c : core) : core :=
  upd_machine (fun m => m <| branch_predictor := f (branch_predictor m) |>) c.
Definition count (f : PipeStats -> PipeStats) (c : core) : core := c <| pipe_stats := f (pipe_stats c) |>.

(** [cpu.pc = target; cpu.redirect_pending = true;] *)
Definition redirect (target : Z) (c : core) : core := upd_machine (redirect_to target) c.

Lemma hart_upd_predictor f c : hart (upd_predictor f c) = hart c.
Proof. done. Qed.
Lemma hart_count f c : hart (count f c) = hart c.
Proof. done. Qed.

End Updates.
