(* ===== verification/Predictor.v ===== *)
(** Branch target buffer, return address stack and the predictors with one or
    two tables ([core/units/bru/btb.rs], [ras.rs], [predictors/static_bp.rs],
    [gshare.rs], [tournament.rs], [perceptron.rs]), each an instance of
    [BranchUnit].  The counters of the tables saturate; the histories of these
    predictors are a 64-bit word. *)
From S2P Require Import Prelude Common Commit Core History.
From Stdlib Require Import SpecFloat.
Set Primitive Projections.
Local Open Scope Z_scope.

(** * Branch target buffer *)

Record BtbEntry := { btb_tag : Z; btb_target : Z; btb_valid : bool }.
Definition BtbEntry_default : BtbEntry := {| btb_tag := 0; btb_target := 0; btb_valid := false |}.
#[export] Instance BtbEntry_inhabited : Inhabited BtbEntry := populate BtbEntry_default.

Record Btb := { btb_table : list BtbEntry; btb_num_sets : nat; btb_ways : nat; btb_replace_ptr : list Z }.

Definition btb_new (size ways : nat) : Btb :=
  let ways := (ways `max` 1)%nat in
  let num_sets := ((size / ways) `max` 1)%nat in
  {| btb_table := replicate (num_sets * ways) BtbEntry_default; btb_num_sets := num_sets; btb_ways := ways;
     btb_replace_ptr := replicate num_sets 0 |}.

Definition btb_set_index (self : Btb) (pc : Z) : nat :=
  Z.to_nat (Z.land (Z.shiftr pc 2) (Z.of_nat (btb_num_sets self - 1))).

(** [for w in 0..self.ways { if p(table[base + w]) { return } }] *)
Definition btb_way (self : Btb) (base : nat) (p : BtbEntry -> bool) : option nat :=
  fst <$> list_find (fun w => p (btb_table self !!! (base + w)%nat) = true) (seq 0 (btb_ways self)).
Definition btb_hit (pc : Z) (e : BtbEntry) : bool := btb_valid e && (btb_tag e =? pc).

Definition btb_lookup (self : Btb) (pc : Z) : option Z :=
  let base := (btb_set_index self pc * btb_ways self)%nat in
  w ← btb_way self base (btb_hit pc); Some (btb_target (btb_table self !!! (base + w)%nat)).

Definition btb_write (i : nat) (e : BtbEntry) (self : Btb) : Btb := self <| btb_table := <[i := e]> (btb_table self) |>.
Definition btb_update (self : Btb) (pc target : Z) : Btb :=
  let set := btb_set_index self pc in
  let base := (set * btb_ways self)%nat in
  let entry := {| btb_tag := pc; btb_target := target; btb_valid := true |} in
  match btb_way self base (btb_hit pc) with
  | Some w => btb_write (base + w) ((btb_table self !!! (base + w)%nat) <| btb_target := target |>) self
  | None =>
      match btb_way self base (fun e => negb (btb_valid e)) with
      | Some w => btb_write (base + w) entry self
      | None =>
          let victim := (Z.to_nat (btb_replace_ptr self !!! set) mod btb_ways self)%nat in
          btb_write (base + victim) entry
            (self <| btb_replace_ptr := <[set := u8 (Z.of_nat ((victim + 1) mod btb_ways self))]> (btb_replace_ptr self) |>)
      end
  end.

(** * Return address stack *)

Record Ras := { ras_stack : list Z; ras_ptr : nat; ras_capacity : nat }.
Definition ras_new (capacity : nat) : Ras :=
  {| ras_stack := replicate capacity 0; ras_ptr := 0; ras_capacity := capacity |}.
(** With no capacity the code's index underflows. *)
Definition ras_push (self : Ras) (addr : Z) : Ras :=
  if (ras_ptr self <? ras_capacity self)%nat
  then self <| ras_stack := <[ras_ptr self := addr]> (ras_stack self) |> <| ras_ptr := (ras_ptr self + 1)%nat |>
  else self <| ras_stack := <[(ras_capacity self - 1)%nat := addr]> (ras_stack self) |>.
Definition ras_pop (self : Ras) : option Z * Ras :=
  if (ras_ptr self =? 0)%nat then (None, self)
  else
    let self := self <| ras_ptr := (ras_ptr self - 1)%nat |> in
    (Some (ras_stack self !!! ras_ptr self), self).
Definition ras_top (self : Ras) : option Z :=
  if (ras_ptr self =? 0)%nat then None else Some (ras_stack self !!! (ras_ptr self - 1)%nat).
Definition ras_snapshot_ptr (self : Ras) : nat := ras_ptr self.
Definition ras_restore_ptr (self : Ras) (ptr : nat) : Ras := self <| ras_ptr := ptr |>.

(** What every predictor does with the two. *)
Definition update_target (btb : Btb) (pc : Z) (target : option Z) : Btb :=
  match target with Some tgt => btb_update btb pc tgt | None => btb end.

(** Two-bit counters. *)
Definition count_up (c : Z) : Z := if c <? 3 then c + 1 else c.
Definition count_down (c : Z) : Z := if 0 <? c then c - 1 else c.
Definition count (taken : bool) (c : Z) : Z := if taken then count_up c else count_down c.
Definition at_index (f : Z -> Z) (i : nat) (l : list Z) : list Z := <[i := f (l !!! i)]> l.
(** [(ghr << 1) | taken] *)
Definition shift_in (ghr : Z) (taken : bool) : Z := Z.lor (shl64 ghr 1) (Z.b2z taken).

(** * Static prediction *)

Record StaticPredictor := { sp_btb : Btb; sp_ras : Ras }.
Definition static_new (btb_size btb_ways ras_size : nat) : StaticPredictor :=
  {| sp_btb := btb_new btb_size btb_ways; sp_ras := ras_new ras_size |}.
Definition sp_on_call (self : StaticPredictor) (pc ret_addr target : Z) : StaticPredictor :=
  self <| sp_ras := ras_push (sp_ras self) ret_addr |> <| sp_btb := btb_update (sp_btb self) pc target |>.
#[export] Instance static_unit : BranchUnit StaticPredictor := {|
  bu_update := {| update_branch p pc _ target _ := p <| sp_btb := update_target (sp_btb p) pc target |> |};
  predict_branch p _ := ((false, None), p);
  predict_btb p pc := btb_lookup (sp_btb p) pc;
  on_call := sp_on_call;
  predict_return p := ras_top (sp_ras p);
  on_return p := p <| sp_ras := (ras_pop (sp_ras p)).2 |>;
  speculate p _ _ := p; snapshot_history _ := ghr_default; repair_history p _ := p;
  snapshot_ras p := Z.of_nat (ras_snapshot_ptr (sp_ras p));
  restore_ras p ptr := p <| sp_ras := ras_restore_ptr (sp_ras p) (Z.to_nat ptr) |>;
  update_btb p pc target := p <| sp_btb := btb_update (sp_btb p) pc target |>;
  repair_to_committed p := p |}.

(** * GShare *)

Definition GSHARE_TABLE_BITS : Z := 12.
Definition GSHARE_TABLE_SIZE : Z := Z.shiftl 1 GSHARE_TABLE_BITS.
Record GSharePredictor := { gs_ghr : Z; gs_pht : list Z; gs_btb : Btb; gs_ras : Ras }.
Definition gshare_new (btb_size btb_ways ras_size : nat) : GSharePredictor :=
  {| gs_ghr := 0; gs_pht := replicate (Z.to_nat GSHARE_TABLE_SIZE) 1; gs_btb := btb_new btb_size btb_ways;
     gs_ras := ras_new ras_size |}.
Definition gs_index (self : GSharePredictor) (pc : Z) : nat :=
  let pc_part := Z.land (Z.shiftr pc 2) (GSHARE_TABLE_SIZE - 1) in
  let ghr_part := Z.land (gs_ghr self) (GSHARE_TABLE_SIZE - 1) in
  Z.to_nat (Z.lxor pc_part ghr_part).
Definition gs_predict_branch (self : GSharePredictor) (pc : Z) : bool * option Z :=
  let counter := gs_pht self !!! gs_index self pc in
  if 2 <=? counter then (true, btb_lookup (gs_btb self) pc) else (false, None).
Definition gs_shift (self : GSharePredictor) (taken : bool) : GSharePredictor :=
  self <| gs_ghr := Z.land (shift_in (gs_ghr self) taken) (GSHARE_TABLE_SIZE - 1) |>.
Definition gs_update_branch (self : GSharePredictor) (pc : Z) (taken : bool) (target : option Z) (_ : Ghr) : GSharePredictor :=
  let self := self <| gs_pht := at_index (count taken) (gs_index self pc) (gs_pht self) |> in
  (gs_shift self taken) <| gs_btb := update_target (gs_btb self) pc target |>.
Definition gs_on_call (self : GSharePredictor) (pc ret_addr target : Z) : GSharePredictor :=
  self <| gs_ras := ras_push (gs_ras self) ret_addr |> <| gs_btb := btb_update (gs_btb self) pc target |>.
#[export] Instance gshare_unit : BranchUnit GSharePredictor := {|
  bu_update := {| update_branch := gs_update_branch |};
  predict_branch p pc := (gs_predict_branch p pc, p);
  predict_btb p pc := btb_lookup (gs_btb p) pc;
  on_call := gs_on_call;
  predict_return p := ras_top (gs_ras p);
  on_return p := p <| gs_ras := (ras_pop (gs_ras p)).2 |>;
  speculate p _ taken := gs_shift p taken;
  snapshot_history p := ghr_new (gs_ghr p); repair_history p ghr := p <| gs_ghr := ghr_val ghr |>;
  snapshot_ras p := Z.of_nat (ras_snapshot_ptr (gs_ras p));
  restore_ras p ptr := p <| gs_ras := ras_restore_ptr (gs_ras p) (Z.to_nat ptr) |>;
  update_btb p pc target := p <| gs_btb := btb_update (gs_btb p) pc target |>;
  repair_to_committed p := p |}.

(** * Tournament *)

Record TournamentConfig := { global_size_bits : nat; local_hist_bits : nat; local_pred_bits : nat }.
Record TournamentPredictor := {
  tn_btb : Btb; tn_ras : Ras; tn_ghr : Z;
  global_pht : list Z; global_mask : Z;
  local_history_table : list Z; local_hist_mask : Z;
  local_pht : list Z; local_pred_mask : Z;
  choice_pht : list Z
}.
Definition tournament_new (config : TournamentConfig) (btb_size btb_ways ras_size : nat) : TournamentPredictor :=
  let global_size := Z.shiftl 1 (Z.of_nat (global_size_bits config)) in
  let local_hist_size := Z.shiftl 1 (Z.of_nat (local_hist_bits config)) in
  let local_pred_size := Z.shiftl 1 (Z.of_nat (local_pred_bits config)) in
  {| tn_btb := btb_new btb_size btb_ways; tn_ras := ras_new ras_size; tn_ghr := 0;
     global_pht := replicate (Z.to_nat global_size) 1; global_mask := global_size - 1;
     local_history_table := replicate (Z.to_nat local_hist_size) 0; local_hist_mask := local_hist_size - 1;
     local_pht := replicate (Z.to_nat local_pred_size) 1; local_pred_mask := local_pred_size - 1;
     choice_pht := replicate (Z.to_nat global_size) 1 |}.
Definition tn_get_global_prediction (self : TournamentPredictor) (idx : nat) : bool := 2 <=? global_pht self !!! idx.
Definition tn_local_index (self : TournamentPredictor) (pc : Z) : nat := Z.to_nat (Z.land pc (local_hist_mask self)).
Definition tn_pred_index (self : TournamentPredictor) (pc : Z) : nat :=
  let pattern := local_history_table self !!! tn_local_index self pc in
  Z.to_nat (Z.land pattern (local_pred_mask self)).
Definition tn_get_local_prediction (self : TournamentPredictor) (pc : Z) : bool :=
  2 <=? local_pht self !!! tn_pred_index self pc.
Definition tn_global_index (self : TournamentPredictor) (pc : Z) : nat :=
  Z.to_nat (Z.land (Z.lxor (tn_ghr self) pc) (global_mask self)).
Definition tn_predict_branch (self : TournamentPredictor) (pc : Z) : bool * option Z :=
  let g_idx := tn_global_index self pc in
  let global_taken := tn_get_global_prediction self g_idx in
  let local_taken := tn_get_local_prediction self pc in
  let use_global := 2 <=? choice_pht self !!! g_idx in
  let taken := if use_global then global_taken else local_taken in
  if taken then (true, btb_lookup (tn_btb self) pc) else (false, None).
Definition tn_shift (self : TournamentPredictor) (taken : bool) : TournamentPredictor :=
  self <| tn_ghr := Z.land (shift_in (tn_ghr self) taken) (global_mask self) |>.
Definition tn_train_choice (self : TournamentPredictor) (pc : Z) (taken : bool) : TournamentPredictor :=
  let g_idx := tn_global_index self pc in
  let global_correct := eqb (tn_get_global_prediction self g_idx) taken in
  let local_correct := eqb (tn_get_local_prediction self pc) taken in
  if eqb global_correct local_correct then self
  else self <| choice_pht := at_index (count global_correct) g_idx (choice_pht self) |>.
Definition tn_update_branch (self : TournamentPredictor) (pc : Z) (taken : bool) (target : option Z) (_ : Ghr) : TournamentPredictor :=
  let g_idx := tn_global_index self pc in
  let self := tn_train_choice self pc taken in
  let self := tn_shift (self <| global_pht := at_index (count taken) g_idx (global_pht self) |>) taken in
  let lh_idx := tn_local_index self pc in
  let pattern := local_history_table self !!! lh_idx in
  let self := self <| local_pht := at_index (count taken) (tn_pred_index self pc) (local_pht self) |> in
  let self := self <| local_history_table :=
    <[lh_idx := Z.land (Z.lor (u16 (Z.shiftl pattern 1)) (Z.b2z taken)) (u16 (local_pred_mask self))]> (local_history_table self) |> in
  self <| tn_btb := update_target (tn_btb self) pc target |>.
Definition tn_on_call (self : TournamentPredictor) (pc ret_addr target : Z) : TournamentPredictor :=
  self <| tn_ras := ras_push (tn_ras self) ret_addr |> <| tn_btb := btb_update (tn_btb self) pc target |>.
#[export] Instance tournament_unit : BranchUnit TournamentPredictor := {|
  bu_update := {| update_branch := tn_update_branch |};
  predict_branch p pc := (tn_predict_branch p pc, p);
  predict_btb p pc := btb_lookup (tn_btb p) pc;
  on_call := tn_on_call;
  predict_return p := ras_top (tn_ras p);
  on_return p := p <| tn_ras := (ras_pop (tn_ras p)).2 |>;
  speculate p _ taken := tn_shift p taken;
  snapshot_history p := ghr_new (tn_ghr p); repair_history p ghr := p <| tn_ghr := ghr_val ghr |>;
  snapshot_ras p := Z.of_nat (ras_snapshot_ptr (tn_ras p));
  restore_ras p ptr := p <| tn_ras := ras_restore_ptr (tn_ras p) (Z.to_nat ptr) |>;
  update_btb p pc target := p <| tn_btb := btb_update (tn_btb p) pc target |>;
  repair_to_committed p := p |}.

(** * Perceptron *)

Record PerceptronConfig := { pc_history_length : nat; pc_table_bits : nat }.
Record PerceptronPredictor := {
  pp_ghr : Z; pp_table : list Z; pp_history_length : nat; pp_table_mask : Z; pp_row_size : nat; pp_threshold : Z;
  pp_btb : Btb; pp_ras : Ras
}.

(** [1.93_f64] is [THETA_COEFF_MANTISSA * 2^-52]. *)
Definition THETA_COEFF_MANTISSA : Z := 8691947280825057.
Definition THETA_BIAS : Z := 14.
(** [f64 as i32]: towards zero, saturating. *)
Definition f64_to_i32 (x : spec_float) : Z :=
  match x with
  | S754_finite s m e =>
      let v := Z.shiftl (Zpos m) e in
      let v := if s then - v else v in
      Z.max (- 2 ^ 31) (Z.min v (2 ^ 31 - 1))
  | S754_infinity s => if s then - 2 ^ 31 else 2 ^ 31 - 1
  | _ => 0
  end.
(** [THETA_COEFF.mul_add(hist_len as f64, THETA_BIAS) as i32]: one rounding. *)
Definition pp_theta (hist_len : nat) : Z :=
  f64_to_i32 (binary_normalize 53 1024 (THETA_COEFF_MANTISSA * Z.of_nat hist_len + Z.shiftl THETA_BIAS 52) (-52) false).

Definition perceptron_new (config : PerceptronConfig) (btb_size btb_ways ras_size : nat) : PerceptronPredictor :=
  let table_entries := Z.shiftl 1 (Z.of_nat (pc_table_bits config)) in
  let row_size := (pc_history_length config + 1)%nat in
  {| pp_ghr := 0; pp_table := replicate (Z.to_nat table_entries * row_size) 0;
     pp_history_length := pc_history_length config; pp_table_mask := table_entries - 1; pp_row_size := row_size;
     pp_threshold := pp_theta (pc_history_length config); pp_btb := btb_new btb_size btb_ways; pp_ras := ras_new ras_size |}.
Definition pp_index (self : PerceptronPredictor) (pc : Z) : nat :=
  let pc_idx := Z.land (Z.shiftr pc 2) (pp_table_mask self) in
  let hist_idx := Z.land (pp_ghr self) (pp_table_mask self) in
  Z.to_nat (Z.lxor pc_idx hist_idx).
(** The history bit as 1 or -1. *)
Definition pp_sign (self : PerceptronPredictor) (i : nat) : Z := if bit_at (pp_ghr self) (Z.of_nat i) then 1 else -1.
Definition pp_output (self : PerceptronPredictor) (row_idx : nat) : Z :=
  let base := (row_idx * pp_row_size self)%nat in
  foldl (fun y i => y + (pp_table self !!! (base + 1 + i)%nat) * pp_sign self i) (pp_table self !!! base)
    (seq 0 (pp_history_length self)).
Definition clamp_weight (v : Z) : Z := if 127 <? v then 127 else if v <? -128 then -128 else v.
Definition pp_predict_branch (self : PerceptronPredictor) (pc : Z) : bool * option Z :=
  let y := pp_output self (pp_index self pc) in
  if 0 <=? y then (true, btb_lookup (pp_btb self) pc) else (false, None).
Definition pp_train (self : PerceptronPredictor) (base : nat) (t : Z) : PerceptronPredictor :=
  let table := at_index (fun v => clamp_weight (v + t)) base (pp_table self) in
  self <| pp_table := foldl (fun tb i => at_index (fun v => clamp_weight (v + t * pp_sign self i)) (base + 1 + i) tb)
                        table (seq 0 (pp_history_length self)) |>.
Definition pp_shift (self : PerceptronPredictor) (taken : bool) : PerceptronPredictor :=
  self <| pp_ghr := Z.land (shift_in (pp_ghr self) taken) (sub64 (shl64 1 (Z.of_nat (pp_history_length self))) 1) |>.
Definition pp_update_branch (self : PerceptronPredictor) (pc : Z) (taken : bool) (target : option Z) (_ : Ghr) : PerceptronPredictor :=
  let idx := pp_index self pc in
  let y := pp_output self idx in
  let t := if taken then 1 else -1 in
  let self := if (Z.abs y <=? pp_threshold self) || negb (eqb (0 <=? y) taken)
              then pp_train self (idx * pp_row_size self) t else self in
  (pp_shift self taken) <| pp_btb := update_target (pp_btb self) pc target |>.
Definition pp_on_call (self : PerceptronPredictor) (pc ret_addr target : Z) : PerceptronPredictor :=
  self <| pp_ras := ras_push (pp_ras self) ret_addr |> <| pp_btb := btb_update (pp_btb self) pc target |>.
#[export] Instance perceptron_unit : BranchUnit PerceptronPredictor := {|
  bu_update := {| update_branch := pp_update_branch |};
  predict_branch p pc := (pp_predict_branch p pc, p);
  predict_btb p pc := btb_lookup (pp_btb p) pc;
  on_call := pp_on_call;
  predict_return p := ras_top (pp_ras p);
  on_return p := p <| pp_ras := (ras_pop (pp_ras p)).2 |>;
  speculate p _ taken := pp_shift p taken;
  snapshot_history p := ghr_new (pp_ghr p); repair_history p ghr := p <| pp_ghr := ghr_val ghr |>;
  snapshot_ras p := Z.of_nat (ras_snapshot_ptr (pp_ras p));
  restore_ras p ptr := p <| pp_ras := ras_restore_ptr (pp_ras p) (Z.to_nat ptr) |>;
  update_btb p pc target := p <| pp_btb := btb_update (pp_btb p) pc target |>;
  repair_to_committed p := p |}.
