(* ===== verification/Tage.v ===== *)
(** TAGE ([core/units/bru/components/sc_types.rs], [tage_core.rs],
    [predictors/tage.rs]): the bimodal table, the tagged banks, the choice
    between provider and alternate, training, and the predictor around them. *)
From S2P Require Import Prelude Common Commit Core History TaggedBank Predictor.
Set Primitive Projections.
Local Open Scope Z_scope.

(** * Confidence and metadata *)

Inductive TageConfLevel := ConfHigh | ConfMedium | ConfLow | ConfNone.
#[export] Instance TageConfLevel_eq_dec : EqDecision TageConfLevel.
Proof. solve_decision. Defined.

Definition conf_from_ctr (ctr : Z) : TageConfLevel :=
  let abs_ctr := if ctr <? 0 then - ctr else ctr in
  let centered := 2 * abs_ctr + 1 in
  if 7 <=? centered then ConfHigh else if centered =? 5 then ConfMedium else if centered =? 1 then ConfLow else ConfNone.

Record TageScMeta := {
  tm_conf : TageConfLevel; tm_provider_bank : nat; tm_alt_bank_present : bool; tm_pred_taken : bool; tm_pred_ctr : Z
}.

(** * The core *)

Record TageConfig := {
  tg_num_banks : nat; tg_table_size : nat; tg_loop_table_size : nat; tg_reset_interval : Z;
  tg_history_lengths : list nat; tg_tag_widths : list nat
}.

Record TageEntry := { te_tag : Z; te_ctr : Z; te_u : Z }.
Definition TageEntry_default : TageEntry := {| te_tag := 0; te_ctr := 0; te_u := 0 |}.
#[export] Instance TageEntry_inhabited : Inhabited TageEntry := populate TageEntry_default.

Record TageCore := {
  tc_base : list Z; tc_geo_banks : GeoBankSet; tc_tables : list (list TageEntry);
  tc_use_alt_on_na_ctr : Z; tc_clock_counter : Z; tc_reset_interval : Z
}.
Record TageUpdateResult := { tu_meta : TageScMeta; tu_tage_taken : bool }.

Definition is_power_of_two (n : nat) : bool := negb (n =? 0)%nat && (2 ^ Nat.log2 n =? n)%nat.
(** [hist_lengths.iter().max().unwrap_or(&64)] *)
Definition max_or_64 (l : list nat) : nat := match l with [] => 64%nat | _ => foldr Nat.max 0%nat l end.

(** [None] is a failed assertion. *)
Definition tage_new (config : TageConfig) : option TageCore :=
  let num_banks := tg_num_banks config in
  if negb (is_power_of_two (tg_table_size config)) || negb (length (tg_history_lengths config) =? num_banks)%nat
     || negb (length (tg_tag_widths config) =? num_banks)%nat || (1024 <? max_or_64 (tg_history_lengths config))%nat
  then None
  else
    let table_bits := Nat.log2 (tg_table_size config) in
    geo_banks ← gb_new (tg_history_lengths config) (tg_tag_widths config) table_bits;
    Some {| tc_base := replicate (tg_table_size config) 0; tc_geo_banks := geo_banks;
            tc_tables := replicate num_banks (replicate (tg_table_size config) TageEntry_default);
            tc_use_alt_on_na_ctr := 0; tc_clock_counter := 0; tc_reset_interval := tg_reset_interval config |}.

Definition tage_max_history (self : TageCore) : nat :=
  foldl (fun max i => let hl := gb_hist_lengths (tc_geo_banks self) !!! i in if (max <? hl)%nat then hl else max) 0%nat
    (seq 0 (gb_num_banks (tc_geo_banks self))).

Definition tc_entry (self : TageCore) (bank : nat) (idx : Z) : TageEntry := (tc_tables self !!! bank) !!! Z.to_nat idx.
Definition tc_base_idx (self : TageCore) (pc : Z) : Z := Z.land (Z.shiftr pc 2) (gb_table_mask (tc_geo_banks self)).
Definition tc_base_ctr (self : TageCore) (pc : Z) : Z := tc_base self !!! Z.to_nat (tc_base_idx self pc).

(** The longest matching bank and the next one. *)
Definition tc_find_body (self : TageCore) (pc : Z) (i : nat) (provider : option nat) : flow (option nat) (option nat * option nat) :=
  let idx := gb_spec_index (tc_geo_banks self) pc i in
  let tag := gb_spec_tag (tc_geo_banks self) pc i in
  if te_tag (tc_entry self i idx) =? tag then
    match provider with None => Continue (Some i) | Some p => Return (Some p, Some i) end
  else Continue provider.
Definition tc_find (self : TageCore) (pc : Z) : option nat * option nat :=
  after_loop (list_scan (tc_find_body self pc) (rev (seq 0 (length (tc_tables self)))) None) (fun provider => (provider, None)).

Definition weak_counter (ctr : Z) : bool := (ctr =? 0) || (ctr =? -1).
Definition tc_spec_ctr (self : TageCore) (pc : Z) (bank : nat) : Z :=
  te_ctr (tc_entry self bank (gb_spec_index (tc_geo_banks self) pc bank)).

Definition tage_predict (self : TageCore) (pc : Z) : TageScMeta :=
  match tc_find self pc with
  | (None, _) =>
      let ctr := tc_base_ctr self pc in
      {| tm_conf := conf_from_ctr ctr; tm_provider_bank := 0; tm_alt_bank_present := false;
         tm_pred_taken := 0 <=? ctr; tm_pred_ctr := ctr |}
  | (Some prov_bank, alt) =>
      let prov_ctr := tc_spec_ctr self pc prov_bank in
      let ctr := if weak_counter prov_ctr && (0 <=? tc_use_alt_on_na_ctr self)
                 then match alt with None => tc_base_ctr self pc | Some bank => tc_spec_ctr self pc bank end
                 else prov_ctr in
      {| tm_conf := conf_from_ctr ctr; tm_provider_bank := prov_bank + 1; tm_alt_bank_present := bool_decide (is_Some alt);
         tm_pred_taken := 0 <=? ctr; tm_pred_ctr := ctr |}
  end.

(** ** Training *)

Definition tc_on_entry (bank : nat) (idx : Z) (f : TageEntry -> TageEntry) (tables : list (list TageEntry)) : list (list TageEntry) :=
  let table := tables !!! bank in
  <[bank := <[Z.to_nat idx := f (table !!! Z.to_nat idx)]> table]> tables.

Definition tc_tick (self : TageCore) : TageCore :=
  let self := self <| tc_clock_counter := u32 (tc_clock_counter self + 1) |> in
  if tc_reset_interval self <=? tc_clock_counter self
  then self <| tc_clock_counter := 0 |>
            <| tc_tables := map (map (fun e => e <| te_u := Z.shiftr (te_u e) 1 |>)) (tc_tables self) |>
  else self.

(** Banks counted from 1, 0 for none. *)
Definition tc_match_body (self : TageCore) (indices tags : list Z) (i : nat) (found : nat * nat) : flow (nat * nat) (nat * nat) :=
  let '(provider, alt) := found in
  if te_tag (tc_entry self i (indices !!! i)) =? tags !!! i then
    if (provider =? 0)%nat then Continue ((i + 1)%nat, alt)
    else if (alt =? 0)%nat then Return (provider, (i + 1)%nat) else Continue (provider, alt)
  else Continue (provider, alt).
Definition tc_match (self : TageCore) (indices tags : list Z) : nat * nat :=
  after_loop (list_scan (tc_match_body self indices tags) (rev (seq 0 (length (tc_tables self)))) (0%nat, 0%nat)) id.

(** The counter of a bank counted from 1, of the bimodal table for 0. *)
Definition tc_ctr_of (self : TageCore) (pc : Z) (indices : list Z) (bank : nat) : Z :=
  match bank with O => tc_base_ctr self pc | S b => te_ctr (tc_entry self b (indices !!! b)) end.

Definition train_provider (taken alt_taken provider_mispred : bool) (e : TageEntry) : TageEntry :=
  let e := e <| te_ctr := if taken then (if te_ctr e <? 3 then te_ctr e + 1 else te_ctr e)
                          else (if -4 <? te_ctr e then te_ctr e - 1 else te_ctr e) |> in
  let e := if negb provider_mispred && negb (eqb alt_taken taken) && (te_u e <? 3) then e <| te_u := te_u e + 1 |> else e in
  if provider_mispred && (0 <? te_u e) then e <| te_u := te_u e - 1 |> else e.
Definition train_base (taken : bool) (b : Z) : Z :=
  if taken then (if b <? 1 then b + 1 else b) else (if -2 <? b then b - 1 else b).

(** The first entry of a longer bank that is not useful; [None] when there is none. *)
Definition tc_allocate_body (taken : bool) (indices tags : list Z) (i : nat) (tables : list (list TageEntry))
    : flow (list (list TageEntry)) (option (list (list TageEntry))) :=
  if te_u ((tables !!! i) !!! Z.to_nat (indices !!! i)) =? 0
  then Return (Some (tc_on_entry i (indices !!! i)
                 (fun _ => {| te_tag := tags !!! i; te_ctr := if taken then 0 else -1; te_u := 1 |}) tables))
  else Continue tables.
Definition age_entry (e : TageEntry) : TageEntry := if 0 <? te_u e then e <| te_u := te_u e - 1 |> else e.
Definition tc_allocate (taken : bool) (start_bank : nat) (indices tags : list Z) (tables : list (list TageEntry)) : list (list TageEntry) :=
  let banks := seq start_bank (length tables - start_bank) in
  match after_loop (list_scan (tc_allocate_body taken indices tags) banks tables) (fun _ => None) with
  | Some tables' => tables'
  | None => foldl (fun tb i => tc_on_entry i (indices !!! i) age_entry tb) tables banks
  end.

Definition tage_update (self : TageCore) (pc : Z) (taken : bool) (_ : Ghr) : TageUpdateResult * TageCore :=
  let self := tc_tick self in
  let '(indices, tags) := gb_committed_all (tc_geo_banks self) pc in
  let '(provider, alt) := tc_match self indices tags in
  let prov_ctr := tc_ctr_of self pc indices provider in
  let prov_taken := 0 <=? prov_ctr in
  let alt_taken := 0 <=? tc_ctr_of self pc indices alt in
  let provider_weak := (0 <? provider)%nat && weak_counter prov_ctr in
  let use_alt := tc_use_alt_on_na_ctr self in
  let self := if provider_weak && negb (eqb prov_taken alt_taken)
              then self <| tc_use_alt_on_na_ctr := if eqb alt_taken taken then Z.min (use_alt + 1) 7 else Z.max (use_alt - 1) (-8) |>
              else self in
  let eff_ctr := if provider_weak && (0 <=? tc_use_alt_on_na_ctr self) then tc_ctr_of self pc indices alt else prov_ctr in
  let eff_taken := 0 <=? eff_ctr in
  let provider_mispred := negb (eqb prov_taken taken) in
  let tage_mispred := negb (eqb eff_taken taken) in
  let self := match provider with
              | S bank_idx => self <| tc_tables := tc_on_entry bank_idx (indices !!! bank_idx)
                                        (train_provider taken alt_taken provider_mispred) (tc_tables self) |>
              | O => self <| tc_base := at_index (train_base taken) (Z.to_nat (tc_base_idx self pc)) (tc_base self) |>
              end in
  let self := if tage_mispred && (provider <? length (tc_tables self))%nat
              then self <| tc_tables := tc_allocate taken provider indices tags (tc_tables self) |> else self in
  ({| tu_meta := {| tm_conf := conf_from_ctr eff_ctr; tm_provider_bank := provider; tm_alt_bank_present := (0 <? alt)%nat;
                    tm_pred_taken := eff_taken; tm_pred_ctr := eff_ctr |};
      tu_tage_taken := eff_taken |}, self).

(** ** History *)

Definition tage_speculate (self : TageCore) (taken : bool) (ghr : Ghr) : TageCore :=
  self <| tc_geo_banks := gb_update_csrs (tc_geo_banks self) taken ghr |>.
Definition tage_repair (self : TageCore) (ghr : Ghr) : TageCore :=
  self <| tc_geo_banks := gb_recompute_all (tc_geo_banks self) ghr |>.
Definition tage_commit_advance (self : TageCore) (taken : bool) (ghr : Ghr) : TageCore :=
  self <| tc_geo_banks := gb_update_committed_csrs (tc_geo_banks self) taken ghr |>.
Definition tage_repair_to_committed_csrs (self : TageCore) : TageCore :=
  self <| tc_geo_banks := gb_copy_committed_to_spec (tc_geo_banks self) |>.

(** * The predictor *)

Record TagePredictor := { tp_btb : Btb; tp_ras : Ras; tp_spec_ghr : Ghr; tp_commit_ghr : Ghr; tp_tage : TageCore }.
Definition tage_predictor_new (config : TageConfig) (btb_size btb_ways ras_size : nat) : option TagePredictor :=
  tage ← tage_new config;
  ghr ← ghr_with_len (tage_max_history tage);
  Some {| tp_btb := btb_new btb_size btb_ways; tp_ras := ras_new ras_size; tp_spec_ghr := ghr; tp_commit_ghr := ghr; tp_tage := tage |}.

Definition tp_predict_branch (self : TagePredictor) (pc : Z) : bool * option Z :=
  (tm_pred_taken (tage_predict (tp_tage self) pc), btb_lookup (tp_btb self) pc).
Definition tp_update_branch (self : TagePredictor) (pc : Z) (taken : bool) (target : option Z) (_ : Ghr) : TagePredictor :=
  let '(_, tage) := tage_update (tp_tage self) pc taken (tp_commit_ghr self) in
  let tage := tage_commit_advance tage taken (tp_commit_ghr self) in
  self <| tp_tage := tage |> <| tp_commit_ghr := ghr_push (tp_commit_ghr self) taken |>
       <| tp_btb := update_target (tp_btb self) pc target |>.
Definition tp_on_call (self : TagePredictor) (pc ret_addr target : Z) : TagePredictor :=
  self <| tp_ras := ras_push (tp_ras self) ret_addr |> <| tp_btb := btb_update (tp_btb self) pc target |>.
Definition tp_speculate (self : TagePredictor) (taken : bool) : TagePredictor :=
  self <| tp_tage := tage_speculate (tp_tage self) taken (tp_spec_ghr self) |>
       <| tp_spec_ghr := ghr_push (tp_spec_ghr self) taken |>.
Definition tp_repair_history (self : TagePredictor) (ghr : Ghr) : TagePredictor :=
  self <| tp_spec_ghr := ghr |> <| tp_tage := tage_repair (tp_tage self) ghr |>.
Definition tp_repair_to_committed (self : TagePredictor) : TagePredictor :=
  self <| tp_spec_ghr := tp_commit_ghr self |> <| tp_tage := tage_repair_to_committed_csrs (tp_tage self) |>.
#[export] Instance tage_unit : BranchUnit TagePredictor := {|
  bu_update := {| update_branch := tp_update_branch |};
  predict_branch p pc := (tp_predict_branch p pc, p);
  predict_btb p pc := btb_lookup (tp_btb p) pc;
  on_call := tp_on_call;
  predict_return p := ras_top (tp_ras p);
  on_return p := p <| tp_ras := (ras_pop (tp_ras p)).2 |>;
  speculate p _ taken := tp_speculate p taken;
  snapshot_history p := tp_spec_ghr p; repair_history := tp_repair_history;
  snapshot_ras p := Z.of_nat (ras_snapshot_ptr (tp_ras p));
  restore_ras p ptr := p <| tp_ras := ras_restore_ptr (tp_ras p) (Z.to_nat ptr) |>;
  update_btb p pc target := p <| tp_btb := btb_update (tp_btb p) pc target |>;
  repair_to_committed := tp_repair_to_committed |}.
