(* ===== verification/ScLTage.v ===== *)
(** The composed predictor SC-L-TAGE + ITTAGE
    ([core/units/bru/components/loop_predictor.rs], [stat_corrector.rs],
    [ittage.rs], [predictors/sc_l_tage.rs]), and the wrapper that selects a
    predictor ([core/units/bru/mod.rs]). *)
From S2P Require Import Prelude Common Commit Core History TaggedBank Predictor Tage.
Set Primitive Projections.
Local Open Scope Z_scope.

(** * Loop predictor *)

Record LoopEntry := { le_tag : Z; current_iter : Z; trip_count : Z; le_confidence : Z; le_age : Z }.
Definition LoopEntry_default : LoopEntry := Build_LoopEntry 0 0 0 0 0.
#[export] Instance LoopEntry_inhabited : Inhabited LoopEntry := populate LoopEntry_default.
Record LoopPredictor := { lp_table : list LoopEntry; lp_table_size : nat }.
Definition loop_new (size : nat) : LoopPredictor :=
  let size := (size `max` 1)%nat in {| lp_table := replicate size LoopEntry_default; lp_table_size := size |}.
Definition loop_index (self : LoopPredictor) (pc : Z) : nat := Z.to_nat (Z.shiftr pc 2 mod Z.of_nat (lp_table_size self)).
Definition loop_tag (pc : Z) : Z := Z.land (u16 (Z.lxor (Z.shiftr pc 2) (Z.shiftr pc 12))) 0x3FF.
Definition loop_predict (self : LoopPredictor) (pc : Z) : option bool :=
  let entry := lp_table self !!! loop_index self pc in
  if negb (le_tag entry =? loop_tag pc) || (le_confidence entry <? 2) || (trip_count entry =? 0) then None
  else if trip_count entry <=? u16 (current_iter entry + 1) then Some false else Some true.

(** [saturating_add(1).min(3)] *)
Definition sat_to_3 (x : Z) : Z := Z.min (x + 1) 3.
Definition loop_exit (e : LoopEntry) : LoopEntry :=
  (if trip_count e =? 0 then e <| trip_count := current_iter e |> <| le_confidence := 1 |>
   else if current_iter e =? trip_count e then e <| le_confidence := sat_to_3 (le_confidence e) |>
   else e <| trip_count := current_iter e |> <| le_confidence := 0 |>) <| current_iter := 0 |>.
Definition loop_train (tag : Z) (taken : bool) (e : LoopEntry) : LoopEntry :=
  if le_tag e =? tag then
    if taken then e <| current_iter := Z.min (current_iter e + 1) 65535 |> <| le_age := sat_to_3 (le_age e) |>
    else loop_exit e
  else if taken then
    if (le_age e =? 0) || (le_tag e =? 0) then Build_LoopEntry tag 1 0 0 1 else e <| le_age := Z.max (le_age e - 1) 0 |>
  else e.
Definition loop_update (self : LoopPredictor) (pc : Z) (taken : bool) : LoopPredictor :=
  let idx := loop_index self pc in
  self <| lp_table := <[idx := loop_train (loop_tag pc) taken (lp_table self !!! idx)]> (lp_table self) |>.

(** * Statistical corrector *)

Definition MAX_SC_TABLES : nat := 8.
Record ScConfig := {
  scc_num_tables : nat; scc_table_size : nat; scc_history_lengths : list nat; scc_counter_bits : nat;
  scc_bias_table_size : nat; scc_bias_counter_bits : nat; scc_initial_threshold : Z; scc_per_pc_threshold_bits : nat
}.
Record StatCorrector := {
  sc_counters : list Z; sc_num_tables : nat; sc_hist_lengths : list nat; sc_table_size : nat; sc_table_bits : nat;
  sc_table_mask : Z; sc_counter_bits : nat;
  sc_bias : list Z; sc_bias_sk : list Z; sc_bias_bank : list Z; sc_bias_mask : Z; sc_bias_counter_bits : nat;
  sc_update_threshold : Z; sc_per_pc_threshold : list Z; sc_per_pc_threshold_mask : Z;
  sc_first_h : Z; sc_second_h : Z
}.

(** Arithmetic on [i32], and the cast to [i8]; the amount of a shift counts
    modulo the width. *)
Definition i32 (x : Z) : Z := as_signed 32 (u32 x).
Definition i8 (x : Z) : Z := as_signed 8 (u8 x).
Definition clamp_counter (val : Z) (bits : nat) : Z :=
  let one := i32 (Z.shiftl 1 ((Z.of_nat bits - 1) mod 32)) in
  let max := i32 (one - 1) in
  let min := i32 (- one) in
  i8 (Z.max min (Z.min val max)).
Definition next_power_of_two (n : nat) : nat := (2 ^ Nat.log2_up n)%nat.

(** [None] is a failed assertion. *)
Definition sc_new (config : ScConfig) : option StatCorrector :=
  if (MAX_SC_TABLES <? scc_num_tables config)%nat then None
  else
    let table_size := next_power_of_two (scc_table_size config) in
    let hist := take (scc_num_tables config) (scc_history_lengths config) in
    let bias_size := next_power_of_two (scc_bias_table_size config) in
    let per_pc_size := (2 ^ scc_per_pc_threshold_bits config)%nat in
    Some {|
      sc_counters := replicate (scc_num_tables config * table_size) 0; sc_num_tables := scc_num_tables config;
      sc_hist_lengths := hist ++ replicate (MAX_SC_TABLES - length hist) 0%nat;
      sc_table_size := table_size; sc_table_bits := Nat.log2 table_size; sc_table_mask := Z.of_nat table_size - 1;
      sc_counter_bits := scc_counter_bits config;
      sc_bias := replicate bias_size 0; sc_bias_sk := replicate bias_size 0; sc_bias_bank := replicate bias_size 0;
      sc_bias_mask := Z.of_nat bias_size - 1; sc_bias_counter_bits := scc_bias_counter_bits config;
      sc_update_threshold := i32 (Z.shiftl (i32 (scc_initial_threshold config)) 3);
      sc_per_pc_threshold := replicate per_pc_size 0; sc_per_pc_threshold_mask := Z.of_nat per_pc_size - 1;
      sc_first_h := -1; sc_second_h := -1 |}.

(** [counter], [counter_mut] *)
Definition sc_slot (self : StatCorrector) (table : nat) (idx : Z) : nat := (table * sc_table_size self + Z.to_nat idx)%nat.
Definition sc_counter (self : StatCorrector) (table : nat) (idx : Z) : Z := sc_counters self !!! sc_slot self table idx.

(** [while shift < hl]; when [table_bits] is positive, [hl] rounds are enough. *)
Fixpoint sc_fold (fuel : nat) (hist_bits : Z) (table_bits hl shift : nat) (h : Z) : Z :=
  match fuel with
  | O => h
  | S fuel' =>
      if (shift <? hl)%nat
      then sc_fold fuel' hist_bits table_bits hl (shift + table_bits) (Z.lxor h (Z.shiftr hist_bits (Z.of_nat shift mod 64)))
      else h
  end.
Definition sc_table_index (self : StatCorrector) (pc : Z) (ghr : Ghr) (table : nat) : Z :=
  let pc_hash := Z.shiftr pc 2 in
  let hl := sc_hist_lengths self !!! table in
  if (hl =? 0)%nat then Z.land pc_hash (sc_table_mask self)
  else
    let mask := if (64 <=? hl)%nat then U64_MAX else 2 ^ Z.of_nat hl - 1 in
    let hist_bits := Z.land (ghr_val ghr) mask in
    let h := sc_fold hl hist_bits (sc_table_bits self) hl (sc_table_bits self) hist_bits in
    Z.land (Z.lxor pc_hash h) (sc_table_mask self).

Definition low_conf (meta : TageScMeta) : Z := Z.b2z (bool_decide (tm_conf meta = ConfLow) || bool_decide (tm_conf meta = ConfNone)).
Definition high_conf (meta : TageScMeta) : Z := Z.b2z (bool_decide (tm_conf meta = ConfHigh)).
Definition sc_bias_index (self : StatCorrector) (pc : Z) (meta : TageScMeta) : Z :=
  Z.land (Z.lxor (Z.lxor (Z.shiftr pc 2) (Z.shiftl (low_conf meta) 1)) (Z.b2z (tm_pred_taken meta))) (sc_bias_mask self).
Definition sc_bias_sk_index (self : StatCorrector) (pc : Z) (meta : TageScMeta) : Z :=
  Z.land (Z.lxor (Z.lxor (Z.shiftr pc 2) (Z.shiftl (high_conf meta) 1)) (Z.b2z (tm_pred_taken meta))) (sc_bias_mask self).
Definition sc_bias_bank_index (self : StatCorrector) (pc : Z) (meta : TageScMeta) : Z :=
  let bank_bits := Z.land (Z.of_nat (tm_provider_bank meta)) 0xF in
  Z.land (foldl Z.lxor (Z.shiftr pc 2)
            [bank_bits; Z.shiftl (high_conf meta) 4; Z.shiftl (low_conf meta) 5;
             Z.shiftl (Z.b2z (tm_alt_bank_present meta)) 6; Z.b2z (tm_pred_taken meta)]) (sc_bias_mask self).

Definition sc_pc_idx (self : StatCorrector) (pc : Z) : nat := Z.to_nat (Z.land (Z.shiftr pc 2) (sc_per_pc_threshold_mask self)).
Definition sc_effective_threshold (self : StatCorrector) (pc : Z) : Z :=
  Z.shiftr (sc_update_threshold self) 3 + sc_per_pc_threshold self !!! sc_pc_idx self pc.

Definition sc_override_decision (self : StatCorrector) (sc_taken : bool) (meta : TageScMeta) (sum_abs thres : Z) : bool :=
  if eqb sc_taken (tm_pred_taken meta) then false
  else if thres <=? sum_abs then true
  else
    let quarter := Z.quot thres 4 in
    let half := Z.quot thres 2 in
    match tm_conf meta with
    | ConfHigh => if sum_abs <? quarter then false else if sum_abs <? half then 0 <=? sc_second_h self else false
    | ConfMedium => if sum_abs <? quarter then 0 <=? sc_first_h self else false
    | _ => false
    end.

(** [2 * ctr + 1] *)
Definition centered (ctr : Z) : Z := 2 * ctr + 1.
Definition sc_predict (self : StatCorrector) (pc : Z) (ghr : Ghr) (meta : TageScMeta) : bool * Z :=
  let sum := centered (tm_pred_ctr meta) in
  let sum := sum + centered (sc_bias self !!! Z.to_nat (sc_bias_index self pc meta)) in
  let sum := sum + centered (sc_bias_sk self !!! Z.to_nat (sc_bias_sk_index self pc meta)) in
  let sum := sum + centered (sc_bias_bank self !!! Z.to_nat (sc_bias_bank_index self pc meta)) in
  let sum := foldl (fun sum t => sum + centered (sc_counter self t (sc_table_index self pc ghr t))) sum (seq 0 (sc_num_tables self)) in
  let sc_taken := 0 <=? sum in
  let thres := sc_effective_threshold self pc in
  (if sc_override_decision self sc_taken meta (Z.abs sum) thres then sc_taken else tm_pred_taken meta, sum).

(** The chooser counters. *)
Definition nudge (up : bool) (c : Z) : Z := if up then Z.min (c + 1) 63 else Z.max (c - 1) (-64).
Definition sc_train_choosers (self : StatCorrector) (meta : TageScMeta) (right : bool) (sum_abs thres : Z) : StatCorrector :=
  let quarter := Z.quot thres 4 in
  let half := Z.quot thres 2 in
  let self := if bool_decide (tm_conf meta = ConfHigh) && (quarter <=? sum_abs) && (sum_abs <? half)
              then self <| sc_second_h := nudge right (sc_second_h self) |> else self in
  if bool_decide (tm_conf meta = ConfMedium) && (sum_abs <? quarter)
  then self <| sc_first_h := nudge right (sc_first_h self) |> else self.
Definition sc_adapt_threshold (self : StatCorrector) (pc : Z) (right : bool) : StatCorrector :=
  let pc_idx := sc_pc_idx self pc in
  if right
  then self <| sc_update_threshold := Z.max (sc_update_threshold self - 1) 0 |>
            <| sc_per_pc_threshold := at_index (fun c => Z.max (c - 1) (-16)) pc_idx (sc_per_pc_threshold self) |>
  else self <| sc_update_threshold := Z.min (sc_update_threshold self + 1) 511 |>
            <| sc_per_pc_threshold := at_index (fun c => Z.min (c + 1) 15) pc_idx (sc_per_pc_threshold self) |>.
Definition bump (taken : bool) (bits : nat) (v : Z) : Z := clamp_counter (if taken then v + 1 else v - 1) bits.
Definition sc_train_tables (self : StatCorrector) (pc : Z) (ghr : Ghr) (taken : bool) (meta : TageScMeta) : StatCorrector :=
  let bbits := sc_bias_counter_bits self in
  let self := self <| sc_bias := at_index (bump taken bbits) (Z.to_nat (sc_bias_index self pc meta)) (sc_bias self) |> in
  let self := self <| sc_bias_sk := at_index (bump taken bbits) (Z.to_nat (sc_bias_sk_index self pc meta)) (sc_bias_sk self) |> in
  let self := self <| sc_bias_bank := at_index (bump taken bbits) (Z.to_nat (sc_bias_bank_index self pc meta)) (sc_bias_bank self) |> in
  self <| sc_counters := foldl (fun cs t => at_index (bump taken (sc_counter_bits self)) (sc_slot self t (sc_table_index self pc ghr t)) cs)
                           (sc_counters self) (seq 0 (sc_num_tables self)) |>.
Definition sc_update (self : StatCorrector) (pc : Z) (ghr : Ghr) (taken : bool) (meta : TageScMeta) (sum : Z) : StatCorrector :=
  let sc_taken := 0 <=? sum in
  let thres := sc_effective_threshold self pc in
  let sum_abs := Z.abs sum in
  let disagrees := negb (eqb sc_taken (tm_pred_taken meta)) in
  let right := eqb sc_taken taken in
  let self := if disagrees then sc_train_choosers self meta right sum_abs thres else self in
  let self := if disagrees then sc_adapt_threshold self pc right else self in
  let sc_pred := if sc_override_decision self sc_taken meta sum_abs thres then sc_taken else tm_pred_taken meta in
  if negb (eqb sc_pred taken) || (sum_abs <? thres) then sc_train_tables self pc ghr taken meta else self.

(** * ITTAGE *)

Record IttageConfig := {
  it_cfg_num_banks : nat; it_cfg_table_size : nat; it_cfg_history_lengths : list nat; it_cfg_tag_widths : list nat;
  it_cfg_reset_interval : Z
}.
Record IttageEntry := { ie_tag : Z; ie_target : Z; ie_u : Z }.
Definition IttageEntry_default : IttageEntry := {| ie_tag := 0; ie_target := 0; ie_u := 0 |}.
#[export] Instance IttageEntry_inhabited : Inhabited IttageEntry := populate IttageEntry_default.
Record Ittage := {
  it_banks : GeoBankSet; it_tables : list (list IttageEntry); it_clock_counter : Z; it_reset_interval : Z
}.

Definition ittage_new (config : IttageConfig) : option Ittage :=
  let num_banks := it_cfg_num_banks config in
  let table_size := next_power_of_two (it_cfg_table_size config) in
  if negb (length (it_cfg_history_lengths config) =? num_banks)%nat || negb (length (it_cfg_tag_widths config) =? num_banks)%nat
  then None
  else
    banks ← gb_new (it_cfg_history_lengths config) (it_cfg_tag_widths config) (Nat.log2 table_size);
    Some {| it_banks := banks; it_tables := replicate num_banks (replicate table_size IttageEntry_default);
            it_clock_counter := 0; it_reset_interval := it_cfg_reset_interval config |}.

Definition it_entry (tables : list (list IttageEntry)) (bank : nat) (idx : Z) : IttageEntry := (tables !!! bank) !!! Z.to_nat idx.
Definition it_on_entry (bank : nat) (idx : Z) (f : IttageEntry -> IttageEntry) (tables : list (list IttageEntry)) : list (list IttageEntry) :=
  let table := tables !!! bank in
  <[bank := <[Z.to_nat idx := f (table !!! Z.to_nat idx)]> table]> tables.

Definition ittage_hit (self : Ittage) (pc : Z) (i : nat) (_ : unit) : flow unit (option Z) :=
  let entry := it_entry (it_tables self) i (gb_spec_index (it_banks self) pc i) in
  if (ie_tag entry =? gb_spec_tag (it_banks self) pc i) && negb (ie_target entry =? 0) then Return (Some (ie_target entry)) else Continue tt.
Definition ittage_predict (self : Ittage) (pc : Z) : option Z :=
  after_loop (list_scan (ittage_hit self pc) (rev (seq 0 (gb_num_banks (it_banks self)))) tt) (fun _ => None).

Definition it_tick (self : Ittage) : Ittage :=
  let self := self <| it_clock_counter := u32 (it_clock_counter self + 1) |> in
  if it_reset_interval self <=? it_clock_counter self
  then self <| it_clock_counter := 0 |>
            <| it_tables := map (map (fun e => e <| ie_u := Z.shiftr (ie_u e) 1 |>)) (it_tables self) |>
  else self.
Definition it_provider (self : Ittage) (indices tags : list Z) : option nat :=
  after_loop (list_scan (fun i (_ : unit) => if ie_tag (it_entry (it_tables self) i (indices !!! i)) =? tags !!! i
                                             then Return (Some i) else Continue tt)
                (rev (seq 0 (gb_num_banks (it_banks self)))) tt) (fun _ => None).
Definition train_target (target : Z) (e : IttageEntry) : IttageEntry :=
  if ie_target e =? target then e <| ie_u := sat_to_3 (ie_u e) |>
  else if 0 <? ie_u e then e <| ie_u := ie_u e - 1 |>
  else e <| ie_target := target |>.
Definition it_allocate_body (target : Z) (indices tags : list Z) (i : nat) (tables : list (list IttageEntry))
    : flow (list (list IttageEntry)) (option (list (list IttageEntry))) :=
  if ie_u (it_entry tables i (indices !!! i)) =? 0
  then Return (Some (it_on_entry i (indices !!! i) (fun _ => {| ie_tag := tags !!! i; ie_target := target; ie_u := 1 |}) tables))
  else Continue tables.
Definition age_target (e : IttageEntry) : IttageEntry := if 0 <? ie_u e then e <| ie_u := ie_u e - 1 |> else e.
Definition it_allocate (target : Z) (start : nat) (indices tags : list Z) (tables : list (list IttageEntry)) : list (list IttageEntry) :=
  let banks := seq start (length tables - start) in
  match after_loop (list_scan (it_allocate_body target indices tags) banks tables) (fun _ => None) with
  | Some tables' => tables'
  | None => foldl (fun tb i => it_on_entry i (indices !!! i) age_target tb) tables banks
  end.
Definition ittage_update (self : Ittage) (pc target : Z) (ghr_snapshot : Ghr) : Ittage :=
  let self := it_tick self in
  let '(indices, tags) := gb_snapshot_all (it_banks self) pc ghr_snapshot in
  let provider := it_provider self indices tags in
  let self := match provider with
              | Some bank => self <| it_tables := it_on_entry bank (indices !!! bank) (train_target target) (it_tables self) |>
              | None => self
              end in
  let mispredicted := match provider with
                      | None => true
                      | Some bank => negb (ie_target (it_entry (it_tables self) bank (indices !!! bank)) =? target)
                      end in
  let start := match provider with None => 0%nat | Some b => (b + 1)%nat end in
  if mispredicted && (start <? gb_num_banks (it_banks self))%nat
  then self <| it_tables := it_allocate target start indices tags (it_tables self) |> else self.

Definition ittage_speculate (self : Ittage) (taken : bool) (ghr : Ghr) : Ittage :=
  self <| it_banks := gb_update_csrs (it_banks self) taken ghr |>.
(** [repair_history], and [repair_to_committed] with the committed history. *)
Definition ittage_repair_history (self : Ittage) (ghr : Ghr) : Ittage :=
  self <| it_banks := gb_recompute_all (it_banks self) ghr |>.
Definition ittage_commit_advance (self : Ittage) (taken : bool) (ghr : Ghr) : Ittage :=
  self <| it_banks := gb_update_committed_csrs (it_banks self) taken ghr |>.
Definition ittage_repair_to_committed_csrs (self : Ittage) : Ittage :=
  self <| it_banks := gb_copy_committed_to_spec (it_banks self) |>.

(** * The composed predictor *)

Definition SC_CACHE_SIZE : nat := 64.
Definition SC_CACHE_MASK : Z := Z.of_nat SC_CACHE_SIZE - 1.
Record ScCacheEntry := { ce_pc : Z; ce_meta : option (TageScMeta * Z) }.
Definition ScCacheEntry_default : ScCacheEntry := {| ce_pc := 0; ce_meta := None |}.
#[export] Instance ScCacheEntry_inhabited : Inhabited ScCacheEntry := populate ScCacheEntry_default.

Record ScLTagePredictor := {
  sl_btb : Btb; sl_ras : Ras; sl_spec_ghr : Ghr; sl_commit_ghr : Ghr;
  sl_tage : TageCore; sl_loop_pred : LoopPredictor; sl_sc : StatCorrector; sl_ittage : Ittage;
  sl_sc_cache : list ScCacheEntry
}.
Definition sc_l_tage_new (tage_config : TageConfig) (sc_config : ScConfig) (ittage_config : IttageConfig)
    (btb_size btb_ways ras_size : nat) : option ScLTagePredictor :=
  tage ← tage_new tage_config;
  ghr ← ghr_with_len (tage_max_history tage);
  sc ← sc_new sc_config;
  ittage ← ittage_new ittage_config;
  Some {| sl_btb := btb_new btb_size btb_ways; sl_ras := ras_new ras_size; sl_spec_ghr := ghr; sl_commit_ghr := ghr;
          sl_tage := tage; sl_loop_pred := loop_new (tg_loop_table_size tage_config); sl_sc := sc; sl_ittage := ittage;
          sl_sc_cache := replicate SC_CACHE_SIZE ScCacheEntry_default |}.

Definition sl_cache_idx (pc : Z) : nat := Z.to_nat (Z.land (Z.shiftr pc 2) SC_CACHE_MASK).
Definition taken_target (self : ScLTagePredictor) (taken : bool) (pc : Z) : bool * option Z :=
  (taken, if taken then btb_lookup (sl_btb self) pc else None).
Definition sl_predict_branch (self : ScLTagePredictor) (pc : Z) : (bool * option Z) * ScLTagePredictor :=
  let meta := tage_predict (sl_tage self) pc in
  match loop_predict (sl_loop_pred self) pc with
  | Some loop_taken => (taken_target self loop_taken pc, self)
  | None =>
      let '(sc_taken, sc_sum) := sc_predict (sl_sc self) pc (sl_spec_ghr self) meta in
      (taken_target self sc_taken pc,
       self <| sl_sc_cache := <[sl_cache_idx pc := {| ce_pc := pc; ce_meta := Some (meta, sc_sum) |}]> (sl_sc_cache self) |>)
  end.
(** The metadata of the prediction when still cached, recomputed otherwise. *)
Definition sl_sc_meta (self : ScLTagePredictor) (pc : Z) (meta : TageScMeta) : TageScMeta * Z :=
  let cached := sl_sc_cache self !!! sl_cache_idx pc in
  let recomputed := (meta, (sc_predict (sl_sc self) pc (sl_commit_ghr self) meta).2) in
  match ce_meta cached with
  | Some m => if ce_pc cached =? pc then m else recomputed
  | None => recomputed
  end.
Definition sl_update_branch (self : ScLTagePredictor) (pc : Z) (taken : bool) (target : option Z) (ghr_snapshot : Ghr) : ScLTagePredictor :=
  let self := self <| sl_loop_pred := loop_update (sl_loop_pred self) pc taken |> in
  let '(result, tage) := tage_update (sl_tage self) pc taken (sl_commit_ghr self) in
  let '(sc_meta, sc_sum) := sl_sc_meta self pc (tu_meta result) in
  let self := self <| sl_tage := tage |>
                   <| sl_sc := sc_update (sl_sc self) pc (sl_commit_ghr self) taken sc_meta sc_sum |> in
  let self := match target with
              | Some tgt => self <| sl_ittage := ittage_update (sl_ittage self) pc tgt ghr_snapshot |>
                                 <| sl_btb := btb_update (sl_btb self) pc tgt |>
              | None => self
              end in
  let self := self <| sl_tage := tage_commit_advance (sl_tage self) taken (sl_commit_ghr self) |>
                   <| sl_ittage := ittage_commit_advance (sl_ittage self) taken (sl_commit_ghr self) |> in
  self <| sl_commit_ghr := ghr_push (sl_commit_ghr self) taken |>.
Definition sl_predict_btb (self : ScLTagePredictor) (pc : Z) : option Z :=
  match ittage_predict (sl_ittage self) pc with Some t => Some t | None => btb_lookup (sl_btb self) pc end.
Definition sl_on_call (self : ScLTagePredictor) (pc ret_addr target : Z) : ScLTagePredictor :=
  self <| sl_ras := ras_push (sl_ras self) ret_addr |> <| sl_btb := btb_update (sl_btb self) pc target |>.
Definition sl_speculate (self : ScLTagePredictor) (taken : bool) : ScLTagePredictor :=
  self <| sl_tage := tage_speculate (sl_tage self) taken (sl_spec_ghr self) |>
       <| sl_ittage := ittage_speculate (sl_ittage self) taken (sl_spec_ghr self) |>
       <| sl_spec_ghr := ghr_push (sl_spec_ghr self) taken |>.
Definition sl_repair_history (self : ScLTagePredictor) (ghr : Ghr) : ScLTagePredictor :=
  self <| sl_spec_ghr := ghr |> <| sl_tage := tage_repair (sl_tage self) ghr |>
       <| sl_ittage := ittage_repair_history (sl_ittage self) ghr |>.
Definition sl_repair_to_committed (self : ScLTagePredictor) : ScLTagePredictor :=
  self <| sl_spec_ghr := sl_commit_ghr self |> <| sl_tage := tage_repair_to_committed_csrs (sl_tage self) |>
       <| sl_ittage := ittage_repair_to_committed_csrs (sl_ittage self) |>.
#[export] Instance sc_l_tage_unit : BranchUnit ScLTagePredictor := {|
  bu_update := {| update_branch := sl_update_branch |};
  predict_branch := sl_predict_branch;
  predict_btb := sl_predict_btb;
  on_call := sl_on_call;
  predict_return p := ras_top (sl_ras p);
  on_return p := p <| sl_ras := (ras_pop (sl_ras p)).2 |>;
  speculate p _ taken := sl_speculate p taken;
  snapshot_history p := sl_spec_ghr p; repair_history := sl_repair_history;
  snapshot_ras p := Z.of_nat (ras_snapshot_ptr (sl_ras p));
  restore_ras p ptr := p <| sl_ras := ras_restore_ptr (sl_ras p) (Z.to_nat ptr) |>;
  update_btb p pc target := p <| sl_btb := btb_update (sl_btb p) pc target |>;
  repair_to_committed := sl_repair_to_committed |}.
