(* ===== verification/BranchUnits.v ===== *)
(** The branch prediction unit ([core/units/bru/mod.rs]): the wrapper that holds
    one of the six predictors, what is true of it in every state it can reach,
    and the two facts the pipeline relies on.  Repairing with the snapshots taken
    before a wrong path undoes all of it but the targets, stack entries and
    cached predictions it wrote, and the tables are always consulted where the
    recorded history says. *)
From S2P Require Import Prelude Common Commit Core History TaggedBank Predictor Tage ScLTage.
Set Primitive Projections.
Local Open Scope Z_scope.

(** * The wrapper *)

Inductive BpType := BpStatic | BpGShare | BpPerceptron | BpTage | BpTournament | BpScLTage.

(** The settings of [config.pipeline] that the unit reads. *)
Record BpConfig := {
  bp_type : BpType; bp_btb_size : nat; bp_btb_ways : nat; bp_ras_size : nat;
  bp_tage : TageConfig; bp_perceptron : PerceptronConfig; bp_tournament : TournamentConfig;
  bp_sc : ScConfig; bp_ittage : IttageConfig
}.

Inductive BranchPredictorWrapper :=
| WStatic (bp : StaticPredictor)
| WGShare (bp : GSharePredictor)
| WTournament (bp : TournamentPredictor)
| WTage (bp : TagePredictor)
| WPerceptron (bp : PerceptronPredictor)
| WScLTage (bp : ScLTagePredictor).

(** [None] is a failed assertion. *)
Definition wrapper_new (config : BpConfig) : option BranchPredictorWrapper :=
  let btb_size := bp_btb_size config in
  let btb_ways := bp_btb_ways config in
  let ras_size := bp_ras_size config in
  match bp_type config with
  | BpStatic => Some (WStatic (static_new btb_size btb_ways ras_size))
  | BpGShare => Some (WGShare (gshare_new btb_size btb_ways ras_size))
  | BpTournament => Some (WTournament (tournament_new (bp_tournament config) btb_size btb_ways ras_size))
  | BpTage => WTage <$> tage_predictor_new (bp_tage config) btb_size btb_ways ras_size
  | BpPerceptron => Some (WPerceptron (perceptron_new (bp_perceptron config) btb_size btb_ways ras_size))
  | BpScLTage =>
      WScLTage <$> sc_l_tage_new (bp_tage config) (bp_sc config) (bp_ittage config) btb_size btb_ways ras_size
  end.

(** Dispatch on the variant. *)
Definition wrapper_map (f : forall P, BranchUnit P -> P -> P) (w : BranchPredictorWrapper) : BranchPredictorWrapper :=
  match w with
  | WStatic bp => WStatic (f _ static_unit bp)
  | WGShare bp => WGShare (f _ gshare_unit bp)
  | WTournament bp => WTournament (f _ tournament_unit bp)
  | WTage bp => WTage (f _ tage_unit bp)
  | WPerceptron bp => WPerceptron (f _ perceptron_unit bp)
  | WScLTage bp => WScLTage (f _ sc_l_tage_unit bp)
  end.
Definition wrapper_get {R} (f : forall P, BranchUnit P -> P -> R) (w : BranchPredictorWrapper) : R :=
  match w with
  | WStatic bp => f _ static_unit bp
  | WGShare bp => f _ gshare_unit bp
  | WTournament bp => f _ tournament_unit bp
  | WTage bp => f _ tage_unit bp
  | WPerceptron bp => f _ perceptron_unit bp
  | WScLTage bp => f _ sc_l_tage_unit bp
  end.
#[export] Instance wrapper_unit : BranchUnit BranchPredictorWrapper := {|
  bu_update := {| update_branch w pc taken target ghr := wrapper_map (fun P _ p => update_branch p pc taken target ghr) w |};
  predict_branch w pc := (wrapper_get (fun P _ p => (predict_branch p pc).1) w, wrapper_map (fun P _ p => (predict_branch p pc).2) w);
  predict_btb w pc := wrapper_get (fun P _ p => predict_btb p pc) w;
  on_call w pc ret_addr target := wrapper_map (fun P _ p => on_call p pc ret_addr target) w;
  predict_return w := wrapper_get (fun P _ p => predict_return p) w;
  on_return w := wrapper_map (fun P _ p => on_return p) w;
  speculate w pc taken := wrapper_map (fun P _ p => speculate p pc taken) w;
  snapshot_history w := wrapper_get (fun P _ p => snapshot_history p) w;
  repair_history w ghr := wrapper_map (fun P _ p => repair_history p ghr) w;
  snapshot_ras w := wrapper_get (fun P _ p => snapshot_ras p) w;
  restore_ras w ptr := wrapper_map (fun P _ p => restore_ras p ptr) w;
  update_btb w pc target := wrapper_map (fun P _ p => update_btb p pc target) w;
  repair_to_committed w := wrapper_map (fun P _ p => repair_to_committed p) w |}.

(** * Reachable predictors *)

(** A snapshot the unit could have given: its words and its length. *)
Definition snapshot_of (p : BranchPredictorWrapper) (g : Ghr) : Prop :=
  ghr_ok g /\ ghr_len g = ghr_len (snapshot_history p).

Inductive bp_step (p : BranchPredictorWrapper) : BranchPredictorWrapper -> Prop :=
| BsPredict pc : bp_step p (predict_branch p pc).2
| BsUpdate pc taken target g : bp_step p (update_branch p pc taken target g)
| BsCall pc ret_addr target : bp_step p (on_call p pc ret_addr target)
| BsReturn : bp_step p (on_return p)
| BsSpeculate pc taken : bp_step p (speculate p pc taken)
| BsRepair g : snapshot_of p g -> bp_step p (repair_history p g)
| BsRestoreRas ptr : bp_step p (restore_ras p ptr)
| BsUpdateBtb pc target : bp_step p (update_btb p pc target)
| BsRepairCommitted : bp_step p (repair_to_committed p).

Inductive bp_reach (config : BpConfig) : BranchPredictorWrapper -> Prop :=
| BpNew p : wrapper_new config = Some p -> bp_reach config p
| BpStep p p' : bp_reach config p -> bp_step p p' -> bp_reach config p'.

(** ** Configurations *)

Definition tage_banks (c : TageConfig) : BankConfig := {|
  bc_hist_lengths := tg_history_lengths c; bc_tag_widths := tg_tag_widths c; bc_table_bits := Nat.log2 (tg_table_size c) |}.
Definition ittage_banks (c : IttageConfig) : BankConfig := {|
  bc_hist_lengths := it_cfg_history_lengths c; bc_tag_widths := it_cfg_tag_widths c;
  bc_table_bits := Nat.log2 (next_power_of_two (it_cfg_table_size c)) |}.
Definition tage_history (c : TageConfig) : nat :=
  foldl (fun max hl => if (max <? hl)%nat then hl else max) 0%nat (tg_history_lengths c).

(** No history of length 0, none of ITTAGE longer than those of TAGE, widths below 64. *)
Definition bp_config_ok (c : BpConfig) : Prop :=
  (bp_type c = BpTage \/ bp_type c = BpScLTage -> bank_config_ok (tage_banks (bp_tage c)) (tage_history (bp_tage c))) /\
  (bp_type c = BpScLTage -> bank_config_ok (ittage_banks (bp_ittage c)) (tage_history (bp_tage c))).
#[export] Instance BpType_eq_dec : EqDecision BpType.
Proof. solve_decision. Defined.
#[export] Instance bp_config_ok_dec c : Decision (bp_config_ok c).
Proof. unfold bp_config_ok. apply _. Defined.

(** * The history invariant *)

Section Invariant.
Variable config : BpConfig.
Hypothesis Hok : bp_config_ok config.
Local Abbreviation len := (tage_history (bp_tage config)).
Local Abbreviation tracks c gb spec commit := (Tracks c gb (ghr_bit spec) (ghr_bit commit)).

Definition ghrs_ok (spec commit : Ghr) : Prop :=
  ghr_ok spec /\ ghr_ok commit /\ Z.to_nat (ghr_len spec) = len /\ Z.to_nat (ghr_len commit) = len.

(** The bank sets of a predictor track its two histories. *)
Definition bp_inv (p : BranchPredictorWrapper) : Prop :=
  match p with
  | WTage bp =>
      bp_type config = BpTage /\ ghrs_ok (tp_spec_ghr bp) (tp_commit_ghr bp) /\
      tracks (tage_banks (bp_tage config)) (tc_geo_banks (tp_tage bp)) (tp_spec_ghr bp) (tp_commit_ghr bp)
  | WScLTage bp =>
      bp_type config = BpScLTage /\ ghrs_ok (sl_spec_ghr bp) (sl_commit_ghr bp) /\
      tracks (tage_banks (bp_tage config)) (tc_geo_banks (sl_tage bp)) (sl_spec_ghr bp) (sl_commit_ghr bp) /\
      tracks (ittage_banks (bp_ittage config)) (it_banks (sl_ittage bp)) (sl_spec_ghr bp) (sl_commit_ghr bp)
  | _ => True
  end.

Lemma foldl_banks {B} (f : B -> nat -> B) (l : list nat) (b : B) :
  foldl (fun acc i => f acc (banks_array 0%nat l !!! i)) b (seq 0 (length l)) = foldl f b l.
Proof.
  transitivity (foldl f b (take (length l) (banks_array 0%nat l))).
  2:{ unfold banks_array. by rewrite take_app_length. }
  assert (length l <= length (banks_array 0%nat l))%nat as Hle by (unfold banks_array; rewrite length_app; lia).
  induction (length l) as [|k IH]; [done|]. rewrite seq_S, foldl_app, IH by lia.
  rewrite (take_S_r _ k (banks_array 0%nat l !!! k)) by (apply lookup_total_Some; lia). by rewrite foldl_app.
Qed.

Lemma tage_new_tracks (c : TageConfig) (t : TageCore) :
  bank_config_ok (tage_banks c) (tage_history c) -> tage_new c = Some t ->
  tage_max_history t = tage_history c /\
  forall g, (forall k, ghr_bit g k = false) -> tracks (tage_banks c) (tc_geo_banks t) g g.
Proof.
  intros Hc. unfold tage_new. destruct (_ || _); [done|]. intros Ht.
  assert (exists gb, gb_new (tg_history_lengths c) (tg_tag_widths c) (Nat.log2 (tg_table_size c)) = Some gb /\ tc_geo_banks t = gb)
    as (gb & Hgb & Et).
  { destruct (gb_new _ _ _) as [gb|]; [|done]. injection Ht as <-. by exists gb. }
  assert (forall h, (forall k, h k = false) -> Tracks (tage_banks c) (tc_geo_banks t) h h) as Hall.
  { intros h Hz. destruct (gb_new_tracks _ _ Hc h Hz) as (gb' & Hgb' & Htr). rewrite Et.
    cbn [bc_hist_lengths bc_tag_widths bc_table_bits tage_banks] in Hgb'. rewrite Hgb in Hgb'. by injection Hgb' as ->. }
  split; [|intros g0 Hz; by apply Hall]. destruct (Hall (fun _ => false) (fun _ => eq_refl)) as [En Eh].
  unfold tage_max_history, tage_history. rewrite En, Eh.
  apply (foldl_banks (fun max hl => if (max <? hl)%nat then hl else max)).
Qed.
Lemma ittage_new_tracks (c : IttageConfig) (t : Ittage) (g : Ghr) :
  bank_config_ok (ittage_banks c) len -> ittage_new c = Some t -> (forall k, ghr_bit g k = false) ->
  tracks (ittage_banks c) (it_banks t) g g.
Proof.
  intros Hc Ht Hz. unfold ittage_new in Ht. destruct (_ || _); [done|].
  destruct (gb_new_tracks _ _ Hc _ Hz) as (gb & Hgb & Htr).
  cbn [bc_hist_lengths bc_tag_widths bc_table_bits ittage_banks] in Hgb. rewrite Hgb in Ht. by injection Ht as <-.
Qed.

Lemma bp_new_inv (p : BranchPredictorWrapper) : wrapper_new config = Some p -> bp_inv p.
Proof.
  destruct Hok as [Hta Hit]. unfold wrapper_new. destruct (bp_type config) eqn:E; try by intros [= <-].
  - unfold tage_predictor_new. destruct (tage_new _) as [t|] eqn:Et; [|done]. cbn [mbind option_bind fmap option_fmap option_map].
    destruct (ghr_with_len (tage_max_history t)) as [g|] eqn:Eg; [|done]. cbn [mbind option_bind fmap option_fmap option_map]. intros [= <-].
    destruct (tage_new_tracks _ _ (Hta (or_introl eq_refl)) Et) as [Em Htr].
    destruct (ghr_with_len_ok _ _ Eg) as (Hg & Hl & Hz). rewrite Em in Hl.
    split; [done|]. split; [done|]. by apply Htr.
  - unfold sc_l_tage_new. destruct (tage_new _) as [t|] eqn:Et; [|done]. cbn [mbind option_bind fmap option_fmap option_map].
    destruct (ghr_with_len (tage_max_history t)) as [g|] eqn:Eg; [|done]. cbn [mbind option_bind fmap option_fmap option_map]. destruct (sc_new _); [|done]. cbn [mbind option_bind].
    destruct (ittage_new _) as [it|] eqn:Ei; [|done]. cbn [mbind option_bind fmap option_fmap option_map]. intros [= <-].
    destruct (tage_new_tracks _ _ (Hta (or_intror eq_refl)) Et) as [Em Htr].
    destruct (ghr_with_len_ok _ _ Eg) as (Hg & Hl & Hz). rewrite Em in Hl.
    split; [done|]. split; [done|]. split; [by apply Htr|]. by apply ittage_new_tracks; auto.
Qed.

Lemma tage_update_banks (t : TageCore) pc taken g : tc_geo_banks (tage_update t pc taken g).2 = tc_geo_banks t.
Proof.
  assert (tc_geo_banks (tc_tick t) = tc_geo_banks t) as Et by (unfold tc_tick; by destruct (_ <=? _)).
  unfold tage_update. destruct (gb_committed_all _ _) as [indices tags]. destruct (tc_match _ _ _) as [provider alt].
  cbv zeta. cbn [snd].
  destruct provider; destruct ((0 <? _)%nat && _ && negb _); destruct (_ && (_ <? _)%nat); exact Et.
Qed.
Lemma ittage_update_banks (t : Ittage) pc target g : it_banks (ittage_update t pc target g) = it_banks t.
Proof.
  assert (it_banks (it_tick t) = it_banks t) as Et by (unfold it_tick; by destruct (_ <=? _)).
  unfold ittage_update. destruct (gb_snapshot_all _ _ _) as [indices tags]. cbv zeta.
  destruct (it_provider _ _ _); destruct (_ && (_ <? _)%nat); exact Et.
Qed.

Lemma push_ghrs spec commit t :
  (ghrs_ok spec commit -> ghrs_ok (ghr_push spec t) commit) /\ (ghrs_ok spec commit -> ghrs_ok spec (ghr_push commit t)).
Proof.
  split; intros (Hs & Hc & Ls & Lc); (split; [|split; [|split]]); rewrite ?ghr_push_len; auto using ghr_push_ok.
Qed.

(** The operations on a bank set, with the histories of the same predictor. *)
Section Banks.
Variables (c : BankConfig) (gb : GeoBankSet) (spec commit : Ghr) (t : bool).
Hypotheses (Hc : bank_config_ok c len) (Hg : ghrs_ok spec commit) (Ht : tracks c gb spec commit).

Lemma speculated : tracks c (gb_update_csrs gb t spec) (ghr_push spec t) commit.
Proof. destruct Hg as (? & ? & ? & ?). by apply (gb_update_csrs_tracks _ len); [..|lia|]. Qed.
Lemma committed : tracks c (gb_update_committed_csrs gb t commit) spec (ghr_push commit t).
Proof. destruct Hg as (? & ? & ? & ?). by apply (gb_update_committed_tracks _ len); [..|lia|]. Qed.
Lemma repaired g : ghr_ok g -> tracks c (gb_recompute_all gb g) g commit.
Proof. intros. by apply (gb_recompute_all_tracks _ len Hc _ (ghr_bit spec)). Qed.
Lemma reset : tracks c (gb_copy_committed_to_spec gb) commit commit.
Proof. by apply (gb_copy_tracks c gb (ghr_bit spec)). Qed.
End Banks.

Lemma tage_config (E : bp_type config = BpTage \/ bp_type config = BpScLTage) :
  bank_config_ok (tage_banks (bp_tage config)) len.
Proof. by apply Hok. Qed.
Lemma ittage_config (E : bp_type config = BpScLTage) : bank_config_ok (ittage_banks (bp_ittage config)) len.
Proof. by apply Hok. Qed.

Lemma bp_step_inv (p p' : BranchPredictorWrapper) : bp_inv p -> bp_step p p' -> bp_inv p'.
Proof.
  intros Hi Hs. destruct p as [bp|bp|bp|bp|bp|bp]; try (by destruct Hs).
  - destruct Hi as (E & Hg & Ht). pose proof (tage_config (or_introl E)) as Hc.
    destruct Hs as [|pc taken target g| | |pc taken|g [Hgo Hgl]| | |]; try done.
    + simpl. unfold tp_update_branch. pose proof (tage_update_banks (tp_tage bp) pc taken (tp_commit_ghr bp)) as Eb.
      destruct (tage_update _ _ _ _) as [r tg]. cbn [snd] in Eb. split; [done|]. split; [by apply push_ghrs|].
      apply committed; [done..|]. by rewrite Eb.
    + split; [done|]. split; [by apply push_ghrs|]. by apply speculated.
    + split; [done|]. destruct Hg as (? & ? & Hl & ?). split; [split; [done|split; [done|]]|by apply (repaired _ _ (tp_spec_ghr bp))].
      change (snapshot_history (WTage bp)) with (tp_spec_ghr bp) in Hgl. change (Z.to_nat (ghr_len g) = len /\ Z.to_nat (ghr_len (tp_commit_ghr bp)) = len). by rewrite Hgl.
    + split; [done|]. destruct Hg as (? & ? & ? & ?). split; [done|]. by apply (reset _ _ (tp_spec_ghr bp)).
  - destruct Hi as (E & Hg & Ht & Hit). pose proof (tage_config (or_intror E)) as Hc. pose proof (ittage_config E) as Hci.
    destruct Hs as [pc|pc taken target g| | |pc taken|g [Hgo Hgl]| | |]; try done.
    + simpl. unfold sl_predict_branch. destruct (loop_predict _ _); [done|]. by destruct (sc_predict _ _ _ _).
    + simpl. unfold sl_update_branch. pose proof (tage_update_banks (sl_tage bp) pc taken (sl_commit_ghr bp)) as Eb.
      cbv zeta. cbn [sl_tage sl_commit_ghr].
      change (sl_tage (bp <| sl_loop_pred := loop_update (sl_loop_pred bp) pc taken |>)) with (sl_tage bp).
      change (sl_commit_ghr (bp <| sl_loop_pred := loop_update (sl_loop_pred bp) pc taken |>)) with (sl_commit_ghr bp).
      destruct (tage_update _ _ _ _) as [r tg]. cbn [snd] in Eb. destruct (sl_sc_meta _ _ _) as [m sum].
      assert (tracks (tage_banks (bp_tage config)) (tc_geo_banks tg) (sl_spec_ghr bp) (sl_commit_ghr bp)) as Ht' by by rewrite Eb.
      assert (forall it, it_banks it = it_banks (sl_ittage bp) ->
        tracks (ittage_banks (bp_ittage config)) (gb_update_committed_csrs (it_banks it) taken (sl_commit_ghr bp))
          (sl_spec_ghr bp) (ghr_push (sl_commit_ghr bp) taken)) as Hi' by (intros it ->; by apply committed).
      split; [done|]. split; [by destruct target; apply push_ghrs|].
      split; [by destruct target; apply committed|]. destruct target; [apply Hi', ittage_update_banks|by apply Hi'].
    + split; [done|]. split; [by apply push_ghrs|]. split; by apply speculated.
    + split; [done|]. destruct Hg as (? & ? & Hl & ?). split; [|split; by apply (repaired _ _ (sl_spec_ghr bp))].
      split; [done|]. split; [done|]. change (snapshot_history (WScLTage bp)) with (sl_spec_ghr bp) in Hgl.
      change (Z.to_nat (ghr_len g) = len /\ Z.to_nat (ghr_len (sl_commit_ghr bp)) = len). by rewrite Hgl.
    + split; [done|]. destruct Hg as (? & ? & ? & ?). split; [done|]. split; by apply (reset _ _ (sl_spec_ghr bp)).
Qed.

Lemma bp_reach_inv (p : BranchPredictorWrapper) : bp_reach config p -> bp_inv p.
Proof. induction 1; eauto using bp_new_inv, bp_step_inv. Qed.
End Invariant.

(** * The two facts *)

(** The predictions of the wrong path. *)
Definition speculate_all (p : BranchPredictorWrapper) (outcomes : list (Z * bool)) : BranchPredictorWrapper :=
  foldl (fun p o => speculate p o.1 o.2) p outcomes.
(** The bank sets of a predictor and its committed history. *)
Definition bp_banks (p : BranchPredictorWrapper) : list GeoBankSet :=
  match p with
  | WTage bp => [tc_geo_banks (tp_tage bp)]
  | WScLTage bp => [tc_geo_banks (sl_tage bp); it_banks (sl_ittage bp)]
  | _ => []
  end.
Definition bp_commit_ghr (p : BranchPredictorWrapper) : Ghr :=
  match p with WTage bp => tp_commit_ghr bp | WScLTage bp => sl_commit_ghr bp | _ => ghr_default end.

(** What fetch and execution do on the wrong path: they predict and push the
    outcome on the history, and move the return stack and the target buffer. *)
Inductive WrongPathOp :=
| WpPredict (pc : Z) | WpSpeculate (pc : Z) (taken : bool) | WpCall (pc ret_addr target : Z) | WpReturn
| WpUpdateBtb (pc target : Z).
Definition wrong_path_op (p : BranchPredictorWrapper) (o : WrongPathOp) : BranchPredictorWrapper :=
  match o with
  | WpPredict pc => (predict_branch p pc).2
  | WpSpeculate pc taken => speculate p pc taken
  | WpCall pc ret_addr target => on_call p pc ret_addr target
  | WpReturn => on_return p
  | WpUpdateBtb pc target => update_btb p pc target
  end.
Definition wrong_path (p : BranchPredictorWrapper) (ops : list WrongPathOp) : BranchPredictorWrapper :=
  foldl wrong_path_op p ops.
(** Their effect on a target buffer and on a return stack. *)
Definition btb_after (b : Btb) (ops : list WrongPathOp) : Btb :=
  foldl (fun b o => match o with WpCall pc _ t | WpUpdateBtb pc t => btb_update b pc t | _ => b end) b ops.
Definition ras_after (r : Ras) (ops : list WrongPathOp) : Ras :=
  foldl (fun r o => match o with WpCall _ ret _ => ras_push r ret | WpReturn => (ras_pop r).2 | _ => r end) r ops.
(** The prediction cache keeps the slots of the addresses that were not predicted. *)
Definition cache_after (c c' : list ScCacheEntry) (ops : list WrongPathOp) : Prop :=
  forall i, (forall pc, WpPredict pc ∈ ops -> sl_cache_idx pc <> i) -> c' !! i = c !! i.

(** What a wrong path leaves: the target buffer, the return stack [r] and the
    slots of the prediction cache; everything else is as in [p]. *)
Definition but_targets (p q : BranchPredictorWrapper) (ops : list WrongPathOp) (r : Ras -> Ras) : Prop :=
  match p, q with
  | WStatic a, WStatic b => b = a <| sp_btb := btb_after (sp_btb a) ops |> <| sp_ras := r (sp_ras a) |>
  | WGShare a, WGShare b => b = a <| gs_btb := btb_after (gs_btb a) ops |> <| gs_ras := r (gs_ras a) |>
  | WTournament a, WTournament b => b = a <| tn_btb := btb_after (tn_btb a) ops |> <| tn_ras := r (tn_ras a) |>
  | WPerceptron a, WPerceptron b => b = a <| pp_btb := btb_after (pp_btb a) ops |> <| pp_ras := r (pp_ras a) |>
  | WTage a, WTage b => b = a <| tp_btb := btb_after (tp_btb a) ops |> <| tp_ras := r (tp_ras a) |>
  | WScLTage a, WScLTage b =>
      cache_after (sl_sc_cache a) (sl_sc_cache b) ops /\
      b = a <| sl_btb := btb_after (sl_btb a) ops |> <| sl_ras := r (sl_ras a) |> <| sl_sc_cache := sl_sc_cache b |>
  | _, _ => False
  end.
(** [p] with the speculative history, and the registers that follow it, of [q]. *)
Definition with_history (p q : BranchPredictorWrapper) : BranchPredictorWrapper :=
  match p, q with
  | WGShare a, WGShare b => WGShare (a <| gs_ghr := gs_ghr b |>)
  | WTournament a, WTournament b => WTournament (a <| tn_ghr := tn_ghr b |>)
  | WPerceptron a, WPerceptron b => WPerceptron (a <| pp_ghr := pp_ghr b |>)
  | WTage a, WTage b =>
      WTage (a <| tp_spec_ghr := tp_spec_ghr b |> <| tp_tage := (tp_tage a) <| tc_geo_banks := tc_geo_banks (tp_tage b) |> |>)
  | WScLTage a, WScLTage b =>
      WScLTage (a <| sl_spec_ghr := sl_spec_ghr b |>
                  <| sl_tage := (sl_tage a) <| tc_geo_banks := tc_geo_banks (sl_tage b) |> |>
                  <| sl_ittage := (sl_ittage a) <| it_banks := it_banks (sl_ittage b) |> |>)
  | _, _ => p
  end.

Lemma cache_after_snoc c c' c'' ops o :
  cache_after c c' ops -> (forall i, (forall pc, o = WpPredict pc -> sl_cache_idx pc <> i) -> c'' !! i = c' !! i) ->
  cache_after c c'' (ops ++ [o]).
Proof.
  intros Hc Ho i Hi. rewrite Ho; [apply Hc|]; intros pc Hpc; apply Hi; apply elem_of_app; [by left|right; subst; by left].
Qed.
(** One operation moves the history, and the three fields as described. *)
Lemma btb_after_snoc b ops o : btb_after b (ops ++ [o]) = btb_after (btb_after b ops) [o].
Proof. apply foldl_app. Qed.
Lemma ras_after_snoc r ops o : ras_after r (ops ++ [o]) = ras_after (ras_after r ops) [o].
Proof. apply foldl_app. Qed.
Lemma wrong_path_op_same (p q : BranchPredictorWrapper) ops o :
  but_targets (with_history p q) q ops (fun r => ras_after r ops) ->
  but_targets (with_history p (wrong_path_op q o)) (wrong_path_op q o) (ops ++ [o]) (fun r => ras_after r (ops ++ [o])).
Proof.
  pose proof btb_after_snoc as Eb. pose proof ras_after_snoc as Er.
  destruct p as [a|a|a|a|a|a], q as [b|b|b|b|b|b]; try done; cbn [with_history but_targets].
  - intros ->. destruct o; hnf; rewrite Eb, Er; reflexivity.
  - generalize (gs_ghr b). intros v ->. destruct o; hnf; rewrite Eb, Er; reflexivity.
  - generalize (tn_ghr b). intros v ->. destruct o; hnf; rewrite Eb, Er; reflexivity.
  - generalize (tp_spec_ghr b) (tc_geo_banks (tp_tage b)). intros v w ->. destruct o; hnf; rewrite Eb, Er; reflexivity.
  - generalize (pp_ghr b). intros v ->. destruct o; hnf; rewrite Eb, Er; reflexivity.
  - intros [Hc Hb]. revert Hc Hb. generalize (sl_spec_ghr b) (tc_geo_banks (sl_tage b)) (it_banks (sl_ittage b)) (sl_sc_cache b).
    intros v w x c Hc ->. destruct o as [pc| | | |];
      try (hnf; split; [|rewrite Eb, Er; reflexivity]; apply (cache_after_snoc _ _ _ _ _ Hc); done).
    hnf. cbn [with_history wrong_path_op predict_branch wrapper_unit wrapper_map sc_l_tage_unit snd]. unfold sl_predict_branch.
    destruct (loop_predict _ _); [|destruct (sc_predict _ _ _ _)]; (split; [|rewrite Eb, Er; reflexivity]); apply (cache_after_snoc _ _ _ _ _ Hc); try done.
    intros i Hi. apply list_lookup_insert_ne. by apply Hi.
Qed.
Lemma wrong_path_same (p : BranchPredictorWrapper) ops :
  but_targets (with_history p (wrong_path p ops)) (wrong_path p ops) ops (fun r => ras_after r ops).
Proof.
  unfold wrong_path. induction ops as [|o l IH] using rev_ind; [by destruct p|].
  rewrite foldl_app. cbn [foldl]. by apply wrong_path_op_same.
Qed.
Lemma wrong_path_reach config p ops : bp_reach config p -> bp_reach config (wrong_path p ops).
Proof.
  intros Hp. unfold wrong_path. induction ops as [|o l IH] using rev_ind; [done|].
  rewrite foldl_app. simpl. eapply BpStep; [exact IH|]. destruct o; constructor.
Qed.
Lemma speculate_all_reach config p outcomes : bp_reach config p -> bp_reach config (speculate_all p outcomes).
Proof.
  intros Hp. unfold speculate_all. induction outcomes as [|o l IH] using rev_ind; [done|].
  rewrite foldl_app. simpl. eapply BpStep; [exact IH|constructor].
Qed.

(** Repair gives a bank set back. *)
Lemma repaired_eq (c : BankConfig) (len : nat) (gb gb' : GeoBankSet) (spec spec' commit : Ghr) :
  bank_config_ok c len -> ghr_ok spec -> Tracks c gb (ghr_bit spec) (ghr_bit commit) ->
  Tracks c gb' (ghr_bit spec') (ghr_bit commit) -> gb_recompute_all gb' spec = gb.
Proof.
  intros Hc Hg Ht Ht'. apply (tracks_eq c _ (ghr_bit spec) (ghr_bit commit)); [|exact Ht].
  by apply (gb_recompute_all_tracks c len Hc _ (ghr_bit spec')).
Qed.

(** C32. What a wrong path leaves in the branch unit.  In every state the unit
    can reach, let any sequence of predictions, speculated outcomes, calls,
    returns and target updates follow; repairing with the history snapshot and
    restoring the stack pointer taken before it gives back every trained table,
    both histories and every folded-history register of TAGE and ITTAGE, which
    speculation updated incrementally and the repair recomputes.  What stays
    is exactly this: the targets written to the target buffer, the return
    addresses overwritten on the stack (its pointer is back), and, in the
    composed predictor, the cached predictions of the addresses predicted. *)
Theorem bp_repair_exact (config : BpConfig) (p : BranchPredictorWrapper) (ops : list WrongPathOp) :
  bp_config_ok config -> bp_reach config p ->
  but_targets p (restore_ras (repair_history (wrong_path p ops) (snapshot_history p)) (snapshot_ras p)) ops
    (fun r => ras_restore_ptr (ras_after r ops) (ras_snapshot_ptr r)).
Proof.
  intros Hok Hp. pose proof (bp_reach_inv config Hok p Hp) as Hi.
  pose proof (bp_reach_inv config Hok _ (wrong_path_reach config p ops Hp)) as Hq.
  pose proof (wrong_path_same p ops) as Hs. revert Hs Hq.
  destruct p as [a|a|a|a|a|a], (wrong_path _ ops) as [b|b|b|b|b|b]; try done; cbn [with_history but_targets].
  - intros -> _. cbn. by rewrite Nat2Z.id.
  - intros -> _. cbn. by rewrite Nat2Z.id.
  - intros -> _. cbn. by rewrite Nat2Z.id.
  - intros Eb (E & Hg & Ht). destruct Hi as (_ & Hga & Hta).
    assert (tp_commit_ghr b = tp_commit_ghr a) as Ec by by rewrite Eb.
    pose proof (repaired_eq _ _ _ _ _ _ _ (tage_config _ Hok (or_introl E)) (proj1 Hga) Hta ltac:(rewrite <-Ec; exact Ht)) as Er.
    assert (repair_history (WTage b) (tp_spec_ghr a) = WTage (b <| tp_spec_ghr := tp_spec_ghr a |>
      <| tp_tage := (tp_tage b) <| tc_geo_banks := tc_geo_banks (tp_tage a) |> |>)) as Erep
      by (simpl; unfold tp_repair_history, tage_repair; by rewrite Er).
    change (snapshot_history (WTage a)) with (tp_spec_ghr a). rewrite Erep. clear - Eb. revert Eb.
    generalize (tp_spec_ghr b) (tc_geo_banks (tp_tage b)). intros v w ->. cbn. by rewrite Nat2Z.id.
  - intros -> _. cbn. by rewrite Nat2Z.id.
  - intros [Hcache Eb] (E & Hg & Ht & Hit). destruct Hi as (_ & Hga & Hta & Hia).
    assert (sl_commit_ghr b = sl_commit_ghr a) as Ec by by rewrite Eb.
    pose proof (repaired_eq _ _ _ _ _ _ _ (tage_config _ Hok (or_intror E)) (proj1 Hga) Hta ltac:(rewrite <-Ec; exact Ht)) as Er.
    pose proof (repaired_eq _ _ _ _ _ _ _ (ittage_config _ Hok E) (proj1 Hga) Hia ltac:(rewrite <-Ec; exact Hit)) as Ei.
    assert (repair_history (WScLTage b) (sl_spec_ghr a) = WScLTage (b <| sl_spec_ghr := sl_spec_ghr a |>
      <| sl_tage := (sl_tage b) <| tc_geo_banks := tc_geo_banks (sl_tage a) |> |>
      <| sl_ittage := (sl_ittage b) <| it_banks := it_banks (sl_ittage a) |> |>)) as Erep
      by (simpl; unfold sl_repair_history, tage_repair, ittage_repair_history; by rewrite Er, Ei).
    change (snapshot_history (WScLTage a)) with (sl_spec_ghr a). rewrite Erep. clear - Eb Hcache. revert Eb Hcache.
    generalize (sl_spec_ghr b) (tc_geo_banks (sl_tage b)) (it_banks (sl_ittage b)) (sl_sc_cache b). intros v w x c -> Hcache.
    cbn. rewrite Nat2Z.id. by split.
Qed.

(** C9. The tables are consulted where the history says.  In every reachable
    state the index and the tag that each bank computes from its incrementally
    kept registers are the ones computed from scratch from the speculative
    history, and those used for training the ones of the committed history.  So
    an entry trained under the history it was predicted under is the entry that
    was consulted. *)
Theorem bp_history_exact (config : BpConfig) (p : BranchPredictorWrapper) (gb : GeoBankSet) (pc : Z) :
  bp_config_ok config -> bp_reach config p -> gb ∈ bp_banks p ->
  (forall i, (i < gb_num_banks gb)%nat ->
     gb_spec_index gb pc i = gb_snapshot_index gb pc i (snapshot_history p) /\
     gb_spec_tag gb pc i = gb_snapshot_tag gb pc i (snapshot_history p)) /\
  gb_committed_all gb pc = gb_snapshot_all gb pc (bp_commit_ghr p).
Proof.
  intros Hok Hp Hgb. pose proof (bp_reach_inv config Hok p Hp) as Hi.
  assert (exists c, bank_config_ok c (tage_history (bp_tage config)) /\
    ghr_ok (snapshot_history p) /\ ghr_ok (bp_commit_ghr p) /\
    Tracks c gb (ghr_bit (snapshot_history p)) (ghr_bit (bp_commit_ghr p))) as (c & Hc & Hs & Hcg & Ht).
  { destruct p as [a|a|a|a|a|a]; try by (apply elem_of_nil in Hgb).
    - apply list_elem_of_singleton in Hgb as ->. destruct Hi as (E & (? & ? & _) & ?).
      eexists. split; [apply (tage_config _ Hok); by left|]. done.
    - destruct Hi as (E & (? & ? & _) & Ht & Hit). cbn [bp_banks] in Hgb.
      apply elem_of_cons in Hgb as [->|Hgb]; [|apply list_elem_of_singleton in Hgb as ->]; eexists;
        (split; [|split; [|split; [|eassumption]]]); try done; [apply (tage_config _ Hok); by right|by apply ittage_config]. }
  split.
  - intros i Hi'. rewrite (tr_num_banks _ _ _ _ Ht) in Hi'. by eapply spec_is_snapshot.
  - by eapply committed_is_snapshot.
Qed.

(** A bank whose history is shorter than the second register of its index and
    of its tag: both registers hold the history itself, so their XOR is zero and
    neither the index nor the tag depends on the history. *)
Lemma short_history_cancels (w1 w2 hl : nat) (h : nat -> bool) :
  (hl <= w2 <= w1)%nat -> (w1 <= 63)%nat -> (1 <= w2)%nat -> fh_fold (fh_new w1 hl) h = fh_fold (fh_new w2 hl) h.
Proof.
  intros Hl Hw H1. unfold fh_fold. cbn [fold_width hist_length fh_new].
  rewrite (proj2 (Nat.eqb_neq w1 0)), (proj2 (Nat.eqb_neq w2 0)) by lia.
  assert (forall n s, (s + n <= w2)%nat -> fold_from w1 s n h = fold_from w2 s n h) as H; [|apply H; lia].
  induction n as [|n IH]; intros s Hs; [done|]. simpl. rewrite IH by lia. unfold fold_bit. by rewrite !Nat.mod_small by lia.
Qed.

Lemma short_bank_tracked (c : BankConfig) (len : nat) (gb : GeoBankSet) (h hc : nat -> bool) (i hl tw : nat) (pc : Z) :
  bank_config_ok c len -> Tracks c gb h hc -> bc_hist_lengths c !! i = Some hl -> bc_tag_widths c !! i = Some tw ->
  (hl < bc_table_bits c)%nat -> (hl < tw)%nat ->
  gb_spec_index gb pc i = Z.land (pc_idx_hash pc) (gb_table_mask gb) /\
  gb_spec_tag gb pc i = u16 (Z.land (pc_tag_hash pc) (Z.shiftl 1 (Z.of_nat tw) - 1)).
Proof.
  intros Hc Ht E Et Hb Hw. pose proof (lookup_lt_Some _ _ _ E) as Hi.
  destruct (csr_array_bank c len Hc (fun w => w) h i Hi) as (hl' & tw' & E' & Et' & _ & Hhl & Htw).
  rewrite E in E'. rewrite Et in Et'. simplify_eq.
  pose proof (narrow_table c len Hc 0%nat ltac:(lia)) as Hn. cbv beta in Hn.
  destruct Ht as [_ _ Ew _ _ E1 E2 E3 E4 _ _ _ _].
  unfold gb_spec_index, gb_spec_tag, gb_index, gb_tag. rewrite Ew, (banks_array_at 0%nat _ _ _ Et).
  rewrite (tracked_val c len Hc _ _ _ _ _ _ Hi E1 E Et), (tracked_val c len Hc _ _ _ _ _ _ Hi E2 E Et),
    (tracked_val c len Hc _ _ _ _ _ _ Hi E3 E Et), (tracked_val c len Hc _ _ _ _ _ _ Hi E4 E Et).
  rewrite (short_history_cancels (bc_table_bits c) (second_width (bc_table_bits c))), (short_history_cancels tw' (second_width tw'))
    by (try unfold second_width; lia).
  by rewrite !Z.lxor_assoc, !Z.lxor_nilpotent, !Z.lxor_0_r.
Qed.

(** A short bank ignores the history.  When the history length of a TAGE
    bank is below [table_bits] and below the bank's tag width, both registers
    of its index hold the history itself, and so do both of its tag: they
    cancel, so the bank is indexed and tagged by the address alone.  This is so
    for the first bank of the default configuration. *)
Theorem short_bank_ignores_history (config : BpConfig) (bp : ScLTagePredictor) (i hl tw : nat) (pc : Z) :
  bp_config_ok config -> bp_reach config (WScLTage bp) ->
  tg_history_lengths (bp_tage config) !! i = Some hl -> tg_tag_widths (bp_tage config) !! i = Some tw ->
  (hl < Nat.log2 (tg_table_size (bp_tage config)))%nat -> (hl < tw)%nat ->
  let gb := tc_geo_banks (sl_tage bp) in
  gb_spec_index gb pc i = Z.land (pc_idx_hash pc) (gb_table_mask gb) /\
  gb_spec_tag gb pc i = u16 (Z.land (pc_tag_hash pc) (Z.shiftl 1 (Z.of_nat tw) - 1)).
Proof.
  intros Hok Hp E Et Hb Hw. destruct (bp_reach_inv config Hok _ Hp) as (Ety & _ & Ht & _).
  exact (short_bank_tracked _ _ _ _ _ _ _ _ pc (tage_config _ Hok (or_intror Ety)) Ht E Et Hb Hw).
Qed.

(** ** Witnesses: the composed predictor at the sizes of its unit tests *)

Definition demo_bp_config : BpConfig := {|
  bp_type := BpScLTage; bp_btb_size := 64; bp_btb_ways := 4; bp_ras_size := 8;
  bp_tage := {| tg_num_banks := 4; tg_table_size := 256; tg_loop_table_size := 16; tg_reset_interval := 100000;
                tg_history_lengths := [5; 15; 44; 130]%nat; tg_tag_widths := [9; 9; 10; 10]%nat |};
  bp_perceptron := {| pc_history_length := 32; pc_table_bits := 10 |};
  bp_tournament := {| global_size_bits := 12; local_hist_bits := 10; local_pred_bits := 10 |};
  bp_sc := {| scc_num_tables := 4; scc_table_size := 64; scc_history_lengths := [0; 2; 4; 8]%nat; scc_counter_bits := 3;
              scc_bias_table_size := 256; scc_bias_counter_bits := 6; scc_initial_threshold := 35;
              scc_per_pc_threshold_bits := 6 |};
  bp_ittage := {| it_cfg_num_banks := 4; it_cfg_table_size := 64; it_cfg_history_lengths := [4; 8; 16; 32]%nat;
                  it_cfg_tag_widths := [9; 9; 10; 10]%nat; it_cfg_reset_interval := 100000 |} |}.
Definition demo_bp_new : BranchPredictorWrapper :=
  default (WStatic (static_new 64 4 8)) (wrapper_new demo_bp_config).
(** Twenty branches predicted, one committed. *)
Definition demo_outcomes : list (Z * bool) :=
  (fun i => (0x1000 + 4 * Z.of_nat i, Z.testbit 0xB3C35 (Z.of_nat i))) <$> seq 0 20.
Definition demo_bp : BranchPredictorWrapper :=
  update_branch (speculate_all (predict_branch demo_bp_new 0x1000).2 demo_outcomes)
    0x1000 true (Some 0x2000) (snapshot_history demo_bp_new).

Lemma demo_bp_new_eq : wrapper_new demo_bp_config = Some demo_bp_new.
Proof.
  unfold demo_bp_new. destruct (wrapper_new demo_bp_config) eqn:E; [done|]. exfalso.
  assert (bool_decide (is_Some (wrapper_new demo_bp_config)) = true) as H by (vm_compute; reflexivity).
  rewrite E in H. by vm_compute in H.
Qed.
Lemma demo_bp_reach : bp_reach demo_bp_config demo_bp.
Proof.
  eapply BpStep; [|constructor]. apply speculate_all_reach. eapply BpStep; [|constructor].
  constructor. exact demo_bp_new_eq.
Qed.
Lemma demo_bp_config_ok : bp_config_ok demo_bp_config.
Proof. apply (bool_decide_unpack _). by vm_compute. Qed.

(** A wrong path with branches, a call and a return changes the history
    registers, and repair restores them; the target of the call stays. *)
Definition demo_wrong_path : list WrongPathOp :=
  [WpPredict 0x2000; WpSpeculate 0x2000 true; WpCall 0x2004 0x2008 0x3000; WpSpeculate 0x3000 true; WpSpeculate 0x3004 false;
   WpReturn; WpPredict 0x2008; WpSpeculate 0x2008 true; WpSpeculate 0x2010 true].
Lemma bp_repair_exact_witness :
  let wrong := wrong_path demo_bp demo_wrong_path in
  let repaired := restore_ras (repair_history wrong (snapshot_history demo_bp)) (snapshot_ras demo_bp) in
  ghr_val (snapshot_history demo_bp) = 705485 /\ ghr_val (snapshot_history wrong) = 22575547 /\
  predict_btb demo_bp 0x2004 = None /\ predict_btb repaired 0x2004 = Some 0x3000 /\
  but_targets demo_bp repaired demo_wrong_path (fun r => ras_restore_ptr (ras_after r demo_wrong_path) (ras_snapshot_ptr r)).
Proof.
  split; [by vm_compute|]. split; [by vm_compute|]. split; [by vm_compute|]. split; [by vm_compute|].
  exact (bp_repair_exact demo_bp_config demo_bp _ demo_bp_config_ok demo_bp_reach).
Defined.

Lemma bp_history_exact_witness :
  exists gb, bp_banks demo_bp !! 0%nat = Some gb /\ gb_spec_index gb 0x1000 3 = 101 /\
    gb_spec_index gb 0x1000 3 = gb_snapshot_index gb 0x1000 3 (snapshot_history demo_bp) /\
    gb_committed_all gb 0x1000 = gb_snapshot_all gb 0x1000 (bp_commit_ghr demo_bp).
Proof.
  assert (exists gb, bp_banks demo_bp !! 0%nat = Some gb /\ gb_spec_index gb 0x1000 3 = 101 /\ gb_num_banks gb = 4%nat) as (gb & Hgb & Hx & Hn)
    by (vm_compute; eexists; split; [reflexivity|split; reflexivity]).
  exists gb. destruct (bp_history_exact demo_bp_config demo_bp gb 0x1000 demo_bp_config_ok demo_bp_reach) as [Hspec Hc].
  { by eapply list_elem_of_lookup_2. }
  split; [done|]. split; [done|]. split; [|exact Hc]. apply Hspec. lia.
Defined.

Lemma short_bank_ignores_history_witness :
  match demo_bp with
  | WScLTage bp =>
      gb_spec_index (tc_geo_banks (sl_tage bp)) 0x1000 0 = Z.land (pc_idx_hash 0x1000) (gb_table_mask (tc_geo_banks (sl_tage bp)))
  | _ => False
  end.
Proof.
  assert (match demo_bp with WScLTage _ => True | _ => False end) as Hd by (vm_compute; exact I).
  pose proof demo_bp_reach as Hr. destruct demo_bp as [| | | | |bp]; try destruct Hd.
  apply (short_bank_ignores_history demo_bp_config bp 0 5 9 0x1000 demo_bp_config_ok Hr eq_refl eq_refl); apply (bool_decide_unpack _); by vm_compute.
Defined.
