(* ===== verification/PredictorBounds.v ===== *)
(** Bounds of the branch predictors: in every state the unit can reach each
    saturating counter is within its range and each table index within its
    table, and the branch target buffer answers what it was last told. *)
From S2P Require Import Prelude Common Commit Core History TaggedBank Predictor Tage ScLTage BranchUnits.
Set Primitive Projections.
Local Open Scope Z_scope.

(** * Branch target buffer *)

Definition btb_ok (b : Btb) : Prop :=
  length (btb_table b) = (btb_num_sets b * btb_ways b)%nat /\ (1 <= btb_num_sets b)%nat /\ (1 <= btb_ways b)%nat.
#[export] Instance btb_ok_dec b : Decision (btb_ok b).
Proof. unfold btb_ok. apply _. Defined.

Lemma land_le_r (a b : Z) : 0 <= a -> 0 <= b -> 0 <= Z.land a b <= b.
Proof.
  intros Ha Hb. split; [by apply Z.land_nonneg; right|]. apply Z.ldiff_le; [done|].
  rewrite Z.ldiff_land, <-Z.land_assoc, Z.land_lnot_diag. apply Z.land_0_r.
Qed.

Lemma btb_set_index_lt (b : Btb) (pc : Z) : btb_ok b -> 0 <= pc -> (btb_set_index b pc < btb_num_sets b)%nat.
Proof.
  intros (_ & Hs & _) Hpc. unfold btb_set_index.
  pose proof (land_le_r (Z.shiftr pc 2) (Z.of_nat (btb_num_sets b - 1)) ltac:(by apply Z.shiftr_nonneg) ltac:(lia)). lia.
Qed.

Lemma btb_way_spec (b : Btb) base p w :
  btb_way b base p = Some w <->
  (w < btb_ways b)%nat /\ p (btb_table b !!! (base + w)%nat) = true /\
  (forall v, (v < w)%nat -> p (btb_table b !!! (base + v)%nat) = false).
Proof.
  unfold btb_way. rewrite fmap_Some. split.
  - intros ([i x] & Hf & ->). apply list_find_Some in Hf as (Hl & Hp & Hb). apply lookup_seq in Hl as [-> Hi]. simpl in *.
    split; [done|]. split; [done|]. intros v Hv. apply not_true_iff_false. exact (Hb v v (lookup_seq_lt 0 (btb_ways b) v ltac:(lia)) Hv).
  - intros (Hw & Hp & Hb). exists (w, w). split; [|done]. apply list_find_Some. split; [by apply lookup_seq_lt|]. split; [done|].
    intros j y Hy Hj. apply lookup_seq in Hy as [-> _]. simpl. rewrite Hb by done. done.
Qed.
Lemma btb_way_none (b : Btb) base p :
  btb_way b base p = None -> forall w, (w < btb_ways b)%nat -> p (btb_table b !!! (base + w)%nat) = false.
Proof.
  unfold btb_way. rewrite fmap_None, list_find_None. intros H w Hw. apply not_true_iff_false. exact (proj1 (Forall_lookup _ _) H w w (lookup_seq_lt 0 _ w Hw)).
Qed.

(** Writing an entry of the set. *)
Lemma btb_write_lookup (b : Btb) (pc : Z) (w : nat) (e : BtbEntry) :
  btb_ok b -> 0 <= pc -> (w < btb_ways b)%nat -> btb_hit pc e = true ->
  (forall v, (v < w)%nat -> btb_hit pc (btb_table b !!! (btb_set_index b pc * btb_ways b + v)%nat) = false) ->
  btb_lookup (btb_write (btb_set_index b pc * btb_ways b + w) e b) pc = Some (btb_target e).
Proof.
  intros Hok Hpc Hw He Hb. pose proof (btb_set_index_lt b pc Hok Hpc) as Hs. destruct Hok as (Hl & _).
  set (base := (btb_set_index b pc * btb_ways b)%nat) in *.
  assert (base + w < length (btb_table b))%nat as Hin by (rewrite Hl; unfold base; nia).
  unfold btb_lookup. change (btb_set_index (btb_write _ _ b) pc * btb_ways _)%nat with base.
  assert (btb_way (btb_write (base + w) e b) base (btb_hit pc) = Some w) as ->.
  { apply btb_way_spec. split; [done|]. change (btb_table (btb_write (base + w) e b)) with (<[(base + w)%nat := e]> (btb_table b)).
    rewrite list_lookup_total_insert_eq by done. split; [done|]. intros v Hv. rewrite list_lookup_total_insert_ne by lia. by apply Hb. }
  simpl. change (btb_table (btb_write (base + w) e b)) with (<[(base + w)%nat := e]> (btb_table b)).
  by rewrite list_lookup_total_insert_eq by done.
Qed.

(** The branch target buffer answers what it was last told: after an
    update, looking the address up gives the target, whichever of the three
    cases (a hit, an invalid way, a replaced way) the update took. *)
Theorem btb_update_lookup (b : Btb) (pc target : Z) :
  btb_ok b -> 0 <= pc -> btb_lookup (btb_update b pc target) pc = Some target.
Proof.
  intros Hok Hpc. unfold btb_update. set (base := (btb_set_index b pc * btb_ways b)%nat).
  assert (forall e, btb_tag e = pc -> btb_valid e = true -> btb_hit pc e = true) as Hhit
    by (intros e Et Ev; unfold btb_hit; by rewrite Ev, Et, Z.eqb_refl).
  destruct (btb_way b base (btb_hit pc)) as [w|] eqn:E.
  { apply btb_way_spec in E as (Hw & Hp & Hb). rewrite (btb_write_lookup b pc w) by done. done. }
  pose proof (btb_way_none _ _ _ E) as Hn.
  destruct (btb_way b base (fun e => negb (btb_valid e))) as [w|] eqn:E'.
  - apply btb_way_spec in E' as (Hw & _). rewrite (btb_write_lookup b pc w) by (done || (by apply Hhit) || (intros v Hv; apply Hn; lia)). done.
  - set (victim := (Z.to_nat _ mod btb_ways b)%nat). set (b' := b <| btb_replace_ptr := _ |>).
    assert (victim < btb_ways b)%nat as Hv by (apply Nat.mod_upper_bound; destruct Hok as (_ & _ & ?); lia).
    change base with (btb_set_index b' pc * btb_ways b')%nat.
    rewrite (btb_write_lookup b' pc victim) by (done || (by apply Hhit) || (intros v Hvv; apply Hn; lia)). done.
Qed.

(** A full two-way set: the third target replaces the first. *)
Definition demo_btb : Btb := btb_update (btb_update (btb_new 2 2) 0x1000 0x2000) 0x1008 0x3000.
Lemma btb_update_lookup_witness :
  btb_lookup (btb_update demo_btb 0x1010 0x4000) 0x1010 = Some 0x4000 /\
  btb_lookup (btb_update demo_btb 0x1010 0x4000) 0x1000 = None.
Proof.
  split; [|by vm_compute]. apply btb_update_lookup; [|done]. apply (bool_decide_unpack _). by vm_compute.
Defined.

(** * Saturating counters *)

Definition within (lo hi x : Z) : Prop := lo <= x <= hi.
#[export] Instance within_dec lo hi x : Decision (within lo hi x).
Proof. unfold within. apply _. Defined.
(** A table of [n] counters. *)
Definition counters (n : nat) (lo hi : Z) (l : list Z) : Prop := length l = n /\ Forall (within lo hi) l.

Lemma at_index_counters n lo hi f i l :
  (forall x, within lo hi x -> within lo hi (f x)) -> counters n lo hi l -> counters n lo hi (at_index f i l).
Proof.
  intros Hf [Hl Ha]. unfold at_index. destruct (decide (i < length l)%nat) as [Hi|Hi].
  - split; [by rewrite length_insert|]. apply Forall_insert; [done|]. apply Hf. by apply Forall_at.
  - rewrite list_insert_ge by lia. done.
Qed.
Lemma counters_replicate n lo hi x : within lo hi x -> counters n lo hi (replicate n x).
Proof. intros Hx. split; [by rewrite length_replicate|]. by apply Forall_replicate. Qed.
Lemma count_within taken x : within 0 3 x -> within 0 3 (count taken x).
Proof. unfold within, count, count_up, count_down. intros. repeat case_bool; to_prop; lia. Qed.
#[local] Hint Resolve at_index_counters counters_replicate count_within : rvsim.

Definition entry_bounded (e : TageEntry) : Prop := within (-4) 3 (te_ctr e) /\ within 0 3 (te_u e).
Definition target_bounded (e : IttageEntry) : Prop := within 0 3 (ie_u e).
Definition loop_bounded (e : LoopEntry) : Prop :=
  within 0 3 (le_confidence e) /\ within 0 3 (le_age e) /\ within 0 65535 (current_iter e) /\ within 0 65535 (trip_count e).

(** Banks of tables of [size] entries. *)
Definition banks_of {A} (P : A -> Prop) (n size : nat) (tables : list (list A)) : Prop :=
  length tables = n /\ Forall (fun t => length t = size /\ Forall P t) tables.

Section Banks.
Context {A : Type} `{Inhabited A} (P : A -> Prop) (n size : nat).
Lemma banks_on_entry (tables : list (list A)) bank idx (f : A -> A) :
  (forall e, P e -> P (f e)) -> banks_of P n size tables ->
  banks_of P n size (let table := tables !!! bank in <[bank := <[Z.to_nat idx := f (table !!! Z.to_nat idx)]> table]> tables).
Proof.
  intros Hf [Hl Ha]. cbv zeta. split; [by rewrite length_insert|].
  destruct (decide (bank < length tables)%nat) as [Hb|Hb]; [|by rewrite list_insert_ge by lia].
  apply Forall_insert; [done|]. destruct (Forall_at _ _ _ Ha Hb) as [Ht Hp]. split; [by rewrite length_insert|].
  destruct (decide (Z.to_nat idx < length (tables !!! bank))%nat) as [Hi|Hi]; [|by rewrite list_insert_ge by lia].
  apply Forall_insert; [done|]. apply Hf. by apply Forall_at.
Qed.
Lemma banks_map (tables : list (list A)) (f : A -> A) :
  (forall e, P e -> P (f e)) -> banks_of P n size tables -> banks_of P n size (map (map f) tables).
Proof.
  intros Hf [Hl Ha]. split; [by rewrite length_map|]. apply Forall_map. eapply Forall_impl; [exact Ha|].
  intros t [Ht Hp]. split; [by rewrite length_map|]. apply Forall_map. eapply Forall_impl; [exact Hp|]. exact Hf.
Qed.
Lemma banks_replicate (e : A) : P e -> banks_of P n size (replicate n (replicate size e)).
Proof.
  intros He. split; [by rewrite length_replicate|]. apply Forall_replicate. split; [by rewrite length_replicate|]. by apply Forall_replicate.
Qed.
Lemma banks_foldl (f : list (list A) -> nat -> list (list A)) l tables :
  (forall tb i, banks_of P n size tb -> banks_of P n size (f tb i)) -> banks_of P n size tables -> banks_of P n size (foldl f tables l).
Proof. intros Hf. revert tables. induction l as [|i l IH]; intros tables Ht; [done|]. simpl. by apply IH, Hf. Qed.
End Banks.

Definition core_bounded (size n : nat) (t : TageCore) : Prop :=
  counters size (-2) 1 (tc_base t) /\ banks_of entry_bounded n size (tc_tables t) /\ within (-8) 7 (tc_use_alt_on_na_ctr t).
Definition ittage_bounded (size n : nat) (t : Ittage) : Prop := banks_of target_bounded n size (it_tables t).

Lemma shiftr_within (x : Z) : within 0 3 x -> within 0 3 (Z.shiftr x 1).
Proof.
  unfold within. intros Hx. rewrite Z.shiftr_div_pow2 by lia.
  split; [apply Z.div_pos; lia|]. apply Z.div_le_upper_bound; lia.
Qed.
Lemma train_provider_bounded a b c e : entry_bounded e -> entry_bounded (train_provider a b c e).
Proof.
  unfold entry_bounded, within, train_provider. destruct e as [tag ctr u]. cbn. intros [H1 H2].
  set (c0 := if a then _ else _). assert (-4 <= c0 <= 3) as Hc by (unfold c0; repeat case_bool; to_prop; lia). clearbody c0.
  destruct (negb c && negb (eqb b a) && _) eqn:E1; cbn; destruct (c && _) eqn:E2; cbn; to_prop; lia.
Qed.
Lemma allocate_bounded n size taken start indices tags tables :
  banks_of entry_bounded n size tables -> banks_of entry_bounded n size (tc_allocate taken start indices tags tables).
Proof.
  intros Ht. unfold tc_allocate.
  assert (forall l, match after_loop (list_scan (tc_allocate_body taken indices tags) l tables) (fun _ => None) with
                    | Some tables' => banks_of entry_bounded n size tables' | None => True end) as Hs.
  { induction l as [|i l IH]; [done|]. cbn [list_scan]. unfold tc_allocate_body at 1. destruct (_ =? 0); [|exact IH].
    cbn [after_loop]. apply banks_on_entry; [|done]. intros e _. unfold entry_bounded, within. simpl. destruct taken; lia. }
  specialize (Hs (seq start (length tables - start))). destruct (after_loop _ _); [done|].
  apply banks_foldl; [|done]. intros tb i Htb. apply banks_on_entry; [|done].
  intros [tag ctr u]. unfold age_entry, entry_bounded, within. cbn. intros [H1 H2]. destruct (0 <? u) eqn:E; to_prop; cbn; lia.
Qed.

Lemma tage_update_bounded size n t pc taken g : core_bounded size n t -> core_bounded size n (tage_update t pc taken g).2.
Proof.
  intros Hb. assert (core_bounded size n (tc_tick t)) as (Hbase & Htab & Hna).
  { unfold tc_tick. destruct (_ <=? _); [|exact Hb]. destruct Hb as (H1 & H2 & H3). split; [exact H1|]. split; [|exact H3].
    apply banks_map; [|exact H2]. intros [tag ctr u] [He Hu]. split; [exact He|]. by apply shiftr_within. }
  unfold tage_update. destruct (gb_committed_all _ _) as [indices tags]. destruct (tc_match _ _ _) as [provider alt].
  cbv zeta. cbn [snd]. set (t0 := tc_tick t) in *. clearbody t0.
  set (t1 := if (0 <? provider)%nat && weak_counter _ && negb _ then _ else t0).
  assert (core_bounded size n t1) as Hb1.
  { unfold t1. destruct (_ && negb _); [|done]. split; [done|]. split; [done|]. unfold within in *. cbn. destruct (eqb _ _); lia. }
  clearbody t1. destruct Hb1 as (Hbase1 & Htab1 & Hna1).
  set (t2 := match provider with O => _ | S b => _ end).
  assert (core_bounded size n t2) as Hb2.
  { unfold t2. destruct provider as [|b].
    - split; [|done]. apply at_index_counters; [|done]. unfold within, train_base. intros x Hx. repeat case_bool; to_prop; lia.
    - split; [done|]. split; [|done]. apply banks_on_entry; [|done]. intros e. apply train_provider_bounded. }
  clearbody t2. destruct (_ && (_ <? _)%nat); [|exact Hb2]. destruct Hb2 as (? & ? & ?). split; [done|]. split; [|done].
  by apply allocate_bounded.
Qed.

Lemma ittage_update_bounded size n t pc target g : ittage_bounded size n t -> ittage_bounded size n (ittage_update t pc target g).
Proof.
  unfold ittage_bounded. intros Hb. assert (banks_of target_bounded n size (it_tables (it_tick t))) as H0.
  { unfold it_tick. destruct (_ <=? _); [|exact Hb]. apply banks_map; [|exact Hb]. intros [tag tgt u]. apply shiftr_within. }
  unfold ittage_update. destruct (gb_snapshot_all _ _ _) as [indices tags]. cbv zeta. set (t0 := it_tick t) in *. clearbody t0.
  set (t1 := match it_provider _ _ _ with Some b => _ | None => t0 end).
  assert (banks_of target_bounded n size (it_tables t1)) as H1.
  { unfold t1. destruct (it_provider _ _ _) as [b|]; [|done]. apply banks_on_entry; [|done].
    intros [tag tgt u]. unfold target_bounded, train_target, sat_to_3, within. cbn. intros Hu.
    destruct (tgt =? target); [cbn; lia|]. destruct (0 <? u) eqn:E; to_prop; cbn; lia. }
  clearbody t1. destruct (_ && (_ <? _)%nat); [|done].
  cbn [it_tables]. match goal with |- banks_of _ _ _ (it_tables ?r) => change (it_tables r) with
    (it_allocate target (match it_provider t0 indices tags with Some b => (b + 1)%nat | None => 0%nat end) indices tags (it_tables t1)) end.
  generalize (match it_provider t0 indices tags with Some b => (b + 1)%nat | None => 0%nat end). intros start.
  unfold it_allocate.
  assert (forall l, match after_loop (list_scan (it_allocate_body target indices tags) l (it_tables t1)) (fun _ => None) with
                    | Some tables' => banks_of target_bounded n size tables' | None => True end) as Hs.
  { induction l as [|i l IH]; [done|]. cbn [list_scan]. unfold it_allocate_body at 1. destruct (_ =? 0); [|exact IH].
    cbn [after_loop]. apply banks_on_entry; [|done]. intros e _. unfold target_bounded, within. simpl. lia. }
  specialize (Hs (seq start (length (it_tables t1) - start))). destruct (after_loop _ _); [done|].
  apply banks_foldl; [|done]. intros tb i Htb. apply banks_on_entry; [|done].
  intros [tag tgt u]. unfold age_target, target_bounded, within. cbn. intros Hu. destruct (0 <? u) eqn:E; to_prop; cbn; lia.
Qed.

Lemma loop_update_bounded l pc taken :
  Forall loop_bounded (lp_table l) -> Forall loop_bounded (lp_table (loop_update l pc taken)).
Proof.
  intros Hl. unfold loop_update. cbn [lp_table].
  destruct (decide (loop_index l pc < length (lp_table l))%nat) as [Hi|Hi]; [|by rewrite list_insert_ge by lia].
  apply Forall_insert; [done|]. pose proof (Forall_at _ _ _ Hl Hi) as He. revert He. generalize (lp_table l !!! loop_index l pc).
  intros [tag ci tc conf age]. unfold loop_bounded, loop_train, loop_exit, sat_to_3, within. cbn. intros (H1 & H2 & H3 & H4).
  destruct (tag =? loop_tag pc), taken; cbn; try lia.
  - destruct (tc =? 0); cbn; [lia|]. destruct (ci =? tc); cbn; lia.
  - destruct (_ || _); cbn; lia.
Qed.

(** ** The statistical corrector *)

Definition half_range (bits : nat) : Z := 2 ^ Z.of_nat (bits - 1).
(** A width of an [i8]. *)
Definition width_ok (bits : nat) : Prop := (1 <= bits <= 8)%nat.
#[export] Instance width_ok_dec bits : Decision (width_ok bits).
Proof. unfold width_ok. apply _. Defined.
Record ScBounded (s : StatCorrector) : Prop := {
  sb_widths : width_ok (sc_counter_bits s) /\ width_ok (sc_bias_counter_bits s);
  sb_counters : Forall (within (- half_range (sc_counter_bits s)) (half_range (sc_counter_bits s) - 1)) (sc_counters s);
  sb_bias : Forall (within (- half_range (sc_bias_counter_bits s)) (half_range (sc_bias_counter_bits s) - 1)) (sc_bias s);
  sb_bias_sk : Forall (within (- half_range (sc_bias_counter_bits s)) (half_range (sc_bias_counter_bits s) - 1)) (sc_bias_sk s);
  sb_bias_bank : Forall (within (- half_range (sc_bias_counter_bits s)) (half_range (sc_bias_counter_bits s) - 1)) (sc_bias_bank s);
  sb_threshold : within 0 511 (sc_update_threshold s);
  sb_per_pc : Forall (within (-16) 15) (sc_per_pc_threshold s);
  sb_first : within (-64) 63 (sc_first_h s);
  sb_second : within (-64) 63 (sc_second_h s)
}.

Lemma at_index_forall (P : Z -> Prop) f i l : (forall x, P x -> P (f x)) -> Forall P l -> Forall P (at_index f i l).
Proof.
  intros Hf Ha. unfold at_index. destruct (decide (i < length l)%nat) as [Hi|Hi]; [|by rewrite list_insert_ge by lia].
  apply Forall_insert; [done|]. apply Hf. by apply Forall_at.
Qed.
Lemma foldl_forall (P : Z -> Prop) (f : list Z -> nat -> list Z) l cs :
  (forall cs t, Forall P cs -> Forall P (f cs t)) -> Forall P cs -> Forall P (foldl f cs l).
Proof. intros Hf. revert cs. induction l as [|t l IH]; intros cs Hcs; [done|]. simpl. by apply IH, Hf. Qed.
Lemma i8_small x : -128 <= x <= 127 -> i8 x = x.
Proof.
  intros Hx. unfold i8, as_signed, wrap. change (2 ^ 8) with 256. change (2 ^ (8 - 1)) with 128.
  pose proof (Z.mod_pos_bound x 256 ltac:(lia)). pose proof (Z.div_mod x 256 ltac:(lia)). case_match; lia.
Qed.
Lemma clamp_counter_eq val bits :
  width_ok bits -> clamp_counter val bits = Z.max (- half_range bits) (Z.min val (half_range bits - 1)).
Proof.
  intros [H1 H2]. assert (E : i32 (Z.shiftl 1 ((Z.of_nat bits - 1) mod 32)) = half_range bits /\
    i32 (half_range bits - 1) = half_range bits - 1 /\ i32 (- half_range bits) = - half_range bits /\ 1 <= half_range bits <= 128).
  { do 9 (destruct bits as [|bits]; [first [lia | by vm_compute]|]). lia. }
  destruct E as (E & Emax & Emin & Hb). unfold clamp_counter. rewrite E, Emax, Emin. apply i8_small. lia.
Qed.
Lemma bump_within taken bits x : width_ok bits -> within (- half_range bits) (half_range bits - 1) (bump taken bits x).
Proof.
  intros Hb. unfold within, bump. rewrite clamp_counter_eq by done. unfold half_range.
  assert (0 < 2 ^ Z.of_nat (bits - 1)) by (apply Z.pow_pos_nonneg; lia). lia.
Qed.
Lemma nudge_within up c : within (-64) 63 c -> within (-64) 63 (nudge up c).
Proof. unfold within, nudge. destruct up; lia. Qed.

Lemma sc_update_bounded s pc ghr taken meta sum : ScBounded s -> ScBounded (sc_update s pc ghr taken meta sum).
Proof.
  intros Hs. unfold sc_update. cbv zeta. set (thres := sc_effective_threshold s pc). set (right := eqb (0 <=? sum) taken).
  set (dis := negb (eqb _ (tm_pred_taken meta))).
  set (s1 := if dis then sc_train_choosers _ _ _ _ _ else s).
  assert (ScBounded s1) as H1.
  { unfold s1. destruct dis; [|done]. unfold sc_train_choosers. destruct Hs.
    destruct (_ && _ && (_ <? _)), (_ && (_ <? _)); split; first [assumption|apply nudge_within; assumption]. }
  clearbody s1. set (s2 := if dis then sc_adapt_threshold s1 pc right else s1).
  assert (ScBounded s2) as H2.
  { unfold s2. destruct dis; [|done]. unfold sc_adapt_threshold. destruct H1.
    destruct right; split; try assumption; unfold within in *; cbn; try lia; apply at_index_forall; try done; intros; lia. }
  clearbody s2. destruct (_ || _); [|done]. destruct H2 as [Hw ? ? ? ? ? ? ? ?]. unfold sc_train_tables. cbv zeta.
  destruct Hw as [Hw1 Hw2].
  split; try assumption; try (by split); try (apply at_index_forall; [intros; by apply bump_within|assumption]).
  match goal with |- Forall ?P ?l => let l' := eval hnf in l in change (Forall P l') end.
  apply foldl_forall; [|assumption]. intros cs t Hcs. apply at_index_forall; [intros; by apply bump_within|done].
Qed.

(** * Every reachable predictor *)

Section Bounded.
Variable config : BpConfig.
Local Abbreviation tage := (bp_tage config).
Local Abbreviation size_of bits := (Z.to_nat (Z.shiftl 1 (Z.of_nat bits))).

Definition bp_bounded (p : BranchPredictorWrapper) : Prop :=
  match p with
  | WStatic _ => True
  | WGShare b => counters (Z.to_nat GSHARE_TABLE_SIZE) 0 3 (gs_pht b)
  | WTournament b =>
      counters (size_of (global_size_bits (bp_tournament config))) 0 3 (global_pht b) /\
      counters (size_of (global_size_bits (bp_tournament config))) 0 3 (choice_pht b) /\
      counters (size_of (local_pred_bits (bp_tournament config))) 0 3 (local_pht b)
  | WPerceptron b =>
      counters (size_of (pc_table_bits (bp_perceptron config)) * (pc_history_length (bp_perceptron config) + 1))
        (-128) 127 (pp_table b)
  | WTage b => core_bounded (tg_table_size tage) (tg_num_banks tage) (tp_tage b)
  | WScLTage b =>
      core_bounded (tg_table_size tage) (tg_num_banks tage) (sl_tage b) /\
      ittage_bounded (next_power_of_two (it_cfg_table_size (bp_ittage config))) (it_cfg_num_banks (bp_ittage config)) (sl_ittage b) /\
      Forall loop_bounded (lp_table (sl_loop_pred b)) /\ ScBounded (sl_sc b)
  end.

Lemma tage_new_bounded (t : TageCore) : tage_new tage = Some t -> core_bounded (tg_table_size tage) (tg_num_banks tage) t.
Proof.
  unfold tage_new. destruct (_ || _); [done|]. destruct (gb_new _ _ _); [|done]. intros [= <-].
  split; [by apply counters_replicate|]. split; [|done]. by apply banks_replicate.
Qed.
Lemma ittage_new_bounded (t : Ittage) :
  ittage_new (bp_ittage config) = Some t ->
  ittage_bounded (next_power_of_two (it_cfg_table_size (bp_ittage config))) (it_cfg_num_banks (bp_ittage config)) t.
Proof. unfold ittage_new. destruct (_ || _); [done|]. destruct (gb_new _ _ _); [|done]. intros [= <-]. by apply banks_replicate. Qed.
Lemma half_range_zero bits : within (- half_range bits) (half_range bits - 1) 0.
Proof. unfold within, half_range. assert (0 < 2 ^ Z.of_nat (bits - 1)) by (apply Z.pow_pos_nonneg; lia). lia. Qed.
(** The corrector's counters are [i8]s and its threshold starts in range. *)
Definition sc_ok (c : ScConfig) : Prop :=
  0 <= scc_initial_threshold c <= 63 /\ width_ok (scc_counter_bits c) /\ width_ok (scc_bias_counter_bits c).
#[export] Instance sc_ok_dec c : Decision (sc_ok c).
Proof. unfold sc_ok. apply _. Defined.
Lemma i32_small x : - 2 ^ 31 <= x < 2 ^ 31 -> i32 x = x.
Proof.
  intros Hx. unfold i32, as_signed, wrap. change (2 ^ 32) with (2 * 2 ^ 31). change (2 ^ (32 - 1)) with (2 ^ 31).
  pose proof (Z.mod_pos_bound x (2 * 2 ^ 31) ltac:(lia)). pose proof (Z.div_mod x (2 * 2 ^ 31) ltac:(lia)). case_match; lia.
Qed.
Lemma sc_new_bounded (c : ScConfig) (s : StatCorrector) : sc_ok c -> sc_new c = Some s -> ScBounded s.
Proof.
  intros (Ht & Hw1 & Hw2). unfold sc_new. destruct (_ <? _)%nat; [done|]. intros [= <-].
  split; try (apply Forall_replicate; apply half_range_zero); try done; [|by apply Forall_replicate].
  unfold within. cbn [sc_update_threshold]. rewrite (i32_small (scc_initial_threshold c)), Z.shiftl_mul_pow2, i32_small by lia. lia.
Qed.

Lemma bp_new_bounded (p : BranchPredictorWrapper) :
  sc_ok (bp_sc config) -> wrapper_new config = Some p -> bp_bounded p.
Proof.
  intros Hsc. unfold wrapper_new. destruct (bp_type config); try (intros [= <-]; cbn [bp_bounded]).
  - done.
  - by apply counters_replicate.
  - by apply counters_replicate.
  - unfold tage_predictor_new. destruct (tage_new _) as [t|] eqn:Et; [|done]. cbn [mbind option_bind].
    destruct (ghr_with_len _); [|done]. intros [= <-]. by apply tage_new_bounded.
  - split; [by apply counters_replicate|]. split; by apply counters_replicate.
  - unfold sc_l_tage_new. destruct (tage_new _) as [t|] eqn:Et; [|done]. cbn [mbind option_bind].
    destruct (ghr_with_len _); [|done]. cbn [mbind option_bind]. destruct (sc_new _) as [sc|] eqn:Es; [|done]. cbn [mbind option_bind].
    destruct (ittage_new _) as [it|] eqn:Ei; [|done]. intros [= <-].
    split; [by apply tage_new_bounded|]. split; [by apply ittage_new_bounded|].
    split; [by apply Forall_replicate|]. by eapply sc_new_bounded.
Qed.

Lemma clamp_weight_within v : within (-128) 127 (clamp_weight v).
Proof. unfold within, clamp_weight. repeat case_bool; to_prop; lia. Qed.

Lemma pp_train_bounded (b : PerceptronPredictor) n base t :
  counters n (-128) 127 (pp_table b) -> counters n (-128) 127 (pp_table (pp_train b base t)).
Proof.
  intros Hb. unfold pp_train. cbv zeta. match goal with |- counters _ _ _ ?l => let l' := eval hnf in l in change (counters n (-128) 127 l') end.
  assert (counters n (-128) 127 (at_index (fun v => clamp_weight (v + t)) base (pp_table b))) as Ha
    by (apply at_index_counters; [intros; apply clamp_weight_within|done]).
  revert Ha. generalize (at_index (fun v => clamp_weight (v + t)) base (pp_table b)).
  induction (seq 0 (pp_history_length b)) as [|i l IH]; intros tb Htb; [done|]. simpl. apply IH.
  apply at_index_counters; [intros; apply clamp_weight_within|done].
Qed.
Lemma pp_update_bounded (b : PerceptronPredictor) n pc taken target g :
  counters n (-128) 127 (pp_table b) -> counters n (-128) 127 (pp_table (pp_update_branch b pc taken target g)).
Proof. intros Hb. unfold pp_update_branch. cbv zeta. destruct (_ || _); [|exact Hb]. by apply pp_train_bounded. Qed.

Lemma bp_step_bounded (p p' : BranchPredictorWrapper) : bp_bounded p -> bp_step p p' -> bp_bounded p'.
Proof.
  intros Hb Hs. destruct Hs as [pc|pc taken target g| | |pc taken|g| | |]; destruct p as [b|b|b|b|b|b]; try exact Hb.
  - simpl. unfold sl_predict_branch. destruct (loop_predict _ _); [exact Hb|]. destruct (sc_predict _ _ _ _). exact Hb.
  - cbn. apply at_index_counters; [|exact Hb]. intros. by apply count_within.
  - destruct Hb as (Hg & Hc & Hl). cbn. unfold tn_update_branch, tn_train_choice. cbv zeta.
    destruct (eqb (eqb _ _) _); (split; [|split]);
      first [exact Hc|apply at_index_counters; [intros; by apply count_within|assumption]].
  - simpl. unfold tp_update_branch. pose proof (tage_update_bounded _ _ (tp_tage b) pc taken (tp_commit_ghr b) Hb) as H.
    destruct (tage_update _ _ _ _) as [r t]. exact H.
  - apply pp_update_bounded. exact Hb.
  - simpl. unfold sl_update_branch. cbv zeta. destruct Hb as (Ht & Hi & Hl & Hsc).
    set (b1 := b <| sl_loop_pred := _ |>). pose proof (tage_update_bounded _ _ (sl_tage b) pc taken (sl_commit_ghr b) Ht) as Ht'.
    change (sl_tage b1) with (sl_tage b). change (sl_commit_ghr b1) with (sl_commit_ghr b).
    destruct (tage_update _ _ _ _) as [r t]. destruct (sl_sc_meta b1 pc (tu_meta r)) as [m sum].
    split; [by destruct target|]. split; [destruct target; [by apply ittage_update_bounded|done]|].
    split; [destruct target; by apply loop_update_bounded|]. destruct target; by apply sc_update_bounded.
Qed.

(** C33. Every counter stays within its bits.  In every state the branch unit
    can reach, the two-bit counters of GShare and of the tournament predictor
    are in 0..3, the perceptron's weights in -128..127, TAGE's bimodal counters
    in -2..1, the counters of its entries in -4..3 with useful bits in 0..3, the
    choice counter in -8..7, the useful bits of ITTAGE in 0..3 and the loop
    predictor's confidence in 0..3; and no table changes its size.  The counters
    of the statistical corrector, configured with one to eight bits and an
    initial threshold of at most 63, are within their widths, its threshold
    within 0..511 and the adjustments per branch within -16..15 (the comment on
    that field says -8..7). *)
Theorem bp_counters_bounded (p : BranchPredictorWrapper) :
  sc_ok (bp_sc config) -> bp_reach config p -> bp_bounded p.
Proof. intros Hsc. induction 1; eauto using bp_new_bounded, bp_step_bounded. Qed.
End Bounded.

Lemma bp_counters_bounded_witness :
  match demo_bp with
  | WScLTage b => core_bounded 256 4 (sl_tage b) /\ te_ctr (tc_entry (sl_tage b) 3 0) = 1
  | _ => False
  end.
Proof.
  assert (match demo_bp with WScLTage b => te_ctr (tc_entry (sl_tage b) 3 0) = 1 | _ => False end) as Hd by (vm_compute; reflexivity).
  pose proof (bp_counters_bounded demo_bp_config demo_bp ltac:(apply (bool_decide_unpack _); by vm_compute) demo_bp_reach) as Hb.
  destruct demo_bp; try done. split; [apply Hb|exact Hd].
Defined.
