(* ===== verification/Execute.v ===== *)
(** Execution of one instruction: [execute_one] of the out-of-order engine
    ([backend/o3/execute.rs]) and the batch [execute_inorder] of the in-order
    engine ([backend/inorder/execute.rs]). *)
From S2P Require Import Prelude Common Rob RenameO3 Csr Cpu Alu Isa Soc Interconnect Commit Latches Core.
Set Primitive Projections.
Local Open Scope Z_scope.

(** * Operands and results *)

Definition op_a (id : RenameIssueEntry) : Z :=
  match a_src (ri_ctrl id) with AReg1 => ri_rv1 id | APc => ri_pc id | AZero => 0 end.
Definition op_b (id : RenameIssueEntry) : Z :=
  match b_src (ri_ctrl id) with BReg2 => ri_rv2 id | BImm => u64 (ri_imm id) | BZero => 0 end.

(** The entry handed to the memory stages; [phys] is the destination register
    the engine passes on. *)
Definition ex_entry (id : RenameIssueEntry) (phys alu store_data fp_flags : Z) (sfence : option SfenceVmaInfo) : ExMem1Entry := {|
  ex_rob_tag := ri_rob_tag id; ex_pc := ri_pc id; ex_inst := ri_inst id; ex_inst_size := ri_inst_size id;
  ex_rd := ri_rd id; ex_rd_phys := phys; ex_alu := alu; ex_store_data := store_data; ex_ctrl := ri_ctrl id;
  ex_trap := None; ex_exception_stage := None; ex_fp_flags := fp_flags; ex_sfence_vma := sfence |}.

Definition next_seq (id : RenameIssueEntry) : Z := add64 (ri_pc id) (inst_size_as_u64 (ri_inst_size id)).

(** * Arithmetic ([compute_alu]) *)

Inductive alu_class := ClassInt | ClassFp | ClassConvert | ClassMoveToFp.
Definition classify_alu (op : AluOp) : alu_class :=
  match op with
  | FCvtSW | FCvtSL | FCvtSWU | FCvtSLU | FCvtSD | FCvtDS => ClassConvert
  | FMvToF => ClassMoveToFp
  | FAdd | FSub | FMul | FDiv | FSqrt | FMin | FMax | FMAdd | FMSub | FNMAdd | FNMSub
  | FSgnJ | FSgnJN | FSgnJX | FEq | FLt | FLe | FClass | FCvtWS | FCvtWUS | FCvtLS | FCvtLUS | FMvToX => ClassFp
  | _ => ClassInt
  end.
Definition NAN_BOX_MASK : Z := 0xFFFFFFFF00000000.
Definition compute_alu `{!FpUnit} (op : AluOp) (a b c : Z) (is_rv32 : bool) : Z * Z :=
  match classify_alu op with
  | ClassConvert => fpu_convert op a is_rv32
  | ClassMoveToFp => (if is_rv32 then Z.lor (u32 a) NAN_BOX_MASK else a, 0)
  | ClassFp => fpu_execute_full op a b c is_rv32
  | ClassInt => (alu_execute op a b c is_rv32, 0)
  end.

(** * Control flow *)

Definition branch_taken (inst a b : Z) : bool :=
  let f3 := Z.land (Z.shiftr inst 12) 7 in
  if f3 =? BEQ then a =? b
  else if f3 =? BNE then negb (a =? b)
  else if f3 =? BLT then as_signed 64 a <? as_signed 64 b
  else if f3 =? BGE then as_signed 64 b <=? as_signed 64 a
  else if f3 =? BLTU then a <? b
  else if f3 =? BGEU then b <=? a
  else false.

(** The address fetched after the instruction, according to the prediction. *)
Definition predicted_next (id : RenameIssueEntry) : Z := if ri_pred_taken id then ri_pred_target id else next_seq id.

Definition is_link (r : Z) : bool := (r =? 1) || (r =? 5).
Definition is_jalr (id : RenameIssueEntry) : bool := Z.land (ri_inst id) 0x7F =? OP_JALR.
Definition jump_target (id : RenameIssueEntry) : Z :=
  if is_jalr id then Z.land (add64 (ri_rv1 id) (ri_imm id)) (not64 1) else add64 (ri_pc id) (ri_imm id).

Section Execute.
Context {X M P : Type} `{!BranchUnit P} `{!FpUnit}.
Local Abbreviation core := (Core X M P).

Definition count_prediction (mispredicted : bool) (s : PipeStats) : PipeStats :=
  if mispredicted
  then s <| speculative_branch_mispredictions := add64 (speculative_branch_mispredictions s) 1 |>
  else s <| speculative_branch_predictions := add64 (speculative_branch_predictions s) 1 |>.

(** [(needs_flush, cpu, rob)] *)
Definition resolve_branch (id : RenameIssueEntry) (c : core) (rob : Rob) : bool * core * Rob :=
  let taken := branch_taken (ri_inst id) (op_a id) (op_b id) in
  let actual_target := add64 (ri_pc id) (ri_imm id) in
  let actual_next_pc := if taken then actual_target else next_seq id in
  let mispredicted := negb (predicted_next id =? actual_next_pc) in
  let rob := rob_set_bp_update rob (ri_rob_tag id) (ri_pc id)
               {| bp_taken := taken; bp_mispredicted := mispredicted |}
               (if taken then Some actual_target else None) (ri_ghr_snapshot id) in
  let c := if mispredicted then
             let c := upd_predictor (fun p => restore_ras (speculate (repair_history p (ri_ghr_snapshot id)) (ri_pc id) taken)
                                                (ri_ras_snapshot id)) c in
             redirect actual_next_pc (count (count_prediction true) c)
           else count (count_prediction false) c in
  (mispredicted, c, rob).

Definition resolve_jump (id : RenameIssueEntry) (c : core) (rob : Rob) : bool * core * Rob :=
  let rd_link := is_link (ri_rd id) in
  let rs1_link := is_jalr id && is_link (ri_rs1 id) in
  let actual_target := jump_target id in
  let mispredicted := negb (actual_target =? predicted_next id) in
  let rob := rob_set_bp_target rob (ri_rob_tag id) actual_target in
  let c := if rd_link then c else upd_predictor (fun p => update_btb p (ri_pc id) actual_target) c in
  let c := if mispredicted then
             let c := upd_predictor (fun p => restore_ras (repair_history p (ri_ghr_snapshot id)) (ri_ras_snapshot id)) c in
             redirect actual_target (count (count_prediction true) c)
           else count (count_prediction false) c in
  let ret_addr := next_seq id in
  let call p := on_call p (ri_pc id) ret_addr actual_target in
  let c := if rd_link && rs1_link && negb (ri_rd id =? ri_rs1 id)
           then upd_predictor (fun p => call (on_return p)) c
           else if rd_link then upd_predictor call c
           else if rs1_link then upd_predictor on_return c
           else c in
  (mispredicted, c, rob).

Definition resolve_control (id : RenameIssueEntry) (c : core) (rob : Rob) : bool * core * Rob :=
  match control_flow (ri_ctrl id) with
  | Branch => resolve_branch id c rob
  | Jump => resolve_jump id c rob
  | Sequential => (false, c, rob)
  end.

(** * System instructions *)

Definition illegal_inst (id : RenameIssueEntry) (rob : Rob) : Rob :=
  rob_fault rob (ri_rob_tag id) (IllegalInstruction (ri_inst id)) StageExecute.

(** The privilege tests of the returns, [WFI] and [SFENCE.VMA]. *)
Definition system_denied (op : SystemOp) (h : Cpu) : bool :=
  let st := mstatus (csrs h) in
  let in_s := bool_decide (privilege h = Supervisor) in
  match op with
  | Mret => negb (bool_decide (privilege h = Common.Machine))
  | Sret => bool_decide (privilege h = User) || (in_s && bit_at st 22)
  | Wfi => bool_decide (privilege h = User) || (in_s && bit_at st 21)
  | SfenceVma => in_s && bit_at st 20
  | _ => false
  end.

Definition ecall_trap (p : PrivilegeMode) : Trap :=
  match p with
  | User => EnvironmentCallFromUMode
  | Supervisor => EnvironmentCallFromSMode
  | Common.Machine => EnvironmentCallFromMMode
  end.

(** ** CSR instructions *)

Definition csr_privilege_level (addr : Z) : Z := Z.land (Z.shiftr addr 8) 3.
Definition csr_is_read_only (addr : Z) : bool := Z.land (Z.shiftr addr 10) 3 =? 3.

Definition would_write (id : RenameIssueEntry) : bool :=
  match csr_op (ri_ctrl id) with
  | Rw | Rwi => true
  | Rs | Rc => negb (reg_is_zero (ri_rs1 id))
  | Rsi | Rci => negb (Z.land (ri_rs1 id) 0x1f =? 0)
  | CsrNone => false
  end.

Definition counter_bit (addr : Z) : option Z :=
  if addr =? CSR_CYCLE then Some 0 else if addr =? CSR_TIME then Some 1 else if addr =? CSR_INSTRET then Some 2 else None.
Definition counter_denied (addr : Z) (h : Cpu) : bool :=
  match counter_bit addr with
  | None => false
  | Some bit =>
      let off en := Z.land en (shl64 1 bit) =? 0 in
      match privilege h with
      | Supervisor => off (mcounteren (csrs h))
      | User => off (mcounteren (csrs h)) || off (scounteren (csrs h))
      | Common.Machine => false
      end
  end.

(** The four tests before the access. *)
Definition csr_denied (id : RenameIssueEntry) (h : Cpu) : bool :=
  let addr := csr_addr (ri_ctrl id) in
  ((addr =? CSR_SATP) && bool_decide (privilege h = Supervisor) && bit_at (mstatus (csrs h)) 20)
  || counter_denied addr h
  || (priv_to_u8 (privilege h) <? csr_privilege_level addr)
  || (csr_is_read_only addr && would_write id).

Definition reads_fp_csr (addr : Z) : bool := (addr =? CSR_FFLAGS) || (addr =? CSR_FCSR) || (addr =? CSR_FRM).

Definition csr_src (id : RenameIssueEntry) : Z :=
  match csr_op (ri_ctrl id) with Rwi | Rsi | Rci => Z.land (ri_rs1 id) 0x1f | _ => ri_rv1 id end.
Definition csr_new (op : CsrOp) (old src : Z) : Z :=
  match op with
  | Rw | Rwi => src
  | Rs | Rsi => Z.lor old src
  | Rc | Rci => Z.land old (not64 src)
  | CsrNone => old
  end.

(** Reading [time] divides by [clint_divider]. *)
Definition time_panics (addr : Z) (h : Cpu) : bool := (addr =? CSR_TIME) && (clint_divider h =? 0).
Definition panic_core (c : core) : core :=
  upd_machine (fun m => m <| bus := (bus m) <| shared := fail (shared (bus m)) |> |>) c.

(** The access itself: the accrued flags of older instructions (and [extra])
    become visible first, the write is left to commit.  [(old, cpu, rob)] *)
Definition csr_access (id : RenameIssueEntry) (extra : Z) (c : core) (rob : Rob) : Z * core * Rob :=
  let addr := csr_addr (ri_ctrl id) in
  let '(c, rob) :=
    if reads_fp_csr addr then
      let '(rob, acc) := rob_drain_fp_flags_before rob (ri_rob_tag id) in
      (upd_hart (fun h => h <| csrs := (csrs h) <| fflags := Z.lor (fflags (csrs h)) (Z.lor acc extra) |> |>) c, rob)
    else (c, rob) in
  let c := if time_panics addr (hart c) then panic_core c else c in
  let old := csr_read (hart c) addr in
  let new := csr_new (csr_op (ri_ctrl id)) old (csr_src id) in
  let rob := if would_write id
             then rob_set_csr_update rob (ri_rob_tag id)
                    {| cu_addr := addr; cu_old_val := old; cu_new_val := new; cu_applied := false |}
             else rob in
  (old, c, rob).

(** ** [execute_one] *)

Definition exec_result : Type := ExMem1Entry * bool * core * Rob.

Definition execute_csr (c : core) (id : RenameIssueEntry) (rob : Rob) : exec_result :=
  if csr_denied id (hart c) then (ex_entry id (ri_rd_phys id) 0 0 0 None, true, c, illegal_inst id rob) else
  let '(old, c, rob) := csr_access id 0 c rob in
  let needs_flush := would_write id in
  let c := if needs_flush then redirect (next_seq id) c else c in
  (ex_entry id (ri_rd_phys id) old (ri_rv2 id) 0 None, needs_flush, c, rob).

Definition sfence_info (id : RenameIssueEntry) : SfenceVmaInfo :=
  {| rs1_idx := ri_rs1 id; rs2_idx := ri_rs2 id; rs1_val := ri_rv1 id; rs2_val := ri_rv2 id |}.

Definition execute_system (c : core) (id : RenameIssueEntry) (rob : Rob) : exec_result :=
  let op := system_op (ri_ctrl id) in
  let plain (rob : Rob) : exec_result := (ex_entry id (ri_rd_phys id) 0 0 0 None, true, c, rob) in
  let denied := system_denied op (hart c) in
  match op with
  | Mret | Sret | Wfi => plain (if denied then illegal_inst id rob else rob)
  | SfenceVma =>
      if denied then (ex_entry id (ri_rd_phys id) 0 (ri_rv2 id) 0 None, true, c, illegal_inst id rob)
      else (ex_entry id (ri_rd_phys id) 0 (ri_rv2 id) 0 (Some (sfence_info id)), false, c, rob)
  | _ =>
      if ri_inst id =? ECALL then plain (rob_fault rob (ri_rob_tag id) (ecall_trap (privilege (hart c))) StageExecute)
      else match csr_op (ri_ctrl id) with CsrNone => plain rob | _ => execute_csr c id rob end
  end.

(** FP instructions trap when [mstatus.FS] is off. *)
Definition fp_off (id : RenameIssueEntry) (h : Cpu) : bool :=
  let ctrl := ri_ctrl id in
  (Z.shiftr (Z.land (mstatus (csrs h)) MSTATUS_FS) 13 =? 0)
  && (fp_reg_write ctrl || rs1_fp ctrl || rs2_fp ctrl || rs3_fp ctrl).

Definition execute_one (c : core) (id : RenameIssueEntry) (rob : Rob) : exec_result :=
  let phys := ri_rd_phys id in
  match ri_trap id with
  | Some trap =>
      (ex_entry id phys 0 0 0 None, true, c, rob_fault rob (ri_rob_tag id) trap (default StageExecute (ri_exception_stage id)))
  | None =>
      let op := system_op (ri_ctrl id) in
      if decide (op = FenceI) then (ex_entry id phys 0 0 0 None, true, redirect (next_seq id) c, rob)
      else if negb (bool_decide (op = SysNone)) && negb (bool_decide (op = Fence)) then execute_system c id rob
      else if fp_off id (hart c) then (ex_entry id phys 0 0 0 None, true, c, illegal_inst id rob)
      else
        let '(alu_out, fp_flags) := compute_alu (alu (ri_ctrl id)) (op_a id) (op_b id) (ri_rv3 id) (is_rv32 (ri_ctrl id)) in
        let '(needs_flush, c, rob) := resolve_control id c rob in
        (ex_entry id phys alu_out (ri_rv2 id) fp_flags None, needs_flush, c, rob)
  end.

(** * The in-order batch *)

(** A [continue] without a result; the in-order engine has no physical registers. *)
Definition inorder_plain (id : RenameIssueEntry) (flush : bool) (c : core) (rob : Rob) : exec_result :=
  (ex_entry id 0 0 0 0 None, flush, c, rob).

(** Arithmetic, branches and jumps. *)
Definition execute_inorder_arith (c : core) (id : RenameIssueEntry) (rob : Rob) : exec_result :=
  if fp_off id (hart c) then inorder_plain id true c (illegal_inst id rob)
  else
    let '(alu_out, fp_flags) := compute_alu (alu (ri_ctrl id)) (op_a id) (op_b id) (ri_rv3 id) (is_rv32 (ri_ctrl id)) in
    let '(needs_flush, c, rob) := resolve_control id c rob in
    (ex_entry id 0 alu_out (ri_rv2 id) fp_flags None, needs_flush, c, rob).

(** CSR instructions; [extra] are the FP flags in the latches and of the
    instructions executed before in the same call. *)
Definition execute_inorder_csr (extra : Z) (c : core) (id : RenameIssueEntry) (rob : Rob) : exec_result :=
  if csr_denied id (hart c) then inorder_plain id true c (illegal_inst id rob) else
  let '(old, c, rob) := csr_access id extra c rob in
  (ex_entry id 0 old (ri_rv2 id) 0 None, true, redirect (next_seq id) c, rob).

(** System instructions; those that are neither ECALL nor a CSR access go on to
    arithmetic. *)
Definition execute_inorder_system (extra : Z) (c : core) (id : RenameIssueEntry) (rob : Rob) : exec_result :=
  let op := system_op (ri_ctrl id) in
  let denied := system_denied op (hart c) in
  match op with
  | Mret | Sret | Wfi => inorder_plain id true c (if denied then illegal_inst id rob else rob)
  | SfenceVma =>
      if denied then inorder_plain id true c (illegal_inst id rob)
      else (ex_entry id 0 0 (ri_rv2 id) 0 (Some (sfence_info id)), true, redirect (next_seq id) c, rob)
  | _ =>
      if ri_inst id =? ECALL
      then inorder_plain id true c (rob_fault rob (ri_rob_tag id) (ecall_trap (privilege (hart c))) StageExecute)
      else match csr_op (ri_ctrl id) with
           | CsrNone => execute_inorder_arith c id rob
           | _ => execute_inorder_csr extra c id rob
           end
  end.

(** The loop body up to the [continue] or the end of the iteration; [batch] are
    the FP flags of the instructions executed before it in the same call. *)
Definition execute_inorder_one (inflight batch : Z) (c : core) (id : RenameIssueEntry) (rob : Rob)
    : exec_result :=
  match ri_trap id with
  | Some trap =>
      inorder_plain id true c (rob_fault rob (ri_rob_tag id) trap (default StageExecute (ri_exception_stage id)))
  | None =>
      match system_op (ri_ctrl id) with
      | FenceI => inorder_plain id true (redirect (next_seq id) c) rob
      | SysNone | Fence => execute_inorder_arith c id rob
      | _ => execute_inorder_system (Z.lor inflight batch) c id rob
      end
  end.

Record Batch := {
  bt_core : core; bt_rob : Rob; bt_results : list ExMem1Entry; bt_flush : bool; bt_fp_flags : Z
}.
Definition execute_inorder_body (inflight : Z) (id : RenameIssueEntry) (st : Batch) : flow Batch Batch :=
  if bt_flush st then Return st else
  let '(entry, flush, c, rob) := execute_inorder_one inflight (bt_fp_flags st) (bt_core st) id (bt_rob st) in
  Continue {| bt_core := c; bt_rob := rob; bt_results := bt_results st ++ [entry]; bt_flush := flush;
              bt_fp_flags := Z.lor (bt_fp_flags st) (ex_fp_flags entry) |}.
Definition execute_inorder (c : core) (entries : list RenameIssueEntry) (rob : Rob) (inflight : Z)
    : list ExMem1Entry * bool * core * Rob :=
  let st := after_loop (list_scan (execute_inorder_body inflight) entries
              {| bt_core := c; bt_rob := rob; bt_results := []; bt_flush := false; bt_fp_flags := 0 |}) (fun st => st) in
  (bt_results st, bt_flush st, bt_core st, bt_rob st).

End Execute.
