(* ===== verification/ExecuteSpec.v ===== *)
(** What execution computes: the integer instruction set as a function of the
    register values, the rules of CSR access, and how the two engines agree. *)
From S2P Require Import Prelude BitField Common Rob RobSpec RobProps RenameO3 Csr Cpu Alu Isa Decode DecodeSpec Dram Commit CommitProps Latches Mshr Core Execute.
Local Open Scope Z_scope.

(** * The integer instructions *)

(** The instruction [i], encoded as [w], as rename hands it to execution. *)
Record issued_as (i : instr) (w : Z) (id : RenameIssueEntry) : Prop := {
  is_ok : instr_ok i;
  is_word : encode i = Some w;
  is_inst : ri_inst id = w;
  is_ctrl : ri_ctrl id = signals i;
  is_rd : ri_rd id = d_rd (decode w);
  is_rs1 : ri_rs1 id = d_rs1 (decode w);
  is_imm : ri_imm id = d_imm (decode w);
  is_trap : ri_trap id = None;
  is_pc : in_width 64 (ri_pc id);
  is_rv1 : in_width 64 (ri_rv1 id);
  is_rv2 : in_width 64 (ri_rv2 id)
}.

Definition bcond_holds (c : bcond) (a b : Z) : Prop :=
  match c with
  | Beq => a = b | Bne => a <> b
  | Blt => as_signed 64 a < as_signed 64 b | Bge => as_signed 64 b <= as_signed 64 a
  | Bltu => a < b | Bgeu => b <= a
  end.
#[export] Instance bcond_dec c a b : Decision (bcond_holds c a b).
Proof. destruct c; simpl; apply _. Defined.

(** The value written to [rd]; [a] and [b] are the values of [rs1] and [rs2],
    [size] the length of the instruction. *)
Definition isa_value (i : instr) (pc size a b : Z) : option Z :=
  match i with
  | I_Lui _ imm => Some (imm mod 2 ^ 64)
  | I_Auipc _ imm => Some ((pc + imm) mod 2 ^ 64)
  | I_Jal _ _ | I_Jalr _ _ _ => Some ((pc + size) mod 2 ^ 64)
  | I_OpImm op word _ _ imm => Some (alu_execute op a (imm mod 2 ^ 64) 0 word)
  | I_ShiftImm op word _ _ shamt => Some (alu_execute op a shamt 0 word)
  | I_Op op word _ _ _ => Some (alu_execute op a b 0 word)
  | _ => None
  end.

(** The address of the next instruction. *)
Definition isa_next (i : instr) (pc size a b : Z) : Z :=
  match i with
  | I_Jal _ imm => (pc + imm) mod 2 ^ 64
  | I_Jalr _ _ imm => let t := (a + imm) mod 2 ^ 64 in t - t mod 2
  | I_Branch c _ _ imm => if decide (bcond_holds c a b) then (pc + imm) mod 2 ^ 64 else (pc + size) mod 2 ^ 64
  | _ => (pc + size) mod 2 ^ 64
  end.

(** The address and the data of a memory access. *)
Definition isa_address (i : instr) (a : Z) : option Z :=
  match i with
  | I_Load _ _ _ _ imm | I_Store _ _ _ imm => Some ((a + imm) mod 2 ^ 64)
  | I_Amo _ _ _ _ _ _ => Some a
  | _ => None
  end.

Definition is_integer (i : instr) : bool :=
  match i with
  | I_Lui _ _ | I_Auipc _ _ | I_Jal _ _ | I_Jalr _ _ _ | I_Branch _ _ _ _ | I_Load _ _ _ _ _ | I_Store _ _ _ _
  | I_OpImm _ _ _ _ _ | I_ShiftImm _ _ _ _ _ | I_Op _ _ _ _ _ | I_Amo _ _ _ _ _ _ | I_Fence _ _ _ => true
  | _ => false
  end.

Lemma branch_cond_ok c r1 r2 imm w a b :
  instr_ok (I_Branch c r1 r2 imm) -> encode (I_Branch c r1 r2 imm) = Some w ->
  branch_taken w a b = bool_decide (bcond_holds c a b).
Proof.
  intros (H1 & H2 & H3) [= <-]. unfold branch_taken. fold (funct3 (b_type imm r2 r1 (bcond_funct3 c) 0x63)).
  destruct (b_type_fields r1 r2 (bcond_funct3 c) 0x63 imm) as (_ & _ & _ & _ & -> & _); [done..|by destruct c|done|done|].
  destruct c; simpl; case_bool_decide; rewrite ?negb_true_iff, ?negb_false_iff, ?Z.eqb_eq, ?Z.eqb_neq, ?Z.ltb_lt,
    ?Z.ltb_ge, ?Z.leb_le, ?Z.leb_gt; lia || congruence.
Qed.

(** * [execute_one] on integer instructions *)

Lemma integer_signals i w :
  is_integer i = true -> encode i = Some w ->
  let s := signals i in
  (system_op s = SysNone \/ system_op s = Fence) /\ classify_alu (alu s) = ClassInt /\
  fp_reg_write s = false /\ rs1_fp s = false /\ rs2_fp s = false /\ rs3_fp s = false.
Proof.
  intros Hi He. destruct i; try done; cbv zeta.
  all: try (split_and!; first [done | by left | by right]).
  all: simpl in He; match goal with op : AluOp |- _ => destruct op; try discriminate He end;
    split_and!; first [done | by left].
Qed.

Section Integer.
Context {X M P : Type} `{!BranchUnit P} `{!FpUnit}.
Local Abbreviation core := (Core X M P).

Lemma execute_one_integer i w id (c : core) rob :
  is_integer i = true -> issued_as i w id ->
  execute_one c id rob =
  let alu_out := alu_execute (alu (signals i)) (op_a id) (op_b id) (ri_rv3 id) (is_rv32 (signals i)) in
  let '(f, c', rob') := resolve_control id c rob in
  (ex_entry id (ri_rd_phys id) alu_out (ri_rv2 id) 0 None, f, c', rob').
Proof.
  intros Hi [_ He _ Hc _ _ _ Ht _ _ _]. destruct (integer_signals i w Hi He) as (Hs & Hk & F1 & F2 & F3 & F4).
  unfold execute_one. rewrite Ht. unfold compute_alu, fp_off. rewrite Hc, Hk, F1, F2, F3, F4, andb_false_r.
  by destruct Hs as [-> | ->].
Qed.

(** The redirection of a resolved branch or jump. *)
Definition redirects (c c' : core) (flush : bool) (next : Z) : Prop :=
  pc (hart c') = (if flush then next else pc (hart c)) /\
  redirect_pending (machine c') = flush || redirect_pending (machine c).

Lemma resolve_branch_spec id (c : core) rob :
  let taken := branch_taken (ri_inst id) (op_a id) (op_b id) in
  let next := if taken then add64 (ri_pc id) (ri_imm id) else next_seq id in
  let flush := negb (predicted_next id =? next) in
  exists c', redirects c c' flush next /\
    resolve_branch id c rob =
    (flush, c', rob_set_bp_update rob (ri_rob_tag id) (ri_pc id) {| bp_taken := taken; bp_mispredicted := flush |}
                  (if taken then Some next else None) (ri_ghr_snapshot id)).
Proof.
  cbv zeta. unfold resolve_branch. destruct (branch_taken _ _ _); eexists; (split; [|reflexivity]);
    destruct (negb _); done.
Qed.

Lemma resolve_jump_spec id (c : core) rob :
  let next := jump_target id in
  let flush := negb (predicted_next id =? next) in
  exists c', redirects c c' flush next /\
    resolve_jump id c rob = (flush, c', rob_set_bp_target rob (ri_rob_tag id) next).
Proof.
  cbv zeta. unfold resolve_jump. rewrite (Z.eqb_sym (jump_target id)). eexists. split; [|reflexivity].
  destruct (is_link (ri_rd id)), (is_jalr id && is_link (ri_rs1 id)), (ri_rd id =? ri_rs1 id),
    (predicted_next id =? jump_target id); done.
Qed.

End Integer.

Lemma jump_target_ok d r1 imm w id :
  issued_as (I_Jalr d r1 imm) w id -> jump_target id = isa_next (I_Jalr d r1 imm) (ri_pc id) (inst_size_as_u64 (ri_inst_size id)) (ri_rv1 id) (ri_rv2 id).
Proof.
  intros H. pose proof (encode_decodes _ _ (is_ok _ _ _ H) (is_word _ _ _ H)) as (_ & _ & (_ & _ & _ & _ & Him & _)).
  cbn [operands_of o_imm agrees] in Him. destruct H as [(H1 & H2 & H3) [= <-] Hw _ _ _ Hi _ _ _ _].
  unfold jump_target, is_jalr. rewrite Hw, Hi, Him. fold (opcode (i_type imm r1 0 d 0x67)).
  destruct (i_type_fields r1 0 d 0x67 imm) as (_ & -> & _); [done..|].
  simpl. unfold add64. set (t := u64 (ri_rv1 id + imm)). assert (in_width 64 t) as Ht by (apply wrap_range; lia).
  change (not64 1) with (not64 (2 ^ 1 - 1)). rewrite land_align_down by (done || lia). change (2 ^ 1) with 2.
  change ((ri_rv1 id + imm) mod 2 ^ 64) with t. pose proof (Z.div_mod t 2). lia.
Qed.
Lemma jump_target_jal d imm w id :
  issued_as (I_Jal d imm) w id -> jump_target id = (ri_pc id + imm) mod 2 ^ 64.
Proof.
  intros H. pose proof (encode_decodes _ _ (is_ok _ _ _ H) (is_word _ _ _ H)) as (_ & _ & (_ & _ & _ & _ & Him & _)).
  cbn [operands_of o_imm agrees] in Him. destruct H as [(H1 & H2) [= <-] Hw _ _ _ Hi _ _ _ _].
  unfold jump_target, is_jalr. rewrite Hw, Hi, Him. fold (opcode (j_type imm d 0x6f)).
  by destruct (j_type_fields d 0x6f imm) as (_ & -> & _).
Qed.

(** The shifter reads only the low bits of its amount. *)
Lemma shift_amount (op : AluOp) (word : bool) (a b shamt : Z) :
  shift_functs op <> None -> wrap (if word then 5 else 6) b = shamt ->
  alu_execute op a (u64 b) 0 word = alu_execute op a shamt 0 word.
Proof.
  intros Hop <-.
  assert (H6 : Z.land (u64 b) SHAMT_MASK_RV64 = Z.land (wrap 6 b) SHAMT_MASK_RV64).
  { change SHAMT_MASK_RV64 with (2 ^ 6 - 1). rewrite !land_low_mask by lia.
    change (wrap 6 (u64 b) = wrap 6 (wrap 6 b)). by rewrite !wrap_wrap by lia. }
  assert (H5 : Z.land (u32 (u64 b)) SHAMT_MASK_RV32 = Z.land (u32 (wrap 5 b)) SHAMT_MASK_RV32).
  { change SHAMT_MASK_RV32 with (2 ^ 5 - 1). rewrite !land_low_mask by lia.
    change (wrap 5 (u32 (u64 b)) = wrap 5 (u32 (wrap 5 b))). by rewrite !wrap_wrap by lia. }
  destruct word, op; try (by destruct Hop); simpl; unfold shifts_execute; by rewrite ?H5, ?H6.
Qed.

Section Theorems.
Context {X M P : Type} `{!BranchUnit P} `{!FpUnit}.
Local Abbreviation core := (Core X M P).

(** What is recorded in the reorder buffer for the predictors and for commit. *)
Definition recorded (i : instr) (id : RenameIssueEntry) (flush : bool) (next : Z) (rob : Rob) : Rob :=
  match i with
  | I_Branch c _ _ _ =>
      let taken := bool_decide (bcond_holds c (ri_rv1 id) (ri_rv2 id)) in
      rob_set_bp_update rob (ri_rob_tag id) (ri_pc id) {| bp_taken := taken; bp_mispredicted := flush |}
        (if taken then Some next else None) (ri_ghr_snapshot id)
  | I_Jal _ _ | I_Jalr _ _ _ => rob_set_bp_target rob (ri_rob_tag id) next
  | _ => rob
  end.

Definition predicted_wrong (i : instr) (id : RenameIssueEntry) (next : Z) : bool :=
  match i with I_Jal _ _ | I_Jalr _ _ _ | I_Branch _ _ _ _ => negb (predicted_next id =? next) | _ => false end.

Lemma execute_integer_control i w id (c : core) rob :
  is_integer i = true -> issued_as i w id ->
  let next := isa_next i (ri_pc id) (inst_size_as_u64 (ri_inst_size id)) (ri_rv1 id) (ri_rv2 id) in
  let flush := predicted_wrong i id next in
  exists c', redirects c c' flush next /\ resolve_control id c rob = (flush, c', recorded i id flush next rob).
Proof.
  intros Hi Hd next flush. unfold resolve_control. rewrite (is_ctrl _ _ _ Hd).
  pose proof (encode_decodes _ _ (is_ok _ _ _ Hd) (is_word _ _ _ Hd)) as (_ & _ & (_ & _ & _ & _ & Him & _)).
  rewrite <-(is_imm _ _ _ Hd) in Him.
  destruct i; try done; cbn [signals control_flow]; try (exists c; by split); cbn [operands_of o_imm agrees] in Him.
  - destruct (resolve_jump_spec id c rob) as (c' & Hr & ->). rewrite (jump_target_jal _ _ _ _ Hd) in *. by exists c'.
  - destruct (resolve_jump_spec id c rob) as (c' & Hr & ->). rewrite (jump_target_ok _ _ _ _ _ Hd) in *. by exists c'.
  - destruct (resolve_branch_spec id c rob) as (c' & Hr & ->).
    assert (Ea : op_a id = ri_rv1 id) by (unfold op_a; by rewrite (is_ctrl _ _ _ Hd)).
    assert (Eb : op_b id = ri_rv2 id) by (unfold op_b; by rewrite (is_ctrl _ _ _ Hd)).
    rewrite Ea, Eb, (is_inst _ _ _ Hd), (branch_cond_ok _ _ _ _ _ _ _ (is_ok _ _ _ Hd) (is_word _ _ _ Hd)) in *.
    exists c'. subst flush next. unfold recorded, predicted_wrong, isa_next. rewrite Him in *.
    unfold next_seq, add64 in *. case_decide; rewrite ?bool_decide_eq_true_2, ?bool_decide_eq_false_2 in * by done; done.
Qed.

(** C4. Execution implements the integer instruction set.  For every integer
    instruction of RV64IMA (arithmetic, jumps, branches, loads, stores,
    atomics, FENCE), decoded from its encoding and issued with its register
    values, [execute_one] produces the value the architecture defines for [rd],
    or the address and data of the access; it asks for a flush exactly when the
    front end predicted another successor, and then redirects the front end to
    the architectural one; and the reorder buffer records the outcome, never a
    fault. *)
Theorem execute_one_implements_isa i w id (c : core) rob :
  is_integer i = true -> issued_as i w id ->
  let size := inst_size_as_u64 (ri_inst_size id) in
  let next := isa_next i (ri_pc id) size (ri_rv1 id) (ri_rv2 id) in
  let '(e, flush, c', rob') := execute_one c id rob in
  (forall v, isa_value i (ri_pc id) size (ri_rv1 id) (ri_rv2 id) = Some v ->
     alu_or_link (ex_ctrl e) (ex_pc e) (ex_inst_size e) (ex_alu e) = v) /\
  (forall v, isa_address i (ri_rv1 id) = Some v -> ex_alu e = v /\ ex_store_data e = ri_rv2 id) /\
  flush = predicted_wrong i id next /\ redirects c c' flush next /\ rob' = recorded i id flush next rob /\
  ex_rob_tag e = ri_rob_tag id /\ ex_rd_phys e = ri_rd_phys id /\ ex_trap e = None.
Proof.
  intros Hi Hd size next. rewrite (execute_one_integer i w id c rob Hi Hd).
  destruct (execute_integer_control i w id c rob Hi Hd) as (c' & Hr & ->). cbv zeta.
  split_and!; try done.
  - pose proof (encode_decodes _ _ (is_ok _ _ _ Hd) (is_word _ _ _ Hd)) as (_ & _ & (_ & _ & _ & _ & Him & Hsh)).
    rewrite <-(is_imm _ _ _ Hd) in Him. cbn [ex_entry ex_ctrl ex_pc ex_inst_size ex_alu]. unfold alu_or_link.
    rewrite (is_ctrl _ _ _ Hd).
    assert (Hab : op_a id = match a_src (signals i) with AReg1 => ri_rv1 id | APc => ri_pc id | AZero => 0 end /\
                  op_b id = match b_src (signals i) with BReg2 => ri_rv2 id | BImm => u64 (ri_imm id) | BZero => 0 end).
    { unfold op_a, op_b. by rewrite (is_ctrl _ _ _ Hd). }
    destruct Hab as [-> ->]. intros v Hv.
    destruct i; try done; cbn [operands_of o_imm agrees] in Him; injection Hv as <-; simpl.
    + rewrite Him, Z.add_0_l. apply (wrap_idemp 64). lia.
    + rewrite Him. apply Z.add_mod_idemp_r. lia.
    + done.
    + done.
    + by rewrite Him.
    + apply shift_amount; [|by rewrite (is_imm _ _ _ Hd)]. pose proof (is_word _ _ _ Hd) as Hw. simpl in Hw.
      by destruct (shift_functs op).
    + done.
  - intros v Hv. split; [|done]. cbn [ex_entry ex_alu].
    pose proof (encode_decodes _ _ (is_ok _ _ _ Hd) (is_word _ _ _ Hd)) as (_ & _ & (_ & _ & _ & _ & Him & _)).
    rewrite <-(is_imm _ _ _ Hd) in Him. unfold op_a, op_b. rewrite (is_ctrl _ _ _ Hd).
    pose proof (is_rv1 _ _ _ Hd) as R1.
    destruct i; try done; cbn [operands_of o_imm agrees] in Him; injection Hv as <-; simpl.
    + rewrite Him. apply Z.add_mod_idemp_r. lia.
    + rewrite Him. apply Z.add_mod_idemp_r. lia.
    + rewrite Z.add_0_r. by apply wrap_small.
Qed.

End Theorems.

(** ** Witness: a taken branch that was predicted not taken *)

#[export] Instance no_branch_unit : BranchUnit unit := {|
  bu_update := no_predictor; repair_history p _ := p; speculate p _ _ := p; restore_ras p _ := p;
  update_btb p _ _ := p; on_call p _ _ _ := p; on_return p := p; repair_to_committed p := p;
  predict_branch p _ := ((false, None), p); predict_btb _ _ := None; predict_return _ := None;
  snapshot_history _ := ghr_default; snapshot_ras _ := 0 |}.
#[export] Instance no_fp_unit : FpUnit := {| fpu_execute_full _ _ _ _ _ := (0, 0); fpu_convert _ _ _ := (0, 0) |}.

Definition demo_core : Core Empty_set SimpleController unit := {|
  machine := demo_machine 0; l1d_mshrs := mshr_new 4 64; misaligned_access_trap := false;
  cache_base := 0x80000000; i_cache_line_bytes := 64; pipeline_width := 2;
  pipe_stats := pipe_stats_zero |}.

(** [bne x1, x2, +16] at 0x80000000 with different operands. *)
Definition demo_bne : instr := I_Branch Bne 1 2 16.
Definition demo_bne_word : Z := default 0 (encode demo_bne).
Definition demo_issued : RenameIssueEntry := {|
  ri_rob_tag := 1; ri_pc := 0x80000000; ri_inst := demo_bne_word; ri_inst_size := Standard;
  ri_rs1 := 1; ri_rs2 := 2; ri_rs3 := 0; ri_rd := d_rd (decode demo_bne_word); ri_imm := d_imm (decode demo_bne_word);
  ri_rv1 := 5; ri_rv2 := 7; ri_rv3 := 0; ri_rs1_tag := None; ri_rs2_tag := None; ri_rs3_tag := None;
  ri_rs1_phys := 0; ri_rs2_phys := 0; ri_rs3_phys := 0; ri_rd_phys := 0;
  ri_ctrl := signals demo_bne; ri_trap := None; ri_exception_stage := None;
  ri_pred_taken := false; ri_pred_target := 0; ri_ghr_snapshot := ghr_default; ri_ras_snapshot := 0 |}.
Definition demo_exec_rob : Rob :=
  (rob_allocate (rob_new 4) 0x80000000 demo_bne_word Standard 0 false (signals demo_bne) 0 0).1.

Lemma demo_issued_as : issued_as demo_bne demo_bne_word demo_issued.
Proof. split; try done; by vm_compute. Qed.

(** Execution redirects the front end to the branch target. *)
Lemma execute_one_implements_isa_witness :
  let '(_, flush, c', _) := execute_one demo_core demo_issued demo_exec_rob in
  flush = true /\ pc (hart c') = 0x80000010 /\ redirect_pending (machine c') = true.
Proof.
  pose proof (execute_one_implements_isa demo_bne demo_bne_word demo_issued demo_core demo_exec_rob
    eq_refl demo_issued_as) as H.
  cbv zeta in H. destruct (execute_one demo_core demo_issued demo_exec_rob) as [[[e flush] c'] rob'].
  destruct H as (_ & _ & Hf & [Hp Hr] & _). split_and!.
  - rewrite Hf. by vm_compute.
  - rewrite Hp, Hf. by vm_compute.
  - rewrite Hr, Hf. by vm_compute.
Defined.

(** CSR instructions at execution ([backend/o3/execute.rs]): who may access
    what, what is read, and the update left to commit. *)
(** ** The rules of access *)

(** CSRRW always writes, the set and clear forms when their source is not [x0]
    or a zero immediate. *)
Definition csr_writes (op : CsrOp) (rs1 : Z) : Prop :=
  match op with
  | Rw | Rwi => True
  | Rs | Rc => rs1 <> 0
  | Rsi | Rci => rs1 mod 32 <> 0
  | CsrNone => False
  end.
#[export] Instance csr_writes_dec op rs1 : Decision (csr_writes op rs1).
Proof. destruct op; simpl; apply _. Defined.

(** The registers that exist: those [csr_read] and [csr_write] name. *)
Definition implemented_csrs : list Z :=
  [CSR_FFLAGS; CSR_FRM; CSR_FCSR; CSR_MVENDORID; CSR_MARCHID; CSR_MIMPID; CSR_MHARTID;
   CSR_MSTATUS; CSR_MISA; CSR_MEDELEG; CSR_MIDELEG; CSR_MIE; CSR_MTVEC; CSR_MCOUNTEREN; CSR_MENVCFG;
   CSR_MSCRATCH; CSR_MEPC; CSR_MCAUSE; CSR_MTVAL; CSR_MIP;
   CSR_SSTATUS; CSR_SIE; CSR_STVEC; CSR_SCOUNTEREN; CSR_SSCRATCH; CSR_SEPC; CSR_SCAUSE; CSR_STVAL; CSR_SIP;
   CSR_SATP; CSR_STIMECMP; CSR_CYCLE; CSR_TIME; CSR_INSTRET; CSR_MCYCLE; CSR_MINSTRET; CSR_SIM_PANIC; 0x3A0; 0x3A2]
  ++ seqZ 0x3B0 16.

(** The rules of the privileged architecture.  Bits 9:8 of the address are the
    lowest privilege with access, 11:10 both set mean read-only; [mstatus.TVM]
    closes [satp] to S-mode; the bits of [mcounteren] and [scounteren] open the
    counters at 0xC00 to the modes below; the floating-point registers need FS
    on; S-mode needs [menvcfg.STCE] and [mcounteren.TM] for [stimecmp]. *)
Record csr_permitted (addr : Z) (writes : Prop) (h : Cpu) : Prop := {
  cp_exists : addr ∈ implemented_csrs;
  cp_privilege : (addr / 256) mod 4 <= priv_to_u8 (privilege h);
  cp_read_only : (addr / 1024) mod 4 = 3 -> ~ writes;
  cp_satp : addr = CSR_SATP -> privilege h = Supervisor -> Z.testbit (mstatus (csrs h)) 20 = false;
  cp_counters : forall i, 0 <= i <= 31 -> addr = CSR_CYCLE + i ->
    (privilege h <> Common.Machine -> Z.testbit (mcounteren (csrs h)) i = true) /\
    (privilege h = User -> Z.testbit (scounteren (csrs h)) i = true);
  cp_fp : addr ∈ [CSR_FFLAGS; CSR_FRM; CSR_FCSR] -> (mstatus (csrs h) / 2 ^ 13) mod 4 <> 0;
  cp_stimecmp : addr = CSR_STIMECMP -> privilege h = Supervisor ->
    Z.testbit (menvcfg (csrs h)) 63 = true /\ Z.testbit (mcounteren (csrs h)) 1 = true
}.

(** The rules the code applies: all but that the register exists, FS and the
    two bits for [stimecmp]. *)
Record rules_applied (addr : Z) (h : Cpu) : Prop := {
  ra_exists : addr ∈ implemented_csrs;
  ra_fp : addr ∈ [CSR_FFLAGS; CSR_FRM; CSR_FCSR] -> (mstatus (csrs h) / 2 ^ 13) mod 4 <> 0;
  ra_stimecmp : addr = CSR_STIMECMP -> privilege h = Supervisor ->
    Z.testbit (menvcfg (csrs h)) 63 = true /\ Z.testbit (mcounteren (csrs h)) 1 = true
}.

(** One bit of the new value. *)
Definition csr_bit (op : CsrOp) (old src : bool) : bool :=
  match op with
  | Rw | Rwi => src
  | Rs | Rsi => old || src
  | Rc | Rci => old && negb src
  | CsrNone => old
  end.

Lemma csr_new_bits op old src i :
  in_width 64 src -> 0 <= i < 64 ->
  Z.testbit (csr_new op old src) i = csr_bit op (Z.testbit old i) (Z.testbit src i).
Proof.
  intros Hs Hi. destruct op; simpl; try done; rewrite ?Z.lor_spec, ?Z.land_spec, ?not64_testbit by (done || lia);
    try done; replace (i <? 64) with true by lia; done.
Qed.

Lemma would_write_spec id :
  0 <= ri_rs1 id < 32 -> would_write id = true <-> csr_writes (csr_op (ri_ctrl id)) (ri_rs1 id).
Proof.
  intros Hr. unfold would_write, csr_writes, reg_is_zero. change 0x1f with (Z.ones 5).
  rewrite !Z.land_ones by lia. change (2 ^ 5) with 32.
  destruct (csr_op _); rewrite ?negb_true_iff, ?Z.eqb_neq; try done; by split.
Qed.

Lemma enabled_bit en i : 0 <= i <= 2 -> (Z.land en (shl64 1 i) =? 0) = negb (Z.testbit en i).
Proof.
  intros Hi. assert (shl64 1 i = 2 ^ i) as -> by (assert (i = 0 \/ i = 1 \/ i = 2) as [-> | [-> | ->]] by lia; done).
  rewrite <-has_bits_pow2 by lia. unfold has_bits. by rewrite negb_involutive.
Qed.

Lemma counter_implemented addr i :
  addr ∈ implemented_csrs -> addr = CSR_CYCLE + i -> 0 <= i <= 31 -> 0 <= i <= 2 /\ counter_bit addr = Some i.
Proof.
  intros He -> Hi. assert (Hc : forall x, x ∈ seqZ 3 29 -> CSR_CYCLE + x ∉ implemented_csrs)
    by (intros x; revert x; apply Forall_forall; apply (bool_decide_unpack _); by vm_compute).
  assert (0 <= i <= 2) as Hr.
  { destruct (decide (i <= 2)); [lia|]. destruct (Hc i); [|done]. apply elem_of_seqZ. lia. }
  split; [done|]. assert (i = 0 \/ i = 1 \/ i = 2) as [-> | [-> | ->]] by lia; done.
Qed.
Lemma counter_bit_some addr b : counter_bit addr = Some b -> 0 <= b <= 2 /\ addr = CSR_CYCLE + b.
Proof. unfold counter_bit, CSR_CYCLE, CSR_TIME, CSR_INSTRET. repeat case_bool; try done; intros [= <-]; to_prop; lia. Qed.

Lemma counter_denied_spec addr h :
  addr ∈ implemented_csrs ->
  counter_denied addr h = false <->
  forall i, 0 <= i <= 31 -> addr = CSR_CYCLE + i ->
    (privilege h <> Common.Machine -> Z.testbit (mcounteren (csrs h)) i = true) /\
    (privilege h = User -> Z.testbit (scounteren (csrs h)) i = true).
Proof.
  intros He. unfold counter_denied. destruct (counter_bit addr) as [b|] eqn:E.
  - destruct (counter_bit_some _ _ E) as [Hr Ha]. rewrite !enabled_bit by done. split.
    + intros H i Hi Hai. assert (i = b) as -> by lia.
      destruct (privilege h); rewrite ?orb_false_iff, ?negb_false_iff in H; simpl in H; split; naive_solver.
    + intros H. destruct (H b ltac:(lia) Ha) as [Hm Hs].
      destruct (privilege h); [by rewrite (Hm ltac:(done)), (Hs eq_refl)|by rewrite (Hm ltac:(done))|done].
  - split; [|done]. intros _ i Hi Ha. destruct (counter_implemented _ _ He Ha Hi). congruence.
Qed.

(** On the rules the code applies, it denies what the architecture forbids. *)
Lemma csr_denied_spec id h :
  0 <= ri_rs1 id < 32 -> rules_applied (csr_addr (ri_ctrl id)) h ->
  csr_denied id h = false <->
  csr_permitted (csr_addr (ri_ctrl id)) (csr_writes (csr_op (ri_ctrl id)) (ri_rs1 id)) h.
Proof.
  intros Hr [He Hf Hst]. unfold csr_denied, csr_privilege_level, csr_is_read_only. revert He Hf Hst.
  set (a := csr_addr (ri_ctrl id)). intros He Hf Hst.
  change 3 with (Z.ones 2). rewrite !Z.land_ones, !Z.shiftr_div_pow2 by lia.
  change (2 ^ 2) with 4. change (2 ^ 8) with 256. change (2 ^ 10) with 1024. change (Z.ones 2) with 3.
  rewrite !orb_false_iff, counter_denied_spec, Z.ltb_ge, !andb_false_iff, Z.eqb_neq, bit_at_testbit, bool_decide_eq_false, Z.eqb_neq by (done || lia).
  pose proof (would_write_spec id Hr) as Hw. split.
  - intros [[[H1 H2] H3] H4]. split; try done.
    + intros Ha Hc. rewrite <-Hw in Hc. destruct H4; congruence.
    + intros Ha Hp. naive_solver.
  - intros [_ H1 H2 H3 H4 _ _]. split_and!; [|done|done|].
    + destruct (decide (a = CSR_SATP)) as [Ha|]; [|by left; left].
      destruct (decide (privilege h = Supervisor)) as [Hp|]; [|by left; right]. right. auto.
    + destruct (decide ((a / 1024) mod 4 = 3)) as [Ha|]; [|by left]. right.
      apply not_true_is_false. rewrite Hw. auto.
Qed.
Lemma permitted_applied addr w h : csr_permitted addr w h -> rules_applied addr h.
Proof. intros []. by split. Qed.

(** ** The instruction *)

(** A CSR instruction, decoded and issued. *)
Record csr_issued (id : RenameIssueEntry) : Prop := {
  ci_trap : ri_trap id = None;
  ci_system : system_op (ri_ctrl id) = System;
  ci_op : csr_op (ri_ctrl id) <> CsrNone;
  ci_inst : ri_inst id <> ECALL;
  ci_rs1 : 0 <= ri_rs1 id < 32;
  ci_rv1 : in_width 64 (ri_rv1 id)
}.

(** Flags that older in-flight instructions have raised and commit has not seen. *)
Definition older_flags (tag : Z) (q : list RobEntry) : Z :=
  foldl Z.lor 0 (omap (fun e => if is_older_than (re_tag e) tag then Some (re_fp_flags e) else None) q).
Definition flags_taken (tag : Z) (q : list RobEntry) : list RobEntry :=
  (fun e => if is_older_than (re_tag e) tag then e <| re_fp_flags := 0 |> else e) <$> q.

Section Theorems.
Context {X M P : Type} `{!BranchUnit P} `{!FpUnit}.
Local Abbreviation core := (Core X M P).

(** The processor as the access sees it. *)
Definition before_access (id : RenameIssueEntry) (c : core) (q : list RobEntry) : core :=
  if reads_fp_csr (csr_addr (ri_ctrl id)) then
    upd_hart (fun h => h <| csrs := (csrs h) <| fflags := Z.lor (fflags (csrs h)) (Z.lor (older_flags (ri_rob_tag id) q) 0) |> |>) c
  else c.
Definition entries_before (id : RenameIssueEntry) (q : list RobEntry) : list RobEntry :=
  if reads_fp_csr (csr_addr (ri_ctrl id)) then flags_taken (ri_rob_tag id) q else q.

Lemma csr_access_spec id (c : core) rob ss n :
  rob_inv rob ss n -> time_panics (csr_addr (ri_ctrl id)) (hart c) = false ->
  let c1 := before_access id c (rob_queue rob) in
  let old := csr_read (hart c1) (csr_addr (ri_ctrl id)) in
  let '(v, c', rob') := csr_access id 0 c rob in
  v = old /\ c' = c1 /\ rob_inv rob' ss n /\
  let q := entries_before id (rob_queue rob) in
  rob_queue rob' =
    if would_write id then
      modify_tag (ri_rob_tag id) (edit_csr_update
        {| cu_addr := csr_addr (ri_ctrl id); cu_old_val := old;
           cu_new_val := csr_new (csr_op (ri_ctrl id)) old (csr_src id); cu_applied := false |}) q
    else q.
Proof.
  intros I Ht c1 old. unfold csr_access.
  assert (time_panics (csr_addr (ri_ctrl id)) (hart c1) = false) as Ht1
    by (revert Ht; unfold c1, before_access; by destruct (reads_fp_csr _)).
  assert (exists rob1,
    (if reads_fp_csr (csr_addr (ri_ctrl id)) then
       let '(rob', acc) := rob_drain_fp_flags_before rob (ri_rob_tag id) in
       (upd_hart (fun h => h <| csrs := (csrs h) <| fflags := Z.lor (fflags (csrs h)) (Z.lor acc 0) |> |>) c, rob')
     else (c, rob)) = (c1, rob1) /\ rob_inv rob1 ss n /\ rob_queue rob1 = entries_before id (rob_queue rob))
    as (rob1 & -> & I1 & Q1).
  { unfold entries_before, c1, before_access. destruct (reads_fp_csr _); [|by exists rob].
    pose proof (rob_drain_refines rob ss n (ri_rob_tag id) I) as [I1 R].
    destruct (rob_drain_fp_flags_before _ _) as [rob1 acc]. exists rob1. cbn [fst snd] in *.
    unfold q_exec, rob_abs in R. injection R as _ R1 _ R2. by rewrite R2. }
  cbv zeta. rewrite Ht1. fold old. rewrite <-Q1. destruct (would_write id); [|by split_and!].
  match goal with |- context [rob_set_csr_update _ _ ?u] =>
    pose proof (rob_modify_refines rob1 ss n (ri_rob_tag id) (edit_csr_update u) I1 (fun e => conj eq_refl eq_refl)) as [I2 R2] end.
  unfold rob_abs in R2. injection R2 as _ R2 _. by split_and!.
Qed.

Lemma execute_one_csr id (c : core) rob :
  csr_issued id -> execute_one c id rob = execute_csr c id rob.
Proof.
  intros [Ht Hs Ho Hi _ _]. unfold execute_one, execute_system. rewrite Ht, Hs. cbn.
  destruct (Z.eqb_spec (ri_inst id) ECALL); [done|]. by destruct (csr_op (ri_ctrl id)).
Qed.

Lemma csr_src_range id : csr_issued id -> in_width 64 (csr_src id).
Proof.
  intros [_ _ _ _ Hr Hv]. unfold csr_src. change 0x1f with (Z.ones 5).
  rewrite Z.land_ones by lia. pose proof (Z.mod_pos_bound (ri_rs1 id) (2 ^ 5) ltac:(lia)).
  destruct (csr_op _); try done; unfold in_width; lia.
Qed.

(** C5. CSR instructions follow the access rules and lose no exception flag.
    A permitted access reads the register, for the floating-point registers
    together with the flags every older in-flight instruction has raised, which
    are taken from those instructions exactly once; it leaves to commit an
    update whose every bit is that of the read-set-clear operation, exactly when
    it writes; and a write restarts the front end after the instruction.  One
    that the privileged architecture forbids faults the instruction as illegal
    and changes nothing else, where the rule broken is one the code applies:
    privilege, read-only register, [TVM] or counter enable.  It does not trap an
    access to a register that does not exist (the high-word counter aliases
    included, which a comment says are checked), to the floating-point registers
    with FS off, or to [stimecmp] without STCE and TM. *)
Theorem csr_instruction_exact id (c : core) rob ss n :
  csr_issued id -> rob_inv rob ss n -> time_panics (csr_addr (ri_ctrl id)) (hart c) = false ->
  let op := csr_op (ri_ctrl id) in
  let writes := csr_writes op (ri_rs1 id) in
  let q := entries_before id (rob_queue rob) in
  let c1 := before_access id c (rob_queue rob) in
  let old := csr_read (hart c1) (csr_addr (ri_ctrl id)) in
  let '(e, flush, c', rob') := execute_one c id rob in
  (csr_permitted (csr_addr (ri_ctrl id)) writes (hart c) ->
     ex_alu e = old /\ flush = bool_decide writes /\
     c' = (if flush then redirect (next_seq id) c1 else c1) /\
     (~ writes -> rob_queue rob' = q) /\
     (writes -> exists new,
        (forall i, 0 <= i < 64 -> Z.testbit new i = csr_bit op (Z.testbit old i) (Z.testbit (csr_src id) i)) /\
        rob_queue rob' = modify_tag (ri_rob_tag id) (edit_csr_update
          {| cu_addr := csr_addr (ri_ctrl id); cu_old_val := old; cu_new_val := new; cu_applied := false |}) q)) /\
  (~ csr_permitted (csr_addr (ri_ctrl id)) writes (hart c) -> rules_applied (csr_addr (ri_ctrl id)) (hart c) ->
     ex_alu e = 0 /\ flush = true /\ c' = c /\
     rob_queue rob' = modify_tag (ri_rob_tag id) (edit_fault (IllegalInstruction (ri_inst id)) StageExecute) (rob_queue rob)).
Proof.
  intros Hid I Htp op writes q c1 old. rewrite (execute_one_csr id c rob Hid). unfold execute_csr.
  pose proof (csr_denied_spec id (hart c) (ci_rs1 _ Hid)) as Hd. fold op writes in Hd.
  destruct (csr_denied id (hart c)).
  { pose proof (rob_modify_refines rob ss n (ri_rob_tag id) (edit_fault (IllegalInstruction (ri_inst id)) StageExecute) I
      (fun e => conj eq_refl eq_refl)) as [_ R]. unfold rob_abs in R. injection R as _ R _.
    split; [intros Hp; by apply Hd in Hp; [|by eapply permitted_applied]|]. intros _ _. by split_and!. }
  pose proof (csr_access_spec id c rob ss n I Htp) as Ha. cbv zeta in Ha.
  destruct (csr_access id 0 c rob) as [[v c2] rob2]. destruct Ha as (-> & -> & _ & Hq).
  split; [intros _|intros Hn Hra; destruct Hn; by apply Hd]. cbn [ex_entry ex_alu]. fold c1 q old in Hq |- *.
  pose proof (would_write_spec id (ci_rs1 _ Hid)) as Hw. fold op writes in Hw.
  assert (would_write id = bool_decide writes) as Hb.
  { apply eq_true_iff_eq. by rewrite Hw, bool_decide_eq_true. }
  rewrite Hb in *. split_and!; [done..| |].
  - intros Hn. by rewrite bool_decide_eq_false_2 in Hq.
  - intros Hy. rewrite bool_decide_eq_true_2 in Hq by done.
    exists (csr_new op old (csr_src id)). split; [|done]. intros i Hi. by apply csr_new_bits; [apply csr_src_range|].
Qed.

End Theorems.

(** ** Witness: [csrrs x5, fflags, x6] behind an addition that raised NX *)

Definition demo_csr_ctrl : ControlSignals :=
  ControlSignals_default <| system_op := System |> <| csr_op := Rs |> <| csr_addr := CSR_FFLAGS |> <| reg_write := true |>.
Definition demo_csrrs : RenameIssueEntry :=
  demo_issued <| ri_rob_tag := 2 |> <| ri_inst := 0x001322F3 |> <| ri_rs1 := 6 |> <| ri_rv1 := 0x10 |> <| ri_ctrl := demo_csr_ctrl |>.
Definition demo_csr_ops : list rob_op :=
  [OpAllocate 0x80000000 0x53 Standard 1 true ControlSignals_default 40 5;
   OpAllocate 0x80000004 0x001322F3 Standard 5 false demo_csr_ctrl 41 6; OpComplete 1 0; OpSetFpFlags 1 1].
Definition demo_csr_rob : Rob := (rob_run (rob_new 4) demo_csr_ops).1.

Lemma demo_csr_inv : exists ss n, rob_inv demo_csr_rob ss n.
Proof.
  destruct (rob_run_refines_inv demo_csr_ops (rob_new 4) [] 0) as [I _]; [|apply (bool_decide_unpack _); by vm_compute|exact I].
  apply rob_new_inv. lia.
Qed.

(** FS is on. *)
Definition demo_fp_core : Core Empty_set SimpleController unit :=
  upd_hart (fun h => h <| csrs := (csrs h) <| mstatus := MSTATUS_FS |> |>) demo_core.
Lemma csr_instruction_exact_witness :
  let '(e, flush, c', _) := execute_one demo_fp_core demo_csrrs demo_csr_rob in
  ex_alu e = 1 /\ flush = true /\ fflags (csrs (hart c')) = 1.
Proof.
  destruct demo_csr_inv as (ss & n & I).
  assert (Hid : csr_issued demo_csrrs) by (split; done || by vm_compute).
  assert (Ha : rules_applied CSR_FFLAGS (hart demo_fp_core))
    by (split; [apply (bool_decide_unpack _); by vm_compute|by vm_compute|done]).
  pose proof (csr_instruction_exact demo_csrrs demo_fp_core demo_csr_rob ss n Hid I eq_refl) as Hx. cbv zeta in Hx.
  destruct (execute_one demo_fp_core demo_csrrs demo_csr_rob) as [[[e flush] c'] rob'].
  destruct Hx as [(H1 & H2 & H3 & _) _].
  { apply csr_denied_spec; [apply Hid|exact Ha|by vm_compute]. }
  rewrite H1, H3, H2. by vm_compute.
Defined.

(** * The two engines *)

(** The in-order engine restarts the front end behind every instruction whose
    effect waits for commit. *)
Definition inorder_restarts (id : RenameIssueEntry) (h : Cpu) : bool :=
  match ri_trap id with
  | Some _ => false
  | None =>
      match system_op (ri_ctrl id) with
      | SfenceVma => negb (system_denied SfenceVma h)
      | System => negb (ri_inst id =? ECALL) && negb (csr_denied id h)
      | _ => false
      end
  end.

(** Every [System] instruction is ECALL or an access to a CSR. *)
Definition system_known (id : RenameIssueEntry) : Prop :=
  system_op (ri_ctrl id) = System -> ri_inst id = ECALL \/ csr_op (ri_ctrl id) <> CsrNone.

(** No physical register, and no data with a fence that faults. *)
Definition inorder_entry (id : RenameIssueEntry) (h : Cpu) (e : ExMem1Entry) : ExMem1Entry :=
  let denied := bool_decide (system_op (ri_ctrl id) = SfenceVma) && system_denied SfenceVma h in
  e <| ex_rd_phys := 0 |> <| ex_store_data := if denied then 0 else ex_store_data e |>.

Section Engines.
Context {X M P : Type} `{!BranchUnit P} `{!FpUnit}.
Local Abbreviation core := (Core X M P).

Lemma csr_access_extra id extra (c : core) rob :
  (reads_fp_csr (csr_addr (ri_ctrl id)) = true -> extra = 0) -> csr_access id extra c rob = csr_access id 0 c rob.
Proof. intros He. unfold csr_access. destruct (reads_fp_csr _); [by rewrite He|done]. Qed.

Lemma arith_alike id (c : core) rob :
  let '(e, flush, c', rob') :=
    (if fp_off id (hart c) then (ex_entry id (ri_rd_phys id) 0 0 0 None, true, c, illegal_inst id rob)
     else let '(alu_out, fp_flags) := compute_alu (alu (ri_ctrl id)) (op_a id) (op_b id) (ri_rv3 id) (is_rv32 (ri_ctrl id)) in
          let '(needs_flush, c, rob) := resolve_control id c rob in
          (ex_entry id (ri_rd_phys id) alu_out (ri_rv2 id) fp_flags None, needs_flush, c, rob)) in
  execute_inorder_arith c id rob = (e <| ex_rd_phys := 0 |> <| ex_store_data := ex_store_data e |>, flush || false, c', rob').
Proof.
  unfold execute_inorder_arith. destruct (fp_off id (hart c)); [done|].
  destruct (compute_alu _ _ _ _ _) as [v f]. destruct (resolve_control id c rob) as [[n c'] rob']. by rewrite orb_false_r.
Qed.

Lemma csr_alike id extra (c : core) rob :
  (reads_fp_csr (csr_addr (ri_ctrl id)) = true -> extra = 0) ->
  let '(e, flush, c', rob') := execute_csr c id rob in
  let restart := negb (csr_denied id (hart c)) in
  execute_inorder_csr extra c id rob =
    (e <| ex_rd_phys := 0 |> <| ex_store_data := ex_store_data e |>, flush || restart,
     if restart then redirect (next_seq id) c' else c', rob').
Proof.
  intros He. unfold execute_csr, execute_inorder_csr. destruct (csr_denied id (hart c)); [done|].
  rewrite (csr_access_extra id extra) by done. destruct (csr_access id 0 c rob) as [[old c1] rob1].
  by destruct (would_write id).
Qed.

(** Both engines execute alike.  On the same instruction, with the same
    operands and state, the in-order engine computes the result, the reorder
    buffer and the hart that the out-of-order engine computes, without a
    physical register, provided no accrued flag is outside the reorder buffer
    when the instruction reads it.  The one difference is that it always
    restarts the front end behind a permitted CSR access or SFENCE.VMA. *)
Theorem engines_execute_alike inflight batch id (c : core) rob :
  system_known id -> (reads_fp_csr (csr_addr (ri_ctrl id)) = true -> Z.lor inflight batch = 0) ->
  let '(e, flush, c', rob') := execute_one c id rob in
  let restart := inorder_restarts id (hart c) in
  execute_inorder_one inflight batch c id rob =
    (inorder_entry id (hart c) e, flush || restart, if restart then redirect (next_seq id) c' else c', rob').
Proof.
  intros Hk He. unfold execute_one, execute_inorder_one, inorder_restarts, inorder_entry.
  destruct (ri_trap id) as [t|]; [by destruct (_ && _)|]. unfold system_known in Hk.
  pose proof (arith_alike id c rob) as Ha.
  destruct (system_op (ri_ctrl id)) eqn:Eop; cbv [bool_decide].
  all: repeat (case_decide; [try discriminate|try congruence]).
  all: cbn [negb andb].
  all: unfold execute_system, execute_inorder_system; rewrite ?Eop.
  all: try exact Ha.
  all: try (cbv beta zeta iota; rewrite ?orb_false_r; reflexivity).
  - by destruct (system_denied SfenceVma (hart c)).
  - destruct (Z.eqb_spec (ri_inst id) ECALL) as [E|E]; [done|]. destruct (Hk eq_refl) as [?|Hop]; [done|].
    pose proof (csr_alike id (Z.lor inflight batch) c rob He) as Hc.
    destruct (csr_op (ri_ctrl id)); first [exact Hc | done].
Qed.
End Engines.

Lemma engines_execute_alike_witness :
  execute_inorder_one 0 0 demo_core demo_csrrs demo_csr_rob =
    (let '(e, flush, c', rob') := execute_one demo_core demo_csrrs demo_csr_rob in
     (inorder_entry demo_csrrs (hart demo_core) e, flush || true, redirect (next_seq demo_csrrs) c', rob')).
Proof.
  assert (Hk : system_known demo_csrrs) by (right; discriminate).
  assert (Hr : inorder_restarts demo_csrrs (hart demo_core) = true) by by vm_compute.
  pose proof (engines_execute_alike 0 0 demo_csrrs demo_core demo_csr_rob Hk ltac:(done)) as E.
  destruct (execute_one demo_core demo_csrrs demo_csr_rob) as [[[e flush] c'] rob'].
  cbv zeta in E. rewrite Hr in E. exact E.
Defined.
