(* ===== verification/Memory.v ===== *)
(** The memory stages shared by the two engines ([backend/shared/]):
    [memory1.rs] (translation, alignment, cache probe and miss registers),
    [memory2.rs] (data: loads, atomics, resolution of stores) and
    [writeback.rs]. *)
From S2P Require Import Prelude Common Rob StoreBuffer LoadQueue Policy Prefetch Cache Tlb Mmu Cpu Lsu Dram Hierarchy Soc Interconnect Commit Latches Mshr Core Execute.
Set Primitive Projections.
Local Open Scope Z_scope.

(** * Memory1 *)

Definition to_mem2 (ex : ExMem1Entry) (vaddr paddr : Z) (trap : option Trap) (stage : option ExceptionStage)
    (complete_cycle : Z) (pte_update : option PteUpdate) : Mem1Mem2Entry := {|
  mm_rob_tag := ex_rob_tag ex; mm_pc := ex_pc ex; mm_inst := ex_inst ex; mm_inst_size := ex_inst_size ex;
  mm_rd := ex_rd ex; mm_rd_phys := ex_rd_phys ex; mm_alu := ex_alu ex; mm_vaddr := vaddr; mm_paddr := paddr;
  mm_store_data := ex_store_data ex; mm_ctrl := ex_ctrl ex; mm_trap := trap; mm_exception_stage := stage;
  mm_fp_flags := ex_fp_flags ex; mm_complete_cycle := complete_cycle; mm_pte_update := pte_update;
  mm_sfence_vma := ex_sfence_vma ex |}.

(** What becomes of one entry: it moves on, and the loop with it or not; it is
    parked in a miss register; or it is put back to be retried. *)
Inductive m1_outcome :=
| M1Push (entry : Mem1Mem2Entry)
| M1Trap (entry : Mem1Mem2Entry)
| M1Park
| M1Retry.

Section Memory.
Context {X M P : Type} `{!ExtDevice X} `{!MemoryController M}.
Local Abbreviation core := (Core X M P).

Definition data_access (ctrl : ControlSignals) : AccessType := if mem_write ctrl then Write else Read.

(** [cpu.translate(vaddr, access, size)] *)
Definition core_translate (c : core) (vaddr : Z) (access : AccessType) (size : Z) : TranslationResult * core :=
  let '(r, h, b) := cpu_translate (hart c) (bus (machine c)) vaddr access size in
  (r, upd_machine (fun m => m <| cpu := h |> <| bus := b |>) c).

(** The alignment test: a trap, or the penalty of a split access. *)
Definition alignment (c : core) (ex : ExMem1Entry) : Trap + Z :=
  let size := width_to_bytes (width (ex_ctrl ex)) in
  if is_aligned (ex_alu ex) size then inr 0
  else if misaligned_access_trap c || is_atomic (ex_ctrl ex)
       then inl (if mem_write (ex_ctrl ex) then store_misaligned_trap (ex_alu ex) else load_misaligned_trap (ex_alu ex))
       else inr (calculate_unaligned_latency (ex_alu ex) size 64).

(** Physical addresses without a device fault outside M-mode. *)
Definition unmapped (c : core) (paddr : Z) : bool :=
  negb (bool_decide (privilege (hart c) = Common.Machine)) && negb (is_valid_addr (bus (machine c)) paddr).

(** [cpu.l1_d_cache.access_check] *)
Definition probe_l1d (c : core) (paddr : Z) (is_write : bool) : bool * core :=
  let '(hit, l1d) := access_check (l1_d_cache (hart c)) paddr is_write in
  (hit, upd_machine (fun m =>
          m <| cpu := (cpu m) <| l1_d_cache := l1d |> |>
            <| hier_stats := if hit then (hier_stats m) <| dcache_hits := incr (dcache_hits (hier_stats m)) |>
                             else (hier_stats m) <| dcache_misses := incr (dcache_misses (hier_stats m)) |> |>) c).
Definition walk_hierarchy (f : Hierarchy M -> Z * Hierarchy M) (c : core) : Z * core :=
  let '(lat, h) := f (hierarchy (machine c)) in (lat, upd_machine (set_hierarchy h) c).

Definition request_mshr (c : core) (paddr : Z) (is_write : bool) (miss_latency now : Z) (w : MshrWaiter)
    : CacheResponse * core :=
  let '(resp, f) := mshr_request (l1d_mshrs c) paddr is_write miss_latency now w in
  (resp, c <| l1d_mshrs := f |>).
Definition count_allocation : core -> core :=
  count (fun s => s <| mshr_allocations := incr (mshr_allocations s) |>).
Definition count_coalesce : core -> core := count (fun s => s <| mshr_coalesces := incr (mshr_coalesces s) |>).
Definition count_replay : core -> core := count (fun s => s <| load_replays := incr (load_replays s) |>).

(** The non-blocking path. *)
Definition probe_mshr (c : core) (ex : ExMem1Entry) (paddr now latency : Z) (pte : option PteUpdate)
    : m1_outcome * core :=
  let ctrl := ex_ctrl ex in
  let is_write := mem_write ctrl in
  let '(hit, c) := probe_l1d c paddr is_write in
  let l1_latency := cs_latency (l1_d_cache (hart c)) in
  let entry (at_cycle : Z) := to_mem2 ex (ex_alu ex) paddr None None at_cycle pte in
  let pushed := M1Push (entry (add64 now (add64 latency l1_latency))) in
  if hit then (pushed, c) else
  let '(below, c) := walk_hierarchy (fun h => simulate_l1d_miss_latency h paddr (data_access ctrl)) c in
  let miss_latency := add64 l1_latency below in
  if mem_write ctrl && negb (mem_read ctrl) && negb (is_atomic ctrl) then
    let '(resp, c) := request_mshr c paddr is_write miss_latency now
                        {| mwt_rob_tag := ex_rob_tag ex; mwt_parked_entry := None |} in
    (pushed, match resp with
             | MshrAllocated _ => count_allocation c
             | MshrCoalesced _ => count_coalesce c
             | MshrFull | RspHit => c
             end)
  else
    let '(resp, c) := request_mshr c paddr is_write miss_latency now
                        {| mwt_rob_tag := ex_rob_tag ex; mwt_parked_entry := Some (entry 0) |} in
    match resp with
    | MshrAllocated _ => (M1Park, count_replay (count_allocation c))
    | MshrCoalesced _ => (M1Park, count_replay (count_coalesce c))
    | MshrFull | RspHit => (M1Retry, count (fun s => s <| stalls_mshr_full := incr (stalls_mshr_full s) |>) c)
    end.

(** A load or store. *)
Definition memory1_access (c : core) (lq : option LoadQueue) (ex : ExMem1Entry) (now : Z)
    : m1_outcome * core * option LoadQueue :=
  let ctrl := ex_ctrl ex in
  let faulted (t : Trap) (at_cycle : Z) := M1Trap (to_mem2 ex (ex_alu ex) 0 (Some t) (Some StageMemory) at_cycle None) in
  match alignment c ex with
  | inl t => (faulted t now, c, lq)
  | inr penalty =>
      let '(tr, c) := core_translate c (ex_alu ex) (data_access ctrl) (width_to_bytes (width ctrl)) in
      let latency := add64 penalty (tr_cycles tr) in
      match tr_trap tr with
      | Some t => (faulted t (add64 now latency), c, lq)
      | None =>
          let paddr := tr_paddr tr in
          if unmapped c paddr then (faulted (access_fault (ex_alu ex) (data_access ctrl)) (add64 now latency), c, lq)
          else
            let lq := if mem_read ctrl then (fun q => lq_fill_address q (ex_rob_tag ex) (ex_alu ex) paddr) <$> lq
                      else lq in
            if (cache_base c <=? paddr) && (0 <? mshr_capacity (l1d_mshrs c))%nat then
              let '(r, c) := probe_mshr c ex paddr now latency (tr_pte_update tr) in (r, c, lq)
            else
              let '(lat, c) := if cache_base c <=? paddr
                               then walk_hierarchy (fun h => simulate_memory_access h paddr (data_access ctrl)) c
                               else (0, c) in
              (M1Push (to_mem2 ex (ex_alu ex) paddr None None (add64 now (add64 latency lat)) (tr_pte_update tr)), c, lq)
      end
  end.

Definition memory1_one (c : core) (lq : option LoadQueue) (ex : ExMem1Entry) (now : Z)
    : m1_outcome * core * option LoadQueue :=
  match ex_trap ex with
  | Some _ => (M1Trap (to_mem2 ex (ex_alu ex) 0 (ex_trap ex) (ex_exception_stage ex) now None), c, lq)
  | None =>
      if mem_read (ex_ctrl ex) || mem_write (ex_ctrl ex) then memory1_access c lq ex now
      else (M1Push (to_mem2 ex 0 0 None None now None), c, lq)
  end.

Record Mem1State := {
  m1_core : core; m1_lq : option LoadQueue;
  m1_input : list ExMem1Entry; m1_output : list Mem1Mem2Entry; m1_cancelled : list Z
}.

(** The loop over the taken entries; on an early return the rest goes back. *)
Fixpoint memory1_loop (now : Z) (entries : list ExMem1Entry) (st : Mem1State) : Mem1State :=
  match entries with
  | [] => st
  | ex :: rest =>
      let '(r, c, lq) := memory1_one (m1_core st) (m1_lq st) ex now in
      let st := st <| m1_core := c |> <| m1_lq := lq |> in
      match r with
      | M1Push e => memory1_loop now rest (st <| m1_output := m1_output st ++ [e] |>)
      | M1Trap e => st <| m1_output := m1_output st ++ [e] |> <| m1_input := rest |>
      | M1Park => memory1_loop now rest (st <| m1_cancelled := m1_cancelled st ++ [ex_rd_phys ex] |>)
      | M1Retry => st <| m1_input := ex :: rest |>
      end
  end.
Definition memory1_stage (c : core) (input : list ExMem1Entry) (output : list Mem1Mem2Entry) (now : Z)
    (lq : option LoadQueue) : Mem1State :=
  memory1_loop now input {| m1_core := c; m1_lq := lq; m1_input := []; m1_output := output; m1_cancelled := [] |}.

End Memory.

(** * Completed misses *)

Section Completions.
Context {X M P : Type}.
Local Abbreviation core := (Core X M P).

(** Installs a fetched line; what it displaces goes to an exclusive L2. *)
Definition install_completed (e : MshrEntry) (c : core) : core :=
  let m := machine c in
  let '(_, evicted, l1d) := install_line_public_tracked (l1_d_cache (cpu m)) (ms_line_addr e) (ms_is_write e) 0 in
  let m := upd_cpu (fun h => h <| l1_d_cache := l1d |>) m in
  c <| machine :=
    match evicted with
    | Some ev =>
        if bool_decide (inclusion_policy m = Exclusive) && cs_enabled (l2_cache m) then
          let '(_, l2) := install_or_replace (l2_cache m) (ev_addr ev) (ev_dirty ev) 0 in
          m <| l2_cache := l2 |>
            <| hier_stats := (hier_stats m)
                 <| exclusive_l1_to_l2_swaps := add64 (exclusive_l1_to_l2_swaps (hier_stats m)) 1 |> |>
        else m
    | None => m
    end |>.

(** The parked accesses it releases. *)
Definition resumed (now : Z) (e : MshrEntry) : list Mem1Mem2Entry :=
  omap (fun w => (fun p => p <| mm_complete_cycle := now |>) <$> mwt_parked_entry w) (ms_waiters e).

(** All misses that are complete, into the Memory1-Memory2 latch. *)
Definition drain_mshrs (now : Z) (c : core) (latch : list Mem1Mem2Entry) : core * list Mem1Mem2Entry :=
  let f := l1d_mshrs c in
  if (0 <? mshr_capacity f)%nat then
    let '(completed, f) := drain_completions f now in
    foldl (fun '(c, latch) e => (install_completed e c, latch ++ resumed now e)) (c <| l1d_mshrs := f |>, latch) completed
  else (c, latch).

End Completions.

(** * Memory2 *)

Section Memory2.
Context {X M P : Type} `{!ExtDevice X}.
Local Abbreviation core := (Core X M P).

Definition read_bus (c : core) (s : AccessSize) (raw : Z) : Z * core :=
  let '(v, b) := bus_read (bus (machine c)) s raw in (v, upd_machine (fun m => m <| bus := b |>) c).
(** [ptr::read_unaligned] through [ram_ptr]; outside the buffer undefined, here
    the failure of the host. *)
Definition ram_ptr_read (c : core) (offset : Z) (s : AccessSize) : Z * core :=
  let '(v, sh) := dram_read (shared (bus (machine c))) offset (size_bytes s) in
  (v, upd_machine (fun m => m <| bus := (bus m) <| shared := sh |> |>) c).

Definition sext_load (w : MemWidth) (v : Z) : Z :=
  match w with
  | WByte => u64 (as_signed 8 (wrap 8 v))
  | WHalf => u64 (as_signed 16 (wrap 16 v))
  | WWord => u64 (as_signed 32 (wrap 32 v))
  | _ => v
  end.
(** NaN boxing of single-precision loads. *)
Definition nan_box (ctrl : ControlSignals) (v : Z) : Z :=
  if fp_reg_write ctrl && bool_decide (width ctrl = WWord) then Z.lor v NAN_BOX_MASK else v.
Definition extend_loaded (ctrl : ControlSignals) (v : Z) : Z :=
  nan_box ctrl (if signed_load ctrl then sext_load (width ctrl) v else v).

(** The raw bytes of a load that no buffered store supplies. *)
Definition read_memory (c : core) (ctrl : ControlSignals) (paddr : Z) : Z * core :=
  match access_size (width ctrl) with
  | None => (0, c)
  | Some s =>
      if in_ram (machine c) paddr then ram_ptr_read c (paddr - ram_start (machine c)) s else read_bus c s paddr
  end.

(** The operand of an LR or AMO, from the bus. *)
Definition read_atomic (c : core) (w : MemWidth) (paddr : Z) : Z * core :=
  match w with
  | WWord => let '(v, c) := read_bus c U32 paddr in (sext_load WWord v, c)
  | WDouble => read_bus c U64 paddr
  | _ => (0, c)
  end.

(** [violation], the oldest load found to have read too early, with the pc of the store. *)
Definition older_violation (violation : option (Z * Z)) (found : option Z) (store_pc : Z) : option (Z * Z) :=
  match found with
  | None => violation
  | Some tag =>
      match violation with
      | None => Some (tag, store_pc)
      | Some (prev, _) => if is_older_than tag prev then Some (tag, store_pc) else violation
      end
  end.
Definition check_store (lq : option LoadQueue) (mem : Mem1Mem2Entry) (violation : option (Z * Z)) : option (Z * Z) :=
  match lq with
  | None => violation
  | Some q => older_violation violation (lq_check_ordering_violation q (mm_paddr mem) (width (mm_ctrl mem)) (mm_rob_tag mem))
                (mm_pc mem)
  end.

Record Mem2State := {
  m2_core : core; m2_sb : StoreBuffer; m2_lq : option LoadQueue; m2_violation : option (Z * Z);
  m2_input : list Mem1Mem2Entry; m2_output : list Mem2WbEntry
}.

Definition to_wb (mem : Mem1Mem2Entry) (load_data : Z) (lr_sc : option LrScRecord) : Mem2WbEntry := {|
  mw_rob_tag := mm_rob_tag mem; mw_pc := mm_pc mem; mw_inst := mm_inst mem; mw_inst_size := mm_inst_size mem;
  mw_rd := mm_rd mem; mw_rd_phys := mm_rd_phys mem; mw_alu := mm_alu mem; mw_load_data := load_data;
  mw_ctrl := mm_ctrl mem; mw_trap := mm_trap mem;
  mw_exception_stage := match mm_trap mem with Some _ => mm_exception_stage mem | None => None end;
  mw_fp_flags := mm_fp_flags mem; mw_pte_update := mm_pte_update mem; mw_sfence_vma := mm_sfence_vma mem;
  mw_lr_sc := lr_sc |}.

(** What one entry without a trap does; [None] puts it back, with the rest. *)
Definition memory2_one (mem : Mem1Mem2Entry) (st : Mem2State) : option (Z * option LrScRecord * Mem2State) :=
  let ctrl := mm_ctrl mem in
  let paddr := mm_paddr mem in
  let tag := mm_rob_tag mem in
  let store (data : Z) (st : Mem2State) : Mem2State :=
    st <| m2_sb := sb_resolve (m2_sb st) tag (mm_vaddr mem) paddr data |>
       <| m2_violation := check_store (m2_lq st) mem (m2_violation st) |> in
  match atomic_op ctrl with
  | AtomicNone =>
      if mem_read ctrl then
        let loaded (v : Z) (c : core) : option (Z * option LrScRecord * Mem2State) :=
          let ld := extend_loaded ctrl v in
          Some (ld, None, st <| m2_core := c |> <| m2_lq := (fun q => lq_fill_data q tag ld) <$> m2_lq st |>) in
        match sb_forward_load (m2_sb st) paddr (width ctrl) tag with
        | FwdHit v => loaded v (m2_core st)
        | FwdStall => None
        | FwdMiss => let '(v, c) := read_memory (m2_core st) ctrl paddr in loaded v c
        end
      else if mem_write ctrl then Some (0, None, store (mm_store_data mem) st)
      else Some (0, None, st)
  | AtomicLr =>
      if sb_has_older_store_to (m2_sb st) paddr (width ctrl) tag then None
      else let '(v, c) := read_atomic (m2_core st) (width ctrl) paddr in
           Some (v, Some (Lr_record paddr), st <| m2_core := c |>)
  | AtomicSc => Some (0, Some (Sc_record paddr), store (mm_store_data mem) st)
  | op =>
      if sb_has_older_store_to (m2_sb st) paddr (width ctrl) tag then None
      else let '(old, c) := read_atomic (m2_core st) (width ctrl) paddr in
           Some (old, None, store (atomic_alu op old (mm_store_data mem) (width ctrl)) (st <| m2_core := c |>))
  end.

Fixpoint memory2_loop (entries : list Mem1Mem2Entry) (st : Mem2State) : Mem2State :=
  match entries with
  | [] => st
  | mem :: rest =>
      match mm_trap mem with
      | Some _ => st <| m2_output := m2_output st ++ [to_wb mem 0 None] |> <| m2_input := rest |>
      | None =>
          match memory2_one mem st with
          | None => st <| m2_input := mem :: rest |>
          | Some (ld, lr_sc, st) => memory2_loop rest (st <| m2_output := m2_output st ++ [to_wb mem ld lr_sc] |>)
          end
      end
  end.
(** The output latch is cleared; the entries are taken in tag order. *)
Definition memory2_stage (c : core) (input : list Mem1Mem2Entry) (sb : StoreBuffer) (lq : option LoadQueue) : Mem2State :=
  memory2_loop (stable_sort mm_rob_tag input)
    {| m2_core := c; m2_sb := sb; m2_lq := lq; m2_violation := None; m2_input := []; m2_output := [] |}.

End Memory2.

(** * Writeback *)

(** The value an instruction leaves with. *)
Definition wb_value (wb : Mem2WbEntry) : Z :=
  if mem_read (mw_ctrl wb) then mw_load_data wb
  else alu_or_link (mw_ctrl wb) (mw_pc wb) (mw_inst_size wb) (mw_alu wb).

Definition writeback_one (rob : Rob) (wb : Mem2WbEntry) : Rob :=
  let tag := mw_rob_tag wb in
  match mw_trap wb with
  | Some t => rob_fault rob tag t (default StageMemory (mw_exception_stage wb))
  | None =>
      let rob := if negb (mw_fp_flags wb =? 0) then rob_set_fp_flags rob tag (mw_fp_flags wb) else rob in
      let rob := match mw_pte_update wb with Some u => rob_set_pte_update rob tag u | None => rob end in
      let rob := match mw_sfence_vma wb with Some i => rob_set_sfence_vma rob tag i | None => rob end in
      let rob := match mw_lr_sc wb with Some r => rob_set_lr_sc rob tag r | None => rob end in
      rob_complete rob tag (wb_value wb)
  end.
(** The input latch is left empty. *)
Definition writeback_stage (input : list Mem2WbEntry) (rob : Rob) : Rob := foldl writeback_one rob input.
