(* ===== verification/O3Tick.v ===== *)
(** One cycle of the out-of-order engine ([backend/o3/mod.rs]): commit,
    writeback and wakeup, miss-register completions, the memory stages, issue
    and execution, recovery and dispatch, in the order of [tick]. *)
From S2P Require Import Prelude Common Rob StoreBuffer LoadQueue Rename RenameO3 Policy Prefetch Cache Cpu Dram Hierarchy Soc Interconnect Commit Latches MemDep IssueQueue Mshr Core Execute Memory.
Set Primitive Projections.
Local Open Scope Z_scope.

Record PendingResult := {
  pr_entry : ExMem1Entry; pr_complete_cycle : Z; pr_fu_type : FuType; pr_speculative_written : bool
}.

(** [O3Engine]: the renaming state of [RenameO3], whose count of free issue
    slots [o3_view] fills in, and the rest of the struct. *)
Record O3Backend := {
  ob_engine : O3Engine;
  ob_iq : IssueQueue;
  ob_fu_pool : list FuUnit;
  ob_pending : list PendingResult;
  ob_load_ports : nat;
  ob_store_ports : nat;
  ob_execute_mem1 : list ExMem1Entry;
  ob_mem1_mem2 : list Mem1Mem2Entry;
  ob_mem2_wb : list Mem2WbEntry;
  ob_cycle : Z;
  ob_mdp : MemDepUnit
}.
Definition o3_view (b : O3Backend) : O3Engine :=
  (ob_engine b) <| o3_iq_available := iq_available_slots (ob_iq b) |>.
Definition ob_can_accept (b : O3Backend) : nat := o3_can_accept (o3_view b).

Record O3BackendConfig := {
  obc_engine : O3Config; obc_fu : FuConfig; obc_load_ports : nat; obc_store_ports : nat;
  obc_mdp : option StoreSetConfig
}.
Definition ob_new (config : O3BackendConfig) : O3Backend := {|
  ob_engine := o3_new (obc_engine config); ob_iq := iq_new (cfg_issue_queue_size (obc_engine config));
  ob_fu_pool := fu_pool_new (obc_fu config); ob_pending := []; ob_load_ports := obc_load_ports config;
  ob_store_ports := obc_store_ports config; ob_execute_mem1 := []; ob_mem1_mem2 := []; ob_mem2_wb := [];
  ob_cycle := 0; ob_mdp := mdu_new (obc_mdp config) |}.

(** [sync_arch_regs] *)
Definition sync_reg (slot : Z) (val : Z) (prf : PhysRegFile) : PhysRegFile :=
  if negb (val =? 0) then prf_write prf slot val else prf.
Definition sync_arch_regs (r : RegisterFile) (b : O3Backend) : O3Backend :=
  let prf := foldl (fun prf i => sync_reg i (regs_read r i) prf) (o3_prf (ob_engine b)) (seqZ 1 31) in
  let prf := foldl (fun prf i => sync_reg (32 + i) (regs_read_f r i) prf) prf (seqZ 0 32) in
  b <| ob_engine := (ob_engine b) <| o3_prf := prf |> |>.

Definition upd_engine (f : O3Engine -> O3Engine) (b : O3Backend) : O3Backend := b <| ob_engine := f (ob_engine b) |>.
Definition upd_rob (f : Rob -> Rob) : O3Backend -> O3Backend := upd_engine (fun s => s <| o3_rob := f (o3_rob s) |>).
Definition upd_prf (f : PhysRegFile -> PhysRegFile) : O3Backend -> O3Backend :=
  upd_engine (fun s => s <| o3_prf := f (o3_prf s) |>).
Definition upd_iq (f : IssueQueue -> IssueQueue) (b : O3Backend) : O3Backend := b <| ob_iq := f (ob_iq b) |>.
Definition upd_mdp (f : MemDepUnit -> MemDepUnit) (b : O3Backend) : O3Backend := b <| ob_mdp := f (ob_mdp b) |>.
Definition set_stall (n : Z) : O3Backend -> O3Backend := upd_engine (fun s => s <| o3_squash_stall_remaining := n |>).

Definition ob_rob (b : O3Backend) : Rob := o3_rob (ob_engine b).
Definition ob_prf (b : O3Backend) : PhysRegFile := o3_prf (ob_engine b).

(** The arguments of [commit_stage], and the engine it leaves. *)
Definition lend (s : O3Engine) : Backend := {|
  be_rob := o3_rob s; be_store_buffer := o3_store_buffer s; be_scoreboard := o3_scoreboard s;
  be_committed_rename_map := o3_committed_rename_map s; be_free_list := o3_free_list s;
  be_load_queue := Some (o3_load_queue s); be_prf := Some (o3_prf s); be_checkpoints := Some (o3_checkpoints s) |}.
Definition take_back (s : O3Engine) (b : Backend) : O3Engine :=
  s <| o3_rob := be_rob b |> <| o3_store_buffer := be_store_buffer b |> <| o3_scoreboard := be_scoreboard b |>
    <| o3_committed_rename_map := be_committed_rename_map b |> <| o3_free_list := be_free_list b |>
    <| o3_load_queue := default (o3_load_queue s) (be_load_queue b) |>
    <| o3_prf := default (o3_prf s) (be_prf b) |>
    <| o3_checkpoints := default (o3_checkpoints s) (be_checkpoints b) |>.

(** [retain(|e| e.rob_tag.is_older_or_eq(keep_tag))] *)
Definition retain_older {A} (tag : A -> Z) (keep_tag : Z) (l : list A) : list A :=
  filter (fun a => is_older_or_eq (tag a) keep_tag = true) l.
Definition pr_tag (p : PendingResult) : Z := ex_rob_tag (pr_entry p).

(** Squashing everything younger than [keep_tag], and everything, outside the
    renaming state. *)
Definition retain_latches (keep_tag : Z) (b : O3Backend) : O3Backend :=
  b <| ob_mem1_mem2 := retain_older mm_rob_tag keep_tag (ob_mem1_mem2 b) |>
    <| ob_mem2_wb := retain_older mw_rob_tag keep_tag (ob_mem2_wb b) |>
    <| ob_pending := retain_older pr_tag keep_tag (ob_pending b) |>
    <| ob_execute_mem1 := retain_older ex_rob_tag keep_tag (ob_execute_mem1 b) |>.
Definition clear_latches (b : O3Backend) : O3Backend :=
  b <| ob_mem1_mem2 := [] |> <| ob_mem2_wb := [] |> <| ob_pending := [] |> <| ob_execute_mem1 := [] |>.
Definition squash_queues (keep_tag : Z) (rob : Rob) (b : O3Backend) : O3Backend :=
  b <| ob_iq := iq_flush_after (ob_iq b) keep_tag |> <| ob_mdp := mdu_flush_after (ob_mdp b) keep_tag rob |>.
Definition flush_queues (b : O3Backend) : O3Backend :=
  b <| ob_iq := iq_flush (ob_iq b) |> <| ob_mdp := mdu_flush (ob_mdp b) |>.

Section Tick.
Context {X M P : Type} `{!ExtDevice X} `{!MemoryController M} `{!BranchUnit P} `{!FpUnit}.
Local Abbreviation core := (Core X M P).

(** The engine in its surroundings: the processor and the rename output. *)
Record O3Sys := { os_core : core; os_back : O3Backend; os_rename : list RenameIssueEntry }.
Definition on_core (f : core -> core) (s : O3Sys) : O3Sys := s <| os_core := f (os_core s) |>.
Definition on_back (f : O3Backend -> O3Backend) (s : O3Sys) : O3Sys := s <| os_back := f (os_back s) |>.
Definition bump (f : PipeStats -> PipeStats) : O3Sys -> O3Sys := on_core (count f).
Definition os_rob (s : O3Sys) : Rob := ob_rob (os_back s).

(** [flush] *)
Definition ob_flush (s : O3Sys) : O3Sys :=
  on_core (fun c => upd_predictor repair_to_committed (c <| l1d_mshrs := mshr_flush (l1d_mshrs c) |>))
    (on_back (fun b => clear_latches (flush_queues (upd_engine o3_flush b))) s).

(** ** Commit *)

Definition tick_start (s : O3Sys) : O3Sys :=
  let s := on_back (fun b => upd_mdp mdu_tick (b <| ob_cycle := add64 (ob_cycle b) 1 |>)) s in
  let stall := o3_squash_stall_remaining (ob_engine (os_back s)) in
  if 0 <? stall then
    bump (fun st => st <| stalls_squash := incr (stalls_squash st) |>) (on_back (set_stall (stall - 1)) s)
  else s.

Definition run_commit (s : O3Sys) : option (Trap * Z) * O3Sys :=
  let e := ob_engine (os_back s) in
  let '(t, m, b) := commit_stage (o3_width e) (machine (os_core s)) (lend e) in
  (t, on_core (fun c => c <| machine := m |>) (on_back (fun ob => ob <| ob_engine := take_back e b |>) s)).

(** [flush] with the stall of a squash of the whole reorder buffer. *)
Definition full_flush (s : O3Sys) : O3Sys :=
  let squashed := rob_len (os_rob s) in
  on_back (fun b => set_stall (o3_compute_squash_stall (ob_engine b) squashed 0) b) (ob_flush s).

Definition take_trap (t : Trap) (epc : Z) (s : O3Sys) : O3Sys :=
  on_core (upd_machine (fun m =>
             let m := upd_cpu (fun h => trap h t epc) (m <| redirect_pending := true |>) in
             m <| committed_next_pc := pc (cpu m) |>)) (full_flush s).

(** Commit and what ends the cycle there: a trap, or a redirected pc. *)
Definition commit_step (s : O3Sys) : flow O3Sys O3Sys :=
  let pc_before_commit := pc (hart (os_core s)) in
  match run_commit s with
  | (Some (t, epc), s) => Return (take_trap t epc s)
  | (None, s) =>
      if negb (pc (hart (os_core s)) =? pc_before_commit) then Return ((full_flush s) <| os_rename := [] |>)
      else Continue s
  end.

(** ** Writeback, wakeup and miss-register completions *)

(** Writes a result and broadcasts it. *)
Definition broadcast (rd_phys val : Z) (b : O3Backend) : O3Backend :=
  upd_iq (fun q => iq_wakeup_phys q rd_phys val) (upd_prf (fun prf => prf_write prf rd_phys val) b).

Definition writeback_step (s : O3Sys) : O3Sys :=
  let wbs := ob_mem2_wb (os_back s) in
  let done := filter (fun wb => mw_trap wb = None) wbs in
  on_back (fun b =>
    foldl (fun b wb => broadcast (mw_rd_phys wb) (wb_value wb) b)
      ((upd_rob (writeback_stage wbs) b) <| ob_mem2_wb := [] |>) done) s.

Definition mshr_step (now : Z) (s : O3Sys) : O3Sys :=
  let '(c, latch) := drain_mshrs now (os_core s) (ob_mem1_mem2 (os_back s)) in
  on_back (fun b => b <| ob_mem1_mem2 := latch |>) (s <| os_core := c |>).

(** ** Memory2 and ordering violations *)

(** Tells the dependence unit of a resolved store. *)
Definition store_wakeup (b : O3Backend) (wb : Mem2WbEntry) : O3Backend :=
  if mem_write (mw_ctrl wb) then
    let '(woken, u) := mdu_store_resolved (ob_mdp b) (mw_rob_tag wb) in
    let b := b <| ob_mdp := u |> in
    match woken with Some t => upd_iq (fun q => iq_wakeup_mem_dep q [t]) b | None => b end
  else b.

Definition mem2_step (s : O3Sys) : option (Z * Z) * O3Sys :=
  let b := os_back s in
  let e := ob_engine b in
  let st := memory2_stage (os_core s) (ob_mem1_mem2 b) (o3_store_buffer e) (Some (o3_load_queue e)) in
  let b := b <| ob_engine := e <| o3_store_buffer := m2_sb st |> <| o3_load_queue := default (o3_load_queue e) (m2_lq st) |> |>
             <| ob_mem1_mem2 := m2_input st |> <| ob_mem2_wb := m2_output st |> in
  (m2_violation st, s <| os_core := m2_core st |> <| os_back := foldl store_wakeup b (m2_output st) |>).

Definition ceil_div (n w : nat) : Z := Z.of_nat (n `div` w + (if (n mod w =? 0)%nat then 0 else 1)).
Definition count_rebuild (surviving width : nat) (st : PipeStats) : PipeStats :=
  st <| stalls_rename_rebuild := add64 (stalls_rename_rebuild st) (ceil_div surviving (Nat.max width 1)) |>.
Definition count_squash (squashed : nat) (st : PipeStats) : PipeStats :=
  st <| misprediction_penalty := add64 (misprediction_penalty st) (Z.of_nat squashed) |>.

Definition violation_step (violating_tag store_pc : Z) (s : O3Sys) : O3Sys :=
  let rob := os_rob s in
  let violation_pc := match rob_find_entry rob violating_tag with Some e => re_pc e | None => pc (hart (os_core s)) end in
  let keep_tag := rob_prev_tag_of rob violating_tag in
  let s := on_back (upd_mdp (fun u => mdu_violation u violation_pc store_pc)) s in
  let s := bump (fun st => st <| mem_ordering_violations := incr (mem_ordering_violations st) |>
                              <| pipeline_flushes := incr (pipeline_flushes st) |>
                              <| stalls_control := incr (stalls_control st) |>) s in
  let engine := o3_violation (ob_engine (os_back s)) violating_tag in
  let s := match keep_tag with
    | Some keep_tag =>
        bump (fun st => count_rebuild (rob_len (o3_rob engine)) (o3_width engine)
                          (count_squash (length (rob_iter_after rob keep_tag)) st))
          (on_core (fun c => c <| l1d_mshrs := mshr_flush_after (l1d_mshrs c) keep_tag |>)
            (on_back (fun b => retain_latches keep_tag (squash_queues keep_tag (o3_rob engine) b)) s))
    | None =>
        bump (count_squash (rob_len rob))
          (on_core (fun c => c <| l1d_mshrs := mshr_flush (l1d_mshrs c) |>)
            (on_back (fun b => clear_latches (flush_queues b)) s))
    end in
  (on_core (redirect violation_pc) (on_back (fun b => b <| ob_engine := engine |>) s)) <| os_rename := [] |>.

Definition memory2_step (s : O3Sys) : flow O3Sys O3Sys :=
  match mem2_step s with
  | (Some (violating_tag, store_pc), s) => Return (violation_step violating_tag store_pc s)
  | (None, s) => Continue s
  end.

(** ** Memory1 *)

Definition mem1_busy (now : Z) (s : O3Sys) : bool :=
  negb (0 <? mshr_capacity (l1d_mshrs (os_core s)))%nat &&
  existsb (fun e => (mem_read (mm_ctrl e) || mem_write (mm_ctrl e)) && (now <? mm_complete_cycle e))
    (ob_mem1_mem2 (os_back s)).

Definition memory1_step (now : Z) (s : O3Sys) : O3Sys :=
  if mem1_busy now s then bump (fun st => st <| stalls_mem := incr (stalls_mem st) |>) s else
  let b := os_back s in
  let e := ob_engine b in
  let st := memory1_stage (os_core s) (ob_execute_mem1 b) (ob_mem1_mem2 b) now (Some (o3_load_queue e)) in
  let q := foldl (fun q phys => iq_cancel_wakeup_phys q phys (o3_prf e)) (ob_iq b) (m1_cancelled st) in
  s <| os_core := m1_core st |>
    <| os_back := b <| ob_engine := e <| o3_load_queue := default (o3_load_queue e) (m1_lq st) |> |>
                    <| ob_execute_mem1 := m1_input st |> <| ob_mem1_mem2 := m1_output st |> <| ob_iq := q |> |>.

(** ** Pending results *)

(** An instruction that skips the memory stages leaves its result. *)
Definition deposit (e : ExMem1Entry) (b : O3Backend) : O3Backend :=
  let val := alu_or_link (ex_ctrl e) (ex_pc e) (ex_inst_size e) (ex_alu e) in
  let tag := ex_rob_tag e in
  broadcast (ex_rd_phys e) val
    (upd_rob (fun rob =>
       let rob := if negb (ex_fp_flags e =? 0) then rob_set_fp_flags rob tag (ex_fp_flags e) else rob in
       let rob := match ex_sfence_vma e with Some info => rob_set_sfence_vma rob tag info | None => rob end in
       rob_complete rob tag val) b).

Definition count_use (t : FuType) (st : PipeStats) : PipeStats :=
  st <| fu_utilization := alter incr (fu_index t) (fu_utilization st) |>.

Definition finish_pending (p : PendingResult) (s : O3Sys) : O3Sys :=
  let s := bump (count_use (pr_fu_type p)) s in
  if is_mem_op (ex_ctrl (pr_entry p)) then
    on_back (fun b => b <| ob_execute_mem1 := ob_execute_mem1 b ++ [pr_entry p] |>) s
  else if negb (pr_speculative_written p) then on_back (deposit (pr_entry p)) s
  else s.

(** [Vec::swap_remove] *)
Definition swap_remove {A} (i : nat) (l : list A) : list A :=
  match last l with
  | Some z => if decide (i = length l - 1)%nat then take i l else <[i := z]> (take (length l - 1) l)
  | None => l
  end.

(** The loop over the index [i]: each turn removes an element or passes one, so
    that the length is enough fuel. *)
Fixpoint drain_pending (fuel : nat) (now : Z) (i : nat) (s : O3Sys) : O3Sys :=
  match fuel with
  | O => s
  | S fuel =>
      match ob_pending (os_back s) !! i with
      | None => s
      | Some p =>
          if pr_complete_cycle p <=? now
          then drain_pending fuel now i
                 (finish_pending p (on_back (fun b => b <| ob_pending := swap_remove i (ob_pending b) |>) s))
          else drain_pending fuel now (S i) s
      end
  end.
Definition pending_step (now : Z) (s : O3Sys) : O3Sys :=
  drain_pending (length (ob_pending (os_back s))) now 0 s.

(** ** Issue and execution *)

(** [issue_queue.dispatch]; when it refuses (a debug assertion) the instruction is lost. *)
Definition dispatch_into_iq (entry : RenameIssueEntry) (dep : MemDepState) (s : O3Sys) : O3Sys :=
  let b := os_back s in
  match iq_dispatch (ob_iq b) entry (ob_rob b) (regs (hart (os_core s))) (Some (ob_prf b)) dep with
  | Some (_, q) => on_back (fun b => b <| ob_iq := q |>) s
  | None => s
  end.

Record IssueLoop := { is_sys : O3Sys; is_issued : nat; is_stalled_fu : bool; is_flush : option Z }.

(** The instruction has its unit. *)
Definition execute_selected (now complete_cycle : Z) (entry : RenameIssueEntry) (t : FuType) (s : O3Sys)
    : bool * O3Sys :=
  let pipelined := pool_is_pipelined (ob_fu_pool (os_back s)) t in
  let '(ex, flush, c, rob) := execute_one (os_core s) entry (os_rob s) in
  let s := on_back (upd_rob (fun _ => rob)) (s <| os_core := c |>) in
  let ctrl := ex_ctrl ex in
  let ok := match ex_trap ex with None => true | Some _ => false end in
  let speculative := negb (is_mem_op ctrl) && pipelined && ok in
  let s := if speculative then on_back (deposit ex) s else s in
  let s := if mem_read ctrl && negb (mem_write ctrl) && ok && (0 <? mshr_capacity (l1d_mshrs (os_core s)))%nat
           then on_back (upd_iq (fun q => iq_speculative_wakeup_phys q (ex_rd_phys ex))) s else s in
  (flush,
   on_back (fun b => b <| ob_pending := ob_pending b ++
     [{| pr_entry := ex; pr_complete_cycle := complete_cycle; pr_fu_type := t;
         pr_speculative_written := speculative |}] |>) s).

Definition issue_body (now : Z) (mem_backpressured : bool) (selected : SelectedEntry) (st : IssueLoop)
    : flow IssueLoop IssueLoop :=
  let entry := se_entry selected in
  let ctrl := ri_ctrl entry in
  let t := classify ctrl in
  let s := is_sys st in
  if mem_backpressured && bool_decide (t = FuMem) then
    Continue (st <| is_sys := dispatch_into_iq entry (se_mem_dep selected) s |>)
  else
    match acquire (ob_fu_pool (os_back s)) t now with
    | None =>
        Continue (st <| is_sys := dispatch_into_iq entry (se_mem_dep selected)
                                    (bump (fun ps => ps <| stalls_fu_structural := incr (stalls_fu_structural ps) |>) s) |>
                     <| is_stalled_fu := true |>)
    | Some (complete_cycle, pool) =>
        let s := if mem_read ctrl || mem_write ctrl then on_back (upd_mdp (fun u => mdu_issued u (ri_rob_tag entry))) s
                 else s in
        let '(flush, s) := execute_selected now complete_cycle entry t (on_back (fun b => b <| ob_fu_pool := pool |>) s) in
        let st := st <| is_sys := s |> <| is_issued := S (is_issued st) |> in
        if flush then Return (st <| is_flush := Some (ri_rob_tag entry) |>) else Continue st
    end.

(** Select, then the loop; the tag of the instruction that asked for a flush. *)
Definition issue_step (now : Z) (s : O3Sys) : option Z * O3Sys :=
  let mem_backpressured := match ob_execute_mem1 (os_back s) with [] => false | _ => true end in
  let s := if mem_backpressured then bump (fun st => st <| stalls_backpressure := incr (stalls_backpressure st) |>) s else s in
  let s := pending_step now s in
  let b := os_back s in
  let e := ob_engine b in
  let '(issued, q) := iq_select (ob_iq b) (o3_width e) (o3_store_buffer e) (o3_rob e)
                        (ob_load_ports b) (ob_store_ports b) (Some (o3_prf e)) in
  let st := after_loop (list_scan (issue_body now mem_backpressured) issued
              {| is_sys := on_back (fun b => b <| ob_iq := q |>) s; is_issued := 0; is_stalled_fu := false;
                 is_flush := None |}) (fun st => st) in
  let s := is_sys st in
  let s := if (is_issued st =? 0)%nat && negb (is_stalled_fu st) && negb (iq_is_empty (ob_iq (os_back s)))
           then bump (fun ps => ps <| stalls_data := incr (stalls_data ps) |>) s else s in
  (is_flush st, s).

(** ** Recovery *)

Definition count_flush (keep : option RobEntry) (st : PipeStats) : PipeStats :=
  let st := st <| stalls_control := incr (stalls_control st) |> <| pipeline_flushes := incr (pipeline_flushes st) |> in
  match keep with
  | Some e => if is_branch_or_jump (re_ctrl e) then st <| flushes_branch := incr (flushes_branch st) |>
              else st <| flushes_system := incr (flushes_system st) |>
  | None => st <| flushes_system := incr (flushes_system st) |>
  end.

Definition mispredict_step (keep_tag : Z) (s : O3Sys) : O3Sys :=
  let before := ob_engine (os_back s) in
  let rob := o3_rob before in
  let found := rob_find_entry rob keep_tag in
  let engine := o3_mispredict before keep_tag in
  let s := (bump (count_flush found) s) <| os_rename := [] |> in
  let s := match found with
    | Some _ =>
        bump (count_squash (length (rob_iter_after rob keep_tag)))
          (on_core (fun c => c <| l1d_mshrs := mshr_flush_after (l1d_mshrs c) keep_tag |>)
            (on_back (squash_queues keep_tag (o3_rob engine)) s))
    | None =>
        bump (count_squash (rob_len rob))
          (on_core (fun c => c <| l1d_mshrs := mshr_flush (l1d_mshrs c) |>) (on_back flush_queues s))
    end in
  let rebuilds := match ct_find_by_tag (o3_checkpoints before) keep_tag with
                  | Some _ => negb (0 <? ct_capacity (o3_checkpoints before))%nat
                  | None => true
                  end in
  let s := if rebuilds then bump (count_rebuild (rob_len (o3_rob engine)) (o3_width engine)) s else s in
  on_back (fun b => (retain_latches keep_tag b) <| ob_engine := engine |>) s.

(** ** Dispatch *)

Definition dispatch_one (s : O3Sys) (entry : RenameIssueEntry) : O3Sys :=
  let '(dep, u) := mdu_dispatch (ob_mdp (os_back s)) (ri_pc entry) (ri_rob_tag entry)
                     (mem_read (ri_ctrl entry)) (mem_write (ri_ctrl entry)) in
  dispatch_into_iq entry dep (on_back (fun b => b <| ob_mdp := u |>) s).
Definition dispatch_step (s : O3Sys) : O3Sys :=
  foldl dispatch_one (s <| os_rename := [] |>) (os_rename s).

Definition snapshot_mdp_stats (s : O3Sys) : O3Sys :=
  let m := mdu_stats (ob_mdp (os_back s)) in
  bump (fun st => st <| mdp_predictions_bypass := predictions_bypass m |>
                     <| mdp_predictions_wait_all := predictions_wait_all m |>
                     <| mdp_predictions_wait_for := predictions_wait_for m |>
                     <| mdp_violations := violations m |>) s.

(** ** The cycle *)

(** From Memory1 on. *)
Definition tick_rest (now : Z) (s : O3Sys) : O3Sys :=
  let '(flush_keep_tag, s) := issue_step now (memory1_step now s) in
  snapshot_mdp_stats
    match flush_keep_tag with
    | Some keep_tag => mispredict_step keep_tag s
    | None => dispatch_step s
    end.

Definition o3_tick (s : O3Sys) : O3Sys :=
  let s := tick_start s in
  let now := ob_cycle (os_back s) in
  match commit_step s with
  | Return s => s
  | Continue s =>
      match memory2_step (mshr_step now (writeback_step s)) with
      | Return s => s
      | Continue s => tick_rest now s
      end
  end.

End Tick.
Arguments O3Sys : clear implicits.
