(* ===== verification/Fetch.v ===== *)
(** The fetch stages of the frontend: [frontend/fetch1.rs] (program counter,
    prediction, translation) and [frontend/fetch2.rs] (instruction cache,
    instruction bytes and expansion). *)
From S2P Require Import Prelude Common Csr Cpu Isa Decode Rvc Policy Prefetch Cache Dram Hierarchy Soc Interconnect Commit Mshr Core Execute Memory.
Set Primitive Projections.
Local Open Scope Z_scope.

Record Fetch1Fetch2Entry := {
  ff_pc : Z; ff_paddr : Z; ff_pred_taken : bool; ff_pred_target : Z;
  ff_trap : option Trap; ff_exception_stage : option ExceptionStage;
  ff_ghr_snapshot : Ghr; ff_ras_snapshot : Z
}.

Section Fetch.
Context {X M P : Type} `{!ExtDevice X} `{!MemoryController M} `{!BranchUnit P}.
Local Abbreviation core := (Core X M P).

(** A half-word of the instruction stream, straight from memory or from the bus. *)
Definition fetch_half (c : core) (paddr : Z) : Z * core :=
  if in_ram (machine c) paddr then ram_ptr_read c (paddr - ram_start (machine c)) U16 else read_bus c U16 paddr.
Definition is_compressed (half_word : Z) : bool := negb (Z.land half_word 0x3 =? 0x3).
Definition crosses_page (pc : Z) : bool := negb (Z.shiftr pc 12 =? Z.shiftr (add64 pc 2) 12).
Definition full_word (upper_half half_word : Z) : Z := Z.lor (Z.shiftl upper_half 16) half_word.

(** The second half of a 32-bit instruction: its physical address, or the
    fault of a translation that crosses the page, and the cycles. *)
Definition upper_address (c : core) (pc paddr : Z) : (Trap + Z) * Z * core :=
  if crosses_page pc then
    let '(r, c) := core_translate c (add64 pc 2) Fetch 2 in
    (match tr_trap r with Some t => inl t | None => inr (tr_paddr r) end, tr_cycles r, c)
  else (inr (add64 paddr 2), 0, c).

(** * Fetch1 *)

(** The address fetched next, the prediction that goes with the instruction, and
    whether the group ends. *)
Record Prediction := { pd_next_pc : Z; pd_taken : bool; pd_target : Z; pd_stop : bool }.
Definition fall_through (next_pc : Z) (stop : bool) : Prediction :=
  {| pd_next_pc := next_pc; pd_taken := false; pd_target := 0; pd_stop := stop |}.
Definition follow (target : Z) : Prediction :=
  {| pd_next_pc := target; pd_taken := true; pd_target := target; pd_stop := true |}.
Definition follow_or (next_pc : Z) (stop : bool) (target : option Z) : Prediction :=
  match target with Some tgt => follow tgt | None => fall_through next_pc stop end.

Definition predict_conditional (c : core) (pc next_pc : Z) : Prediction * core :=
  let '((taken, target), bp) := predict_branch (branch_predictor (machine c)) pc in
  (follow_or next_pc false (if taken then target else None), upd_predictor (fun _ => speculate bp pc taken) c).

(** [C.BEQZ] and [C.BNEZ] *)
Definition is_compressed_branch (half_word : Z) : bool :=
  let funct3_c := Z.land (Z.shiftr half_word 13) 0x7 in
  (Z.land half_word 0x3 =? 1) && ((funct3_c =? 6) || (funct3_c =? 7)).
Definition predict_compressed (c : core) (pc next_pc half_word : Z) : Prediction * core :=
  if is_compressed_branch half_word then predict_conditional c pc next_pc else (fall_through next_pc false, c).

Definition uses_ras (rd rs1 : Z) : bool := is_link rs1 && (negb (is_link rd) || negb (rd =? rs1)).
Definition predict_standard (c : core) (pc next_pc full_inst : Z) : Prediction * core :=
  let bp := branch_predictor (machine c) in
  let rd := Z.land (Z.shiftr full_inst 7) 0x1F in
  let rs1 := Z.land (Z.shiftr full_inst 15) 0x1F in
  zmatch (Z.land full_inst 0x7F)
    [(OP_BRANCH, predict_conditional c pc next_pc);
     (OP_JAL, (follow_or next_pc false (predict_btb bp pc), c));
     (OP_JALR, (follow_or next_pc true (if uses_ras rd rs1 then predict_return bp else predict_btb bp pc), c))]
    (fall_through next_pc false, c).

Record Fetch1Loop := {
  f1_core : core; f1_pc : Z; f1_output : list Fetch1Fetch2Entry; f1_stall : Z
}.
Definition fetched (pc paddr : Z) (pd : Prediction) (trap : option Trap) (stage : option ExceptionStage) (ghr : Ghr) (ras : Z)
    : Fetch1Fetch2Entry := {|
  ff_pc := pc; ff_paddr := paddr; ff_pred_taken := pd_taken pd; ff_pred_target := pd_target pd; ff_trap := trap;
  ff_exception_stage := stage; ff_ghr_snapshot := ghr; ff_ras_snapshot := ras |}.
Definition f1_push (e : Fetch1Fetch2Entry) (st : Fetch1Loop) : Fetch1Loop := st <| f1_output := f1_output st ++ [e] |>.
Definition f1_fault (pc : Z) (t : Trap) (st : Fetch1Loop) : Fetch1Loop :=
  f1_push (fetched pc 0 (fall_through 0 true) (Some t) (Some StageFetch) ghr_default 0) st.

(** From the physical address on. *)
Definition fetch1_at (pc paddr : Z) (st : Fetch1Loop) : flow Fetch1Loop Fetch1Loop :=
  let '(half_word, c) := fetch_half (f1_core st) paddr in
  let bp := branch_predictor (machine c) in
  let finish (pd : Prediction) (c : core) (st : Fetch1Loop) : flow Fetch1Loop Fetch1Loop :=
    let st := f1_push (fetched pc paddr pd None None (snapshot_history bp) (snapshot_ras bp))
                (st <| f1_core := c |> <| f1_pc := pd_next_pc pd |>) in
    if pd_stop pd then Return st else Continue st in
  if is_compressed half_word then
    let '(pd, c) := predict_compressed c pc (add64 pc 2) half_word in finish pd c st
  else
    let '(upper, cycles, c) := upper_address c pc paddr in
    let st := st <| f1_core := c |> <| f1_stall := add64 (f1_stall st) cycles |> in
    match upper with
    | inl _ => Return (f1_push (fetched pc paddr (fall_through 0 true) None None ghr_default (snapshot_ras bp)) st)
    | inr upper_phys =>
        let '(upper_half, c) := fetch_half c upper_phys in
        let '(pd, c) := predict_standard c pc (add64 pc 4) (full_word upper_half half_word) in finish pd c st
    end.

(** One turn of the loop; [line_end] is the end of the cache line of the first
    address.  After a [break] the program counter becomes [f1_pc], whatever the
    turn has written to it. *)
Definition fetch1_body (align_mask line_end : Z) (_ : nat) (st : Fetch1Loop) : flow Fetch1Loop Fetch1Loop :=
  let pc := f1_pc st in
  if line_end <? add64 pc 2 then Return st
  else if negb (Z.land pc align_mask =? 0) then
    match f1_output st with
    | [] => Return (f1_fault pc (InstructionAddressMisaligned pc) st)
    | _ => Return st
    end
  else
    let '(r, c) := core_translate (f1_core st) pc Fetch 4 in
    let st := st <| f1_core := c |> <| f1_stall := add64 (f1_stall st) (tr_cycles r) |> in
    match tr_trap r with
    | Some t => Return (f1_fault pc t st)
    | None => fetch1_at pc (tr_paddr r) st
    end.

(** Returns the processor, the output latch and the stall counter. *)
Definition fetch1_stage (c : core) (stall : Z) : core * list Fetch1Fetch2Entry * Z :=
  let c_enabled := negb (Z.land (misa (csrs (hart c))) MISA_EXT_C =? 0) in
  let current_pc := pc (hart c) in
  let line_end := add64 (Z.lor current_pc (sub64 (i_cache_line_bytes c) 1)) 1 in
  let st := after_loop (list_scan (fetch1_body (if c_enabled then 1 else 3) line_end) (seq 0 (pipeline_width c))
              {| f1_core := c; f1_pc := current_pc; f1_output := []; f1_stall := stall |}) (fun st => st) in
  (upd_hart (fun h => h <| pc := f1_pc st |>) (f1_core st), f1_output st, f1_stall st).

(** * Fetch2 *)

(** The probe of each line of the input up to the first trap. *)
Fixpoint probe_lines (line_mask last_line : Z) (input : list Fetch1Fetch2Entry) (c : core) : Z * core :=
  match input with
  | [] => (0, c)
  | f1 :: rest =>
      match ff_trap f1 with
      | Some _ => (0, c)
      | None =>
          let this_line := Z.land (ff_paddr f1) line_mask in
          if this_line =? last_line then probe_lines line_mask last_line rest c
          else
            let '(penalty, c) := walk_hierarchy (fun h => simulate_memory_access h (ff_paddr f1) Fetch) c in
            let '(later, c) := probe_lines line_mask this_line rest c in
            (add64 penalty later, c)
      end
  end.
Definition icache_probe (input : list Fetch1Fetch2Entry) (c : core) : Z * core :=
  if cs_enabled (l1_i_cache (hart c))
  then probe_lines (not64 (sub64 (i_cache_line_bytes c) 1)) (2 ^ 64 - 1) input c
  else (0, c).

Definition delivered (f1 : Fetch1Fetch2Entry) (inst : Z) (size : InstSize) (trap : option Trap)
    (stage : option ExceptionStage) : IfIdEntry := {|
  if_pc := ff_pc f1; if_inst := inst; if_inst_size := size; if_pred_taken := ff_pred_taken f1;
  if_pred_target := ff_pred_target f1; if_trap := trap; if_exception_stage := stage;
  if_ghr_snapshot := ff_ghr_snapshot f1; if_ras_snapshot := ff_ras_snapshot f1 |}.

(** The instruction word at an address, or the trap of getting it. *)
Definition instruction_at (c : core) (pc paddr : Z) : (Trap + Z) * InstSize * Z * core :=
  let '(half_word, c) := fetch_half c paddr in
  if is_compressed half_word then
    let expanded := expand half_word in
    (if expanded =? 0 then inl (IllegalInstruction half_word) else inr expanded, Compressed, 0, c)
  else
    let '(upper, cycles, c) := upper_address c pc paddr in
    match upper with
    | inl t => (inl t, Standard, cycles, c)
    | inr upper_phys =>
        let '(upper_half, c) := fetch_half c upper_phys in
        (inr (full_word upper_half half_word), Standard, cycles, c)
    end.

Record Fetch2Loop := { f2_core : core; f2_dest : list IfIdEntry; f2_stall : Z }.
Definition f2_push (e : IfIdEntry) (st : Fetch2Loop) : Fetch2Loop := st <| f2_dest := f2_dest st ++ [e] |>.
Definition fetch2_body (f1 : Fetch1Fetch2Entry) (st : Fetch2Loop) : flow Fetch2Loop Fetch2Loop :=
  match ff_trap f1 with
  | Some _ => Return (f2_push (delivered f1 0 Standard (ff_trap f1) (ff_exception_stage f1)) st)
  | None =>
      let '(r, size, cycles, c) := instruction_at (f2_core st) (ff_pc f1) (ff_paddr f1) in
      let st := st <| f2_core := c |> <| f2_stall := add64 (f2_stall st) cycles |> in
      match r with
      | inl t => Return (f2_push (delivered f1 0 size (Some t) (Some StageFetch)) st)
      | inr inst => Continue (f2_push (delivered f1 inst size None None) st)
      end
  end.

(** Returns the processor, the output latch, the holding buffer and the stall
    counter; the input latch is left empty. *)
Definition fetch2_stage (c : core) (input : list Fetch1Fetch2Entry) (stall : Z)
    : core * list IfIdEntry * list IfIdEntry * Z :=
  let '(icache_penalty, c) := icache_probe input c in
  let stall := add64 stall icache_penalty in
  let st := after_loop (list_scan fetch2_body input {| f2_core := c; f2_dest := []; f2_stall := stall |}) (fun st => st) in
  if 0 <? icache_penalty then (f2_core st, [], f2_dest st, f2_stall st)
  else (f2_core st, f2_dest st, [], f2_stall st).

End Fetch.
