(* ===== verification/InOrderTick.v ===== *)
(** One cycle of the in-order engine: the FIFO issue unit
    ([backend/inorder/issue.rs]) and [tick], [can_accept] and [flush] of
    [backend/inorder/mod.rs], on the engine state of [InOrder]. *)
From S2P Require Import Prelude Common Rob StoreBuffer LoadQueue Rename RenameO3 InOrder Policy Prefetch Cache Cpu Dram Hierarchy Soc Interconnect Commit Latches Mshr Core Execute Memory.
Set Primitive Projections.
Local Open Scope Z_scope.

(** * Issue unit *)

Record InOrderIssueUnit := { iu_queue : list RenameIssueEntry; iu_capacity : nat }.
Definition iu_new (capacity : nat) : InOrderIssueUnit := {| iu_queue := []; iu_capacity := capacity |}.
Definition iu_available_slots (u : InOrderIssueUnit) : nat := (iu_capacity u - length (iu_queue u))%nat.
Definition iu_is_empty (u : InOrderIssueUnit) : bool := match iu_queue u with [] => true | _ => false end.
Definition iu_flush (u : InOrderIssueUnit) : InOrderIssueUnit := u <| iu_queue := [] |>.

(** An entry that does not fit is dropped (a debug assertion). *)
Definition iu_push (u : InOrderIssueUnit) (entry : RenameIssueEntry) : InOrderIssueUnit :=
  if (length (iu_queue u) <? iu_capacity u)%nat then u <| iu_queue := iu_queue u ++ [entry] |> else u.
Definition iu_dispatch (u : InOrderIssueUnit) (entries : list RenameIssueEntry) : InOrderIssueUnit :=
  foldl iu_push u entries.

(** [read_operand_by_tag] *)
Definition read_operand_by_tag (reg : Z) (is_fp : bool) (tag : option Z) (rob : Rob) (regs : RegisterFile) : option Z :=
  let from_regs := Some (if is_fp then regs_read_f regs reg else regs_read regs reg) in
  if negb is_fp && reg_is_zero reg then Some 0 else
  match tag with
  | None => from_regs
  | Some t =>
      match rob_find_entry rob t with
      | Some entry => if decide (re_state entry = Completed) then re_result entry else None
      | None => from_regs
      end
  end.

(** The serialization tests; [true] lets the head issue. *)
Definition iu_order_ready (entry : RenameIssueEntry) (rob : Rob) (sb : StoreBuffer) : bool :=
  let ctrl := ri_ctrl entry in
  let tag := ri_rob_tag entry in
  let op := system_op ctrl in
  let pred_bits := Z.land (Z.shiftr (ri_inst entry) 24) 0xF in
  if negb (bool_decide (op = SysNone)) && negb (rob_all_before_completed rob tag) then false
  else if bool_decide (op = Fence) && negb (rob_fence_pred_satisfied rob tag (has_bits pred_bits 2) (has_bits pred_bits 1))
  then false
  else if (mem_read ctrl || mem_write ctrl) && rob_has_fence_blocking rob tag (mem_read ctrl) (mem_write ctrl) then false
  else negb (mem_read ctrl && sb_has_unresolved_store_before sb tag).

(** The operands of the head, or [None] when one is not ready. *)
Definition iu_operands (entry : RenameIssueEntry) (rob : Rob) (regs : RegisterFile) : option (Z * Z * Z) :=
  let ctrl := ri_ctrl entry in
  match read_operand_by_tag (ri_rs1 entry) (rs1_fp ctrl) (ri_rs1_tag entry) rob regs,
        read_operand_by_tag (ri_rs2 entry) (rs2_fp ctrl) (ri_rs2_tag entry) rob regs,
        (if rs3_fp ctrl then read_operand_by_tag (ri_rs3 entry) true (ri_rs3_tag entry) rob regs else Some 0) with
  | Some v1, Some v2, Some v3 => Some (v1, v2, v3)
  | _, _, _ => None
  end.

(** What the head issues as, or [None] when it is blocked. *)
Definition iu_issue_head (entry : RenameIssueEntry) (rob : Rob) (sb : StoreBuffer) (regs : RegisterFile)
    : option RenameIssueEntry :=
  match ri_trap entry with
  | Some _ => Some entry
  | None =>
      if iu_order_ready entry rob sb then
        (fun '(v1, v2, v3) => entry <| ri_rv1 := v1 |> <| ri_rv2 := v2 |> <| ri_rv3 := v3 |>) <$> iu_operands entry rob regs
      else None
  end.
Fixpoint iu_select_loop (width : nat) (queue : list RenameIssueEntry) (rob : Rob) (sb : StoreBuffer) (regs : RegisterFile)
    : list RenameIssueEntry * list RenameIssueEntry :=
  match width, queue with
  | S width, entry :: rest =>
      match iu_issue_head entry rob sb regs with
      | Some issued => let '(selected, remaining) := iu_select_loop width rest rob sb regs in (issued :: selected, remaining)
      | None => ([], queue)
      end
  | _, _ => ([], queue)
  end.
Definition iu_select (u : InOrderIssueUnit) (width : nat) (rob : Rob) (sb : StoreBuffer) (regs : RegisterFile)
    : list RenameIssueEntry * InOrderIssueUnit :=
  let '(selected, remaining) := iu_select_loop width (iu_queue u) rob sb regs in (selected, u <| iu_queue := remaining |>).

(** * Rename *)

Record IoRenameLoop := {
  irn_engine : InOrderEngine; irn_input : list IdExEntry; irn_output : list RenameIssueEntry; irn_budget : nat;
  irn_stalls_dispatch : Z
}.
Definition io_rename_body (id : IdExEntry) (st : IoRenameLoop) : flow IoRenameLoop IoRenameLoop :=
  if (irn_budget st =? 0)%nat then
    Continue (st <| irn_stalls_dispatch := match irn_input st with
                                           | [] => add64 (irn_stalls_dispatch st) 1
                                           | _ => irn_stalls_dispatch st
                                           end |>
                 <| irn_input := irn_input st ++ [id] |>)
  else
    match io_rename_one id (irn_engine st) with
    | IoRenamed engine entry =>
        Continue (st <| irn_engine := engine |> <| irn_output := irn_output st ++ [entry] |>
                     <| irn_budget := (irn_budget st - 1)%nat |>)
    | IoRefused engine => Return (st <| irn_engine := engine |> <| irn_input := irn_input st ++ [id] |>)
    end.
(** [rename_stage] with [has_prf()] false. *)
Definition io_rename_stage (engine : InOrderEngine) (input : list IdExEntry) (rename_output : list RenameIssueEntry)
    (stalls_dispatch : Z) : IoRenameLoop :=
  after_loop (list_scan io_rename_body input
    {| irn_engine := engine; irn_input := []; irn_output := rename_output; irn_budget := io_can_accept engine;
       irn_stalls_dispatch := stalls_dispatch |}) (fun st => st).

(** * Engine *)

(** [InOrderEngine]: the part of [InOrder], whose count of free issue slots
    [io_view] fills in, and the rest of the struct. *)
Record IoBackend := {
  ib_engine : InOrderEngine;
  ib_issuer : InOrderIssueUnit;
  ib_execute_mem1 : list ExMem1Entry;
  ib_mem1_mem2 : list Mem1Mem2Entry;
  ib_mem2_wb : list Mem2WbEntry;
  ib_mem1_stall : Z;
  ib_cycle : Z;
  ib_committed_rename_map : RenameMap;
  ib_free_list : FreeList
}.
Definition io_view (b : IoBackend) : InOrderEngine :=
  (ib_engine b) <| io_issue_available := iu_available_slots (ib_issuer b) |>.
Definition ib_can_accept (b : IoBackend) : nat := io_can_accept (io_view b).
Definition ib_new (rob_size store_buffer_size width : nat) : IoBackend := {|
  ib_engine := {| io_rob := rob_new rob_size; io_store_buffer := sb_new store_buffer_size; io_scoreboard := scb_new;
                  io_issue_available := rob_size; io_width := width |};
  ib_issuer := iu_new rob_size; ib_execute_mem1 := []; ib_mem1_mem2 := []; ib_mem2_wb := []; ib_mem1_stall := 0;
  ib_cycle := 0; ib_committed_rename_map := rm_new; ib_free_list := fl_new 0 0 |}.
Definition ib_rob (b : IoBackend) : Rob := io_rob (ib_engine b).
Definition upd_io (f : InOrderEngine -> InOrderEngine) (b : IoBackend) : IoBackend := b <| ib_engine := f (ib_engine b) |>.

(** The arguments of [commit_stage], and the engine it leaves. *)
Definition io_lend (b : IoBackend) : Backend := {|
  be_rob := io_rob (ib_engine b); be_store_buffer := io_store_buffer (ib_engine b);
  be_scoreboard := io_scoreboard (ib_engine b); be_committed_rename_map := ib_committed_rename_map b;
  be_free_list := ib_free_list b; be_load_queue := None; be_prf := None; be_checkpoints := None |}.
Definition io_take_back (b : IoBackend) (be : Backend) : IoBackend :=
  (upd_io (fun s => s <| io_rob := be_rob be |> <| io_store_buffer := be_store_buffer be |>
                      <| io_scoreboard := be_scoreboard be |>) b)
    <| ib_committed_rename_map := be_committed_rename_map be |> <| ib_free_list := be_free_list be |>.

Section Tick.
Context {X M P : Type} `{!ExtDevice X} `{!MemoryController M} `{!BranchUnit P} `{!FpUnit}.
Local Abbreviation core := (Core X M P).

Record IoSys := { ns_core : core; ns_back : IoBackend; ns_rename : list RenameIssueEntry }.
Definition io_on_core (f : core -> core) (s : IoSys) : IoSys := s <| ns_core := f (ns_core s) |>.
Definition io_on_back (f : IoBackend -> IoBackend) (s : IoSys) : IoSys := s <| ns_back := f (ns_back s) |>.

(** [flush] *)
Definition ib_flush (s : IoSys) : IoSys :=
  io_on_core (fun c => upd_predictor repair_to_committed (c <| l1d_mshrs := mshr_flush (l1d_mshrs c) |>))
    (io_on_back (fun b => (upd_io io_flush b) <| ib_issuer := iu_flush (ib_issuer b) |> <| ib_execute_mem1 := [] |>
                            <| ib_mem1_mem2 := [] |> <| ib_mem2_wb := [] |> <| ib_mem1_stall := 0 |>) s).

(** The cycle count and the completed misses. *)
Definition io_tick_start (s : IoSys) : IoSys :=
  let b := ns_back s in
  let now := add64 (ib_cycle b) 1 in
  let '(c, latch) := drain_mshrs now (ns_core s) (ib_mem1_mem2 b) in
  s <| ns_core := c |> <| ns_back := b <| ib_cycle := now |> <| ib_mem1_mem2 := latch |> |>.

Definition io_run_commit (s : IoSys) : option (Trap * Z) * IoSys :=
  let b := ns_back s in
  let '(t, m, be) := commit_stage (io_width (ib_engine b)) (machine (ns_core s)) (io_lend b) in
  (t, s <| ns_core := (ns_core s) <| machine := m |> |> <| ns_back := io_take_back b be |>).
Definition io_take_trap (t : Trap) (epc : Z) (s : IoSys) : IoSys :=
  io_on_core (upd_machine (fun m =>
                let m := upd_cpu (fun h => trap h t epc) (m <| redirect_pending := true |>) in
                m <| committed_next_pc := pc (cpu m) |>)) (ib_flush s).
Definition io_commit_step (s : IoSys) : flow IoSys IoSys :=
  let pc_before_commit := pc (hart (ns_core s)) in
  match io_run_commit s with
  | (Some (t, epc), s) => Return (io_take_trap t epc s)
  | (None, s) =>
      if negb (pc (hart (ns_core s)) =? pc_before_commit) then Return ((ib_flush s) <| ns_rename := [] |>) else Continue s
  end.

Definition io_writeback_step (s : IoSys) : IoSys :=
  io_on_back (fun b => (upd_io (fun e => e <| io_rob := writeback_stage (ib_mem2_wb b) (io_rob e) |>) b)
                         <| ib_mem2_wb := [] |>) s.

(** Without a load queue there are no violations. *)
Definition io_memory2_step (s : IoSys) : IoSys :=
  let b := ns_back s in
  let st := memory2_stage (ns_core s) (ib_mem1_mem2 b) (io_store_buffer (ib_engine b)) None in
  s <| ns_core := m2_core st |>
    <| ns_back := (upd_io (fun e => e <| io_store_buffer := m2_sb st |>) b)
                    <| ib_mem1_mem2 := m2_input st |> <| ib_mem2_wb := m2_output st |> |>.

(** The longest remaining latency in the latch. *)
Definition latch_stall (now : Z) (l : list Mem1Mem2Entry) : Z :=
  foldr Z.max 0 ((fun e => Z.max 0 (mm_complete_cycle e - now)) <$> l).
Definition io_memory1_step (s : IoSys) : IoSys :=
  let b := ns_back s in
  if 0 <? ib_mem1_stall b then
    io_on_core (count (fun st => st <| stalls_mem := incr (stalls_mem st) |>))
      (s <| ns_back := b <| ib_mem1_stall := ib_mem1_stall b - 1 |> |>)
  else
    let st := memory1_stage (ns_core s) (ib_execute_mem1 b) (ib_mem1_mem2 b) (ib_cycle b) None in
    s <| ns_core := m1_core st |>
      <| ns_back := b <| ib_execute_mem1 := m1_input st |> <| ib_mem1_mem2 := m1_output st |>
                      <| ib_mem1_stall := latch_stall (ib_cycle b) (m1_output st) |> |>.

Definition inflight_fp_flags (b : IoBackend) : Z :=
  foldl Z.lor 0 ((ex_fp_flags <$> ib_execute_mem1 b) ++ (mm_fp_flags <$> ib_mem1_mem2 b) ++ (mw_fp_flags <$> ib_mem2_wb b)).

(** Issue and execution, skipped under backpressure; whether the pipeline needs a flush. *)
Definition io_issue_step (s : IoSys) : bool * IoSys :=
  let b := ns_back s in
  match ib_execute_mem1 b with
  | _ :: _ => (false, s)
  | [] =>
      let e := ib_engine b in
      let '(issued, issuer) := iu_select (ib_issuer b) (io_width e) (io_rob e) (io_store_buffer e) (regs (hart (ns_core s))) in
      let c := match issued with
               | [] => if iu_is_empty issuer then ns_core s
                       else count (fun st => st <| stalls_data := incr (stalls_data st) |>) (ns_core s)
               | _ => ns_core s
               end in
      let '(results, needs_flush, c, rob) := execute_inorder c issued (io_rob e) (inflight_fp_flags b) in
      (needs_flush,
       s <| ns_core := c |>
         <| ns_back := (upd_io (fun e => e <| io_rob := rob |>) b) <| ib_issuer := issuer |>
                         <| ib_execute_mem1 := ib_execute_mem1 b ++ results |> |>)
  end.

Definition io_redirect_step (s : IoSys) : IoSys :=
  let s := io_on_core (count (fun st => st <| stalls_control := incr (stalls_control st) |>
                                           <| pipeline_flushes := incr (pipeline_flushes st) |>)) s in
  (io_on_back (fun b => (upd_io (fun e => io_redirect e (ex_rob_tag <$> last (ib_execute_mem1 b))) b)
                          <| ib_issuer := iu_flush (ib_issuer b) |> <| ib_mem1_stall := 0 |>) s) <| ns_rename := [] |>.
Definition io_dispatch_step (s : IoSys) : IoSys :=
  (io_on_back (fun b => b <| ib_issuer := iu_dispatch (ib_issuer b) (ns_rename s) |>) s) <| ns_rename := [] |>.

(** From writeback on. *)
Definition io_tick_rest (s : IoSys) : IoSys :=
  let '(needs_flush, s) := io_issue_step (io_memory1_step (io_memory2_step (io_writeback_step s))) in
  if needs_flush then io_redirect_step s else io_dispatch_step s.

Definition io_tick (s : IoSys) : IoSys :=
  match io_commit_step (io_tick_start s) with
  | Return s => s
  | Continue s => io_tick_rest s
  end.

End Tick.
Arguments IoSys : clear implicits.
