(* ===== verification/Pipeline.v ===== *)
(** The frontend ([frontend/mod.rs]) and the whole pipeline
    ([core/pipeline/engine.rs]): one cycle from fetch to commit over either
    execution engine. *)
From S2P Require Import Prelude Common Rob RobSpec Rename RenameO3 InOrder Policy Prefetch Cache Cpu Alu Isa Decode DecodeSpec Dram Hierarchy Soc Interconnect Commit CommitProps Latches MemDep IssueQueue Mshr Core Execute ExecuteSpec Memory O3Tick Fetch InOrderTick.
Set Primitive Projections.
Local Open Scope Z_scope.

(** [ExecutionEngine], as far as the pipeline and the rename stage call it;
    [en_rename] is [rename_stage] on the engine, [None] when it panics. *)
Class ExecutionEngine (X M P E : Type) := {
  en_tick : Core X M P -> E -> list RenameIssueEntry -> Core X M P * E * list RenameIssueEntry;
  en_flush : Core X M P -> E -> Core X M P * E;
  en_has_prf : bool;
  en_rename : Core X M P -> E -> list IdExEntry -> list RenameIssueEntry ->
              option (Core X M P * E * list IdExEntry * list RenameIssueEntry)
}.

Record Frontend := {
  fe_fetch1_fetch2 : list Fetch1Fetch2Entry;
  fe_fetch2_decode : list IfIdEntry;
  fe_decode_rename : list IdExEntry;
  fe_fetch1_stall : Z;
  fe_fetch2_stall : Z;
  fe_fetch2_pending : list IfIdEntry
}.
(** [Frontend::new] and what [flush] leaves. *)
Definition frontend_new : Frontend := Build_Frontend [] [] [] 0 0 [].

Section Pipeline.
Context {X M P E : Type} `{!ExtDevice X} `{!MemoryController M} `{!BranchUnit P} `{!FpUnit}
  `{!ExecutionEngine X M P E}.
Local Abbreviation core := (Core X M P).

(** * Frontend *)

(** Decode runs when rename has taken everything. *)
Definition frontend_decode (c : core) (f : Frontend) : Frontend :=
  match fe_decode_rename f with
  | [] =>
      let '(input, output) := decode_stage (en_has_prf (X := X) (M := M) (P := P) (E := E)) (regs (hart c)) (fe_fetch2_decode f) [] in
      f <| fe_fetch2_decode := input |> <| fe_decode_rename := output |>
  | _ => f
  end.

Definition frontend_fetch2 (c : core) (f : Frontend) : core * Frontend :=
  if 0 <? fe_fetch2_stall f then
    let f := f <| fe_fetch2_stall := fe_fetch2_stall f - 1 |> in
    (c, if fe_fetch2_stall f =? 0
        then f <| fe_fetch2_decode := fe_fetch2_decode f ++ fe_fetch2_pending f |> <| fe_fetch2_pending := [] |> else f)
  else
    match fe_fetch2_decode f with
    | [] =>
        let '(c, output, pending, stall) := fetch2_stage c (fe_fetch1_fetch2 f) (fe_fetch2_stall f) in
        (c, f <| fe_fetch1_fetch2 := [] |> <| fe_fetch2_decode := output |> <| fe_fetch2_pending := pending |>
              <| fe_fetch2_stall := stall |>)
    | _ => (c, f)
    end.

Definition frontend_fetch1 (c : core) (f : Frontend) : core * Frontend :=
  if 0 <? fe_fetch1_stall f then (c, f <| fe_fetch1_stall := fe_fetch1_stall f - 1 |>)
  else
    match fe_fetch1_fetch2 f with
    | [] =>
        let '(c, output, stall) := fetch1_stage c (fe_fetch1_stall f) in
        (c, f <| fe_fetch1_fetch2 := output |> <| fe_fetch1_stall := stall |>)
    | _ => (c, f)
    end.

Definition frontend_tick (c : core) (f : Frontend) (e : E) (out : list RenameIssueEntry)
    : option (core * Frontend * E * list RenameIssueEntry) :=
  match en_rename c e (fe_decode_rename f) out with
  | None => None
  | Some (c, e, input, out) =>
      let '(c, f) := frontend_fetch2 c (frontend_decode c (f <| fe_decode_rename := input |>)) in
      let '(c, f) := frontend_fetch1 c f in
      Some (c, f, e, out)
  end.

(** * Pipeline *)

(** [Pipeline], with the processor it works on. *)
Record PipeState := { ps_core : core; ps_frontend : Frontend; ps_engine : E; ps_rename_output : list RenameIssueEntry }.

(** The engine's cycle and the flush of the frontend after a redirect. *)
Definition pipeline_back (s : PipeState) : PipeState :=
  let pc_before := pc (hart (ps_core s)) in
  let '(c, e, out) := en_tick (ps_core s) (ps_engine s) (ps_rename_output s) in
  let needs_frontend_flush := redirect_pending (machine c) || negb (pc (hart c) =? pc_before) in
  let c := upd_machine (fun m => m <| redirect_pending := false |>) c in
  if needs_frontend_flush
  then {| ps_core := c; ps_frontend := frontend_new; ps_engine := e; ps_rename_output := [] |}
  else {| ps_core := c; ps_frontend := ps_frontend s; ps_engine := e; ps_rename_output := out |}.

Definition halted (c : core) : bool :=
  match exit_code (hart c) with Some _ => true | None => false end || wfi_waiting (machine c).

Definition pipeline_tick (s : PipeState) : option PipeState :=
  let s := pipeline_back s in
  if halted (ps_core s) then Some s
  else
    (fun '(c, f, e, out) => {| ps_core := c; ps_frontend := f; ps_engine := e; ps_rename_output := out |})
      <$> frontend_tick (ps_core s) (ps_frontend s) (ps_engine s) (ps_rename_output s).

Definition pipeline_flush (s : PipeState) : PipeState :=
  let '(c, e) := en_flush (ps_core s) (ps_engine s) in
  {| ps_core := c; ps_frontend := frontend_new; ps_engine := e; ps_rename_output := [] |}.

(** Cycles until a panic. *)
Fixpoint pipeline_run (n : nat) (s : PipeState) : option PipeState :=
  match n with
  | O => Some s
  | S n => match pipeline_tick s with Some s => pipeline_run n s | None => None end
  end.

End Pipeline.
Arguments PipeState : clear implicits.

(** * The two engines *)

Section Engines.
Context {X M P : Type} `{!ExtDevice X} `{!MemoryController M} `{!BranchUnit P} `{!FpUnit}.
Local Abbreviation core := (Core X M P).

#[export] Instance inorder_execution : ExecutionEngine X M P IoBackend := {|
  en_tick c b out := let s := io_tick {| ns_core := c; ns_back := b; ns_rename := out |} in (ns_core s, ns_back s, ns_rename s);
  en_flush c b := let s := ib_flush {| ns_core := c; ns_back := b; ns_rename := [] |} in (ns_core s, ns_back s);
  en_has_prf := false;
  en_rename c b input out :=
    let st := io_rename_stage (io_view b) input out (stalls_dispatch (pipe_stats c)) in
    Some (count (fun ps => ps <| stalls_dispatch := irn_stalls_dispatch st |>) c,
          b <| ib_engine := irn_engine st |>, irn_input st, irn_output st) |}.

#[export] Instance o3_execution : ExecutionEngine X M P O3Backend := {|
  en_tick c b out := let s := o3_tick {| os_core := c; os_back := b; os_rename := out |} in (os_core s, os_back s, os_rename s);
  en_flush c b := let s := ob_flush {| os_core := c; os_back := b; os_rename := [] |} in (os_core s, os_back s);
  en_has_prf := true;
  en_rename c b input out :=
    match o3_rename_stage (o3_view b) input out (stalls_dispatch (pipe_stats c)) (stalls_checkpoint (pipe_stats c)) with
    | Continue st | Return (Broke st) =>
        Some (count (fun ps => ps <| stalls_dispatch := rn_stalls_dispatch st |>
                                  <| stalls_checkpoint := rn_stalls_checkpoint st |>) c,
              b <| ob_engine := rn_engine st |>, rn_input st, rn_output st)
    | Return RenamePanic => None
    end |}.

End Engines.

(** A program on the whole model: both pipelines run it, from the cold caches
    of a reset machine, and leave the registers it should.  It has a loop with
    a mispredicted branch, a load that misses, a store forwarded to a load, an atomic and CSR
    accesses. *)
Definition demo_program : list instr :=
  [I_OpImm Add false 5 0 0;
   I_OpImm Add false 6 0 5;
   I_Auipc 7 0;
   I_Load WDouble true 14 7 0x400;
   I_Op Add false 5 5 6;                      (* the loop *)
   I_OpImm Add false 6 6 (-1);
   I_Branch Bne 6 0 (-8);
   I_Store WWord 5 7 0x200;
   I_Load WWord true 8 7 0x200;
   I_OpImm Add false 10 7 0x200;
   I_Amo AtomicAdd WWord 0 9 10 8;
   I_Load WWord true 11 10 0;
   I_Csr Rw 12 11 0x340;
   I_Csr Rs 13 0 0x340;
   I_Jal 0 0].

Definition load_program (prog : list instr) (sh : Shared) : Shared :=
  foldl (fun sh '(i, w) => dram_write sh (4 * Z.of_nat i) 4 w) sh (imap pair (omap encode prog)).
Definition demo_machine_with (prog : list instr) : Core Empty_set SimpleController unit :=
  upd_machine (fun m => m <| bus := (bus m) <| shared := load_program prog (shared (bus m)) |> |>) demo_core.

Definition demo_inorder (prog : list instr) : PipeState Empty_set SimpleController unit IoBackend := {|
  ps_core := demo_machine_with prog; ps_frontend := frontend_new; ps_engine := ib_new 8 4 2; ps_rename_output := [] |}.

Definition demo_o3_config : O3BackendConfig := {|
  obc_engine := {| cfg_rob_size := 8; cfg_store_buffer_size := 4; cfg_load_queue_size := 4; cfg_prf_gpr_size := 48;
                   cfg_prf_fpr_size := 40; cfg_issue_queue_size := 8; cfg_width := 2; cfg_checkpoint_count := 2 |};
  obc_fu := fu_config_default; obc_load_ports := 1; obc_store_ports := 1;
  obc_mdp := Some {| ssit_size := 64; lfst_size := 16; cfg_ssit_clear_interval := 1000 |} |}.
Definition demo_o3 (prog : list instr) : PipeState Empty_set SimpleController unit O3Backend := {|
  ps_core := demo_machine_with prog; ps_frontend := frontend_new; ps_engine := ob_new demo_o3_config;
  ps_rename_output := [] |}.

Definition demo_registers {E} (rs : list Z) (s : option (PipeState Empty_set SimpleController unit E)) : option (list Z) :=
  (fun s => (fun r => regs_read (regs (hart (ps_core s))) r) <$> rs) <$> s.

Example inorder_runs_program :
  demo_registers [5; 6; 7; 8; 9; 11; 12; 13; 14] (pipeline_run 300 (demo_inorder demo_program)) =
  Some [15; 0; 0x80000008; 15; 15; 30; 0; 30; 0].
Proof. vm_compute. reflexivity. Qed.

Example o3_runs_program :
  demo_registers [5; 6; 7; 8; 9; 11; 12; 13; 14] (pipeline_run 400 (demo_o3 demo_program)) =
  Some [15; 0; 0x80000008; 15; 15; 30; 0; 30; 0].
Proof. vm_compute. reflexivity. Qed.

(** A store that commits while its own miss is outstanding installs the line,
    and so does the miss when it completes: afterwards both ways of set 0 hold
    the same line, in either engine. *)
Definition demo_l1d_set0 {E} (s : option (PipeState Empty_set SimpleController unit E)) : option (list (Z * bool)) :=
  (fun s => (fun l => (cl_tag l, cl_valid l)) <$> take 2 (cs_lines (l1_d_cache (hart (ps_core s))))) <$> s.

Example completed_miss_duplicates_line :
  demo_l1d_set0 (pipeline_run 300 (demo_inorder demo_program)) = Some [(0x1000004, true); (0x1000004, true)] /\
  demo_l1d_set0 (pipeline_run 400 (demo_o3 demo_program)) = Some [(0x1000004, true); (0x1000004, true)].
Proof. split; vm_compute; reflexivity. Qed.
