(* ===== verification/Flight.v ===== *)
(** Where the instructions in flight are: what the stages shared by the two
    engines do to the states of the reorder buffer and to the tags that the
    latches and the miss registers hold. *)
From S2P Require Import Prelude Ring Common Rob RobSpec RobProps StoreBuffer LoadQueue Rename RenameO3 Policy Prefetch Cache Csr Cpu Isa Decode Dram Hierarchy Soc Interconnect Commit CommitSpec Latches Mshr Core Execute Memory Fetch Pipeline.
Local Open Scope Z_scope.

(** * The reorder buffer *)

(** The invariant of the buffer after [n] allocations; faults carry their trap. *)
Definition rob_ok (r : Rob) (n : Z) : Prop :=
  exists ss, rob_inv r ss n /\ faults_ok (rob_queue r) /\ Forall (fun s => 0 <= s) ss.

(** [places] hold the instructions whose result is outstanding: each of them
    exactly once, and nothing that is complete or no longer in flight. *)
Record covered (q : list RobEntry) (places : list Z) : Prop := {
  cv_once : NoDup places;
  cv_open : forall t, t ∈ places -> exists e, e ∈ q /\ re_tag e = t /\ re_state e <> Completed;
  cv_held : forall e, e ∈ q -> re_state e = Issued -> re_tag e ∈ places
}.

(** One entry after a stage that settles the instructions [ts]. *)
Record settles (ts : list Z) (e e' : RobEntry) : Prop := {
  st_tag : re_tag e' = re_tag e;
  st_state : re_state e' = re_state e \/ re_state e' = Faulted \/ (re_tag e ∈ ts /\ re_state e' = Completed);
  st_settled : re_tag e ∈ ts -> re_state e' <> Issued
}.
Definition rob_evolves (ts : list Z) (r r' : Rob) : Prop :=
  forall n, rob_ok r n -> rob_ok r' n /\ Forall2 (settles ts) (rob_queue r) (rob_queue r').

Lemma tag_unique q e e' : NoDup (re_tag <$> q) -> e ∈ q -> e' ∈ q -> re_tag e = re_tag e' -> e = e'.
Proof.
  intros HN [i Hi]%list_elem_of_lookup [j Hj]%list_elem_of_lookup E.
  assert (i = j) as ->; [|congruence]. eapply (NoDup_lookup _ i j (re_tag e) HN); rewrite list_lookup_fmap.
  - by rewrite Hi.
  - rewrite Hj, E. done.
Qed.

Lemma covered_perm q p p' : p ≡ₚ p' -> covered q p -> covered q p'.
Proof. intros Hp [H1 H2 H3]. split; [by rewrite <-Hp|intros t; rewrite <-Hp; apply H2|intros e; rewrite <-Hp; apply H3]. Qed.

Lemma covered_nil : covered [] [].
Proof. split; [constructor|intros t; by rewrite elem_of_nil|intros e; by rewrite elem_of_nil]. Qed.

(** Retirement of complete instructions. *)
Lemma covered_retire done q p : Forall (fun e => re_state e = Completed) done -> covered (done ++ q) p -> covered q p.
Proof.
  intros Hd [H1 H2 H3]. split; [done| |].
  - intros t Ht. destruct (H2 t Ht) as (e & He & Et & Es). exists e. split; [|done].
    apply elem_of_app in He as [He|He]; [|done]. rewrite Forall_forall in Hd. by destruct Es; apply Hd.
  - intros e He. apply H3. set_solver.
Qed.

(** Nothing that has yet to issue retires. *)
Lemma retire_young done q w p :
  NoDup (re_tag <$> done ++ q) -> Forall (fun e => re_state e = Completed) done -> covered (done ++ q) (w ++ p) ->
  w `suffix_of` (re_tag <$> done ++ q) -> w `suffix_of` (re_tag <$> q).
Proof.
  intros HN Hd [_ Hop _] [pre E]. rewrite fmap_app in E.
  destruct (decide (length (re_tag <$> done) <= length pre)%nat) as [Hle|Hle].
  { exists (drop (length (re_tag <$> done)) pre). apply (f_equal (drop (length (re_tag <$> done)))) in E.
    rewrite drop_app_length, drop_app_le in E by done. done. }
  exfalso. destruct (lookup_lt_is_Some_2 (re_tag <$> done) (length pre)) as [t Ht]; [lia|].
  assert (Hw : t ∈ w).
  { pose proof (f_equal (fun l => l !! length pre) E) as El. simpl in El. rewrite lookup_app_l in El by lia.
    rewrite Ht in El. symmetry in El. rewrite lookup_app_r, Nat.sub_diag in El by lia. by eapply list_elem_of_lookup_2. }
  destruct (Hop t) as (e & He & Et & Es); [set_solver|]. apply Es.
  apply list_elem_of_lookup_2 in Ht. apply list_elem_of_fmap in Ht as (e' & -> & He').
  rewrite Forall_forall in Hd. rewrite (tag_unique (done ++ q) e e'); [by apply Hd|done|done|set_solver|done].
Qed.

Lemma covered_settle ts q q' p : Forall2 (settles ts) q q' -> covered q (ts ++ p) -> covered q' p.
Proof.
  intros Hq [H1 H2 H3]. apply NoDup_app in H1 as (_ & Hd & H1). split; [done| |].
  - intros t Ht. destruct (H2 t) as (e & He & <- & Es); [set_solver|].
    apply list_elem_of_lookup in He as [k Hk]. destruct (Forall2_lookup_l _ _ _ _ _ Hq Hk) as (e' & Hk' & [E1 E2 _]).
    exists e'. split; [by eapply list_elem_of_lookup_2|]. split; [done|].
    destruct E2 as [->|[->|[Hin _]]]; [done|done|]. by destruct (Hd _ Hin).
  - intros e' He' Hi. apply list_elem_of_lookup in He' as [k Hk'].
    destruct (Forall2_lookup_r _ _ _ _ _ Hq Hk') as (e & Hk & [E1 E2 E3]). rewrite E1.
    assert (He : re_state e = Issued) by (destruct E2 as [E|[E|[_ E]]]; congruence).
    pose proof (H3 e (list_elem_of_lookup_2 _ _ _ Hk) He) as Hin. apply elem_of_app in Hin as [Hin|]; [|done].
    by destruct (E3 Hin).
Qed.

(** Renaming adds an instruction. *)
Lemma covered_snoc q e p : re_state e = Issued -> re_tag e ∉ re_tag <$> q -> covered q p -> covered (q ++ [e]) (p ++ [re_tag e]).
Proof.
  intros He Hn [H1 H2 H3]. split.
  - apply NoDup_app. split_and!; [done| |apply NoDup_singleton]. intros t Ht ->%list_elem_of_singleton.
    destruct (H2 _ Ht) as (e' & He' & Et & _). apply Hn. rewrite <-Et. by apply list_elem_of_fmap_2.
  - intros t [Ht| ->%list_elem_of_singleton]%elem_of_app; [|exists e; rewrite He; set_solver].
    destruct (H2 _ Ht) as (e' & ? & ?). exists e'. set_solver.
  - intros e' [He'| ->%list_elem_of_singleton]%elem_of_app Hi; [|set_solver]. apply elem_of_app. left. by apply H3.
Qed.

(** A squash of everything after the first [k] instructions. *)
Lemma covered_take k q p :
  NoDup (re_tag <$> q) -> covered q p -> covered (take k q) (filter (fun t => t ∈ re_tag <$> take k q) p).
Proof.
  intros HN [H1 H2 H3]. split; [by apply NoDup_filter| |].
  - intros t [Hin Ht]%list_elem_of_filter. destruct (H2 _ Ht) as (e & He & Et & Es).
    apply list_elem_of_fmap in Hin as (e' & -> & He'). exists e'. split; [done|]. split; [done|].
    enough (e' = e) by congruence. apply (tag_unique q); [done| |done|done]. rewrite <-(take_drop k q). set_solver.
  - intros e He Hi. apply list_elem_of_filter. split; [by apply list_elem_of_fmap_2|].
    apply H3; [|done]. rewrite <-(take_drop k q). set_solver.
Qed.

(** ** Composing *)

Lemma settles_refl q : Forall2 (settles []) q q.
Proof. apply Forall2_same_length_lookup. split; [done|]. intros i x y Hx Hy. assert (x = y) as -> by congruence. split; [done|by left|set_solver]. Qed.

Lemma settles_trans ts1 ts2 q q1 q2 :
  Forall2 (settles ts1) q q1 -> Forall2 (settles ts2) q1 q2 -> Forall2 (settles (ts1 ++ ts2)) q q2.
Proof.
  intros H1. revert q2. induction H1 as [|e e1 q q1 He _ IH]; intros q2 H2; inversion H2 as [|? e2 ? ? He2 H2']; subst; [constructor|].
  constructor; [|by apply IH]. destruct He as [T1 S1 D1], He2 as [T2 S2 D2]. rewrite T1 in S2, D2. split.
  - congruence.
  - rewrite elem_of_app. destruct S2 as [->|[->|[? ->]]]; [|by right; left|right; right; split; [by right|done]].
    destruct S1 as [->|[->|[? ->]]]; [by left|by right; left|right; right; split; [by left|done]].
  - intros [Hin|Hin]%elem_of_app; [|by apply D2]. specialize (D1 Hin). destruct S2 as [->|[->|[? ->]]]; done.
Qed.

Lemma evolves_refl r : rob_evolves [] r r.
Proof. intros n H. split; [done|apply settles_refl]. Qed.

Lemma evolves_trans ts1 ts2 r r1 r2 : rob_evolves ts1 r r1 -> rob_evolves ts2 r1 r2 -> rob_evolves (ts1 ++ ts2) r r2.
Proof.
  intros H1 H2 n Hn. destruct (H1 n Hn) as [Hn1 Hq1]. destruct (H2 n Hn1) as [Hn2 Hq2].
  split; [done|by eapply settles_trans].
Qed.
Lemma evolves_trans0 r r1 r2 : rob_evolves [] r r1 -> rob_evolves [] r1 r2 -> rob_evolves [] r r2.
Proof. apply evolves_trans. Qed.

(** ** Operations *)

Lemma modify_evolves ts r tag edit :
  edit_ok edit -> (forall e, re_tag e = tag -> settles ts e (edit e)) -> (forall t, t ∈ ts -> t = tag) ->
  (forall e, re_state (edit e) = Faulted -> re_state e = Faulted /\ re_trap (edit e) = re_trap e \/ is_Some (re_trap (edit e))) ->
  rob_evolves ts r (rob_modify r tag edit).
Proof.
  intros Hed Hs Hts Hf n (ss & I & F & Z0). destruct (rob_modify_refines r ss n tag edit I Hed) as [I' Ha].
  apply (f_equal q_entries) in Ha. simpl in Ha. split.
  - exists ss. split; [done|]. split; [|done]. unfold faults_ok. rewrite Ha. unfold modify_tag. apply Forall_fmap.
    eapply Forall_impl; [exact F|]. intros e He. simpl. destruct (_ =? _); [|done]. intros Hfe.
    destruct (Hf e Hfe) as [[H1 ->]|?]; [by apply He|done].
  - rewrite Ha. unfold modify_tag. apply Forall2_fmap_r, Forall2_same_length_lookup. split; [done|].
    intros i x y Hx Hy. assert (x = y) as <- by congruence. change (settles ts x (if re_tag x =? tag then edit x else x)).
    destruct (Z.eqb_spec (re_tag x) tag) as [Hx'|Hx']; [by apply Hs|].
    split; [done|by left|]. intros Hin. by apply Hts in Hin.
Qed.

(** Edits that leave the state alone. *)
Lemma quiet_evolves r tag edit :
  (forall e, re_tag (edit e) = re_tag e /\ re_valid (edit e) = re_valid e /\ re_state (edit e) = re_state e /\ re_trap (edit e) = re_trap e) ->
  rob_evolves [] r (rob_modify r tag edit).
Proof.
  intros H. apply modify_evolves.
  - intros e. by destruct (H e) as (? & ? & _).
  - intros e _. destruct (H e) as (? & _ & ? & _). split; [done|by left|set_solver].
  - set_solver.
  - intros e. destruct (H e) as (_ & _ & -> & ->). by left.
Qed.

Lemma complete_evolves r tag v : rob_evolves [tag] r (rob_complete r tag v).
Proof.
  apply modify_evolves.
  - intros e. unfold edit_complete. by case_decide.
  - intros e Ht. unfold edit_complete. case_decide as D; (split; [done| |by simpl; congruence]).
    + by left.
    + right. right. simpl. split; [by rewrite Ht; left|done].
  - by intros t ->%list_elem_of_singleton.
  - intros e. unfold edit_complete. case_decide; [by left|]. done.
Qed.

Lemma fault_evolves ts r tag t s : (forall x, x ∈ ts -> x = tag) -> rob_evolves ts r (rob_fault r tag t s).
Proof.
  intros Hts. apply modify_evolves; [done| |done|by right].
  intros e Ht. split; [done|by right; left|done].
Qed.
Lemma fault_evolves0 r tag t s : rob_evolves [] r (rob_fault r tag t s).
Proof. apply fault_evolves. set_solver. Qed.
Lemma fault_evolves1 r tag t s : rob_evolves [tag] r (rob_fault r tag t s).
Proof. apply fault_evolves. set_solver. Qed.

Lemma drain_evolves r tag : rob_evolves [] r (rob_drain_fp_flags_before r tag).1.
Proof.
  intros n (ss & I & F & Z0). destruct (rob_drain_refines r ss n tag I) as [I' Ha].
  apply (f_equal fst) in Ha. apply (f_equal q_entries) in Ha. simpl in Ha. split.
  - exists ss. split; [done|]. split; [|done]. unfold faults_ok. rewrite Ha. apply Forall_fmap. eapply Forall_impl; [exact F|].
    intros e He. simpl. by destruct (is_older_than _ _).
  - rewrite Ha. apply Forall2_fmap_r, Forall2_same_length_lookup. split; [done|]. intros i x y Hx Hy.
    assert (x = y) as <- by congruence. split; [by destruct (is_older_than _ _)|left; by destruct (is_older_than _ _)|set_solver].
Qed.

Create HintDb flight.
#[export] Hint Resolve evolves_refl fault_evolves0 fault_evolves1 complete_evolves drain_evolves : flight.
#[export] Hint Extern 1 (rob_evolves [] _ (illegal_inst _ _)) => apply fault_evolves0 : flight.

(** * The shared stages *)

Lemma fmap_snoc_at {A B} (f : A -> B) l a b : f a = b -> f <$> (l ++ [a]) = (f <$> l) ++ [b].
Proof. intros <-. by rewrite fmap_app. Qed.

Lemma writeback_one_evolves r wb : rob_evolves [mw_rob_tag wb] r (writeback_one r wb).
Proof.
  unfold writeback_one. destruct (mw_trap wb) as [t|]; [auto with flight|].
  set (tag := mw_rob_tag wb).
  set (r1 := if negb _ then _ else r). assert (H1 : rob_evolves [] r r1)
    by (unfold r1; destruct (negb _); [by apply quiet_evolves|apply evolves_refl]).
  set (r2 := match mw_pte_update wb with Some _ => _ | None => _ end). assert (H2 : rob_evolves [] r1 r2)
    by (unfold r2; destruct (mw_pte_update wb); [by apply quiet_evolves|apply evolves_refl]).
  set (r3 := match mw_sfence_vma wb with Some _ => _ | None => _ end). assert (H3 : rob_evolves [] r2 r3)
    by (unfold r3; destruct (mw_sfence_vma wb); [by apply quiet_evolves|apply evolves_refl]).
  set (r4 := match mw_lr_sc wb with Some _ => _ | None => _ end). assert (H4 : rob_evolves [] r3 r4)
    by (unfold r4; destruct (mw_lr_sc wb); [by apply quiet_evolves|apply evolves_refl]).
  apply (evolves_trans [] [tag] r r4); [|apply complete_evolves].
  repeat (eapply evolves_trans0; [eassumption|]). apply evolves_refl.
Qed.

Lemma writeback_evolves l r : rob_evolves (mw_rob_tag <$> l) r (writeback_stage l r).
Proof.
  unfold writeback_stage. revert r. induction l as [|wb l IH]; intros r; [apply evolves_refl|].
  exact (evolves_trans [_] _ r _ _ (writeback_one_evolves r wb) (IH _)).
Qed.

Section Execute.
Context {X M P : Type} `{!BranchUnit P} `{!FpUnit}.
Local Abbreviation core := (Core X M P).

(** What both engines' execution keeps: the tag of the instruction, the miss
    registers, and every state of the reorder buffer but its own, which may fault. *)
Record exec_keeps (c : core) (id : RenameIssueEntry) (rob : Rob) (res : exec_result (X := X) (M := M) (P := P)) : Prop := {
  xk_tag : ex_rob_tag res.1.1.1 = ri_rob_tag id;
  xk_trap : ex_trap res.1.1.1 = None;
  xk_mshrs : l1d_mshrs res.1.2 = l1d_mshrs c;
  xk_rob : rob_evolves [] rob res.2
}.

Lemma resolve_control_keeps id (c : core) rob :
  let '(_, c', rob') := resolve_control id c rob in l1d_mshrs c' = l1d_mshrs c /\ rob_evolves [] rob rob'.
Proof.
  unfold resolve_control. destruct (control_flow _); [by split; [|apply evolves_refl]|..].
  - unfold resolve_branch. split; [by destruct (negb _)|by apply quiet_evolves].
  - unfold resolve_jump. split; [|by apply quiet_evolves]. by destruct (negb (_ =? predicted_next _)), (is_link (ri_rd id)), (_ && is_link _), (ri_rd id =? ri_rs1 id).
Qed.

Lemma csr_access_keeps id extra (c : core) rob :
  let '(_, c', rob') := csr_access id extra c rob in l1d_mshrs c' = l1d_mshrs c /\ rob_evolves [] rob rob'.
Proof.
  unfold csr_access. pose proof (drain_evolves rob (ri_rob_tag id)) as D.
  destruct (rob_drain_fp_flags_before rob (ri_rob_tag id)) as [r' acc]. simpl in D.
  destruct (reads_fp_csr _); (split; [by destruct (time_panics _ _)|]); destruct (would_write id); try done; try apply evolves_refl;
    [|by apply quiet_evolves]. eapply evolves_trans0; [exact D|by apply quiet_evolves].
Qed.

Lemma execute_one_keeps (c : core) id rob : exec_keeps c id rob (execute_one c id rob).
Proof.
  unfold execute_one. destruct (ri_trap id); [split; simpl; auto with flight|].
  destruct (decide _); [split; simpl; auto with flight|]. destruct (_ && _).
  - unfold execute_system. cbv zeta. set (rest := if _ =? ECALL then _ else _).
    assert (A : exec_keeps c id rob rest).
    { unfold rest. destruct (_ =? ECALL); [split; simpl; auto with flight|].
      destruct (csr_op _); [split; simpl; auto with flight|..]; (unfold execute_csr; destruct (csr_denied _ _);
        [split; simpl; auto with flight|]; pose proof (csr_access_keeps id 0 c rob) as K;
        destruct (csr_access id 0 c rob) as [[old c'] rob']; destruct K; split; simpl; try done; by destruct (would_write id)). }
    clearbody rest. destruct (system_op _); try done; destruct (system_denied _ _); split; simpl; auto with flight.
  - destruct (fp_off _ _); [split; simpl; auto with flight|]. destruct (compute_alu _ _ _ _ _) as [a f].
    pose proof (resolve_control_keeps id c rob) as K. destruct (resolve_control id c rob) as [[fl c'] rob'].
    destruct K. by split.
Qed.

Lemma execute_inorder_one_keeps fl b (c : core) id rob : exec_keeps c id rob (execute_inorder_one fl b c id rob).
Proof.
  unfold execute_inorder_one, execute_inorder_system, inorder_plain. destruct (ri_trap id); [split; simpl; auto with flight|].
  assert (A : exec_keeps c id rob (execute_inorder_arith c id rob)).
  { unfold execute_inorder_arith. destruct (fp_off _ _); [split; simpl; auto with flight|]. destruct (compute_alu _ _ _ _ _) as [a f].
    pose proof (resolve_control_keeps id c rob) as K. destruct (resolve_control id c rob) as [[fl' c'] rob'].
    destruct K. by split. }
  assert (B : exec_keeps c id rob (execute_inorder_csr (Z.lor fl b) c id rob)).
  { unfold execute_inorder_csr. destruct (csr_denied _ _); [split; simpl; auto with flight|].
    pose proof (csr_access_keeps id (Z.lor fl b) c rob) as K; destruct (csr_access _ _ c rob) as [[old c'] rob'].
    destruct K; by split. }
  destruct (system_op _); try done;
    try (destruct (system_denied _ _); split; simpl; auto with flight; fail); try (split; simpl; auto with flight; fail).
  destruct (_ =? ECALL); [split; simpl; auto with flight|]. by destruct (csr_op _).
Qed.

End Execute.

(** ** Miss registers *)

Definition waiter_tags (w : MshrWaiter) : list Z :=
  match mwt_parked_entry w with Some p => [mm_rob_tag p] | None => [] end.
Definition parked_tags (f : MshrFile) : list Z := parked f ≫= waiter_tags.
Definition waiter_ok (w : MshrWaiter) : Prop := forall p, mwt_parked_entry w = Some p -> mm_rob_tag p = mwt_rob_tag w.
Record mshr_ok (f : MshrFile) : Prop := { mo_wf : mshr_wf f; mo_waiters : Forall waiter_ok (parked f) }.

Lemma mshr_new_ok cap line : mshr_ok (mshr_new cap line) /\ parked_tags (mshr_new cap line) = [].
Proof.
  assert (A : active (mshr_new cap line) = []) by (unfold active; simpl; by induction cap).
  unfold parked_tags, parked. split; [split|by rewrite A].
  - split; rewrite ?A; [simpl; by rewrite length_replicate|done|constructor].
  - unfold parked. rewrite A. constructor.
Qed.

Lemma request_parked f addr w lat now waiter :
  mshr_wf f ->
  let '(r, f') := mshr_request f addr w lat now waiter in
  mshr_wf f' /\ parked f' ≡ₚ (match r with MshrAllocated _ | MshrCoalesced _ => [waiter] | _ => [] end) ++ parked f.
Proof.
  intros Hw. pose proof (mshr_request_spec f addr w lat now waiter Hw) as H. cbv zeta in H.
  destruct (mshr_request f addr w lat now waiter) as [r f']. destruct H as (Hw' & _ & H). split; [done|].
  unfold parked. destruct r as [|c|c|]; [done| | |by destruct H as [-> _]].
  - destruct H as (_ & _ & ->). done.
  - destruct H as (e & rest & H1 & _ & _ & H2). rewrite H1, H2, !bind_cons. simpl. rewrite <-app_assoc. by rewrite Permutation_middle.
Qed.

Lemma mshr_request_ok f addr w lat now waiter :
  mshr_ok f -> waiter_ok waiter ->
  let '(r, f') := mshr_request f addr w lat now waiter in
  mshr_ok f' /\ parked_tags f' ≡ₚ (match r with MshrAllocated _ | MshrCoalesced _ => waiter_tags waiter | _ => [] end) ++ parked_tags f.
Proof.
  intros [Hw Hf] Hk. pose proof (request_parked f addr w lat now waiter Hw) as H.
  destruct (mshr_request f addr w lat now waiter) as [r f']. destruct H as [Hw' H]. split; [split; [done|]|].
  - rewrite H. apply Forall_app. split; [|done]. destruct r; auto.
  - unfold parked_tags. rewrite H, bind_app. destruct r; simpl; by rewrite ?app_nil_r.
Qed.

(** Completions: the waiters leave the file and their parked accesses the latch. *)
Lemma resumed_tags now e : mm_rob_tag <$> resumed now e = ms_waiters e ≫= waiter_tags.
Proof.
  unfold resumed. induction (ms_waiters e) as [|w l IH]; [done|]. rewrite bind_cons, <-IH. unfold waiter_tags. simpl.
  by destruct (mwt_parked_entry w).
Qed.

Lemma completed_fold {X M P} now (l : list MshrEntry) (c : Core X M P) latch :
  let '(c', latch') := foldl (fun '(c, latch) e => (install_completed e c, latch ++ resumed now e)) (c, latch) l in
  l1d_mshrs c' = l1d_mshrs c /\ latch' = latch ++ (l ≫= resumed now).
Proof.
  revert c latch. induction l as [|e l IH]; intros c latch; [by rewrite app_nil_r|]. simpl foldl.
  specialize (IH (install_completed e c) (latch ++ resumed now e)). destruct (foldl _ _ l) as [c' latch'].
  destruct IH as [-> ->]. rewrite bind_cons, app_assoc. split; [|done]. unfold install_completed.
  by destruct (install_line_public_tracked _ _ _ _) as [[]].
Qed.

Lemma bind_resumed now l : mm_rob_tag <$> (l ≫= resumed now) = (l ≫= ms_waiters) ≫= waiter_tags.
Proof. induction l as [|e l IH]; [done|]. rewrite !bind_cons, fmap_app, bind_app, IH, resumed_tags. done. Qed.

Lemma drain_mshrs_flight {X M P} now (c : Core X M P) latch :
  mshr_ok (l1d_mshrs c) ->
  let '(c', latch') := drain_mshrs now c latch in
  mshr_ok (l1d_mshrs c') /\
  (mm_rob_tag <$> latch') ++ parked_tags (l1d_mshrs c') ≡ₚ (mm_rob_tag <$> latch) ++ parked_tags (l1d_mshrs c).
Proof.
  intros [Hw Hf]. unfold drain_mshrs. destruct (_ <? _)%nat; [|done].
  pose proof (drain_spec (l1d_mshrs c) now Hw) as D. destruct (drain_completions _ _) as [out f'].
  destruct D as (Hw' & Ho & Ha & _).
  assert (Hp : parked (l1d_mshrs c) ≡ₚ (out ≫= ms_waiters) ++ parked f').
  { unfold parked at 1. rewrite Ha, bind_app, Ho. apply Permutation_app; [|done]. clear. induction (filter _ _) as [|x l IH]; [done|]. rewrite fmap_cons, !bind_cons. by rewrite IH. }
  pose proof (completed_fold now out (c <| l1d_mshrs := f' |>) latch) as C.
  destruct (foldl _ _ out) as [c' latch']. destruct C as [-> ->]. cbn [l1d_mshrs]. split.
  - split; [done|]. rewrite Hp in Hf. by apply Forall_app in Hf as [_ ?].
  - rewrite fmap_app, bind_resumed. unfold parked_tags. rewrite Hp, bind_app. by rewrite <-app_assoc.
Qed.

(** ** Memory1 *)

Section Mem1.
Context {X M P : Type} `{!ExtDevice X} `{!MemoryController M}.
Local Abbreviation core := (Core X M P).

Definition m1_moves (ex : ExMem1Entry) (r : m1_outcome) : Prop :=
  match r with M1Push e | M1Trap e => mm_rob_tag e = ex_rob_tag ex | _ => True end.
Definition m1_parks (ex : ExMem1Entry) (r : m1_outcome) : list Z :=
  match r with M1Park => [ex_rob_tag ex] | _ => [] end.

Definition m1_keeps (c : core) (ex : ExMem1Entry) (r : m1_outcome) (c' : core) : Prop :=
  mshr_ok (l1d_mshrs c') /\ m1_moves ex r /\ parked_tags (l1d_mshrs c') ≡ₚ m1_parks ex r ++ parked_tags (l1d_mshrs c).

Lemma core_translate_mshrs (c : core) va a size : l1d_mshrs (core_translate c va a size).2 = l1d_mshrs c.
Proof. unfold core_translate. by destruct (cpu_translate _ _ _ _ _) as [[]]. Qed.
Lemma probe_l1d_mshrs (c : core) paddr w : l1d_mshrs (probe_l1d c paddr w).2 = l1d_mshrs c.
Proof. unfold probe_l1d. by destruct (access_check _ _ _). Qed.
Lemma walk_hierarchy_mshrs f (c : core) : l1d_mshrs (walk_hierarchy f c).2 = l1d_mshrs c.
Proof. unfold walk_hierarchy. by destruct (f _). Qed.

Lemma probe_mshr_keeps (c : core) ex paddr now lat pte :
  mshr_ok (l1d_mshrs c) -> m1_keeps c ex (probe_mshr c ex paddr now lat pte).1 (probe_mshr c ex paddr now lat pte).2.
Proof.
  intros Hok. unfold probe_mshr. pose proof (probe_l1d_mshrs c paddr (mem_write (ex_ctrl ex))) as E.
  destruct (probe_l1d _ _ _) as [hit c1]. simpl in E.
  destruct hit; [split_and!; simpl; rewrite ?E; done|].
  set (f := fun h => simulate_l1d_miss_latency h paddr (data_access (ex_ctrl ex))).
  pose proof (walk_hierarchy_mshrs f c1) as E2. destruct (walk_hierarchy f c1) as [below c2]. simpl in E2. rewrite E in E2.
  destruct (_ && negb (is_atomic _)).
  - unfold request_mshr. match goal with |- context [mshr_request ?f ?a ?w ?l ?n ?wt] =>
      pose proof (mshr_request_ok f a w l n wt) as R; destruct (mshr_request f a w l n wt) as [resp f'] end.
    rewrite E2 in R. destruct (R Hok ltac:(done)) as [R1 R2].
    split_and!; [by destruct resp|done|]. by destruct resp; simpl; rewrite R2.
  - unfold request_mshr. match goal with |- context [mshr_request ?f ?a ?w ?l ?n ?wt] =>
      pose proof (mshr_request_ok f a w l n wt) as R; destruct (mshr_request f a w l n wt) as [resp f'] end.
    rewrite E2 in R. destruct (R Hok ltac:(by intros p [= <-])) as [R1 R2].
    split_and!; [by destruct resp|by destruct resp|]. by destruct resp; simpl; rewrite R2.
Qed.

Lemma memory1_one_keeps (c : core) lq ex now :
  mshr_ok (l1d_mshrs c) -> let '(r, c', _) := memory1_one c lq ex now in m1_keeps c ex r c'.
Proof.
  intros Hok. unfold memory1_one. destruct (ex_trap ex); [done|]. destruct (_ || _); [|done].
  unfold memory1_access. destruct (alignment c ex) as [t|penalty]; [done|].
  pose proof (core_translate_mshrs c (ex_alu ex) (data_access (ex_ctrl ex)) (width_to_bytes (width (ex_ctrl ex)))) as E.
  destruct (core_translate _ _ _ _) as [tr c1]. simpl in E.
  assert (Same : forall (r : m1_outcome), m1_moves ex r -> m1_parks ex r = [] -> m1_keeps c ex r c1).
  { intros r H1 H2. unfold m1_keeps. by rewrite E, H2. }
  destruct (tr_trap tr); [by apply Same|]. destruct (unmapped c1 _); [by apply Same|].
  destruct ((cache_base c1 <=? _) && _).
  - assert (Hok1 : mshr_ok (l1d_mshrs c1)) by (by rewrite E).
    match goal with |- context [probe_mshr c1 ex ?p ?n ?l ?u] =>
      pose proof (probe_mshr_keeps c1 ex p n l u Hok1) as K; destruct (probe_mshr c1 ex p n l u) as [r c2] end.
    unfold m1_keeps in *. simpl in K. by rewrite E in K.
  - set (f := fun h => simulate_memory_access h (tr_paddr tr) (data_access (ex_ctrl ex))).
    destruct (cache_base c1 <=? _).
    + pose proof (walk_hierarchy_mshrs f c1) as E2. destruct (walk_hierarchy f c1) as [l c2]. simpl in E2.
      unfold m1_keeps. simpl. by rewrite E2, E.
    + by apply Same.
Qed.

(** Nothing is lost or duplicated. *)
Definition m1_tags (st : Mem1State (X:=X) (M:=M) (P:=P)) : list Z :=
  (ex_rob_tag <$> m1_input st) ++ (mm_rob_tag <$> m1_output st) ++ parked_tags (l1d_mshrs (m1_core st)).

Lemma memory1_loop_flight now entries st :
  m1_input st = [] -> mshr_ok (l1d_mshrs (m1_core st)) ->
  let st' := memory1_loop now entries st in
  mshr_ok (l1d_mshrs (m1_core st')) /\ m1_tags st' ≡ₚ (ex_rob_tag <$> entries) ++ m1_tags st.
Proof.
  revert st. induction entries as [|ex l IH]; intros st Hi Hok; [done|]. cbn [memory1_loop].
  pose proof (memory1_one_keeps (m1_core st) (m1_lq st) ex now Hok) as K.
  destruct (memory1_one _ _ _ _) as [[r c] lq]. destruct K as (K1 & K2 & K3).
  unfold m1_tags in *. rewrite Hi. destruct r as [e|e| |]; simpl in K2, K3.
  - set (st1 := st <| m1_core := c |> <| m1_lq := lq |> <| m1_output := m1_output st ++ [e] |>).
    destruct (IH st1 Hi K1) as [H1 H2].
    split; [exact H1|]. etrans; [exact H2|]. change (m1_input st1) with (m1_input st). change (m1_core st1) with c.
    change (m1_output st1) with (m1_output st ++ [e]). rewrite Hi, K3, (fmap_snoc_at mm_rob_tag _ _ _ K2), fmap_cons. solve_Permutation.
  - split; [exact K1|].
    change ((ex_rob_tag <$> l) ++ (mm_rob_tag <$> (m1_output st ++ [e])) ++ parked_tags (l1d_mshrs c) ≡ₚ
      (ex_rob_tag <$> ex :: l) ++ (ex_rob_tag <$> []) ++ (mm_rob_tag <$> m1_output st) ++ parked_tags (l1d_mshrs (m1_core st))).
    rewrite K3, (fmap_snoc_at mm_rob_tag _ _ _ K2), fmap_cons. solve_Permutation.
  - set (st1 := st <| m1_core := c |> <| m1_lq := lq |> <| m1_cancelled := m1_cancelled st ++ [ex_rd_phys ex] |>).
    destruct (IH st1 Hi K1) as [H1 H2].
    split; [exact H1|]. etrans; [exact H2|]. change (m1_input st1) with (m1_input st). change (m1_core st1) with c.
    change (m1_output st1) with (m1_output st). rewrite Hi, K3, fmap_cons. solve_Permutation.
  - split; [exact K1|].
    change ((ex_rob_tag <$> ex :: l) ++ (mm_rob_tag <$> m1_output st) ++ parked_tags (l1d_mshrs c) ≡ₚ
      (ex_rob_tag <$> ex :: l) ++ (ex_rob_tag <$> []) ++ (mm_rob_tag <$> m1_output st) ++ parked_tags (l1d_mshrs (m1_core st))).
    rewrite K3, fmap_cons. solve_Permutation.
Qed.

Lemma memory1_flight (c : core) input output now lq :
  mshr_ok (l1d_mshrs c) ->
  let st := memory1_stage c input output now lq in
  mshr_ok (l1d_mshrs (m1_core st)) /\
  (ex_rob_tag <$> m1_input st) ++ (mm_rob_tag <$> m1_output st) ++ parked_tags (l1d_mshrs (m1_core st)) ≡ₚ
  (ex_rob_tag <$> input) ++ (mm_rob_tag <$> output) ++ parked_tags (l1d_mshrs c).
Proof.
  intros Hok. unfold memory1_stage. match goal with |- context [memory1_loop ?n ?l ?s] =>
    exact (memory1_loop_flight n l s eq_refl Hok) end.
Qed.

End Mem1.

(** ** Memory2 *)

Section Mem2.
Context {X M P : Type} `{!ExtDevice X}.
Local Abbreviation core := (Core X M P).

Lemma read_bus_mshrs (c : core) s raw : l1d_mshrs (read_bus c s raw).2 = l1d_mshrs c.
Proof. unfold read_bus. by destruct (bus_read _ _ _). Qed.
Lemma read_memory_mshrs (c : core) ctrl paddr : l1d_mshrs (read_memory c ctrl paddr).2 = l1d_mshrs c.
Proof.
  unfold read_memory. destruct (access_size _); [|done]. destruct (in_ram _ _); [|apply read_bus_mshrs].
  unfold ram_ptr_read. by destruct (dram_read _ _ _).
Qed.
Lemma read_atomic_mshrs (c : core) w paddr : l1d_mshrs (read_atomic c w paddr).2 = l1d_mshrs c.
Proof.
  unfold read_atomic. destruct w; try done; [|apply read_bus_mshrs].
  pose proof (read_bus_mshrs c U32 paddr). by destruct (read_bus _ _ _).
Qed.

Lemma memory2_one_mshrs mem (st : Mem2State (X:=X) (M:=M) (P:=P)) ld r st' :
  memory2_one mem st = Some (ld, r, st') ->
  l1d_mshrs (m2_core st') = l1d_mshrs (m2_core st) /\ m2_input st' = m2_input st /\ m2_output st' = m2_output st.
Proof.
  unfold memory2_one. pose proof (read_memory_mshrs (m2_core st) (mm_ctrl mem) (mm_paddr mem)) as R.
  pose proof (read_atomic_mshrs (m2_core st) (width (mm_ctrl mem)) (mm_paddr mem)) as A.
  destruct (read_memory _ _ _) as [v c], (read_atomic _ _ _) as [v' c']. simpl in R, A.
  destruct (atomic_op _); [destruct (mem_read _); [destruct (sb_forward_load _ _ _ _)|destruct (mem_write _)]|..];
    try destruct (sb_has_older_store_to _ _ _ _); intros [=]; subst; done.
Qed.

Lemma memory2_loop_flight entries (st : Mem2State (X:=X) (M:=M) (P:=P)) :
  m2_input st = [] ->
  let st' := memory2_loop entries st in
  l1d_mshrs (m2_core st') = l1d_mshrs (m2_core st) /\
  (mw_rob_tag <$> m2_output st') ++ (mm_rob_tag <$> m2_input st') = (mw_rob_tag <$> m2_output st) ++ (mm_rob_tag <$> entries).
Proof.
  revert st. induction entries as [|mem l IH]; intros st Hi; [simpl; by rewrite Hi|]. cbn [memory2_loop].
  destruct (mm_trap mem).
  - split; [done|]. change ((mw_rob_tag <$> (m2_output st ++ [to_wb mem 0 None])) ++ (mm_rob_tag <$> l) =
      (mw_rob_tag <$> m2_output st) ++ (mm_rob_tag <$> mem :: l)). by rewrite fmap_app, <-app_assoc.
  - destruct (memory2_one mem st) as [[[ld r] st']|] eqn:E; [|done].
    destruct (memory2_one_mshrs _ _ _ _ _ E) as (E1 & E2 & E3).
    set (st1 := st' <| m2_output := m2_output st' ++ [to_wb mem ld r] |>).
    destruct (IH st1) as [H1 H2]; [by etrans; [exact E2|]|]. split; [etrans; [exact H1|exact E1]|]. etrans; [exact H2|].
    change (m2_output st1) with (m2_output st' ++ [to_wb mem ld r]). by rewrite E3, fmap_app, <-app_assoc.
Qed.

Lemma memory2_flight (c : core) input sb lq :
  let st := memory2_stage c input sb lq in
  l1d_mshrs (m2_core st) = l1d_mshrs c /\
  (mw_rob_tag <$> m2_output st) ++ (mm_rob_tag <$> m2_input st) ≡ₚ mm_rob_tag <$> input.
Proof.
  unfold memory2_stage. match goal with |- context [memory2_loop ?l ?s] => destruct (memory2_loop_flight l s eq_refl) as [H1 H2] end.
  split; [exact H1|]. rewrite H2. simpl. by rewrite stable_sort_perm.
Qed.

End Mem2.

(** ** Commit *)

(** The sequence numbers of a shorter buffer are those of the longer one. *)
Lemma seqs_drop r ss r' ss' n done :
  rob_inv r ss n -> rob_inv r' ss' n -> rob_queue r = done ++ rob_queue r' -> ss' = drop (length done) ss.
Proof.
  intros I I' Hq. pose proof (rob_tags _ _ _ I) as T. rewrite Hq, fmap_app, <-(take_drop (length done) ss), fmap_app in T.
  apply app_inj_1 in T as [_ T].
  2: { pose proof (length_rob_seqs _ _ _ I) as L. rewrite <-length_rob_queue, Hq, length_app in L. rewrite !length_fmap, length_take. lia. }
  rewrite (rob_tags _ _ _ I') in T. destruct (rob_live _ _ _ I') as [_ L'].
  assert (L : Forall (fun s => s < n /\ n - s < TAG_SPAN) (drop (length done) ss)) by (apply Forall_drop, (rob_live _ _ _ I)).
  clear -T L L'. revert T L. generalize (drop (length done) ss). induction L' as [|s ss' Hs _ IH]; intros [|x l] T L; try done.
  injection T as Tx T. apply Forall_cons in L as [Hx L]. f_equal; [|by apply IH].
  apply tag_at_inj; [|done]. unfold TAG_SPAN in *. lia.
Qed.

Lemma rob_ok_suffix r n r' done :
  rob_ok r n -> (exists ss', rob_inv r' ss' n) -> rob_queue r = done ++ rob_queue r' -> rob_ok r' n.
Proof.
  intros (ss & I & F & Z0) (ss' & I') Hq. exists ss'. split; [done|]. split.
  - unfold faults_ok in *. rewrite Hq in F. by apply Forall_app in F as [_ F].
  - rewrite (seqs_drop _ _ _ _ _ _ I I' Hq). by apply Forall_drop.
Qed.

Section CommitFlight.
Context {X M P : Type} `{!ExtDevice X} `{!MemoryController M} `{!BranchUpdate P}.

(** Without a trap commit retires complete instructions. *)
Lemma commit_flight w (m : Machine X M P) b n :
  rob_ok (be_rob b) n ->
  let '(t, _, b') := commit_stage w m b in
  rob_ok (be_rob b') n /\
  (t = None -> exists done, rob_queue (be_rob b) = done ++ rob_queue (be_rob b') /\ Forall (fun e => re_state e = Completed) done).
Proof.
  intros Hok. pose proof Hok as (ss & I & F & _). unfold commit_stage.
  destruct (check_interrupts (cpu m)); [done|].
  destruct (wfi_waiting m); [split; [done|]; intros _; by exists []|].
  unfold commit_loop. match goal with |- context [list_scan commit_body (seq 0 w) ?x] => set (st0 := x) end.
  destruct (commit_loop_spec (seq 0 w) st0 ss n I F eq_refl) as (ret & failed & [Hi _ _ Hc _ _ _ Ht _]).
  set (st := after_loop _ _) in *. unfold commit_finish. set (m1 := upd_stats (bump_histogram _) _). clearbody m1.
  destruct (drain_one_store m1 _) as [m' sb']. change (be_rob ((c_backend st) <| be_store_buffer := sb' |>)) with (be_rob (c_backend st)).
  change (rob_queue (be_rob (c_backend st0))) with (rob_queue (be_rob b)) in Ht.
  destruct (c_trap st) as [[t pc]|].
  - split; [|done]. destruct Ht as (e & Hq & _). apply (rob_ok_suffix _ _ _ (ret ++ [e]) Hok Hi). by rewrite <-app_assoc.
  - split; [by apply (rob_ok_suffix _ _ _ ret Hok Hi)|]. intros _. by exists ret.
Qed.

End CommitFlight.

(** ** Flushes and allocation *)

Lemma flush_all_ok r n : rob_ok r n -> rob_ok (rob_flush_all r) n /\ rob_queue (rob_flush_all r) = [].
Proof.
  intros (ss & I & F & _). destruct (rob_flush_all_refines _ _ _ I) as [I' Ha]. apply (f_equal q_entries) in Ha. simpl in Ha.
  split; [|done]. exists []. split; [done|]. unfold faults_ok. rewrite Ha. by split.
Qed.

(** A squash after the instruction with a tag that is in flight. *)
Lemma flush_after_ok r n k e :
  rob_ok r n -> rob_queue r !! k = Some e ->
  rob_ok (rob_flush_after r (re_tag e)) n /\ rob_queue (rob_flush_after r (re_tag e)) = take (S k) (rob_queue r).
Proof.
  intros (ss & I & F & Z0) Hk. destruct (rob_flush_after_at _ _ _ _ _ I Hk) as [I' Hq]. split; [|done].
  exists (take (S k) ss). split; [done|]. unfold faults_ok in *. rewrite Hq. by split; apply Forall_take.
Qed.

Lemma rob_allocate_ok r n pc inst sz rd fp ctrl pd opd :
  rob_ok r n -> 0 <= n -> n + 1 < TAG_SPAN -> rob_is_full r = false ->
  let '(r', t) := rob_allocate r pc inst sz rd fp ctrl pd opd in
  t = Some (tag_at n) /\ rob_ok r' (n + 1) /\
  exists e, rob_queue r' = rob_queue r ++ [e] /\ re_tag e = tag_at n /\ re_state e = Issued.
Proof.
  intros (ss & I & F & Z0) Hn Hsp Hf. pose proof (rob_next _ _ _ I) as Hnext.
  destruct (rob_allocate_refines r ss n pc inst sz rd fp ctrl pd opd I) as (I' & Hq & _); [|done|].
  { eapply Forall_impl; [exact Z0|]. simpl. lia. }
  assert (Ht : (rob_allocate r pc inst sz rd fp ctrl pd opd).2 = Some (rob_next_tag r)) by (unfold rob_allocate; by rewrite Hf).
  destruct (rob_allocate _ _ _ _ _ _ _ _ _) as [r' t]. simpl in *. subst t. rewrite <-Hnext. split_and!; [done| |].
  - exists (ss ++ [n]). split; [done|]. split.
    + unfold faults_ok. rewrite Hq. apply Forall_app. split; [done|]. by constructor.
    + apply Forall_app. split; [done|]. by constructor.
  - eexists. split; [exact Hq|]. done.
Qed.

Lemma rob_ok_NoDup r n : rob_ok r n -> NoDup (re_tag <$> rob_queue r).
Proof. intros (ss & I & _). by eapply rob_tags_NoDup. Qed.

Lemma rob_ok_tags r n t : rob_ok r n -> t ∈ re_tag <$> rob_queue r -> exists s, 0 <= s < n /\ t = tag_at s.
Proof.
  intros (ss & I & _ & Z0). rewrite (rob_tags _ _ _ I). intros (s & -> & Hs)%list_elem_of_fmap.
  destruct (rob_live _ _ _ I) as [_ Hl]. rewrite Forall_forall in Hl, Z0. destruct (Hl _ Hs). exists s. split; [|done].
  split; [by apply Z0|done].
Qed.

(** The next tag is fresh. *)
Lemma rob_ok_fresh r n : rob_ok r n -> n < TAG_SPAN -> tag_at n ∉ re_tag <$> rob_queue r.
Proof.
  intros Hok Hn Hin. destruct (rob_ok_tags _ _ _ Hok Hin) as (s & Hs & E).
  apply tag_at_inj in E; unfold TAG_SPAN in *; lia.
Qed.

Lemma filter_none {A} (P : A -> Prop) `{forall a, Decision (P a)} (l : list A) : (forall a, a ∈ l -> ~ P a) -> filter P l = [].
Proof.
  induction l as [|a l IH]; intros Hn; [done|]. rewrite filter_cons, decide_False by (apply Hn; set_solver).
  apply IH. set_solver.
Qed.

Lemma mshr_flush_ok f : mshr_ok f -> mshr_ok (mshr_flush f) /\ parked_tags (mshr_flush f) = [].
Proof.
  intros [[Hl _ _] _]. assert (A : active (mshr_flush f) = []).
  { apply filter_none. simpl. by intros e (x & -> & _)%list_elem_of_fmap. }
  unfold parked_tags, parked. rewrite A. split; [split|done].
  - split; rewrite ?A; [simpl; by rewrite length_fmap|done|constructor].
  - unfold parked. rewrite A. constructor.
Qed.

Lemma settles_tags ts q q' : Forall2 (settles ts) q q' -> re_tag <$> q' = re_tag <$> q.
Proof. induction 1 as [|e e' q q' [E _ _] _ IH]; [done|]. simpl. f_equal; [exact E|exact IH]. Qed.

(** A squash that cuts the youngest [w2] off. *)
Lemma covered_cut q pre w1 w2 p :
  NoDup (re_tag <$> q) -> re_tag <$> q = pre ++ w1 ++ w2 -> covered q ((w1 ++ w2) ++ p) ->
  covered (take (length (pre ++ w1)) q) (w1 ++ p).
Proof.
  intros HN Hq Hc. pose proof (covered_take (length (pre ++ w1)) q _ HN Hc) as Ht.
  assert (Ek : re_tag <$> take (length (pre ++ w1)) q = pre ++ w1).
  { rewrite fmap_take, Hq, app_assoc. by rewrite take_app_length. }
  destruct Hc as [H1 H2 _]. eapply covered_perm; [|exact Ht]. rewrite Ek. rewrite Hq in HN.
  apply NoDup_app in H1 as (N1 & Hd & N2). rewrite !filter_app.
  assert (W1 : filter (fun t => t ∈ pre ++ w1) w1 = w1) by (apply filter_all, Forall_forall; set_solver).
  assert (W2 : filter (fun t => t ∈ pre ++ w1) w2 = []).
  { apply filter_none. intros t Ht2 Hin. rewrite app_assoc in HN. apply NoDup_app in HN as (_ & Hd' & _). by apply (Hd' t). }
  assert (W3 : filter (fun t => t ∈ pre ++ w1) p = p).
  { apply filter_all, Forall_forall. intros t Htp. destruct (H2 t) as (e & He & <- & _); [set_solver|].
    apply (list_elem_of_fmap_2 re_tag) in He. rewrite Hq in He. specialize (Hd (re_tag e)). set_solver. }
  by rewrite W1, W2, W3, app_nil_r.
Qed.

(** A squash by age. *)
Lemma filter_iff_in {A} (P Q : A -> Prop) `{forall a, Decision (P a)} `{forall a, Decision (Q a)} (l : list A) :
  (forall a, a ∈ l -> P a <-> Q a) -> filter P l = filter Q l.
Proof.
  induction l as [|a l IH]; intros Hl; [done|]. rewrite !filter_cons, IH by set_solver.
  destruct (Hl a) as [H1 H2]; [set_solver|]. by destruct (decide (P a)), (decide (Q a)); auto; destruct n; auto.
Qed.

Lemma covered_keep r n k e p :
  rob_ok r n -> rob_queue r !! k = Some e -> covered (rob_queue r) p ->
  covered (take (S k) (rob_queue r)) (filter (fun t => is_older_or_eq t (re_tag e) = true) p).
Proof.
  intros Hok Hk Hc. pose proof (rob_ok_NoDup _ _ Hok) as HN. destruct Hok as (ss & I & _).
  pose proof (covered_take (S k) _ _ HN Hc) as Ht. destruct Hc as [_ Hop _].
  erewrite filter_iff_in; [exact Ht|]. intros t Htp. destruct (Hop t Htp) as (e' & He' & <- & _).
  apply list_elem_of_lookup in He' as [j Hj]. unfold is_older_or_eq.
  pose proof (rob_position_age _ _ _ k j e e' I Hk Hj) as ->. split.
  - intros Hle%negb_true_iff%Nat.ltb_ge. apply list_elem_of_fmap_2, (list_elem_of_lookup_2 _ j).
    by rewrite lookup_take_lt by lia.
  - intros (e2 & E2 & He2)%list_elem_of_fmap. apply list_elem_of_lookup in He2 as [j2 [Hj2 Hlt]%lookup_take_Some].
    assert (j = j2) as ->; [|by apply negb_true_iff, Nat.ltb_ge; lia].
    eapply (NoDup_lookup _ _ _ (re_tag e') HN); rewrite list_lookup_fmap; [by rewrite Hj|by rewrite Hj2, E2].
Qed.

(** Instructions after the kept one in the order of their raw tags. *)
Lemma older_raw r n t k :
  rob_ok r n -> n < TAG_SPAN -> t ∈ re_tag <$> rob_queue r -> k ∈ re_tag <$> rob_queue r ->
  is_older_or_eq t k = (t <=? k).
Proof.
  intros Hok Hn Ht Hk. destruct (rob_ok_tags _ _ _ Hok Ht) as (a & Ha & ->), (rob_ok_tags _ _ _ Hok Hk) as (b & Hb & ->).
  rewrite is_older_or_eq_tag_at by (unfold TAG_SPAN in *; lia). unfold tag_at, TAG_SPAN in *.
  rewrite !Z.mod_small by lia. destruct (Z.leb_spec a b), (Z.leb_spec (1 + a) (1 + b)); lia.
Qed.

Lemma waiter_flush keep (l : list MshrWaiter) :
  Forall waiter_ok l ->
  filter (fun w => is_older_or_eq (mwt_rob_tag w) keep = true) l ≫= waiter_tags =
  filter (fun t => is_older_or_eq t keep = true) (l ≫= waiter_tags).
Proof.
  induction 1 as [|w l Hw Hl IH]; [done|]. rewrite filter_cons, bind_cons, filter_app, <-IH.
  assert (E : filter (fun t => is_older_or_eq t keep = true) (waiter_tags w) =
    if is_older_or_eq (mwt_rob_tag w) keep then waiter_tags w else []).
  { unfold waiter_tags. destruct (mwt_parked_entry w) as [p|] eqn:E; [|by destruct (is_older_or_eq _ _)].
    rewrite filter_cons, filter_nil, (Hw p E). by destruct (is_older_or_eq _ _). }
  rewrite E. by destruct (is_older_or_eq (mwt_rob_tag w) keep).
Qed.

Lemma retain_valid keep e : ms_valid (retain_waiters keep e) = ms_valid e.
Proof. unfold retain_waiters. by destruct (ms_valid e) eqn:E. Qed.

Lemma mshr_flush_after_ok f keep :
  mshr_ok f -> mshr_ok (mshr_flush_after f keep) /\
  parked_tags (mshr_flush_after f keep) = filter (fun t => is_older_or_eq t keep = true) (parked_tags f).
Proof.
  intros [[Hl Hc Hn] Hw].
  assert (A : active (mshr_flush_after f keep) = retain_waiters keep <$> active f).
  { unfold active, mshr_flush_after. simpl. clear. induction (ms_entries f) as [|e l IH]; [done|].
    rewrite fmap_cons, !filter_cons, IH. rewrite retain_valid. by destruct (ms_valid e). }
  assert (P : parked (mshr_flush_after f keep) =
    filter (fun w => is_older_or_eq (mwt_rob_tag w) keep = true) (parked f)).
  { unfold parked. rewrite A. unfold active. clear. induction (ms_entries f) as [|e l IH]; [done|].
    rewrite !filter_cons. destruct (ms_valid e) eqn:E; simpl; [|exact IH].
    rewrite filter_app. f_equal; [|exact IH]. unfold retain_waiters. by rewrite E. }
  split; [split; [split|]|].
  - simpl. by rewrite length_fmap.
  - simpl. by rewrite A, length_fmap.
  - rewrite A, <-list_fmap_compose. erewrite list_fmap_ext; [exact Hn|]. intros i e _. simpl.
    unfold retain_waiters. by destruct (ms_valid e).
  - rewrite P. apply Forall_forall. intros w [_ Hin]%list_elem_of_filter. rewrite Forall_forall in Hw. by apply Hw.
  - unfold parked_tags. rewrite P. by apply waiter_flush.
Qed.

(** * The frontend *)

Section FetchFlight.
Context {X M P : Type} `{!ExtDevice X} `{!MemoryController M} `{!BranchUnit P} `{FU : !FpUnit}.
Local Abbreviation core := (Core X M P).

Lemma fetch_half_mshrs (c : core) paddr : l1d_mshrs (fetch_half c paddr).2 = l1d_mshrs c.
Proof.
  unfold fetch_half. destruct (in_ram _ _); [|apply read_bus_mshrs]. unfold ram_ptr_read. by destruct (dram_read _ _ _).
Qed.
Lemma upper_address_mshrs (c : core) va paddr : l1d_mshrs (upper_address c va paddr).2 = l1d_mshrs c.
Proof.
  unfold upper_address. destruct (crosses_page va); [|done]. pose proof (core_translate_mshrs c (add64 va 2) Fetch 2).
  by destruct (core_translate _ _ _ _).
Qed.
Lemma predict_standard_mshrs (c : core) va nx i : l1d_mshrs (predict_standard c va nx i).2 = l1d_mshrs c.
Proof.
  unfold predict_standard. simpl. destruct (_ =? _); [unfold predict_conditional; by destruct (predict_branch _ _) as [[??]?]|].
  destruct (_ =? _); [done|]. by destruct (_ =? _).
Qed.
Lemma predict_compressed_mshrs (c : core) va nx h : l1d_mshrs (predict_compressed c va nx h).2 = l1d_mshrs c.
Proof. unfold predict_compressed. destruct (is_compressed_branch h); [|done]. unfold predict_conditional. by destruct (predict_branch _ _) as [[??]?]. Qed.

Definition flow_core (r : flow (Fetch1Loop (X:=X) (M:=M) (P:=P)) Fetch1Loop) : core :=
  match r with Continue st | Return st => f1_core st end.

Lemma fetch1_body_mshrs a b i st : l1d_mshrs (flow_core (fetch1_body a b i st)) = l1d_mshrs (f1_core st).
Proof.
  unfold fetch1_body. destruct (_ <? _); [done|]. destruct (negb _); [by destruct (f1_output st)|].
  pose proof (core_translate_mshrs (f1_core st) (f1_pc st) Fetch 4) as E.
  destruct (core_translate _ _ _ _) as [r c]. simpl in E. destruct (tr_trap r); [exact E|].
  unfold fetch1_at. pose proof (fetch_half_mshrs c (tr_paddr r)) as Eh. match goal with |- context [fetch_half ?x _] => change x with c end.
  destruct (fetch_half c _) as [h c1]. simpl in Eh. destruct (is_compressed h).
  - pose proof (predict_compressed_mshrs c1 (f1_pc st) (add64 (f1_pc st) 2) h) as Ep.
    destruct (predict_compressed _ _ _ _) as [pd c2]. simpl in Ep. destruct (pd_stop pd); simpl; congruence.
  - pose proof (upper_address_mshrs c1 (f1_pc st) (tr_paddr r)) as Eu.
    destruct (upper_address _ _ _) as [[[t|up] cyc] c2]; simpl in Eu; [simpl; congruence|].
    pose proof (fetch_half_mshrs c2 up) as Eh2. destruct (fetch_half c2 up) as [h2 c3]. simpl in Eh2.
    pose proof (predict_standard_mshrs c3 (f1_pc st) (add64 (f1_pc st) 4) (full_word h2 h)) as Ep.
    destruct (predict_standard _ _ _ _) as [pd c4]. simpl in Ep. destruct (pd_stop pd); simpl; congruence.
Qed.

Lemma fetch1_mshrs (c : core) stall : l1d_mshrs (fetch1_stage c stall).1.1 = l1d_mshrs c.
Proof.
  unfold fetch1_stage. cbn [fst]. match goal with |- context [list_scan ?b ?l ?s] => set (body := b); set (st := s); generalize l end.
  intros l. change (l1d_mshrs c) with (l1d_mshrs (f1_core st)). generalize st. clear st.
  induction l as [|i l IH]; intros st; [done|]. simpl list_scan. pose proof (fetch1_body_mshrs
    (if negb (Z.land (misa (csrs (hart c))) MISA_EXT_C =? 0) then 1 else 3)
    (add64 (Z.lor (pc (hart c)) (sub64 (i_cache_line_bytes c) 1)) 1) i st) as E. fold body in E.
  destruct (body i st) as [st1|st1]; simpl in E; [|exact E]. etrans; [apply IH|exact E].
Qed.

Lemma probe_lines_mshrs mask last input (c : core) : l1d_mshrs (probe_lines mask last input c).2 = l1d_mshrs c.
Proof.
  revert last c. induction input as [|f l IH]; intros last c; [done|]. cbn [probe_lines]. destruct (ff_trap f); [done|].
  destruct (_ =? _); [apply IH|]. pose proof (walk_hierarchy_mshrs (fun h => simulate_memory_access h (ff_paddr f) Fetch) c) as E.
  destruct (walk_hierarchy _ c) as [p c1]. simpl in E. specialize (IH (Z.land (ff_paddr f) mask) c1).
  destruct (probe_lines _ _ l c1) as [p2 c2]. simpl in *. congruence.
Qed.

Lemma instruction_at_mshrs (c : core) va pa : l1d_mshrs (instruction_at c va pa).2 = l1d_mshrs c.
Proof.
  unfold instruction_at. pose proof (fetch_half_mshrs c pa) as Eh. destruct (fetch_half c pa) as [h c1]. simpl in Eh.
  destruct (is_compressed h); [exact Eh|]. pose proof (upper_address_mshrs c1 va pa) as Eu.
  destruct (upper_address _ _ _) as [[[t|up] cyc] c2]; simpl in Eu; [simpl; congruence|].
  pose proof (fetch_half_mshrs c2 up) as Eh2. destruct (fetch_half c2 up) as [h2 c3]. simpl in *. congruence.
Qed.

Lemma fetch2_mshrs (c : core) input stall : l1d_mshrs (fetch2_stage c input stall).1.1.1 = l1d_mshrs c.
Proof.
  unfold fetch2_stage. assert (E : l1d_mshrs (icache_probe input c).2 = l1d_mshrs c)
    by (unfold icache_probe; destruct (cs_enabled _); [apply probe_lines_mshrs|done]).
  destruct (icache_probe input c) as [pen c1]. simpl in E. rewrite <-E.
  match goal with |- context [list_scan fetch2_body input ?s] => set (st := s) end.
  assert (L : l1d_mshrs (f2_core (after_loop (list_scan fetch2_body input st) (fun st => st))) = l1d_mshrs (f2_core st)).
  { generalize st. clear. induction input as [|f l IH]; intros st; [done|]. simpl list_scan. unfold fetch2_body at 1.
    destruct (ff_trap f); [done|]. pose proof (instruction_at_mshrs (f2_core st) (ff_pc f) (ff_paddr f)) as E.
    destruct (instruction_at _ _ _) as [[[[t|i] size] cyc] c]; simpl in E; [exact E|]. etrans; [apply IH|exact E]. }
  cbv zeta. by destruct (0 <? pen).
Qed.

End FetchFlight.

(** * Whole pipelines *)

(** [good n c e out]: a state of the engine, the processor and the rename output
    after [n] renamed instructions.  The laws say that the engine's cycle keeps
    it, that it looks at the miss registers of the processor only, and that
    [rename_stage] does not panic and renames at most [w] instructions. *)
Record engine_laws {X M P E : Type} `{!ExecutionEngine X M P E} (w : nat)
    (good : Z -> Core X M P -> E -> list RenameIssueEntry -> Prop) : Prop := {
  el_core : forall n c c' e out, good n c e out -> l1d_mshrs c' = l1d_mshrs c -> good n c' e out;
  el_tick : forall n c e out, good n c e out -> n < TAG_SPAN ->
    let '(c', e', out') := en_tick c e out in
    good n c' e' [] /\ (out' = [] \/ redirect_pending (machine c') = true);
  el_rename : forall n c e input, good n c e [] -> 0 <= n -> n + Z.of_nat w < TAG_SPAN ->
    exists c' e' input' out', en_rename c e input [] = Some (c', e', input', out') /\
      l1d_mshrs c' = l1d_mshrs c /\ exists n', n <= n' <= n + Z.of_nat w /\ good n' c' e' out'
}.

Section Runs.
Context {X M P E : Type} `{!ExtDevice X} `{!MemoryController M} `{!BranchUnit P} `{FU : !FpUnit}
  `{!ExecutionEngine X M P E}.
Variables (w : nat) (good : Z -> Core X M P -> E -> list RenameIssueEntry -> Prop).
Hypothesis laws : engine_laws w good.

Definition good_pipe (n : Z) (s : PipeState X M P E) : Prop :=
  good n (ps_core s) (ps_engine s) (ps_rename_output s).

Lemma frontend_fetch2_mshrs (c : Core X M P) f : l1d_mshrs (frontend_fetch2 c f).1 = l1d_mshrs c.
Proof.
  unfold frontend_fetch2. destruct (0 <? _); [done|]. destruct (fe_fetch2_decode _); [|done].
  pose proof (fetch2_mshrs c (fe_fetch1_fetch2 f) (fe_fetch2_stall f)) as H. by destruct (fetch2_stage _ _ _) as [[[]]].
Qed.
Lemma frontend_fetch1_mshrs (c : Core X M P) f : l1d_mshrs (frontend_fetch1 c f).1 = l1d_mshrs c.
Proof.
  unfold frontend_fetch1. destruct (0 <? _); [done|]. destruct (fe_fetch1_fetch2 _); [|done].
  pose proof (fetch1_mshrs c (fe_fetch1_stall f)) as H. by destruct (fetch1_stage _ _) as [[]].
Qed.

Lemma pipeline_back_good n s :
  good_pipe n s -> n < TAG_SPAN -> good_pipe n (pipeline_back s) /\ ps_rename_output (pipeline_back s) = [].
Proof.
  intros Hs Hn. pose proof (el_tick _ _ laws n _ _ _ Hs Hn) as T. unfold pipeline_back.
  destruct (en_tick _ _ _) as [[c e] out]. destruct T as [Hg Ho]. unfold good_pipe.
  destruct (redirect_pending _ || _) eqn:E1; cbn [ps_core ps_engine ps_rename_output].
  - split; [|done]. by apply (el_core _ _ laws _ c).
  - apply orb_false_elim in E1 as [E1 _]. destruct Ho as [->|Ho]; [|congruence]. split; [|done].
    by apply (el_core _ _ laws _ c).
Qed.

Lemma pipeline_tick_good n s :
  good_pipe n s -> 0 <= n -> n + Z.of_nat w < TAG_SPAN ->
  exists s' n', pipeline_tick s = Some s' /\ n <= n' <= n + Z.of_nat w /\ good_pipe n' s'.
Proof.
  intros Hs Hn Hsp. destruct (pipeline_back_good n s Hs) as [Hb Ho]; [lia|]. unfold pipeline_tick.
  set (s1 := pipeline_back s) in *. destruct (halted (ps_core s1)); [exists s1, n; split_and!; [done|lia|lia|done]|].
  unfold good_pipe in Hb. rewrite Ho in Hb.
  destruct (el_rename _ _ laws n _ _ (fe_decode_rename (ps_frontend s1)) Hb Hn Hsp) as (c & e & input & out & E1 & Ec & n' & Hn' & F).
  unfold frontend_tick. rewrite Ho, E1. set (f1 := frontend_decode c _).
  pose proof (frontend_fetch2_mshrs c f1) as E2. destruct (frontend_fetch2 c f1) as [c2 f2].
  pose proof (frontend_fetch1_mshrs c2 f2) as E3. destruct (frontend_fetch1 c2 f2) as [c3 f3]. simpl in E2, E3.
  do 2 eexists. split; [done|]. split; [exact Hn'|]. apply (el_core _ _ laws _ c); [exact F|]. simpl. congruence.
Qed.

Lemma pipeline_run_good cycles n s :
  good_pipe n s -> 0 <= n -> n + Z.of_nat (cycles * w) < TAG_SPAN ->
  exists s' n', pipeline_run cycles s = Some s' /\ good_pipe n' s'.
Proof using laws.
  revert n s. induction cycles as [|k IH]; intros n s Hs Hn Hsp; [by exists s, n|]. cbn [pipeline_run].
  destruct (pipeline_tick_good n s Hs Hn ltac:(lia)) as (s1 & n1 & E1 & Hn1 & H1). rewrite E1.
  apply (IH n1); [done|lia|lia].
Qed.

End Runs.
