(* ===== verification/InOrderProps.v ===== *)
(** The in-order pipeline never loses an instruction: over whole cycles of the
    pipeline, every instruction whose result is outstanding is in exactly one
    queue, latch or miss register, and those not yet issued are, in order, the
    youngest part of the reorder buffer. *)
From S2P Require Import Prelude Ring Common Rob RobSpec RobProps StoreBuffer LoadQueue Rename RenameO3 RenameSound InOrder Policy Prefetch Cache Cpu Dram Hierarchy Soc Interconnect Commit CommitSpec CommitProps Latches Mshr Core Execute ExecuteSpec Memory O3Tick Fetch InOrderTick Pipeline Flight.
Local Open Scope Z_scope.

(** * Issue unit *)

Lemma iu_issue_head_tag entry rob sb regs issued :
  iu_issue_head entry rob sb regs = Some issued -> ri_rob_tag issued = ri_rob_tag entry.
Proof.
  unfold iu_issue_head. destruct (ri_trap entry); [by intros [= <-]|]. destruct (iu_order_ready _ _ _); [|done].
  by intros ([[v1 v2] v3] & _ & ->)%fmap_Some.
Qed.

Lemma iu_select_tags width q rob sb regs :
  let '(selected, remaining) := iu_select_loop width q rob sb regs in
  ri_rob_tag <$> q = (ri_rob_tag <$> selected) ++ (ri_rob_tag <$> remaining).
Proof.
  revert q. induction width as [|width IH]; intros [|entry q]; try done. cbn [iu_select_loop].
  destruct (iu_issue_head entry rob sb regs) as [issued|] eqn:E; [|done]. specialize (IH q).
  destruct (iu_select_loop width q rob sb regs) as [sel rem]. simpl. f_equal; [symmetry; exact (iu_issue_head_tag _ _ _ _ _ E)|exact IH].
Qed.

Lemma iu_dispatch_all u entries :
  (length (iu_queue u) + length entries <= iu_capacity u)%nat ->
  iu_queue (iu_dispatch u entries) = iu_queue u ++ entries /\ iu_capacity (iu_dispatch u entries) = iu_capacity u.
Proof.
  unfold iu_dispatch. revert u. induction entries as [|e l IH]; intros u Hl; [by rewrite app_nil_r|]. simpl in Hl. simpl foldl.
  assert (E : iu_push u e = u <| iu_queue := iu_queue u ++ [e] |>).
  { unfold iu_push. by rewrite (proj2 (Nat.ltb_lt _ _)) by lia. }
  rewrite E. destruct (IH (u <| iu_queue := iu_queue u ++ [e] |>)) as [-> ->]; [|split; [|done]].
  - change (length (iu_queue u ++ [e]) + length l <= iu_capacity u)%nat. rewrite length_app. simpl. lia.
  - change ((iu_queue u ++ [e]) ++ l = iu_queue u ++ e :: l). by rewrite <-app_assoc.
Qed.

Section InOrder.
Context {X M P : Type} `{!ExtDevice X} `{!MemoryController M} `{!BranchUnit P} `{FU : !FpUnit}.
Local Abbreviation core := (Core X M P).
Local Abbreviation sys := (IoSys X M P).

(** ** The batch *)

Lemma execute_inorder_flight inflight entries (st : Batch (X:=X) (M:=M) (P:=P)) :
  bt_flush st = false ->
  let st' := after_loop (list_scan (execute_inorder_body inflight) entries st) (fun st => st) in
  exists k, (ex_rob_tag <$> bt_results st') = (ex_rob_tag <$> bt_results st) ++ take k (ri_rob_tag <$> entries) /\
    (if bt_flush st' then (0 < k <= length entries)%nat else k = length entries) /\
    l1d_mshrs (bt_core st') = l1d_mshrs (bt_core st) /\ rob_evolves [] (bt_rob st) (bt_rob st').
Proof.
  revert st. induction entries as [|id l IH]; intros st Hf.
  { exists 0%nat. cbn. rewrite app_nil_r, Hf. split_and!; try done. apply evolves_refl. }
  simpl list_scan. unfold execute_inorder_body at 1. rewrite Hf.
  pose proof (execute_inorder_one_keeps inflight (bt_fp_flags st) (bt_core st) id (bt_rob st)) as [K1 _ K2 K3].
  destruct (execute_inorder_one _ _ _ _ _) as [[[entry flush] c] rob]. cbn [fst snd] in K1, K2, K3.
  match goal with |- context [list_scan _ l ?x] => set (st1 := x) end.
  assert (R1 : ex_rob_tag <$> bt_results st1 = (ex_rob_tag <$> bt_results st) ++ [ri_rob_tag id])
    by exact (fmap_snoc_at _ _ _ _ K1).
  destruct flush eqn:Ef.
  - assert (S : after_loop (list_scan (execute_inorder_body inflight) l st1) (fun st => st) = st1) by (by destruct l).
    rewrite S. exists 1%nat. split_and!; [by rewrite R1, fmap_cons|simpl; lia|done|done].
  - destruct (IH st1 eq_refl) as (k & H1 & H2 & H3 & H4).
    generalize dependent (after_loop (list_scan (execute_inorder_body inflight) l st1) (fun st => st)).
    intros st' H1 H2 H3 H4. exists (S k). split_and!.
    + rewrite H1, R1, fmap_cons. simpl. by rewrite <-app_assoc.
    + revert H2. cbn [length]. destruct (bt_flush st'); lia.
    + by rewrite H3.
    + by eapply evolves_trans0.
Qed.

(** * Where the instructions are *)

Definition io_waiting (s : sys) : list Z := (ri_rob_tag <$> iu_queue (ib_issuer (ns_back s))) ++ (ri_rob_tag <$> ns_rename s).
Definition io_moving (s : sys) : list Z :=
  (ex_rob_tag <$> ib_execute_mem1 (ns_back s)) ++ (mm_rob_tag <$> ib_mem1_mem2 (ns_back s)) ++
  (mw_rob_tag <$> ib_mem2_wb (ns_back s)) ++ parked_tags (l1d_mshrs (ns_core s)).
Definition io_queue (s : sys) : list RobEntry := rob_queue (ib_rob (ns_back s)).

(** [w] is the width, [n] the number of instructions renamed so far. *)
Record io_flight (w : nat) (n : Z) (s : sys) : Prop := {
  if_rob : rob_ok (ib_rob (ns_back s)) n;
  if_covered : covered (io_queue s) (io_waiting s ++ io_moving s);
  if_young : io_waiting s `suffix_of` (re_tag <$> io_queue s);
  if_mshrs : mshr_ok (l1d_mshrs (ns_core s));
  if_room : (length (io_waiting s) <= iu_capacity (ib_issuer (ns_back s)))%nat;
  if_width : io_width (ib_engine (ns_back s)) = w
}.

(** A stage that settles [ts] and leaves the others where they are. *)
Lemma io_flight_step ts w n (s s' : sys) :
  io_flight w n s -> rob_evolves ts (ib_rob (ns_back s)) (ib_rob (ns_back s')) ->
  io_waiting s' = io_waiting s -> ts ++ io_moving s' ≡ₚ io_moving s -> mshr_ok (l1d_mshrs (ns_core s')) ->
  iu_capacity (ib_issuer (ns_back s')) = iu_capacity (ib_issuer (ns_back s)) ->
  io_width (ib_engine (ns_back s')) = io_width (ib_engine (ns_back s)) -> io_flight w n s'.
Proof.
  intros [Hr Hc Hy Hm Hl Hw] Hev Hwait Hmove Hm' Hcap Hw'. destruct (Hev n Hr) as [Hr' Hq]. split; try done.
  - apply (covered_settle ts _ _ _ Hq). eapply covered_perm; [|exact Hc]. rewrite Hwait, <-Hmove. solve_Permutation.
  - unfold io_queue. rewrite Hwait. by rewrite (settles_tags _ _ _ Hq).
  - by rewrite Hwait, Hcap.
  - congruence.
Qed.

Lemma io_flight_empty w n (s : sys) :
  rob_ok (ib_rob (ns_back s)) n -> io_queue s = [] -> io_waiting s = [] -> io_moving s = [] ->
  mshr_ok (l1d_mshrs (ns_core s)) -> io_width (ib_engine (ns_back s)) = w -> io_flight w n s.
Proof.
  intros Hr Hq Hw Hm Hok Hwid. split; try done; rewrite ?Hw, ?Hm, ?Hq; simpl; [apply covered_nil|by exists []|lia].
Qed.

(** ** The stages *)

Lemma ib_flush_flight w n (s : sys) out :
  rob_ok (ib_rob (ns_back s)) n -> mshr_ok (l1d_mshrs (ns_core s)) -> io_width (ib_engine (ns_back s)) = w ->
  out = [] -> io_flight w n ((ib_flush s) <| ns_rename := out |>).
Proof.
  intros Hr Hm Hw ->. destruct (flush_all_ok _ _ Hr) as [Hr' Hq]. destruct (mshr_flush_ok _ Hm) as [Hm' Hp].
  apply io_flight_empty; [exact Hr'|exact Hq|done|exact Hp|exact Hm'|exact Hw].
Qed.

Lemma io_tick_start_flight w n (s : sys) : io_flight w n s -> io_flight w n (io_tick_start s).
Proof.
  intros H. unfold io_tick_start.
  pose proof (drain_mshrs_flight (add64 (ib_cycle (ns_back s)) 1) (ns_core s) (ib_mem1_mem2 (ns_back s)) (if_mshrs _ _ _ H)) as D.
  destruct (drain_mshrs _ _ _) as [c latch]. destruct D as [D1 D2].
  eapply (io_flight_step []); [exact H|apply evolves_refl|done| |exact D1|done|done].
  unfold io_moving. simpl. rewrite (Permutation_app_comm (mw_rob_tag <$> _)), (app_assoc (mm_rob_tag <$> latch)), D2. solve_Permutation.
Qed.

(** Commit ends the cycle with an empty pipeline, or goes on. *)
Lemma io_commit_step_flight w n (s : sys) :
  io_flight w n s ->
  match io_commit_step s with
  | Return s' => io_flight w n (s' <| ns_rename := [] |>) /\ (ns_rename s' = [] \/ redirect_pending (machine (ns_core s')) = true)
  | Continue s' => io_flight w n s'
  end.
Proof.
  intros H. unfold io_commit_step, io_run_commit.
  pose proof (commit_flight (io_width (ib_engine (ns_back s))) (machine (ns_core s)) (io_lend (ns_back s)) n (if_rob _ _ _ H)) as C.
  destruct (commit_stage _ _ _) as [[t m] be]. destruct C as [Hr Hq].
  set (s1 := s <| ns_core := _ |> <| ns_back := _ |>).
  assert (F : forall out, out = [] -> io_flight w n ((ib_flush s1) <| ns_rename := out |>)).
  { intros out Ho. apply ib_flush_flight; [exact Hr|exact (if_mshrs _ _ _ H)|exact (if_width _ _ _ H)|exact Ho]. }
  destruct t as [[t epc]|].
  - split; [|right; done]. destruct (F [] eq_refl) as [F1 F2 F3 F4 F5 F6]. by split.
  - destruct (negb _); [split; [by apply F|by left]|].
    destruct (Hq eq_refl) as (done_ & Hq' & Hd). destruct H as [I1 I2 I3 I4 I5 I6].
    assert (Hio : io_queue s = done_ ++ io_queue s1) by exact Hq'.
    split; [exact Hr| | |exact I4|exact I5|exact I6].
    + apply (covered_retire done_); [exact Hd|]. rewrite <-Hio. exact I2.
    + change (io_waiting s1) with (io_waiting s). rewrite Hio in I2, I3. eapply retire_young; [|exact Hd|exact I2|exact I3].
      rewrite <-Hio. by eapply rob_ok_NoDup.
Qed.

Lemma io_writeback_step_flight w n (s : sys) : io_flight w n s -> io_flight w n (io_writeback_step s).
Proof.
  intros H. eapply (io_flight_step (mw_rob_tag <$> ib_mem2_wb (ns_back s))); [exact H|apply writeback_evolves|done| |exact (if_mshrs _ _ _ H)|done|done].
  unfold io_moving. simpl. solve_Permutation.
Qed.

Lemma io_memory2_step_flight w n (s : sys) :
  io_flight w n s -> ib_mem2_wb (ns_back s) = [] -> io_flight w n (io_memory2_step s).
Proof.
  intros H Hwb. destruct (memory2_flight (ns_core s) (ib_mem1_mem2 (ns_back s)) (io_store_buffer (ib_engine (ns_back s))) None) as [E1 E2].
  unfold io_memory2_step. set (st := memory2_stage _ _ _ _) in *.
  eapply (io_flight_step []); [exact H|apply evolves_refl|done| |simpl; rewrite E1; exact (if_mshrs _ _ _ H)|done|done].
  unfold io_moving. simpl. rewrite E1, Hwb, <-E2. solve_Permutation.
Qed.

Lemma io_memory1_step_flight w n (s : sys) : io_flight w n s -> io_flight w n (io_memory1_step s).
Proof.
  intros H. unfold io_memory1_step. destruct (0 <? _).
  { eapply (io_flight_step []); [exact H|apply evolves_refl|done|done|exact (if_mshrs _ _ _ H)|done|done]. }
  destruct (memory1_flight (ns_core s) (ib_execute_mem1 (ns_back s)) (ib_mem1_mem2 (ns_back s)) (ib_cycle (ns_back s)) None
    (if_mshrs _ _ _ H)) as [E1 E2]. set (st := memory1_stage _ _ _ _ _) in *.
  eapply (io_flight_step []); [exact H|apply evolves_refl|done| |exact E1|done|done].
  unfold io_moving. simpl.
  rewrite (Permutation_app_comm (mw_rob_tag <$> _)), (app_assoc (mm_rob_tag <$> m1_output st)), app_assoc, E2. solve_Permutation.
Qed.

(** Issue moves the head of the queue on; after a redirect the rest is squashed. *)
Lemma io_issue_step_flight w n (s : sys) :
  io_flight w n s ->
  let '(needs_flush, s') := io_issue_step s in
  io_flight w n (if needs_flush then io_redirect_step s' else s') /\ ns_rename s' = ns_rename s.
Proof.
  intros Hs. unfold io_issue_step. destruct (ib_execute_mem1 (ns_back s)) as [|x xs] eqn:Ex; [|done].
  unfold iu_select. pose proof (iu_select_tags (io_width (ib_engine (ns_back s))) (iu_queue (ib_issuer (ns_back s)))
    (io_rob (ib_engine (ns_back s))) (io_store_buffer (ib_engine (ns_back s))) (regs (hart (ns_core s)))) as T.
  destruct (iu_select_loop _ _ _ _ _) as [sel rem].
  set (c1 := match sel with [] => _ | _ => _ end).
  assert (Hc1 : l1d_mshrs c1 = l1d_mshrs (ns_core s)) by (unfold c1; destruct sel; [by destruct (iu_is_empty _)|done]).
  clearbody c1. unfold execute_inorder. match goal with |- context [list_scan (execute_inorder_body ?fl) sel ?x] =>
    destruct (execute_inorder_flight fl sel x eq_refl) as (k & R1 & R2 & R3 & R4) end.
  generalize dependent (after_loop (list_scan (execute_inorder_body (inflight_fp_flags (ns_back s))) sel
    {| bt_core := c1; bt_rob := io_rob (ib_engine (ns_back s)); bt_results := []; bt_flush := false; bt_fp_flags := 0 |})
    (fun st => st)). intros st R1 R2 R3 R4. simpl in R1, R3, R4. rewrite Hc1 in R3.
  split; [|by destruct (bt_flush st)]. destruct Hs as [I1 I2 I3 I4 I5 I6]. destruct (R4 n I1) as [Hr Hq].
  set (rest := (ri_rob_tag <$> rem) ++ (ri_rob_tag <$> ns_rename s)).
  assert (Wait : io_waiting s = (ri_rob_tag <$> sel) ++ rest) by (unfold io_waiting, rest; by rewrite T, <-app_assoc).
  set (later := (mm_rob_tag <$> ib_mem1_mem2 (ns_back s)) ++ (mw_rob_tag <$> ib_mem2_wb (ns_back s)) ++ parked_tags (l1d_mshrs (ns_core s))).
  assert (Move : io_moving s = later) by (unfold io_moving; by rewrite Ex).
  rewrite Wait, Move in I2. rewrite Wait in I3, I5. destruct I3 as [pre I3].
  assert (Ht : re_tag <$> rob_queue (bt_rob st) = pre ++ (ri_rob_tag <$> sel) ++ rest)
    by (rewrite (settles_tags _ _ _ Hq); exact I3).
  pose proof (covered_settle [] _ _ _ Hq I2) as Hcov.
  destruct (bt_flush st) eqn:Ef.
  - (* the youngest executed instruction is kept *)
    set (w1 := take k (ri_rob_tag <$> sel)). set (w2 := drop k (ri_rob_tag <$> sel) ++ rest).
    assert (Hw : (ri_rob_tag <$> sel) ++ rest = w1 ++ w2) by (unfold w1, w2; by rewrite app_assoc, take_drop).
    rewrite Hw in Ht, Hcov.
    assert (Hl : (0 < length w1)%nat) by (unfold w1; rewrite length_take, length_fmap; lia).
    assert (Hlast : exists keep, last w1 = Some keep).
    { destruct (last w1) eqn:E; [eauto|]. apply last_None in E. rewrite E in Hl. simpl in Hl. lia. }
    destruct Hlast as [keep Hkeep].
    assert (Hk : (re_tag <$> rob_queue (bt_rob st)) !! (length pre + (length w1 - 1))%nat = Some keep).
    { rewrite Ht, lookup_app_r by lia. replace (length pre + (length w1 - 1) - length pre)%nat with (pred (length w1)) by lia.
      rewrite lookup_app_l by lia. by rewrite <-last_lookup. }
    rewrite list_lookup_fmap in Hk. apply fmap_Some in Hk as (e & Hk & ->).
    destruct (flush_after_ok _ _ _ _ Hr Hk) as [Hr' Hq'].
    replace (S (length pre + (length w1 - 1))) with (length (pre ++ w1)) in Hq' by (rewrite length_app; lia).
    pose proof (covered_cut _ _ _ _ _ (rob_ok_NoDup _ _ Hr) Ht Hcov) as Hcut. rewrite <-Hq' in Hcut.
    set (s' := io_redirect_step _).
    assert (Hlk : ex_rob_tag <$> last (bt_results st) = Some (re_tag e)) by (rewrite <-fmap_last, R1; exact Hkeep).
    assert (Hrob : ib_rob (ns_back s') = rob_flush_after (bt_rob st) (re_tag e)).
    { unfold s', io_redirect_step, io_redirect. cbn. by rewrite Hlk. }
    assert (Hmv : io_moving s' = w1 ++ later) by (unfold later, w1; rewrite <-R3, <-R1; reflexivity).
    split; rewrite ?Hmv; unfold io_queue; rewrite ?Hrob; try done.
    + by apply suffix_nil.
    + change (mshr_ok (l1d_mshrs (bt_core st))). by rewrite R3.
    + simpl. lia.
    + unfold s', io_redirect_step, io_redirect. cbn. rewrite Hlk. exact I6.
  - subst k. rewrite take_ge in R1 by (by rewrite length_fmap).
    set (s' := s <| ns_core := _ |> <| ns_back := _ |>).
    assert (Hwt : io_waiting s' = rest) by done.
    assert (Hmv : io_moving s' = (ri_rob_tag <$> sel) ++ later)
      by (unfold later; rewrite <-R3, <-R1; reflexivity).
    split; rewrite ?Hwt, ?Hmv; [exact Hr| | | | |exact I6].
    + eapply covered_perm; [|exact Hcov]. solve_Permutation.
    + exists (pre ++ (ri_rob_tag <$> sel)). rewrite <-app_assoc. exact Ht.
    + change (mshr_ok (l1d_mshrs (bt_core st))). by rewrite R3.
    + rewrite length_app in I5. change (length rest <= iu_capacity (ib_issuer (ns_back s)))%nat. lia.
Qed.

Lemma io_dispatch_step_flight w n (s : sys) : io_flight w n s -> io_flight w n (io_dispatch_step s).
Proof.
  intros [I1 I2 I3 I4 I5 I6]. unfold io_waiting in I5. rewrite length_app, !length_fmap in I5.
  destruct (iu_dispatch_all (ib_issuer (ns_back s)) (ns_rename s) I5) as [E1 E2].
  assert (Hw : io_waiting (io_dispatch_step s) = io_waiting s).
  { unfold io_waiting. change (iu_queue (ib_issuer (ns_back (io_dispatch_step s)))) with (iu_queue (iu_dispatch (ib_issuer (ns_back s)) (ns_rename s))).
    by rewrite E1, fmap_app, app_nil_r. }
  split; rewrite ?Hw; [exact I1|exact I2|exact I3|exact I4| |exact I6].
  change (iu_capacity (ib_issuer (ns_back (io_dispatch_step s)))) with (iu_capacity (iu_dispatch (ib_issuer (ns_back s)) (ns_rename s))).
  rewrite E2. unfold io_waiting. by rewrite length_app, !length_fmap.
Qed.

(** A whole cycle of the engine. *)
Lemma io_tick_flight w n (s : sys) :
  io_flight w n s ->
  io_flight w n ((io_tick s) <| ns_rename := [] |>) /\
  (ns_rename (io_tick s) = [] \/ redirect_pending (machine (ns_core (io_tick s))) = true).
Proof.
  intros Hs. unfold io_tick. pose proof (io_commit_step_flight w n _ (io_tick_start_flight w n s Hs)) as C.
  destruct (io_commit_step (io_tick_start s)) as [s1|s1]; [|exact C]. unfold io_tick_rest.
  pose proof (io_writeback_step_flight w n s1 C) as Hw.
  pose proof (io_memory2_step_flight w n _ Hw eq_refl) as H2.
  pose proof (io_memory1_step_flight w n _ H2) as H1.
  pose proof (io_issue_step_flight w n _ H1) as Hi. destruct (io_issue_step _) as [needs_flush s2]. destruct Hi as [Hi _].
  destruct needs_flush; [split; [|by left]|].
  - destruct Hi. by split.
  - pose proof (io_dispatch_step_flight w n s2 Hi) as Hd. split; [|by left]. destruct Hd. by split.
Qed.

(** ** Rename *)

Definition with_engine (e : InOrderEngine) (out : list RenameIssueEntry) (s : sys) : sys :=
  (io_on_back (fun b => b <| ib_engine := e |>) s) <| ns_rename := out |>.

Lemma io_rename_one_flight w n id (s : sys) b :
  io_flight w n s -> 0 <= n -> n + 1 < TAG_SPAN -> (S b <= rob_free_slots (ib_rob (ns_back s)))%nat ->
  (S b <= sb_free_slots (io_store_buffer (ib_engine (ns_back s))))%nat ->
  (S (length (io_waiting s)) <= iu_capacity (ib_issuer (ns_back s)))%nat ->
  exists e' entry, io_rename_one id (ib_engine (ns_back s)) = IoRenamed e' entry /\
    io_flight w (n + 1) (with_engine e' (ns_rename s ++ [entry]) s) /\
    (b <= rob_free_slots (io_rob e'))%nat /\ (b <= sb_free_slots (io_store_buffer e'))%nat.
Proof.
  intros [I1 I2 I3 I4 I5 I6] Hn Hsp Hr Hsb Hl. unfold io_rename_one.
  set (e := ib_engine (ns_back s)) in *. assert (Hfull : rob_is_full (io_rob e) = false).
  { unfold rob_is_full, rob_free_slots in *. destruct (Nat.eqb_spec (rob_count (io_rob e)) (length (rob_entries (io_rob e)))); [|done].
    change (ib_rob (ns_back s)) with (io_rob e) in Hr. lia. }
  destruct (rob_allocate_room (io_rob e) (id_pc id) (id_inst id) (id_inst_size id) (id_rd id)
    (fp_reg_write (id_ctrl id)) (id_ctrl id) 0 0 b Hr) as (rob & t & Ea & Hr').
  pose proof (rob_allocate_ok (io_rob e) n (id_pc id) (id_inst id) (id_inst_size id) (id_rd id) (fp_reg_write (id_ctrl id))
    (id_ctrl id) 0 0 I1 Hn Hsp Hfull) as A. rewrite Ea in A. destruct A as (Et & Hok & x & Hq & Hx & Hst).
  injection Et as ->. rewrite Ea.
  assert (Hs2 : exists q, (if mem_write (id_ctrl id) then sb_allocate (io_store_buffer e) (tag_at n) (width (id_ctrl id))
    else (io_store_buffer e, true)) = (q, true) /\ (b <= sb_free_slots q)%nat).
  { destruct (mem_write _); [by apply sb_allocate_room|]. eexists. split; [done|]. lia. }
  destruct Hs2 as (q & Es & Hq'). cbv zeta.
  match goal with |- context [if mem_write ?c then ?y else ?z] =>
    replace (if mem_write c then y else z) with (q, true) by (symmetry; exact Es) end. cbn [negb].
  do 2 eexists. split; [done|]. split; [|by split].
  match goal with |- io_flight _ _ ?x => set (s' := x) end.
  assert (Hw : io_waiting s' = io_waiting s ++ [tag_at n]).
  { unfold io_waiting, s'. change (ns_rename (with_engine ?e ?o ?s)) with o. rewrite fmap_app, app_assoc. done. }
  assert (Hqs : io_queue s' = io_queue s ++ [x]) by exact Hq.
  split; rewrite ?Hw, ?Hqs; [exact Hok| | |exact I4| |exact I6].
  - change (io_moving s') with (io_moving s). rewrite <-Hx.
    eapply covered_perm; [|apply (covered_snoc (io_queue s) x (io_waiting s ++ io_moving s) Hst); [|exact I2]].
    + solve_Permutation.
    + rewrite Hx. eapply rob_ok_fresh; [exact I1|lia].
  - rewrite (fmap_snoc_at _ _ _ _ Hx). destruct I3 as [pre ->]. exists pre. by rewrite <-app_assoc.
  - rewrite length_app. simpl. change (iu_capacity _) with (iu_capacity (ib_issuer (ns_back s))). lia.
Qed.

Lemma io_rename_loop_flight w n input (st : IoRenameLoop) (s : sys) :
  io_flight w n (with_engine (irn_engine st) (irn_output st) s) -> 0 <= n -> n + Z.of_nat (irn_budget st) < TAG_SPAN ->
  (irn_budget st <= rob_free_slots (io_rob (irn_engine st)))%nat ->
  (irn_budget st <= sb_free_slots (io_store_buffer (irn_engine st)))%nat ->
  (irn_budget st + length (io_waiting (with_engine (irn_engine st) (irn_output st) s)) <= iu_capacity (ib_issuer (ns_back s)))%nat ->
  let st' := after_loop (list_scan io_rename_body input st) (fun st => st) in
  exists n', n <= n' <= n + Z.of_nat (irn_budget st) /\ io_flight w n' (with_engine (irn_engine st') (irn_output st') s).
Proof.
  revert n st. induction input as [|id input IH]; intros n st Hs Hn Hsp Hr Hsb Hl.
  { exists n. split; [lia|done]. }
  simpl list_scan. unfold io_rename_body at 1. destruct (Nat.eqb_spec (irn_budget st) 0) as [Hz|Hz].
  { match goal with |- context [list_scan _ input ?x] => set (st1 := x) end.
    apply (IH n st1 Hs Hn Hsp Hr Hsb Hl). }
  destruct (irn_budget st) as [|b] eqn:Eb; [done|].
  destruct (io_rename_one_flight w n id _ b Hs Hn ltac:(lia) Hr Hsb ltac:(change (iu_capacity _) with (iu_capacity (ib_issuer (ns_back s))); lia))
    as (e' & entry & E1 & H1 & H2 & H3).
  change (ib_engine (ns_back (with_engine (irn_engine st) (irn_output st) s))) with (irn_engine st) in E1. rewrite E1.
  match goal with |- context [list_scan _ input ?x] => set (st1 := x) end.
  assert (Bud : irn_budget st1 = b) by (unfold st1; simpl; lia).
  destruct (IH (n + 1) st1) as (n' & Hn' & H'); rewrite ?Bud; try done; try lia.
  - change (irn_output st1) with (irn_output st ++ [entry]). change (irn_engine st1) with e'.
    unfold io_waiting in *. cbn in *. rewrite !length_app, !length_fmap in *. rewrite length_app. simpl. lia.
  - exists n'. rewrite Bud in Hn'. split; [lia|done].
Qed.

Lemma io_can_accept_room (e : InOrderEngine) :
  (io_can_accept e <= rob_free_slots (io_rob e) /\ io_can_accept e <= sb_free_slots (io_store_buffer e) /\
   io_can_accept e <= io_issue_available e /\ io_can_accept e <= io_width e)%nat.
Proof. unfold io_can_accept. lia. Qed.

(** * The pipeline *)

Local Abbreviation pipe := (PipeState X M P IoBackend).
Definition io_good (w : nat) (n : Z) (c : core) (b : IoBackend) (out : list RenameIssueEntry) : Prop :=
  io_flight w n {| ns_core := c; ns_back := b; ns_rename := out |}.

Lemma io_rename_flight w n (c : core) (b : IoBackend) input :
  io_good w n c b [] -> 0 <= n -> n + Z.of_nat w < TAG_SPAN ->
  exists c' b' input' out, en_rename c b input [] = Some (c', b', input', out) /\
    l1d_mshrs c' = l1d_mshrs c /\ exists n', n <= n' <= n + Z.of_nat w /\ io_good w n' c' b' out.
Proof.
  intros Hs Hn Hsp. simpl en_rename. do 4 eexists. split; [done|]. split; [done|].
  set (s := {| ns_core := c; ns_back := b; ns_rename := [] |} : sys).
  unfold io_rename_stage. match goal with |- context [list_scan io_rename_body ?i ?x] =>
    pose proof (io_rename_loop_flight w n i x s) as L end.
  destruct (io_can_accept_room (io_view b)) as (B1 & B2 & B3 & B4).
  pose proof (if_width _ _ _ Hs : io_width (io_view b) = w) as Hw. rewrite Hw in B4.
  change (io_issue_available (io_view b)) with (iu_available_slots (ib_issuer b)) in B3. unfold iu_available_slots in B3.
  pose proof (if_room _ _ _ Hs) as Hroom. unfold io_waiting in Hroom. rewrite length_app, !length_fmap in Hroom. cbn in Hroom.
  cbn [irn_budget irn_engine irn_output] in L. destruct L as (n' & Hn' & L); [|done|lia|exact B1|exact B2| |].
  - destruct Hs. by split.
  - unfold io_waiting. rewrite length_app, !length_fmap.
    change (io_can_accept (io_view b) + (length (iu_queue (ib_issuer b)) + 0) <= iu_capacity (ib_issuer b))%nat. lia.
  - exists n'. split; [lia|]. destruct L. by split.
Qed.

Lemma io_laws w : engine_laws w (io_good w).
Proof.
  split.
  - intros n c c' b out [I1 I2 I3 I4 I5 I6] E. split; [exact I1| |exact I3|by simpl; rewrite E|exact I5|exact I6].
    unfold io_moving. simpl. rewrite E. exact I2.
  - intros n c b out Hs _. exact (io_tick_flight w n _ Hs).
  - intros n c b input. apply io_rename_flight.
Qed.

(** The pipeline after reset. *)
Definition io_start (c : core) (rob_size sb_size w : nat) : pipe := {|
  ps_core := c; ps_frontend := frontend_new; ps_engine := ib_new rob_size sb_size w; ps_rename_output := [] |}.

Lemma io_start_good (c : core) rob_size sb_size w misses line :
  (0 < rob_size)%nat -> l1d_mshrs c = mshr_new misses line -> io_good w 0 c (ib_new rob_size sb_size w) [].
Proof.
  intros Hr Hm. destruct (mshr_new_ok misses line) as [Hok Hp]. apply io_flight_empty; try done.
  - exists []. split; [by apply rob_new_inv|]. split; constructor.
  - change (parked_tags (l1d_mshrs c) = []). by rewrite Hm.
  - change (mshr_ok (l1d_mshrs c)). by rewrite Hm.
Qed.

(** C3. The in-order pipeline never loses or duplicates an instruction, and
    rename never reaches its unreachable!: after any number of whole cycles
    (commit to fetch, with traps, interrupts, mispredictions, misses and stalls)
    that can hand out fewer than TAG_SPAN = 2^31 - 1 tags, every
    instruction in the reorder buffer whose result is outstanding is in exactly
    one of the rename output, the issue queue, the latches and the miss
    registers, whatever these hold belongs to an instruction in flight that is
    not complete, the instructions not yet issued are, in order, the youngest
    of the reorder buffer, and the issue queue has room for all of them, so
    that dispatch drops none. *)
Theorem inorder_loses_nothing (c : core) (rob_size sb_size w cycles misses : nat) (line : Z) :
  (0 < rob_size)%nat -> l1d_mshrs c = mshr_new misses line -> Z.of_nat (cycles * w) < TAG_SPAN ->
  exists s, pipeline_run cycles (io_start c rob_size sb_size w) = Some s /\
    let q := rob_queue (ib_rob (ps_engine s)) in
    let waiting := (ri_rob_tag <$> iu_queue (ib_issuer (ps_engine s))) ++ (ri_rob_tag <$> ps_rename_output s) in
    let moving := (ex_rob_tag <$> ib_execute_mem1 (ps_engine s)) ++ (mm_rob_tag <$> ib_mem1_mem2 (ps_engine s)) ++
                  (mw_rob_tag <$> ib_mem2_wb (ps_engine s)) ++ parked_tags (l1d_mshrs (ps_core s)) in
    NoDup (waiting ++ moving) /\
    (forall e, e ∈ q -> re_state e = Issued -> re_tag e ∈ waiting ++ moving) /\
    (forall t, t ∈ waiting ++ moving -> exists e, e ∈ q /\ re_tag e = t /\ re_state e <> Completed) /\
    waiting `suffix_of` (re_tag <$> q) /\ (length waiting <= iu_capacity (ib_issuer (ps_engine s)))%nat.
Proof.
  intros Hr Hm Hsp. pose proof (io_start_good c rob_size sb_size w misses line Hr Hm) as G.
  destruct (pipeline_run_good w _ (io_laws w) cycles 0 (io_start c rob_size sb_size w) G) as (s & n & E & [_ [H1 H2 H3] H4 _ H5 _]); [lia|lia|].
  exists s. split; [exact E|]. cbv zeta. split_and!; [exact H1|exact H3|exact H2|exact H4|exact H5].
Qed.

End InOrder.

(** ** Witness *)

(** Instructions without a result, not yet issued, and parked in a miss register. *)
Definition io_counts (s : PipeState Empty_set SimpleController unit IoBackend) : list nat :=
  [length (filter (fun e => re_state e = Issued) (rob_queue (ib_rob (ps_engine s))));
   length (iu_queue (ib_issuer (ps_engine s))); length (parked_tags (l1d_mshrs (ps_core s)))].

(** While a load waits for memory, an addition waits in the queue for its result. *)
Lemma inorder_loses_nothing_witness :
  exists s, pipeline_run 77 (demo_inorder demo_program) = Some s /\ io_counts s = [2; 1; 1]%nat /\
    (forall e, e ∈ rob_queue (ib_rob (ps_engine s)) -> re_state e = Issued ->
       re_tag e ∈ ((ri_rob_tag <$> iu_queue (ib_issuer (ps_engine s))) ++ (ri_rob_tag <$> ps_rename_output s)) ++
         (ex_rob_tag <$> ib_execute_mem1 (ps_engine s)) ++ (mm_rob_tag <$> ib_mem1_mem2 (ps_engine s)) ++
         (mw_rob_tag <$> ib_mem2_wb (ps_engine s)) ++ parked_tags (l1d_mshrs (ps_core s))).
Proof.
  destruct (inorder_loses_nothing (demo_machine_with demo_program) 8 4 2 77 4 64) as (s & E & H); [lia|reflexivity|done|].
  change (pipeline_run 77 (demo_inorder demo_program) = Some s) in E. exists s. split; [exact E|].
  assert (C : io_counts <$> pipeline_run 77 (demo_inorder demo_program) = Some [2; 1; 1]%nat) by (vm_compute; reflexivity).
  rewrite E in C. apply (inj Some) in C. split; [exact C|]. apply H.
Defined.
