(* ===== verification/O3Flight.v ===== *)
(** Where the instructions of the out-of-order engine are: the invariant of a
    cycle of [backend/o3/mod.rs], stage by stage, through results that come in any
    order and squashes of everything younger than an instruction. *)
From S2P Require Import Prelude Ring Common Rob RobSpec RobProps StoreBuffer LoadQueue Rename RenameO3 RenameInv RenameO3Props RenameSound Policy Prefetch Cache Cpu Dram Hierarchy Soc Interconnect Commit CommitSpec Latches MemDep IssueQueue IssueQueueProps Mshr Core Execute Memory O3Tick Fetch Pipeline Flight.
Local Open Scope Z_scope.

(** * Issue queue *)

Definition iq_tags (q : IssueQueue) : list Z := iq_tag <$> live (iq_slots q).

(** Wakeups edit operands, not which instructions are there. *)
Record iq_same (q q' : IssueQueue) : Prop := {
  im_wf : iq_wf q -> iq_wf q';
  im_cap : iq_capacity q' = iq_capacity q;
  im_count : iq_count q' = iq_count q;
  im_tags : iq_tags q' = iq_tags q
}.
Lemma iq_same_refl q : iq_same q q.
Proof. by split. Qed.
Lemma iq_same_trans q q1 q2 : iq_same q q1 -> iq_same q1 q2 -> iq_same q q2.
Proof. intros [] []. split; [auto|congruence..]. Qed.

Lemma iq_map_same f q : (forall e, iq_tag (f e) = iq_tag e) -> iq_same q (iq_map f q).
Proof.
  intros Hf. split; [apply iq_map_wf|done|done|]. unfold iq_tags. simpl. rewrite live_map, <-list_fmap_compose.
  apply list_fmap_ext. intros _ e _. apply Hf.
Qed.
Lemma wakeup_same q p v : iq_same q (iq_wakeup_phys q p v).
Proof. by apply iq_map_same. Qed.
Lemma speculative_wakeup_same q p : iq_same q (iq_speculative_wakeup_phys q p).
Proof. unfold iq_speculative_wakeup_phys. destruct (_ =? _); [apply iq_same_refl|by apply iq_map_same]. Qed.
Lemma cancel_same q p prf : iq_same q (iq_cancel_wakeup_phys q p prf).
Proof.
  unfold iq_cancel_wakeup_phys. destruct (_ =? _); [apply iq_same_refl|].
  destruct (prf_is_ready _ _); [apply iq_same_refl|by apply iq_map_same].
Qed.
Lemma wakeup_dep_same q ts : iq_same q (iq_wakeup_mem_dep q ts).
Proof. apply iq_map_same. intros e. unfold mark_resolved. destruct (iq_mem_dep e); try done. by destruct (bool_decide _). Qed.

Lemma foldl_same {A} (f : IssueQueue -> A -> IssueQueue) l q :
  (forall q a, iq_same q (f q a)) -> iq_same q (foldl f q l).
Proof.
  intros Hf. revert q. induction l as [|a l IH]; intros q; [apply iq_same_refl|]. simpl.
  eapply iq_same_trans; [apply Hf|apply IH].
Qed.

Lemma iq_flush_after_tags q keep :
  iq_tags (iq_flush_after q keep) = filter (fun t => is_older_or_eq t keep = true) (iq_tags q).
Proof.
  unfold iq_tags. simpl. rewrite live_flush_after. generalize (live (iq_slots q)). intros l.
  induction l as [|e l IH]; [done|]. rewrite fmap_cons, !filter_cons, <-IH. unfold is_older_or_eq, is_newer_than.
  by destruct (is_older_than keep (iq_tag e)).
Qed.
Lemma iq_flush_after_count q keep : (iq_count (iq_flush_after q keep) <= iq_count q)%nat.
Proof. simpl. lia. Qed.

Lemma iq_dispatch_room q entry rob regs prf md :
  iq_wf q -> (iq_count q < iq_capacity q)%nat ->
  exists q', iq_dispatch q entry rob regs prf md = Some (true, q') /\ iq_wf q' /\
    iq_capacity q' = iq_capacity q /\ iq_count q' = S (iq_count q) /\ iq_tags q' ≡ₚ ri_rob_tag entry :: iq_tags q.
Proof.
  intros Hw Hr. destruct (iq_dispatch_spec q entry rob regs prf md Hw) as (ok & q' & E & Hw' & H).
  destruct ok; [|lia]. destruct H as (s1 & s2 & s3 & _ & Hl). exists q'. split_and!; [done|done| | |].
  - unfold iq_dispatch in E. destruct (_ <=? _)%nat; [congruence|]. destruct (resolve_operands _ _ _ _) as [[a b] c].
    destruct (free_slot _); [|done]. by injection E as <-.
  - rewrite (iqw_count _ Hw'), Hl, (iqw_count _ Hw). done.
  - unfold iq_tags. by rewrite Hl.
Qed.

Lemma select_capacity width lp sp prf l st :
  iq_capacity (sel_queue (after_loop (list_scan (select_body width lp sp prf) l st) (fun st => st))) = iq_capacity (sel_queue st).
Proof.
  revert st. induction l as [|i l IH]; intros st; [done|]. simpl list_scan. unfold select_body at 1.
  destruct (_ <=? _)%nat; [done|]. destruct (_ !!! i) as [iq|]; [|apply IH].
  destruct (_ && _); [apply IH|]. destruct (_ && _); [apply IH|]. etrans; [apply IH|done].
Qed.
Lemma iq_select_capacity q width sb rob lp sp prf : iq_capacity (iq_select q width sb rob lp sp prf).2 = iq_capacity q.
Proof. unfold iq_select. cbn [snd]. by rewrite select_capacity. Qed.

Lemma iq_select_flight q width sb rob lp sp prf :
  iq_wf q ->
  let '(sel, q') := iq_select q width sb rob lp sp prf in
  iq_wf q' /\ iq_capacity q' = iq_capacity q /\ (length sel + iq_count q' = iq_count q)%nat /\
  iq_tags q ≡ₚ ((fun s => ri_rob_tag (se_entry s)) <$> sel) ++ iq_tags q' /\
  StronglySorted Z.le ((fun s => ri_rob_tag (se_entry s)) <$> sel).
Proof.
  intros Hw. pose proof (iq_select_spec q width sb rob lp sp prf Hw) as H. cbv zeta in H.
  assert (Hcap : iq_capacity (iq_select q width sb rob lp sp prf).2 = iq_capacity q) by apply iq_select_capacity.
  destruct (iq_select _ _ _ _ _ _ _) as [sel q']. destruct H as (-> & Hp & Hw'). simpl in Hcap.
  set (el := filter _ _) in *. set (picked := pick _ _ _ _) in *.
  assert (T : (fun s => ri_rob_tag (se_entry s)) <$> (take_entry prf <$> picked) = iq_tag <$> picked).
  { rewrite <-list_fmap_compose. apply list_fmap_ext. intros _ e _. simpl. unfold iq_tag. by destruct (ri_trap _). }
  rewrite T. split_and!; [done|done| | |].
  - rewrite length_fmap, (iqw_count _ Hw), (iqw_count _ Hw'), Hp, length_app. done.
  - unfold iq_tags. by rewrite Hp, fmap_app.
  - assert (S : StronglySorted (key_le iq_tag) picked)
      by (eapply sorted_sublist; [apply pick_sublist|apply stable_sort_sorted]).
    by apply (StronglySorted_fmap iq_tag (key_le iq_tag)).
Qed.

(** * Load queue *)

(** The loads that have read memory. *)
Definition executed (q : LoadQueue) : list Z := lq_rob_tag <$> filter (fun e => lq_state e = LExecuted) (lq_live q).
Record lq_within (T : Z -> Prop) (q : LoadQueue) : Prop := { lw_inv : lq_inv q; lw_executed : Forall T (executed q) }.
Definition olq_within (T : Z -> Prop) (o : option LoadQueue) : Prop := forall q, o = Some q -> lq_within T q.

Lemma executed_modify (T : Z -> Prop) tag edit l :
  (forall e, lq_rob_tag (edit e) = lq_rob_tag e) -> (forall e, lq_state (edit e) = LExecuted -> T tag) ->
  Forall T (lq_rob_tag <$> filter (fun e => lq_state e = LExecuted) l) ->
  Forall T (lq_rob_tag <$> filter (fun e => lq_state e = LExecuted) (modify_first (tag_is tag) edit l)).
Proof.
  intros Ht Hs. induction l as [|e l IH]; [done|]. rewrite filter_cons. simpl. intros H.
  assert (Hl : Forall T (lq_rob_tag <$> filter (fun e => lq_state e = LExecuted) l)).
  { destruct (decide (lq_state e = LExecuted)); [|exact H]. rewrite fmap_cons in H. by apply Forall_cons in H as [_ ?]. }
  destruct (tag_is tag e) eqn:E; rewrite filter_cons.
  - destruct (decide (lq_state (edit e) = LExecuted)) as [D|D]; [|exact Hl]. rewrite fmap_cons. constructor; [|exact Hl]. rewrite Ht.
    unfold tag_is in E. to_prop. subst. by eapply Hs.
  - destruct (decide (lq_state e = LExecuted)); [|by apply IH]. rewrite fmap_cons in H |- *. apply Forall_cons in H as [? ?]. constructor; [done|by apply IH].
Qed.

Lemma lq_op_within T q op :
  lq_within T q -> (forall t d, op = LqFillData t d -> T t) -> lq_within T (lq_exec q op).
Proof.
  intros [W H] Hop. destruct (lq_exec_refines q op W) as [W' Hl]. split; [done|]. unfold executed in *. rewrite Hl.
  assert (Sub : forall l, l `sublist_of` lq_live q -> Forall T (lq_rob_tag <$> filter (fun e => lq_state e = LExecuted) l)).
  { intros l Hs. eapply Forall_forall. intros t (e & -> & [He Hin]%list_elem_of_filter)%list_elem_of_fmap.
    rewrite Forall_forall in H. apply H, list_elem_of_fmap_2, list_elem_of_filter. split; [done|].
    by eapply elem_of_sublist. }
  destruct op; simpl.
  - destruct (negb _); [|done]. by rewrite filter_app, fmap_app, app_nil_r.
  - by apply executed_modify.
  - apply executed_modify; [done| |done]. intros _ _. by eapply Hop.
  - apply Sub. generalize (lq_live q). intros l. induction l as [|e l IH]; [done|]. simpl.
    destruct (tag_is tag e); [by apply sublist_cons|by apply sublist_skip].
  - constructor.
  - apply Sub, sublist_filter.
Qed.
Lemma lq_within_mono (T T' : Z -> Prop) q : (forall t, T t -> T' t) -> lq_within T q -> lq_within T' q.
Proof. intros HT [W H]. split; [done|]. by eapply Forall_impl. Qed.

Lemma oldest_fold_in bad l o v :
  oldest_fold bad l o = Some v -> o = Some v \/ exists e, e ∈ l /\ bad e = true /\ lq_rob_tag e = v.
Proof.
  unfold oldest_fold. revert o. induction l as [|e l IH]; intros o; [by left|]. simpl. intros H.
  apply IH in H as [H|(x & Hx & H)]; [|right; exists x; set_solver]. destruct (bad e) eqn:Eb; [|by left].
  unfold oldest_step in H. destruct o as [prev|]; [destruct (is_older_than _ _); [|by left]|];
    injection H as <-; right; exists e; set_solver.
Qed.

Lemma lq_violation_within T q paddr w tag v :
  lq_within T q -> lq_check_ordering_violation q paddr w tag = Some v -> T v.
Proof.
  intros [W H]. unfold lq_check_ordering_violation. destruct (_ =? _)%nat; [done|].
  rewrite violation_scan by apply W. simpl. intros [?|(e & He & Hb & <-)]%oldest_fold_in; [done|].
  rewrite Forall_forall in H. apply H, list_elem_of_fmap_2, list_elem_of_filter. split; [|exact He].
  unfold violates in Hb. by apply andb_prop in Hb as [[_ Hb%bool_decide_eq_true]%andb_prop _].
Qed.

(** * Commit *)

(** What commit keeps of the checkpoints and the load queue. *)
Record held_ok (T : Z -> Prop) (b : Backend) : Prop := {
  ho_ckpts : forall ct, be_checkpoints b = Some ct -> ct_wf ct;
  ho_loads : olq_within T (be_load_queue b)
}.

Section Held.
Context {X M P : Type} `{!ExtDevice X} `{!MemoryController M} `{!BranchUpdate P} (T : Z -> Prop).
Local Abbreviation machine := (Machine X M P).

Lemma held_same b b' :
  be_checkpoints b' = be_checkpoints b -> be_load_queue b' = be_load_queue b -> held_ok T b -> held_ok T b'.
Proof. intros E1 E2 [H1 H2]. split; by rewrite ?E1, ?E2. Qed.

Lemma release_held e b : held_ok T b -> held_ok T (release_queues e b).
Proof.
  intros [H1 H2]. split; unfold release_queues; simpl.
  - destruct (re_checkpoint_id e); [|exact H1]. intros ct (ct' & Hct & ->)%fmap_Some. by apply ct_free_wf, H1.
  - destruct (mem_read _); [|exact H2]. intros q (q' & Hq & ->)%fmap_Some. by apply (lq_op_within T q' (LqDeallocate _)); [apply H2|].
Qed.

Lemma drained_held (m : machine) b :
  held_ok T b -> held_ok T (let '(m, sb) := drain_all_committed m (be_store_buffer b) in (m, b <| be_store_buffer := sb |>)).2.
Proof. destruct (drain_all_committed _ _). by apply held_same. Qed.

Lemma commit_fences_held e (m : machine) b : held_ok T b -> held_ok T (commit_fences e m b).2.
Proof.
  intros Hb. unfold commit_fences. case_decide.
  - pose proof (drained_held m b Hb) as D. destruct (drain_all_committed _ _). exact D.
  - match goal with |- held_ok T (let '(m, b) := ?r in _).2 => assert (Hr : held_ok T r.2) end.
    { case_decide; [|exact Hb]. destruct (_ || _); [by apply drained_held|exact Hb]. }
    match goal with |- held_ok T (let '(m, b) := ?r in _).2 => destruct r as [m3 b4] end. by destruct (re_sfence_vma e).
Qed.

Lemma commit_memory_held e (m : machine) b : held_ok T b -> held_ok T (commit_memory e m b).2.
Proof.
  intros Hb. unfold commit_memory.
  assert (F : forall m : machine, held_ok T (let '(m, b) := commit_store e m b in commit_fences e m (release_queues e b)).2).
  { intros m1. destruct (commit_store e m1 b) as [m2 b2] eqn:E. apply commit_fences_held, release_held.
    unfold commit_store in E. destruct (mem_write _); injection E as _ <-; [|exact Hb].
    revert Hb. by apply held_same. }
  destruct (re_lr_sc e) as [[p|p]|]; [apply F| |apply F]. destruct (check_reservation _ _); [apply F|].
  unfold sc_failure. destruct (writes_int e); revert Hb; by apply held_same.
Qed.

Lemma retire_held e (m : machine) b : held_ok T b -> held_ok T (retire e m b).2.
Proof.
  intros Hb. unfold retire. set (m' := upd_cpu (apply_fp_flags e) _). clearbody m'. cbv zeta.
  assert (Hc : held_ok T (commit_regs e b))
    by (unfold commit_regs; destruct (fp_reg_write _); [|destruct (writes_int e); [|exact Hb]]; revert Hb; by apply held_same).
  destruct (re_csr_update e) as [u|].
  - unfold apply_csr. destruct (_ =? _); [destruct (drain_all_committed _ _)|]; revert Hc; by apply held_same.
  - destruct (system_op _); try exact Hc; by apply commit_memory_held.
Qed.

Lemma commit_stage_held w (m : machine) b : held_ok T b -> held_ok T (commit_stage w m b).2.
Proof.
  intros Hb. unfold commit_stage. destruct (check_interrupts _); [exact Hb|]. destruct (wfi_waiting m); [exact Hb|].
  unfold commit_finish. match goal with |- held_ok T (let '(m, sb) := drain_one_store ?m0 ?q in _).2 => destruct (drain_one_store m0 q) end.
  cbn [snd]. unfold commit_loop. match goal with |- context [list_scan commit_body ?l ?x] =>
    generalize l; set (st := x); assert (Hst : held_ok T (c_backend st)) by exact Hb; clearbody st end.
  intros l. eapply (held_same (c_backend (after_loop (list_scan commit_body l st) (fun st => st)))); [done..|]. revert st Hst.
  induction l as [|i l IH]; intros st Hst; [done|]. simpl list_scan. unfold commit_body at 1.
  destruct (rob_peek_head _) as [e|]; [|done]. destruct (_ && _); [done|]. case_decide; [done|]. case_decide.
  { destruct (rob_commit_head _) as [r [x|]]; [destruct (re_trap x); [destruct (negb _)|]|];
      revert Hst; by apply held_same. }
  destruct (_ && _); [done|]. destruct (rob_commit_head _) as [r [x|]]; [|revert Hst; by apply held_same].
  set (b1 := (c_backend st) <| be_rob := r |>). assert (Hb1 : held_ok T b1) by (revert Hst; by apply held_same).
  pose proof (retire_held x (c_machine st) b1 Hb1) as R. destruct (retire _ _ _) as [[nx m1] b2].
  destruct nx; [exact R|]. by apply IH.
Qed.

End Held.

(** * Loads in the memory stages *)

Lemma olq_op (T : Z -> Prop) o (f : LoadQueue -> LoadQueue) :
  (forall q, lq_within T q -> lq_within T (f q)) -> olq_within T o -> olq_within T (f <$> o).
Proof. intros Hf H q (q' & Hq & ->)%fmap_Some. by apply Hf, H. Qed.

Section Loads.
Context {X M P : Type} `{!ExtDevice X} `{!MemoryController M} (T : Z -> Prop).
Local Abbreviation core := (Core X M P).

Lemma memory1_one_loads (c : core) lq ex now : olq_within T lq -> olq_within T (memory1_one c lq ex now).2.
Proof.
  intros H. unfold memory1_one. destruct (ex_trap ex); [exact H|]. destruct (_ || _); [|exact H].
  unfold memory1_access. destruct (alignment _ _); [exact H|]. destruct (core_translate _ _ _ _) as [tr c1].
  destruct (tr_trap tr); [exact H|]. destruct (unmapped _ _); [exact H|]. destruct (_ && _).
  - destruct (probe_mshr _ _ _ _ _ _) as [r c2]. cbn [snd]. destruct (mem_read _); [|exact H].
    apply olq_op; [|exact H]. intros q Hq. by apply (lq_op_within T q (LqFillAddress _ _ _)).
  - match goal with |- context [if ?b then _ else _] => destruct b end.
    + match goal with |- context [walk_hierarchy ?f ?x] => destruct (walk_hierarchy f x) end. cbn [snd].
      destruct (mem_read _); [|exact H]. apply olq_op; [|exact H]. intros q Hq. by apply (lq_op_within T q (LqFillAddress _ _ _)).
    + cbn [snd]. destruct (mem_read _); [|exact H]. apply olq_op; [|exact H]. intros q Hq. by apply (lq_op_within T q (LqFillAddress _ _ _)).
Qed.

Lemma memory1_loads (c : core) input output now lq :
  olq_within T lq -> olq_within T (m1_lq (memory1_stage c input output now lq)).
Proof.
  intros H. unfold memory1_stage. match goal with |- context [memory1_loop _ _ ?s] =>
    assert (Hs : olq_within T (m1_lq s)) by exact H; generalize dependent s end.
  induction input as [|ex l IH]; intros st Hst; [done|]. cbn [memory1_loop].
  pose proof (memory1_one_loads (m1_core st) (m1_lq st) ex now Hst) as K.
  destruct (memory1_one _ _ _ _) as [[r c'] lq']. cbn [snd] in K. destruct r; [by apply IH|done|by apply IH|done].
Qed.

Definition violation_within (o : option (Z * Z)) : Prop := forall v pc, o = Some (v, pc) -> T v.

Lemma check_store_within lq mem o : olq_within T lq -> violation_within o -> violation_within (check_store lq mem o).
Proof.
  intros H Ho. unfold check_store. destruct lq as [q|]; [|done]. unfold older_violation.
  destruct (lq_check_ordering_violation _ _ _ _) as [t|] eqn:E; [|done].
  assert (Ht : T t) by (eapply lq_violation_within; [by apply H|exact E]).
  destruct o as [[prev pc]|]; [destruct (is_older_than _ _); [|done]|]; by intros v pc' [= <- _].
Qed.

Definition m2_ok (st : Mem2State (X:=X) (M:=M) (P:=P)) : Prop := olq_within T (m2_lq st) /\ violation_within (m2_violation st).

Lemma memory2_one_loads mem st ld r st' :
  T (mm_rob_tag mem) -> m2_ok st -> memory2_one mem st = Some (ld, r, st') -> m2_ok st'.
Proof.
  intros Ht [H1 H2]. unfold memory2_one.
  assert (St : violation_within (check_store (m2_lq st) mem (m2_violation st))) by (by apply check_store_within).
  assert (Ld : forall v, olq_within T ((fun q => lq_fill_data q (mm_rob_tag mem) v) <$> m2_lq st)).
  { intros v. apply olq_op; [|exact H1]. intros q Hq.
    apply (lq_op_within T q (LqFillData _ _)); [exact Hq|]. by intros t d [= <- _]. }
  destruct (read_memory _ _ _) as [v c], (read_atomic _ _ _) as [v' c'].
  destruct (atomic_op _); [destruct (mem_read _); [destruct (sb_forward_load _ _ _ _)|destruct (mem_write _)]|..];
    try destruct (sb_has_older_store_to _ _ _ _); try discriminate; intros E; apply (inj Some) in E;
    injection E as <- <- <-; (split; [first [exact (Ld _)|exact H1]|first [exact St|exact H2]]).
Qed.

Lemma memory2_loads (c : core) input sb lq :
  olq_within T lq -> Forall T (mm_rob_tag <$> input) -> m2_ok (memory2_stage c input sb lq).
Proof.
  intros H Hin. unfold memory2_stage. match goal with |- context [memory2_loop _ ?s] =>
    assert (Hs : m2_ok s) by (split; [exact H|done]); generalize dependent s end.
  assert (Hin' : Forall T (mm_rob_tag <$> stable_sort mm_rob_tag input)) by (by rewrite stable_sort_perm).
  revert Hin'. generalize (stable_sort mm_rob_tag input). clear. intros l.
  induction l as [|mem l IH]; intros Hl st Hst; [done|]. rewrite fmap_cons in Hl. apply Forall_cons in Hl as [Hm Hl].
  cbn [memory2_loop]. destruct (mm_trap mem); [exact Hst|].
  destruct (memory2_one mem st) as [[[ld r] st']|] eqn:E; [|exact Hst]. apply IH; [done|].
  exact (memory2_one_loads _ _ _ _ _ Hm Hst E).
Qed.

End Loads.

(** * Where the instructions are *)

(** Results written early are complete while their unit is still busy. *)
Definition pend_open (p : PendingResult) : list Z := if pr_speculative_written p then [] else [pr_tag p].
Definition pend_ok (p : PendingResult) : Prop := pr_speculative_written p = true -> is_mem_op (ex_ctrl (pr_entry p)) = false.
Definition pend_tags (l : list PendingResult) : list Z := l ≫= pend_open.

Section O3.
Context {X M P : Type} `{!ExtDevice X} `{!MemoryController M} `{!BranchUnit P} `{FU : !FpUnit}.
Local Abbreviation core := (Core X M P).
Local Abbreviation sys := (O3Sys X M P).

Definition o3_places (s : sys) : list Z :=
  (ri_rob_tag <$> os_rename s) ++ iq_tags (ob_iq (os_back s)) ++ pend_tags (ob_pending (os_back s)) ++
  (ex_rob_tag <$> ob_execute_mem1 (os_back s)) ++ (mm_rob_tag <$> ob_mem1_mem2 (os_back s)) ++
  (mw_rob_tag <$> ob_mem2_wb (os_back s)) ++ parked_tags (l1d_mshrs (os_core s)).

(** The parts next to the reorder buffer; [k] instructions are selected and on
    their way out of the queue. *)
Record o3_local (w k : nat) (s : sys) : Prop := {
  ol_iq : iq_wf (ob_iq (os_back s));
  ol_room : (k + length (os_rename s) + iq_count (ob_iq (os_back s)) <= iq_capacity (ob_iq (os_back s)))%nat;
  ol_pending : Forall pend_ok (ob_pending (os_back s));
  ol_mshrs : mshr_ok (l1d_mshrs (os_core s));
  ol_ckpts : ct_wf (o3_checkpoints (ob_engine (os_back s)));
  ol_width : o3_width (ob_engine (os_back s)) = w
}.

(** Tags given before the [m]-th allocation. *)
Definition issued_before (m t : Z) : Prop := exists k, 0 <= k < m /\ t = tag_at k.

(** The rename output holds the last instructions allocated, and no load among
    them has read memory. *)
Record o3_order (n : Z) (s : sys) : Prop := {
  oo_rename : ri_rob_tag <$> os_rename s =
    tag_at <$> seqZ (n - Z.of_nat (length (os_rename s))) (Z.of_nat (length (os_rename s)));
  oo_loads : lq_within (issued_before (n - Z.of_nat (length (os_rename s)))) (o3_load_queue (ob_engine (os_back s)))
}.

(** [sel] are the tags of instructions on their way between two places, of which
    [k] may return to the issue queue; [n] instructions were renamed so far. *)
Record o3_flight (w : nat) (n : Z) (k : nat) (sel : list Z) (s : sys) : Prop := {
  of_rob : rob_ok (os_rob s) n;
  of_covered : covered (rob_queue (os_rob s)) (sel ++ o3_places s);
  of_local : o3_local w k s;
  of_order : o3_order n s
}.

Lemma o3_flight_step ts w n k k' sel sel' (s s' : sys) :
  o3_flight w n k sel s -> rob_evolves ts (os_rob s) (os_rob s') -> ts ++ sel' ++ o3_places s' ≡ₚ sel ++ o3_places s ->
  o3_local w k' s' -> o3_order n s' -> o3_flight w n k' sel' s'.
Proof.
  intros [Hr Hc Hl Ho] Hev Hp Hl' Ho'. destruct (Hev n Hr) as [Hr' Hq]. split; [done| |done|done].
  apply (covered_settle ts _ _ _ Hq). eapply covered_perm; [|exact Hc]. by symmetry.
Qed.

(** What a broadcast, a wakeup or a bump of a counter leaves as it is. *)
Record quiet (s s' : sys) : Prop := {
  qt_rob : os_rob s' = os_rob s;
  qt_iq : iq_same (ob_iq (os_back s)) (ob_iq (os_back s'));
  qt_pending : ob_pending (os_back s') = ob_pending (os_back s);
  qt_ex : ob_execute_mem1 (os_back s') = ob_execute_mem1 (os_back s);
  qt_m1 : ob_mem1_mem2 (os_back s') = ob_mem1_mem2 (os_back s);
  qt_m2 : ob_mem2_wb (os_back s') = ob_mem2_wb (os_back s);
  qt_rename : os_rename s' = os_rename s;
  qt_mshrs : l1d_mshrs (os_core s') = l1d_mshrs (os_core s);
  qt_ckpts : o3_checkpoints (ob_engine (os_back s')) = o3_checkpoints (ob_engine (os_back s));
  qt_loads : o3_load_queue (ob_engine (os_back s')) = o3_load_queue (ob_engine (os_back s));
  qt_width : o3_width (ob_engine (os_back s')) = o3_width (ob_engine (os_back s))
}.
Lemma quiet_flight w n k sel (s s' : sys) : quiet s s' -> o3_flight w n k sel s -> o3_flight w n k sel s'.
Proof.
  intros [E1 [I1 I2 I3 I4] E3 E4 E5 E6 E7 E8 E9 E10 E11] [Hr Hc [L1 L2 L3 L4 L5 L6] [O1 O2]]. split.
  - by rewrite E1.
  - unfold o3_places. rewrite E1, I4, E3, E4, E5, E6, E7, E8. exact Hc.
  - split; [auto|by rewrite I2, I3, E7|by rewrite E3|by rewrite E8|by rewrite E9|congruence].
  - split; [by rewrite E7|by rewrite E7, E10].
Qed.
Lemma quiet_trans (s s1 s2 : sys) : quiet s s1 -> quiet s1 s2 -> quiet s s2.
Proof. intros [] []. split; [congruence|by eapply iq_same_trans|congruence..]. Qed.
Lemma quiet_refl (s : sys) : quiet s s.
Proof. by split. Qed.
Lemma bump_quiet f (s : sys) : quiet s (bump f s).
Proof. by split. Qed.

(** ** The stages *)

Lemma o3_flight_empty w n (s : sys) :
  rob_ok (os_rob s) n -> rob_queue (os_rob s) = [] -> o3_places s = [] -> o3_local w 0 s -> o3_order n s -> o3_flight w n 0 [] s.
Proof. intros Hr Hq Hp Hl Ho. split; [done|rewrite Hq, Hp; apply covered_nil|done|done]. Qed.

Lemma issued_before_mono m m' t : m <= m' -> issued_before m t -> issued_before m' t.
Proof. intros Hm (k & Hk & ->). exists k. split; [lia|done]. Qed.

(** Without a rename output the order is that of the load queue. *)
Lemma o3_order_cleared m n (s : sys) :
  os_rename s = [] -> m <= n -> lq_within (issued_before m) (o3_load_queue (ob_engine (os_back s))) -> o3_order n s.
Proof.
  intros E Hm Hq. split; rewrite E; [done|]. simpl. eapply lq_within_mono; [|exact Hq]. intros t. apply issued_before_mono. lia.
Qed.

Lemma ob_flush_flight w n (s : sys) out :
  rob_ok (os_rob s) n -> o3_local w 0 s -> o3_order n s -> out = [] -> o3_flight w n 0 [] ((full_flush s) <| os_rename := out |>).
Proof.
  intros Hr [L1 L2 L3 L4 L5 L6] [_ Ho] ->. destruct (flush_all_ok _ _ Hr) as [Hr' Hq].
  destruct (mshr_flush_ok _ L4) as [Hm Hp]. apply o3_flight_empty; [exact Hr'|exact Hq| | |].
  - change (iq_tags (iq_flush (ob_iq (os_back s))) ++ parked_tags (mshr_flush (l1d_mshrs (os_core s))) = []).
    rewrite Hp. unfold iq_tags. simpl. by rewrite live_none.
  - split; [by apply (iq_flush_wf (ob_iq (os_back s)))|simpl; lia|constructor|exact Hm|apply ct_flush_all_wf|exact L6].
  - eapply o3_order_cleared; [done| |by apply (lq_op_within _ _ LqFlush)]. lia.
Qed.

Lemma tick_start_quiet (s : sys) : quiet s (tick_start s).
Proof. unfold tick_start. destruct (0 <? _); by split. Qed.

Lemma commit_step_flight w n (s : sys) :
  o3_flight w n 0 [] s ->
  match commit_step s with
  | Return s' => o3_flight w n 0 [] (s' <| os_rename := [] |>) /\ (os_rename s' = [] \/ redirect_pending (machine (os_core s')) = true)
  | Continue s' => o3_flight w n 0 [] s'
  end.
Proof.
  intros [Hr Hc Hl Ho]. unfold commit_step, run_commit. cbv zeta. set (m0 := n - Z.of_nat (length (os_rename s))).
  pose proof (commit_flight (o3_width (ob_engine (os_back s))) (machine (os_core s)) (lend (ob_engine (os_back s))) n Hr) as C.
  pose proof (commit_stage_held (issued_before m0) (o3_width (ob_engine (os_back s))) (machine (os_core s)) (lend (ob_engine (os_back s)))) as K.
  destruct (commit_stage _ _ _) as [[t m] be]. destruct C as [Hr' Hq]. cbn [snd] in K.
  destruct K as [K1 K2].
  { split; [intros ct [= <-]; exact (ol_ckpts _ _ _ Hl)|intros q [= <-]; exact (oo_loads _ _ Ho)]. }
  match goal with |- context [on_core ?f (on_back ?g s)] => set (s1 := on_core f (on_back g s)) end.
  assert (L : o3_local w 0 s1).
  { destruct Hl as [L1 L2 L3 L4 L5 L6]. split; [exact L1|exact L2|exact L3|exact L4| |exact L6].
    change (ct_wf (default (o3_checkpoints (ob_engine (os_back s))) (be_checkpoints be))).
    destruct (be_checkpoints be) as [ct|] eqn:E; [by apply K1|exact L5]. }
  assert (O : o3_order n s1).
  { destruct Ho as [O1 O2]. split; [exact O1|].
    change (lq_within (issued_before m0) (default (o3_load_queue (ob_engine (os_back s))) (be_load_queue be))).
    destruct (be_load_queue be) as [q|] eqn:E; [by apply K2|exact O2]. }
  assert (F : forall out, out = [] -> o3_flight w n 0 [] ((full_flush s1) <| os_rename := out |>)) by (intros; by apply ob_flush_flight).
  destruct t as [[t epc]|].
  - split; [|by right]. destruct (F [] eq_refl) as [F1 F2 [F3 F4 F5 F6 F7 F8] [F9 F10]]. split; [exact F1|exact F2|by split|by split].
  - destruct (negb _); [split; [by apply F|by left]|]. destruct (Hq eq_refl) as (gone & Hq' & Hd).
    split; [exact Hr'| |exact L|exact O]. apply (covered_retire gone); [exact Hd|].
    change (covered (gone ++ rob_queue (be_rob be)) (o3_places s1)). rewrite <-Hq'. exact Hc.
Qed.

(** A broadcast. *)
Lemma broadcast_quiet rd v (s : sys) : quiet s (on_back (broadcast rd v) s).
Proof. split; try done. apply wakeup_same. Qed.

Lemma on_back_foldl {A} (f : O3Backend -> A -> O3Backend) l (s : sys) :
  (forall (s : sys) a, quiet s (on_back (fun b => f b a) s)) -> quiet s (on_back (fun b => foldl f b l) s).
Proof.
  intros Hf. revert s. induction l as [|a l IH]; intros s; [by split|]. simpl foldl.
  eapply quiet_trans; [apply (Hf s a)|]. exact (IH (on_back (fun b => f b a) s)).
Qed.

Lemma writeback_step_flight w n (s : sys) :
  o3_flight w n 0 [] s -> o3_flight w n 0 [] (writeback_step s) /\ ob_mem2_wb (os_back (writeback_step s)) = [].
Proof.
  intros H. unfold writeback_step. cbv zeta. set (done_ := filter _ _).
  set (b1 := (upd_rob (writeback_stage (ob_mem2_wb (os_back s))) (os_back s)) <| ob_mem2_wb := [] |>).
  set (s1 := s <| os_back := b1 |>).
  assert (F : o3_flight w n 0 [] s1).
  { eapply (o3_flight_step (mw_rob_tag <$> ob_mem2_wb (os_back s))); [exact H|apply writeback_evolves| | |].
    - unfold o3_places. simpl. solve_Permutation.
    - destruct H as [_ _ [L1 L2 L3 L4 L5 L6] _]. by split.
    - destruct H as [_ _ _ [O1 O2]]. by split. }
  pose proof (on_back_foldl (fun b wb => broadcast (mw_rd_phys wb) (wb_value wb) b) done_ s1
    (fun s wb => broadcast_quiet (mw_rd_phys wb) (wb_value wb) s)) as Q.
  split; [by eapply quiet_flight|]. exact (qt_m2 _ _ Q).
Qed.

(** Whatever has left the rename output is older than what is in it. *)
Definition o3_later (s : sys) : list Z :=
  iq_tags (ob_iq (os_back s)) ++ pend_tags (ob_pending (os_back s)) ++
  (ex_rob_tag <$> ob_execute_mem1 (os_back s)) ++ (mm_rob_tag <$> ob_mem1_mem2 (os_back s)) ++
  (mw_rob_tag <$> ob_mem2_wb (os_back s)) ++ parked_tags (l1d_mshrs (os_core s)).

Lemma later_issued w n k sel (s : sys) t :
  o3_flight w n k sel s -> t ∈ sel ++ o3_later s -> issued_before (n - Z.of_nat (length (os_rename s))) t.
Proof.
  intros [Hr [H1 H2 _] _ [Ho _]] Ht. destruct (H2 t) as (e & He & Et & _).
  { unfold o3_places. fold (o3_later s). set_solver. }
  destruct (rob_ok_tags _ _ t Hr) as (i & Hk & ->); [rewrite <-Et; by apply list_elem_of_fmap_2|].
  exists i. split; [|done]. split; [lia|]. destruct (Z_lt_le_dec i (n - Z.of_nat (length (os_rename s)))) as [|Hge]; [done|].
  exfalso. assert (Hin : tag_at i ∈ ri_rob_tag <$> os_rename s) by (rewrite Ho; apply list_elem_of_fmap_2, elem_of_seqZ; lia).
  change (NoDup (sel ++ (ri_rob_tag <$> os_rename s) ++ o3_later s)) in H1.
  apply NoDup_app in H1 as (_ & D1 & [_ [D2 _]]%NoDup_app). apply elem_of_app in Ht as [Ht|Ht]; [|by eapply D2].
  eapply D1; [exact Ht|]. set_solver.
Qed.

Lemma olq_default (T : Z -> Prop) q o : lq_within T q -> olq_within T o -> lq_within T (default q o).
Proof. intros Hq Ho. destruct o as [q'|]; [by apply Ho|exact Hq]. Qed.

Lemma mshr_step_flight now w n (s : sys) :
  o3_flight w n 0 [] s -> ob_mem2_wb (os_back s) = [] ->
  o3_flight w n 0 [] (mshr_step now s) /\ ob_mem2_wb (os_back (mshr_step now s)) = [].
Proof.
  intros H Hwb. unfold mshr_step.
  pose proof (drain_mshrs_flight now (os_core s) (ob_mem1_mem2 (os_back s)) (ol_mshrs _ _ _ (of_local _ _ _ _ _ H))) as D.
  destruct (drain_mshrs _ _ _) as [c latch]. destruct D as [D1 D2]. split; [|exact Hwb].
  eapply (o3_flight_step []); [exact H|apply evolves_refl| | |].
  - unfold o3_places. simpl. rewrite (Permutation_app_comm (mw_rob_tag <$> _)), (app_assoc (mm_rob_tag <$> latch)), D2. solve_Permutation.
  - destruct H as [_ _ [L1 L2 L3 L4 L5 L6] _]. by split.
  - destruct H as [_ _ _ [O1 O2]]. by split.
Qed.

Lemma store_wakeup_quiet wb (s : sys) : quiet s (on_back (fun b => store_wakeup b wb) s).
Proof.
  change (quiet s (s <| os_back := store_wakeup (os_back s) wb |>)). unfold store_wakeup.
  destruct (mem_write _); [|by split]. destruct (mdu_store_resolved (ob_mdp (os_back s)) (mw_rob_tag wb)) as [[t|] u]; [|by split].
  split; try done. apply (wakeup_dep_same (ob_iq (os_back s))).
Qed.

Lemma mem2_step_flight w n (s : sys) :
  o3_flight w n 0 [] s -> ob_mem2_wb (os_back s) = [] ->
  let '(v, s') := mem2_step s in
  o3_flight w n 0 [] s' /\
  violation_within (issued_before (n - Z.of_nat (length (os_rename s')))) v.
Proof.
  intros H Hwb. unfold mem2_step. cbv zeta. set (e := ob_engine (os_back s)).
  destruct (memory2_flight (os_core s) (ob_mem1_mem2 (os_back s)) (o3_store_buffer e) (Some (o3_load_queue e))) as [E1 E2].
  set (m := n - Z.of_nat (length (os_rename s))).
  pose proof H as [_ _ [L1 L2 L3 L4 L5 L6] [O1 O2]].
  destruct (memory2_loads (issued_before m) (os_core s) (ob_mem1_mem2 (os_back s)) (o3_store_buffer e) (Some (o3_load_queue e))) as [K1 K2].
  { by intros q [= <-]. }
  { apply Forall_forall. intros t Ht. eapply later_issued; [exact H|]. unfold o3_later. set_solver. }
  set (st := memory2_stage _ _ _ _) in *. match goal with |- context [foldl store_wakeup ?b _] => set (b1 := b) end.
  set (s1 := s <| os_core := m2_core st |> <| os_back := b1 |>).
  assert (F : o3_flight w n 0 [] s1).
  { eapply (o3_flight_step []); [exact H|apply evolves_refl| | |].
    - unfold o3_places. simpl. rewrite E1, Hwb, <-E2. simpl. solve_Permutation.
    - split; [exact L1|exact L2|exact L3|change (mshr_ok (l1d_mshrs (m2_core st))); by rewrite E1|exact L5|exact L6].
    - split; [exact O1|]. exact (olq_default _ _ _ O2 K1). }
  pose proof (on_back_foldl store_wakeup (m2_output st) s1 (fun s wb => store_wakeup_quiet wb s)) as Q.
  split; [exact (quiet_flight _ _ _ _ _ _ Q F)|exact K2].
Qed.

Lemma memory1_step_flight now w n (s : sys) : o3_flight w n 0 [] s -> o3_flight w n 0 [] (memory1_step now s).
Proof.
  intros H. unfold memory1_step. destruct (mem1_busy now s); [by eapply quiet_flight; [apply bump_quiet|]|]. cbv zeta.
  set (e := ob_engine (os_back s)). pose proof H as [_ _ [L1 L2 L3 L4 L5 L6] [O1 O2]].
  destruct (memory1_flight (os_core s) (ob_execute_mem1 (os_back s)) (ob_mem1_mem2 (os_back s)) now (Some (o3_load_queue e)) L4) as [E1 E2].
  set (m := n - Z.of_nat (length (os_rename s))).
  pose proof (memory1_loads (issued_before m) (os_core s) (ob_execute_mem1 (os_back s)) (ob_mem1_mem2 (os_back s)) now (Some (o3_load_queue e))
    ltac:(by intros q [= <-])) as K.
  set (st := memory1_stage _ _ _ _ _) in *.
  pose proof (foldl_same (fun q phys => iq_cancel_wakeup_phys q phys (o3_prf e)) (m1_cancelled st) (ob_iq (os_back s))
    (fun q a => cancel_same q a _)) as [Q1 Q2 Q3 Q4].
  eapply (o3_flight_step []); [exact H|apply evolves_refl| | |].
  - unfold o3_places. simpl. rewrite Q4.
    rewrite (Permutation_app_comm (mw_rob_tag <$> _)), (app_assoc (mm_rob_tag <$> m1_output st)), (app_assoc (ex_rob_tag <$> m1_input st)), E2.
    solve_Permutation.
  - split; simpl; [auto|by rewrite Q2, Q3|exact L3|exact E1|exact L5|exact L6].
  - split; [exact O1|]. exact (olq_default _ _ _ O2 K).
Qed.

(** ** Results *)

Lemma swap_remove_perm {A} i (l : list A) (x : A) : l !! i = Some x -> l ≡ₚ x :: swap_remove i l.
Proof.
  intros Hi. pose proof (lookup_lt_Some _ _ _ Hi) as Hl. unfold swap_remove.
  destruct (last l) as [z|] eqn:E; [|by apply last_None in E; subst].
  apply last_Some in E as [l' ->]. rewrite length_app in *. simpl in *. case_decide as D.
  - subst i. rewrite lookup_app_r in Hi by lia. replace (length l' + 1 - 1 - length l')%nat with 0%nat in Hi by lia.
    injection Hi as ->. rewrite take_app_le by lia. rewrite take_ge by lia. by rewrite Permutation_app_comm.
  - rewrite lookup_app_l in Hi by lia. replace (length l' + 1 - 1)%nat with (length l') by lia.
    rewrite take_app_length, insert_take_drop by lia. rewrite <-(take_drop_middle _ _ _ Hi) at 1. solve_Permutation.
Qed.

Lemma deposit_rob_evolves (e : ExMem1Entry) r val :
  rob_evolves [ex_rob_tag e] r
    (rob_complete (match ex_sfence_vma e with
       | Some info => rob_set_sfence_vma (if negb (ex_fp_flags e =? 0) then rob_set_fp_flags r (ex_rob_tag e) (ex_fp_flags e) else r) (ex_rob_tag e) info
       | None => if negb (ex_fp_flags e =? 0) then rob_set_fp_flags r (ex_rob_tag e) (ex_fp_flags e) else r end) (ex_rob_tag e) val).
Proof.
  set (r1 := if negb _ then _ else r). assert (H1 : rob_evolves [] r r1)
    by (unfold r1; destruct (negb _); [by apply quiet_evolves|apply evolves_refl]).
  match goal with |- rob_evolves _ _ (rob_complete ?x _ _) => set (r2 := x) end. assert (H2 : rob_evolves [] r1 r2)
    by (unfold r2; destruct (ex_sfence_vma e); [by apply quiet_evolves|apply evolves_refl]).
  apply (evolves_trans [] [ex_rob_tag e] r r2); [by eapply evolves_trans0|apply complete_evolves].
Qed.

Lemma deposit_flight w n k sel (e : ExMem1Entry) (s : sys) :
  o3_flight w n k (ex_rob_tag e :: sel) s ->
  o3_flight w n k sel (on_back (deposit e) s) /\ rob_evolves [ex_rob_tag e] (os_rob s) (os_rob (on_back (deposit e) s)).
Proof.
  intros H. split; [|apply deposit_rob_evolves]. unfold deposit. cbv zeta.
  match goal with |- context [upd_rob ?f _] => set (g := f) end. set (s1 := on_back (upd_rob g) s).
  eapply (quiet_flight _ _ _ _ s1); [apply (broadcast_quiet _ _ s1)|].
  eapply (o3_flight_step [ex_rob_tag e]); [exact H|apply deposit_rob_evolves| | |].
  - change (o3_places s1) with (o3_places s). solve_Permutation.
  - destruct H as [_ _ [L1 L2 L3 L4 L5 L6] _]. by split.
  - destruct H as [_ _ _ [O1 O2]]. by split.
Qed.

Lemma finish_pending_flight w n k sel p (s : sys) :
  o3_flight w n k (pend_open p ++ sel) s -> pend_ok p -> o3_flight w n k sel (finish_pending p s).
Proof.
  intros H Hp. unfold finish_pending. apply (quiet_flight _ _ _ _ _ _ (bump_quiet (count_use (pr_fu_type p)) s)) in H.
  generalize dependent (bump (count_use (pr_fu_type p)) s). clear s. intros s H. unfold pend_open in H.
  destruct (is_mem_op _) eqn:Em.
  - assert (Es : pr_speculative_written p = false) by (destruct (pr_speculative_written p) eqn:E; [by rewrite Hp in Em|done]).
    rewrite Es in H. eapply (o3_flight_step []); [exact H|apply evolves_refl| | |].
    + unfold o3_places. simpl. rewrite (fmap_snoc_at ex_rob_tag _ _ (pr_tag p) eq_refl). solve_Permutation.
    + destruct H as [_ _ [L1 L2 L3 L4 L5 L6] _]. by split.
    + destruct H as [_ _ _ [O1 O2]]. by split.
  - destruct (pr_speculative_written p); cbn [negb]; [exact H|]. by apply deposit_flight.
Qed.

Lemma drain_pending_flight fuel now i w n k sel (s : sys) :
  o3_flight w n k sel s -> o3_flight w n k sel (drain_pending fuel now i s).
Proof.
  revert i s. induction fuel as [|fuel IH]; intros i s H; [done|]. cbn [drain_pending].
  destruct (ob_pending (os_back s) !! i) as [p|] eqn:Ei; [|done]. destruct (_ <=? _); [|by apply IH]. apply IH.
  pose proof (swap_remove_perm _ _ _ Ei) as Hp.
  destruct H as [Hr Hc [L1 L2 L3 L4 L5 L6] [O1 O2]]. rewrite Hp in L3. apply Forall_cons in L3 as [L3 L3'].
  apply finish_pending_flight; [|done]. split; [exact Hr| |by split|by split].
  eapply covered_perm; [|exact Hc]. unfold o3_places.
  assert (Ep : pend_tags (ob_pending (os_back s)) ≡ₚ pend_open p ++ pend_tags (swap_remove i (ob_pending (os_back s))))
    by (unfold pend_tags; by rewrite Hp at 1; rewrite bind_cons).
  rewrite Ep. simpl. solve_Permutation.
Qed.

(** ** Issue *)

Lemma dispatch_into_iq_flight w n k sel entry dep (s : sys) :
  o3_flight w n (S k) (ri_rob_tag entry :: sel) s ->
  o3_flight w n k sel (dispatch_into_iq entry dep s) /\ os_rename (dispatch_into_iq entry dep s) = os_rename s.
Proof.
  intros H. pose proof H as [_ _ [L1 L2 L3 L4 L5 L6] [O1 O2]]. unfold dispatch_into_iq. cbv zeta.
  destruct (iq_dispatch_room (ob_iq (os_back s)) entry (ob_rob (os_back s)) (regs (hart (os_core s))) (Some (ob_prf (os_back s))) dep L1)
    as (q & E & W & Hcap & Hcount & Htags); [lia|]. rewrite E. split; [|done].
  eapply (o3_flight_step []); [exact H|apply evolves_refl| | |by split].
  - unfold o3_places. simpl. rewrite Htags. solve_Permutation.
  - split; [exact W| |exact L3|exact L4|exact L5|exact L6]. change (k + length (os_rename s) + iq_count q <= iq_capacity q)%nat. lia.
Qed.

(** An instruction that leaves the queue executes and enters the pending results. *)
Lemma execute_selected_flight now cc entry t w n k sel (s : sys) :
  o3_flight w n (S k) (ri_rob_tag entry :: sel) s ->
  let '(_, s') := execute_selected now cc entry t s in
  o3_flight w n k sel s' /\ os_rename s' = os_rename s /\ exists ts, rob_evolves ts (os_rob s) (os_rob s').
Proof.
  intros H. unfold execute_selected. pose proof (execute_one_keeps (os_core s) entry (os_rob s)) as [K1 K2 K3 K4].
  destruct (execute_one _ _ _) as [[[ex flush] c] rob]. cbn [fst snd] in *. rewrite K2. cbv zeta.
  match goal with |- context [on_back (upd_rob ?f) ?x] => set (s1 := on_back (upd_rob f) x) end.
  assert (F1 : o3_flight w n k (ex_rob_tag ex :: sel) s1).
  { eapply (o3_flight_step []); [exact H|exact K4| | |].
    - rewrite K1. unfold o3_places, s1. simpl. by rewrite K3.
    - destruct H as [_ _ [L1 L2 L3 L4 L5 L6] _]. split; [exact L1|exact (le_S_n _ _ (le_S _ _ L2))|exact L3|simpl; by rewrite K3|exact L5|exact L6].
    - destruct H as [_ _ _ [O1 O2]]. by split. }
  set (spec := negb _ && _ && true). set (s2 := if spec then _ else s1).
  assert (F2 : o3_flight w n k ((if spec then [] else [ex_rob_tag ex]) ++ sel) s2).
  { unfold s2. destruct spec; [by apply deposit_flight|exact F1]. }
  assert (R2 : os_rename s2 = os_rename s /\ exists ts, rob_evolves ts (os_rob s) (os_rob s2)).
  { unfold s2. destruct spec; (split; [done|]).
    - exists ([] ++ [ex_rob_tag ex]). eapply evolves_trans; [exact K4|]. apply (deposit_flight _ _ _ _ _ _ F1).
    - by exists []. }
  clearbody s2. set (s3 := if _ && _ then _ else s2).
  assert (Q3 : quiet s2 s3).
  { unfold s3. destruct (mem_read _ && _ && _ && _); [|apply quiet_refl]. split; try done. apply speculative_wakeup_same. }
  clearbody s3. destruct R2 as [R2 [ts R3]]. split; [|split; [etrans; [exact (qt_rename _ _ Q3)|exact R2]|]].
  2: { exists ts. simpl. rewrite <-(qt_rob _ _ Q3) in R3. exact R3. }
  eapply (o3_flight_step []); [exact (quiet_flight _ _ _ _ _ _ Q3 F2)|apply evolves_refl| | |].
  - unfold o3_places. simpl. unfold pend_tags. rewrite bind_app. simpl. unfold pend_open at 2. simpl. unfold pr_tag. simpl.
    destruct spec; simpl; rewrite ?app_nil_r; solve_Permutation.
  - destruct (of_local _ _ _ _ _ (quiet_flight _ _ _ _ _ _ Q3 F2)) as [L1 L2 L3 L4 L5 L6].
    split; [exact L1|exact L2| |exact L4|exact L5|exact L6]. simpl. apply Forall_app. split; [exact L3|]. constructor; [|done].
    unfold pend_ok. simpl. unfold spec. destruct (is_mem_op _); done.
  - destruct (of_order _ _ _ _ _ (quiet_flight _ _ _ _ _ _ Q3 F2)) as [O1 O2]. by split.
Qed.

Definition se_tag (e : SelectedEntry) : Z := ri_rob_tag (se_entry e).

(** The instructions behind the one that asks for a flush are younger. *)
Definition flush_at (w : nat) (n keep : Z) (s : sys) : Prop :=
  exists k rest, o3_flight w n k rest s /\ keep ∈ re_tag <$> rob_queue (os_rob s) /\
    issued_before (n - Z.of_nat (length (os_rename s))) keep /\
    Forall (fun t => is_older_or_eq t keep = false) rest.

Lemma evolves_tags ts r r' n : rob_evolves ts r r' -> rob_ok r n -> re_tag <$> rob_queue r' = re_tag <$> rob_queue r.
Proof. intros Hev Hok. destruct (Hev n Hok) as [_ Hq]. by eapply settles_tags. Qed.

Lemma places_in_rob w n k sel (s : sys) t : o3_flight w n k sel s -> t ∈ sel ++ o3_places s -> t ∈ re_tag <$> rob_queue (os_rob s).
Proof. intros [_ [_ H _] _ _] Ht. destruct (H t Ht) as (e & He & <- & _). by apply list_elem_of_fmap_2. Qed.

(** What one turn of the loop does. *)
Definition issue_ok (w : nat) (n : Z) (k : nat) (sel : list Z) (tag : Z) (s : sys) (r : flow (IssueLoop (X:=X) (M:=M) (P:=P)) IssueLoop) : Prop :=
  let st' := match r with Continue st' | Return st' => st' end in
  o3_flight w n k sel (is_sys st') /\ os_rename (is_sys st') = os_rename s /\
  (exists ts, rob_evolves ts (os_rob s) (os_rob (is_sys st'))) /\
  match r with Continue _ => is_flush st' = None | Return _ => is_flush st' = Some tag end.

Lemma issue_body_flight now mb x w n k sel st :
  o3_flight w n (S k) (se_tag x :: sel) (is_sys st) -> is_flush st = None ->
  issue_ok w n k sel (se_tag x) (is_sys st) (issue_body now mb x st).
Proof.
  intros H Hf. unfold issue_body. cbv zeta.
  assert (D : forall s, quiet (is_sys st) s -> os_rename s = os_rename (is_sys st) ->
    o3_flight w n k sel (dispatch_into_iq (se_entry x) (se_mem_dep x) s) /\
    os_rename (dispatch_into_iq (se_entry x) (se_mem_dep x) s) = os_rename (is_sys st) /\
    exists ts, rob_evolves ts (os_rob (is_sys st)) (os_rob (dispatch_into_iq (se_entry x) (se_mem_dep x) s))).
  { intros s Q Hs. destruct (dispatch_into_iq_flight w n k sel (se_entry x) (se_mem_dep x) s) as [D1 D2];
      [exact (quiet_flight _ _ _ _ _ _ Q H)|]. split; [done|]. split; [congruence|]. exists [].
    rewrite <-(qt_rob _ _ Q). unfold dispatch_into_iq. destruct (iq_dispatch _ _ _ _ _ _) as [[]|]; apply evolves_refl. }
  destruct (_ && _).
  { destruct (D (is_sys st) (quiet_refl _) eq_refl) as (D1 & D2 & D3). unfold issue_ok. by split_and!. }
  destruct (acquire _ _ _) as [[cc pool]|].
  2: { match goal with |- context [bump ?f (is_sys st)] => destruct (D _ (bump_quiet f (is_sys st)) eq_refl) as (D1 & D2 & D3) end.
       unfold issue_ok. by split_and!. }
  set (s1 := if _ || _ then _ else is_sys st). set (s2 := on_back (fun b => b <| ob_fu_pool := pool |>) s1).
  assert (Q : quiet (is_sys st) s2) by (unfold s2, s1; destruct (_ || _); by split). clearbody s2.
  pose proof (execute_selected_flight now cc (se_entry x) (classify (ri_ctrl (se_entry x))) w n k sel s2 (quiet_flight _ _ _ _ _ _ Q H)) as E.
  destruct (execute_selected _ _ _ _ _) as [flush s3]. destruct E as (E1 & E2 & ts & E3).
  rewrite (qt_rob _ _ Q) in E3. rewrite (qt_rename _ _ Q) in E2. unfold issue_ok. destruct flush; split_and!; try done; by exists ts.
Qed.

Lemma issue_loop_flight now mb w n l st :
  o3_flight w n (length l) (se_tag <$> l) (is_sys st) -> is_flush st = None -> StronglySorted Z.le (se_tag <$> l) -> n < TAG_SPAN ->
  let st' := after_loop (list_scan (issue_body now mb) l st) (fun st => st) in
  match is_flush st' with
  | None => o3_flight w n 0 [] (is_sys st')
  | Some keep => flush_at w n keep (is_sys st')
  end.
Proof.
  revert st. induction l as [|x l IH]; intros st H Hf Hs Hn; [simpl; by rewrite Hf|].
  rewrite fmap_cons in Hs, H. apply StronglySorted_inv in Hs as [Hs Hx].
  pose proof (issue_body_flight now mb x w n (length l) (se_tag <$> l) st H Hf) as B. simpl list_scan.
  destruct (issue_body now mb x st) as [st1|st1]; unfold issue_ok in B; cbv zeta beta iota in B;
    destruct B as (B1 & B2 & [ts B3] & B4); [by apply IH|]. cbn [after_loop]. rewrite B4.
  pose proof (evolves_tags _ _ _ _ B3 (of_rob _ _ _ _ _ H)) as Ht.
  assert (Hin : forall t, t ∈ se_tag x :: (se_tag <$> l) -> t ∈ re_tag <$> rob_queue (os_rob (is_sys st))).
  { intros t Hin. eapply places_in_rob; [exact H|]. set_solver. }
  exists (length l), (se_tag <$> l). split_and!; [exact B1|rewrite Ht; apply Hin; by left| |].
  - rewrite B2. eapply later_issued; [exact H|]. by left.
  - apply Forall_forall. intros t Hl. rewrite Forall_forall in Hx. specialize (Hx t Hl).
    rewrite (older_raw _ n _ _ (of_rob _ _ _ _ _ H)) by (done || (apply Hin; set_solver)).
    assert (t <> se_tag x) as Hne; [|apply Z.leb_gt; lia]. intros ->.
    destruct (of_covered _ _ _ _ _ H) as [Hd _ _]. apply NoDup_cons in Hd as [Hd _]. set_solver.
Qed.

Lemma issue_step_flight now w n (s : sys) :
  o3_flight w n 0 [] s -> n < TAG_SPAN ->
  let '(flush, s') := issue_step now s in
  match flush with None => o3_flight w n 0 [] s' | Some keep => flush_at w n keep s' end.
Proof.
  intros H Hn. unfold issue_step. cbv zeta. set (mb := match ob_execute_mem1 _ with [] => false | _ => true end).
  set (s1 := if mb then _ else s). assert (F1 : o3_flight w n 0 [] s1)
    by (unfold s1; destruct mb; [exact (quiet_flight _ _ _ _ _ _ (bump_quiet _ _) H)|exact H]). clearbody s1 mb. clear H s.
  unfold pending_step. pose proof (drain_pending_flight (length (ob_pending (os_back s1))) now 0 w n 0 [] s1 F1) as F2.
  generalize dependent (drain_pending (length (ob_pending (os_back s1))) now 0 s1). clear s1 F1. intros s F.
  pose proof F as [_ _ [L1 L2 L3 L4 L5 L6] [O1 O2]]. set (e := ob_engine (os_back s)).
  pose proof (iq_select_flight (ob_iq (os_back s)) (o3_width e) (o3_store_buffer e) (o3_rob e) (ob_load_ports (os_back s))
    (ob_store_ports (os_back s)) (Some (o3_prf e)) L1) as S.
  destruct (iq_select _ _ _ _ _ _ _) as [issued q]. destruct S as (S1 & S2 & S3 & S4 & S5).
  match goal with |- context [list_scan _ issued ?x] => set (st := x) end.
  assert (F2 : o3_flight w n (length issued) (se_tag <$> issued) (is_sys st)).
  { eapply (o3_flight_step []); [exact F|apply evolves_refl| | |by split].
    - unfold o3_places. simpl. change (fun s => ri_rob_tag (se_entry s)) with se_tag in S4. rewrite S4. solve_Permutation.
    - split; [exact S1| |exact L3|exact L4|exact L5|exact L6].
      change (length issued + length (os_rename s) + iq_count q <= iq_capacity q)%nat. lia. }
  pose proof (issue_loop_flight now mb w n issued st F2 eq_refl S5 Hn) as L. cbv zeta in L. unfold after_loop in L |- *.
  match type of L with match is_flush ?x with _ => _ end => set (st' := x) in *; clearbody st' end.
  set (s' := if _ && _ then _ else is_sys st'). assert (Q : quiet (is_sys st') s') by (unfold s'; destruct (_ && _); [apply bump_quiet|apply quiet_refl]).
  clearbody s'. destruct (is_flush st') as [keep|].
  - destruct L as (k & rest & R1 & R2 & R3 & R4). exists k, rest. rewrite (qt_rob _ _ Q), (qt_rename _ _ Q).
    split_and!; [exact (quiet_flight _ _ _ _ _ _ Q R1)|done..].
  - exact (quiet_flight _ _ _ _ _ _ Q L).
Qed.

(** ** Squashes *)

Local Abbreviation keeps keep := (fun t => is_older_or_eq t keep = true).

Lemma retain_tags {A} (tag : A -> Z) keep l : tag <$> retain_older tag keep l = filter (keeps keep) (tag <$> l).
Proof.
  unfold retain_older. induction l as [|a l IH]; [done|]. rewrite fmap_cons, !filter_cons, <-IH.
  by destruct (is_older_or_eq (tag a) keep).
Qed.
Lemma retain_pending keep l : pend_tags (retain_older pr_tag keep l) = filter (keeps keep) (pend_tags l).
Proof.
  unfold retain_older, pend_tags. induction l as [|p l IH]; [done|]. rewrite bind_cons, filter_cons, filter_app, <-IH.
  assert (E : filter (keeps keep) (pend_open p) = if is_older_or_eq (pr_tag p) keep then pend_open p else []).
  { unfold pend_open. destruct (pr_speculative_written p); [by destruct (is_older_or_eq _ _)|].
    rewrite filter_cons, filter_nil.  by destruct (is_older_or_eq _ _). }
  rewrite E. by destruct (is_older_or_eq (pr_tag p) keep).
Qed.

(** Nothing in the rename output survives. *)
Lemma rename_newer w n k sel (s : sys) keep :
  o3_flight w n k sel s -> n < TAG_SPAN -> issued_before (n - Z.of_nat (length (os_rename s))) keep ->
  filter (keeps keep) (ri_rob_tag <$> os_rename s) = [].
Proof.
  intros [_ _ _ [O _]] Hn (i & Hi & ->). rewrite O. apply filter_none. intros t (j & -> & Hj)%list_elem_of_fmap. apply elem_of_seqZ in Hj.
   rewrite is_older_or_eq_tag_at by lia. intros Hle%Z.leb_le. lia.
Qed.

(** The state after everything younger than [keep] is gone. *)
Record squashed (keep : Z) (s s' : sys) : Prop := {
  sq_rob : os_rob s' = rob_flush_after (os_rob s) keep;
  sq_rename : os_rename s' = [];
  sq_iq : ob_iq (os_back s') = iq_flush_after (ob_iq (os_back s)) keep;
  sq_pending : ob_pending (os_back s') = retain_older pr_tag keep (ob_pending (os_back s));
  sq_ex : ob_execute_mem1 (os_back s') = retain_older ex_rob_tag keep (ob_execute_mem1 (os_back s));
  sq_m1 : ob_mem1_mem2 (os_back s') = retain_older mm_rob_tag keep (ob_mem1_mem2 (os_back s));
  sq_m2 : ob_mem2_wb (os_back s') = retain_older mw_rob_tag keep (ob_mem2_wb (os_back s));
  sq_mshrs : l1d_mshrs (os_core s') = mshr_flush_after (l1d_mshrs (os_core s)) keep;
  sq_ckpts : ct_wf (o3_checkpoints (ob_engine (os_back s')));
  sq_loads : o3_load_queue (ob_engine (os_back s')) = lq_flush_after (o3_load_queue (ob_engine (os_back s))) keep;
  sq_width : o3_width (ob_engine (os_back s')) = o3_width (ob_engine (os_back s))
}.

Lemma squash_flight w n k sel keep (s s' : sys) :
  o3_flight w n k sel s -> n < TAG_SPAN -> keep ∈ re_tag <$> rob_queue (os_rob s) ->
  issued_before (n - Z.of_nat (length (os_rename s))) keep -> Forall (fun t => is_older_or_eq t keep = false) sel ->
  squashed keep s s' -> o3_flight w n 0 [] s'.
Proof.
  intros F Hn Hk Hi Hsel [E1 E2 E3 E4 E5 E6 E7 E8 E9 E10 E11].
  pose proof (rename_newer _ _ _ _ _ _ F Hn Hi) as Hren. destruct F as [Hr Hc [L1 L2 L3 L4 L5 L6] [_ O2]].
  apply list_elem_of_fmap in Hk as (e & Ek & He). apply list_elem_of_lookup in He as [i Hi'].
  destruct (flush_after_ok _ _ _ _ Hr Hi') as [Hr' Hq']. pose proof (covered_keep _ _ _ _ _ Hr Hi' Hc) as C.
  assert (Ek' : re_tag e = keep) by (symmetry; exact Ek). rewrite Ek' in Hr', Hq', C.
  destruct (mshr_flush_after_ok _ keep L4) as [M1 M2]. split.
  - by rewrite E1.
  - rewrite E1, Hq'. eapply covered_perm; [|exact C]. unfold o3_places.
    rewrite E2, E3, E4, E5, E6, E7, E8, M2, iq_flush_after_tags, retain_pending, !retain_tags, !filter_app, Hren.
    assert (Hs : filter (keeps keep) sel = []).
    { apply filter_none. intros t Ht. rewrite Forall_forall in Hsel. by rewrite Hsel. }
    rewrite Hs. done.
  - split; [rewrite E3; by apply iq_flush_after_wf| | |by rewrite E8|done|congruence].
    + rewrite E2, E3. pose proof (iq_flush_after_count (ob_iq (os_back s)) keep).
      change (iq_count (iq_flush_after (ob_iq (os_back s)) keep) <= iq_capacity (ob_iq (os_back s)))%nat. lia.
    + rewrite E4. unfold retain_older. apply Forall_forall. intros p [_ Hp]%list_elem_of_filter. rewrite Forall_forall in L3. by apply L3.
  - eapply o3_order_cleared; [done| |rewrite E10; by apply (lq_op_within _ _ (LqFlushAfter _))]. lia.
Qed.

(** Nothing of the pipeline is left. *)
Lemma squash_all_flight w n k sel (s s' : sys) :
  o3_flight w n k sel s -> os_rob s' = rob_flush_all (os_rob s) -> os_rename s' = [] -> ob_iq (os_back s') = iq_flush (ob_iq (os_back s)) ->
  ob_pending (os_back s') = [] -> ob_execute_mem1 (os_back s') = [] -> ob_mem1_mem2 (os_back s') = [] -> ob_mem2_wb (os_back s') = [] ->
  l1d_mshrs (os_core s') = mshr_flush (l1d_mshrs (os_core s)) -> ct_wf (o3_checkpoints (ob_engine (os_back s'))) ->
  o3_load_queue (ob_engine (os_back s')) = lq_flush (o3_load_queue (ob_engine (os_back s))) ->
  o3_width (ob_engine (os_back s')) = o3_width (ob_engine (os_back s)) -> o3_flight w n 0 [] s'.
Proof.
  intros [Hr _ [L1 L2 L3 L4 L5 L6] [_ O2]] E1 E2 E3 E4 E5 E6 E7 E8 E9 E10 E11.
  destruct (flush_all_ok _ _ Hr) as [Hr' Hq]. destruct (mshr_flush_ok _ L4) as [Hm Hp]. apply o3_flight_empty.
  - by rewrite E1.
  - by rewrite E1.
  - unfold o3_places. rewrite E2, E3, E4, E5, E6, E7, E8, Hp. unfold iq_tags. simpl. by rewrite live_none.
  - split; [rewrite E3; by apply iq_flush_wf|rewrite E2, E3; apply Nat.le_0_l|by rewrite E4|by rewrite E8|done|congruence].
  - eapply o3_order_cleared; [done| |rewrite E10; by apply (lq_op_within _ _ LqFlush)]. lia.
Qed.

Lemma mispredict_keeps (e : O3Engine) keep :
  ct_wf (o3_checkpoints e) -> is_Some (rob_find_entry (o3_rob e) keep) ->
  o3_rob (o3_mispredict e keep) = rob_flush_after (o3_rob e) keep /\ ct_wf (o3_checkpoints (o3_mispredict e keep)) /\
  o3_load_queue (o3_mispredict e keep) = lq_flush_after (o3_load_queue e) keep /\ o3_width (o3_mispredict e keep) = o3_width e.
Proof.
  intros Hw [x Hx]. rewrite o3_mispredict_rob, Hx. split; [done|]. unfold o3_mispredict. rewrite Hx. cbv beta iota zeta.
  destruct (_ <? _)%nat; [destruct (ct_find_by_tag _ _)|]; (split; [|by split]); [..|exact Hw];
    exact (ct_flush_after_wf _ keep Hw).
Qed.

Lemma mispredict_step_flight w n keep (s : sys) : flush_at w n keep s -> n < TAG_SPAN -> o3_flight w n 0 [] (mispredict_step keep s).
Proof.
  intros (k & sel & F & Hk & Hi & Hsel) Hn. eapply squash_flight; [exact F|exact Hn|exact Hk|exact Hi|exact Hsel|].
  pose proof (of_rob _ _ _ _ _ F) as (ss & I & _). pose proof (rob_find_entry_spec _ _ _ keep I) as Hf.
  destruct (rob_find_entry (os_rob s) keep) as [x|] eqn:Ex.
  2: { by destruct (Hf Hk). }
  destruct (mispredict_keeps (ob_engine (os_back s)) keep) as (R1 & R2 & R3 & R4);
    [exact (ol_ckpts _ _ _ (of_local _ _ _ _ _ F))|exists x; exact Ex|].
  unfold mispredict_step. cbv zeta. change (rob_find_entry (o3_rob (ob_engine (os_back s))) keep) with (rob_find_entry (os_rob s) keep).
  rewrite Ex. destruct (match ct_find_by_tag _ _ with Some _ => _ | None => _ end); by split.
Qed.

Lemma violation_keeps (e : O3Engine) tag :
  ct_wf (o3_checkpoints e) ->
  ct_wf (o3_checkpoints (o3_violation e tag)) /\ o3_width (o3_violation e tag) = o3_width e /\
  o3_load_queue (o3_violation e tag) =
    match rob_prev_tag_of (o3_rob e) tag with
    | Some keep => lq_flush_after (o3_load_queue e) keep
    | None => lq_flush (o3_load_queue e)
    end.
Proof.
  intros Hw. unfold o3_violation. destruct (rob_prev_tag_of _ _) as [keep|]; (split; [|by split]);
    [exact (ct_flush_after_wf _ keep Hw)|apply ct_flush_all_wf].
Qed.

(** The predecessor in program order. *)
Lemma prev_tag_scan tag l prev t :
  Forall (fun e => re_valid e = true) l -> after_loop (list_scan (prev_tag_body tag) l prev) (fun _ => None) = Some t ->
  (prev = Some t /\ exists e, head l = Some e /\ re_tag e = tag) \/
  exists k e e', l !! k = Some e /\ re_tag e = t /\ l !! S k = Some e' /\ re_tag e' = tag.
Proof.
  intros Hv. revert prev. induction Hv as [|e l He Hl IH]; intros prev; [done|]. simpl list_scan. unfold prev_tag_body at 1. rewrite He.
  destruct (Z.eqb_spec (re_tag e) tag) as [Et|]; simpl; [intros ->; left; split; [done|by exists e]|].
  intros [[Hp (e' & Hh & Ht)]|(k & e1 & e2 & H)]%IH; right.
  - injection Hp as Hp. exists 0%nat, e, e'. destruct l; [done|]. injection Hh as ->. by split_and!.
  - by exists (S k), e1, e2.
Qed.

Lemma prev_tag_older r n tag t :
  rob_ok r n -> n < TAG_SPAN -> rob_prev_tag_of r tag = Some t ->
  t ∈ re_tag <$> rob_queue r /\ forall m, m <= n -> issued_before m tag -> issued_before m t.
Proof.
  intros Hok Hn. pose proof Hok as (ss & I & _). unfold rob_prev_tag_of. destruct (_ =? _)%nat; [done|].
  rewrite ring_scan_window by apply (rob_ring _ _ _ I). fold (rob_queue r).
  intros [[? _]|(k & e & e' & Hk & <- & Hk' & <-)]%prev_tag_scan; [done| |apply (rob_all_valid _ _ _ I)].
  assert (Ht : re_tag e ∈ re_tag <$> rob_queue r) by (by eapply list_elem_of_fmap_2, list_elem_of_lookup_2).
  split; [exact Ht|]. intros m Hm (i & Hi & Ei). destruct (rob_ok_tags _ _ _ Hok Ht) as (j & Hj & Ej).
  exists j. split; [|exact Ej]. pose proof (rob_position_age _ _ _ k (S k) e e' I Hk Hk') as A.
  rewrite Ei, Ej, is_older_than_tag_at in A by lia. rewrite (proj2 (Nat.ltb_lt _ _)) in A by lia. apply Z.ltb_lt in A. lia.
Qed.

(** A violation is found at a load that is no longer in the rename output. *)
Lemma violation_step_flight w n tag spc (s : sys) :
  o3_flight w n 0 [] s -> n < TAG_SPAN -> issued_before (n - Z.of_nat (length (os_rename s))) tag ->
  o3_flight w n 0 [] (violation_step tag spc s) /\ os_rename (violation_step tag spc s) = [].
Proof.
  intros F Hn Hi. split; [|done]. unfold violation_step. cbv zeta.
  match goal with |- context [on_back (upd_mdp ?f) s] => set (s1 := on_back (upd_mdp f) s) end.
  assert (Q : quiet s s1) by (by split). clearbody s1.
  match goal with |- context [bump ?f s1] => set (s2 := bump f s1) end.
  assert (Q2 : quiet s s2) by (eapply quiet_trans; [exact Q|apply bump_quiet]). clearbody s2.
  pose proof (quiet_flight _ _ _ _ _ _ Q2 F) as F2. rewrite <-(qt_rename _ _ Q2) in Hi.
  rewrite <-(qt_rob _ _ Q2). change (os_rob s2) with (o3_rob (ob_engine (os_back s2))).
  pose proof (o3_violation_rob (ob_engine (os_back s2)) tag) as R.
  pose proof (ol_ckpts _ _ _ (of_local _ _ _ _ _ F2)) as Hw.
  destruct (violation_keeps _ tag Hw) as (V1 & V2 & V3).
  destruct (rob_prev_tag_of (o3_rob (ob_engine (os_back s2))) tag) as [keep|] eqn:Ek.
  - destruct (prev_tag_older _ _ _ _ (of_rob _ _ _ _ _ F2) Hn Ek) as [Hk Hik].
    eapply squash_flight; [exact F2|exact Hn|exact Hk|apply Hik; [lia|exact Hi]|constructor|].
    by split.
  - eapply squash_all_flight; [exact F2|exact R|done|done|done|done|done|done|done|exact V1|exact V3|exact V2].
Qed.

(** ** Dispatch and the whole cycle *)

Lemma dispatch_step_flight w n (s : sys) : o3_flight w n 0 [] s -> o3_flight w n 0 [] (dispatch_step s) /\ os_rename (dispatch_step s) = [].
Proof.
  intros F. unfold dispatch_step.
  assert (F1 : o3_flight w n (length (os_rename s)) (ri_rob_tag <$> os_rename s) (s <| os_rename := [] |>)).
  { destruct F as [Hr Hc [L1 L2 L3 L4 L5 L6] Ho]. split; [exact Hr| | |].
    - eapply covered_perm; [|exact Hc]. done.
    - split; [exact L1| |exact L3|exact L4|exact L5|exact L6].
      change (length (os_rename s) + 0 + iq_count (ob_iq (os_back s)) <= iq_capacity (ob_iq (os_back s)))%nat. lia.
    - eapply (o3_order_cleared (n - Z.of_nat (length (os_rename s)))); [done|lia|exact (oo_loads _ _ Ho)]. }
  assert (E1 : os_rename (s <| os_rename := [] |>) = []) by done.
  revert F1 E1. generalize (s <| os_rename := [] |>). generalize (os_rename s). clear s F. intros l.
  induction l as [|entry l IH]; intros s F E; [done|]. cbn [foldl]. unfold dispatch_one at 2 4.
  destruct (mdu_dispatch _ _ _ _ _) as [dep u]. set (s1 := on_back (fun b => b <| ob_mdp := u |>) s).
  assert (F1 : o3_flight w n (length (entry :: l)) (ri_rob_tag <$> entry :: l) s1) by (eapply quiet_flight; [|exact F]; by split).
  rewrite fmap_cons in F1. destruct (dispatch_into_iq_flight _ _ _ _ _ dep _ F1) as [F2 E2]. apply IH; [exact F2|by rewrite E2].
Qed.

Lemma mispredict_step_rename keep (s : sys) : os_rename (mispredict_step keep s) = [].
Proof.
  unfold mispredict_step. cbv zeta. by destruct (rob_find_entry _ _), (match ct_find_by_tag _ _ with Some _ => _ | None => _ end).
Qed.

Lemma tick_rest_flight now w n (s : sys) :
  o3_flight w n 0 [] s -> n < TAG_SPAN -> o3_flight w n 0 [] (tick_rest now s) /\ os_rename (tick_rest now s) = [].
Proof.
  intros F Hn. unfold tick_rest. pose proof (issue_step_flight now w n _ (memory1_step_flight now w n s F) Hn) as I.
  destruct (issue_step _ _) as [[keep|] s1]; cbv zeta; match goal with |- context [snapshot_mdp_stats ?x] =>
    assert (R : o3_flight w n 0 [] x /\ os_rename x = []) end.
  - split; [by apply mispredict_step_flight|apply mispredict_step_rename].
  - generalize dependent (mispredict_step keep s1). intros s2 [R1 R2].
    split; [exact (quiet_flight _ _ _ _ _ _ (bump_quiet _ _) R1)|exact R2].
  - by apply dispatch_step_flight.
  - generalize dependent (dispatch_step s1). intros s2 [R1 R2].
    split; [exact (quiet_flight _ _ _ _ _ _ (bump_quiet _ _) R1)|exact R2].
Qed.

Lemma o3_tick_flight w n (s : sys) :
  o3_flight w n 0 [] s -> n < TAG_SPAN ->
  o3_flight w n 0 [] ((o3_tick s) <| os_rename := [] |>) /\
  (os_rename (o3_tick s) = [] \/ redirect_pending (machine (os_core (o3_tick s))) = true).
Proof.
  intros F Hn. unfold o3_tick. cbv zeta.
  pose proof (commit_step_flight w n _ (quiet_flight _ _ _ _ _ _ (tick_start_quiet s) F)) as C.
  destruct (commit_step (tick_start s)) as [s1|s1]; [|exact C].
  destruct (writeback_step_flight w n s1 C) as [W1 W2].
  destruct (mshr_step_flight (ob_cycle (os_back (tick_start s))) w n _ W1 W2) as [M1 M2].
  pose proof (mem2_step_flight w n _ M1 M2) as V. unfold memory2_step.
  assert (Done : forall s : sys, o3_flight w n 0 [] s /\ os_rename s = [] ->
    o3_flight w n 0 [] (s <| os_rename := [] |>) /\ (os_rename s = [] \/ redirect_pending (machine (os_core s)) = true)).
  { intros s2 [R1 R2]. split; [|by left]. destruct R1 as [R1 R3 [L1 L2 L3 L4 L5 L6] [O1 O2]].
    unfold o3_places in R3. rewrite R2 in R3, L2, O2. split; [exact R1|exact R3|by split|by split]. }
  destruct (mem2_step _) as [[[tag spc]|] s2]; destruct V as [V1 V2]; apply Done.
  - apply violation_step_flight; [done|done|]. by eapply V2.
  - by apply tick_rest_flight.
Qed.

End O3.
