(* ===== verification/O3Props.v ===== *)
(** The out-of-order pipeline never loses an instruction: over whole cycles of
    the pipeline, every instruction whose result is outstanding is in exactly one
    queue, latch or miss register, although results, wakeups, misses and squashes
    come in any order. *)
From S2P Require Import Prelude Ring Common Rob RobSpec RobProps StoreBuffer LoadQueue Rename RenameO3 RenameInv RenameO3Props RenameSound Policy Prefetch Cache Cpu Dram Hierarchy Soc Interconnect Commit CommitSpec CommitProps Latches MemDep IssueQueue IssueQueueProps Mshr Core Execute ExecuteSpec Memory O3Tick Fetch Pipeline Flight O3Flight.
Local Open Scope Z_scope.

Section O3.
Context {X M P : Type} `{!ExtDevice X} `{!MemoryController M} `{!BranchUnit P} `{FU : !FpUnit}.
Local Abbreviation core := (Core X M P).
Local Abbreviation sys := (O3Sys X M P).

(** * Rename *)

(** A renamed instruction is the youngest of the reorder buffer. *)
Lemma o3_rename_one_effect (T : Z -> Prop) id s s' e n :
  o3_rename_one id s = Renamed s' e -> rob_ok (o3_rob s) n -> 0 <= n -> n + 1 < TAG_SPAN -> lq_within T (o3_load_queue s) ->
  ri_rob_tag e = tag_at n /\ lq_within T (o3_load_queue s') /\ o3_width s' = o3_width s /\
  exists r x, rob_ok r (n + 1) /\ rob_queue r = rob_queue (o3_rob s) ++ [x] /\ re_tag x = tag_at n /\ re_state x = Issued /\
    rob_evolves [] r (o3_rob s').
Proof.
  intros E Hr Hn Hsp Hq. unfold o3_rename_one in E.
  destruct (if needs_dst _ _ then _ else _) as [fl [[p o]|]]; [|done]. destruct (rob_is_full (o3_rob s)) eqn:Hfull.
  { unfold rob_allocate in E. by rewrite Hfull in E. }
  pose proof (rob_allocate_ok (o3_rob s) n (id_pc id) (id_inst id) (id_inst_size id) (id_rd id) (fp_reg_write (id_ctrl id))
    (id_ctrl id) p o Hr Hn Hsp Hfull) as A.
  destruct (rob_allocate _ _ _ _ _ _ _ _ _) as [rob t]. destruct A as (-> & Hok & x & A1 & A2 & A3). cbv zeta in E.
  destruct (if mem_write _ then _ else _) as [sb [|]]; [|done]. cbn [negb] in E.
  match type of E with context [let '(lq, lq_ok) := ?l in _] => assert (L : lq_within T l.1) end.
  { destruct (mem_read _); [|exact Hq]. by apply (lq_op_within T _ (LqAllocate _ _)). }
  match type of E with context [let '(lq, lq_ok) := ?l in _] => destruct l as [lq [|]] end; [|done]. cbn [negb fst] in *.
  assert (R : forall s1 e1, Renamed s1 e1 = Renamed s' e -> o3_load_queue s1 = lq -> o3_width s1 = o3_width s ->
    ri_rob_tag e1 = tag_at n -> rob_evolves [] rob (o3_rob s1) ->
    ri_rob_tag e = tag_at n /\ lq_within T (o3_load_queue s') /\ o3_width s' = o3_width s /\
    exists r x, rob_ok r (n + 1) /\ rob_queue r = rob_queue (o3_rob s) ++ [x] /\ re_tag x = tag_at n /\ re_state x = Issued /\
      rob_evolves [] r (o3_rob s')).
  { intros s1 e1 [= -> ->] E1 E2 E3 E4. rewrite E1. split_and!; [done|done|done|]. by exists rob, x. }
  destruct (is_branch_or_jump _ && _).
  - destruct (ct_allocate _ _ _) as [ct [cid|]]; [|done]. eapply R; [exact E|done|done|done|]. by apply quiet_evolves.
  - eapply R; [exact E|done|done|done|]. apply evolves_refl.
Qed.

Definition with_rename (e : O3Engine) (out : list RenameIssueEntry) (s : sys) : sys :=
  (on_back (fun b => b <| ob_engine := e |>) s) <| os_rename := out |>.

Lemma rename_one_flight w n e out id b (s : sys) :
  o3_flight w n 0 [] (with_rename e out s) -> has_room (S b) e -> checkpoint_stall id e = false ->
  0 <= n -> n + 1 < TAG_SPAN ->
  (S (length out) + iq_count (ob_iq (os_back s)) <= iq_capacity (ob_iq (os_back s)))%nat ->
  exists e' entry, o3_rename_one id e = Renamed e' entry /\ has_room b e' /\
    o3_flight w (n + 1) 0 [] (with_rename e' (out ++ [entry]) s).
Proof.
  intros [Hr Hc [L1 L2 L3 L4 L5 L6] [O1 O2]] Hroom Hst Hn Hsp Hl.
  destruct (o3_rename_one_room b id e Hroom L5 Hst) as (e' & entry & E & _ & Hroom' & Hct).
  destruct (o3_rename_one_effect _ _ _ _ _ _ E Hr Hn Hsp O2) as (T1 & T2 & T3 & r & x & R1 & R2 & R3 & R4 & R5).
  exists e', entry. split; [done|]. split; [done|]. destruct (R5 _ R1) as [R6 R7].
  change (os_rename (with_rename e out s)) with out in O1, O2, T2.
  assert (Hfresh : re_tag x ∉ re_tag <$> rob_queue (o3_rob e)) by (rewrite R3; eapply rob_ok_fresh; [exact Hr|lia]).
  pose proof (covered_snoc _ x _ R4 Hfresh Hc) as C. change (os_rob (with_rename e out s)) with (o3_rob e) in C.
  rewrite <-R2, R3 in C. pose proof (covered_settle [] _ _ _ R7 C) as C'. split.
  - exact R6.
  - eapply covered_perm; [|exact C']. unfold o3_places. simpl. rewrite (fmap_snoc_at ri_rob_tag _ _ _ T1). solve_Permutation.
  - split; [exact L1| |exact L3|exact L4|exact Hct|etrans; [exact T3|exact L6]].
    change (length (out ++ [entry]) + iq_count (ob_iq (os_back s)) <= iq_capacity (ob_iq (os_back s)))%nat.
    rewrite length_app. simpl. lia.
  - assert (Hlen : n + 1 - Z.of_nat (length (out ++ [entry])) = n - Z.of_nat (length out)) by (rewrite length_app; simpl; lia).
    split; change (os_rename (with_rename e' (out ++ [entry]) s)) with (out ++ [entry]); rewrite Hlen; [|exact T2].
    rewrite (fmap_snoc_at ri_rob_tag _ _ _ T1), O1, length_app, Nat.add_1_r, seqZ_S, fmap_app. simpl.
    by replace (n - Z.of_nat (length out) + Z.of_nat (length out)) with n by lia.
Qed.

Lemma rename_loop_flight w n input st (s : sys) :
  o3_flight w n 0 [] (with_rename (rn_engine st) (rn_output st) s) -> has_room (rn_budget st) (rn_engine st) ->
  0 <= n -> n + Z.of_nat (rn_budget st) < TAG_SPAN ->
  (rn_budget st + length (rn_output st) + iq_count (ob_iq (os_back s)) <= iq_capacity (ob_iq (os_back s)))%nat ->
  match list_scan o3_rename_body input st with
  | Continue st' | Return (Broke st') =>
      exists n', n <= n' <= n + Z.of_nat (rn_budget st) /\ o3_flight w n' 0 [] (with_rename (rn_engine st') (rn_output st') s)
  | Return RenamePanic => False
  end.
Proof.
  revert n st. induction input as [|id input IH]; intros n st F Hroom Hn Hsp Hl; [exists n; split; [lia|done]|].
  simpl list_scan. unfold o3_rename_body at 1. destruct (Nat.eqb_spec (rn_budget st) 0) as [Hz|Hz].
  { match goal with |- context [list_scan _ input ?x] => set (st1 := x) end. exact (IH n st1 F Hroom Hn Hsp Hl). }
  cbv zeta. fold (checkpoint_stall id (rn_engine st)). destruct (checkpoint_stall id (rn_engine st)) eqn:Est.
  { match goal with |- context [list_scan _ input ?x] => set (st1 := x) end.
    assert (B0 : rn_budget st1 = 0%nat) by done. specialize (IH n st1). rewrite B0 in IH.
    change (rn_engine st1) with (rn_engine st) in IH. change (rn_output st1) with (rn_output st) in IH.
    specialize (IH F ltac:(constructor; lia) Hn ltac:(lia) ltac:(lia)).
    destruct (list_scan _ input st1) as [st'|[st'|]]; [| |done]; destruct IH as (n' & Hn' & H); exists n'; (split; [lia|exact H]). }
  destruct (rn_budget st) as [|b] eqn:Eb; [done|].
  destruct (rename_one_flight w n (rn_engine st) (rn_output st) id b s F Hroom Est Hn ltac:(lia) ltac:(lia)) as (e' & entry & E & Hroom' & F').
  rewrite E. match goal with |- context [list_scan _ input ?x] => set (st1 := x) end.
  assert (B1 : rn_budget st1 = b) by (unfold st1; simpl; lia). specialize (IH (n + 1) st1). rewrite B1 in IH.
  change (rn_engine st1) with e' in IH. change (rn_output st1) with (rn_output st ++ [entry]) in IH.
  specialize (IH F' Hroom' ltac:(lia) ltac:(lia) ltac:(rewrite length_app; simpl; lia)).
  destruct (list_scan _ input st1) as [st'|[st'|]]; [| |done]; destruct IH as (n' & Hn' & H); exists n'; (split; [lia|exact H]).
Qed.

(** * The pipeline *)

Definition o3_good (w : nat) (n : Z) (c : core) (b : O3Backend) (out : list RenameIssueEntry) : Prop :=
  o3_flight w n 0 [] {| os_core := c; os_back := b; os_rename := out |}.

Lemma o3_rename_flight w n (c : core) (b : O3Backend) input :
  o3_good w n c b [] -> 0 <= n -> n + Z.of_nat w < TAG_SPAN ->
  exists (c' : core) b' input' out, en_rename c b input [] = Some (c', b', input', out) /\
    l1d_mshrs c' = l1d_mshrs c /\ exists n', n <= n' <= n + Z.of_nat w /\ o3_good w n' c' b' out.
Proof.
  intros F Hn Hsp. simpl en_rename. unfold o3_rename_stage. set (s := {| os_core := c; os_back := b; os_rename := [] |} : sys).
  match goal with |- context [list_scan o3_rename_body input ?x] => set (st := x);
    pose proof (rename_loop_flight w n input st s) as L end.
  destruct (o3_can_accept_room (o3_view b)) as [Hroom Hiq].
  assert (Hw : (o3_can_accept (o3_view b) <= w)%nat).
  { rewrite <-(ol_width _ _ _ (of_local _ _ _ _ _ F)). unfold o3_can_accept. destruct (0 <? _); [lia|]. apply Nat.le_min_r. }
  change (o3_can_accept (o3_view b) <= iq_available_slots (ob_iq b))%nat in Hiq. unfold iq_available_slots in Hiq.
  pose proof (ol_room _ _ _ (of_local _ _ _ _ _ F)) as Hl. change (iq_count (ob_iq b) <= iq_capacity (ob_iq b))%nat in Hl.
  change (rn_budget st) with (o3_can_accept (o3_view b)) in L. change (rn_output st) with (@nil RenameIssueEntry) in L.
  specialize (L ltac:(destruct F as [F1 F2 [L1 L2 L3 L4 L5 L6] [O1 O2]]; by split) Hroom Hn ltac:(lia)).
  simpl length in L. change (ob_iq (os_back s)) with (ob_iq b) in L. specialize (L ltac:(lia)).
  destruct (list_scan o3_rename_body input st) as [st'|[st'|]]; [| |done]; destruct L as (n' & Hn' & L);
    do 4 eexists; (split; [reflexivity|]); (split; [reflexivity|]); exists n'; (split; [lia|]);
    destruct L as [F1 F2 [L1 L2 L3 L4 L5 L6] [O1 O2]]; by split.
Qed.

Lemma o3_laws w : engine_laws w (o3_good w).
Proof.
  split.
  - intros n c c' b out [F1 F2 [L1 L2 L3 L4 L5 L6] [O1 O2]] E. split; [exact F1| | |by split].
    + unfold o3_places in *. simpl in *. by rewrite E.
    + split; try done. simpl. by rewrite E.
  - intros n c b out F Hn. exact (o3_tick_flight w n _ F Hn).
  - intros n c b input. apply o3_rename_flight.
Qed.

(** The pipeline after reset. *)
Definition o3_start (c : core) (config : O3BackendConfig) : PipeState X M P O3Backend := {|
  ps_core := c; ps_frontend := frontend_new; ps_engine := ob_new config; ps_rename_output := [] |}.

Lemma o3_start_good (c : core) config misses line :
  (0 < cfg_rob_size (obc_engine config))%nat -> (0 < cfg_load_queue_size (obc_engine config))%nat ->
  l1d_mshrs c = mshr_new misses line -> o3_good (cfg_width (obc_engine config)) 0 c (ob_new config) [].
Proof.
  intros Hr Hl Hm. destruct (mshr_new_ok misses line) as [Hok Hp]. apply o3_flight_empty.
  - exists []. split; [by apply rob_new_inv|]. split; constructor.
  - done.
  - unfold o3_places. simpl. rewrite Hm, Hp. unfold iq_tags. simpl. rewrite app_nil_r.
    generalize (cfg_issue_queue_size (obc_engine config)). intros k. by induction k.
  - split; [apply iq_new_wf|apply Nat.le_0_l|constructor|simpl; by rewrite Hm| |done].
    unfold ct_wf. simpl. generalize (cfg_checkpoint_count (obc_engine config)). intros k. by induction k.
  - split; [done|]. split; [by apply lq_new_inv|]. unfold executed, lq_live, window. simpl. constructor.
Qed.

(** C2. The out-of-order pipeline never loses or duplicates an instruction, and
    rename never reaches its unreachable!: after any number of whole cycles
    (commit to fetch, with traps, mispredictions, memory-ordering violations,
    misses, speculative wakeups and structural stalls) that can hand out fewer
    than TAG_SPAN = 2^31 - 1 tags, every instruction in the reorder buffer
    whose result is outstanding is in exactly one of the rename output, the
    issue queue, the results still in a functional unit, the latches and the
    miss registers; whatever these hold belongs to an instruction in flight
    that is not complete; and the issue queue has room for the rename output,
    so that dispatch drops none. *)
Theorem o3_loses_nothing (c : core) (config : O3BackendConfig) (cycles misses : nat) (line : Z) :
  (0 < cfg_rob_size (obc_engine config))%nat -> (0 < cfg_load_queue_size (obc_engine config))%nat ->
  l1d_mshrs c = mshr_new misses line -> Z.of_nat (cycles * cfg_width (obc_engine config)) < TAG_SPAN ->
  exists s, pipeline_run cycles (o3_start c config) = Some s /\
    let b := ps_engine s in
    let q := rob_queue (ob_rob b) in
    let outstanding := filter (fun p => pr_speculative_written p = false) (ob_pending b) in
    let places := (ri_rob_tag <$> ps_rename_output s) ++ ((fun e => ri_rob_tag (iq_entry e)) <$> iq_live (ob_iq b)) ++
                  (pr_tag <$> outstanding) ++ (ex_rob_tag <$> ob_execute_mem1 b) ++ (mm_rob_tag <$> ob_mem1_mem2 b) ++
                  (mw_rob_tag <$> ob_mem2_wb b) ++ parked_tags (l1d_mshrs (ps_core s)) in
    NoDup places /\
    (forall e, e ∈ q -> re_state e = Issued -> re_tag e ∈ places) /\
    (forall t, t ∈ places -> exists e, e ∈ q /\ re_tag e = t /\ re_state e <> Completed) /\
    (length (ps_rename_output s) <= iq_available_slots (ob_iq b))%nat.
Proof.
  intros Hr Hl Hm Hsp. pose proof (o3_start_good c config misses line Hr Hl Hm) as G.
  destruct (pipeline_run_good _ _ (o3_laws _) cycles 0 (o3_start c config) G) as (s & n & E & [F1 F2 F3 F4]); [lia|lia|].
  exists s. split; [exact E|]. cbv zeta.
  assert (Ep : pend_tags (ob_pending (ps_engine s)) = pr_tag <$> filter (fun p => pr_speculative_written p = false) (ob_pending (ps_engine s))).
  { generalize (ob_pending (ps_engine s)). intros l. unfold pend_tags. induction l as [|p l IH]; [done|].
    rewrite bind_cons, filter_cons, IH. unfold pend_open. by destruct (pr_speculative_written p). }
  unfold o3_places in F2. cbn [os_rename os_back os_core] in F2. rewrite Ep in F2. destruct F2 as [H1 H2 H3].
  split; [exact H1|]. split; [exact H3|]. split; [exact H2|].
  pose proof (ol_room _ _ _ F3) as Hroom. unfold iq_available_slots.
  change (length (ps_rename_output s) + iq_count (ob_iq (ps_engine s)) <= iq_capacity (ob_iq (ps_engine s)))%nat in Hroom. lia.
Qed.

End O3.

(** ** Witness *)

(** Instructions without a result, and how many are renamed, waiting to issue,
    in a functional unit, in each latch, and parked in a miss register. *)
Definition o3_counts (s : PipeState Empty_set SimpleController unit O3Backend) : list nat :=
  let b := ps_engine s in
  [length (filter (fun e => re_state e = Issued) (rob_queue (ob_rob b))); length (ps_rename_output s);
   length (iq_live (ob_iq b)); length (ob_pending b); length (ob_execute_mem1 b); length (ob_mem1_mem2 b);
   length (ob_mem2_wb b); length (parked_tags (l1d_mshrs (ps_core s)))].

(** A load waits for memory, another instruction is about to write back, a store
    has executed, three instructions wait to issue, one has just been renamed. *)
Lemma o3_loses_nothing_witness :
  exists s, pipeline_run 131 (demo_o3 demo_program) = Some s /\ o3_counts s = [7; 1; 3; 0; 1; 0; 1; 1]%nat /\
    (length (ps_rename_output s) <= iq_available_slots (ob_iq (ps_engine s)))%nat.
Proof.
  destruct (o3_loses_nothing (demo_machine_with demo_program) demo_o3_config 131 4 64) as (s & E & _ & _ & _ & H);
    [simpl; lia|simpl; lia|reflexivity|done|].
  change (pipeline_run 131 (demo_o3 demo_program) = Some s) in E. exists s. split; [exact E|].
  assert (C : o3_counts <$> pipeline_run 131 (demo_o3 demo_program) = Some [7; 1; 3; 0; 1; 0; 1; 1]%nat) by (vm_compute; reflexivity).
  rewrite E in C. apply (inj Some) in C. split; [exact C|exact H].
Defined.
