(* ===== verification/Config.v ===== *)
(** The configuration ([config.rs]): its sections, the default of each, and the
    settings the components read from it. *)
From stdpp Require Import strings.
From S2P Require Import Prelude Common RenameO3 Policy Prefetch Cache Dram Hierarchy MemDep IssueQueue Predictor Tage ScLTage BranchUnits O3Tick.
Set Primitive Projections.
Local Open Scope Z_scope.

(** * Defaults *)

Module Defaults.
Definition RAM_BASE : Z := 0x80000000.
Definition RAM_SIZE : Z := 128 * 1024 * 1024.
Definition KERNEL_OFFSET : Z := 0x00200000.
Definition UART_BASE : Z := 0x10000000.
Definition DISK_BASE : Z := 0x90000000.
Definition CLINT_BASE : Z := 0x02000000.
Definition SYSCON_BASE : Z := 0x00100000.
Definition BUS_WIDTH : Z := 8.
Definition BUS_LATENCY : Z := 4.
Definition CLINT_DIVIDER : Z := 10.
Definition T_CAS : Z := 14.
Definition T_RAS : Z := 14.
Definition T_PRE : Z := 14.
Definition ROW_MISS_LATENCY : Z := 120.
Definition NUM_BANKS : nat := 8.
Definition T_RRD : Z := 4.
Definition ROW_SIZE_BYTES : Z := 2048.
Definition T_REFI : Z := 7800.
Definition T_RFC : Z := 350.
Definition TLB_SIZE : Z := 32.
Definition L2_TLB_SIZE : Z := 512.
Definition L2_TLB_WAYS : nat := 4.
Definition L2_TLB_LATENCY : Z := 4.
Definition CACHE_SIZE : Z := 4096.
Definition CACHE_LINE : Z := 64.
Definition CACHE_WAYS : nat := 1.
Definition CACHE_LATENCY : Z := 1.
Definition PREFETCH_TABLE_SIZE : Z := 64.
Definition PREFETCH_DEGREE : nat := 1.
Definition L1D_MSHR_COUNT : nat := 0.
Definition PIPELINE_WIDTH : nat := 1.
Definition BTB_SIZE : nat := 256.
Definition BTB_WAYS : nat := 4.
Definition RAS_SIZE : nat := 8.
Definition TAGE_BANKS : nat := 8.
Definition TAGE_TABLE_SIZE : nat := 2048.
Definition ROB_SIZE : nat := 64.
Definition STORE_BUFFER_SIZE : nat := 16.
Definition ISSUE_QUEUE_SIZE : nat := 32.
Definition LOAD_QUEUE_SIZE : nat := 32.
Definition LOAD_PORTS : nat := 2.
Definition STORE_PORTS : nat := 1.
Definition CHECKPOINT_COUNT : nat := 32.
Definition PRF_GPR_SIZE : nat := 256.
Definition PRF_FPR_SIZE : nat := 128.
Definition TAGE_LOOP_SIZE : nat := 256.
Definition TAGE_RESET_INTERVAL : Z := 256000.
Definition PERCEPTRON_HISTORY : nat := 32.
Definition PERCEPTRON_TABLE_BITS : nat := 10.
Definition TOURNAMENT_GLOBAL_BITS : nat := 12.
Definition TOURNAMENT_LOCAL_HIST_BITS : nat := 10.
Definition TOURNAMENT_LOCAL_PRED_BITS : nat := 10.
End Defaults.

(** * Choices; the first of each is the default.  [InclusionPolicy] is in
    [Hierarchy], [BpType] in [BranchUnits]. *)

Inductive MemControllerType := McSimple | McDram.
Inductive PolicyType := PolLru | PolPlru | PolFifo | PolRandom | PolMru.
Inductive PrefetcherType := PfNone | PfNextLine | PfStride | PfStream | PfTagged.
#[export] Instance PrefetcherType_eq_dec : EqDecision PrefetcherType.
Proof. solve_decision. Defined.
Inductive MdpType := MdBlind | MdStoreSet.
Inductive BackendType := BkInOrder | BkOutOfOrder.

(** * Sections *)

Record GeneralConfig := {
  cfg_trace_instructions : bool; cfg_start_pc : Z; cfg_direct_mode : bool; cfg_initial_sp : option Z
}.
Definition general_default : GeneralConfig := {|
  cfg_trace_instructions := false; cfg_start_pc := Defaults.RAM_BASE; cfg_direct_mode := true; cfg_initial_sp := None |}.

Record SystemConfig := {
  cfg_uart_base : Z; cfg_disk_base : Z; cfg_ram_base : Z; cfg_clint_base : Z; cfg_syscon_base : Z;
  cfg_kernel_offset : Z; cfg_bus_width : Z; cfg_bus_latency : Z; cfg_clint_divider : Z;
  cfg_uart_to_stderr : bool; cfg_uart_quiet : bool; cfg_tohost_addr : Z
}.
Definition system_default : SystemConfig := {|
  cfg_uart_base := Defaults.UART_BASE; cfg_disk_base := Defaults.DISK_BASE; cfg_ram_base := Defaults.RAM_BASE;
  cfg_clint_base := Defaults.CLINT_BASE; cfg_syscon_base := Defaults.SYSCON_BASE;
  cfg_kernel_offset := Defaults.KERNEL_OFFSET; cfg_bus_width := Defaults.BUS_WIDTH;
  cfg_bus_latency := Defaults.BUS_LATENCY; cfg_clint_divider := Defaults.CLINT_DIVIDER;
  cfg_uart_to_stderr := false; cfg_uart_quiet := false; cfg_tohost_addr := 0 |}.

Record MemoryConfig := {
  cfg_ram_size : Z; cfg_controller : MemControllerType; cfg_t_cas : Z; cfg_t_ras : Z; cfg_t_pre : Z;
  cfg_row_miss_latency : Z; cfg_num_banks : nat; cfg_t_rrd : Z; cfg_row_size_bytes : Z; cfg_t_refi : Z; cfg_t_rfc : Z;
  cfg_tlb_size : Z; cfg_l2_tlb_size : Z; cfg_l2_tlb_ways : nat; cfg_l2_tlb_latency : Z;
  cfg_software_ad_bits : bool; cfg_misaligned_access_trap : bool
}.
Definition memory_default : MemoryConfig := {|
  cfg_ram_size := Defaults.RAM_SIZE; cfg_controller := McSimple; cfg_t_cas := Defaults.T_CAS; cfg_t_ras := Defaults.T_RAS;
  cfg_t_pre := Defaults.T_PRE; cfg_row_miss_latency := Defaults.ROW_MISS_LATENCY; cfg_num_banks := Defaults.NUM_BANKS;
  cfg_t_rrd := Defaults.T_RRD; cfg_row_size_bytes := Defaults.ROW_SIZE_BYTES; cfg_t_refi := Defaults.T_REFI;
  cfg_t_rfc := Defaults.T_RFC; cfg_tlb_size := Defaults.TLB_SIZE; cfg_l2_tlb_size := Defaults.L2_TLB_SIZE;
  cfg_l2_tlb_ways := Defaults.L2_TLB_WAYS; cfg_l2_tlb_latency := Defaults.L2_TLB_LATENCY;
  cfg_software_ad_bits := true; cfg_misaligned_access_trap := true |}.

Record CacheConfig := {
  cc_enabled : bool; cc_size_bytes : Z; cc_line_bytes : Z; cc_ways : nat; cc_policy : PolicyType; cc_latency : Z;
  cc_prefetcher : PrefetcherType; cc_prefetch_table_size : Z; cc_prefetch_degree : nat; cc_mshr_count : nat
}.
Definition cache_default : CacheConfig := {|
  cc_enabled := false; cc_size_bytes := Defaults.CACHE_SIZE; cc_line_bytes := Defaults.CACHE_LINE;
  cc_ways := Defaults.CACHE_WAYS; cc_policy := PolLru; cc_latency := Defaults.CACHE_LATENCY;
  cc_prefetcher := PfNone; cc_prefetch_table_size := Defaults.PREFETCH_TABLE_SIZE;
  cc_prefetch_degree := Defaults.PREFETCH_DEGREE; cc_mshr_count := Defaults.L1D_MSHR_COUNT |}.

(** The default is derived: no write-combining buffer. *)
Record CacheHierarchyConfig := {
  cfg_l1_i : CacheConfig; cfg_l1_d : CacheConfig; cfg_l2 : CacheConfig; cfg_l3 : CacheConfig;
  cfg_inclusion_policy : InclusionPolicy; cfg_wcb_entries : nat
}.
Definition hierarchy_default : CacheHierarchyConfig := {|
  cfg_l1_i := cache_default; cfg_l1_d := cache_default; cfg_l2 := cache_default; cfg_l3 := cache_default;
  cfg_inclusion_policy := Nine; cfg_wcb_entries := 0 |}.

(** [TageConfig] and its like are beside the components they configure. *)
Definition tage_default : TageConfig := {|
  tg_num_banks := Defaults.TAGE_BANKS; tg_table_size := Defaults.TAGE_TABLE_SIZE;
  tg_loop_table_size := Defaults.TAGE_LOOP_SIZE; tg_reset_interval := Defaults.TAGE_RESET_INTERVAL;
  tg_history_lengths := [5; 11; 22; 44; 89; 178; 356; 712]%nat; tg_tag_widths := [8; 8; 9; 9; 10; 10; 11; 11]%nat |}.
Definition sc_default : ScConfig := {|
  scc_num_tables := 6; scc_table_size := 512; scc_history_lengths := [0; 2; 4; 8; 12; 16]%nat;
  scc_counter_bits := 3; scc_bias_table_size := 256; scc_bias_counter_bits := 6;
  scc_initial_threshold := 35; scc_per_pc_threshold_bits := 6 |}.
Definition ittage_default : IttageConfig := {|
  it_cfg_num_banks := 8; it_cfg_table_size := 256; it_cfg_history_lengths := [4; 8; 16; 32; 64; 128; 256; 512]%nat;
  it_cfg_tag_widths := [9; 9; 10; 10; 11; 11; 12; 12]%nat; it_cfg_reset_interval := 256000 |}.
Definition perceptron_default : PerceptronConfig := {|
  pc_history_length := Defaults.PERCEPTRON_HISTORY; pc_table_bits := Defaults.PERCEPTRON_TABLE_BITS |}.
Definition tournament_default : TournamentConfig := {|
  global_size_bits := Defaults.TOURNAMENT_GLOBAL_BITS; local_hist_bits := Defaults.TOURNAMENT_LOCAL_HIST_BITS;
  local_pred_bits := Defaults.TOURNAMENT_LOCAL_PRED_BITS |}.
Definition store_set_default : StoreSetConfig := {|
  ssit_size := 2048; lfst_size := 256; cfg_ssit_clear_interval := 100000 |}.

Record PipelineConfig := {
  pl_width : nat; pl_branch_predictor : BpType; pl_btb_size : nat; pl_btb_ways : nat; pl_ras_size : nat;
  pl_misa_override : option string;
  pl_tage : TageConfig; pl_perceptron : PerceptronConfig; pl_tournament : TournamentConfig; pl_sc : ScConfig;
  pl_ittage : IttageConfig; pl_backend : BackendType; pl_rob_size : nat; pl_store_buffer_size : nat;
  pl_issue_queue_size : nat; pl_prf_gpr_size : nat; pl_prf_fpr_size : nat; pl_load_queue_size : nat;
  pl_load_ports : nat; pl_store_ports : nat; pl_fu_config : FuConfig; pl_checkpoint_count : nat;
  pl_mem_dep_predictor : MdpType; pl_store_set : StoreSetConfig
}.
Definition pipeline_default : PipelineConfig := {|
  pl_width := Defaults.PIPELINE_WIDTH; pl_branch_predictor := BpStatic; pl_btb_size := Defaults.BTB_SIZE;
  pl_btb_ways := Defaults.BTB_WAYS; pl_ras_size := Defaults.RAS_SIZE; pl_misa_override := None;
  pl_tage := tage_default; pl_perceptron := perceptron_default; pl_tournament := tournament_default;
  pl_sc := sc_default; pl_ittage := ittage_default; pl_backend := BkInOrder; pl_rob_size := Defaults.ROB_SIZE;
  pl_store_buffer_size := Defaults.STORE_BUFFER_SIZE; pl_issue_queue_size := Defaults.ISSUE_QUEUE_SIZE;
  pl_prf_gpr_size := Defaults.PRF_GPR_SIZE; pl_prf_fpr_size := Defaults.PRF_FPR_SIZE;
  pl_load_queue_size := Defaults.LOAD_QUEUE_SIZE; pl_load_ports := Defaults.LOAD_PORTS;
  pl_store_ports := Defaults.STORE_PORTS; pl_fu_config := fu_config_default;
  pl_checkpoint_count := Defaults.CHECKPOINT_COUNT; pl_mem_dep_predictor := MdBlind; pl_store_set := store_set_default |}.

Record Config := {
  general : GeneralConfig; system : SystemConfig; memory : MemoryConfig; cache : CacheHierarchyConfig;
  pipeline : PipelineConfig
}.
Definition config_default : Config := {|
  general := general_default; system := system_default; memory := memory_default; cache := hierarchy_default;
  pipeline := pipeline_default |}.

(** * What the components read *)

(** [CacheSim::new] *)
Definition mk_policy (p : PolicyType) (sets ways : nat) : DynPolicy :=
  match p with
  | PolFifo => DynFifo (fifo_new sets ways)
  | PolRandom => DynRandom (random_new sets ways)
  | PolPlru => DynPlru (plru_new sets ways)
  | PolLru => DynLru (lru_new sets ways)
  | PolMru => DynMru (mru_new sets ways)
  end.
Definition mk_prefetcher (config : CacheConfig) : option DynPrefetcher :=
  let safe_line := safe_line (cc_line_bytes config) in
  match cc_prefetcher config with
  | PfNextLine => Some (DynNextLine (next_line_new safe_line (cc_prefetch_degree config)))
  | PfStride => Some (DynStride (stride_new safe_line (cc_prefetch_table_size config) (cc_prefetch_degree config)))
  | PfStream => Some (DynStream (stream_new safe_line (cc_prefetch_degree config)))
  | PfTagged => Some (DynTagged (tagged_new safe_line (cc_prefetch_degree config)))
  | PfNone => None
  end.
Definition cache_sim_new (config : CacheConfig) : CacheSim DynPolicy DynPrefetcher :=
  cs_new (cc_latency config) (cc_enabled config) (cc_size_bytes config) (cc_line_bytes config) (cc_ways config)
    (mk_policy (cc_policy config)) (mk_prefetcher config).

(** [BranchPredictorWrapper::new], [O3Engine::new] and [MemDepUnit::new] take the
    whole configuration. *)
Definition bp_settings (p : PipelineConfig) : BpConfig := {|
  bp_type := pl_branch_predictor p; bp_btb_size := pl_btb_size p; bp_btb_ways := pl_btb_ways p;
  bp_ras_size := pl_ras_size p; bp_tage := pl_tage p; bp_perceptron := pl_perceptron p;
  bp_tournament := pl_tournament p; bp_sc := pl_sc p; bp_ittage := pl_ittage p |}.
Definition mdp_settings (p : PipelineConfig) : option StoreSetConfig :=
  match pl_mem_dep_predictor p with MdBlind => None | MdStoreSet => Some (pl_store_set p) end.
Definition o3_settings (p : PipelineConfig) : O3BackendConfig := {|
  obc_engine := {| cfg_rob_size := pl_rob_size p; cfg_store_buffer_size := pl_store_buffer_size p;
                   cfg_load_queue_size := pl_load_queue_size p; cfg_prf_gpr_size := pl_prf_gpr_size p;
                   cfg_prf_fpr_size := pl_prf_fpr_size p; cfg_issue_queue_size := pl_issue_queue_size p;
                   cfg_width := pl_width p; cfg_checkpoint_count := pl_checkpoint_count p |};
  obc_fu := pl_fu_config p; obc_load_ports := pl_load_ports p; obc_store_ports := pl_store_ports p;
  obc_mdp := mdp_settings p |}.
Definition dram_settings (m : MemoryConfig) : DramConfig := {|
  c_t_cas := cfg_t_cas m; c_t_ras := cfg_t_ras m; c_t_pre := cfg_t_pre m; c_t_rrd := cfg_t_rrd m;
  c_num_banks := cfg_num_banks m; c_row_size_bytes := cfg_row_size_bytes m; c_t_refi := cfg_t_refi m;
  c_t_rfc := cfg_t_rfc m |}.
