(* ===== verification/System.v ===== *)
(** The system and the simulator: construction of the bus with its devices and
    of the memory controller ([soc/builder.rs]), of the processor
    ([core/cpu/mod.rs]) and of the pipeline ([sim/simulator.rs]) from a
    configuration, and the cycle of the simulator with the checks around the
    pipeline ([core/cpu/execution.rs]). *)
From stdpp Require Import strings.
From Stdlib Require Import Ascii.
From S2P Require Import Prelude Common Policy Prefetch Cache Tlb Csr Mmu Pmp Cpu WriteBuffer Dram Hierarchy Soc Plic Interconnect Uart VirtioDisk Commit Mshr Core BranchUnits InOrderTick O3Tick Pipeline Config.
Set Primitive Projections.
Local Open Scope Z_scope.

(** * Devices with host input and output *)

Inductive SocDevice := SUart (u : Uart) | SDisk (d : VirtioBlock).

#[export] Instance soc_device : ExtDevice SocDevice := {|
  ext_name x := match x with SUart _ => "UART0" | SDisk _ => "VirtIO-Blk" end%string;
  ext_range x := match x with SUart u => (uart_base_addr u, 0x100) | SDisk d => (vb_base_addr d, 0x1000) end;
  ext_read x s offset sh :=
    match x with
    | SUart u => let '(v, u) := uart_read u s offset in (v, SUart u, sh)
    | SDisk d => (virtio_read d s offset, SDisk d, sh)
    end;
  ext_write x s offset val sh :=
    match x with
    | SUart u => (SUart (uart_write u s offset val), sh)
    | SDisk d => let '(d, sh) := virtio_write d s offset val sh in (SDisk d, sh)
    end;
  ext_tick x sh :=
    match x with
    | SUart u => let '(irq, u) := uart_tick u in (irq, SUart u, sh)
    | SDisk d => (virtio_tick d, SDisk d, sh)
    end;
  ext_irq_id x := match x with SUart _ => Some 10 | SDisk _ => Some 1 end |}.

(** * The memory controller *)

(** [Box<dyn MemoryController>].  [CPanicked] is a controller whose last access
    divided by a number of banks of zero, [CHung] one whose refresh loop does
    not end; [Simulator::tick] looks at both.  The loop runs once per refresh
    due, when it ends. *)
Inductive DynController := CSimple (c : SimpleController) | CDram (d : DramController) | CPanicked | CHung.
Definition dyn_access_latency (self : DynController) (addr current_cycle : Z) : Z * DynController :=
  match self with
  | CSimple c => let '(l, c) := access_latency c addr current_cycle in (l, CSimple c)
  | CDram d =>
      match dram_access_latency (Z.to_nat (refreshes_due d current_cycle)) d addr current_cycle with
      | Some (l, d) => if (num_banks d =? 0)%nat then (0, CPanicked) else (l, CDram d)
      | None => (0, CHung)
      end
  | CPanicked => (0, CPanicked)
  | CHung => (0, CHung)
  end.
#[export] Instance dyn_controller : MemoryController DynController := {| access_latency := dyn_access_latency |}.
Definition controller_new (m : MemoryConfig) : DynController :=
  match cfg_controller m with
  | McDram => CDram (dram_new (dram_settings m))
  | McSimple => CSimple {| sc_latency := cfg_row_miss_latency m |}
  end.

(** * [System] *)

(** The exit request is a cell of the bus's [Shared]. *)
Record System := { sys_bus : Interconnect SocDevice; sys_mem_controller : DynController }.

Definition PLIC_ADDR : Z := 0x0c000000.
Definition RTC_ADDR : Z := 0x101000.

Definition shared_new (ram_size : Z) : Shared :=
  {| sh_dram := dram_buffer_new ram_size; sh_exit_signal := U64_MAX; sh_host_time := 0; sh_failed := false; sh_hung := false |}.

(** The devices in the order they are added; [disk_data] is the content of the
    disk image, if there is one. *)
Definition system_devices (config : Config) (disk_data : option (list Z)) : list (Device SocDevice) :=
  let s := system config in
  let disk := virtio_new (cfg_disk_base s) (cfg_ram_base s) in
  let disk := match disk_data with
              | Some ((_ :: _) as data) => virtio_load disk data
              | _ => disk
              end in
  [DMemory (cfg_ram_base s);
   DExt (SUart (uart_new (cfg_uart_base s) (cfg_uart_to_stderr s) (cfg_uart_quiet s)));
   DExt (SDisk disk);
   DClint (clint_new (cfg_clint_base s) (cfg_clint_divider s));
   DPlic (plic_new PLIC_ADDR);
   DSysCon (cfg_syscon_base s);
   DRtc RTC_ADDR] ++
  (if negb (cfg_tohost_addr s =? 0) then [DHtif (cfg_tohost_addr s)] else []).

Definition system_new (config : Config) (disk_data : option (list Z)) : System :=
  let s := system config in
  let bus := bus_new (cfg_bus_width s) (cfg_bus_latency s) (shared_new (cfg_ram_size (memory config))) in
  {| sys_bus := foldl add_device bus (system_devices config disk_data);
     sys_mem_controller := controller_new (memory config) |}.

Definition check_exit (self : Interconnect SocDevice) : option Z :=
  let val := sh_exit_signal (shared self) in
  if val =? U64_MAX then None else Some val.
Definition check_kernel_panic (self : Interconnect SocDevice) : bool :=
  match uart_idx self ≫= fun idx => devices self !! idx with
  | Some (DExt (SUart u)) => uart_check_kernel_panic u
  | _ => false
  end.
Definition add_htif (self : System) (tohost_addr : Z) : System :=
  self <| sys_bus := add_device (sys_bus self) (DHtif tohost_addr) |>.

(** * [Cpu::new] *)

(** [s.trim_start_matches("0x")]: every leading occurrence. *)
Fixpoint trim_0x (s : string) : string :=
  match s with
  | String "0" (String "x" s') => trim_0x s'
  | _ => s
  end.
Definition hex_digit (c : ascii) : option Z :=
  let n := Z.of_nat (nat_of_ascii c) in
  if (48 <=? n) && (n <=? 57) then Some (n - 48)
  else if (97 <=? n) && (n <=? 102) then Some (n - 87)
  else if (65 <=? n) && (n <=? 70) then Some (n - 55)
  else None.
(** The digits of [u64::from_str_radix(s, 16)], which fails on overflow. *)
Fixpoint hex_digits (acc : Z) (s : string) : option Z :=
  match s with
  | EmptyString => Some acc
  | String c s' =>
      match hex_digit c with
      | Some d => if acc * 16 + d <? 2 ^ 64 then hex_digits (acc * 16 + d) s' else None
      | None => None
      end
  end.
Definition from_str_radix_16 (s : string) : option Z :=
  match s with
  | EmptyString => None
  | String "+" EmptyString => None
  | String "+" s' => hex_digits 0 s'
  | _ => hex_digits 0 s
  end.

Definition configured_misa (misa_override : option string) : Z :=
  match misa_override with
  | None =>
      Z.lor (Z.lor (Z.lor (Z.lor (Z.lor (Z.lor (Z.lor (Z.lor MISA_XLEN_64 MISA_EXT_A) MISA_EXT_C) MISA_EXT_D)
        MISA_EXT_F) MISA_EXT_I) MISA_EXT_M) MISA_EXT_S) MISA_EXT_U
  | Some override_str => default MISA_DEFAULT_RV64IMAFDC (from_str_radix_16 (trim_0x override_str))
  end.

Definition REG_SP : Z := 2.
Definition initial_regs (config : Config) : RegisterFile :=
  if cfg_direct_mode (general config)
  then regs_write regs_new REG_SP (default (add64 (cfg_ram_base (system config)) 0x1000000) (cfg_initial_sp (general config)))
  else regs_new.

Definition hart_new (config : Config) : Cpu := {|
  regs := initial_regs config;
  pc := cfg_start_pc (general config);
  csrs := reset_csrs (cfg_direct_mode (general config)) (configured_misa (pl_misa_override (pipeline config)));
  privilege := Common.Machine;
  load_reservation := None;
  mmu := mmu_new (cfg_tlb_size (memory config)) (cfg_l2_tlb_size (memory config)) (cfg_l2_tlb_ways (memory config))
           (cfg_l2_tlb_latency (memory config)) (cfg_software_ad_bits (memory config));
  pmp := pmp_new;
  l1_i_cache := cache_sim_new (cfg_l1_i (cache config));
  l1_d_cache := cache_sim_new (cfg_l1_d (cache config));
  exit_code := None;
  direct_mode := cfg_direct_mode (general config);
  clint_divider := cfg_clint_divider (system config);
  sw_seip := false;
  cycles := 0; instructions_retired := 0; traps_taken := 0; cycles_user := 0; cycles_kernel := 0; cycles_machine := 0 |}.

Definition commit_stats_zero : CommitStats := Build_CommitStats 0 0 (replicate 4 0) 0 0 0 0 0 0 0 0 0 0 0 0 0 0.
Definition hier_stats_zero : HierStats := Build_HierStats 0 0 0 0 0 0 0 0 0 0 0 0 0.

Local Abbreviation core := (Core SocDevice DynController BranchPredictorWrapper).

(** [None] when the branch predictor refuses its settings. *)
Definition cpu_new (sys : System) (config : Config) : option core :=
  let h := cache config in
  let d := cfg_l1_d h in
  bp ← wrapper_new (bp_settings (pipeline config));
  let '(start, stop) := default (0, 0) (get_ram_info (sys_bus sys)) in
  let filter_size := if bool_decide (cc_prefetcher d <> PfNone) || bool_decide (cc_prefetcher (cfg_l2 h) <> PfNone)
                     then 64 else 0 in
  Some {|
    machine := {|
      cpu := hart_new config; bus := sys_bus sys; controller := sys_mem_controller sys;
      l2_cache := cache_sim_new (cfg_l2 h); l3_cache := cache_sim_new (cfg_l3 h);
      prefetch_filter := filter_new filter_size (cc_line_bytes d); inclusion_policy := cfg_inclusion_policy h;
      hier_stats := hier_stats_zero; wcb := wcb_new (cfg_wcb_entries h) (cc_line_bytes d); branch_predictor := bp;
      ram_start := start; ram_end := stop; htif_range := None;
      committed_next_pc := cfg_start_pc (general config); wfi_waiting := false; wfi_pc := 0; redirect_pending := false;
      pc_trace := []; stats := commit_stats_zero |};
    l1d_mshrs := mshr_new (cc_mshr_count d) (cc_line_bytes d);
    misaligned_access_trap := cfg_misaligned_access_trap (memory config);
    cache_base := cfg_ram_base (system config);
    i_cache_line_bytes := Z.max (cc_line_bytes (cfg_l1_i h)) 1;
    pipeline_width := pl_width (pipeline config);
    pipe_stats := pipe_stats_zero |}.

(** * [Simulator] *)

Inductive PipelineDispatch :=
| PdInOrder (p : PipeState SocDevice DynController BranchPredictorWrapper IoBackend)
| PdOutOfOrder (p : PipeState SocDevice DynController BranchPredictorWrapper O3Backend).
Definition pd_core (p : PipelineDispatch) : core :=
  match p with PdInOrder p => ps_core p | PdOutOfOrder p => ps_core p end.
Definition pd_on_core (f : core -> core) (p : PipelineDispatch) : PipelineDispatch :=
  match p with
  | PdInOrder p => PdInOrder (p <| ps_core := f (ps_core p) |>)
  | PdOutOfOrder p => PdOutOfOrder (p <| ps_core := f (ps_core p) |>)
  end.

(** The fields of [Cpu] that only the checks below use are here. *)
Record Simulator := {
  sim_pipeline : PipelineDispatch;
  sim_last_pc : Z;
  sim_same_pc_count : Z;
  sim_panic_detected_at_cycle : option Z
}.
Definition sim_core (s : Simulator) : core := pd_core (sim_pipeline s).
Definition sim_on_core (f : core -> core) (s : Simulator) : Simulator := s <| sim_pipeline := pd_on_core f (sim_pipeline s) |>.

Definition pipe_new {E} (c : core) (engine : E) : PipeState SocDevice DynController BranchPredictorWrapper E :=
  {| ps_core := c; ps_frontend := frontend_new; ps_engine := engine; ps_rename_output := [] |}.
Definition simulator_new (sys : System) (config : Config) : option Simulator :=
  let p := pipeline config in
  c ← cpu_new sys config;
  Some {|
    sim_pipeline := match pl_backend p with
                    | BkInOrder => PdInOrder (pipe_new c (ib_new (pl_rob_size p) (pl_store_buffer_size p) (pl_width p)))
                    | BkOutOfOrder => PdOutOfOrder (pipe_new c (ob_new (o3_settings p)))
                    end;
    sim_last_pc := 0; sim_same_pc_count := 0; sim_panic_detected_at_cycle := None |}.

(** [sync_arch_regs] *)
Definition sim_sync_arch_regs (s : Simulator) : Simulator :=
  match sim_pipeline s with
  | PdInOrder _ => s
  | PdOutOfOrder p =>
      s <| sim_pipeline := PdOutOfOrder (p <| ps_engine := sync_arch_regs (regs (hart (ps_core p))) (ps_engine p) |>) |>
  end.

(** ** The cycle *)

Definition HANG_DETECTION_THRESHOLD : Z := 5000.
Definition PANIC_GRACE_CYCLES : Z := 10000.

Inductive SimError := KernelPanic (cycle : Z).
(** [StepPanicked]: the simulator itself panics; [StepHung]: the call does not
    return. *)
Inductive SimStep := StepOk (s : Simulator) | StepErr (e : SimError) | StepPanicked | StepHung.

Definition set_bus (b : Interconnect SocDevice) : core -> core := upd_machine (fun m => m <| bus := b |>).

(** The instruction read for the message about a possible hang; only the
    devices notice. *)
Definition hang_probe (c : core) : core :=
  let h := hart c in
  let b := bus (machine c) in
  match tlb_lookup (dtlb (mmu h)) (va_vpn (pc h)) (u16 (satp_asid (satp (csrs h)))) with
  | Some hit => set_bus (bus_read b U32 (Z.lor (page_to_addr (th_ppn hit)) (page_offset (pc h)))).2 c
  | None => if is_valid_addr b (pc h) then set_bus (bus_read b U32 (pc h)).2 c else c
  end.
Definition watch_pc (s : Simulator) : Simulator :=
  if pc (hart (sim_core s)) =? sim_last_pc s then
    let s := s <| sim_same_pc_count := add64 (sim_same_pc_count s) 1 |> in
    if sim_same_pc_count s =? HANG_DETECTION_THRESHOLD then sim_on_core hang_probe s else s
  else s <| sim_last_pc := pc (hart (sim_core s)) |> <| sim_same_pc_count := 0 |>.

(** The tick of the devices, the interrupt lines and the counters. *)
Definition tick_devices (c : core) : core :=
  let '(timer_irq, msip, meip, seip, b) := bus_tick (bus (machine c)) in
  upd_hart (fun h => tick_interrupts h timer_irq msip meip seip) (set_bus b c).
(** [self.stats.cycles / self.clint_divider], reached with Sstc on. *)
Definition divides_by_zero (c : core) : bool :=
  has_bits (menvcfg (csrs (hart c))) MENVCFG_STCE && (clint_divider (hart c) =? 0).

(** Whether an operation of the bus, a device or the memory controller has
    panicked or has not returned. *)
Definition host_panicked (c : core) : bool :=
  sh_failed (shared (bus (machine c))) || match controller (machine c) with CPanicked => true | _ => false end.
Definition host_hung (c : core) : bool :=
  sh_hung (shared (bus (machine c))) || match controller (machine c) with CHung => true | _ => false end.
(** The end of a call that would come to [s]: nothing runs on behind an
    operation that panicked or did not return.  Of several in one cycle, one
    that does not return counts. *)
Definition step_end (s : Simulator) : SimStep :=
  if host_hung (sim_core s) then StepHung else if host_panicked (sim_core s) then StepPanicked else StepOk s.

Inductive PreTick := PtOk (skip : bool) (s : Simulator) | PtErr (e : SimError) | PtPanicked.

(** [pre_tick] *)
Definition pre_tick_run (s : Simulator) : PreTick :=
  let s := watch_pc s in
  if divides_by_zero (sim_core s) then PtPanicked else PtOk false (sim_on_core tick_devices s).
Definition pre_tick (s : Simulator) : PreTick :=
  let b := bus (machine (sim_core s)) in
  match check_exit b with
  | Some code => PtOk true (sim_on_core (upd_hart (fun h => h <| exit_code := Some code |>)) s)
  | None =>
      if check_kernel_panic b then
        let now := cycles (hart (sim_core s)) in
        let detected_at := default now (sim_panic_detected_at_cycle s) in
        let s := s <| sim_panic_detected_at_cycle := Some detected_at |> in
        if PANIC_GRACE_CYCLES <=? Z.max (now - detected_at) 0 then PtErr (KernelPanic detected_at) else pre_tick_run s
      else pre_tick_run s
  end.
(** [post_tick]; the rest of it is tracing. *)
Definition post_tick (s : Simulator) : Simulator :=
  sim_on_core (upd_hart (fun h => h <| regs := regs_write (regs h) 0 0 |>)) s.

Section Tick.
Context `{!FpUnit}.

Definition dispatch_tick (p : PipelineDispatch) : option PipelineDispatch :=
  match p with
  | PdInOrder p => PdInOrder <$> pipeline_tick p
  | PdOutOfOrder p => PdOutOfOrder <$> pipeline_tick p
  end.

(** [Simulator::tick]: the cycle, and whether an operation in it has panicked
    or has not returned. *)
Definition sim_cycle (s : Simulator) : SimStep :=
  match pre_tick s with
  | PtErr e => StepErr e
  | PtPanicked => StepPanicked
  | PtOk true s => StepOk (post_tick s)
  | PtOk false s =>
      match dispatch_tick (sim_pipeline s) with
      | Some p => StepOk (post_tick (s <| sim_pipeline := p |>))
      | None => StepPanicked
      end
  end.
Definition sim_tick (s : Simulator) : SimStep :=
  match sim_cycle s with StepOk s => step_end s | r => r end.

Fixpoint sim_run (n : nat) (s : Simulator) : SimStep :=
  match n with
  | O => StepOk s
  | S n => match sim_tick s with StepOk s => sim_run n s | r => r end
  end.

End Tick.
