(* ===== verification/SystemProps.v ===== *)
(** The constructed system: its memory map, and the whole simulator from a
    configuration on. *)
From stdpp Require Import strings.
From S2P Require Import Prelude Common Rob RobSpec MemDep ScLTage Policy Prefetch Cache Cpu Isa DecodeSpec Dram Soc Uart VirtioDisk Plic Interconnect BusSpec Commit Latches IssueQueue Mshr Core BranchUnits ExecuteSpec O3Tick InOrderTick Pipeline Flight InOrderProps O3Flight O3Props Config System.
Set Primitive Projections.
Local Open Scope Z_scope.

(** * The devices keep their places *)

Lemma dma_write_size (d : VirtioBlock) (sh : Shared) addr data :
  db_size (sh_dram (dma_write d sh addr data)) = db_size (sh_dram sh).
Proof. unfold dma_write. by destruct (dma_in_bounds _ _ _ _). Qed.

Lemma read_data_size (self : VirtioBlock) (t : Transfer) (d : Descriptor) :
  db_size (sh_dram (tf_shared (read_data self t d))) = db_size (sh_dram (tf_shared t)).
Proof. unfold read_data. destruct (_ && _); [apply dma_write_size|done]. Qed.
Lemma write_data_size (self : VirtioBlock) (t : Transfer) (d : Descriptor) :
  tf_shared (write_data self t d) = tf_shared t.
Proof. unfold write_data. by destruct (_ <=? _). Qed.

Lemma run_request_size (self : VirtioBlock) (sh : Shared) (ds : list Descriptor) :
  db_size (sh_dram (tf_shared (run_request self sh ds))) = db_size (sh_dram sh).
Proof.
  unfold run_request. etrans; [apply dma_write_size|].
  destruct (_ =? 4); [done|]. set (t0 := Build_Transfer _ _ _ _). change (sh_dram sh) with (sh_dram (tf_shared t0)).
  generalize t0. generalize (data_descriptors ds). intros l. clear.
  destruct (_ =? 1); induction l as [|d l IH]; intros t; simpl; try done; rewrite IH.
  - by rewrite write_data_size.
  - apply read_data_size.
Qed.

Lemma push_used_size (self : VirtioBlock) (sh : Shared) head len :
  db_size (sh_dram (push_used self sh head len)) = db_size (sh_dram sh).
Proof. unfold push_used. by rewrite !dma_write_size. Qed.

Definition same_place (self self' : VirtioBlock) (sh sh' : Shared) : Prop :=
  vb_base_addr self' = vb_base_addr self /\ db_size (sh_dram sh') = db_size (sh_dram sh).
Lemma same_place_trans s1 s2 s3 sh1 sh2 sh3 :
  same_place s1 s2 sh1 sh2 -> same_place s2 s3 sh2 sh3 -> same_place s1 s3 sh1 sh3.
Proof. intros [] []. split; congruence. Qed.

Lemma some_pair_inj {A B} (a a' : A) (b b' : B) : Some (a, b) = Some (a', b') -> a' = a /\ b' = b.
Proof. by intros [= -> ->]. Qed.

Lemma serve_next_place (self : VirtioBlock) (sh : Shared) self' sh' :
  serve_next self sh = Some (self', sh') -> same_place self self' sh sh'.
Proof.
  unfold serve_next. destruct (_ <=? _); [by intros [-> ->]%some_pair_inj|].
  destruct (walk_chain _ _ _ _ _) as [ds|]; [|done].
  destruct (3 <=? length ds)%nat; cbv beta iota zeta; intros [-> ->]%some_pair_inj; split; try done.
  - by rewrite push_used_size, run_request_size.
  - by rewrite push_used_size.
Qed.

Lemma serve_all_place fuel avail (self : VirtioBlock) (sh : Shared) self' sh' :
  serve_all fuel avail self sh = Some (self', sh') -> same_place self self' sh sh'.
Proof.
  revert self sh. induction fuel as [|fuel IH]; intros self sh; [done|]. cbn [serve_all].
  destruct (_ =? _); [by intros [= <- <-]|]. destruct (serve_next self sh) as [[s1 sh1]|] eqn:E; [|done].
  intros H. apply serve_next_place in E. eapply same_place_trans; [exact E|by apply IH].
Qed.

Lemma process_queue_place (self : VirtioBlock) (sh : Shared) self' sh' :
  process_queue self sh = Some (self', sh') -> same_place self self' sh sh'.
Proof.
  unfold process_queue. destruct (_ =? 0); [by intros [= <- <-]|].
  destruct (serve_all _ _ _ _) as [[s1 sh1]|] eqn:E; [|done]. intros [= <- <-]. by apply serve_all_place in E.
Qed.

Lemma virtio_write_u32_place (self : VirtioBlock) offset val (sh : Shared) :
  let '(self', sh') := virtio_write_u32 self offset val sh in same_place self self' sh sh'.
Proof.
  unfold virtio_write_u32. repeat (destruct (offset =? _); [try done|]); try done.
  set (s1 := self <| queue_notify := val |>).
  destruct (process_queue s1 sh) as [[s2 sh2]|] eqn:E; [|done]. by apply process_queue_place in E.
Qed.
Lemma virtio_write_place (self : VirtioBlock) s offset val (sh : Shared) :
  let '(self', sh') := virtio_write self s offset val sh in same_place self self' sh sh'.
Proof. destruct s; apply virtio_write_u32_place. Qed.

Lemma uart_read_base (u : Uart) s offset : uart_base_addr (uart_read u s offset).2 = uart_base_addr u.
Proof.
  unfold uart_read, uart_read_u8, read_rbr_or_dll, read_iir.
  repeat case_match; done.
Qed.
Lemma uart_write_base (u : Uart) s offset val : uart_base_addr (uart_write u s offset val) = uart_base_addr u.
Proof.
  unfold uart_write, uart_write_u8, write_thr_or_dll, write_ier_or_dlm, uart_check_char_for_panic.
  repeat case_match; simplify_eq; done.
Qed.
Lemma uart_tick_base (u : Uart) : uart_base_addr (uart_tick u).2 = uart_base_addr u.
Proof. unfold uart_tick, uart_check_stdin. repeat case_match; done. Qed.

#[export] Instance soc_device_laws : ExtDeviceLaws SocDevice.
Proof.
  split.
  - intros [u|d] s o sh; [|done]. pose proof (uart_read_base u s o) as H. cbn [ext_read soc_device].
    destruct (uart_read u s o) as [v u']. split_and!; [done|exact (f_equal (fun b => (b, 0x100)) H)|done].
  - intros [u|d] s o v sh; cbn [ext_write soc_device].
    + split_and!; [done|exact (f_equal (fun b => (b, 0x100)) (uart_write_base u s o v))|done].
    + pose proof (virtio_write_place d s o v sh) as H. destruct (virtio_write d s o v sh) as [d' sh'].
      destruct H as [Hb Hs]. split_and!; [done|exact (f_equal (fun b => (b, 0x1000)) Hb)|exact Hs].
  - intros [u|d] sh; [|done]. pose proof (uart_tick_base u) as H. cbn [ext_tick soc_device].
    destruct (uart_tick u) as [i u']. split_and!; [done|exact (f_equal (fun b => (b, 0x100)) H)|done].
Qed.

(** * The memory map *)

Definition memory_map (config : Config) : list (string * (Z * Z)) :=
  let s := system config in
  [("DRAM", (cfg_ram_base s, cfg_ram_size (memory config))); ("UART0", (cfg_uart_base s, 0x100));
   ("VirtIO-Blk", (cfg_disk_base s, 0x1000)); ("CLINT", (cfg_clint_base s, 0x10000)); ("PLIC", (PLIC_ADDR, 0x4000000));
   ("SysCon", (cfg_syscon_base s, 0x1000)); ("GoldfishRTC", (RTC_ADDR, 0x1000))]%string.
(** The HTIF device lies over the others. *)
Definition htif_map (config : Config) : list (string * (Z * Z)) :=
  if negb (cfg_tohost_addr (system config) =? 0) then [("HTIF"%string, (cfg_tohost_addr (system config), 16))] else [].

Definition covers (r : Z * Z) (raw : Z) : Prop := r.1 <= raw < r.1 + r.2.
Definition apart_spans (r1 r2 : Z * Z) : Prop := r1.1 + r1.2 <= r2.1 \/ r2.1 + r2.2 <= r1.1.
Fixpoint all_apart (l : list (string * (Z * Z))) : Prop :=
  match l with
  | [] => True
  | s :: l => Forall (fun t => apart_spans s.2 t.2) l /\ all_apart l
  end.
(** No two devices overlap, and none reaches the end of the address space. *)
Definition map_ok (config : Config) : Prop :=
  all_apart (memory_map config) /\
  Forall (fun s => 0 <= s.2.1 /\ 0 <= s.2.2 /\ s.2.1 + s.2.2 < 2 ^ 64) (memory_map config ++ htif_map config).
#[export] Instance covers_dec r raw : Decision (covers r raw).
Proof. unfold covers. apply _. Defined.
#[export] Instance all_apart_dec l : Decision (all_apart l).
Proof. induction l; simpl; unfold apart_spans; apply _. Defined.
#[export] Instance map_ok_dec config : Decision (map_ok config).
Proof. unfold map_ok. apply _. Defined.

Lemma in_span_covers raw r : 0 <= r.1 -> 0 <= r.2 -> r.1 + r.2 < 2 ^ 64 -> in_span raw r = true <-> covers r raw.
Proof.
  intros. unfold in_span, covers, add64. rewrite wrap_small by (unfold in_width; lia).
  rewrite andb_true_iff, Z.leb_le, Z.ltb_lt. done.
Qed.

Lemma all_apart_unique l raw : all_apart l -> (length (filter (fun s => covers s.2 raw) l) <= 1)%nat.
Proof.
  induction l as [|s l IH]; [simpl; lia|]. intros [Hs Hl]. rewrite filter_cons. case_decide as Hc; [|by apply IH].
  assert (filter (fun s => covers s.2 raw) l = []) as ->; [|simpl; lia].
  clear IH Hl. induction l as [|t l IH]; [done|]. apply Forall_cons in Hs as [Ht Hs]. rewrite filter_cons, decide_False; [by apply IH|].
  unfold covers, apart_spans in *. lia.
Qed.

Lemma system_sigs config disk_data :
  sig (cfg_ram_size (memory config)) <$> system_devices config disk_data = memory_map config ++ htif_map config.
Proof.
  unfold system_devices, memory_map, htif_map.
  assert (H : vb_base_addr (match disk_data with Some ((_ :: _) as data) => virtio_load (virtio_new (cfg_disk_base (system config)) (cfg_ram_base (system config))) data
            | _ => virtio_new (cfg_disk_base (system config)) (cfg_ram_base (system config)) end) = cfg_disk_base (system config))
    by by destruct disk_data as [[|]|].
  rewrite fmap_app. f_equal; [|by destruct (negb _)]. unfold sig. cbn [fmap list_fmap dev_name dev_range ext_name ext_range soc_device].
  by rewrite H.
Qed.

Lemma system_layout config : map_ok config -> layout_ok (memory_map config ++ htif_map config).
Proof.
  intros [Ha Hf]. apply Forall_app in Hf as [Hf _]. unfold layout_ok. split.
  - rewrite filter_app, length_app. unfold htif_map. destruct (negb _); vm_compute; repeat constructor.
  - intros raw. etrans; [|exact (all_apart_unique (memory_map config) raw Ha)]. unfold claiming.
    rewrite filter_app, length_app.
    assert (filter (fun s => s.1 <> "HTIF"%string /\ in_span raw s.2 = true) (htif_map config) = []) as ->.
    { unfold htif_map. destruct (negb _); [|done]. rewrite filter_cons, decide_False; [done|]. intros [H _]. by apply H. }
    rewrite Nat.add_0_r. clear Ha. induction Hf as [|s l (H0 & H1 & H2) Hf IH]; [done|].
    rewrite !filter_cons. destruct (decide (covers s.2 raw)) as [Hc|Hc].
    + case_decide; simpl; lia.
    + rewrite decide_False; [done|]. rewrite in_span_covers by done. tauto.
Qed.

Lemma htif_map_inv config s : s ∈ htif_map config -> htif_map config = [s] /\ s.1 = "HTIF"%string.
Proof. unfold htif_map. destruct (negb _); [|by intros H%not_elem_of_nil]. by intros ->%list_elem_of_singleton. Qed.
Lemma memory_map_not_htif config s : s ∈ memory_map config -> s.1 <> "HTIF"%string.
Proof.
  intros Hs. assert (F : Forall (fun s => s.1 <> "HTIF"%string) (memory_map config)) by (unfold memory_map; by repeat constructor).
  rewrite Forall_forall in F. by apply F.
Qed.
Lemma memory_map_dram config s :
  s ∈ memory_map config -> s.1 = "DRAM"%string -> s = ("DRAM"%string, (cfg_ram_base (system config), cfg_ram_size (memory config))).
Proof. intros Hs Hn. assert (F : Forall (fun s => s.1 = "DRAM"%string -> s = ("DRAM"%string, (cfg_ram_base (system config), cfg_ram_size (memory config)))) (memory_map config)) by (unfold memory_map; by repeat constructor).
  rewrite Forall_forall in F. by apply F. Qed.

(** The device at an address, by its name and range. *)
Definition reaches (b : Interconnect SocDevice) (raw : Z) (s : string * (Z * Z)) : Prop :=
  exists i d, (find_device b raw).1 = Some i /\ devices b !! i = Some d /\
    dev_name d = s.1 /\ dev_range (shared b) d = s.2.

Lemma sigs_device (b : Interconnect SocDevice) s :
  s ∈ sigs b -> exists i d, devices b !! i = Some d /\ dev_name d = s.1 /\ dev_range (shared b) d = s.2.
Proof.
  unfold sigs. intros (d & -> & Hd)%list_elem_of_fmap. apply list_elem_of_lookup in Hd as [i Hi].
  exists i, d. by rewrite sig_range.
Qed.

Section MemoryMap.
Context (config : Config) (disk_data : option (list Z)) (ops : list bus_op).
Hypothesis Hok : map_ok config.
Local Abbreviation b0 := (sys_bus (system_new config disk_data)).
Local Abbreviation b := (foldl bus_exec b0 ops).

Lemma system_sigs_perm : sigs b ≡ₚ memory_map config ++ htif_map config.
Proof.
  destruct (bus_run_keeps b0 ops) as (-> & _).
  unfold system_new. cbn [sys_bus]. rewrite <-system_sigs with (disk_data := disk_data).
  apply (build_shape _ _ (shared_new (cfg_ram_size (memory config)))).
Qed.

Lemma system_bus_wf : bus_wf b.
Proof.
  eapply keeps_wf; [apply bus_run_keeps|]. apply (build_wf _ _ (shared_new (cfg_ram_size (memory config)))).
  change (db_size (sh_dram (shared_new ?n))) with n. rewrite system_sigs. by apply system_layout.
Qed.

Lemma sig_span (s : string * (Z * Z)) (raw : Z) :
  s ∈ memory_map config ++ htif_map config -> in_span raw s.2 = true <-> covers s.2 raw.
Proof.
  intros Hs. destruct Hok as [_ Hf]. rewrite Forall_forall in Hf. destruct (Hf s Hs) as (? & ? & ?). by apply in_span_covers.
Qed.

Lemma device_covers i d raw :
  devices b !! i = Some d -> in_range (shared b) raw d = true ->
  exists s, s ∈ memory_map config ++ htif_map config /\ covers s.2 raw /\ dev_name d = s.1 /\ dev_range (shared b) d = s.2.
Proof.
  intros Hi Hr. assert (Hs : sig (db_size (sh_dram (shared b))) d ∈ sigs b).
  { eapply list_elem_of_lookup_2. by apply sigs_lookup. }
  rewrite system_sigs_perm in Hs. exists (sig (db_size (sh_dram (shared b))) d).
  split; [done|]. split; [apply sig_span; [done|by rewrite sig_range]|]. by rewrite sig_range.
Qed.
Lemma covered_device s raw :
  s ∈ memory_map config ++ htif_map config -> covers s.2 raw ->
  exists i d, devices b !! i = Some d /\ in_range (shared b) raw d = true /\ dev_name d = s.1 /\ dev_range (shared b) d = s.2.
Proof.
  intros Hs Hc. pose proof Hs as Hs'. rewrite <-system_sigs_perm in Hs'. destruct (sigs_device _ _ Hs') as (i & d & Hi & Hn & Hr).
  exists i, d. split_and!; try done. unfold in_range. rewrite Hr. by apply sig_span.
Qed.

Lemma reaches_covered s raw :
  s ∈ memory_map config -> covers s.2 raw -> (forall t, t ∈ htif_map config -> ~ covers t.2 raw) -> reaches b raw s.
Proof.
  intros Hs Hc Hh. destruct (covered_device s raw) as (i & d & Hi & Hr & Hn & Hrg); [by apply elem_of_app; left|done|].
  destruct (find_device_routes b raw system_bus_wf) as [_ R]. destruct (find_device b raw).1 as [j|] eqn:Ef.
  - destruct R as (e & Hj & He & [Hx|Hu]).
    + exfalso. destruct (device_covers j e raw Hj He) as (t & Ht & Hct & Hnt & _).
      apply elem_of_app in Ht as [Ht|Ht]; [|by apply (Hh t)]. rewrite Hx in Hnt. by apply (memory_map_not_htif _ _ Ht).
    + pose proof (Hu i d Hi Hr) as ->. by exists j, d.
  - by rewrite (R i d Hi) in Hr.
Qed.

Lemma reaches_htif s raw : s ∈ htif_map config -> covers s.2 raw -> reaches b raw s.
Proof.
  intros Hs Hc. assert (Hs' : s ∈ sigs b) by (rewrite system_sigs_perm; apply elem_of_app; by right).
  destruct (htif_map_inv _ _ Hs) as [Hm Hn].
  pose proof (wf_htif_idx _ system_bus_wf) as Hx. unfold name_idx in Hx.
  destruct (list_find (fun s => s.1 = "HTIF"%string) (sigs b)) as [[i t]|] eqn:E.
  - apply list_find_Some in E as (Hi & Ht & _).
    assert (t = s) as ->.
    { assert (Hti : t ∈ memory_map config ++ htif_map config) by (rewrite <-system_sigs_perm; by eapply list_elem_of_lookup_2).
      apply elem_of_app in Hti as [Hti|Hti]; [by apply memory_map_not_htif in Hti|].
      rewrite Hm in Hti. by apply list_elem_of_singleton in Hti. }
    unfold sigs in Hi. rewrite list_lookup_fmap in Hi. destruct (devices b !! i) as [d|] eqn:Hd; [|done].
    apply (inj Some) in Hi. exists i, d. split; [|split; [exact Hd|by rewrite <-Hi, sig_range]].
    unfold find_device. rewrite Hx. cbn [fmap option_fmap option_map fst claims_opt]. unfold claims_addr. rewrite Hd.
    assert (in_range (shared b) raw d = true) as ->; [|done].
    unfold in_range. rewrite <-sig_range, Hi. apply sig_span; [apply elem_of_app; by right|done].
  - apply list_find_None in E. rewrite Forall_forall in E. by destruct (E s Hs').
Qed.

Lemma reaches_nothing raw :
  (forall s, s ∈ memory_map config ++ htif_map config -> ~ covers s.2 raw) ->
  (find_device b raw).1 = None /\ is_valid_addr b raw = false.
Proof.
  intros Hn. assert (H : forall i d, devices b !! i = Some d -> in_range (shared b) raw d = false).
  { intros i d Hi. apply not_true_iff_false. intros Hr. destruct (device_covers i d raw Hi Hr) as (s & Hs & Hc & _). by apply (Hn s). }
  split; [|apply not_true_iff_false; rewrite is_valid_addr_iff; intros (i & d & Hi & Hd); by rewrite (H i d Hi) in Hd].
  destruct (find_device_routes b raw system_bus_wf) as [_ R]. destruct (find_device b raw).1 as [i|]; [|done].
  destruct R as (d & Hi & Hd & _). by rewrite (H i d Hi) in Hd.
Qed.

Lemma system_ram_info :
  get_ram_info b = Some (cfg_ram_base (system config), cfg_ram_base (system config) + cfg_ram_size (memory config)).
Proof.
  pose proof (wf_ram_idx _ system_bus_wf) as Hx. pose proof system_sigs_perm as Hp. revert Hx Hp. generalize b. intros bus Hx Hp.
  unfold name_idx in Hx. unfold get_ram_info. rewrite Hx.
  set (s := ("DRAM"%string, (cfg_ram_base (system config), cfg_ram_size (memory config)))).
  assert (Hin : s ∈ sigs bus) by (rewrite Hp; apply elem_of_app; left; left).
  destruct (list_find (fun s => s.1 = "DRAM"%string) (sigs bus)) as [[i t]|] eqn:E.
  - apply list_find_Some in E as (Hi & Ht & _). cbn [fmap option_fmap option_map fst mbind option_bind].
    assert (t = s) as ->.
    { assert (Hti : t ∈ memory_map config ++ htif_map config) by (rewrite <-Hp; by eapply list_elem_of_lookup_2).
      apply elem_of_app in Hti as [Hti|Hti]; [by apply memory_map_dram in Hti|].
      apply htif_map_inv in Hti as [_ Hti]. congruence. }
    unfold sigs in Hi. rewrite list_lookup_fmap in Hi. destruct (devices bus !! i) as [d|] eqn:Hd; [|done].
    apply (inj Some) in Hi. destruct Hok as [_ Hf].
    destruct d as [base|c|p|base|base|base|[u|d]]; try (apply (f_equal fst) in Hi; discriminate Hi).
    injection Hi as -> Hsz. rewrite Hsz. f_equal. f_equal. apply wrap_small. unfold in_width.
    apply Forall_app in Hf as [Hf _]. unfold memory_map in Hf. apply Forall_cons in Hf as [(? & ? & ?) _]. simpl in *. lia.
  - apply list_find_None in E. rewrite Forall_forall in E. by destruct (E s Hin).
Qed.

End MemoryMap.


(** * The whole simulator *)

Section Simulator.
Context {FU : FpUnit}.
Local Abbreviation core := (Core SocDevice DynController BranchPredictorWrapper).

(** The instructions in flight and where they are, for either engine: the
    places are those of [covered] for the pipelines, and what waits to issue
    fits the issue queue. *)
Definition sim_accounted (s : Simulator) : Prop :=
  match sim_pipeline s with
  | PdInOrder p =>
      let st := {| ns_core := ps_core p; ns_back := ps_engine p; ns_rename := ps_rename_output p |} in
      covered (rob_queue (ib_rob (ps_engine p))) (io_waiting st ++ io_moving st) /\
      (length (io_waiting st) <= iu_capacity (ib_issuer (ps_engine p)))%nat
  | PdOutOfOrder p =>
      let st := {| os_core := ps_core p; os_back := ps_engine p; os_rename := ps_rename_output p |} in
      covered (rob_queue (ob_rob (ps_engine p))) (o3_places st) /\
      (length (ps_rename_output p) + iq_count (ob_iq (ps_engine p)) <= iq_capacity (ob_iq (ps_engine p)))%nat
  end.

Definition sim_good (w : nat) (n : Z) (s : Simulator) : Prop :=
  match sim_pipeline s with
  | PdInOrder p => good_pipe (io_good w) n p
  | PdOutOfOrder p => good_pipe (o3_good w) n p
  end.

Lemma sim_good_accounted w n s : sim_good w n s -> sim_accounted s.
Proof.
  unfold sim_good, sim_accounted. destruct (sim_pipeline s) as [p|p].
  - intros [_ H _ _ R _]. by split.
  - intros [_ H L _]. split; [exact H|exact (ol_room _ _ _ L)].
Qed.

Lemma sim_good_core w n (f : core -> core) s :
  (forall c, l1d_mshrs (f c) = l1d_mshrs c) -> sim_good w n s -> sim_good w n (sim_on_core f s).
Proof.
  intros Hf. unfold sim_good. destruct s as [[p|p] l k d]; cbn.
  - intros H. exact (el_core _ _ (io_laws w) n _ _ _ _ H (Hf _)).
  - intros H. exact (el_core _ _ (o3_laws w) n _ _ _ _ H (Hf _)).
Qed.

Lemma tick_devices_mshrs (c : core) : l1d_mshrs (tick_devices c) = l1d_mshrs c.
Proof. unfold tick_devices. by destruct (bus_tick _) as [[[[]]]]. Qed.
Lemma hang_probe_mshrs (c : core) : l1d_mshrs (hang_probe c) = l1d_mshrs c.
Proof. unfold hang_probe. by repeat case_match. Qed.

Lemma watch_pc_good w n s : sim_good w n s -> sim_good w n (watch_pc s).
Proof.
  intros H. unfold watch_pc. destruct (_ =? sim_last_pc s); [|exact H].
  destruct (_ =? HANG_DETECTION_THRESHOLD); [|exact H]. by apply sim_good_core; [apply hang_probe_mshrs|].
Qed.

(** What the checks before the pipeline do: the cycle goes on, or a panic of
    the guest has been on the console for long enough, or the simulator divides
    by a zero clock divider. *)
Lemma pre_tick_good w n s :
  sim_good w n s ->
  match pre_tick s with
  | PtOk _ s' => sim_good w n s'
  | PtErr _ => check_kernel_panic (bus (machine (sim_core s))) = true
  | PtPanicked => divides_by_zero (sim_core (watch_pc s)) = true
  end.
Proof.
  intros H. unfold pre_tick.
  assert (R : forall s1, sim_pipeline s1 = sim_pipeline s -> sim_last_pc s1 = sim_last_pc s -> sim_same_pc_count s1 = sim_same_pc_count s ->
    match pre_tick_run s1 with PtOk _ s' => sim_good w n s'
    | PtErr _ => check_kernel_panic (bus (machine (sim_core s))) = true
    | PtPanicked => divides_by_zero (sim_core (watch_pc s)) = true end).
  { intros s1 Hp Hl Hk. unfold pre_tick_run.
    assert (sim_core (watch_pc s1) = sim_core (watch_pc s)) as ->.
    { destruct s1 as [p1 l1 k1 d1], s as [p l k d]. cbn in Hp, Hl, Hk. subst. unfold watch_pc, sim_core; cbn.
      destruct (_ =? l); [|done]. by destruct (_ =? HANG_DETECTION_THRESHOLD). }
    destruct (divides_by_zero _) eqn:E; [done|]. apply sim_good_core; [apply tick_devices_mshrs|].
    apply watch_pc_good. unfold sim_good in *. by rewrite Hp. }
  destruct (check_exit _) as [code|]; [by apply sim_good_core|].
  destruct (check_kernel_panic _) eqn:Ek; [|by apply R]. destruct (PANIC_GRACE_CYCLES <=? _); [done|by apply R].
Qed.

Lemma dispatch_good w n s :
  sim_good w n s -> 0 <= n -> n + Z.of_nat w < TAG_SPAN ->
  exists p n', dispatch_tick (sim_pipeline s) = Some p /\ n <= n' <= n + Z.of_nat w /\ sim_good w n' (s <| sim_pipeline := p |>).
Proof.
  unfold sim_good, dispatch_tick. destruct (sim_pipeline s) as [p|p]; intros H Hn Hw.
  - destruct (pipeline_tick_good w _ (io_laws w) n p H Hn Hw) as (p' & n' & E & Hn' & H'). exists (PdInOrder p'), n'. by rewrite E.
  - destruct (pipeline_tick_good w _ (o3_laws w) n p H Hn Hw) as (p' & n' & E & Hn' & H'). exists (PdOutOfOrder p'), n'. by rewrite E.
Qed.

(** How a run ends before its time: the guest has reported a kernel panic; the
    simulator panics in the cycle after [s], by a division by the clock divider
    or in an operation of the bus, a device or the memory controller; or such an
    operation does not return. *)
Definition stopped_by (s : Simulator) (r : SimStep) : Prop :=
  match r with
  | StepOk _ => False
  | StepErr _ => check_kernel_panic (bus (machine (sim_core s))) = true
  | StepPanicked =>
      divides_by_zero (sim_core (watch_pc s)) = true \/
      exists s', sim_cycle s = StepOk s' /\ host_panicked (sim_core s') = true
  | StepHung => exists s', sim_cycle s = StepOk s' /\ host_hung (sim_core s') = true
  end.

(** One cycle comes to an accounted state or stops. *)
Lemma sim_tick_good w n s :
  sim_good w n s -> 0 <= n -> n + Z.of_nat w < TAG_SPAN ->
  match sim_tick s with
  | StepOk s' => exists n', n <= n' <= n + Z.of_nat w /\ sim_good w n' s'
  | r => stopped_by s r
  end.
Proof.
  intros Hs Hn Hw. pose proof (pre_tick_good w n s Hs) as P.
  assert (G : forall s' n', sim_cycle s = StepOk s' -> sim_good w n' s' -> n <= n' <= n + Z.of_nat w ->
    match step_end s' with StepOk s' => exists n', n <= n' <= n + Z.of_nat w /\ sim_good w n' s' | r => stopped_by s r end).
  { intros s' n' E H' Hn'. unfold step_end. destruct (host_hung _) eqn:Eh; [by exists s'|].
    destruct (host_panicked _) eqn:Ep; [right; by exists s'|by exists n']. }
  unfold sim_tick, sim_cycle in *. destruct (pre_tick s) as [[|] s1|e|]; [| |exact P|by left].
  - apply (G _ n); [done| |lia]. by apply sim_good_core.
  - destruct (dispatch_good w n s1 P Hn Hw) as (p & n1 & E & Hn1 & H1). rewrite E in *.
    apply (G _ n1); [done| |done]. by apply sim_good_core.
Qed.

Lemma sim_run_good w cycles n s :
  sim_good w n s -> 0 <= n -> n + Z.of_nat (cycles * w) < TAG_SPAN ->
  match sim_run cycles s with
  | StepOk s' => exists n', sim_good w n' s'
  | r => exists k s', (k < cycles)%nat /\ sim_run k s = StepOk s' /\ stopped_by s' r
  end.
Proof.
  revert n s. induction cycles as [|cycles IH]; intros n s Hs Hn Hw; [by exists n|]. cbn [sim_run].
  pose proof (sim_tick_good w n s Hs Hn ltac:(lia)) as T. destruct (sim_tick s) as [s1|e| |] eqn:E;
    [|exists 0%nat, s; (split; [lia|by split])..].
  destruct T as (n1 & Hn1 & H1). specialize (IH n1 s1 H1 ltac:(lia) ltac:(lia)).
  destruct (sim_run cycles s1); [done|..]; destruct IH as (k & s' & Hk & Ek & St);
    exists (S k), s'; (split; [lia|]); cbn [sim_run]; by rewrite E.
Qed.

(** What the code needs of a configuration: queues with room, a return stack,
    for SC-L-TAGE more than one entry in the corrector's tables (with one its
    history folding does not end), for the store sets table sizes that are not
    zero, as 16-bit numbers in the case of the second. *)
Definition pipeline_ok (p : PipelineConfig) : Prop :=
  (0 < pl_rob_size p)%nat /\ (0 < pl_ras_size p)%nat /\
  (pl_branch_predictor p = BpScLTage -> 2 <= scc_table_size (pl_sc p))%nat /\
  match pl_backend p with
  | BkInOrder => True
  | BkOutOfOrder =>
      (0 < pl_load_queue_size p)%nat /\
      (pl_mem_dep_predictor p = MdStoreSet ->
         (0 < ssit_size (pl_store_set p))%nat /\ Z.of_nat (lfst_size (pl_store_set p)) mod 2 ^ 16 <> 0)
  end.
#[export] Instance MdpType_eq_dec : EqDecision MdpType.
Proof. solve_decision. Defined.
#[export] Instance pipeline_ok_dec p : Decision (pipeline_ok p).
Proof. unfold pipeline_ok. destruct (pl_backend p); apply _. Defined.

Lemma cpu_new_mshrs sys config c :
  cpu_new sys config = Some c -> exists misses line, l1d_mshrs c = mshr_new misses line.
Proof.
  unfold cpu_new. intros (bp & _ & H)%bind_Some. destruct (default (0, 0) _) as [start stop].
  apply (inj Some) in H as <-. by eexists _, _.
Qed.

Lemma simulator_new_good sys config s :
  pipeline_ok (pipeline config) -> simulator_new sys config = Some s ->
  sim_good (pl_width (pipeline config)) 0 (sim_sync_arch_regs s).
Proof.
  intros (Hr & _ & _ & Hb) (c & Hc & H)%bind_Some. apply (inj Some) in H as <-.
  destruct (cpu_new_mshrs _ _ _ Hc) as (misses & line & Hm). unfold sim_good, sim_sync_arch_regs. cbn [sim_pipeline].
  destruct (pl_backend (pipeline config)); cbn [sim_pipeline].
  - by apply io_start_good with misses line.
  - destruct Hb as [Hb _]. pose proof (o3_start_good (P := BranchPredictorWrapper) (M := DynController) (X := SocDevice) c (o3_settings (pipeline config)) misses line Hr Hb Hm) as G.
    destruct G as [F1 F2 [L1 L2 L3 L4 L5 L6] [O1 O2]].
    split; [exact F1|exact F2|split; [exact L1|exact L2|exact L3|exact L4|exact L5|exact L6]|split; [exact O1|exact O2]].
Qed.


End Simulator.

(** ** The default machine with caches, a second issue slot and the largest
    predictors, and the program of [Pipeline] in its RAM *)

Definition demo_cache_config (mshrs : nat) : CacheConfig :=
  cache_default <| cc_enabled := true |> <| cc_ways := 2%nat |> <| cc_mshr_count := mshrs |>.
Definition demo_sim_config (backend : BackendType) : Config :=
  config_default
    <| pipeline := pipeline_default <| pl_backend := backend |> <| pl_width := 2%nat |>
         <| pl_branch_predictor := BpScLTage |> <| pl_mem_dep_predictor := MdStoreSet |> |>
    <| cache := hierarchy_default <| cfg_l1_i := demo_cache_config 0 |> <| cfg_l1_d := demo_cache_config 4 |> |>.
Definition demo_system (config : Config) (prog : list instr) : System :=
  let sys := system_new config None in
  sys <| sys_bus := load_binary_at (sys_bus sys) (omap encode prog ≫= le_bytes 4) (cfg_ram_base (system config)) |>.
Definition demo_sim (backend : BackendType) : option Simulator :=
  simulator_new (demo_system (demo_sim_config backend) demo_program) (demo_sim_config backend).

Definition sim_registers (rs : list Z) (r : SimStep) : option (list Z) :=
  match r with StepOk s => Some ((fun r => regs_read (regs (hart (sim_core s))) r) <$> rs) | _ => None end.

Example simulators_run_program :
  (fun backend => s ← demo_sim backend;
     sim_registers [5; 6; 7; 8; 9; 11; 12; 13; 14] (sim_run 600 (sim_sync_arch_regs s))) <$> [BkInOrder; BkOutOfOrder] =
  let rs := Some [15; 0; 0x80000008; 15; 15; 30; 0; 30; 0] in [rs; rs].
Proof. vm_compute. reflexivity. Qed.

(** In flight without a result, waiting to issue, parked in a miss register. *)
Definition sim_counts (s : Simulator) : list nat :=
  match sim_pipeline s with
  | PdInOrder p => []
  | PdOutOfOrder p =>
      [length (filter (fun e => re_state e = Issued) (rob_queue (ob_rob (ps_engine p))));
       length (iq_live (ob_iq (ps_engine p))); length (parked_tags (l1d_mshrs (ps_core p)))]
  end.

