(* ===== verification/Fpu.v ===== *)
(** The floating-point unit ([core/units/fpu/*.rs]).  Values are bit patterns;
    the operations of [f32] and [f64] are those of IEEE 754 with rounding to
    nearest even, on the unpacked numbers of [SpecFloat].  Two things belong to
    the host and are operations of the class [HostFp]: the pattern of a NaN
    result, which Rust leaves open, and the exception flags libc reports. *)
From Stdlib Require Import SpecFloat.
From S2P Require Import Prelude Common Core.
Set Primitive Projections.
Local Open Scope Z_scope.

(** * Formats *)

(** [fmt_ew] bits of exponent and [fmt_mw] of fraction. *)
Record Format := { fmt_ew : Z; fmt_mw : Z }.
Definition F32 : Format := {| fmt_ew := 8; fmt_mw := 23 |}.
Definition F64 : Format := {| fmt_ew := 11; fmt_mw := 52 |}.
Definition fmt_prec (f : Format) : Z := fmt_mw f + 1.
Definition fmt_emax (f : Format) : Z := 2 ^ (fmt_ew f - 1).
Definition fmt_emin (f : Format) : Z := emin (fmt_prec f) (fmt_emax f).
Definition fmt_width (f : Format) : Z := fmt_ew f + fmt_mw f + 1.
(** The exponent field of infinities and NaNs. *)
Definition fmt_top (f : Format) : Z := 2 ^ fmt_ew f - 1.

Definition exp_field (f : Format) (bits : Z) : Z := Z.land (Z.shiftr bits (fmt_mw f)) (fmt_top f).
Definition frac_field (f : Format) (bits : Z) : Z := Z.land bits (2 ^ fmt_mw f - 1).
Definition sign_field (f : Format) (bits : Z) : bool := Z.testbit bits (fmt_width f - 1).
Definition sign_bit (f : Format) : Z := 2 ^ (fmt_width f - 1).

(** [from_bits] *)
Definition unpack (f : Format) (bits : Z) : spec_float :=
  let s := sign_field f bits in
  let e := exp_field f bits in
  let m := frac_field f bits in
  if e =? fmt_top f then if m =? 0 then S754_infinity s else S754_nan
  else match (if e =? 0 then m else m + 2 ^ fmt_mw f) with
       | Zpos p => S754_finite s p (if e =? 0 then fmt_emin f else e - 1 + fmt_emin f)
       | _ => S754_zero s
       end.

(** [to_bits], for a NaN of pattern [nan]. *)
Definition fields (f : Format) (s : bool) (e m : Z) : Z := (if s then sign_bit f else 0) + e * 2 ^ fmt_mw f + m.
Definition pack (f : Format) (nan : Z) (x : spec_float) : Z :=
  match x with
  | S754_nan => nan
  | S754_zero s => fields f s 0 0
  | S754_infinity s => fields f s (fmt_top f) 0
  | S754_finite s m e =>
      if Zpos m <? 2 ^ fmt_mw f then fields f s 0 (Zpos m)
      else fields f s (e - fmt_emin f + 1) (Zpos m - 2 ^ fmt_mw f)
  end.

Definition is_nan (f : Format) (bits : Z) : bool := (exp_field f bits =? fmt_top f) && negb (frac_field f bits =? 0).

(** * NaN handling ([nan_handling.rs]) *)

Definition CANONICAL_NAN_F32 : Z := 0x7fc00000.
Definition CANONICAL_NAN_F64 : Z := 0x7ff8000000000000.
Definition BOX_MASK : Z := 0xFFFFFFFF00000000.
Definition canonical_nan (f : Format) : Z := Z.shiftl (fmt_top f) (fmt_mw f) + 2 ^ (fmt_mw f - 1).

Definition box_f32 (bits : Z) : Z := Z.lor bits BOX_MASK.
Definition box_f32_canon (bits : Z) : Z :=
  let bits := if (Z.land bits 0x7F800000 =? 0x7F800000) && negb (Z.land bits 0x007FFFFF =? 0) then CANONICAL_NAN_F32 else bits in
  Z.lor bits BOX_MASK.
Definition canonicalize_f64_bits (bits : Z) : Z :=
  if (Z.land bits 0x7FF0000000000000 =? 0x7FF0000000000000) && negb (Z.land bits 0x000FFFFFFFFFFFFF =? 0)
  then CANONICAL_NAN_F64 else bits.
Definition unbox_f32 (val : Z) : Z :=
  if Z.land val BOX_MASK =? BOX_MASK then u32 val else CANONICAL_NAN_F32.
Definition canonicalize_f32 (bits : Z) : Z := if is_nan F32 bits then CANONICAL_NAN_F32 else bits.
Definition canonicalize_f64 (bits : Z) : Z := if is_nan F64 bits then CANONICAL_NAN_F64 else bits.

(** [a.min(b)] and [a.max(b)] of two numbers. *)
Definition num_min (f : Format) (a b : Z) : Z := if SFleb (unpack f a) (unpack f b) then a else b.
Definition num_max (f : Format) (a b : Z) : Z := if SFleb (unpack f b) (unpack f a) then a else b.
Definition fmin (f : Format) (a b : Z) : Z :=
  match is_nan f a, is_nan f b with
  | true, true => canonical_nan f
  | true, false => b
  | false, true => a
  | false, false =>
      if (a =? sign_bit f) && (b =? 0) then a
      else if (b =? sign_bit f) && (a =? 0) then b
      else num_min f a b
  end.
Definition fmax (f : Format) (a b : Z) : Z :=
  match is_nan f a, is_nan f b with
  | true, true => canonical_nan f
  | true, false => b
  | false, true => a
  | false, false =>
      if (a =? 0) && (b =? sign_bit f) then a
      else if (b =? 0) && (a =? sign_bit f) then b
      else num_max f a b
  end.
Definition fmin_f32 := fmin F32.
Definition fmin_f64 := fmin F64.
Definition fmax_f32 := fmax F32.
Definition fmax_f64 := fmax F64.

(** * Exception flags ([exception_flags.rs]) *)

Definition FP_NONE : Z := 0.
Definition FP_NV : Z := 2 ^ 4.
Definition FP_DZ : Z := 2 ^ 3.
Definition FP_OF : Z := 2 ^ 2.
Definition FP_UF : Z := 2 ^ 1.
Definition FP_NX : Z := 2 ^ 0.
Definition FE_INEXACT : Z := 0x20.
Definition FE_UNDERFLOW : Z := 0x10.
Definition FE_OVERFLOW : Z := 0x08.
Definition FE_DIVBYZERO : Z := 0x04.
Definition FE_INVALID : Z := 0x01.
(** [read_host_fp_flags] on what [fetestexcept] returned. *)
Definition read_host_fp_flags (host : Z) : Z :=
  let flags := FP_NONE in
  let flags := if has_bits host FE_INVALID then Z.lor flags FP_NV else flags in
  let flags := if has_bits host FE_DIVBYZERO then Z.lor flags FP_DZ else flags in
  let flags := if has_bits host FE_OVERFLOW then Z.lor flags FP_OF else flags in
  let flags := if has_bits host FE_UNDERFLOW then Z.lor flags FP_UF else flags in
  if has_bits host FE_INEXACT then Z.lor flags FP_NX else flags.

(** The host: [fetestexcept] after an operation on these operands with all
    flags cleared before it, and the pattern of a NaN in a format, which may
    depend on the operation and its operands. *)
Class HostFp := {
  host_flags : AluOp -> Z -> Z -> Z -> bool -> Z;
  host_nan : Format -> AluOp * list Z -> Z
}.

(** * Arithmetic of the language *)

Section Language.
Context `{!HostFp}.

Definition fpack (f : Format) (src : AluOp * list Z) (x : spec_float) : Z := pack f (host_nan f src) x.
Definition lift1 (o : AluOp) (op : Z -> Z -> spec_float -> spec_float) (f : Format) (a : Z) : Z :=
  fpack f (o, [a]) (op (fmt_prec f) (fmt_emax f) (unpack f a)).
Definition lift2 (o : AluOp) (op : Z -> Z -> spec_float -> spec_float -> spec_float) (f : Format) (a b : Z) : Z :=
  fpack f (o, [a; b]) (op (fmt_prec f) (fmt_emax f) (unpack f a) (unpack f b)).
Definition f_add := lift2 FAdd SFadd.
Definition f_sub := lift2 FSub SFsub.
Definition f_mul := lift2 FMul SFmul.
Definition f_div := lift2 FDiv SFdiv.
Definition f_sqrt := lift1 FSqrt SFsqrt.
(** Negation flips the sign bit. *)
Definition f_neg (f : Format) (a : Z) : Z := Z.lxor a (sign_bit f).

(** [mul_add]: the exact product, then one rounding. *)
Definition exact_sum (m1 e1 m2 e2 : Z) : Z * Z :=
  let e := Z.min e1 e2 in (Z.shiftl m1 (e1 - e) + Z.shiftl m2 (e2 - e), e).
Definition signed_of (s : bool) (m : positive) : Z := if s then Zneg m else Zpos m.
Definition SFfma (prec emax : Z) (x y z : spec_float) : spec_float :=
  match x, y with
  | S754_finite sx mx ex, S754_finite sy my ey =>
      match z with
      | S754_nan => S754_nan
      | S754_infinity sz => S754_infinity sz
      | S754_zero _ => SFmul prec emax x y
      | S754_finite sz mz ez =>
          let '(m, e) := exact_sum (signed_of (xorb sx sy) (mx * my)) (ex + ey) (signed_of sz mz) ez in
          binary_normalize prec emax m e false
      end
  | _, _ => SFadd prec emax (SFmul prec emax x y) z
  end.
Definition f_fma (f : Format) (a b c : Z) : Z :=
  fpack f (FMAdd, [a; b; c]) (SFfma (fmt_prec f) (fmt_emax f) (unpack f a) (unpack f b) (unpack f c)).

(** [as] between formats, and from an integer. *)
Definition SFconvert (prec emax : Z) (x : spec_float) : spec_float :=
  match x with S754_finite s m e => binary_round prec emax s m e | _ => x end.
Definition f_widen (a : Z) : spec_float := SFconvert (fmt_prec F64) (fmt_emax F64) (unpack F32 a).
Definition f_narrow (x : spec_float) : spec_float := SFconvert (fmt_prec F32) (fmt_emax F32) x.
Definition f_of_int (f : Format) (n : Z) : Z := fpack f (FCvtSL, [n]) (binary_normalize (fmt_prec f) (fmt_emax f) n 0 false).

(** [trunc]: the fraction bits are cleared. *)
Definition f_trunc (x : spec_float) : spec_float :=
  match x with
  | S754_finite s m e =>
      if 0 <=? e then x
      else match Z.shiftr (Zpos m) (- e) with
           | Zpos q => S754_finite s (Z.to_pos (Z.shiftl (Zpos q) (- e))) e
           | _ => S754_zero s
           end
  | _ => x
  end.

End Language.

(** [as] to an integer type: towards zero, saturating, 0 for NaN. *)
Definition int_part (s : bool) (m : positive) (e : Z) : Z :=
  let v := Z.shiftl (Zpos m) e in if s then - v else v.
Definition sat_int (lo hi : Z) (x : spec_float) : Z :=
  match x with
  | S754_finite s m e => Z.max lo (Z.min (int_part s m e) hi)
  | S754_infinity s => if s then lo else hi
  | S754_zero _ | S754_nan => 0
  end.

(** * [Fpu] *)

Definition sf_is_nan (x : spec_float) : bool := match x with S754_nan => true | _ => false end.
Definition sf_is_infinite (x : spec_float) : bool := match x with S754_infinity _ => true | _ => false end.

(** [f64_to_i32_rv] and its like. *)
Definition f64_to_int_rv (lo hi : Z) (v : spec_float) : Z := if sf_is_nan v then hi else sat_int lo hi v.
Definition f64_to_i32_rv := f64_to_int_rv (- 2 ^ 31) (2 ^ 31 - 1).
Definition f64_to_u32_rv := f64_to_int_rv 0 (2 ^ 32 - 1).
Definition f64_to_i64_rv := f64_to_int_rv (- 2 ^ 63) (2 ^ 63 - 1).
Definition f64_to_u64_rv := f64_to_int_rv 0 (2 ^ 64 - 1).
(** [x as i32 as i64 as u64], [x as i64 as u64] *)
Definition sext_w (x : Z) : Z := u64 (as_signed 32 (u32 x)).

(** The ten classes of FCLASS. *)
Definition fp_classify (f : Format) (sign : bool) (exp frac : Z) : Z :=
  if (exp =? fmt_top f) && negb (frac =? 0) then if has_bits frac (2 ^ (fmt_mw f - 1)) then 2 ^ 9 else 2 ^ 8
  else if (exp =? fmt_top f) && (frac =? 0) then if sign then 2 ^ 0 else 2 ^ 7
  else if (exp =? 0) && (frac =? 0) then if sign then 2 ^ 3 else 2 ^ 4
  else if exp =? 0 then if sign then 2 ^ 2 else 2 ^ 5
  else if sign then 2 ^ 1 else 2 ^ 6.

(** A signalling NaN. *)
Definition is_snan (f : Format) (bits : Z) : bool :=
  (exp_field f bits =? fmt_top f) && negb (frac_field f bits =? 0) && (Z.land bits (2 ^ (fmt_mw f - 1)) =? 0).

Definition is_arith (op : AluOp) : bool :=
  match op with FAdd | FSub | FMul | FDiv | FSqrt | FMAdd | FMSub | FNMAdd | FNMSub => true | _ => false end.

Definition classify_f32 := fp_classify F32.
Definition classify_f64 := fp_classify F64.
Definition is_snan_f32 := is_snan F32.
Definition is_snan_f64 := is_snan F64.

Section Execute.
Context `{!HostFp}.

(** What both precisions share, on the patterns of the format. *)
Definition arith (f : Format) (op : AluOp) (a b c : Z) : Z :=
  match op with
  | FAdd => f_add f a b
  | FSub => f_sub f a b
  | FMul => f_mul f a b
  | FDiv => f_div f a b
  | FSqrt => f_sqrt f a
  | FMAdd => f_fma f a b c
  | FMSub => f_fma f a b (f_neg f c)
  | FNMAdd => f_fma f (f_neg f a) b (f_neg f c)
  | FNMSub => f_fma f (f_neg f a) b c
  | _ => 0
  end.
Definition sign_inject (f : Format) (op : AluOp) (a b : Z) : Z :=
  match op with
  | FSgnJ => Z.lor (Z.ldiff a (sign_bit f)) (Z.land b (sign_bit f))
  | FSgnJN => Z.lor (Z.ldiff a (sign_bit f)) (Z.ldiff (sign_bit f) b)
  | _ => Z.lxor a (Z.land b (sign_bit f))
  end.
Definition compare (op : AluOp) (x y : spec_float) : Z :=
  Z.b2z (match op with FEq => SFeqb x y | FLt => SFltb x y | _ => SFleb x y end).
Definition class_of (is32 : bool) (a : Z) : Z :=
  if is32 then classify_f32 (sign_field F32 a) (exp_field F32 a) (frac_field F32 a)
  else classify_f64 (sign_field F64 a) (exp_field F64 a) (frac_field F64 a).
Definition fp_to_int (op : AluOp) (v : spec_float) : Z :=
  match op with
  | FCvtWS => sext_w (f64_to_i32_rv v)
  | FCvtWUS => sext_w (f64_to_u32_rv v)
  | FCvtLS => u64 (f64_to_i64_rv v)
  | _ => f64_to_u64_rv v
  end.
Definition int_to_fp (f : Format) (op : AluOp) (a : Z) : Z :=
  f_of_int f (match op with
              | FCvtSW => as_signed 32 (u32 a)
              | FCvtSWU => u32 a
              | FCvtSL => as_signed 64 a
              | _ => a
              end).

Definition execute_f32 (op : AluOp) (a b c : Z) : Z :=
  let fa := unbox_f32 a in
  let fb := unbox_f32 b in
  let fc := unbox_f32 c in
  match op with
  | FAdd | FSub | FMul | FDiv | FSqrt | FMAdd | FMSub | FNMAdd | FNMSub => box_f32_canon (arith F32 op fa fb fc)
  | FMin => box_f32 (fmin_f32 fa fb)
  | FMax => box_f32 (fmax_f32 fa fb)
  | FSgnJ | FSgnJN | FSgnJX => box_f32 (sign_inject F32 op fa fb)
  | FEq | FLt | FLe => compare op (unpack F32 fa) (unpack F32 fb)
  | FClass => class_of true fa
  | FCvtWS | FCvtWUS | FCvtLS | FCvtLUS => fp_to_int op (f_widen fa)
  | FCvtSD => box_f32_canon fa
  | FCvtSW | FCvtSWU | FCvtSL | FCvtSLU => int_to_fp F64 op a
  | FCvtDS => fpack F64 (FCvtDS, [fa]) (f_widen fa)
  | FMvToF => box_f32 (u32 a)
  | FMvToX => sext_w a
  | _ => 0
  end.
Definition execute_f64 (op : AluOp) (a b c : Z) : Z :=
  match op with
  | FAdd | FSub | FMul | FDiv | FSqrt | FMAdd | FMSub | FNMAdd | FNMSub => canonicalize_f64_bits (arith F64 op a b c)
  | FMin => fmin_f64 a b
  | FMax => fmax_f64 a b
  | FSgnJ | FSgnJN | FSgnJX => sign_inject F64 op a b
  | FEq | FLt | FLe => compare op (unpack F64 a) (unpack F64 b)
  | FClass => class_of false a
  | FCvtWS | FCvtWUS | FCvtLS | FCvtLUS => fp_to_int op (unpack F64 a)
  | FCvtSD => box_f32_canon (fpack F32 (FCvtSD, [a]) (f_narrow (unpack F64 a)))
  | FCvtSW | FCvtSWU | FCvtSL | FCvtSLU => int_to_fp F64 op a
  | FMvToF | FMvToX => a
  | _ => 0
  end.
Definition fpu_execute (op : AluOp) (a b c : Z) (is32 : bool) : Z :=
  if is32 then execute_f32 op a b c else execute_f64 op a b c.

(** ** Flags of the other operations *)

(** The bounds of the range checks, as [f64] values. *)
Definition f64_const (n : Z) : spec_float := binary_normalize (fmt_prec F64) (fmt_emax F64) n 0 false.
(** [(lo..hi).contains(&x)] *)
Definition in_f64_range (lo hi : Z) (x : spec_float) : bool := SFleb (f64_const lo) x && SFltb x (f64_const hi).
Definition conversion_overflow (op : AluOp) (rounded : spec_float) : bool :=
  match op with
  | FCvtWS => negb (in_f64_range (- 2 ^ 31) (2 ^ 31) rounded)
  | FCvtWUS => negb (in_f64_range 0 (2 ^ 32) rounded)
  | FCvtLS => negb (in_f64_range (- 2 ^ 63) (2 ^ 63) rounded)
  | FCvtLUS => SFltb rounded (f64_const 0)
  | _ => false
  end.
Definition conversion_flags (op : AluOp) (val : spec_float) : Z :=
  if sf_is_nan val || sf_is_infinite val then FP_NV
  else
    let rounded := f_trunc val in
    let inexact := negb (SFeqb val rounded) in
    if conversion_overflow op rounded then FP_NV else if inexact then FP_NX else FP_NONE.

Definition either_snan (a b : Z) (is32 : bool) : bool :=
  if is32 then is_snan_f32 (unbox_f32 a) || is_snan_f32 (unbox_f32 b) else is_snan_f64 a || is_snan_f64 b.
Definition either_nan (a b : Z) (is32 : bool) : bool :=
  if is32 then is_nan F32 (unbox_f32 a) || is_nan F32 (unbox_f32 b) else is_nan F64 a || is_nan F64 b.
Definition manual_flags (op : AluOp) (a b : Z) (is32 : bool) : Z :=
  match op with
  | FEq | FMin | FMax => if either_snan a b is32 then FP_NV else FP_NONE
  | FLt | FLe => if either_nan a b is32 then FP_NV else FP_NONE
  | FCvtWS | FCvtWUS | FCvtLS | FCvtLUS =>
      conversion_flags op (if is32 then f_widen (unbox_f32 a) else unpack F64 a)
  | _ => FP_NONE
  end.

Definition execute_full (op : AluOp) (a b c : Z) (is32 : bool) : Z * Z :=
  (fpu_execute op a b c is32,
   if is_arith op then read_host_fp_flags (host_flags op a b c is32) else manual_flags op a b is32).

(** ** Explicit rounding modes ([rounding_modes.rs], [execute_with_rm]), which no
    stage of the pipeline calls *)

Inductive RoundingMode := Rne | Rtz | Rdn | Rup | Rmm.
Definition rm_from_bits (bits : Z) : option RoundingMode :=
  let b := Z.land bits 7 in
  if b =? 0 then Some Rne else if b =? 1 then Some Rtz else if b =? 2 then Some Rdn
  else if b =? 3 then Some Rup else if b =? 4 then Some Rmm else None.

Definition d_add := SFadd (fmt_prec F64) (fmt_emax F64).
Definition d_sub := SFsub (fmt_prec F64) (fmt_emax F64).
Definition d_mul := SFmul (fmt_prec F64) (fmt_emax F64).
Definition d_fma := SFfma (fmt_prec F64) (fmt_emax F64).
Definition d_zero : spec_float := S754_zero false.
Definition d_min (x y : spec_float) : spec_float := if SFltb x y then x else y.
Definition EPSILON : spec_float := binary_normalize (fmt_prec F64) (fmt_emax F64) 1 (-52) false.

(** [exact as f32], as bits; the caller makes a NaN canonical. *)
Definition cast_f32 (exact : spec_float) : Z := fpack F32 (FCvtSD, []) (f_narrow exact).
Definition apply_rounding_f32 (exact : spec_float) (rm : RoundingMode) : Z :=
  let r := cast_f32 exact in
  let r_d := f_widen r in
  if sf_is_nan exact || sf_is_infinite exact then r
  else
    match rm with
    | Rne => r
    | Rtz =>
        if (SFltb d_zero exact && SFltb exact r_d) || (SFltb exact d_zero && SFltb r_d exact) then u32 (r - 1) else r
    | Rdn => if SFltb exact r_d then if SFleb d_zero r_d then u32 (r - 1) else u32 (r + 1) else r
    | Rup => if SFltb r_d exact then if SFleb d_zero r_d then u32 (r + 1) else u32 (r - 1) else r
    | Rmm =>
        let diff := SFabs (d_sub exact r_d) in
        let next_up := u32 (r + 1) in
        let next_dn := if 0 <? r then r - 1 else 0x80000001 in
        let ulp := d_min (SFabs (d_sub (f_widen next_up) r_d)) (SFabs (d_sub (f_widen next_dn) r_d)) in
        if SFltb d_zero ulp && SFltb (SFabs (d_fma diff (f64_const 2) (SFopp ulp))) (d_mul EPSILON ulp) then
          if SFltb (SFabs r_d) (SFabs exact) then if SFltb d_zero exact then next_up else next_dn else r
        else r
    end.
(** Every mode leaves a [f64] result as it is. *)
Definition apply_rounding_f64 (bits : Z) (_ : RoundingMode) : Z := bits.

(** The operation in double precision on operands widened from single. *)
Definition arith_wide (op : AluOp) (fa fb fc : spec_float) : spec_float :=
  match op with
  | FAdd => d_add fa fb
  | FSub => d_sub fa fb
  | FMul => d_mul fa fb
  | FDiv => SFdiv (fmt_prec F64) (fmt_emax F64) fa fb
  | FSqrt => SFsqrt (fmt_prec F64) (fmt_emax F64) fa
  | FMAdd => d_fma fa fb fc
  | FMSub => d_fma fa fb (SFopp fc)
  | FNMAdd => d_fma (SFopp fa) fb (SFopp fc)
  | _ => d_fma (SFopp fa) fb fc
  end.
Definition execute_with_rm (op : AluOp) (a b c : Z) (is32 : bool) (rm : RoundingMode) : Z :=
  if negb (is_arith op) then fpu_execute op a b c is32
  else if is32 then
    let w x := f_widen (unbox_f32 x) in
    box_f32_canon (apply_rounding_f32 (arith_wide op (w a) (w b) (w c)) rm)
  else canonicalize_f64_bits (apply_rounding_f64 (arith F64 op a b c) rm).

(** * The conversions of [compute_alu] ([backend/o3/execute.rs]) *)

Definition convert (op : AluOp) (op_a : Z) (is_rv32 : bool) : Z * Z :=
  (match op with
   | FCvtSW | FCvtSWU | FCvtSL | FCvtSLU =>
       if is_rv32 then box_f32 (int_to_fp F32 op op_a) else int_to_fp F64 op op_a
   | FCvtSD => box_f32_canon (fpack F32 (FCvtSD, [op_a]) (f_narrow (unpack F64 op_a)))
   | FCvtDS => fpack F64 (FCvtDS, [unbox_f32 op_a]) (f_widen (unbox_f32 op_a))
   | _ => 0
   end, read_host_fp_flags (host_flags op op_a 0 0 is_rv32)).

#[export] Instance host_fpu : FpUnit := {| fpu_execute_full := execute_full; fpu_convert := convert |}.

End Execute.

(** * Examples *)

(** A host that returns the canonical NaN and reports no flags. *)
Definition quiet_host : HostFp := {| host_flags _ _ _ _ _ := 0; host_nan f _ := canonical_nan f |}.

Section Examples.
#[local] Existing Instance quiet_host.

(** 2.5 + 3.5 in single and 0.1 + 0.2 in double precision; 1 / 3; the square
    root of 2; a fused product whose rounding differs from two roundings. *)
Example fpu_examples :
  fpu_execute FAdd (box_f32 0x40200000) (box_f32 0x40600000) 0 true = box_f32 0x40C00000 /\
  fpu_execute FAdd 0x3FB999999999999A 0x3FC999999999999A 0 false = 0x3FD3333333333334 /\
  fpu_execute FDiv 0x3FF0000000000000 0x4008000000000000 0 false = 0x3FD5555555555555 /\
  fpu_execute FSqrt 0x4000000000000000 0 0 false = 0x3FF6A09E667F3BCD /\
  fpu_execute FMSub 0x3FF0000000000001 0x3FF0000000000001 0x3FF0000000000002 false = 0x3970000000000000 /\
  fpu_execute FDiv 0 0 0 false = CANONICAL_NAN_F64.
Proof. vm_compute. done. Qed.

(** Rounding down a negative number below every [f32] yields a NaN, and a tie
    of a negative number is rounded a unit towards zero instead of to the
    larger magnitude: -(1 + 2^-22 + 2^-24) should give the pattern 0xBF800003. *)
Definition tiny_negative : Z := 0xB000000000000000.
Example round_down_tiny_negative :
  is_nan F32 (apply_rounding_f32 (unpack F64 tiny_negative) Rdn) = true.
Proof. by vm_compute. Qed.
Example round_tie_negative :
  apply_rounding_f32 (unpack F64 0xBFF0000050000000) Rmm = 0xBF800001.
Proof. by vm_compute. Qed.

(** Converting 2^64 to an unsigned 64-bit integer overflows without the
    invalid flag; -1 has it. *)
Example fcvt_lu_overflow_unflagged :
  execute_full FCvtLUS 0x43F0000000000000 0 0 false = (2 ^ 64 - 1, FP_NONE) /\
  execute_full FCvtLUS 0xBFF0000000000000 0 0 false = (0, FP_NV).
Proof. by vm_compute. Qed.
End Examples.
