(* ===== verification/FpuFormat.v ===== *)
(** Patterns of a binary format and the numbers they stand for: the round trip
    between them, and their order. *)
From Stdlib Require Import SpecFloat.
From S2P Require Import Prelude Common Core Fpu.
Local Open Scope Z_scope.

(** * Digits *)

Lemma digits2_log2 (p : positive) : Zpos (digits2_pos p) = Z.log2 (Zpos p) + 1.
Proof.
  induction p as [p IH|p IH|]; [| |done]; cbn [digits2_pos]; rewrite Pos2Z.inj_succ, IH.
  - rewrite Pos2Z.inj_xI, Z.log2_succ_double by done. lia.
  - rewrite Pos2Z.inj_xO, Z.log2_double by done. lia.
Qed.
Lemma Zdigits2_log2 (m : Z) : 0 < m -> Zdigits2 m = Z.log2 m + 1.
Proof. destruct m; try done. intros _. apply digits2_log2. Qed.
Lemma Zdigits2_pos (p : positive) : Zdigits2 (Zpos p) = Zpos (digits2_pos p).
Proof. done. Qed.
Lemma digits_bounds (m : Z) : 0 < m -> 1 <= Zdigits2 m /\ 2 ^ (Zdigits2 m - 1) <= m < 2 ^ Zdigits2 m.
Proof.
  intros Hm. rewrite Zdigits2_log2 by done. pose proof (Z.log2_spec m Hm). pose proof (Z.log2_nonneg m).
  rewrite Z.add_simpl_r. unfold Z.succ in *. lia.
Qed.
Lemma digits_unique (m d : Z) : 0 < d -> 2 ^ (d - 1) <= m < 2 ^ d -> Zdigits2 m = d.
Proof.
  intros Hd Hm. assert (0 < m) by (pose proof (Z.pow_pos_nonneg 2 (d - 1)); lia).
  rewrite Zdigits2_log2 by done. rewrite (Z.log2_unique m (d - 1)) by (rewrite <-?Z.add_1_r, ?Z.sub_simpl_r; lia). lia.
Qed.
Lemma digits_le (m d : Z) : 0 < m -> m < 2 ^ d -> Zdigits2 m <= d.
Proof.
  intros Hm Hlt. rewrite Zdigits2_log2 by done. assert (Z.log2 m < d); [|lia]. by apply Z.log2_lt_pow2.
Qed.
Lemma digits_ge (m d : Z) : 0 <= d -> 2 ^ d <= m -> d + 1 <= Zdigits2 m.
Proof.
  intros Hd Hle. assert (0 < m) by (pose proof (Z.pow_pos_nonneg 2 d); lia).
  rewrite Zdigits2_log2 by done. assert (d <= Z.log2 m); [|lia]. by apply Z.log2_le_pow2.
Qed.
Lemma digits_shiftl (m k : Z) : 0 < m -> 0 <= k -> Zdigits2 (Z.shiftl m k) = Zdigits2 m + k.
Proof.
  intros Hm Hk. destruct (digits_bounds m Hm) as (? & Hlo & Hhi). rewrite Z.shiftl_mul_pow2 by done.
  apply digits_unique; [lia|]. replace (Zdigits2 m + k - 1) with ((Zdigits2 m - 1) + k) by lia.
  rewrite !Z.pow_add_r by lia. pose proof (Z.pow_pos_nonneg 2 k). nia.
Qed.
Lemma digits_shiftr (m k : Z) : 0 < m -> 0 <= k < Zdigits2 m -> Zdigits2 (Z.shiftr m k) = Zdigits2 m - k.
Proof.
  intros Hm Hk. destruct (digits_bounds m Hm) as (? & Hlo & Hhi). rewrite Z.shiftr_div_pow2 by lia.
  apply digits_unique; [lia|].
  assert (E1 : 2 ^ (Zdigits2 m - 1) = 2 ^ (Zdigits2 m - k - 1) * 2 ^ k) by (rewrite <-Z.pow_add_r by lia; f_equal; lia).
  assert (E2 : 2 ^ Zdigits2 m = 2 ^ (Zdigits2 m - k) * 2 ^ k) by (rewrite <-Z.pow_add_r by lia; f_equal; lia).
  pose proof (Z.pow_pos_nonneg 2 k). split.
  - apply Z.div_le_lower_bound; nia.
  - apply Z.div_lt_upper_bound; nia.
Qed.
Lemma shiftr_small (m k : Z) : 0 < m -> Zdigits2 m <= k -> Z.shiftr m k = 0.
Proof.
  intros Hm Hk. destruct (digits_bounds m Hm) as (? & Hlo & Hhi). rewrite Z.shiftr_div_pow2 by lia.
  apply Z.div_small. split; [lia|]. pose proof (Z.pow_le_mono_r 2 (Zdigits2 m) k). lia.
Qed.

(** * Shifts *)

Lemma iter_pos_nat {A} (f : A -> A) (n : positive) (x : A) : SpecFloat.iter_pos f n x = Nat.iter (Pos.to_nat n) f x.
Proof.
  revert x. induction n as [n IH|n IH|]; intros x; cbn [SpecFloat.iter_pos].
  - rewrite !IH, Pos2Nat.inj_xI. simpl. rewrite <-Nat.iter_add.
    replace (Pos.to_nat n + (Pos.to_nat n + 0))%nat with (Pos.to_nat n + Pos.to_nat n)%nat by lia.
    generalize (Pos.to_nat n + Pos.to_nat n)%nat. intros k. by rewrite Nat.iter_swap.
  - rewrite !IH, Pos2Nat.inj_xO. rewrite <-Nat.iter_add. f_equal. lia.
  - done.
Qed.
Lemma shr_1_m r : 0 <= shr_m r -> shr_m (shr_1 r) = Z.div2 (shr_m r).
Proof. destruct r as [[|[p|p|]|p] r s]; simpl; try done; lia. Qed.
Lemma shr_iter_m (n : nat) r : 0 <= shr_m r -> shr_m (Nat.iter n shr_1 r) = Z.shiftr (shr_m r) (Z.of_nat n) /\ 0 <= shr_m (Nat.iter n shr_1 r).
Proof.
  intros Hr. assert (0 <= Z.shiftr (shr_m r) (Z.of_nat n)) by by apply Z.shiftr_nonneg.
  enough (shr_m (Nat.iter n shr_1 r) = Z.shiftr (shr_m r) (Z.of_nat n)) as E by (by rewrite E).
  clear H. induction n as [|n IH]; [done|]. cbn [Nat.iter nat_rect].
  change (nat_rect _ r (λ _, shr_1) n) with (Nat.iter n shr_1 r).
  assert (0 <= shr_m (Nat.iter n shr_1 r)) by (rewrite IH; by apply Z.shiftr_nonneg).
  rewrite shr_1_m by done. rewrite IH, Nat2Z.inj_succ, Z.div2_spec, Z.shiftr_shiftr by lia. done.
Qed.
Lemma shr_record_m m l : shr_m (shr_record_of_loc m l) = m.
Proof. by destruct l as [|[]]. Qed.

(** [shr_fexp] moves the exponent up to where the format wants it. *)
Lemma shr_m_spec m l e n :
  0 <= m -> 0 <= n -> let '(mrs, e') := shr (shr_record_of_loc m l) e n in shr_m mrs = Z.shiftr m n /\ e' = e + n.
Proof.
  intros Hm Hn. unfold shr. destruct n as [|p|p]; [|..|lia].
  - rewrite shr_record_m. by rewrite Z.shiftr_0_r, Z.add_0_r.
  - rewrite iter_pos_nat. destruct (shr_iter_m (Pos.to_nat p) (shr_record_of_loc m l)) as [E _]; [by rewrite shr_record_m|].
    rewrite E, shr_record_m. split; [f_equal; lia|done].
Qed.

(** * The format invariant *)

Section Rounding.
Context (prec emax : Z) (Hprec : 1 < prec) (Hemax : prec < emax).
Notation emin := (emin prec emax).
Notation fexp := (fexp prec emax).
Notation top := (2 ^ prec).
Notation half := (2 ^ (prec - 1)).

Lemma top_half : top = 2 * half.
Proof using Hprec. replace prec with (Z.succ (prec - 1)) at 1 by lia. rewrite Z.pow_succ_r by lia. done. Qed.
Lemma half_pos : 1 < half.
Proof using Hprec. apply Z.pow_gt_1; lia. Qed.

(** A mantissa below [2^prec] with its leading bit set, or the least exponent. *)
Definition in_format (m e : Z) : Prop := emin <= e /\ 0 < m < top /\ (half <= m \/ e = emin).

Lemma canonical_fexp (m e : Z) : 0 < m -> fexp (Zdigits2 m + e) = e <-> in_format m e.
Proof using Hprec.
  intros Hm. unfold in_format, SpecFloat.fexp. split.
  - intros E. assert (Zdigits2 m <= prec) by lia. destruct (digits_bounds m Hm) as (? & ? & ?).
    repeat split; [lia|done| |].
    + pose proof (Z.pow_le_mono_r 2 (Zdigits2 m) prec). lia.
    + destruct (Z.eq_dec e emin); [by right|left]. assert (Zdigits2 m = prec) as E2 by lia. by rewrite <-E2.
  - intros (He & [_ Hlt] & Hc). pose proof (digits_le m prec Hm Hlt). destruct Hc as [Hc|Hc]; [|lia].
    pose proof (digits_ge m (prec - 1) ltac:(lia) Hc). lia.
Qed.
Lemma bounded_canonical (m : positive) (e : Z) :
  bounded prec emax m e = true <-> in_format (Zpos m) e /\ e <= emax - prec.
Proof using Hprec.
  unfold bounded, canonical_mantissa. rewrite andb_true_iff, Z.eqb_eq, Z.leb_le, <-canonical_fexp by lia. done.
Qed.

(** The first shift brings the mantissa below [2^prec]. *)
Lemma first_shift (m e : Z) :
  0 < m \/ m = 0 /\ e <= emin -> e <= fexp (Zdigits2 m + e) ->
  let e1 := fexp (Zdigits2 m + e) in let m1 := Z.shiftr m (e1 - e) in
  emin <= e1 /\ 0 <= m1 < top /\ (half <= m1 \/ e1 = emin).
Proof using Hprec.
  intros [Hm|[-> Hm]] He e1 m1.
  2:{ assert (e1 = emin) as -> by (unfold e1, SpecFloat.fexp; cbn [Zdigits2]; lia). unfold m1.
      rewrite Z.shiftr_0_l. pose proof half_pos. pose proof top_half. lia. }
  destruct (digits_bounds m Hm) as (Hd & Hlo & Hhi). assert (He1 : e1 = Z.max (Zdigits2 m + e - prec) emin) by done.
  assert (0 < 2 ^ (e1 - e)) by (apply Z.pow_pos_nonneg; lia).
  assert (Hm1 : m1 = m / 2 ^ (e1 - e)) by (apply Z.shiftr_div_pow2; lia).
  split; [lia|]. split.
  - split; [rewrite Hm1; apply Z.div_pos; lia|]. rewrite Hm1. apply Z.div_lt_upper_bound; [lia|].
    rewrite <-Z.pow_add_r by lia. pose proof (Z.pow_le_mono_r 2 (Zdigits2 m) (e1 - e + prec)). lia.
  - destruct (Z.eq_dec e1 emin); [by right|left]. rewrite Hm1. apply Z.div_le_lower_bound; [lia|].
    rewrite <-Z.pow_add_r by lia. replace (e1 - e + (prec - 1)) with (Zdigits2 m - 1) by lia. done.
Qed.

Lemma round_even_cases (m : Z) (l : location) : round_nearest_even m l = m \/ round_nearest_even m l = m + 1.
Proof. destruct l as [|[]]; simpl; auto. case_match; auto. Qed.

(** The second shift renormalises a mantissa that rounding carried to [2^prec]. *)
Lemma second_shift (m e : Z) :
  emin <= e -> 0 <= m <= top -> (half <= m \/ e = emin) ->
  let '(r, e2) := shr_fexp prec emax m e loc_Exact in
  shr_m r = 0 \/ in_format (shr_m r) e2.
Proof using Hprec.
  intros He Hm Hc. unfold shr_fexp. pose proof top_half. pose proof half_pos.
  destruct (Z.eq_dec m 0) as [->|Hm0]; [|destruct (Z.eq_dec m top) as [->|Hmt]].
  - assert (e = emin) as -> by lia. cbn [Zdigits2].
    replace (fexp (0 + emin) - emin) with 0 by (unfold SpecFloat.fexp; lia). by left.
  - assert (E : Zdigits2 top = prec + 1).
    { apply digits_unique; [lia|]. rewrite Z.add_simpl_r, Z.pow_add_r by lia. lia. }
    rewrite E. replace (fexp (prec + 1 + e) - e) with 1 by (unfold SpecFloat.fexp; lia).
    pose proof (shr_m_spec top loc_Exact e 1 ltac:(lia) ltac:(lia)) as Hs. destruct (shr _ _ _) as [r e2].
    destruct Hs as [-> ->]. right. rewrite Z.shiftr_div_pow2 by lia.
    replace (top / 2 ^ 1) with half by (rewrite top_half, Z.mul_comm; by rewrite Z.div_mul). unfold in_format. lia.
  - assert (in_format m e) as Hcan by (unfold in_format; lia).
    rewrite (proj2 (canonical_fexp m e ltac:(lia)) Hcan), Z.sub_diag. by right.
Qed.

(** ** Rounding yields a number of the format *)
Lemma binary_round_aux_valid (s : bool) (m e : Z) (l : location) :
  0 < m \/ m = 0 /\ e <= emin -> e <= fexp (Zdigits2 m + e) ->
  valid_binary prec emax (binary_round_aux prec emax s m e l) = true.
Proof using Hprec.
  intros Hm He. unfold binary_round_aux. pose proof (first_shift m e Hm He) as H1. cbv zeta in H1.
  destruct (shr_fexp prec emax m e l) as [r e1] eqn:E1. unfold shr_fexp in E1.
  pose proof (shr_m_spec m l e (fexp (Zdigits2 m + e) - e) ltac:(lia) ltac:(lia)) as Hs. rewrite E1 in Hs.
  destruct Hs as [Hr ->]. rewrite <-Hr in H1. rewrite Zplus_minus in *. clear E1.
  pose proof (second_shift (round_nearest_even (shr_m r) (loc_of_shr_record r)) (fexp (Zdigits2 m + e))) as H2.
  destruct (shr_fexp _ _ _ _ _) as [r2 e2].
  destruct H2 as [->|H2]; [lia|destruct (round_even_cases (shr_m r) (loc_of_shr_record r)); lia..|done|].
  destruct (shr_m r2) as [|p|p] eqn:E2; [done| |destruct H2; lia].
  case_match eqn:Hb; [|done]. apply Z.leb_le in Hb. cbn [valid_binary]. by apply bounded_canonical.
Qed.

Lemma shl_align_spec (m : positive) (e e' : Z) :
  shl_align m e e' = (Z.to_pos (Z.shiftl (Zpos m) (e - Z.min e e')), Z.min e e') /\
  0 < Z.shiftl (Zpos m) (e - Z.min e e').
Proof.
  assert (0 <= e - Z.min e e') by lia. split.
  - unfold shl_align. destruct (e' - e) as [|d|d] eqn:E.
    + replace (Z.min e e') with e by lia. by rewrite Z.sub_diag.
    + replace (Z.min e e') with e by lia. by rewrite Z.sub_diag.
    + replace (Z.min e e') with e' by lia. replace (e - e') with (Zpos d) by lia. f_equal.
      apply Pos2Z.inj. rewrite Z2Pos.id.
      * by apply (Pos.iter_swap_gen _ _ Zpos).
      * rewrite Z.shiftl_mul_pow2 by done. apply Z.mul_pos_pos; [done|]. by apply Z.pow_pos_nonneg.
  - rewrite Z.shiftl_mul_pow2 by done. apply Z.mul_pos_pos; [done|]. by apply Z.pow_pos_nonneg.
Qed.

Lemma binary_round_valid (s : bool) (m : positive) (e : Z) : valid_binary prec emax (binary_round prec emax s m e) = true.
Proof using Hprec.
  unfold binary_round. set (e' := fexp _). destruct (shl_align_spec m e e') as [-> Hpos].
  apply binary_round_aux_valid; [by left|]. rewrite Z2Pos.id, digits_shiftl, Zdigits2_pos by lia.
  replace (_ + _ + Z.min e e') with (Zpos (digits2_pos m) + e) by lia. fold e'. lia.
Qed.
Lemma binary_normalize_valid (m e : Z) (s : bool) : valid_binary prec emax (binary_normalize prec emax m e s) = true.
Proof using Hprec. destruct m; [done|apply binary_round_valid..]. Qed.

(** Nothing is lost when the digits fit. *)
Lemma shr_zero r e : shr r e 0 = (r, e).
Proof. done. Qed.
Lemma binary_round_aux_exact (s : bool) (m : positive) (e : Z) :
  bounded prec emax m e = true -> binary_round_aux prec emax s (Zpos m) e loc_Exact = S754_finite s m e.
Proof using Hprec.
  intros Hb. pose proof (proj1 (bounded_canonical m e) Hb) as [Hc He].
  unfold binary_round_aux, shr_fexp. rewrite (proj2 (canonical_fexp (Zpos m) e ltac:(lia)) Hc), Z.sub_diag, shr_zero.
  cbn [shr_m shr_record_of_loc loc_of_shr_record round_nearest_even].
  rewrite (proj2 (canonical_fexp (Zpos m) e ltac:(lia)) Hc), Z.sub_diag, shr_zero. cbn [shr_m].
  by rewrite (proj2 (Z.leb_le _ _) He).
Qed.
Lemma binary_round_exact (s : bool) (m : positive) (e : Z) :
  Zpos m < top -> emin <= e -> Zdigits2 (Zpos m) + e <= emax ->
  exists m' k, binary_round prec emax s m e = S754_finite s m' (e - k) /\ 0 <= k /\
    Zpos m' = Z.shiftl (Zpos m) k /\ bounded prec emax m' (e - k) = true.
Proof using Hprec Hemax.
  intros Hm He Hd. unfold binary_round. set (e' := fexp _).
  destruct (shl_align_spec m e e') as [-> Hpos].
  assert (Hdm : Zdigits2 (Zpos m) <= prec) by (apply digits_le; lia). rewrite Zdigits2_pos in Hdm, Hd.
  assert (He' : e' = Z.max (Zpos (digits2_pos m) + e - prec) emin) by done.
  assert (Z.min e e' = e') as E by lia. rewrite E in *. set (m' := Z.to_pos _).
  assert (Hm' : Zpos m' = Z.shiftl (Zpos m) (e - e')) by (unfold m'; by rewrite Z2Pos.id).
  assert (Hb : bounded prec emax m' e' = true).
  { apply bounded_canonical. split.
    - apply canonical_fexp; [lia|]. rewrite Hm', digits_shiftl, Zdigits2_pos by lia.
      by replace (_ + _ + e') with (Zpos (digits2_pos m) + e) by lia.
    - assert (emin <= emax - prec) by (unfold SpecFloat.emin; lia). lia. }
  exists m', (e - e'). replace (e - (e - e')) with e' by lia. split_and!; [by apply binary_round_aux_exact|lia|done|done].
Qed.

(** ** The operations stay in the format *)
Notation valid x := (valid_binary prec emax x = true).

Lemma emin_neg : emin < 0.
Proof using Hprec Hemax. unfold SpecFloat.emin. lia. Qed.
Lemma fexp_mono (a b : Z) : a <= b -> fexp a <= fexp b.
Proof. unfold SpecFloat.fexp. lia. Qed.
Lemma canonical_digits (m e : Z) : in_format m e -> 1 <= Zdigits2 m <= prec /\ (Zdigits2 m = prec \/ e = emin).
Proof using Hprec.
  intros (He & [Hpos Hlt] & Hc). destruct (digits_bounds m Hpos) as [? _]. pose proof (digits_le m prec Hpos Hlt).
  split; [lia|]. destruct Hc as [Hc|]; [left|by right]. pose proof (digits_ge m (prec - 1) ltac:(lia) Hc). lia.
Qed.
Lemma digits_mono (a b : Z) : 0 < a <= b -> Zdigits2 a <= Zdigits2 b.
Proof. intros [Ha Hb]. apply digits_le; [done|]. destruct (digits_bounds b); lia. Qed.
Lemma digits_mul (a b : Z) : 0 < a -> 0 < b -> Zdigits2 a <= Zdigits2 (a * b) /\ Zdigits2 b <= Zdigits2 (a * b).
Proof. intros Ha Hb. split; apply digits_mono; nia. Qed.

Lemma SFmul_valid x y : valid x -> valid y -> valid (SFmul prec emax x y).
Proof using Hprec Hemax.
  destruct x as [| | |sx mx ex], y as [| | |sy my ey]; try done. intros Hx Hy. cbn [SFmul].
  apply bounded_canonical in Hx as [Hx _], Hy as [Hy _]. apply binary_round_aux_valid; [lia|].
  apply canonical_digits in Hx as [? Hx], Hy as [? Hy].
  destruct (digits_mul (Zpos mx) (Zpos my)) as [? ?]; [done..|]. rewrite Pos2Z.inj_mul.
  pose proof emin_neg. unfold SpecFloat.fexp. lia.
Qed.
Lemma SFadd_valid x y : valid x -> valid y -> valid (SFadd prec emax x y).
Proof using Hprec.
  destruct x as [[]|[]| |sx mx ex], y as [[]|[]| |sy my ey]; try done. intros _ _. apply binary_normalize_valid.
Qed.
Lemma SFsub_valid x y : valid x -> valid y -> valid (SFsub prec emax x y).
Proof using Hprec.
  destruct x as [[]|[]| |sx mx ex], y as [[]|[]| |sy my ey]; try done. intros _ _. apply binary_normalize_valid.
Qed.
Lemma SFfma_valid x y z : valid x -> valid y -> valid z -> valid (SFfma prec emax x y z).
Proof using Hprec Hemax.
  intros Hx Hy Hz. pose proof (SFmul_valid x y Hx Hy) as Hm.
  destruct x as [| | |sx mx ex], y as [| | |sy my ey]; try by apply SFadd_valid.
  destruct z as [| | |sz mz ez]; try done. apply binary_normalize_valid.
Qed.
Lemma SFconvert_valid x : valid (SFconvert prec emax x).
Proof using Hprec. destruct x; try done. apply binary_round_valid. Qed.

(** A quotient has at least the difference of the digits. *)
Lemma digits_div (m n : Z) : 0 < n -> 0 < m / n -> Zdigits2 m - Zdigits2 n <= Zdigits2 (m / n).
Proof.
  intros Hn Hq. assert (Hm : 0 < m) by (pose proof (Z.mul_div_le m n); nia).
  destruct (digits_bounds m Hm) as (? & ? & ?), (digits_bounds n Hn) as (? & ? & ?), (digits_bounds _ Hq) as (? & ? & ?).
  assert (m < 2 ^ (Zdigits2 n + Zdigits2 (m / n))).
  { rewrite Z.pow_add_r by lia. pose proof (Z.div_mod m n). pose proof (Z.mod_pos_bound m n). nia. }
  enough (Zdigits2 m <= Zdigits2 n + Zdigits2 (m / n)) by lia. by apply digits_le.
Qed.
Lemma SFdiv_valid x y : valid x -> valid y -> valid (SFdiv prec emax x y).
Proof using Hprec Hemax.
  destruct x as [| | |sx mx ex], y as [| | |sy my ey]; try done. intros _ _. cbn [SFdiv]. unfold SFdiv_core_binary.
  set (x := Zdigits2 (Zpos mx) + ex - (Zdigits2 (Zpos my) + ey)). set (e' := Z.min (fexp x) (ex - ey)).
  set (m' := match ex - ey - e' with Z0 => _ | _ => _ end).
  assert (Hm' : m' = Z.shiftl (Zpos mx) (ex - ey - e')) by (unfold m'; destruct (ex - ey - e') eqn:E; [done..|lia]).
  assert (Hdm : Zdigits2 m' = Zdigits2 (Zpos mx) + (ex - ey - e')) by (rewrite Hm'; apply digits_shiftl; lia).
  assert (0 < m') by (rewrite Hm', Z.shiftl_mul_pow2 by lia; apply Z.mul_pos_pos; [done|apply Z.pow_pos_nonneg; lia]).
  pose proof (Z.div_pos m' (Zpos my) ltac:(lia) ltac:(lia)).
  pose proof (digits_div m' (Zpos my) ltac:(lia)) as Hdd.
  destruct (digits_bounds (Zpos mx)) as [? _]; [done|].
  pose proof (Z.div_mod m' (Zpos my) ltac:(lia)). pose proof (Z.mod_pos_bound m' (Zpos my) ltac:(lia)).
  unfold Z.div, Z.modulo in *. destruct (Z.div_eucl m' (Zpos my)) as [q r].
  apply binary_round_aux_valid.
  - destruct (Z.eq_dec q 0) as [->|]; [right|left; lia]. split; [done|].
    assert (Zdigits2 m' <= Zdigits2 (Zpos my)) by (apply digits_mono; lia).
    unfold e', SpecFloat.fexp in *. lia.
  - transitivity (fexp x); [unfold e'; lia|]. apply fexp_mono. destruct (Z.eq_dec q 0) as [->|]; [|unfold x in *; lia].
    assert (Zdigits2 m' <= Zdigits2 (Zpos my)) by (apply digits_mono; lia). cbn [Zdigits2]. unfold x in *. lia.
Qed.
Lemma SFsqrt_valid x : valid x -> valid (SFsqrt prec emax x).
Proof using Hprec Hemax.
  destruct x as [|[]| |[] m e]; try done. intros _. cbn [SFsqrt]. unfold SFsqrt_core_binary.
  set (x := Z.div2 (Zdigits2 (Zpos m) + e + 1)). set (e' := Z.min (fexp x) (Z.div2 e)).
  assert (2 * e' <= e) by (pose proof (Z.div2_div e); pose proof (Z.mul_div_le e 2); lia).
  set (m' := match e - 2 * e' with Z0 => _ | _ => _ end).
  assert (Hm' : m' = Z.shiftl (Zpos m) (e - 2 * e')) by (unfold m'; destruct (e - 2 * e') eqn:E; [done..|lia]).
  assert (Hdm : Zdigits2 m' = Zdigits2 (Zpos m) + (e - 2 * e')) by (rewrite Hm'; apply digits_shiftl; lia).
  assert (Hpos : 0 < m') by (rewrite Hm', Z.shiftl_mul_pow2 by lia; apply Z.mul_pos_pos; [done|apply Z.pow_pos_nonneg; lia]).
  pose proof (Z.sqrtrem_spec m' ltac:(lia)) as Hs. destruct (Z.sqrtrem m') as [q r].
  assert (0 < q) by nia. destruct (digits_bounds m' Hpos) as (? & ? & ?), (digits_bounds q) as (? & ? & ?); [done|].
  assert (Zdigits2 m' <= 2 * Zdigits2 q).
  { apply digits_le; [done|]. rewrite Z.mul_comm, Z.pow_mul_r by lia. rewrite Z.pow_2_r. nia. }
  apply binary_round_aux_valid; [by left|].
  transitivity (fexp x); [unfold e'; lia|]. apply fexp_mono. unfold x. rewrite Z.div2_div.
  apply Z.lt_succ_r, Z.div_lt_upper_bound; lia.
Qed.
End Rounding.

(** The formats of IEEE 754: room for normal numbers in the exponent. *)
Class WellFormed (f : Format) : Prop := {
  wf_mw : 1 <= fmt_mw f;
  wf_ew : 2 <= fmt_ew f;
  wf_range : fmt_mw f + 1 < 2 ^ (fmt_ew f - 1)
}.
#[export] Instance F32_wf : WellFormed F32. Proof. by split. Qed.
#[export] Instance F64_wf : WellFormed F64. Proof. by split. Qed.

(** * The value of a number, as a multiple of the least positive one *)

Definition signed (s : bool) (m : Z) : Z := if s then - m else m.
Definition sf_value (prec emax : Z) (x : spec_float) : Z :=
  match x with
  | S754_finite s m e => signed s (Zpos m * 2 ^ (e - emin prec emax))
  | S754_infinity s => signed s (2 ^ (emax - emin prec emax))
  | S754_zero _ | S754_nan => 0
  end.

Section Order.
Context (prec emax : Z) (Hprec : 1 < prec) (Hemax : prec < emax).
Notation emin := (emin prec emax).
Notation value := (sf_value prec emax).
Notation valid x := (valid_binary prec emax x = true).

Lemma canonical_lt m1 e1 m2 e2 :
  in_format prec emax m1 e1 -> in_format prec emax m2 e2 -> e1 < e2 -> m1 * 2 ^ (e1 - emin) < m2 * 2 ^ (e2 - emin).
Proof using Hprec Hemax.
  intros (? & [? ?] & ?) (? & [? ?] & [Hc|?]) He; [|lia].
  pose proof (top_half prec Hprec). assert (0 < 2 ^ (e1 - emin)) by (apply Z.pow_pos_nonneg; lia).
  pose proof (Z.pow_le_mono_r 2 (e1 - emin + 1) (e2 - emin)) as Hp. rewrite Z.pow_add_r in Hp by lia. nia.
Qed.
Lemma canonical_compare m1 e1 m2 e2 :
  in_format prec emax (Zpos m1) e1 -> in_format prec emax (Zpos m2) e2 ->
  match e1 ?= e2 with Lt => Lt | Gt => Gt | Eq => Pos.compare m1 m2 end
  = (Zpos m1 * 2 ^ (e1 - emin) ?= Zpos m2 * 2 ^ (e2 - emin)).
Proof using Hprec Hemax.
  intros H1 H2. destruct (Z.compare_spec e1 e2) as [->|He|He]; symmetry.
  - rewrite Z.mul_comm, (Z.mul_comm (Zpos m2)).
    rewrite <-Zmult_compare_compat_l; [done|]. apply Z.lt_gt, Z.pow_pos_nonneg; [lia|]. destruct H2. lia.
  - apply Z.compare_lt_iff. by apply canonical_lt.
  - apply Z.compare_gt_iff. by apply canonical_lt.
Qed.
Lemma canonical_max m e :
  in_format prec emax m e -> e <= emax - prec -> 0 < m * 2 ^ (e - emin) < 2 ^ (emax - emin).
Proof using Hprec Hemax.
  intros (? & [? ?] & _) He. assert (0 < 2 ^ (e - emin)) by (apply Z.pow_pos_nonneg; lia). split; [nia|].
  pose proof (Z.pow_le_mono_r 2 (prec + (e - emin)) (emax - emin)) as Hp. rewrite Z.pow_add_r in Hp by lia. nia.
Qed.
Lemma inf_pos : 0 < 2 ^ (emax - emin).
Proof using Hprec Hemax. apply Z.pow_pos_nonneg; [lia|]. unfold SpecFloat.emin. lia. Qed.

(** Comparison is that of the values. *)
Lemma SFcompare_value x y :
  valid x -> valid y -> sf_is_nan x = false -> sf_is_nan y = false -> SFcompare x y = Some (value x ?= value y).
Proof using Hprec Hemax.
  intros Hx Hy Hnx Hny. pose proof inf_pos as Hinf.
  destruct x as [sx|sx| |sx mx ex], y as [sy|sy| |sy my ey]; try done; cbn [valid_binary] in *;
    repeat match goal with H : bounded _ _ _ _ = true |- _ =>
      let H2 := fresh in apply bounded_canonical in H as [H H2]; [|done]; pose proof (canonical_max _ _ H H2) end;
    cbn [SFcompare sf_value]; f_equal; symmetry.
  all: try (destruct sx; cbn [signed]); try (destruct sy; cbn [signed]).
  all: try first [by apply Z.compare_eq_iff | apply Z.compare_lt_iff; lia | apply Z.compare_gt_iff; lia | apply Z.compare_eq_iff; lia].
  - rewrite <-Zcompare_opp, Z.compare_antisym, <-canonical_compare by done.
    change (Pos.compare_cont Eq mx my) with (Pos.compare mx my). destruct (ex ?= ey); try done.
  - rewrite <-canonical_compare by done. done.
Qed.
End Order.

(** * Patterns *)

Section Patterns.
Context (f : Format) `{!WellFormed f}.
Notation prec := (fmt_prec f).
Notation emax := (fmt_emax f).
Notation valid x := (valid_binary prec emax x = true).

Lemma fmt_prec_ok : 1 < prec.
Proof using WellFormed0. pose proof wf_mw. unfold fmt_prec. lia. Qed.
Lemma fmt_emax_ok : prec < emax.
Proof using WellFormed0. pose proof wf_range. unfold fmt_prec, fmt_emax. lia. Qed.
Lemma fmt_top_emax : fmt_top f = 2 * emax - 1.
Proof using WellFormed0.
  pose proof wf_ew. unfold fmt_top, fmt_emax. rewrite <-(Z.pow_succ_r 2) by lia.
  by replace (Z.succ (fmt_ew f - 1)) with (fmt_ew f) by lia.
Qed.
Lemma fmt_emin_eq : fmt_emin f = 3 - emax - prec.
Proof. done. Qed.
Lemma mw_pow : 2 ^ (prec - 1) = 2 ^ fmt_mw f.
Proof. unfold fmt_prec. by rewrite Z.add_simpl_r. Qed.
Lemma mw_pow_pos : 0 < 2 ^ fmt_mw f.
Proof using WellFormed0. apply Z.pow_pos_nonneg; [lia|]. pose proof wf_mw. lia. Qed.
Lemma sign_bit_eq : sign_bit f = 2 ^ fmt_ew f * 2 ^ fmt_mw f.
Proof using WellFormed0.
  pose proof wf_ew. pose proof wf_mw. unfold sign_bit, fmt_width. rewrite <-Z.pow_add_r by lia. f_equal. lia.
Qed.
Lemma width_pow : 2 ^ fmt_width f = 2 * sign_bit f.
Proof using WellFormed0.
  pose proof wf_ew. pose proof wf_mw. unfold sign_bit. rewrite <-Z.pow_succ_r by (unfold fmt_width; lia). f_equal. lia.
Qed.
Lemma sign_bit_pos : 0 < sign_bit f.
Proof using WellFormed0. apply Z.pow_pos_nonneg; [lia|]. pose proof wf_ew. pose proof wf_mw. unfold fmt_width. lia. Qed.
#[local] Hint Resolve mw_pow_pos sign_bit_pos fmt_prec_ok fmt_emax_ok : core.

(** ** Fields *)

Lemma frac_field_range bits : 0 <= frac_field f bits < 2 ^ fmt_mw f.
Proof using WellFormed0. unfold frac_field. rewrite land_low_mask by (pose proof wf_mw; lia). by apply Z.mod_pos_bound. Qed.
Lemma exp_field_range bits : 0 <= exp_field f bits <= fmt_top f.
Proof using WellFormed0.
  unfold exp_field, fmt_top. pose proof wf_ew. rewrite land_low_mask by lia.
  pose proof (Z.mod_pos_bound (Z.shiftr bits (fmt_mw f)) (2 ^ fmt_ew f)) as Hb.
  assert (0 < 2 ^ fmt_ew f) by (apply Z.pow_pos_nonneg; lia). lia.
Qed.
Lemma fields_range s e m : 0 <= e <= fmt_top f -> 0 <= m < 2 ^ fmt_mw f -> in_width (fmt_width f) (fields f s e m).
Proof using WellFormed0.
  intros He Hm. unfold in_width, fields, fmt_top in *. rewrite width_pow, sign_bit_eq. destruct s; nia.
Qed.
Lemma sign_field_eq bits : in_width (fmt_width f) bits -> sign_field f bits = (sign_bit f <=? bits).
Proof using WellFormed0.
  intros Hb. unfold in_width in Hb. rewrite width_pow in Hb. pose proof wf_ew. pose proof wf_mw.
  unfold sign_field. rewrite Z.testbit_eqb by (unfold fmt_width; lia).
  fold (sign_bit f). destruct (Z.leb_spec (sign_bit f) bits).
  - rewrite <-(Z.div_unique bits (sign_bit f) 1 (bits - sign_bit f)) by lia. done.
  - by rewrite Z.div_small by lia.
Qed.
Lemma fields_of bits :
  in_width (fmt_width f) bits -> fields f (sign_field f bits) (exp_field f bits) (frac_field f bits) = bits.
Proof using WellFormed0.
  intros Hb. rewrite sign_field_eq by done. unfold in_width in Hb. rewrite width_pow in Hb. pose proof wf_ew. pose proof wf_mw.
  unfold fields, exp_field, frac_field, fmt_top. rewrite !land_low_mask, Z.shiftr_div_pow2 by lia.
  pose proof sign_bit_eq as Hsb. set (b := if sign_bit f <=? bits then sign_bit f else 0).
  assert (Hr : 0 <= bits - b < 2 ^ fmt_ew f * 2 ^ fmt_mw f) by (unfold b; destruct (Z.leb_spec (sign_bit f) bits); lia).
  assert (Hmod : (bits / 2 ^ fmt_mw f) mod 2 ^ fmt_ew f = (bits - b) / 2 ^ fmt_mw f).
  { assert (exists k, b = k * 2 ^ fmt_ew f * 2 ^ fmt_mw f) as [k ->].
    { unfold b. destruct (_ <=? _); [exists 1|exists 0]; lia. }
    symmetry. apply Z.mod_unique_pos with k.
    - split; [apply Z.div_pos; lia|]. apply Z.div_lt_upper_bound; [done|lia].
    - rewrite (Z.add_comm (_ * k)), <-Z.div_add by (pose proof mw_pow_pos; lia). f_equal. lia. }
  rewrite Hmod. pose proof (Z.div_mod (bits - b) (2 ^ fmt_mw f) ltac:(pose proof mw_pow_pos; lia)) as Hdm.
  assert ((bits - b) mod 2 ^ fmt_mw f = bits mod 2 ^ fmt_mw f) as Hm2.
  { rewrite Zminus_mod. assert (b mod 2 ^ fmt_mw f = 0) as ->.
    { unfold b. destruct (_ <=? _); [rewrite Hsb; apply Z.mod_mul; pose proof mw_pow_pos; lia|done]. }
    by rewrite Z.sub_0_r, Zmod_mod. }
  lia.
Qed.

Lemma fields_fields s e m :
  0 <= e <= fmt_top f -> 0 <= m < 2 ^ fmt_mw f ->
  sign_field f (fields f s e m) = s /\ exp_field f (fields f s e m) = e /\ frac_field f (fields f s e m) = m.
Proof using WellFormed0.
  intros He Hm. pose proof (fields_range s e m He Hm) as Hw. pose proof wf_ew. pose proof wf_mw. pose proof sign_bit_eq as Hsb.
  pose proof mw_pow_pos. assert (0 < 2 ^ fmt_ew f) by (apply Z.pow_pos_nonneg; lia). unfold fmt_top in He.
  assert (E : fields f s e m = m + (Z.b2z s * 2 ^ fmt_ew f + e) * 2 ^ fmt_mw f) by (unfold fields; destruct s; simpl Z.b2z; lia).
  split_and!.
  - rewrite sign_field_eq by done. unfold fields. destruct s; [apply Z.leb_le; nia|apply Z.leb_gt; nia].
  - unfold exp_field, fmt_top. rewrite land_low_mask, Z.shiftr_div_pow2, E, Z.div_add, Z.div_small by lia.
    symmetry. apply Z.mod_unique_pos with (Z.b2z s); lia.
  - unfold frac_field. rewrite land_low_mask, E by lia. rewrite Z.mod_add by lia. by apply Z.mod_small.
Qed.

(** ** Round trips *)

Lemma unpack_fields s e m :
  0 <= e <= fmt_top f -> 0 <= m < 2 ^ fmt_mw f ->
  unpack f (fields f s e m) =
  if e =? fmt_top f then if m =? 0 then S754_infinity s else S754_nan
  else match (if e =? 0 then m else m + 2 ^ fmt_mw f) with
       | Zpos p => S754_finite s p (if e =? 0 then fmt_emin f else e - 1 + fmt_emin f)
       | _ => S754_zero s
       end.
Proof using WellFormed0. intros He Hm. unfold unpack. by destruct (fields_fields s e m He Hm) as (-> & -> & ->). Qed.

(** Every pattern is that of a number of the format. *)
Lemma unpack_valid bits : valid (unpack f bits).
Proof using WellFormed0.
  unfold unpack. pose proof (frac_field_range bits) as Hm. pose proof (exp_field_range bits) as He.
  pose proof fmt_top_emax. pose proof mw_pow. pose proof (top_half prec fmt_prec_ok). pose proof fmt_emin_eq. pose proof fmt_emax_ok. pose proof fmt_prec_ok.
  destruct (exp_field f bits =? fmt_top f) eqn:Ht; [by case_match|]. apply Z.eqb_neq in Ht.
  destruct (Z.eqb_spec (exp_field f bits) 0).
  - destruct (frac_field f bits) as [|p|p] eqn:E; [done| |done]. apply bounded_canonical; [done|].
    unfold in_format. fold (fmt_emin f). lia.
  - destruct (frac_field f bits + 2 ^ fmt_mw f) as [|p|p] eqn:E; [lia| |lia]. apply bounded_canonical; [done|].
    unfold in_format. fold (fmt_emin f). lia.
Qed.

Definition representable (x : spec_float) : Prop := valid x /\ sf_is_nan x = false.

Lemma pack_in_width nan x : valid x -> in_width (fmt_width f) nan -> in_width (fmt_width f) (pack f nan x).
Proof using WellFormed0.
  intros Hx Hn. pose proof fmt_top_emax. pose proof fmt_emax_ok. pose proof fmt_prec_ok. pose proof mw_pow_pos.
  destruct x as [s|s| |s m e]; cbn [pack]; [apply fields_range; lia..|done|].
  cbn [valid_binary] in Hx. apply bounded_canonical in Hx as [(He & Hm & Hc) Hmax]; [|done].
  pose proof mw_pow. pose proof (top_half prec fmt_prec_ok). pose proof fmt_emin_eq. fold (fmt_emin f) in *.
  destruct (Z.ltb_spec (Zpos m) (2 ^ fmt_mw f)); apply fields_range; lia.
Qed.
Lemma unpack_pack nan x : representable x -> unpack f (pack f nan x) = x.
Proof using WellFormed0.
  intros [Hx Hn]. pose proof fmt_top_emax. pose proof fmt_emax_ok. pose proof fmt_prec_ok. pose proof mw_pow_pos.
  destruct x as [s|s| |s m e]; cbn [pack]; [rewrite unpack_fields by lia..|done|].
  - by rewrite (proj2 (Z.eqb_neq 0 (fmt_top f))) by lia.
  - by rewrite Z.eqb_refl.
  - cbn [valid_binary] in Hx. apply bounded_canonical in Hx as [(He & Hm & Hc) Hmax]; [|done].
    pose proof mw_pow. pose proof (top_half prec fmt_prec_ok). pose proof fmt_emin_eq. fold (fmt_emin f) in *.
    destruct (Z.ltb_spec (Zpos m) (2 ^ fmt_mw f)); rewrite unpack_fields by lia.
    + rewrite (proj2 (Z.eqb_neq 0 (fmt_top f))) by lia. cbn [Z.eqb]. f_equal. lia.
    + rewrite (proj2 (Z.eqb_neq _ (fmt_top f))), (proj2 (Z.eqb_neq _ 0)) by lia. rewrite Z.sub_add. f_equal. lia.
Qed.
Lemma sf_is_nan_unpack bits : sf_is_nan (unpack f bits) = is_nan f bits.
Proof. unfold unpack, is_nan. repeat case_match; simpl in *; congruence. Qed.
Lemma pack_unpack nan bits : in_width (fmt_width f) bits -> is_nan f bits = false -> pack f nan (unpack f bits) = bits.
Proof using WellFormed0.
  intros Hw Hn. rewrite <-(fields_of bits Hw) at 2. unfold is_nan in Hn. unfold unpack.
  pose proof (frac_field_range bits) as Hm. pose proof (exp_field_range bits) as He.
  destruct (Z.eqb_spec (exp_field f bits) (fmt_top f)) as [Ht|].
  - apply negb_false_iff in Hn. rewrite Hn. apply Z.eqb_eq in Hn. cbn [pack]. congruence.
  - destruct (Z.eqb_spec (exp_field f bits) 0) as [E0|].
    + rewrite E0. destruct (frac_field f bits) as [|p|p] eqn:E; cbn [pack]; [done| |lia].
      by rewrite (proj2 (Z.ltb_lt _ _)) by lia.
    + destruct (frac_field f bits + 2 ^ fmt_mw f) as [|p|p] eqn:E; [lia| |lia]. cbn [pack].
      rewrite (proj2 (Z.ltb_ge _ _)) by lia. f_equal; lia.
Qed.

(** ** The value of a pattern *)

Definition magnitude (bits : Z) : Z :=
  if exp_field f bits =? 0 then frac_field f bits
  else (frac_field f bits + 2 ^ fmt_mw f) * 2 ^ (exp_field f bits - 1).
Definition value (bits : Z) : Z := signed (sign_field f bits) (magnitude bits).

Lemma value_unpack bits : is_nan f bits = false -> sf_value prec emax (unpack f bits) = value bits.
Proof using WellFormed0.
  intros Hn. unfold is_nan in Hn. unfold unpack, value, magnitude. pose proof (frac_field_range bits) as Hm.
  pose proof fmt_top_emax. pose proof fmt_emin_eq. pose proof fmt_emax_ok. pose proof fmt_prec_ok.
  assert (Hz : forall s, signed s 0 = 0) by by intros [].
  destruct (Z.eqb_spec (exp_field f bits) (fmt_top f)) as [Ht|].
  - apply negb_false_iff in Hn. rewrite Hn. apply Z.eqb_eq in Hn. rewrite Hn. cbn [sf_value].
    rewrite (proj2 (Z.eqb_neq _ 0)) by lia. f_equal. fold (fmt_emin f). pose proof wf_mw.
    rewrite Z.add_0_l, <-Z.pow_add_r by lia. f_equal. unfold fmt_prec in *. lia.
  - destruct (Z.eqb_spec (exp_field f bits) 0) as [E0|].
    + destruct (frac_field f bits) as [|p|p] eqn:E; cbn [sf_value]; [by rewrite Hz| |lia].
      fold (fmt_emin f). by rewrite Z.sub_diag, Z.mul_1_r.
    + destruct (frac_field f bits + 2 ^ fmt_mw f) as [|p|p] eqn:E; [lia| |lia]. cbn [sf_value]. fold (fmt_emin f).
      by rewrite Z.add_simpl_r.
Qed.
End Patterns.
