(* ===== verification/FpuProps.v ===== *)
(** What the floating-point unit computes: IEEE arithmetic with canonical
    NaNs, exact comparisons and conversions, the exception flags the unit
    derives itself, and the shape of the registers it writes. *)
From Stdlib Require Import SpecFloat.
From S2P Require Import Prelude Common History CpuProps Core Fpu FpuFormat.
Local Open Scope Z_scope.

(** * Specification *)

(** The IEEE operation of an instruction, on numbers. *)
Definition ieee (f : Format) (op : AluOp) (x y z : spec_float) : spec_float :=
  let p := fmt_prec f in
  let e := fmt_emax f in
  match op with
  | FAdd => SFadd p e x y
  | FSub => SFsub p e x y
  | FMul => SFmul p e x y
  | FDiv => SFdiv p e x y
  | FSqrt => SFsqrt p e x
  | FMAdd => SFfma p e x y z
  | FMSub => SFfma p e x y (SFopp z)
  | FNMAdd => SFfma p e (SFopp x) y (SFopp z)
  | FNMSub => SFfma p e (SFopp x) y z
  | _ => S754_nan
  end.

(** The format, and what a register holds in it. *)
Definition fmt_of (is32 : bool) : Format := if is32 then F32 else F64.
Definition operand (is32 : bool) (a : Z) : Z := if is32 then unbox_f32 a else a.
Definition register (is32 : bool) (r : Z) : Z := if is32 then box_f32 r else r.

(** Rust promises that the result of an invalid operation is a NaN of the type. *)
Class HostNan `{!HostFp} : Prop := {
  host_nan_width f src : f = F32 \/ f = F64 -> in_width (fmt_width f) (host_nan f src);
  host_nan_is_nan f src : f = F32 \/ f = F64 -> is_nan f (host_nan f src) = true
}.
#[export] Instance quiet_host_nan : @HostNan quiet_host.
Proof. split; intros f src [-> | ->]; by vm_compute. Qed.

#[export] Instance fmt_of_wf (is32 : bool) : WellFormed (fmt_of is32).
Proof. destruct is32; apply _. Qed.
Lemma fmt_of_cases is32 : fmt_of is32 = F32 \/ fmt_of is32 = F64.
Proof. destruct is32; auto. Qed.

(** * Masks *)

Lemma land_shiftl_mask (x y n : Z) : 0 <= n -> Z.land x (Z.shiftl y n) = Z.shiftl (Z.land (Z.shiftr x n) y) n.
Proof.
  intros Hn. apply Z.bits_inj'. intros i Hi. rewrite Z.land_spec, !Z.shiftl_spec by done.
  destruct (Z.ltb_spec i n).
  - rewrite (Z.testbit_neg_r y), (Z.testbit_neg_r (Z.land _ _)) by lia. by rewrite andb_false_r.
  - rewrite Z.land_spec, Z.shiftr_spec by lia. by rewrite Z.sub_add.
Qed.
Lemma shiftl_eqb (x y n : Z) : 0 <= n -> (Z.shiftl x n =? Z.shiftl y n) = (x =? y).
Proof.
  intros Hn. rewrite !Z.shiftl_mul_pow2 by done. pose proof (Z.pow_pos_nonneg 2 n ltac:(lia) Hn).
  destruct (Z.eqb_spec x y) as [->|]; [apply Z.eqb_refl|]. apply Z.eqb_neq. nia.
Qed.
(** The masked test for a NaN reads the fields. *)
Lemma nan_masks (f : Format) `{!WellFormed f} (bits : Z) :
  (Z.land bits (Z.shiftl (fmt_top f) (fmt_mw f)) =? Z.shiftl (fmt_top f) (fmt_mw f))
    && negb (Z.land bits (2 ^ fmt_mw f - 1) =? 0) = is_nan f bits.
Proof. pose proof (wf_mw (f := f)). rewrite land_shiftl_mask, shiftl_eqb by lia. done. Qed.
Lemma box_f32_canon_eq bits : box_f32_canon bits = box_f32 (if is_nan F32 bits then canonical_nan F32 else bits).
Proof. unfold box_f32_canon. by rewrite <-(nan_masks F32). Qed.
Lemma canonicalize_f64_bits_eq bits : canonicalize_f64_bits bits = if is_nan F64 bits then canonical_nan F64 else bits.
Proof. unfold canonicalize_f64_bits. by rewrite <-(nan_masks F64). Qed.

(** Negation of a pattern. *)
Lemma unpack_neg (f : Format) `{!WellFormed f} (bits : Z) : unpack f (f_neg f bits) = SFopp (unpack f bits).
Proof.
  pose proof (wf_mw (f := f)). pose proof (wf_ew (f := f)).
  assert (Hs : sign_field f (f_neg f bits) = negb (sign_field f bits)).
  { unfold sign_field, f_neg, sign_bit. rewrite Z.lxor_spec, Z.pow2_bits_true by (unfold fmt_width; lia). by destruct (Z.testbit _ _). }
  assert (He : exp_field f (f_neg f bits) = exp_field f bits).
  { unfold exp_field, f_neg, fmt_top. apply Z.bits_inj'. intros i Hi. rewrite !Z.land_spec, !Z.shiftr_spec, Z.lxor_spec by lia.
    rewrite pow2_pred_testbit by lia. destruct (Z.ltb_spec i (fmt_ew f)); [|by rewrite !andb_false_r].
    unfold sign_bit. rewrite Z.pow2_bits_false by (unfold fmt_width; lia). by rewrite xorb_false_r. }
  assert (Hm : frac_field f (f_neg f bits) = frac_field f bits).
  { unfold frac_field, f_neg. apply Z.bits_inj'. intros i Hi. rewrite !Z.land_spec, Z.lxor_spec by lia.
    rewrite pow2_pred_testbit by lia. destruct (Z.ltb_spec i (fmt_mw f)); [|by rewrite !andb_false_r].
    unfold sign_bit. rewrite Z.pow2_bits_false by (unfold fmt_width; lia). by rewrite xorb_false_r. }
  unfold unpack. rewrite Hs, He, Hm. by repeat case_match.
Qed.

(** * Arithmetic *)

Section Unit.
Context `{!HostFp} {HN : HostNan}.

Lemma SFopp_valid p e x : valid_binary p e (SFopp x) = valid_binary p e x.
Proof. by destruct x. Qed.
Lemma ieee_valid (f : Format) `{!WellFormed f} op a b c :
  valid_binary (fmt_prec f) (fmt_emax f) (ieee f op (unpack f a) (unpack f b) (unpack f c)) = true.
Proof.
  pose proof (fmt_prec_ok f). pose proof (fmt_emax_ok f). pose proof (unpack_valid f).
  assert (forall x, valid_binary (fmt_prec f) (fmt_emax f) (SFopp (unpack f x)) = true) by (intros; by rewrite SFopp_valid).
  destruct op; try done; cbn [ieee];
    first [apply SFadd_valid | apply SFsub_valid | apply SFmul_valid | apply SFdiv_valid | apply SFsqrt_valid | apply SFfma_valid]; auto.
Qed.
Lemma arith_ieee (f : Format) `{!WellFormed f} op a b c :
  is_arith op = true -> exists src, arith f op a b c = fpack f src (ieee f op (unpack f a) (unpack f b) (unpack f c)).
Proof. destruct op; try done; intros _; cbn [arith ieee]; unfold f_fma; rewrite <-?unpack_neg by apply _; eexists; reflexivity. Qed.

(** Packing, then replacing a NaN by the canonical one. *)
Lemma canon_pack is32 src x :
  let f := fmt_of is32 in
  valid_binary (fmt_prec f) (fmt_emax f) x = true ->
  let r := if is_nan f (fpack f src x) then canonical_nan f else fpack f src x in
  in_width (fmt_width f) r /\ unpack f r = x /\ (is_nan f r = true -> r = canonical_nan f).
Proof using HN.
  intros f Hx r. assert (Hc : unpack f (canonical_nan f) = S754_nan /\ in_width (fmt_width f) (canonical_nan f)) by (by destruct is32).
  destruct Hc as [Hc Hcw]. pose proof (host_nan_width f src (fmt_of_cases is32)). pose proof (host_nan_is_nan f src (fmt_of_cases is32)) as Hn.
  destruct (sf_is_nan x) eqn:E.
  - destruct x; try done. unfold r, fpack. cbn [pack]. rewrite Hn. done.
  - assert (Hu : unpack f (fpack f src x) = x) by (apply unpack_pack; [apply _|by split]).
    assert (Hn2 : is_nan f (fpack f src x) = false) by by rewrite <-sf_is_nan_unpack, Hu.
    unfold r. rewrite Hn2. split_and!; [apply pack_in_width; try apply _; done|done|congruence].
Qed.

(** The result of an arithmetic instruction, before it is read back. *)
Definition ieee_of (is32 : bool) (op : AluOp) (a b c : Z) : spec_float :=
  let num v := unpack (fmt_of is32) (operand is32 v) in ieee (fmt_of is32) op (num a) (num b) (num c).
Definition canon (f : Format) (r : Z) : Z := if is_nan f r then canonical_nan f else r.
Lemma arith_register op a b c is32 :
  is_arith op = true -> exists src,
  fpu_execute op a b c is32 = register is32 (canon (fmt_of is32) (fpack (fmt_of is32) src (ieee_of is32 op a b c))).
Proof.
  intros Hop. destruct (arith_ieee (fmt_of is32) op (operand is32 a) (operand is32 b) (operand is32 c) Hop) as [src E].
  exists src. unfold ieee_of. cbv zeta. rewrite <-E.
  destruct is32; unfold fpu_execute, execute_f32, execute_f64; cbn [fmt_of operand register]; unfold canon.
  - rewrite <-box_f32_canon_eq. by destruct op.
  - rewrite <-canonicalize_f64_bits_eq. by destruct op.
Qed.

(** C13. Every arithmetic instruction of the unit, in both precisions and the
    fused forms with their negations, writes the pattern of the IEEE 754 result
    of the numbers its operands hold (a single that is not boxed holds a NaN),
    whatever NaN the host produces: a NaN result is the canonical one, and a
    single is boxed. *)
Theorem fpu_arith_ieee op a b c is32 :
  is_arith op = true ->
  let f := fmt_of is32 in
  let num v := unpack f (operand is32 v) in
  exists r, fpu_execute op a b c is32 = register is32 r /\ in_width (fmt_width f) r /\
    unpack f r = ieee f op (num a) (num b) (num c) /\ (is_nan f r = true -> r = canonical_nan f).
Proof using HN.
  intros Hop f num. destruct (arith_register op a b c is32 Hop) as [src E]. eexists. split; [exact E|]. apply (canon_pack is32), ieee_valid, _.
Qed.
End Unit.

Lemma fpu_arith_ieee_witness :
  exists r, @fpu_execute quiet_host FDiv (box_f32 0x3F800000) (box_f32 0x40400000) 0 true = register true r /\
    in_width 32 r /\ unpack F32 r = ieee F32 FDiv (S754_finite false 0x800000 (-23)) (S754_finite false 0xC00000 (-22)) (S754_zero false) /\
    (is_nan F32 r = true -> r = canonical_nan F32).
Proof.
  destruct (@fpu_arith_ieee quiet_host _ FDiv (box_f32 0x3F800000) (box_f32 0x40400000) (box_f32 0) true eq_refl) as (r & H1 & H2 & H3 & H4).
  exists r. split; [exact H1|]. split; [exact H2|]. split; [exact H3|exact H4].
Defined.

(** * Order *)

Section Order.
Context (f : Format) `{!WellFormed f}.

Lemma SFcompare_unpack a b :
  is_nan f a = false -> is_nan f b = false -> SFcompare (unpack f a) (unpack f b) = Some (value f a ?= value f b).
Proof using WellFormed0.
  intros Ha Hb. rewrite (SFcompare_value (fmt_prec f) (fmt_emax f)), !value_unpack; rewrite ?sf_is_nan_unpack; try done.
  - by apply fmt_prec_ok.
  - by apply fmt_emax_ok.
  - by apply unpack_valid.
  - by apply unpack_valid.
Qed.
Lemma SFcompare_nan a b : is_nan f a || is_nan f b = true -> SFcompare (unpack f a) (unpack f b) = None.
Proof. rewrite <-!sf_is_nan_unpack. destruct (unpack f a), (unpack f b); simpl; try done; by destruct (s : bool). Qed.

(** The order of the numbers with the negative zero below the positive one. *)
Definition key (v : Z) : Z := 2 * value f v - Z.b2z (sign_field f v).

Lemma magnitude_nonneg v : 0 <= magnitude f v.
Proof using WellFormed0.
  unfold magnitude. pose proof (frac_field_range f v). pose proof (exp_field_range f v). pose proof (mw_pow_pos f).
  case_match eqn:E; [lia|]. apply Z.eqb_neq in E. apply Z.mul_nonneg_nonneg; [lia|]. apply Z.pow_nonneg. lia.
Qed.
Lemma magnitude_zero v : in_width (fmt_width f) v -> magnitude f v = 0 -> v = if sign_field f v then sign_bit f else 0.
Proof using WellFormed0.
  intros Hw Hm. rewrite <-(fields_of f v Hw) at 1. unfold magnitude in Hm. pose proof (frac_field_range f v).
  pose proof (exp_field_range f v). pose proof (mw_pow_pos f). unfold fields.
  case_match eqn:E; [apply Z.eqb_eq in E; rewrite E, Hm; lia|]. apply Z.eqb_neq in E.
  pose proof (Z.pow_pos_nonneg 2 (exp_field f v - 1)). nia.
Qed.
Lemma sign_zero : sign_field f 0 = false.
Proof. apply Z.testbit_0_l. Qed.
Lemma sign_sign_bit : sign_field f (sign_bit f) = true.
Proof using WellFormed0.
  pose proof (wf_mw (f := f)). pose proof (wf_ew (f := f)). apply Z.pow2_bits_true. unfold fmt_width. lia.
Qed.
(** The special cases for zeros, and the order of the values, make the order
    of the keys. *)
Lemma key_le a b :
  in_width (fmt_width f) a -> in_width (fmt_width f) b ->
  key a <= key b <-> value f a < value f b \/ value f a = value f b /\ ~ (a = 0 /\ b = sign_bit f).
Proof using WellFormed0.
  intros Ha Hb. unfold key, value, signed. pose proof (magnitude_nonneg a). pose proof (magnitude_nonneg b).
  pose proof (magnitude_zero a Ha) as Hza. pose proof (magnitude_zero b Hb) as Hzb. pose proof (sign_bit_pos f).
  split.
  - destruct (sign_field f a) eqn:Ea, (sign_field f b) eqn:Eb; simpl Z.b2z; intros Hle.
    + destruct (Z.eq_dec (magnitude f a) (magnitude f b)); [right|lia]. split; [lia|]. intros [-> _]. by rewrite sign_zero in Ea.
    + destruct (Z.eq_dec (- magnitude f a) (magnitude f b)); [right|lia]. split; [lia|]. intros [-> _]. by rewrite sign_zero in Ea.
    + lia.
    + destruct (Z.eq_dec (magnitude f a) (magnitude f b)); [right|lia]. split; [lia|]. intros [_ ->]. by rewrite sign_sign_bit in Eb.
  - destruct (sign_field f a) eqn:Ea, (sign_field f b) eqn:Eb; simpl Z.b2z; intros [Hlt|[Heq Hn]]; lia.
Qed.
Lemma num_le a b : is_nan f a = false -> is_nan f b = false -> SFleb (unpack f a) (unpack f b) = (value f a <=? value f b).
Proof using WellFormed0. intros Ha Hb. unfold SFleb. rewrite SFcompare_unpack by done. unfold Z.leb. by case_match. Qed.
Lemma value_zeros : value f 0 = 0 /\ value f (sign_bit f) = 0.
Proof using WellFormed0.
  pose proof (mw_pow_pos f). pose proof (exp_field_range f 0).
  assert (E : forall s, value f (fields f s 0 0) = 0).
  { intros s. unfold value, magnitude. destruct (fields_fields f s 0 0) as (-> & -> & ->); [lia..|]. by destruct s. }
  split; [transitivity (value f (fields f false 0 0))|transitivity (value f (fields f true 0 0))]; try apply E;
    f_equal; unfold fields; lia.
Qed.
Lemma fmin_key a b :
  in_width (fmt_width f) a -> in_width (fmt_width f) b -> is_nan f a = false -> is_nan f b = false ->
  fmin f a b = if key a <=? key b then a else b.
Proof using WellFormed0.
  intros Ha Hb Hna Hnb. unfold fmin, num_min. rewrite Hna, Hnb, num_le by done.
  pose proof (key_le a b Ha Hb) as Hk. pose proof (sign_bit_pos f). destruct value_zeros as [Hv0 Hvs].
  destruct (Z.leb_spec (key a) (key b)) as [Hle|Hlt].
  - apply Hk in Hle. destruct (Z.eqb_spec a (sign_bit f)), (Z.eqb_spec b 0), (Z.eqb_spec b (sign_bit f)), (Z.eqb_spec a 0);
      simpl; subst; try done; try lia; case_match eqn:E; try done; apply Z.leb_gt in E; lia.
  - assert (~ (key a <= key b)) as Hn by lia. rewrite Hk in Hn.
    destruct (Z.eqb_spec a (sign_bit f)), (Z.eqb_spec b 0), (Z.eqb_spec b (sign_bit f)), (Z.eqb_spec a 0);
      simpl; subst; try done; try lia; case_match eqn:E; try done; apply Z.leb_le in E; lia.
Qed.
Lemma fmax_key a b :
  in_width (fmt_width f) a -> in_width (fmt_width f) b -> is_nan f a = false -> is_nan f b = false ->
  fmax f a b = if key b <=? key a then a else b.
Proof using WellFormed0.
  intros Ha Hb Hna Hnb. unfold fmax, num_max. rewrite Hna, Hnb, num_le by done.
  pose proof (key_le b a Hb Ha) as Hk. pose proof (sign_bit_pos f). destruct value_zeros as [Hv0 Hvs].
  destruct (Z.leb_spec (key b) (key a)) as [Hle|Hlt].
  - apply Hk in Hle. destruct (Z.eqb_spec a 0), (Z.eqb_spec b (sign_bit f)), (Z.eqb_spec b 0), (Z.eqb_spec a (sign_bit f));
      simpl; subst; try done; try lia; case_match eqn:E; try done; apply Z.leb_gt in E; lia.
  - assert (~ (key b <= key a)) as Hn by lia. rewrite Hk in Hn.
    destruct (Z.eqb_spec a 0), (Z.eqb_spec b (sign_bit f)), (Z.eqb_spec b 0), (Z.eqb_spec a (sign_bit f));
      simpl; subst; try done; try lia; case_match eqn:E; try done; apply Z.leb_le in E; lia.
Qed.
End Order.

Lemma unbox_width a : in_width 32 (unbox_f32 a).
Proof. unfold unbox_f32. case_match; [apply wrap_range; lia|done]. Qed.
Lemma operand_width is32 a : in_width 64 a -> in_width (fmt_width (fmt_of is32)) (operand is32 a).
Proof. destruct is32; [intros _; apply unbox_width|done]. Qed.

(** What a comparison answers on two operands of a format. *)
Definition compare_spec (f : Format) (op : AluOp) (a b : Z) : bool :=
  negb (is_nan f a || is_nan f b) &&
  match op with FEq => value f a =? value f b | FLt => value f a <? value f b | _ => value f a <=? value f b end.
(** The smaller, or larger, operand by [key], and the other operand or the
    canonical NaN when there are NaNs. *)
Definition minmax_spec (f : Format) (op : AluOp) (a b : Z) : Z :=
  match is_nan f a, is_nan f b with
  | true, true => canonical_nan f
  | true, false => b
  | false, true => a
  | false, false => if (match op with FMin => key f a <=? key f b | _ => key f b <=? key f a end) then a else b
  end.
(** The invalid flag: of a quiet NaN too for the ordering comparisons. *)
Definition invalid_spec (f : Format) (op : AluOp) (a b : Z) : Z :=
  let signals v := match op with FLt | FLe => is_nan f v | _ => is_snan f v end in
  if signals a || signals b then FP_NV else FP_NONE.

Lemma compare_unpack (f : Format) `{!WellFormed f} op a b :
  op ∈ [FEq; FLt; FLe] -> compare op (unpack f a) (unpack f b) = Z.b2z (compare_spec f op a b).
Proof.
  intros Hop. unfold compare, compare_spec. destruct (is_nan f a || is_nan f b) eqn:E.
  - pose proof (SFcompare_nan f a b E) as En. unfold SFeqb, SFltb, SFleb. rewrite En. by destruct op.
  - apply orb_false_iff in E as [E1 E2]. unfold SFeqb, SFltb, SFleb, Z.ltb, Z.leb. rewrite Z.eqb_compare.
    rewrite (SFcompare_unpack f) by done. repeat (apply elem_of_cons in Hop as [->|Hop]; [by case_match|]).
    by apply elem_of_nil in Hop.
Qed.

(** C15. FEQ, FLT and FLE compare the exact values of their operands and are
    false of a NaN; FMIN and FMAX choose an operand by exact value with the
    negative zero below the positive one, the other operand when one is a NaN
    and the canonical NaN when both are.  The invalid flag is raised for a
    signalling NaN, and by FLT and FLE for any NaN. *)
Theorem fpu_order_exact `{!HostFp} op a b c is32 :
  op ∈ [FEq; FLt; FLe; FMin; FMax] -> in_width 64 a -> in_width 64 b ->
  let f := fmt_of is32 in
  let va := operand is32 a in
  let vb := operand is32 b in
  execute_full op a b c is32 =
  (match op with
   | FMin | FMax => register is32 (minmax_spec f op va vb)
   | _ => Z.b2z (compare_spec f op va vb)
   end, invalid_spec f op va vb).
Proof.
  intros Hop Ha Hb f va vb. pose proof (operand_width is32 a Ha) as Hwa. pose proof (operand_width is32 b Hb) as Hwb.
  assert (WellFormed f) by apply fmt_of_wf. assert (Hmin : fmin f va vb = minmax_spec f FMin va vb).
  { unfold minmax_spec. destruct (is_nan f va) eqn:Ea, (is_nan f vb) eqn:Eb; [unfold fmin; by rewrite Ea, Eb..|by apply fmin_key]. }
  assert (Hmax : fmax f va vb = minmax_spec f FMax va vb).
  { unfold minmax_spec. destruct (is_nan f va) eqn:Ea, (is_nan f vb) eqn:Eb; [unfold fmax; by rewrite Ea, Eb..|by apply fmax_key]. }
  repeat (apply elem_of_cons in Hop as [->|Hop]; [|]); [..|by apply elem_of_nil in Hop];
    (unfold execute_full; f_equal; [|by destruct is32]); destruct is32; cbn [fpu_execute execute_f32 execute_f64];
    first [exact (f_equal (register true) Hmin) | exact (f_equal (register true) Hmax) | exact Hmin | exact Hmax
          | apply (compare_unpack F32); set_solver | apply (compare_unpack F64); set_solver].
Qed.

Lemma fpu_order_exact_witness :
  @execute_full quiet_host FMin 0x8000000000000000 0 0 false = (0x8000000000000000, FP_NONE) /\
  @execute_full quiet_host FLt (box_f32 0x7fc00000) (box_f32 0) 0 true = (0, FP_NV).
Proof.
  split.
  - rewrite (@fpu_order_exact quiet_host FMin _ _ _ false); [by vm_compute|set_solver|done..].
  - rewrite (@fpu_order_exact quiet_host FLt _ _ _ true); [by vm_compute|set_solver|done..].
Defined.

(** * Conversion to integers *)

(** The integer types of the instructions. *)
Definition int_range (op : AluOp) : Z * Z :=
  match op with
  | FCvtWS => (- 2 ^ 31, 2 ^ 31 - 1)
  | FCvtWUS => (0, 2 ^ 32 - 1)
  | FCvtLS => (- 2 ^ 63, 2 ^ 63 - 1)
  | _ => (0, 2 ^ 64 - 1)
  end.
(** How the integer is written to a 64-bit register. *)
Definition int_register (op : AluOp) (n : Z) : Z :=
  match op with FCvtWS | FCvtWUS => sext_w n | FCvtLS => u64 n | _ => n end.
(** The value of a pattern is a fraction over this. *)
Definition unit_den (f : Format) : Z := 2 ^ (- fmt_emin f).
(** The integer an operand converts to, and the flags. *)
Definition int_spec (f : Format) (op : AluOp) (v : Z) : Z :=
  let '(lo, hi) := int_range op in
  if is_nan f v then hi else Z.max lo (Z.min (Z.quot (value f v) (unit_den f)) hi).
Definition int_flags (f : Format) (op : AluOp) (v : Z) : Z :=
  let '(lo, hi) := int_range op in
  let q := Z.quot (value f v) (unit_den f) in
  if exp_field f v =? fmt_top f then FP_NV
  else if (q <? lo) || (hi <? q) then FP_NV
  else if Z.rem (value f v) (unit_den f) =? 0 then FP_NONE else FP_NX.
(** A finite operand of FCVT.LU that is 2^64 or more. *)
Definition above_u64 (f : Format) (op : AluOp) (v : Z) : bool :=
  match op with
  | FCvtLUS => negb (exp_field f v =? fmt_top f) && (2 ^ 64 <=? Z.quot (value f v) (unit_den f))
  | _ => false
  end.

Section Convert.
Notation prec := (fmt_prec F64).
Notation emax := (fmt_emax F64).
Notation valid x := (valid_binary prec emax x = true).
Notation sval := (sf_value prec emax).
Notation den := (unit_den F64).

Lemma signed_quot s m d : 0 < d -> 0 <= m -> Z.quot (signed s m) d = signed s (m / d).
Proof.
  intros Hd Hm. destruct s; cbn [signed]; [rewrite Z.quot_opp_l by lia|]; by rewrite Z.quot_div_nonneg by lia.
Qed.
Lemma shift_value (m e : Z) :
  0 <= m -> fmt_emin F64 <= e -> Z.shiftl m e = m * 2 ^ (e - fmt_emin F64) / den.
Proof.
  intros Hm He. unfold unit_den. assert (Hneg : fmt_emin F64 < 0) by done. revert He Hneg. generalize (fmt_emin F64). intros k He Hk.
  destruct (Z.le_gt_cases 0 e).
  - rewrite Z.shiftl_mul_pow2 by done. replace (e - k) with (e + - k) by lia. rewrite Z.pow_add_r, Z.mul_assoc by lia.
    rewrite Z.div_mul; [done|]. apply Z.pow_nonzero; lia.
  - rewrite Z.shiftl_div_pow2 by lia. replace (- k) with ((e - k) + - e) by lia.
    rewrite Z.pow_add_r, (Z.mul_comm m) by lia. rewrite Z.div_mul_cancel_l; [done|apply Z.pow_nonzero; lia..].
Qed.

Lemma sat_int_value lo hi x :
  lo <= 0 <= hi -> valid x -> sf_is_nan x = false -> - 2 ^ 64 <= lo -> hi < 2 ^ 64 ->
  sat_int lo hi x = Z.max lo (Z.min (Z.quot (sval x) den) hi).
Proof.
  intros Hr Hx Hn Hlo Hhi. destruct x as [s|s| |s m e]; try done; cbn [sat_int sf_value].
  - rewrite Z.quot_0_l by done. lia.
  - assert (E : Z.quot (2 ^ (emax - emin prec emax)) den = 2 ^ 1024) by by vm_compute.
    destruct s; cbn [signed]; [rewrite Z.quot_opp_l by done|]; rewrite E; lia.
  - cbn [valid_binary] in Hx. apply bounded_canonical in Hx as [[He _] _]; [|done].
    unfold int_part. rewrite (shift_value (Zpos m) e), signed_quot; [done|done| |lia|done].
    apply Z.mul_nonneg_nonneg; [lia|]. by apply Z.pow_nonneg.
Qed.

(** Comparisons as comparisons of values. *)
Definition number (x : spec_float) : Prop := valid x /\ sf_is_nan x = false.
Lemma SFltb_value x y : number x -> number y -> SFltb x y = (sval x <? sval y).
Proof. intros [] []. unfold SFltb, Z.ltb. rewrite (SFcompare_value prec emax) by done. by case_match. Qed.
Lemma SFleb_value x y : number x -> number y -> SFleb x y = (sval x <=? sval y).
Proof. intros [] []. unfold SFleb, Z.leb. rewrite (SFcompare_value prec emax) by done. by case_match. Qed.
Lemma SFeqb_value x y : number x -> number y -> SFeqb x y = (sval x =? sval y).
Proof. intros [] []. unfold SFeqb. rewrite Z.eqb_compare, (SFcompare_value prec emax) by done. by case_match. Qed.

(** [trunc] is exact: the integer part, in the format. *)
Lemma trunc_canonical (m e : Z) :
  in_format prec emax m e -> e < 0 -> 0 < Z.shiftr m (- e) -> in_format prec emax (Z.shiftl (Z.shiftr m (- e)) (- e)) e.
Proof.
  intros (He & [Hm Hmt] & Hc) Hneg Hq. rewrite Z.shiftr_div_pow2 in * by lia. rewrite Z.shiftl_mul_pow2 by lia.
  assert (Hp : 0 < 2 ^ (- e)) by (apply Z.pow_pos_nonneg; lia). set (q := m / 2 ^ (- e)) in *.
  pose proof (Z.mul_div_le m (2 ^ (- e)) Hp). fold q in H. pose proof (Z.mul_succ_div_gt m (2 ^ (- e)) Hp) as Hgt. fold q in Hgt.
  split; [done|]. split; [nia|]. destruct Hc as [Hc|Hc]; [left|by right].
  assert (2 ^ (- e) < 2 ^ prec) by nia. apply Z.pow_lt_mono_r_iff in H0; [|done..].
  assert (E : 2 ^ (prec - 1) = 2 ^ (prec - 1 + e) * 2 ^ (- e)) by (rewrite <-Z.pow_add_r by lia; f_equal; lia).
  assert (2 ^ (prec - 1 + e) < Z.succ q) by (apply (Z.mul_lt_mono_pos_r (2 ^ (- e))); lia). rewrite E. nia.
Qed.
Lemma trunc_value x :
  number x -> sf_is_infinite x = false -> number (f_trunc x) /\ sval (f_trunc x) = Z.quot (sval x) den * den.
Proof.
  intros [Hx Hn] Hi. destruct x as [s|s| |s m e]; try done; cbn [f_trunc].
  cbn [valid_binary] in Hx. apply bounded_canonical in Hx as [Hc Hmax]; [|done]. pose proof Hc as (He & [Hm _] & _).
  assert (Hv : Z.quot (sval (S754_finite s m e)) den = signed s (Z.shiftl (Zpos m) e)).
  { cbn [sf_value]. rewrite signed_quot, (shift_value (Zpos m) e); [done|lia|done|done|]. 
    apply Z.mul_nonneg_nonneg; [lia|]. by apply Z.pow_nonneg. }
  assert (Hden : den = 2 ^ (- fmt_emin F64)) by done. assert (Hneg : fmt_emin F64 < 0) by done.
  assert (Hs : forall a b, signed s a * b = signed s (a * b)) by (intros a b; destruct s; simpl; lia).
  destruct (Z.leb_spec 0 e).
  - split; [split; [|done]; cbn [valid_binary]; by apply bounded_canonical|].
    rewrite Hv, Hs, Hden. cbn [sf_value]. f_equal.
    rewrite Z.shiftl_mul_pow2, <-Z.mul_assoc, <-Z.pow_add_r by lia. by do 2 f_equal; unfold fmt_emin; lia.
  - rewrite Hv, Hs, Hden. replace (Z.shiftl (Zpos m) e) with (Z.shiftr (Zpos m) (- e)) by (rewrite <-Z.shiftl_opp_r; f_equal; lia).
    assert (0 <= Z.shiftr (Zpos m) (- e)) by by apply Z.shiftr_nonneg.
    destruct (Z.shiftr (Zpos m) (- e)) as [|q|q] eqn:E; [|..|lia]; [split; [done|]; by destruct s|].
    pose proof (trunc_canonical (Zpos m) e Hc ltac:(lia)) as Ht. rewrite E in Ht. specialize (Ht eq_refl).
    assert (Hpos : 0 < Z.shiftl (Zpos q) (- e)) by by destruct Ht as (_ & [? _] & _).
    split; [split; [|done]; cbn [valid_binary]; apply bounded_canonical; [done|by rewrite Z2Pos.id]|].
    cbn [sf_value]. rewrite Z2Pos.id by done. f_equal. rewrite Z.shiftl_mul_pow2, <-Z.mul_assoc, <-Z.pow_add_r by lia.
    by do 2 f_equal; unfold fmt_emin; lia.
Qed.
Lemma const_value n : n ∈ [- 2 ^ 31; 2 ^ 31; 0; 2 ^ 32; - 2 ^ 63; 2 ^ 63] -> number (f64_const n) /\ sval (f64_const n) = n * den.
Proof. intros Hn. repeat (apply elem_of_cons in Hn as [->|Hn]; [by vm_compute|]). by apply elem_of_nil in Hn. Qed.

Definition is_to_int (op : AluOp) : bool := match op with FCvtWS | FCvtWUS | FCvtLS | FCvtLUS => true | _ => false end.

Lemma overflow_value op x :
  is_to_int op = true -> number x -> sf_is_infinite x = false ->
  let q := Z.quot (sval x) den in
  conversion_overflow op (f_trunc x) =
  (q <? fst (int_range op)) || match op with FCvtLUS => false | _ => snd (int_range op) <? q end.
Proof.
  intros Hop Hx Hi q. destruct (trunc_value x Hx Hi) as [Ht Hv]. fold q in Hv.
  assert (Hd : 0 < den) by done.
  assert (Hr : forall lo hi, lo ∈ [- 2 ^ 31; 2 ^ 31; 0; 2 ^ 32; - 2 ^ 63; 2 ^ 63] -> hi ∈ [- 2 ^ 31; 2 ^ 31; 0; 2 ^ 32; - 2 ^ 63; 2 ^ 63] ->
    negb (in_f64_range lo hi (f_trunc x)) = (q <? lo) || (hi - 1 <? q)).
  { intros lo hi Hlo Hhi. destruct (const_value lo Hlo) as [Hl1 Hl2], (const_value hi Hhi) as [Hh1 Hh2].
    unfold in_f64_range. rewrite SFleb_value, SFltb_value, Hv, Hl2, Hh2 by done.
    destruct (Z.leb_spec (lo * den) (q * den)), (Z.ltb_spec (q * den) (hi * den)), (Z.ltb_spec q lo), (Z.ltb_spec (hi - 1) q);
      simpl; try done; nia. }
  destruct op; try done; cbn [conversion_overflow int_range fst snd]; try (rewrite Hr by set_solver; done).
  destruct (const_value 0 ltac:(set_solver)) as [Hl1 Hl2]. rewrite SFltb_value, Hv, Hl2, orb_false_r by done.
  destruct (Z.ltb_spec (q * den) (0 * den)), (Z.ltb_spec q 0); try done; nia.
Qed.
Lemma inexact_value x :
  number x -> sf_is_infinite x = false -> SFeqb x (f_trunc x) = (Z.rem (sval x) den =? 0).
Proof.
  intros Hx Hi. destruct (trunc_value x Hx Hi) as [Ht Hv]. rewrite SFeqb_value, Hv by done.
  pose proof (Z.quot_rem' (sval x) den). destruct (Z.eqb_spec (Z.rem (sval x) den) 0), (Z.eqb_spec (sval x) (Z.quot (sval x) den * den)); try done; lia.
Qed.

(** ** Widening is exact *)

(** The ratio of the units of the two formats. *)
Definition widening : Z := 2 ^ (fmt_emin F32 - fmt_emin F64).

Lemma widen_finite s m e :
  bounded (fmt_prec F32) (fmt_emax F32) m e = true ->
  exists m' k, SFconvert prec emax (S754_finite s m e) = S754_finite s m' (e - k) /\ 0 <= k /\
    Zpos m' = Z.shiftl (Zpos m) k /\ bounded prec emax m' (e - k) = true.
Proof.
  intros Hb. apply bounded_canonical in Hb as [Hc He]; [|done]. pose proof (canonical_digits _ _ (fmt_prec_ok F32) _ _ Hc) as Hd.
  destruct Hc as (? & [_ ?] & _). apply binary_round_exact; try done.
  - assert (2 ^ fmt_prec F32 < 2 ^ prec) by done. lia.
  - assert (emin prec emax < emin (fmt_prec F32) (fmt_emax F32)) by done. lia.
  - destruct Hd as [? _]. assert (fmt_emax F32 < emax) by done. lia.
Qed.
Lemma widen_spec v :
  let x := f_widen v in
  sf_is_nan x = is_nan F32 v /\ (sf_is_nan x || sf_is_infinite x = (exp_field F32 v =? fmt_top F32)) /\
  valid x /\ (sf_is_nan x || sf_is_infinite x = false -> sval x = value F32 v * widening).
Proof.
  intros x. pose proof (unpack_valid F32 v) as Hv. pose proof (sf_is_nan_unpack F32 v) as Hn.
  assert (He : sf_is_nan (unpack F32 v) || sf_is_infinite (unpack F32 v) = (exp_field F32 v =? fmt_top F32)).
  { unfold unpack. by repeat case_match. }
  pose proof (value_unpack F32 v) as Hval. rewrite <-Hn, <-He. unfold x, f_widen.
  destruct (unpack F32 v) as [s|s| |s m e]; try done.
  - split_and!; try done. intros _. rewrite <-Hval; done.
  - cbn [valid_binary] in Hv. destruct (widen_finite s m e Hv) as (m' & k & -> & Hk & Hm' & Hb).
    split_and!; try done. intros _. rewrite <-Hval by done. cbn [sf_value]. rewrite Hm', Z.shiftl_mul_pow2 by done.
    apply bounded_canonical in Hv as [(He1 & _) _]; [|done]. apply bounded_canonical in Hb as [(He2 & _) _]; [|done].
    assert (E : forall a b, signed s a * b = signed s (a * b)) by (intros; destruct s; simpl; lia). rewrite E. f_equal.
    unfold widening. fold (fmt_emin F32) in *. fold (fmt_emin F64) in *.
    rewrite <-!Z.mul_assoc, <-!Z.pow_add_r by (done || lia). do 2 f_equal. lia.
Qed.
Lemma den_widening : den = unit_den F32 * widening.
Proof. done. Qed.

(** ** Both precisions *)

(** What the unit converts, as a double-precision number. *)
Definition converted (is32 : bool) (a : Z) : spec_float := if is32 then f_widen (unbox_f32 a) else unpack F64 a.
Lemma converted_spec is32 a :
  let f := fmt_of is32 in
  let v := operand is32 a in
  let x := converted is32 a in
  valid x /\ sf_is_nan x = is_nan f v /\ (sf_is_nan x || sf_is_infinite x = (exp_field f v =? fmt_top f)) /\
  (sf_is_nan x || sf_is_infinite x = false ->
     Z.quot (sval x) den = Z.quot (value f v) (unit_den f) /\
     (Z.rem (sval x) den =? 0) = (Z.rem (value f v) (unit_den f) =? 0)).
Proof.
  destruct is32; cbn [fmt_of operand converted].
  - destruct (widen_spec (unbox_f32 a)) as (H1 & H2 & H3 & H4). split_and!; try done. intros Hf. rewrite (H4 Hf), den_widening.
    assert (unit_den F32 <> 0) by done. assert (widening <> 0) by done.
    rewrite Z.quot_mul_cancel_r, Z.mul_rem_distr_r by done. split; [done|].
    destruct (Z.eqb_spec (Z.rem (value F32 (unbox_f32 a)) (unit_den F32)) 0) as [->|]; [done|]. apply Z.eqb_neq. nia.
  - pose proof (sf_is_nan_unpack F64 a) as Hn. split_and!; [by apply unpack_valid|done| |].
    + unfold unpack. by repeat case_match.
    + intros Hf. apply orb_false_iff in Hf as [Hf _]. rewrite value_unpack; [done|apply _|congruence].
Qed.
End Convert.

(** An infinity is beyond every integer type. *)
Lemma infinite_value (is32 : bool) v :
  let f := fmt_of is32 in
  exp_field f v = fmt_top f -> is_nan f v = false ->
  Z.quot (value f v) (unit_den f) = signed (sign_field f v) (2 ^ fmt_emax f).
Proof.
  intros f He Hn. unfold is_nan in Hn. rewrite He, Z.eqb_refl in Hn. apply negb_false_iff, Z.eqb_eq in Hn.
  assert (E : (0 + 2 ^ fmt_mw f) * 2 ^ (fmt_top f - 1) = 2 ^ fmt_emax f * unit_den f) by (unfold f; destruct is32; by vm_compute).
  assert (Ht : (fmt_top f =? 0) = false) by (unfold f; by destruct is32). assert (Hd : 0 < unit_den f) by (unfold f; by destruct is32).
  unfold value, magnitude. rewrite He, Ht, Hn, E, signed_quot; [by rewrite Z.div_mul by lia|done|].
  apply Z.mul_nonneg_nonneg; [|lia]. by apply Z.pow_nonneg.
Qed.

Lemma converted_infinity is32 a s :
  converted is32 a = S754_infinity s -> sign_field (fmt_of is32) (operand is32 a) = s.
Proof.
  destruct is32; cbn [fmt_of operand converted].
  - intros E. destruct (widen_spec (unbox_f32 a)) as (_ & H2 & _ & _). rewrite E in H2. cbn in H2.
    pose proof (unpack_valid F32 (unbox_f32 a)) as Hv. unfold f_widen in E.
    destruct (unpack F32 (unbox_f32 a)) as [| | |s1 m e] eqn:Eu; try done.
    + injection E as ->. revert Eu. unfold unpack. repeat case_match; congruence.
    + destruct (widen_finite s1 m e Hv) as (m' & k & E2 & _). congruence.
  - unfold unpack. repeat case_match; congruence.
Qed.
Lemma to_int_spec op is32 a :
  is_to_int op = true -> fp_to_int op (converted is32 a) = int_register op (int_spec (fmt_of is32) op (operand is32 a)).
Proof.
  intros Hop. set (f := fmt_of is32). set (v := operand is32 a).
  assert (E : forall lo hi, int_range op = (lo, hi) -> f64_to_int_rv lo hi (converted is32 a) = int_spec f op v).
  { intros lo hi Hr. assert (lo <= 0 <= hi /\ - 2 ^ 64 <= lo /\ hi < 2 ^ 64) as (? & ? & ?) by (destruct op; try done; injection Hr as <- <-; lia).
    unfold f64_to_int_rv, int_spec. rewrite Hr. destruct (converted_spec is32 a) as (Hv & Hn & Hi & Hq).
    fold f v in Hn, Hi, Hq. rewrite <-Hn. destruct (sf_is_nan (converted is32 a)) eqn:En; [done|]. cbn [orb] in *.
    destruct (sf_is_infinite (converted is32 a)) eqn:Ei.
    - destruct (converted is32 a) as [|s| |] eqn:Ex; try done. rewrite <-(converted_infinity is32 a s Ex). fold f v.
      pose proof (infinite_value is32 v) as Hv2. cbv zeta in Hv2. fold f in Hv2.
      rewrite Hv2 by (by apply Z.eqb_eq || congruence). cbn [sat_int].
      assert (2 ^ 64 <= 2 ^ fmt_emax f) by (unfold f; by destruct is32). destruct (sign_field f v); cbn [signed]; lia.
    - rewrite sat_int_value by done. by destruct Hq as [-> _]. }
  destruct op; try done; cbn [fp_to_int int_register]; unfold f64_to_i32_rv, f64_to_u32_rv, f64_to_i64_rv, f64_to_u64_rv;
    by rewrite (E _ _ eq_refl).
Qed.
Lemma conversion_flags_spec op is32 a :
  is_to_int op = true -> conversion_flags op (converted is32 a) =
    if above_u64 (fmt_of is32) op (operand is32 a)
    then if Z.rem (value (fmt_of is32) (operand is32 a)) (unit_den (fmt_of is32)) =? 0 then FP_NONE else FP_NX
    else int_flags (fmt_of is32) op (operand is32 a).
Proof.
  intros Hop. destruct (converted_spec is32 a) as (Hv & Hn & Hi & Hq). unfold conversion_flags, int_flags, above_u64.
  rewrite Hi in *. set (f := fmt_of is32) in *. set (v := operand is32 a) in *.
  destruct (int_range op) as [lo hi] eqn:Hr. destruct (exp_field f v =? fmt_top f) eqn:He; [by destruct op|].
  apply orb_false_iff in Hi as [Hi1 Hi2]. destruct Hq as [Hq Hrem]; [done|].
  rewrite overflow_value, inexact_value by (done || by split). rewrite Hq, Hrem, Hr. cbn [fst snd negb andb].
  assert (Hd : 0 < unit_den f) by (unfold f; by destruct is32).
  destruct op; try done; cbn in Hr; injection Hr as <- <-; try (repeat case_match; done || congruence).
  destruct (Z.leb_spec (2 ^ 64) (Z.quot (value f v) (unit_den f))) as [Hge|Hlt].
  - destruct (Z.ltb_spec (Z.quot (value f v) (unit_den f)) 0); [lia|]. repeat case_match; done.
  - destruct (Z.ltb_spec (2 ^ 64 - 1) (Z.quot (value f v) (unit_den f))); [lia|]. rewrite !orb_false_r. repeat case_match; done.
Qed.

(** C14. A conversion to an integer truncates the exact value of its operand
    towards zero and clamps it to the type, NaNs going to the largest integer;
    its flags are those of the manual: invalid for NaNs, infinities and values
    outside the type, otherwise inexact exactly when a fraction was dropped.
    The flags of FCVT.LU are not covered for finite operands of 2^64 or more,
    which the code fails to flag.  Single-precision operands go through an exact
    widening. *)
Theorem fcvt_int_exact `{!HostFp} op a b c is32 :
  is_to_int op = true ->
  let f := fmt_of is32 in
  let v := operand is32 a in
  fst (execute_full op a b c is32) = int_register op (int_spec f op v) /\
  (above_u64 f op v = false -> snd (execute_full op a b c is32) = int_flags f op v).
Proof.
  intros Hop f v.
  assert (E : execute_full op a b c is32 = (fp_to_int op (converted is32 a), conversion_flags op (converted is32 a)))
    by (unfold converted; by destruct op, is32).
  rewrite E. split; [by apply to_int_spec|]. intros Ha. rewrite conversion_flags_spec by done. fold f v. by rewrite Ha.
Qed.

(** 2^64 as a double to an unsigned 64-bit integer, and -1.5 as a single and
    2^31 as a double to a signed 32-bit one. *)
Lemma fcvt_int_exact_witness :
  fst (@execute_full quiet_host FCvtLUS 0x43F0000000000000 0 0 false) = 2 ^ 64 - 1 /\
  fst (@execute_full quiet_host FCvtWS (box_f32 0xBFC00000) 0 0 true) = 2 ^ 64 - 1 /\
  snd (@execute_full quiet_host FCvtWS (box_f32 0xBFC00000) 0 0 true) = FP_NX /\
  snd (@execute_full quiet_host FCvtWS 0x41E0000000000000 0 0 false) = FP_NV.
Proof.
  destruct (@fcvt_int_exact quiet_host FCvtLUS 0x43F0000000000000 0 0 false eq_refl) as [R1 _].
  destruct (@fcvt_int_exact quiet_host FCvtWS (box_f32 0xBFC00000) 0 0 true eq_refl) as [R2 F2].
  destruct (@fcvt_int_exact quiet_host FCvtWS 0x41E0000000000000 0 0 false eq_refl) as [_ F3].
  split_and!; [etrans; [exact R1|]|etrans; [exact R2|]|etrans; [apply F2|]|etrans; [apply F3|]]; by vm_compute.
Defined.

(** * The registers the unit writes *)

Lemma box_unbox r : in_width 32 r -> in_width 64 (box_f32 r) /\ unbox_f32 (box_f32 r) = r.
Proof.
  intros Hr. assert (E : box_f32 r = 0xFFFFFFFF * 2 ^ 32 + r).
  { unfold box_f32. rewrite Z.lor_comm. change BOX_MASK with (Z.shiftl 0xFFFFFFFF 32). by apply lor_disjoint_add. }
  unfold in_width in *. split; [rewrite E; lia|]. unfold unbox_f32. rewrite Z.land_comm.
  change BOX_MASK with (Z.shiftl 0xFFFFFFFF 32) at 1. rewrite Z.land_comm, land_shiftl_mask by done.
  rewrite Z.shiftr_div_pow2, E, Z.add_comm, Z.div_add, Z.div_small by lia. simpl.
  unfold u32, wrap. rewrite Z.mod_add by done. by apply Z.mod_small.
Qed.

(** Instructions whose result is a single-precision number. *)
Definition writes_single (op : AluOp) (is32 : bool) : bool :=
  match op with
  | FAdd | FSub | FMul | FDiv | FSqrt | FMAdd | FMSub | FNMAdd | FNMSub
  | FMin | FMax | FSgnJ | FSgnJN | FSgnJX | FMvToF => is32
  | FCvtSD => true
  | _ => false
  end.
Definition boxed (r : Z) : Prop := exists s, in_width 32 s /\ r = box_f32 s.
Lemma boxed_width r : boxed r -> in_width 64 r.
Proof. intros (s & Hs & ->). by apply box_unbox. Qed.

Lemma fmin_cases f a b : fmin f a b = a \/ fmin f a b = b \/ fmin f a b = canonical_nan f.
Proof. unfold fmin, num_min. repeat case_match; auto. Qed.
Lemma fmax_cases f a b : fmax f a b = a \/ fmax f a b = b \/ fmax f a b = canonical_nan f.
Proof. unfold fmax, num_max. repeat case_match; auto. Qed.
Lemma sign_inject_width f `{!WellFormed f} op a b :
  in_width (fmt_width f) a -> in_width (fmt_width f) b -> in_width (fmt_width f) (sign_inject f op a b).
Proof.
  intros Ha Hb. pose proof (sign_bit_pos f). pose proof (width_pow f). pose proof (wf_mw (f := f)). pose proof (wf_ew (f := f)).
  assert (Hw : 0 <= fmt_width f) by (unfold fmt_width; lia).
  assert (Hs : in_width (fmt_width f) (sign_bit f)) by (unfold in_width; lia).
  assert (Hx : in_width (fmt_width f) (Z.lxor a (Z.land b (sign_bit f)))) by (apply lxor_in_width; [done..|by apply land_in_width]).
  destruct op; cbn [sign_inject]; try exact Hx;
    (apply lor_in_width; [done|by apply ldiff_in_width|by apply land_in_width || by apply ldiff_in_width]).
Qed.
Lemma read_host_fp_flags_width h : in_width 5 (read_host_fp_flags h).
Proof. unfold read_host_fp_flags. by repeat case_match. Qed.
Lemma conversion_flags_width op x : in_width 5 (conversion_flags op x).
Proof. unfold conversion_flags. by repeat case_match. Qed.
Lemma execute_full_flags_width `{!HostFp} op a b c is32 : in_width 5 (snd (execute_full op a b c is32)).
Proof.
  unfold execute_full. cbn [snd]. case_match; [apply read_host_fp_flags_width|].
  destruct op; cbn [manual_flags]; try done; try apply conversion_flags_width; by case_match.
Qed.

Section Types.
Context `{!HostFp} {HN : HostNan}.

Lemma fpack_width is32 src x :
  valid_binary (fmt_prec (fmt_of is32)) (fmt_emax (fmt_of is32)) x = true -> in_width (fmt_width (fmt_of is32)) (fpack (fmt_of is32) src x).
Proof using HN. intros Hx. apply (pack_in_width _ _ _ Hx), host_nan_width, fmt_of_cases. Qed.
Lemma boxed_canon r : in_width 32 r -> boxed (box_f32_canon r).
Proof. intros Hr. rewrite box_f32_canon_eq. eexists. split; [|done]. by case_match. Qed.
Lemma from_int_width is32 op a : in_width (fmt_width (fmt_of is32)) (int_to_fp (fmt_of is32) op a).
Proof using HN. apply fpack_width, binary_normalize_valid, (fmt_prec_ok _). Qed.
Lemma narrow_boxed src x : boxed (box_f32_canon (fpack F32 src (f_narrow x))).
Proof using HN. apply boxed_canon, (fpack_width true), SFconvert_valid, (fmt_prec_ok F32). Qed.
Lemma widen_width src v : in_width 64 (fpack F64 src (f_widen v)).
Proof using HN. apply (fpack_width false), SFconvert_valid, (fmt_prec_ok F64). Qed.
Lemma to_int_width op x : in_width 64 (fp_to_int op x).
Proof.
  assert (Hlu : in_width 64 (f64_to_u64_rv x)).
  { unfold f64_to_u64_rv, f64_to_int_rv, sat_int, in_width. repeat case_match; lia. }
  destruct op; cbn [fp_to_int]; try done; apply wrap_range; lia.
Qed.
Lemma class_of_width is32 a : in_width 64 (class_of is32 a).
Proof. unfold class_of, classify_f32, classify_f64, fp_classify. by repeat case_match. Qed.
Lemma b2z_width b : in_width 64 (Z.b2z b).
Proof. by destruct b. Qed.

Lemma minmax_width is32 a b :
  in_width 64 a -> in_width 64 b ->
  in_width (fmt_width (fmt_of is32)) (fmin (fmt_of is32) (operand is32 a) (operand is32 b)) /\
  in_width (fmt_width (fmt_of is32)) (fmax (fmt_of is32) (operand is32 a) (operand is32 b)).
Proof.
  intros Ha Hb. pose proof (operand_width is32 a Ha). pose proof (operand_width is32 b Hb).
  assert (in_width (fmt_width (fmt_of is32)) (canonical_nan (fmt_of is32))) by by destruct is32.
  split; [edestruct fmin_cases as [->|[->| ->]]|edestruct fmax_cases as [->|[->| ->]]]; done.
Qed.
Lemma execute_width op a b c is32 :
  in_width 64 a -> in_width 64 b ->
  let r := fst (execute_full op a b c is32) in
  (writes_single op is32 = true -> boxed r) /\ (writes_single op is32 = false -> in_width 64 r).
Proof using HN.
  intros Ha Hb r. unfold r, execute_full. cbn [fst]. destruct (is_arith op) eqn:Hop.
  - destruct (arith_register op a b c is32 Hop) as [src ->]. destruct (canon_pack is32 src (ieee_of is32 op a b c)) as [Hw _]; [apply ieee_valid, _|].
    fold (canon (fmt_of is32) (fpack (fmt_of is32) src (ieee_of is32 op a b c))) in Hw.
    destruct is32; [split; [intros _; by eexists|by destruct op]|split; [by destruct op|done]].
  - pose proof (sign_inject_width (fmt_of is32) op _ _ (operand_width is32 a Ha) (operand_width is32 b Hb)).
    destruct (minmax_width is32 a b Ha Hb) as [Hmin Hmax].
    assert (Hu : in_width 32 (u32 a)) by (apply wrap_range; lia).
    assert (Hs : in_width 64 (sext_w a)) by (apply wrap_range; lia).
    destruct is32; cbn [fmt_of operand] in *; unfold fpu_execute.
    + destruct op; try done; cbn [execute_f32 writes_single]; (split; intros; try done);
        first [eexists; split; [|reflexivity]; assumption | exact Hs | apply b2z_width | apply class_of_width | apply to_int_width
              | apply (from_int_width false) | apply widen_width | apply boxed_canon, unbox_width].
    + destruct op; try done; cbn [execute_f64 writes_single]; (split; intros; try done);
        first [exact Hmin | exact Hmax | assumption | apply b2z_width | apply class_of_width | apply to_int_width
              | apply (from_int_width false) | apply narrow_boxed].
Qed.

(** The conversions to a single, from an integer register or from a double. *)
Definition converts_single (op : AluOp) (is32 : bool) : bool :=
  match op with FCvtSW | FCvtSL | FCvtSWU | FCvtSLU => is32 | FCvtSD => true | _ => false end.

(** C17. Every single-precision result is boxed, whichever unit computes it:
    the arithmetic, minimum, maximum, sign and move instructions of the
    floating-point unit, and the conversions to a single of the converter that
    execution uses.  The other results are 64-bit registers, and the flags five
    bits. *)
Theorem fpu_typed op a b c is32 :
  in_width 64 a -> in_width 64 b ->
  let '(result, flags) := execute_full op a b c is32 in
  let '(converted_result, converted_flags) := convert op a is32 in
  (writes_single op is32 = true -> boxed result) /\ (converts_single op is32 = true -> boxed converted_result) /\
  in_width 64 result /\ in_width 5 flags /\ in_width 64 converted_result /\ in_width 5 converted_flags.
Proof using HN.
  intros Ha Hb. pose proof (execute_full_flags_width op a b c is32) as Hf. destruct (execute_full op a b c is32) as [r fl] eqn:E.
  unfold convert. cbn [snd] in Hf.
  assert (Hr : (writes_single op is32 = true -> boxed r) /\ (writes_single op is32 = false -> in_width 64 r)).
  { rewrite <-(f_equal fst E : _ = r). by apply execute_width. }
  split_and!; [apply Hr| | |done| |apply read_host_fp_flags_width].
  - destruct op; try done; [..|intros _; apply narrow_boxed];
      (destruct is32; [intros _; eexists; split; [apply (from_int_width true)|reflexivity]|done]).
  - destruct Hr as [H1 H2]. destruct (writes_single op is32); [by apply boxed_width, H1|by apply H2].
  - destruct op; try done; [..|apply boxed_width, narrow_boxed|apply widen_width];
      (destruct is32; [apply box_unbox, (from_int_width true)|apply (from_int_width false)]).
Qed.
End Types.

(** FCVT.S.W of 3. *)
Lemma fpu_typed_witness :
  boxed (fst (@convert quiet_host FCvtSW 3 true)) /\ fst (@convert quiet_host FCvtSW 3 true) = box_f32 0x40400000.
Proof.
  pose proof (@fpu_typed quiet_host _ FCvtSW 3 0 0 true ltac:(by vm_compute) ltac:(by vm_compute)) as H.
  split; [|by vm_compute]. destruct (execute_full _ _ _ _ _), (convert _ _ _). by apply H.
Defined.

(** * Round trips *)

Lemma iter_shr_exact (n : nat) (m : Z) :
  0 <= m -> Nat.iter n shr_1 {| shr_m := m * 2 ^ Z.of_nat n; shr_r := false; shr_s := false |}
  = {| shr_m := m; shr_r := false; shr_s := false |}.
Proof.
  revert m. induction n as [|n IH]; intros m Hm; [simpl; by rewrite Z.mul_1_r|].
  cbn [Nat.iter nat_rect]. change (nat_rect _ ?x (λ _, shr_1) n) with (Nat.iter n shr_1 x).
  rewrite Nat2Z.inj_succ, Z.pow_succ_r, Z.mul_assoc, IH by lia. rewrite Z.mul_comm. by destruct m as [|m|m].
Qed.
Lemma shr_exact (m e k : Z) :
  0 <= m -> 0 <= k -> shr (shr_record_of_loc (Z.shiftl m k) loc_Exact) e k = (shr_record_of_loc m loc_Exact, e + k).
Proof.
  intros Hm Hk. destruct k as [|p|p]; [cbn; by rewrite Z.add_0_r|..|lia]. cbn [shr shr_record_of_loc].
  rewrite iter_pos_nat, Z.shiftl_mul_pow2 by done. f_equal.
  replace (Zpos p) with (Z.of_nat (Pos.to_nat p)) by lia. by apply iter_shr_exact.
Qed.
(** Rounding to a format a number of the format written with more digits. *)
Lemma binary_round_shifted (prec emax : Z) (s : bool) (m m' : positive) (e k : Z) :
  1 < prec -> 0 <= k -> Zpos m' = Z.shiftl (Zpos m) k -> bounded prec emax m e = true ->
  binary_round prec emax s m' (e - k) = S754_finite s m e.
Proof.
  intros Hprec Hk Hm' Hb. pose proof (proj1 (bounded_canonical prec emax Hprec m e) Hb) as [Hc He].
  assert (Hf : fexp prec emax (Zdigits2 (Zpos m') + (e - k)) = e).
  { rewrite Hm', digits_shiftl by done. replace (_ + _ + (e - k)) with (Zdigits2 (Zpos m) + e) by lia.
    by apply canonical_fexp. }
  unfold binary_round. rewrite <-Zdigits2_pos, Hf. destruct (shl_align_spec m' (e - k) e) as [-> _].
  replace (Z.min (e - k) e) with (e - k) by lia. rewrite Z.sub_diag, Z.shiftl_0_r. cbn [Z.to_pos].
  rewrite <-(binary_round_aux_exact prec emax Hprec s m e Hb). unfold binary_round_aux at 1, shr_fexp. rewrite Hf.
  replace (e - (e - k)) with k by lia. rewrite Hm', shr_exact by done. rewrite Z.sub_add.
  unfold binary_round_aux, shr_fexp. rewrite (proj2 (canonical_fexp prec emax Hprec (Zpos m) e ltac:(lia)) Hc), Z.sub_diag.
  by rewrite shr_zero.
Qed.

(** An integer of 53 bits is a double. *)
Lemma of_int_exact (n : Z) :
  - 2 ^ 53 < n < 2 ^ 53 ->
  let x := binary_normalize (fmt_prec F64) (fmt_emax F64) n 0 false in
  representable F64 x /\ sf_is_infinite x = false /\ sf_value (fmt_prec F64) (fmt_emax F64) x = n * unit_den F64.
Proof.
  intros Hn x. assert (Hr : forall s m, Zpos m < 2 ^ 53 ->
    let y := binary_round (fmt_prec F64) (fmt_emax F64) s m 0 in
    representable F64 y /\ sf_is_infinite y = false /\ sf_value (fmt_prec F64) (fmt_emax F64) y = signed s (Zpos m) * unit_den F64).
  { intros s m Hm. pose proof (digits_le (Zpos m) 53 ltac:(lia) Hm).
    destruct (binary_round_exact (fmt_prec F64) (fmt_emax F64) (fmt_prec_ok F64) (fmt_emax_ok F64) s m 0) as (m' & k & -> & Hk & Hm' & Hb);
      [done|done|rewrite Z.add_0_r; transitivity 53; done|].
    split_and!; [by split|done|]. cbn [sf_value]. rewrite Hm', Z.shiftl_mul_pow2 by done.
    apply bounded_canonical in Hb as [(He & _) _]; [|done]. fold (fmt_emin F64) in *.
    rewrite <-Z.mul_assoc, <-Z.pow_add_r by lia. replace (k + (0 - k - fmt_emin F64)) with (- fmt_emin F64) by lia.
    fold (unit_den F64). destruct s; cbn [signed]; lia. }
  unfold x. destruct n as [|p|p]; [by vm_compute|..]; cbn [binary_normalize].
  - apply (Hr false p). lia.
  - apply (Hr true p). lia.
Qed.

Section RoundTrips.
Context `{!HostFp} {HN : HostNan}.

Lemma fpack_nan is32 src : unpack (fmt_of is32) (fpack (fmt_of is32) src S754_nan) = S754_nan.
Proof using HN.
  pose proof (host_nan_is_nan _ src (fmt_of_cases is32)) as Hn. rewrite <-sf_is_nan_unpack in Hn. unfold fpack. cbn [pack].
  by destruct (unpack _ _).
Qed.
(** Widening then narrowing leaves a single as it is. *)
Lemma narrow_widen src v : f_narrow (unpack F64 (fpack F64 src (f_widen v))) = unpack F32 v.
Proof using HN.
  pose proof (unpack_valid F32 v) as Hv. unfold f_widen.
  destruct (unpack F32 v) as [s|s| |s m e]; cbn [SFconvert].
  - unfold fpack. by rewrite (unpack_pack F64) by done.
  - unfold fpack. by rewrite (unpack_pack F64) by done.
  - pose proof (fpack_nan false src) as E. cbn [fmt_of] in E. by rewrite E.
  - cbn [valid_binary] in Hv. destruct (widen_finite s m e Hv) as (m' & k & E & Hk & Hm' & Hb). cbn [SFconvert] in E. rewrite E.
    unfold fpack. rewrite (unpack_pack F64) by by split. by apply binary_round_shifted.
Qed.
(** A 32-bit integer survives the double-precision registers. *)
Lemma int_through_double op n :
  is_to_int op = true -> - 2 ^ 53 < n < 2 ^ 53 -> fst (int_range op) <= n <= snd (int_range op) ->
  execute_full op (f_of_int F64 n) 0 0 false = (int_register op n, FP_NONE).
Proof.
  intros Hop Hn Hr. destruct (of_int_exact n Hn) as (Hx & Hi & Hv). set (x := binary_normalize _ _ _ _ _) in *.
  assert (Hu : unpack F64 (f_of_int F64 n) = x) by (by apply unpack_pack).
  destruct (converted_spec false (f_of_int F64 n)) as (_ & H1 & H2 & H3). cbn [converted fmt_of operand] in *.
  rewrite Hu in *. destruct Hx as [_ Hnan]. rewrite Hnan, Hi in *. destruct (H3 eq_refl) as [Hq Hrem]. rewrite Hv in *.
  rewrite Z.quot_mul in Hq by done. rewrite Z.rem_mul in Hrem by done.
  transitivity (int_register op (int_spec F64 op (f_of_int F64 n)), int_flags F64 op (f_of_int F64 n)).
  - transitivity (fp_to_int op (converted false (f_of_int F64 n)), conversion_flags op (converted false (f_of_int F64 n))).
    + by destruct op.
    + f_equal; [exact (to_int_spec op false _ Hop)|]. rewrite (conversion_flags_spec op false _ Hop).
      assert (Ha : above_u64 F64 op (f_of_int F64 n) = false).
      { unfold above_u64. destruct op; try done. rewrite <-Hq. cbn in Hr. destruct (Z.leb_spec (2 ^ 64) n); [lia|]. by rewrite andb_false_r. }
      cbn [fmt_of operand]. by rewrite Ha.
  - unfold int_spec, int_flags. rewrite <-H1, <-H2, <-Hq, <-Hrem. destruct (int_range op) as [lo hi]. cbn [fst snd] in Hr.
    replace (Z.max lo (Z.min n hi)) with n by lia. destruct (Z.ltb_spec n lo), (Z.ltb_spec hi n); try lia.
    by destruct op.
Qed.

Lemma u32_as_signed n : u32 (as_signed 32 (u32 n)) = u32 n.
Proof.
  pose proof (wrap_range 32 n ltac:(lia)) as Hw. unfold as_signed, u32 in *. case_match; [by apply wrap_idemp|].
  unfold wrap in *. rewrite <-(Z.mod_add _ 1), Z.mul_1_l, Z.sub_add by done. by apply Z.mod_mod.
Qed.

(** C16. Widening a single and narrowing it again gives it back, with NaNs made
    canonical, and a 32-bit integer, signed or unsigned, converted to a double
    and back is the integer, with no flag raised. *)
Theorem fp_conversions_roundtrip v n r :
  in_width 32 v ->
  fst (convert FCvtSD (fst (convert FCvtDS (box_f32 v) r)) r) = box_f32 (if is_nan F32 v then CANONICAL_NAN_F32 else v) /\
  execute_full FCvtWS (fst (convert FCvtSW n false)) 0 0 false = (sext_w n, FP_NONE) /\
  execute_full FCvtWUS (fst (convert FCvtSWU n false)) 0 0 false = (sext_w n, FP_NONE).
Proof using HN.
  intros Hv. destruct (box_unbox v Hv) as [_ Hb]. pose proof (wrap_range 32 n ltac:(lia)) as Hw. unfold in_width in Hw.
  split_and!; cbn [convert fst].
  - rewrite Hb, narrow_widen, box_f32_canon_eq. f_equal. destruct (is_nan F32 v) eqn:En.
    + rewrite <-sf_is_nan_unpack in En. destruct (unpack F32 v); try done.
      pose proof (fpack_nan true (FCvtSD, [fpack F64 (FCvtDS, [v]) (f_widen v)])) as Hf. cbn [fmt_of] in Hf. rewrite <-sf_is_nan_unpack, Hf. done.
    + unfold fpack. rewrite pack_unpack by (done || apply _). by rewrite En.
  - unfold int_to_fp. rewrite int_through_double; [|done|..].
    + f_equal. unfold int_register, sext_w. f_equal. f_equal. by rewrite u32_as_signed.
    + unfold as_signed. case_match; lia.
    + cbn. unfold as_signed. case_match; lia.
  - unfold int_to_fp. rewrite int_through_double; [|done|cbn; lia..]. f_equal. unfold int_register, sext_w. f_equal. f_equal.
    apply wrap_idemp. lia.
Qed.
End RoundTrips.

Lemma fp_conversions_roundtrip_witness :
  fst (@convert quiet_host FCvtSD (fst (@convert quiet_host FCvtDS (box_f32 0x3FC00001) true)) true) = box_f32 0x3FC00001 /\
  @execute_full quiet_host FCvtWS (fst (@convert quiet_host FCvtSW 0xFFFFFFFB false)) 0 0 false = (2 ^ 64 - 5, FP_NONE).
Proof.
  destruct (@fp_conversions_roundtrip quiet_host _ 0x3FC00001 0xFFFFFFFB true ltac:(by vm_compute)) as (H1 & H2 & _).
  split; [exact H1|exact H2].
Defined.
