(* ===== verification/DeviceTree.v ===== *)
(** The device tree the simulator hands to firmware ([sim/dtb.rs]): the builder
    of flattened device trees, the tree of the system, a reader of the format,
    and what a kernel that reads the blob finds in it. *)
From Stdlib Require Import Ascii String.
From stdpp Require Import strings.
From S2P Require Import Prelude WriteBuffer Soc VirtioDisk Interconnect BusSpec Config System SystemProps.
Set Primitive Projections.
Local Open Scope Z_scope.

(** * [FdtBuilder] *)

Definition FDT_MAGIC : Z := 0xd00dfeed.
Definition FDT_VERSION : Z := 17.
Definition FDT_LAST_COMP_VERSION : Z := 16.
Definition FDT_BEGIN_NODE : Z := 1.
Definition FDT_END_NODE : Z := 2.
Definition FDT_PROP : Z := 3.
Definition FDT_END : Z := 9.

(** [s.as_bytes()] *)
Definition as_bytes (s : string) : list Z := (fun c => Z.of_nat (nat_of_ascii c)) <$> list_ascii_of_string s.
(** [val.to_be_bytes()] *)
Definition be_bytes (n : nat) (v : Z) : list Z := reverse (le_bytes n v).
(** Zeros up to a multiple of 4. *)
Definition pad_len (n : nat) : nat := (3 - (n + 3) mod 4)%nat.
Definition align4 (buf : list Z) : list Z := buf ++ replicate (pad_len (length buf)) 0.

Record FdtBuilder := {
  struct_buf : list Z;
  strings_buf : list Z;
  string_offsets : list (string * Z)
}.
Definition fdt_new : FdtBuilder := {| struct_buf := []; strings_buf := []; string_offsets := [] |}.
Definition extend_buf (self : FdtBuilder) (bytes : list Z) : FdtBuilder := self <| struct_buf := struct_buf self ++ bytes |>.
Definition pad (self : FdtBuilder) : FdtBuilder := self <| struct_buf := align4 (struct_buf self) |>.
Definition push_u32 (self : FdtBuilder) (val : Z) : FdtBuilder := extend_buf self (be_bytes 4 (u32 val)).
Definition begin_node (self : FdtBuilder) (name : string) : FdtBuilder :=
  let self := push_u32 self FDT_BEGIN_NODE in
  let self := extend_buf self (as_bytes name) in
  let self := extend_buf self [0] in
  pad self.
Definition end_node (self : FdtBuilder) : FdtBuilder := push_u32 self FDT_END_NODE.
Definition string_offset (self : FdtBuilder) (name : string) : Z * FdtBuilder :=
  match list_find (fun e => e.1 = name) (string_offsets self) with
  | Some (_, (_, off)) => (off, self)
  | None =>
      let off := u32 (Z.of_nat (length (strings_buf self))) in
      (off, self <| strings_buf := strings_buf self ++ as_bytes name ++ [0] |>
                 <| string_offsets := string_offsets self ++ [(name, off)] |>)
  end.
Definition prop_u32 (self : FdtBuilder) (name : string) (val : Z) : FdtBuilder :=
  let '(name_off, self) := string_offset self name in
  push_u32 (push_u32 (push_u32 (push_u32 self FDT_PROP) 4) name_off) val.
Definition prop_string (self : FdtBuilder) (name val : string) : FdtBuilder :=
  let '(name_off, self) := string_offset self name in
  let data := as_bytes val in
  let len := Z.of_nat (length data + 1) in
  let self := push_u32 (push_u32 (push_u32 self FDT_PROP) len) name_off in
  pad (extend_buf (extend_buf self data) [0]).
Definition prop_bytes (self : FdtBuilder) (name : string) (data : list Z) : FdtBuilder :=
  let '(name_off, self) := string_offset self name in
  let self := push_u32 (push_u32 (push_u32 self FDT_PROP) (Z.of_nat (length data))) name_off in
  pad (extend_buf self data).
Definition prop_empty (self : FdtBuilder) (name : string) : FdtBuilder :=
  let '(name_off, self) := string_offset self name in
  push_u32 (push_u32 (push_u32 self FDT_PROP) 0) name_off.
(** The cells of a [reg] of two address and two size cells. *)
Definition reg_cells (addr size : Z) : list Z :=
  be_bytes 4 (u32 (Z.shiftr addr 32)) ++ be_bytes 4 (u32 addr) ++ be_bytes 4 (u32 (Z.shiftr size 32)) ++ be_bytes 4 (u32 size).
Definition prop_reg_2_2 (self : FdtBuilder) (addr size : Z) : FdtBuilder := prop_bytes self "reg" (reg_cells addr size).
Definition prop_reg_1_0 (self : FdtBuilder) (val : Z) : FdtBuilder := prop_bytes self "reg" (be_bytes 4 (u32 val)).

Definition HEADER_SIZE : Z := 40.
Definition MEMRSV_SIZE : Z := 16.
Definition finalize (self : FdtBuilder) : list Z :=
  let self := push_u32 self FDT_END in
  let struct_size := u32 (Z.of_nat (length (struct_buf self))) in
  let strings_size := u32 (Z.of_nat (length (strings_buf self))) in
  let dt_struct_offset := HEADER_SIZE + MEMRSV_SIZE in
  let dt_strings_offset := u32 (dt_struct_offset + struct_size) in
  let total_size := u32 (dt_strings_offset + strings_size) in
  be_bytes 4 FDT_MAGIC ++ be_bytes 4 total_size ++ be_bytes 4 dt_struct_offset ++ be_bytes 4 dt_strings_offset ++
  be_bytes 4 HEADER_SIZE ++ be_bytes 4 FDT_VERSION ++ be_bytes 4 FDT_LAST_COMP_VERSION ++ be_bytes 4 0 ++
  be_bytes 4 strings_size ++ be_bytes 4 struct_size ++ replicate 16 0 ++ struct_buf self ++ strings_buf self.

(** * [generate_dtb] *)

(** [{x:x}]: lower-case hexadecimal without leading zeros. *)
Definition hex_char (d : Z) : ascii := ascii_of_nat (Z.to_nat (if d <? 10 then 48 + d else 87 + d)).
Fixpoint hex_go (fuel : nat) (x : Z) (acc : string) : string :=
  let acc := String (hex_char (x mod 16)) acc in
  match fuel with
  | O => acc
  | S fuel => if x / 16 =? 0 then acc else hex_go fuel (x / 16) acc
  end.
Definition hex (x : Z) : string := hex_go 15 x "".

Definition PLIC_BASE : Z := 0x0c000000.
Definition RTC_BASE : Z := 0x101000.
Definition TIMEBASE_FREQ : Z := 10000000.
Definition CPU0_INTC : Z := 1.
Definition PLIC_PHANDLE : Z := 2.
Definition SYSCON_PHANDLE : Z := 3.
(** The cells of an [interrupts-extended] of the hart's controller. *)
Definition intc_cells (a b : Z) : list Z :=
  be_bytes 4 CPU0_INTC ++ be_bytes 4 a ++ be_bytes 4 CPU0_INTC ++ be_bytes 4 b.

Definition dtb_cpus (b : FdtBuilder) : FdtBuilder :=
  let b := begin_node b "cpus" in
  let b := prop_u32 b "#address-cells" 1 in
  let b := prop_u32 b "#size-cells" 0 in
  let b := prop_u32 b "timebase-frequency" TIMEBASE_FREQ in
  let b := begin_node b "cpu@0" in
  let b := prop_string b "device_type" "cpu" in
  let b := prop_reg_1_0 b 0 in
  let b := prop_string b "status" "okay" in
  let b := prop_string b "compatible" "riscv" in
  let b := prop_string b "riscv,isa" "rv64imafdc" in
  let b := prop_string b "mmu-type" "riscv,sv39" in
  let b := begin_node b "interrupt-controller" in
  let b := prop_u32 b "#interrupt-cells" 1 in
  let b := prop_empty b "interrupt-controller" in
  let b := prop_string b "compatible" "riscv,cpu-intc" in
  let b := prop_u32 b "phandle" CPU0_INTC in
  let b := end_node b in
  let b := end_node b in
  end_node b.
Definition dtb_clint (b : FdtBuilder) (clint_base : Z) : FdtBuilder :=
  let b := begin_node b ("clint@" +:+ hex clint_base) in
  let b := prop_string b "compatible" "riscv,clint0" in
  let b := prop_reg_2_2 b clint_base 0x10000 in
  let b := prop_bytes b "interrupts-extended" (intc_cells 3 7) in
  end_node b.
Definition dtb_uart (b : FdtBuilder) (uart_base : Z) : FdtBuilder :=
  let b := begin_node b ("uart@" +:+ hex uart_base) in
  let b := prop_string b "compatible" "ns16550a" in
  let b := prop_reg_2_2 b uart_base 0x100 in
  let b := prop_u32 b "clock-frequency" 10000000 in
  let b := prop_u32 b "interrupt-parent" PLIC_PHANDLE in
  let b := prop_bytes b "interrupts" (be_bytes 4 10) in
  let b := prop_string b "status" "okay" in
  end_node b.
Definition dtb_virtio (b : FdtBuilder) (disk_base : Z) : FdtBuilder :=
  let b := begin_node b ("virtio_mmio@" +:+ hex disk_base) in
  let b := prop_string b "compatible" "virtio,mmio" in
  let b := prop_reg_2_2 b disk_base 0x1000 in
  let b := prop_u32 b "interrupt-parent" PLIC_PHANDLE in
  let b := prop_bytes b "interrupts" (be_bytes 4 1) in
  end_node b.
Definition dtb_plic (b : FdtBuilder) : FdtBuilder :=
  let b := begin_node b ("interrupt-controller@" +:+ hex PLIC_BASE) in
  let b := prop_string b "compatible" "riscv,plic0" in
  let b := prop_reg_2_2 b PLIC_BASE 0x4000000 in
  let b := prop_u32 b "#interrupt-cells" 1 in
  let b := prop_empty b "interrupt-controller" in
  let b := prop_bytes b "interrupts-extended" (intc_cells 11 9) in
  let b := prop_u32 b "riscv,ndev" 0x35 in
  let b := prop_u32 b "phandle" PLIC_PHANDLE in
  end_node b.
Definition dtb_syscon (b : FdtBuilder) (syscon_base : Z) : FdtBuilder :=
  let b := begin_node b ("syscon@" +:+ hex syscon_base) in
  let b := prop_string b "compatible" "syscon" in
  let b := prop_reg_2_2 b syscon_base 0x1000 in
  let b := prop_u32 b "phandle" SYSCON_PHANDLE in
  let b := end_node b in
  let b := begin_node b "poweroff" in
  let b := prop_string b "compatible" "syscon-poweroff" in
  let b := prop_u32 b "regmap" SYSCON_PHANDLE in
  let b := prop_u32 b "offset" 0 in
  let b := prop_u32 b "value" 0x5555 in
  let b := end_node b in
  let b := begin_node b "reboot" in
  let b := prop_string b "compatible" "syscon-reboot" in
  let b := prop_u32 b "regmap" SYSCON_PHANDLE in
  let b := prop_u32 b "offset" 0 in
  let b := prop_u32 b "value" 0x7777 in
  end_node b.
Definition dtb_rtc (b : FdtBuilder) : FdtBuilder :=
  let b := begin_node b ("rtc@" +:+ hex RTC_BASE) in
  let b := prop_string b "compatible" "google,goldfish-rtc" in
  let b := prop_reg_2_2 b RTC_BASE 0x1000 in
  let b := prop_u32 b "interrupt-parent" PLIC_PHANDLE in
  let b := prop_bytes b "interrupts" (be_bytes 4 11) in
  end_node b.

Definition bootargs (uart_base : Z) : string :=
  "root=/dev/vda rw console=ttyS0 earlycon=uart8250,mmio,0x" +:+ hex uart_base +:+ " rootwait".
Definition stdout_path (uart_base : Z) : string := "/soc/uart@" +:+ hex uart_base.

Definition generate_dtb (config : Config) : list Z :=
  let s := system config in
  let b := fdt_new in
  let b := begin_node b "" in
  let b := prop_u32 b "#address-cells" 2 in
  let b := prop_u32 b "#size-cells" 2 in
  let b := prop_string b "compatible" "riscv-virtio" in
  let b := prop_string b "model" "riscv-virtio,qemu" in
  let b := begin_node b "chosen" in
  let b := prop_string b "bootargs" (bootargs (cfg_uart_base s)) in
  let b := prop_string b "stdout-path" (stdout_path (cfg_uart_base s)) in
  let b := end_node b in
  let b := dtb_cpus b in
  let b := begin_node b ("memory@" +:+ hex (cfg_ram_base s)) in
  let b := prop_string b "device_type" "memory" in
  let b := prop_reg_2_2 b (cfg_ram_base s) (cfg_ram_size (memory config)) in
  let b := end_node b in
  let b := begin_node b "soc" in
  let b := prop_u32 b "#address-cells" 2 in
  let b := prop_u32 b "#size-cells" 2 in
  let b := prop_string b "compatible" "simple-bus" in
  let b := prop_empty b "ranges" in
  let b := dtb_clint b (cfg_clint_base s) in
  let b := dtb_uart b (cfg_uart_base s) in
  let b := dtb_virtio b (cfg_disk_base s) in
  let b := dtb_plic b in
  let b := dtb_syscon b (cfg_syscon_base s) in
  let b := dtb_rtc b in
  let b := end_node b in
  let b := end_node b in
  finalize b.


(** * Device trees *)

Inductive tree := Node (name : string) (props : list (string * list Z)) (children : list tree).

Section TreeInd.
Context (P : tree -> Prop).
Context (HP : forall name props children, Forall P children -> P (Node name props children)).
Fixpoint tree_ind' (t : tree) : P t :=
  match t with
  | Node name props children =>
      HP name props children
        ((fix go (l : list tree) : Forall P l :=
            match l with [] => Forall_nil_2 P | c :: l => Forall_cons_2 P c l (tree_ind' c) (go l) end) children)
  end.
End TreeInd.

(** The calls that write a tree. *)
Definition write_props (b : FdtBuilder) (props : list (string * list Z)) : FdtBuilder :=
  foldl (fun b p => prop_bytes b p.1 p.2) b props.
Fixpoint write_node (t : tree) (b : FdtBuilder) : FdtBuilder :=
  match t with
  | Node name props children =>
      end_node (foldl (fun b c => write_node c b) (write_props (begin_node b name) props) children)
  end.

(** ** The reader of the format (version 17) *)

Definition FDT_NOP : Z := 4.
Definition be_value (bytes : list Z) : Z := le_value (reverse bytes).
Definition read_u32 (s : list Z) : option (Z * list Z) :=
  match s with a :: b :: c :: d :: s => Some (be_value [a; b; c; d], s) | _ => None end.
Fixpoint read_cstring (s : list Z) : option (list Z * list Z) :=
  match s with
  | [] => None
  | c :: s => if c =? 0 then Some ([], s) else '(l, s) ← read_cstring s; Some (c :: l, s)
  end.
Definition string_of (bytes : list Z) : string := string_of_list_ascii ((fun c => ascii_of_nat (Z.to_nat c)) <$> bytes).
Definition read_name (strings : list Z) (off : Z) : option string :=
  '(l, _) ← read_cstring (drop (Z.to_nat off) strings); Some (string_of l).
Definition read_bytes (n : nat) (s : list Z) : option (list Z * list Z) :=
  if (n + pad_len n <=? length s)%nat then Some (take n s, drop (n + pad_len n) s) else None.
Definition read_node_name (s : list Z) : option (string * list Z) :=
  '(l, s) ← read_cstring s; Some (string_of l, drop (pad_len (length l + 1)) s).

(** What follows the name of a node: properties and nodes up to its end. *)
Fixpoint read_items (fuel : nat) (strings : list Z) (name : string) (props : list (string * list Z))
    (children : list tree) (s : list Z) : option (tree * list Z) :=
  match fuel with
  | O => None
  | S fuel =>
      '(token, s) ← read_u32 s;
      if token =? FDT_PROP then
        '(len, s) ← read_u32 s;
        '(off, s) ← read_u32 s;
        '(data, s) ← read_bytes (Z.to_nat len) s;
        n ← read_name strings off;
        read_items fuel strings name (props ++ [(n, data)]) children s
      else if token =? FDT_BEGIN_NODE then
        '(n, s) ← read_node_name s;
        '(c, s) ← read_items fuel strings n [] [] s;
        read_items fuel strings name props (children ++ [c]) s
      else if token =? FDT_NOP then read_items fuel strings name props children s
      else if token =? FDT_END_NODE then Some (Node name props children, s)
      else None
  end.
Definition read_node (fuel : nat) (strings s : list Z) : option (tree * list Z) :=
  '(token, s) ← read_u32 s;
  if token =? FDT_BEGIN_NODE then
    '(n, s) ← read_node_name s;
    read_items fuel strings n [] [] s
  else None.
Definition slice (off len : Z) (blob : list Z) : list Z := take (Z.to_nat len) (drop (Z.to_nat off) blob).
Definition fdt_read (blob : list Z) : option tree :=
  '(magic, s) ← read_u32 blob;
  '(total_size, s) ← read_u32 s;
  '(off_struct, s) ← read_u32 s;
  '(off_strings, s) ← read_u32 s;
  '(off_rsvmap, s) ← read_u32 s;
  '(version, s) ← read_u32 s;
  '(last_comp_version, s) ← read_u32 s;
  '(boot_cpuid, s) ← read_u32 s;
  '(size_strings, s) ← read_u32 s;
  '(size_struct, s) ← read_u32 s;
  if (magic =? FDT_MAGIC) && (total_size =? Z.of_nat (length blob)) && (last_comp_version <=? 17) && (17 <=? version) then
    let items := slice off_struct size_struct blob in
    '(t, s) ← read_node (length items) (slice off_strings size_strings blob) items;
    '(token, s) ← read_u32 s;
    if (token =? FDT_END) && (length s =? 0)%nat then Some t else None
  else None.

(** ** What the builder writes *)

Definition aligned (b : FdtBuilder) : Prop := (length (struct_buf b) mod 4 = 0)%nat.
Definition no_nul (s : string) : Prop := Forall (fun c => c <> 0) (as_bytes s).
Fixpoint tree_ok (t : tree) : Prop :=
  match t with
  | Node name props children =>
      no_nul name /\ Forall (fun p => no_nul p.1 /\ Z.of_nat (length p.2) < 2 ^ 32) props /\
      foldr (fun c acc => tree_ok c /\ acc) True children
  end.
Definition align_len (n : nat) : nat := (n + pad_len n)%nat.
Definition sum_of {A} (f : A -> nat) (l : list A) : nat := foldr (fun a acc => f a + acc)%nat 0%nat l.
Fixpoint node_size (t : tree) : nat :=
  match t with
  | Node name props children =>
      (8 + align_len (length (as_bytes name) + 1) + sum_of (fun p => 12 + align_len (length p.2)) props
       + sum_of node_size children)%nat
  end.
Fixpoint names_size (t : tree) : nat :=
  match t with
  | Node name props children =>
      (sum_of (fun p => length (as_bytes p.1) + 1) props + sum_of names_size children)%nat
  end.
Fixpoint need (t : tree) : nat :=
  match t with Node name props children => (1 + length props + sum_of (fun c => S (need c)) children)%nat end.

(** Bytes. *)
Lemma length_be_bytes n v : length (be_bytes n v) = n.
Proof. unfold be_bytes, le_bytes. by rewrite length_reverse, length_fmap, length_seq. Qed.
Lemma pad_len_spec n : ((n + pad_len n) mod 4 = 0 /\ pad_len n < 4)%nat.
Proof.
  unfold pad_len. pose proof (Nat.mod_upper_bound (n + 3) 4). pose proof (Nat.div_mod_eq (n + 3) 4).
  split; [|lia]. replace (n + (3 - (n + 3) mod 4))%nat with ((n + 3) / 4 * 4)%nat by lia. apply Nat.Div0.mod_mul.
Qed.
Lemma mod4_add n k : (n mod 4 = 0 -> (n + k) mod 4 = k mod 4)%nat.
Proof. intros H. rewrite Nat.Div0.add_mod, H, Nat.add_0_l, Nat.Div0.mod_mod. done. Qed.
Lemma pad_len_aligned n k : (n mod 4 = 0 -> pad_len (n + k) = pad_len k)%nat.
Proof. intros H. unfold pad_len. rewrite <-Nat.add_assoc, mod4_add; done. Qed.
Lemma pad_len_0 n : (n mod 4 = 0 -> pad_len n = 0)%nat.
Proof. intros H. pose proof (pad_len_aligned n 0 H) as E. by rewrite Nat.add_0_r in E. Qed.
Lemma be_bytes_4 v : be_bytes 4 v = [le_byte v 3; le_byte v 2; le_byte v 1; le_byte v 0].
Proof. done. Qed.
Lemma read_u32_be v s : 0 <= v < 2 ^ 32 -> read_u32 (be_bytes 4 v ++ s) = Some (v, s).
Proof.
  intros Hv. rewrite be_bytes_4. cbn [app read_u32]. do 2 f_equal. unfold be_value.
  change (reverse [le_byte v 3; le_byte v 2; le_byte v 1; le_byte v 0]) with [le_byte v 0; le_byte v 1; le_byte v 2; le_byte v 3].
  cbn [le_value foldr]. unfold le_byte, u8, wrap. rewrite !Z.shiftr_div_pow2 by lia. cbn [Z.of_nat Z.mul Z.pow].
  change (2 ^ 8) with 256. rewrite Z.div_1_r.
  Z.to_euclidean_division_equations. lia.
Qed.
Lemma as_bytes_cons c s : as_bytes (String c s) = Z.of_nat (nat_of_ascii c) :: as_bytes s.
Proof. done. Qed.
Lemma as_bytes_app a b : as_bytes (a +:+ b) = as_bytes a ++ as_bytes b.
Proof. induction a as [|c a IH]; [done|]. change (String c a +:+ b) with (String c (a +:+ b)). by rewrite !as_bytes_cons, IH. Qed.
Lemma string_of_as_bytes s : string_of (as_bytes s) = s.
Proof.
  induction s as [|c s IH]; [done|]. rewrite as_bytes_cons. unfold string_of in *. rewrite fmap_cons. cbn [string_of_list_ascii].
  by rewrite Nat2Z.id, ascii_nat_embedding, IH.
Qed.
Lemma read_cstring_app l s : Forall (fun c => c <> 0) l -> read_cstring (l ++ 0 :: s) = Some (l, s).
Proof.
  induction 1 as [|c l Hc Hl IH]; [done|]. cbn [app read_cstring]. rewrite (proj2 (Z.eqb_neq c 0) Hc). rewrite IH. done.
Qed.

(** The table of names: every offset handed out is that of its name. *)
Definition names_ok (b : FdtBuilder) : Prop :=
  Forall (fun e => exists pre post, strings_buf b = pre ++ as_bytes e.1 ++ 0 :: post /\ e.2 = u32 (Z.of_nat (length pre))) (string_offsets b).
(** A name found at an offset of a strings block. *)
Definition name_at (strings : list Z) (name : string) (off : Z) : Prop :=
  0 <= off < 2 ^ 32 /\ read_name strings off = Some name.
(** The builder's names are those of a block that extends its own. *)
Definition table (b : FdtBuilder) (strings : list Z) : Prop :=
  (exists post, strings = strings_buf b ++ post) /\ Z.of_nat (length strings) < 2 ^ 32.

(** [b'] is [b] after writing [bs] and at most [k] bytes of names. *)
Record grows (b b' : FdtBuilder) (bs : list Z) (k : nat) : Prop := {
  gr_struct : struct_buf b' = struct_buf b ++ bs;
  gr_aligned : (length bs mod 4 = 0)%nat;
  gr_names : exists ss, strings_buf b' = strings_buf b ++ ss /\ (length ss <= k)%nat;
  gr_ok : names_ok b'
}.
Lemma grows_trans b1 b2 b3 bs1 bs2 k1 k2 :
  grows b1 b2 bs1 k1 -> grows b2 b3 bs2 k2 -> grows b1 b3 (bs1 ++ bs2) (k1 + k2).
Proof.
  intros [S1 A1 (s1 & E1 & L1) O1] [S2 A2 (s2 & E2 & L2) O2]. split; [|..|done].
  - by rewrite S2, S1, app_assoc.
  - by rewrite length_app, mod4_add.
  - exists (s1 ++ s2). rewrite E2, E1, length_app, app_assoc. split; [done|lia].
Qed.
Lemma grows_aligned b b' bs k : aligned b -> grows b b' bs k -> aligned b'.
Proof. intros Ha [Hs Hb _ _]. unfold aligned in *. by rewrite Hs, length_app, mod4_add. Qed.
Lemma table_mono b b' bs k strings : grows b b' bs k -> table b' strings -> table b strings.
Proof. intros [_ _ (ss & E & _) _] [(post & ->) Hl]. split; [|done]. exists (ss ++ post). by rewrite E, app_assoc. Qed.

Lemma read_name_app pre name post off :
  no_nul name -> off = Z.of_nat (length pre) -> read_name (pre ++ as_bytes name ++ 0 :: post) off = Some name.
Proof.
  intros Hn ->. unfold read_name. rewrite Nat2Z.id, drop_app_length, read_cstring_app by done.
  cbn [mbind option_bind]. by rewrite string_of_as_bytes.
Qed.
Lemma string_offset_spec b name :
  names_ok b -> no_nul name ->
  let '(off, b') := string_offset b name in
  struct_buf b' = struct_buf b /\ names_ok b' /\ 0 <= off < 2 ^ 32 /\
  (exists ss, strings_buf b' = strings_buf b ++ ss /\ (length ss <= length (as_bytes name) + 1)%nat) /\
  forall strings, table b' strings -> name_at strings name off.
Proof.
  intros Hb Hn. unfold string_offset. destruct (list_find _ _) as [[i [n off]]|] eqn:E.
  - apply list_find_Some in E as (Hi & Hp & _). simpl in Hp. subst n.
    pose proof (proj1 (Forall_lookup _ _) Hb i _ Hi) as (pre & post & Hpp & Hoff). cbn [fst snd] in Hpp, Hoff. subst off.
    split_and!; [done|done|apply wrap_range; lia|apply wrap_range; lia|exists []; rewrite app_nil_r; simpl; split; [done|lia]|].
    intros strings [(q & ->) Hl]. split; [apply wrap_range; lia|]. rewrite Hpp in *. rewrite <-!app_assoc in *. cbn [app] in *.
    rewrite !length_app in Hl. rewrite wrap_small by (unfold in_width; lia). by apply read_name_app.
  - assert (Hold : forall ss, Forall (fun e : string * Z => exists pre post, strings_buf b ++ ss = pre ++ as_bytes e.1 ++ 0 :: post /\ e.2 = u32 (Z.of_nat (length pre))) (string_offsets b)).
    { intros ss. eapply Forall_impl; [exact Hb|]. intros e (pre & post & Hpp & He). exists pre, (post ++ ss).
      rewrite Hpp, <-!app_assoc. done. }
    cbn. split_and!; [done| |apply wrap_range; lia|apply wrap_range; lia|eexists; split; [done|]; rewrite length_app; simpl; lia|].
    + unfold names_ok. cbn. apply Forall_app. split; [apply Hold|]. apply Forall_singleton. exists (strings_buf b), []. done.
    + intros strings [(q & ->) Hl]. split; [apply wrap_range; lia|]. cbn in *. rewrite <-!app_assoc in *. cbn [app] in *.
      rewrite !length_app in Hl. rewrite wrap_small by (unfold in_width; lia). by apply read_name_app.
Qed.

Lemma struct_put b l : struct_buf (extend_buf b l) = struct_buf b ++ l.
Proof. done. Qed.
Lemma struct_push b v : struct_buf (push_u32 b v) = struct_buf b ++ be_bytes 4 (u32 v).
Proof. done. Qed.
Lemma struct_pad b : struct_buf (pad b) = align4 (struct_buf b).
Proof. done. Qed.

(** A property and what the reader makes of it. *)
Lemma prop_bytes_spec b name data :
  names_ok b -> aligned b -> no_nul name -> Z.of_nat (length data) < 2 ^ 32 ->
  exists off, let bs := be_bytes 4 FDT_PROP ++ be_bytes 4 (Z.of_nat (length data)) ++ be_bytes 4 off ++ align4 data in
    grows b (prop_bytes b name data) bs (length (as_bytes name) + 1) /\
    length bs = (12 + align_len (length data))%nat /\
    forall strings, table (prop_bytes b name data) strings -> name_at strings name off.
Proof.
  intros Hb Ha Hn Hd. pose proof (string_offset_spec b name Hb Hn) as Hs. unfold prop_bytes.
  destruct (string_offset b name) as [off b1]. destruct Hs as (Hs & Hok & Hr & Hss & Ht). exists off. cbv zeta. set (bs := be_bytes 4 FDT_PROP ++ be_bytes 4 (Z.of_nat (length data)) ++ be_bytes 4 off ++ align4 data).
  assert (Hlen : length bs = (12 + align_len (length data))%nat).
  { unfold bs, align4, align_len. rewrite !length_app, !length_be_bytes, length_replicate. lia. }
  assert (Hst : struct_buf (pad (extend_buf (push_u32 (push_u32 (push_u32 b1 FDT_PROP) (Z.of_nat (length data))) off) data)) = struct_buf b ++ bs).
  { rewrite struct_pad, struct_put, !struct_push, Hs, !wrap_small by (unfold in_width, FDT_PROP; lia).
    unfold align4 at 1. rewrite !length_app, !length_be_bytes.
    replace (length (struct_buf b) + 4 + 4 + 4 + length data)%nat with (length (struct_buf b) + (12 + length data))%nat by lia.
    rewrite pad_len_aligned, (pad_len_aligned 12) by done. unfold bs, align4. by rewrite <-!app_assoc. }
  split_and!; [|done|exact Ht]. split; [exact Hst| |exact Hss|exact Hok].
  rewrite Hlen. unfold align_len. change 12%nat with (3 * 4)%nat. rewrite Nat.add_comm, Nat.Div0.mod_add. apply pad_len_spec.
Qed.

Lemma read_bytes_align data rest : read_bytes (length data) (align4 data ++ rest) = Some (data, rest).
Proof.
  unfold read_bytes, align4. rewrite !length_app, length_replicate, (proj2 (Nat.leb_le _ _)) by lia.
  rewrite <-!app_assoc, take_app_length, <-drop_drop, drop_app_length.
  by rewrite drop_app_length' by by rewrite length_replicate.
Qed.
Lemma read_prop fuel strings name props children n data off rest :
  name_at strings n off -> Z.of_nat (length data) < 2 ^ 32 ->
  read_items (S fuel) strings name props children
    ((be_bytes 4 FDT_PROP ++ be_bytes 4 (Z.of_nat (length data)) ++ be_bytes 4 off ++ align4 data) ++ rest)
  = read_items fuel strings name (props ++ [(n, data)]) children rest.
Proof.
  intros [Hoff Hn] Hd. rewrite <-!app_assoc. cbn [read_items]. rewrite read_u32_be by (unfold FDT_PROP; lia). cbn [mbind option_bind].
  rewrite Z.eqb_refl, read_u32_be by lia. cbn [mbind option_bind]. rewrite read_u32_be by lia. cbn [mbind option_bind].
  rewrite Nat2Z.id, read_bytes_align. cbn [mbind option_bind]. by rewrite Hn.
Qed.
Lemma read_child fuel strings name props children s c s' :
  read_node fuel strings s = Some (c, s') ->
  read_items (S fuel) strings name props children s = read_items fuel strings name props (children ++ [c]) s'.
Proof.
  unfold read_node. cbn [read_items]. destruct (read_u32 s) as [[token s1]|]; [|done]. cbn [mbind option_bind].
  destruct (Z.eqb_spec token FDT_BEGIN_NODE) as [->|]; [|done]. cbn [Z.eqb FDT_BEGIN_NODE FDT_PROP].
  change (FDT_BEGIN_NODE =? FDT_PROP) with false. cbv iota.
  destruct (read_node_name s1) as [[n s2]|]; [|done]. cbn [mbind option_bind]. by intros ->.
Qed.
Lemma read_end fuel strings name props children rest :
  read_items (S fuel) strings name props children (be_bytes 4 FDT_END_NODE ++ rest) = Some (Node name props children, rest).
Proof. cbn [read_items]. rewrite read_u32_be by (unfold FDT_END_NODE; lia). done. Qed.

Lemma write_props_spec props : forall b,
  names_ok b -> aligned b -> Forall (fun p => no_nul p.1 /\ Z.of_nat (length p.2) < 2 ^ 32) props ->
  exists bs, grows b (write_props b props) bs (sum_of (fun p => length (as_bytes p.1) + 1)%nat props) /\
    length bs = sum_of (fun p => 12 + align_len (length p.2))%nat props /\
    forall strings, table (write_props b props) strings -> forall fuel name acc children rest,
      read_items (length props + fuel) strings name acc children (bs ++ rest) = read_items fuel strings name (acc ++ props) children rest.
Proof.
  induction props as [|[n data] props IH]; intros b Hb Ha Hp.
  - exists []. split_and!; [|done|intros; by rewrite app_nil_r].
    split; [by rewrite app_nil_r|done|exists []; by rewrite app_nil_r|done].
  - apply Forall_cons in Hp as [[Hn Hd] Hp]. cbn [fst snd] in *.
    destruct (prop_bytes_spec b n data Hb Ha Hn Hd) as (off & G1 & L1 & T1). cbv zeta in *.
    destruct (IH (prop_bytes b n data)) as (bs & G2 & L2 & R2); [by destruct G1|by eapply grows_aligned|done|].
    eexists. split_and!; [exact (grows_trans _ _ _ _ _ _ _ G1 G2)|by rewrite length_app, L1, L2|].
    intros strings Ht fuel name acc children rest. cbn [length Nat.add]. rewrite <-app_assoc.
    rewrite (read_prop _ _ _ _ _ n data off) by first [done | apply T1; by eapply table_mono].
    change (write_props b ((n, data) :: props)) with (write_props (prop_bytes b n data) props) in Ht.
    rewrite R2 by done. by rewrite <-app_assoc.
Qed.

(** A written node reads back. *)
Definition node_reads (t : tree) : Prop :=
  tree_ok t -> forall b, names_ok b -> aligned b ->
  exists bs, grows b (write_node t b) bs (names_size t) /\ length bs = node_size t /\
    forall strings, table (write_node t b) strings -> forall fuel rest, (need t <= fuel)%nat ->
      read_node fuel strings (bs ++ rest) = Some (t, rest).

Lemma write_children_spec children : Forall node_reads children -> foldr (fun c acc => tree_ok c /\ acc) True children -> forall b,
  names_ok b -> aligned b ->
  let b' := foldl (fun b c => write_node c b) b children in
  exists bs, grows b b' bs (sum_of names_size children) /\ length bs = sum_of node_size children /\
    forall strings, table b' strings -> forall fuel k name props acc rest, (sum_of (fun c => S (need c)) children + k <= fuel)%nat ->
      exists fuel', (k <= fuel')%nat /\
        read_items fuel strings name props acc (bs ++ rest) = read_items fuel' strings name props (acc ++ children) rest.
Proof.
  induction 1 as [|c children Hc Hcs IH]; intros Hok b Hb Ha.
  - exists []. split_and!; [|done|intros; exists fuel; split; [simpl in *; lia|by rewrite app_nil_r]].
    split; [by rewrite app_nil_r|done|exists []; by rewrite app_nil_r|done].
  - destruct Hok as [Hc1 Hok]. destruct (Hc Hc1 b Hb Ha) as (bs1 & G1 & L1 & R1).
    destruct (IH Hok (write_node c b)) as (bs2 & G2 & L2 & R2); [by destruct G1|by eapply grows_aligned|].
    cbn [foldl]. exists (bs1 ++ bs2). split_and!; [exact (grows_trans _ _ _ _ _ _ _ G1 G2)|by rewrite length_app, L1, L2|].
    intros strings Ht fuel k name props acc rest Hf. cbn [sum_of foldr] in Hf. fold (sum_of (fun c => S (need c)) children) in Hf.
    destruct fuel as [|fuel]; [lia|]. rewrite <-app_assoc.
    rewrite (read_child _ _ _ _ _ _ c (bs2 ++ rest)) by (apply R1; [by eapply table_mono|lia]).
    destruct (R2 strings Ht fuel k name props (acc ++ [c]) rest) as (fuel' & Hk & E); [lia|].
    exists fuel'. split; [done|]. by rewrite E, <-app_assoc.
Qed.

Lemma read_node_name_spec name rest :
  no_nul name -> read_node_name (align4 (as_bytes name ++ [0]) ++ rest) = Some (name, rest).
Proof.
  intros Hn. unfold read_node_name, align4. rewrite <-!app_assoc. cbn [app]. rewrite read_cstring_app by done. cbn [mbind option_bind].
  rewrite string_of_as_bytes, length_app. cbn [length]. by rewrite drop_app_length' by by rewrite length_replicate.
Qed.
Lemma begin_node_spec b name :
  names_ok b -> aligned b ->
  let bs := be_bytes 4 FDT_BEGIN_NODE ++ align4 (as_bytes name ++ [0]) in
  grows b (begin_node b name) bs 0 /\ length bs = (4 + align_len (length (as_bytes name) + 1))%nat.
Proof.
  intros Hb Ha bs. assert (Hl : length bs = (4 + align_len (length (as_bytes name) + 1))%nat).
  { unfold bs, align4, align_len. rewrite !length_app, length_be_bytes, length_replicate. simpl. lia. }
  split; [|done]. split.
  - unfold begin_node. rewrite struct_pad, !struct_put, struct_push, wrap_small by (unfold in_width, FDT_BEGIN_NODE; lia).
    unfold bs, align4. rewrite !length_app, length_be_bytes. cbn [length].
    replace (length (struct_buf b) + 4 + length (as_bytes name) + 1)%nat with (length (struct_buf b) + (4 + (length (as_bytes name) + 1)))%nat by lia.
    rewrite pad_len_aligned, (pad_len_aligned 4) by done. by rewrite <-!app_assoc.
  - rewrite Hl. unfold align_len. change 4%nat with (1 * 4)%nat at 1. rewrite Nat.add_comm, Nat.Div0.mod_add. apply pad_len_spec.
  - exists []. by rewrite app_nil_r.
  - exact Hb.
Qed.
Lemma end_node_spec b : names_ok b -> grows b (end_node b) (be_bytes 4 FDT_END_NODE) 0.
Proof.
  intros Hb. split; [|done| |exact Hb].
  - unfold end_node. by rewrite struct_push, wrap_small by (unfold in_width, FDT_END_NODE; lia).
  - exists []. by rewrite app_nil_r.
Qed.

Lemma write_node_spec t : node_reads t.
Proof.
  induction t as [name props children IH] using tree_ind'. intros (Hn & Hp & Hc) b Hb Ha.
  destruct (begin_node_spec b name Hb Ha) as [G1 L1]. cbv zeta in *. pose proof (grows_aligned _ _ _ _ Ha G1) as A1.
  destruct (write_props_spec props (begin_node b name)) as (bs2 & G2 & L2 & R2); [by destruct G1|done|done|].
  pose proof (grows_aligned _ _ _ _ A1 G2) as A2.
  destruct (write_children_spec children IH Hc (write_props (begin_node b name) props)) as (bs3 & G3 & L3 & R3); [by destruct G2|done|].
  cbv zeta in *. set (b3 := foldl _ _ _) in *. pose proof (end_node_spec b3 ltac:(by destruct G3)) as G4.
  exists ((be_bytes 4 FDT_BEGIN_NODE ++ align4 (as_bytes name ++ [0])) ++ bs2 ++ bs3 ++ be_bytes 4 FDT_END_NODE). split_and!.
  - pose proof (grows_trans _ _ _ _ _ _ _ G1 (grows_trans _ _ _ _ _ _ _ G2 (grows_trans _ _ _ _ _ _ _ G3 G4))) as G.
    cbn [names_size]. by rewrite Nat.add_0_r in G.
  - rewrite length_app, L1, !length_app, L2, L3, length_be_bytes. cbn [node_size]. lia.
  - intros strings Ht fuel rest Hf. cbn [need] in Hf. pose proof (table_mono _ _ _ _ _ G4 Ht) as T3. pose proof (table_mono _ _ _ _ _ G3 T3) as T2.
    unfold read_node. rewrite <-!app_assoc, read_u32_be by (unfold FDT_BEGIN_NODE; lia). cbn [mbind option_bind].
    rewrite Z.eqb_refl. rewrite read_node_name_spec by done. cbn [mbind option_bind].
    replace fuel with (length props + (fuel - length props))%nat by lia. rewrite R2 by done.
    destruct (R3 strings T3 (fuel - length props)%nat 1%nat name ([] ++ props) [] (be_bytes 4 FDT_END_NODE ++ rest)) as (fuel' & Hk & E); [lia|].
    rewrite E. destruct fuel' as [|fuel']; [lia|]. by rewrite read_end.
Qed.

Lemma sum_of_le {A} (f g : A -> nat) l : Forall (fun a => f a <= g a)%nat l -> (sum_of f l <= sum_of g l)%nat.
Proof. induction 1; simpl; lia. Qed.
Lemma need_le t : (need t + 7 <= node_size t)%nat.
Proof.
  induction t as [name props children IH] using tree_ind'. cbn [need node_size].
  assert (length props <= sum_of (fun p => 12 + align_len (length p.2)) props)%nat.
  { clear. induction props as [|p props IHp]; [done|]. cbn [length sum_of foldr]. fold (sum_of (fun p : string * list Z => 12 + align_len (length p.2))%nat props). lia. }
  assert (sum_of (fun c => S (need c)) children <= sum_of node_size children)%nat; [|lia].
  apply sum_of_le. eapply Forall_impl; [exact IH|]. intros c Hc. cbv beta in *. lia.
Qed.

Lemma slice_mid (pre mid post : list Z) (off len : Z) :
  off = Z.of_nat (length pre) -> len = Z.of_nat (length mid) -> slice off len (pre ++ mid ++ post) = mid.
Proof. intros -> ->. unfold slice. by rewrite !Nat2Z.id, drop_app_length, take_app_length. Qed.

(** The reader recovers every tree the builder writes. *)
Lemma fdt_roundtrip t :
  tree_ok t -> Z.of_nat (60 + node_size t + names_size t) < 2 ^ 32 -> fdt_read (finalize (write_node t fdt_new)) = Some t.
Proof.
  intros Hok Hsize. destruct (write_node_spec t Hok fdt_new) as (bs & [Hst _ (ss & Hss & Hk) _] & Hl & Hr); [by constructor|done|].
  set (b := write_node t fdt_new) in *. cbn [struct_buf strings_buf fdt_new app] in *.
  assert (Hend : struct_buf (push_u32 b FDT_END) = bs ++ be_bytes 4 FDT_END).
  { by rewrite struct_push, Hst, wrap_small by (unfold in_width, FDT_END; lia). }
  unfold finalize. rewrite Hend. change (strings_buf (push_u32 b FDT_END)) with (strings_buf b). rewrite Hss.
  rewrite length_app, length_be_bytes. unfold HEADER_SIZE, MEMRSV_SIZE.
  assert (Hn : Z.of_nat (length bs + 4) + Z.of_nat (length ss) + 56 < 2 ^ 32) by lia.
  set (n := Z.of_nat (length bs + 4)) in *. set (k := Z.of_nat (length ss)) in *. assert (0 <= n /\ 0 <= k) by lia.
  rewrite (wrap_small 32 n), (wrap_small 32 k), (wrap_small 32 (40 + 16 + n)), (wrap_small 32 (40 + 16 + n + k))
    by (unfold in_width; lia). change (40 + 16) with 56. unfold fdt_read.
  set (tail := be_bytes 4 (56 + n + k) ++ _). set (blob := be_bytes 4 FDT_MAGIC ++ tail).
  assert (Hblob : exists pre, blob = pre ++ (bs ++ be_bytes 4 FDT_END) ++ ss /\ length pre = 56%nat).
  { unfold blob, tail. exists (be_bytes 4 FDT_MAGIC ++ be_bytes 4 (56 + n + k) ++ be_bytes 4 56 ++ be_bytes 4 (56 + n) ++ be_bytes 4 40 ++
      be_bytes 4 FDT_VERSION ++ be_bytes 4 FDT_LAST_COMP_VERSION ++ be_bytes 4 0 ++ be_bytes 4 k ++ be_bytes 4 n ++ replicate 16 0).
    split; [by rewrite <-!app_assoc|]. rewrite !length_app, !length_be_bytes. done. }
  destruct Hblob as (pre & Hblob & Hpre).
  assert (Hitems : slice 56 n blob = bs ++ be_bytes 4 FDT_END).
  { rewrite Hblob. apply slice_mid; [by rewrite Hpre|]. unfold n. by rewrite length_app, length_be_bytes. }
  assert (Hstrs : slice (56 + n) k blob = ss).
  { rewrite Hblob. pose proof (slice_mid (pre ++ bs ++ be_bytes 4 FDT_END) ss [] (56 + n) k) as E.
    rewrite app_nil_r, <-!app_assoc in E. rewrite <-app_assoc. apply E; [|done].
    rewrite !length_app, Hpre, length_be_bytes. unfold n. lia. }
  assert (Htotal : 56 + n + k = Z.of_nat (length blob)).
  { rewrite Hblob, !length_app, Hpre, length_be_bytes. unfold n, k. lia. }
  assert (Hmagic : read_u32 blob = Some (FDT_MAGIC, tail)) by (apply read_u32_be; unfold FDT_MAGIC; lia).
  rewrite Hmagic. cbn [mbind option_bind]. unfold tail. clear Hmagic.
  repeat (rewrite read_u32_be by (unfold FDT_MAGIC, FDT_VERSION, FDT_LAST_COMP_VERSION; lia); cbn [mbind option_bind]).
  rewrite Hitems, Hstrs, <-Htotal, Z.eqb_refl. cbn [andb Z.eqb Z.leb FDT_MAGIC FDT_LAST_COMP_VERSION FDT_VERSION].
  rewrite Z.eqb_refl. cbn [andb]. rewrite (Hr ss).
  - cbn [mbind option_bind]. rewrite <-(app_nil_r (be_bytes 4 FDT_END)), read_u32_be by (unfold FDT_END; lia). done.
  - split; [exists []; by rewrite app_nil_r, Hss|]. unfold k in *. lia.
  - pose proof (need_le t). rewrite length_app, length_be_bytes. lia.
Qed.

(** * The tree of the system *)

Definition cell (v : Z) : list Z := be_bytes 4 (u32 v).
Definition text (s : string) : list Z := as_bytes s ++ [0].

Definition cpus_tree : tree :=
  Node "cpus" [("#address-cells", cell 1); ("#size-cells", cell 0); ("timebase-frequency", cell TIMEBASE_FREQ)]
    [Node "cpu@0" [("device_type", text "cpu"); ("reg", cell 0); ("status", text "okay"); ("compatible", text "riscv");
                   ("riscv,isa", text "rv64imafdc"); ("mmu-type", text "riscv,sv39")]
       [Node "interrupt-controller" [("#interrupt-cells", cell 1); ("interrupt-controller", []);
                                     ("compatible", text "riscv,cpu-intc"); ("phandle", cell CPU0_INTC)] []]].
Definition clint_tree (clint_base : Z) : tree :=
  Node ("clint@" +:+ hex clint_base)
    [("compatible", text "riscv,clint0"); ("reg", reg_cells clint_base 0x10000); ("interrupts-extended", intc_cells 3 7)] [].
Definition uart_tree (uart_base : Z) : tree :=
  Node ("uart@" +:+ hex uart_base)
    [("compatible", text "ns16550a"); ("reg", reg_cells uart_base 0x100); ("clock-frequency", cell 10000000);
     ("interrupt-parent", cell PLIC_PHANDLE); ("interrupts", be_bytes 4 10); ("status", text "okay")] [].
Definition virtio_tree (disk_base : Z) : tree :=
  Node ("virtio_mmio@" +:+ hex disk_base)
    [("compatible", text "virtio,mmio"); ("reg", reg_cells disk_base 0x1000);
     ("interrupt-parent", cell PLIC_PHANDLE); ("interrupts", be_bytes 4 1)] [].
Definition plic_tree : tree :=
  Node ("interrupt-controller@" +:+ hex PLIC_BASE)
    [("compatible", text "riscv,plic0"); ("reg", reg_cells PLIC_BASE 0x4000000); ("#interrupt-cells", cell 1);
     ("interrupt-controller", []); ("interrupts-extended", intc_cells 11 9); ("riscv,ndev", cell 0x35);
     ("phandle", cell PLIC_PHANDLE)] [].
Definition syscon_tree (syscon_base : Z) : tree :=
  Node ("syscon@" +:+ hex syscon_base)
    [("compatible", text "syscon"); ("reg", reg_cells syscon_base 0x1000); ("phandle", cell SYSCON_PHANDLE)] [].
Definition syscon_user (name compatible : string) (value : Z) : tree :=
  Node name [("compatible", text compatible); ("regmap", cell SYSCON_PHANDLE); ("offset", cell 0); ("value", cell value)] [].
Definition rtc_tree : tree :=
  Node ("rtc@" +:+ hex RTC_BASE)
    [("compatible", text "google,goldfish-rtc"); ("reg", reg_cells RTC_BASE 0x1000);
     ("interrupt-parent", cell PLIC_PHANDLE); ("interrupts", be_bytes 4 11)] [].
Definition soc_tree (config : Config) : tree :=
  let s := system config in
  Node "" [("#address-cells", cell 2); ("#size-cells", cell 2); ("compatible", text "riscv-virtio"); ("model", text "riscv-virtio,qemu")]
    [Node "chosen" [("bootargs", text (bootargs (cfg_uart_base s))); ("stdout-path", text (stdout_path (cfg_uart_base s)))] [];
     cpus_tree;
     Node ("memory@" +:+ hex (cfg_ram_base s))
       [("device_type", text "memory"); ("reg", reg_cells (cfg_ram_base s) (cfg_ram_size (memory config)))] [];
     Node "soc" [("#address-cells", cell 2); ("#size-cells", cell 2); ("compatible", text "simple-bus"); ("ranges", [])]
       [clint_tree (cfg_clint_base s); uart_tree (cfg_uart_base s); virtio_tree (cfg_disk_base s); plic_tree;
        syscon_tree (cfg_syscon_base s); syscon_user "poweroff" "syscon-poweroff" 0x5555;
        syscon_user "reboot" "syscon-reboot" 0x7777; rtc_tree]].

(** The calls with cells and without data, as calls with bytes. *)
Lemma begin_aligned b name : aligned (begin_node b name).
Proof. unfold aligned, begin_node. rewrite struct_pad. unfold align4. rewrite length_app, length_replicate. apply pad_len_spec. Qed.
Lemma bytes_aligned b name data : aligned (prop_bytes b name data).
Proof.
  unfold aligned, prop_bytes. destruct (string_offset b name) as [off b1]. rewrite struct_pad. unfold align4.
  rewrite length_app, length_replicate. apply pad_len_spec.
Qed.
Lemma push_aligned b v : aligned b -> aligned (push_u32 b v).
Proof. unfold aligned. intros H. by rewrite struct_push, length_app, length_be_bytes, mod4_add. Qed.
Lemma node_aligned t b : aligned b -> aligned (write_node t b).
Proof.
  revert b. induction t as [name props children IH] using tree_ind'. intros b _. cbn [write_node]. apply push_aligned.
  assert (H : aligned (write_props (begin_node b name) props)).
  { destruct props as [|p props _] using rev_ind; [apply begin_aligned|]. unfold write_props. rewrite foldl_app. apply bytes_aligned. }
  revert H. generalize (write_props (begin_node b name) props). induction IH as [|c children Hc _ IH]; [done|].
  intros b' Hb'. cbn [foldl]. by apply IH, Hc.
Qed.
Lemma string_offset_struct b name : struct_buf (string_offset b name).2 = struct_buf b.
Proof. unfold string_offset. by destruct (list_find _ _) as [[? [??]]|]. Qed.
Lemma pad_noop b : aligned b -> pad b = b.
Proof.
  intros H. unfold pad, align4. rewrite pad_len_0 by done. cbn [replicate]. rewrite app_nil_r. by destruct b.
Qed.
Lemma prop_u32_bytes b name v : aligned b -> prop_u32 b name v = prop_bytes b name (cell v).
Proof.
  intros H. unfold prop_u32, prop_bytes. pose proof (string_offset_struct b name) as Hs.
  destruct (string_offset b name) as [off b1]. cbn [snd] in Hs. rewrite pad_noop; [done|].
  change (extend_buf ?x (cell v)) with (push_u32 x v). do 4 apply push_aligned. unfold aligned in *. by rewrite Hs.
Qed.
Lemma prop_empty_bytes b name : aligned b -> prop_empty b name = prop_bytes b name [].
Proof.
  intros H. unfold prop_empty, prop_bytes. pose proof (string_offset_struct b name) as Hs.
  destruct (string_offset b name) as [off b1]. cbn [snd] in Hs. rewrite pad_noop.
  - unfold extend_buf. rewrite app_nil_r. by destruct b1.
  - assert (Hp : forall x, aligned x -> aligned (extend_buf x [])) by (intros x Hx; unfold aligned; by rewrite struct_put, app_nil_r).
    apply Hp. do 3 apply push_aligned. unfold aligned in *. by rewrite Hs.
Qed.
Lemma prop_string_bytes b name s : prop_string b name s = prop_bytes b name (text s).
Proof.
  unfold prop_string, prop_bytes. destruct (string_offset b name) as [off b1].
  unfold text. rewrite length_app. f_equal. unfold extend_buf.
  set (x := push_u32 _ _). destruct x. cbn. by rewrite <-app_assoc.
Qed.
#[local] Hint Resolve begin_aligned bytes_aligned push_aligned node_aligned : core.
Lemma u32_aligned b name v : aligned b -> aligned (prop_u32 b name v).
Proof. intros H. rewrite prop_u32_bytes; auto. Qed.
Lemma empty_aligned b name : aligned b -> aligned (prop_empty b name).
Proof. intros H. rewrite prop_empty_bytes; auto. Qed.
#[local] Hint Resolve u32_aligned empty_aligned : core.
(** Both sides as calls of [begin_node], [prop_bytes] and [end_node]. *)
Ltac as_tree :=
  unfold prop_reg_2_2, prop_reg_1_0; rewrite ?prop_string_bytes, ?prop_u32_bytes, ?prop_empty_bytes by auto;
  unfold cell; cbn [write_node write_props foldl fst snd]; reflexivity.

Lemma dtb_cpus_tree b : dtb_cpus b = write_node cpus_tree b.
Proof. unfold dtb_cpus, cpus_tree. as_tree. Qed.
Lemma dtb_clint_tree b base : dtb_clint b base = write_node (clint_tree base) b.
Proof. unfold dtb_clint, clint_tree. as_tree. Qed.
Lemma dtb_uart_tree b base : dtb_uart b base = write_node (uart_tree base) b.
Proof. unfold dtb_uart, uart_tree. as_tree. Qed.
Lemma dtb_virtio_tree b base : dtb_virtio b base = write_node (virtio_tree base) b.
Proof. unfold dtb_virtio, virtio_tree. as_tree. Qed.
Lemma dtb_plic_tree b : dtb_plic b = write_node plic_tree b.
Proof. unfold dtb_plic, plic_tree. as_tree. Qed.
Lemma dtb_syscon_tree b base :
  dtb_syscon b base = write_node (syscon_user "reboot" "syscon-reboot" 0x7777)
    (write_node (syscon_user "poweroff" "syscon-poweroff" 0x5555) (write_node (syscon_tree base) b)).
Proof. unfold dtb_syscon, syscon_tree, syscon_user. as_tree. Qed.
Lemma dtb_rtc_tree b : dtb_rtc b = write_node rtc_tree b.
Proof. unfold dtb_rtc, rtc_tree. as_tree. Qed.
Lemma generate_dtb_tree config : generate_dtb config = finalize (write_node (soc_tree config) fdt_new).
Proof.
  unfold generate_dtb. rewrite dtb_rtc_tree, dtb_syscon_tree, dtb_plic_tree, dtb_virtio_tree, dtb_uart_tree, dtb_clint_tree, dtb_cpus_tree.
  unfold soc_tree. as_tree.
Qed.

(** The names are strings and the blob is small. *)
Lemma hex_char_code d : 0 <= d < 16 -> Z.of_nat (nat_of_ascii (hex_char d)) <> 0.
Proof.
  intros Hd. assert (H : Forall (fun d => Z.of_nat (nat_of_ascii (hex_char d)) <> 0) (seqZ 0 16))
    by (apply (bool_decide_unpack _); by vm_compute).
  rewrite Forall_forall in H. apply H, elem_of_seqZ. lia.
Qed.
Lemma hex_go_spec fuel : forall x acc, no_nul acc ->
  no_nul (hex_go fuel x acc) /\ (length (as_bytes (hex_go fuel x acc)) <= length (as_bytes acc) + fuel + 1)%nat.
Proof.
  induction fuel as [|fuel IH]; intros x acc Hacc; cbn [hex_go].
  - assert (no_nul (String (hex_char (x mod 16)) acc)).
    { unfold no_nul. rewrite as_bytes_cons. apply Forall_cons. split; [by apply hex_char_code, Z.mod_pos_bound|done]. }
    rewrite as_bytes_cons. cbn [length]. split; [done|lia].
  - assert (H : no_nul (String (hex_char (x mod 16)) acc)).
    { unfold no_nul. rewrite as_bytes_cons. apply Forall_cons. split; [by apply hex_char_code, Z.mod_pos_bound|done]. }
    destruct (x / 16 =? 0).
    + rewrite as_bytes_cons. cbn [length]. split; [done|lia].
    + destruct (IH (x / 16) _ H) as [H1 H2]. rewrite as_bytes_cons in H2. cbn [length] in H2. split; [done|lia].
Qed.
Lemma hex_no_nul x : no_nul (hex x).
Proof. apply hex_go_spec. constructor. Qed.
Lemma hex_length x : (length (as_bytes (hex x)) <= 16)%nat.
Proof. apply (hex_go_spec 15 x ""). constructor. Qed.
Lemma no_nul_app a b : no_nul a -> no_nul b -> no_nul (a +:+ b).
Proof. unfold no_nul. rewrite as_bytes_app. intros. by apply Forall_app. Qed.
#[export] Instance no_nul_dec s : Decision (no_nul s).
Proof. unfold no_nul. apply _. Defined.
Ltac no_nul_tac :=
  repeat (apply no_nul_app || apply hex_no_nul); apply (bool_decide_unpack _); vm_compute; exact I.

(** The lengths of the pieces that depend on the configuration. *)
Ltac lengths :=
  unfold text, stdout_path, bootargs, reg_cells, intc_cells, cell;
  rewrite ?length_app, ?as_bytes_app, ?length_app, ?length_be_bytes;
  repeat match goal with
  | |- context [length (as_bytes (hex ?x))] =>
      let H := fresh in pose proof (hex_length x) as H; revert H; generalize (length (as_bytes (hex x))); intros ? H
  end;
  repeat match goal with
  | |- context [length (as_bytes ?s)] => let n := eval vm_compute in (length (as_bytes s)) in change (length (as_bytes s)) with n
  end; cbn [length].

Ltac tree_ok_tac :=
  cbn [fst snd];
  lazymatch goal with
  | |- True => exact I
  | |- _ /\ _ => split; tree_ok_tac
  | |- no_nul _ => no_nul_tac
  | |- Forall _ [] => apply Forall_nil_2
  | |- Forall _ (_ :: _) => apply Forall_cons_2; tree_ok_tac
  | |- _ < _ => lengths; lia
  end.
Lemma soc_tree_ok config : tree_ok (soc_tree config).
Proof.
  cbn [soc_tree tree_ok cpus_tree clint_tree uart_tree virtio_tree plic_tree syscon_tree syscon_user rtc_tree foldr].
  tree_ok_tac.
Qed.
Lemma align_len_le n : (align_len n <= n + 3)%nat.
Proof. unfold align_len. pose proof (pad_len_spec n). lia. Qed.
Lemma align_len_mono_bound n k : (n <= k -> align_len n <= k + 3)%nat.
Proof. pose proof (align_len_le n). lia. Qed.
Lemma soc_tree_size config : (node_size (soc_tree config) + names_size (soc_tree config) <= 5000)%nat.
Proof.
  cbn [soc_tree node_size names_size cpus_tree clint_tree uart_tree virtio_tree plic_tree syscon_tree syscon_user rtc_tree sum_of foldr fst snd].
  lengths. cbn [Nat.add].
  repeat match goal with
  | |- context [align_len ?n] => let H := fresh in pose proof (align_len_le n) as H; revert H; generalize (align_len n); intros ? H
  end. lia.
Qed.

Lemma dtb_roundtrip config : fdt_read (generate_dtb config) = Some (soc_tree config).
Proof.
  rewrite generate_dtb_tree. apply fdt_roundtrip; [apply soc_tree_ok|]. pose proof (soc_tree_size config). lia.
Qed.

(** The blob is a list of at most 5060 bytes. *)
Definition is_byte (x : Z) : Prop := 0 <= x < 256.
#[export] Instance is_byte_dec x : Decision (is_byte x).
Proof. unfold is_byte. apply _. Defined.
Lemma le_bytes_bytes n v : Forall is_byte (le_bytes n v).
Proof. unfold le_bytes. apply Forall_fmap, Forall_forall. intros k _. apply le_byte_range. Qed.
Lemma be_bytes_bytes n v : Forall is_byte (be_bytes n v).
Proof. unfold be_bytes. apply Forall_reverse, le_bytes_bytes. Qed.
Lemma as_bytes_bytes s : Forall is_byte (as_bytes s).
Proof. apply Forall_fmap, Forall_forall. intros c _. cbn. pose proof (nat_ascii_bounded c). unfold is_byte. lia. Qed.
Lemma zeros_bytes n : Forall is_byte (replicate n 0).
Proof. by apply Forall_replicate. Qed.
#[local] Hint Resolve le_bytes_bytes be_bytes_bytes as_bytes_bytes zeros_bytes : core.
#[local] Hint Extern 1 (is_byte 0) => done : core.

Fixpoint tree_bytes (t : tree) : Prop :=
  match t with
  | Node name props children => Forall (fun p => Forall is_byte p.2) props /\ foldr (fun c acc => tree_bytes c /\ acc) True children
  end.
Definition buf_bytes (b : FdtBuilder) : Prop := Forall is_byte (struct_buf b) /\ Forall is_byte (strings_buf b).
Lemma put_bytes b l : Forall is_byte l -> buf_bytes b -> buf_bytes (extend_buf b l).
Proof. intros Hl [H1 H2]. split; [by apply Forall_app|done]. Qed.
Lemma pad_bytes b : buf_bytes b -> buf_bytes (pad b).
Proof. intros [H1 H2]. split; [apply Forall_app; auto|done]. Qed.
Lemma push_bytes b v : buf_bytes b -> buf_bytes (push_u32 b v).
Proof. apply put_bytes, be_bytes_bytes. Qed.
Lemma string_offset_bytes b name : buf_bytes b -> buf_bytes (string_offset b name).2.
Proof.
  intros [H1 H2]. unfold string_offset. destruct (list_find _ _) as [[? [??]]|]; [done|].
  split; [done|]. cbn. apply Forall_app. split; [done|]. apply Forall_app. auto.
Qed.
#[local] Hint Resolve put_bytes pad_bytes push_bytes : core.
Lemma prop_bytes_bytes b name data : Forall is_byte data -> buf_bytes b -> buf_bytes (prop_bytes b name data).
Proof.
  intros Hd Hb. unfold prop_bytes. pose proof (string_offset_bytes b name Hb) as Hs. destruct (string_offset b name) as [off b1]. auto 10.
Qed.
Lemma write_node_bytes t : tree_bytes t -> forall b, buf_bytes b -> buf_bytes (write_node t b).
Proof.
  induction t as [name props children IH] using tree_ind'. intros [Hp Hc] b Hb. cbn [write_node]. apply push_bytes.
  assert (H : buf_bytes (write_props (begin_node b name) props)).
  { assert (H0 : buf_bytes (begin_node b name)) by (unfold begin_node; auto).
    revert H0. generalize (begin_node b name). induction Hp as [|p props Hd _ IHp]; [done|].
    intros b' Hb'. apply IHp. by apply prop_bytes_bytes. }
  revert Hc H. generalize (write_props (begin_node b name) props). induction IH as [|c children IHc _ IH]; [done|].
  intros b' [Hc1 Hc2] Hb'. cbn [foldl]. auto.
Qed.
Lemma finalize_bytes b : buf_bytes b -> Forall is_byte (finalize b).
Proof. intros [H1 H2]%(push_bytes b FDT_END). unfold finalize. cbv zeta. repeat (exact H1 || exact H2 || (apply Forall_app; split)); auto. Qed.
Ltac tree_bytes_tac :=
  cbn [fst snd];
  lazymatch goal with
  | |- True => exact I
  | |- _ /\ _ => split; tree_bytes_tac
  | |- Forall _ [] => apply Forall_nil_2
  | |- Forall is_byte (text _) => apply Forall_app; auto
  | |- Forall is_byte (_ ++ _) => repeat (apply Forall_app; split); auto
  | |- Forall is_byte _ => auto
  | |- Forall _ (_ :: _) => apply Forall_cons_2; tree_bytes_tac
  end.
Lemma soc_tree_bytes config : tree_bytes (soc_tree config).
Proof.
  cbn [soc_tree tree_bytes cpus_tree clint_tree uart_tree virtio_tree plic_tree syscon_tree syscon_user rtc_tree foldr].
  unfold reg_cells, intc_cells, cell. tree_bytes_tac.
Qed.
Lemma dtb_bytes config : Forall is_byte (generate_dtb config).
Proof.
  rewrite generate_dtb_tree. apply finalize_bytes, write_node_bytes; [apply soc_tree_bytes|]. split; constructor.
Qed.
Lemma dtb_size config : Z.of_nat (length (generate_dtb config)) <= 5060.
Proof.
  rewrite generate_dtb_tree. destruct (write_node_spec (soc_tree config) (soc_tree_ok config) fdt_new) as (bs & [Hst _ (ss & Hss & Hk) _] & Hl & _); [by constructor|done|].
  unfold finalize. rewrite !length_app, !length_be_bytes, length_replicate, struct_push, length_app, length_be_bytes.
  change (strings_buf (push_u32 ?b FDT_END)) with (strings_buf b). rewrite Hst, Hss. cbn [struct_buf strings_buf fdt_new app].
  pose proof (soc_tree_size config). lia.
Qed.

(** * What the reader of the blob finds *)

Fixpoint nodes (t : tree) : list (list (string * list Z)) :=
  match t with Node _ props children => props :: (children ≫= nodes) end.
Definition prop_of (name : string) (props : list (string * list Z)) : option (list Z) :=
  snd <$> (snd <$> list_find (fun p => p.1 = name) props).
(** A range of two address and two size cells. *)
Definition decode_reg (data : list Z) : option (Z * Z) :=
  if (length data =? 16)%nat then Some (be_value (take 8 data), be_value (drop 8 data)) else None.
Definition node_range (props : list (string * list Z)) : option (Z * Z) := prop_of "reg" props ≫= decode_reg.
Definition node_irq (props : list (string * list Z)) : option (Z * Z) :=
  r ← node_range props; data ← prop_of "interrupts" props; Some (r.1, be_value data).
Definition ranges (t : tree) : list (Z * Z) := omap node_range (nodes t).
Definition irq_lines (t : tree) : list (Z * Z) := omap node_irq (nodes t).

Lemma be_value_2 hi lo : 0 <= hi < 2 ^ 32 -> 0 <= lo < 2 ^ 32 -> be_value (be_bytes 4 hi ++ be_bytes 4 lo) = hi * 2 ^ 32 + lo.
Proof.
  intros Hh Hl. pose proof (read_u32_be hi [] Hh) as E1. pose proof (read_u32_be lo [] Hl) as E2. rewrite !be_bytes_4 in *.
  assert (H4 : forall a b c d, be_value [a; b; c; d] = d + 256 * (c + 256 * (b + 256 * (a + 256 * 0)))) by done.
  assert (H8 : forall a b c d e f g h, be_value [a; b; c; d; e; f; g; h]
    = h + 256 * (g + 256 * (f + 256 * (e + 256 * (d + 256 * (c + 256 * (b + 256 * (a + 256 * 0)))))))) by done.
  cbn [app read_u32] in *. injection E1 as E1. injection E2 as E2. rewrite H4 in E1, E2. rewrite H8. lia.
Qed.
Lemma decode_reg_cells addr size :
  in_width 64 addr -> in_width 64 size -> decode_reg (reg_cells addr size) = Some (addr, size).
Proof.
  intros Ha Hs. assert (E : forall x, in_width 64 x -> be_value (be_bytes 4 (u32 (Z.shiftr x 32)) ++ be_bytes 4 (u32 x)) = x).
  { intros x Hx. unfold in_width in Hx. rewrite be_value_2 by (apply wrap_range; lia). unfold u32, wrap. rewrite Z.shiftr_div_pow2 by lia.
    rewrite (Z.mod_small (x / 2 ^ 32)) by (split; [apply Z.div_pos; lia|apply Z.div_lt_upper_bound; lia]).
    pose proof (Z.div_mod x (2 ^ 32)). lia. }
  unfold decode_reg, reg_cells. rewrite !length_app, !length_be_bytes. cbn [Nat.add Nat.eqb]. do 2 f_equal.
  - rewrite app_assoc, take_app_length' by by rewrite length_app, !length_be_bytes. by apply E.
  - rewrite app_assoc, drop_app_length' by by rewrite length_app, !length_be_bytes. by apply E.
Qed.
Lemma node_range_eq props addr size :
  prop_of "reg" props = Some (reg_cells addr size) -> in_width 64 addr -> in_width 64 size -> node_range props = Some (addr, size).
Proof. intros Hp Ha Hs. unfold node_range. rewrite Hp. by apply decode_reg_cells. Qed.
Lemma node_range_cell props v : prop_of "reg" props = Some (cell v) -> node_range props = None.
Proof. intros Hp. unfold node_range. by rewrite Hp. Qed.
Lemma node_range_none props : prop_of "reg" props = None -> node_range props = None.
Proof. intros Hp. unfold node_range. by rewrite Hp. Qed.
Lemma node_irq_none props : prop_of "interrupts" props = None -> node_irq props = None.
Proof. intros Hp. unfold node_irq. rewrite Hp. by destruct (node_range props). Qed.
Lemma node_irq_eq props addr size irq :
  node_range props = Some (addr, size) -> prop_of "interrupts" props = Some (be_bytes 4 irq) -> 0 <= irq < 2 ^ 32 ->
  node_irq props = Some (addr, irq).
Proof.
  intros Hr Hp Hi. unfold node_irq. rewrite Hr, Hp. cbn [mbind option_bind fst].
  pose proof (read_u32_be irq [] Hi) as E. rewrite be_bytes_4 in *. cbn [app read_u32] in E. injection E as E. by rewrite E.
Qed.

Section Describes.
Context (config : Config) (Hok : map_ok config).
Local Abbreviation s := (system config).

Lemma bases_width :
  in_width 64 (cfg_ram_base s) /\ in_width 64 (cfg_ram_size (memory config)) /\ in_width 64 (cfg_uart_base s) /\
  in_width 64 (cfg_disk_base s) /\ in_width 64 (cfg_clint_base s) /\ in_width 64 (cfg_syscon_base s).
Proof using Hok.
  destruct Hok as [_ Hf]. apply Forall_app in Hf as [Hf _]. unfold memory_map in Hf. unfold in_width.
  repeat (apply Forall_cons in Hf as [? Hf]). simpl in *. lia.
Qed.
(** The range of each node, its [reg] of four cells, and its interrupt. *)
Lemma node_ranges name props addr size :
  prop_of "reg" props = Some (reg_cells addr size) -> in_width 64 addr -> in_width 64 size ->
  ranges (Node name props []) = [(addr, size)].
Proof. intros Hp Ha Hs. unfold ranges. cbn [nodes mbind list_bind omap list_omap]. by rewrite (node_range_eq _ _ _ Hp Ha Hs). Qed.
Lemma node_no_irq name props : prop_of "interrupts" props = None -> irq_lines (Node name props []) = [].
Proof. intros Hp. unfold irq_lines. cbn [nodes mbind list_bind omap list_omap]. by rewrite node_irq_none. Qed.
Lemma node_irqs name props addr size irq :
  prop_of "reg" props = Some (reg_cells addr size) -> in_width 64 addr -> in_width 64 size ->
  prop_of "interrupts" props = Some (be_bytes 4 irq) -> 0 <= irq < 2 ^ 32 ->
  irq_lines (Node name props []) = [(addr, irq)].
Proof.
  intros Hp Ha Hs Hi Hb. unfold irq_lines. cbn [nodes mbind list_bind omap list_omap].
  by rewrite (node_irq_eq _ _ _ _ (node_range_eq _ _ _ Hp Ha Hs) Hi Hb).
Qed.
Lemma omap_bind_nodes {A} (f : list (string * list Z) -> option A) (l : list tree) :
  omap f (l ≫= nodes) = l ≫= fun t => omap f (nodes t).
Proof. induction l as [|t l IH]; [done|]. cbn [mbind list_bind]. by rewrite omap_app, <-IH. Qed.
Lemma inner_ranges name props children :
  prop_of "reg" props = None -> ranges (Node name props children) = children ≫= ranges.
Proof.
  intros Hp. unfold ranges. cbn [nodes]. cbn [omap list_omap]. rewrite node_range_none by done. apply omap_bind_nodes.
Qed.
Lemma inner_irqs name props children :
  prop_of "interrupts" props = None -> irq_lines (Node name props children) = children ≫= irq_lines.
Proof.
  intros Hp. unfold irq_lines. cbn [nodes]. cbn [omap list_omap]. rewrite node_irq_none by done. apply omap_bind_nodes.
Qed.
Lemma cpus_ranges : ranges cpus_tree = [] /\ irq_lines cpus_tree = [].
Proof. by vm_compute. Qed.
Lemma chosen_ranges base :
  ranges (Node "chosen" [("bootargs", text (bootargs base)); ("stdout-path", text (stdout_path base))] []) = [].
Proof. by rewrite inner_ranges. Qed.

Lemma soc_ranges :
  ranges (soc_tree config) =
  [(cfg_ram_base s, cfg_ram_size (memory config)); (cfg_clint_base s, 0x10000); (cfg_uart_base s, 0x100); (cfg_disk_base s, 0x1000);
   (PLIC_BASE, 0x4000000); (cfg_syscon_base s, 0x1000); (RTC_BASE, 0x1000)].
Proof using Hok.
  destruct bases_width as (H1 & H2 & H3 & H4 & H5 & H6). unfold soc_tree. rewrite inner_ranges by done. cbn [mbind list_bind].
  rewrite chosen_ranges, (proj1 cpus_ranges), (node_ranges _ _ (cfg_ram_base s) (cfg_ram_size (memory config))), inner_ranges by done.
  cbn [mbind list_bind]. unfold clint_tree, uart_tree, virtio_tree, plic_tree, syscon_tree, rtc_tree.
  rewrite (node_ranges _ _ (cfg_clint_base s) 0x10000), (node_ranges _ _ (cfg_uart_base s) 0x100),
    (node_ranges _ _ (cfg_disk_base s) 0x1000), (node_ranges _ _ PLIC_BASE 0x4000000),
    (node_ranges _ _ (cfg_syscon_base s) 0x1000), (node_ranges _ _ RTC_BASE 0x1000) by done.
  done.
Qed.
Lemma soc_irq_lines :
  irq_lines (soc_tree config) = [(cfg_uart_base s, 10); (cfg_disk_base s, 1); (RTC_BASE, 11)].
Proof using Hok.
  destruct bases_width as (H1 & H2 & H3 & H4 & H5 & H6). unfold soc_tree. rewrite inner_irqs by done. cbn [mbind list_bind].
  rewrite (proj2 cpus_ranges), !node_no_irq, inner_irqs by done.
  cbn [mbind list_bind].
  assert (Ec : forall b, irq_lines (clint_tree b) = []) by (intros; by apply node_no_irq).
  assert (Es : forall b, irq_lines (syscon_tree b) = []) by (intros; by apply node_no_irq).
  assert (Eu : forall n c v, irq_lines (syscon_user n c v) = []) by (intros; by apply node_no_irq).
  assert (Ep : irq_lines plic_tree = []) by by apply node_no_irq.
  rewrite Ec, Es, !Eu, Ep. unfold uart_tree, virtio_tree, rtc_tree.
  rewrite (node_irqs _ _ (cfg_uart_base s) 0x100 10), (node_irqs _ _ (cfg_disk_base s) 0x1000 1),
    (node_irqs _ _ RTC_BASE 0x1000 11) by done.
  done.
Qed.
Lemma device_irqs disk_data :
  omap (fun d => irq ← dev_irq_id d; Some ((dev_range (shared_new (cfg_ram_size (memory config))) d).1, irq)) (system_devices config disk_data)
  = [(cfg_uart_base s, 10); (cfg_disk_base s, 1); (RTC_BASE, 11)].
Proof. unfold system_devices. destruct disk_data as [[|]|]; destruct (negb (cfg_tohost_addr s =? 0)); reflexivity. Qed.
End Describes.

(** C18. For every memory map without overlaps, the generated blob is a well-formed
    device tree that a reader of the format recovers, and it tells the truth
    about the bus: the address ranges it lists are those of the devices on the
    bus, each address in one of them (not taken by HTIF) reaches that device
    after any sequence of bus operations, and the interrupt lines it lists are
    those the devices raise. *)
Theorem dtb_describes_system (config : Config) (disk_data : option (list Z)) (ops : list bus_op) :
  map_ok config ->
  let b := foldl bus_exec (sys_bus (system_new config disk_data)) ops in
  exists t, fdt_read (generate_dtb config) = Some t /\
    ranges t ≡ₚ snd <$> memory_map config /\
    (forall r raw, r ∈ ranges t -> covers r raw -> (forall h, h ∈ htif_map config -> ~ covers h.2 raw) ->
       exists name, (name, r) ∈ memory_map config /\ reaches b raw (name, r)) /\
    irq_lines t = omap (fun d => irq ← dev_irq_id d; Some ((dev_range (shared_new (cfg_ram_size (memory config))) d).1, irq))
                    (system_devices config disk_data).
Proof.
  intros Hok b. exists (soc_tree config). split; [apply dtb_roundtrip|].
  assert (Hp : ranges (soc_tree config) ≡ₚ snd <$> memory_map config) by (rewrite soc_ranges by done; unfold memory_map; cbn; solve_Permutation).
  split_and!; [done| |by rewrite soc_irq_lines, device_irqs].
  intros r raw Hr Hc Hh. rewrite Hp in Hr. apply list_elem_of_fmap in Hr as ([name r'] & -> & Hin). exists name. split; [done|].
  by apply reaches_covered.
Qed.
Lemma dtb_describes_system_witness :
  exists t, fdt_read (generate_dtb config_default) = Some t /\
    irq_lines t = [(0x10000000, 10); (0x90000000, 1); (0x101000, 11)] /\
    (0x80000000, 128 * 1024 * 1024) ∈ ranges t.
Proof.
  assert (Hok : map_ok config_default) by (apply (bool_decide_unpack _); by vm_compute).
  destruct (dtb_describes_system config_default None [BTick] Hok) as (t & Ht & Hr & _ & Hi).
  exists t. split; [exact Ht|]. split; [rewrite Hi; by vm_compute|]. rewrite Hr. left.
Defined.
