(* ===== verification/Disasm.v ===== *)
(** The disassembler ([isa/disasm.rs]) against the assembly syntax of the
    instruction set of [DecodeSpec]. *)
From stdpp Require Import strings pretty.
From S2P Require Import Prelude Common BitField Isa Rename RenameO3 Tlb Csr Mmu Cpu Decode DecodeSpec Rvc DeviceTree.
Set Primitive Projections.
Local Open Scope string_scope.
Local Open Scope Z_scope.

(** * Formatting *)

(** [{}] of an [i64], [{:#x}] and [{:#0nx}]; the width of the latter counts the
    prefix. *)
Definition dec (x : Z) : string := pretty x.
Definition hex_prefixed (x : Z) : string := "0x" +:+ hex x.
Fixpoint zeros_string (n : nat) : string := match n with O => "" | S n => "0" +:+ zeros_string n end.
Definition hex_padded (width : nat) (x : Z) : string := "0x" +:+ zeros_string (width - 2 - String.length (hex x)) +:+ hex x.

(** Operands separated by commas, after a mnemonic. *)
Definition args (mn : string) (operands : list string) : string :=
  match operands with
  | [] => mn
  | o :: l => mn +:+ " " +:+ o +:+ foldr (fun o s => ", " +:+ o +:+ s) "" l
  end.
Definition mem_arg (imm : Z) (base : string) : string := dec imm +:+ "(" +:+ base +:+ ")".

(** * Registers *)

Definition REG_NAMES : list string :=
  ["zero"; "ra"; "sp"; "gp"; "tp"; "t0"; "t1"; "t2"; "s0"; "s1"; "a0"; "a1"; "a2"; "a3"; "a4"; "a5"; "a6"; "a7"; "s2"; "s3";
   "s4"; "s5"; "s6"; "s7"; "s8"; "s9"; "s10"; "s11"; "t3"; "t4"; "t5"; "t6"].
Definition FREG_NAMES : list string :=
  ["ft0"; "ft1"; "ft2"; "ft3"; "ft4"; "ft5"; "ft6"; "ft7"; "fs0"; "fs1"; "fa0"; "fa1"; "fa2"; "fa3"; "fa4"; "fa5"; "fa6"; "fa7";
   "fs2"; "fs3"; "fs4"; "fs5"; "fs6"; "fs7"; "fs8"; "fs9"; "fs10"; "fs11"; "ft8"; "ft9"; "ft10"; "ft11"].
Definition xreg (idx : Z) : string := default "x??" (REG_NAMES !! reg_as_usize idx).
Definition freg (idx : Z) : string := default "f??" (FREG_NAMES !! reg_as_usize idx).

(** * The disassembler *)

Definition disasm_op_reg (d r1 r2 f3 f7 : Z) (is_w : bool) : string :=
  let suffix := if is_w then "w" else "" in
  if f7 =? M_EXTENSION then
    let mn := zmatch f3 [(MUL, "mul"); (MULH, "mulh"); (MULHSU, "mulhsu"); (MULHU, "mulhu"); (DIV, "div"); (DIVU, "divu");
                         (REM, "rem"); (REMU, "remu")] "m??" in
    args (mn +:+ suffix) [xreg d; xreg r1; xreg r2]
  else
    let mn := zmatch f3
      [(ADD_SUB, zmatch f7 [(DEFAULT, "add"); (SUB, "sub")] "r??"); (SLL, "sll"); (SLT, "slt"); (SLTU, "sltu"); (XOR, "xor");
       (SRL_SRA, zmatch f7 [(DEFAULT, "srl"); (SRA, "sra")] "r??"); (OR, "or"); (AND, "and")] "r??" in
    args (mn +:+ suffix) [xreg d; xreg r1; xreg r2].
Definition disasm_op_imm (d r1 f3 imm : Z) (is_w : bool) : string :=
  let suffix := if is_w then "w" else "" in
  let shamt := Z.land imm 0x3F in
  let plain mn := args (mn +:+ suffix) [xreg d; xreg r1; dec imm] in
  let shift mn := args (mn +:+ suffix) [xreg d; xreg r1; dec shamt] in
  zmatch f3
    [(ADD_SUB, plain "addi"); (SLT, plain "slti"); (SLTU, plain "sltiu"); (XOR, plain "xori"); (OR, plain "ori");
     (AND, plain "andi"); (SLL, shift "slli");
     (SRL_SRA, shift (if negb (Z.land (Z.shiftr imm 10) 1 =? 0) then "srai" else "srli"))] (plain "i??").

Definition disasm_op_fp (d r1 r2 f3 f7 : Z) : string :=
  let is_double := negb (Z.land f7 1 =? 0) in
  let p := if is_double then "d" else "s" in
  let fff mn := args (mn +:+ "." +:+ p) [freg d; freg r1; freg r2] in
  let variant := zmatch r2 [(0, "w"); (1, "wu"); (2, "l")] "lu" in
  zmatch f7
    [(FADD, fff "fadd"); (FADD_D, fff "fadd"); (FSUB, fff "fsub"); (FSUB_D, fff "fsub"); (FMUL, fff "fmul"); (FMUL_D, fff "fmul");
     (FDIV, fff "fdiv"); (FDIV_D, fff "fdiv");
     (FSQRT, args ("fsqrt." +:+ p) [freg d; freg r1]); (FSQRT_D, args ("fsqrt." +:+ p) [freg d; freg r1]);
     (F7_FSGNJ, fff (zmatch f3 [(FSGNJ, "fsgnj"); (FSGNJN, "fsgnjn"); (FSGNJX, "fsgnjx")] "fsgnj?"));
     (FSGNJ_D, fff (zmatch f3 [(FSGNJ, "fsgnj"); (FSGNJN, "fsgnjn"); (FSGNJX, "fsgnjx")] "fsgnj?"));
     (FMIN_MAX, fff (if f3 =? FMIN then "fmin" else "fmax")); (FMIN_MAX_D, fff (if f3 =? FMIN then "fmin" else "fmax"));
     (FCMP, args (zmatch f3 [(FEQ, "feq"); (FLT, "flt"); (FLE, "fle")] "fcmp?" +:+ "." +:+ p) [xreg d; freg r1; freg r2]);
     (FCMP_D, args (zmatch f3 [(FEQ, "feq"); (FLT, "flt"); (FLE, "fle")] "fcmp?" +:+ "." +:+ p) [xreg d; freg r1; freg r2]);
     (FCLASS_MV_X_F, if f3 =? FCLASS then args ("fclass." +:+ p) [xreg d; freg r1]
                     else args ("fmv.x." +:+ (if is_double then "d" else "w")) [xreg d; freg r1]);
     (FCLASS_MV_X_D, if f3 =? FCLASS then args ("fclass." +:+ p) [xreg d; freg r1]
                     else args ("fmv.x." +:+ (if is_double then "d" else "w")) [xreg d; freg r1]);
     (FCVT_W_F, args ("fcvt." +:+ variant +:+ "." +:+ p) [xreg d; freg r1]);
     (FCVT_W_D, args ("fcvt." +:+ variant +:+ "." +:+ p) [xreg d; freg r1]);
     (FCVT_F_W, args ("fcvt." +:+ p +:+ "." +:+ variant) [freg d; xreg r1]);
     (FCVT_D_W, args ("fcvt." +:+ p +:+ "." +:+ variant) [freg d; xreg r1]);
     (FMV_F_X, args ("fmv." +:+ (if is_double then "d" else "w") +:+ ".x") [freg d; xreg r1]);
     (FMV_D_X, args ("fmv." +:+ (if is_double then "d" else "w") +:+ ".x") [freg d; xreg r1]);
     (FCVT_DS, args "fcvt.d.s" [freg d; freg r1]); (FCVT_S_D, args "fcvt.s.d" [freg d; freg r1])]
    ("fp?? (funct7=" +:+ hex_padded 4 f7 +:+ ")").

Definition disasm_amo (d r1 r2 f3 f7 : Z) : string :=
  let suffix := if f3 =? 3 then ".d" else ".w" in
  let funct5 := Z.shiftr f7 2 in
  let ordering := match negb (Z.land (Z.shiftr f7 1) 1 =? 0), negb (Z.land f7 1 =? 0) with
                  | true, true => ".aqrl" | true, false => ".aq" | false, true => ".rl" | false, false => "" end in
  let amo mn := args (mn +:+ suffix +:+ ordering) [xreg d; xreg r2; "(" +:+ xreg r1 +:+ ")"] in
  zmatch funct5
    [(LR, args ("lr" +:+ suffix +:+ ordering) [xreg d; "(" +:+ xreg r1 +:+ ")"]); (SC, amo "sc"); (AMOSWAP, amo "amoswap");
     (AMOADD, amo "amoadd"); (AMOXOR, amo "amoxor"); (AMOAND, amo "amoand"); (AMOOR, amo "amoor"); (AMOMIN, amo "amomin");
     (AMOMAX, amo "amomax"); (AMOMINU, amo "amominu"); (AMOMAXU, amo "amomaxu")] (amo "amo??").

Definition disasm_system (inst d r1 f3 : Z) : string :=
  zmatch inst
    [(ECALL, "ecall"); (EBREAK, "ebreak"); (MRET, "mret"); (SRET, "sret"); (WFI, "wfi")]
    (if Z.land inst 0xFE007FFF =? SFENCE_VMA then args "sfence.vma" [xreg r1; xreg (rs2 inst)]
     else
       let c := hex_padded 5 (csr inst) in
       let reg mn := args mn [xreg d; c; xreg r1] in
       let imm mn := args mn [xreg d; c; dec r1] in
       zmatch f3
         [(CSRRW, reg "csrrw"); (CSRRS, reg "csrrs"); (CSRRC, reg "csrrc"); (CSRRWI, imm "csrrwi"); (CSRRSI, imm "csrrsi");
          (CSRRCI, imm "csrrci")] ("system?? (" +:+ hex_padded 10 inst +:+ ")")).

Definition fp_precision (f7 : Z) : string := if Z.land f7 0x3 =? 1 then "d" else "s".

(** [((v as i32) << k >> k) as i64] *)
Definition shift_extend (v k : Z) : Z := Z.shiftr (as_signed 32 (u32 (Z.shiftl (as_signed 32 v) k))) k.
Definition disasm_imm_i (inst : Z) : Z := Z.shiftr (as_signed 32 inst) 20.
Definition disasm_imm_s (inst : Z) : Z :=
  let lo := Z.land (Z.shiftr inst 7) 0x1F in
  let hi := Z.land (Z.shiftr inst 25) 0x7F in
  shift_extend (Z.lor (shl32 hi 5) lo) 20.
Definition disasm_imm_b (inst : Z) : Z :=
  let bit11 := Z.land (Z.shiftr inst 7) 1 in
  let bits4_1 := Z.land (Z.shiftr inst 8) 0xF in
  let bits10_5 := Z.land (Z.shiftr inst 25) 0x3F in
  let bit12 := Z.land (Z.shiftr inst 31) 1 in
  shift_extend (Z.lor (Z.lor (Z.lor (shl32 bit12 12) (shl32 bit11 11)) (shl32 bits10_5 5)) (shl32 bits4_1 1)) 19.
Definition disasm_imm_u (inst : Z) : Z :=
  let imm := as_signed 32 (Z.land inst 0xFFFFF000) in Z.land (Z.shiftr imm 12) 0xFFFFF.
Definition disasm_imm_j (inst : Z) : Z :=
  let bits19_12 := Z.land (Z.shiftr inst 12) 0xFF in
  let bit11 := Z.land (Z.shiftr inst 20) 1 in
  let bits10_1 := Z.land (Z.shiftr inst 21) 0x3FF in
  let bit20 := Z.land (Z.shiftr inst 31) 1 in
  shift_extend (Z.lor (Z.lor (Z.lor (shl32 bit20 20) (shl32 bits19_12 12)) (shl32 bit11 11)) (shl32 bits10_1 1)) 11.

(** A word of full size. *)
Definition disasm_word (inst : Z) : string :=
  let d := rd inst in let r1 := rs1 inst in let r2 := rs2 inst in let f3 := funct3 inst in let f7 := funct7 inst in
  let imm_i := disasm_imm_i inst in
  let imm_s := disasm_imm_s inst in
  let fma mn := args (mn +:+ "." +:+ fp_precision f7) [freg d; freg r1; freg r2; freg (rs3 inst)] in
  zmatch (opcode inst)
    [(OP_REG, disasm_op_reg d r1 r2 f3 f7 false); (OP_REG_32, disasm_op_reg d r1 r2 f3 f7 true);
     (OP_IMM, disasm_op_imm d r1 f3 imm_i false); (OP_IMM_32, disasm_op_imm d r1 f3 imm_i true);
     (OP_LOAD, args (zmatch f3 [(LB, "lb"); (LH, "lh"); (LW, "lw"); (LD, "ld"); (LBU, "lbu"); (LHU, "lhu"); (LWU, "lwu")] "l??")
                 [xreg d; mem_arg imm_i (xreg r1)]);
     (OP_LOAD_FP, args (if f3 =? LW then "flw" else "fld") [freg d; mem_arg imm_i (xreg r1)]);
     (OP_STORE, args (zmatch f3 [(SB, "sb"); (SH, "sh"); (SW, "sw"); (SD, "sd")] "s??") [xreg r2; mem_arg imm_s (xreg r1)]);
     (OP_STORE_FP, args (if f3 =? SW then "fsw" else "fsd") [freg r2; mem_arg imm_s (xreg r1)]);
     (OP_BRANCH, args (zmatch f3 [(BEQ, "beq"); (BNE, "bne"); (BLT, "blt"); (BGE, "bge"); (BLTU, "bltu"); (BGEU, "bgeu")] "b??")
                   [xreg r1; xreg r2; dec (disasm_imm_b inst)]);
     (OP_LUI, args "lui" [xreg d; hex_prefixed (disasm_imm_u inst)]);
     (OP_AUIPC, args "auipc" [xreg d; hex_prefixed (disasm_imm_u inst)]);
     (OP_JAL, args "jal" [xreg d; dec (disasm_imm_j inst)]);
     (OP_JALR, args "jalr" [xreg d; mem_arg imm_i (xreg r1)]);
     (OP_FP, disasm_op_fp d r1 r2 f3 f7);
     (OP_FMADD, fma "fmadd"); (OP_FMSUB, fma "fmsub"); (OP_FNMSUB, fma "fnmsub"); (OP_FNMADD, fma "fnmadd");
     (OP_AMO, disasm_amo d r1 r2 f3 f7);
     (OP_MISC_MEM, if f3 =? FENCE_I then "fence.i" else "fence");
     (OP_SYSTEM, disasm_system inst d r1 f3)]
    ("unknown (" +:+ hex_padded 10 inst +:+ ")").

(** [disassemble]: a compressed instruction is expanded and disassembled again;
    [None] when [fuel] ends first. *)
Fixpoint disassemble (fuel : nat) (inst : Z) : option string :=
  match fuel with
  | O => None
  | S fuel =>
      if negb (Z.land inst 0x3 =? 0x3) then
        let expanded := expand (u16 inst) in
        if expanded =? 0 then Some ("unknown (" +:+ hex_padded 10 inst +:+ ")") else disassemble fuel expanded
      else Some (disasm_word inst)
  end.

Example disassemble_examples :
  disassemble 2 <$> [0x00A00513; 0x02e787b3; 0x4601; 0xfe1ff0ef; 0x30001073; 0xffffffff]
  = [Some "addi a0, zero, 10"; Some "mul a5, a5, a4"; Some "addi a2, zero, 0"; Some "jal ra, -32"; Some "csrrw zero, 0x300, zero";
     Some "unknown (0xffffffff)"].
Proof. reflexivity. Qed.

(** * Assembly syntax *)

Definition op_name (op : AluOp) : string :=
  match op with
  | Add => "add" | Sub => "sub" | Sll => "sll" | Slt => "slt" | Sltu => "sltu" | Xor => "xor" | Srl => "srl" | Sra => "sra"
  | Or => "or" | And => "and" | Mul => "mul" | Mulh => "mulh" | Mulhsu => "mulhsu" | Mulhu => "mulhu" | Div => "div"
  | Divu => "divu" | Rem => "rem" | Remu => "remu"
  | FAdd => "fadd" | FSub => "fsub" | FMul => "fmul" | FDiv => "fdiv" | FSgnJ => "fsgnj" | FSgnJN => "fsgnjn"
  | FSgnJX => "fsgnjx" | FMin => "fmin" | FMax => "fmax" | FEq => "feq" | FLt => "flt" | FLe => "fle"
  | FMAdd => "fmadd" | FMSub => "fmsub" | FNMSub => "fnmsub" | FNMAdd => "fnmadd"
  | FCvtWS | FCvtSW => "w" | FCvtWUS | FCvtSWU => "wu" | FCvtLS | FCvtSL => "l" | FCvtLUS | FCvtSLU => "lu"
  | _ => ""
  end.
Definition imm_name (op : AluOp) : string :=
  match op with Sltu => "sltiu" | op => op_name op +:+ "i" end.
Definition word_suffix (word : bool) : string := if word then "w" else "".
Definition branch_name (c : bcond) : string :=
  match c with Beq => "beq" | Bne => "bne" | Blt => "blt" | Bge => "bge" | Bltu => "bltu" | Bgeu => "bgeu" end.
Definition width_name (w : MemWidth) : string :=
  match w with WByte => "b" | WHalf => "h" | WWord => "w" | WDouble => "d" | WNop => "" end.
Definition amo_name (op : AtomicOp) : string :=
  match op with
  | AtomicLr => "lr" | AtomicSc => "sc" | AtomicSwap => "amoswap" | AtomicAdd => "amoadd" | AtomicXor => "amoxor"
  | AtomicAnd => "amoand" | AtomicOr => "amoor" | AtomicMin => "amomin" | AtomicMax => "amomax" | AtomicMinu => "amominu"
  | AtomicMaxu => "amomaxu" | AtomicNone => ""
  end.
Definition ordering_name (aqrl : Z) : string :=
  if aqrl =? 3 then ".aqrl" else if aqrl =? 2 then ".aq" else if aqrl =? 1 then ".rl" else "".
Definition fmt_name (fmt : fp_fmt) : string := match fmt with FmtS => "s" | FmtD => "d" end.
Definition move_name (fmt : fp_fmt) : string := match fmt with FmtS => "w" | FmtD => "d" end.
Definition csr_name (op : CsrOp) : string :=
  match op with
  | Rw => "csrrw" | Rs => "csrrs" | Rc => "csrrc" | Rwi => "csrrwi" | Rsi => "csrrsi" | Rci => "csrrci" | CsrNone => ""
  end.
Definition csr_source (op : CsrOp) (r1 : Z) : string :=
  match op with Rwi | Rsi | Rci => dec r1 | _ => xreg r1 end.

(** The text of an instruction; the sets of a FENCE and rounding modes are not
    shown. *)
Definition show (i : instr) : string :=
  match i with
  | I_Lui d imm => args "lui" [xreg d; hex_prefixed (wrap 20 (Z.shiftr imm 12))]
  | I_Auipc d imm => args "auipc" [xreg d; hex_prefixed (wrap 20 (Z.shiftr imm 12))]
  | I_Jal d imm => args "jal" [xreg d; dec imm]
  | I_Jalr d r1 imm => args "jalr" [xreg d; mem_arg imm (xreg r1)]
  | I_Branch c r1 r2 imm => args (branch_name c) [xreg r1; xreg r2; dec imm]
  | I_Load w signed d r1 imm =>
      args ("l" +:+ width_name w +:+ (if signed then "" else "u")) [xreg d; mem_arg imm (xreg r1)]
  | I_Store w r2 r1 imm => args ("s" +:+ width_name w) [xreg r2; mem_arg imm (xreg r1)]
  | I_OpImm op word d r1 imm => args (imm_name op +:+ word_suffix word) [xreg d; xreg r1; dec imm]
  | I_ShiftImm op word d r1 shamt => args (imm_name op +:+ word_suffix word) [xreg d; xreg r1; dec shamt]
  | I_Op op word d r1 r2 => args (op_name op +:+ word_suffix word) [xreg d; xreg r1; xreg r2]
  | I_Amo op w aqrl d r1 r2 =>
      args (amo_name op +:+ "." +:+ width_name w +:+ ordering_name aqrl)
        (match op with AtomicLr => [xreg d] | _ => [xreg d; xreg r2] end ++ ["(" +:+ xreg r1 +:+ ")"])%list
  | I_LoadFp w d r1 imm => args ("fl" +:+ width_name w) [freg d; mem_arg imm (xreg r1)]
  | I_StoreFp w r2 r1 imm => args ("fs" +:+ width_name w) [freg r2; mem_arg imm (xreg r1)]
  | I_Fp op fmt _ d r1 r2 =>
      match op with
      | FBin o => args (op_name o +:+ "." +:+ fmt_name fmt) [freg d; freg r1; freg r2]
      | FUn => args ("fsqrt." +:+ fmt_name fmt) [freg d; freg r1]
      | FCompare o => args (op_name o +:+ "." +:+ fmt_name fmt) [xreg d; freg r1; freg r2]
      | FToInt o => args ("fcvt." +:+ op_name o +:+ "." +:+ fmt_name fmt) [xreg d; freg r1]
      | FFromInt o => args ("fcvt." +:+ fmt_name fmt +:+ "." +:+ op_name o) [freg d; xreg r1]
      | FMoveToInt => args ("fmv.x." +:+ move_name fmt) [xreg d; freg r1]
      | FMoveFromInt => args ("fmv." +:+ move_name fmt +:+ ".x") [freg d; xreg r1]
      | FClassify => args ("fclass." +:+ fmt_name fmt) [xreg d; freg r1]
      | FConvert => args (match fmt with FmtS => "fcvt.s.d" | FmtD => "fcvt.d.s" end) [freg d; freg r1]
      end
  | I_Fma op fmt _ d r1 r2 r3 => args (op_name op +:+ "." +:+ fmt_name fmt) [freg d; freg r1; freg r2; freg r3]
  | I_Csr op d r1 addr => args (csr_name op) [xreg d; hex_padded 5 addr; csr_source op r1]
  | I_Ecall => "ecall"
  | I_Mret => "mret"
  | I_Sret => "sret"
  | I_Wfi => "wfi"
  | I_SfenceVma r1 r2 => args "sfence.vma" [xreg r1; xreg r2]
  | I_Fence _ _ _ => "fence"
  | I_FenceI _ _ _ => "fence.i"
  end.

(** * Disassembling an encoded instruction *)

Ltac disasm_eq :=
  intros; unfold disasm_imm_i, disasm_imm_s, disasm_imm_b, disasm_imm_u, disasm_imm_j, shift_extend; word_eq.
(** The fields a format fixes, as rewriting equations. *)
Ltac disasm_fields w :=
  let eqn e := (let E := fresh "E" in assert (E : e) by (subst; disasm_eq)) in
  word_fields w; eqn (Z.land w 3 = 3).
Ltac run_disasm :=
  cbn [disassemble]; match goal with E : Z.land ?w 3 = 3 |- context [Z.land ?w 3] => rewrite E end;
  change (negb (3 =? 3)) with false; cbv iota;
  unfold disasm_word; cbv zeta; match goal with E : opcode ?w = _ |- context [opcode ?w] => rewrite E end; run_match;
  use_fields; unfold disasm_op_reg, disasm_op_imm, disasm_op_fp, disasm_amo, fp_precision;
  cbv [BEQ BNE BLT BGE BLTU BGEU SB SH SW SD]; run_match.

Section Shows.
Context (d r1 r2 r3 imm : Z).
Context (Hd : ufield 0 5 d) (Hr1 : ufield 0 5 r1) (Hr2 : ufield 0 5 r2) (Hr3 : ufield 0 5 r3).
Local Abbreviation shows i w := (disassemble 1 w = Some (show i)).

(** One encoding; [x] is what is printed of the immediate extracted by [f]. *)
Ltac shows_case :=
  intros; repeat match goal with E : encode _ = Some _ |- _ => cbn in E; injection E as <- end;
  lazymatch goal with |- disassemble _ ?w = _ => disasm_fields w end; run_disasm.
Ltac shows_imm f x :=
  shows_case; lazymatch goal with |- context [f ?w] => replace (f w) with x by (symmetry; disasm_eq) end; reflexivity.

Lemma lui_shows : sfield 12 32 imm -> shows (I_Lui d imm) (u_type imm d 0x37).
Proof. shows_imm disasm_imm_u (wrap 20 (Z.shiftr imm 12)). Qed.
Lemma auipc_shows : sfield 12 32 imm -> shows (I_Auipc d imm) (u_type imm d 0x17).
Proof. shows_imm disasm_imm_u (wrap 20 (Z.shiftr imm 12)). Qed.
Lemma jal_shows : sfield 1 21 imm -> shows (I_Jal d imm) (j_type imm d 0x6f).
Proof. shows_imm disasm_imm_j imm. Qed.
Lemma jalr_shows : sfield 0 12 imm -> shows (I_Jalr d r1 imm) (i_type imm r1 0 d 0x67).
Proof. shows_imm disasm_imm_i imm. Qed.
Lemma branch_shows (c : bcond) : sfield 1 13 imm -> shows (I_Branch c r1 r2 imm) (b_type imm r2 r1 (bcond_funct3 c) 0x63).
Proof. destruct c; cbn [bcond_funct3]; shows_imm disasm_imm_b imm. Qed.
Lemma load_shows w s x : sfield 0 12 imm -> encode (I_Load w s d r1 imm) = Some x -> shows (I_Load w s d r1 imm) x.
Proof. destruct w, s; try discriminate; shows_imm disasm_imm_i imm. Qed.
Lemma store_shows w x : sfield 0 12 imm -> encode (I_Store w r2 r1 imm) = Some x -> shows (I_Store w r2 r1 imm) x.
Proof. destruct w; try discriminate; shows_imm disasm_imm_s imm. Qed.
Lemma op_imm_shows op word x :
  sfield 0 12 imm -> encode (I_OpImm op word d r1 imm) = Some x -> shows (I_OpImm op word d r1 imm) x.
Proof. destruct op, word; try discriminate; shows_imm disasm_imm_i imm. Qed.
Lemma op_shows op word x : encode (I_Op op word d r1 r2) = Some x -> shows (I_Op op word d r1 r2) x.
Proof. destruct op, word; try discriminate; shows_case; reflexivity. Qed.
Lemma load_fp_shows w x : sfield 0 12 imm -> encode (I_LoadFp w d r1 imm) = Some x -> shows (I_LoadFp w d r1 imm) x.
Proof. destruct w; try discriminate; shows_imm disasm_imm_i imm. Qed.
Lemma store_fp_shows w x : sfield 0 12 imm -> encode (I_StoreFp w r2 r1 imm) = Some x -> shows (I_StoreFp w r2 r1 imm) x.
Proof. destruct w; try discriminate; shows_imm disasm_imm_s imm. Qed.
Lemma fence_shows : ufield 0 12 imm -> shows (I_Fence imm d r1) (i_type imm r1 0 d 0x0f).
Proof. shows_case; reflexivity. Qed.
Lemma fence_i_shows : sfield 0 12 imm -> shows (I_FenceI imm d r1) (i_type imm r1 1 d 0x0f).
Proof. shows_case; reflexivity. Qed.
Lemma fp_shows op fmt rm x : ufield 0 3 rm -> encode (I_Fp op fmt rm d r1 r2) = Some x -> shows (I_Fp op fmt rm d r1 r2) x.
Proof. intros Hrm. destruct op as [op| |op|op|op| | | |], fmt; try destruct op; try discriminate; shows_case; reflexivity. Qed.

Lemma shift_imm_shows op (word : bool) x :
  ufield 0 (if word then 5 else 6) imm -> encode (I_ShiftImm op word d r1 imm) = Some x -> shows (I_ShiftImm op word d r1 imm) x.
Proof.
  intros Hs. assert (Hs6 : ufield 0 6 imm) by (destruct word; [destruct Hs; split; [lia|done]|done]).
  destruct op, word; try discriminate; shows_case;
    repeat match goal with
    | |- context [Z.land (disasm_imm_i ?y) 63] =>
        let E := fresh in assert (E : Z.land (disasm_imm_i y) 63 = imm) by disasm_eq; rewrite E; clear E
    | |- context [Z.land (Z.shiftr (disasm_imm_i ?y) 10) 1] =>
        let E := fresh in
        first [ assert (E : Z.land (Z.shiftr (disasm_imm_i y) 10) 1 = 0) by disasm_eq
              | assert (E : Z.land (Z.shiftr (disasm_imm_i y) 10) 1 = 1) by disasm_eq ]; rewrite E; clear E
    end; reflexivity.
Qed.
Lemma amo_shows op w aqrl x : ufield 0 2 aqrl -> encode (I_Amo op w aqrl d r1 r2) = Some x -> shows (I_Amo op w aqrl d r1 r2) x.
Proof.
  intros Hq. assert (H5 : forall f5, ufield 0 5 f5 -> Z.shiftr (Z.lor (Z.shiftl f5 2) aqrl) 2 = f5) by (intros; bitfield).
  assert (Hcases : aqrl = 0 \/ aqrl = 1 \/ aqrl = 2 \/ aqrl = 3).
  { destruct Hq as [[? ?] _]. change (2 ^ Z.of_nat 2) with 4 in *. lia. }
  destruct op, w; try discriminate; shows_case; rewrite H5 by (by split); run_match;
    destruct Hcases as [->|[->|[->| ->]]]; reflexivity.
Qed.
Lemma fma_shows op fmt rm x : ufield 0 3 rm -> encode (I_Fma op fmt rm d r1 r2 r3) = Some x -> shows (I_Fma op fmt rm d r1 r2 r3) x.
Proof.
  intros Hrm. assert (Hf : forall f, ufield 0 1 f -> Z.land (Z.lor (Z.shiftl r3 2) f) 3 = f) by (intros; bitfield).
  destruct op, fmt; try discriminate; shows_case; rewrite Hf by (by split);
    lazymatch goal with |- context [rs3 ?w] => let E := fresh in assert (E : rs3 w = r3) by disasm_eq; rewrite E end; reflexivity.
Qed.
(** A word with a nonzero [funct3] is none of the fixed system words. *)
Lemma csr_shows op x : ufield 0 12 imm -> encode (I_Csr op d r1 imm) = Some x -> shows (I_Csr op d r1 imm) x.
Proof.
  intros Hi. assert (Hc : forall f3, ufield 0 3 f3 -> csr (i_type imm r1 f3 d 0x73) = imm) by word_eq.
  assert (Hm : forall f3, ufield 0 3 f3 -> funct3 (Z.land (i_type imm r1 f3 d 0x73) 0xFE007FFF) = f3) by word_eq.
  destruct op; try discriminate; shows_case; unfold disasm_system;
    match goal with E : funct3 ?w = ?f3 |- _ =>
      assert (Hn : forall k, funct3 k = 0 -> (w =? k) = false) by (intros k Hk; apply Z.eqb_neq; intros <-; congruence);
      assert (Hs : (Z.land w 0xFE007FFF =? SFENCE_VMA) = false)
        by (apply Z.eqb_neq; intros Es; specialize (Hm f3 ltac:(by split)); rewrite Es in Hm; discriminate);
      unfold zmatch; rewrite !Hn by reflexivity; rewrite Hs, (Hc f3) by (by split)
    end; reflexivity.
Qed.
Lemma sfence_shows : shows (I_SfenceVma r1 r2) (r_type 9 r2 r1 0 0 0x73).
Proof.
  assert (Em : Z.land (r_type 9 r2 r1 0 0 0x73) 0xFE007FFF = SFENCE_VMA) by (unfold SFENCE_VMA; word_eq).
  shows_case. unfold disasm_system.
  match goal with E : funct7 ?w = 9, E' : rs2 ?w = _ |- _ =>
    assert (Hn : forall k, funct7 k <> 9 -> (w =? k) = false) by (intros k Hk; apply Z.eqb_neq; intros <-; congruence);
    unfold zmatch; rewrite !Hn by discriminate; rewrite Em, E'
  end; reflexivity.
Qed.
End Shows.

Lemma encode_shows (i : instr) (w : Z) : instr_ok i -> encode i = Some w -> disassemble 1 w = Some (show i).
Proof.
  intros Hok He.
  destruct i; simpl in Hok; destruct_and?;
    first [ by eapply load_shows; eauto | by eapply store_shows; eauto | by eapply op_imm_shows; eauto
          | by eapply shift_imm_shows; eauto | by eapply op_shows; eauto | by eapply amo_shows; eauto
          | by eapply load_fp_shows; eauto | by eapply store_fp_shows; eauto | by eapply fp_shows; eauto
          | by eapply fma_shows; eauto | by eapply csr_shows; eauto | idtac ];
    injection He as <-;
    auto using lui_shows, auipc_shows, jal_shows, jalr_shows, branch_shows, sfence_shows, fence_shows, fence_i_shows.
Qed.

(** * Compressed instructions *)

Lemma low_bits_shl32 (x k : Z) : 2 <= k -> Z.land (shl32 x k) 3 = 0.
Proof.
  intros Hk. unfold shl32, wrap. change 3 with (Z.ones 2).
  rewrite Z.land_ones, Z.mod_mod_divide, Z.shiftl_mul_pow2 by (lia || by exists (2 ^ 30)).
  replace k with (k - 2 + 2) by lia. by rewrite Z.pow_add_r, Z.mul_assoc, Z.mod_mul by lia.
Qed.
(** An expansion has full size, or is the word zero. *)
Lemma expand_full (c : Z) : expand c = 0 \/ Z.land (expand c) 3 = 3.
Proof.
  unfold expand, expand_q0, expand_q1, expand_q2, expand_lui_addi16sp, expand_misc_alu, expand_q2_misc_alu, expand_j, expand_branch,
    load_word, store_word, reg_word, zmatch; cbv zeta.
  repeat case_match; auto; right; rewrite ?Z.land_lor_distr_l, ?low_bits_shl32 by lia; reflexivity.
Qed.

Lemma disassemble_full (inst : Z) : Z.land inst 3 = 3 -> forall n, disassemble (S n) inst = Some (disasm_word inst).
Proof. intros E n. cbn [disassemble]. by rewrite E. Qed.
Lemma disassemble_short (inst : Z) :
  Z.land inst 3 <> 3 -> expand (u16 inst) <> 0 -> disassemble 2 inst = disassemble 1 (expand (u16 inst)).
Proof.
  intros Hl He. cbn [disassemble]. apply Z.eqb_neq in Hl as ->. by apply Z.eqb_neq in He as ->.
Qed.
(** The word of C.EBREAK in the manual. *)
Definition C_EBREAK : Z := 0x9002.

