(* ===== verification/Loader.v ===== *)
(** Loading programs ([sim/loader.rs], and the constructor of the Python [Cpu]
    in [bindings/src/cpu.rs]): files, ELF images, the kernel boot set-up, and
    the simulator built from them. *)
From stdpp Require Import strings.
From S2P Require Import Prelude Common Csr Isa Cpu StoreBufferSpec WriteBuffer Soc Interconnect BusSpec Commit Core VirtioDisk BranchUnits Config System SystemProps DeviceTree.
Set Primitive Projections.
Local Open Scope Z_scope.

(** * Files *)

(** The host's file system: [fs::metadata(path).is_ok()] and [fs::read(path)]. *)
Record FileSystem := { fs_exists : string -> bool; fs_read : string -> option (list Z) }.
Inductive LoadError := FileRead (path : string).
Definition load_binary (fs : FileSystem) (path : string) : LoadError + list Z :=
  match fs_read fs path with Some data => inr data | None => inl (FileRead path) end.

(** * Kernel boot *)

Local Abbreviation core := (Core SocDevice DynController BranchPredictorWrapper).

Definition load_at (data : list Z) (addr : Z) (c : core) : core := set_bus (load_binary_at (bus (machine c)) data addr) c.
Definition REG_A2 : Z := 12.
Definition write_reg (r val : Z) (c : core) : core := upd_hart (fun h => h <| regs := regs_write (regs h) r val |>) c.
Definition start_at (addr : Z) (c : core) : core := upd_hart (fun h => h <| pc := addr |> <| privilege := Common.Machine |>) c.

Definition SBI_JUMP_PATH : string := "software/linux/output/fw_jump.bin".
Definition SBI_DYNAMIC_PATH : string := "software/linux/output/fw_dynamic.bin".
Definition DEFAULT_KERNEL_PATH : string := "software/linux/output/Image".
Definition opensbi_addr (config : Config) : Z := cfg_ram_base (system config).
Definition kernel_addr (config : Config) : Z := add64 (cfg_ram_base (system config)) 0x200000.
Definition dtb_addr (config : Config) : Z := add64 (cfg_ram_base (system config)) 0x2200000.

Definition FW_DYNAMIC_INFO_MAGIC : Z := 0x4942534f.
Definition FW_DYNAMIC_INFO_VERSION : Z := 2.
Definition NEXT_MODE_S : Z := 1.
Definition info_fields (config : Config) : list Z :=
  [FW_DYNAMIC_INFO_MAGIC; FW_DYNAMIC_INFO_VERSION; kernel_addr config; NEXT_MODE_S; 0; U64_MAX; dtb_addr config].
Definition info_bytes (config : Config) : list Z := info_fields config ≫= le_bytes 8.

(** The firmware to load. *)
Definition sbi_path (fs : FileSystem) : string := if fs_exists fs SBI_JUMP_PATH then SBI_JUMP_PATH else SBI_DYNAMIC_PATH.

(** With firmware: the firmware, the kernel when its file is there, and the
    registers firmware expects. *)
Definition load_kernel (fs : FileSystem) (config : Config) (kernel_path_override : option string) (c : core) : core * option LoadError :=
  let kernel_path := default DEFAULT_KERNEL_PATH kernel_path_override in
  if fs_exists fs kernel_path then
    match load_binary fs kernel_path with
    | inl e => (c, Some e)
    | inr kernel_data => (load_at kernel_data (kernel_addr config) c, None)
    end
  else (c, None).
Definition enter_firmware (fs : FileSystem) (config : Config) (c : core) : core :=
  let c := start_at (opensbi_addr config) c in
  let c := write_reg REG_A0 0 c in
  let c := write_reg REG_A1 (dtb_addr config) c in
  if bool_decide (sbi_path fs = SBI_DYNAMIC_PATH) then
    let info_addr := sub64 (dtb_addr config) 0x200 in
    write_reg REG_A2 info_addr (load_at (info_bytes config) info_addr c)
  else write_reg REG_A2 0 c.
(** Without firmware: an MRET at the start of RAM. *)
Definition enter_trampoline (config : Config) (c : core) : core :=
  let load_addr := add64 (cfg_ram_base (system config)) (cfg_kernel_offset (system config)) in
  let c := load_at (le_bytes 4 MRET) (cfg_ram_base (system config)) c in
  let c := start_at (cfg_ram_base (system config)) c in
  let c := upd_hart (fun h => csr_write h CSR_MEPC load_addr) c in
  let c := write_reg REG_A0 0 c in
  write_reg REG_A1 (dtb_addr config) c.

(** [setup_kernel_load]: the state, and the error that ended it. *)
Definition setup_kernel_load (fs : FileSystem) (config : Config) (dtb_path kernel_path_override : option string) (c : core)
    : core * option LoadError :=
  match (match dtb_path with Some path => load_binary fs path | None => inr (generate_dtb config) end) with
  | inl e => (c, Some e)
  | inr dtb_data =>
      let c := load_at dtb_data (dtb_addr config) c in
      if fs_exists fs (sbi_path fs) then
        match load_binary fs (sbi_path fs) with
        | inl e => (c, Some e)
        | inr sbi_data =>
            let c := load_at sbi_data (opensbi_addr config) c in
            match load_kernel fs config kernel_path_override c with
            | (c, Some e) => (c, Some e)
            | (c, None) => (enter_firmware fs config c, None)
            end
        end
      else (enter_trampoline config c, None)
  end.

(** * ELF images *)

(** What the parser of the [object] crate yields of a file: the entry point,
    the loadable segments with their size in memory and their bytes, unless they
    cannot be read, and the named symbols. *)
Record Segment := { seg_size : Z; seg_address : Z; seg_data : option (list Z) }.
Record ElfFile := { elf_entry : Z; elf_segments : list Segment; elf_symbols : list (string * Z) }.

Record ElfLoadResult := { entry : Z; tohost_addr : option Z }.
Definition zeros (n : Z) : list Z := replicate (Z.to_nat n) 0.
Definition load_segment (bus : Interconnect SocDevice) (segment : Segment) : Interconnect SocDevice :=
  let p_memsz := seg_size segment in
  let paddr := seg_address segment in
  if p_memsz =? 0 then bus
  else match seg_data segment with
       | Some data =>
           let bus := if (length data =? 0)%nat then bus else load_binary_at bus data paddr in
           let p_filesz := Z.of_nat (length data) in
           if p_filesz <? p_memsz then load_binary_at bus (zeros (p_memsz - p_filesz)) (add64 paddr p_filesz) else bus
       | None => if 0 <? p_memsz then load_binary_at bus (zeros p_memsz) paddr else bus
       end.
Definition ELF_MAGIC : list Z := [0x7f; 69; 76; 70].
Definition try_load_elf (parse : list Z -> option ElfFile) (data : list Z) (bus : Interconnect SocDevice)
    : option (ElfLoadResult * Interconnect SocDevice) :=
  if (length data <? 4)%nat || negb (bool_decide (take 4 data = ELF_MAGIC)) then None
  else
    file ← parse data;
    let bus := foldl load_segment bus (elf_segments file) in
    let tohost := snd <$> (snd <$> list_find (fun s => s.1 = "tohost") (elf_symbols file)) in
    Some ({| entry := elf_entry file; tohost_addr := tohost |}, bus).

(** * The constructor of the Python class *)

Inductive BuildError := NotElf | LoadFailed (e : LoadError) | BadPredictor.
Definition boot_elf (r : ElfLoadResult) (c : core) : core :=
  let c := upd_hart (fun h => h <| pc := entry r |>) c in
  match tohost_addr r with
  | Some tohost =>
      let c := upd_hart (fun h => h <| direct_mode := false |> <| privilege := Common.Machine |>) c in
      upd_machine (fun m => m <| htif_range := Some (tohost, add64 tohost 16) |>) c
  | None => c
  end.
Definition boot_kernel (fs : FileSystem) (config : Config) (dtb_path kernel_path : option string) (s : Simulator) : BuildError + Simulator :=
  match kernel_path with
  | Some kpath =>
      match setup_kernel_load fs config dtb_path (Some kpath) (sim_core s) with
      | (c, Some e) => inl (LoadFailed e)
      | (c, None) => inr (sim_on_core (fun _ => upd_hart (fun h => h <| direct_mode := false |>) c) s)
      end
  | None => inr s
  end.
Definition load_elf_data (parse : list Z -> option ElfFile) (elf_data : option (list Z)) (sys : System)
    : BuildError + (option ElfLoadResult * System) :=
  match elf_data with
  | None => inr (None, sys)
  | Some data =>
      match try_load_elf parse data (sys_bus sys) with
      | None => inl NotElf
      | Some (r, b) =>
          let sys := sys <| sys_bus := b |> in
          inr (Some r, match tohost_addr r with Some tohost => add_htif sys tohost | None => sys end)
      end
  end.
(** [Cpu::new] of the bindings; [disk_data] is the content of the disk image. *)
Definition py_cpu_new (fs : FileSystem) (parse : list Z -> option ElfFile) (config : Config) (elf_data : option (list Z))
    (kernel_path dtb_path : option string) (disk_data : option (list Z)) : BuildError + Simulator :=
  match load_elf_data parse elf_data (system_new config disk_data) with
  | inl e => inl e
  | inr (loaded, sys) =>
      match simulator_new sys config with
      | None => inl BadPredictor
      | Some s =>
          let s := match loaded with Some r => sim_on_core (boot_elf r) s | None => s end in
          match boot_kernel fs config dtb_path kernel_path s with
          | inl e => inl e
          | inr s => inr (sim_sync_arch_regs s)
          end
      end
  end.

(** * Loading into RAM *)

Definition ram_byte (b : Interconnect SocDevice) (i : Z) : Z := db_byte (sh_dram (shared b)) i.
(** [n] bytes of RAM at an address. *)
Definition ram_bytes (config : Config) (b : Interconnect SocDevice) (addr : Z) (n : nat) : list Z :=
  (fun k => ram_byte b (addr - cfg_ram_base (system config) + Z.of_nat k)) <$> seq 0 n.

Lemma imap_snoc {A B} (f : nat -> A -> B) (l : list A) (x : A) : imap f (l ++ [x]) = imap f l ++ [f (length l) x].
Proof. rewrite imap_app. cbn. by rewrite Nat.add_0_r. Qed.
Lemma memory_write_list base offset data (sh : Shared) :
  Forall is_byte data -> 0 <= offset -> offset + Z.of_nat (length data) <= db_size (sh_dram sh) -> offset + Z.of_nat (length data) < 2 ^ 64 ->
  let r := write_list (fun o b sh d => dev_write d U8 o b sh) offset data (DMemory base : Device SocDevice, sh) in
  r.1 = DMemory base /\ db_size (sh_dram r.2) = db_size (sh_dram sh) /\
  forall i, db_byte (sh_dram r.2) i =
    if (offset <=? i) && (i <? offset + Z.of_nat (length data)) then data !!! Z.to_nat (i - offset) else db_byte (sh_dram sh) i.
Proof.
  intros Hb Ho Hs Hw. unfold write_list. induction data as [|x data IH] using rev_ind.
  - cbn. split_and!; [done..|]. intros i. case_bool; [|done]. to_prop. lia.
  - rewrite length_app in *. cbn [length] in *. apply Forall_app in Hb as [Hb Hx]. rewrite Forall_singleton in Hx.
    rewrite imap_snoc, foldl_app. cbn [foldl]. destruct (foldl _ _ (imap pair data)) as [d sh'] eqn:E.
    destruct (IH Hb ltac:(lia) ltac:(lia)) as (H1 & H2 & H3). cbn [fst snd] in *. subst d. cbn [dev_write].
    unfold dram_write. cbn [size_bytes]. unfold add64. rewrite wrap_small by (unfold in_width; lia).
    rewrite (proj2 (Z.leb_le _ _)) by (rewrite H2; lia). cbn [fst snd]. split_and!; [done|exact H2|].
    intros i. change (sh_dram (sh' <| sh_dram := ?v |>)) with v. rewrite db_byte_poke. unfold store_mem.
    destruct (decide (i = offset + Z.of_nat (length data))) as [->|Hne].
    + rewrite (proj2 (Z.leb_le _ _)), !(proj2 (Z.ltb_lt _ _)), (proj2 (Z.leb_le _ _)) by lia. cbn [andb].
      rewrite Z.sub_diag, Z.shiftr_0_r, Z.mod_small by exact Hx.
      rewrite lookup_total_app_r by lia. by replace (Z.to_nat _ - length data)%nat with 0%nat by lia.
    + rewrite H3. destruct (Z.leb_spec offset i), (Z.ltb_spec i (offset + Z.of_nat (length data))),
        (Z.ltb_spec i (offset + Z.of_nat (length data + 1))), (Z.leb_spec (offset + Z.of_nat (length data)) i),
        (Z.ltb_spec i (offset + Z.of_nat (length data) + Z.of_nat 1)); cbn [andb]; try lia; try done.
      by rewrite lookup_total_app_l by lia.
Qed.

Section Ram.
Context (config : Config) (disk_data : option (list Z)).
Context (Hok : map_ok config) (Hhtif : htif_map config = []).
Local Abbreviation base := (cfg_ram_base (system config)).
Local Abbreviation size := (cfg_ram_size (memory config)).

(** The bus is that of the system, after some operations. *)
Definition system_bus (b : Interconnect SocDevice) : Prop :=
  exists ops, b = foldl bus_exec (sys_bus (system_new config disk_data)) ops.
Lemma load_system_bus b data addr : system_bus b -> system_bus (load_binary_at b data addr).
Proof. intros [ops ->]. exists (ops ++ [BLoad data addr]). by rewrite foldl_app. Qed.
Lemma ram_width : 0 <= base /\ 0 <= size /\ base + size < 2 ^ 64.
Proof using Hok. destruct Hok as [_ Hf]. apply Forall_app in Hf as [Hf _]. by apply Forall_cons in Hf as [H _]. Qed.

(** Data that fits the RAM is there after the load, and nothing else changes. *)
Lemma load_binary_ram b data addr :
  system_bus b -> Forall is_byte data -> base <= addr < base + size -> addr + Z.of_nat (length data) <= base + size ->
  forall i, ram_byte (load_binary_at b data addr) i =
    if (addr - base <=? i) && (i <? addr - base + Z.of_nat (length data)) then data !!! Z.to_nat (i - (addr - base)) else ram_byte b i.
Proof using Hok Hhtif.
  intros [ops ->] Hb Ha Hfit i. destruct ram_width as (Hb0 & Hs0 & Hend). set (b := foldl _ _ ops).
  destruct (reaches_covered config disk_data ops Hok ("DRAM"%string, (base, size)) addr) as (k & d & Hk & Hd & Hname & Hrange).
  { left. } { unfold covers. cbn [fst snd]. lia. } { rewrite Hhtif. by intros t Ht%not_elem_of_nil. }
  destruct (find_device_routes b addr (system_bus_wf config disk_data ops Hok)) as [[l Hl] _]. fold b in Hk, Hd, Hrange.
  unfold load_binary_at. destruct (find_device b addr) as [[j|] b1] eqn:Ef; [|done]. cbn [fst snd] in *. injection Hk as ->. subst b1.
  change (devices (b <| last_device_idx := l |>)) with (devices b). change (shared (b <| last_device_idx := l |>)) with (shared b).
  rewrite Hd. unfold offset_in. rewrite Hrange. cbn [fst snd].
  assert (d = DMemory base) as ->.
  { destruct d as [base0| | | | | |[]]; try done. cbn in Hrange. by injection Hrange as -> _. }
  assert (Hsize : db_size (sh_dram (shared b)) = size) by (by injection Hrange).
  assert (add64 (addr - base) (Z.of_nat (length data)) = addr - base + Z.of_nat (length data)) as -> by (apply wrap_small; unfold in_width; lia).
  rewrite (proj2 (Z.leb_le _ _)) by lia. unfold dev_write_bytes. rewrite Hsize, (proj2 (Z.leb_le _ _)) by lia.
  pose proof (memory_write_list base (addr - base) data (shared b) Hb ltac:(lia) ltac:(lia) ltac:(lia)) as Hw. cbv zeta in Hw.
  destruct (write_list _ _ _ _) as [d' sh']. cbn [fst snd] in Hw. destruct Hw as (_ & _ & Hw). exact (Hw i).
Qed.
Lemma ram_bytes_loaded b data addr :
  system_bus b -> Forall is_byte data -> base <= addr < base + size -> addr + Z.of_nat (length data) <= base + size ->
  ram_bytes config (load_binary_at b data addr) addr (length data) = data.
Proof using Hok Hhtif.
  intros Hs Hb Ha Hfit. apply list_eq_same_length with (length data); [done|by unfold ram_bytes; rewrite length_fmap, length_seq|].
  intros k x y Hk Hx Hy. unfold ram_bytes in Hx. rewrite list_lookup_fmap, lookup_seq_lt in Hx by done. injection Hx as <-.
  rewrite load_binary_ram by done. rewrite (proj2 (Z.leb_le _ _)), (proj2 (Z.ltb_lt _ _)) by lia. cbn [andb].
  rewrite Z.add_simpl_l, Nat2Z.id. by apply list_lookup_total_correct.
Qed.
Lemma ram_bytes_kept b data addr addr' n :
  system_bus b -> Forall is_byte data -> base <= addr < base + size -> addr + Z.of_nat (length data) <= base + size ->
  addr' + Z.of_nat n <= addr \/ addr + Z.of_nat (length data) <= addr' ->
  ram_bytes config (load_binary_at b data addr) addr' n = ram_bytes config b addr' n.
Proof using Hok Hhtif.
  intros Hs Hb Ha Hfit Hd. unfold ram_bytes. apply list_fmap_ext. intros j k Hj. apply lookup_seq in Hj as [-> Hj].
  rewrite load_binary_ram by done. destruct (Z.leb_spec (addr - base) (addr' - base + Z.of_nat (0 + j))); [|done]. cbn [andb].
  by rewrite (proj2 (Z.ltb_ge _ _)) by lia.
Qed.
End Ram.

(** * What firmware and kernel find *)

(** The bytes at an address of the loaded machine. *)
Definition ram_holds (config : Config) (c : core) (addr : Z) (data : list Z) : Prop :=
  ram_bytes config (bus (machine c)) addr (length data) = data.
(** The entry state: machine mode at the start of RAM, the hart's number in
    [a0], and in [a1] where a reader of blobs finds the system's device tree. *)
Definition boots (config : Config) (c : core) : Prop :=
  let h := cpu (machine c) in
  pc h = cfg_ram_base (system config) /\ privilege h = Common.Machine /\ regs_read (regs h) REG_A0 = 0 /\
  regs_read (regs h) REG_A1 = cfg_ram_base (system config) + 0x2200000 /\
  fdt_read (ram_bytes config (bus (machine c)) (regs_read (regs h) REG_A1) (length (generate_dtb config))) = Some (soc_tree config).

Lemma regs_read_write r i j v :
  length (gpr r) = 32%nat -> 0 < i < 32 -> 0 < j < 32 -> regs_read (regs_write r i v) j = if i =? j then v else regs_read r j.
Proof.
  intros Hr Hi Hj. unfold regs_read, regs_write, reg_is_zero, reg_as_usize.
  rewrite (proj2 (Z.eqb_neq i 0)), (proj2 (Z.eqb_neq j 0)) by lia. cbn. destruct (Z.eqb_spec i j) as [<-|Hne].
  - rewrite list_lookup_total_insert_eq; [done|lia].
  - rewrite list_lookup_total_insert_ne; [done|lia].
Qed.
Lemma regs_write_length r i v : length (gpr (regs_write r i v)) = length (gpr r).
Proof. unfold regs_write. destruct (reg_is_zero i); [done|]. cbn. apply length_insert. Qed.
Lemma entry_regs r v :
  length (gpr r) = 32%nat ->
  let r' := regs_write (regs_write r REG_A0 0) REG_A1 v in
  regs_read r' REG_A0 = 0 /\ regs_read r' REG_A1 = v.
Proof.
  intros Hr r'. assert (H1 : length (gpr (regs_write r REG_A0 0)) = 32%nat) by (by rewrite regs_write_length).
  unfold r'. rewrite (regs_read_write _ REG_A1 REG_A0), (regs_read_write _ REG_A1 REG_A1) by (exact H1 || (split; reflexivity)).
  change (REG_A1 =? REG_A0) with false. change (REG_A1 =? REG_A1) with true. cbv iota.
  rewrite (regs_read_write r REG_A0 REG_A0) by (exact Hr || (split; reflexivity)). done.
Qed.
Lemma a2_regs r v :
  length (gpr r) = 32%nat ->
  let r' := regs_write r REG_A2 v in
  regs_read r' REG_A0 = regs_read r REG_A0 /\ regs_read r' REG_A1 = regs_read r REG_A1 /\ regs_read r' REG_A2 = v.
Proof.
  intros Hr r'. unfold r'.
  rewrite (regs_read_write r REG_A2 REG_A0), (regs_read_write r REG_A2 REG_A1), (regs_read_write r REG_A2 REG_A2)
    by (exact Hr || (split; reflexivity)). done.
Qed.
Lemma initial_regs_length config : length (gpr (initial_regs config)) = 32%nat.
Proof. unfold initial_regs. destruct (cfg_direct_mode _); [|done]. by rewrite regs_write_length. Qed.

Lemma write_mepc h v : csr_write h CSR_MEPC v = h <| csrs := (csrs h) <| mepc := Z.land v (not64 1) |> |>.
Proof. reflexivity. Qed.

Section Boot.
Context (fs : FileSystem) (config : Config) (disk_data : option (list Z)).
Context (Hok : map_ok config) (Hhtif : htif_map config = []) (Hram : 0x2202000 <= cfg_ram_size (memory config)).
Local Abbreviation base := (cfg_ram_base (system config)).

Lemma boot_addrs :
  kernel_addr config = base + 0x200000 /\ dtb_addr config = base + 0x2200000 /\ sub64 (dtb_addr config) 0x200 = base + 0x21FFE00.
Proof using Hok Hram.
  pose proof (ram_width config Hok). unfold sub64, kernel_addr, dtb_addr, add64.
  rewrite !(wrap_small 64 (base + _)) by (unfold in_width; lia). rewrite wrap_small by (unfold in_width; lia). lia.
Qed.

(** The state before the entry registers are set. *)
Record loaded (c : core) : Prop := {
  ld_bus : system_bus config disk_data (bus (machine c));
  ld_regs : length (gpr (regs (cpu (machine c)))) = 32%nat;
  ld_dtb : ram_holds config c (base + 0x2200000) (generate_dtb config)
}.
Lemma load_at_holds c data addr :
  system_bus config disk_data (bus (machine c)) -> Forall is_byte data -> base <= addr -> addr + Z.of_nat (length data) <= base + 0x2202000 ->
  addr < base + 0x2202000 -> ram_holds config (load_at data addr c) addr data.
Proof using Hok Hhtif Hram. intros. apply (ram_bytes_loaded config disk_data Hok Hhtif); [done|done|lia|lia]. Qed.
Lemma load_at_keeps c data addr addr' data' :
  system_bus config disk_data (bus (machine c)) -> Forall is_byte data -> base <= addr < base + 0x2202000 ->
  addr + Z.of_nat (length data) <= base + 0x2202000 ->
  addr' + Z.of_nat (length data') <= addr \/ addr + Z.of_nat (length data) <= addr' ->
  ram_holds config c addr' data' -> ram_holds config (load_at data addr c) addr' data'.
Proof using Hok Hhtif Hram.
  intros. unfold ram_holds. etrans; [|eassumption]. apply (ram_bytes_kept config disk_data Hok Hhtif); [done|done|lia|lia|lia].
Qed.
Lemma load_at_loaded c data addr :
  loaded c -> Forall is_byte data -> base <= addr < base + 0x2202000 -> addr + Z.of_nat (length data) <= base + 0x2200000 ->
  loaded (load_at data addr c).
Proof using Hok Hhtif Hram.
  intros [Hb Hr Hd] Hy Ha Hl. split; [by apply load_system_bus|done|]. apply load_at_keeps; [done|done|lia|lia|lia|done].
Qed.
Lemma dtb_loaded c :
  cpu_new (system_new config disk_data) config = Some c -> loaded (load_at (generate_dtb config) (dtb_addr config) c).
Proof using Hok Hhtif Hram.
  intros Hc. destruct boot_addrs as (_ & -> & _). unfold cpu_new in Hc. apply bind_Some in Hc as (bp & _ & Hc).
  destruct (default (0, 0) _) as [start stop]. injection Hc as <-. pose proof (dtb_size config).
  assert (Hs : system_bus config disk_data (sys_bus (system_new config disk_data))) by by exists [].
  split; [by apply load_system_bus|apply initial_regs_length|]. apply load_at_holds; [done|apply dtb_bytes|lia|lia|lia].
Qed.
Lemma boots_loaded c :
  loaded c -> let h := cpu (machine c) in
  pc h = base -> privilege h = Common.Machine -> regs_read (regs h) REG_A0 = 0 -> regs_read (regs h) REG_A1 = base + 0x2200000 ->
  boots config c.
Proof.
  intros [_ _ Hd] h Hpc Hp H0 H1. unfold boots. fold h. split_and!; [done..|]. rewrite H1. unfold ram_holds in Hd. rewrite Hd. apply dtb_roundtrip.
Qed.
Lemma hart_loaded c f :
  loaded c -> (forall h, length (gpr (regs (f h))) = length (gpr (regs h))) -> loaded (upd_hart f c).
Proof. intros [Hb Hr Hd] Hf. split; [exact Hb| |exact Hd]. etrans; [apply Hf|exact Hr]. Qed.
Lemma write_loaded c r v : loaded c -> loaded (write_reg r v c).
Proof. intros H. apply (hart_loaded c (fun h => h <| regs := regs_write (regs h) r v |>) H). intros h. apply regs_write_length. Qed.
Lemma start_loaded c addr : loaded c -> loaded (start_at addr c).
Proof. intros H. by apply (hart_loaded c (fun h => h <| pc := addr |> <| privilege := Common.Machine |>) H). Qed.
Lemma mepc_loaded c v : loaded c -> loaded (upd_hart (fun h => csr_write h CSR_MEPC v) c).
Proof. intros H. apply (hart_loaded c _ H). intros h. by rewrite write_mepc. Qed.

Lemma trampoline_boots c :
  loaded c -> let c' := enter_trampoline config c in
  boots config c' /\ ram_holds config c' base (le_bytes 4 MRET) /\
  mepc (csrs (cpu (machine c'))) = Z.land (add64 base (cfg_kernel_offset (system config))) (not64 1) /\
  mstatus (csrs (cpu (machine c'))) = mstatus (csrs (cpu (machine c))).
Proof using Hok Hhtif Hram.
  intros Hl c'. destruct boot_addrs as (_ & Hd & _).
  assert (L1 : loaded (load_at (le_bytes 4 MRET) base c)) by (apply load_at_loaded; [done|apply le_bytes_bytes|lia|change (length (le_bytes 4 MRET)) with 4%nat; lia]).
  assert (L : loaded c').
  { apply write_loaded, write_loaded. apply mepc_loaded, start_loaded, L1. }
  split_and!.
  - destruct (entry_regs (regs (cpu (machine c))) (dtb_addr config) ltac:(apply Hl)) as [H0 H1].
    apply boots_loaded; [done|done|done|exact H0|]. etrans; [exact H1|done].
  - apply load_at_holds; [apply Hl|apply le_bytes_bytes|lia|change (length (le_bytes 4 MRET)) with 4%nat; lia|lia].
  - done.
  - done.
Qed.

Lemma info_bytes_ok : Forall is_byte (info_bytes config) /\ length (info_bytes config) = 56%nat.
Proof.
  split; [|done]. unfold info_bytes. generalize (info_fields config). intros l. induction l as [|x l IH]; [constructor|].
  cbn [mbind list_bind]. apply Forall_app. split; [apply le_bytes_bytes|exact IH].
Qed.
(** What the last argument register points firmware to. *)
Definition next_stage (c : core) : Prop :=
  let a2 := regs_read (regs (cpu (machine c))) REG_A2 in
  if bool_decide (sbi_path fs = SBI_DYNAMIC_PATH)
  then a2 = base + 0x21FFE00 /\ ram_holds config c a2 (info_bytes config) else a2 = 0.
Lemma boots_a2 c v : loaded c -> boots config c -> boots config (write_reg REG_A2 v c).
Proof.
  intros L (Hpc & Hp & H0 & H1 & _). destruct (a2_regs (regs (cpu (machine c))) v ltac:(apply L)) as (E0 & E1 & _).
  apply boots_loaded; [by apply write_loaded|done|done|by etrans|by etrans].
Qed.
Lemma firmware_boots c :
  loaded c -> let c' := enter_firmware fs config c in
  boots config c' /\ next_stage c' /\
  (forall addr data, addr + Z.of_nat (length data) <= base + 0x21FFE00 -> ram_holds config c addr data -> ram_holds config c' addr data).
Proof using Hok Hhtif Hram.
  intros Hl c'. destruct boot_addrs as (_ & Hd & Hi). destruct info_bytes_ok as [Iy Il].
  set (c1 := write_reg REG_A1 (dtb_addr config) (write_reg REG_A0 0 (start_at (opensbi_addr config) c))).
  assert (L1 : loaded c1) by by apply write_loaded, write_loaded, start_loaded.
  destruct (entry_regs (regs (cpu (machine c))) (dtb_addr config) ltac:(apply Hl)) as [H0 H1].
  unfold next_stage, c', enter_firmware. fold c1. cbv zeta. rewrite Hi. case_bool_decide as Hdyn.
  - set (c2 := load_at (info_bytes config) (base + 0x21FFE00) c1).
    assert (L2 : loaded c2) by (apply load_at_loaded; [done|done|lia|rewrite Il; lia]).
    assert (B2 : boots config c2) by (apply boots_loaded; [done|done|done|exact H0|etrans; [exact H1|done]]).
    assert (E2 : regs_read (regs (cpu (machine (write_reg REG_A2 (base + 0x21FFE00) c2)))) REG_A2 = base + 0x21FFE00)
      by (apply (a2_regs (regs (cpu (machine c2)))), L2).
    split_and!; [by apply boots_a2|exact E2| |].
    + rewrite E2. apply load_at_holds; [apply L1|done|lia|rewrite Il; lia|lia].
    + intros addr data Ha Hc. apply load_at_keeps; [apply L1|done|lia|rewrite Il; lia|lia|exact Hc].
  - assert (B1 : boots config c1) by (apply boots_loaded; [done|done|done|exact H0|etrans; [exact H1|done]]).
    split_and!; [by apply boots_a2|apply (a2_regs (regs (cpu (machine c1)))), L1|].
    intros addr data _ Hc. exact Hc.
Qed.
End Boot.

(** The mode of the reset status that an MRET returns to is user mode. *)
Lemma mret_enters_user config h :
  mstatus (csrs h) = mstatus (reset_csrs (cfg_direct_mode (general config)) (configured_misa (pl_misa_override (pipeline config)))) ->
  pc (do_mret h) = Z.land (mepc (csrs h)) (not64 1) /\ privilege (do_mret h) = User.
Proof. intros E. split; [done|]. 
  change (privilege (do_mret h)) with (priv_from_u8 (u8 (Z.land (Z.shiftr (mstatus (csrs h)) MSTATUS_MPP_SHIFT) MSTATUS_MPP_MASK))).
  rewrite E. by destruct (cfg_direct_mode _). Qed.

(** Without firmware the set-up ends at an MRET that goes to the configured
    kernel address (made even), in user mode; the kernel file is not loaded. *)
Lemma trampoline_setup (fs : FileSystem) (config : Config) (disk_data : option (list Z)) (kernel_path : option string) (c : core) :
  map_ok config -> htif_map config = [] -> 0x2202000 <= cfg_ram_size (memory config) ->
  cpu_new (system_new config disk_data) config = Some c -> fs_exists fs (sbi_path fs) = false ->
  let '(c', e) := setup_kernel_load fs config None kernel_path c in
  let base := cfg_ram_base (system config) in
  e = None /\ boots config c' /\ ram_holds config c' base (le_bytes 4 MRET) /\
  let h := do_mret (cpu (machine c')) in
  pc h = Z.land (add64 base (cfg_kernel_offset (system config))) (not64 1) /\ privilege h = User.
Proof.
  intros Hok Hh Hr Hc Hs. pose proof (dtb_loaded config disk_data Hok Hh Hr c Hc) as L.
  destruct (setup_kernel_load _ _ _ _ _) as [c' e] eqn:E. unfold setup_kernel_load in E. cbv zeta. rewrite Hs in E.
  set (c1 := load_at (generate_dtb config) (dtb_addr config) c) in *.
  injection E as <- <-. destruct (trampoline_boots config disk_data Hok Hh Hr c1 L) as (B & T & P & M).
  split_and!; [done|exact B|exact T| |].
  - change (pc (do_mret ?h)) with (Z.land (mepc (csrs h)) (not64 1)). rewrite P, <-Z.land_assoc. by rewrite Z.land_diag.
  - apply (mret_enters_user config). rewrite M. unfold c1. unfold cpu_new in Hc. apply bind_Some in Hc as (bp & _ & Hc).
    destruct (default (0, 0) _) as [start stop]. by injection Hc as <-.
Qed.

(** C19. The kernel boot set-up with firmware, over any file system.  With a
    generated device tree, RAM for everything loaded, no HTIF device, and the
    kernel offset at its documented default of 2 MiB (the only one the code
    honours when there is firmware), it starts in machine mode at the firmware's
    first byte; firmware and kernel are in RAM byte for byte, the kernel at
    [ram_base + kernel_offset]; [a0] is the hart's number, [a1] the address of a
    blob from which a reader recovers the system's device tree, and [a2] zero or
    the address of the firmware's information block. *)
Theorem kernel_boot (fs : FileSystem) (config : Config) (disk_data : option (list Z)) (kernel_path : option string) (c : core)
    (sbi kernel : list Z) :
  map_ok config -> htif_map config = [] -> 0x2202000 <= cfg_ram_size (memory config) ->
  cfg_kernel_offset (system config) = 0x200000 ->
  cpu_new (system_new config disk_data) config = Some c ->
  let kernel_file := default DEFAULT_KERNEL_PATH kernel_path in
  fs_exists fs (sbi_path fs) = true -> fs_read fs (sbi_path fs) = Some sbi ->
  fs_exists fs kernel_file = true -> fs_read fs kernel_file = Some kernel ->
  Forall is_byte sbi -> Forall is_byte kernel -> Z.of_nat (length sbi) <= 0x200000 -> Z.of_nat (length kernel) <= 0x1FFFE00 ->
  let '(c', e) := setup_kernel_load fs config None kernel_path c in
  let base := cfg_ram_base (system config) in
  e = None /\ boots config c' /\ next_stage fs config c' /\
  ram_holds config c' base sbi /\ ram_holds config c' (base + cfg_kernel_offset (system config)) kernel.
Proof.
  intros Hok Hh Hr Ho Hc kernel_file Es Hs He Hk Ys Yk Ls Lk. rewrite Ho. pose proof (dtb_loaded config disk_data Hok Hh Hr c Hc) as L.
  destruct (setup_kernel_load _ _ _ _ _) as [c' e] eqn:E. unfold setup_kernel_load in E. cbv zeta.
  set (c1 := load_at (generate_dtb config) (dtb_addr config) c) in *. destruct (boot_addrs config Hok Hr) as (Ek & _ & _).
  unfold load_kernel, load_binary in E. fold kernel_file in E. rewrite Es, Hs, He, Hk, Ek in E. injection E as <- <-. split; [done|].
  set (c2 := load_at sbi (opensbi_addr config) c1).
  assert (L2 : loaded config disk_data c2) by (apply load_at_loaded; [done..|unfold opensbi_addr; lia|unfold opensbi_addr; lia]).
  assert (L3 : loaded config disk_data (load_at kernel (cfg_ram_base (system config) + 0x200000) c2)) by (apply load_at_loaded; [done..|lia|lia]).
  destruct (firmware_boots fs config disk_data Hok Hh Hr _ L3) as (B & N & K). split_and!; [exact B|exact N| |].
  - apply K; [lia|]. eapply load_at_keeps; [done..|apply L2|done|lia|lia|lia|].
    eapply (load_at_holds _ disk_data); [done..|apply L|done|lia|unfold opensbi_addr; lia|unfold opensbi_addr; lia].
  - apply K; [lia|]. eapply (load_at_holds _ disk_data); [done..|apply L2|done|lia|lia|lia].
Qed.
Definition demo_fs (firmware : bool) : FileSystem := {|
  fs_exists := fun path => bool_decide (path = "Image"%string) || (firmware && bool_decide (path = SBI_JUMP_PATH));
  fs_read := fun path => if bool_decide (path = "Image"%string) then Some [5; 6] else if bool_decide (path = SBI_JUMP_PATH) then Some [1; 2; 3] else None |}.
(** With firmware the kernel offset is ignored. *)
Example kernel_offset_ignored :
  let config := config_default <| system := (system config_default) <| cfg_kernel_offset := 0x400000 |> |> in
  kernel_addr config = cfg_ram_base (system config) + 0x200000.
Proof. by vm_compute. Qed.

Lemma kernel_boot_witness :
  exists c, cpu_new (system_new config_default None) config_default = Some c /\
    let c' := (setup_kernel_load (demo_fs true) config_default None (Some "Image"%string) c).1 in
    boots config_default c' /\ ram_holds config_default c' 0x80000000 [1; 2; 3] /\ ram_holds config_default c' 0x80200000 [5; 6].
Proof.
  assert (Hok : map_ok config_default) by (apply (bool_decide_unpack _); by vm_compute).
  assert (Hbp : is_Some (wrapper_new (bp_settings (pipeline config_default)))) by (apply (bool_decide_unpack _); by vm_compute).
  assert (Hc : is_Some (cpu_new (system_new config_default None) config_default)).
  { unfold cpu_new. destruct Hbp as [bp ->]. cbn [mbind option_bind]. destruct (default (0, 0) _). by eexists. }
  destruct Hc as [c Hc]. exists c. split; [exact Hc|].
  pose proof (kernel_boot (demo_fs true) config_default None (Some "Image"%string) c [1; 2; 3] [5; 6] Hok eq_refl ltac:(by vm_compute) eq_refl Hc
    eq_refl eq_refl eq_refl eq_refl) as H. cbv zeta in H.
  destruct (setup_kernel_load _ _ _ _ _) as [c' e]. cbn [fst].
  destruct H as (_ & B & _ & H1 & H2); [| |by vm_compute|by vm_compute|by split_and!].
  - by apply (bool_decide_unpack _); vm_compute.
  - by apply (bool_decide_unpack _); vm_compute.
Defined.
