(* ===== verification/PyCpu.v ===== *)
(** The Python interface to the simulator ([bindings/src/{cpu,views}.rs],
    [core/pipeline/snapshot.rs]): run loops, views of registers and memory,
    pipeline snapshots, checkpoints. *)
From Stdlib Require Import Ascii String.
From stdpp Require Import strings.
From S2P Require Import Prelude Common Csr Tlb Rename RenameO3 Decode Mmu Cpu Cache Soc Interconnect Latches IssueQueue Commit Isa DecodeSpec Core ExecuteSpec Fetch InOrderTick O3Tick Pipeline WriteBuffer VirtioDisk BranchUnits Config System SystemProps DeviceTree Loader.
Set Primitive Projections.
Local Open Scope Z_scope.

Local Abbreviation core := (Core SocDevice DynController BranchPredictorWrapper).

(** [u64::saturating_sub] *)
Definition saturating_sub (a b : Z) : Z := Z.max (a - b) 0.
(** [Cpu::take_exit] *)
Definition take_exit (s : Simulator) : option Z * Simulator :=
  (exit_code (hart (sim_core s)), sim_on_core (upd_hart (fun h => h <| exit_code := None |>)) s).
Definition sim_cycles (s : Simulator) : Z := cycles (hart (sim_core s)).

(** * Run loops

    [py.check_signals] asks the interpreter whether a signal handler raised; its
    answers are a list, taken one by one, and no signal comes after its end.
    Flushing the output streams has no effect on the state. *)

Definition check_signals (signals : list bool) : bool * list bool :=
  match signals with [] => (false, []) | b :: signals => (b, signals) end.
Definition is_multiple_of (x n : Z) : bool := x mod n =? 0.

(** How a call ends: a value, the exit code or [None]; an exception; the
    simulator itself panics; or it does not return. *)
Inductive RunEnd := Done (exit : option Z) | SimFailed (e : SimError) | Signalled | Panicked | Hung.

Section Run.
Context `{!FpUnit}.

(** What a call leaves: its end, the signals to come and the simulator (after
    an error, as before the cycle that failed). *)
Local Abbreviation outcome := (RunEnd * list bool * Simulator)%type.

(** The loop of [run_inner]; [None] when [fuel] ends first. *)
Fixpoint run_inner_loop (fuel : nat) (start : Z) (limit : option Z) (signals : list bool) (s : Simulator) : option outcome :=
  match fuel with
  | O => None
  | S fuel =>
      if (match limit with Some max => max <=? saturating_sub (sim_cycles s) start | None => false end)
      then Some (Done None, signals, s)
      else
        let '(raised, signals) := if is_multiple_of (sim_cycles s) 10000 then check_signals signals else (false, signals) in
        if raised then Some (Signalled, signals, s)
        else match sim_tick s with
             | StepOk s' =>
                 match take_exit s' with
                 | (Some code, s') => Some (Done (Some code), signals, s')
                 | (None, s') => run_inner_loop fuel start limit signals s'
                 end
             | StepErr e => Some (SimFailed e, signals, s)
             | StepPanicked => Some (Panicked, signals, s)
             | StepHung => Some (Hung, signals, s)
             end
  end.
Definition run_inner (fuel : nat) (limit : option Z) (signals : list bool) (s : Simulator) : option outcome :=
  run_inner_loop fuel (sim_cycles s) limit signals s.
Definition run_for_cycles (fuel : nat) (cycles : Z) := run_inner fuel (Some cycles).

(** The cycles of the next chunk, [None] when the limit is reached. *)
Definition next_chunk (limit : option Z) (chunk cycles_run : Z) : option Z :=
  match limit with
  | Some max =>
      let remaining := saturating_sub max cycles_run in
      if remaining =? 0 then None else Some (Z.min chunk remaining)
  | None => Some chunk
  end.

(** The loop of [run_with_progress]; every chunk has the fuel [inner]. *)
Fixpoint progress_loop (fuel inner : nat) (limit : option Z) (progress cycles_run : Z) (signals : list bool) (s : Simulator)
    : option outcome :=
  match fuel with
  | O => None
  | S fuel =>
      match next_chunk limit progress cycles_run with
      | None => Some (Done None, signals, s)
      | Some chunk =>
          r ← run_for_cycles inner chunk signals s;
          match r with
          | (Done None, signals, s) => progress_loop fuel inner limit progress (add64 cycles_run chunk) signals s
          | r => Some r
          end
      end
  end.
Definition run_with_progress (fuel : nat) (limit : option Z) (progress : Z) := progress_loop fuel fuel limit progress 0.
(** [run]; the statistics it prints are output. *)
Definition run (fuel : nat) (limit : option Z) (progress : Z) (signals : list bool) (s : Simulator) : option outcome :=
  if 0 <? progress then run_with_progress fuel limit progress signals s else run_inner fuel limit signals s.

(** What a statistics snapshot is taken of. *)
Definition stats_of (s : Simulator) : Z * Z * CommitStats :=
  (sim_cycles s, instructions_retired (hart (sim_core s)), stats (machine (sim_core s))).
(** The loop of [sample], with the snapshots so far. *)
Fixpoint sample_loop (fuel inner : nat) (every : Z) (limit : option Z) (cycles_run : Z) (snapshots : list (Z * Z * CommitStats))
    (signals : list bool) (s : Simulator) : option (outcome * list (Z * Z * CommitStats)) :=
  match fuel with
  | O => None
  | S fuel =>
      match next_chunk limit every cycles_run with
      | None => Some ((Done None, signals, s), snapshots)
      | Some chunk =>
          r ← run_for_cycles inner chunk signals s;
          match r with
          | (Done None, signals, s) =>
              sample_loop fuel inner every limit (add64 cycles_run chunk) (snapshots ++ [stats_of s]) signals s
          | (Done (Some code), signals, s) => Some ((Done (Some code), signals, s), snapshots ++ [stats_of s])
          | r => Some (r, snapshots)
          end
      end
  end.
Definition sample (fuel : nat) (every : Z) (limit : option Z) := sample_loop fuel fuel every limit 0 [].

Definition privilege_str (s : Simulator) : string :=
  match privilege (hart (sim_core s)) with Common.Machine => "M" | Common.Supervisor => "S" | Common.User => "U" end.
(** A Python predicate may change the simulator it is given; [None] is an
    exception. *)
Definition Predicate := Simulator -> option bool * Simulator.
Inductive UntilEnd := UEnd (r : RunEnd) | NoCondition | PredicateRaised.
Definition stops_at (pc' : option Z) (privilege' : option string) (s : Simulator) : bool :=
  match pc' with Some p => pc (hart (sim_core s)) =? p | None => false end ||
  match privilege' with Some p => bool_decide (privilege_str s = p) | None => false end.
Fixpoint until_loop (fuel inner : nat) (predicate : option Predicate) (pc' : option Z) (privilege' : option string)
    (limit : option Z) (chunk cycles_run : Z) (signals : list bool) (s : Simulator) : option (UntilEnd * list bool * Simulator) :=
  match fuel with
  | O => None
  | S fuel =>
      match next_chunk limit chunk cycles_run with
      | None => Some (UEnd (Done None), signals, s)
      | Some c =>
          r ← run_for_cycles inner c signals s;
          match r with
          | (Done None, signals, s) =>
              if stops_at pc' privilege' s then Some (UEnd (Done None), signals, s)
              else
                let again s :=
                  let '(raised, signals) := check_signals signals in
                  if raised then Some (UEnd Signalled, signals, s)
                  else until_loop fuel inner predicate pc' privilege' limit chunk (add64 cycles_run c) signals s in
                match predicate with
                | Some p =>
                    match p s with
                    | (None, s) => Some (PredicateRaised, signals, s)
                    | (Some true, s) => Some (UEnd (Done None), signals, s)
                    | (Some false, s) => again s
                    end
                | None => again s
                end
          | (r, signals, s) => Some (UEnd r, signals, s)
          end
      end
  end.
Definition run_until (fuel : nat) (predicate : option Predicate) (pc' : option Z) (privilege' : option string)
    (limit : option Z) (chunk : Z) (signals : list bool) (s : Simulator) : option (UntilEnd * list bool * Simulator) :=
  match predicate, pc', privilege' with
  | None, None, None => Some (NoCondition, signals, s)
  | _, _, _ => until_loop fuel fuel predicate pc' privilege' limit chunk 0 signals s
  end.

(** [step]: the committed instruction's address and word. *)
Inductive StepEnd := Committed (pc raw cycles : Z) | NoCommit | StepFailed (e : SimError) | StepSignalled | StepCrashed | StepNeverEnds.
Fixpoint step_loop (max_cycles : nat) (cycles_run : Z) (before_last : option (Z * Z)) (signals : list bool) (s : Simulator)
    : StepEnd * list bool * Simulator :=
  match max_cycles with
  | O => (NoCommit, signals, s)
  | S max_cycles =>
      let '(raised, signals) := if is_multiple_of cycles_run 10000 then check_signals signals else (false, signals) in
      if raised then (StepSignalled, signals, s)
      else match sim_tick s with
           | StepOk s' =>
               match take_exit s' with
               | (Some _, s') => (NoCommit, signals, s')
               | (None, s') =>
                   let new_last := last (pc_trace (machine (sim_core s'))) in
                   match (if bool_decide (new_last = before_last) then None else new_last) with
                   | Some (pc', inst) => (Committed pc' inst (sim_cycles s'), signals, s')
                   | None => step_loop max_cycles (cycles_run + 1) before_last signals s'
                   end
               end
           | StepErr e => (StepFailed e, signals, s)
           | StepPanicked => (StepCrashed, signals, s)
           | StepHung => (StepNeverEnds, signals, s)
           end
  end.
Definition step (max_cycles : Z) (signals : list bool) (s : Simulator) : StepEnd * list bool * Simulator :=
  step_loop (Z.to_nat max_cycles) 0 (last (pc_trace (machine (sim_core s)))) signals s.
End Run.

(** * Views of the state ([views.rs]) *)

Inductive PyErr := IndexError | KeyError | ValueError | RuntimeError.
Definition csr_addr_to_name (addr : Z) : option string :=
  snd <$> (snd <$> list_find (fun e => e.1 = addr)
    [(0x100, "sstatus"); (0x104, "sie"); (0x105, "stvec"); (0x140, "sscratch"); (0x141, "sepc"); (0x142, "scause");
     (0x143, "stval"); (0x144, "sip"); (0x180, "satp"); (0x300, "mstatus"); (0x301, "misa"); (0x302, "medeleg");
     (0x303, "mideleg"); (0x304, "mie"); (0x305, "mtvec"); (0x340, "mscratch"); (0x341, "mepc"); (0x342, "mcause");
     (0x343, "mtval"); (0x344, "mip"); (0xC00, "cycle"); (0xC01, "time"); (0xC02, "instret"); (0xB00, "mcycle");
     (0xB02, "minstret"); (0x14D, "stimecmp")]%string).
Definition named_csrs : list (string * (Csrs -> Z)) :=
  [("mstatus", mstatus); ("misa", misa); ("mie", mie); ("mip", mip); ("mtvec", mtvec); ("mepc", mepc); ("mcause", mcause);
   ("mtval", mtval); ("medeleg", medeleg); ("mideleg", mideleg); ("mscratch", mscratch); ("sstatus", sstatus); ("sie", sie);
   ("sip", sip); ("stvec", stvec); ("sepc", sepc); ("scause", scause); ("stval", stval); ("sscratch", sscratch); ("satp", satp);
   ("cycle", cycle); ("time", time); ("instret", instret); ("mcycle", mcycle); ("minstret", minstret);
   ("stimecmp", stimecmp)]%string.
Definition read_csr_by_name (s : Simulator) (name : string) : option Z :=
  (fun e => e.2 (csrs (hart (sim_core s)))) <$> (snd <$> list_find (fun e => e.1 = name) named_csrs).

(** A key is an address or a name (in lower case here). *)
Definition csrs_getitem (s : Simulator) (key : Z + string) : PyErr + option Z :=
  match key with
  | inl addr => match csr_addr_to_name addr with Some name => inr (read_csr_by_name s name) | None => inl KeyError end
  | inr name => inr (read_csr_by_name s name)
  end.
Definition registers_getitem (s : Simulator) (idx : Z) : PyErr + Z :=
  if 32 <=? idx then inl IndexError else inr (regs_read (regs (hart (sim_core s))) (reg_new (u8 idx))).
Definition registers_setitem (s : Simulator) (idx value : Z) : PyErr + Simulator :=
  if 32 <=? idx then inl IndexError
  else inr (sim_on_core (upd_hart (fun h => h <| regs := regs_write (regs h) (reg_new (u8 idx)) value |>)) s).

(** Width 32 or 64. *)
Inductive ViewWidth := Mem32 | Mem64.
Definition mem_size (w : ViewWidth) : AccessSize := match w with Mem32 => U32 | Mem64 => U64 end.
Definition memory_getitem (s : Simulator) (w : ViewWidth) (addr : Z) : Z * Simulator :=
  let '(v, b) := bus_read (bus (machine (sim_core s))) (mem_size w) addr in (v, sim_on_core (set_bus b) s).
Definition py_translate (s : Simulator) (vaddr : Z) : (PyErr + Z) * Simulator :=
  let '(result, h, b) := cpu_translate (hart (sim_core s)) (bus (machine (sim_core s))) vaddr Read 8 in
  let s := sim_on_core (fun c => upd_hart (fun _ => h) (set_bus b c)) s in
  (match tr_trap result with Some _ => inl ValueError | None => inr (tr_paddr result) end, s).
Definition virtual_memory_getitem (s : Simulator) (w : ViewWidth) (addr : Z) : (PyErr + Z) * Simulator :=
  match py_translate s addr with
  | (inl e, s) => (inl e, s)
  | (inr paddr, s) => let '(v, s) := memory_getitem s w paddr in (inr v, s)
  end.

(** The bytes at an offset through the raw pointer, [None] outside the buffer. *)
Definition raw_slice (c : core) (offset : Z) (n : nat) : option (list Z) :=
  let b := sh_dram (Interconnect.shared (bus (machine c))) in
  if offset + Z.of_nat n <=? db_size b then Some ((fun k => db_byte b (offset + Z.of_nat k)) <$> seq 0 n) else None.
Fixpoint read_by_bus (b : Interconnect SocDevice) (addr : Z) (n : nat) : list Z * Interconnect SocDevice :=
  match n with
  | O => ([], b)
  | S n => let '(v, b) := bus_read b U8 addr in let '(l, b) := read_by_bus b (add64 addr 1) n in (v :: l, b)
  end.
(** [read_phys_bytes]; [None] is undefined behaviour. *)
Definition read_phys_bytes (s : Simulator) (paddr : Z) (length : nat) : option (list Z * Simulator) :=
  let m := machine (sim_core s) in
  if (ram_start m <=? paddr) && (add64 paddr (Z.of_nat length) <=? ram_end m) && bool_decide (get_ram_info (bus m) <> None)
  then (fun l => (l, s)) <$> raw_slice (sim_core s) (paddr - ram_start m) length
  else let '(l, b) := read_by_bus (bus m) paddr length in Some (l, sim_on_core (set_bus b) s).

(** * Pipeline snapshots *)

Record PipelineSnapshot := {
  snap_fetch1_fetch2 : list Fetch1Fetch2Entry; snap_fetch2_decode : list IfIdEntry; snap_decode_rename : list IdExEntry;
  snap_rename_issue : list RenameIssueEntry; snap_issue_queue : list RenameIssueEntry;
  snap_execute_mem1 : list ExMem1Entry; snap_mem1_mem2 : list Mem1Mem2Entry; snap_mem2_wb : list Mem2WbEntry;
  snap_fetch1_stall : Z; snap_fetch2_stall : Z; snap_mem1_stall : Z; snap_width : nat }.
Definition snapshot (p : PipelineDispatch) (width : nat) : PipelineSnapshot :=
  match p with
  | PdInOrder p =>
      let f := ps_frontend p in let e := ps_engine p in
      {| snap_fetch1_fetch2 := fe_fetch1_fetch2 f; snap_fetch2_decode := fe_fetch2_decode f;
         snap_decode_rename := fe_decode_rename f; snap_rename_issue := ps_rename_output p;
         snap_issue_queue := iu_queue (ib_issuer e); snap_execute_mem1 := ib_execute_mem1 e;
         snap_mem1_mem2 := ib_mem1_mem2 e; snap_mem2_wb := ib_mem2_wb e; snap_fetch1_stall := fe_fetch1_stall f;
         snap_fetch2_stall := fe_fetch2_stall f; snap_mem1_stall := ib_mem1_stall e; snap_width := width |}
  | PdOutOfOrder p =>
      let f := ps_frontend p in let e := ps_engine p in
      {| snap_fetch1_fetch2 := fe_fetch1_fetch2 f; snap_fetch2_decode := fe_fetch2_decode f;
         snap_decode_rename := fe_decode_rename f; snap_rename_issue := ps_rename_output p;
         snap_issue_queue := iq_queue_snapshot (ob_iq e); snap_execute_mem1 := ob_execute_mem1 e;
         snap_mem1_mem2 := ob_mem1_mem2 e; snap_mem2_wb := ob_mem2_wb e; snap_fetch1_stall := fe_fetch1_stall f;
         snap_fetch2_stall := fe_fetch2_stall f; snap_mem1_stall := 0; snap_width := width |}
  end.
Definition pipeline_snapshot (s : Simulator) : PipelineSnapshot :=
  snapshot (sim_pipeline s) (pipeline_width (sim_core s)).

(** * Checkpoints *)

(** JSON values, as [serde_json] has them; numbers are integers here. *)
Inductive Json :=
| JNull | JBool (b : bool) | JNum (n : Z) | JStr (s : string) | JArr (l : list Json) | JObj (l : list (string * Json)).
Definition obj_get (key : string) (l : list (string * Json)) : option Json := snd <$> (snd <$> list_find (fun e => e.1 = key) l).
(** [header[key]], null when there is no such entry. *)
Definition json_index (key : string) (j : Json) : Json := match j with JObj l => default JNull (obj_get key l) | _ => JNull end.
Definition as_u64 (j : Json) : option Z := match j with JNum n => if (0 <=? n) && (n <? 2 ^ 64) then Some n else None | _ => None end.
Definition as_bool (j : Json) : option bool := match j with JBool b => Some b | _ => None end.
Definition as_str (j : Json) : option string := match j with JStr s => Some s | _ => None end.
Definition as_array (j : Json) : option (list Json) := match j with JArr l => Some l | _ => None end.

Definition csr_fields : list (string * ((Csrs -> Z) * (Z -> Csrs -> Csrs))) :=
  [("mstatus", (mstatus, fun v c => c <| mstatus := v |>)); ("misa", (misa, fun v c => c <| misa := v |>));
   ("medeleg", (medeleg, fun v c => c <| medeleg := v |>)); ("mideleg", (mideleg, fun v c => c <| mideleg := v |>));
   ("mie", (mie, fun v c => c <| mie := v |>)); ("mtvec", (mtvec, fun v c => c <| mtvec := v |>));
   ("mscratch", (mscratch, fun v c => c <| mscratch := v |>)); ("mepc", (mepc, fun v c => c <| mepc := v |>));
   ("mcause", (mcause, fun v c => c <| mcause := v |>)); ("mtval", (mtval, fun v c => c <| mtval := v |>));
   ("mip", (mip, fun v c => c <| mip := v |>)); ("sstatus", (sstatus, fun v c => c <| sstatus := v |>));
   ("sie", (sie, fun v c => c <| sie := v |>)); ("stvec", (stvec, fun v c => c <| stvec := v |>));
   ("sscratch", (sscratch, fun v c => c <| sscratch := v |>)); ("sepc", (sepc, fun v c => c <| sepc := v |>));
   ("scause", (scause, fun v c => c <| scause := v |>)); ("stval", (stval, fun v c => c <| stval := v |>));
   ("sip", (sip, fun v c => c <| sip := v |>)); ("satp", (satp, fun v c => c <| satp := v |>));
   ("cycle", (cycle, fun v c => c <| cycle := v |>)); ("time", (time, fun v c => c <| time := v |>));
   ("instret", (instret, fun v c => c <| instret := v |>)); ("mcycle", (mcycle, fun v c => c <| mcycle := v |>));
   ("minstret", (minstret, fun v c => c <| minstret := v |>)); ("stimecmp", (stimecmp, fun v c => c <| stimecmp := v |>));
   ("fflags", (fflags, fun v c => c <| fflags := v |>)); ("frm", (frm, fun v c => c <| frm := v |>));
   ("mcounteren", (mcounteren, fun v c => c <| mcounteren := v |>));
   ("scounteren", (scounteren, fun v c => c <| scounteren := v |>))]%string.

(** The header [save] writes; the flag of the tracing output is left out. *)
Definition save_csrs (c : Csrs) : Json := JObj ((fun f => (f.1, JNum (f.2.1 c))) <$> csr_fields).
Definition save_header (c : core) : Json :=
  let h := hart c in
  let m := machine c in
  JObj [("magic", JStr "rvsim-checkpoint"); ("version", JNum 1); ("pc", JNum (pc h)); ("privilege", JNum (priv_to_u8 (privilege h)));
        ("direct_mode", JBool (direct_mode h)); ("wfi_waiting", JBool (wfi_waiting m)); ("wfi_pc", JNum (wfi_pc m));
        ("ram_start", JNum (ram_start m)); ("ram_end", JNum (ram_end m));
        ("gpr", JArr ((fun i => JNum (regs_read (regs h) (reg_new i))) <$> seqZ 0 32));
        ("fpr", JArr ((fun i => JNum (regs_read_f (regs h) (reg_new i))) <$> seqZ 0 32));
        ("csrs", save_csrs (csrs h))]%string.
Definition dram_of (c : core) : DramBuffer := sh_dram (Interconnect.shared (bus (machine c))).
Definition ram_slice (c : core) (n : nat) : list Z := (fun k => db_byte (dram_of c) (Z.of_nat k)) <$> seq 0 n.
Definition ram_size (c : core) : Z := sub64 (ram_end (machine c)) (ram_start (machine c)).
(** [save]: the content of the file; the host's file errors are left out. *)
Definition save (to_vec : Json -> list Z) (c : core) : list Z :=
  let header_bytes := to_vec (save_header c) in
  le_bytes 8 (Z.of_nat (length header_bytes)) ++ header_bytes ++ ram_slice c (Z.to_nat (ram_size c)).

Definition read_exact (n : nat) (file : list Z) : option (list Z * list Z) :=
  if (n <=? length file)%nat then Some (take n file, drop n file) else None.
Definition restore_regs (write : RegisterFile -> Z -> Z -> RegisterFile) (l : list Json) (r : RegisterFile) : RegisterFile :=
  foldl (fun r '(i, v) => write r (reg_new (u8 (Z.of_nat i))) (default 0 (as_u64 v))) r (imap pair (take 32 l)).
Definition restore_csrs (csrs : Json) (c : Csrs) : Csrs :=
  foldl (fun c f => match as_u64 (json_index f.1 csrs) with Some v => f.2.2 v c | None => c end) c csr_fields.
Definition write_ram (data : list Z) (c : core) : core :=
  upd_machine (fun m => m <| bus := (bus m) <| Interconnect.shared := (Interconnect.shared (bus m))
    <| sh_dram := foldl (fun b '(k, x) => b <| db_bytes := <[Z.of_nat k := x]> (db_bytes b) |>) (dram_of c) (imap pair data) |> |> |>) c.
Definition restore_hart (header : Json) (c : core) : core :=
  let field key := json_index key header in
  let c := upd_hart (fun h => h <| pc := default 0 (as_u64 (field "pc"%string)) |>
                                <| privilege := priv_from_u8 (u8 (default 3 (as_u64 (field "privilege"%string)))) |>
                                <| direct_mode := default false (as_bool (field "direct_mode"%string)) |>) c in
  let c := upd_machine (fun m => m <| wfi_waiting := default false (as_bool (field "wfi_waiting"%string)) |>
                                   <| wfi_pc := default 0 (as_u64 (field "wfi_pc"%string)) |>) c in
  let c := match as_array (field "gpr"%string) with
           | Some l => upd_hart (fun h => h <| regs := restore_regs regs_write l (regs h) |>) c | None => c end in
  let c := match as_array (field "fpr"%string) with
           | Some l => upd_hart (fun h => h <| regs := restore_regs regs_write_f l (regs h) |>) c | None => c end in
  upd_hart (fun h => h <| csrs := restore_csrs (field "csrs"%string) (csrs h) |>) c.
Definition flush_caches (c : core) : core :=
  let c := upd_hart (fun h => h <| l1_i_cache := (cs_flush (l1_i_cache h)).2 |> <| l1_d_cache := (cs_flush (l1_d_cache h)).2 |>
    <| mmu := (mmu h) <| dtlb := tlb_flush (dtlb (mmu h)) |> <| itlb := tlb_flush (itlb (mmu h)) |>
                      <| l2_tlb := l2_flush (l2_tlb (mmu h)) |> |>) c in
  upd_machine (fun m => m <| l2_cache := (cs_flush (l2_cache m)).2 |> <| l3_cache := (cs_flush (l3_cache m)).2 |>) c.

Inductive RestoreError := ReadFailed | InvalidHeader | NotCheckpoint | RamSizeMismatch | RamReadFailed.
(** [restore]: the error, if any, and the state it leaves.  When the file ends
    inside the RAM, the host does not say how much was read: [partial]. *)
Definition restore (from_slice : list Z -> option Json) (partial : nat) (file : list Z) (c : core) : option RestoreError * core :=
  match read_exact 8 file with
  | None => (Some ReadFailed, c)
  | Some (len_buf, file) =>
  match read_exact (Z.to_nat (le_value len_buf)) file with
  | None => (Some ReadFailed, c)
  | Some (header_bytes, file) =>
  match from_slice header_bytes with
  | None => (Some InvalidHeader, c)
  | Some header =>
  if negb (bool_decide (default ""%string (as_str (json_index "magic"%string header)) = "rvsim-checkpoint"%string))
  then (Some NotCheckpoint, c)
  else
    let c := restore_hart header c in
    let ckpt_ram_size := sub64 (default 0 (as_u64 (json_index "ram_end"%string header)))
                               (default 0 (as_u64 (json_index "ram_start"%string header))) in
    if negb (ckpt_ram_size =? ram_size c) then (Some RamSizeMismatch, c)
    else match read_exact (Z.to_nat ckpt_ram_size) file with
         | None => (Some RamReadFailed, write_ram (take partial file) c)
         | Some (data, _) => (None, flush_caches (write_ram data c))
         end
  end end end.
(** The method, on the simulator: the pipeline is not touched. *)
Definition sim_restore (from_slice : list Z -> option Json) (partial : nat) (file : list Z) (s : Simulator) : option RestoreError * Simulator :=
  let '(e, c) := restore from_slice partial file (sim_core s) in (e, sim_on_core (fun _ => c) s).

(** ** A checkpoint restores what it saved *)

Lemma le_value_bytes n v : 0 <= v < 2 ^ (8 * Z.of_nat n) -> le_value (le_bytes n v) = v.
Proof.
  revert v. induction n as [|n IH]; intros v Hv; [simpl in *; lia|].
  unfold le_bytes. cbn [seq fmap list_fmap le_value foldr]. rewrite <-fmap_S_seq, <-list_fmap_compose.
  rewrite (list_fmap_ext _ (le_byte (v / 256))).
  - fold (le_bytes n (v / 256)). fold (le_value (le_bytes n (v / 256))).
    rewrite IH; [|rewrite Nat2Z.inj_succ, Z.mul_succ_r, Z.pow_add_r in Hv by lia; change (2 ^ 8) with 256 in Hv;
      split; [apply Z.div_pos; lia|apply Z.div_lt_upper_bound; lia]].
    unfold le_byte, wrap. rewrite Z.mul_0_r, Z.shiftr_0_r. change (2 ^ 8) with 256. pose proof (Z.div_mod v 256). lia.
  - intros _ k _. cbn. unfold le_byte. f_equal. change 256 with (2 ^ 8). rewrite <-Z.shiftr_div_pow2, Z.shiftr_shiftr by lia. f_equal. lia.
Qed.
Lemma read_exact_app l k : read_exact (length l) (l ++ k) = Some (l, k).
Proof. unfold read_exact. rewrite length_app, (proj2 (Nat.leb_le _ _)) by lia. by rewrite take_app_length, drop_app_length. Qed.
Lemma as_u64_num n : in_width 64 n -> as_u64 (JNum n) = Some n.
Proof. intros [H1 H2]. unfold as_u64. by rewrite (proj2 (Z.leb_le _ _)), (proj2 (Z.ltb_lt _ _)) by done. Qed.

Record regs_ok (r : RegisterFile) : Prop := {
  ro_gpr : length (gpr r) = 32%nat; ro_fpr : length (fpr r) = 32%nat;
  ro_zero : gpr r !! 0%nat = Some 0;
  ro_gpr_width : Forall (in_width 64) (gpr r); ro_fpr_width : Forall (in_width 64) (fpr r)
}.

Ltac explode l := do 32 (destruct l as [|? l]; [done|]); destruct l; [|done].
Lemma read_gprs r : regs_ok r -> (fun i => JNum (regs_read r (reg_new i))) <$> seqZ 0 32 = JNum <$> gpr r.
Proof. destruct r as [g f]. intros [Hg _ Hz _ _]. cbn in Hg, Hz. explode g. injection Hz as ->. reflexivity. Qed.
Lemma read_fprs r : regs_ok r -> (fun i => JNum (regs_read_f r (reg_new i))) <$> seqZ 0 32 = JNum <$> fpr r.
Proof. destruct r as [g f]. intros [_ Hf _ _ _]. cbn in Hf. explode f. reflexivity. Qed.
Lemma restore_gprs r l :
  regs_ok r -> Forall (in_width 64) l -> length l = 32%nat -> l !! 0%nat = Some 0 ->
  restore_regs regs_write (JNum <$> l) r = r <| gpr := l |>.
Proof.
  destruct r as [g f]. intros [Hg _ Hz _ _] Hl Hn H0. cbn in Hg, Hz. explode g. explode l. injection Hz as ->. injection H0 as ->.
  repeat (apply Forall_cons in Hl as [? Hl]). cbv [restore_regs fmap list_fmap take imap foldl compose default].
 
  rewrite !as_u64_num by done. reflexivity.
Qed.
Lemma restore_fprs r l :
  regs_ok r -> Forall (in_width 64) l -> length l = 32%nat -> restore_regs regs_write_f (JNum <$> l) r = r <| fpr := l |>.
Proof.
  destruct r as [g f]. intros [_ Hf _ _ _] Hl Hn. cbn in Hf. explode f. explode l.
  repeat (apply Forall_cons in Hl as [? Hl]). cbv [restore_regs fmap list_fmap take imap foldl compose default].
 
  rewrite !as_u64_num by done. reflexivity.
Qed.

Definition csrs_words (c : Csrs) : Prop := Forall (fun f => in_width 64 (f.2.1 c)) csr_fields.
Lemma saved_csr c : Forall (fun f => json_index f.1 (save_csrs c) = JNum (f.2.1 c)) csr_fields.
Proof. unfold csr_fields. repeat (apply Forall_cons; split; [reflexivity|]). constructor. Qed.
Lemma foldl_ext_in {A B} (f g : B -> A -> B) (l : list A) (b : B) :
  Forall (fun a => forall b, f b a = g b a) l -> foldl f b l = foldl g b l.
Proof. intros H. revert b. induction H as [|a l Ha _ IH]; intros b; [done|]. cbn [foldl]. by rewrite Ha. Qed.
Lemma restore_saved_csrs c c' : csrs_words c -> restore_csrs (save_csrs c) c' = c <| menvcfg := menvcfg c' |>.
Proof.
  intros Hc. transitivity (foldl (fun c' f => f.2.2 (f.2.1 c) c') c' csr_fields).
  - apply foldl_ext_in. apply Forall_forall. intros f Hf c0. pose proof (proj1 (Forall_forall _ _) Hc f Hf) as Hw.
    rewrite (proj1 (Forall_forall _ _) (saved_csr c) f Hf). cbv beta. by rewrite as_u64_num.
  - by destruct c, c'.
Qed.

Lemma write_ram_bytes data c i :
  db_byte (dram_of (write_ram data c)) i = if (0 <=? i) && (i <? Z.of_nat (length data)) then data !!! Z.to_nat i else db_byte (dram_of c) i.
Proof.
  change (dram_of (write_ram data c)) with (foldl (fun b '(k, x) => b <| db_bytes := <[Z.of_nat k := x]> (db_bytes b) |>) (dram_of c) (imap pair data)).
  induction data as [|x data IH] using rev_ind.
  - cbn. case_bool; [|done]. to_prop. lia.
  - rewrite imap_snoc, foldl_app, length_app. cbn [foldl length]. destruct (decide (i = Z.of_nat (length data))) as [->|Hne].
    + unfold db_byte at 1. cbn [db_bytes]. change (db_bytes (?b <| db_bytes := ?v |>)) with v. rewrite lookup_insert_eq.
      rewrite (proj2 (Z.leb_le _ _)), (proj2 (Z.ltb_lt _ _)) by lia. cbn [andb default].
      rewrite lookup_total_app_r by lia. by replace (Z.to_nat _ - length data)%nat with 0%nat by lia.
    + unfold db_byte at 1. change (db_bytes (?b <| db_bytes := ?v |>)) with v. rewrite lookup_insert_ne by lia.
      fold (db_byte (foldl (fun b '(k, x) => b <| db_bytes := <[Z.of_nat k := x]> (db_bytes b) |>) (dram_of c) (imap pair data)) i). rewrite IH.
      destruct (Z.leb_spec 0 i), (Z.ltb_spec i (Z.of_nat (length data))), (Z.ltb_spec i (Z.of_nat (length data + 1))); cbn [andb]; try lia; try done.
      by rewrite lookup_total_app_l by lia.
Qed.
Lemma ram_slice_lookup c n i : 0 <= i < Z.of_nat n -> ram_slice c n !!! Z.to_nat i = db_byte (dram_of c) i.
Proof.
  intros Hi. apply list_lookup_total_correct. unfold ram_slice. rewrite list_lookup_fmap, lookup_seq_lt by lia. cbn. by rewrite Z2Nat.id by lia.
Qed.

Lemma tlb_flush_empty t vpn asid : tlb_lookup (tlb_flush t) vpn asid = None.
Proof.
  unfold tlb_lookup. change (tlb_entries (tlb_flush t)) with ((fun e => e <| te_valid := false |>) <$> tlb_entries t).
  generalize (tlb_index (tlb_flush t) vpn). intros i. destruct (tlb_entries t !! i) as [e|] eqn:E.
  - by rewrite (list_lookup_total_correct _ i (e <| te_valid := false |>)) by by rewrite list_lookup_fmap, E.
  - by rewrite (list_lookup_total_alt _ i), list_lookup_fmap, E.
Qed.

(** What a checkpoint holds fits it. *)
Record saved_ok (c : core) : Prop := {
  so_regs : regs_ok (regs (hart c)); so_csrs : csrs_words (csrs (hart c));
  so_pc : in_width 64 (pc (hart c)); so_wfi : in_width 64 (wfi_pc (machine c));
  so_start : in_width 64 (ram_start (machine c)); so_end : in_width 64 (ram_end (machine c))
}.
(** Everything of a pipeline but the processor. *)
Definition same_pipeline (p p' : PipelineDispatch) : Prop :=
  match p, p' with
  | PdInOrder p, PdInOrder p' => ps_frontend p = ps_frontend p' /\ ps_engine p = ps_engine p' /\ ps_rename_output p = ps_rename_output p'
  | PdOutOfOrder p, PdOutOfOrder p' => ps_frontend p = ps_frontend p' /\ ps_engine p = ps_engine p' /\ ps_rename_output p = ps_rename_output p'
  | _, _ => False
  end.

Lemma upd_hart_at (f g : Cpu -> Cpu) (c : core) : f (hart c) = g (hart c) -> upd_hart f c = upd_hart g c.
Proof. intros E. unfold upd_hart, upd_machine, upd_cpu. unfold hart in E. by rewrite E. Qed.

(** ** The text of a header

    Two JSON values are the same when they differ in the order of the members of
    their objects only: [serde_json] keeps those in a map. *)
Inductive same_json : Json -> Json -> Prop :=
| same_null : same_json JNull JNull
| same_bool b : same_json (JBool b) (JBool b)
| same_num n : same_json (JNum n) (JNum n)
| same_str s : same_json (JStr s) (JStr s)
| same_arr l l' : Forall2 same_json l l' -> same_json (JArr l) (JArr l')
| same_obj l m l' : Forall2 (fun e e' => e.1 = e'.1 /\ same_json e.2 e'.2) l m -> m ≡ₚ l' -> same_json (JObj l) (JObj l').
(** Printable text that JSON writes without an escape. *)
Definition plain_char (c : ascii) : bool :=
  let n := Z.of_nat (nat_of_ascii c) in (32 <=? n) && (n <? 127) && negb (n =? 34) && negb (n =? 92).
Definition plain_text (s : string) : Prop := Forall (fun c => plain_char c = true) (list_ascii_of_string s).
(** The values whose text reads back as themselves whatever the reader does with
    repeated members and numbers beyond 64 bits. *)
Inductive json_ok : Json -> Prop :=
| ok_null : json_ok JNull
| ok_bool b : json_ok (JBool b)
| ok_num n : in_width 64 n -> json_ok (JNum n)
| ok_str s : plain_text s -> json_ok (JStr s)
| ok_arr l : Forall json_ok l -> json_ok (JArr l)
| ok_obj l : NoDup l.*1 -> Forall (fun e => plain_text e.1 /\ json_ok e.2) l -> json_ok (JObj l).
(** What a serialiser and its reader promise each other. *)
Definition serde_roundtrip (to_vec : Json -> list Z) (from_slice : list Z -> option Json) : Prop :=
  forall j, json_ok j -> exists j', from_slice (to_vec j) = Some j' /\ same_json j j'.

Section JsonInd.
Context (P : Json -> Prop) (Hnull : P JNull) (Hbool : forall b, P (JBool b)) (Hnum : forall n, P (JNum n)) (Hstr : forall s, P (JStr s)).
Context (Harr : forall l, Forall P l -> P (JArr l)) (Hobj : forall l, Forall (fun e => P e.2) l -> P (JObj l)).
Fixpoint json_ind' (j : Json) : P j :=
  match j with
  | JNull => Hnull
  | JBool b => Hbool b
  | JNum n => Hnum n
  | JStr s => Hstr s
  | JArr l => Harr l ((fix go l := match l return Forall P l with [] => Forall_nil_2 P | j :: l => Forall_cons_2 P j l (json_ind' j) (go l) end) l)
  | JObj l => Hobj l ((fix go l := match l return Forall (fun e => P e.2) l with
                                   | [] => Forall_nil_2 _ | e :: l => Forall_cons_2 _ e l (json_ind' e.2) (go l) end) l)
  end.
End JsonInd.

Lemma obj_get_some key l j : NoDup l.*1 -> obj_get key l = Some j <-> (key, j) ∈ l.
Proof.
  intros Hn. unfold obj_get. rewrite <-option_fmap_compose, fmap_Some. split.
  - intros ([i [k j']] & (Hl & Hk & _)%list_find_Some & ->). cbn in *. subst k. by eapply list_elem_of_lookup_2.
  - intros Hin. destruct (list_find_elem_of (fun e => e.1 = key) l (key, j) Hin eq_refl) as [[i [k j']] E].
    exists (i, (k, j')). split; [done|]. cbn. apply list_find_Some in E as (Hl & Hk & _). cbn in Hk. subst k.
    apply list_elem_of_lookup_2 in Hl. clear i.
    destruct (proj1 (list_elem_of_lookup _ _) Hin) as [a Ha], (proj1 (list_elem_of_lookup _ _) Hl) as [b Hb].
    assert (a = b) as -> by (eapply (NoDup_lookup l.*1); [done|by rewrite list_lookup_fmap, Ha|by rewrite list_lookup_fmap, Hb]).
    congruence.
Qed.
Lemma obj_get_none key l : obj_get key l = None <-> key ∉ l.*1.
Proof.
  unfold obj_get. rewrite <-option_fmap_compose, fmap_None, list_find_None, Forall_forall. split.
  - intros Hk ([k j] & -> & Hin)%list_elem_of_fmap. by apply (Hk _ Hin).
  - intros Hk e He E. apply Hk. rewrite <-E. by apply list_elem_of_fmap_2.
Qed.
Lemma obj_get_perm key l l' : NoDup l.*1 -> l ≡ₚ l' -> obj_get key l = obj_get key l'.
Proof.
  intros Hn Hp. assert (NoDup l'.*1) as Hn' by by rewrite <-Hp. apply option_eq. intros j. by rewrite !obj_get_some, Hp.
Qed.
Lemma json_index_same key j j' : json_ok j -> same_json j j' -> same_json (json_index key j) (json_index key j').
Proof.
  intros Hok Hs. destruct Hs as [| | | |l l' _|l m l' Hm Hp]; try constructor. cbn [json_index].
  inversion Hok as [| | | | |l0 Hn _]; subst. assert (m.*1 = l.*1) as Hk by (clear -Hm; induction Hm as [|e e' l m [He _] _ IH]; cbn; congruence).
  rewrite <-(obj_get_perm key m l') by (by rewrite ?Hk). clear -Hm. unfold obj_get.
  induction Hm as [|[k j] [k' j'] l m [E Hj] _ IH]; [constructor|]. cbn in E, Hj. subst k'. cbn [list_find fst].
  destruct (decide (k = key)); [done|]. destruct (list_find _ l) as [[]|], (list_find _ m) as [[]|]; exact IH.
Qed.
(** Values that hold no object are the same only when they are equal. *)
Inductive json_flat : Json -> Prop :=
| flat_null : json_flat JNull
| flat_bool b : json_flat (JBool b)
| flat_num n : json_flat (JNum n)
| flat_str s : json_flat (JStr s)
| flat_nums l : json_flat (JArr (JNum <$> l)).
Lemma same_flat j j' : same_json j j' -> json_flat j -> j' = j.
Proof.
  intros Hs Hf. destruct Hf as [| | | |l]; inversion Hs as [| | | |l0 l' Hl|]; subst; try done. f_equal. clear Hs.
  revert l' Hl. induction l as [|n l IH]; intros l' Hl; apply Forall2_cons_inv_l in Hl || apply Forall2_nil_inv_l in Hl; [done|].
  destruct Hl as (y & l'' & Hy & Hl & ->). inversion Hy; subst. cbn. f_equal. by apply IH.
Qed.

(** What [save] writes is such a value, and [restore] looks at it in a way that
    the order of members does not change. *)
Lemma csrs_json_ok c : csrs_words c -> json_ok (save_csrs c).
Proof.
  intros Hc. constructor.
  - rewrite <-list_fmap_compose. change (NoDup csr_fields.*1). by apply (bool_decide_unpack _); vm_compute.
  - apply Forall_fmap. assert (Forall (fun f => plain_text f.1) csr_fields) as Hk by (apply (bool_decide_unpack _); by vm_compute).
    induction Hc as [|f l Hf _ IH]; apply Forall_cons in Hk as [? ?] || constructor. constructor; [|auto]. split; [done|by constructor].
Qed.
Lemma nums_json_ok l : Forall (in_width 64) l -> json_ok (JArr (JNum <$> l)).
Proof. intros H. constructor. apply Forall_fmap. eapply Forall_impl; [exact H|]. by constructor. Qed.
Lemma header_json_ok c : saved_ok c -> json_ok (save_header c).
Proof.
  intros [Hr Hc Hpc Hw Hs He]. unfold save_header. cbv zeta. rewrite read_gprs, read_fprs by done.
  constructor; [apply (bool_decide_unpack _); by vm_compute|].
  repeat (apply Forall_cons; split; [split; [apply (bool_decide_unpack _); by vm_compute|]|]); try apply Forall_nil; cbn [snd].
  all: try (apply nums_json_ok, Hr); try by apply csrs_json_ok.
  all: constructor; first [done|by destruct (privilege (hart c))|apply (bool_decide_unpack _); by vm_compute].
Qed.
(** The members [restore_hart] and the checks of [restore] look up. *)
Definition header_keys : list string :=
  ["magic"; "pc"; "privilege"; "direct_mode"; "wfi_waiting"; "wfi_pc"; "ram_start"; "ram_end"; "gpr"; "fpr"]%string.
Lemma header_member c header key : saved_ok c -> same_json (save_header c) header -> key ∈ header_keys ->
  json_index key header = json_index key (save_header c).
Proof.
  intros Hok Hs Hk. apply same_flat; [by apply json_index_same; [apply header_json_ok|]|]. unfold save_header. cbv zeta.
  rewrite read_gprs, read_fprs by apply Hok. unfold header_keys in Hk. rewrite !elem_of_cons, elem_of_nil in Hk.
  repeat destruct Hk as [->|Hk]; by try constructor.
Qed.
Ltac header_member_at key :=
  erewrite (header_member _ _ key%string) by first [eassumption | apply (bool_decide_unpack _); by vm_compute].
Lemma header_csrs c header cs : saved_ok c -> same_json (save_header c) header ->
  restore_csrs (json_index "csrs" header) cs = restore_csrs (save_csrs (csrs (hart c))) cs.
Proof.
  intros Hok Hs. pose proof (json_index_same "csrs" _ _ (header_json_ok _ Hok) Hs) as Hc.
  change (json_index "csrs" (save_header c)) with (save_csrs (csrs (hart c))) in Hc. apply foldl_ext_in, Forall_forall. intros f Hf c0.
  pose proof (json_index_same f.1 _ _ (csrs_json_ok _ (so_csrs _ Hok)) Hc) as Hi.
  apply same_flat in Hi as ->; [done|]. rewrite (proj1 (Forall_forall _ _) (saved_csr _) f Hf). constructor.
Qed.
Lemma restore_hart_same c1 header c2 : saved_ok c1 -> same_json (save_header c1) header ->
  restore_hart header c2 = restore_hart (save_header c1) c2.
Proof.
  intros Hok Hs. unfold restore_hart. cbv zeta.
  header_member_at "pc". header_member_at "privilege". header_member_at "direct_mode". header_member_at "wfi_waiting".
  header_member_at "wfi_pc". header_member_at "gpr". header_member_at "fpr". apply upd_hart_at. cbv beta. by rewrite (header_csrs c1).
Qed.

Section Restored.
Context (to_vec : Json -> list Z) (from_slice : list Z -> option Json) (partial : nat) (c1 c2 : core).
Context (Hserde : serde_roundtrip to_vec from_slice).
Context (Hlen : Z.of_nat (length (to_vec (save_header c1))) < 2 ^ 64).
Context (Hok : saved_ok c1) (Hregs : regs_ok (regs (hart c2))) (Hsize : ram_size c1 = ram_size c2).

Local Abbreviation h1 := (hart c1).
Local Abbreviation m1 := (machine c1).
Lemma restore_hart_saved :
  restore_hart (save_header c1) c2 =
  upd_hart (fun h => h <| csrs := (csrs h1) <| menvcfg := menvcfg (csrs (hart c2)) |> |>)
    (upd_hart (fun h => h <| regs := regs h1 |>)
      (upd_machine (fun m => m <| wfi_waiting := wfi_waiting m1 |> <| wfi_pc := wfi_pc m1 |>)
        (upd_hart (fun h => h <| pc := pc h1 |> <| privilege := privilege h1 |> <| direct_mode := direct_mode h1 |>) c2))).
Proof using Hok Hregs.
  destruct Hok as [Hr Hc Hpc Hw _ _]. unfold restore_hart. cbv zeta.
  change (json_index "pc" (save_header c1)) with (JNum (pc h1)).
  change (json_index "privilege" (save_header c1)) with (JNum (priv_to_u8 (privilege h1))).
  change (json_index "direct_mode" (save_header c1)) with (JBool (direct_mode h1)).
  change (json_index "wfi_waiting" (save_header c1)) with (JBool (wfi_waiting m1)).
  change (json_index "wfi_pc" (save_header c1)) with (JNum (wfi_pc m1)).
  change (json_index "gpr" (save_header c1)) with (JArr ((fun i => JNum (regs_read (regs h1) (reg_new i))) <$> seqZ 0 32)).
  change (json_index "fpr" (save_header c1)) with (JArr ((fun i => JNum (regs_read_f (regs h1) (reg_new i))) <$> seqZ 0 32)).
  change (json_index "csrs" (save_header c1)) with (save_csrs (csrs h1)).
  rewrite !as_u64_num by first [done | by destruct (privilege h1)]. cbn [default as_bool as_array id]. cbv [id].
  assert (priv_from_u8 (u8 (priv_to_u8 (privilege h1))) = privilege h1) as -> by by destruct (privilege h1).
  rewrite read_gprs, read_fprs by done.
  set (c3 := upd_machine _ (upd_hart _ c2)).
  assert (R3 : regs_ok (regs (hart c3))) by exact Hregs.
  rewrite (upd_hart_at _ (fun h => h <| regs := (regs (hart c3)) <| gpr := gpr (regs h1) |> |>) c3)
    by (cbv beta; by rewrite restore_gprs by (done || apply Hr)).
  set (c4 := upd_hart _ c3). assert (R4 : regs_ok (regs (hart c4))) by (destruct Hr, R3; by split).
  rewrite (upd_hart_at _ (fun h => h <| regs := regs h1 |>) c4)
    by (cbv beta; rewrite restore_fprs by (done || apply Hr); by destruct (regs h1)).
  erewrite (upd_hart_at (fun h => h <| csrs := restore_csrs _ (csrs h) |>)) by (cbv beta; by rewrite restore_saved_csrs by apply Hc).
  reflexivity.
Qed.

Lemma restore_run :
  restore from_slice partial (save to_vec c1) c2 =
  (None, flush_caches (write_ram (ram_slice c1 (Z.to_nat (ram_size c1))) (restore_hart (save_header c1) c2))).
Proof using Hserde Hlen Hok Hregs Hsize.
  unfold restore, save. destruct (Hserde _ (header_json_ok _ Hok)) as (header & Hread & Hsame). set (hb := to_vec (save_header c1)) in *.
  assert (L : length (le_bytes 8 (Z.of_nat (length hb))) = 8%nat) by done.
  rewrite <-L at 1. rewrite read_exact_app, le_value_bytes, Nat2Z.id, read_exact_app, Hread by lia.
  rewrite (restore_hart_same c1) by done. header_member_at "magic". header_member_at "ram_end". header_member_at "ram_start".
  change (as_str (json_index "magic" (save_header c1))) with (Some "rvsim-checkpoint"%string).
  change (json_index "ram_end" (save_header c1)) with (JNum (ram_end m1)).
  change (json_index "ram_start" (save_header c1)) with (JNum (ram_start m1)).
  rewrite !as_u64_num by apply Hok. cbn [default]. cbv [id]. rewrite bool_decide_eq_true_2 by done. cbn [negb].
  fold (ram_size c1). rewrite restore_hart_saved. change (ram_size (upd_hart _ _)) with (ram_size c2). rewrite Hsize, Z.eqb_refl. cbn [negb].
  set (n := Z.to_nat (ram_size c2)). assert (Ln : length (ram_slice c1 n) = n) by (unfold ram_slice; by rewrite length_fmap, length_seq).
  rewrite <-Ln at 1. rewrite <-(app_nil_r (ram_slice c1 n)) at 2. by rewrite read_exact_app.
Qed.
End Restored.

(** What a checkpoint does not hold: PMP, reservation, MENVCFG (see below),
    devices and the whole pipeline, the physical registers of the out-of-order
    engine included, stay those of the simulator it is restored into. *)
Lemma checkpoint_leaves_rest (to_vec : Json -> list Z) (from_slice : list Z -> option Json) (partial : nat) (s1 s2 : Simulator) :
  serde_roundtrip to_vec from_slice -> Z.of_nat (length (to_vec (save_header (sim_core s1)))) < 2 ^ 64 ->
  saved_ok (sim_core s1) -> regs_ok (regs (hart (sim_core s2))) -> ram_size (sim_core s1) = ram_size (sim_core s2) ->
  let s := (sim_restore from_slice partial (save to_vec (sim_core s1)) s2).2 in
  let h2 := hart (sim_core s2) in let h := hart (sim_core s) in
  pmp h = pmp h2 /\ load_reservation h = load_reservation h2 /\ cycles h = cycles h2 /\
  devices (bus (machine (sim_core s))) = devices (bus (machine (sim_core s2))) /\ same_pipeline (sim_pipeline s) (sim_pipeline s2).
Proof.
  intros Hserde Hlen Hok Hregs Hsize. unfold sim_restore. rewrite restore_run, restore_hart_saved by done.
  unfold sim_core at 1 2 3 5 7 9, sim_on_core. cbn [snd]. by destruct (sim_pipeline s2).
Qed.

(** C20. A checkpoint written from one simulator and restored into another whose
    RAM has the same size succeeds and carries over what [save] lists - the
    program counter, the mode, the registers, every CSR it names (all of the
    model's but MENVCFG) - and every byte of RAM, and leaves nothing in the
    first-level TLBs.  Of the JSON text it uses that values with distinct keys,
    plain strings and 64-bit numbers read back up to the order of members. *)
Theorem checkpoint_roundtrip (to_vec : Json -> list Z) (from_slice : list Z -> option Json) (partial : nat) (s1 s2 : Simulator) :
  serde_roundtrip to_vec from_slice -> Z.of_nat (length (to_vec (save_header (sim_core s1)))) < 2 ^ 64 ->
  saved_ok (sim_core s1) -> regs_ok (regs (hart (sim_core s2))) -> ram_size (sim_core s1) = ram_size (sim_core s2) ->
  let '(e, s) := sim_restore from_slice partial (save to_vec (sim_core s1)) s2 in
  let h1 := hart (sim_core s1) in let h2 := hart (sim_core s2) in let h := hart (sim_core s) in
  e = None /\
  (pc h = pc h1 /\ privilege h = privilege h1 /\ direct_mode h = direct_mode h1 /\ regs h = regs h1 /\
   csrs h = (csrs h1) <| menvcfg := menvcfg (csrs h2) |> /\
   wfi_waiting (machine (sim_core s)) = wfi_waiting (machine (sim_core s1)) /\ wfi_pc (machine (sim_core s)) = wfi_pc (machine (sim_core s1)) /\
   forall i, 0 <= i < ram_size (sim_core s1) -> db_byte (dram_of (sim_core s)) i = db_byte (dram_of (sim_core s1)) i) /\
  (forall vpn asid, tlb_lookup (dtlb (mmu h)) vpn asid = None /\ tlb_lookup (itlb (mmu h)) vpn asid = None).
Proof.
  intros Hserde Hlen Hok Hregs Hsize. set (c1 := sim_core s1) in *. set (c2 := sim_core s2) in *.
  unfold sim_restore. rewrite restore_run by done. fold c2.
  set (data := ram_slice c1 _). rewrite restore_hart_saved by done. set (c3 := upd_hart _ _). set (c := flush_caches _).
  assert (E : sim_core (sim_on_core (fun _ => c) s2) = c) by (unfold sim_core, sim_on_core; by destruct (sim_pipeline s2)).
  rewrite E. split; [done|]. split; [|intros; split; apply tlb_flush_empty].
  split_and!; try done. intros i Hi. change (dram_of c) with (dram_of (write_ram data c3)). rewrite write_ram_bytes.
  assert (Hl : Z.of_nat (length data) = ram_size c1) by (unfold data, ram_slice; rewrite length_fmap, length_seq; lia).
  rewrite (proj2 (Z.leb_le _ _)), (proj2 (Z.ltb_lt _ _)) by lia. cbn [andb]. apply ram_slice_lookup. lia.
Qed.

(** *** A concrete serialiser: the compact text of JSON

    Members come in the order of their keys, as from [serde_json]'s map; the
    reader knows what the writer writes: no blanks, escapes, signs or fractions. *)
Definition key_le (e e' : string * Json) : Prop := String.le e.1 e'.1.
#[local] Instance key_le_dec e e' : Decision (key_le e e').
Proof. unfold key_le. apply _. Defined.
Fixpoint json_sort (j : Json) : Json :=
  match j with
  | JArr l => JArr (json_sort <$> l)
  | JObj l => JObj (merge_sort key_le ((fun e => (e.1, json_sort e.2)) <$> l))
  | j => j
  end.
Fixpoint digits (fuel : nat) (n : Z) : list Z :=
  match fuel with
  | O => []
  | S fuel => (if n <? 10 then [] else digits fuel (n / 10)) ++ [48 + n mod 10]
  end.
Definition quoted (s : string) : list Z := 34 :: as_bytes s ++ [34].
Definition commas (l : list (list Z)) : list Z :=
  match l with [] => [] | x :: l => x ++ concat ((fun y => 44 :: y) <$> l) end.
Fixpoint json_text (j : Json) : list Z :=
  match j with
  | JNull => as_bytes "null"
  | JBool b => as_bytes (if b then "true" else "false")
  | JNum n => digits 20 n
  | JStr s => quoted s
  | JArr l => 91 :: commas (json_text <$> l) ++ [93]
  | JObj l => 123 :: commas ((fun e => quoted e.1 ++ 58 :: json_text e.2) <$> l) ++ [125]
  end.
Definition demo_to_vec (j : Json) : list Z := json_text (json_sort j).

Definition strip (c : Z) (l : list Z) : option (list Z) := match l with d :: l => if d =? c then Some l else None | [] => None end.
Fixpoint strip_all (p l : list Z) : option (list Z) := match p with [] => Some l | c :: p => strip c l ≫= strip_all p end.
Fixpoint read_text (l : list Z) : option (string * list Z) :=
  match l with
  | [] => None
  | c :: l => if c =? 34 then Some (""%string, l)
              else '(s, l) ← read_text l; Some (String (ascii_of_nat (Z.to_nat c)) s, l)
  end.
Fixpoint read_digits (n : Z) (l : list Z) : Z * list Z :=
  match l with
  | c :: k => if (48 <=? c) && (c <? 58) then read_digits (n * 10 + (c - 48)) k else (n, l)
  | [] => (n, l)
  end.
(** Items separated by commas, up to [close]; [n] bounds their number. *)
Fixpoint read_items {A} (item : list Z -> option (A * list Z)) (close : Z) (n : nat) (l : list Z) : option (list A * list Z) :=
  match n with
  | O => None
  | S n =>
      '(x, l) ← item l;
      match strip 44 l with
      | Some l => '(xs, l) ← read_items item close n l; Some (x :: xs, l)
      | None => l ← strip close l; Some ([x], l)
      end
  end.
Definition read_list {A} (item : list Z -> option (A * list Z)) (close : Z) (l : list Z) : option (list A * list Z) :=
  match strip close l with Some l => Some ([], l) | None => read_items item close (length l) l end.
Definition read_member (value : list Z -> option (Json * list Z)) (l : list Z) : option (string * Json * list Z) :=
  l ← strip 34 l; '(k, l) ← read_text l; l ← strip 58 l; '(j, l) ← value l; Some ((k, j), l).
Fixpoint read_json (depth : nat) (l : list Z) : option (Json * list Z) :=
  match depth with
  | O => None
  | S depth =>
      match l with
      | [] => None
      | c :: k =>
          if c =? 110 then l ← strip_all (as_bytes "null") l; Some (JNull, l)
          else if c =? 116 then l ← strip_all (as_bytes "true") l; Some (JBool true, l)
          else if c =? 102 then l ← strip_all (as_bytes "false") l; Some (JBool false, l)
          else if c =? 34 then '(s, l) ← read_text k; Some (JStr s, l)
          else if c =? 91 then '(xs, l) ← read_list (read_json depth) 93 k; Some (JArr xs, l)
          else if c =? 123 then '(xs, l) ← read_list (read_member (read_json depth)) 125 k; Some (JObj xs, l)
          else if (48 <=? c) && (c <? 58) then let '(n, l) := read_digits 0 l in Some (JNum n, l)
          else None
      end
  end.
Definition demo_from_slice (l : list Z) : option Json :=
  match read_json (length l) l with Some (j, []) => Some j | _ => None end.

(** What may follow a value. *)
Definition value_ends (l : list Z) : Prop := match l with c :: _ => c = 44 \/ c = 93 \/ c = 125 | [] => True end.
Lemma plain_code c : plain_char c = true ->
  let n := Z.of_nat (nat_of_ascii c) in n <> 34 /\ ascii_of_nat (Z.to_nat n) = c.
Proof. cbv zeta. unfold plain_char. intros H. rewrite Nat2Z.id, ascii_nat_embedding. split; [|done]. apply andb_true_iff in H as [[_ H%negb_true_iff%Z.eqb_neq]%andb_true_iff _]. exact H. Qed.
Lemma read_text_plain s l : plain_text s -> read_text (as_bytes s ++ 34 :: l) = Some (s, l).
Proof.
  unfold plain_text, as_bytes. induction s as [|c s IH]; [done|]. cbn [list_ascii_of_string]. intros [Hc Hs]%Forall_cons.
  apply plain_code in Hc as (Hc & Hc'). rewrite fmap_cons. cbn [app read_text]. rewrite (proj2 (Z.eqb_neq _ _)) by done.
  rewrite IH by done. cbn [mbind option_bind]. by rewrite Hc'.
Qed.
Lemma strip_all_app p l : strip_all p (p ++ l) = Some l.
Proof. induction p as [|c p IH]; [done|]. cbn. by rewrite Z.eqb_refl. Qed.
Lemma read_digit m d l : 0 <= d < 10 -> read_digits m (48 + d :: l) = read_digits (m * 10 + d) l.
Proof.
  intros Hd. generalize (eq_refl (48 + d)). generalize (48 + d) at 1 3. intros c Hc. cbn [read_digits].
  rewrite (proj2 (Z.leb_le _ _)), (proj2 (Z.ltb_lt _ _)) by lia. cbn [andb]. by replace (c - 48) with d by lia.
Qed.
Lemma read_digits_text fuel n l : 0 <= n < 10 ^ Z.of_nat fuel -> (0 < fuel)%nat -> read_digits 0 (digits fuel n ++ l) = read_digits n l.
Proof.
  intros Hn Hf. revert n l Hn. induction fuel as [|fuel IH]; intros n l Hn; [lia|]. rewrite Nat2Z.inj_succ, Z.pow_succ_r in Hn by lia.
  pose proof (Z.mod_pos_bound n 10). pose proof (Z.div_mod n 10). cbn [digits]. destruct (Z.ltb_spec n 10).
  - cbn [app]. rewrite read_digit, Z.mod_small by lia. done.
  - rewrite <-app_assoc. destruct fuel; [cbn in Hn; lia|]. rewrite IH by (first [lia | split; [apply Z.div_pos|apply Z.div_lt_upper_bound]; lia]).
    cbn [app]. rewrite read_digit by lia. f_equal. lia.
Qed.
Lemma read_digits_end n l : value_ends l -> read_digits n l = (n, l).
Proof.
  destruct l as [|c l]; [done|]. cbn. intros Hc. replace ((48 <=? c) && (c <? 58)) with false; [done|].
  symmetry. apply andb_false_iff. rewrite Z.leb_gt, Z.ltb_ge. lia.
Qed.
Lemma digits_head fuel n : 0 <= n -> exists c k, digits (S fuel) n = c :: k /\ 48 <= c < 58.
Proof.
  revert n. induction fuel as [|fuel IH]; intros n Hn; pose proof (Z.mod_pos_bound n 10); cbn [digits]; destruct (Z.ltb_spec n 10);
    try (exists (48 + n mod 10), []; split; [done|lia]).
  destruct (IH (n / 10)) as (c & k & E & Hc); [by apply Z.div_pos; lia|]. cbn [digits] in E. rewrite E. by eexists _, _.
Qed.
(** The first character of a value is none of the separators. *)
Lemma json_text_head j : json_ok j -> exists c k, json_text j = c :: k /\ c <> 93 /\ c <> 125 /\ c <> 44.
Proof.
  intros [|[]|n [Hn _]|s _|l _|l _ _]; try (eexists _, _; split; [reflexivity|]; split_and!; intros E; vm_compute in E; discriminate E).
  destruct (digits_head 19 n Hn) as (c & k & E & Hc). exists c, k. split; [exact E|lia].
Qed.

Section Items.
Context {A : Type} (item : list Z -> option (A * list Z)) (f : A -> list Z) (close : Z).
Context (Hclose : close = 93 \/ close = 125).
Definition reads (x : A) : Prop := (forall l, value_ends l -> item (f x ++ l) = Some (x, l)) /\ exists c k, f x = c :: k /\ c <> close.
Lemma read_items_commas l n xs : Forall reads xs -> xs <> [] -> (length xs <= n)%nat ->
  read_items item close n (commas (f <$> xs) ++ close :: l) = Some (xs, l).
Proof using Hclose.
  intros H. revert n. induction H as [|x xs [Hx _] H IH]; intros n Hne Hn; [done|]. destruct n as [|n]; [cbn in Hn; lia|].
  cbn [fmap list_fmap commas read_items]. rewrite <-app_assoc.
  assert (value_ends (concat ((fun y => 44 :: y) <$> (f <$> xs)) ++ close :: l)) as He
    by (destruct xs; cbn; [destruct Hclose as [->| ->]; auto|auto]).
  unfold fmap in He |- *. rewrite Hx by exact He. clear He. cbn [mbind option_bind]. destruct xs as [|x' xs].
  - cbn [list_fmap concat app strip]. rewrite (proj2 (Z.eqb_neq close 44)), Z.eqb_refl by lia. done.
  - cbn [list_fmap concat app strip]. rewrite Z.eqb_refl. specialize (IH n ltac:(done) ltac:(cbn in *; lia)).
    cbn [fmap list_fmap commas] in IH. unfold fmap in IH. by rewrite IH.
Qed.
Lemma commas_length xs : Forall reads xs -> (length xs <= length (commas (f <$> xs)))%nat.
Proof.
  intros H. destruct H as [|x xs (_ & c & k & Ex & _) H]; [done|]. cbn [fmap list_fmap commas length]. rewrite Ex. cbn [app length].
  apply le_n_S. rewrite length_app. clear -H. transitivity (length (concat ((fun y => 44 :: y) <$> (f <$> xs)))); [|lia].
  induction H as [|x xs _ H IH]; [done|]. cbn [fmap list_fmap concat app length] in *. rewrite length_app. unfold fmap in *. lia.
Qed.
Lemma read_list_commas l xs : Forall reads xs -> read_list item close (commas (f <$> xs) ++ close :: l) = Some (xs, l).
Proof using Hclose.
  intros H. unfold read_list. destruct xs as [|x xs]; [cbn; by rewrite Z.eqb_refl|].
  assert (strip close (commas (f <$> x :: xs) ++ close :: l) = None) as ->.
  { apply Forall_cons in H as [(_ & c & k & Ex & Hc) _]. cbn [fmap list_fmap commas]. rewrite Ex. cbn. by rewrite (proj2 (Z.eqb_neq _ _)). }
  apply read_items_commas; [done|done|]. rewrite length_app. pose proof (commas_length _ H). lia.
Qed.
End Items.

Lemma length_in_commas (x : list Z) l : x ∈ l -> (length x <= length (commas l))%nat.
Proof.
  destruct l as [|y l]; [by intros ?%not_elem_of_nil|]. cbn [commas]. rewrite length_app. intros [->|Hx]%elem_of_cons; [lia|].
  enough (le (length x) (length (concat ((fun y => 44 :: y) <$> l)))) by lia. clear y.
  induction l as [|y l IH]; [by apply not_elem_of_nil in Hx|]. rewrite fmap_cons. cbn [concat app length]. rewrite length_app.
  apply elem_of_cons in Hx as [->|Hx]; [lia|]. specialize (IH Hx). lia.
Qed.
Lemma read_json_text j : json_ok j -> forall depth l, (length (json_text j) <= depth)%nat -> value_ends l ->
  read_json depth (json_text j ++ l) = Some (j, l).
Proof.
  induction j as [|b|n|s|xs IH|xs IH] using json_ind'; intros Hok depth l Hd Hl; inversion Hok as [| |? Hn|? Hs|? Hxs|? _ Hxs]; subst;
    (destruct depth as [|depth]; [destruct (json_text_head _ Hok) as (? & ? & E & _); rewrite E in Hd; cbn in Hd; lia|]).
  - reflexivity.
  - by destruct b.
  - cbn [json_text]. destruct (digits_head 19 n) as (c & k & E & Hc); [apply Hn|].
    pose proof (read_digits_text 20 n l) as R. rewrite E in R |- *. cbn [app] in R |- *. cbn [read_json].
    rewrite !(proj2 (Z.eqb_neq c _)), (proj2 (Z.leb_le _ _)), (proj2 (Z.ltb_lt _ _)) by lia. cbn [andb].
    rewrite R, read_digits_end; [done|done|destruct Hn; split; [done|etransitivity; [eassumption|done]]|lia].
  - cbn [json_text]. unfold quoted. cbn [app read_json]. cbn [Z.eqb Pos.eqb]. rewrite <-app_assoc. cbn [app].
    by rewrite read_text_plain.
  - cbn [json_text app read_json length] in *. cbn [Z.eqb Pos.eqb]. rewrite <-app_assoc. cbn [app].
    rewrite (read_list_commas _ json_text) by (lia || (apply Forall_forall; intros x Hx; split;
      [intros l' Hl'; rewrite Forall_forall in IH, Hxs; apply IH; [done|by apply Hxs| |done];
         pose proof (length_in_commas (json_text x) (json_text <$> xs) ltac:(by apply list_elem_of_fmap_2)) as Hlen;
         rewrite length_app in Hd; lia
      |rewrite Forall_forall in Hxs; destruct (json_text_head x) as (c & k & E & Hc); [by apply Hxs|]; exists c, k; split; [done|lia]])).
    reflexivity.
  - cbn [json_text app read_json length] in *. cbn [Z.eqb Pos.eqb]. rewrite <-app_assoc. cbn [app].
    rewrite (read_list_commas _ (fun e => quoted e.1 ++ 58 :: json_text e.2)); [done|lia|].
    apply Forall_forall. intros [k j] Hx. split; [|eexists _, _; by split]. intros l' Hl'.
    rewrite Forall_forall in IH, Hxs. destruct (Hxs _ Hx) as [Hk Hj]. unfold read_member, quoted. cbn [fst snd] in *.
    cbn [app strip Z.eqb Pos.eqb mbind option_bind]. rewrite <-!app_assoc. cbn [app]. rewrite read_text_plain by done.
    cbn [mbind option_bind strip Z.eqb Pos.eqb].
    pose proof (length_in_commas _ _ (list_elem_of_fmap_2 (fun e : string * Json => quoted e.1 ++ 58 :: json_text e.2) _ _ Hx)) as Hlen.
    cbn [fst snd] in Hlen. rewrite length_app in Hd, Hlen. cbn [length] in Hlen.
    assert (E : read_json depth (json_text j ++ l') = Some (j, l')) by (apply (IH _ Hx); [done|cbn [snd]; lia|done]). rewrite E.
    done.
Qed.

Lemma json_sort_same j : same_json j (json_sort j).
Proof.
  induction j as [|b|n|s|l IH|l IH] using json_ind'; cbn [json_sort]; try constructor.
  - induction IH; constructor; done.
  - eapply same_obj; [|symmetry; apply merge_sort_Permutation]. induction IH; constructor; done.
Qed.
Lemma json_sort_ok j : json_ok j -> json_ok (json_sort j).
Proof.
  induction j as [|b|n|s|l IH|l IH] using json_ind'; intros Hok; try done; inversion Hok as [| | | |? Hl|? Hn Hl]; subst; cbn [json_sort].
  - constructor. clear Hok. induction IH; [constructor|]. apply Forall_cons in Hl as [? ?]. rewrite fmap_cons. constructor; auto.
  - assert (Hp := merge_sort_Permutation key_le ((fun e => (e.1, json_sort e.2)) <$> l)).
    constructor; rewrite Hp.
    + by rewrite <-list_fmap_compose.
    + clear Hok Hp Hn. induction IH; [constructor|]. apply Forall_cons in Hl as [[? ?] ?]. rewrite fmap_cons. constructor; auto.
Qed.
Lemma demo_serde : serde_roundtrip demo_to_vec demo_from_slice.
Proof.
  intros j Hok%json_sort_ok. exists (json_sort j). split; [|apply json_sort_same]. unfold demo_from_slice, demo_to_vec.
  pose proof (read_json_text (json_sort j) Hok (length (json_text (json_sort j))) [] ltac:(lia) I) as E. rewrite app_nil_r in E. by rewrite E.
Qed.

#[local] Instance in_width_decision w x : Decision (in_width w x).
Proof. unfold in_width. apply _. Defined.
Definition regs_ok_b (r : RegisterFile) : bool :=
  bool_decide (length (gpr r) = 32%nat /\ length (fpr r) = 32%nat /\ gpr r !! 0%nat = Some 0 /\
    Forall (in_width 64) (gpr r) /\ Forall (in_width 64) (fpr r)).
Lemma regs_ok_b_true r : regs_ok_b r = true -> regs_ok r.
Proof. unfold regs_ok_b. rewrite bool_decide_eq_true. intros (? & ? & ? & ? & ?). by split. Qed.
Definition saved_ok_b (c : core) : bool :=
  regs_ok_b (regs (hart c)) &&
  bool_decide (Forall (fun f => in_width 64 (f.2.1 (csrs (hart c)))) csr_fields /\ in_width 64 (pc (hart c)) /\
    in_width 64 (wfi_pc (machine c)) /\ in_width 64 (ram_start (machine c)) /\ in_width 64 (ram_end (machine c))).
Lemma saved_ok_b_true c : saved_ok_b c = true -> saved_ok c.
Proof. unfold saved_ok_b. rewrite andb_true_iff, bool_decide_eq_true. intros (?%regs_ok_b_true & ? & ? & ? & ? & ?). by split. Qed.

(** A machine with 64 bytes of RAM, written to, with some registers set, and a
    fresh out-of-order machine that takes its checkpoint: the registers arrive,
    the physical register that holds x10 does not change. *)
Definition small_config (backend : BackendType) : Config :=
  config_default <| pipeline := pipeline_default <| pl_backend := backend |> |> <| memory := memory_default <| cfg_ram_size := 64 |> |>.
Definition small_sim (backend : BackendType) : option Simulator :=
  simulator_new (system_new (small_config backend) None) (small_config backend).
Definition used_sim : option Simulator :=
  (sim_on_core (fun c => load_at [7; 8; 9] 0x80000010 (write_reg REG_A0 42 (start_at 0x80000020 c)))) <$> small_sim BkOutOfOrder.
Definition phys_a0 (s : Simulator) : option Z :=
  match sim_pipeline s with
  | PdOutOfOrder p => Some (prf_read (o3_prf (ob_engine (ps_engine p))) 10)
  | PdInOrder _ => None
  end.
Lemma checkpoint_roundtrip_witness :
  exists s1 s2, used_sim = Some s1 /\ small_sim BkOutOfOrder = Some s2 /\
    let s := (sim_restore demo_from_slice 0 (save demo_to_vec (sim_core s1)) s2).2 in
    pc (hart (sim_core s)) = 0x80000020 /\ regs_read (regs (hart (sim_core s))) REG_A0 = 42 /\ db_byte (dram_of (sim_core s)) 17 = 8.
Proof.
  assert (C : match used_sim, small_sim BkOutOfOrder with
              | Some s1, Some s2 =>
                  saved_ok_b (sim_core s1) && regs_ok_b (regs (hart (sim_core s2))) && (ram_size (sim_core s1) =? ram_size (sim_core s2)) &&
                  (Z.of_nat (length (demo_to_vec (save_header (sim_core s1)))) <? 2 ^ 64) &&
                  (pc (hart (sim_core s1)) =? 0x80000020) && (regs_read (regs (hart (sim_core s1))) REG_A0 =? 42) &&
                  (db_byte (dram_of (sim_core s1)) 17 =? 8) && (17 <? ram_size (sim_core s1))
              | _, _ => false end = true) by (vm_compute; reflexivity).
  destruct used_sim as [s1|]; [|discriminate C]. destruct (small_sim BkOutOfOrder) as [s2|]; [|discriminate C]. to_prop.
  pose proof (checkpoint_roundtrip demo_to_vec demo_from_slice 0 s1 s2 demo_serde) as Hck.
  exists s1, s2. split; [done|]. split; [done|]. cbv zeta. destruct (sim_restore _ _ _ _) as [e s]. cbn [snd].
  destruct Hck as (_ & (Hpc & _ & _ & Hr & _ & _ & _ & Hm) & _);
    [assumption|by apply saved_ok_b_true|by apply regs_ok_b_true|assumption|].
  split_and!; [by rewrite Hpc|by rewrite Hr|rewrite Hm by lia; assumption].
Defined.
(** The text of a value, and the physical register of x10 that the restored
    out-of-order engine keeps. *)
Example demo_text :
  demo_to_vec (JObj [("b", JArr [JNum 10; JBool true]); ("a", JObj [])]%string) =
  as_bytes "{" ++ quoted "a" ++ as_bytes ":{}," ++ quoted "b" ++ as_bytes ":[10,true]}".
Proof. reflexivity. Qed.
Example restored_engine_keeps_registers :
  match used_sim, small_sim BkOutOfOrder with
  | Some s1, Some s2 =>
      let '(e, s) := sim_restore demo_from_slice 0 (save demo_to_vec (sim_core s1)) s2 in
      (e, regs_read (regs (hart (sim_core s))) REG_A0, bool_decide (phys_a0 s = phys_a0 s2), phys_a0 s2)
  | _, _ => (None, 0, false, None)
  end = (None, 42, true, Some 0).
Proof. vm_compute. reflexivity. Qed.

(** ** Run loops against a plain count of cycles *)

Section RunSpec.
Context `{!FpUnit}.

(** At most [n] cycles, up to an exit or an error. *)
Fixpoint ref_run (n : nat) (s : Simulator) : RunEnd * Simulator :=
  match n with
  | O => (Done None, s)
  | S n =>
      match sim_tick s with
      | StepOk s' => match take_exit s' with (Some code, s') => (Done (Some code), s') | (None, s') => ref_run n s' end
      | StepErr e => (SimFailed e, s)
      | StepPanicked => (Panicked, s)
      | StepHung => (Hung, s)
      end
  end.
(** In the next [n] cycles the guest leaves the cycle counter alone: each cycle
    adds one to it. *)
Fixpoint steady (n : nat) (s : Simulator) : Prop :=
  match n with
  | O => True
  | S n => match sim_tick s with StepOk s' => sim_cycles s' = sim_cycles s + 1 /\ steady n (take_exit s').2 | _ => True end
  end.

Lemma take_exit_cycles s : sim_cycles (take_exit s).2 = sim_cycles s.
Proof. unfold sim_cycles, take_exit, sim_core, sim_on_core. cbn [snd]. by destruct (sim_pipeline s). Qed.
Lemma steady_le n m s : (m <= n)%nat -> steady n s -> steady m s.
Proof.
  revert n s. induction m as [|m IH]; intros n s Hle Hs; [done|]. destruct n as [|n]; [lia|]. cbn [steady] in *.
  destruct (sim_tick s) as [s'| | |]; [|done..]. destruct Hs as [Hc Hs]. split; [done|]. apply (IH n); [lia|done].
Qed.
Lemma ref_run_app a b s :
  ref_run (a + b) s = match ref_run a s with (Done None, s') => ref_run b s' | r => r end.
Proof.
  revert s. induction a as [|a IH]; intros s; [done|]. cbn [Nat.add ref_run].
  destruct (sim_tick s) as [s'| | |]; [|done..]. destruct (take_exit s') as [[code|] s2]; [done|]. apply IH.
Qed.
Lemma steady_app a b s s' : steady (a + b) s -> ref_run a s = (Done None, s') -> steady b s' /\ sim_cycles s' = sim_cycles s + Z.of_nat a.
Proof.
  revert s. induction a as [|a IH]; intros s Hs Hr.
  - injection Hr as <-. split; [done|lia].
  - cbn [Nat.add steady ref_run] in *. destruct (sim_tick s) as [s1| | |]; [|done..]. destruct Hs as [Hc Hs].
    pose proof (take_exit_cycles s1) as Ht. destruct (take_exit s1) as [[code|] s2]; [done|]. cbn [snd] in *.
    destruct (IH s2 Hs Hr) as [H1 H2]. split; [done|]. rewrite H2. lia.
Qed.

Lemma run_inner_ref n s fuel start :
  steady n s -> start <= sim_cycles s -> (n < fuel)%nat ->
  run_inner_loop fuel start (Some (sim_cycles s - start + Z.of_nat n)) [] s = Some ((ref_run n s).1, [], (ref_run n s).2).
Proof.
  revert s fuel. induction n as [|n IH]; intros s [|fuel] Hs Hle Hf; try lia; cbn [run_inner_loop ref_run]; unfold saturating_sub.
  - rewrite (proj2 (Z.leb_le _ _)) by lia. done.
  - rewrite (proj2 (Z.leb_gt _ _)) by lia. cbn [steady] in Hs. replace (if is_multiple_of (sim_cycles s) 10000 then check_signals [] else (false, [])) with (false, @nil bool) by by case_bool.
    destruct (sim_tick s) as [s'| | |]; [|done..]. destruct Hs as [Hc Hs].
    pose proof (take_exit_cycles s') as Ht. destruct (take_exit s') as [[code|] s2]; [done|]. cbn [snd] in *.
    replace (sim_cycles s - start + Z.of_nat (S n)) with (sim_cycles s2 - start + Z.of_nat n) by lia. apply IH; [done|lia|lia].
Qed.
Lemma run_for_cycles_ref n s fuel :
  steady n s -> (n < fuel)%nat -> run_for_cycles fuel (Z.of_nat n) [] s = Some ((ref_run n s).1, [], (ref_run n s).2).
Proof.
  intros Hs Hf. unfold run_for_cycles, run_inner. pose proof (run_inner_ref n s fuel (sim_cycles s) Hs ltac:(lia) Hf) as E.
  by replace (sim_cycles s - sim_cycles s + Z.of_nat n) with (Z.of_nat n) in E by lia.
Qed.

(** The chunks into which [n] cycles are cut. *)
Lemma next_chunk_limit max chunk k n :
  max = Z.of_nat (k + n) -> 0 < chunk ->
  next_chunk (Some max) chunk (Z.of_nat k) = if (n =? 0)%nat then None else Some (Z.of_nat (Nat.min (Z.to_nat chunk) n)).
Proof.
  intros -> Hc. unfold next_chunk, saturating_sub. replace (Z.max (Z.of_nat (k + n) - Z.of_nat k) 0) with (Z.of_nat n) by lia.
  destruct n as [|n]; [done|]. rewrite (proj2 (Z.eqb_neq _ _)) by lia. cbn [Nat.eqb]. f_equal. lia.
Qed.
(** The first chunk of [n] cycles, after [k] of them. *)
Lemma first_chunk chunk n k s inner :
  0 < chunk -> Z.of_nat (k + n) < 2 ^ 64 -> steady n s -> (n < inner)%nat -> n <> 0%nat ->
  exists c r s', (0 < c <= n)%nat /\ next_chunk (Some (Z.of_nat (k + n))) chunk (Z.of_nat k) = Some (Z.of_nat c) /\
    run_for_cycles inner (Z.of_nat c) [] s = Some (r, [], s') /\
    match r with
    | Done None => steady (n - c) s' /\ ref_run n s = ref_run (n - c) s' /\ add64 (Z.of_nat k) (Z.of_nat c) = Z.of_nat (k + c) /\
                   (k + n)%nat = ((k + c) + (n - c))%nat
    | r => ref_run n s = (r, s')
    end.
Proof.
  intros Hp Hw Hs Hi Hn. set (c := Nat.min (Z.to_nat chunk) n). assert (Hc : (0 < c <= n)%nat) by lia.
  destruct (ref_run c s) as [r s'] eqn:Er. exists c, r, s'. split; [done|].
  rewrite (next_chunk_limit _ _ _ n), (proj2 (Nat.eqb_neq _ _)) by done. split; [done|].
  rewrite run_for_cycles_ref by (first [apply (steady_le n); [lia|done] | lia]). rewrite Er. split; [done|].
  assert (En : n = (c + (n - c))%nat) by lia.
  assert (ref_run n s = match ref_run c s with (Done None, s') => ref_run (n - c) s' | r => r end) as ->
    by (rewrite En at 1; apply ref_run_app).
  rewrite Er. destruct r as [[code|]| | | |]; try done. rewrite En in Hs. destruct (steady_app c (n - c) s s' Hs Er) as [Hs' _].
  split_and!; [done|done| |lia]. unfold add64. rewrite <-Nat2Z.inj_add. apply wrap_small. unfold in_width. lia.
Qed.

(** A loop that runs chunks until one of them ends is the run of all their
    cycles. *)
Section Chunks.
Context {R : Type} (loop : nat -> Z -> Z -> list bool -> Simulator -> option R) (view : R -> RunEnd * Simulator).
Context (chunk : Z) (inner : nat).
Context (Hchunk : 0 < chunk).
Context (Hstop : forall fuel max cycles_run s, next_chunk (Some max) chunk cycles_run = None ->
  view <$> loop (S fuel) max cycles_run [] s = Some (Done None, s)).
Context (Hend : forall fuel max cycles_run c s r s', next_chunk (Some max) chunk cycles_run = Some c -> r <> Done None ->
  run_for_cycles inner c [] s = Some (r, [], s') -> view <$> loop (S fuel) max cycles_run [] s = Some (r, s')).
Context (Hnext : forall fuel max cycles_run c s s', next_chunk (Some max) chunk cycles_run = Some c ->
  run_for_cycles inner c [] s = Some (Done None, [], s') ->
  view <$> loop (S fuel) max cycles_run [] s = view <$> loop fuel max (add64 cycles_run c) [] s').
Lemma chunks_ref n : forall k s fuel,
  Z.of_nat (k + n) < 2 ^ 64 -> steady n s -> (n < fuel)%nat -> (n < inner)%nat ->
  view <$> loop fuel (Z.of_nat (k + n)) (Z.of_nat k) [] s = Some (ref_run n s).
Proof using Hchunk Hstop Hend Hnext.
  induction n as [n IH] using (well_founded_induction lt_wf). intros k s [|fuel] Hw Hs Hf Hi; [lia|].
  destruct (Nat.eq_dec n 0) as [->|Hn].
  - apply Hstop. by rewrite (next_chunk_limit _ _ _ 0).
  - destruct (first_chunk chunk n k s inner Hchunk Hw Hs Hi Hn) as (c & r & s' & Hc & Ec & Er & Hr).
    assert (Hcase : r = Done None \/ r <> Done None) by (destruct r as [[?|]| | | |]; by auto).
    destruct Hcase as [->|Hne].
    + destruct Hr as (Hs' & -> & Ek & En). rewrite (Hnext _ _ _ _ _ _ Ec Er), Ek, En. apply IH; [lia|lia|done|lia|lia].
    + rewrite (Hend _ _ _ _ _ _ _ Ec Hne Er). by destruct r as [[?|]| | | |]; try rewrite Hr.
Qed.
End Chunks.
End RunSpec.

Section RunsAgree.
Context `{!FpUnit}.
Definition outcome_view (o : RunEnd * list bool * Simulator) : RunEnd * Simulator := (o.1.1, o.2).

Lemma progress_ref progress n s fuel :
  0 < progress -> Z.of_nat n < 2 ^ 64 -> steady n s -> (n < fuel)%nat ->
  outcome_view <$> run_with_progress fuel (Some (Z.of_nat n)) progress [] s = Some (ref_run n s).
Proof.
  intros Hp Hw Hs Hf.
  change (run_with_progress fuel (Some (Z.of_nat n)) progress [] s)
    with (progress_loop fuel fuel (Some (Z.of_nat (0 + n))) progress (Z.of_nat 0) [] s).
  refine (chunks_ref (fun f max k => progress_loop f fuel (Some max) progress k) outcome_view progress fuel Hp
    _ _ _ n 0%nat s fuel Hw Hs Hf Hf).
  - intros f max k s0 E. cbn [progress_loop]. by rewrite E.
  - intros f max k c s0 r s' E Hr Er. cbn [progress_loop]. rewrite E, Er. by destruct r as [[?|]| | | |].
  - intros f max k c s0 s' E Er. cbn [progress_loop]. by rewrite E, Er.
Qed.
Lemma sample_acc inner every limit fuel : forall k acc signals s,
  (fun o => outcome_view o.1) <$> sample_loop fuel inner every limit k acc signals s =
  (fun o => outcome_view o.1) <$> sample_loop fuel inner every limit k [] signals s.
Proof.
  induction fuel as [|fuel IH]; intros k acc signals s; [done|]. cbn [sample_loop].
  destruct (next_chunk limit every k) as [c|]; [|done].
  destruct (run_for_cycles inner c signals s) as [[[[[?|]| | | |] sg] s']|]; cbn [mbind option_bind]; try done.
  rewrite IH. symmetry. apply IH.
Qed.
Lemma sample_ref every n s fuel :
  0 < every -> Z.of_nat n < 2 ^ 64 -> steady n s -> (n < fuel)%nat ->
  (fun o => outcome_view o.1) <$> sample fuel every (Some (Z.of_nat n)) [] s = Some (ref_run n s).
Proof.
  intros Hp Hw Hs Hf.
  change (sample fuel every (Some (Z.of_nat n)) [] s)
    with (sample_loop fuel fuel every (Some (Z.of_nat (0 + n))) (Z.of_nat 0) [] [] s).
  refine (chunks_ref (fun f max k => sample_loop f fuel every (Some max) k []) (fun o => outcome_view o.1) every fuel Hp
    _ _ _ n 0%nat s fuel Hw Hs Hf Hf).
  - intros f max k s0 E. cbn [sample_loop]. by rewrite E.
  - intros f max k c s0 r s' E Hr Er. cbn [sample_loop]. rewrite E, Er. by destruct r as [[?|]| | | |].
  - intros f max k c s0 s' E Er. cbn [sample_loop]. rewrite E, Er. cbn [mbind option_bind].
    apply sample_acc.
Qed.

(** The run loops count the cycles of the hart, which the guest can write.  A run
    is [steady] while no tick moves that counter by anything but one; a steady
    run with a limit ends, after the limit's cycles unless the program exits or
    fails first, and how it is cut into chunks of a positive size makes no
    difference: with progress reports, and with sampled statistics, it comes to
    the same end in the same state as the plain run. *)
Lemma runs_agree (n fuel : nat) (period : Z) (s : Simulator) :
  0 < period -> Z.of_nat n < 2 ^ 64 -> steady n s -> (n < fuel)%nat ->
  outcome_view <$> run fuel (Some (Z.of_nat n)) 0 [] s = Some (ref_run n s) /\
  outcome_view <$> run fuel (Some (Z.of_nat n)) period [] s = Some (ref_run n s) /\
  (fun o => outcome_view o.1) <$> sample fuel period (Some (Z.of_nat n)) [] s = Some (ref_run n s).
Proof.
  intros Hp Hw Hs Hf. split_and!.
  - change (run fuel (Some (Z.of_nat n)) 0 [] s) with (run_for_cycles fuel (Z.of_nat n) [] s).
    rewrite run_for_cycles_ref by done. cbn. by destruct (ref_run n s).
  - unfold run. rewrite (proj2 (Z.ltb_lt _ _)) by done. by apply progress_ref.
  - by apply sample_ref.
Qed.
End RunsAgree.

Definition booted_demo (backend : BackendType) : option Simulator := sim_sync_arch_regs <$> demo_sim backend.
Lemma runs_agree_demo :
  exists s, booted_demo BkInOrder = Some s /\
    outcome_view <$> run 101 (Some 100) 7 [] s = outcome_view <$> run 101 (Some 100) 0 [] s /\
    (fun o => sim_cycles o.2 - sim_cycles s) <$> (outcome_view <$> run 101 (Some 100) 7 [] s) = Some 100.
Proof.
  assert (C : match booted_demo BkInOrder with
              | Some s => steady 100 s /\ sim_cycles (ref_run 100 s).2 - sim_cycles s = 100
              | None => False end) by (vm_compute; repeat split).
  destruct (booted_demo BkInOrder) as [s|]; [|done]. destruct C as [Hs Hc]. exists s. split; [done|].
  destruct (runs_agree 100 101 7 s) as (E0 & E7 & _); [lia|by vm_compute|exact Hs|lia|].
  change (Z.of_nat 100) with 100 in *. rewrite E0, E7. split; [done|].
  change (Some (sim_cycles (ref_run 100 s).2 - sim_cycles s) = Some 100). by rewrite Hc.
Defined.

(** [step] waits for the last committed instruction to change, so an
    instruction that commits again right after itself goes unnoticed. *)
Definition loop_sim : option Simulator :=
  sim_sync_arch_regs <$> simulator_new (demo_system (demo_sim_config BkInOrder) [I_Jal 0 0]) (demo_sim_config BkInOrder).
Example step_misses_repeated_commit :
  (fun s => let '(r, _, s) := step 200 [] s in
            let retired := instructions_retired (hart (sim_core s)) in
            let '(r', _, s') := step 200 [] s in
            (r, r', retired <? instructions_retired (hart (sim_core s')))) <$> loop_sim
  = Some (Committed 0x80000000 0x6f 147, NoCommit, true).
Proof. vm_compute. reflexivity. Qed.

(** With a period of zero the chunks are empty and sampling never ends. *)
Lemma sample_zero_endless `{!FpUnit} fuel max s : 0 < max -> sample fuel 0 (Some max) [] s = None.
Proof.
  intros Hm. unfold sample. destruct fuel as [|inner]; [done|]. generalize (S inner) at 1. intros fuel. generalize (@nil (Z * Z * CommitStats)).
  induction fuel as [|fuel IH]; intros acc; [done|]. cbn [sample_loop]. unfold next_chunk, saturating_sub.
  rewrite (proj2 (Z.eqb_neq _ _)), Z.min_l by lia. unfold run_for_cycles, run_inner. cbn [run_inner_loop]. unfold saturating_sub.
  rewrite (proj2 (Z.leb_le _ _)) by lia. cbn [mbind option_bind]. apply IH.
Qed.
(** The saved program counter is that of the next fetch: the instructions
    between the last commit and it are in no checkpoint. *)
Example saved_pc_is_ahead_of_commit :
  (fun s => let s := (ref_run 150 s).2 in
            (json_index "pc" (save_header (sim_core s)), committed_next_pc (machine (sim_core s)))) <$> booted_demo BkInOrder
  = Some (JNum 0x80000048, 0x8000000c).
Proof. vm_compute. reflexivity. Qed.
(** A register written through the view does not reach the physical register
    that the out-of-order engine reads. *)
Example view_write_misses_engine :
  (fun s => match registers_setitem s 10 42 with
            | inr s' => (registers_getitem s' 10, bool_decide (phys_a0 s' = phys_a0 s)) | inl e => (inl e, false) end)
  <$> booted_demo BkOutOfOrder = Some (inr 42, true).
Proof. vm_compute. reflexivity. Qed.
(** The view of MCYCLE reads a field that nothing writes. *)
Example view_mcycle_is_stale :
  (fun s => let s := (ref_run 20 s).2 in
            (csrs_getitem s (inl 0xB00), csr_read (hart (sim_core s)) CSR_MCYCLE)) <$> booted_demo BkInOrder = Some (inr (Some 0), 20).
Proof. vm_compute. reflexivity. Qed.
(** A checkpoint of another RAM size is refused after the registers have been
    taken over. *)
Example refused_checkpoint_changes_state :
  match used_sim, booted_demo BkOutOfOrder with
  | Some s1, Some s2 =>
      let '(e, s) := sim_restore demo_from_slice 0 (save demo_to_vec (sim_core s1)) s2 in
      (e, pc (hart (sim_core s2)), pc (hart (sim_core s)))
  | _, _ => (None, 0, 0)
  end = (Some RamSizeMismatch, 0x80000000, 0x80000020).
Proof. vm_compute. reflexivity. Qed.
(** The bound check of [read_phys_bytes] wraps: one byte at the last address
    passes it and reads outside the buffer. *)
Example read_phys_bytes_leaves_ram :
  (fun s => bool_decide (fst <$> read_phys_bytes s (2 ^ 64 - 1) 1 = None)) <$> small_sim BkInOrder = Some true.
Proof. vm_compute. reflexivity. Qed.
